(* ===== verification/_CoqProject ===== *)
-Q . S2P
Prelude.v
Arrays.v
Myfs.v
Nvme.v
Hook.v
Abt.v
Atoi.v
AffinityParser.v
Affinity.v
Env.v
LargePage.v
SyncLifo.v
MemPool.v
MemPoolInv.v
Hashtable.v
Config.v
Key.v
Thread.v
ThreadQueue.v
Pool.v
PoolFifo.v
PoolRandws.v
PoolFifoWait.v
Ult.v
UltLogic.v
UltSafe.v
UltInv.v
UltExec.v
UltJoin.v
UltRun.v
UltCorrect.v
Unit.v
UnitPool.v
Waitlist.v
Mutex.v
MutexConc.v
CondVar.v
CondConc.v
Rwlock.v
Sync.v
Sched.v
SchedPool.v
Xstream.v
XstreamCreate.v
Mylib.v
