(* ===== verification/Prelude.v ===== *)
(** * Verification of staut

    staut runs unmodified storage programs (RocksDB, WiredTiger) on user-level
    threads: a library is loaded into the program, replaces its pthread functions
    by Argobots user-level threads, catches its system calls, and serves the file
    accesses from a small file system on NVMe drives that are driven from user
    space, so that a thread that waits for a drive yields its core to another one.

    ** The program and the files of this development

    - mylib/myfs.c, the file system (a superblock with a file table and a ring of
      free 2 MiB blocks): [Myfs].  [fs] is its global state; every function of the
      file is a definition of the same name.
    - mylib/nvme.cc, the NVMe driver (queue pairs, submission and completion rings,
      DMA buffers, striping over drives): [Nvme].  A queue pair is a [QP]; the
      drive is an environment that posts completions.
    - mylib/hook.c, the system-call hooks (open, read, write, pread, fsync, sleep,
      futex, ...): [Hook], on top of [Myfs] and of an interface to the driver.
    - mylib/mylib.c, the pthread functions: [Mylib], on top of [Mutex],
      [CondVar] and [Rwlock].
    - argobots/src, the threading library: spinlocks and return codes in [Abt],
      work-unit descriptors in [Thread], the intrusive queue
      (pool/thread_queue.h) in [ThreadQueue], the interface of pools in [Pool],
      its implementations pool/fifo.c, pool/randws.c and pool/fifo_wait.c in
      [PoolFifo], [PoolRandws] and [PoolFifoWait], waiting lists
      (include/abti_waitlist.h) in [Waitlist], mutexes (mutex.c, mutex_attr.c,
      include/abti_mutex.h) in [Mutex] and [MutexConc], condition variables
      (cond.c, include/abti_cond.h) in [CondVar] and, interleaved, [CondConc], read-write locks (rwlock.c) in
      [Rwlock], barriers, eventuals and futures (barrier.c, eventual.c, futures.c) in
      [Sync], work-unit-specific data (key.c, include/abti_key.h) in [Key], the
      schedulers (sched/basic.c, prio.c, randws.c, basic_wait.c) in [Sched], the
      configurations of schedulers and pools (sched/sched_config.c,
      pool/pool_config.c) in [Config] on the hash table (util/hashtable.c) of
      [Hashtable].
    - argobots/src, user-level threads (include/abti_ythread.h, include/abti_thread.h,
      ythread.c, thread.c, self.c): the programs in [Ult], as trees of their accesses and
      context switches that any number of streams interleave; what a stream must have for an
      access in [UltLogic]; that every function respects it in [UltSafe]; the invariant in
      [UltInv], its preservation by accesses in [UltExec] and [UltJoin], by switches and
      calls in [UltRun]; the theorems and executable runs in [UltCorrect].
    - argobots/src, units (unit.c, include/abti_unit.h): the hash table from the units of
      user-defined pools to threads, access by access, in [Unit]; the association of work
      units with pools in [UnitPool], on top of the table's specification.
    - argobots/src, creating and freeing: pools and schedulers (pool/pool.c, sched/sched.c,
      include/abti_pool.h, include/abti_sched.h) in [SchedPool]; the list of execution
      streams and their ranks (stream.c) in [Xstream]; the creation and freeing of streams on
      top of both in [XstreamCreate].
    - argobots/src, start-up: number parsing (util/atoi.c) in [Atoi], the parser of
      CPU lists (arch/abtd_affinity_parser.c) in [AffinityParser], the binding of
      execution streams to CPUs (arch/abtd_affinity.c) in [Affinity], the settings
      from the environment (arch/abtd_env.c) in [Env].
    - argobots/src, memory of stacks and descriptors: pages from the system and their
      protection (util/largepage.c, util/mprotect.c) in [LargePage], the lock-free stack
      (include/abti_sync_lifo.h) in [SyncLifo], the memory pools on top of them
      (mem/mem_pool.c, include/abti_mem_pool.h) in [MemPool], with the invariant and
      the theorems in [MemPoolInv].

    This file holds what they share: machine integers as [Z] with their wrap-around
    written out, the monad [C] of C statements with their faults, and lemmas on it;
    [Arrays] holds bounded arrays, [for] loops and ring buffers.

    ** How the code is represented

    A function is a statement of the monad [C S A]: from a state [S] it completes
    with a value, or faults ([UB] for undefined behaviour such as a NULL pointer
    or an index out of range, [AssertFailed], [Blocked] for a lock that is held
    by somebody else, [OutOfFuel]).  A pointer is a key of a finite map, NULL is
    [None].  Where the code races, its atomic steps are the steps of a machine that
    interleaves any number of threads: [Myfs] (block allocation), [MutexConc] (lock,
    trylock, unlock), [CondConc] (wait, signal and broadcast, down to the internal lock), [Rwlock] (critical
    sections; waiting and broadcasting are one step each), [Sync] (critical sections of
    barriers, eventuals and futures), [Key] (writers to one table), [SyncLifo] (every
    access of push and pop), [Unit] (every access of the table), [Ult] (every access of switching, suspending, joining,
    exiting), [Mylib] (lazy initialisation, [pthread_once]); [Nvme] interleaves the host with the drive.

    Code that is not in the repository is a parameter: the drive and the kernel
    behind the hooks, [malloc] (which allocation succeeds, and where), environment
    variables, the CPU sets of the system, clocks, [rand_r], [qsort], and what other
    threads do while a function waits ([env], [yield]).

    Three interfaces separate components: [PoolOps] with [PoolLaws], which the built-in pools
    satisfy and the schedulers are proved against (the laws are about implementations that keep
    their units in a thread queue, so user-defined pools are not covered by them); [Waitable] in [Sync], which
    barriers, eventuals and futures satisfy and the theorems on sleeping and waking
    threads are proved from; and [os] with [OsLaws] in [LargePage], what the memory
    pools rely on of the system.

    ** What is proved

    - [Myfs]: mounting and every legal sequence of operations keep every block in
      exactly one place (a file or the ring); two files never share a sector; a
      read finds the sector the write was given; opening is stable; racing
      allocations get different blocks; and what happens in the corner cases the
      code does not handle (deferred unlinks, an empty ring).
    - [Nvme]: the ring protocol (phase bits, command ids, flags) is an invariant of
      every run of the host's operations and the drive; polling takes exactly what was posted and ends;
      a submission polls until its slot is free, however long that takes, and then takes it; request ids decode to their queue and command; striping is a
      bijection; DMA buffers are disjoint.
    - [Hook]: a read is cut into requests that tile it, and each is polled until the device
      says that it is done, for every device that answers at last; which
      requests a write leaves unawaited; descriptors; system calls on other files are
      passed on unchanged; sleeping ends at the deadline.
    - Pools: the queue refines a double-ended queue; batches keep their order;
      waiting pops wake up or time out; the owner of a work-stealing pool
      takes the newest unit and a thief the oldest.
    - [Waitlist]: waiting, timing out, signalling and broadcasting refine a FIFO of
      waiters; a timed wait answers "timed out" exactly if nobody woke it in time.
    - [MutexConc], [Mutex]: mutual exclusion, the bookkeeping of recursive
      mutexes, no lost wake-up and no deadlock in any interleaving; nesting through
      the API.
    - [CondConc], [CondVar]: in every interleaving, a thread that gave up the mutex to wait is
      in the list, or about to be under the internal lock, before anybody can signal, and a
      wait returns with the mutex held; the tie to the first mutex.
    - [Rwlock]: readers exclude the writer and sleepers wait for somebody inside.
    - [Sync]: the rounds of a barrier; the first set of an eventual wins; a future fills
      in order and calls back once; in all three nobody who should run stays
      asleep, for any number of threads.
    - [Key]: the table of a work unit refines a finite map and its elements never overlap
      (for all accepted sizes but the largest, 2^31, with which the first set is undefined, as
      is shown); racing writers create one table and no duplicate key.
    - [Sched]: told to finish, a scheduler runs everything and returns, if the work ends (units may
      yield, create others, block and be resumed); it returns only
      when told (with the exception found in the waiting scheduler); which pool is
      served first; stealing stays within the array of pools.
    - [Hashtable], [Config]: the hash table refines a finite map; configurations answer
      what they were given.
    - [Atoi]: the numbers are those of a reference definition, saturated at the
      bounds of their type.
    - [AffinityParser], [Affinity]: parsing any string is memory safe and ends, a printed
      CPU list reads back as the CPUs it stands for; initialisation gives a well-formed table and binding
      follows it.
    - [Env]: whatever the environment holds, every setting is in its range.
    - [UltCorrect]: in every interleaving nothing is undefined and no assertion fails except
      those on a stack that could not be allocated or was freed by somebody else (lazy
      stacks; both are shown to happen); every
      thread is on one stream, in one pool once, blocked with its context saved, or
      terminated; no join loses its wake-up, and a stream that waits for a link has it, or
      somebody stores it in finitely many steps of its own, none of which waits; without migration the counters of blocked threads are exact (a run shows
      that with migration they are not).
    - [Unit]: lookups that take no lock find their unit while others map and unmap, in a
      bounded number of accesses; the table is freed completely.
    - [UnitPool]: associating a work unit with a pool succeeds or changes nothing, handles
      lead back to their work unit, and no unit leaks.
    - [SchedPool]: whichever of the calls fails, creating and freeing pools and schedulers
      completes, and an error leaves everything as it was (for the calls with defined arguments; a
      forced free and a NULL result pointer are shown to fault); pools count the schedulers
      that list them; a scheduler created and freed leaves nothing behind.
    - [Xstream]: every operation on ranks does to the assignment of ranks what it promises,
      and keeps the list sorted, doubly linked and complete; the rank INT_MAX, which the
      interface accepts, overflows in the source and is excluded in the statements.
    - [XstreamCreate]: creating a stream succeeds with every part it needs or leaves
      everything as it was, at whichever stage it fails (ranks below INT_MAX); freeing it
      gives everything back.
    - [SyncLifo]: the lock-free stack is linearizable although popped elements are
      reused at once, and lock-free.
    - [MemPoolInv]: memory pools never hand out overlapping or foreign memory, survive
      refused memory, leave blocks in use alone and give every page back; two
      examples show what a wrong count of partial buckets and a small guarded stack do.
    - [Mylib]: lazy initialisation of a mutex happens once whoever races, unless the address
      that malloc returned has a low half that looks like "not initialised" (then it
      happens twice, as an example shows); a static condition variable is undefined at its first
      use, because its NULL attribute is read; a static mutex works from its first use on and is
      given back completely; [pthread_once]; the spread
      of threads over cores.

    ** Bounds and fuel

    Loops of the code that are bounded by their data run on structural recursion
    over that bound; the others take fuel, and the theorems say how much is enough:
    polling a completion queue needs the length of the queue, a read the number of
    its 512-byte sectors, a broadcast the number of descriptors, a timed wait the
    number of polls up to its deadline.  Integers that can wrap in the code wrap here;
    clock readings, which the code keeps in doubles, are exact numbers.

    ** What is not modelled

    The system-call interception (assembly and binary rewriting), the assembly of context
    switches (a context is a continuation), the life cycle of execution streams beyond their
    creation, ranks and freeing (it needs those switches and operating-system threads), reviving and
    freeing of named threads, timed waits in [CondConc] (their list operations are in [Waitlist]), recursive
    readers of a read-write lock, the functions that only check a handle and call a pool, the
    io_uring back end (its rings are shared with the kernel, whose side is not in the
    repository), the variants under blklib and abtlib, the kernel driver and the backup tools.
    What running a unit does is a parameter of the schedulers ([Sched]); [Ult] models it,
    with pools whose order is left open.  [SchedPool], [Xstream] and [XstreamCreate] treat a call as one
    step ([Xstream]: a critical section), with the outcomes of allocations as parameters. *)

From stdpp Require Import base tactics decidable option list numbers gmap fin_maps.
From Stdlib Require Import ZArith Lia.

Open Scope Z_scope.

(** ** Machine integers

    A w-bit C integer is a [Z] kept in range by these wrap-around functions. *)

Definition u16 (z : Z) : Z := z mod 2 ^ 16.
Definition u32 (z : Z) : Z := z mod 2 ^ 32.
Definition u64 (z : Z) : Z := z mod 2 ^ 64.
Definition i32 (z : Z) : Z := (z + 2 ^ 31) mod 2 ^ 32 - 2 ^ 31.
Definition i64 (z : Z) : Z := (z + 2 ^ 63) mod 2 ^ 64 - 2 ^ 63.

(** ** Outcomes and the statement monad

    A C statement over a state [S] either completes with a value and a new
    state, or stops with a fault: undefined behaviour (a NULL or dangling
    pointer, an index out of range), a failed assertion, a call that cannot
    return from this state (a lock held by somebody else), or a loop that
    used up the fuel the caller gave it. *)

Inductive fault := UB | AssertFailed | Blocked | OutOfFuel.

Inductive outcome (A : Type) :=
  | Done (a : A)
  | Fault (f : fault).
Arguments Done {A} a.
Arguments Fault {A} f.

Global Instance fault_eq_dec : EqDecision fault.
Proof. solve_decision. Defined.

Definition C (S A : Type) : Type := S → outcome (A * S).

Global Instance C_ret S : MRet (C S) := λ A a s, Done (a, s).
Global Instance C_bind S : MBind (C S) := λ A B k m s,
  match m s with
  | Done (a, s') => k a s'
  | Fault f => Fault f
  end.

Definition throw {S A} (f : fault) : C S A := λ _, Fault f.
Definition get {S} : C S S := λ s, Done (s, s).
Definition gets {S A} (f : S → A) : C S A := λ s, Done (f s, s).
Definition put {S} (s : S) : C S unit := λ _, Done ((), s).
Definition modify {S} (f : S → S) : C S unit := λ s, Done ((), f s).

(** [ABTI_ASSERT(b)] and [assert(b)]. *)
Definition c_assert {S} (b : bool) : C S unit :=
  if b then mret () else throw AssertFailed.

(** A statement on a component of the state. *)
Definition zoom {S T A} (view : S → T) (update : T → S → S) (m : C T A) : C S A :=
  λ s, match m (view s) with
       | Done (a, t) => Done (a, update t s)
       | Fault f => Fault f
       end.

Global Arguments C_bind _ _ _ _ _ _ / : simpl nomatch.
Global Arguments C_ret _ _ _ _ / : simpl nomatch.
Global Arguments mbind _ _ _ _ _ / !_ : simpl nomatch.

(** ** Proof automation *)

Ltac run := repeat (progress (cbn -[Z.add Z.sub Z.mul Z.div Z.modulo Z.pow Z.quot Z.rem
                                     Z.of_nat Z.to_nat decide insert lookup u64 u32 u16 i32 i64] in * )).

Lemma C_bind_Done {S A B} (m : C S A) (k : A → C S B) s a s' :
  m s = Done (a, s') → (m ≫= k) s = k a s'.
Proof. unfold mbind, C_bind. by intros ->. Qed.

Lemma C_bind_Fault {S A B} (m : C S A) (k : A → C S B) s f :
  m s = Fault f → (m ≫= k) s = Fault f.
Proof. unfold mbind, C_bind. by intros ->. Qed.

Lemma C_bind_Done_inv {S A B} (m : C S A) (k : A → C S B) s b s'' :
  (m ≫= k) s = Done (b, s'') → ∃ a s', m s = Done (a, s') ∧ k a s' = Done (b, s'').
Proof.
  unfold mbind, C_bind. destruct (m s) as [[a s']|f] eqn:E; [|done]. eauto.
Qed.

Lemma C_bind_assoc {S A B D} (m : C S A) (f : A → C S B) (g : B → C S D) s :
  ((m ≫= f) ≫= g) s = (m ≫= λ a, f a ≫= g) s.
Proof. unfold mbind, C_bind. by destruct (m s) as [[a s']|]. Qed.

(** ** Arithmetic shared by the components *)

Lemma u64_small z : 0 ≤ z < 2 ^ 64 → u64 z = z.
Proof. intros. unfold u64. by rewrite Z.mod_small. Qed.
Lemma u32_small z : 0 ≤ z < 2 ^ 32 → u32 z = z.
Proof. intros. unfold u32. by rewrite Z.mod_small. Qed.
Lemma u16_small z : 0 ≤ z < 2 ^ 16 → u16 z = z.
Proof. intros. unfold u16. by rewrite Z.mod_small. Qed.
Lemma i32_small z : - 2 ^ 31 ≤ z < 2 ^ 31 → i32 z = z.
Proof. intros. unfold i32. rewrite Z.mod_small; lia. Qed.
Lemma i64_small z : - 2 ^ 63 ≤ z < 2 ^ 63 → i64 z = z.
Proof. intros. unfold i64. rewrite Z.mod_small; lia. Qed.

(** ** Lists *)

Lemma head_mid {A} (l1 : list A) a l2 : l1 ≠ [] → head (l1 ++ a :: l2) = head (l1 ++ l2).
Proof. by destruct l1. Qed.
Lemma last_mid {A} (l1 : list A) a l2 : l2 ≠ [] → last (l1 ++ a :: l2) = last (l1 ++ l2).
Proof. destruct l2 as [|b l2]; [done|]. intros _. by rewrite !last_app_cons, last_cons_cons. Qed.

Lemma filter_all {A} (P : A → Prop) `{!∀ x, Decision (P x)} (k : list A) :
  Forall P k → filter P k = k.
Proof.
  induction 1 as [|x k Hx _ IH]; [done|]. by rewrite filter_cons_True, IH.
Qed.

(** ** Total correctness

    [wp m Q s]: from [s], [m] completes (no fault) with a value and a state in [Q]. *)

Definition wp {S A} (m : C S A) (Q : A → S → Prop) (s : S) : Prop :=
  match m s with Done (a, s') => Q a s' | Fault _ => False end.

Lemma wp_bind {S A B} (m : C S A) (k : A → C S B) Q s :
  wp m (λ a, wp (k a) Q) s → wp (m ≫= k) Q s.
Proof. unfold wp, mbind, C_bind. by destruct (m s) as [[a s']|]. Qed.

Lemma wp_mono {S A} (m : C S A) (P Q : A → S → Prop) s :
  wp m P s → (∀ a s', P a s' → Q a s') → wp m Q s.
Proof. unfold wp. destruct (m s) as [[a s']|]; eauto. Qed.

Lemma wp_ret {S A} (a : A) (Q : A → S → Prop) s : Q a s → wp (mret a) Q s.
Proof. done. Qed.

Lemma wp_run {S A} (m : C S A) Q s :
  wp m Q s ↔ ∃ a s', m s = Done (a, s') ∧ Q a s'.
Proof.
  unfold wp. destruct (m s) as [[a s']|f]; split; [eauto|..]; try done.
  - by intros (a' & s'' & [= -> ->] & ?).
  - by intros (? & ? & ? & _).
Qed.

Lemma wp_Done {S A} (m : C S A) (Q : A → S → Prop) s a s' :
  m s = Done (a, s') → Q a s' → wp m Q s.
Proof. unfold wp. by intros ->. Qed.
