(* ===== verification/Arrays.v ===== *)
(** * C arrays, counted loops and ring buffers

    A C array is a function from indices with a range check on every access;
    [for_loop] is a counted [for] loop; a circular buffer [f] of [N] slots with
    read and write positions represents the list of its live slots. *)

From stdpp Require Import base tactics option list numbers functions.
From Stdlib Require Import FunctionalExtensionality.
From S2P Require Import Prelude.

(** ** Arrays *)

(** [a[i]] on an array of [n] elements. *)
Definition in_range (i n : Z) : bool := (Z.leb 0 i && Z.ltb i n)%bool.

Definition check_index {S} (i n : Z) : C S unit :=
  if in_range i n then mret () else throw UB.

Lemma in_range_true i n : 0 ≤ i < n → in_range i n = true.
Proof. intros. unfold in_range. rewrite (proj2 (Z.leb_le _ _)), (proj2 (Z.ltb_lt _ _)); lia. Qed.

Lemma in_range_iff i n : in_range i n = true ↔ 0 ≤ i < n.
Proof. unfold in_range. rewrite andb_true_iff, Z.leb_le, Z.ltb_lt. lia. Qed.

Lemma check_index_run {S} i n (s : S) : 0 ≤ i < n → check_index i n s = Done ((), s).
Proof. intros. unfold check_index. by rewrite in_range_true. Qed.

(** Two writes to the same element. *)
Lemma fn_insert_insert {A} (f : Z → A) i a b : <[i := a]> (<[i := b]> f) = <[i := a]> f.
Proof.
  apply functional_extensionality. intros j. destruct (decide (i = j)) as [<-|].
  - by rewrite !fn_lookup_insert.
  - by rewrite !fn_lookup_insert_ne.
Qed.

(** Writing back the element that is there. *)
Lemma fn_insert_id {A} (f : Z → A) i : <[i := f i]> f = f.
Proof.
  apply functional_extensionality. intros j. destruct (decide (i = j)) as [<-|].
  - by rewrite fn_lookup_insert.
  - by rewrite fn_lookup_insert_ne.
Qed.

(** ** Counted loops: [for (i = lo; i < lo + n; i++) s = body(i, s)] *)

Fixpoint for_loop {S} (n : nat) (lo : Z) (body : Z → S → S) (s : S) : S :=
  match n with
  | O => s
  | S n => for_loop n (lo + 1) body (body lo s)
  end.

Lemma for_loop_ind {S} (P : Z → S → Prop) n lo (body : Z → S → S) s :
  P lo s → (∀ i s, lo ≤ i < lo + Z.of_nat n → P i s → P (i + 1) (body i s)) →
  P (lo + Z.of_nat n) (for_loop n lo body s).
Proof.
  revert lo s. induction n as [|n IH]; intros lo s H0 Hstep; simpl.
  { by rewrite Z.add_0_r. }
  replace (lo + Z.of_nat (Datatypes.S n)) with (lo + 1 + Z.of_nat n) by lia.
  apply IH; [apply Hstep; [lia|done]|]. intros i s' Hi HP. apply Hstep; [lia|done].
Qed.

(** A loop whose body is a statement. *)
Fixpoint for_each {S} (n : nat) (lo : Z) (body : Z → C S unit) : C S unit :=
  match n with
  | O => mret ()
  | S n => body lo;; for_each n (lo + 1) body
  end.

Lemma for_each_ind {S} (P : Z → S → Prop) n lo (body : Z → C S unit) s :
  P lo s →
  (∀ i s, lo ≤ i < lo + Z.of_nat n → P i s → ∃ s', body i s = Done ((), s') ∧ P (i + 1) s') →
  ∃ s', for_each n lo body s = Done ((), s') ∧ P (lo + Z.of_nat n) s'.
Proof.
  revert lo s. induction n as [|n IH]; intros lo s H0 Hstep; simpl.
  { exists s. by rewrite Z.add_0_r. }
  destruct (Hstep lo s) as (s1 & E & H1); [lia|done|].
  erewrite C_bind_Done by exact E.
  replace (lo + Z.of_nat (Datatypes.S n)) with (lo + 1 + Z.of_nat n) by lia.
  apply IH; [done|]. intros i s' Hi HP. apply Hstep; [lia|done].
Qed.

(** ** Rings *)

Definition ring_list {A} (N : Z) (f : Z → A) (rp wp : Z) : list A :=
  (λ k, f ((rp + k) mod N)) <$> seqZ 0 ((wp - rp) mod N).

Section rings.
Context {A : Type} (N : Z).
Implicit Types (f : Z → A) (rp wp : Z).

Lemma ring_list_length f rp wp : 0 < N → Z.of_nat (length (ring_list N f rp wp)) = (wp - rp) mod N.
Proof.
  intros HN. unfold ring_list. rewrite length_fmap, length_seqZ.
  pose proof (Z.mod_pos_bound (wp - rp) N HN). lia.
Qed.

Lemma ring_list_empty f rp : ring_list N f rp rp = [].
Proof. unfold ring_list. by rewrite Z.sub_diag, Zmod_0_l. Qed.

Lemma ring_next x : 0 ≤ x < N → (x + 1) mod N = if decide (x + 1 = N) then 0 else x + 1.
Proof. intros. case_decide as E; [by rewrite E, Z_mod_same_full|]. rewrite Z.mod_small; lia. Qed.

Lemma ring_gap a b : 0 ≤ a < N → 0 ≤ b < N → (b - a) mod N = if decide (a ≤ b) then b - a else b - a + N.
Proof.
  intros. case_decide; [by rewrite Z.mod_small by lia|].
  rewrite <- (Z_mod_plus_full _ 1), Z.mod_small by lia. lia.
Qed.

Lemma ring_list_pop f rp wp :
  0 ≤ rp < N → 0 ≤ wp < N → rp ≠ wp →
  ring_list N f rp wp = f rp :: ring_list N f ((rp + 1) mod N) wp.
Proof.
  intros Hr Hw Hne. unfold ring_list.
  assert ((wp - rp) mod N = Z.succ ((wp - (rp + 1) mod N) mod N)) as ->.
  { rewrite (ring_gap rp wp) by done.
    assert (0 ≤ (rp + 1) mod N < N) by (apply Z.mod_pos_bound; lia).
    rewrite (ring_gap _ wp) by done. rewrite ring_next by done. repeat case_decide; lia. }
  rewrite seqZ_cons by (pose proof (Z.mod_pos_bound (wp - (rp + 1) mod N) N); lia).
  simpl. rewrite Z.add_0_r, Z.mod_small, Z.pred_succ by lia. f_equal.
  change (Z.succ 0) with (1 + 0). rewrite <- (fmap_add_seqZ 1), <- list_fmap_compose. apply list_fmap_ext. intros i k _. simpl.
  f_equal. rewrite Zplus_mod_idemp_l. f_equal. lia.
Qed.

Lemma ring_list_ext f g rp wp :
  0 ≤ rp < N → 0 ≤ wp < N →
  (∀ k, 0 ≤ k < (wp - rp) mod N → f ((rp + k) mod N) = g ((rp + k) mod N)) →
  ring_list N f rp wp = ring_list N g rp wp.
Proof.
  intros Hr Hw Hext. apply list_fmap_ext. intros i k Hk. apply Hext.
  apply lookup_seqZ in Hk. lia.
Qed.

Lemma ring_list_push f rp wp b :
  0 ≤ rp < N → 0 ≤ wp < N → (wp + 1) mod N ≠ rp →
  ring_list N (<[wp := b]> f) rp ((wp + 1) mod N) = ring_list N f rp wp ++ [b].
Proof.
  intros Hr Hw Hne.
  assert (0 ≤ (wp + 1) mod N < N) by (apply Z.mod_pos_bound; lia).
  assert (0 ≤ (wp - rp) mod N < N) as Hgap by (apply Z.mod_pos_bound; lia).
  assert (((wp + 1) mod N - rp) mod N = (wp - rp) mod N + 1) as Hlen.
  { rewrite !ring_gap by done. rewrite ring_next in * by done. repeat case_decide; lia. }
  unfold ring_list. rewrite Hlen, seqZ_app by lia. rewrite fmap_app. f_equal.
  - apply list_fmap_ext. intros i k Hk. apply lookup_seqZ in Hk.
    rewrite fn_lookup_insert_ne; [done|]. intros Heq.
    rewrite ring_gap in * by done.
    assert (rp + k < 2 * N) by (repeat case_decide; lia).
    destruct (decide (rp + k < N)).
    + rewrite Z.mod_small in Heq by lia. repeat case_decide; lia.
    + rewrite <- (Z_mod_plus_full _ (-1)), Z.mod_small in Heq by lia. repeat case_decide; lia.
  - rewrite seqZ_cons by lia. simpl. f_equal.
    replace ((rp + _) mod N) with wp; [by rewrite fn_lookup_insert|].
    rewrite ?Z.add_0_l, Zplus_mod_idemp_r.
    replace (rp + (wp - rp)) with wp by lia. by rewrite Z.mod_small by lia.
Qed.
End rings.
