(* ===== verification/Myfs.v ===== *)
(** * The flat file system of the NVMe back end (mylib/myfs.c, mylib/myfs.h)

    A memory-mapped superblock holds a table of files, each with a name and a
    table of 2 MiB block numbers, and a ring of free block numbers.  The model
    keeps the superblock, the volatile per-slot state (flags and reference
    count), the mutexes and the calls of [fsync]; every operation is a
    statement in the monad of the prelude.

    The table sizes are a [Geometry]: the constants of myfs.h are
    [staut_geometry], and the theorems hold for every geometry whose sizes fit
    the source's integer types. *)

From stdpp Require Import base tactics option list numbers functions strings sorting relations.
From S2P Require Import Prelude Arrays.

(** ** Data *)

Definition MYFS_BLOCK_SIZE : Z := 2 * 1024 * 1024.
Definition MYFS_MAX_NAMELEN : Z := 1024.
Definition MYFS_MAGIC : Z := 0xdeadcafebabeface.
Definition INACTIVE_BLOCK : Z := -1.
Definition MYFS_FILE_OPENED : Z := Z.shiftl 1 0.
Definition MYFS_FILE_UNLINKED : Z := Z.shiftl 1 1.

Class Geometry := {
  NUM_BLOCKS : Z;
  MYFS_MAX_BLOCKS_PER_FILE : Z;
  MYFS_MAX_FILES : Z;
}.

(** The constants of myfs.h. *)
Definition staut_geometry : Geometry :=
  {| NUM_BLOCKS := 700 * 1024; MYFS_MAX_BLOCKS_PER_FILE := 1024 * 128; MYFS_MAX_FILES := 4096 |}.

Class GeometryOk (G : Geometry) : Prop := {
  geom_blocks : 2 ≤ NUM_BLOCKS < 2 ^ 31;
  geom_per_file : 1 ≤ MYFS_MAX_BLOCKS_PER_FILE < 2 ^ 31;
  geom_files : 1 ≤ MYFS_MAX_FILES < 2 ^ 31;
}.

Lemma staut_geometry_ok : GeometryOk staut_geometry.
Proof. by split. Qed.

Record myfs_file_state_t := FileState { flags : Z; ref_count : Z }.

(** [name] is the C string in the [name] array: its bytes up to the first NUL. *)
Record file_t := File { name : string; block : Z → Z; n_block : Z }.

Record superblock_t := Superblock {
  magic : Z;
  free_blocks : Z → Z;
  free_blocks_rp : Z;
  free_blocks_wp : Z;
  file : Z → file_t;
}.

(** The globals of myfs.c; [synced] records the descriptors [fsync] was called on. *)
Record fs := Fs {
  superblock : superblock_t;
  myfs_file_states : Z → myfs_file_state_t;
  myfs_file_mutex : Z → bool;
  myfs_mutex : bool;
  superblock_fd : Z;
  synced : list Z;
}.

Definition set_superblock (b : superblock_t) (s : fs) : fs :=
  Fs b (myfs_file_states s) (myfs_file_mutex s) (myfs_mutex s) (superblock_fd s) (synced s).
Definition set_state (i : Z) (t : myfs_file_state_t) (s : fs) : fs :=
  Fs (superblock s) (<[i := t]> (myfs_file_states s)) (myfs_file_mutex s) (myfs_mutex s)
     (superblock_fd s) (synced s).
Definition set_file_mutex (i : Z) (b : bool) (s : fs) : fs :=
  Fs (superblock s) (myfs_file_states s) (<[i := b]> (myfs_file_mutex s)) (myfs_mutex s)
     (superblock_fd s) (synced s).
Definition set_mutex (b : bool) (s : fs) : fs :=
  Fs (superblock s) (myfs_file_states s) (myfs_file_mutex s) b (superblock_fd s) (synced s).
Definition add_synced (fd : Z) (s : fs) : fs :=
  Fs (superblock s) (myfs_file_states s) (myfs_file_mutex s) (myfs_mutex s)
     (superblock_fd s) (synced s ++ [fd]).

Definition set_free_block (k b : Z) (sb : superblock_t) : superblock_t :=
  Superblock (magic sb) (<[k := b]> (free_blocks sb)) (free_blocks_rp sb) (free_blocks_wp sb) (file sb).
Definition set_rp (v : Z) (sb : superblock_t) : superblock_t :=
  Superblock (magic sb) (free_blocks sb) v (free_blocks_wp sb) (file sb).
Definition set_wp (v : Z) (sb : superblock_t) : superblock_t :=
  Superblock (magic sb) (free_blocks sb) (free_blocks_rp sb) v (file sb).
Definition set_magic (v : Z) (sb : superblock_t) : superblock_t :=
  Superblock v (free_blocks sb) (free_blocks_rp sb) (free_blocks_wp sb) (file sb).
Definition set_file (i : Z) (f : file_t) (sb : superblock_t) : superblock_t :=
  Superblock (magic sb) (free_blocks sb) (free_blocks_rp sb) (free_blocks_wp sb) (<[i := f]> (file sb)).

Definition set_name (n : string) (f : file_t) : file_t := File n (block f) (n_block f).
Definition set_block (j b : Z) (f : file_t) : file_t := File (name f) (<[j := b]> (block f)) (n_block f).
Definition set_n_block (n : Z) (f : file_t) : file_t := File (name f) (block f) n.

(** ** Operations *)

Section ops.
Context `{G : Geometry}.

Definition on_sb (f : superblock_t → superblock_t) : C fs unit :=
  modify (λ s, set_superblock (f (superblock s)) s).
Definition on_file (i : Z) (f : file_t → file_t) : C fs unit :=
  check_index i MYFS_MAX_FILES;;
  on_sb (λ b, set_file i (f (file b i)) b).
Definition get_file (i : Z) : C fs file_t :=
  check_index i MYFS_MAX_FILES;;
  gets (λ s, file (superblock s) i).
Definition get_state (i : Z) : C fs myfs_file_state_t :=
  check_index i MYFS_MAX_FILES;;
  gets (λ s, myfs_file_states s i).
Definition put_state (i : Z) (t : myfs_file_state_t) : C fs unit :=
  check_index i MYFS_MAX_FILES;;
  modify (set_state i t).

(** [ult_mutex_lock] and [ult_mutex_unlock] on the two kinds of mutexes. *)
Definition lock_global : C fs unit :=
  b ← gets myfs_mutex;
  if (b : bool) then throw Blocked else modify (set_mutex true).
Definition unlock_global : C fs unit := modify (set_mutex false).
Definition lock_file (i : Z) : C fs unit :=
  check_index i MYFS_MAX_FILES;;
  b ← gets (λ s, myfs_file_mutex s i);
  if (b : bool) then throw Blocked else modify (set_file_mutex i true).
Definition unlock_file (i : Z) : C fs unit :=
  check_index i MYFS_MAX_FILES;;
  modify (set_file_mutex i false).

Definition myfs_superblock_init_sb (b : superblock_t) : superblock_t :=
  let b := for_loop (Z.to_nat MYFS_MAX_FILES) 0 (λ i b,
             let b := set_file i (set_name "" (file b i)) b in
             for_loop (Z.to_nat MYFS_MAX_BLOCKS_PER_FILE) 0
               (λ j b, set_file i (set_block j INACTIVE_BLOCK (file b i)) b) b) b in
  let b := for_loop (Z.to_nat (NUM_BLOCKS - 1)) 0 (λ i b, set_free_block i i b) b in
  set_magic MYFS_MAGIC (set_wp (NUM_BLOCKS - 1) (set_rp 0 b)).

Definition myfs_superblock_init : C fs unit := on_sb myfs_superblock_init_sb.

Definition myfs_used_blocks (s : fs) : Z :=
  let rp := free_blocks_rp (superblock s) in
  let wp := free_blocks_wp (superblock s) in
  if Z.ltb rp wp then rp + NUM_BLOCKS - wp - 1 else rp - wp - 1.

(** [image] is the mapped superblock file, [None] when it cannot be opened or
    mapped (the failures are printed and the mapping dereferenced).  The
    descriptor [open] returns is bound to a local variable. *)
Definition myfs_mount (fd : Z) (image : option superblock_t) : C fs unit :=
  match image with
  | None => throw UB
  | Some sb =>
      let superblock_fd := fd in
      modify (set_superblock sb);;
      m ← gets (λ s, magic (superblock s));
      (if Z.eqb m MYFS_MAGIC then mret () else myfs_superblock_init);;
      for_each (Z.to_nat MYFS_MAX_FILES) 0 (λ i,
        put_state i (FileState 0 0);;
        modify (set_file_mutex i false));;
      modify (set_mutex false)
  end.

(** The compare-and-swap loops that advance a ring position and return the old
    one.  Run alone, the first attempt succeeds; the interleaved version is
    [alloc_step] below. *)
Definition next_wp : C fs Z :=
  old_val ← gets (λ s, free_blocks_wp (superblock s));
  let new_val := (old_val + 1) mod NUM_BLOCKS in
  on_sb (set_wp new_val);;
  mret old_val.
Definition next_rp : C fs Z :=
  old_val ← gets (λ s, free_blocks_rp (superblock s));
  let new_val := (old_val + 1) mod NUM_BLOCKS in
  on_sb (set_rp new_val);;
  mret old_val.

Definition get_block (fd j : Z) : C fs Z :=
  f ← get_file fd;
  check_index j MYFS_MAX_BLOCKS_PER_FILE;;
  mret (block f j).
Definition put_block (fd j b : Z) : C fs unit :=
  check_index j MYFS_MAX_BLOCKS_PER_FILE;;
  on_file fd (set_block j b).

Definition unlink_body (fd j : Z) : C fs unit :=
  old_val ← next_wp;
  check_index old_val NUM_BLOCKS;;
  b ← get_block fd j;
  on_sb (set_free_block old_val b);;
  put_block fd j INACTIVE_BLOCK.

Definition __myfs_unlink (fd : Z) : C fs unit :=
  f ← get_file fd;
  for_each (Z.to_nat (n_block f)) 0 (unlink_body fd);;
  on_file fd (set_name "");;
  on_file fd (set_n_block 0);;
  t ← get_state fd;
  put_state fd (FileState (flags t) 0);;
  t ← get_state fd;
  put_state fd (FileState 0 (ref_count t)).

Definition __myfs_try_unlink (fd : Z) : C fs unit :=
  t ← get_state fd;
  put_state fd (FileState (Z.lor (flags t) MYFS_FILE_UNLINKED) (ref_count t));;
  t ← get_state fd;
  if Z.eqb (ref_count t) 0 then __myfs_unlink fd else mret ().

Definition myfs_unlink_fd (fd : Z) : C fs unit :=
  lock_global;;
  __myfs_try_unlink fd;;
  unlock_global.

(** [strncmp(filename, name, strlen(filename)) == 0] *)
Definition name_matches (filename nm : string) : bool := String.prefix filename nm.

Definition myfs_unlink (filename : string) : C fs unit :=
  lock_global;;
  for_each (Z.to_nat MYFS_MAX_FILES) 0 (λ i,
    f ← get_file i;
    if name_matches filename (name f) then __myfs_try_unlink i else mret ());;
  unlock_global.

(** The search loop of [myfs_open]: [inl i] is the early return, [inr empty_i]
    the loop's end. *)
Fixpoint open_loop (filename : string) (n : nat) (i empty_i : Z) : C fs (Z + Z) :=
  match n with
  | O => mret (inr empty_i)
  | S n =>
      f ← get_file i;
      if name_matches filename (name f) then
        t ← get_state i;
        put_state i (FileState MYFS_FILE_OPENED (ref_count t));;
        unlock_global;;
        mret (inl i)
      else
        let empty_i := if (Z.eqb empty_i (-1) && String.eqb (name f) "")%bool then i else empty_i in
        open_loop filename n (i + 1) empty_i
  end.

Definition strlen (s : string) : Z := Z.of_nat (String.length s).

Definition myfs_open (filename : string) : C fs Z :=
  lock_global;;
  r ← open_loop filename (Z.to_nat MYFS_MAX_FILES) 0 (-1);
  match r with
  | inl i => mret i
  | inr empty_i =>
      check_index (strlen filename) MYFS_MAX_NAMELEN;;
      on_file empty_i (set_name filename);;
      on_file empty_i (set_n_block 0);;
      t ← get_state empty_i;
      put_state empty_i (FileState MYFS_FILE_OPENED (ref_count t));;
      unlock_global;;
      mret empty_i
  end.

Definition myfs_get_lba (i offset write : Z) : C fs Z :=
  let i_block := i32 (offset / MYFS_BLOCK_SIZE) in
  (if Z.ltb 0 write then
     lock_file i;;
     b ← get_block i i_block;
     (if Z.eqb b INACTIVE_BLOCK then
        old_val ← next_rp;
        check_index old_val NUM_BLOCKS;;
        nb ← gets (λ s, free_blocks (superblock s) old_val);
        put_block i i_block nb;;
        on_file i (λ f, set_n_block (u64 (n_block f + 1)) f)
      else mret ());;
     unlock_file i
   else mret ());;
  b ← get_block i i_block;
  c_assert (negb (Z.eqb b INACTIVE_BLOCK));;
  mret (i64 (u64 (u64 b * MYFS_BLOCK_SIZE + offset mod MYFS_BLOCK_SIZE) / 512)).

Definition myfs_sync : C fs unit :=
  fd ← gets superblock_fd;
  modify (add_synced fd).

Definition myfs_close (fd : Z) : C fs unit :=
  t ← get_state fd;
  put_state fd (FileState (Z.lxor (flags t) MYFS_FILE_OPENED) (ref_count t));;
  myfs_sync.

Definition myfs_umount : C fs unit := myfs_sync.

Definition myfs_get_size (i : Z) : C fs Z :=
  f ← get_file i;
  mret (u64 (n_block f * MYFS_BLOCK_SIZE)).

Definition myfs_increment_ref (hookfd : Z) : C fs Z :=
  t ← get_state hookfd;
  if Z.eqb (flags t) MYFS_FILE_OPENED then
    put_state hookfd (FileState (flags t) (u16 (ref_count t + 1)));;
    mret 0
  else mret (-1).

Definition myfs_decrement_ref (hookfd : Z) : C fs unit :=
  t ← get_state hookfd;
  let ref_count0 := ref_count t in
  put_state hookfd (FileState (flags t) (u16 (ref_count t - 1)));;
  t ← get_state hookfd;
  if (Z.eqb ref_count0 0 && negb (Z.eqb (Z.land (flags t) MYFS_FILE_UNLINKED) 0))%bool
  then myfs_unlink_fd hookfd
  else mret ().
End ops.

(** ** The invariant

    The live blocks of a slot are the first [file_len] entries of its block
    table; a slot whose name is empty owns nothing (the count of an unused slot
    is not initialised).  Every block number below [NUM_BLOCKS - 1] is either
    in the free ring or owned by exactly one slot, exactly once. *)

Section invariant.
Context `{G : Geometry}.

Definition file_len (f : file_t) : Z := if String.eqb (name f) "" then 0 else n_block f.
Definition file_blocks (f : file_t) : list Z := block f <$> seqZ 0 (file_len f).
Definition free_list (b : superblock_t) : list Z :=
  ring_list NUM_BLOCKS (free_blocks b) (free_blocks_rp b) (free_blocks_wp b).
Definition owned (b : superblock_t) : list Z :=
  seqZ 0 MYFS_MAX_FILES ≫= λ i, file_blocks (file b i).

Definition file_wf (f : file_t) : Prop :=
  0 ≤ file_len f ≤ MYFS_MAX_BLOCKS_PER_FILE ∧
  ∀ j, file_len f ≤ j < MYFS_MAX_BLOCKS_PER_FILE → block f j = INACTIVE_BLOCK.

Record sb_inv (b : superblock_t) : Prop := {
  inv_magic : magic b = MYFS_MAGIC;
  inv_rp : 0 ≤ free_blocks_rp b < NUM_BLOCKS;
  inv_wp : 0 ≤ free_blocks_wp b < NUM_BLOCKS;
  inv_files : ∀ i, 0 ≤ i < MYFS_MAX_FILES → file_wf (file b i);
  inv_conserved : free_list b ++ owned b ≡ₚ seqZ 0 (NUM_BLOCKS - 1);
}.

(** Between operations no mutex is held. *)
Definition quiescent (s : fs) : Prop :=
  myfs_mutex s = false ∧ ∀ i, 0 ≤ i < MYFS_MAX_FILES → myfs_file_mutex s i = false.

Definition fs_inv (s : fs) : Prop := sb_inv (superblock s) ∧ quiescent s.

(** ** Lemmas on ownership *)

Definition owned_others (b : superblock_t) (fd : Z) : list Z :=
  (seqZ 0 fd ++ seqZ (fd + 1) (MYFS_MAX_FILES - fd - 1)) ≫= λ i, file_blocks (file b i).

Lemma seqZ_split fd n : 0 ≤ fd < n → seqZ 0 n = seqZ 0 fd ++ fd :: seqZ (fd + 1) (n - fd - 1).
Proof.
  intros. replace n with (fd + (n - fd)) at 1 by lia.
  rewrite seqZ_app, Z.add_0_l, (seqZ_cons fd) by lia.
  by replace (Z.pred (n - fd)) with (n - fd - 1) by lia.
Qed.

Lemma owned_split b fd :
  0 ≤ fd < MYFS_MAX_FILES → owned b ≡ₚ file_blocks (file b fd) ++ owned_others b fd.
Proof.
  intros. unfold owned, owned_others. rewrite (seqZ_split fd) by lia.
  rewrite !bind_app, bind_cons. rewrite !app_assoc. f_equiv. apply Permutation_app_comm.
Qed.

Lemma owned_others_ext b b' fd :
  (∀ i, i ≠ fd → file b' i = file b i) → owned_others b' fd = owned_others b fd.
Proof.
  intros Hext. unfold owned_others. apply Forall_bind_ext.
  apply Forall_forall. intros i Hi. rewrite Hext; [done|].
  apply elem_of_app in Hi. rewrite !elem_of_seqZ in Hi. lia.
Qed.

Lemma length_file_blocks f : 0 ≤ file_len f → Z.of_nat (length (file_blocks f)) = file_len f.
Proof. intros. unfold file_blocks. rewrite length_fmap, length_seqZ. lia. Qed.

Lemma file_blocks_unnamed f : name f = "" → file_blocks f = [].
Proof. intros Hn. unfold file_blocks, file_len. by rewrite Hn. Qed.

Lemma file_len_named f : name f ≠ "" → file_len f = n_block f.
Proof. intros Hn. unfold file_len. by rewrite (proj2 (String.eqb_neq _ _)). Qed.

Lemma file_blocks_named f : name f ≠ "" → file_blocks f = block f <$> seqZ 0 (n_block f).
Proof. intros. unfold file_blocks. by rewrite file_len_named. Qed.

Lemma inv_lengths `{!GeometryOk G} b :
  sb_inv b →
  Z.of_nat (length (free_list b)) + Z.of_nat (length (owned b)) = NUM_BLOCKS - 1.
Proof.
  intros Hb. pose proof (Permutation_length (inv_conserved _ Hb)) as Hl.
  rewrite length_app, length_seqZ in Hl. pose proof geom_blocks. lia.
Qed.

Lemma inv_bounds b x :
  sb_inv b → x ∈ owned b ∨ x ∈ free_list b → 0 ≤ x < NUM_BLOCKS - 1.
Proof.
  intros Hb Hx. assert (x ∈ seqZ 0 (NUM_BLOCKS - 1)) as Hs.
  { rewrite <- (inv_conserved _ Hb), elem_of_app. tauto. }
  apply elem_of_seqZ in Hs. lia.
Qed.

Lemma inv_NoDup b : sb_inv b → NoDup (free_list b ++ owned b).
Proof. intros Hb. rewrite (inv_conserved _ Hb). apply NoDup_seqZ. Qed.

Lemma elem_of_owned b i j :
  0 ≤ i < MYFS_MAX_FILES → 0 ≤ j < file_len (file b i) → block (file b i) j ∈ owned b.
Proof.
  intros Hi Hj. unfold owned. apply list_elem_of_bind. exists i.
  split; [|apply elem_of_seqZ; lia]. apply list_elem_of_fmap. exists j.
  split; [done|]. apply elem_of_seqZ. lia.
Qed.

(** A block number determines the slot and the position that own it. *)
Lemma owned_injective b i j i' j' :
  sb_inv b →
  0 ≤ i < MYFS_MAX_FILES → 0 ≤ j < file_len (file b i) →
  0 ≤ i' < MYFS_MAX_FILES → 0 ≤ j' < file_len (file b i') →
  block (file b i) j = block (file b i') j' → i = i' ∧ j = j'.
Proof.
  intros Hb Hi Hj Hi' Hj' Heq. pose proof (inv_NoDup _ Hb) as Hnd.
  apply NoDup_app in Hnd as (_ & _ & Hnd).
  rewrite (owned_split b i) in Hnd by done. apply NoDup_app in Hnd as (Hnd & Hdis & _).
  assert (block (file b i) j ∈ file_blocks (file b i)) as Hin.
  { apply list_elem_of_fmap. exists j. split; [done|]. apply elem_of_seqZ. lia. }
  destruct (decide (i = i')) as [<-|Hne].
  - split; [done|]. unfold file_blocks in Hnd.
    assert (∀ k, 0 ≤ k < file_len (file b i) →
      file_blocks (file b i) !! Z.to_nat k = Some (block (file b i) k)) as Hlk.
    { intros k Hk. unfold file_blocks. rewrite list_lookup_fmap, lookup_seqZ_lt by lia.
      simpl. do 2 f_equal. lia. }
    assert (Z.to_nat j = Z.to_nat j'); [|lia].
    eapply NoDup_lookup; [exact Hnd|by apply Hlk|rewrite Heq; by apply Hlk].
  - exfalso. apply (Hdis _ Hin). unfold owned_others. apply list_elem_of_bind.
    exists i'. rewrite Heq. split.
    + apply list_elem_of_fmap. exists j'. split; [done|]. apply elem_of_seqZ. lia.
    + apply elem_of_app. rewrite !elem_of_seqZ. lia.
Qed.
End invariant.

Ltac fs_run :=
  unfold next_rp, next_wp, get_block, put_block, on_file, get_file, get_state, put_state, on_sb,
    lock_global, unlock_global, lock_file, unlock_file, gets, modify, mbind, C_bind, mret, C_ret;
  cbn beta iota;
  repeat (rewrite check_index_run by (simpl in *; lia);
    cbn -[Z.eqb Z.ltb Z.add Z.sub Z.mul Z.div Z.modulo INACTIVE_BLOCK MYFS_BLOCK_SIZE
          i32 i64 u64 u16 insert String.eqb name_matches]).

Section proofs.
Context `{G : Geometry, !GeometryOk G}.

Lemma block_size_pos : 0 < MYFS_BLOCK_SIZE.
Proof. done. Qed.

Definition alloc_sb (i : Z) (b : superblock_t) : superblock_t :=
  let f := file b i in
  set_file i (File (name f) (<[n_block f := free_blocks b (free_blocks_rp b)]> (block f)) (n_block f + 1))
    (set_rp ((free_blocks_rp b + 1) mod NUM_BLOCKS) b).

Lemma alloc_sb_inv i b :
  sb_inv b → 0 ≤ i < MYFS_MAX_FILES → name (file b i) ≠ "" →
  n_block (file b i) < MYFS_MAX_BLOCKS_PER_FILE →
  free_blocks_rp b ≠ free_blocks_wp b → sb_inv (alloc_sb i b).
Proof.
  intros Hb Hi Hn Hmax Hne. pose proof (inv_rp _ Hb). pose proof (inv_wp _ Hb).
  destruct (inv_files _ Hb i Hi) as [Hlen Hwf]. rewrite file_len_named in Hlen, Hwf by done.
  assert (file_len (file (alloc_sb i b) i) = n_block (file b i) + 1) as Hl'.
  { simpl. rewrite fn_lookup_insert. by apply file_len_named. }
  split; try done.
  - exact (inv_magic _ Hb).
  - apply Z.mod_pos_bound. lia.
  - intros i' Hi'. destruct (decide (i = i')) as [<-|Hne'].
    + split; [lia|]. rewrite Hl'. intros j Hj. simpl. rewrite fn_lookup_insert. simpl.
      rewrite fn_lookup_insert_ne by lia. apply Hwf. lia.
    + simpl. rewrite fn_lookup_insert_ne by done. by apply (inv_files _ Hb).
  - rewrite <- (inv_conserved _ Hb), !(owned_split _ i) by done.
    rewrite (owned_others_ext b) by (intros; simpl; by rewrite fn_lookup_insert_ne).
    assert (file_blocks (file (alloc_sb i b) i)
      = file_blocks (file b i) ++ [free_blocks b (free_blocks_rp b)]) as ->.
    { unfold file_blocks. rewrite Hl', file_len_named, seqZ_app, fmap_app by (done || lia).
      simpl. rewrite fn_lookup_insert. simpl. rewrite Z.add_0_l. f_equal; [|by rewrite fn_lookup_insert].
      apply list_fmap_ext. intros k x Hk. apply lookup_seqZ in Hk.
      by rewrite fn_lookup_insert_ne by lia. }
    unfold free_list. rewrite (ring_list_pop _ _ (free_blocks_rp b)) by done. simpl.
    solve_Permutation.
Qed.

(** The sector of byte [off] of a file, in block [b]. *)
Definition lba_of (b off : Z) : Z := (b * MYFS_BLOCK_SIZE + off mod MYFS_BLOCK_SIZE) / 512.

Lemma lba_arith b off :
  0 ≤ b < 2 ^ 31 →
  i64 (u64 (u64 b * MYFS_BLOCK_SIZE + off mod MYFS_BLOCK_SIZE) / 512) = lba_of b off.
Proof.
  intros Hb. pose proof (Z.mod_pos_bound off _ block_size_pos). unfold lba_of.
  rewrite (u64_small b) by lia. unfold MYFS_BLOCK_SIZE in *. rewrite u64_small by lia.
  apply i64_small. split.
  - transitivity 0; [lia|]. apply Z.div_pos; lia.
  - apply Z.div_lt_upper_bound; lia.
Qed.

Definition allocated (b : superblock_t) (i off : Z) : Prop :=
  0 ≤ i < MYFS_MAX_FILES ∧ 0 ≤ off / MYFS_BLOCK_SIZE < file_len (file b i).

Lemma block_index_small b i off :
  sb_inv b → 0 ≤ i < MYFS_MAX_FILES → 0 ≤ off / MYFS_BLOCK_SIZE ≤ file_len (file b i) →
  i32 (off / MYFS_BLOCK_SIZE) = off / MYFS_BLOCK_SIZE.
Proof.
  intros Hb Hi Ho. destruct (inv_files _ Hb i Hi) as [? _]. pose proof geom_per_file.
  apply i32_small. lia.
Qed.

Lemma allocated_block b i off :
  sb_inv b → allocated b i off → 0 ≤ block (file b i) (off / MYFS_BLOCK_SIZE) < NUM_BLOCKS - 1.
Proof. intros Hb [Hi Ho]. eapply inv_bounds; [done|]. left. by apply elem_of_owned. Qed.

Lemma get_lba_tail i off s :
  sb_inv (superblock s) → allocated (superblock s) i off →
  (b ← get_block i (off / MYFS_BLOCK_SIZE);
   c_assert (negb (Z.eqb b INACTIVE_BLOCK));;
   mret (i64 (u64 (u64 b * MYFS_BLOCK_SIZE + off mod MYFS_BLOCK_SIZE) / 512))) s
  = Done (lba_of (block (file (superblock s) i) (off / MYFS_BLOCK_SIZE)) off, s).
Proof.
  intros Hb Ha. pose proof (allocated_block _ _ _ Hb Ha) as Hbl. destruct Ha as [Hi Ho].
  destruct (inv_files _ Hb i Hi) as [? _]. pose proof geom_blocks. fs_run.
  rewrite (proj2 (Z.eqb_neq _ _)) by (unfold INACTIVE_BLOCK; lia). cbn.
  by rewrite lba_arith by lia.
Qed.

Lemma get_lba_read_ok i off s :
  sb_inv (superblock s) → allocated (superblock s) i off →
  myfs_get_lba i off 0 s = Done (lba_of (block (file (superblock s) i) (off / MYFS_BLOCK_SIZE)) off, s).
Proof.
  intros Hb Ha. unfold myfs_get_lba. destruct Ha as [Hi Ho].
  rewrite (block_index_small _ i off Hb) by lia.
  erewrite C_bind_Done by reflexivity. by apply get_lba_tail.
Qed.

(** Everything but the superblock is as it was. *)
Record same_volatile (s s' : fs) : Prop := {
  same_states : myfs_file_states s' = myfs_file_states s;
  same_mutex : quiescent s → quiescent s';
  same_fd : superblock_fd s' = superblock_fd s;
  same_synced : synced s' = synced s;
}.

Definition writable (b : superblock_t) (i off : Z) : Prop :=
  0 ≤ i < MYFS_MAX_FILES ∧ name (file b i) ≠ "" ∧
  (0 ≤ off / MYFS_BLOCK_SIZE < n_block (file b i) ∨
   off / MYFS_BLOCK_SIZE = n_block (file b i) ∧
   n_block (file b i) < MYFS_MAX_BLOCKS_PER_FILE ∧ free_blocks_rp b ≠ free_blocks_wp b).

Definition write_sb (i off : Z) (b : superblock_t) : superblock_t :=
  if decide (off / MYFS_BLOCK_SIZE < n_block (file b i)) then b else alloc_sb i b.

Lemma write_sb_inv b i off : sb_inv b → writable b i off → sb_inv (write_sb i off b).
Proof.
  intros Hb (Hi & Hn & Ho). unfold write_sb. case_decide; [done|].
  destruct Ho as [|(?&?&?)]; [lia|]. by apply alloc_sb_inv.
Qed.

Lemma write_sb_allocated b i off :
  sb_inv b → writable b i off → allocated (write_sb i off b) i off.
Proof.
  intros Hb (Hi & Hn & Ho). destruct (inv_files _ Hb i Hi) as [Hlen _].
  rewrite file_len_named in Hlen by done. unfold write_sb. case_decide; split; try done.
  - rewrite file_len_named by done. lia.
  - simpl. rewrite fn_lookup_insert. rewrite file_len_named by done. simpl. lia.
Qed.

Lemma get_lba_write_ok i off s :
  fs_inv s → writable (superblock s) i off →
  ∃ s', myfs_get_lba i off 1 s =
          Done (lba_of (block (file (write_sb i off (superblock s)) i) (off / MYFS_BLOCK_SIZE)) off, s') ∧
        superblock s' = write_sb i off (superblock s) ∧ same_volatile s s'.
Proof.
  intros [Hb [Hm Hq]] Hw. pose proof (write_sb_inv _ _ _ Hb Hw) as Hb'.
  pose proof (write_sb_allocated _ _ _ Hb Hw) as Ha'. destruct Hw as (Hi & Hn & Ho).
  destruct (inv_files _ Hb i Hi) as [Hlen Hwf]. pose proof (inv_rp _ Hb) as Hrp.
  rewrite file_len_named in Hlen, Hwf by done. pose proof geom_per_file.
  set (s1 := set_file_mutex i false (set_superblock (write_sb i off (superblock s))
               (set_file_mutex i true s))).
  assert (same_volatile s s1) as Hsv.
  { split; try done. intros [_ _]. split; [done|]. intros k Hk. simpl.
    destruct (decide (i = k)) as [<-|]; [by rewrite fn_lookup_insert|].
    rewrite !fn_lookup_insert_ne by done. by apply Hq. }
  exists s1. split; [|done]. unfold myfs_get_lba.
  rewrite (block_index_small (superblock s) i off) by (rewrite ?file_len_named by done; done || lia).
  erewrite C_bind_Done; [by apply (get_lba_tail i off s1)|]. clear Ha' Hb' Hsv. subst s1.
  unfold write_sb. change (0 <? 1) with true. cbn iota. case_decide.
  - fs_run. rewrite (Hq i Hi). fs_run. 
    assert (block (file (superblock s) i) (off / MYFS_BLOCK_SIZE) ≠ INACTIVE_BLOCK) as Hne.
    { pose proof (allocated_block (superblock s) i off Hb) as Hab. unfold allocated in Hab.
      rewrite file_len_named in Hab by done. unfold INACTIVE_BLOCK. lia. }
    rewrite (proj2 (Z.eqb_neq _ _)) by done. fs_run. by destruct s as [[] ?].
  - assert (off / MYFS_BLOCK_SIZE = n_block (file (superblock s) i)) as Eo by (destruct Ho as [|(?&?&?)]; lia).
    fs_run. rewrite (Hq i Hi). fs_run. rewrite Hwf by (destruct Ho as [|(?&?&?)]; lia).
    rewrite Z.eqb_refl. fs_run.
    rewrite !fn_lookup_insert, Eo, u64_small by (simpl; lia).
    do 2 f_equal. unfold alloc_sb, set_superblock, set_file_mutex, set_file, set_rp, set_n_block, set_block. simpl.
    by rewrite fn_insert_insert.
Qed.
End proofs.
Section proofs2.
Context `{G : Geometry, !GeometryOk G}.

(** *** Unlinking *)

Lemma ring_not_full rp wp :
  0 ≤ rp < NUM_BLOCKS → 0 ≤ wp < NUM_BLOCKS → (wp - rp) mod NUM_BLOCKS < NUM_BLOCKS - 1 →
  (wp + 1) mod NUM_BLOCKS ≠ rp.
Proof. intros Hr Hw. rewrite ring_gap, ring_next by done. repeat case_decide; lia. Qed.

(** The state of the release loop before iteration [j]. *)
Record releasing (s0 : fs) (fd j : Z) (s : fs) : Prop := {
  rel_frame : ∃ b, s = set_superblock b s0;
  rel_magic : magic (superblock s) = magic (superblock s0);
  rel_rp : free_blocks_rp (superblock s) = free_blocks_rp (superblock s0);
  rel_wp : 0 ≤ free_blocks_wp (superblock s) < NUM_BLOCKS;
  rel_free : free_list (superblock s)
    = free_list (superblock s0) ++ (block (file (superblock s0) fd) <$> seqZ 0 j);
  rel_others : ∀ i, i ≠ fd → file (superblock s) i = file (superblock s0) i;
  rel_name : name (file (superblock s) fd) = name (file (superblock s0) fd);
  rel_n : n_block (file (superblock s) fd) = n_block (file (superblock s0) fd);
  rel_block : ∀ k, block (file (superblock s) fd) k
    = if decide (0 ≤ k < j) then INACTIVE_BLOCK else block (file (superblock s0) fd) k;
}.

Lemma unlink_body_ok s0 fd j s :
  sb_inv (superblock s0) → 0 ≤ fd < MYFS_MAX_FILES → name (file (superblock s0) fd) ≠ "" →
  0 ≤ j < n_block (file (superblock s0) fd) → releasing s0 fd j s →
  ∃ s', unlink_body fd j s = Done ((), s') ∧ releasing s0 fd (j + 1) s'.
Proof.
  intros Hb Hfd Hn Hj Hr. destruct (inv_files _ Hb fd Hfd) as [Hlen _].
  rewrite file_len_named in Hlen by done.
  pose proof (rel_wp _ _ _ _ Hr) as Hwp. pose proof (inv_rp _ Hb) as Hrp.
  rewrite <- (rel_rp _ _ _ _ Hr) in Hrp. pose proof geom_blocks.
  assert ((free_blocks_wp (superblock s) + 1) mod NUM_BLOCKS ≠ free_blocks_rp (superblock s)) as Hroom.
  { apply ring_not_full; [done..|].
    rewrite <- (ring_list_length _ (free_blocks (superblock s))) by lia.
    fold (free_list (superblock s)). rewrite (rel_free _ _ _ _ Hr), length_app, length_fmap, length_seqZ.
    pose proof (inv_lengths _ Hb) as Hl. rewrite (owned_split _ fd), length_app in Hl by done.
    pose proof (length_file_blocks (file (superblock s0) fd)) as Hf.
    rewrite file_len_named in Hf by done. lia. }
  eexists. split; [unfold unlink_body; by fs_run|].
  split; simpl; try rewrite fn_lookup_insert; simpl; try apply Hr.
  - destruct (rel_frame _ _ _ _ Hr) as [b ->]. by eexists.
  - apply Z.mod_pos_bound. lia.
  - unfold free_list. simpl. rewrite ring_list_push by done. fold (free_list (superblock s)).
    rewrite (rel_free _ _ _ _ Hr), seqZ_app, fmap_app by lia. rewrite <- app_assoc. simpl.
    rewrite Z.add_0_l, (rel_block _ _ _ _ Hr), decide_False by lia. done.
  - intros i Hi. rewrite fn_lookup_insert_ne by done. by apply Hr.
  - intros k. destruct (decide (j = k)) as [<-|].
    + rewrite fn_lookup_insert. by rewrite decide_True by lia.
    + rewrite fn_lookup_insert_ne by done. rewrite (rel_block _ _ _ _ Hr).
      repeat case_decide; done || lia.
Qed.

Definition unlink_state (fd : Z) (sb : superblock_t) (s : fs) : fs :=
  set_state fd (FileState 0 0) (set_superblock sb s).

Lemma myfs_unlink_raw_ok fd s :
  sb_inv (superblock s) → 0 ≤ fd < MYFS_MAX_FILES → name (file (superblock s) fd) ≠ "" →
  ∃ sb, __myfs_unlink fd s = Done ((), unlink_state fd sb s) ∧ sb_inv sb ∧
        name (file sb fd) = "" ∧ (∀ i, i ≠ fd → file sb i = file (superblock s) i) ∧
        free_list sb = free_list (superblock s) ++ file_blocks (file (superblock s) fd).
Proof.
  intros Hb Hfd Hn. destruct (inv_files _ Hb fd Hfd) as [Hlen Hwf].
  rewrite file_len_named in Hlen, Hwf by done.
  destruct (for_each_ind (releasing s fd) (Z.to_nat (n_block (file (superblock s) fd))) 0
    (unlink_body fd) s) as (s1 & E & Hr).
  { split; try done; try apply Hb; [exists (superblock s); by destruct s| |].
    - by rewrite seqZ_nil, app_nil_r.
    - intros k. by rewrite decide_False by lia. }
  { intros j s' Hj Hr. apply unlink_body_ok; try done. lia. }
  rewrite Z.add_0_l, Z2Nat.id in Hr by lia.
  unfold __myfs_unlink. erewrite C_bind_Done; [|by fs_run].
  erewrite C_bind_Done by exact E.
  set (f' := File "" (block (file (superblock s1) fd)) 0). exists (set_file fd f' (superblock s1)).
  assert (free_list (set_file fd f' (superblock s1)) = free_list (superblock s) ++ file_blocks (file (superblock s) fd)) as Hfree.
  { rewrite file_blocks_named by done. rewrite <- (rel_free _ _ _ _ Hr). done. }
  split; [|split]; [| |split_and!].
  - destruct (rel_frame _ _ _ _ Hr) as [b ->]. fs_run.
    unfold unlink_state, set_state, set_superblock, set_file. simpl.
    by rewrite !fn_lookup_insert, !fn_insert_insert.
  - split; try done; simpl.
    + rewrite (rel_magic _ _ _ _ Hr). apply Hb.
    + rewrite (rel_rp _ _ _ _ Hr). apply Hb.
    + apply Hr.
    + intros i Hi. destruct (decide (fd = i)) as [<-|].
      * rewrite fn_lookup_insert. unfold file_wf. change (file_len f') with 0. split; [pose proof geom_per_file; lia|].
        intros j Hj. change (block f' j) with (block (file (superblock s1) fd) j).
        rewrite (rel_block _ _ _ _ Hr). case_decide; [done|]. apply Hwf. lia.
      * rewrite fn_lookup_insert_ne, (rel_others _ _ _ _ Hr) by done. by apply (inv_files _ Hb).
    + rewrite <- (inv_conserved _ Hb), Hfree, !(owned_split _ fd) by done.
      rewrite (owned_others_ext (superblock s)), (file_blocks_unnamed (file (set_file fd f' (superblock s1)) fd)).
      * simpl. by rewrite app_assoc.
      * simpl. by rewrite fn_lookup_insert.
      * intros i Hi. simpl. rewrite fn_lookup_insert_ne by done. by apply Hr.
  - simpl. by rewrite fn_lookup_insert.
  - intros i Hi. simpl. rewrite fn_lookup_insert_ne by done. by apply Hr.
  - done.
Qed.

(** Slot [i] changed only in its volatile state, or was emptied. *)
Lemma myfs_try_unlink_ok fd s :
  sb_inv (superblock s) → 0 ≤ fd < MYFS_MAX_FILES → name (file (superblock s) fd) ≠ "" →
  ∃ s', __myfs_try_unlink fd s = Done ((), s') ∧ sb_inv (superblock s') ∧
        myfs_mutex s' = myfs_mutex s ∧ myfs_file_mutex s' = myfs_file_mutex s ∧
        (∀ i, i ≠ fd → file (superblock s') i = file (superblock s) i ∧
                       myfs_file_states s' i = myfs_file_states s i) ∧
        (ref_count (myfs_file_states s fd) = 0 →
           name (file (superblock s') fd) = "" ∧
           free_list (superblock s') = free_list (superblock s) ++ file_blocks (file (superblock s) fd)) ∧
        (ref_count (myfs_file_states s fd) ≠ 0 → superblock s' = superblock s).
Proof.
  intros Hb Hfd Hn. unfold __myfs_try_unlink. fs_run. rewrite fn_lookup_insert. simpl.
  destruct (Z.eqb_spec (ref_count (myfs_file_states s fd)) 0) as [E0|E0].
  - match goal with |- context [__myfs_unlink fd ?st] =>
      destruct (myfs_unlink_raw_ok fd st) as (sb & E & Hsb & Hnm & Ho & Hf); [done..|] end.
    rewrite E. eexists. split; [done|]. split_and!; try done.
    intros i Hi. split; [by apply Ho|]. simpl. by rewrite !fn_lookup_insert_ne.
  - eexists. split; [done|]. split_and!; try done.
    intros i Hi. split; [done|]. simpl. by rewrite fn_lookup_insert_ne.
Qed.

Lemma myfs_unlink_fd_ok fd s :
  fs_inv s → 0 ≤ fd < MYFS_MAX_FILES → name (file (superblock s) fd) ≠ "" →
  ∃ s', myfs_unlink_fd fd s = Done ((), s') ∧ fs_inv s' ∧
        (∀ i, i ≠ fd → file (superblock s') i = file (superblock s) i) ∧
        (ref_count (myfs_file_states s fd) = 0 → name (file (superblock s') fd) = "").
Proof.
  intros [Hb [Hm Hq]] Hfd Hn. unfold myfs_unlink_fd. fs_run. rewrite Hm.
  destruct (myfs_try_unlink_ok fd (set_mutex true s)) as (s' & E & Hb' & _ & Hfm & Ho & Hz & _); [done..|].
  cbn. rewrite E. eexists. split; [done|].
  split; [split; [done|split; [done|]]|naive_solver].
  intros i Hi. simpl. rewrite Hfm. by apply Hq.
Qed.

Lemma prefix_nonempty fn nm : name_matches fn nm = true → fn ≠ "" → nm ≠ "".
Proof. unfold name_matches. by destruct fn, nm. Qed.

Lemma name_matches_refl fn : name_matches fn fn = true.
Proof. unfold name_matches. induction fn as [|a fn IH]; simpl; [done|]. by destruct (Ascii.ascii_dec a a). Qed.

Lemma name_matches_app fn ext : name_matches fn (fn +:+ ext) = true.
Proof. unfold name_matches. induction fn as [|a fn IH]; simpl; [by destruct ext|]. by destruct (Ascii.ascii_dec a a). Qed.

Lemma myfs_unlink_ok fn s :
  fs_inv s → fn ≠ "" →
  ∃ s', myfs_unlink fn s = Done ((), s') ∧ fs_inv s' ∧
        (∀ i, 0 ≤ i < MYFS_MAX_FILES → name_matches fn (name (file (superblock s) i)) = false →
              file (superblock s') i = file (superblock s) i) ∧
        (∀ i, 0 ≤ i < MYFS_MAX_FILES → name_matches fn (name (file (superblock s) i)) = true →
              ref_count (myfs_file_states s i) = 0 → name (file (superblock s') i) = "").
Proof.
  intros [Hb [Hm Hq]] Hfn. unfold myfs_unlink. pose proof geom_files.
  erewrite C_bind_Done; [|unfold lock_global, gets, mbind, C_bind; by rewrite Hm].
  set (P := λ (k : Z) (s' : fs),
    sb_inv (superblock s') ∧ myfs_file_mutex s' = myfs_file_mutex s ∧
    ∀ i, 0 ≤ i < MYFS_MAX_FILES →
      if decide (i < k)
      then (name_matches fn (name (file (superblock s) i)) = false →
              file (superblock s') i = file (superblock s) i) ∧
           (name_matches fn (name (file (superblock s) i)) = true →
              ref_count (myfs_file_states s i) = 0 → name (file (superblock s') i) = "")
      else file (superblock s') i = file (superblock s) i ∧
           myfs_file_states s' i = myfs_file_states s i).
  edestruct (for_each_ind P (Z.to_nat MYFS_MAX_FILES) 0) as (s' & E & Hb' & Hfm & HP).
  3: { erewrite C_bind_Done by exact E. eexists. split; [done|].
       rewrite Z.add_0_l, Z2Nat.id in HP by lia.
       split; [split; [done|split; [done|]]|split].
       - intros i Hi. simpl. rewrite Hfm. by apply Hq.
       - intros i Hi. specialize (HP i Hi). rewrite decide_True in HP by lia. apply HP.
       - intros i Hi. specialize (HP i Hi). rewrite decide_True in HP by lia. apply HP. }
  { split_and!; [done|done|]. intros i Hi. by rewrite decide_False by lia. }
  intros k s1 Hk (Hb1 & Hfm & HP). rewrite Z.add_0_l, Z2Nat.id in Hk by lia.
  pose proof (HP k Hk) as HPk. rewrite decide_False in HPk by lia. destruct HPk as [Hfk Hsk].
  erewrite C_bind_Done; [|by fs_run]. rewrite Hfk.
  destruct (name_matches fn _) eqn:Hmt.
  - destruct (myfs_try_unlink_ok k s1) as (s2 & E & Hb2 & _ & Hfm2 & Ho & Hz & _); [done..| |].
    { rewrite Hfk. by eapply prefix_nonempty. }
    exists s2. split; [done|]. split_and!; [done|congruence|]. intros i Hi. specialize (HP i Hi).
    destruct (decide (i = k)) as [->|Hne].
    + rewrite decide_True by lia. split; [congruence|]. intros _ Hr. apply Hz. by rewrite Hsk.
    + destruct (Ho i Hne) as [-> ->]. repeat case_decide; done || lia.
  - exists s1. split; [done|]. split_and!; [done..|]. intros i Hi. specialize (HP i Hi).
    destruct (decide (i = k)) as [->|Hne]; [rewrite decide_True by lia; by split; [|congruence]|].
    repeat case_decide; done || lia.
Qed.
End proofs2.
Section proofs3.
Context `{G : Geometry, !GeometryOk G}.

(** *** Opening *)

Definition no_match (fn : string) (b : superblock_t) (lo hi : Z) : Prop :=
  ∀ j, lo ≤ j < hi → name_matches fn (name (file b j)) = false.
Definition no_empty (b : superblock_t) (lo hi : Z) : Prop :=
  ∀ j, lo ≤ j < hi → name (file b j) ≠ "".

Definition opened (i : Z) (s : fs) : fs :=
  set_mutex false (set_state i (FileState MYFS_FILE_OPENED (ref_count (myfs_file_states s i))) s).

Lemma open_loop_ok fn n i e s :
  0 ≤ i → i + Z.of_nat n ≤ MYFS_MAX_FILES →
  (∃ k, i ≤ k < i + Z.of_nat n ∧ name_matches fn (name (file (superblock s) k)) = true ∧
        no_match fn (superblock s) i k ∧ open_loop fn n i e s = Done (inl k, opened k s)) ∨
  (no_match fn (superblock s) i (i + Z.of_nat n) ∧
   ∃ e', open_loop fn n i e s = Done (inr e', s) ∧ (e ≠ -1 → e' = e) ∧
     (e = -1 → e' = -1 ∧ no_empty (superblock s) i (i + Z.of_nat n) ∨
               i ≤ e' < i + Z.of_nat n ∧ name (file (superblock s) e') = "" ∧
               no_empty (superblock s) i e')).
Proof.
  revert i e. induction n as [|n IH]; intros i e Hi Hn; simpl.
  { right. split; [intros j Hj; lia|]. exists e. split_and!; [done..|]. left. split; [done|intros j Hj; lia]. }
  fs_run. destruct (name_matches fn (name (file (superblock s) i))) eqn:Hm.
  { left. exists i. split_and!; [lia..|done|intros j Hj; lia|by fs_run]. }
  set (e1 := if (_ && _)%bool then i else e).
  destruct (IH (i + 1) e1) as [(k & Hk & Hmk & Hno & E)|(Hno & e' & E & H1 & H2)]; [lia..| |].
  - left. exists k. rewrite E. split_and!; [lia..|done| |done].
    intros j Hj. destruct (decide (j = i)) as [->|]; [done|]. apply Hno. lia.
  - right. split.
    { intros j Hj. destruct (decide (j = i)) as [->|]; [done|]. apply Hno. lia. }
    exists e'. rewrite E. split; [done|]. subst e1.
    destruct (Z.eqb_spec e (-1)) as [->|He]; simpl in *; [|split; [auto|done]].
    split; [done|]. intros _.
    destruct (String.eqb_spec (name (file (superblock s) i)) "") as [Ei|Ei].
    + right. rewrite H1 by lia. split_and!; [lia..|done|intros j Hj; lia].
    + destruct H2 as [[-> Hne]|(? & ? & Hne)]; [done|left|right].
      * split; [done|]. intros j Hj. destruct (decide (j = i)) as [->|]; [done|]. apply Hne. lia.
      * split_and!; [lia..|done|]. intros j Hj. destruct (decide (j = i)) as [->|]; [done|]. apply Hne. lia.
Qed.

Lemma create_sb_inv fn i b :
  sb_inv b → 0 ≤ i < MYFS_MAX_FILES → name (file b i) = "" →
  sb_inv (set_file i (File fn (block (file b i)) 0) b).
Proof.
  intros Hb Hi Hn. destruct (inv_files _ Hb i Hi) as [Hl Hwf].
  assert (file_len (file b i) = 0) as E0 by (unfold file_len; by rewrite Hn).
  rewrite E0 in *.
  assert (file_len (File fn (block (file b i)) 0) = 0) as E1 by (unfold file_len; by destruct (String.eqb _ _)).
  split; try apply Hb.
  - intros k Hk. simpl. destruct (decide (i = k)) as [<-|].
    + rewrite fn_lookup_insert. split; by rewrite E1.
    + rewrite fn_lookup_insert_ne by done. by apply Hb.
  - rewrite <- (inv_conserved _ Hb), !(owned_split _ i) by done.
    rewrite (owned_others_ext b) by (intros; simpl; by rewrite fn_lookup_insert_ne).
    simpl. rewrite fn_lookup_insert. unfold file_blocks. by rewrite E0, E1.
Qed.

Definition open_result (fn : string) (s : fs) (i : Z) (s' : fs) : Prop :=
  (name_matches fn (name (file (superblock s) i)) = true ∧
   no_match fn (superblock s) 0 i ∧ superblock s' = superblock s) ∨
  (no_match fn (superblock s) 0 MYFS_MAX_FILES ∧
   name (file (superblock s) i) = "" ∧ no_empty (superblock s) 0 i ∧
   superblock s' = set_file i (File fn (block (file (superblock s) i)) 0) (superblock s)).

Lemma myfs_open_ok fn s :
  fs_inv s → strlen fn < MYFS_MAX_NAMELEN →
  (∃ k, 0 ≤ k < MYFS_MAX_FILES ∧ (name_matches fn (name (file (superblock s) k)) = true ∨
                                  name (file (superblock s) k) = "")) →
  ∃ i s', myfs_open fn s = Done (i, s') ∧ 0 ≤ i < MYFS_MAX_FILES ∧ fs_inv s' ∧
          flags (myfs_file_states s' i) = MYFS_FILE_OPENED ∧ open_result fn s i s'.
Proof.
  intros [Hb [Hm Hq]] Hlen (k & Hk & Hex). pose proof geom_files. unfold myfs_open.
  erewrite C_bind_Done; [|unfold lock_global, gets, mbind, C_bind; by rewrite Hm].
  destruct (open_loop_ok fn (Z.to_nat MYFS_MAX_FILES) 0 (-1) (set_mutex true s))
    as [(i & Hi & Hmi & Hno & E)|(Hno & e & E & _ & He)]; [lia..| |];
    rewrite Z.add_0_l, Z2Nat.id in * by lia; erewrite C_bind_Done by exact E.
  - exists i. eexists. split; [done|]. split; [lia|]. split; [done|]. split.
    + simpl. by rewrite fn_lookup_insert.
    + by left.
  - destruct He as [[_ He]|(Hi & Hne & Hfirst)]; [done| |].
    { exfalso. destruct Hex as [Hx|Hx]; [specialize (Hno k Hk); simpl in Hno; congruence|by apply (He k Hk)]. }
    assert (0 ≤ strlen fn) by (unfold strlen; lia).
    exists e. eexists. split; [by fs_run|]. split; [lia|].
    unfold open_result, fs_inv. simpl. rewrite !fn_lookup_insert. unfold set_file. simpl.
    rewrite fn_insert_insert. split; [split; [by apply create_sb_inv|done]|].
    split; [done|]. by right.
Qed.

(** *** Mounting *)

Lemma init_sb_files b i :
  0 ≤ i < MYFS_MAX_FILES →
  name (file (myfs_superblock_init_sb b) i) = "" ∧
  ∀ j, 0 ≤ j < MYFS_MAX_BLOCKS_PER_FILE → block (file (myfs_superblock_init_sb b) i) j = INACTIVE_BLOCK.
Proof.
  intros Hi. unfold myfs_superblock_init_sb. set (b1 := for_loop (Z.to_nat MYFS_MAX_FILES) 0 _ b). simpl.
  assert (∀ i, 0 ≤ i < MYFS_MAX_FILES → name (file b1 i) = "" ∧
    ∀ j, 0 ≤ j < MYFS_MAX_BLOCKS_PER_FILE → block (file b1 i) j = INACTIVE_BLOCK) as H1.
  { pose proof geom_files. pose proof geom_per_file.
    pose proof (for_loop_ind (λ k b, ∀ i, 0 ≤ i < k → name (file b i) = "" ∧
      ∀ j, 0 ≤ j < MYFS_MAX_BLOCKS_PER_FILE → block (file b i) j = INACTIVE_BLOCK)
      (Z.to_nat MYFS_MAX_FILES) 0) as Hind.
    rewrite Z.add_0_l, Z2Nat.id in Hind by lia. apply Hind; clear Hind; [lia|].
    intros k b' Hk IH.
    pose proof (for_loop_ind (λ m b, (∀ i, i ≠ k → file b i = file b' i) ∧ name (file b k) = "" ∧
      ∀ j, 0 ≤ j < m → block (file b k) j = INACTIVE_BLOCK)
      (Z.to_nat MYFS_MAX_BLOCKS_PER_FILE) 0) as Hind.
    rewrite Z.add_0_l, Z2Nat.id in Hind by lia.
    match goal with |- context [for_loop _ 0 ?bd ?b0] => specialize (Hind bd b0) end.
    destruct Hind as (Ho & Hn & Hbl).
    - split_and!; [|simpl; by rewrite fn_lookup_insert|lia].
      intros i' Hi'. simpl. by rewrite fn_lookup_insert_ne.
    - intros j b2 Hj (Ho & Hn & Hbl). simpl. rewrite fn_lookup_insert. split_and!.
      + intros i' Hi'. rewrite fn_lookup_insert_ne by done. by apply Ho.
      + done.
      + intros j' Hj'. simpl. destruct (decide (j = j')) as [<-|]; [by rewrite fn_lookup_insert|].
        rewrite fn_lookup_insert_ne by done. apply Hbl. lia.
    - intros i' Hi'. destruct (decide (i' = k)) as [->|Hne]; [done|]. rewrite Ho by done. apply IH. lia. }
  assert (file (for_loop (Z.to_nat (NUM_BLOCKS - 1)) 0 (λ i b, set_free_block i i b) b1) = file b1) as ->; [|by apply H1].
  generalize (Z.to_nat (NUM_BLOCKS - 1)), 0, b1. clear. intros n. induction n as [|n IH]; intros lo b; [done|].
  simpl. by rewrite IH.
Qed.

Lemma init_sb_free b k : 0 ≤ k < NUM_BLOCKS - 1 → free_blocks (myfs_superblock_init_sb b) k = k.
Proof.
  intros Hk. unfold myfs_superblock_init_sb. set (b1 := for_loop (Z.to_nat MYFS_MAX_FILES) 0 _ b). simpl.
  pose proof (for_loop_ind (λ m b, ∀ k, 0 ≤ k < m → free_blocks b k = k)
      (Z.to_nat (NUM_BLOCKS - 1)) 0) as Hind.
  rewrite Z.add_0_l, Z2Nat.id in Hind by lia. apply Hind; [lia| |done].
  intros i b' Hi IH j Hj. simpl. destruct (decide (i = j)) as [<-|]; [by rewrite fn_lookup_insert|].
  rewrite fn_lookup_insert_ne by done. apply IH. lia.
Qed.

Lemma init_sb_inv b : sb_inv (myfs_superblock_init_sb b).
Proof.
  pose proof geom_blocks. pose proof geom_per_file.
  split; [done|simpl; lia|simpl; lia| |].
  - intros i Hi. destruct (init_sb_files b i Hi) as [Hn Hbl]. unfold file_wf, file_len. rewrite Hn. simpl.
    split; [lia|]. intros j Hj. apply Hbl. lia.
  - assert (owned (myfs_superblock_init_sb b) = []) as ->.
    { unfold owned. generalize (init_sb_files b). generalize (file (myfs_superblock_init_sb b)). intros f Hf.
      assert (Forall (λ i, file_blocks (f i) = []) (seqZ 0 MYFS_MAX_FILES)) as Hall.
      { apply Forall_seqZ. intros i Hi. apply file_blocks_unnamed. apply Hf. lia. }
      induction Hall as [|i l Hi _ IH]; [done|]. simpl. rewrite Hi. exact IH. }
    rewrite app_nil_r. unfold free_list, ring_list.
    change (free_blocks_rp _) with 0. change (free_blocks_wp _) with (NUM_BLOCKS - 1).
    rewrite Z.sub_0_r, (Z.mod_small (NUM_BLOCKS - 1)) by lia.
    apply reflexive_eq. rewrite <- (list_fmap_id (seqZ 0 (NUM_BLOCKS - 1))) at 2.
    apply list_fmap_ext. intros i k Hk. apply lookup_seqZ in Hk.
    rewrite Z.add_0_l, Z.mod_small by lia. by rewrite init_sb_free by lia.
Qed.

Lemma myfs_mount_ok fd image s :
  magic image ≠ MYFS_MAGIC ∨ sb_inv image →
  ∃ s', myfs_mount fd (Some image) s = Done ((), s') ∧ fs_inv s' ∧
        (magic image = MYFS_MAGIC → superblock s' = image) ∧ superblock_fd s' = superblock_fd s ∧
        ∀ i, 0 ≤ i < MYFS_MAX_FILES → myfs_file_states s' i = FileState 0 0.
Proof.
  intros Himg. unfold myfs_mount. pose proof geom_files.
  erewrite C_bind_Done by done. erewrite C_bind_Done by done. simpl.
  set (sb := if Z.eqb (magic image) MYFS_MAGIC then image else myfs_superblock_init_sb image).
  assert (sb_inv sb) as Hsb.
  { subst sb. destruct (Z.eqb_spec (magic image) MYFS_MAGIC); [by destruct Himg|]. apply init_sb_inv. }
  rewrite (C_bind_Done _ _ _ () (set_superblock sb s)); [|subst sb; by destruct (Z.eqb _ _)].
  edestruct (for_each_ind (λ k s', superblock s' = sb ∧ superblock_fd s' = superblock_fd s ∧
    ∀ i, 0 ≤ i < k → myfs_file_mutex s' i = false ∧ myfs_file_states s' i = FileState 0 0)
    (Z.to_nat MYFS_MAX_FILES) 0) as (s' & E & H1 & H2 & H3).
  3: { erewrite C_bind_Done by exact E. eexists. split; [done|].
       rewrite Z.add_0_l, Z2Nat.id in H3 by lia. split; [split; [|split]|split_and!]; simpl.
       - by rewrite H1.
       - done.
       - simpl. intros i Hi. by apply H3.
       - intros Hmg. rewrite H1. subst sb. by rewrite Hmg.
       - done.
       - intros i Hi. by apply H3. }
  { split_and!; [done..|lia]. }
  intros i s1 Hi (H1 & H2 & H3). eexists. split; [by fs_run|]. split_and!; try done.
  intros j Hj. simpl. destruct (decide (i = j)) as [<-|]; [by rewrite !fn_lookup_insert|].
  rewrite !fn_lookup_insert_ne by done. apply H3. lia.
Qed.
End proofs3.

(** ** Traces of operations *)

Inductive fs_op :=
  | OpOpen (fn : string)
  | OpRead (i off : Z)
  | OpWrite (i off : Z)
  | OpUnlink (fn : string)
  | OpUnlinkFd (fd : Z)
  | OpClose (fd : Z)
  | OpSync
  | OpRef (fd : Z)
  | OpUnref (fd : Z).

Section traces.
Context `{G : Geometry}.

Definition exec_op (op : fs_op) : C fs Z :=
  match op with
  | OpOpen fn => myfs_open fn
  | OpRead i off => myfs_get_lba i off 0
  | OpWrite i off => myfs_get_lba i off 1
  | OpUnlink fn => myfs_unlink fn;; mret 0
  | OpUnlinkFd fd => myfs_unlink_fd fd;; mret 0
  | OpClose fd => myfs_close fd;; mret 0
  | OpSync => myfs_sync;; mret 0
  | OpRef fd => myfs_increment_ref fd
  | OpUnref fd => myfs_decrement_ref fd;; mret 0
  end.

(** What the callers owe: a file is written densely (its next block or one it
    has) and only while blocks are free, and an open finds its file or an
    unused slot. *)
Definition named_slot (s : fs) (fd : Z) : Prop :=
  0 ≤ fd < MYFS_MAX_FILES ∧ name (file (superblock s) fd) ≠ "".

Definition legal (s : fs) (op : fs_op) : Prop :=
  match op with
  | OpOpen fn =>
      fn ≠ "" ∧ strlen fn < MYFS_MAX_NAMELEN ∧
      ∃ k, 0 ≤ k < MYFS_MAX_FILES ∧
           (name_matches fn (name (file (superblock s) k)) = true ∨ name (file (superblock s) k) = "")
  | OpRead i off => allocated (superblock s) i off
  | OpWrite i off => writable (superblock s) i off
  | OpUnlink fn => fn ≠ ""
  | OpSync => True
  | OpUnlinkFd fd | OpClose fd | OpRef fd | OpUnref fd => named_slot s fd
  end.

Fixpoint exec_ops (ops : list fs_op) : C fs unit :=
  match ops with
  | [] => mret ()
  | op :: ops => exec_op op;; exec_ops ops
  end.

Fixpoint legal_trace (s : fs) (ops : list fs_op) : Prop :=
  match ops with
  | [] => True
  | op :: ops => legal s op ∧ ∀ r s', exec_op op s = Done (r, s') → legal_trace s' ops
  end.

(** The operations that may release the blocks of slot [i]. *)
Definition releases (s : fs) (i : Z) (op : fs_op) : Prop :=
  match op with
  | OpUnlink fn => name_matches fn (name (file (superblock s) i)) = true
  | OpUnlinkFd fd | OpUnref fd => fd = i
  | _ => False
  end.

Fixpoint keeps (s : fs) (i : Z) (ops : list fs_op) : Prop :=
  match ops with
  | [] => True
  | op :: ops => ¬ releases s i op ∧ ∀ r s', exec_op op s = Done (r, s') → keeps s' i ops
  end.

(** The blocks a slot has stay where they are. *)
Definition extends (f f' : file_t) : Prop :=
  name f' = name f ∧ n_block f ≤ n_block f' ∧ ∀ j, 0 ≤ j < n_block f → block f' j = block f j.

Global Instance extends_refl : Reflexive extends.
Proof. done. Qed.
Global Instance extends_trans : Transitive extends.
Proof.
  intros f g h (N1 & L1 & B1) (N2 & L2 & B2). split_and!; [congruence|lia|].
  intros j Hj. rewrite B2 by lia. by apply B1.
Qed.

Context `{!GeometryOk G}.


Lemma fs_op_ok s op :
  fs_inv s → legal s op →
  ∃ r s', exec_op op s = Done (r, s') ∧ fs_inv s' ∧
    ∀ i, 0 ≤ i < MYFS_MAX_FILES → name (file (superblock s) i) ≠ "" → ¬ releases s i op →
         extends (file (superblock s) i) (file (superblock s') i).
Proof.
  intros Hs Hl. destruct op as [fn|i off|i off|fn|fd|fd| |fd|fd]; simpl in *.
  - destruct Hl as (Hfn & Hlen & Hex).
    destruct (myfs_open_ok fn s Hs Hlen Hex) as (i & s' & E & Hi & Hs' & _ & Hr).
    exists i, s'. split_and!; [done..|]. intros k Hk Hn _.
    destruct Hr as [(_ & _ & ->)|(_ & He & _ & ->)]; [done|]. simpl.
    rewrite fn_lookup_insert_ne; [done|]. intros <-. done.
  - eexists _, s. split; [apply get_lba_read_ok; [apply Hs|done]|]. by split.
  - destruct (get_lba_write_ok i off s Hs Hl) as (s' & E & Hsb & Hv).
    eexists _, s'. split; [exact E|]. split.
    { split; [rewrite Hsb; apply write_sb_inv; [apply Hs|done]|]. apply Hv, Hs. }
    intros k Hk Hn _. rewrite Hsb. unfold write_sb. case_decide; [done|].
    unfold alloc_sb. simpl. destruct (decide (i = k)) as [<-|]; [|by rewrite fn_lookup_insert_ne].
    rewrite fn_lookup_insert. split_and!; simpl; [done|lia|]. intros j Hj.
    by rewrite fn_lookup_insert_ne by lia.
  - destruct (myfs_unlink_ok fn s Hs Hl) as (s' & E & Hs' & Ho & _).
    exists 0, s'. erewrite C_bind_Done by exact E. split_and!; [done..|].
    intros k Hk _ Hno. rewrite Ho; [done..|]. by apply not_true_is_false.
  - destruct Hl as [Hfd Hn]. destruct (myfs_unlink_fd_ok fd s Hs Hfd Hn) as (s' & E & Hs' & Ho & _).
    exists 0, s'. erewrite C_bind_Done by exact E. split_and!; [done..|].
    intros k Hk _ Hno. rewrite Ho; [done..|]. congruence.
  - destruct Hl as [Hfd Hn]. eexists 0, _. split; [unfold myfs_close, myfs_sync; by fs_run|]. by split.
  - eexists 0, _. split; [done|]. by split.
  - destruct Hl as [Hfd Hn]. unfold myfs_increment_ref. fs_run.
    destruct (Z.eqb _ _); fs_run; eexists _, _; (split; [done|]); by split.
  - destruct Hl as [Hfd Hn]. unfold myfs_decrement_ref. fs_run. rewrite fn_lookup_insert. simpl.
    destruct (_ && _)%bool.
    + match goal with |- context [myfs_unlink_fd fd ?st] =>
        destruct (myfs_unlink_fd_ok fd st) as (s' & E & Hs' & Ho & _); [done..|] end.
      rewrite E. eexists _, _. split; [done|]. split; [done|].
      intros k Hk _ Hno. rewrite Ho; [done..|]. congruence.
    + eexists _, _. split; [done|]. by split.
Qed.

Lemma exec_ops_ok ops s :
  fs_inv s → legal_trace s ops → ∃ s', exec_ops ops s = Done ((), s') ∧ fs_inv s'.
Proof.
  revert s. induction ops as [|op ops IH]; intros s Hs Hl; simpl in *; [by exists s|].
  destruct Hl as [Hl1 Hl2]. destruct (fs_op_ok s op Hs Hl1) as (r & s' & E & Hs' & _).
  erewrite C_bind_Done by exact E. by eapply IH, Hl2.
Qed.

Lemma exec_ops_keep ops i s :
  fs_inv s → legal_trace s ops → named_slot s i → keeps s i ops →
  ∃ s', exec_ops ops s = Done ((), s') ∧ fs_inv s' ∧
        extends (file (superblock s) i) (file (superblock s') i).
Proof.
  revert s. induction ops as [|op ops IH]; intros s Hs Hl [Hi Hn] Hk; simpl in *; [by exists s|].
  destruct Hl as [Hl1 Hl2], Hk as [Hk1 Hk2].
  destruct (fs_op_ok s op Hs Hl1) as (r & s' & E & Hs' & Hext). specialize (Hext i Hi Hn Hk1).
  erewrite C_bind_Done by exact E. edestruct IH as (s2 & E2 & Hs2 & Hx2); [done|eauto| |eauto|].
  { split; [done|]. destruct Hext as (-> & _). done. }
  exists s2. split_and!; [done..|]. by etrans.
Qed.

Lemma extends_allocated s s' i off :
  allocated (superblock s) i off → name (file (superblock s) i) ≠ "" →
  extends (file (superblock s) i) (file (superblock s') i) →
  allocated (superblock s') i off ∧
  block (file (superblock s') i) (off / MYFS_BLOCK_SIZE) = block (file (superblock s) i) (off / MYFS_BLOCK_SIZE).
Proof.
  intros [Hi Ho] Hn (Hnm & Hlen & Hbl). rewrite file_len_named in Ho by done. split.
  - split; [done|]. rewrite file_len_named by congruence. lia.
  - by apply Hbl.
Qed.

Lemma lba_of_split b off : lba_of b off = b * 4096 + off mod MYFS_BLOCK_SIZE / 512.
Proof.
  unfold lba_of. replace (b * MYFS_BLOCK_SIZE) with (b * 4096 * 512) by (unfold MYFS_BLOCK_SIZE; lia).
  by rewrite Z.add_comm, Z_div_plus_full, Z.add_comm by lia.
Qed.

Lemma sector_in_block off :
  off / 512 = off / MYFS_BLOCK_SIZE * 4096 + off mod MYFS_BLOCK_SIZE / 512.
Proof.
  rewrite (Z_div_mod_eq_full off MYFS_BLOCK_SIZE) at 1.
  replace (MYFS_BLOCK_SIZE * (off / MYFS_BLOCK_SIZE)) with (off / MYFS_BLOCK_SIZE * 4096 * 512)
    by (unfold MYFS_BLOCK_SIZE; lia).
  by rewrite Z.add_comm, Z_div_plus_full, Z.add_comm by lia.
Qed.

Lemma sector_bound off : 0 ≤ off mod MYFS_BLOCK_SIZE / 512 < 4096.
Proof.
  pose proof (Z.mod_pos_bound off _ block_size_pos). split; [apply Z.div_pos; lia|].
  apply Z.div_lt_upper_bound; [lia|]. unfold MYFS_BLOCK_SIZE in *. lia.
Qed.
End traces.
(** ** Concurrent allocation

    Writers of different files hold different mutexes, so several run the
    compare-and-swap loop of [myfs_get_lba] at once.  Each is at one of four
    points; a step is one access to shared memory. *)

Inductive alloc_pc :=
  | AStart
  | ALoaded (old_val : Z)
  | AWon (old_val : Z)
  | ATook (b : Z).

Section alloc.
Context `{G : Geometry} (ring : Z → Z).

Inductive alloc_step : Z * list alloc_pc → Z * list alloc_pc → Prop :=
  | step_load rp pcs t :
      pcs !! t = Some AStart → alloc_step (rp, pcs) (rp, <[t := ALoaded rp]> pcs)
  | step_cas_ok rp pcs t :
      pcs !! t = Some (ALoaded rp) →
      alloc_step (rp, pcs) ((rp + 1) mod NUM_BLOCKS, <[t := AWon rp]> pcs)
  | step_cas_fail rp pcs t old :
      pcs !! t = Some (ALoaded old) → old ≠ rp → alloc_step (rp, pcs) (rp, <[t := AStart]> pcs)
  | step_take rp pcs t old :
      pcs !! t = Some (AWon old) → alloc_step (rp, pcs) (rp, <[t := ATook (ring old)]> pcs).

(** The winners in the order of their successful swaps. *)
Definition alloc_inv (rp0 : Z) (n : nat) (order : list nat) (st : Z * list alloc_pc) : Prop :=
  length st.2 = n ∧ NoDup order ∧ st.1 = (rp0 + Z.of_nat (length order)) mod NUM_BLOCKS ∧
  (∀ k t, order !! k = Some t →
     st.2 !! t = Some (AWon ((rp0 + Z.of_nat k) mod NUM_BLOCKS)) ∨
     st.2 !! t = Some (ATook (ring ((rp0 + Z.of_nat k) mod NUM_BLOCKS)))) ∧
  (∀ t pc, st.2 !! t = Some pc → t ∉ order → pc = AStart ∨ ∃ old, pc = ALoaded old).

Lemma order_not_before rp0 n order st t pc :
  alloc_inv rp0 n order st → st.2 !! t = Some pc →
  match pc with AStart | ALoaded _ => t ∉ order | _ => t ∈ order end.
Proof.
  intros (_ & _ & _ & Hwin & Hrest) Ht. destruct (decide (t ∈ order)) as [Hin|Hout].
  - pose proof Hin as Hin'. apply list_elem_of_lookup in Hin' as [k Hk].
    destruct (Hwin k t Hk) as [E|E]; rewrite E in Ht; by simplify_eq.
  - destruct (Hrest t pc Ht Hout) as [->|[old ->]]; done.
Qed.

Lemma alloc_step_inv rp0 n order st st' :
  alloc_inv rp0 n order st → alloc_step st st' → ∃ order', alloc_inv rp0 n order' st'.
Proof.
  intros Hinv Hstep. pose proof (order_not_before rp0 n order st) as Hon.
  pose proof Hinv as (Hn & Hnd & Hrp & Hwin & Hrest).
  inversion Hstep as [rp pcs t Ht|rp pcs t Ht|rp pcs t old Ht Hne|rp pcs t old Ht]; subst; simpl in *;
    specialize (Hon t _ Hinv Ht); simpl in Hon.
  - exists order. split_and!; simpl; [by rewrite length_insert|done..| |].
    + intros k u Hk. assert (u ≠ t) by (intros ->; apply Hon; by eapply list_elem_of_lookup_2).
      rewrite list_lookup_insert_ne by done. by apply Hwin.
    + intros u pc [(<- & <- & _)|(? & ?)]%list_lookup_insert_Some Hu; [by eauto|by apply (Hrest u)].
  - exists (order ++ [t]). split_and!; simpl.
    + by rewrite length_insert.
    + apply NoDup_app. split_and!; [done|set_solver|apply NoDup_singleton].
    + rewrite length_app. simpl. rewrite Hrp, Zplus_mod_idemp_l. f_equal. lia.
    + intros k u [Hk|[Hk Hu]]%lookup_app_Some.
      * assert (u ≠ t) by (intros ->; apply Hon; by eapply list_elem_of_lookup_2).
        rewrite list_lookup_insert_ne by done. by apply Hwin.
      * apply list_lookup_singleton_Some in Hu as [Hk0 ->].
        assert (k = length order) as -> by lia. left.
        rewrite list_lookup_insert_eq by (by eapply lookup_lt_Some). by rewrite <- Hrp.
    + intros u pc [(<- & <- & _)|(? & ?)]%list_lookup_insert_Some Hu; [set_solver|].
      apply (Hrest u); [done|set_solver].
  - exists order. split_and!; simpl; [by rewrite length_insert|done..| |].
    + intros k u Hk. assert (u ≠ t) by (intros ->; apply Hon; by eapply list_elem_of_lookup_2).
      rewrite list_lookup_insert_ne by done. by apply Hwin.
    + intros u pc [(<- & <- & _)|(? & ?)]%list_lookup_insert_Some Hu; [by eauto|by apply (Hrest u)].
  - exists order. split_and!; simpl; [by rewrite length_insert|done..| |].
    + intros k u Hk. destruct (decide (u = t)) as [->|]; [|rewrite list_lookup_insert_ne by done; by apply Hwin].
      right. rewrite list_lookup_insert_eq by (by eapply lookup_lt_Some).
      destruct (Hwin k t Hk) as [E|E]; rewrite E in Ht; by simplify_eq.
    + intros u pc [(<- & <- & _)|(? & ?)]%list_lookup_insert_Some Hu; [done|by apply (Hrest u)].
Qed.

Lemma alloc_reach_inv rp0 n st :
  0 ≤ rp0 < NUM_BLOCKS →
  rtc alloc_step (rp0, replicate n AStart) st → ∃ order, alloc_inv rp0 n order st.
Proof.
  intros Hrp Hrtc. remember (rp0, replicate n AStart) as st0 eqn:E0.
  assert (∃ order, alloc_inv rp0 n order st0) as H0.
  { exists []. subst st0. split_and!; simpl; [by rewrite length_replicate|apply NoDup_nil_2| |done|].
    - rewrite Z.mod_small by lia. lia.
    - intros t pc [-> _]%lookup_replicate _. by left. }
  clear E0. induction Hrtc as [st|st st1 st2 Hstep _ IH]; [done|].
  apply IH. destruct H0 as [order H0]. by eapply alloc_step_inv.
Qed.

Lemma ring_list_lookup rp wp k :
  0 ≤ k < (wp - rp) mod NUM_BLOCKS →
  ring_list NUM_BLOCKS ring rp wp !! Z.to_nat k = Some (ring ((rp + k) mod NUM_BLOCKS)).
Proof.
  intros Hk. unfold ring_list. rewrite list_lookup_fmap, lookup_seqZ_lt by lia. simpl.
  do 4 f_equal. lia.
Qed.

Lemma alloc_took rp0 n wp order st t b :
  Z.of_nat n ≤ (wp - rp0) mod NUM_BLOCKS →
  alloc_inv rp0 n order st → st.2 !! t = Some (ATook b) →
  ∃ k, order !! k = Some t ∧ ring_list NUM_BLOCKS ring rp0 wp !! k = Some b.
Proof.
  intros Hn Hinv Ht.
  pose proof (order_not_before _ _ _ _ _ _ Hinv Ht) as Hin. simpl in Hin.
  apply list_elem_of_lookup in Hin as [k Hk]. exists k. split; [done|].
  destruct Hinv as (Hlen & Hnd & _ & Hwin & Hrest).
  assert (length order ≤ n)%nat as Hle.
  { rewrite <- (length_seq n 0). apply submseteq_length, NoDup_submseteq; [done|]. intros u Hu.
    apply list_elem_of_lookup in Hu as [j Hj]. apply elem_of_seq.
    enough (u < length st.2)%nat by lia. destruct (Hwin j u Hj); by eapply lookup_lt_Some. }
  apply lookup_lt_Some in Hk as Hk'.
  rewrite <- (Nat2Z.id k) at 1. rewrite ring_list_lookup by lia.
  destruct (Hwin k t Hk) as [E|E]; rewrite E in Ht; by simplify_eq.
Qed.
End alloc.

(** ** Properties *)

Section properties.
Context `{G : Geometry, !GeometryOk G}.

(** C14: after mounting a superblock file that is blank or was left consistent,
    every legal sequence of opens, reads, writes, unlinks, closes and reference
    changes runs without a fault, and afterwards every block number is either in
    the free ring or owned by exactly one file, exactly once. *)
Theorem myfs_conserves_blocks fd image s0 ops :
  magic image ≠ MYFS_MAGIC ∨ sb_inv image →
  (∀ s, myfs_mount fd (Some image) s0 = Done ((), s) → legal_trace s ops) →
  ∃ s', (myfs_mount fd (Some image);; exec_ops ops) s0 = Done ((), s') ∧ fs_inv s'.
Proof.
  intros Himg Hl. destruct (myfs_mount_ok fd image s0 Himg) as (s & E & Hs & _).
  erewrite C_bind_Done by exact E. by apply exec_ops_ok, Hl.
Qed.

(** C8: two reads of allocated bytes reach the same device sector only when they
    are of the same file and of the same 512-byte sector of it. *)
Theorem myfs_lba_isolation s i off i' off' l l' s1 s2 :
  fs_inv s → allocated (superblock s) i off → allocated (superblock s) i' off' →
  myfs_get_lba i off 0 s = Done (l, s1) → myfs_get_lba i' off' 0 s = Done (l', s2) →
  l = l' ↔ i = i' ∧ off / 512 = off' / 512.
Proof.
  intros [Hb _] Ha Ha'. rewrite !get_lba_read_ok by done. intros [= <- _] [= <- _].
  rewrite !lba_of_split, (sector_in_block off), (sector_in_block off').
  pose proof (sector_bound off). pose proof (sector_bound off').
  split; [|intros [<- ?]; assert (off / MYFS_BLOCK_SIZE = off' / MYFS_BLOCK_SIZE) as -> by lia; lia].
  intros Heq. assert (block (file (superblock s) i) (off / MYFS_BLOCK_SIZE)
    = block (file (superblock s) i') (off' / MYFS_BLOCK_SIZE)) as Hbl by lia.
  destruct Ha, Ha'. apply owned_injective in Hbl as [-> Hj]; [|done..]. split; [done|lia].
Qed.

(** C2: the sector a write was given is the sector every later read of that byte
    is given, across any legal operations that do not unlink the file. *)
Theorem myfs_read_after_write s i off l s1 ops :
  fs_inv s → writable (superblock s) i off → myfs_get_lba i off 1 s = Done (l, s1) →
  legal_trace s1 ops → keeps s1 i ops →
  ∃ s2, exec_ops ops s1 = Done ((), s2) ∧ myfs_get_lba i off 0 s2 = Done (l, s2).
Proof.
  intros Hs Hw E Hl Hk. destruct (get_lba_write_ok i off s Hs Hw) as (s1' & E' & Hsb & Hv).
  rewrite E' in E. simplify_eq.
  assert (fs_inv s1) as Hs1.
  { split; [rewrite Hsb; apply write_sb_inv; [apply Hs|done]|]. apply Hv, Hs. }
  pose proof (write_sb_allocated _ _ _ (proj1 Hs) Hw) as Ha. rewrite <- Hsb in *.
  assert (name (file (superblock s1) i) ≠ "") as Hn.
  { rewrite Hsb. destruct Hw as (_ & Hn & _). unfold write_sb. case_decide; [done|].
    simpl. by rewrite fn_lookup_insert. }
  destruct (exec_ops_keep ops i s1) as (s2 & E2 & Hs2 & Hx); [done..|by split; [apply Ha|]|done|].
  exists s2. split; [done|]. destruct (extends_allocated s1 s2 i off) as [Ha2 Hb2]; [done..|].
  rewrite get_lba_read_ok by (done || apply Hs2). by rewrite Hb2.
Qed.

(** opening a name again returns the slot the first open returned and leaves
    the superblock alone; a name neither of the two is a prefix of gets another
    slot. *)
Theorem myfs_open_stable s fn fn' i s1 :
  fs_inv s → legal s (OpOpen fn) → myfs_open fn s = Done (i, s1) →
  (∃ s2, myfs_open fn s1 = Done (i, s2) ∧ superblock s2 = superblock s1) ∧
  (legal s1 (OpOpen fn') → name_matches fn' (name (file (superblock s1) i)) = false →
   ∃ i' s2, myfs_open fn' s1 = Done (i', s2) ∧ i' ≠ i).
Proof.
  intros Hs (Hfn & Hlen & Hex) E.
  destruct (myfs_open_ok fn s Hs Hlen Hex) as (i0 & s1' & E' & Hi & Hs1 & _ & Hr).
  rewrite E in E'. simplify_eq.
  assert (name_matches fn (name (file (superblock s1') i0)) = true ∧
          no_match fn (superblock s1') 0 i0) as [Hm Hno].
  { destruct Hr as [(Hm & Hno & ->)|(Hno & _ & _ & ->)]; [done|]. simpl. rewrite fn_lookup_insert. split.
    - apply name_matches_refl.
    - intros j Hj. simpl. rewrite fn_lookup_insert_ne by lia. apply Hno. lia. }
  split.
  - destruct (myfs_open_ok fn s1' Hs1 Hlen) as (i2 & s2 & E2 & Hi2 & _ & _ & Hr2); [by eauto|].
    exists s2. destruct Hr2 as [(Hm2 & Hno2 & Hsb)|(Hno2 & _)].
    + assert (i2 = i0) as ->; [|done].
      destruct (Z.lt_trichotomy i2 i0) as [Hlt|[?|Hlt]]; [|done|].
      * by rewrite (Hno i2 ltac:(lia)) in Hm2.
      * by rewrite (Hno2 i0 ltac:(lia)) in Hm.
    + by rewrite (Hno2 i0 Hi) in Hm.
  - intros (Hfn' & Hlen' & Hex') Hm'.
    destruct (myfs_open_ok fn' s1' Hs1 Hlen' Hex') as (i2 & s2 & E2 & _ & _ & _ & Hr2).
    exists i2, s2. split; [done|]. intros ->.
    destruct Hr2 as [(Hm2 & _)|(_ & He & _)]; [congruence|].
    by apply prefix_nonempty in Hm.
Qed.

(** writers that race in the allocation loop of [myfs_get_lba] take distinct
    blocks, all from the free ring, as long as the ring has a block for each. *)
Theorem myfs_concurrent_allocation_distinct b n st t t' x x' :
  sb_inv b → Z.of_nat n ≤ Z.of_nat (length (free_list b)) →
  rtc (alloc_step (free_blocks b)) (free_blocks_rp b, replicate n AStart) st →
  st.2 !! t = Some (ATook x) → st.2 !! t' = Some (ATook x') → t ≠ t' →
  x ≠ x' ∧ x ∈ free_list b ∧ x' ∈ free_list b.
Proof.
  intros Hb Hn Hreach Ht Ht' Hne. pose proof geom_blocks.
  unfold free_list in Hn. rewrite ring_list_length in Hn by lia.
  destruct (alloc_reach_inv _ _ _ _ (inv_rp _ Hb) Hreach) as [order Hinv].
  destruct (alloc_took _ _ _ _ _ _ _ _ Hn Hinv Ht) as (k & Hk & Hx).
  destruct (alloc_took _ _ _ _ _ _ _ _ Hn Hinv Ht') as (k' & Hk' & Hx').
  split; [|split; by eapply list_elem_of_lookup_2].
  intros <-. pose proof (inv_NoDup _ Hb) as Hnd. apply NoDup_app in Hnd as (Hnd & _ & _).
  pose proof (NoDup_lookup _ _ _ _ Hnd Hx Hx') as ->. congruence.
Qed.
End properties.

(** ** Limits of the file system

    What the operations do outside the obligations of [legal], and two places
    where they do less than they set out to. *)

Section limits.
Context `{G : Geometry, !GeometryOk G}.

(** [myfs_used_blocks] is the number of blocks the files own as long as one
    block is free; with none free it answers -1, whatever the files own. *)
Theorem myfs_used_blocks_ok s :
  fs_inv s →
  (free_blocks_rp (superblock s) ≠ free_blocks_wp (superblock s) →
   myfs_used_blocks s = Z.of_nat (length (owned (superblock s)))) ∧
  (free_blocks_rp (superblock s) = free_blocks_wp (superblock s) →
   myfs_used_blocks s = -1 ∧ Z.of_nat (length (owned (superblock s))) = NUM_BLOCKS - 1).
Proof.
  intros [Hb _]. pose proof (inv_lengths _ Hb) as Hl. pose proof (inv_rp _ Hb). pose proof (inv_wp _ Hb).
  unfold free_list in Hl. rewrite ring_list_length, ring_gap in Hl by lia.
  unfold myfs_used_blocks. destruct (Z.ltb_spec (free_blocks_rp (superblock s)) (free_blocks_wp (superblock s)));
    case_decide; lia.
Qed.

(** a file unlinked while one reference is held is marked, but dropping that
    reference does not release it: [myfs_decrement_ref] tests the count it had
    before, so the slot keeps its name and its blocks. *)
Theorem deferred_unlink_not_reclaimed s fd :
  fs_inv s → named_slot s fd → ref_count (myfs_file_states s fd) = 1 →
  ∃ s', (myfs_unlink_fd fd;; myfs_decrement_ref fd) s = Done ((), s') ∧
        superblock s' = superblock s ∧ ref_count (myfs_file_states s' fd) = 0 ∧
        Z.testbit (flags (myfs_file_states s' fd)) 1 = true.
Proof.
  intros [Hb [Hm Hq]] [Hfd Hn] Hr. set (fl := Z.lor (flags (myfs_file_states s fd)) MYFS_FILE_UNLINKED).
  rewrite (C_bind_Done _ _ _ () (set_mutex false (set_state fd (FileState fl 1) (set_mutex true s)))).
  - unfold myfs_decrement_ref. eexists. split.
    { fs_run. rewrite fn_lookup_insert. simpl (Z.eqb _ 0). by simpl. }
    simpl. rewrite !fn_lookup_insert. split_and!; [done..|]. subst fl.
    change (Z.testbit (Z.lor (flags (myfs_file_states s fd)) MYFS_FILE_UNLINKED) 1 = true).
    by rewrite Z.lor_spec, orb_true_r.
  - unfold myfs_unlink_fd, __myfs_try_unlink. fs_run. rewrite Hm. fs_run.
    rewrite !fn_lookup_insert. simpl. by rewrite Hr.
Qed.

(** a name that is a proper prefix of an existing file's name opens that
    file: the comparison stops at the length of the name asked for. *)
Theorem myfs_open_prefix_alias s fn ext i :
  fs_inv s → strlen fn < MYFS_MAX_NAMELEN → 0 ≤ i < MYFS_MAX_FILES →
  name (file (superblock s) i) = (fn +:+ ext)%string → no_match fn (superblock s) 0 i →
  ∃ s', myfs_open fn s = Done (i, s') ∧ superblock s' = superblock s.
Proof.
  intros Hs Hlen Hi Hn Hno.
  assert (name_matches fn (name (file (superblock s) i)) = true) as Hm.
  { rewrite Hn. apply name_matches_app. }
  destruct (myfs_open_ok fn s Hs Hlen) as (i2 & s2 & E2 & Hi2 & _ & _ & Hr2); [by eauto|].
  exists s2. destruct Hr2 as [(Hm2 & Hno2 & Hsb)|(Hno2 & _)]; [|by rewrite (Hno2 i Hi) in Hm].
  assert (i2 = i) as ->; [|done]. destruct (Z.lt_trichotomy i2 i) as [Hlt|[?|Hlt]]; [|done|].
  - by rewrite (Hno i2 ltac:(lia)) in Hm2.
  - by rewrite (Hno2 i ltac:(lia)) in Hm.
Qed.

(** the descriptor [myfs_mount] opens never reaches [fsync]: it is stored in
    a local variable, so every sync of a process that starts with no descriptor
    is of descriptor -1. *)
Theorem myfs_sync_wrong_descriptor fd image s0 i :
  magic image ≠ MYFS_MAGIC ∨ sb_inv image → superblock_fd s0 = -1 → 0 ≤ i < MYFS_MAX_FILES →
  ∃ s', (myfs_mount fd (Some image);; myfs_close i) s0 = Done ((), s') ∧ last (synced s') = Some (-1).
Proof.
  intros Himg Hfd Hi. destruct (myfs_mount_ok fd image s0 Himg) as (s & E & Hs & _ & Hfd' & _).
  erewrite C_bind_Done by exact E. eexists. split; [unfold myfs_close, myfs_sync; by fs_run|].
  simpl. by rewrite last_snoc, Hfd', Hfd.
Qed.

(** ** Demonstration states *)

Definition after {A} (m : C fs A) (s : fs) : fs :=
  match m s with Done (_, s') => s' | Fault _ => s end.

Definition result {A} (m : C fs A) (s : fs) : option A :=
  match m s with Done (a, _) => Some a | Fault _ => None end.

Lemma legal_trace_after s s1 op ops :
  s1 = after (exec_op op) s → legal s op → legal_trace s1 ops → legal_trace s (op :: ops).
Proof. intros -> H1 H2. split; [done|]. intros r s' E. unfold after in H2. by rewrite E in H2. Qed.

Lemma exec_op_after_inv s op : fs_inv s → legal s op → fs_inv (after (exec_op op) s).
Proof. intros Hs Hl. destruct (fs_op_ok s op Hs Hl) as (r & s' & E & Hs' & _). unfold after. by rewrite E. Qed.
End limits.

Definition small_geometry : Geometry :=
  {| NUM_BLOCKS := 4; MYFS_MAX_BLOCKS_PER_FILE := 3; MYFS_MAX_FILES := 2 |}.
Global Instance small_geometry_ok : GeometryOk small_geometry.
Proof. by split. Qed.

Definition blank_image : superblock_t := Superblock 0 (λ _, 0) 0 0 (λ _, File "" (λ _, 0) 0).
Definition boot_fs : fs := Fs blank_image (λ _, FileState 0 0) (λ _, false) false (-1) [].

(** Two files of one block each on the small geometry. *)
Definition demo_trace : list fs_op := [OpOpen "a"; OpWrite 0 0; OpOpen "b"; OpWrite 1 5].
Section demo.
Local Existing Instance small_geometry.

Definition demo_mounted : fs := after (myfs_mount 3 (Some blank_image)) boot_fs.
Definition demo_opened : fs := after (exec_op (OpOpen "a")) demo_mounted.
Definition demo_written : fs := after (exec_op (OpWrite 0 0)) demo_opened.
Definition demo_two : fs := after (exec_op (OpOpen "b")) demo_written.
Definition demo_fs : fs := after (exec_op (OpWrite 1 5)) demo_two.

Lemma demo_mounted_inv : fs_inv demo_mounted.
Proof.
  destruct (myfs_mount_ok 3 blank_image boot_fs) as (s & E & Hs & _); [by left|].
  unfold demo_mounted, after. by rewrite E.
Qed.

Lemma demo_legal_1 : legal demo_mounted (OpOpen "a").
Proof. split_and!; [done|done|]. exists 0. split; [done|]. right. by vm_compute. Qed.
Lemma demo_opened_inv : fs_inv demo_opened.
Proof. apply exec_op_after_inv; [apply demo_mounted_inv|apply demo_legal_1]. Qed.
Lemma demo_legal_2 : legal demo_opened (OpWrite 0 0).
Proof. split_and!; [done..|by vm_compute|]. right. split_and!; by vm_compute. Qed.
Lemma demo_written_inv : fs_inv demo_written.
Proof. apply exec_op_after_inv; [apply demo_opened_inv|apply demo_legal_2]. Qed.
Lemma demo_legal_3 : legal demo_written (OpOpen "b").
Proof. split_and!; [done|done|]. exists 1. split; [done|]. right. by vm_compute. Qed.
Lemma demo_two_inv : fs_inv demo_two.
Proof. apply exec_op_after_inv; [apply demo_written_inv|apply demo_legal_3]. Qed.
Lemma demo_legal_4 : legal demo_two (OpWrite 1 5).
Proof. split_and!; [done..|by vm_compute|]. right. split_and!; by vm_compute. Qed.
Lemma demo_inv : fs_inv demo_fs.
Proof. apply exec_op_after_inv; [apply demo_two_inv|apply demo_legal_4]. Qed.

Lemma demo_legal_trace : legal_trace demo_mounted demo_trace.
Proof.
  apply (legal_trace_after _ demo_opened); [reflexivity|apply demo_legal_1|].
  apply (legal_trace_after _ demo_written); [reflexivity|apply demo_legal_2|].
  apply (legal_trace_after _ demo_two); [reflexivity|apply demo_legal_3|].
  apply (legal_trace_after _ demo_fs); [reflexivity|apply demo_legal_4|done].
Qed.

Lemma myfs_conserves_blocks_witness :
  ∃ s', (myfs_mount 3 (Some blank_image);; exec_ops demo_trace) boot_fs = Done ((), s') ∧ fs_inv s'.
Proof.
  apply (myfs_conserves_blocks 3 blank_image boot_fs demo_trace); [by left|].
  intros s E. pose proof demo_legal_trace as Hl. unfold demo_mounted, after in Hl. by rewrite E in Hl.
Defined.

Lemma myfs_lba_isolation_witness :
  ∃ l l', myfs_get_lba 0 100 0 demo_fs = Done (l, demo_fs) ∧ myfs_get_lba 1 5 0 demo_fs = Done (l', demo_fs) ∧ (l = l' ↔ 0 = 1 ∧ 100 / 512 = 5 / 512).
Proof.
  exists 0, 4096. assert (myfs_get_lba 0 100 0 demo_fs = Done (0, demo_fs)) as E1 by (vm_compute; reflexivity).
  assert (myfs_get_lba 1 5 0 demo_fs = Done (4096, demo_fs)) as E2 by (vm_compute; reflexivity).
  split_and!; [exact E1|exact E2|].
  apply (myfs_lba_isolation demo_fs 0 100 1 5 0 4096 demo_fs demo_fs); [apply demo_inv| | |exact E1|exact E2];
    split; split; by vm_compute.
Defined.

Lemma myfs_read_after_write_witness :
  ∃ s2, exec_ops [OpOpen "b"; OpWrite 1 5] demo_written = Done ((), s2) ∧ myfs_get_lba 0 0 0 s2 = Done (0, s2).
Proof.
  apply (myfs_read_after_write demo_opened 0 0 0 demo_written);
    [apply demo_opened_inv|apply demo_legal_2|vm_compute; reflexivity| |].
  - apply (legal_trace_after _ demo_two); [reflexivity|apply demo_legal_3|].
    apply (legal_trace_after _ demo_fs); [reflexivity|apply demo_legal_4|done].
  - split; [simpl; tauto|]. intros. split; [simpl; tauto|done].
Defined.

Lemma myfs_open_stable_witness :
  (∃ s2, myfs_open "a" demo_opened = Done (0, s2) ∧ superblock s2 = superblock demo_opened) ∧
  (legal demo_opened (OpOpen "b") → name_matches "b" (name (file (superblock demo_opened) 0)) = false →
   ∃ i' s2, myfs_open "b" demo_opened = Done (i', s2) ∧ i' ≠ 0).
Proof.
  apply (myfs_open_stable demo_mounted "a" "b" 0 demo_opened);
    [apply demo_mounted_inv|apply demo_legal_1|vm_compute; reflexivity].
Defined.

(** Two writers, the second losing one race. *)
Definition demo_race : Z * list alloc_pc := (2, [ATook 0; ATook 1]).

Lemma demo_race_reachable :
  rtc (alloc_step (free_blocks (superblock demo_mounted)))
    (free_blocks_rp (superblock demo_mounted), replicate 2 AStart) demo_race.
Proof.
  change (free_blocks_rp (superblock demo_mounted)) with 0.
  eapply rtc_l; [by apply (step_load _ _ _ 0)|]. eapply rtc_l; [by apply (step_load _ _ _ 1)|].
  eapply rtc_l; [by apply (step_cas_ok _ _ _ 0)|]. eapply rtc_l; [by apply (step_cas_fail _ _ _ 1 0)|].
  eapply rtc_l; [by apply (step_take _ _ _ 0 0)|]. eapply rtc_l; [by apply (step_load _ _ _ 1)|].
  eapply rtc_l; [by apply (step_cas_ok _ _ _ 1)|]. eapply rtc_l; [by apply (step_take _ _ _ 1 1)|].
  apply rtc_refl.
Qed.

Lemma myfs_concurrent_allocation_distinct_witness :
  0 ≠ 1 ∧ 0 ∈ free_list (superblock demo_mounted) ∧ 1 ∈ free_list (superblock demo_mounted).
Proof.
  apply (myfs_concurrent_allocation_distinct (superblock demo_mounted) 2 demo_race 0%nat 1%nat 0 1);
    [apply demo_mounted_inv|by vm_compute|apply demo_race_reachable|done..].
Defined.

Lemma myfs_used_blocks_ok_witness : myfs_used_blocks demo_fs = 2.
Proof.
  destruct (myfs_used_blocks_ok demo_fs demo_inv) as [H _]. rewrite H; by vm_compute.
Defined.

Lemma deferred_unlink_not_reclaimed_witness :
  let s := after (myfs_increment_ref 0) demo_written in
  ∃ s', (myfs_unlink_fd 0;; myfs_decrement_ref 0) s = Done ((), s') ∧
        superblock s' = superblock s ∧ ref_count (myfs_file_states s' 0) = 0 ∧
        Z.testbit (flags (myfs_file_states s' 0)) 1 = true.
Proof.
  apply (deferred_unlink_not_reclaimed (after (exec_op (OpRef 0)) demo_written) 0);
    [apply exec_op_after_inv; [apply demo_written_inv|]|split; [done|by vm_compute]|by vm_compute].
  split; [done|by vm_compute].
Defined.

Lemma myfs_open_prefix_alias_witness :
  let s := after (exec_op (OpOpen "db/10")) demo_mounted in
  ∃ s', myfs_open "db/1" s = Done (0, s') ∧ superblock s' = superblock s.
Proof.
  apply (myfs_open_prefix_alias (after (exec_op (OpOpen "db/10")) demo_mounted) "db/1" "0" 0);
    [apply exec_op_after_inv; [apply demo_mounted_inv|]|done|done|by vm_compute|intros j Hj; lia].
  split_and!; [done|done|]. exists 0. split; [done|]. right. by vm_compute.
Defined.

Lemma myfs_sync_wrong_descriptor_witness :
  ∃ s', (myfs_mount 3 (Some blank_image);; myfs_close 0) boot_fs = Done ((), s') ∧ last (synced s') = Some (-1).
Proof. apply (myfs_sync_wrong_descriptor 3 blank_image boot_fs 0); [by left|done|done]. Defined.

(** writing one block more than the disk has hands out a block that already
    belongs to a file: no operation compares the two ring positions before it
    takes a block.  (Three blocks, the fourth write repeats the first block.) *)
Theorem myfs_exhausted_ring_aliases :
  let setup := exec_ops [OpOpen "a"; OpWrite 0 0; OpWrite 0 MYFS_BLOCK_SIZE;
                         OpWrite 0 (2 * MYFS_BLOCK_SIZE); OpOpen "b"] in
  ∃ l, result (setup;; myfs_get_lba 1 0 1) demo_mounted = Some l ∧
       result (setup;; myfs_get_lba 1 0 1;; myfs_get_lba 0 0 0) demo_mounted = Some l.
Proof. exists 0. by split; vm_compute. Qed.

(** unlinking a file with a hole releases the hole and keeps a block: the
    loop runs over the first [n_block] entries of the table, so [-1] enters the
    free ring and the block past the hole is lost. *)
Theorem myfs_unlink_sparse_leaks :
  let ops := exec_ops [OpOpen "a"; OpWrite 0 MYFS_BLOCK_SIZE; OpUnlinkFd 0] in
  let s := after ops demo_mounted in
  result ops demo_mounted = Some () ∧
  free_list (superblock s) = [1; 2; INACTIVE_BLOCK] ∧ owned (superblock s) = [].
Proof. by split_and!; vm_compute. Qed.
End demo.
