(* ===== verification/Nvme.v ===== *)
(** * The NVMe driver (mylib/nvme.cc)

    A queue pair is a submission ring the host fills and a completion ring the
    device fills; the device marks each entry with a phase bit that flips on
    every lap, and the host takes entries while their bit is the one it expects.
    The model has one memory of bytes for user buffers and for the DMA buffers,
    the two rings, the per-command bookkeeping of class [QP], and the requests
    and the polling function of the driver.

    The device itself is not code of the repository: what it may do to the
    completion ring is the representation predicate [cq_rep] (the completion
    queue protocol of the NVMe specification), and every theorem quantifies over
    the entries it has posted. *)

From stdpp Require Import base tactics option list numbers functions sets relations.
From S2P Require Import Prelude Arrays.

(** ** Constants and data *)

Definition N_ULT_PER_CORE : Z := 512.
Definition BLKSZ : Z := 4096.
Definition QD : Z := N_ULT_PER_CORE * 2.
Definition AQD : Z := 8.
Definition RAID_FACTOR : Z := 4096 / 512.
Definition N_2MB_PAGE : Z := Z.max (QD * BLKSZ / (2 * 1024 * 1024)) 1.
Definition NVME_NSID : Z := 1.
Definition sq_offset : Z := 0x4000.

(** The number of drives and of cores are compile-time options; [USE_PREEMPT]
    selects the mutex of the queue pairs. *)
Class NvmeConfig := { ND : Z; N_CORE : Z; USE_PREEMPT : bool }.
Class NvmeConfigOk (N : NvmeConfig) : Prop := {
  cfg_drives : 1 ≤ ND;
  cfg_cores : 1 ≤ N_CORE;
  cfg_rids : ND * QD * N_CORE < 2 ^ 31;
}.

Record sqe_t := Sqe {
  OPC : Z;
  CID : Z;
  NSID : Z;
  PRP1 : Z;
  CDW10 : Z;
  CDW11 : Z;
  CDW12 : Z;
}.

Definition set_OPC (v : Z) (s : sqe_t) : sqe_t := Sqe v (CID s) (NSID s) (PRP1 s) (CDW10 s) (CDW11 s) (CDW12 s).
Definition set_CID (v : Z) (s : sqe_t) : sqe_t := Sqe (OPC s) v (NSID s) (PRP1 s) (CDW10 s) (CDW11 s) (CDW12 s).
Definition set_NSID (v : Z) (s : sqe_t) : sqe_t := Sqe (OPC s) (CID s) v (PRP1 s) (CDW10 s) (CDW11 s) (CDW12 s).
Definition set_PRP1 (v : Z) (s : sqe_t) : sqe_t := Sqe (OPC s) (CID s) (NSID s) v (CDW10 s) (CDW11 s) (CDW12 s).
Definition set_CDW10 (v : Z) (s : sqe_t) : sqe_t := Sqe (OPC s) (CID s) (NSID s) (PRP1 s) v (CDW11 s) (CDW12 s).
Definition set_CDW11 (v : Z) (s : sqe_t) : sqe_t := Sqe (OPC s) (CID s) (NSID s) (PRP1 s) (CDW10 s) v (CDW12 s).
Definition set_CDW12 (v : Z) (s : sqe_t) : sqe_t := Sqe (OPC s) (CID s) (NSID s) (PRP1 s) (CDW10 s) (CDW11 s) v.

Record cqe_t := Cqe { cqe_CID : Z; cqe_P : Z }.

(** [sq] and [cq] are the rings in the shared page [sqcq], [sq_db] and [cq_db] the
    doorbell registers, [mem] the bytes of host memory; a NULL pointer is 0. *)
Record QP := Qp {
  _qid : Z;
  n_sqe : Z;
  n_cqe : Z;
  sq_tail : Z;
  cq_head : Z;
  cq_phase : Z;
  done_flag : Z → Z;
  rbuf : Z → Z;
  len : Z → Z;
  sq : Z → sqe_t;
  cq : Z → cqe_t;
  sq_db : Z;
  cq_db : Z;
  qp_mutex : bool;
  buf4k : Z → Z;
  _buf4k_pa : Z → Z;
  mem : Z → Z;
}.

Definition set__qid (v : Z) (s : QP) : QP := Qp v (n_sqe s) (n_cqe s) (sq_tail s) (cq_head s) (cq_phase s) (done_flag s) (rbuf s) (len s) (sq s) (cq s) (sq_db s) (cq_db s) (qp_mutex s) (buf4k s) (_buf4k_pa s) (mem s).
Definition set_n_sqe (v : Z) (s : QP) : QP := Qp (_qid s) v (n_cqe s) (sq_tail s) (cq_head s) (cq_phase s) (done_flag s) (rbuf s) (len s) (sq s) (cq s) (sq_db s) (cq_db s) (qp_mutex s) (buf4k s) (_buf4k_pa s) (mem s).
Definition set_n_cqe (v : Z) (s : QP) : QP := Qp (_qid s) (n_sqe s) v (sq_tail s) (cq_head s) (cq_phase s) (done_flag s) (rbuf s) (len s) (sq s) (cq s) (sq_db s) (cq_db s) (qp_mutex s) (buf4k s) (_buf4k_pa s) (mem s).
Definition set_sq_tail (v : Z) (s : QP) : QP := Qp (_qid s) (n_sqe s) (n_cqe s) v (cq_head s) (cq_phase s) (done_flag s) (rbuf s) (len s) (sq s) (cq s) (sq_db s) (cq_db s) (qp_mutex s) (buf4k s) (_buf4k_pa s) (mem s).
Definition set_cq_head (v : Z) (s : QP) : QP := Qp (_qid s) (n_sqe s) (n_cqe s) (sq_tail s) v (cq_phase s) (done_flag s) (rbuf s) (len s) (sq s) (cq s) (sq_db s) (cq_db s) (qp_mutex s) (buf4k s) (_buf4k_pa s) (mem s).
Definition set_cq_phase (v : Z) (s : QP) : QP := Qp (_qid s) (n_sqe s) (n_cqe s) (sq_tail s) (cq_head s) v (done_flag s) (rbuf s) (len s) (sq s) (cq s) (sq_db s) (cq_db s) (qp_mutex s) (buf4k s) (_buf4k_pa s) (mem s).
Definition set_done_flag (v : Z → Z) (s : QP) : QP := Qp (_qid s) (n_sqe s) (n_cqe s) (sq_tail s) (cq_head s) (cq_phase s) v (rbuf s) (len s) (sq s) (cq s) (sq_db s) (cq_db s) (qp_mutex s) (buf4k s) (_buf4k_pa s) (mem s).
Definition set_rbuf (v : Z → Z) (s : QP) : QP := Qp (_qid s) (n_sqe s) (n_cqe s) (sq_tail s) (cq_head s) (cq_phase s) (done_flag s) v (len s) (sq s) (cq s) (sq_db s) (cq_db s) (qp_mutex s) (buf4k s) (_buf4k_pa s) (mem s).
Definition set_len (v : Z → Z) (s : QP) : QP := Qp (_qid s) (n_sqe s) (n_cqe s) (sq_tail s) (cq_head s) (cq_phase s) (done_flag s) (rbuf s) v (sq s) (cq s) (sq_db s) (cq_db s) (qp_mutex s) (buf4k s) (_buf4k_pa s) (mem s).
Definition set_sq (v : Z → sqe_t) (s : QP) : QP := Qp (_qid s) (n_sqe s) (n_cqe s) (sq_tail s) (cq_head s) (cq_phase s) (done_flag s) (rbuf s) (len s) v (cq s) (sq_db s) (cq_db s) (qp_mutex s) (buf4k s) (_buf4k_pa s) (mem s).
Definition set_cq (v : Z → cqe_t) (s : QP) : QP := Qp (_qid s) (n_sqe s) (n_cqe s) (sq_tail s) (cq_head s) (cq_phase s) (done_flag s) (rbuf s) (len s) (sq s) v (sq_db s) (cq_db s) (qp_mutex s) (buf4k s) (_buf4k_pa s) (mem s).
Definition set_sq_db (v : Z) (s : QP) : QP := Qp (_qid s) (n_sqe s) (n_cqe s) (sq_tail s) (cq_head s) (cq_phase s) (done_flag s) (rbuf s) (len s) (sq s) (cq s) v (cq_db s) (qp_mutex s) (buf4k s) (_buf4k_pa s) (mem s).
Definition set_cq_db (v : Z) (s : QP) : QP := Qp (_qid s) (n_sqe s) (n_cqe s) (sq_tail s) (cq_head s) (cq_phase s) (done_flag s) (rbuf s) (len s) (sq s) (cq s) (sq_db s) v (qp_mutex s) (buf4k s) (_buf4k_pa s) (mem s).
Definition set_qp_mutex (v : bool) (s : QP) : QP := Qp (_qid s) (n_sqe s) (n_cqe s) (sq_tail s) (cq_head s) (cq_phase s) (done_flag s) (rbuf s) (len s) (sq s) (cq s) (sq_db s) (cq_db s) v (buf4k s) (_buf4k_pa s) (mem s).
Definition set_buf4k (v : Z → Z) (s : QP) : QP := Qp (_qid s) (n_sqe s) (n_cqe s) (sq_tail s) (cq_head s) (cq_phase s) (done_flag s) (rbuf s) (len s) (sq s) (cq s) (sq_db s) (cq_db s) (qp_mutex s) v (_buf4k_pa s) (mem s).
Definition set__buf4k_pa (v : Z → Z) (s : QP) : QP := Qp (_qid s) (n_sqe s) (n_cqe s) (sq_tail s) (cq_head s) (cq_phase s) (done_flag s) (rbuf s) (len s) (sq s) (cq s) (sq_db s) (cq_db s) (qp_mutex s) (buf4k s) v (mem s).
Definition set_mem (v : Z → Z) (s : QP) : QP := Qp (_qid s) (n_sqe s) (n_cqe s) (sq_tail s) (cq_head s) (cq_phase s) (done_flag s) (rbuf s) (len s) (sq s) (cq s) (sq_db s) (cq_db s) (qp_mutex s) (buf4k s) (_buf4k_pa s) v.

(** ** Class QP *)

(** [get_cqe] and [get_sqe]: byte offsets of ring entries in the shared page. *)
Definition get_cqe (index : Z) : Z := 0x0 + 16 * index.
Definition get_sqe (index : Z) : Z := sq_offset + 64 * index.

(** The constructor; [pages] and [pas] are the virtual and physical addresses of
    the DMA pages, [rb] and [ln] what the arrays [rbuf] and [len] happen to hold:
    the constructor leaves them uninitialised. *)
Definition QP_new (qid : Z) (pages pas bytes rb ln : Z → Z) : QP :=
  let n := if Z.eqb qid 0 then AQD else QD in
  Qp qid n n 0 0 1
     (for_loop (Z.to_nat QD) 0 (λ i f, <[i := 2]> f) (λ _, 0)) rb ln
     (for_loop (Z.to_nat n) 0 (λ i f, <[i := Sqe 0 i NVME_NSID 0 0 0 0]> f) (λ _, Sqe 0 0 0 0 0 0 0))
     (λ _, Cqe 0 0) 0 0 false pages pas bytes.

Definition get_buf4k (q : QP) (cid : Z) : Z :=
  let cid_upper := cid mod N_2MB_PAGE in
  let cid_lower := cid / N_2MB_PAGE in
  buf4k q cid_upper + BLKSZ * cid_lower.

Definition buf4k_pa (q : QP) (cid : Z) : Z :=
  let cid_upper := cid mod N_2MB_PAGE in
  let cid_lower := cid / N_2MB_PAGE in
  _buf4k_pa q cid_upper + BLKSZ * cid_lower.

Definition memcpy (m : Z → Z) (dst src n : Z) : Z → Z :=
  λ a, if (Z.leb dst a && Z.ltb a (dst + n))%bool then m (src + (a - dst)) else m a.

(** One iteration of the [do] loop of [check_cq]. *)
Definition reap (q : QP) : QP :=
  let cid := cqe_CID (cq q (cq_head q)) in
  let q := if Z.eqb (rbuf q cid) 0 then q
           else set_mem (memcpy (mem q) (rbuf q cid) (get_buf4k q cid) (len q cid)) q in
  let q := set_done_flag (<[cid := 1]> (done_flag q)) q in
  let q := set_cq_head (cq_head q + 1) q in
  if Z.eqb (cq_head q) (n_cqe q)
  then set_cq_phase (Z.lxor (cq_phase q) 1) (set_cq_head 0 q)
  else q.

Definition cq_ready (q : QP) : bool := Z.eqb (cqe_P (cq q (cq_head q))) (cq_phase q).

Fixpoint check_cq_loop (fuel : nat) : C QP unit :=
  match fuel with
  | O => throw OutOfFuel
  | S fuel =>
      q ← get;
      check_index (cqe_CID (cq q (cq_head q))) QD;;
      modify reap;;
      q ← get;
      if cq_ready q then check_cq_loop fuel else mret ()
  end.

Definition check_cq (fuel : nat) : C QP unit :=
  q ← get;
  if cq_ready q then
    check_cq_loop fuel;;
    modify (λ q, set_cq_db (cq_head q) q)
  else mret ().

Definition done (q : QP) (cid : Z) : bool := Z.eqb (done_flag q cid) 1.

(** [new_sqe] returns the index of the entry, which is also the command id.
    While the entry's command is in flight it polls; [dev i] is what the device
    does before the [i]-th poll. *)
Section submit.
Context (dev : nat → QP → QP).

Fixpoint new_sqe_wait (fuel i : nat) : C QP unit :=
  match fuel with
  | O => throw OutOfFuel
  | S fuel' =>
      q ← get;
      check_index (sq_tail q) QD;;
      if Z.eqb (done_flag q (sq_tail q)) 0 then
        modify (dev i);;
        check_cq fuel;;
        new_sqe_wait fuel' (i + 1)
      else mret ()
  end.

Definition new_sqe (fuel : nat) : C QP Z :=
  q0 ← get;
  let new_sq_tail := (sq_tail q0 + 1) mod n_sqe q0 in
  new_sqe_wait fuel 0;;
  modify (λ q, set_done_flag (<[sq_tail q0 := 0]> (done_flag q)) q);;
  modify (set_sq_tail new_sq_tail);;
  mret (sq_tail q0).

Definition sq_doorbell : C QP unit := modify (λ q, set_sq_db (sq_tail q) q).

Fixpoint req_and_wait_loop (fuel i : nat) (cid : Z) : C QP unit :=
  match fuel with
  | O => throw OutOfFuel
  | S fuel' =>
      modify (dev i);;
      check_cq fuel;;
      q ← get;
      if done q cid then mret () else req_and_wait_loop fuel' (i + 1) cid
  end.

Definition req_and_wait (fuel : nat) (cid : Z) : C QP unit :=
  sq_doorbell;;
  req_and_wait_loop fuel 0 cid.

Context `{N : NvmeConfig}.

Definition qp_lock : C QP unit :=
  if USE_PREEMPT then
    q ← get; if qp_mutex q then throw Blocked else modify (set_qp_mutex true)
  else mret ().
Definition qp_unlock : C QP unit :=
  if USE_PREEMPT then modify (set_qp_mutex false) else mret ().

(** ** Requests

    [qps] is the table of queue pairs, by drive and queue number. *)

Definition raid_did (lba : Z) : Z := Z.rem (Z.quot lba RAID_FACTOR) ND.
Definition raid_slba (lba : Z) : Z := 
  u32 (Z.quot (Z.quot lba RAID_FACTOR) ND * RAID_FACTOR + Z.rem lba RAID_FACTOR).
Definition rid_of (did core_id cid : Z) : Z := i32 (did * QD * N_CORE + core_id * QD + cid).

Definition read_command (lba num_blk buflen buf : Z) (fuel : nat) : C QP Z :=
  qp_lock;;
  cid ← new_sqe fuel;
  modify (λ q, set_sq (<[cid := set_PRP1 (buf4k_pa q cid) (sq q cid)]> (sq q)) q);;
  modify (λ q, set_sq (<[cid := set_OPC 2 (sq q cid)]> (sq q)) q);;
  modify (λ q, set_sq (<[cid := set_CDW10 (raid_slba lba) (sq q cid)]> (sq q)) q);;
  modify (λ q, set_sq (<[cid := set_CDW12 (u32 (num_blk - 1)) (sq q cid)]> (sq q)) q);;
  modify (λ q, set_rbuf (<[cid := buf]> (rbuf q)) q);;
  modify (λ q, set_len (<[cid := buflen]> (len q)) q);;
  sq_doorbell;;
  qp_unlock;;
  mret cid.

Definition write_command (lba num_blk buflen buf : Z) (fuel : nat) : C QP Z :=
  qp_lock;;
  cid ← new_sqe fuel;
  modify (λ q, set_mem (memcpy (mem q) (get_buf4k q cid) buf buflen) q);;
  modify (λ q, set_sq (<[cid := set_PRP1 (buf4k_pa q cid) (sq q cid)]> (sq q)) q);;
  modify (λ q, set_sq (<[cid := set_OPC 1 (sq q cid)]> (sq q)) q);;
  modify (λ q, set_sq (<[cid := set_CDW10 (raid_slba lba) (sq q cid)]> (sq q)) q);;
  modify (λ q, set_sq (<[cid := set_CDW12 (u32 (num_blk - 1)) (sq q cid)]> (sq q)) q);;
  modify (λ q, set_rbuf (<[cid := 0]> (rbuf q)) q);;
  modify (λ q, set_len (<[cid := 0]> (len q)) q);;
  sq_doorbell;;
  qp_unlock;;
  mret cid.

(** A statement on [qps[did][qid]]. *)
Definition on_qp {A} (did qid : Z) (m : C QP A) : C (Z → Z → QP) A :=
  check_index did ND;;
  check_index qid (N_CORE + 1);;
  zoom (λ s, s did qid) (λ q s, <[did := <[qid := q]> (s did)]> s) m.

Definition nvme_read_req (lba num_blk core_id buflen buf : Z) (fuel : nat) : C (Z → Z → QP) Z :=
  let did := raid_did lba in
  let qid := core_id + 1 in
  cid ← on_qp did qid (read_command lba num_blk buflen buf fuel);
  mret (rid_of did core_id cid).

Definition nvme_write_req (lba num_blk core_id buflen buf : Z) (fuel : nat) : C (Z → Z → QP) Z :=
  let did := raid_did lba in
  let qid := core_id + 1 in
  cid ← on_qp did qid (write_command lba num_blk buflen buf fuel);
  mret (rid_of did core_id cid).

Definition rid_did (rid : Z) : Z := Z.quot (Z.quot rid QD) N_CORE.
Definition rid_qid (rid : Z) : Z := Z.rem (Z.quot rid QD) N_CORE + 1.
Definition rid_cid (rid : Z) : Z := Z.rem rid QD.

Definition nvme_check (rid : Z) (fuel : nat) : C (Z → Z → QP) Z :=
  let did := rid_did rid in
  let qid := rid_qid rid in
  let cid := rid_cid rid in
  d ← on_qp did qid (gets (λ q, done q cid));
  if (d : bool) then mret 1
  else
    on_qp did qid (qp_lock;; check_cq fuel;; qp_unlock);;
    d ← on_qp did qid (gets (λ q, done q cid));
    if (d : bool) then mret 1 else mret 0.

(** Creating an I/O queue pair through the admin queue [qps[did][0]]: the entry
    is filled and the command awaited, once for each ring. *)
Definition create_cq_entry (pa n_entries new_qid : Z) (e : sqe_t) : sqe_t :=
  set_CDW11 1 (set_CDW10 (u32 (Z.lor (Z.shiftl (n_entries - 1) 16) new_qid))
    (set_NSID 0 (set_PRP1 pa (set_OPC 5 e)))).
Definition create_sq_entry (pa n_entries new_qid : Z) (e : sqe_t) : sqe_t :=
  set_CDW11 (u32 (Z.lor (Z.shiftl new_qid 16) 1)) (set_CDW10 (u32 (Z.lor (Z.shiftl (n_entries - 1) 16) new_qid))
    (set_NSID 0 (set_PRP1 pa (set_OPC 1 e)))).

Definition create_qp (cq_pa sq_pa n_cq n_sq new_qid : Z) (fuel : nat) : C QP unit :=
  cid ← new_sqe fuel;
  modify (λ q, set_sq (<[cid := create_cq_entry cq_pa n_cq new_qid (sq q cid)]> (sq q)) q);;
  req_and_wait fuel cid;;
  cid ← new_sqe fuel;
  modify (λ q, set_sq (<[cid := create_sq_entry sq_pa n_sq new_qid (sq q cid)]> (sq q)) q);;
  req_and_wait fuel cid.
End submit.

(** ** The completion ring as a list

    Positions of the ring are numbered from the start of time: position [k] is
    slot [k mod n] of lap [k / n], and its phase bit is 1 on even laps. *)

Definition phase_of (n k : Z) : Z := if Z.even (k / n) then 1 else 0.

(** The device has posted the completions [posted], oldest first, since the host
    last looked; every other slot still carries the bit of the lap before. *)
Record cq_rep (q : QP) (H : Z) (posted : list Z) : Prop := {
  rep_size : 0 < n_cqe q;
  rep_start : 0 ≤ H;
  rep_head : cq_head q = H mod n_cqe q;
  rep_phase : cq_phase q = phase_of (n_cqe q) H;
  rep_room : Z.of_nat (length posted) ≤ n_cqe q;
  rep_cids : Forall (λ cid, 0 ≤ cid < QD) posted;
  rep_posted : ∀ i cid, posted !! i = Some cid →
    cq q ((H + Z.of_nat i) mod n_cqe q) = Cqe cid (phase_of (n_cqe q) (H + Z.of_nat i));
  rep_rest : ∀ k, H + Z.of_nat (length posted) ≤ k < H + n_cqe q →
    cqe_P (cq q (k mod n_cqe q)) ≠ phase_of (n_cqe q) k;
}.

Lemma phase_of_lap n k : 0 < n → phase_of n (k + n) ≠ phase_of n k.
Proof.
  intros Hn. unfold phase_of. replace (k + n) with (k + 1 * n) by lia.
  rewrite Z_div_plus_full by lia. rewrite Z.add_1_r, Z.even_succ, <- Z.negb_even.
  by destruct (Z.even _).
Qed.

Lemma phase_of_next n k :
  0 < n → phase_of n (k + 1) = if decide (k mod n + 1 = n) then Z.lxor (phase_of n k) 1 else phase_of n k.
Proof.
  intros Hn. unfold phase_of. pose proof (Z.mod_pos_bound k n Hn).
  pose proof (Z_div_mod_eq_full k n) as Hk. case_decide as E.
  - assert ((k + 1) / n = k / n + 1) as ->.
    { symmetry. apply (Z.div_unique_pos _ _ _ 0); lia. }
    rewrite Z.add_1_r, Z.even_succ, <- Z.negb_even. by destruct (Z.even _).
  - assert ((k + 1) / n = k / n) as ->; [|done].
    symmetry. apply (Z.div_unique_pos _ _ _ (k mod n + 1)); lia.
Qed.

Section reap.
Implicit Types (q : QP).

Lemma reap_frame q :
  cq (reap q) = cq q ∧ n_cqe (reap q) = n_cqe q ∧ rbuf (reap q) = rbuf q ∧ len (reap q) = len q ∧
  buf4k (reap q) = buf4k q ∧ sq_tail (reap q) = sq_tail q ∧ n_sqe (reap q) = n_sqe q ∧ sq (reap q) = sq q ∧
  done_flag (reap q) = <[cqe_CID (cq q (cq_head q)) := 1]> (done_flag q) ∧
  mem (reap q) = (let cid := cqe_CID (cq q (cq_head q)) in
    if Z.eqb (rbuf q cid) 0 then mem q else memcpy (mem q) (rbuf q cid) (get_buf4k q cid) (len q cid)).
Proof.
  unfold reap. destruct (Z.eqb (rbuf q _) 0); destruct (Z.eqb (cq_head _) (n_cqe _)); done.
Qed.

Lemma reap_head q :
  0 ≤ cq_head q < n_cqe q →
  cq_head (reap q) = (cq_head q + 1) mod n_cqe q ∧
  cq_phase (reap q) = if decide (cq_head q + 1 = n_cqe q) then Z.lxor (cq_phase q) 1 else cq_phase q.
Proof.
  intros Hh. rewrite ring_next by done. unfold reap.
  destruct (Z.eqb (rbuf q _) 0); simpl;
    destruct (Z.eqb_spec (cq_head q + 1) (n_cqe q)); case_decide; done.
Qed.

Lemma reap_rep q H cid posted :
  cq_rep q H (cid :: posted) → cq_rep (reap q) (H + 1) posted ∧ cqe_CID (cq q (cq_head q)) = cid.
Proof.
  intros Hr. pose proof (rep_size _ _ _ Hr) as Hn. pose proof (rep_room _ _ _ Hr) as Hroom. simpl in Hroom.
  pose proof (rep_posted _ _ _ Hr 0%nat cid eq_refl) as H0. rewrite Z.add_0_r in H0.
  destruct (reap_frame q) as (Ecq & En & _).
  pose proof (Z.mod_pos_bound H _ Hn) as Hmod.
  destruct (reap_head q) as [Eh Ep]; [rewrite (rep_head _ _ _ Hr); lia|].
  rewrite (rep_head _ _ _ Hr) in *. split; [|by rewrite H0].
  split; rewrite ?En, ?Ecq; try done.
  - pose proof (rep_start _ _ _ Hr). lia.
  - by rewrite Eh, Zplus_mod_idemp_l.
  - by rewrite Ep, (rep_phase _ _ _ Hr), phase_of_next.
  - lia.
  - pose proof (rep_cids _ _ _ Hr) as Hc. by inversion Hc.
  - intros i c Hi. replace (H + 1 + Z.of_nat i) with (H + Z.of_nat (S i)) by lia.
    by apply (rep_posted _ _ _ Hr).
  - intros k Hk. destruct (decide (k = H + n_cqe q)) as [->|].
    + replace (H + n_cqe q) with (H + 1 * n_cqe q) at 1 by lia. rewrite Z_mod_plus_full, H0. simpl.
      intros E. symmetry in E. by apply phase_of_lap in E.
    + apply (rep_rest _ _ _ Hr). simpl. lia.
Qed.

Lemma rep_ready q H posted : cq_rep q H posted → cq_ready q = match posted with [] => false | _ => true end.
Proof.
  intros Hr. pose proof (rep_size _ _ _ Hr) as Hsz. unfold cq_ready.
  rewrite (rep_head _ _ _ Hr), (rep_phase _ _ _ Hr).
  destruct posted as [|cid posted].
  - apply Z.eqb_neq. apply (rep_rest _ _ _ Hr). simpl. lia.
  - pose proof (rep_posted _ _ _ Hr 0%nat cid eq_refl) as H0. rewrite Z.add_0_r in H0. rewrite H0.
    apply Z.eqb_refl.
Qed.

Lemma check_cq_loop_rep fuel q H cid posted :
  cq_rep q H (cid :: posted) → (length posted < fuel)%nat →
  check_cq_loop fuel q = Done ((), Nat.iter (S (length posted)) reap q) ∧
  cq_rep (Nat.iter (S (length posted)) reap q) (H + Z.of_nat (S (length posted))) [].
Proof.
  revert fuel q H cid. induction posted as [|c posted IH]; intros [|fuel] q H cid Hr Hf; simpl in Hf; try lia.
  - pose proof (rep_cids _ _ _ Hr) as Hc. inversion Hc; subst.
    destruct (reap_rep _ _ _ _ Hr) as [Hr' Hcid]. simpl.
    unfold mbind, C_bind, get. rewrite Hcid, check_index_run by done. cbn [modify].
    rewrite (rep_ready _ _ _ Hr'). done.
  - pose proof (rep_cids _ _ _ Hr) as Hc. inversion Hc; subst.
    destruct (reap_rep _ _ _ _ Hr) as [Hr' Hcid].
    cbn [check_cq_loop]. unfold mbind, C_bind, get. rewrite Hcid, check_index_run by done. cbn [modify].
    rewrite (rep_ready _ _ _ Hr'). destruct (IH fuel (reap q) (H + 1) c Hr') as [E R]; [lia|].
    rewrite E. cbn [length]. rewrite (Nat.iter_succ_r (S (length posted))). split; [done|].
    replace (H + Z.of_nat (S (S (length posted)))) with (H + 1 + Z.of_nat (S (length posted))) by lia. done.
Qed.

Definition reaped (posted : list Z) (q : QP) : QP :=
  match posted with
  | [] => q
  | _ => let q' := Nat.iter (length posted) reap q in set_cq_db (cq_head q') q'
  end.

Lemma check_cq_rep fuel q H posted :
  cq_rep q H posted → (length posted ≤ fuel)%nat →
  check_cq fuel q = Done ((), reaped posted q) ∧
  cq_rep (reaped posted q) (H + Z.of_nat (length posted)) [].
Proof.
  intros Hr Hf. unfold check_cq. unfold mbind at 1, C_bind at 1, get.
  rewrite (rep_ready _ _ _ Hr). destruct posted as [|cid posted]; simpl.
  { split; [done|]. by rewrite Z.add_0_r. }
  simpl in Hf. destruct (check_cq_loop_rep fuel q H cid posted Hr) as [E R]; [lia|].
  erewrite C_bind_Done by exact E. split; [done|]. by destruct R.
Qed.

Lemma iter_done_flag k q H posted :
  cq_rep q H posted → k = length posted →
  ∀ c, done_flag (Nat.iter k reap q) c = if decide (c ∈ posted) then 1 else done_flag q c.
Proof.
  revert k q H. induction posted as [|cid posted IH]; intros k q H Hr -> c; simpl.
  { done. }
  rewrite <- Nat.iter_succ, Nat.iter_succ_r. destruct (reap_rep _ _ _ _ Hr) as [Hr' Hcid].
  rewrite (IH _ _ _ Hr' eq_refl). destruct (reap_frame q) as (_ & _ & _ & _ & _ & _ & _ & _ & -> & _).
  rewrite Hcid. destruct (decide (c = cid)) as [->|].
  - rewrite (decide_True (P:=cid ∈ cid :: posted)) by set_solver. rewrite fn_lookup_insert. by case_decide.
  - rewrite fn_lookup_insert_ne by done. repeat case_decide; done || set_solver.
Qed.
End reap.

(** *** Delivery of read data *)

Definition user_range (q : QP) (c a : Z) : Prop := rbuf q c ≠ 0 ∧ rbuf q c ≤ a < rbuf q c + len q c.
Definition dma_range (q : QP) (c a : Z) : Prop := get_buf4k q c ≤ a < get_buf4k q c + len q c.

(** The buffers of the posted commands do not overlap. *)
Definition bufs_disjoint (q : QP) (cs : list Z) : Prop :=
  (∀ c c' a, c ∈ cs → c' ∈ cs → user_range q c a → ¬ dma_range q c' a) ∧
  (∀ c c' a, c ∈ cs → c' ∈ cs → c ≠ c' → user_range q c a → ¬ user_range q c' a).

Lemma memcpy_in m dst src n a : dst ≤ a < dst + n → memcpy m dst src n a = m (src + (a - dst)).
Proof.
  intros H. unfold memcpy. by rewrite (proj2 (Z.leb_le _ _)), (proj2 (Z.ltb_lt _ _)) by lia.
Qed.
Lemma memcpy_out m dst src n a : ¬ dst ≤ a < dst + n → memcpy m dst src n a = m a.
Proof.
  intros H. unfold memcpy. destruct (Z.leb_spec dst a), (Z.ltb_spec a (dst + n)); simpl; done || lia.
Qed.

Lemma reap_mem_out q a : ¬ user_range q (cqe_CID (cq q (cq_head q))) a → mem (reap q) a = mem q a.
Proof.
  intros Hout. destruct (reap_frame q) as (_ & _ & _ & _ & _ & _ & _ & _ & _ & ->). simpl.
  destruct (Z.eqb_spec (rbuf q (cqe_CID (cq q (cq_head q)))) 0); [done|].
  apply memcpy_out. intros ?. by apply Hout.
Qed.

Lemma reap_ranges q c a :
  (user_range (reap q) c a ↔ user_range q c a) ∧ (dma_range (reap q) c a ↔ dma_range q c a) ∧
  get_buf4k (reap q) c = get_buf4k q c.
Proof.
  destruct (reap_frame q) as (_ & _ & Er & El & Eb & _).
  unfold user_range, dma_range, get_buf4k. by rewrite Er, El, Eb.
Qed.

Lemma iter_mem_out q H posted a :
  cq_rep q H posted → (∀ c, c ∈ posted → ¬ user_range q c a) →
  mem (Nat.iter (length posted) reap q) a = mem q a.
Proof.
  revert q H. induction posted as [|cid posted IH]; intros q H Hr Hout; [done|].
  cbn [length]. rewrite Nat.iter_succ_r. destruct (reap_rep _ _ _ _ Hr) as [Hr' Hcid].
  rewrite (IH _ _ Hr').
  - apply reap_mem_out. rewrite Hcid. apply Hout. set_solver.
  - intros c Hc. rewrite (proj1 (reap_ranges q c a)). apply Hout. set_solver.
Qed.

Lemma iter_mem_in q H posted c i :
  cq_rep q H posted → NoDup posted → bufs_disjoint q posted → c ∈ posted →
  rbuf q c ≠ 0 → 0 ≤ i < len q c →
  mem (Nat.iter (length posted) reap q) (rbuf q c + i) = mem q (get_buf4k q c + i).
Proof.
  revert q H. induction posted as [|cid posted IH]; intros q H Hr Hnd [Hd1 Hd2] Hc Hb Hi; [set_solver|].
  cbn [length]. rewrite Nat.iter_succ_r. destruct (reap_rep _ _ _ _ Hr) as [Hr' Hcid].
  apply NoDup_cons in Hnd as [Hnin Hnd]. destruct (decide (c = cid)) as [->|Hne].
  - rewrite (iter_mem_out _ _ _ _ Hr').
    + destruct (reap_frame q) as (_ & _ & _ & _ & _ & _ & _ & _ & _ & ->). rewrite Hcid. simpl.
      rewrite (proj2 (Z.eqb_neq _ _)), memcpy_in by (done || lia). f_equal. lia.
    + intros c' Hc'. rewrite (proj1 (reap_ranges q c' _)). apply (Hd2 cid); [set_solver..|].
      split; [done|lia].
  - destruct (reap_frame q) as (_ & _ & Er & El & _). rewrite <- Er, (IH _ _ Hr' Hnd).
    + destruct (reap_ranges q c 0) as (_ & _ & ->). apply reap_mem_out. rewrite Hcid. intros Hu.
      apply (Hd1 cid c _ ltac:(set_solver) Hc Hu). unfold dma_range. lia.
    + split.
      * intros c1 c2 a H1 H2. rewrite (proj1 (reap_ranges q c1 a)), (proj1 (proj2 (reap_ranges q c2 a))).
        apply Hd1; set_solver.
      * intros c1 c2 a H1 H2. rewrite (proj1 (reap_ranges q c1 a)), (proj1 (reap_ranges q c2 a)).
        apply Hd2; set_solver.
    + set_solver.
    + by rewrite Er.
    + by rewrite El.
Qed.

(** *** Any ring contents *)

Lemma iter_reap_pos k q :
  0 ≤ cq_head q < n_cqe q → (Z.of_nat k ≤ n_cqe q) →
  cq (Nat.iter k reap q) = cq q ∧ n_cqe (Nat.iter k reap q) = n_cqe q ∧
  cq_head (Nat.iter k reap q) = (cq_head q + Z.of_nat k) mod n_cqe q ∧
  cq_phase (Nat.iter k reap q) =
    if decide (cq_head q + Z.of_nat k < n_cqe q) then cq_phase q else Z.lxor (cq_phase q) 1.
Proof.
  intros Hh. induction k as [|k IH]; intros Hk.
  { simpl. rewrite Z.add_0_r, Z.mod_small, decide_True by lia. done. }
  destruct IH as (E1 & E2 & E3 & E4); [lia|]. rewrite Nat.iter_succ.
  destruct (reap_frame (Nat.iter k reap q)) as (F1 & F2 & _).
  pose proof (Z.mod_pos_bound (cq_head q + Z.of_nat k) (n_cqe q)).
  destruct (reap_head (Nat.iter k reap q)) as [F3 F4]; [rewrite E2, E3; lia|].
  rewrite F1, F2, F3, F4, E1, E2, E3, E4. split_and!; [done..| |].
  - rewrite Zplus_mod_idemp_l. f_equal. lia.
  - destruct (decide (cq_head q + Z.of_nat k < n_cqe q)).
    + rewrite Z.mod_small by lia. repeat case_decide; done || lia.
    + rewrite <- (Z_mod_plus_full _ (-1)), Z.mod_small by lia. repeat case_decide; done || lia.
Qed.

Lemma check_cq_loop_terminates k fuel q :
  0 ≤ cq_head q < n_cqe q → cq_phase q = 0 ∨ cq_phase q = 1 → cq_ready q = true →
  (∀ i, 0 ≤ i < n_cqe q → 0 ≤ cqe_CID (cq q i) < QD) →
  Z.of_nat k < n_cqe q → Z.of_nat k + Z.of_nat fuel = n_cqe q →
  ∃ j, check_cq_loop fuel (Nat.iter k reap q) = Done ((), Nat.iter j reap q) ∧
       (k < j)%nat ∧ Z.of_nat j ≤ n_cqe q.
Proof.
  intros Hh Hp Hr Hc. revert k. induction fuel as [|fuel IH]; intros k Hk Hsum; [lia|].
  destruct (iter_reap_pos k q) as (E1 & E2 & E3 & _); [done|lia|].
  cbn [check_cq_loop]. unfold mbind, C_bind, get.
  rewrite check_index_run; [|rewrite E1, E3; apply Hc, Z.mod_pos_bound; lia].
  cbn [modify]. rewrite <- Nat.iter_succ. destruct (cq_ready (Nat.iter (S k) reap q)) eqn:Hrk; [|exists (S k); split_and!; done || lia].
  destruct (decide (Z.of_nat (S k) = n_cqe q)) as [Hn|Hn].
  - exfalso. destruct (iter_reap_pos (S k) q) as (G1 & G2 & G3 & G4); [done|lia|].
    unfold cq_ready in *. rewrite G1, G3, G4, Hn, decide_False in Hrk by lia.
    replace (cq_head q + n_cqe q) with (cq_head q + 1 * n_cqe q) in Hrk by lia.
    rewrite Z_mod_plus_full, Z.mod_small in Hrk by lia.
    apply Z.eqb_eq in Hr, Hrk. rewrite Hr in Hrk. destruct Hp as [Hp|Hp]; rewrite Hp in Hrk; done.
  - destruct (IH (S k)) as (j & E & ? & ?); [lia..|]. exists j. split_and!; [done|lia|lia].
Qed.

(** ** Submission *)

(** The commands in flight are [posted ++ inflight]: completed but not yet seen,
    and still at the device. *)
Record qp_inv (q : QP) (H : Z) (posted inflight : list Z) : Prop := {
  qp_rep : cq_rep q H posted;
  qp_sizes : n_sqe q = n_cqe q ∧ n_cqe q ≤ QD;
  qp_tail : 0 ≤ sq_tail q < n_sqe q;
  qp_nodup : NoDup (posted ++ inflight);
  qp_range : Forall (λ c, 0 ≤ c < n_sqe q) (posted ++ inflight);
  qp_flags : ∀ c, 0 ≤ c < QD → done_flag q c = 0 ↔ c ∈ posted ++ inflight;
}.

(** The device posts the completion of [c] at its tail, absolute position [T]. *)
Definition post (T c : Z) (q : QP) : QP :=
  set_cq (<[T mod n_cqe q := Cqe c (phase_of (n_cqe q) T)]> (cq q)) q.

Lemma posted_room q H posted inflight :
  qp_inv q H posted inflight → Z.of_nat (length posted) + Z.of_nat (length inflight) ≤ n_cqe q.
Proof.
  intros Hq. destruct (qp_sizes _ _ _ _ Hq) as [Es _]. pose proof (rep_size _ _ _ (qp_rep _ _ _ _ Hq)).
  assert (posted ++ inflight ⊆+ seqZ 0 (n_sqe q)) as Hsub.
  { apply NoDup_submseteq; [apply Hq|]. intros c Hc. apply elem_of_seqZ.
    pose proof (qp_range _ _ _ _ Hq) as Hall. rewrite Forall_forall in Hall. specialize (Hall c Hc). lia. }
  apply submseteq_length in Hsub. rewrite length_app, length_seqZ in Hsub. lia.
Qed.

Lemma post_rep q H posted c :
  cq_rep q H posted → Z.of_nat (length posted) < n_cqe q → 0 ≤ c < QD →
  cq_rep (post (H + Z.of_nat (length posted)) c q) H (posted ++ [c]).
Proof.
  intros Hr Hroom Hc. pose proof (rep_size _ _ _ Hr) as Hn.
  assert (∀ k, H ≤ k < H + n_cqe q → k ≠ H + Z.of_nat (length posted) →
    k mod n_cqe q ≠ (H + Z.of_nat (length posted)) mod n_cqe q) as Hne.
  { intros k Hk Hk' Heq. set (t := H + Z.of_nat (length posted)) in *.
    pose proof (Z_div_mod_eq_full k (n_cqe q)). pose proof (Z_div_mod_eq_full t (n_cqe q)).
    assert (k / n_cqe q = t / n_cqe q) by nia. nia. }
  split; simpl; try apply Hr.
  - rewrite length_app. simpl. lia.
  - apply Forall_app. split; [apply Hr|by constructor].
  - intros i d [Hi|[Hi Hd]]%lookup_app_Some.
    + apply lookup_lt_Some in Hi as Hlt. rewrite fn_lookup_insert_ne by (apply not_eq_sym, Hne; lia).
      by apply Hr.
    + apply list_lookup_singleton_Some in Hd as [Hd <-].
      assert (i = length posted) as -> by lia. by rewrite fn_lookup_insert.
  - intros k Hk. rewrite length_app in Hk. simpl in Hk.
    rewrite fn_lookup_insert_ne by (apply not_eq_sym, Hne; lia). apply Hr. lia.
Qed.

Lemma post_inv q H posted infl1 c infl2 :
  qp_inv q H posted (infl1 ++ c :: infl2) →
  qp_inv (post (H + Z.of_nat (length posted)) c q) H (posted ++ [c]) (infl1 ++ infl2).
Proof.
  intros Hq. pose proof (posted_room _ _ _ _ Hq) as Hroom. rewrite length_app in Hroom. simpl in Hroom.
  assert (posted ++ infl1 ++ c :: infl2 ≡ₚ (posted ++ [c]) ++ infl1 ++ infl2) as HP by solve_Permutation.
  pose proof (qp_range _ _ _ _ Hq) as Hall. destruct (qp_sizes _ _ _ _ Hq) as [Es Hle].
  split; simpl; try apply Hq.
  - apply post_rep; [apply Hq|lia|]. rewrite Forall_forall in Hall. specialize (Hall c ltac:(set_solver)). lia.
  - rewrite <- HP. apply Hq.
  - by rewrite <- HP.
  - intros d Hd. rewrite <- HP. by apply Hq.
Qed.

Lemma poll_inv fuel q H posted inflight :
  qp_inv q H posted inflight → n_cqe q ≤ Z.of_nat fuel →
  check_cq fuel q = Done ((), reaped posted q) ∧
  qp_inv (reaped posted q) (H + Z.of_nat (length posted)) [] inflight ∧
  (∀ c, done_flag (reaped posted q) c = if decide (c ∈ posted) then 1 else done_flag q c) ∧
  n_cqe (reaped posted q) = n_cqe q ∧ sq_tail (reaped posted q) = sq_tail q ∧ n_sqe (reaped posted q) = n_sqe q.
Proof.
  intros Hq Hf. pose proof (qp_rep _ _ _ _ Hq) as Hr. pose proof (rep_room _ _ _ Hr).
  destruct (check_cq_rep fuel q H posted Hr) as [E Hr']; [lia|]. split; [done|].
  assert (∀ c, done_flag (reaped posted q) c = if decide (c ∈ posted) then 1 else done_flag q c) as Hflag.
  { intros c. rewrite <- (iter_done_flag (length posted) q H posted Hr eq_refl). by destruct posted. }
  assert (n_cqe (reaped posted q) = n_cqe q ∧ sq_tail (reaped posted q) = sq_tail q ∧
          n_sqe (reaped posted q) = n_sqe q) as (E1 & E2 & E3).
  { assert (∀ k, n_cqe (Nat.iter k reap q) = n_cqe q ∧ sq_tail (Nat.iter k reap q) = sq_tail q ∧
      n_sqe (Nat.iter k reap q) = n_sqe q) as Hk.
    { induction k as [|k IH]; [done|]. rewrite Nat.iter_succ.
      destruct (reap_frame (Nat.iter k reap q)) as (_ & -> & _ & _ & _ & -> & -> & _). done. }
    specialize (Hk (length posted)). by destruct posted. }
  split; [|done]. split; rewrite ?E1, ?E2, ?E3; try apply Hq; [done|..].
  - pose proof (qp_nodup _ _ _ _ Hq) as Hnd. by apply NoDup_app in Hnd as (_ & _ & ?).
  - pose proof (qp_range _ _ _ _ Hq) as Hnd. by apply Forall_app in Hnd as [_ ?].
  - intros c Hc. rewrite Hflag. pose proof (qp_nodup _ _ _ _ Hq) as Hnd. apply NoDup_app in Hnd as (_ & Hdis & _).
    pose proof (qp_flags _ _ _ _ Hq c Hc) as Hfl. case_decide; [|set_solver].
    split; [done|]. intros Hin. simpl in Hin. by destruct (Hdis c).
Qed.

(** The invariant sees only the rings, their positions and the flags. *)
Lemma qp_inv_ext q q' H posted inflight :
  n_sqe q' = n_sqe q → n_cqe q' = n_cqe q → cq q' = cq q → cq_head q' = cq_head q →
  cq_phase q' = cq_phase q → sq_tail q' = sq_tail q → done_flag q' = done_flag q →
  qp_inv q H posted inflight → qp_inv q' H posted inflight.
Proof.
  intros E1 E2 E3 E4 E5 E6 E7 Hq. pose proof (qp_rep _ _ _ _ Hq) as Hr.
  split; rewrite ?E1, ?E2, ?E6, ?E7; try apply Hq.
  split; rewrite ?E2, ?E3, ?E4, ?E5; apply Hr.
Qed.

(** The slot at the tail, taken. *)
Definition claimed (q : QP) : QP :=
  set_sq_tail ((sq_tail q + 1) mod n_sqe q) (set_done_flag (<[sq_tail q := 0]> (done_flag q)) q).

Lemma claimed_inv q H posted inflight :
  qp_inv q H posted inflight → done_flag q (sq_tail q) ≠ 0 →
  qp_inv (claimed q) H posted (inflight ++ [sq_tail q]).
Proof.
  intros Hq Hfree. destruct (qp_sizes _ _ _ _ Hq) as [Es Hle]. pose proof (qp_tail _ _ _ _ Hq) as Ht.
  pose proof (qp_flags _ _ _ _ Hq (sq_tail q) ltac:(lia)) as Hfl.
  split; simpl; try apply Hq.
  - pose proof (qp_rep _ _ _ _ Hq) as Hr. by destruct Hr.
  - apply Z.mod_pos_bound. lia.
  - rewrite app_assoc. apply NoDup_app. split_and!; [apply Hq|set_solver|apply NoDup_singleton].
  - rewrite app_assoc. apply Forall_app. split; [apply Hq|]. by constructor.
  - intros c Hc. rewrite app_assoc, elem_of_app, list_elem_of_singleton.
    destruct (decide (sq_tail q = c)) as [<-|Hne].
    + rewrite fn_lookup_insert. tauto.
    + rewrite fn_lookup_insert_ne, (qp_flags _ _ _ _ Hq c Hc) by done. split; [tauto|]. intros [?|?]; [done|congruence].
Qed.

(** A device that posts the batch [bs !! i] before the [i]-th poll. *)
Fixpoint post_all (T : Z) (cs : list Z) (q : QP) : QP :=
  match cs with
  | [] => q
  | c :: cs => post_all (T + 1) cs (post T c q)
  end.
Fixpoint device_posts (T : Z) (bs : list (list Z)) (i : nat) : QP → QP :=
  match bs, i with
  | [], _ => id
  | b :: _, O => post_all T b
  | b :: bs, S i => device_posts (T + Z.of_nat (length b)) bs i
  end.

Lemma post_all_inv cs q H posted inflight rest :
  qp_inv q H posted inflight → inflight ≡ₚ cs ++ rest →
  ∃ rest', qp_inv (post_all (H + Z.of_nat (length posted)) cs q) H (posted ++ cs) rest' ∧ rest' ≡ₚ rest ∧
    sq_tail (post_all (H + Z.of_nat (length posted)) cs q) = sq_tail q ∧
    n_cqe (post_all (H + Z.of_nat (length posted)) cs q) = n_cqe q ∧
    n_sqe (post_all (H + Z.of_nat (length posted)) cs q) = n_sqe q.
Proof.
  revert q posted inflight. induction cs as [|c cs IH]; intros q posted inflight Hq HP; simpl.
  { exists inflight. by rewrite app_nil_r. }
  assert (c ∈ inflight) as Hin by (rewrite HP; set_solver).
  apply list_elem_of_split in Hin as (l1 & l2 & ->).
  apply post_inv in Hq. rewrite <- Permutation_middle in HP. apply Permutation.Permutation_cons_inv in HP.
  destruct (IH _ _ _ Hq HP) as (rest' & Hq' & HP' & E). rewrite length_app in *. simpl in *.
  replace (H + Z.of_nat (length posted) + 1) with (H + Z.of_nat (length posted + 1)) by lia.
  exists rest'. by rewrite <- app_assoc in Hq'.
Qed.

(** The host waits for the command [t]: polls are numbered from 1 and the batch
    [bs !! (k-1)] is posted before the [k]-th; [k] is the first poll that finds
    the completion of [t]. *)
Definition freed_at (t : Z) (posted : list Z) (bs : list (list Z)) (k : nat) : Prop :=
  (1 ≤ k)%nat ∧ t ∈ posted ++ concat (take k bs) ∧
  ∀ j, (1 ≤ j < k)%nat → t ∉ posted ++ concat (take j bs).

Lemma freed_at_exists bs t posted :
  t ∈ posted ++ concat bs → ∃ k, freed_at t posted bs k.
Proof.
  revert posted. induction bs as [|b bs IH]; intros posted Hin.
  { exists 1%nat. split_and!; [lia|done|lia]. }
  destruct (decide (t ∈ posted ++ b)) as [Hb|Hb].
  - exists 1%nat. split_and!; [lia|by cbn; rewrite app_nil_r|lia].
  - destruct (IH (posted ++ b)) as (k & Hk & Hin' & Hmin); [by rewrite <- app_assoc|].
    exists (S k). split_and!; [lia|by cbn; rewrite app_assoc|].
    intros [|[|j]] Hj; [lia|by cbn; rewrite app_nil_r|].
    cbn. rewrite app_assoc. apply (Hmin (S j)). lia.
Qed.

Lemma freed_at_unique t posted bs k k' :
  freed_at t posted bs k → freed_at t posted bs k' → k = k'.
Proof.
  intros (H1 & Hin & Hmin) (H1' & Hin' & Hmin').
  destruct (Nat.lt_trichotomy k k') as [Hlt|[|Hlt]]; [|done|].
  - by destruct (Hmin' k).
  - by destruct (Hmin k').
Qed.

Lemma freed_at_later t posted b bs k :
  t ∉ posted ++ b → freed_at t posted (b :: bs) k →
  ∃ k', k = S k' ∧ freed_at t [] bs k'.
Proof.
  intros Hnot (Hk & Hin & Hmin). destruct k as [|[|k]]; [lia| |].
  { cbn in Hin. by rewrite app_nil_r in Hin. }
  exists (S k). split; [done|]. split_and!; [lia| |].
  - cbn in Hin. rewrite app_assoc in Hin. by apply elem_of_app in Hin as [?|?].
  - intros j Hj Hin'. apply (Hmin (S j)); [lia|]. cbn. rewrite app_assoc.
    by apply elem_of_app; right.
Qed.

Lemma qp_inv_perm q H posted f f' : f ≡ₚ f' → qp_inv q H posted f → qp_inv q H posted f'.
Proof.
  intros HP Hq. assert (posted ++ f ≡ₚ posted ++ f') as HP' by (by rewrite HP).
  split; try apply Hq; [rewrite <- HP'; apply Hq..|].
  intros c Hc. rewrite <- HP'. by apply Hq.
Qed.

Lemma reaped_mutex posted q : qp_mutex (reaped posted q) = qp_mutex q.
Proof.
  assert (∀ k, qp_mutex (Nat.iter k reap q) = qp_mutex q) as Hk.
  { induction k as [|k IH]; [done|]. rewrite Nat.iter_succ, <- IH. unfold reap.
    destruct (Z.eqb (rbuf _ _) 0), (Z.eqb (cq_head _) _); done. }
  destruct posted; [done|]. apply Hk.
Qed.

Lemma post_all_mutex T cs q : qp_mutex (post_all T cs q) = qp_mutex q.
Proof. revert T q. induction cs as [|c cs IH]; intros T q; [done|]. cbn. by rewrite IH. Qed.

(** One round of the wait: the device posts [b], the host polls. *)
Lemma wait_round b fuel q H posted rest :
  qp_inv q H posted (b ++ rest) → n_cqe q ≤ Z.of_nat fuel →
  ∃ q', check_cq fuel (post_all (H + Z.of_nat (length posted)) b q) = Done ((), q') ∧
    qp_inv q' (H + Z.of_nat (length posted) + Z.of_nat (length b)) [] rest ∧
    (∀ c, c ∈ posted ++ b → done_flag q' c ≠ 0) ∧
    sq_tail q' = sq_tail q ∧ n_sqe q' = n_sqe q ∧ n_cqe q' = n_cqe q ∧ qp_mutex q' = qp_mutex q.
Proof.
  intros Hq Hf.
  destruct (post_all_inv b q H posted (b ++ rest) rest Hq) as (infl' & Hq1 & HP1 & Et1 & En1 & Es1); [done|].
  destruct (poll_inv fuel _ H (posted ++ b) infl' Hq1) as (E & Hq' & Hfl & En & Et & Es); [by rewrite En1|].
  eexists. split; [exact E|]. split_and!; try congruence.
  - eapply qp_inv_perm; [exact HP1|]. rewrite length_app in Hq'. by rewrite <- Z.add_assoc, <- Nat2Z.inj_add.
  - intros c Hc. by rewrite Hfl, decide_True.
  - by rewrite reaped_mutex, post_all_mutex.
Qed.

Lemma device_posts_0 T bs : device_posts T bs 0 = post_all T (default [] (head bs)).
Proof. by destruct bs. Qed.

Lemma new_sqe_wait_ok bs k dev i0 fuel q H posted rest :
  qp_inv q H posted (concat bs ++ rest) → done_flag q (sq_tail q) = 0 →
  freed_at (sq_tail q) posted bs k →
  (∀ i, dev (i0 + i)%nat = device_posts (H + Z.of_nat (length posted)) bs i) →
  n_cqe q + Z.of_nat (length bs) + 2 ≤ Z.of_nat fuel →
  ∃ q', new_sqe_wait dev fuel i0 q = Done ((), q') ∧
    qp_inv q' (H + Z.of_nat (length posted) + Z.of_nat (length (concat (take k bs)))) [] (concat (drop k bs) ++ rest) ∧
    done_flag q' (sq_tail q) ≠ 0 ∧ sq_tail q' = sq_tail q ∧ n_sqe q' = n_sqe q ∧ qp_mutex q' = qp_mutex q.
Proof.
  revert k dev i0 fuel q H posted.
  induction bs as [|b bs IH]; intros k dev i0 [|fuel] q H posted Hq H0 Hk Hdev Hf;
    pose proof (rep_size _ _ _ (qp_rep _ _ _ _ Hq)) as Hn; try lia;
    destruct (qp_sizes _ _ _ _ Hq) as [Es Hle]; pose proof (qp_tail _ _ _ _ Hq) as Ht;
    cbn [new_sqe_wait]; unfold mbind at 1, C_bind at 1, get at 1;
    rewrite (C_bind_Done _ _ _ _ _ (check_index_run (sq_tail q) QD q ltac:(lia)));
    rewrite (proj2 (Z.eqb_eq _ _) H0), (C_bind_Done _ _ _ () (dev i0 q)) by done;
    pose proof (Hdev 0%nat) as Hd0; rewrite Nat.add_0_r in Hd0; rewrite Hd0, device_posts_0; simpl default.
  - destruct (wait_round [] (S fuel) q H posted rest Hq ltac:(simpl in Hf; lia)) as (q2 & E & Hq2 & Hfl & Et & Es2 & En & Em).
    erewrite C_bind_Done by exact E. assert (done_flag q2 (sq_tail q2) ≠ 0) as Hne.
    { apply Hfl. destruct Hk as (_ & Hin & _). rewrite take_nil in Hin. by rewrite Et. }
    destruct fuel as [|fuel]; [simpl in Hf; lia|]. cbn [new_sqe_wait]. unfold mbind at 1, C_bind at 1, get at 1.
    rewrite (C_bind_Done _ _ _ _ _ (check_index_run (sq_tail q2) QD _ ltac:(lia))).
    rewrite (proj2 (Z.eqb_neq _ _) Hne). rewrite take_nil, drop_nil.
    exists q2. by rewrite <- Et at 1.
  - cbn [concat] in Hq. rewrite <- app_assoc in Hq.
    destruct (wait_round b (S fuel) q H posted (concat bs ++ rest) Hq ltac:(simpl in Hf; lia)) as (q2 & E & Hq2 & Hfl & Et & Es2 & En & Em).
    erewrite C_bind_Done by exact E. destruct (decide (sq_tail q ∈ posted ++ b)) as [Hb|Hb].
    + assert (freed_at (sq_tail q) posted (b :: bs) 1) as Hk1
        by (split_and!; [lia|by cbn; rewrite app_nil_r|lia]).
      rewrite (freed_at_unique _ _ _ _ _ Hk Hk1) in *.
      assert (done_flag q2 (sq_tail q2) ≠ 0) as Hne by (apply Hfl; by rewrite Et).
      destruct fuel as [|fuel]; [simpl in Hf; lia|]. cbn [new_sqe_wait]. unfold mbind at 1, C_bind at 1, get at 1.
      rewrite (C_bind_Done _ _ _ _ _ (check_index_run (sq_tail q2) QD _ ltac:(lia))).
      rewrite (proj2 (Z.eqb_neq _ _) Hne). cbn [take drop concat]. rewrite app_nil_r.
      exists q2. by rewrite <- Et at 1.
    + destruct (freed_at_later _ _ _ _ _ Hb Hk) as (k' & -> & Hk'). rewrite <- Et in Hk'.
      assert (done_flag q2 (sq_tail q2) = 0) as H2.
      { apply (qp_flags _ _ _ _ Hq2); [lia|]. simpl. apply elem_of_app. left.
        destruct Hk' as (_ & Hin & _). simpl in Hin. apply list_elem_of_In, in_concat in Hin as (x & Hx & Hin).
        apply list_elem_of_In, in_concat. exists x. split; [|done].
        apply list_elem_of_In. apply list_elem_of_In in Hx. by eapply elem_of_take in Hx as (? & ? & _); eapply list_elem_of_lookup_2. }
      destruct (IH k' dev (i0 + 1)%nat fuel q2 _ [] Hq2 H2 Hk') as (q3 & E3 & Hq3 & Hf3 & Et3 & Es3 & Em3).
      { intros i. specialize (Hdev (S i)). cbn [device_posts] in Hdev.
        replace (i0 + 1 + i)%nat with (i0 + S i)%nat by lia. rewrite Hdev. f_equal. simpl. lia. }
      { simpl in Hf. lia. }
      exists q3. rewrite <- Et. split_and!; [done| |done|done|congruence|congruence].
      cbn [take drop concat]. rewrite length_app, Nat2Z.inj_add, Z.add_assoc.
      by replace (H + Z.of_nat (length posted) + Z.of_nat (length b) + Z.of_nat (length (concat (take k' bs)))) with
        (H + Z.of_nat (length posted) + Z.of_nat (length b) + Z.of_nat (@length Z []) + Z.of_nat (length (concat (take k' bs)))) by (simpl; lia).
Qed.

(** What the wait of [new_sqe] sees: the slot is free, or the device posts the
    batches [bs] of commands it holds while the host polls, until the command
    that occupies the slot is among them.  The lists are the commands of the
    queue pair afterwards. *)
Inductive waited (q : QP) (H : Z) (p f : list Z) (bs : list (list Z)) : Z → list Z → list Z → Prop :=
  | slot_free :
      done_flag q (sq_tail q) ≠ 0 → waited q H p f bs H p f
  | slot_freed rest k :
      done_flag q (sq_tail q) = 0 → f ≡ₚ concat bs ++ rest → freed_at (sq_tail q) p bs k →
      waited q H p f bs (H + Z.of_nat (length p) + Z.of_nat (length (concat (take k bs)))) [] (concat (drop k bs) ++ rest).

Section commands.
Context `{N : NvmeConfig}.

(** A command on a free slot; [dev] is not consulted. *)
Lemma new_sqe_free dev fuel q :
  0 ≤ sq_tail q < QD → done_flag q (sq_tail q) ≠ 0 → (0 < fuel)%nat →
  new_sqe dev fuel q = Done (sq_tail q, claimed q).
Proof.
  intros Ht Hfree Hf. destruct fuel as [|fuel]; [lia|]. unfold new_sqe. cbn [new_sqe_wait].
  unfold mbind, C_bind, get. rewrite check_index_run by done.
  by rewrite (proj2 (Z.eqb_neq _ _)).
Qed.

Lemma new_sqe_run bs fuel q H p f H' p' f' :
  qp_inv q H p f → waited q H p f bs H' p' f' → n_cqe q + Z.of_nat (length bs) + 2 ≤ Z.of_nat fuel →
  ∃ q', new_sqe (device_posts (H + Z.of_nat (length p)) bs) fuel q = Done (sq_tail q, q') ∧
    qp_inv q' H' p' (f' ++ [sq_tail q]) ∧ sq_tail q' = (sq_tail q + 1) mod n_sqe q ∧ qp_mutex q' = qp_mutex q.
Proof.
  intros Hq Hw Hf. destruct (qp_sizes _ _ _ _ Hq). pose proof (qp_tail _ _ _ _ Hq).
  pose proof (rep_size _ _ _ (qp_rep _ _ _ _ Hq)). destruct Hw as [Hfree|rest k Hz HP Hk].
  - rewrite new_sqe_free by (done || lia). eexists. split; [reflexivity|]. split; [by apply claimed_inv|done].
  - destruct (new_sqe_wait_ok bs k (device_posts (H + Z.of_nat (length p)) bs) 0 fuel q H p rest)
      as (q' & E & Hq' & Hfl & Et & Es & Em); [by eapply qp_inv_perm|done..|].
    unfold new_sqe. unfold mbind at 1, C_bind at 1, get. erewrite C_bind_Done by exact E.
    eexists. split; [reflexivity|]. rewrite <- Et, <- Es.
    split; [apply claimed_inv; [done|]; by rewrite Et|]. by split.
Qed.

(** Which states let a submission go on: the slot is free, or the device
    completes its command. *)
Definition slot_comes (q : QP) (p : list Z) (bs : list (list Z)) : Prop :=
  done_flag q (sq_tail q) = 0 → sq_tail q ∈ p ++ concat bs.

Lemma waited_exists bs rest q H p f :
  f ≡ₚ concat bs ++ rest → slot_comes q p bs → ∃ H' p' f', waited q H p f bs H' p' f'.
Proof.
  intros HP Hc. destruct (decide (done_flag q (sq_tail q) = 0)) as [E|E].
  - destruct (freed_at_exists bs (sq_tail q) p (Hc E)) as [k Hk]. eexists _, _, _. by eapply slot_freed.
  - eexists _, _, _. by apply slot_free.
Qed.

(** A command after its slot was claimed: the rest touches neither the rings'
    positions nor the flags. *)
Definition qp_locked (q : QP) : QP := if USE_PREEMPT then set_qp_mutex true q else q.

Lemma qp_lock_run q : qp_mutex q = false → qp_lock q = Done ((), qp_locked q).
Proof. intros Hm. unfold qp_lock, qp_locked, mbind, C_bind, get. destruct USE_PREEMPT; [by rewrite Hm|done]. Qed.

Lemma qp_locked_inv q H p f : qp_inv q H p f → qp_inv (qp_locked q) H p f.
Proof. intros Hq. unfold qp_locked. destruct USE_PREEMPT; [by eapply qp_inv_ext; [..|exact Hq]|done]. Qed.

Lemma read_command_inv dev lba nblk buflen buf fuel q cid q1 H p f :
  qp_mutex q = false → new_sqe dev fuel (qp_locked q) = Done (cid, q1) → qp_mutex q1 = qp_mutex (qp_locked q) →
  qp_inv q1 H p f →
  ∃ q', read_command dev lba nblk buflen buf fuel q = Done (cid, q') ∧ qp_inv q' H p f ∧ qp_mutex q' = false.
Proof.
  intros Hm E Em Hq. unfold read_command. erewrite C_bind_Done by by apply qp_lock_run.
  erewrite C_bind_Done by exact E. unfold qp_locked, qp_unlock in *.
  destruct USE_PREEMPT; cbv [mbind C_bind modify sq_doorbell mret C_ret]; (eexists; split; [reflexivity|]);
    (split; [by eapply qp_inv_ext; [..|exact Hq]|]); simpl; congruence.
Qed.

Lemma write_command_inv dev lba nblk buflen buf fuel q cid q1 H p f :
  qp_mutex q = false → new_sqe dev fuel (qp_locked q) = Done (cid, q1) → qp_mutex q1 = qp_mutex (qp_locked q) →
  qp_inv q1 H p f →
  ∃ q', write_command dev lba nblk buflen buf fuel q = Done (cid, q') ∧ qp_inv q' H p f ∧ qp_mutex q' = false.
Proof.
  intros Hm E Em Hq. unfold write_command. erewrite C_bind_Done by by apply qp_lock_run.
  erewrite C_bind_Done by exact E. unfold qp_locked, qp_unlock in *.
  destruct USE_PREEMPT; cbv [mbind C_bind modify sq_doorbell mret C_ret]; (eexists; split; [reflexivity|]);
    (split; [by eapply qp_inv_ext; [..|exact Hq]|]); simpl; congruence.
Qed.

(** ** Protocol runs: the host submits and polls, the device posts. *)

Record qp_state := QpState { host : QP; base : Z; ring_posted : list Z; at_device : list Z }.

Inductive req := ReadReq | WriteReq.
Definition command (r : req) (dev : nat → QP → QP) (lba nblk buflen buf : Z) (fuel : nat) : C QP Z :=
  match r with
  | ReadReq => read_command dev lba nblk buflen buf fuel
  | WriteReq => write_command dev lba nblk buflen buf fuel
  end.

(** A submission runs the whole command, its wait included, while the device
    posts the batches [bs]. *)
Inductive qp_step : qp_state → qp_state → Prop :=
  | step_submit r q q' H p f H' p' f' lba nblk blen buf cid fuel bs :
      waited q H p f bs H' p' f' →
      n_cqe q + Z.of_nat (length bs) + 2 ≤ Z.of_nat fuel →
      command r (device_posts (H + Z.of_nat (length p)) bs) lba nblk blen buf fuel q = Done (cid, q') →
      qp_step (QpState q H p f) (QpState q' H' p' (f' ++ [cid]))
  | step_post q H p f1 c f2 :
      qp_step (QpState q H p (f1 ++ c :: f2))
              (QpState (post (H + Z.of_nat (length p)) c q) H (p ++ [c]) (f1 ++ f2))
  | step_poll q q' H p f fuel :
      n_cqe q ≤ Z.of_nat fuel → check_cq fuel q = Done ((), q') →
      qp_step (QpState q H p f) (QpState q' (H + Z.of_nat (length p)) [] f).

Definition state_inv (s : qp_state) : Prop :=
  qp_inv (host s) (base s) (ring_posted s) (at_device s) ∧ qp_mutex (host s) = false.

Lemma command_run r q H p f H' p' f' lba nblk blen buf fuel bs :
  qp_inv q H p f → qp_mutex q = false → waited q H p f bs H' p' f' →
  n_cqe q + Z.of_nat (length bs) + 2 ≤ Z.of_nat fuel →
  ∃ q', command r (device_posts (H + Z.of_nat (length p)) bs) lba nblk blen buf fuel q = Done (sq_tail q, q') ∧
        qp_inv q' H' p' (f' ++ [sq_tail q]) ∧ qp_mutex q' = false.
Proof.
  intros Hq Hm Hw Hf.
  assert (sq_tail (qp_locked q) = sq_tail q ∧ n_cqe (qp_locked q) = n_cqe q ∧
          waited (qp_locked q) H p f bs H' p' f') as (Et & En & Hw').
  { unfold qp_locked. destruct USE_PREEMPT; [|done]. split_and!; [done..|].
    destruct Hw; [by apply slot_free|by eapply slot_freed]. }
  destruct (new_sqe_run bs fuel (qp_locked q) H p f H' p' f') as (q1 & E & Hq1 & _ & Em);
    [by apply qp_locked_inv|done|by rewrite En|]. rewrite Et in *.
  destruct r; [by eapply read_command_inv|by eapply write_command_inv].
Qed.

Lemma qp_step_inv s s' : state_inv s → qp_step s s' → state_inv s'.
Proof.
  intros [Hq Hm] Hstep. destruct Hstep as [r q q' H p f H' p' f' lba nblk blen buf cid fuel bs Hw Hf E
    |q H p f1 c f2|q q' H p f fuel Hf E]; simpl in *.
  - destruct (command_run r q H p f H' p' f' lba nblk blen buf fuel bs) as (q2 & E' & Hq2 & Hm2); [done..|].
    rewrite E in E'. simplify_eq. by split.
  - split; [|done]. by apply post_inv.
  - destruct (poll_inv fuel q H p f Hq Hf) as (E' & Hq' & _). rewrite E in E'. simplify_eq.
    split; [done|]. simpl. by rewrite reaped_mutex.
Qed.

Lemma qp_fresh_inv n qid flags rb ln sqs pages pas bytes :
  n = AQD ∨ n = QD → (∀ c, 0 ≤ c < QD → flags c = 2) →
  qp_inv (Qp qid n n 0 0 1 flags rb ln sqs (λ _, Cqe 0 0) 0 0 false pages pas bytes) 0 [] [].
Proof.
  intros Hn Hflag. assert (0 < n ≤ QD) as Hn' by (destruct Hn as [->| ->]; done).
  split; simpl; [|lia|lia|apply NoDup_nil_2|done|].
  - split; simpl; try done; [lia|lia|].
    intros k Hk. unfold phase_of. by rewrite Z.div_small by lia.
  - intros c Hc. rewrite Hflag by done. split; [done|]. intros Hin. by inversion Hin.
Qed.

Lemma qp_new_inv qid pages pas bytes rb ln :
  state_inv (QpState (QP_new qid pages pas bytes rb ln) 0 [] []).
Proof.
  split; [|reflexivity]. apply qp_fresh_inv; [destruct (Z.eqb qid 0); auto|].
  pose proof (for_loop_ind (λ k f, ∀ c, 0 ≤ c < k → f c = 2) (Z.to_nat QD) 0
    (λ i f, <[i := 2]> f) (λ _ : Z, 0)) as Hind. apply Hind; [lia|].
  intros i f Hi IH c Hc. destruct (decide (i = c)) as [<-|]; [by rewrite fn_lookup_insert|].
  rewrite fn_lookup_insert_ne by done. apply IH. lia.
Qed.
End commands.

(** ** Properties *)

Section properties.
Context `{N : NvmeConfig}.

(** C1: in every run of a queue pair, from its constructor, in which the host
    submits reads and writes and polls, and the device posts each command it
    holds once, also while a submission waits for its slot, the rings and the
    flags stay consistent: the commands in flight are distinct, exactly they have
    their flag down, and none of them is reported done.  In every state such a
    run reaches, a submission completes, whatever batches the device posts while
    it waits, provided the command that occupies its slot is completed; the slot
    it takes is then that of no command in flight. *)
Theorem nvme_protocol_inv qid pages pas bytes rb ln s :
  rtc qp_step (QpState (QP_new qid pages pas bytes rb ln) 0 [] []) s →
  state_inv s ∧
  (∀ c, 0 ≤ c < QD → c ∈ ring_posted s ++ at_device s → done (host s) c = false) ∧
  ∀ r lba nblk blen buf fuel bs rest,
    at_device s ≡ₚ concat bs ++ rest → slot_comes (host s) (ring_posted s) bs →
    n_cqe (host s) + Z.of_nat (length bs) + 2 ≤ Z.of_nat fuel →
    ∃ q' H' p' f',
      command r (device_posts (base s + Z.of_nat (length (ring_posted s))) bs) lba nblk blen buf fuel (host s)
        = Done (sq_tail (host s), q') ∧
      qp_step s (QpState q' H' p' (f' ++ [sq_tail (host s)])) ∧
      sq_tail (host s) ∉ p' ++ f'.
Proof.
  intros Hrun. assert (state_inv s) as Hs.
  { generalize (qp_new_inv qid pages pas bytes rb ln).
    induction Hrun as [s0|s0 s1 s2 Hstep _ IH]; [done|]. intros H0. apply IH. by eapply qp_step_inv. }
  split; [done|]. destruct Hs as [Hq Hm]. split.
  { intros c Hc Hin. unfold done. apply (qp_flags _ _ _ _ Hq c Hc) in Hin. by rewrite Hin. }
  intros r lba nblk blen buf fuel bs rest HP Hc Hf. destruct s as [q H p f]. simpl in *.
  destruct (waited_exists bs rest q H p f HP Hc) as (H' & p' & f' & Hw).
  destruct (command_run r q H p f H' p' f' lba nblk blen buf fuel bs) as (q' & E & Hq' & _); [done..|].
  exists q', H', p', f'. split; [done|]. split; [by eapply step_submit|].
  pose proof (qp_nodup _ _ _ _ Hq') as Hnd. rewrite app_assoc in Hnd. apply NoDup_app in Hnd as (_ & Hd & _).
  intros Hin. by apply (Hd _ Hin), list_elem_of_singleton.
Qed.

(** C13: [check_cq] takes exactly the completions the device has posted: it marks
    those commands done and no other, empties the ring, rings the doorbell with
    the new head, and copies to each reader's buffer the data of its own DMA
    buffer. *)
Theorem check_cq_exact fuel q H posted inflight :
  qp_inv q H posted inflight → bufs_disjoint q posted → n_cqe q ≤ Z.of_nat fuel →
  ∃ q', check_cq fuel q = Done ((), q') ∧
        qp_inv q' (H + Z.of_nat (length posted)) [] inflight ∧
        (∀ c, done_flag q' c = if decide (c ∈ posted) then 1 else done_flag q c) ∧
        (posted ≠ [] → cq_db q' = cq_head q') ∧
        (∀ c i, c ∈ posted → rbuf q c ≠ 0 → 0 ≤ i < len q c →
                mem q' (rbuf q c + i) = mem q (get_buf4k q c + i)).
Proof.
  intros Hq Hd Hf. destruct (poll_inv fuel q H posted inflight Hq Hf) as (E & Hq' & Hfl & _).
  exists (reaped posted q). split_and!; [done..| |].
  - by destruct posted.
  - intros c i Hc Hb Hi. rewrite <- (iter_mem_in q H posted c i); try done.
    + by destruct posted.
    + apply Hq.
    + pose proof (qp_nodup _ _ _ _ Hq) as Hnd. by apply NoDup_app in Hnd as (? & _).
Qed.

(** [check_cq] stops after at most one lap, whatever the completion ring
    holds: it never takes the same entry twice. *)
Theorem check_cq_terminates q :
  0 ≤ cq_head q < n_cqe q → cq_phase q = 0 ∨ cq_phase q = 1 →
  (∀ i, 0 ≤ i < n_cqe q → 0 ≤ cqe_CID (cq q i) < QD) →
  ∃ q', check_cq (Z.to_nat (n_cqe q)) q = Done ((), q').
Proof.
  intros Hh Hp Hc. unfold check_cq. unfold mbind at 1, C_bind at 1, get.
  destruct (cq_ready q) eqn:Hr; [|by exists q].
  destruct (check_cq_loop_terminates 0 (Z.to_nat (n_cqe q)) q) as (j & E & _); [done..|lia|lia|].
  change (Nat.iter 0 reap q) with q in E. erewrite C_bind_Done by exact E. by eexists.
Qed.

(** C24: [new_sqe] takes the slot at the tail only after the command that used it
    before has completed.  The device may post the commands it holds in any
    batches, one before each poll; if the slot's command is among them,
    [new_sqe] polls until the first batch [k] that completes it, no longer and
    no shorter, and returns the slot: everything posted up to then is taken from
    the ring, and exactly the commands of the later batches, the commands the
    device keeps and the new one are in flight. *)
Theorem new_sqe_waits_for_slot bs fuel q H posted inflight rest :
  qp_inv q H posted inflight → inflight ≡ₚ concat bs ++ rest →
  done_flag q (sq_tail q) = 0 → sq_tail q ∈ posted ++ concat bs →
  n_cqe q + Z.of_nat (length bs) + 2 ≤ Z.of_nat fuel →
  ∃ k q', freed_at (sq_tail q) posted bs k ∧
    new_sqe (device_posts (H + Z.of_nat (length posted)) bs) fuel q = Done (sq_tail q, q') ∧
    qp_inv q' (H + Z.of_nat (length posted) + Z.of_nat (length (concat (take k bs)))) []
           ((concat (drop k bs) ++ rest) ++ [sq_tail q]) ∧
    sq_tail q' = (sq_tail q + 1) mod n_sqe q.
Proof.
  intros Hq HP H0 Hin Hf. destruct (freed_at_exists bs (sq_tail q) posted Hin) as [k Hk].
  destruct (new_sqe_run bs fuel q H posted inflight _ _ _ Hq (slot_freed _ _ _ _ _ _ k H0 HP Hk) Hf)
    as (q' & E & Hq' & Et & _).
  by exists k, q'.
Qed.

Context `{!NvmeConfigOk N}.

Lemma rid_decode did core_id cid :
  0 ≤ did < ND → 0 ≤ core_id < N_CORE → 0 ≤ cid < QD →
  rid_did (rid_of did core_id cid) = did ∧ rid_qid (rid_of did core_id cid) = core_id + 1 ∧
  rid_cid (rid_of did core_id cid) = cid.
Proof.
  intros Hd Hc Hi. pose proof cfg_rids as Hrid. pose proof cfg_cores. pose proof cfg_drives.
  change QD with 1024 in *.
  assert (0 ≤ did * 1024 * N_CORE + core_id * 1024 + cid < 2 ^ 31) as Hb by nia.
  unfold rid_did, rid_qid, rid_cid, rid_of. change QD with 1024. rewrite i32_small by lia.
  assert (0 ≤ (did * 1024 * N_CORE + core_id * 1024 + cid) / 1024) by (apply Z.div_pos; lia).
  rewrite (Z.quot_div_nonneg _ 1024), (Z.rem_mod_nonneg _ 1024), Z.quot_div_nonneg, Z.rem_mod_nonneg by lia.
  replace (did * 1024 * N_CORE + core_id * 1024 + cid) with (cid + (core_id + did * N_CORE) * 1024) by lia.
  rewrite Z_div_plus_full, Z_mod_plus_full, (Z.div_small cid), (Z.mod_small cid), Z.add_0_l by lia.
  rewrite Z_div_plus_full, Z_mod_plus_full, (Z.div_small core_id), (Z.mod_small core_id) by lia. lia.
Qed.

Lemma on_qp_run {A} did qid (m : C QP A) s a q' :
  0 ≤ did < ND → 0 ≤ qid < N_CORE + 1 → m (s did qid) = Done (a, q') →
  on_qp did qid m s = Done (a, <[did := <[qid := q']> (s did)]> s).
Proof.
  intros Hd Hq E. unfold on_qp, zoom, mbind, C_bind. rewrite !check_index_run by done. by rewrite E.
Qed.

Lemma locked_poll fuel q H posted inflight :
  qp_inv q H posted inflight → qp_mutex q = false → n_cqe q ≤ Z.of_nat fuel →
  ∃ q', (qp_lock;; check_cq fuel;; qp_unlock) q = Done ((), q') ∧
        qp_inv q' (H + Z.of_nat (length posted)) [] inflight ∧
        ∀ c, done_flag q' c = if decide (c ∈ posted) then 1 else done_flag q c.
Proof.
  intros Hq Hm Hf. unfold qp_lock, qp_unlock. destruct USE_PREEMPT.
  - destruct (poll_inv fuel (set_qp_mutex true q) H posted inflight) as (E & Hq' & Hfl & _);
      [by eapply qp_inv_ext; [..|exact Hq]|done|].
    rewrite (C_bind_Done _ _ _ () (set_qp_mutex true q)) by (unfold mbind, C_bind, get; by rewrite Hm).
    erewrite C_bind_Done by exact E. eexists. split; [reflexivity|].
    split; [by eapply qp_inv_ext; [..|exact Hq']|done].
  - destruct (poll_inv fuel q H posted inflight Hq Hf) as (E & Hq' & Hfl & _).
    rewrite (C_bind_Done _ _ _ () q) by done. erewrite C_bind_Done by exact E.
    eexists. split; [reflexivity|]. done.
Qed.

(** the request id of a command leads back to it: polling with the id that
    a request on drive [did] and core [core_id] returned for slot [cid] reports 1
    exactly when the device has posted that command's completion. *)
Theorem nvme_check_exact s did core_id cid fuel H posted inflight :
  0 ≤ did < ND → 0 ≤ core_id < N_CORE → 0 ≤ cid < QD →
  qp_inv (s did (core_id + 1)) H posted inflight → qp_mutex (s did (core_id + 1)) = false →
  n_cqe (s did (core_id + 1)) ≤ Z.of_nat fuel → cid ∈ posted ++ inflight →
  ∃ s', nvme_check (rid_of did core_id cid) fuel s = Done (if decide (cid ∈ posted) then 1 else 0, s') ∧
        qp_inv (s' did (core_id + 1)) (H + Z.of_nat (length posted)) [] inflight.
Proof.
  intros Hd Hc Hi Hq Hm Hf Hin. destruct (rid_decode did core_id cid Hd Hc Hi) as (E1 & E2 & E3).
  unfold nvme_check. rewrite E1, E2, E3.
  pose proof (proj2 (qp_flags _ _ _ _ Hq cid Hi) Hin) as H0.
  rewrite (C_bind_Done _ _ _ false s).
  2:{ erewrite on_qp_run; [|done|lia|reflexivity]. rewrite !fn_insert_id. unfold done. by rewrite H0. }
  destruct (locked_poll fuel _ H posted inflight Hq Hm Hf) as (q1 & Ep & Hq1 & Hfl).
  erewrite C_bind_Done; [|eapply on_qp_run; [done|lia|exact Ep]].
  erewrite C_bind_Done; [|eapply on_qp_run; [done|lia|reflexivity]].
  rewrite !fn_lookup_insert. unfold done. rewrite Hfl, H0.
  case_decide; simpl; (eexists; split; [reflexivity|]); by rewrite !fn_lookup_insert.
Qed.

(** the RAID split loses nothing: below 2^32 sectors per drive, drive number
    and on-drive address determine the sector, and the sectors of one 4096-byte
    block are consecutive on one drive. *)
Theorem raid_split_ok lba lba' k :
  0 ≤ lba < ND * 2 ^ 32 → 0 ≤ lba' < ND * 2 ^ 32 → 0 ≤ k → lba mod RAID_FACTOR + k < RAID_FACTOR →
  (raid_did lba = raid_did lba' ∧ raid_slba lba = raid_slba lba' ↔ lba = lba') ∧
  raid_did (lba + k) = raid_did lba ∧ raid_slba (lba + k) = raid_slba lba + k.
Proof.
  intros Hl Hl' Hk Hmod. pose proof cfg_drives as Hnd. change RAID_FACTOR with 8 in *.
  assert (∀ l, 0 ≤ l < ND * 2 ^ 32 → raid_did l = (l / 8) mod ND ∧ raid_slba l = l / 8 / ND * 8 + l mod 8) as Heq.
  { intros l Hb. assert (0 ≤ l / 8) by (apply Z.div_pos; lia). unfold raid_did, raid_slba.
    change RAID_FACTOR with 8. rewrite (Z.quot_div_nonneg l 8), (Z.rem_mod_nonneg l 8), Z.quot_div_nonneg, Z.rem_mod_nonneg by lia.
    split; [done|]. apply u32_small. pose proof (Z.mod_pos_bound l 8 ltac:(lia)).
    assert (0 ≤ l / 8 / ND) by (apply Z.div_pos; lia).
    assert (l / 8 / ND < 2 ^ 29); [|lia]. apply Z.div_lt_upper_bound; [lia|].
    apply Z.div_lt_upper_bound; lia. }
  pose proof (Z_div_mod_eq_full lba 8). pose proof (Z_div_mod_eq_full lba' 8).
  pose proof (Z.mod_pos_bound lba 8 ltac:(lia)). pose proof (Z.mod_pos_bound lba' 8 ltac:(lia)).
  assert ((lba + k) / 8 = lba / 8 ∧ (lba + k) mod 8 = lba mod 8 + k) as [E1 E2].
  { split; symmetry; [apply (Z.div_unique_pos _ _ _ (lba mod 8 + k)) |apply (Z.mod_unique_pos _ _ (lba / 8))]; lia. }
  assert (lba + k < ND * 2 ^ 32) as Hlk by lia.
  destruct (Heq lba Hl) as [D S], (Heq lba' Hl') as [D' S'], (Heq (lba + k) ltac:(lia)) as [Dk Sk].
  rewrite D, S, D', S', Dk, Sk, E1, E2. split; [|lia]. split; [|by intros ->]. intros [Hd Hs].
  pose proof (Z_div_mod_eq_full (lba / 8) ND). pose proof (Z_div_mod_eq_full (lba' / 8) ND).
  assert (lba / 8 / ND = lba' / 8 / ND) by lia. assert (lba mod 8 = lba' mod 8) by lia. congruence.
Qed.

(** C27: the 4096-byte DMA buffers of two commands are disjoint and inside their
    2 MiB pages, and the completion ring ends where the submission ring starts. *)
Theorem dma_buffers_disjoint q c c' :
  (∀ i j, 0 ≤ i < N_2MB_PAGE → 0 ≤ j < N_2MB_PAGE → i ≠ j →
     buf4k q i + 2 * 1024 * 1024 ≤ buf4k q j ∨ buf4k q j + 2 * 1024 * 1024 ≤ buf4k q i) →
  0 ≤ c < QD → 0 ≤ c' < QD → c ≠ c' →
  (get_buf4k q c + BLKSZ ≤ get_buf4k q c' ∨ get_buf4k q c' + BLKSZ ≤ get_buf4k q c) ∧
  buf4k q (c mod N_2MB_PAGE) ≤ get_buf4k q c ∧
  get_buf4k q c + BLKSZ ≤ buf4k q (c mod N_2MB_PAGE) + 2 * 1024 * 1024 ∧
  get_cqe (c + 1) ≤ get_sqe 0 ∧ get_sqe (c + 1) ≤ 2 * 1024 * 1024.
Proof.
  intros Hpages Hc Hc' Hne. unfold get_buf4k, get_cqe, get_sqe, sq_offset. change N_2MB_PAGE with 2 in *.
  change BLKSZ with 4096. change QD with 1024 in *.
  pose proof (Z_div_mod_eq_full c 2). pose proof (Z_div_mod_eq_full c' 2).
  pose proof (Z.mod_pos_bound c 2 ltac:(lia)). pose proof (Z.mod_pos_bound c' 2 ltac:(lia)).
  split; [|lia]. destruct (decide (c mod 2 = c' mod 2)) as [E|E].
  - rewrite E. assert (c / 2 ≠ c' / 2) by congruence. lia.
  - destruct (Hpages (c mod 2) (c' mod 2)); [lia..|left|right]; lia.
Qed.
End properties.

(** ** Demonstration states *)

Definition demo_config : NvmeConfig := {| ND := 2; N_CORE := 2; USE_PREEMPT := true |}.
Global Instance demo_config_ok : NvmeConfigOk demo_config.
Proof. by split. Qed.

(** An admin-size queue pair with pages at 2 MiB boundaries. *)
Definition demo_qp : QP :=
  Qp 0 AQD AQD 0 0 1 (λ _, 2) (λ _, 77) (λ _, 99) (λ _, Sqe 0 0 0 0 0 0 0) (λ _, Cqe 0 0) 0 0 false
     (λ i, i * 2097152) (λ i, i * 2097152) (λ a, a).

Section demo.
Local Existing Instance demo_config.

Lemma demo_qp_inv : qp_inv demo_qp 0 [] [].
Proof. apply qp_fresh_inv; [by left|done]. Qed.

(** One read in flight; then posted. *)
Definition demo_read (dev : nat → QP → QP) (q : QP) : QP :=
  match read_command dev 8 1 512 5000000 12 q with Done (_, q') => q' | Fault _ => q end.
Definition demo_submitted : QP := demo_read (λ _, id) demo_qp.
Definition demo_posted : QP := post 0 0 demo_submitted.

Lemma demo_submitted_inv : qp_inv demo_submitted 0 [] [0].
Proof. eapply qp_inv_ext; [..|apply (claimed_inv demo_qp 0 [] []); [apply demo_qp_inv|done]]; done. Qed.
Lemma demo_posted_inv : qp_inv demo_posted 0 [0] [].
Proof. apply (post_inv demo_submitted 0 [] [] 0 []), demo_submitted_inv. Qed.

Lemma check_cq_exact_witness :
  ∃ q', check_cq 8 demo_posted = Done ((), q') ∧ done q' 0 = true ∧ mem q' (5000000 + 7) = 7.
Proof.
  destruct (check_cq_exact 8 demo_posted 0 [0] []) as (q' & E & _ & Hd & _ & Hm).
  - apply demo_posted_inv.
  - split.
    + intros c c' a Hc%list_elem_of_singleton Hc'%list_elem_of_singleton [_ Hu] Hdma. subst.
      unfold dma_range in Hdma. change (get_buf4k demo_posted 0) with 0 in Hdma.
      change (rbuf demo_posted 0) with 5000000 in Hu. change (len demo_posted 0) with 512 in *. lia.
    + intros c c' a Hc%list_elem_of_singleton Hc'%list_elem_of_singleton. congruence.
  - done.
  - exists q'. split; [done|]. split; [unfold done; by rewrite Hd|].
    change 5000000 with (rbuf demo_posted 0). rewrite Hm; [done|set_solver|done|done].
Defined.

Lemma check_cq_terminates_witness : ∃ q', check_cq 8 demo_posted = Done ((), q').
Proof.
  apply (check_cq_terminates demo_posted); [done|by right|].
  intros i Hi. cbn. unfold fn_insert, insert. by destruct (decide _).
Defined.

(** All eight slots in flight: a ninth command waits for slot 0. *)
Definition demo_full : QP := Nat.iter 8 claimed demo_qp.

Lemma demo_full_inv : qp_inv demo_full 0 [] [0; 1; 2; 3; 4; 5; 6; 7].
Proof.
  pose proof demo_qp_inv as H. do 8 (apply claimed_inv in H; [|done]). exact H.
Qed.

(** The device completes command 3, then 0: the second poll frees slot 0. *)
Lemma new_sqe_waits_for_slot_witness :
  ∃ q', new_sqe (device_posts 0 [[3]; [0]]) 12 demo_full = Done (0, q') ∧
        qp_inv q' 2 [] [1; 2; 4; 5; 6; 7; 0].
Proof.
  destruct (new_sqe_waits_for_slot [[3]; [0]] 12 demo_full 0 [] [0; 1; 2; 3; 4; 5; 6; 7] [1; 2; 4; 5; 6; 7])
    as (k & q' & Hk & E & Hq & _).
  - apply demo_full_inv.
  - simpl. solve_Permutation.
  - done.
  - change (sq_tail demo_full) with 0. set_solver.
  - done.
  - rewrite (freed_at_unique _ _ _ k 2 Hk) in Hq.
    + exists q'. split; [exact E|exact Hq].
    + change (sq_tail demo_full) with 0. split_and!; [lia|set_solver|].
      intros j Hj. assert (j = 1%nat) as -> by lia. set_solver.
Defined.

(** A run of the admin queue pair: eight reads fill the ring of eight slots, the
    device completes the command 1, the host polls, and a ninth command waits for
    slot 0, which the device frees in its second batch. *)
Definition demo_start : qp_state := QpState (QP_new 0 (λ i, i * 2097152) (λ i, i * 2097152) (λ a, a) (λ _, 77) (λ _, 99)) 0 [] [].
Definition demo_ring : QP := Nat.iter 8 (demo_read (device_posts 0 [])) (host demo_start).
Definition demo_polled : QP :=
  match check_cq 8 (post 0 1 demo_ring) with Done (_, q') => q' | Fault _ => demo_ring end.
Definition demo_run_state : qp_state :=
  QpState (demo_read (device_posts 1 [[3]; [0; 2]]) demo_polled) 4 [] [4; 5; 6; 7; 0].

Lemma demo_read_run dev q cid :
  (if read_command dev 8 1 512 5000000 12 q is Done (c, _) then Z.eqb c cid else false) = true →
  command ReadReq dev 8 1 512 5000000 12 q = Done (cid, demo_read dev q).
Proof.
  unfold command, demo_read. destruct (read_command _ _ _ _ _ _ q) as [[c q']|]; [|done].
  by intros ->%Z.eqb_eq.
Qed.

Lemma demo_fill k :
  (let q := Nat.iter k (demo_read (device_posts 0 [])) (host demo_start) in
   negb (Z.eqb (done_flag q (sq_tail q)) 0) && Z.leb (n_cqe q + 2) 12 &&
   (if read_command (device_posts 0 []) 8 1 512 5000000 12 q is Done (c, _) then Z.eqb c (Z.of_nat k) else false))%bool = true →
  qp_step (QpState (Nat.iter k (demo_read (device_posts 0 [])) (host demo_start)) 0 [] (seqZ 0 (Z.of_nat k)))
          (QpState (Nat.iter (S k) (demo_read (device_posts 0 [])) (host demo_start)) 0 [] (seqZ 0 (Z.of_nat (S k)))).
Proof.
  cbn zeta. intros [[Hfree%negb_true_iff%Z.eqb_neq Hn%Z.leb_le]%andb_true_iff Hrun]%andb_true_iff.
  replace (seqZ 0 (Z.of_nat (S k))) with (seqZ 0 (Z.of_nat k) ++ [Z.of_nat k])
    by (by rewrite seqZ_S, Z.add_0_l).
  eapply (step_submit ReadReq _ _ 0 [] _ _ _ _ 8 1 512 5000000 _ 12 []); [by apply slot_free|by rewrite Z.add_0_r|].
  rewrite Nat.iter_succ. by apply demo_read_run.
Qed.

Lemma demo_filled : rtc qp_step demo_start (QpState demo_ring 0 [] [0; 1; 2; 3; 4; 5; 6; 7]).
Proof.
  change [0; 1; 2; 3; 4; 5; 6; 7] with (seqZ 0 (Z.of_nat 8)). unfold demo_ring.
  change demo_start with (QpState (Nat.iter 0 (demo_read (device_posts 0 [])) (host demo_start)) 0 [] (seqZ 0 (Z.of_nat 0))).
  eapply rtc_l; [exact (demo_fill 0 ltac:(by vm_compute))|].
  eapply rtc_l; [exact (demo_fill 1 ltac:(by vm_compute))|].
  eapply rtc_l; [exact (demo_fill 2 ltac:(by vm_compute))|].
  eapply rtc_l; [exact (demo_fill 3 ltac:(by vm_compute))|].
  eapply rtc_l; [exact (demo_fill 4 ltac:(by vm_compute))|].
  eapply rtc_l; [exact (demo_fill 5 ltac:(by vm_compute))|].
  eapply rtc_l; [exact (demo_fill 6 ltac:(by vm_compute))|].
  eapply rtc_l; [exact (demo_fill 7 ltac:(by vm_compute))|].
  apply rtc_refl.
Qed.

Lemma demo_run : rtc qp_step demo_start demo_run_state.
Proof.
  etrans; [exact demo_filled|].
  eapply rtc_l; [exact (step_post demo_ring 0 [] [0] 1 [2; 3; 4; 5; 6; 7])|].
  eapply rtc_l.
  { apply (step_poll (post 0 1 demo_ring) demo_polled 0 [1] [0; 2; 3; 4; 5; 6; 7] 8); [done|].
    unfold demo_polled. assert (∃ q, check_cq 8 (post 0 1 demo_ring) = Done ((), q)) as [q ->]; [|done].
    assert ((if check_cq 8 (post 0 1 demo_ring) is Done _ then true else false) = true) as E by by vm_compute.
    destruct (check_cq 8 (post 0 1 demo_ring)) as [[[] q]|]; [by exists q|done]. }
  eapply rtc_l; [|apply rtc_refl].
  eapply (step_submit ReadReq demo_polled _ 1 [] _ 4 [] [4; 5; 6; 7] 8 1 512 5000000 0 12 [[3]; [0; 2]]).
  - apply (slot_freed demo_polled 1 [] _ [[3]; [0; 2]] [4; 5; 6; 7] 2); [by vm_compute|simpl; solve_Permutation|].
    replace (sq_tail demo_polled) with 0 by by vm_compute. split_and!; [lia|set_solver|].
    intros j Hj. assert (j = 1%nat) as -> by lia. set_solver.
  - by vm_compute.
  - apply demo_read_run. by vm_compute.
Qed.

Lemma nvme_protocol_inv_witness :
  rtc qp_step demo_start demo_run_state ∧ state_inv demo_run_state ∧ done (host demo_run_state) 4 = false.
Proof.
  split; [exact demo_run|].
  destruct (nvme_protocol_inv 0 (λ i, i * 2097152) (λ i, i * 2097152) (λ a, a) (λ _, 77) (λ _, 99) demo_run_state demo_run)
    as (Hs & Hd & _).
  split; [exact Hs|]. apply Hd; [done|]. apply list_elem_of_here.
Defined.

Lemma nvme_check_exact_witness :
  ∃ s', nvme_check (rid_of 1 0 0) 8 (λ _ _, demo_posted) = Done (1, s').
Proof.
  destruct (nvme_check_exact (λ _ _, demo_posted) 1 0 0 8 0 [0] []) as (s' & E & _);
    [done|done|done|apply demo_posted_inv|done|done|set_solver|].
  exists s'. exact E.
Defined.

Lemma raid_split_ok_witness :
  (raid_did 16 = raid_did 9 ∧ raid_slba 16 = raid_slba 9 ↔ 16 = 9) ∧
  raid_did (16 + 7) = raid_did 16 ∧ raid_slba (16 + 7) = raid_slba 16 + 7.
Proof. apply (raid_split_ok 16 9 7); done. Defined.

Lemma dma_buffers_disjoint_witness : get_buf4k demo_qp 5 + BLKSZ ≤ get_buf4k demo_qp 7.
Proof.
  destruct (dma_buffers_disjoint demo_qp 5 7) as [[H|H] _]; [|done..|exact H|done].
  intros i j Hi Hj Hne. change N_2MB_PAGE with 2 in *. simpl. lia.
Defined.
End demo.
