(* ===== verification/Hook.v ===== *)
(** * The system-call hooks (mylib/hook.c)

    [hook_function] receives every system call of the process.  On a user-level
    thread it redirects file I/O on hooked files to the flat file system and the
    NVMe driver, turns blocking calls into polling loops that yield, and passes
    everything else to the kernel.

    The block device is an interface, [BlockDev]: the requests and the poll of
    nvme.cc are one instance ([nvme_block_dev]); for the theorems a device is
    arbitrary in the ids it gives and in what it answers to polls ([Device]),
    and what it is asked is logged.
    What is outside the repository is a parameter: the kernel ([sys], a function
    of the calls made so far and of the arguments), the clock, the words of user
    memory over time and the effect of other threads while this one yields. *)

From stdpp Require Import base tactics option list numbers functions strings sets.
From S2P Require Import Prelude Arrays Myfs Nvme.

(** ** The block device interface *)

Class BlockDev (D : Type) := {
  dev_read : Z → Z → Z → Z → Z → C D Z;   (* lba, sectors, core, bytes, buffer *)
  dev_write : Z → Z → Z → Z → Z → C D Z;
  dev_check : Z → C D Z;
}.

(** The NVMe driver, with the device's behaviour and a polling bound. *)
Definition nvme_block_dev `{N : NvmeConfig} (device : nat → QP → QP) (fuel : nat) : BlockDev (Z → Z → QP) :=
  {| dev_read lba nblk core buflen buf := nvme_read_req device lba nblk core buflen buf fuel;
     dev_write lba nblk core buflen buf := nvme_write_req device lba nblk core buflen buf fuel;
     dev_check rid := nvme_check rid fuel |}.

(** What one thread sees of any device, shared with any other threads: which id its next
    request gets and what its next poll of an id answers are arbitrary functions of what it
    has asked so far.  The calls, their ids and answers are logged. *)
Inductive dev_event :=
  | EvRead (lba nblk core buflen buf rid : Z)
  | EvWrite (lba nblk core buflen buf rid : Z)
  | EvCheck (rid answered : Z).
Global Instance dev_event_eq_dec : EqDecision dev_event.
Proof. solve_decision. Defined.
Record log_dev := LogDev { events : list dev_event }.

Class Device := { new_id : list dev_event → Z; answer : list dev_event → Z → Z }.

Global Instance logged_dev `{T : Device} : BlockDev log_dev := {|
  dev_read lba nblk core buflen buf := λ d,
    Done (new_id (events d), LogDev (events d ++ [EvRead lba nblk core buflen buf (new_id (events d))]));
  dev_write lba nblk core buflen buf := λ d,
    Done (new_id (events d), LogDev (events d ++ [EvWrite lba nblk core buflen buf (new_id (events d))]));
  dev_check rid := λ d, Done (answer (events d) rid, LogDev (events d ++ [EvCheck rid (answer (events d) rid)]));
|}.

(** The device completes a request before it has been polled [n] times in a row. *)
Definition responsive `{T : Device} (n : nat) : Prop :=
  ∀ evs rid, ∃ i, (i < n)%nat ∧ answer (evs ++ replicate i (EvCheck rid 0)) rid ≠ 0.

(** ** State *)

Definition MAX_HOOKFD : Z := 1024.
Definition NOT_USED_FD : Z := -1.

Record timespec := Timespec { tv_sec : Z; tv_nsec : Z }.

(** The globals of hook.c and of the components it calls; [calls] are the calls
    passed to the kernel, [tick] counts looks at the clock and at user memory,
    [stats] the [struct stat] results and [ts_writes] the timeouts written to
    user memory. *)
Record hook (D : Type) := Hook {
  hk_fs : fs;
  hk_dev : D;
  hookfds : Z → Z;
  cur_pos : Z → Z;
  hooked_filenames : option (list string);
  hooked_rocksdb_dir : option string;
  calls : list (list Z);
  tick : nat;
  stats : list (Z * (Z * Z * Z));
  ts_writes : list (Z * timespec);
}.

Arguments Hook {D}.
Arguments hk_fs {D}.
Arguments hk_dev {D}.
Arguments hookfds {D}.
Arguments cur_pos {D}.
Arguments hooked_filenames {D}.
Arguments hooked_rocksdb_dir {D}.
Arguments calls {D}.
Arguments tick {D}.
Arguments stats {D}.
Arguments ts_writes {D}.

Definition hset_hk_fs {D} (v : fs) (s : hook D) : hook D := Hook v (hk_dev s) (hookfds s) (cur_pos s) (hooked_filenames s) (hooked_rocksdb_dir s) (calls s) (tick s) (stats s) (ts_writes s).
Definition hset_hk_dev {D} (v : D) (s : hook D) : hook D := Hook (hk_fs s) v (hookfds s) (cur_pos s) (hooked_filenames s) (hooked_rocksdb_dir s) (calls s) (tick s) (stats s) (ts_writes s).
Definition hset_hookfds {D} (v : Z → Z) (s : hook D) : hook D := Hook (hk_fs s) (hk_dev s) v (cur_pos s) (hooked_filenames s) (hooked_rocksdb_dir s) (calls s) (tick s) (stats s) (ts_writes s).
Definition hset_cur_pos {D} (v : Z → Z) (s : hook D) : hook D := Hook (hk_fs s) (hk_dev s) (hookfds s) v (hooked_filenames s) (hooked_rocksdb_dir s) (calls s) (tick s) (stats s) (ts_writes s).
Definition hset_hooked_filenames {D} (v : option (list string)) (s : hook D) : hook D := Hook (hk_fs s) (hk_dev s) (hookfds s) (cur_pos s) v (hooked_rocksdb_dir s) (calls s) (tick s) (stats s) (ts_writes s).
Definition hset_hooked_rocksdb_dir {D} (v : option string) (s : hook D) : hook D := Hook (hk_fs s) (hk_dev s) (hookfds s) (cur_pos s) (hooked_filenames s) v (calls s) (tick s) (stats s) (ts_writes s).
Definition hset_calls {D} (v : list (list Z)) (s : hook D) : hook D := Hook (hk_fs s) (hk_dev s) (hookfds s) (cur_pos s) (hooked_filenames s) (hooked_rocksdb_dir s) v (tick s) (stats s) (ts_writes s).
Definition hset_tick {D} (v : nat) (s : hook D) : hook D := Hook (hk_fs s) (hk_dev s) (hookfds s) (cur_pos s) (hooked_filenames s) (hooked_rocksdb_dir s) (calls s) v (stats s) (ts_writes s).
Definition hset_stats {D} (v : list (Z * (Z * Z * Z))) (s : hook D) : hook D := Hook (hk_fs s) (hk_dev s) (hookfds s) (cur_pos s) (hooked_filenames s) (hooked_rocksdb_dir s) (calls s) (tick s) v (ts_writes s).
Definition hset_ts_writes {D} (v : list (Z * timespec)) (s : hook D) : hook D := Hook (hk_fs s) (hk_dev s) (hookfds s) (cur_pos s) (hooked_filenames s) (hooked_rocksdb_dir s) (calls s) (tick s) (stats s) v.

(** ** File names *)

(** [malloc] gives zero bytes; [strncpy(dst, src, n)] copies at most [n]
    characters of [src].  The buffers have [i + 1] and [i - start + 1] bytes, so
    a copy of [n] characters is followed by a zero byte. *)
Definition strncpy (src : string) (n : nat) : string := String.substring 0 n src.

Definition colon : Ascii.ascii := Ascii.ascii_of_nat 58.

Fixpoint parse_loop (s rest : string) (start i : nat) (acc : list string) : list string * nat * nat :=
  match rest with
  | "" => (acc, start, i)
  | String c rest =>
      if Ascii.eqb c colon
      then parse_loop s rest (i + 1) (i + 1)
             (acc ++ [strncpy (String.substring start (String.length s - start) s) i])
      else parse_loop s rest start (i + 1) acc
  end.

Definition parse_hooked_filenames (s : string) : list string :=
  let '(acc, start, i) := parse_loop s s 0 0 [] in
  acc ++ [strncpy (String.substring start (String.length s - start) s) (i - start)].

Definition init_hooked_filename {D} (HOOKED_FILENAMES HOOKED_ROCKSDB_DIR : option string) : C (hook D) unit :=
  modify (λ s, match HOOKED_FILENAMES with
               | Some str => hset_hooked_filenames (Some (parse_hooked_filenames str)) s
               | None => s
               end);;
  modify (hset_hooked_rocksdb_dir HOOKED_ROCKSDB_DIR).

(** [strncmp(p, filename, strlen(p)) == 0] *)
Definition starts_with (p filename : string) : bool := String.prefix p filename.

Definition is_hooked_filename {D} (s : hook D) (filename : string) : bool :=
  let ret := match hooked_filenames s with
             | Some names => existsb (λ n, starts_with n filename) names
             | None => false
             end in
  match hooked_rocksdb_dir s with
  | Some dir =>
      (ret || (starts_with dir filename &&
               starts_with ".sst" (String.substring (String.length dir + 7) (String.length filename) filename)))%bool
  | None => ret
  end.

(** ** Operations *)

Section hooks.
Context {D : Type} `{B : BlockDev D} `{G : Geometry}.
Context (sys : list (list Z) → list Z → Z).
Context (clock : nat → timespec) (word_at : nat → Z → Z).
Context (str_at : Z → string) (timespec_at : Z → timespec).
Context (yield : D → D).
Context (is_ult : bool) (ult_core_id : Z).
Context (READ_DEG WRITE_DEG : nat).

Definition on_fs {A} (m : C fs A) : C (hook D) A := zoom hk_fs hset_hk_fs m.
Definition on_dev {A} (m : C D A) : C (hook D) A := zoom hk_dev hset_hk_dev m.
Definition ult_yield : C (hook D) unit := on_dev (modify yield).
Definition next_sys_call (args : list Z) : C (hook D) Z :=
  r ← gets (λ s, sys (calls s) args);
  modify (λ s, hset_calls (calls s ++ [args]) s);;
  mret r.
Definition clock_gettime : C (hook D) timespec :=
  t ← gets (λ s, clock (tick s));
  modify (λ s, hset_tick (tick s + 1)%nat s);;
  mret t.
Definition load_word (a : Z) : C (hook D) Z :=
  w ← gets (λ s, word_at (tick s) a);
  modify (λ s, hset_tick (tick s + 1)%nat s);;
  mret w.

(** The sum of two [int]s, undefined when it does not fit. *)
Definition int_add (x y : Z) : C (hook D) Z :=
  if in_range (x + y + 2 ^ 31) (2 ^ 32) then mret (x + y) else throw UB.

Definition DIV_CEIL (x y : Z) : Z := Z.quot (x + y - 1) y.

(** [while (1) { if (nvme_check(rid)) break; ult_yield(); }] *)
Fixpoint await (fuel : nat) (rid : Z) : C (hook D) unit :=
  match fuel with
  | O => throw OutOfFuel
  | S fuel =>
      r ← on_dev (dev_check rid);
      if negb (Z.eqb r 0) then mret () else ult_yield;; await fuel rid
  end.

Fixpoint await_all (fuel : nat) (rids : list Z) : C (hook D) unit :=
  match rids with
  | [] => mret ()
  | rid :: rids => await fuel rid;; await_all fuel rids
  end.

(** The inner [for] loop of [read_impl]: [n] requests left in the batch. *)
Fixpoint read_batch (n : nat) (hookfd len pos buf blksz j : Z) (rids : list Z) : C (hook D) (Z * list Z) :=
  match n with
  | O => mret (j, rids)
  | S n =>
      if Z.leb len j then mret (j, rids)
      else
        lba ← on_fs (myfs_get_lba hookfd (pos + j) 0);
        rid ← on_dev (dev_read lba (DIV_CEIL blksz 512) ult_core_id (Z.min blksz (len - j)) (buf + j));
        j ← int_add j blksz;
        read_batch n hookfd len pos buf blksz j (rids ++ [rid])
  end.

Fixpoint read_loop (fuel : nat) (hookfd len pos buf blksz j : Z) : C (hook D) unit :=
  match fuel with
  | O => throw OutOfFuel
  | S fuel =>
      if Z.ltb j len then
        '(j, rids) ← read_batch READ_DEG hookfd len pos buf blksz j [];
        await_all fuel rids;;
        read_loop fuel hookfd len pos buf blksz j
      else mret ()
  end.

Definition chunk_size (len pos : Z) : Z :=
  if (negb (Z.eqb (Z.rem len BLKSZ) 0) || negb (Z.eqb (Z.rem pos BLKSZ) 0))%bool then 512 else BLKSZ.

Definition read_impl (fuel : nat) (hookfd len pos buf : Z) : C (hook D) unit :=
  on_fs (myfs_increment_ref hookfd);;
  file_size ← on_fs (myfs_get_size hookfd);
  let len := if Z.ltb file_size (u64 (pos + len)) then i64 (file_size - pos) else len in
  c_assert (Z.eqb (Z.rem pos 512) 0);;
  let blksz := chunk_size len pos in
  let blksz := if Z.leb (Z.rem pos BLKSZ + len) BLKSZ then i32 len else blksz in
  read_loop fuel hookfd len pos buf blksz 0;;
  on_fs (myfs_decrement_ref hookfd).

(** The inner [for] loop of [write_impl]; the [break] leaves before [rq_k++], so
    the ids the second loop awaits are those of the completed iterations. *)
Fixpoint write_batch (n : nat) (hookfd len pos buf blksz j : Z) (rids : list Z) : C (hook D) (Z * list Z) :=
  match n with
  | O => mret (j, rids)
  | S n =>
      lba ← on_fs (myfs_get_lba hookfd (pos + j) 1);
      rid ← on_dev (dev_write lba (DIV_CEIL blksz 512) ult_core_id (Z.min blksz (len - j)) (buf + j));
      j ← int_add j blksz;
      if Z.leb len j then mret (j, rids)
      else write_batch n hookfd len pos buf blksz j (rids ++ [rid])
  end.

Fixpoint write_loop (fuel : nat) (hookfd len pos buf blksz j : Z) : C (hook D) unit :=
  match fuel with
  | O => throw OutOfFuel
  | S fuel =>
      if Z.ltb j len then
        '(j, rids) ← write_batch WRITE_DEG hookfd len pos buf blksz j [];
        await_all fuel rids;;
        write_loop fuel hookfd len pos buf blksz j
      else mret ()
  end.

Definition write_impl (fuel : nat) (hookfd len pos buf : Z) : C (hook D) unit :=
  c_assert (Z.eqb (Z.rem pos 512) 0);;
  on_fs (myfs_increment_ref hookfd);;
  let blksz := chunk_size len pos in
  write_loop fuel hookfd len pos buf blksz 0;;
  on_fs (myfs_decrement_ref hookfd).

Definition get_hookfd (fd : Z) : C (hook D) Z :=
  check_index fd MAX_HOOKFD;;
  gets (λ s, hookfds s fd).

Definition hook_openat (a1 a2 a3 a4 a5 a6 a7 : Z) : C (hook D) Z :=
  let filename := str_at a3 in
  ret ← next_sys_call [a1; a2; a3; a4; a5; a6; a7];
  let ret := i32 ret in
  s ← get;
  (if is_hooked_filename s filename then
     if Z.ltb ret MAX_HOOKFD then
       h ← on_fs (myfs_open filename);
       check_index ret MAX_HOOKFD;;
       modify (λ s, hset_hookfds (<[ret := h]> (hookfds s)) s);;
       modify (λ s, hset_cur_pos (<[ret := 0]> (cur_pos s)) s)
     else throw AssertFailed
   else mret ());;
  mret ret.

Definition FUTEX_WAIT : Z := 0.
Definition FUTEX_PRIVATE_FLAG : Z := 128.

Fixpoint futex_wait (fuel : nat) (uaddr val : Z) : C (hook D) Z :=
  match fuel with
  | O => throw OutOfFuel
  | S fuel =>
      w ← load_word uaddr;
      if negb (Z.eqb w val) then mret 0 else ult_yield;; futex_wait fuel uaddr val
  end.

Definition hook_futex (fuel : nat) (a1 a2 a3 a4 a5 a6 a7 : Z) : C (hook D) Z :=
  let futex_op := i32 a3 in
  let val := u32 a4 in
  if (negb (Z.eqb a6 0xdeadcafe) &&
      (Z.eqb futex_op FUTEX_WAIT || Z.eqb futex_op (Z.lor FUTEX_WAIT FUTEX_PRIVATE_FLAG)))%bool
  then futex_wait fuel a2 val
  else next_sys_call [a1; a2; a3; a4; a5; a6; a7].

(** [(a.tv_sec - b.tv_sec) * 1e9 + (a.tv_nsec - b.tv_nsec)], exact for the
    differences a clock has. *)
Definition diff_nsec (a b : timespec) : Z :=
  (tv_sec a - tv_sec b) * 10 ^ 9 + (tv_nsec a - tv_nsec b).
Definition ts_add (a b : timespec) : timespec := Timespec (tv_sec a + tv_sec b) (tv_nsec a + tv_nsec b).

Definition CLOCK_REALTIME : Z := 0.

Fixpoint sleep_until (fuel : nat) (alarm : timespec) : C (hook D) Z :=
  match fuel with
  | O => throw OutOfFuel
  | S fuel =>
      now ← clock_gettime;
      if Z.ltb 0 (diff_nsec now alarm) then mret 0 else ult_yield;; sleep_until fuel alarm
  end.

Definition hook_clock_nanosleep (fuel : nat) (which_clock flags : Z) (req : timespec) : C (hook D) Z :=
  c_assert (Z.eqb which_clock CLOCK_REALTIME);;
  c_assert (Z.eqb flags 0);;
  alarm ← clock_gettime;
  sleep_until fuel (ts_add alarm req).

(** [pselect6]: poll with a zero timeout until something is ready or the time is up. *)
Fixpoint select_loop (fuel : nat) (args : list Z) (ts : timespec) : C (hook D) Z :=
  match fuel with
  | O => throw OutOfFuel
  | S fuel =>
      ts2 ← clock_gettime;
      if Z.ltb 0 (diff_nsec ts2 ts) then mret 0
      else
        ret ← next_sys_call args;
        if negb (Z.eqb (i32 ret) 0) then mret (i32 ret) else ult_yield;; select_loop fuel args ts
  end.

Definition hook_select (fuel : nat) (zts a1 a2 a3 a4 a5 a6 a7 : Z) : C (hook D) Z :=
  ts ← clock_gettime;
  if Z.eqb a6 0 then throw UB   (* ats is read before it is tested *)
  else select_loop fuel [a1; a2; a3; a4; a5; zts; a7] (ts_add ts (timespec_at a6)).

Fixpoint epoll_loop (fuel : nat) (args : list Z) (ts : option timespec) : C (hook D) Z :=
  match fuel with
  | O => throw OutOfFuel
  | S fuel =>
      ret ← next_sys_call args;
      if Z.ltb 0 (i32 ret) then mret (i32 ret)
      else
        match ts with
        | Some t =>
            ts2 ← clock_gettime;
            if Z.ltb 0 (diff_nsec ts2 t) then mret 0
            else ult_yield;; epoll_loop fuel args ts
        | None => ult_yield;; epoll_loop fuel args ts
        end
  end.

Definition hook_epoll_pwait2 (fuel : nat) (tsz a1 a2 a3 a4 a5 a6 a7 : Z) : C (hook D) Z :=
  if Z.eqb a5 0 then epoll_loop fuel [a1; a2; a3; a4; tsz; a6; a7] None
  else
    tsc ← clock_gettime;
    let ts := ts_add (timespec_at a5) tsc in
    modify (λ s, hset_ts_writes (ts_writes s ++ [(a5, ts)]) s);;
    epoll_loop fuel [a1; a2; a3; a4; tsz; a6; a7] (Some ts).

Definition hook_close (a1 a2 a3 a4 a5 a6 a7 : Z) : C (hook D) Z :=
  let fd := i32 a2 in
  h ← get_hookfd fd;
  (if Z.leb 0 h then
     on_fs (myfs_close h);;
     modify (λ s, hset_hookfds (<[fd := NOT_USED_FD]> (hookfds s)) s)
   else mret ());;
  next_sys_call [a1; a2; a3; a4; a5; a6; a7].

Definition hook_read (fuel : nat) (a1 a2 a3 a4 a5 a6 a7 : Z) : C (hook D) Z :=
  let fd := i32 a2 in
  let count := u64 a4 in
  hookfd ← get_hookfd fd;
  if Z.leb 0 hookfd then
    pos ← gets (λ s, cur_pos s fd);
    read_impl fuel hookfd (i64 count) (i64 pos) a3;;
    modify (λ s, hset_cur_pos (<[fd := u64 (cur_pos s fd + count)]> (cur_pos s)) s);;
    mret (i64 count)
  else next_sys_call [a1; a2; a3; a4; a5; a6; a7].

Definition hook_pread64 (fuel : nat) (a1 a2 a3 a4 a5 a6 a7 : Z) : C (hook D) Z :=
  let fd := i32 a2 in
  let count := u64 a4 in
  hookfd ← get_hookfd fd;
  if Z.leb 0 hookfd then
    read_impl fuel hookfd (i64 count) a5 a3;;
    mret (i64 count)
  else next_sys_call [a1; a2; a3; a4; a5; a6; a7].

Definition hook_write (fuel : nat) (a1 a2 a3 a4 a5 a6 a7 : Z) : C (hook D) Z :=
  hookfd ← get_hookfd a2;
  if Z.leb 0 hookfd then
    pos ← gets (λ s, cur_pos s a2);
    write_impl fuel hookfd a4 (i64 pos) a3;;
    modify (λ s, hset_cur_pos (<[a2 := u64 (cur_pos s a2 + a4)]> (cur_pos s)) s);;
    mret a4
  else next_sys_call [a1; a2; a3; a4; a5; a6; a7].

Definition hook_pwrite64 (fuel : nat) (a1 a2 a3 a4 a5 a6 a7 : Z) : C (hook D) Z :=
  hookfd ← get_hookfd a2;
  if Z.leb 0 hookfd then
    write_impl fuel hookfd a4 a5 a3;;
    mret a4
  else next_sys_call [a1; a2; a3; a4; a5; a6; a7].

Definition hook_fstat (a1 a2 a3 a4 a5 a6 a7 : Z) : C (hook D) Z :=
  if Z.leb 0 (i32 a2) then
    hookfd ← get_hookfd a2;
    if Z.leb 0 hookfd then
      sz ← on_fs (myfs_get_size hookfd);
      modify (λ s, hset_stats (stats s ++ [(a4, (sz, 512, sz / 512))]) s);;
      mret 0
    else next_sys_call [a1; a2; a3; a4; a5; a6; a7]
  else next_sys_call [a1; a2; a3; a4; a5; a6; a7].

Definition hook_unlink (a1 a2 a3 a4 a5 a6 a7 : Z) : C (hook D) Z :=
  on_fs (myfs_unlink (str_at a2));;
  next_sys_call [a1; a2; a3; a4; a5; a6; a7].

Definition SYS_read : Z := 0.
Definition SYS_write : Z := 1.
Definition SYS_close : Z := 3.
Definition SYS_openat : Z := 257.

(** [zts] is the address of the zero timeout on the stack. *)
Definition hook_function (fuel : nat) (zts a1 a2 a3 a4 a5 a6 a7 : Z) : C (hook D) Z :=
  if is_ult then
    if Z.eqb a1 SYS_openat then hook_openat a1 a2 a3 a4 a5 a6 a7
    else if Z.eqb a1 SYS_close then hook_close a1 a2 a3 a4 a5 a6 a7
    else if Z.eqb a1 SYS_read then hook_read fuel a1 a2 a3 a4 a5 a6 a7
    else if Z.eqb a1 17 then hook_pread64 fuel a1 a2 a3 a4 a5 a6 a7
    else if Z.eqb a1 SYS_write then hook_write fuel a1 a2 a3 a4 a5 a6 a7
    else if Z.eqb a1 18 then hook_pwrite64 fuel a1 a2 a3 a4 a5 a6 a7
    else if Z.eqb a1 262 then hook_fstat a1 a2 a3 a4 a5 a6 a7
    else if Z.eqb a1 230 then hook_clock_nanosleep fuel (i32 a2) (i32 a3) (timespec_at a4)
    else if Z.eqb a1 87 then hook_unlink a1 a2 a3 a4 a5 a6 a7
    else if Z.eqb a1 270 then hook_select fuel zts a1 a2 a3 a4 a5 a6 a7
    else if Z.eqb a1 441 then hook_epoll_pwait2 fuel zts a1 a2 a3 a4 a5 a6 a7
    else if Z.eqb a1 202 then hook_futex fuel a1 a2 a3 a4 a5 a6 a7
    else next_sys_call [a1; a2; a3; a4; a5; a6; a7]
  else next_sys_call [a1; a2; a3; a4; a5; a6; a7].

(** [__hook_init] with the environment variables and the superblock file; the
    hook pointer it installs is [hook_function] itself, [nvme_init] is [dev0]. *)
Definition __hook_init (names dir path : option string) (fd : Z) (image : option superblock_t)
    (dev0 : D) : C (hook D) Z :=
  init_hooked_filename names dir;;
  modify (λ s, hset_hookfds (for_loop (Z.to_nat MAX_HOOKFD) 0 (λ i f, <[i := NOT_USED_FD]> f) (hookfds s)) s);;
  c_assert (bool_decide (is_Some path));;
  on_fs (myfs_mount fd image);;
  modify (hset_hk_dev dev0);;
  mret 0.

Definition hook_deinit : C (hook D) unit := on_fs myfs_umount.
End hooks.

(** ** What the chunk loops ask of the device *)

Definition is_request (e : dev_event) : bool :=
  match e with EvRead _ _ _ _ _ _ | EvWrite _ _ _ _ _ _ => true | EvCheck _ _ => false end.
Definition requests (evs : list dev_event) : list dev_event := base.filter is_request evs.
(** The ids whose completion was seen, in this order. *)
Definition completed (e : dev_event) : option Z :=
  match e with EvCheck rid a => if Z.eqb a 0 then None else Some rid | _ => None end.
Definition awaited (evs : list dev_event) : list Z := omap completed evs.

Lemma requests_app e1 e2 : requests (e1 ++ e2) = requests e1 ++ requests e2.
Proof. apply filter_app. Qed.
Lemma awaited_app e1 e2 : awaited (e1 ++ e2) = awaited e1 ++ awaited e2.
Proof. apply omap_app. Qed.

Section chunks.
Context `{G : Geometry, !GeometryOk G} `{T : Device}.
Context (sys : list (list Z) → list Z → Z) (clock : nat → timespec) (yield : log_dev → log_dev).
Context (core : Z) (READ_DEG WRITE_DEG polls : nat).
Implicit Types (s : hook log_dev).

(** Other threads run while this one yields; its calls are still its own. *)
Hypothesis yield_log : ∀ d, events (yield d) = events d.
Hypothesis device_responds : responsive polls.

Definition add_events (evs : list dev_event) (s : hook log_dev) : hook log_dev :=
  hset_hk_dev (LogDev (events (hk_dev s) ++ evs)) s.

Lemma add_events_add e1 e2 s : add_events e2 (add_events e1 s) = add_events (e1 ++ e2) s.
Proof. unfold add_events. destruct s as [? [] ?]. simpl. by rewrite <- app_assoc. Qed.

Lemma add_events_nil s : add_events [] s = s.
Proof. unfold add_events. destruct s as [? [] ?]. simpl. by rewrite app_nil_r. Qed.

Lemma await_answered i fuel rid s :
  (i < fuel)%nat → answer (events (hk_dev s) ++ replicate i (EvCheck rid 0)) rid ≠ 0 →
  ∃ evs, await yield fuel rid s = Done ((), add_events evs s) ∧ requests evs = [] ∧ awaited evs = [rid].
Proof using yield_log.
  revert fuel s. induction i as [|i IH]; intros [|fuel] s Hi Ha; try lia; cbn [await];
    rewrite (C_bind_Done _ _ _ (answer (events (hk_dev s)) rid) (add_events [EvCheck rid (answer (events (hk_dev s)) rid)] s)) by done;
    (destruct (Z.eqb_spec (answer (events (hk_dev s)) rid) 0) as [E|E]; cbn [negb];
     [|exists [EvCheck rid (answer (events (hk_dev s)) rid)]; split_and!; [done|done|];
       unfold awaited; simpl; by rewrite (proj2 (Z.eqb_neq _ _))]).
  - simpl in Ha. by rewrite app_nil_r in Ha.
  - rewrite E. set (s1 := add_events [EvCheck rid 0] s).
    rewrite (C_bind_Done _ _ _ () s1).
    2:{ unfold ult_yield, on_dev, zoom, modify. destruct (yield (hk_dev s1)) eqn:Ey. pose proof (yield_log (hk_dev s1)) as Hy.
        rewrite Ey in Hy. simpl in Hy. subst. by destruct s as [? [] ?]. }
    destruct (IH fuel s1) as (evs & Ew & Hr & Haw); [lia|by simpl in *; rewrite <- app_assoc|].
    exists (EvCheck rid 0 :: evs). rewrite Ew. unfold s1. by rewrite add_events_add.
Qed.

Lemma await_all_run fuel rids s :
  (polls ≤ fuel)%nat →
  ∃ evs, await_all yield fuel rids s = Done ((), add_events evs s) ∧ requests evs = [] ∧ awaited evs = rids.
Proof using yield_log device_responds.
  intros Hf. revert s. induction rids as [|rid rids IH]; intros s; simpl.
  { exists []. by rewrite add_events_nil. }
  destruct (device_responds (events (hk_dev s)) rid) as (i & Hi & Ha).
  destruct (await_answered i fuel rid s ltac:(lia) Ha) as (e1 & E1 & R1 & A1).
  rewrite (C_bind_Done _ _ _ _ _ E1). destruct (IH (add_events e1 s)) as (e2 & E2 & R2 & A2).
  exists (e1 ++ e2). by rewrite E2, add_events_add, requests_app, awaited_app, R1, R2, A1, A2.
Qed.

Lemma int_add_run x y s : - 2 ^ 31 ≤ x + y < 2 ^ 31 → int_add x y s = Done (x + y, s).
Proof. intros. unfold int_add. by rewrite in_range_true by lia. Qed.

Section read.
Context (hookfd len pos buf b : Z).
Hypothesis Hb : 0 < b.
Hypothesis Hlen : len + b < 2 ^ 31.







End read.

Section write.
Context (hookfd len pos buf b : Z).
Hypothesis Hb : 0 < b ≤ MYFS_BLOCK_SIZE.
Hypothesis Hlen : len + b < 2 ^ 31.

Definition chunk_write (sb : superblock_t) (j rid : Z) : dev_event :=
  EvWrite (lba_of (block (file sb hookfd) ((pos + j) / MYFS_BLOCK_SIZE)) (pos + j))
          (DIV_CEIL b 512) core (Z.min b (len - j)) (buf + j) rid.

Fixpoint chunk_writes (sb : superblock_t) (j : Z) (ids : list Z) : list dev_event :=
  match ids with
  | [] => []
  | rid :: ids => chunk_write sb j rid :: chunk_writes sb (j + b) ids
  end.

Lemma chunk_writes_app sb j l1 l2 :
  chunk_writes sb j (l1 ++ l2) = chunk_writes sb j l1 ++ chunk_writes sb (j + Z.of_nat (length l1) * b) l2.
Proof.
  revert j. induction l1 as [|r l1 IH]; intros j; cbn [app chunk_writes length]; [by rewrite Z.mul_0_l, Z.add_0_r|].
  rewrite IH. do 3 f_equal. lia.
Qed.

Lemma chunk_writes_requests sb j ids :
  requests (chunk_writes sb j ids) = chunk_writes sb j ids ∧ awaited (chunk_writes sb j ids) = [].
Proof.
  revert j. induction ids as [|rid ids IH]; intros j; [done|]. cbn [chunk_writes].
  destruct (IH (j + b)) as [E1 E2]. split; [|exact E2].
  unfold requests in *. rewrite filter_cons_True by done. f_equal. exact E1.
Qed.

(** Blocks a file has keep their place, so its requests do not change. *)
Lemma chunk_writes_ext sb sb' j ids :
  extends (file sb hookfd) (file sb' hookfd) → 0 ≤ pos + j →
  (ids ≠ [] → (pos + j + (Z.of_nat (length ids) - 1) * b) / MYFS_BLOCK_SIZE < n_block (file sb hookfd)) →
  chunk_writes sb' j ids = chunk_writes sb j ids.
Proof using Hb.
  intros (_ & _ & Hext). revert j. induction ids as [|rid ids IH]; intros j Hpos Hin; [done|]. cbn [chunk_writes].
  specialize (Hin ltac:(done)). cbn [length] in Hin. f_equal.
  - unfold chunk_write. do 2 f_equal. apply Hext. split; [apply Z.div_pos; [lia|done]|].
    eapply Z.le_lt_trans; [|exact Hin]. apply Z.div_le_mono; [done|]. nia.
  - apply IH; [lia|]. intros Hne. eapply Z.le_lt_trans; [|exact Hin]. apply Z.div_le_mono; [done|]. nia.
Qed.

Definition blocks_upto (n : Z) : Z := (n + MYFS_BLOCK_SIZE - 1) / MYFS_BLOCK_SIZE.

(** The file is dense up to offset [j] of the write and the rest of it fits. *)
Definition can_write (sb : superblock_t) (j : Z) : Prop :=
  0 ≤ hookfd < MYFS_MAX_FILES ∧ name (file sb hookfd) ≠ "" ∧ 0 ≤ pos ∧
  (pos + j) / MYFS_BLOCK_SIZE ≤ n_block (file sb hookfd) ∧
  pos + len ≤ MYFS_MAX_BLOCKS_PER_FILE * MYFS_BLOCK_SIZE ∧
  blocks_upto (pos + len) - n_block (file sb hookfd) ≤ Z.of_nat (length (free_list sb)).

Lemma blocks_upto_gt j : 0 ≤ pos → 0 ≤ j < len → (pos + j) / MYFS_BLOCK_SIZE < blocks_upto (pos + len).
Proof.
  intros Hp Hj. unfold blocks_upto. assert ((pos + j) / MYFS_BLOCK_SIZE + 1 ≤ (pos + len + MYFS_BLOCK_SIZE - 1) / MYFS_BLOCK_SIZE); [|lia].
  rewrite <- Z_div_plus_full by done. apply Z.div_le_mono; [done|]. lia.
Qed.

Lemma can_write_writable sb j : sb_inv sb → can_write sb j → 0 ≤ j < len → writable sb hookfd (pos + j).
Proof.
  intros Hsb (Hfd & Hn & Hp & Hd & Hmax & Hfree) Hj. split_and!; [lia..|done|].
  pose proof (blocks_upto_gt j Hp Hj) as Hgt.
  destruct (decide ((pos + j) / MYFS_BLOCK_SIZE < n_block (file sb hookfd))).
  - left. split; [apply Z.div_pos; done || lia|done].
  - right. assert ((pos + j) / MYFS_BLOCK_SIZE = n_block (file sb hookfd)) as Eq by lia. split_and!; [done| |].
    + rewrite <- Eq. apply Z.div_lt_upper_bound; [done|lia].
    + intros Erw. unfold free_list in Hfree. rewrite Erw, ring_list_empty in Hfree. simpl in Hfree. lia.
Qed.

Lemma write_sb_extends sb i off : extends (file sb i) (file (write_sb i off sb) i).
Proof.
  unfold write_sb. case_decide; [done|]. simpl. rewrite fn_lookup_insert. split_and!; simpl; [done|lia|].
  intros k Hk. by rewrite fn_lookup_insert_ne by lia.
Qed.

Lemma can_write_next sb j :
  sb_inv sb → can_write sb j → 0 ≤ j < len →
  can_write (write_sb hookfd (pos + j) sb) (j + b) ∧
  (pos + j) / MYFS_BLOCK_SIZE < n_block (file (write_sb hookfd (pos + j) sb) hookfd).
Proof.
  intros Hsb Hcw Hj. pose proof (can_write_writable sb j Hsb Hcw Hj) as Hw.
  pose proof (write_sb_allocated sb hookfd (pos + j) Hsb Hw) as [_ Ha].
  pose proof (write_sb_extends sb hookfd (pos + j)) as (En & _).
  destruct Hcw as (Hfd & Hn & Hp & Hd & Hmax & Hfree).
  rewrite file_len_named in Ha by (by rewrite En).
  assert ((pos + (j + b)) / MYFS_BLOCK_SIZE ≤ (pos + j) / MYFS_BLOCK_SIZE + 1) as Hstep.
  { rewrite <- Z_div_plus_full by done. apply Z.div_le_mono; [done|]. lia. }
  split; [|lia]. split_and!; [lia..|by rewrite En|done|lia|done|].
  unfold write_sb. case_decide; [lia|].
  destruct Hw as (_ & _ & [?|(_ & _ & Hne)]); [lia|].
  unfold alloc_sb, free_list. simpl. rewrite fn_lookup_insert. simpl.
  unfold free_list in Hfree. rewrite ring_list_pop in Hfree by (done || apply Hsb). simpl in Hfree. lia.
Qed.

(** The ids the second loop of a batch awaits: the [break] skips the last one. *)
Definition counted (j : Z) (ids : list Z) : list Z :=
  if decide (len ≤ j + Z.of_nat (length ids) * b) then removelast ids else ids.

Lemma write_batch_ok n j rids s :
  fs_inv (hk_fs s) → can_write (superblock (hk_fs s)) j → 0 ≤ j < len →
  ∃ ids fs', write_batch core n hookfd len pos buf b j rids s =
      Done ((j + Z.of_nat (length ids) * b, rids ++ counted j ids),
            add_events (chunk_writes (superblock fs') j ids) (hset_hk_fs fs' s)) ∧
    (n ≠ 0%nat → ids ≠ []) ∧ j + Z.of_nat (length ids) * b < len + b ∧
    fs_inv fs' ∧ can_write (superblock fs') (j + Z.of_nat (length ids) * b) ∧ same_volatile (hk_fs s) fs' ∧
    extends (file (superblock (hk_fs s)) hookfd) (file (superblock fs') hookfd) ∧
    (ids ≠ [] → (pos + j + (Z.of_nat (length ids) - 1) * b) / MYFS_BLOCK_SIZE < n_block (file (superblock fs') hookfd)).
Proof using Hb Hlen GeometryOk0.
  revert j rids s. induction n as [|n IH]; intros j rids s Hs Hcw Hj; cbn [write_batch].
  { exists [], (hk_fs s). unfold counted. cbn [length removelast]. rewrite decide_False, app_nil_r, Z.mul_0_l, Z.add_0_r by lia.
    split_and!; try done; try lia. unfold add_events. destruct s as [? [] ?]. simpl. by rewrite app_nil_r. }
  pose proof (can_write_writable _ _ (proj1 Hs) Hcw Hj) as Hw.
  destruct (can_write_next _ _ (proj1 Hs) Hcw Hj) as [Hcw1 Hin1].
  destruct (get_lba_write_ok hookfd (pos + j) (hk_fs s) Hs Hw) as (fs1 & E1 & Esb & Hv).
  rewrite <- Esb in *. set (s1 := hset_hk_fs fs1 s).
  assert (fs_inv fs1) as Hs1.
  { split; [rewrite Esb; apply write_sb_inv; [apply Hs|done]|]. apply Hv, Hs. }
  pose proof (write_sb_extends (superblock (hk_fs s)) hookfd (pos + j)) as Hx. rewrite <- Esb in Hx.
  erewrite (C_bind_Done _ _ _ _ s1); [|unfold on_fs, zoom; by rewrite E1].
  set (rid := new_id (events (hk_dev s))). set (ev := chunk_write (superblock fs1) j rid).
  rewrite (C_bind_Done _ _ _ rid (add_events [ev] s1)) by done.
  rewrite (C_bind_Done _ _ _ _ _ (int_add_run j b _ ltac:(lia))).
  destruct (Z.leb_spec len (j + b)) as [Hdone|Hmore].
  - exists [rid], fs1. unfold counted. cbn [length removelast]. rewrite Z.mul_1_l, decide_True by lia. split_and!; try done; try lia.
    + by rewrite app_nil_r.
    + intros _. by rewrite Z.add_0_r.
  - destruct (IH (j + b) (rids ++ [rid]) (add_events [ev] s1))
      as (ids & fs2 & E & Hne & Hub & Hs2 & Hcw2 & Hv2 & Hx2 & Hin2); [done|done|lia|].
    assert (chunk_write (superblock fs2) j rid = ev) as Hev.
    { assert (chunk_writes (superblock fs2) j [rid] = chunk_writes (superblock fs1) j [rid]) as He.
      { destruct Hcw as (_ & _ & ? & _). apply chunk_writes_ext; [exact Hx2|lia|]. intros _. cbn [length]. by rewrite Z.add_0_r. }
      apply (f_equal head) in He. change (Some (chunk_write (superblock fs2) j rid) = Some ev) in He. congruence. }
    exists (rid :: ids), fs2. simpl in E. rewrite E. cbn [length].
    replace (j + b + Z.of_nat (length ids) * b) with (j + Z.of_nat (S (length ids)) * b) in * by lia.
    split_and!; try done; try lia.
    + f_equal. f_equal.
      * f_equal. rewrite <- app_assoc. f_equal. unfold counted. cbn [length].
        replace (j + b + Z.of_nat (length ids) * b) with (j + Z.of_nat (S (length ids)) * b) by lia.
        case_decide; [|done]. destruct ids; [simpl in *; lia|done].
      * cbn [chunk_writes]. rewrite Hev. unfold add_events. simpl. by rewrite <- app_assoc.
    + destruct Hv as [V1 V2 V3 V4], Hv2 as [W1 W2 W3 W4]. simpl in *. split; [congruence|auto|congruence..].
    + simpl in Hx2. by etrans.
    + intros _. destruct ids as [|r ids].
      * cbn [length]. rewrite Z.add_0_r. destruct Hx2 as (_ & ? & _). simpl in *. lia.
      * replace (pos + j + (Z.of_nat (S (length (r :: ids))) - 1) * b) with (pos + (j + b) + (Z.of_nat (length (r :: ids)) - 1) * b) by lia.
        by apply Hin2.
Qed.

Lemma write_loop_ok fuel j s :
  (0 < WRITE_DEG)%nat → fs_inv (hk_fs s) → can_write (superblock (hk_fs s)) j → 0 ≤ j < len →
  len - j ≤ (Z.of_nat fuel - 1 - Z.of_nat polls) * b →
  ∃ ids last evs fs', write_loop yield core WRITE_DEG fuel hookfd len pos buf b j s =
      Done ((), add_events evs (hset_hk_fs fs' s)) ∧
    requests evs = chunk_writes (superblock fs') j (ids ++ [last]) ∧ awaited evs = ids ∧
    len ≤ j + Z.of_nat (length ids + 1) * b < len + b ∧ fs_inv fs' ∧ same_volatile (hk_fs s) fs' ∧
    extends (file (superblock (hk_fs s)) hookfd) (file (superblock fs') hookfd) ∧
    (pos + j + Z.of_nat (length ids) * b) / MYFS_BLOCK_SIZE < n_block (file (superblock fs') hookfd).
Proof using Hb Hlen GeometryOk0 yield_log device_responds.
  intros HW. revert j s. induction fuel as [|fuel IH]; intros j s Hs Hcw Hj Hf; [nia|]. cbn [write_loop].
  rewrite (proj2 (Z.ltb_lt _ _)) by lia.
  destruct (write_batch_ok WRITE_DEG j [] s Hs Hcw Hj) as (ids & fs1 & E & Hne & Hub & Hs1 & Hcw1 & Hv1 & Hx1 & Hin1).
  specialize (Hne ltac:(lia)). erewrite C_bind_Done by exact E. cbn beta iota. rewrite app_nil_l.
  assert (0 < Z.of_nat (length ids)) as Hpos by (destruct ids; [done|simpl; lia]).
  set (s1 := add_events _ _). destruct (await_all_run fuel (counted j ids) s1) as (e1 & E1 & Q1 & W1); [nia|].
  rewrite (C_bind_Done _ _ _ _ _ E1).
  destruct (chunk_writes_requests (superblock fs1) j ids) as [R1 A1]. unfold counted in W1.
  case_decide as Hdone.
  - destruct fuel as [|fuel]; [nia|]. cbn [write_loop]. rewrite (proj2 (Z.ltb_ge _ _)) by lia.
    destruct ids as [|last ids _] using rev_ind; [done|]. rewrite removelast_last in W1. rewrite length_app in *. cbn [length] in *.
    subst s1. rewrite add_events_add. eexists ids, last, _, fs1. split; [done|].
    rewrite requests_app, awaited_app, Q1, W1, R1, A1, app_nil_r. specialize (Hin1 ltac:(by destruct ids)).
    replace (Z.of_nat (length ids + 1) - 1) with (Z.of_nat (length ids)) in Hin1 by lia.
    split_and!; first [done|lia].
  - set (s2 := add_events e1 s1).
    destruct (IH (j + Z.of_nat (length ids) * b) s2) as (ids' & last & evs & fs2 & E2 & R2 & A2 & Hk2 & Hs2 & Hv2 & Hx2 & Hin2);
      [done|done|lia|nia|].
    exists (ids ++ ids'), last. rewrite E2. subst s1 s2.
    exists ((chunk_writes (superblock fs1) j ids ++ e1) ++ evs), fs2.
    simpl in *. split; [unfold add_events; simpl; by rewrite <- !app_assoc|].
    rewrite !requests_app, !awaited_app, Q1, W1, R1, A1, app_nil_r, R2, A2, length_app.
    destruct Hcw as (_ & _ & Hp & _).
    split_and!; try lia; try done.
    + rewrite <- (app_assoc ids), (chunk_writes_app _ _ ids). f_equal. symmetry. apply chunk_writes_ext; [done|lia|done].
    + destruct Hv1 as [V1 V2 V3 V4], Hv2 as [X1 X2 X3 X4]. simpl in *. split; [congruence|auto|congruence..].
    + by etrans.
    + replace (pos + j + Z.of_nat (length ids + length ids') * b)
        with (pos + (j + Z.of_nat (length ids) * b) + Z.of_nat (length ids') * b) by lia. done.
Qed.
End write.
End chunks.

(** ** Requests and stripes *)


Section impl.
Context `{G : Geometry, !GeometryOk G} `{T : Device}.
Context (yield : log_dev → log_dev) (core : Z) (READ_DEG WRITE_DEG : nat).
Implicit Types (s : hook log_dev).

(** A file that is open, not unlinked, with room in its reference count. *)
Definition open_file (f : fs) (hookfd : Z) : Prop :=
  fs_inv f ∧ named_slot f hookfd ∧ flags (myfs_file_states f hookfd) = MYFS_FILE_OPENED ∧
  0 ≤ ref_count (myfs_file_states f hookfd) < 2 ^ 16 - 1.

Definition with_ref (hookfd : Z) (f : fs) : fs :=
  set_state hookfd (FileState (flags (myfs_file_states f hookfd)) (ref_count (myfs_file_states f hookfd) + 1)) f.

Lemma increment_ref_run f hookfd :
  open_file f hookfd → myfs_increment_ref hookfd f = Done (0, with_ref hookfd f).
Proof.
  intros (_ & [Hfd _] & Hfl & Hrc). unfold myfs_increment_ref. fs_run. rewrite Hfl. simpl. fs_run.
  unfold with_ref. rewrite u16_small by lia. by rewrite Hfl.
Qed.

Lemma decrement_ref_run f g hookfd :
  open_file f hookfd → myfs_file_states g = myfs_file_states (with_ref hookfd f) →
  myfs_decrement_ref hookfd g = Done ((), set_state hookfd (myfs_file_states f hookfd) g).
Proof.
  intros (_ & [Hfd _] & Hfl & Hrc) Hg. unfold myfs_decrement_ref. fs_run. rewrite Hg. simpl.
  rewrite !fn_lookup_insert. simpl. rewrite (proj2 (Z.eqb_neq _ _)) by lia. simpl.
  rewrite Z.add_simpl_r, u16_small by lia. by destruct (myfs_file_states f hookfd).
Qed.


Lemma chunk_size_cases len pos :
  0 ≤ len → 0 ≤ pos →
  (chunk_size len pos = 512 ∨ chunk_size len pos = BLKSZ ∧ len mod BLKSZ = 0 ∧ pos mod BLKSZ = 0).
Proof.
  intros. unfold chunk_size. rewrite !Z.rem_mod_nonneg by done.
  destruct (Z.eqb_spec (len mod BLKSZ) 0), (Z.eqb_spec (pos mod BLKSZ) 0); simpl; auto.
Qed.

(** Every chunk of a 512-aligned transfer stays in its page. *)
Lemma chunk_in_page len pos i :
  0 < len → 0 ≤ pos → pos mod 512 = 0 → 0 ≤ i →
  (pos + i * chunk_size len pos) mod 512 = 0 ∧
  (pos + i * chunk_size len pos) mod BLKSZ + chunk_size len pos ≤ BLKSZ.
Proof.
  intros Hl Hp Ha Hi. destruct (chunk_size_cases len pos) as [E|(E & _ & Hpg)]; [lia..| |]; rewrite E.
  - rewrite Z_mod_plus_full. split; [done|]. change BLKSZ with 4096.
    set (o := pos + i * 512). assert (o mod 512 = 0) as Ho by (subst o; by rewrite Z_mod_plus_full).
    pose proof (Z.mod_pos_bound o 4096 ltac:(lia)).
    assert ((o mod 4096) mod 512 = 0) as Ho'.
    { rewrite (Z.mod_eq o 4096) by lia. replace (o - 4096 * (o / 4096)) with (o + - (8 * (o / 4096)) * 512) by lia.
      by rewrite Z_mod_plus_full. }
    pose proof (Z_div_mod_eq_full (o mod 4096) 512). lia.
  - split; [change BLKSZ with (8 * 512); rewrite Z.mul_assoc; by rewrite Z_mod_plus_full|].
    rewrite Z_mod_plus_full, Hpg. lia.
Qed.

Lemma aligned_chunks len pos : 0 < len → 0 ≤ pos → 512 ≤ chunk_size len pos ≤ BLKSZ.
Proof. intros. destruct (chunk_size_cases len pos) as [->|(-> & _)]; done || lia. Qed.



(** a write is cut into requests that tile it, on a file that grows densely;
    all of them but the last are awaited before [write_impl] returns.  (The
    [break] that ends the last batch leaves before the counter of requests to
    await is incremented.) *)
Theorem write_impl_last_not_awaited polls fuel hookfd len pos buf s :
  (∀ d, events (yield d) = events d) → responsive polls →
  open_file (hk_fs s) hookfd → (0 < WRITE_DEG)%nat →
  0 ≤ pos → pos mod 512 = 0 → 0 < len < 2 ^ 30 →
  can_write hookfd len pos (superblock (hk_fs s)) 0 → len / 512 + 3 + Z.of_nat polls ≤ Z.of_nat fuel →
  let b := chunk_size len pos in
  ∃ ids last evs s', write_impl yield core WRITE_DEG fuel hookfd len pos buf s = Done ((), s') ∧
    events (hk_dev s') = events (hk_dev s) ++ evs ∧
    requests evs = chunk_writes core hookfd len pos buf b (superblock (hk_fs s')) 0 (ids ++ [last]) ∧
    awaited evs = ids ∧
    len ≤ Z.of_nat (length ids + 1) * b < len + b ∧ open_file (hk_fs s') hookfd ∧
    pos + len ≤ n_block (file (superblock (hk_fs s')) hookfd) * MYFS_BLOCK_SIZE.
Proof.
  intros Hy Hresp Hof HW Hp Ha Hl Hcw Hfuel b. pose proof Hof as (Hf & Hns & Hfl & Hrc). pose proof Hns as [Hfd Hn].
  pose proof (aligned_chunks len pos ltac:(lia) Hp) as Hcs. change (chunk_size len pos) with b in Hcs.
  change BLKSZ with 4096 in Hcs. assert (0 ≤ len / 512) by (apply Z.div_pos; lia).
  assert (0 < b ≤ MYFS_BLOCK_SIZE) as Hb by (unfold MYFS_BLOCK_SIZE; lia).
  assert (len + b < 2 ^ 31) as Hlb by lia.
  unfold write_impl. rewrite Z.rem_mod_nonneg, Ha by lia. rewrite (C_bind_Done _ _ _ () s) by done.
  set (s1 := hset_hk_fs (with_ref hookfd (hk_fs s)) s).
  rewrite (C_bind_Done _ _ _ 0 s1) by (unfold on_fs, zoom; by rewrite (increment_ref_run _ _ Hof)).
  destruct (write_loop_ok yield core WRITE_DEG polls Hy Hresp hookfd len pos buf b Hb Hlb fuel 0 s1)
    as (ids & last & evs & fs' & E & HRq & HAw & Hk & Hs' & Hv & Hx & Hin); [done|done|done|lia| |].
  { assert (len < (len / 512 + 1) * 512) by (pose proof (Z_div_mod_eq_full len 512); pose proof (Z.mod_pos_bound len 512); lia). nia. }
  erewrite C_bind_Done by exact E. exists ids, last, evs. eexists. split.
  { unfold on_fs, zoom. rewrite (decrement_ref_run (hk_fs s) _ hookfd Hof); [done|]. simpl. apply Hv. }
  destruct Hx as (Hxn & Hxl & _). 
  split_and!; [done|exact HRq|exact HAw|lia|lia| |].
  - unfold open_file. simpl. rewrite fn_lookup_insert. split_and!; [exact Hs'|split; [done|]|done|lia|lia].
    simpl. by rewrite Hxn.
  - change (superblock _) with (superblock fs').
    destruct (chunk_in_page len pos (Z.of_nat (length ids))) as [_ Hpg]; [lia..|]. change (chunk_size len pos) with b in Hpg.
    rewrite Z.add_0_r in Hin.
    set (o := pos + Z.of_nat (length ids) * b) in *. change BLKSZ with 4096 in Hpg.
    assert (o / 4096 * 4096 + 4096 ≤ n_block (file (superblock fs') hookfd) * MYFS_BLOCK_SIZE); [|].
    { pose proof (Z.mul_succ_div_gt o MYFS_BLOCK_SIZE block_size_pos).
      assert (o / 4096 < n_block (file (superblock fs') hookfd) * 512); [|unfold MYFS_BLOCK_SIZE in *; lia].
      apply Z.div_lt_upper_bound; [lia|]. unfold MYFS_BLOCK_SIZE in *. lia. }
    pose proof (Z_div_mod_eq_full o 4096). lia.
Qed.
End impl.

Section calls.
Context `{G : Geometry, !GeometryOk G} `{T : Device}.
Context (sys : list (list Z) → list Z → Z) (clock : nat → timespec) (word_at : nat → Z → Z).
Context (str_at : Z → string) (timespec_at : Z → timespec) (yield : log_dev → log_dev).
Context (core : Z) (READ_DEG WRITE_DEG : nat).
Implicit Types (s : hook log_dev).

(** calls that are not about a hooked file go to the kernel as they are and
    touch nothing else: every call of a thread that is not user-level, and the
    reads, writes and closes of descriptors that are not hooked. *)
Theorem unhooked_calls_pass_through fuel zts a1 a2 a3 a4 a5 a6 a7 is_ult s :
  (is_ult = true →
     (a1 = SYS_read ∨ a1 = SYS_write ∨ a1 = SYS_close ∨ a1 = 17 ∨ a1 = 18) ∧
     0 ≤ a2 < MAX_HOOKFD ∧ hookfds s a2 < 0) →
  let args := [a1; a2; a3; a4; a5; a6; a7] in
  hook_function sys clock word_at str_at timespec_at yield is_ult core READ_DEG WRITE_DEG
    fuel zts a1 a2 a3 a4 a5 a6 a7 s = Done (sys (calls s) args, hset_calls (calls s ++ [args]) s).
Proof.
  intros Hcond args. unfold hook_function. destruct is_ult; [|done].
  destruct Hcond as (Ha1 & Ha2 & Hfd); [done|]. unfold MAX_HOOKFD in *.
  assert (get_hookfd a2 s = Done (hookfds s a2, s)) as Hget.
  { unfold get_hookfd, mbind, C_bind. rewrite check_index_run by done. done. }
  assert (Z.leb 0 (hookfds s a2) = false) as Hneg by (apply Z.leb_gt; lia).
  destruct Ha1 as [->|[->|[->|[->| ->]]]]; simpl;
    unfold hook_read, hook_write, hook_close, hook_pread64, hook_pwrite64;
    rewrite ?(i32_small a2) by lia; rewrite (C_bind_Done _ _ _ _ _ Hget), Hneg; done.
Qed.

(** a hooked [openat] that the kernel refuses is undefined behaviour: the
    negative result is below the table size, so the file is created and the
    tables are written at a negative index. *)
Theorem openat_failed_is_undefined a1 a2 a3 a4 a5 a6 a7 s :
  i32 (sys (calls s) [a1; a2; a3; a4; a5; a6; a7]) < 0 →
  is_hooked_filename s (str_at a3) = true → fs_inv (hk_fs s) → legal (hk_fs s) (OpOpen (str_at a3)) →
  hook_openat sys str_at a1 a2 a3 a4 a5 a6 a7 s = Fault UB.
Proof.
  intros Hneg Hhook Hf (_ & Hlen & Hex).
  unfold hook_openat, next_sys_call. set (args := [a1; a2; a3; a4; a5; a6; a7]) in *.
  set (s1 := hset_calls (calls s ++ [args]) s).
  rewrite (C_bind_Done _ _ _ (sys (calls s) args) s1) by done. set (r := i32 _) in *.
  rewrite (C_bind_Done _ _ _ s1 s1) by done. change (is_hooked_filename s1 (str_at a3)) with (is_hooked_filename s (str_at a3)).
  rewrite Hhook, (proj2 (Z.ltb_lt _ _)) by (unfold MAX_HOOKFD; lia).
  destruct (myfs_open_ok (str_at a3) (hk_fs s) Hf Hlen Hex) as (i & f' & E & _).
  rewrite !C_bind_assoc, (C_bind_Done _ _ _ i (hset_hk_fs f' s1)) by (unfold on_fs, zoom; simpl; by rewrite E).
  unfold mbind, C_bind, check_index, in_range. rewrite (proj2 (Z.leb_gt _ _)) by lia. done.
Qed.

(** opening a hooked file binds the kernel's descriptor to a slot of the file
    system with position 0, and closing it frees the descriptor. *)
Theorem open_close_descriptor a2 a3 a4 a5 a6 a7 fd s :
  sys (calls s) [SYS_openat; a2; a3; a4; a5; a6; a7] = fd → 0 ≤ fd < MAX_HOOKFD →
  is_hooked_filename s (str_at a3) = true → fs_inv (hk_fs s) → legal (hk_fs s) (OpOpen (str_at a3)) →
  ∃ h s1 r s2,
    hook_openat sys str_at SYS_openat a2 a3 a4 a5 a6 a7 s = Done (fd, s1) ∧
    0 ≤ h < MYFS_MAX_FILES ∧ hookfds s1 fd = h ∧ cur_pos s1 fd = 0 ∧
    name_matches (str_at a3) (name (file (superblock (hk_fs s1)) h)) = true ∧
    hook_close sys SYS_close fd 0 0 0 0 0 s1 = Done (r, s2) ∧
    hookfds s2 fd = NOT_USED_FD ∧ superblock (hk_fs s2) = superblock (hk_fs s1) ∧
    ∀ fd', fd' ≠ fd → hookfds s2 fd' = hookfds s fd'.
Proof.
  intros Esys Hfd Hhook Hf (_ & Hlen & Hex). unfold MAX_HOOKFD in *.
  destruct (myfs_open_ok (str_at a3) (hk_fs s) Hf Hlen Hex) as (h & f' & E & Hh & Hf' & _ & Hr).
  assert (name_matches (str_at a3) (name (file (superblock f') h)) = true) as Hnm.
  { destruct Hr as [(Hm & _ & ->)|(_ & _ & _ & ->)]; [done|]. simpl. rewrite fn_lookup_insert. apply name_matches_refl. }
  set (args := [SYS_openat; a2; a3; a4; a5; a6; a7]) in *.
  set (s1 := hset_calls (calls s ++ [args]) s).
  set (s2 := hset_cur_pos (<[fd := 0]> (cur_pos s)) (hset_hookfds (<[fd := h]> (hookfds s)) (hset_hk_fs f' s1))).
  assert (hook_openat sys str_at SYS_openat a2 a3 a4 a5 a6 a7 s = Done (fd, s2)) as Eo.
  { unfold hook_openat, next_sys_call. rewrite (C_bind_Done _ _ _ fd s1) by (rewrite <- Esys; done).
    rewrite i32_small by lia. rewrite (C_bind_Done _ _ _ s1 s1) by done.
    change (is_hooked_filename s1 (str_at a3)) with (is_hooked_filename s (str_at a3)).
    rewrite Hhook, (proj2 (Z.ltb_lt _ _)) by (unfold MAX_HOOKFD; lia).
    rewrite !C_bind_assoc, (C_bind_Done _ _ _ h (hset_hk_fs f' s1)) by (unfold on_fs, zoom; simpl; by rewrite E).
    unfold mbind, C_bind. rewrite check_index_run by done. done. }
  exists h, s2. 
  assert (hook_close sys SYS_close fd 0 0 0 0 0 s2 = Done (sys (calls s2) [SYS_close; fd; 0; 0; 0; 0; 0],
    let s3 := hset_hk_fs (after (myfs_close h) f') s2 in
    let s4 := hset_hookfds (<[fd := NOT_USED_FD]> (hookfds s2)) s3 in
    hset_calls (calls s2 ++ [[SYS_close; fd; 0; 0; 0; 0; 0]]) s4)) as Ec.
  { unfold hook_close. rewrite i32_small by lia.
    assert (get_hookfd fd s2 = Done (h, s2)) as Eg.
    { unfold get_hookfd, mbind, C_bind. rewrite check_index_run by done. unfold gets. simpl. by rewrite fn_lookup_insert. }
    rewrite (C_bind_Done _ _ _ _ _ Eg). rewrite (proj2 (Z.leb_le _ _)) by lia.
    rewrite !C_bind_assoc. unfold on_fs, zoom, after, myfs_close, myfs_sync. unfold mbind at 1, C_bind at 1.
    fs_run. done. }
  eexists _, _. split; [exact Eo|]. simpl. rewrite !fn_lookup_insert. split_and!; try exact Ec; try done; try lia.
  - simpl. by rewrite fn_lookup_insert.
  - simpl. unfold after, myfs_close, myfs_sync. by fs_run.
  - intros fd' Hne. simpl. by rewrite !fn_lookup_insert_ne.
Qed.

(** a read at or past the end of the file asks nothing of the device and
    still reports the full count. *)
Theorem pread_past_eof_reports_count fuel hookfd a1 fd buf count pos a6 a7 s :
  open_file (hk_fs s) hookfd → 0 ≤ fd < MAX_HOOKFD → hookfds s fd = hookfd →
  0 < count < 2 ^ 30 → pos mod 512 = 0 → (0 < fuel)%nat →
  n_block (file (superblock (hk_fs s)) hookfd) * MYFS_BLOCK_SIZE ≤ pos < 2 ^ 62 →
  ∃ s', hook_pread64 sys yield core READ_DEG fuel a1 fd buf count pos a6 a7 s = Done (count, s') ∧
        hk_dev s' = hk_dev s ∧ hk_fs s' = hk_fs s.
Proof.
  intros Hof Hfd Hh Hc Ha Hf Hpos. unfold MAX_HOOKFD in *. pose proof Hof as (Hfs & [Hhfd Hn] & _ & _).
  destruct (inv_files _ (proj1 Hfs) hookfd Hhfd) as [Hlen _]. rewrite file_len_named in Hlen by done.
  pose proof geom_per_file as Hg. set (sz := n_block (file (superblock (hk_fs s)) hookfd) * MYFS_BLOCK_SIZE) in *.
  assert (0 ≤ sz < 2 ^ 52) as Hsz by (subst sz; unfold MYFS_BLOCK_SIZE; lia).
  unfold hook_pread64. rewrite i32_small, u64_small, i64_small by lia.
  assert (get_hookfd fd s = Done (hookfd, s)) as Eg.
  { unfold get_hookfd, mbind, C_bind. rewrite check_index_run by done. unfold gets. by rewrite Hh. }
  rewrite (C_bind_Done _ _ _ _ _ Eg), (proj2 (Z.leb_le _ _)) by lia.
  set (s1 := hset_hk_fs (with_ref hookfd (hk_fs s)) s).
  assert (read_impl yield core READ_DEG fuel hookfd count pos buf s = Done ((), s)) as Er.
  { unfold read_impl.
    rewrite (C_bind_Done _ _ _ 0 s1) by (unfold on_fs, zoom; by rewrite (increment_ref_run _ _ Hof)).
    rewrite (C_bind_Done _ _ _ sz s1).
    2:{ unfold on_fs, zoom, myfs_get_size. fs_run. by rewrite u64_small by (subst sz; lia). }
    rewrite (u64_small (pos + count)), (proj2 (Z.ltb_lt _ _)), (i64_small (sz - pos)) by lia.
    rewrite (Z.rem_mod_nonneg pos 512), Ha by lia. rewrite (C_bind_Done _ _ _ () s1) by done.
    rewrite (C_bind_Done _ _ _ () s1).
    - unfold on_fs, zoom. rewrite (decrement_ref_run (hk_fs s) _ hookfd Hof) by done.
      subst s1. unfold with_ref, set_state. simpl. rewrite fn_insert_insert, fn_insert_id.
      by destruct s as [[] ?].
    - destruct fuel as [|fuel]; [lia|]. cbn [read_loop]. by rewrite (proj2 (Z.ltb_ge _ _)) by lia. }
  exists s. by rewrite (C_bind_Done _ _ _ _ _ Er).
Qed.

(** Looking at a clock [n + 1] times. *)
Lemma sleep_until_run n fuel alarm s :
  (∀ i, (i < n)%nat → diff_nsec (clock (tick s + i)) alarm ≤ 0) → 0 < diff_nsec (clock (tick s + n)) alarm →
  (∀ d, yield d = d) → (n < fuel)%nat →
  sleep_until clock yield fuel alarm s = Done (0, hset_tick (tick s + n + 1) s).
Proof.
  revert fuel s. induction n as [|n IH]; intros [|fuel] s Hlo Hhi Hy Hf; try lia; cbn [sleep_until].
  - rewrite (C_bind_Done _ _ _ (clock (tick s)) (hset_tick (tick s + 1)%nat s)) by done.
    rewrite Nat.add_0_r in Hhi. rewrite (proj2 (Z.ltb_lt _ _)) by done. by rewrite Nat.add_0_r.
  - rewrite (C_bind_Done _ _ _ (clock (tick s)) (hset_tick (tick s + 1)%nat s)) by done.
    specialize (Hlo 0%nat ltac:(lia)) as H0. rewrite Nat.add_0_r in H0. rewrite (proj2 (Z.ltb_ge _ _)) by done.
    rewrite (C_bind_Done _ _ _ () (hset_tick (tick s + 1)%nat s)).
    2:{ unfold ult_yield, on_dev, zoom, modify. simpl. by rewrite Hy. }
    rewrite IH.
    + simpl. do 2 f_equal. unfold hset_tick. simpl. f_equal. lia.
    + intros i Hi. simpl. replace (tick s + 1 + i)%nat with (tick s + S i)%nat by lia. apply Hlo. lia.
    + simpl. by replace (tick s + 1 + n)%nat with (tick s + S n)%nat by lia.
    + done.
    + lia.
Qed.

(** [clock_nanosleep] on a user-level thread returns 0 at its first look at
    the clock that is past the start plus the requested time, and not before. *)
Theorem nanosleep_waits_until_deadline n fuel req s :
  let alarm := ts_add (clock (tick s)) req in
  (∀ i, (i < n)%nat → diff_nsec (clock (tick s + 1 + i)) alarm ≤ 0) →
  0 < diff_nsec (clock (tick s + 1 + n)) alarm → (∀ d, yield d = d) → (n < fuel)%nat →
  hook_clock_nanosleep clock yield fuel CLOCK_REALTIME 0 req s = Done (0, hset_tick (tick s + n + 2) s).
Proof.
  intros alarm Hlo Hhi Hy Hf. unfold hook_clock_nanosleep.
  rewrite !(C_bind_Done _ _ s () s) by done.
  rewrite (C_bind_Done _ _ _ (clock (tick s)) (hset_tick (tick s + 1)%nat s)) by done.
  rewrite (sleep_until_run n) by done. do 2 f_equal. unfold hset_tick. simpl. f_equal. lia.
Qed.

(** a futex wait on a user-level thread returns 0 at its first look at the
    word that differs from the expected value. *)
Theorem futex_wait_returns_on_change n fuel uaddr val a5 a6 a7 s :
  a6 ≠ 0xdeadcafe → 0 ≤ val < 2 ^ 32 →
  (∀ i, (i < n)%nat → word_at (tick s + i) uaddr = val) → word_at (tick s + n) uaddr ≠ val →
  (∀ d, yield d = d) → (n < fuel)%nat →
  hook_futex sys word_at yield fuel 202 uaddr 128 val a5 a6 a7 s = Done (0, hset_tick (tick s + n + 1) s).
Proof.
  intros Ha6 Hval Hlo Hhi Hy Hf. unfold hook_futex. rewrite (proj2 (Z.eqb_neq _ _)), u32_small by done.
  change (_ && _)%bool with true. cbn iota.
  revert fuel s Hlo Hhi Hf. induction n as [|n IH]; intros [|fuel] s Hlo Hhi Hf; try lia; cbn [futex_wait].
  - rewrite (C_bind_Done _ _ _ (word_at (tick s) uaddr) (hset_tick (tick s + 1)%nat s)) by done.
    rewrite Nat.add_0_r in Hhi. rewrite (proj2 (Z.eqb_neq _ _)) by done. by rewrite Nat.add_0_r.
  - rewrite (C_bind_Done _ _ _ (word_at (tick s) uaddr) (hset_tick (tick s + 1)%nat s)) by done.
    specialize (Hlo 0%nat ltac:(lia)) as H0. rewrite Nat.add_0_r in H0. rewrite H0, Z.eqb_refl. cbn [negb].
    rewrite (C_bind_Done _ _ _ () (hset_tick (tick s + 1)%nat s)).
    2:{ unfold ult_yield, on_dev, zoom, modify. simpl. by rewrite Hy. }
    rewrite IH.
    + simpl. do 2 f_equal. unfold hset_tick. simpl. f_equal. lia.
    + intros i Hi. simpl. replace (tick s + 1 + i)%nat with (tick s + S i)%nat by lia. apply Hlo. lia.
    + simpl. by replace (tick s + 1 + n)%nat with (tick s + S n)%nat by lia.
    + lia.
Qed.
End calls.

(** ** The list of hooked names *)

Fixpoint no_colon (s : string) : Prop :=
  match s with "" => True | String c s => c ≠ colon ∧ no_colon s end.

Lemma parse_loop_tail s rest start i acc :
  no_colon rest → parse_loop s rest start i acc = (acc, start, (i + String.length rest)%nat).
Proof.
  revert i. induction rest as [|c rest IH]; intros i Hn; simpl.
  { by rewrite Nat.add_0_r. }
  destruct Hn as [Hc Hn]. rewrite (proj2 (Ascii.eqb_neq _ _)) by done. rewrite IH by done. f_equal. lia.
Qed.

Lemma parse_loop_name s a rest start i acc :
  no_colon a →
  parse_loop s (a +:+ String colon rest) start i acc =
  parse_loop s rest (i + String.length a + 1) (i + String.length a + 1)
    (acc ++ [strncpy (String.substring start (String.length s - start) s) (i + String.length a)]).
Proof.
  revert i. induction a as [|c a IH]; intros i Hn; simpl.
  { by rewrite Nat.add_0_r. }
  destruct Hn as [Hc Hn]. rewrite (proj2 (Ascii.eqb_neq _ _)) by done.
  change (String.append a (String colon rest)) with (a +:+ String colon rest).
  rewrite IH by done.
  by replace (i + 1 + String.length a)%nat with (i + S (String.length a))%nat by lia.
Qed.

Lemma substring_whole s n : (String.length s ≤ n)%nat → String.substring 0 n s = s.
Proof. revert n. induction s as [|c s IH]; intros [|n] Hn; simpl in *; try done; [lia|]. rewrite IH by lia. done. Qed.
Lemma substring_front a x : String.substring 0 (String.length a) (a +:+ x) = a.
Proof. induction a as [|c a IH]; simpl; [by destruct x|]. f_equal. exact IH. Qed.
Lemma substring_skip a c x n : String.substring (String.length a + 1) n (a +:+ String c x) = String.substring 0 n x.
Proof. induction a as [|d a IH]; simpl; [done|]. exact IH. Qed.
Lemma length_append a b : String.length (a +:+ b) = (String.length a + String.length b)%nat.
Proof. induction a as [|c a IH]; simpl; [done|]. f_equal. exact IH. Qed.

(** one name, or two separated by a colon, are parsed as they are. *)
Theorem parse_hooked_filenames_ok a b :
  no_colon a → no_colon b →
  parse_hooked_filenames a = [a] ∧ parse_hooked_filenames (a +:+ String colon b) = [a; b].
Proof.
  intros Ha Hb. unfold parse_hooked_filenames, strncpy. split.
  - rewrite parse_loop_tail by done. simpl. rewrite !Nat.sub_0_r, !(substring_whole a) by lia. done.
  - rewrite parse_loop_name by done. rewrite parse_loop_tail by done. simpl. unfold strncpy. rewrite Nat.sub_0_r.
    rewrite (substring_whole (a +:+ String colon b)) by done. rewrite substring_front, substring_skip, length_append. simpl.
    by rewrite !(substring_whole b) by lia.
Qed.

(** The second of three names also gets the text after it: the copy is as long
    as the position of its colon, not as the name. *)
Example parse_three_names : parse_hooked_filenames "a:b:c" = ["a"; "b:c"; "c"].
Proof. reflexivity. Qed.

(** ** Demonstrations *)

Section demo.
Local Existing Instance small_geometry.

(** Requests are numbered; a poll is answered when the request was polled twice before. *)
Local Instance slow_device : Device := {|
  new_id evs := Z.of_nat (length (requests evs));
  answer evs rid := if Nat.leb 2 (length (base.filter (λ e, e = EvCheck rid 0) evs)) then 1 else 0
|}.

(** Slot 0 is the open file "a" with one 2 MiB block. *)
Definition demo_hook : hook log_dev :=
  Hook demo_written (LogDev []) (λ fd, if Z.eqb fd 5 then 0 else -1) (λ _, 0) (Some ["a"; "b"]) None [] 0 [] [].

Lemma demo_open_file : open_file (hk_fs demo_hook) 0.
Proof.
  split_and!; [apply demo_written_inv|split; [done|by vm_compute]|by vm_compute|by vm_compute|by vm_compute].
Qed.

Lemma slow_device_responds : responsive 3.
Proof.
  intros evs rid. exists 2%nat. split; [lia|]. simpl. rewrite filter_app, length_app. simpl.
  rewrite !filter_cons_True by done. simpl. by replace (_ + 2)%nat with (S (S (length (base.filter (λ e, e = EvCheck rid 0) evs)))) by lia.
Qed.


Lemma write_impl_last_not_awaited_witness :
  ∃ ids last evs s', write_impl (λ d, d) 0 8 20 0 4096 0 7000 demo_hook = Done ((), s') ∧
    events (hk_dev s') = evs ∧ requests evs = chunk_writes 0 0 4096 0 7000 4096 (superblock (hk_fs s')) 0 (ids ++ [last]) ∧ awaited evs = ids.
Proof.
  destruct (write_impl_last_not_awaited (λ d, d) 0 8 3 20 0 4096 0 7000 demo_hook) as (ids & last & evs & s' & E & Ev & R & A & _).
  - reflexivity.
  - apply slow_device_responds.
  - apply demo_open_file.
  - lia.
  - done.
  - done.
  - done.
  - split_and!; by vm_compute.
  - by vm_compute.
  - exists ids, last, evs, s'. done.
Defined.

Lemma unhooked_calls_pass_through_witness :
  hook_function (λ _ _, 42) (λ _, Timespec 0 0) (λ _ _, 0) (λ _, "x") (λ _, Timespec 0 0) (λ d, d) true 0 256 8
    20 0 SYS_read 7 0 10 0 0 0 demo_hook = Done (42, hset_calls [[SYS_read; 7; 0; 10; 0; 0; 0]] demo_hook).
Proof.
  apply (unhooked_calls_pass_through (λ _ _, 42) (λ _, Timespec 0 0) (λ _ _, 0) (λ _, "x") (λ _, Timespec 0 0) (λ d, d)
    0 256 8 20 0 SYS_read 7 0 10 0 0 0 true demo_hook). intros _. split_and!; [by left|done..].
Defined.

Lemma openat_failed_is_undefined_witness :
  hook_openat (λ _ _, -2) (λ _, "b") SYS_openat 0 0 0 0 0 0 demo_hook = Fault UB.
Proof.
  apply (openat_failed_is_undefined (λ _ _, -2) (λ _, "b") SYS_openat 0 0 0 0 0 0 demo_hook);
    [done|done|apply demo_written_inv|apply demo_legal_3].
Defined.

Lemma open_close_descriptor_witness :
  ∃ h s1 r s2, hook_openat (λ _ _, 9) (λ _, "b") SYS_openat 0 0 0 0 0 0 demo_hook = Done (9, s1) ∧
    hookfds s1 9 = h ∧ hook_close (λ _ _, 9) SYS_close 9 0 0 0 0 0 s1 = Done (r, s2) ∧ hookfds s2 9 = NOT_USED_FD.
Proof.
  destruct (open_close_descriptor (λ _ _, 9) (λ _, "b") 0 0 0 0 0 0 9 demo_hook)
    as (h & s1 & r & s2 & E1 & _ & E2 & _ & _ & E3 & E4 & _);
    [done|done|done|apply demo_written_inv|apply demo_legal_3|].
  exists h, s1, r, s2. done.
Defined.

Lemma pread_past_eof_reports_count_witness :
  ∃ s', hook_pread64 (λ _ _, 0) (λ d, d) 0 256 20 17 5 7000 100 (4 * MYFS_BLOCK_SIZE) 0 0 demo_hook = Done (100, s') ∧
        hk_dev s' = hk_dev demo_hook ∧ hk_fs s' = hk_fs demo_hook.
Proof.
  apply (pread_past_eof_reports_count (λ _ _, 0) (λ d, d) 0 256 20 0 17 5 7000 100 (4 * MYFS_BLOCK_SIZE) 0 0 demo_hook);
    [apply demo_open_file|done|done|done|done|lia|by vm_compute].
Defined.

Lemma nanosleep_waits_until_deadline_witness :
  hook_clock_nanosleep (λ n, Timespec (Z.of_nat n) 0) (λ d, d) 5 CLOCK_REALTIME 0 (Timespec 1 500000000) demo_hook
  = Done (0, hset_tick 3 demo_hook).
Proof.
  apply (nanosleep_waits_until_deadline (λ n, Timespec (Z.of_nat n) 0) (λ d, d) 1 5 (Timespec 1 500000000) demo_hook);
    [|done|done|lia].
  intros [|i] Hi; [done|lia].
Defined.

Lemma futex_wait_returns_on_change_witness :
  hook_futex (λ _ _, 0) (λ n _, Z.of_nat n) (λ d, d) 5 202 64 128 0 0 0 0 demo_hook = Done (0, hset_tick 2 demo_hook).
Proof.
  apply (futex_wait_returns_on_change (λ _ _, 0) (λ n _, Z.of_nat n) (λ d, d) 1 5 64 0 0 0 0 demo_hook);
    [done|done| |done|done|lia].
  intros [|i] Hi; [done|lia].
Defined.

Lemma parse_hooked_filenames_ok_witness : parse_hooked_filenames "/db/a:/db/b" = ["/db/a"; "/db/b"].
Proof. apply (parse_hooked_filenames_ok "/db/a" "/db/b"); by repeat split. Defined.
End demo.
