(* ===== verification/Abt.v ===== *)
(** * Argobots return codes and spinlocks

    Return codes of the ABT API (argobots/src/include/abt.h.in) and the
    test-and-set spinlock (argobots/src/include/abtd_spinlock.h). *)

From stdpp Require Import base tactics option numbers.
From S2P Require Import Prelude.

Definition ABT_SUCCESS : Z := 0.
Definition ABT_ERR_MEM : Z := 2.
Definition ABT_ERR_INV_POOL_ACCESS : Z := 14.
Definition ABT_ERR_INV_THREAD : Z := 16.
Definition ABT_ERR_INV_KEY : Z := 19.
Definition ABT_ERR_INV_MUTEX : Z := 20.
Definition ABT_ERR_INV_COND : Z := 22.
Definition ABT_ERR_INV_RWLOCK : Z := 23.
Definition ABT_ERR_INV_EVENTUAL : Z := 24.
Definition ABT_ERR_INV_FUTURE : Z := 25.
Definition ABT_ERR_INV_BARRIER : Z := 26.
Definition ABT_ERR_INV_ARG : Z := 53.
Definition ABT_ERR_POOL : Z := 34.
Definition ABT_ERR_MUTEX_LOCKED : Z := 40.
Definition ABT_ERR_COND_TIMEDOUT : Z := 42.
Definition ABT_ERR_MUTEX : Z := 39.
Definition ABT_ERR_COND : Z := 41.
Definition ABT_ERR_SYS : Z := 54.
Definition ABT_ERR_OTHER : Z := 3.
Definition ABT_ERR_UNINITIALIZED : Z := 1.
Definition ABT_ERR_INV_XSTREAM : Z := 4.
Definition ABT_ERR_RWLOCK : Z := 43.
Definition ABT_ERR_EVENTUAL : Z := 44.
Definition ABT_ERR_FUTURE : Z := 45.
Definition ABT_ERR_BARRIER : Z := 46.
Definition ABT_ERR_THREAD : Z := 36.
Definition ABT_ERR_MIGRATION_TARGET : Z := 48.
Definition ABT_ERR_MIGRATION_NA : Z := 49.
Definition ABT_ERR_INV_XSTREAM_RANK : Z := 5.
Definition ABT_ERR_INV_SCHED : Z := 7.
Definition ABT_ERR_INV_SCHED_PREDEF : Z := 9.
Definition ABT_ERR_INV_POOL : Z := 12.
Definition ABT_ERR_INV_POOL_KIND : Z := 13.
Definition ABT_ERR_INV_UNIT : Z := 15.
Definition ABT_ERR_XSTREAM_STATE : Z := 30.
Definition ABT_ERR_SCHED : Z := 32.
Definition ABT_ERR_INV_POOL_USER_DEF : Z := 57.

(** ** Spinlocks

    The state of a lock is its [val] flag. *)

Definition ABTD_spinlock_is_locked : C bool bool := get.
Definition ABTD_spinlock_clear : C bool unit := put false.

(** Returns the old value of the flag: [true] when somebody else holds it. *)
Definition ABTD_spinlock_try_acquire : C bool bool := λ v, Done (v, true).

(** The acquire loop ends with the first successful test-and-set; on a lock
    that is held it does not return until another thread releases it. *)
Definition ABTD_spinlock_acquire : C bool unit := λ v,
  if v then Fault Blocked else Done ((), true).

Definition ABTD_spinlock_release : C bool unit := put false.
