(* ===== verification/Atoi.v ===== *)
(** * Reading integers from text

    argobots/src/util/atoi.c: the four conversions of Argobots, which every
    environment variable goes through.  A C string is the list of its characters
    followed by a terminating 0; reading past the end of the buffer is undefined
    behaviour.  The reference is the usual grammar (blanks, signs, digits) with its
    value in unbounded integers, cut off at the bounds of the type. *)

From stdpp Require Import base tactics list numbers.
From Stdlib Require Import ZArith Lia.
From S2P Require Import Prelude Abt.
Open Scope Z_scope.

Definition INT_MIN : Z := - 2 ^ 31.
Definition INT_MAX : Z := 2 ^ 31 - 1.
Definition UINT32_MAX : Z := 2 ^ 32 - 1.
Definition UINT64_MAX : Z := 2 ^ 64 - 1.

(** ** The code *)

(** [*str == '\n' || *str == '\t' || *str == ' ' || *str == '\r'] *)
Definition is_blank (c : Z) : bool :=
  (c =? 10) || (c =? 9) || (c =? 32) || (c =? 13).

(** ['0' <= *str && *str <= '9'] *)
Definition is_digit (c : Z) : bool := (48 <=? c) && (c <=? 57).

(** What a conversion hands back: an error code, or its out parameters. *)
Abbreviation answer A := (outcome (Z + A)).

(** The loop of [atoi_impl]: [Done (inr (is_signed, val, overflow))]. *)
Fixpoint atoi_loop (str : list Z) (val : Z) (is_signed read_char read_digit : bool)
    : answer (bool * Z * bool) :=
  match str with
  | [] => Fault UB
  | c :: str =>
      if is_blank c && negb read_char then
        atoi_loop str val is_signed read_char read_digit
      else if (c =? 43) && negb read_digit then
        atoi_loop str val is_signed true read_digit
      else if (c =? 45) && negb read_digit then
        atoi_loop str val (negb is_signed) true read_digit
      else if is_digit c then
        if (UINT64_MAX / 10 <? val) || (UINT64_MAX - (c - 48) <? u64 (val * 10))
        then Done (inr (is_signed, UINT64_MAX, true))
        else atoi_loop str (u64 (val * 10 + (c - 48))) is_signed true true
      else if negb read_digit then Done (inl ABT_ERR_INV_ARG)
      else Done (inr (is_signed, val, false))
  end.

Definition atoi_impl (str : list Z) : answer (bool * Z * bool) :=
  atoi_loop str 0 false false false.

(** [ABTI_CHECK_ERROR] after [atoi_impl], then the conversion to the type. *)
Definition with_parsed {A} (str : list Z) (k : bool → Z → bool → A) : answer A :=
  match atoi_impl str with
  | Fault f => Fault f
  | Done (inl e) => Done (inl e)
  | Done (inr (is_signed, val, overflow)) => Done (inr (k is_signed val overflow))
  end.

Definition ABTU_atoi (str : list Z) : answer (Z * bool) :=
  with_parsed str (λ is_signed val overflow,
    if is_signed : bool then
      if - INT_MIN <? val then (INT_MIN, true) else (i32 (- val), overflow)
    else
      if INT_MAX <? val then (INT_MAX, true) else (i32 val, overflow)).

Definition ABTU_atoui32 (str : list Z) : answer (Z * bool) :=
  with_parsed str (λ is_signed val overflow,
    if is_signed : bool then (0, if val =? 0 then overflow else true)
    else if UINT32_MAX <? val then (UINT32_MAX, true) else (u32 val, overflow)).

Definition ABTU_atoui64 (str : list Z) : answer (Z * bool) :=
  with_parsed str (λ is_signed val overflow,
    if is_signed : bool then (0, if val =? 0 then overflow else true)
    else (val, overflow)).

(** The width of [size_t] is a parameter: the code has a branch for either. *)
Definition ABTU_atosz (sizeof_size_t : Z) (str : list Z) : answer (Z * bool) :=
  if sizeof_size_t =? 4 then ABTU_atoui32 str else ABTU_atoui64 str.

(** ** The reference *)

Fixpoint take_while {A} (f : A → bool) (l : list A) : list A :=
  match l with
  | [] => []
  | a :: l => if f a then a :: take_while f l else []
  end.
Fixpoint drop_while {A} (f : A → bool) (l : list A) : list A :=
  match l with
  | [] => []
  | a :: l' => if f a then drop_while f l' else l
  end.

Definition is_sign (c : Z) : bool := (c =? 43) || (c =? 45).

(** The value of digits read after the value [v]. *)
Definition dec_value (v : Z) (ds : list Z) : Z := fold_left (λ v c, v * 10 + (c - 48)) ds v.

(** An odd number of minus signs. *)
Definition negative (neg : bool) (signs : list Z) : bool :=
  fold_left (λ b c, if c =? 45 then negb b else b) signs neg.

Definition signed (neg : bool) (v : Z) : Z := if neg then - v else v.

(** Blanks, then signs, then at least one digit; the rest is ignored. *)
Definition int_of_text (s : list Z) : option Z :=
  let s := drop_while is_blank s in
  let digits := take_while is_digit (drop_while is_sign s) in
  if decide (digits = []) then None
  else Some (signed (negative false (take_while is_sign s)) (dec_value 0 digits)).

(** The value in the range [lo .. hi], and whether it had to be cut off. *)
Definition saturate (lo hi : Z) (z : Z) : Z * bool :=
  (Z.max lo (Z.min hi z), negb ((lo <=? z) && (z <=? hi))).

Definition convert (lo hi : Z) (s : list Z) : answer (Z * bool) :=
  match int_of_text s with
  | None => Done (inl ABT_ERR_INV_ARG)
  | Some z => Done (inr (saturate lo hi z))
  end.

(** The decimal text of an integer, as [printf] writes it. *)
Fixpoint dec_digits (fuel : nat) (n : Z) : list Z :=
  match fuel with
  | O => []
  | S fuel => if n <? 10 then [48 + n] else dec_digits fuel (n / 10) ++ [48 + n mod 10]
  end.
Definition dec_text (z : Z) : list Z :=
  (if z <? 0 then [45] else []) ++ dec_digits (S (Z.to_nat (Z.log2 (Z.abs z)))) (Z.abs z).

(** ** The loop, phase by phase *)

Lemma is_digit_range c : is_digit c = true ↔ 48 ≤ c ≤ 57.
Proof. unfold is_digit. lia. Qed.
Lemma is_digit_blank c : is_digit c = true → is_blank c = false.
Proof. unfold is_digit, is_blank. lia. Qed.
Lemma is_digit_sign c : is_digit c = true → (c =? 43) = false ∧ (c =? 45) = false.
Proof. unfold is_digit. lia. Qed.

Lemma dec_value_mono v ds : 0 ≤ v → Forall (λ c, is_digit c = true) ds → v ≤ dec_value v ds.
Proof.
  intros Hv Hds. revert v Hv. induction Hds as [|c ds Hc _ IH]; intros v Hv; [done|].
  apply is_digit_range in Hc. simpl. etrans; [|apply IH]; lia.
Qed.

Lemma take_while_all {A} (f : A → bool) l : Forall (λ a, f a = true) (take_while f l).
Proof. induction l as [|a l IH]; simpl; [done|]. destruct (f a) eqn:E; eauto. Qed.

(** What is left when the digits are read: the exact value, or the largest one. *)
Definition digits_answer (neg : bool) (v : Z) : bool * Z * bool :=
  if UINT64_MAX <? v then (neg, UINT64_MAX, true) else (neg, v, false).

Lemma digit_overflow v c :
  0 ≤ v ≤ UINT64_MAX → is_digit c = true →
  (UINT64_MAX / 10 <? v) || (UINT64_MAX - (c - 48) <? u64 (v * 10)) =
  (UINT64_MAX <? v * 10 + (c - 48)).
Proof.
  intros Hv Hc%is_digit_range. unfold UINT64_MAX in *.
  change ((2 ^ 64 - 1) / 10) with 1844674407370955161.
  destruct (Z.ltb_spec 1844674407370955161 v) as [H|H]; [cbn [orb]; lia|].
  rewrite u64_small by lia. cbn [orb]. lia.
Qed.

Lemma atoi_loop_digits s rest v neg :
  (0 ∉ s) → 0 ≤ v ≤ UINT64_MAX →
  atoi_loop (s ++ 0 :: rest) v neg true true =
  Done (inr (digits_answer neg (dec_value v (take_while is_digit s)))).
Proof.
  revert v. induction s as [|c s IH]; intros v Hs Hv.
  { simpl. unfold digits_answer. by destruct (Z.ltb_spec UINT64_MAX v); [lia|]. }
  apply not_elem_of_cons in Hs as [Hc0 Hs].
  simpl. rewrite !andb_false_r. destruct (is_digit c) eqn:Hc; simpl.
  - rewrite digit_overflow by done. pose proof (proj1 (is_digit_range c) Hc).
    destruct (Z.ltb_spec UINT64_MAX (v * 10 + (c - 48))) as [Hov|Hov].
    + unfold digits_answer. pose proof (dec_value_mono (v * 10 + (c - 48)) (take_while is_digit s)
        ltac:(lia) (take_while_all _ _)).
      by destruct (Z.ltb_spec UINT64_MAX (dec_value (v * 10 + (c - 48)) (take_while is_digit s)));
        [|lia].
    + unfold UINT64_MAX in *. rewrite u64_small by lia. apply IH; [done|lia].
  - unfold digits_answer. by destruct (Z.ltb_spec UINT64_MAX v); [lia|].
Qed.

(** Without a digit there is no integer; otherwise what [digits_answer] says. *)
Definition parsed (neg : bool) (digits : list Z) : Z + (bool * Z * bool) :=
  if decide (digits = []) then inl ABT_ERR_INV_ARG
  else inr (digits_answer neg (dec_value 0 digits)).

Lemma atoi_loop_first_digit c s rest neg rc :
  (0 ∉ s) → is_digit c = true →
  atoi_loop (c :: s ++ 0 :: rest) 0 neg rc false =
  Done (parsed neg (c :: take_while is_digit s)).
Proof.
  intros Hs Hc. destruct (is_digit_sign c Hc) as [H1 H2].
  cbn [atoi_loop]. rewrite (is_digit_blank c Hc), H1, H2, Hc. cbn [andb].
  rewrite digit_overflow by (done || (unfold UINT64_MAX; lia)).
  apply is_digit_range in Hc.
  destruct (Z.ltb_spec UINT64_MAX (0 * 10 + (c - 48))); [unfold UINT64_MAX in *; lia|].
  rewrite u64_small by lia. rewrite atoi_loop_digits by (done || (unfold UINT64_MAX in *; lia)).
  done.
Qed.

Lemma atoi_loop_signs s rest neg :
  (0 ∉ s) →
  atoi_loop (s ++ 0 :: rest) 0 neg true false =
  Done (parsed (negative neg (take_while is_sign s))
               (take_while is_digit (drop_while is_sign s))).
Proof.
  revert neg. induction s as [|c s IH]; intros neg Hs; [done|].
  apply not_elem_of_cons in Hs as [Hc0 Hs]. cbn [take_while drop_while app].
  destruct (is_sign c) eqn:Hsg.
  - cbn [atoi_loop]. rewrite andb_false_r. unfold is_sign in Hsg. cbn [negative fold_left].
    destruct (c =? 43) eqn:E; cbn [andb negb].
    + replace (c =? 45) with false by lia. by apply IH.
    + cbn [orb] in Hsg. rewrite Hsg. by apply IH.
  - destruct (is_digit c) eqn:Hc; cbn [take_while]; rewrite Hc.
    + by apply atoi_loop_first_digit.
    + unfold is_sign in Hsg. apply orb_false_iff in Hsg as [H1 H2].
      cbn [atoi_loop]. by rewrite andb_false_r, H1, H2, Hc.
Qed.

Lemma atoi_loop_blanks s rest :
  (0 ∉ s) →
  atoi_loop (s ++ 0 :: rest) 0 false false false =
  (let s := drop_while is_blank s in
   Done (parsed (negative false (take_while is_sign s))
                (take_while is_digit (drop_while is_sign s)))).
Proof.
  induction s as [|c s IH]; intros Hs; [done|].
  pose proof Hs as Hs'. apply not_elem_of_cons in Hs' as [Hc0 Hs'].
  cbn [drop_while app]. destruct (is_blank c) eqn:Hb.
  { cbn [atoi_loop]. rewrite Hb. by apply IH. }
  cbn zeta. rewrite <-(atoi_loop_signs (c :: s) rest false Hs). cbn [atoi_loop app].
  by rewrite Hb, andb_false_r.
Qed.

(** The conversion to a type agrees with cutting off the exact value. *)
Lemma with_parsed_convert k lo hi s rest :
  (0 ∉ s) →
  (∀ neg v, 0 ≤ v → 
     (let '(_, val, overflow) := digits_answer neg v in k neg val overflow)
     = saturate lo hi (signed neg v)) →
  with_parsed (s ++ 0 :: rest) k = convert lo hi s.
Proof.
  intros Hs Hk. unfold with_parsed, atoi_impl, convert, int_of_text.
  rewrite atoi_loop_blanks by done. cbn zeta. unfold parsed.
  destruct (decide _) as [Hd|Hd]; [done|].
  set (ds := take_while is_digit _). set (neg := negative _ _).
  assert (0 ≤ dec_value 0 ds) by (apply dec_value_mono; [lia|apply take_while_all]).
  specialize (Hk neg (dec_value 0 ds) ltac:(done)). unfold digits_answer in *.
  destruct (UINT64_MAX <? dec_value 0 ds); by rewrite Hk.
Qed.

Ltac bounds := unfold digits_answer, saturate, signed, INT_MIN, INT_MAX, UINT32_MAX, UINT64_MAX in *.
Ltac conv := intros [] v Hv; bounds;
  repeat (match goal with
          | |- context [Z.ltb ?a ?b] => destruct (Z.ltb_spec a b)
          | |- context [Z.eqb ?a ?b] => destruct (Z.eqb_spec a b)
          end);
  try lia; rewrite ?i32_small, ?u32_small by lia; f_equal; lia.

Lemma atoi_convert s rest : (0 ∉ s) → ABTU_atoi (s ++ 0 :: rest) = convert INT_MIN INT_MAX s.
Proof. intros Hs. apply with_parsed_convert; [done|]. conv. Qed.
Lemma atoui32_convert s rest : (0 ∉ s) → ABTU_atoui32 (s ++ 0 :: rest) = convert 0 UINT32_MAX s.
Proof. intros Hs. apply with_parsed_convert; [done|]. conv. Qed.
Lemma atoui64_convert s rest : (0 ∉ s) → ABTU_atoui64 (s ++ 0 :: rest) = convert 0 UINT64_MAX s.
Proof. intros Hs. apply with_parsed_convert; [done|]. conv. Qed.

(** C30: ABTU_atoi, ABTU_atoui32, ABTU_atoui64 and ABTU_atosz (either width of
    size_t) compute the reference on every C string: INV_ARG without a digit, and
    else the exact integer the text denotes, cut off at the bounds of the type, with
    the overflow flag telling whether it was cut off. *)
Theorem atoi_equiv s rest :
  (0 ∉ s) →
  ABTU_atoi (s ++ 0 :: rest) = convert INT_MIN INT_MAX s ∧
  ABTU_atoui32 (s ++ 0 :: rest) = convert 0 UINT32_MAX s ∧
  ABTU_atoui64 (s ++ 0 :: rest) = convert 0 UINT64_MAX s ∧
  ABTU_atosz 4 (s ++ 0 :: rest) = convert 0 UINT32_MAX s ∧
  ABTU_atosz 8 (s ++ 0 :: rest) = convert 0 UINT64_MAX s.
Proof.
  intros Hs. unfold ABTU_atosz. simpl (_ =? 4).
  split_and!; by (apply atoi_convert || apply atoui32_convert || apply atoui64_convert).
Qed.

(** The text of [" --+-1234a-"]: blanks, signs, digits and a rest. *)
Definition sample_text : list Z := [32; 45; 45; 43; 45; 49; 50; 51; 52; 97; 45].

Lemma atoi_equiv_witness :
  (0 ∉ sample_text) ∧
  ABTU_atoi (sample_text ++ [0]) = Done (inr (-1234, false)) ∧
  ABTU_atoui32 (sample_text ++ [0]) = Done (inr (0, true)).
Proof.
  assert (H : 0 ∉ sample_text) by (apply (bool_decide_unpack _); vm_compute; exact I).
  destruct (atoi_equiv sample_text [] H) as (H1 & H2 & _).
  rewrite H1, H2. split; [exact H|split; vm_compute; reflexivity].
Defined.

(** ** The round trip *)

Lemma dec_digits_all fuel n : 0 ≤ n → Forall (λ c, is_digit c = true) (dec_digits fuel n).
Proof.
  revert n. induction fuel as [|fuel IH]; intros n Hn; simpl; [done|].
  destruct (Z.ltb_spec n 10).
  - constructor; [|done]. apply is_digit_range. lia.
  - apply Forall_app. split; [apply IH, Z.div_pos; lia|].
    constructor; [|done]. apply is_digit_range. pose proof (Z.mod_pos_bound n 10). lia.
Qed.

Lemma dec_digits_nonempty fuel n : dec_digits (S fuel) n ≠ [].
Proof. simpl. destruct (n <? 10); [done|]. by destruct (dec_digits fuel (n / 10)). Qed.

Lemma dec_digits_value fuel n :
  0 ≤ n < 2 ^ Z.of_nat fuel → dec_value 0 (dec_digits fuel n) = n.
Proof.
  revert n. induction fuel as [|fuel IH]; intros n Hn; cbn [dec_digits].
  { simpl in Hn. unfold dec_value. simpl. lia. }
  destruct (Z.ltb_spec n 10); [unfold dec_value; simpl; lia|].
  unfold dec_value in *. rewrite fold_left_app, IH.
  - simpl. pose proof (Z.div_mod n 10). lia.
  - rewrite Nat2Z.inj_succ, Z.pow_succ_r in Hn by lia.
    split; [apply Z.div_pos; lia|]. apply Z.div_lt_upper_bound; lia.
Qed.

Lemma dec_text_value n :
  0 ≤ n → dec_value 0 (dec_digits (S (Z.to_nat (Z.log2 n))) n) = n.
Proof.
  intros Hn. apply dec_digits_value. split; [done|].
  rewrite Nat2Z.inj_succ, Z2Nat.id by apply Z.log2_nonneg.
  destruct (decide (n = 0)) as [->|]; [done|]. apply Z.log2_spec. lia.
Qed.

Lemma take_while_app_stop {A} (f : A → bool) l r :
  Forall (λ a, f a = true) l → (∀ a r', r = a :: r' → f a = false) →
  take_while f (l ++ r) = l.
Proof.
  intros Hl Hr. induction Hl as [|a l Ha _ IH]; simpl; [|by rewrite Ha, IH].
  destruct r as [|b r]; [done|]. simpl. by rewrite (Hr b r).
Qed.

Lemma int_of_dec_text z tail :
  (∀ c t, tail = c :: t → is_digit c = false) →
  int_of_text (dec_text z ++ tail) = Some z.
Proof.
  intros Ht. unfold dec_text.
  pose proof (dec_digits_all (S (Z.to_nat (Z.log2 (Z.abs z)))) (Z.abs z) ltac:(lia)) as Hall.
  pose proof (dec_text_value (Z.abs z) ltac:(lia)) as Hv.
  pose proof (dec_digits_nonempty (Z.to_nat (Z.log2 (Z.abs z))) (Z.abs z)) as Hne.
  revert Hall Hv Hne. generalize (dec_digits (S (Z.to_nat (Z.log2 (Z.abs z)))) (Z.abs z)).
  intros [|d ds] Hall Hv Hne; [done|]. inversion_clear Hall as [|?? Hd Hds].
  pose proof (is_digit_blank d Hd) as Hb. pose proof (is_digit_sign d Hd) as [Hp Hm].
  assert (Hs : is_sign d = false) by (unfold is_sign; by rewrite Hp, Hm).
  assert (Htw : take_while is_digit ((d :: ds) ++ tail) = d :: ds)
    by (apply take_while_app_stop; [by constructor|done]).
  unfold int_of_text. destruct (Z.ltb_spec z 0) as [Hz|Hz]; simpl app in *.
  - simpl drop_while. rewrite Hs. rewrite Htw. rewrite decide_False by done.
    simpl take_while. rewrite Hs. simpl. f_equal. unfold dec_value in *. simpl in Hv. lia.
  - simpl drop_while. rewrite Hb. simpl drop_while. rewrite Hs, Htw.
    rewrite decide_False by done.
    simpl take_while. rewrite Hs. simpl. f_equal. unfold dec_value in *. simpl in Hv. lia.
Qed.

Lemma dec_text_no_nul z : (0 ∉ dec_text z).
Proof.
  unfold dec_text. rewrite not_elem_of_app. split.
  - destruct (z <? 0); [|apply not_elem_of_nil]. by rewrite list_elem_of_singleton.
  - intros Hin. pose proof (dec_digits_all (S (Z.to_nat (Z.log2 (Z.abs z)))) (Z.abs z) ltac:(lia)) as H.
    rewrite list.Forall_forall in H. specialize (H _ Hin). by vm_compute in H.
Qed.

(** a number printed in decimal is read back exactly by every conversion whose
    type can hold it, whatever text without a leading digit follows it, and without an
    overflow; a number its type cannot hold is reported as an overflow. *)
Theorem atoi_roundtrip z tail rest :
  (0 ∉ tail) → (∀ c t, tail = c :: t → is_digit c = false) →
  ABTU_atoi (dec_text z ++ tail ++ 0 :: rest) = Done (inr (saturate INT_MIN INT_MAX z)) ∧
  (INT_MIN ≤ z ≤ INT_MAX → ABTU_atoi (dec_text z ++ tail ++ 0 :: rest) = Done (inr (z, false))) ∧
  (0 ≤ z ≤ UINT32_MAX → ABTU_atoui32 (dec_text z ++ tail ++ 0 :: rest) = Done (inr (z, false))) ∧
  (0 ≤ z ≤ UINT64_MAX → ABTU_atosz 8 (dec_text z ++ tail ++ 0 :: rest) = Done (inr (z, false))).
Proof.
  intros Hn Ht. rewrite app_assoc.
  assert (H0 : (0 ∉ dec_text z ++ tail)).
  { rewrite not_elem_of_app. split; [apply dec_text_no_nul|done]. }
  unfold ABTU_atosz. simpl (_ =? 4).
  rewrite atoi_convert, atoui32_convert, atoui64_convert by done.
  unfold convert. rewrite int_of_dec_text by done. unfold saturate.
  split_and!; [done|..]; intros Hz; do 3 f_equal; lia.
Qed.

Lemma atoi_roundtrip_witness :
  ABTU_atoi (dec_text (-2147483648) ++ [58] ++ [0]) = Done (inr (-2147483648, false)).
Proof.
  apply (atoi_roundtrip (-2147483648) [58] []); [apply (bool_decide_unpack _); vm_compute; exact I| |].
  - intros c t [= <- <-]. reflexivity.
  - unfold INT_MIN, INT_MAX. lia.
Defined.
