(* ===== verification/AffinityParser.v ===== *)
(** * The parser of CPU affinities

    argobots/src/arch/abtd_affinity_parser.c: the text of ABT_SET_AFFINITY, such as
    [{0:4}:3:4,7], becomes a list of lists of CPU ids.  Every block of memory the
    parser allocates is linked into an allocation list, so that one walk frees all
    of them after an error or when the result is dropped.

    The position [str + index] is the rest of the text; reading past its end is
    undefined behaviour, and so is an [int] that overflows while it is read. *)

From stdpp Require Import base tactics option list numbers gmap fin_maps fin_map_dom.
From Stdlib Require Import ZArith Lia.
From S2P Require Import Prelude Abt Atoi.
Open Scope Z_scope.

Definition MAX_NUM_ELEMS : Z := 1024 * 1024.

(** ** Memory: the allocation list *)

Record alloc_header := AllocHeader { p_prev : option Z; p_next : option Z }.

(** [alloc_list], with the heap of headers; [brk] is the next address [calloc] has
    never handed out, [allocs] counts the calls of the allocator. *)
Record alloc_list := AllocList {
  p_head : option Z;
  p_tail : option Z;
  blocks : gmap Z alloc_header;
  brk : Z;
  allocs : nat
}.

(** What the code makes of an error: [ABTI_CHECK_ERROR]. *)
Abbreviation E A := (C alloc_list (Z + A)) (only parsing).
Definition check {S A B} (m : C S (Z + A)) (k : A → C S (Z + B)) : C S (Z + B) :=
  r ← m; match r with inl e => mret (inl e) | inr a => k a end.
Definition fail {S A} (e : Z) : C S (Z + A) := mret (inl e).
Definition ok {S A} (a : A) : C S (Z + A) := mret (inr a).
Definition lift {S A} (o : outcome A) : C S A := λ s,
  match o with Done a => Done (a, s) | Fault f => Fault f end.

Declare Scope affinity_scope.
Notation "a <-? m ; k" := (check m (λ a, k))
  (at level 100, m at level 200, k at level 200, right associativity) : affinity_scope.
Open Scope affinity_scope.

(** A header of the heap; a pointer to anything else must not be dereferenced. *)
Definition header (p : Z) : C alloc_list alloc_header := λ s,
  match blocks s !! p with Some h => Done (h, s) | None => Fault UB end.
Definition set_header (p : Z) (h : alloc_header) : C alloc_list unit := λ s,
  match blocks s !! p with
  | Some _ => Done ((), AllocList (p_head s) (p_tail s) (<[p := h]> (blocks s)) (brk s) (allocs s))
  | None => Fault UB
  end.
Definition set_head (p : option Z) : C alloc_list unit :=
  modify (λ s, AllocList p (p_tail s) (blocks s) (brk s) (allocs s)).
Definition set_tail (p : option Z) : C alloc_list unit :=
  modify (λ s, AllocList (p_head s) p (blocks s) (brk s) (allocs s)).

Section parser.
(** The allocator: whether its n-th call succeeds, and whether a successful
    [realloc] moves the block. *)
Variables (gives moves : nat → bool).

(** A new zeroed block. *)
Definition ABTU_calloc : E Z := λ s,
  let s' := AllocList (p_head s) (p_tail s) (blocks s) (brk s) (S (allocs s)) in
  if gives (allocs s) then
    Done (inr (brk s), AllocList (p_head s) (p_tail s)
                         (<[brk s := AllocHeader None None]> (blocks s))
                         (brk s + 1) (S (allocs s)))
  else Done (inl ABT_ERR_MEM, s').

(** A block resized: its contents (the header with it) are kept, its address may change. *)
Definition ABTU_realloc (p : Z) : E Z := λ s,
  match blocks s !! p with
  | None => Fault UB
  | Some h =>
      let n := S (allocs s) in
      if gives (allocs s) then
        if moves (allocs s)
        then Done (inr (brk s), AllocList (p_head s) (p_tail s)
               (<[brk s := h]> (delete p (blocks s))) (brk s + 1) n)
        else Done (inr p, AllocList (p_head s) (p_tail s) (blocks s) (brk s) n)
      else Done (inl ABT_ERR_MEM, AllocList (p_head s) (p_tail s) (blocks s) (brk s) n)
  end.

Definition ABTU_free (p : Z) : C alloc_list unit := λ s,
  match blocks s !! p with
  | None => Fault UB
  | Some _ => Done ((), AllocList (p_head s) (p_tail s) (delete p (blocks s)) (brk s) (allocs s))
  end.

(** Sizes in bytes are not kept: a block has room for what its caller counts, and the callers
    below check that the count they pass, an [uint32_t], does not wrap around. *)
Definition list_calloc : E Z :=
  p_header <-? ABTU_calloc;
  tail ← gets p_tail;
  set_header p_header (AllocHeader tail None);;
  match tail with
  | Some t =>
      h ← header t;
      set_header t (AllocHeader (p_prev h) (Some p_header));;
      set_tail (Some p_header)
  | None => set_head (Some p_header);; set_tail (Some p_header)
  end;;
  ok p_header.

(** The part of [list_realloc] after a successful [ABTU_realloc]: [pn] takes the
    place of [p], whose header was [h]. *)
Definition replace_block (p pn : Z) (h : alloc_header) : E Z :=
  head ← gets p_head;
  (if decide (head = Some p) then set_head (Some pn) else mret ());;
  tail ← gets p_tail;
  (if decide (tail = Some p) then set_tail (Some pn) else mret ());;
  hn ← header pn;
  set_header pn (AllocHeader (p_prev h) (p_next hn));;
  match p_prev h with
  | Some q => hq ← header q; set_header q (AllocHeader (p_prev hq) (Some pn))
  | None => mret ()
  end;;
  hn ← header pn;
  set_header pn (AllocHeader (p_prev hn) (p_next h));;
  match p_next h with
  | Some q => hq ← header q; set_header q (AllocHeader (Some pn) (p_next hq))
  | None => mret ()
  end;;
  ok pn.

(** [*p_ptr] is the address of the block; it is dereferenced only if [old_size] is not 0 (the
    new size is the caller's to check, as for [list_calloc]). *)
Definition list_realloc (old_size : Z) (ptr : option Z) : E Z :=
  if old_size =? 0 then list_calloc else
  match ptr with
  | None => throw UB
  | Some p_old =>
      h ← header p_old;
      p_new <-? ABTU_realloc p_old;
      replace_block p_old p_new h
  end.

Fixpoint list_free_all (fuel : nat) (p_cur : option Z) : C alloc_list unit :=
  match p_cur with
  | None => mret ()
  | Some p =>
      match fuel with
      | O => throw OutOfFuel
      | S fuel => h ← header p; ABTU_free p;; list_free_all fuel (p_next h)
      end
  end.

(** ** Lists of ids *)

(** The block of the ids, and the [num] ids in it. *)
Record ABTD_affinity_id_list := IdList { ids_ptr : option Z; ids : list Z }.
(** The block of the id lists, the id lists, and the list to free. *)
Record ABTD_affinity_list := AffinityList {
  lists_ptr : option Z;
  p_id_lists : list ABTD_affinity_id_list;
  p_mem_head : option Z
}.

Definition id_num (l : ABTD_affinity_id_list) : Z := Z.of_nat (length (ids l)).
Definition list_num (l : ABTD_affinity_list) : Z := Z.of_nat (length (p_id_lists l)).

Definition id_list_create : E ABTD_affinity_id_list :=
  _ <-? list_calloc; ok (IdList None []).

(** [id + stride * i]: [i] is a [uint32_t], so the sum wraps around. *)
Definition offset (id stride i : Z) : Z := i32 (u32 (id + stride * i)).

Definition interval (id num stride : Z) : list Z :=
  map (λ i, offset id stride (Z.of_nat i)) (seq 0 (Z.to_nat num)).

Definition id_list_add (l : ABTD_affinity_id_list) (id num stride : Z)
    : E ABTD_affinity_id_list :=
  p <-? list_realloc (4 * id_num l) (ids_ptr l);
  if u32 (id_num l + num) <? id_num l + num then throw UB   (* written outside of the block *)
  else ok (IdList (Some p) (ids l ++ interval id num stride)).

Definition list_create : E ABTD_affinity_list :=
  _ <-? list_calloc; ok (AffinityList None [] None).

(** A write of [p_list->p_id_lists[p_list->num + i]] into a block of [len] elements. *)
Definition check_slot (num i len : Z) : C alloc_list unit :=
  if u32 (num + i) <? len then mret () else throw UB.

(** The copies of [p_base] number [i], [i + 1], ..., [i + n - 1]. *)
Fixpoint list_copies (n : nat) (i : Z) (p_base : ABTD_affinity_id_list) (stride num len : Z)
    : E (list ABTD_affinity_id_list) :=
  match n with
  | O => ok []
  | S n =>
      _ <-? id_list_create;
      p <-? list_calloc;
      check_slot num i len;;
      rest <-? list_copies n (i + 1) p_base stride num len;
      ok (IdList (Some p) (map (λ id, offset id stride i) (ids p_base)) :: rest)
  end.

Definition list_add (l : ABTD_affinity_list) (p_base : ABTD_affinity_id_list) (num stride : Z)
    : E ABTD_affinity_list :=
  p <-? list_realloc (8 * list_num l) (lists_ptr l);
  let len := u32 (list_num l + num) in
  copies <-? list_copies (Z.to_nat (num - 1)) 1 p_base stride (list_num l) len;
  check_slot (list_num l) 0 len;;
  ok (AffinityList (Some p) (p_id_lists l ++ p_base :: copies) (p_mem_head l)).

(** ** Tokens *)

Definition is_whitespace (c : Z) : bool :=
  (c =? 32) || (c =? 9) || (c =? 13) || (c =? 10).

(** The variable [flag]: nothing read ('n'), a sign ('s'), a digit ('v'). *)
Inductive int_flag := FlagN | FlagS | FlagV.
#[export] Instance int_flag_eq_dec : EqDecision int_flag.
Proof. solve_decision. Defined.

Fixpoint consume_int_loop (str : list Z) (val val_sign : Z) (flag : int_flag)
    : outcome (option (Z * list Z)) :=
  match str with
  | [] => Fault UB
  | c :: str' =>
      let not_v := match flag with FlagV => false | _ => true end in
      let is_n := match flag with FlagN => true | _ => false end in
      let is_v := match flag with FlagV => true | _ => false end in
      if not_v && (c =? 45) then consume_int_loop str' val (- val_sign) FlagS
      else if not_v && (c =? 43) then consume_int_loop str' val val_sign FlagS
      else if is_n && is_whitespace c then consume_int_loop str' val val_sign flag
      else if is_digit c then
        if INT_MAX <? val * 10 + (c - 48) then Fault UB   (* signed overflow *)
        else consume_int_loop str' (val * 10 + (c - 48)) val_sign FlagV
      else if is_v then Done (Some (val * val_sign, str))
      else Done None
  end.

(** [Some (value, rest)], or [None] where the code returns 0 and leaves the index. *)
Definition consume_int (str : list Z) : outcome (option (Z * list Z)) :=
  consume_int_loop str 0 1 FlagN.

Definition consume_pint (str : list Z) : outcome (option (Z * list Z)) :=
  match consume_int str with
  | Done (Some (val, str')) => if 0 <? val then Done (Some (val, str')) else Done None
  | o => o
  end.

Fixpoint consume_symbol (str : list Z) (symbol : Z) : outcome (option (list Z)) :=
  match str with
  | [] => Fault UB
  | c :: str' =>
      if c =? symbol then Done (Some str')
      else if is_whitespace c then consume_symbol str' symbol
      else Done None
  end.

(** ** The grammar *)

(** The optional [":" <num>] and [":" <stride>] after an id or an id list: the
    number, the stride and the rest of the text. *)
Definition parse_num_stride (str : list Z) : E (Z * Z * list Z) :=
  o ← lift (consume_symbol str 58);
  match o with
  | None => ok (1, 1, str)
  | Some str =>
      o ← lift (consume_pint str);
      match o with
      | None => fail ABT_ERR_OTHER
      | Some (num, str) =>
          o ← lift (consume_symbol str 58);
          match o with
          | None => ok (num, 1, str)
          | Some str =>
              o ← lift (consume_int str);
              match o with
              | None => fail ABT_ERR_OTHER
              | Some (stride, str) => ok (num, stride, str)
              end
          end
      end
  end.

(** The loop over [<id-interval>]s after the opening brace. *)
Fixpoint parse_id_list (fuel : nat) (l : ABTD_affinity_id_list) (str : list Z)
    : E (ABTD_affinity_id_list * list Z) :=
  match fuel with
  | O => throw OutOfFuel
  | S fuel =>
      o ← lift (consume_int str);
      match o with
      | None => fail ABT_ERR_OTHER
      | Some (id, str) =>
          r <-? parse_num_stride str; let '(num, stride, str) := r in
          if MAX_NUM_ELEMS <=? num then fail ABT_ERR_OTHER else
          l <-? id_list_add l id num stride;
          o ← lift (consume_symbol str 44);
          match o with
          | Some str => parse_id_list fuel l str
          | None =>
              o ← lift (consume_symbol str 125);
              match o with
              | None => fail ABT_ERR_OTHER
              | Some str => ok (l, str)
              end
          end
      end
  end.

Definition parse_es_id_list (fuel : nat) (str : list Z)
    : E (ABTD_affinity_id_list * list Z) :=
  l <-? id_list_create;
  o ← lift (consume_int str);
  match o with
  | Some (val, str) => l <-? id_list_add l val 1 1; ok (l, str)
  | None =>
      o ← lift (consume_symbol str 123);
      match o with
      | Some str => parse_id_list fuel l str
      | None => fail ABT_ERR_OTHER
      end
  end.

(** The loop over [<interval>]s. *)
Fixpoint parse_intervals (fuel : nat) (l : ABTD_affinity_list) (str : list Z)
    : E ABTD_affinity_list :=
  match fuel with
  | O => throw OutOfFuel
  | S fuel' =>
      r <-? parse_es_id_list fuel str; let '(p_id_list, str) := r in
      r <-? parse_num_stride str; let '(num, stride, str) := r in
      if MAX_NUM_ELEMS <=? num then fail ABT_ERR_OTHER else
      l <-? list_add l p_id_list num stride;
      o ← lift (consume_symbol str 44);
      match o with
      | Some str => parse_intervals fuel' l str
      | None =>
          o ← lift (consume_symbol str 0);
          match o with
          | None => fail ABT_ERR_OTHER
          | Some _ => ok l
          end
      end
  end.

Definition parse_list (affinity_str : option (list Z)) : E ABTD_affinity_list :=
  match affinity_str with
  | None => fail ABT_ERR_OTHER
  | Some str => l <-? list_create; parse_intervals (length str) l str
  end.

Definition ABTD_affinity_list_create (affinity_str : option (list Z)) : E ABTD_affinity_list :=
  r ← parse_list affinity_str;
  s ← get;
  match r with
  | inl e => list_free_all (size (blocks s)) (p_head s);; fail e
  | inr l => ok (AffinityList (lists_ptr l) (p_id_lists l) (p_head s))
  end.

Definition ABTD_affinity_list_free (l : ABTD_affinity_list) : C alloc_list unit :=
  s ← get; list_free_all (size (blocks s)) (p_mem_head l).
End parser.

(** The [tmp_alloc_list] of [ABTD_affinity_list_create] on an empty heap. *)
Definition no_blocks : alloc_list := AllocList None None ∅ 0 0.

(** ** The allocation list is a chain through all blocks *)

Definition hdr (l : list Z) (i : nat) : alloc_header :=
  AllocHeader (match i with O => None | S i => l !! i end) (l !! S i).

Record chained (s : alloc_list) (l : list Z) : Prop := Chained {
  ch_head : p_head s = l !! 0%nat;
  ch_tail : p_tail s = last l;
  ch_nodup : NoDup l;
  ch_dom : ∀ p, is_Some (blocks s !! p) → p ∈ l;
  ch_hdr : ∀ i p, l !! i = Some p → blocks s !! p = Some (hdr l i);
  ch_brk : ∀ p, p ∈ l → p < brk s
}.

Lemma chained_lookup s l p : chained s l → p ∈ l → ∃ i, l !! i = Some p ∧ blocks s !! p = Some (hdr l i).
Proof. intros Hc [i Hi]%list_elem_of_lookup. exists i. split; [done|by apply Hc]. Qed.

Lemma chained_none s l p : chained s l → (p ∉ l) → blocks s !! p = None.
Proof.
  intros Hc Hp. destruct (blocks s !! p) eqn:E; [|done]. destruct Hp. apply Hc. by eexists.
Qed.

Lemma chained_fresh s l : chained s l → (brk s ∉ l).
Proof. intros Hc Hin. pose proof (ch_brk _ _ Hc _ Hin). lia. Qed.

Lemma hdr_app_before l p i : (S i < length l)%nat → hdr (l ++ [p]) i = hdr l i.
Proof.
  intros Hi. unfold hdr. rewrite lookup_app_l by done. destruct i; [done|].
  rewrite lookup_app_l by lia. done.
Qed.

Lemma hdr_app_end l p : hdr (l ++ [p]) (length l) = AllocHeader (last l) None.
Proof.
  unfold hdr. rewrite lookup_ge_None_2 by (rewrite length_app; simpl; lia). f_equal.
  rewrite last_lookup. destruct (length l) eqn:E; simpl.
  - by destruct l.
  - by rewrite lookup_app_l by lia.
Qed.

Lemma chained_snoc s l B h n :
  chained s l → h = (l ++ [brk s]) !! 0%nat →
  (∀ i p, (l ++ [brk s]) !! i = Some p → B !! p = Some (hdr (l ++ [brk s]) i)) →
  (∀ p, is_Some (B !! p) → p ∈ l ++ [brk s]) →
  chained (AllocList h (Some (brk s)) B (brk s + 1) n) (l ++ [brk s]).
Proof.
  intros Hc Hh HB Hd. pose proof (chained_fresh _ _ Hc) as Hf.
  split; simpl; [done|by rewrite last_snoc|..|done|done|].
  - apply NoDup_app. split_and!; [apply Hc| |by apply NoDup_singleton].
    intros x Hx Hx2%list_elem_of_singleton. subst x. by apply Hf.
  - intros p [Hp|Hp%list_elem_of_singleton]%elem_of_app; [|lia].
    apply (ch_brk _ _ Hc) in Hp. lia.
Qed.

Section alloc.
Variables (gives moves : nat → bool).

(** What an allocation answers: no memory, or a new block at the end of the chain. *)
Definition alloc_post (l : list Z) (r : Z + Z) (s : alloc_list) : Prop :=
  match r with
  | inl e => e = ABT_ERR_MEM ∧ (∃ n, gives n = false) ∧ chained s l
  | inr p => (p ∉ l) ∧ chained s (l ++ [p])
  end.

Lemma list_calloc_ok s l : chained s l → wp (list_calloc gives) (alloc_post l) s.
Proof.
  intros Hc. pose proof (chained_fresh _ _ Hc) as Hf.
  unfold wp, list_calloc, check, mbind, C_bind, ABTU_calloc.
  destruct (gives (allocs s)) eqn:Hg; [|split_and!; [done|by eauto|by destruct Hc]].
  unfold gets, set_header, header, set_head, set_tail, modify. simpl.
  rewrite lookup_insert_eq. simpl. pose proof (ch_tail _ _ Hc) as Ht. rewrite insert_insert_eq.
  destruct (p_tail s) as [t|] eqn:Et; simpl.
  - assert (Hin : ∃ k, l = k ++ [t]) by (by apply last_Some; rewrite <-Ht).
    destruct Hin as [k Hk]. assert (Htl : l !! length k = Some t) by (rewrite Hk; by apply list_lookup_middle).
    assert (brk s ≠ t) by (intros Heq; apply Hf; rewrite Heq, Hk; set_solver).
    assert (Hlen : length l = S (length k)) by (rewrite Hk, length_app; simpl; lia).
    rewrite lookup_insert_ne by done. rewrite (ch_hdr _ _ Hc _ _ Htl). simpl.
    rewrite lookup_insert_ne by done. rewrite (ch_hdr _ _ Hc _ _ Htl). simpl. split; [done|].
    apply chained_snoc; [done|rewrite (ch_head _ _ Hc), lookup_app_l by lia; done| |intros p; rewrite !lookup_insert_is_Some; intros [<-|[_ [<-|[_ Hp]]]];
      rewrite elem_of_app, ?list_elem_of_singleton; [left; by eapply list_elem_of_lookup_2|by right|
      left; by apply Hc]].
    intros i p Hi. destruct (decide (i = length l)) as [->|Hne].
    { rewrite list_lookup_middle in Hi by done. injection Hi as <-.
      rewrite lookup_insert_ne, lookup_insert_eq, hdr_app_end, Ht by done. done. }
    assert (i < length l)%nat.
    { apply lookup_lt_Some in Hi. rewrite length_app in Hi. simpl in Hi. lia. }
    rewrite lookup_app_l in Hi by done.
    destruct (decide (i = length k)) as [->|Hik].
    + rewrite Htl in Hi. injection Hi as <-. rewrite lookup_insert_eq. f_equal. unfold hdr.
      rewrite (list_lookup_middle l [] (brk s) (S (length k))) by done. f_equal. simpl.
      destruct (length k) eqn:E; [done|]. by rewrite lookup_app_l by lia.
    + assert (p ≠ t). { intros ->. apply Hik. by eapply NoDup_lookup; [apply Hc|..]. }
      assert (p ≠ brk s) by (intros ->; apply Hf; by eapply list_elem_of_lookup_2).
      rewrite !lookup_insert_ne by done. rewrite hdr_app_before by lia. by apply Hc.
  - assert (l = []) as Hl by (apply last_None; congruence). split; [done|].
    apply chained_snoc; [done|by rewrite Hl|..].
    + rewrite Hl. intros [|i] p Hi; [|done]. injection Hi as <-.
      by rewrite lookup_insert_eq.
    + rewrite Hl. intros p. rewrite lookup_insert_is_Some. intros [<-|[_ Hp]]; [set_solver|].
      apply (ch_dom _ _ Hc) in Hp. rewrite Hl in Hp. set_solver.
Qed.

(** The two neighbours of a block and the block itself are distinct. *)
Lemma lookup_neq (l : list Z) i j p q :
  NoDup l → l !! i = Some p → l !! j = Some q → i ≠ j → p ≠ q.
Proof. intros Hn Hi Hj Hij ->. apply Hij. by eapply NoDup_lookup. Qed.

(** Writing a header of the heap. *)
Lemma header_run p h s : blocks s !! p = Some h → header p s = Done (h, s).
Proof. unfold header. by intros ->. Qed.
Lemma set_header_run p h h' s :
  blocks s !! p = Some h →
  set_header p h' s =
    Done ((), AllocList (p_head s) (p_tail s) (<[p := h']> (blocks s)) (brk s) (allocs s)).
Proof. unfold set_header. by intros ->. Qed.

(** Relinking [pn] in the place of the [k]-th block, in the order of the code. *)
Definition relink (l : list Z) (k : nat) (pn : Z) (B : gmap Z alloc_header) : gmap Z alloc_header :=
  let B := <[pn := hdr l k]> B in
  let B := match p_prev (hdr l k) with
           | Some q => <[q := AllocHeader (p_prev (hdr l (k - 1))) (Some pn)]> B
           | None => B
           end in
  let B := <[pn := hdr l k]> B in
  match p_next (hdr l k) with
  | Some q => <[q := AllocHeader (Some pn) (p_next (hdr l (S k)))]> B
  | None => B
  end.

Lemma relink_other l k pn B x :
  x ≠ pn → p_prev (hdr l k) ≠ Some x → p_next (hdr l k) ≠ Some x →
  relink l k pn B !! x = B !! x.
Proof.
  intros Hx Hp Hn. unfold relink.
  destruct (p_next (hdr l k)), (p_prev (hdr l k)); rewrite ?lookup_insert_ne by congruence; done.
Qed.

Lemma relink_hdr l k p pn B i x :
  NoDup l → l !! k = Some p → (pn = p ∨ pn ∉ l) →
  (∀ j y, j ≠ k → l !! j = Some y → B !! y = Some (hdr l j)) →
  <[k := pn]> l !! i = Some x →
  relink l k pn B !! x = Some (hdr (<[k := pn]> l) i).
Proof.
  intros Hnd Hk Hpn HB Hi. pose proof (lookup_lt_Some _ _ _ Hk) as Hlt.
  assert (Hoth : ∀ j y, j ≠ k → l !! j = Some y → y ≠ pn).
  { intros j y Hj Hy ->. destruct Hpn as [->|Hpn]; [exact (lookup_neq l j k p p Hnd Hy Hk Hj eq_refl)|].
    apply Hpn. by eapply list_elem_of_lookup_2. }
  destruct (decide (i = k)) as [->|Hik].
  - rewrite list_lookup_insert_eq in Hi by done. injection Hi as <-.
    assert (Hh : hdr (<[k := pn]> l) k = hdr l k).
    { unfold hdr. rewrite list_lookup_insert_ne by lia. f_equal.
      destruct k; [done|]. by rewrite list_lookup_insert_ne by lia. }
    rewrite Hh. unfold relink. destruct (p_next (hdr l k)) as [q|] eqn:Eq; [|by rewrite lookup_insert_eq].
    rewrite lookup_insert_ne, lookup_insert_eq by (by eapply (Hoth (S k)); [lia|]). done.
  - rewrite list_lookup_insert_ne in Hi by done. pose proof (Hoth i x Hik Hi) as Hx.
    destruct (decide (i = S k)) as [->|Hisk]; [|destruct (decide (S i = k)) as [<-|Hipk]].
    + unfold relink. simpl (p_next (hdr l k)). rewrite Hi, lookup_insert_eq.
      unfold hdr. simpl. by rewrite list_lookup_insert_eq, list_lookup_insert_ne by lia.
    + assert (Hnx : p_next (hdr l (S i)) ≠ Some x)
        by (simpl; intros Hy; exact (lookup_neq l i (S (S i)) x x Hnd Hi Hy ltac:(lia) eq_refl)).
      unfold relink. simpl (p_prev (hdr l (S i))). rewrite Hi.
      assert (Hgo : (<[pn:=hdr l (S i)]>
        (<[x:=AllocHeader (p_prev (hdr l (S i - 1))) (Some pn)]> (<[pn:=hdr l (S i)]> B)) !! x)
        = Some (hdr (<[S i:=pn]> l) i)).
      { rewrite lookup_insert_ne, lookup_insert_eq by done. f_equal. unfold hdr. simpl.
        rewrite Nat.sub_0_r, list_lookup_insert_eq by done. f_equal.
        destruct i; [done|]. by rewrite list_lookup_insert_ne by lia. }
      destruct (p_next (hdr l (S i))); [|done]. rewrite lookup_insert_ne by congruence. done.
    + rewrite relink_other; [|done|..].
      * rewrite (HB i x) by done. f_equal. unfold hdr. rewrite list_lookup_insert_ne by lia.
        f_equal. destruct i; [done|]. by rewrite list_lookup_insert_ne by lia.
      * simpl. destruct k; [done|]. intros Hy. exact (lookup_neq l i k x x Hnd Hi Hy ltac:(lia) eq_refl).
      * simpl. intros Hy. exact (lookup_neq l i (S k) x x Hnd Hi Hy ltac:(lia) eq_refl).
Qed.

Definition swap_ptr (p pn : Z) (o : option Z) : option Z :=
  if decide (o = Some p) then Some pn else o.

Lemma set_if_run (set_ : option Z → C alloc_list unit) (upd : option Z → alloc_list → alloc_list) o p pn s :
  (∀ o, set_ o s = Done ((), upd o s)) → upd o s = s →
  (if decide (o = Some p) then set_ (Some pn) else mret ()) s = Done ((), upd (swap_ptr p pn o) s).
Proof. intros H1 H2. unfold swap_ptr. case_decide; [done|]. by rewrite H2. Qed.

Lemma replace_block_run l k p pn s :
  NoDup l → l !! k = Some p → (pn = p ∨ pn ∉ l) →
  (∀ j y, j ≠ k → l !! j = Some y → blocks s !! y = Some (hdr l j)) →
  blocks s !! pn = Some (hdr l k) →
  replace_block p pn (hdr l k) s =
    Done (inr pn, AllocList (swap_ptr p pn (p_head s)) (swap_ptr p pn (p_tail s))
                    (relink l k pn (blocks s)) (brk s) (allocs s)).
Proof.
  intros Hnd Hk Hpn HB Hb. destruct s as [hd tl B br n]. simpl in *.
  assert (Hoth : ∀ j y, j ≠ k → l !! j = Some y → y ≠ pn).
  { intros j y Hj Hy ->. destruct Hpn as [->|Hpn]; [exact (lookup_neq l j k p p Hnd Hy Hk Hj eq_refl)|].
    apply Hpn. by eapply list_elem_of_lookup_2. }
  unfold replace_block.
  erewrite C_bind_Done by reflexivity. simpl p_head.
  erewrite C_bind_Done by (apply (set_if_run set_head (λ o s, AllocList o (p_tail s) (blocks s) (brk s) (allocs s)));
    reflexivity). simpl.
  erewrite C_bind_Done by reflexivity. simpl p_tail.
  erewrite C_bind_Done by (apply (set_if_run set_tail (λ o s, AllocList (p_head s) o (blocks s) (brk s) (allocs s)));
    reflexivity). simpl.
  erewrite C_bind_Done by (by apply header_run).
  erewrite C_bind_Done by (by eapply set_header_run).
  simpl p_head; simpl p_tail; simpl blocks; simpl brk; simpl allocs.
  set (B1 := <[pn := _]> B).
  assert (HB1 : ∀ j y, j ≠ k → l !! j = Some y → B1 !! y = Some (hdr l j)).
  { intros j y Hj Hy. unfold B1. rewrite lookup_insert_ne by (symmetry; by eapply Hoth). by apply HB. }
  assert (Hb1 : B1 !! pn = Some (hdr l k)) by (apply lookup_insert_eq).
  set (B2 := match p_prev (hdr l k) with
             | Some q => <[q := AllocHeader (p_prev (hdr l (k - 1))) (Some pn)]> B1
             | None => B1 end).
  assert (Hb2 : B2 !! pn = Some (hdr l k)).
  { unfold B2. destruct (p_prev (hdr l k)) as [q|] eqn:Eq; [|done].
    rewrite lookup_insert_ne; [done|]. simpl in Eq. destruct k as [|k]; [done|].
    apply (Hoth k); [lia|done]. }
  assert (HB2 : ∀ q, p_next (hdr l k) = Some q → <[pn := hdr l k]> B2 !! q = Some (hdr l (S k))).
  { intros q Hq. change (l !! S k = Some q) in Hq. rewrite lookup_insert_ne by (symmetry; exact (Hoth (S k) q ltac:(lia) Hq)).
    unfold B2. destruct (p_prev (hdr l k)) as [q'|] eqn:Eq; [|by apply HB1; [lia|]].
    rewrite lookup_insert_ne; [by apply HB1; [lia|]|]. simpl in Eq. destruct k as [|k]; [done|].
    exact (lookup_neq l k (S (S k)) q' q Hnd Eq Hq ltac:(lia)). }
  erewrite (C_bind_Done (match p_prev (hdr l k) with Some _ => _ | None => _ end) _ _ tt
    (AllocList (swap_ptr p pn hd) (swap_ptr p pn tl) B2 br n)).
  2:{ unfold B2. destruct (p_prev (hdr l k)) as [q|] eqn:Eq; [|done].
      simpl in Eq. destruct k as [|k]; [done|]. assert (Hq : B1 !! q = Some (hdr l k)) by (apply HB1; [lia|done]).
      erewrite C_bind_Done by (by apply header_run). rewrite (set_header_run _ (hdr l k)) by done.
      simpl. by rewrite Nat.sub_0_r. }
  erewrite C_bind_Done by (by apply header_run).
  erewrite C_bind_Done by (by eapply set_header_run). simpl p_head; simpl p_tail; simpl blocks; simpl brk; simpl allocs.
  unfold relink. fold B1. fold B2. change (p_next (hdr l k)) with (l !! S k) in *.
  destruct (l !! S k) as [q|] eqn:Eq.
  2:{ unfold hdr in *. by rewrite Eq in *. }
  specialize (HB2 q eq_refl). change (AllocHeader _ (Some q)) with (AllocHeader (p_prev (hdr l k)) (Some q)).
  rewrite <-Eq. change (AllocHeader (p_prev (hdr l k)) (l !! S k)) with (hdr l k).
  erewrite C_bind_Done by (erewrite C_bind_Done by (by apply header_run);
    eapply set_header_run; exact HB2). unfold ok, mret, C_ret, B2, B1, hdr; simpl; by rewrite ?Eq.
Qed.

Lemma swap_ptr_lookup (l : list Z) k p pn i :
  NoDup l → l !! k = Some p → swap_ptr p pn (l !! i) = <[k := pn]> l !! i.
Proof.
  intros Hnd Hk. unfold swap_ptr. pose proof (lookup_lt_Some _ _ _ Hk).
  destruct (decide (i = k)) as [->|Hne].
  - rewrite list_lookup_insert_eq by done. by rewrite decide_True.
  - rewrite list_lookup_insert_ne by done. rewrite decide_False; [done|].
    intros Hi. apply Hne. by eapply NoDup_lookup.
Qed.

Lemma NoDup_insert_fresh (l : list Z) k p pn :
  NoDup l → l !! k = Some p → (pn = p ∨ pn ∉ l) → NoDup (<[k := pn]> l).
Proof.
  intros Hnd Hk [->|Hpn]; [by rewrite list_insert_id|].
  rewrite <-(take_drop_middle l k p Hk) in Hnd |- *.
  assert (Hlen : length (take k l) = k) by (apply length_take_le; apply lookup_lt_Some in Hk; lia).
  rewrite insert_app_r_alt, Hlen, Nat.sub_diag by lia. simpl.
  rewrite <-(take_drop_middle l k p Hk) in Hpn.
  apply NoDup_app in Hnd as (H1 & H2 & [H3 H4]%NoDup_cons). rewrite elem_of_app, elem_of_cons in Hpn.
  apply NoDup_app. split_and!; [done| |apply NoDup_cons; tauto].
  intros x Hx [->|Hx2]%elem_of_cons; [tauto|]. apply (H2 x Hx). by apply elem_of_cons; right.
Qed.

(** The chain after [realloc] answered with [pn] in the place of the block [p]. *)
Lemma chained_replace s l k p pn B br n :
  chained s l → l !! k = Some p → (pn = p ∨ pn ∉ l) → pn < br → brk s ≤ br →
  (∀ j y, j ≠ k → l !! j = Some y → B !! y = Some (hdr l j)) →
  (∀ x, is_Some (B !! x) → x = pn ∨ (x ∈ l ∧ x ≠ p)) →
  chained (AllocList (swap_ptr p pn (p_head s)) (swap_ptr p pn (p_tail s))
             (relink l k pn B) br n) (<[k := pn]> l).
Proof.
  intros Hc Hk Hpn Hlt Hbr HB Hd. pose proof (ch_nodup _ _ Hc) as Hnd.
  pose proof (lookup_lt_Some _ _ _ Hk) as Hkl.
  assert (Hin : ∀ j y, j ≠ k → l !! j = Some y → y ∈ <[k:=pn]> l).
  { intros j y Hj Hy. apply (list_elem_of_lookup_2 _ j). by rewrite list_lookup_insert_ne. }
  assert (Hpin : pn ∈ <[k:=pn]> l).
  { apply (list_elem_of_lookup_2 _ k). by rewrite list_lookup_insert_eq. }
  split; simpl.
  - rewrite (ch_head _ _ Hc). by apply swap_ptr_lookup.
  - rewrite (ch_tail _ _ Hc), !last_lookup, length_insert. by apply swap_ptr_lookup.
  - by eapply NoDup_insert_fresh.
  - intros x Hx. destruct (decide (x ∈ <[k:=pn]> l)) as [|Hn]; [done|exfalso].
    rewrite relink_other in Hx.
    + destruct (Hd x Hx) as [->|[Hxl Hxp]]; [done|]. apply list_elem_of_lookup in Hxl as [j Hj].
      apply Hn, (Hin j); [|done]. intros ->. congruence.
    + by intros ->.
    + simpl. intros Hy. destruct k; [done|]. apply Hn, (Hin k); [lia|done].
    + simpl. intros Hy. apply Hn, (Hin (S k)); [lia|done].
  - intros i x Hi. by eapply relink_hdr.
  - intros x [i Hi]%list_elem_of_lookup. destruct (decide (i = k)) as [->|Hik].
    + rewrite list_lookup_insert_eq in Hi by done. by injection Hi as <-.
    + rewrite list_lookup_insert_ne in Hi by done. apply list_elem_of_lookup_2 in Hi.
      apply (ch_brk _ _ Hc) in Hi. lia.
Qed.

Definition realloc_post (l : list Z) (k : nat) (p : Z) (r : Z + Z) (s : alloc_list) : Prop :=
  match r with
  | inl e => e = ABT_ERR_MEM ∧ (∃ n, gives n = false) ∧ chained s l
  | inr pn => (pn = p ∨ pn ∉ l) ∧ chained s (<[k := pn]> l)
  end.

Lemma list_realloc_ok sz s l k p :
  sz ≠ 0 → chained s l → l !! k = Some p →
  wp (list_realloc gives moves sz (Some p)) (realloc_post l k p) s.
Proof.
  intros Hsz Hc Hk. unfold list_realloc. rewrite (proj2 (Z.eqb_neq sz 0) Hsz).
  pose proof (ch_hdr _ _ Hc _ _ Hk) as Hh. pose proof (chained_fresh _ _ Hc) as Hf.
  assert (Hpl : p ∈ l) by (by eapply list_elem_of_lookup_2).
  apply wp_bind. eapply wp_Done; [by apply header_run|]. unfold check. apply wp_bind.
  unfold wp at 1, ABTU_realloc. rewrite Hh.
  destruct (gives (allocs s)) eqn:Hg.
  2:{ split_and!; [done|by eauto|by destruct Hc]. }
  destruct (moves (allocs s)).
  - assert (HB : ∀ j y, j ≠ k → l !! j = Some y →
      <[brk s := hdr l k]> (delete p (blocks s)) !! y = Some (hdr l j)).
    { intros j y Hj Hy. rewrite lookup_insert_ne, lookup_delete_ne; [by apply Hc| |].
      - intros ->. by apply Hj, (NoDup_lookup l _ _ y (ch_nodup _ _ Hc)).
      - intros Heq. apply Hf. rewrite Heq. by eapply list_elem_of_lookup_2. }
    eapply wp_Done; [apply replace_block_run; try done; [apply Hc|by right|simpl; apply lookup_insert_eq]|].
    simpl. split; [by right|]. apply chained_replace; try done; try (by right); try lia.
    intros x. rewrite lookup_insert_is_Some. intros [->|[_ Hx]]; [by left|].
    apply lookup_delete_is_Some in Hx as [? Hx]. right. split; [by apply Hc|done].
  - eapply wp_Done; [apply replace_block_run; try done; [apply Hc|by left|intros; by apply Hc]|].
    simpl. split; [by left|]. apply chained_replace; try done; try (by left).
    + by apply (ch_brk _ _ Hc).
    + intros j y _ Hy. by apply Hc.
    + intros x Hx. destruct (decide (x = p)); [by left|]. right. split; [by apply Hc|done].
Qed.

(** ** Freeing everything *)

Lemma list_free_suffix l fuel s :
  NoDup l → (length l ≤ fuel)%nat →
  (∀ i x, l !! i = Some x → ∃ h, blocks s !! x = Some h ∧ p_next h = l !! S i) →
  (∀ x, is_Some (blocks s !! x) → x ∈ l) →
  wp (list_free_all fuel (l !! 0%nat)) (λ _ s', blocks s' = ∅) s.
Proof.
  revert fuel s. induction l as [|p l IH]; intros fuel s Hnd Hf Hl Hd.
  { simpl. destruct fuel; apply wp_ret; apply map_empty; intros x;
      destruct (blocks s !! x) eqn:E; [|done| |done];
      destruct (not_elem_of_nil x); apply Hd; by eexists. }
  destruct fuel as [|fuel]; [simpl in Hf; lia|]. simpl.
  apply NoDup_cons in Hnd as [Hp Hnd]. destruct (Hl 0%nat p eq_refl) as (h & Hh & Hn).
  apply wp_bind. eapply wp_Done; [by apply header_run|]. apply wp_bind.
  eapply wp_Done; [unfold ABTU_free; by rewrite Hh|]. rewrite Hn. apply IH; simpl in *; [done|lia|..].
  - intros i x Hi. rewrite lookup_delete_ne; [by apply (Hl (S i))|].
    intros ->. by apply Hp, (list_elem_of_lookup_2 _ i).
  - intros x [Hx Hs]%lookup_delete_is_Some. specialize (Hd x Hs). apply elem_of_cons in Hd as [->|]; done.
Qed.

Lemma chained_size s l : chained s l → size (blocks s) = length l.
Proof.
  intros Hc. rewrite <-size_dom. rewrite <-(size_list_to_set (C:=gset Z) l) by apply Hc.
  f_equal. apply set_eq. intros x. rewrite elem_of_dom, elem_of_list_to_set. split; [apply Hc|].
  intros (i & _ & ->)%(chained_lookup _ _ _ Hc). by eexists.
Qed.

Lemma list_free_all_ok s l :
  chained s l → wp (list_free_all (size (blocks s)) (p_head s)) (λ _ s', blocks s' = ∅) s.
Proof.
  intros Hc. rewrite (chained_size _ _ Hc), (ch_head _ _ Hc).
  apply list_free_suffix; [apply Hc|done| |apply Hc].
  intros i x Hi. exists (hdr l i). split; [by apply Hc|done].
Qed.
End alloc.

(** ** Total correctness of the operations on lists *)

(** The chain holds at least the blocks [D]. *)
Definition holds (D : gset Z) (s : alloc_list) : Prop :=
  ∃ l, chained s l ∧ ∀ p, p ∈ D → p ∈ l.

(** An error [err] leaves a chain behind, a value is as in [Q]. *)
Definition epost {A} (err : Z → Prop) (Q : A → alloc_list → Prop) (r : Z + A) (s : alloc_list)
    : Prop :=
  match r with
  | inl e => err e ∧ holds ∅ s
  | inr a => Q a s
  end.

Lemma holds_weaken D D' s : holds D s → D' ⊆ D → holds D' s.
Proof. intros (l & Hc & Hl) Hs. exists l. split; [done|]. intros p Hp. by apply Hl, Hs. Qed.

Lemma wp_check {A B} err (m : E A) (k : A → E B) P Q s :
  wp m (epost err P) s → (∀ a s', P a s' → wp (k a) (epost err Q) s') →
  wp (check m k) (epost err Q) s.
Proof.
  intros Hm Hk. apply wp_bind. eapply wp_mono; [exact Hm|]. intros [e|a] s'; simpl; [|apply Hk].
  by intros [H1 H2].
Qed.

Lemma epost_mono {A} (err err' : Z → Prop) (P Q : A → alloc_list → Prop) m s :
  wp m (epost err P) s → (∀ e, err e → err' e) → (∀ a s', P a s' → Q a s') →
  wp m (epost err' Q) s.
Proof.
  intros Hm He HQ. eapply wp_mono; [exact Hm|]. intros [e|a] s'; simpl; [|apply HQ].
  intros [H1 H2]. auto.
Qed.

Section lists.
Variables (gives moves : nat → bool).

(** The only error of the operations on lists, if the allocator can fail at all. *)
Definition no_memory (e : Z) : Prop := e = ABT_ERR_MEM ∧ ∃ n, gives n = false.

Lemma list_calloc_spec D s :
  holds D s →
  wp (list_calloc gives) (epost no_memory (λ p s', (p ∉ D) ∧ holds ({[p]} ∪ D) s')) s.
Proof.
  intros (l & Hc & Hl). eapply wp_mono; [by apply list_calloc_ok|].
  intros [e|p] s'; simpl.
  - intros (-> & Hg & Hc'). split; [by split|]. exists l. split; [done|]. set_solver.
  - intros [Hp Hc']. split; [by intros ?%Hl|]. exists (l ++ [p]). split; [done|].
    intros q [->%elem_of_singleton|Hq]%elem_of_union; apply elem_of_app; [right; by left|left; by apply Hl].
Qed.

(** [n] elements are in the block [o] of its own: no block exactly for no element. *)
Definition owns (o : option Z) (n : Z) (D : gset Z) (s : alloc_list) : Prop :=
  match o with
  | None => n = 0 ∧ holds D s
  | Some p => 0 < n ∧ (p ∉ D) ∧ holds ({[p]} ∪ D) s
  end.

Lemma list_realloc_spec sz o n D s :
  owns o n D s → (sz = 0 ↔ n = 0) →
  wp (list_realloc gives moves sz o)
     (epost no_memory (λ p s', (p ∉ D) ∧ holds ({[p]} ∪ D) s')) s.
Proof.
  intros Ho Hsz. destruct o as [p|].
  - destruct Ho as (Hn & Hp & l & Hc & Hl).
    assert (Hpl : p ∈ l) by (apply Hl; set_solver).
    destruct (proj1 (list_elem_of_lookup l p) Hpl) as [k Hk].
    eapply wp_mono; [apply list_realloc_ok; [lia|done|done]|].
    intros [e|pn] s'; simpl.
    + intros (-> & Hg & Hc'). split; [by split|]. exists l. split; [done|]. set_solver.
    + intros [Hpn Hc']. split.
      { destruct Hpn as [->|Hpn]; [done|]. intros HpD. apply Hpn, Hl. set_solver. }
      exists (<[k := pn]> l). split; [done|]. pose proof (lookup_lt_Some _ _ _ Hk).
      intros q [->%elem_of_singleton|Hq]%elem_of_union.
      * apply (list_elem_of_lookup_2 _ k). by rewrite list_lookup_insert_eq.
      * assert (Hql : q ∈ l) by (apply Hl; set_solver).
        apply list_elem_of_lookup in Hql as [j Hj]. apply (list_elem_of_lookup_2 _ j).
        rewrite list_lookup_insert_ne; [done|]. intros ->. congruence.
  - destruct Ho as [-> Ho]. unfold list_realloc. rewrite (proj2 Hsz eq_refl). simpl.
    by apply list_calloc_spec.
Qed.

Lemma interval_length id num stride : length (interval id num stride) = Z.to_nat num.
Proof. unfold interval. by rewrite length_map, length_seq. Qed.

Definition owns_ids (il : ABTD_affinity_id_list) (D : gset Z) (s : alloc_list) : Prop :=
  owns (ids_ptr il) (id_num il) D s.

Lemma id_list_create_spec D s :
  holds D s →
  wp (id_list_create gives) (epost no_memory (λ il s', owns_ids il D s' ∧ il = IdList None [])) s.
Proof.
  intros Hh. eapply wp_check; [by apply (list_calloc_spec D)|]. intros p s' [Hp Hs].
  apply wp_ret. split; [|done]. split; [done|]. eapply holds_weaken; [done|set_solver].
Qed.

Lemma id_list_add_spec il id num stride D s :
  owns_ids il D s → 1 ≤ num → id_num il + num < 2 ^ 32 →
  wp (id_list_add gives moves il id num stride)
     (epost no_memory (λ il' s', owns_ids il' D s' ∧ ids il' = ids il ++ interval id num stride)) s.
Proof.
  intros Ho Hn Hlt. unfold id_list_add. pose proof (Nat2Z.is_nonneg (length (ids il))) as H0.
  eapply wp_check; [eapply list_realloc_spec; [done|unfold id_num; lia]|].
  intros p s' [Hp Hs]. rewrite u32_small by (unfold id_num in *; lia). rewrite Z.ltb_irrefl.
  apply wp_ret. split; [|done]. split; [|done]. unfold id_num. simpl.
  rewrite length_app, interval_length. lia.
Qed.

(** The copies of an id list, shifted by one stride after the other. *)
Definition shifted (base : list Z) (stride i : Z) : list Z := map (λ id, offset id stride i) base.

Lemma list_copies_spec n i base stride num len D s :
  holds D s → 0 ≤ num → 0 ≤ i → num + i + Z.of_nat n ≤ len → len < 2 ^ 32 →
  wp (list_copies gives n i base stride num len)
     (epost no_memory (λ r s', holds D s' ∧
        ids <$> r = (λ k, shifted (ids base) stride (i + Z.of_nat k)) <$> seq 0 n)) s.
Proof.
  revert i s. induction n as [|n IH]; intros i s Hh Hnum Hi Hlen Hlt; [by apply wp_ret|].
  simpl list_copies. eapply wp_check; [by apply (id_list_create_spec D)|].
  intros il s1 [Ho ->]. destruct Ho as [_ Ho].
  eapply wp_check; [by apply (list_calloc_spec D)|]. intros p s2 [Hp Hs2].
  apply wp_bind. unfold check_slot. rewrite u32_small by lia.
  rewrite (proj2 (Z.ltb_lt _ _)) by lia. apply wp_ret.
  eapply wp_check; [apply IH; [eapply holds_weaken; [done|set_solver]|lia..]|].
  intros r s3 [Hs3 Hr]. apply wp_ret. split; [done|].
  rewrite !fmap_cons, Hr. simpl. rewrite Z.add_0_r. f_equal.
  rewrite <-seq_shift, <-list_fmap_compose. apply list_fmap_ext. intros j k _. simpl. f_equal. lia.
Qed.

Definition owns_lists (al : ABTD_affinity_list) (D : gset Z) (s : alloc_list) : Prop :=
  owns (lists_ptr al) (list_num al) D s.

(** The id lists of an interval: the first as it is, then shifted ones. *)
Definition interval_lists (base : list Z) (num stride : Z) : list (list Z) :=
  base :: ((λ k, shifted base stride (1 + Z.of_nat k)) <$> seq 0 (Z.to_nat (num - 1))).

Lemma list_create_spec s :
  holds ∅ s →
  wp (list_create gives) (epost no_memory (λ al s', owns_lists al ∅ s' ∧ al = AffinityList None [] None)) s.
Proof.
  intros Hh. eapply wp_check; [by apply (list_calloc_spec ∅)|]. intros p s' [Hp Hs].
  apply wp_ret. split; [|done]. split; [done|]. eapply holds_weaken; [done|set_solver].
Qed.

Lemma list_add_spec al base num stride s :
  owns_lists al ∅ s → 1 ≤ num → list_num al + num < 2 ^ 32 →
  wp (list_add gives moves al base num stride)
     (epost no_memory (λ al' s', owns_lists al' ∅ s' ∧
        ids <$> p_id_lists al' = (ids <$> p_id_lists al) ++ interval_lists (ids base) num stride)) s.
Proof.
  intros Ho Hn Hlt. unfold list_add. pose proof (Nat2Z.is_nonneg (length (p_id_lists al))) as H0.
  eapply wp_check; [eapply list_realloc_spec; [done|unfold list_num; lia]|].
  intros p s1 [Hp Hs1]. rewrite u32_small by (unfold list_num in *; lia).
  eapply wp_check; [eapply (list_copies_spec _ _ _ _ _ _ ({[p]} ∪ ∅)); [done|unfold list_num in *; lia..]|].
  intros copies s2 [Hs2 Hc]. apply wp_bind. unfold check_slot.
  rewrite u32_small by (unfold list_num in *; lia). rewrite (proj2 (Z.ltb_lt _ _)) by lia.
  apply wp_ret. apply wp_ret. split.
  - split; [|split; [set_solver|done]]. unfold list_num. simpl. rewrite length_app. simpl. lia.
  - simpl. rewrite fmap_app, fmap_cons, Hc. done.
Qed.

Lemma interval_lists_length base num stride : 1 ≤ num → length (interval_lists base num stride) = Z.to_nat num.
Proof. intros. unfold interval_lists. simpl. rewrite length_fmap, length_seq. lia. Qed.
End lists.

(** ** Safety of the parser on every text *)

(** The digits at the front of a text. *)
Definition run_length (t : list Z) : Z := Z.of_nat (length (take_while is_digit t)).

(** No number has more than nine digits. *)
Fixpoint short_runs (t : list Z) : bool :=
  match t with
  | [] => true
  | _ :: t' => (run_length t <=? 9) && short_runs t'
  end.

(** A C string with no number of more than nine digits. *)
Definition text (s : list Z) : Prop :=
  ∃ t, s = t ++ [0] ∧ (0 ∉ t) ∧ short_runs t = true.

Lemma text_inv c s : text (c :: s) → (c = 0 ∧ s = []) ∨ (c ≠ 0 ∧ text s).
Proof.
  intros (t & Ht & Hn & Hr). destruct t as [|c' t]; simplify_eq/=; [by left|right].
  apply not_elem_of_cons in Hn as [Hc Hn]. apply andb_true_iff in Hr as [_ Hr].
  split; [congruence|]. by exists t.
Qed.

Lemma text_nonempty s : text s → s ≠ [].
Proof. intros (t & -> & _). by destruct t. Qed.

Lemma text_run s : text s → 0 ≤ run_length s ≤ 9.
Proof.
  intros (t & -> & Hn & Hr). unfold run_length. destruct t as [|c t]; [simpl; lia|].
  apply andb_true_iff in Hr as [Hr _]. unfold run_length in Hr.
  assert (Heq : take_while is_digit ((c :: t) ++ [0]) = take_while is_digit (c :: t)).
  { clear. induction (c :: t) as [|a l IH]; [done|]. simpl. destruct (is_digit a); [by rewrite IH|done]. }
  rewrite Heq. lia.
Qed.

Definition int_answer (strict : bool) (s : list Z) (o : option (Z * list Z)) : Prop :=
  match o with
  | None => True
  | Some (v, s') => - 10 ^ 9 < v < 10 ^ 9 ∧ text s' ∧
                    (length s' + (if strict then 1 else 0) ≤ length s)%nat
  end.

Lemma int_answer_tail strict b s c o : int_answer b s o → int_answer strict (c :: s) o.
Proof. destruct o as [[v s']|]; simpl; [|done]. intros (? & ? & ?). destruct strict, b; split_and!; (done || lia). Qed.

Lemma run_length_digit c s : is_digit c = true → run_length (c :: s) = 1 + run_length s.
Proof. intros Hc. unfold run_length. simpl. rewrite Hc. simpl. lia. Qed.

Lemma consume_int_loop_text s val sg flag :
  text s → (sg = 1 ∨ sg = -1) → 0 ≤ val < 10 ^ (9 - run_length s) → (flag = FlagV ∨ val = 0) →
  ∃ o, consume_int_loop s val sg flag = Done o ∧
       int_answer (match flag with FlagV => false | _ => true end) s o.
Proof.
  revert val sg flag. induction s as [|c s IH]; intros val sg flag Ht Hsg Hv Hf.
  { by destruct (text_nonempty [] Ht). }
  pose proof (text_run _ Ht) as Hrun.
  assert (Hv9 : val < 10 ^ 9).
  { eapply Z.lt_le_trans; [apply Hv|]. apply Z.pow_le_mono_r; lia. }
  destruct (is_digit c) eqn:Hc.
  - rewrite run_length_digit in Hv, Hrun by done.
    destruct (is_digit_sign c Hc) as [Hp Hm]. pose proof (is_digit_blank c Hc) as Hb.
    assert (Hw : is_whitespace c = false) by (revert Hb; unfold is_blank, is_whitespace; lia).
    destruct (text_inv _ _ Ht) as [[-> _]|[Hc0 Hts]]; [done|].
    apply is_digit_range in Hc as Hc'.
    assert (Hpow : 10 ^ (9 - run_length s) = 10 * 10 ^ (9 - (1 + run_length s))).
    { rewrite <-Z.pow_succ_r by lia. f_equal. lia. }
    assert (Hnew : 0 ≤ val * 10 + (c - 48) < 10 ^ (9 - run_length s)) by lia.
    assert (Hle : val * 10 + (c - 48) < 10 ^ 9).
    { eapply Z.lt_le_trans; [apply Hnew|]. pose proof (text_run _ Hts). apply Z.pow_le_mono_r; lia. }
    destruct (IH (val * 10 + (c - 48)) sg FlagV Hts Hsg Hnew (or_introl eq_refl)) as (o & Ho & Hans).
    exists o. split; [|by eapply int_answer_tail].
    cbn [consume_int_loop]. rewrite Hp, Hm, Hw, Hc, !andb_false_r.
    replace (INT_MAX <? val * 10 + (c - 48)) with false; [done|].
    unfold INT_MAX. lia.
  - assert (Hstop : ∃ o, Done (if match flag with FlagV => true | _ => false end
                               then Some (val * sg, c :: s) else None) = Done o ∧
       int_answer (match flag with FlagV => false | _ => true end) (c :: s) o).
    { eexists. split; [done|]. destruct flag; simpl; [done..|]. split_and!; [lia|lia|done|simpl; lia]. }
    destruct (text_inv _ _ Ht) as [[-> ->]|[Hc0 Hts]].
    { destruct flag; simpl; [by eexists..|]. exact Hstop. }
    destruct (decide (flag = FlagV)) as [->|Hnv].
    { cbn [consume_int_loop]. rewrite Hc. exact Hstop. }
    assert (val = 0) as -> by tauto.
    assert (Hgo : ∀ sg' f, (sg' = 1 ∨ sg' = -1) → ∃ o, consume_int_loop s 0 sg' f = Done o ∧
       int_answer true (c :: s) o).
    { intros sg' f Hs'. pose proof (text_run _ Hts).
      destruct (IH 0 sg' f Hts Hs') as (o & Ho & Ha);
        [split; [lia|apply Z.pow_pos_nonneg; lia]|by right|].
      exists o. split; [done|by eapply int_answer_tail]. }
    cbn [consume_int_loop]. rewrite Hc.
    destruct flag; [| |done]; cbn [andb];
      (destruct (c =? 45); [by apply Hgo; lia|]); (destruct (c =? 43); [by apply Hgo|]);
      try exact Hstop.
    destruct (is_whitespace c); [by apply Hgo|exact Hstop].
Qed.

Lemma consume_int_text s :
  text s → ∃ o, consume_int s = Done o ∧ int_answer true s o.
Proof.
  intros Ht. apply (consume_int_loop_text s 0 1 FlagN); [done|by left| |by right].
  pose proof (text_run _ Ht). split; [lia|apply Z.pow_pos_nonneg; lia].
Qed.

Lemma consume_pint_text s :
  text s → ∃ o, consume_pint s = Done o ∧ int_answer true s o ∧
                ∀ v s', o = Some (v, s') → 1 ≤ v.
Proof.
  intros Ht. destruct (consume_int_text s Ht) as (o & Ho & Ha). unfold consume_pint. rewrite Ho.
  destruct o as [[v s']|]; [|by exists None].
  destruct (Z.ltb_spec 0 v); [|by exists None]. exists (Some (v, s')).
  split_and!; [done|done|]. intros ?? [= <- <-]. lia.
Qed.

(** A symbol other than the terminating 0 leaves a shorter text. *)
Lemma consume_symbol_text s c :
  text s → ∃ o, consume_symbol s c = Done o ∧
    ∀ s', o = Some s' → c ≠ 0 → text s' ∧ (length s' < length s)%nat.
Proof.
  induction s as [|a s IH]; intros Ht; [by destruct (text_nonempty [] Ht)|].
  simpl. destruct (Z.eqb_spec a c) as [->|Hac].
  - exists (Some s). split; [done|]. intros ? [= <-] Hc.
    destruct (text_inv _ _ Ht) as [[? _]|[_ Hts]]; [done|]. simpl. split; [done|lia].
  - destruct (is_whitespace a) eqn:Hw; [|by exists None].
    destruct (text_inv _ _ Ht) as [[-> _]|[_ Hts]]; [done|].
    destruct (IH Hts) as (o & Ho & Hs). exists o. split; [done|].
    intros s' Ho' Hc. destruct (Hs s' Ho' Hc). simpl. split; [done|lia].
Qed.

Section safety.
Variables (gives moves : nat → bool).

Definition parse_error (e : Z) : Prop := e = ABT_ERR_OTHER ∨ no_memory gives e.

Lemma parse_fail {A} (Q : A → alloc_list → Prop) D s :
  holds D s → wp (fail ABT_ERR_OTHER) (epost parse_error Q) s.
Proof. intros Hh. split; [by left|]. eapply holds_weaken; [done|set_solver]. Qed.

Lemma owns_holds o n D s : owns o n D s → holds D s.
Proof.
  destruct o as [p|]; simpl; [|by intros [_ ?]]. intros (_ & _ & Hh).
  eapply holds_weaken; [done|set_solver].
Qed.

Lemma wp_lift {S A B} (o : outcome A) (k : A → C S B) Q a s :
  o = Done a → wp (k a) Q s → wp (lift o ≫= k) Q s.
Proof. intros -> Hk. by apply wp_bind. Qed.

Definition num_stride_post (str : list Z) (s : alloc_list) (r : Z * Z * list Z) (s' : alloc_list) : Prop :=
  s' = s ∧ 1 ≤ r.1.1 ∧ text r.2 ∧ (length r.2 ≤ length str)%nat.

Lemma parse_num_stride_spec str D s :
  text str → holds D s →
  wp (parse_num_stride str) (epost parse_error (num_stride_post str s)) s.
Proof.
  intros Ht Hh. unfold parse_num_stride.
  destruct (consume_symbol_text str 58 Ht) as (o1 & Ho1 & H1). eapply wp_lift; [exact Ho1|].
  destruct o1 as [str1|]; [|by apply wp_ret; split_and!].
  destruct (H1 _ eq_refl ltac:(done)) as [Ht1 Hl1].
  destruct (consume_pint_text str1 Ht1) as (o2 & Ho2 & H2 & H2'). eapply wp_lift; [exact Ho2|].
  destruct o2 as [[num str2]|]; [|by eapply parse_fail].
  destruct H2 as (_ & Ht2 & Hl2). specialize (H2' _ _ eq_refl).
  destruct (consume_symbol_text str2 58 Ht2) as (o3 & Ho3 & H3). eapply wp_lift; [exact Ho3|].
  destruct o3 as [str3|]; [|apply wp_ret; split_and!; simpl; [done|done|done|lia]].
  destruct (H3 _ eq_refl ltac:(done)) as [Ht3 Hl3].
  destruct (consume_int_text str3 Ht3) as (o4 & Ho4 & H4). eapply wp_lift; [exact Ho4|].
  destruct o4 as [[stride str4]|]; [|by eapply parse_fail].
  destruct H4 as (_ & Ht4 & Hl4). apply wp_ret. split_and!; simpl; [done|done|done|lia].
Qed.

Definition ids_post (D : gset Z) (str : list Z) (r : ABTD_affinity_id_list * list Z) (s : alloc_list) : Prop :=
  owns_ids r.1 D s ∧ ids r.1 ≠ [] ∧ text r.2 ∧ (length r.2 < length str)%nat.

Lemma parse_id_list_spec fuel il str D s :
  text str → (length str ≤ fuel)%nat → owns_ids il D s →
  id_num il + MAX_NUM_ELEMS * Z.of_nat (length str) < 2 ^ 32 →
  wp (parse_id_list gives moves fuel il str) (epost parse_error (ids_post D str)) s.
Proof.
  revert il str s. induction fuel as [|fuel IH]; intros il str s Ht Hf Ho Hn.
  { destruct str; [by destruct (text_nonempty _ Ht)|simpl in Hf; lia]. }
  assert (Hh : holds D s) by (by eapply owns_holds). simpl.
  destruct (consume_int_text str Ht) as (o1 & Ho1 & H1). eapply wp_lift; [exact Ho1|].
  destruct o1 as [[id str1]|]; [|by eapply parse_fail]. destruct H1 as (_ & Ht1 & Hl1).
  eapply wp_check; [by eapply parse_num_stride_spec|].
  intros [[num stride] str2] s1 (-> & Hnum & Ht2 & Hl2). simpl in *.
  destruct (Z.leb_spec MAX_NUM_ELEMS num); [by eapply parse_fail|].
  eapply wp_check.
  { eapply epost_mono; [eapply id_list_add_spec; [done|done|unfold MAX_NUM_ELEMS in *; lia]|by right|done]. }
  intros il1 s2 [Ho2 Hids]. assert (Hh2 : holds D s2) by (by eapply owns_holds).
  assert (Hnum1 : id_num il1 = id_num il + num).
  { unfold id_num. rewrite Hids, length_app, interval_length. lia. }
  destruct (consume_symbol_text str2 44 Ht2) as (o3 & Ho3 & H3). eapply wp_lift; [exact Ho3|].
  destruct o3 as [str3|].
  - destruct (H3 _ eq_refl ltac:(done)) as [Ht3 Hl3].
    eapply epost_mono; [apply (IH il1 str3); [done|lia|done|unfold MAX_NUM_ELEMS in *; lia]|done|].
    intros r s3 (? & ? & ? & ?). split_and!; [done..|lia].
  - destruct (consume_symbol_text str2 125 Ht2) as (o4 & Ho4 & H4). eapply wp_lift; [exact Ho4|].
    destruct o4 as [str4|]; [|by eapply parse_fail].
    destruct (H4 _ eq_refl ltac:(done)) as [Ht4 Hl4]. apply wp_ret. split_and!; simpl; [done| |done|lia].
    intros Hnil. unfold id_num in Hnum1. rewrite Hnil in Hnum1. simpl in Hnum1. lia.
Qed.

Lemma parse_es_id_list_spec fuel str D s :
  text str → (length str ≤ fuel)%nat → holds D s →
  MAX_NUM_ELEMS * Z.of_nat (length str) < 2 ^ 32 →
  wp (parse_es_id_list gives moves fuel str) (epost parse_error (ids_post D str)) s.
Proof.
  intros Ht Hf Hh Hn. unfold parse_es_id_list.
  eapply wp_check; [eapply epost_mono; [by apply (id_list_create_spec _ D)|by right|done]|].
  intros il s1 [Ho ->].
  destruct (consume_int_text str Ht) as (o1 & Ho1 & H1). eapply wp_lift; [exact Ho1|].
  destruct o1 as [[id str1]|].
  - destruct H1 as (_ & Ht1 & Hl1).
    eapply wp_check; [eapply epost_mono; [by apply (id_list_add_spec _ _ _ _ _ _ D)|by right|done]|].
    intros il1 s2 [Ho2 Hids]. apply wp_ret. split_and!; simpl in *; [done| |done|lia].
    by rewrite Hids.
  - destruct (consume_symbol_text str 123 Ht) as (o2 & Ho2 & H2). eapply wp_lift; [exact Ho2|].
    destruct o2 as [str2|]; [|eapply parse_fail; by destruct Ho].
    destruct (H2 _ eq_refl ltac:(done)) as [Ht2 Hl2].
    eapply epost_mono; [apply parse_id_list_spec; [done|lia|done|unfold id_num, MAX_NUM_ELEMS in *; cbn [ids length]; lia]|done|].
    intros r s3 (? & ? & ? & ?). split_and!; [done..|lia].
Qed.

(** What a parsed list looks like: at least one id list, none of them empty. *)
Definition wf_lists (ls : list (list Z)) : Prop := ls ≠ [] ∧ Forall (λ l, l ≠ []) ls.

Lemma interval_lists_wf base num stride : base ≠ [] → Forall (λ l, l ≠ []) (interval_lists base num stride).
Proof.
  intros Hb. constructor; [done|]. apply Forall_fmap, Forall_forall. intros k _. simpl. by destruct base.
Qed.

(** The id lists of the parser are in a block of their own. *)
Lemma owns_lists_frame al s :
  owns_lists al ∅ s → ∃ D, holds D s ∧ ∀ s', holds D s' → owns_lists al ∅ s'.
Proof.
  unfold owns_lists, owns. destruct (lists_ptr al) as [p|].
  - intros (? & ? & ?). exists ({[p]} ∪ ∅). split; [done|]. by intros s' Hs'.
  - intros [? ?]. exists ∅. split; [done|]. by intros s' Hs'.
Qed.

Lemma parse_intervals_spec fuel al str s :
  text str → (length str ≤ fuel)%nat → owns_lists al ∅ s →
  Forall (λ l, l ≠ []) (ids <$> p_id_lists al) →
  list_num al + MAX_NUM_ELEMS * Z.of_nat (length str) < 2 ^ 32 →
  wp (parse_intervals gives moves fuel al str)
     (epost parse_error (λ al' s', owns_lists al' ∅ s' ∧ wf_lists (ids <$> p_id_lists al'))) s.
Proof.
  revert al str s. induction fuel as [|fuel IH]; intros al str s Ht Hf Ho Hwf Hn.
  { destruct str; [by destruct (text_nonempty _ Ht)|simpl in Hf; lia]. }
  assert (Hnn : 0 ≤ list_num al) by (unfold list_num; lia).
  destruct (owns_lists_frame al s Ho) as (D & HD & Hback). simpl parse_intervals.
  eapply wp_check; [apply (parse_es_id_list_spec _ _ D); [done|done|done|unfold MAX_NUM_ELEMS in *; lia]|].
  intros [il str1] s1 (Ho1 & Hne & Ht1 & Hl1). simpl in *. apply owns_holds in Ho1 as Hh1.
  eapply wp_check; [by eapply parse_num_stride_spec|].
  intros [[num stride] str2] s2 (-> & Hnum & Ht2 & Hl2). simpl in *.
  destruct (Z.leb_spec MAX_NUM_ELEMS num); [by eapply parse_fail|].
  eapply wp_check.
  { eapply epost_mono; [eapply list_add_spec; [by apply Hback|done|unfold MAX_NUM_ELEMS in *; lia]|by right|done]. }
  intros al1 s3 [Ho3 Hids]. apply owns_holds in Ho3 as Hh3.
  assert (Hwf1 : Forall (λ l, l ≠ []) (ids <$> p_id_lists al1)).
  { rewrite Hids. apply Forall_app. split; [done|by apply interval_lists_wf]. }
  assert (Hnum1 : list_num al1 = list_num al + num).
  { unfold list_num. rewrite <-(length_fmap ids), Hids, length_app, length_fmap.
    rewrite interval_lists_length by done. lia. }
  destruct (consume_symbol_text str2 44 Ht2) as (o3 & Ho3' & H3). eapply wp_lift; [exact Ho3'|].
  destruct o3 as [str3|].
  - destruct (H3 _ eq_refl ltac:(done)) as [Ht3 Hl3].
    apply IH; [done|lia|done|done|unfold MAX_NUM_ELEMS in *; lia].
  - destruct (consume_symbol_text str2 0 Ht2) as (o4 & Ho4 & _). eapply wp_lift; [exact Ho4|].
    destruct o4 as [str4|]; [|by eapply parse_fail].
    apply wp_ret. split; [done|]. split; [|done]. rewrite Hids. by destruct (ids <$> p_id_lists al).
Qed.
End safety.

Lemma no_blocks_holds : holds ∅ no_blocks.
Proof.
  exists []. split; [|set_solver]. split; [done|done|constructor|..]; simpl.
  - intros p [? Hp]. by rewrite lookup_empty in Hp.
  - done.
  - intros p Hp. by apply not_elem_of_nil in Hp.
Qed.

Lemma affinity_create_safe gives moves t :
  (0 ∉ t) → short_runs t = true → Z.of_nat (length t) < 4095 →
  ∃ r s', ABTD_affinity_list_create gives moves (Some (t ++ [0])) no_blocks = Done (r, s') ∧
    match r with
    | inl e => (e = ABT_ERR_OTHER ∨ (e = ABT_ERR_MEM ∧ ∃ n, gives n = false)) ∧ blocks s' = ∅
    | inr al => (ids <$> p_id_lists al ≠ [] ∧ Forall (λ l, l ≠ []) (ids <$> p_id_lists al)) ∧
        ∃ s'', ABTD_affinity_list_free al s' = Done ((), s'') ∧ blocks s'' = ∅
    end.
Proof.
  intros Hn Hr Hl. apply wp_run. unfold ABTD_affinity_list_create. apply wp_bind.
  assert (Htext : text (t ++ [0])) by (by exists t).
  eapply wp_mono.
  { unfold parse_list. eapply (wp_check (parse_error gives)).
    - eapply epost_mono; [apply list_create_spec, no_blocks_holds| |done]. by right.
    - intros al s1 [Ho ->]. apply parse_intervals_spec; [done|done|done|constructor|].
      rewrite length_app. unfold list_num, MAX_NUM_ELEMS. cbn [p_id_lists length]. lia. }
  intros [e|al] s1; simpl.
  - intros [He (l & Hc & _)]. apply wp_bind, wp_ret, wp_bind.
    eapply wp_mono; [by eapply list_free_all_ok|]. intros u s2 Hs2. by apply wp_ret.
  - intros [Ho Hwf]. apply owns_holds in Ho as (l & Hc & _). apply wp_bind, wp_ret, wp_ret.
    split; [done|]. pose proof (list_free_all_ok _ _ Hc) as Hfree.
    apply wp_run in Hfree as ([] & s2 & H1 & H2). by exists s2.
Qed.

(** C28: whatever text of less than 4095 characters (with numbers of at most nine
    digits) ABT_SET_AFFINITY holds, and whenever the allocator fails or moves blocks,
    the parser ends without undefined behaviour.  It either reports a
    syntax error or exhausted memory, and then no block of memory is left; or it
    answers at least one CPU id list, none of them empty, and dropping the answer
    later frees every block. *)
Theorem affinity_parse_safe gives moves t :
  (0 ∉ t) → short_runs t = true → Z.of_nat (length t) < 4095 →
  ∃ r s', ABTD_affinity_list_create gives moves (Some (t ++ [0])) no_blocks = Done (r, s') ∧
    match r with
    | inl e => (e = ABT_ERR_OTHER ∨ (e = ABT_ERR_MEM ∧ ∃ n, gives n = false)) ∧ blocks s' = ∅
    | inr al => (ids <$> p_id_lists al ≠ [] ∧ Forall (λ l, l ≠ []) (ids <$> p_id_lists al)) ∧
        ∃ s'', ABTD_affinity_list_free al s' = Done ((), s'') ∧ blocks s'' = ∅
    end.
Proof. apply affinity_create_safe. Qed.

(** The text [{1:2,5},7]. *)
Definition sample_affinity : list Z := [123; 49; 58; 50; 44; 53; 125; 44; 55].

Lemma affinity_parse_safe_witness :
  ∃ r s', ABTD_affinity_list_create (λ n, negb (Nat.eqb n 3)) (λ _, true)
            (Some (sample_affinity ++ [0])) no_blocks = Done (r, s').
Proof.
  destruct (affinity_parse_safe (λ n, negb (Nat.eqb n 3)) (λ _, true) sample_affinity) as (r & s' & H & _).
  - apply (bool_decide_unpack _). vm_compute. exact I.
  - vm_compute. reflexivity.
  - vm_compute. reflexivity.
  - exists r, s'. exact H.
Defined.

(** a number of the text that does not fit an int overflows while it is read:
    the parser has undefined behaviour already on the text 2147483648. *)
Theorem affinity_number_overflows gives moves :
  gives 0%nat = true → gives 1%nat = true →
  ABTD_affinity_list_create gives moves (Some (dec_text 2147483648 ++ [0])) no_blocks = Fault UB.
Proof.
  intros H0 H1. unfold ABTD_affinity_list_create, parse_list, list_create, list_calloc, check,
    ABTU_calloc, mbind, C_bind. simpl allocs. rewrite H0. simpl.
  unfold parse_es_id_list, id_list_create, list_calloc, check, ABTU_calloc, mbind, C_bind.
  simpl. unfold set_header. simpl. rewrite lookup_insert_eq. simpl. rewrite H1. simpl.
  rewrite lookup_insert_eq. simpl.
  unfold header. simpl. done.
Qed.

(** ** The grammar and its meaning

    The abstract syntax of the grammar in the head of abtd_affinity.c, its text, and the
    id lists it stands for. *)

(** The optional [":" <num>] with the optional [":" <stride>]. *)
Definition num_stride := option (Z * option Z).
Inductive es_id_list :=
  | EsId (id : Z)
  | EsIds (first : Z * num_stride) (more : list (Z * num_stride)).
Record affinity := Affinity {
  aff_first : es_id_list * num_stride;
  aff_more : list (es_id_list * num_stride)
}.

Definition ns_num (o : num_stride) : Z := match o with Some (n, _) => n | None => 1 end.
Definition ns_stride (o : num_stride) : Z := match o with Some (_, Some s) => s | _ => 1 end.

(** The text. *)
Definition ns_text (o : num_stride) : list Z :=
  match o with
  | None => []
  | Some (n, None) => 58 :: dec_text n
  | Some (n, Some s) => 58 :: dec_text n ++ 58 :: dec_text s
  end.
Definition id_text (i : Z * num_stride) : list Z := dec_text i.1 ++ ns_text i.2.
Definition es_text (e : es_id_list) : list Z :=
  match e with
  | EsId id => dec_text id
  | EsIds i more => 123 :: id_text i ++ concat ((λ i, 44 :: id_text i) <$> more) ++ [125]
  end.
Definition interval_text (i : es_id_list * num_stride) : list Z := es_text i.1 ++ ns_text i.2.
Definition affinity_text (a : affinity) : list Z :=
  interval_text (aff_first a) ++ concat ((λ i, 44 :: interval_text i) <$> aff_more a).

(** The meaning. *)
Definition id_value (i : Z * num_stride) : list Z := interval i.1 (ns_num i.2) (ns_stride i.2).
Definition es_value (e : es_id_list) : list Z :=
  match e with
  | EsId id => interval id 1 1
  | EsIds i more => id_value i ++ concat (id_value <$> more)
  end.
Definition interval_value (i : es_id_list * num_stride) : list (list Z) :=
  interval_lists (es_value i.1) (ns_num i.2) (ns_stride i.2).
Definition affinity_value (a : affinity) : list (list Z) :=
  interval_value (aff_first a) ++ concat (interval_value <$> aff_more a).

(** What the grammar and the parser's limits ask for: counts from 1 up to a million,
    ids and strides that are ints other than INT_MIN, less than 4095 items in each list. *)
Definition int_ok (z : Z) : bool := (- INT_MAX <=? z) && (z <=? INT_MAX).
Definition ns_ok (o : num_stride) : bool :=
  (1 <=? ns_num o) && (ns_num o <? MAX_NUM_ELEMS) && int_ok (ns_stride o).
Definition id_ok (i : Z * num_stride) : bool := int_ok i.1 && ns_ok i.2.
Definition es_ok (e : es_id_list) : bool :=
  match e with
  | EsId id => int_ok id
  | EsIds i more => id_ok i && forallb id_ok more && (Z.of_nat (length more) <? 4094)
  end.
Definition interval_ok (i : es_id_list * num_stride) : bool := es_ok i.1 && ns_ok i.2.
Definition affinity_ok (a : affinity) : bool :=
  interval_ok (aff_first a) && forallb interval_ok (aff_more a) &&
  (Z.of_nat (length (aff_more a)) <? 4094).

(** ** Reading back what was printed *)

(** The character a text goes on with. *)
Definition next (s : list Z) : Z := default 0 (head s).

Lemma consume_digits ds rest v sg :
  Forall (λ c, is_digit c = true) ds → rest ≠ [] → is_digit (next rest) = false →
  0 ≤ v → dec_value v ds ≤ INT_MAX →
  consume_int_loop (ds ++ rest) v sg FlagV = Done (Some (dec_value v ds * sg, rest)).
Proof.
  intros Hds Hr Hn. revert v. induction Hds as [|c ds Hc Hds IH]; intros v Hv Hmax.
  - destruct rest as [|c rest]; [done|]. unfold next in Hn. simpl in *. by rewrite Hn.
  - pose proof (is_digit_range c) as [Hcr _]. specialize (Hcr Hc).
    assert (Hle : v * 10 + (c - 48) ≤ dec_value (v * 10 + (c - 48)) ds)
      by (apply dec_value_mono; [lia|done]).
    cbn [app consume_int_loop]. rewrite Hc. cbn [andb].
    change (dec_value v (c :: ds)) with (dec_value (v * 10 + (c - 48)) ds) in *.
    replace (INT_MAX <? v * 10 + (c - 48)) with false by lia.
    apply IH; [lia|done].
Qed.

Lemma consume_first_digit d ds rest sg flag :
  Forall (λ c, is_digit c = true) (d :: ds) → rest ≠ [] → is_digit (next rest) = false →
  dec_value 0 (d :: ds) ≤ INT_MAX →
  consume_int_loop ((d :: ds) ++ rest) 0 sg flag = Done (Some (dec_value 0 (d :: ds) * sg, rest)).
Proof.
  intros Hds Hr Hn Hmax. rewrite <-(consume_digits (d :: ds) rest 0 sg); [|done|done|done|lia|done].
  apply Forall_cons in Hds as [Hd _]. destruct (is_digit_sign d Hd) as [Hp Hm].
  assert (Hw : is_whitespace d = false).
  { pose proof (is_digit_blank d Hd) as Hb. revert Hb. unfold is_blank, is_whitespace. lia. }
  cbn [app consume_int_loop]. by rewrite Hp, Hm, Hw, Hd, !andb_false_r.
Qed.

(** A number that is followed by something else than a digit. *)
Lemma consume_int_print z rest :
  int_ok z = true → rest ≠ [] → is_digit (next rest) = false →
  consume_int (dec_text z ++ rest) = Done (Some (z, rest)).
Proof.
  intros Hz Hr Hn. unfold int_ok in Hz. unfold consume_int, dec_text.
  pose proof (dec_digits_all (S (Z.to_nat (Z.log2 (Z.abs z)))) (Z.abs z) ltac:(lia)) as Hall.
  pose proof (dec_text_value (Z.abs z) ltac:(lia)) as Hv.
  pose proof (dec_digits_nonempty (Z.to_nat (Z.log2 (Z.abs z))) (Z.abs z)) as Hne.
  revert Hall Hv Hne. generalize (dec_digits (S (Z.to_nat (Z.log2 (Z.abs z)))) (Z.abs z)).
  intros [|d ds] Hall Hv Hne; [done|].
  destruct (Z.ltb_spec z 0) as [Hneg|Hpos].
  - change (consume_int_loop ((d :: ds) ++ rest) 0 (- (1)) FlagS = Done (Some (z, rest))).
    rewrite (consume_first_digit d ds rest (- (1)) FlagS) by (done || (rewrite Hv; lia)).
    rewrite Hv. do 3 f_equal. lia.
  - change (consume_int_loop ((d :: ds) ++ rest) 0 1 FlagN = Done (Some (z, rest))).
    rewrite (consume_first_digit d ds rest 1 FlagN) by (done || (rewrite Hv; lia)).
    rewrite Hv. do 3 f_equal. lia.
Qed.

Lemma consume_pint_print z rest :
  int_ok z = true → 1 ≤ z → rest ≠ [] → is_digit (next rest) = false →
  consume_pint (dec_text z ++ rest) = Done (Some (z, rest)).
Proof.
  intros Hz H1 Hr Hn. unfold consume_pint. rewrite consume_int_print by done.
  by rewrite (proj2 (Z.ltb_lt 0 z)) by lia.
Qed.

Lemma consume_symbol_hit c rest : consume_symbol (c :: rest) c = Done (Some rest).
Proof. simpl. by rewrite Z.eqb_refl. Qed.

Lemma consume_symbol_miss c rest :
  rest ≠ [] → next rest ≠ c → is_whitespace (next rest) = false →
  consume_symbol rest c = Done None.
Proof.
  intros Hr Hn Hw. destruct rest as [|a rest]; [done|]. unfold next in *. simpl in *.
  by rewrite (proj2 (Z.eqb_neq a c)), Hw.
Qed.

Lemma lift_run {S A B} (o : outcome A) (k : A → C S B) a s :
  o = Done a → (lift o ≫= k) s = k a s.
Proof. by intros ->. Qed.

(** What may come after an item: the end, a comma or a closing brace. *)
Definition stops (rest : list Z) : Prop :=
  rest ≠ [] ∧ (next rest = 0 ∨ next rest = 44 ∨ next rest = 125).

Lemma stops_spec rest :
  stops rest → rest ≠ [] ∧ is_digit (next rest) = false ∧ is_whitespace (next rest) = false ∧
               next rest ≠ 58.
Proof. intros [Hr [Hn|[Hn|Hn]]]; by rewrite Hn. Qed.

Lemma parse_num_stride_print o rest s :
  ns_ok o = true → stops rest →
  parse_num_stride (ns_text o ++ rest) s = Done (inr (ns_num o, ns_stride o, rest), s).
Proof.
  intros Hok (Hr & Hd & Hw & H58)%stops_spec. unfold ns_ok in Hok.
  apply andb_true_iff in Hok as [[H1 H2]%andb_true_iff H3].
  assert (Hi : int_ok (ns_num o) = true).
  { revert H1 H2. unfold int_ok, MAX_NUM_ELEMS, INT_MAX. lia. }
  unfold parse_num_stride. destruct o as [[n [st|]]|]; cbn [ns_text ns_num ns_stride app] in *.
  - rewrite <-app_assoc. cbn [app].
    erewrite lift_run by apply consume_symbol_hit. cbn beta iota.
    erewrite lift_run by (apply consume_pint_print; (done || lia)). cbn beta iota.
    erewrite lift_run by apply consume_symbol_hit. cbn beta iota.
    by erewrite lift_run by (by apply consume_int_print).
  - erewrite lift_run by apply consume_symbol_hit. cbn beta iota.
    erewrite lift_run by (apply consume_pint_print; (done || lia)). cbn beta iota.
    by erewrite lift_run by (by apply consume_symbol_miss).
  - by erewrite lift_run by (by apply consume_symbol_miss).
Qed.

Lemma ns_text_stops o rest : stops rest → is_digit (next (ns_text o ++ rest)) = false ∧ ns_text o ++ rest ≠ [].
Proof. intros (Hr & Hd & _)%stops_spec. by destruct o as [[n [st|]]|]. Qed.

Lemma concat_stops {A} (f : A → list Z) more c rest :
  (c = 0 ∨ c = 44 ∨ c = 125) → stops (concat ((λ i, 44 :: f i) <$> more) ++ c :: rest).
Proof. intros Hc. destruct more as [|i more]; (split; [done|]); [done|]. right. by left. Qed.

Section reading_back.
Variables (gives moves : nat → bool).
Hypothesis memory : ∀ n, gives n = true.

Definition never (e : Z) : Prop := False.

Lemma no_memory_never e : no_memory gives e → never e.
Proof. intros [_ [n Hn]]. by rewrite memory in Hn. Qed.

Lemma id_num_add il il' id num stride :
  1 ≤ num → ids il' = ids il ++ interval id num stride → id_num il' = id_num il + num.
Proof. intros Hn Hi. unfold id_num. rewrite Hi, length_app, interval_length. lia. Qed.

Lemma id_ok_spec i :
  id_ok i = true → int_ok i.1 = true ∧ ns_ok i.2 = true ∧ 1 ≤ ns_num i.2 < MAX_NUM_ELEMS.
Proof. unfold id_ok. intros [H1 H2]%andb_true_iff. split_and!; try done; unfold ns_ok in H2; lia. Qed.

Lemma parse_id_list_print fuel il i more rest D s :
  id_ok i = true → forallb id_ok more = true → (length more < fuel)%nat → owns_ids il D s →
  id_num il + MAX_NUM_ELEMS * (1 + Z.of_nat (length more)) < 2 ^ 32 →
  wp (parse_id_list gives moves fuel il
        (id_text i ++ concat ((λ i, 44 :: id_text i) <$> more) ++ 125 :: rest))
     (epost never (λ r s', owns_ids r.1 D s' ∧
        ids r.1 = ids il ++ id_value i ++ concat (id_value <$> more) ∧ r.2 = rest)) s.
Proof.
  revert il i more s. induction fuel as [|fuel IH]; intros il i more s Hi Hmore Hf Ho Hn; [lia|].
  destruct (id_ok_spec i Hi) as (Hint & Hns & Hnum).
  pose proof (concat_stops id_text more 125 rest ltac:(tauto)) as Hstop.
  set (tl := concat _ ++ 125 :: rest) in *.
  cbn [parse_id_list]. unfold id_text at 1. rewrite <-app_assoc.
  destruct (ns_text_stops i.2 tl Hstop) as [Hd Hne].
  eapply wp_lift; [by apply consume_int_print|]. cbn beta iota.
  eapply (wp_check _ _ _ (λ r s', s' = s ∧ r = (ns_num i.2, ns_stride i.2, tl))).
  { eapply wp_Done; [by apply parse_num_stride_print|]. done. }
  intros ? ? [-> ->]. cbn beta iota. rewrite (proj2 (Z.leb_gt _ _)) by lia.
  eapply wp_check.
  { eapply epost_mono; [eapply id_list_add_spec; [done|lia|unfold MAX_NUM_ELEMS in *; lia]|apply no_memory_never|done]. }
  intros il1 s1 [Ho1 Hids]. apply id_num_add in Hids as Hnum1; [|lia].
  destruct more as [|i' more]; cbn [fmap list_fmap concat app] in tl; subst tl.
  - eapply wp_lift; [by apply consume_symbol_miss|]. eapply wp_lift; [apply consume_symbol_hit|].
    apply wp_ret. split_and!; simpl; [done| |done]. by rewrite Hids, app_nil_r.
  - rewrite <-app_assoc. eapply wp_lift; [apply consume_symbol_hit|]. cbn beta iota.
    simpl in Hmore. apply andb_true_iff in Hmore as [Hi' Hmore]. simpl in Hf.
    eapply epost_mono; [apply IH; [done|done|lia|done|simpl in Hn; unfold MAX_NUM_ELEMS in *; lia]|done|].
    intros r s2 (? & Hr & ?). split_and!; [done| |done].
    rewrite Hr, Hids. simpl. by rewrite <-!app_assoc.
Qed.

Lemma concat_length {A} (f : A → list Z) more :
  (length more ≤ length (concat ((λ i, 44%Z :: f i) <$> more)))%nat.
Proof. induction more as [|i more IH]; [done|]. rewrite fmap_cons. cbn [concat length app]. rewrite length_app. lia. Qed.

Lemma parse_es_print fuel e rest D s :
  es_ok e = true → rest ≠ [] → is_digit (next rest) = false →
  (length (es_text e ++ rest) ≤ fuel)%nat → holds D s →
  wp (parse_es_id_list gives moves fuel (es_text e ++ rest))
     (epost never (λ r s', owns_ids r.1 D s' ∧ ids r.1 = es_value e ∧ r.2 = rest)) s.
Proof.
  intros Hok Hr Hd Hf Hh. unfold parse_es_id_list.
  eapply wp_check.
  { eapply epost_mono; [by apply (id_list_create_spec _ D)|apply no_memory_never|done]. }
  intros il s1 [Ho ->]. destruct e as [id|i more]; cbn [es_text es_ok es_value] in *.
  - eapply wp_lift; [by apply consume_int_print|]. cbn beta iota.
    eapply wp_check.
    { eapply epost_mono; [by apply (id_list_add_spec _ _ _ _ _ _ D)|apply no_memory_never|done]. }
    intros il1 s2 [Ho2 Hids]. apply wp_ret. by split_and!.
  - apply andb_true_iff in Hok as [[Hi Hmore]%andb_true_iff Hlen].
    rewrite <-app_comm_cons, <-!app_assoc in *. cbn [app] in *.
    eapply wp_lift; [done|]. cbn beta iota. eapply wp_lift; [apply consume_symbol_hit|]. cbn beta iota.
    eapply epost_mono.
    + apply (parse_id_list_print fuel _ i more rest D); [done|done| |done|].
      * revert Hf. simpl. rewrite !length_app. pose proof (concat_length id_text more). simpl. lia.
      * unfold id_num, MAX_NUM_ELEMS. cbn [ids length]. lia.
    + done.
    + intros r s2 (? & Hids & ?). by split_and!.
Qed.

Lemma interval_ok_spec i :
  interval_ok i = true → es_ok i.1 = true ∧ ns_ok i.2 = true ∧ 1 ≤ ns_num i.2 < MAX_NUM_ELEMS.
Proof. unfold interval_ok. intros [H1 H2]%andb_true_iff. split_and!; try done; unfold ns_ok in H2; lia. Qed.

Lemma parse_intervals_print fuel al i more s :
  interval_ok i = true → forallb interval_ok more = true →
  (length (interval_text i ++ concat ((λ i, 44%Z :: interval_text i) <$> more) ++ [0%Z]) ≤ fuel)%nat →
  owns_lists al ∅ s →
  list_num al + MAX_NUM_ELEMS * (1 + Z.of_nat (length more)) < 2 ^ 32 →
  wp (parse_intervals gives moves fuel al
        (interval_text i ++ concat ((λ i, 44 :: interval_text i) <$> more) ++ [0]))
     (epost never (λ al' s', ids <$> p_id_lists al' =
        (ids <$> p_id_lists al) ++ interval_value i ++ concat (interval_value <$> more))) s.
Proof.
  revert al i more s. induction fuel as [|fuel IH]; intros al i more s Hi Hmore Hf Ho Hn.
  { rewrite !length_app in Hf. simpl in Hf. lia. }
  destruct (interval_ok_spec i Hi) as (Hes & Hns & Hnum).
  pose proof (concat_stops interval_text more 0 [] ltac:(tauto)) as Hstop.
  set (tl := concat _ ++ [0]) in *.
  cbn [parse_intervals]. unfold interval_text in Hf |- * at 1. rewrite <-app_assoc in Hf |- *.
  destruct (ns_text_stops i.2 tl Hstop) as [Hd Hne].
  destruct (owns_lists_frame al s Ho) as (D & HD & Hback).
  eapply wp_check; [by apply (parse_es_print (S fuel) _ _ D)|].
  intros [il str] s1 (Ho1 & Hil & Hstr). cbn [fst snd] in *. subst str. apply owns_holds in Ho1.
  eapply (wp_check _ _ _ (λ r s', s' = s1 ∧ r = (ns_num i.2, ns_stride i.2, tl))).
  { eapply wp_Done; [by apply parse_num_stride_print|]. done. }
  intros ? ? [-> ->]. cbn beta iota. rewrite (proj2 (Z.leb_gt _ _)) by lia.
  eapply wp_check.
  { eapply epost_mono; [eapply list_add_spec; [by apply Hback|lia|unfold MAX_NUM_ELEMS in *; lia]|apply no_memory_never|done]. }
  intros al1 s2 [Ho2 Hids].
  assert (Hnum1 : list_num al1 = list_num al + ns_num i.2).
  { unfold list_num. rewrite <-(length_fmap ids), Hids, length_app, length_fmap.
    rewrite interval_lists_length by lia. lia. }
  rewrite Hil in Hids. change (interval_lists _ _ _) with (interval_value i) in Hids.
  destruct more as [|i' more]; cbn [fmap list_fmap concat app] in tl; subst tl.
  - eapply wp_lift; [by apply consume_symbol_miss|]. eapply wp_lift; [apply consume_symbol_hit|].
    apply wp_ret. simpl. by rewrite Hids, app_nil_r.
  - cbn [forallb] in Hmore. apply andb_true_iff in Hmore as [Hi' Hmore].
    rewrite <-app_assoc in Hf |- *. eapply wp_lift; [apply consume_symbol_hit|]. cbn beta iota.
    eapply epost_mono; [apply IH; [done|done| |done|]|done|].
    + revert Hf. rewrite !length_app. simpl. rewrite !length_app. simpl. unfold fmap. lia.
    + simpl in Hn. unfold MAX_NUM_ELEMS in *. lia.
    + intros r s3 Hr. simpl. rewrite Hr, Hids. simpl. by rewrite <-!app_assoc.
Qed.
End reading_back.

Lemma affinity_reads_back gives moves a :
  (∀ n, gives n = true) → affinity_ok a = true →
  ∃ al s', ABTD_affinity_list_create gives moves (Some (affinity_text a ++ [0])) no_blocks =
             Done (inr al, s') ∧
           ids <$> p_id_lists al = affinity_value a.
Proof.
  intros Hmem Hok. apply andb_true_iff in Hok as [[Hi Hmore]%andb_true_iff Hlen].
  assert (Hwp : wp (ABTD_affinity_list_create gives moves (Some (affinity_text a ++ [0])))
    (epost never (λ al s', ids <$> p_id_lists al = affinity_value a)) no_blocks).
  { unfold ABTD_affinity_list_create. apply wp_bind. eapply wp_mono.
    - unfold parse_list. eapply (wp_check never).
      + eapply epost_mono; [apply list_create_spec, no_blocks_holds|by apply no_memory_never|done].
      + intros al s1 [Ho ->]. unfold affinity_text. rewrite <-app_assoc.
        apply parse_intervals_print; [done..|]. unfold list_num, MAX_NUM_ELEMS.
        cbn [p_id_lists length]. lia.
    - intros [e|al] s1; [by intros [[] _]|]. intros Hids. apply wp_bind, wp_ret, wp_ret. exact Hids. }
  apply wp_run in Hwp as ([e|al] & s' & H1 & H2); [by destruct H2 as [[] _]|eauto].
Qed.

(** What the grammar stands for, in whole numbers and without reference to the parser: [<id>:<num>:<stride>]
    is the progression [id, id + stride, ...] of [num] numbers, [<list>:<num>:<stride>] is the
    list, the list with [stride] added to each number, and so on. *)
Fixpoint progression (num : nat) (id stride : Z) : list Z :=
  match num with
  | O => []
  | S num => id :: progression num (id + stride) stride
  end.
Fixpoint translates (num : nat) (l : list Z) (stride : Z) : list (list Z) :=
  match num with
  | O => []
  | S num => l :: translates num (Z.add stride <$> l) stride
  end.
Definition id_meaning (i : Z * num_stride) : list Z := progression (Z.to_nat (ns_num i.2)) i.1 (ns_stride i.2).
Definition es_meaning (e : es_id_list) : list Z :=
  match e with
  | EsId id => [id]
  | EsIds i more => id_meaning i ++ concat (id_meaning <$> more)
  end.
Definition interval_meaning (i : es_id_list * num_stride) : list (list Z) :=
  translates (Z.to_nat (ns_num i.2)) (es_meaning i.1) (ns_stride i.2).
Definition affinity_meaning (a : affinity) : list (list Z) :=
  interval_meaning (aff_first a) ++ concat (interval_meaning <$> aff_more a).

Lemma i32_u32 z : i32 (u32 z) = i32 z.
Proof. unfold i32, u32. by rewrite Zplus_mod_idemp_l. Qed.
Lemma i32_add_l x y : i32 (i32 x + y) = i32 (x + y).
Proof.
  unfold i32. f_equal. replace ((x + 2 ^ 31) mod 2 ^ 32 - 2 ^ 31 + y + 2 ^ 31) with ((x + 2 ^ 31) mod 2 ^ 32 + y) by lia.
  rewrite Zplus_mod_idemp_l. f_equal. lia.
Qed.

Lemma interval_progression id num stride : interval id num stride = i32 <$> progression (Z.to_nat num) id stride.
Proof.
  unfold interval. generalize (Z.to_nat num). intros n. unfold offset.
  assert (∀ k, map (λ i, i32 (u32 (id + stride * Z.of_nat i))) (seq k n) = i32 <$> progression n (id + stride * Z.of_nat k) stride) as H.
  { induction n as [|n IH]; intros k; [done|]. cbn [seq map progression]. rewrite fmap_cons, i32_u32, (IH (S k)). do 3 f_equal. lia. }
  rewrite (H 0%nat). f_equal. f_equal. lia.
Qed.

Lemma shifted_i32 l stride i : shifted (i32 <$> l) stride i = i32 <$> (Z.add (stride * i) <$> l).
Proof.
  unfold shifted, offset. change (map ?f ?l) with (f <$> l). rewrite <- !list_fmap_compose. apply list_fmap_ext. intros k id _. cbn.
  rewrite i32_u32, i32_add_l. f_equal. lia.
Qed.

Lemma interval_translates l num stride : 1 ≤ num →
  interval_lists (i32 <$> l) num stride = (λ l : list Z, i32 <$> l) <$> translates (Z.to_nat num) l stride.
Proof.
  intros Hn. unfold interval_lists. replace (Z.to_nat num) with (S (Z.to_nat (num - 1))) by lia.
  generalize (Z.to_nat (num - 1)). intros n. cbn [translates]. rewrite fmap_cons. f_equal.
  assert (∀ k, (λ i, shifted (i32 <$> l) stride (1 + Z.of_nat i)) <$> seq k n =
    (λ l : list Z, i32 <$> l) <$> translates n (Z.add (stride * (1 + Z.of_nat k)) <$> l) stride) as H.
  { induction n as [|n IH]; intros k; [done|]. cbn [seq translates]. rewrite !fmap_cons. f_equal; [apply shifted_i32|].
    rewrite (IH (S k)), <- list_fmap_compose. do 2 f_equal. apply list_fmap_ext. intros j id _. cbn. lia. }
  rewrite (H 0%nat). do 2 f_equal. apply list_fmap_ext. intros j id _. cbn. lia.
Qed.

Lemma es_value_meaning e : es_value e = i32 <$> es_meaning e.
Proof.
  destruct e as [id|i more]; cbn [es_value es_meaning]; [apply interval_progression|].
  unfold id_value, id_meaning. rewrite fmap_app, interval_progression. f_equal.
  induction more as [|m more IH]; [done|]. cbn. by rewrite fmap_app, interval_progression, IH.
Qed.

Lemma affinity_value_meaning a : affinity_ok a = true → affinity_value a = (λ l : list Z, i32 <$> l) <$> affinity_meaning a.
Proof.
  assert (∀ i, interval_ok i = true → interval_value i = (λ l : list Z, i32 <$> l) <$> interval_meaning i) as Hi.
  { intros [e o] [_ [[Hn%Z.leb_le _]%andb_true_iff _]%andb_true_iff]%andb_true_iff. unfold interval_value, interval_meaning. cbn in *.
    by rewrite es_value_meaning, interval_translates. }
  intros [[H1 Hm]%andb_true_iff _]%andb_true_iff. unfold affinity_value, affinity_meaning. rewrite fmap_app, (Hi _ H1). f_equal.
  induction (aff_more a) as [|m more IH]; [done|]. cbn [forallb] in Hm. apply andb_true_iff in Hm as [Hm1 Hm].
  rewrite !fmap_cons. cbn [concat]. by rewrite fmap_app, (Hi _ Hm1), (IH Hm).
Qed.

Lemma all_ints ls : Forall (Forall (λ id, - 2 ^ 31 ≤ id < 2 ^ 31)) ls → (λ l : list Z, i32 <$> l) <$> ls = ls.
Proof.
  induction 1 as [|l ls Hl _ IH]; [done|]. rewrite fmap_cons, IH. f_equal.
  induction Hl as [|x l Hx _ IHl]; [done|]. rewrite fmap_cons, IHl. f_equal. by apply i32_small.
Qed.

(** C29: the parser is a left inverse of printing, for the whole grammar (counts and
    strides optional, braces or a single id): for every affinity within the parser's
    limits, its text is read without an error and the id lists are exactly those
    the grammar stands for, arithmetic progressions and translated lists of whole numbers,
    each number reduced to an [int]; they are the numbers themselves if all of them are ints.
    (The comment on [{0,1,2,3}:3:1] at the head of abtd_affinity.c says something else, see
    [affinity_example_5].) *)
Theorem affinity_roundtrip gives moves a :
  (∀ n, gives n = true) → affinity_ok a = true →
  ∃ al s', ABTD_affinity_list_create gives moves (Some (affinity_text a ++ [0])) no_blocks =
             Done (inr al, s') ∧
           (ids <$> p_id_lists al = (λ l : list Z, i32 <$> l) <$> affinity_meaning a) ∧
           (Forall (Forall (λ id, - 2 ^ 31 ≤ id < 2 ^ 31)) (affinity_meaning a) → ids <$> p_id_lists al = affinity_meaning a).
Proof.
  intros Hmem Hok. destruct (affinity_reads_back gives moves a Hmem Hok) as (al & s' & E & Hids).
  rewrite (affinity_value_meaning a Hok) in Hids. exists al, s'. split; [done|]. split; [done|]. intros Hall. rewrite Hids.
  by apply all_ints.
Qed.

(** The affinity [{0:4}:3:4,-7] of twelve cores and one more. *)
Definition sample_ast : affinity :=
  Affinity (EsIds (0, Some (4, None)) [], Some (3, Some 4)) [(EsId (-7), None)].

Lemma affinity_roundtrip_witness :
  ∃ al s', ABTD_affinity_list_create (λ _, true) Nat.even (Some (affinity_text sample_ast ++ [0]))
             no_blocks = Done (inr al, s') ∧ ids <$> p_id_lists al = [[0; 1; 2; 3]; [4; 5; 6; 7]; [8; 9; 10; 11]; [-7]].
Proof.
  destruct (affinity_roundtrip (λ _, true) Nat.even sample_ast) as (al & s' & E & Hids & _); [reflexivity|vm_compute; reflexivity|].
  exists al, s'. split; [exact E|]. rewrite Hids. vm_compute. reflexivity.
Defined.

(** the text [{0,1,2,3}:3:1] stands for [{0,1,2,3},{1,2,3,4},{2,3,4,5}], and
    not for [{0,1,2,3},{2,3,4,5},{3,4,5,6}] as the description of the grammar says. *)
Theorem affinity_example_5 moves :
  ∃ al s', ABTD_affinity_list_create (λ _, true) moves
     (Some [123; 48; 44; 49; 44; 50; 44; 51; 125; 58; 51; 58; 49; 0]) no_blocks = Done (inr al, s') ∧
   ids <$> p_id_lists al = [[0; 1; 2; 3]; [1; 2; 3; 4]; [2; 3; 4; 5]].
Proof.
  pose (a := Affinity (EsIds (0, None) [(1, None); (2, None); (3, None)], Some (3, Some 1)) []).
  apply (affinity_reads_back (λ _, true) moves a); [done|by vm_compute].
Qed.
