(* ===== verification/Affinity.v ===== *)
(** * CPU affinities of execution streams

    argobots/src/arch/abtd_affinity.c: at start-up the CPU ids of ABT_SET_AFFINITY
    (read by [AffinityParser]) become CPU sets, ids counting through the cores the process
    may run on; the execution stream of rank n is bound to the set number n modulo the
    number of sets. *)

From stdpp Require Import base tactics option list numbers gmap fin_maps.
From Stdlib Require Import ZArith Lia.
From S2P Require Import Prelude Abt Atoi AffinityParser.
Open Scope Z_scope.

Definition CPU_SETSIZE : Z := 1024.

(** [num_cpuids] and [cpuids]. *)
Abbreviation ABTD_affinity_cpuset := (list Z) (only parsing).

Record global_affinity := GlobalAffinity {
  initial_cpuset : ABTD_affinity_cpuset;
  cpusets : list ABTD_affinity_cpuset
}.

(** [g_affinity], the two fields of [ABTI_global] the module writes, and the number of
    calls of the allocator. *)
Record aff := Aff {
  g_affinity : global_affinity;
  num_cores : Z;
  set_affinity : bool;
  calls : nat
}.

Definition set_g (g : global_affinity) : C aff unit :=
  modify (λ s, Aff g (num_cores s) (set_affinity s) (calls s)).
Definition set_cores (n : Z) : C aff unit :=
  modify (λ s, Aff (g_affinity s) n (set_affinity s) (calls s)).
Definition set_flag (b : bool) : C aff unit :=
  modify (λ s, Aff (g_affinity s) (num_cores s) b (calls s)).

(** [a % b] of C is the remainder of a truncated division. *)
Definition int_rem (a b : Z) : Z :=
  let ret := Z.rem a b + b in if b <=? ret then ret - b else ret.

Section affinity.
(** The allocator, as in [AffinityParser]; the CPU set of the process as
    [pthread_getaffinity_np] reports it ([None]: the call fails); what
    [pthread_setaffinity_np] answers. *)
Variables (gives moves : nat → bool).
Variable getaffinity : option (Z → bool).
Variable setaffinity : list Z → Z.

(** One call of [ABTU_malloc], [ABTU_calloc] or [ABTU_realloc]: does it succeed? *)
Definition allocate : C aff bool := λ s,
  Done (gives (calls s), Aff (g_affinity s) (num_cores s) (set_affinity s) (S (calls s))).

(** The indices [i < CPU_SETSIZE] with [CPU_ISSET(i, &cpuset)], in increasing order. *)
Definition cpu_ids (cpuset : Z → bool) : list Z :=
  filter (λ i, cpuset i = true) (seqZ 0 CPU_SETSIZE).

Definition get_num_cores : Z + Z :=
  match getaffinity with
  | None => inl ABT_ERR_SYS
  | Some cpuset => inr (Z.of_nat (length (cpu_ids cpuset)))
  end.

Definition create_cpuset : C aff (Z + ABTD_affinity_cpuset) :=
  match getaffinity with
  | None => mret (inl ABT_ERR_SYS)
  | Some cpuset =>
      b ← allocate;
      mret (if b : bool then inr (cpu_ids cpuset) else inl ABT_ERR_MEM)
  end.

(** The first [max_cpuids] ids, and how many there are. *)
Definition read_cpuset (max_cpuids : Z) : Z + (list Z * Z) :=
  match getaffinity with
  | None => inl ABT_ERR_SYS
  | Some cpuset => inr (take (Z.to_nat max_cpuids) (cpu_ids cpuset),
                        Z.of_nat (length (cpu_ids cpuset)))
  end.

(** The CPUs [apply_cpuset] hands to [pthread_setaffinity_np], in the order of [CPU_SET]. *)
Definition cpuset_bits (g : global_affinity) (cpuset : ABTD_affinity_cpuset) : list Z :=
  (λ id, int_rem id CPU_SETSIZE) <$>
    (match cpuset with [] => initial_cpuset g | _ => cpuset end).

(** The result, with the CPUs that were handed over. *)
Definition apply_cpuset (g : global_affinity) (cpuset : ABTD_affinity_cpuset) : Z * list Z :=
  let bits := cpuset_bits g cpuset in
  (if setaffinity bits =? 0 then ABT_SUCCESS else ABT_ERR_SYS, bits).

(** The ids of one id list: every core once, the array doubled when it is full.
    [None] is [goto FAILED]. *)
Fixpoint unique_cpuids (initial : list Z) (id_list : list Z) (cpuids : list Z) (len_cpuids : Z)
    : C aff (option (list Z * Z)) :=
  match id_list with
  | [] => mret (Some (cpuids, len_cpuids))
  | id :: id_list =>
      let cpuid_i := int_rem id (Z.of_nat (length initial)) in
      match initial !! Z.to_nat cpuid_i with
      | None => throw UB
      | Some cpuid =>
          if decide (cpuid ∈ cpuids) then unique_cpuids initial id_list cpuids len_cpuids
          else
            if Z.of_nat (length cpuids) =? len_cpuids then
              b ← allocate;
              if b : bool
              then unique_cpuids initial id_list (cpuids ++ [cpuid]) (len_cpuids * 2)
              else mret None
            else unique_cpuids initial id_list (cpuids ++ [cpuid]) len_cpuids
      end
  end.

(** One iteration of the loop over the id lists. *)
Definition make_cpuset (initial : list Z) (id_list : list Z) : C aff (option (list Z)) :=
  b ← allocate;
  if negb b then mret None else
  r ← unique_cpuids initial id_list [] 8;
  match r with
  | None => mret None
  | Some (cpuids, len_cpuids) =>
      if Z.of_nat (length cpuids) =? len_cpuids then mret (Some cpuids)
      else b ← allocate; mret (if b : bool then Some cpuids else None)
  end.

Fixpoint make_cpusets (initial : list Z) (id_lists : list (list Z))
    : C aff (option (list (list Z))) :=
  match id_lists with
  | [] => mret (Some [])
  | l :: ls =>
      r ← make_cpuset initial l;
      match r with
      | None => mret None
      | Some c => rs ← make_cpusets initial ls; mret (cons c <$> rs)
      end
  end.

(** The default: one set for every core. *)
Fixpoint default_cpusets (ids : list Z) : C aff (option (list (list Z))) :=
  match ids with
  | [] => mret (Some [])
  | id :: ids =>
      b ← allocate;
      if negb b then mret None else
      rs ← default_cpusets ids; mret (cons [id] <$> rs)
  end.

(** The label FAILED. *)
Definition init_failed : C aff unit := set_g (GlobalAffinity [] []);; set_flag false.

(** [ABTD_affinity_list_create] with the allocator of this module: [None] if it fails. *)
Definition parse_affinity (affinity_str : option (list Z)) : C aff (option (list (list Z))) := λ s,
  let n := calls s in
  match ABTD_affinity_list_create (λ k, gives (n + k)%nat) (λ k, moves (n + k)%nat)
          affinity_str no_blocks with
  | Fault f => Fault f
  | Done (r, a) =>
      Done (match r with inl _ => None | inr l => Some (ids <$> p_id_lists l) end,
            Aff (g_affinity s) (num_cores s) (set_affinity s) (n + allocs a)%nat)
  end.

Definition ABTD_affinity_init (affinity_str : option (list Z)) : C aff unit :=
  set_g (GlobalAffinity [] []);;
  match get_num_cores with
  | inl _ => init_failed
  | inr n =>
      set_cores n;;
      if n =? 0 then init_failed else
      r ← create_cpuset;
      match r with
      | inl _ => init_failed
      | inr initial =>
          if decide (initial = []) then init_failed else
          set_flag true;;
          p_list ← parse_affinity affinity_str;
          b ← allocate;   (* g_affinity.cpusets *)
          if negb b then init_failed else
          sets ← match p_list with
                 | Some (l :: ls) => make_cpusets initial (l :: ls)
                 | _ => default_cpusets initial
                 end;
          match sets with
          | None => init_failed
          | Some sets => set_g (GlobalAffinity initial sets)
          end
      end
  end.

(** The CPUs the main thread gets back, if affinities are in use (errors are ignored). *)
Definition ABTD_affinity_finalize : C aff (option (list Z)) :=
  s ← get;
  if set_affinity s then
    set_g (GlobalAffinity [] []);;
    mret (Some (apply_cpuset (g_affinity s) (initial_cpuset (g_affinity s))).2)
  else mret None.

(** [rank % num_cpusets]: the rank becomes an unsigned number. *)
Definition ABTD_affinity_cpuset_apply_default (rank : Z) : C aff (Z * list Z) :=
  s ← get;
  let g := g_affinity s in
  let num_cpusets := Z.of_nat (length (cpusets g)) in
  if num_cpusets =? 0 then throw UB else
  match cpusets g !! Z.to_nat (u32 rank mod num_cpusets) with
  | None => throw UB
  | Some cpuset => mret (apply_cpuset g cpuset)
  end.
End affinity.

(** ** Lemmas *)

Lemma int_rem_mod a b : 0 < b → int_rem a b = a mod b.
Proof.
  intros Hb. unfold int_rem. pose proof (Z.rem_bound_abs a b ltac:(lia)) as Hr.
  pose proof (Z.quot_rem' a b) as Hq.
  destruct (Z.leb_spec b (Z.rem a b + b)).
  - apply (Z.mod_unique_pos _ _ (Z.quot a b)); lia.
  - apply (Z.mod_unique_pos _ _ (Z.quot a b - 1)); lia.
Qed.

Lemma cpu_ids_spec cs c : c ∈ cpu_ids cs ↔ 0 ≤ c < CPU_SETSIZE ∧ cs c = true.
Proof.
  unfold cpu_ids. rewrite list_elem_of_filter, elem_of_seqZ. unfold CPU_SETSIZE. intuition lia.
Qed.
Lemma cpu_ids_nodup cs : NoDup (cpu_ids cs).
Proof. unfold cpu_ids. apply NoDup_filter, NoDup_seqZ. Qed.

(** The core an id stands for, when the process may run on [initial]. *)
Definition core (initial : list Z) (id : Z) : Z :=
  default 0 (initial !! Z.to_nat (id mod Z.of_nat (length initial))).

Lemma core_lookup initial id :
  initial ≠ [] →
  initial !! Z.to_nat (int_rem id (Z.of_nat (length initial))) = Some (core initial id) ∧
  core initial id ∈ initial.
Proof.
  intros Hne. assert (0 < Z.of_nat (length initial)) by (destruct initial; [done|simpl; lia]).
  rewrite int_rem_mod by done. unfold core.
  pose proof (Z.mod_pos_bound id (Z.of_nat (length initial)) ltac:(done)).
  destruct (lookup_lt_is_Some_2 initial (Z.to_nat (id mod Z.of_nat (length initial)))) as [c Hc]; [lia|].
  rewrite Hc. split; [done|]. by eapply list_elem_of_lookup_2.
Qed.

(** Every element once, in the order of the first occurrences. *)
Definition add_unique (acc : list Z) (c : Z) : list Z :=
  if decide (c ∈ acc) then acc else acc ++ [c].
Definition dedup (l : list Z) : list Z := fold_left add_unique l [].

Lemma fold_unique_spec l acc :
  NoDup acc →
  NoDup (fold_left add_unique l acc) ∧ ∀ c, c ∈ fold_left add_unique l acc ↔ c ∈ acc ∨ c ∈ l.
Proof.
  revert acc. induction l as [|a l IH]; intros acc Hacc; simpl.
  { split; [done|]. intros c. rewrite elem_of_nil. tauto. }
  unfold add_unique at 2 4. case_decide as Ha.
  - destruct (IH acc Hacc) as [H1 H2]. split; [done|]. intros c. rewrite H2, elem_of_cons.
    split; [tauto|]. intros [?|[->|?]]; tauto.
  - assert (Hn : NoDup (acc ++ [a])).
    { apply NoDup_app. split_and!; [done| |by apply NoDup_singleton].
      intros x Hx ->%list_elem_of_singleton. done. }
    destruct (IH _ Hn) as [H1 H2]. split; [done|]. intros c.
    rewrite H2, elem_of_app, list_elem_of_singleton, elem_of_cons. tauto.
Qed.

Lemma dedup_spec l : NoDup (dedup l) ∧ ∀ c, c ∈ dedup l ↔ c ∈ l.
Proof.
  destruct (fold_unique_spec l [] (NoDup_nil_2)) as [H1 H2]. split; [done|].
  intros c. unfold dedup. rewrite H2, elem_of_nil. tauto.
Qed.

Lemma dedup_nonempty l : l ≠ [] → dedup l ≠ [].
Proof.
  intros Hl Hd. destruct l as [|a l]; [done|]. pose proof (proj2 (dedup_spec (a :: l)) a) as H.
  rewrite Hd, elem_of_nil, elem_of_cons in H. tauto.
Qed.

Section init.
Variables (gives moves : nat → bool).
Variable getaffinity : option (Z → bool).

(** Everything but the count of allocator calls is left alone. *)
Definition same (s s' : aff) : Prop :=
  g_affinity s' = g_affinity s ∧ num_cores s' = num_cores s ∧ set_affinity s' = set_affinity s.

(** An answer of a part of the initialisation: [v], or nothing if the allocator fails. *)
Definition answers {A} (s : aff) (v : A) (r : option A) (s' : aff) : Prop :=
  same s s' ∧ match r with None => ∃ n, gives n = false | Some a => a = v end.

Lemma wp_allocate {A} (k : bool → C aff A) Q s :
  (∀ s', same s s' → (∃ n, gives n = false) → wp (k false) Q s') →
  (∀ s', same s s' → wp (k true) Q s') →
  wp (allocate gives ≫= k) Q s.
Proof.
  intros Hf Ht. apply wp_bind. eapply wp_Done; [done|]. cbn beta.
  destruct (gives (calls s)) eqn:E; [by apply Ht|]. apply Hf; [done|by exists (calls s)].
Qed.

Lemma same_trans s1 s2 s3 : same s1 s2 → same s2 s3 → same s1 s3.
Proof. unfold same. intuition congruence. Qed.

Lemma unique_cpuids_spec initial l acc len s :
  initial ≠ [] →
  wp (unique_cpuids gives initial l acc len)
     (λ r s', answers s (fold_left add_unique (core initial <$> l) acc) (fst <$> r) s') s.
Proof.
  intros Hne. revert acc len s. induction l as [|id l IH]; intros acc len s; simpl.
  { by apply wp_ret. }
  destruct (core_lookup initial id Hne) as [Hc _]. rewrite Hc. unfold add_unique at 2.
  case_decide as Hin; [apply IH|]. destruct (_ =? len); [|apply IH].
  apply wp_allocate; [by intros s' Hs Hg; apply wp_ret|].
  intros s' Hs. eapply wp_mono; [apply IH|]. intros r s'' [Hs' Hr]. split; [by eapply same_trans|done].
Qed.

Lemma make_cpuset_spec initial l s :
  initial ≠ [] →
  wp (make_cpuset gives initial l) (answers s (dedup (core initial <$> l))) s.
Proof.
  intros Hne. apply wp_allocate; [by intros s' Hs Hg; apply wp_ret|]. intros s1 Hs1. simpl.
  apply wp_bind. eapply wp_mono; [by apply unique_cpuids_spec|].
  intros [[cpuids len]|] s2 [Hs2 Hr]; simpl in Hr;
    [|apply wp_ret; split; [by eapply same_trans|done]].
  assert (H12 : same s s2) by (by eapply same_trans).
  destruct (_ =? len); [apply wp_ret; by split|].
  apply wp_allocate; intros s3 Hs3; [intros Hg|]; apply wp_ret; (split; [by eapply same_trans|done]).
Qed.

Lemma make_cpusets_spec initial ls s :
  initial ≠ [] →
  wp (make_cpusets gives initial ls) (answers s ((λ l, dedup (core initial <$> l)) <$> ls)) s.
Proof.
  intros Hne. revert s. induction ls as [|l ls IH]; intros s; simpl; [by apply wp_ret|].
  apply wp_bind. eapply wp_mono; [by apply make_cpuset_spec|]. intros [c|] s1 [Hs1 Hr]; [|by apply wp_ret].
  apply wp_bind. eapply wp_mono; [apply IH|]. intros r s2 [Hs2 Hr2]. apply wp_ret.
  split; [by eapply same_trans|]. destruct r; simpl; [|done]. by rewrite Hr, Hr2.
Qed.

Lemma default_cpusets_spec l s :
  wp (default_cpusets gives l) (answers s ((λ id, [id]) <$> l)) s.
Proof.
  revert s. induction l as [|id l IH]; intros s; simpl; [by apply wp_ret|].
  apply wp_allocate; [by intros s' Hs Hg; apply wp_ret|]. intros s1 Hs1. simpl.
  apply wp_bind. eapply wp_mono; [apply IH|]. intros r s2 [Hs2 Hr2]. apply wp_ret.
  split; [by eapply same_trans|]. destruct r; simpl; [|done]. by rewrite Hr2.
Qed.

(** Reading the variable: a list of nonempty id lists, or nothing. *)
Lemma parse_affinity_none s : wp (parse_affinity gives moves None) (λ r s', same s s' ∧ r = None) s.
Proof. by vm_compute. Qed.

Lemma parse_affinity_safe t s :
  (0 ∉ t) → short_runs t = true → Z.of_nat (length t) < 4095 →
  wp (parse_affinity gives moves (Some (t ++ [0])))
     (λ r s', same s s' ∧ ∀ ls, r = Some ls → wf_lists ls) s.
Proof.
  intros Hn Hr Hl. unfold wp, parse_affinity.
  destruct (affinity_create_safe (λ k, gives (calls s + k)%nat) (λ k, moves (calls s + k)%nat) t Hn Hr Hl)
    as (r & a & -> & H). split; [done|]. intros ls. destruct r as [e|al]; [done|]. intros [= <-]. apply H.
Qed.

(** The CPU sets for a parsed list; by default one for every core. *)
Definition wanted_sets (initial : list Z) (p_list : option (list (list Z))) : list (list Z) :=
  match p_list with
  | Some (l :: ls) => (λ l, dedup (core initial <$> l)) <$> (l :: ls)
  | _ => (λ id, [id]) <$> initial
  end.

Lemma wanted_sets_wf initial p_list :
  initial ≠ [] → (∀ ls, p_list = Some ls → wf_lists ls) →
  wanted_sets initial p_list ≠ [] ∧
  Forall (λ c, c ≠ [] ∧ NoDup c ∧ ∀ x, x ∈ c → x ∈ initial) (wanted_sets initial p_list).
Proof.
  intros Hne Hwf.
  assert (Hdef : (λ id, [id]) <$> initial ≠ [] ∧
    Forall (λ c, c ≠ [] ∧ NoDup c ∧ ∀ x, x ∈ c → x ∈ initial) ((λ id, [id]) <$> initial)).
  { split; [by destruct initial|]. apply Forall_fmap, list.Forall_forall. intros id Hid. simpl.
    split_and!; [done|apply NoDup_singleton|]. by intros x ->%list_elem_of_singleton. }
  destruct p_list as [[|l ls]|]; [done| |done]. destruct (Hwf _ eq_refl) as [_ Hall].
  split; [done|]. apply Forall_fmap. eapply Forall_impl; [exact Hall|]. intros k Hk. simpl.
  destruct (dedup_spec (core initial <$> k)) as [H1 H2]. split_and!; [|done|].
  - apply dedup_nonempty. by destruct k.
  - intros x [id [-> _]]%H2%list_elem_of_fmap. by apply core_lookup.
Qed.

(** What the initialisation leaves behind: the sets for what was read ([P]), or no
    affinity at all. *)
Definition init_post (P : option (list (list Z)) → Prop) (s : aff) : Prop :=
  if set_affinity s then
    ∃ cs r, getaffinity = Some cs ∧ cpu_ids cs ≠ [] ∧ P r ∧
      g_affinity s = GlobalAffinity (cpu_ids cs) (wanted_sets (cpu_ids cs) r)
  else cpusets (g_affinity s) = [] ∧
    (getaffinity = None ∨ (∃ cs, getaffinity = Some cs ∧ cpu_ids cs = []) ∨ ∃ n, gives n = false).

Lemma affinity_init_ok P affinity_str s :
  (∀ s', wp (parse_affinity gives moves affinity_str) (λ r s'', same s' s'' ∧ P r) s') →
  wp (ABTD_affinity_init gives moves getaffinity affinity_str) (λ _, init_post P) s.
Proof.
  intros Hparse. unfold ABTD_affinity_init. apply wp_bind, wp_ret.
  unfold get_num_cores, create_cpuset, init_post.
  destruct getaffinity as [cs|] eqn:Hga; [|split; [done|by left]].
  apply wp_bind, wp_ret. destruct (Z.eqb_spec (Z.of_nat (length (cpu_ids cs))) 0) as [H0|H0].
  { split; [done|]. right. left. exists cs. split; [done|]. apply length_zero_iff_nil. lia. }
  assert (Hno : ∀ s', (∃ n, gives n = false) → wp init_failed (λ _ s, if set_affinity s then
    ∃ cs0 r, Some cs = Some cs0 ∧ cpu_ids cs0 ≠ [] ∧ P r ∧
      g_affinity s = GlobalAffinity (cpu_ids cs0) (wanted_sets (cpu_ids cs0) r)
    else cpusets (g_affinity s) = [] ∧
    (Some cs = None ∨ (∃ cs0, Some cs = Some cs0 ∧ cpu_ids cs0 = []) ∨ ∃ n, gives n = false)) s').
  { intros s' Hg. split; [done|]. by right; right. }
  apply wp_bind, wp_allocate; intros s1 Hs1; [intros Hg; by apply wp_ret, Hno|].
  apply wp_ret. case_decide as Hne; [by rewrite Hne in H0|]. apply wp_bind, wp_ret.
  apply wp_bind. eapply wp_mono; [apply Hparse|]. intros p_list s2 [Hs2 HP].
  apply wp_allocate; intros s3 Hs3; [intros Hg; by apply Hno|]. cbn [negb].
  apply wp_bind. eapply (wp_mono _ (answers s3 (wanted_sets (cpu_ids cs) p_list))).
  { destruct p_list as [[|l ls]|]; [apply default_cpusets_spec| |apply default_cpusets_spec].
    by apply (make_cpusets_spec (cpu_ids cs) (l :: ls)). }
  intros [sets|] s4 [(_ & _ & Hs4) Hr]; [|by apply Hno]. apply wp_ret. simpl.
  destruct Hs2 as (_ & _ & Hs2), Hs3 as (_ & _ & Hs3). simpl in Hs2. rewrite Hs4, Hs3, Hs2.
  exists cs, p_list. by rewrite Hr.
Qed.

(** CPU numbers are below CPU_SETSIZE, so handing them over does not change them. *)
Lemma cpuset_bits_id g c cs :
  initial_cpuset g = cpu_ids cs → (∀ x, x ∈ c → x ∈ initial_cpuset g) → c ≠ [] →
  cpuset_bits g c = c.
Proof.
  intros Hi Hc Hne. unfold cpuset_bits. destruct c as [|a c]; [done|]. revert Hc. generalize (a :: c).
  intros l Hl. rewrite <-(list_fmap_id l) at 2. apply list_fmap_ext. intros i x Hx.
  apply list_elem_of_lookup_2 in Hx. apply Hl in Hx. rewrite Hi in Hx. apply cpu_ids_spec in Hx as [Hx _].
  rewrite int_rem_mod by (unfold CPU_SETSIZE; lia). by apply Z.mod_small.
Qed.
End init.

(** ** The claims *)

(** The variable: not set, or a C string with numbers of at most nine digits and less
    than 4095 characters. *)
Definition fair_text (affinity_str : option (list Z)) : Prop :=
  match affinity_str with
  | None => True
  | Some str => ∃ t, str = t ++ [0] ∧ (0 ∉ t) ∧ short_runs t = true ∧ Z.of_nat (length t) < 4095
  end.

Lemma fair_parses gives moves str s :
  fair_text str →
  wp (parse_affinity gives moves str) (λ r s', same s s' ∧ ∀ ls, r = Some ls → wf_lists ls) s.
Proof.
  destruct str as [str|]; simpl.
  - intros (t & -> & H1 & H2 & H3). by apply parse_affinity_safe.
  - intros _. eapply wp_mono; [apply parse_affinity_none|]. by intros r s' [Hs ->].
Qed.

(** initialising the affinities never faults, whatever the variable holds and
    whenever the allocator fails.  Afterwards either affinities are off and there is no
    CPU set; or there is at least one CPU set, each one is a nonempty duplicate-free
    list of CPUs the process may run on, and the execution stream of any rank is
    bound to such a set. *)
Theorem affinity_init_wf gives moves getaffinity setaffinity str rank s :
  fair_text str →
  ∃ s', ABTD_affinity_init gives moves getaffinity str s = Done ((), s') ∧
    if set_affinity s' then
      ∃ cs cpus, getaffinity = Some cs ∧
        Forall (λ c, c ≠ [] ∧ NoDup c ∧ ∀ x, x ∈ c → 0 ≤ x < CPU_SETSIZE ∧ cs x = true)
               (cpusets (g_affinity s')) ∧
        ABTD_affinity_cpuset_apply_default setaffinity rank s' =
      Done ((if setaffinity cpus =? 0 then ABT_SUCCESS else ABT_ERR_SYS, cpus), s') ∧
        cpus ∈ cpusets (g_affinity s')
    else cpusets (g_affinity s') = [].
Proof.
  intros Hstr. pose proof (affinity_init_ok gives moves getaffinity _ str s
    (λ s', fair_parses gives moves str s' Hstr)) as Hwp.
  apply wp_run in Hwp as ([] & s' & Hrun & Hpost). exists s'. split; [done|].
  unfold init_post in Hpost. destruct (set_affinity s'); [|by destruct Hpost].
  destruct Hpost as (cs & r & Hcs & Hne & Hr & Hg). rewrite Hg. simpl.
  destruct (wanted_sets_wf (cpu_ids cs) r Hne Hr) as [Hwne Hwf].
  unfold ABTD_affinity_cpuset_apply_default, get, mbind, C_bind. rewrite Hg. simpl.
  set (sets := wanted_sets (cpu_ids cs) r) in *.
  assert (Hlen : 0 < Z.of_nat (length sets)) by (destruct sets; [done|simpl; lia]).
  rewrite (proj2 (Z.eqb_neq _ 0)) by lia.
  pose proof (Z.mod_pos_bound (u32 rank) _ Hlen).
  destruct (lookup_lt_is_Some_2 sets (Z.to_nat (u32 rank mod Z.of_nat (length sets)))) as [c Hc]; [lia|].
  rewrite Hc. exists cs, c. split_and!; [done|..].
  - eapply Forall_impl; [exact Hwf|]. intros k (? & ? & Hk). split_and!; [done|done|].
    intros x Hx. by apply cpu_ids_spec, Hk.
  - rewrite Forall_lookup in Hwf. destruct (Hwf _ _ Hc) as (Hcne & _ & Hsub).
    unfold mret, C_ret, apply_cpuset. by rewrite (cpuset_bits_id _ c cs).
  - by eapply list_elem_of_lookup_2.
Qed.

Definition aff0 : aff := Aff (GlobalAffinity [] []) 0 false 0.
(** A process on the even CPUs below 8. *)
Definition even_cpus (i : Z) : bool := Z.even i && (i <? 8).

Lemma affinity_init_wf_witness :
  fair_text (Some (sample_affinity ++ [0])) ∧
  ∃ s', ABTD_affinity_init (λ _, true) Nat.odd (Some even_cpus) (Some (sample_affinity ++ [0])) aff0
        = Done ((), s').
Proof.
  assert (H : fair_text (Some (sample_affinity ++ [0]))).
  { exists sample_affinity. split; [reflexivity|]. split; [apply (bool_decide_unpack _); vm_compute; exact I|].
    split; vm_compute; reflexivity. }
  split; [exact H|].
  destruct (affinity_init_wf (λ _, true) Nat.odd (Some even_cpus) (λ _, 0) (Some (sample_affinity ++ [0])) 3 aff0 H)
    as (s' & Hs & _). exists s'. exact Hs.
Defined.

Lemma interval_nonempty id num stride : 1 ≤ num → interval id num stride ≠ [].
Proof. intros H He. pose proof (interval_length id num stride) as Hl. rewrite He in Hl. simpl in Hl. lia. Qed.

Lemma affinity_value_nonempty a : affinity_ok a = true → Forall (λ l, l ≠ []) (affinity_value a).
Proof.
  assert (Hes : ∀ i, interval_ok i = true → Forall (λ l, l ≠ []) (interval_value i)).
  { intros [e o] (He & _ & _)%interval_ok_spec. apply interval_lists_wf. simpl in He.
    destruct e as [id|i more]; simpl in *; [by apply interval_nonempty|].
    apply andb_true_iff in He as [[(_ & _ & Hi)%id_ok_spec _]%andb_true_iff _].
    intros [H _]%app_nil. exact (interval_nonempty _ _ _ (proj1 Hi) H). }
  intros [[Hi Hmore]%andb_true_iff _]%andb_true_iff. apply Forall_app. split; [by apply Hes|].
  apply Forall_concat, Forall_fmap, list.Forall_forall. intros i Hin. apply Hes.
  rewrite forallb_forall in Hmore. by apply Hmore, list_elem_of_In.
Qed.

(** from the text of an affinity to the binding of an execution stream: if the
    variable holds the text of [a] and memory suffices, the execution stream of rank
    [r] is bound exactly to the cores of the id list number [r] modulo the number of
    lists, an id meaning, modulo the number of cores, a core the process may run on. *)
Theorem affinity_binds gives moves cs setaffinity a rank s :
  (∀ n, gives n = true) → affinity_ok a = true → cpu_ids cs ≠ [] → 0 ≤ rank < 2 ^ 31 →
  ∃ s' l cpus, ABTD_affinity_init gives moves (Some cs) (Some (affinity_text a ++ [0])) s = Done ((), s') ∧
    affinity_value a !! Z.to_nat (rank mod Z.of_nat (length (affinity_value a))) = Some l ∧
    ABTD_affinity_cpuset_apply_default setaffinity rank s' =
      Done ((if setaffinity cpus =? 0 then ABT_SUCCESS else ABT_ERR_SYS, cpus), s') ∧
    NoDup cpus ∧ ∀ c, c ∈ cpus ↔ ∃ id, id ∈ l ∧ c = core (cpu_ids cs) id.
Proof.
  intros Hmem Hok Hne Hrank.
  assert (Hparse : ∀ s', wp (parse_affinity gives moves (Some (affinity_text a ++ [0])))
    (λ r s'', same s' s'' ∧ r = Some (affinity_value a)) s').
  { intros s0. unfold wp, parse_affinity.
    destruct (affinity_reads_back (λ k, gives (calls s0 + k)%nat) (λ k, moves (calls s0 + k)%nat) a
      (λ k, Hmem _) Hok) as (al & st & -> & Hal). split; [done|]. by rewrite Hal. }
  pose proof (affinity_init_ok gives moves (Some cs) _ _ s Hparse) as Hwp.
  apply wp_run in Hwp as ([] & s' & Hrun & Hpost). exists s'.
  unfold init_post in Hpost. destruct (set_affinity s').
  2:{ destruct Hpost as (_ & [?|[(cs0 & [= <-] & ?)|[n Hn]]]); [done|done|]. by rewrite Hmem in Hn. }
  destruct Hpost as (cs0 & r & [= <-] & _ & -> & Hg).
  set (v := affinity_value a) in *.
  assert (Hv : wanted_sets (cpu_ids cs) (Some v) = (λ l, dedup (core (cpu_ids cs) <$> l)) <$> v).
  { unfold v, affinity_value, interval_value, interval_lists. done. }
  assert (Hlen : 0 < Z.of_nat (length v)).
  { unfold v, affinity_value, interval_value, interval_lists. simpl. lia. }
  pose proof (affinity_value_nonempty a Hok) as Hwf. fold v in Hwf. clearbody v.
  pose proof (Z.mod_pos_bound rank _ Hlen) as Hmod.
  destruct (lookup_lt_is_Some_2 v (Z.to_nat (rank mod Z.of_nat (length v)))) as [l Hl]; [lia|].
  exists l, (dedup (core (cpu_ids cs) <$> l)). destruct (dedup_spec (core (cpu_ids cs) <$> l)) as [Hnd Hin].
  split_and!; [done|done| |done|].
  - unfold ABTD_affinity_cpuset_apply_default, get, mbind, C_bind. rewrite Hg, Hv. simpl.
    rewrite length_fmap, (proj2 (Z.eqb_neq _ 0)) by lia. rewrite u32_small by lia.
    rewrite list_lookup_fmap, Hl. simpl.
    rewrite Forall_lookup in Hwf. specialize (Hwf _ _ Hl).
    unfold mret, C_ret, apply_cpuset. rewrite (cpuset_bits_id _ _ cs); [done|done|..].
    + simpl. intros x [id [-> _]]%Hin%list_elem_of_fmap. by apply core_lookup.
    + apply dedup_nonempty. by destruct l.
  - intros c. rewrite Hin, list_elem_of_fmap. split; intros (id & H1 & H2); by exists id.
Qed.

Lemma affinity_binds_witness :
  ∃ s' l cpus,
    ABTD_affinity_init (λ _, true) Nat.odd (Some even_cpus) (Some (affinity_text sample_ast ++ [0])) aff0
      = Done ((), s') ∧
    affinity_value sample_ast !! Z.to_nat (7 mod Z.of_nat (length (affinity_value sample_ast))) = Some l ∧
    ABTD_affinity_cpuset_apply_default (λ _, 0) 7 s' = Done ((ABT_SUCCESS, cpus), s') ∧
    NoDup cpus ∧ ∀ c, c ∈ cpus ↔ ∃ id, id ∈ l ∧ c = core (cpu_ids even_cpus) id.
Proof.
  apply (affinity_binds (λ _, true) Nat.odd even_cpus (λ _, 0) sample_ast 7 aff0); [reflexivity|vm_compute; reflexivity| |lia].
  assert (H : 0 ∈ cpu_ids even_cpus) by (apply cpu_ids_spec; split; [unfold CPU_SETSIZE; lia|reflexivity]).
  intros Hnil. rewrite Hnil in H. inversion H.
Defined.
