(* ===== verification/Env.v ===== *)
(** * Settings from the environment

    argobots/src/arch/abtd_env.c, with ABTI_mem_check_lp_alloc (mem/malloc.c) and the
    arithmetic of include/abtu.h: at start-up every setting of the library is read from an
    environment variable ABT_X or ABT_ENV_X, cut off at its bounds and rounded.  The
    build-time constants are the record [config]; what the system answers (the
    environment, the number of cores, the page size, which kinds of pages it grants) is the
    record [system]. *)

From stdpp Require Import base tactics option list numbers.
From Stdlib Require Import ZArith Lia String Ascii.
From S2P Require Import Prelude Abt Atoi AffinityParser Affinity.
Open Scope Z_scope.

(** A string literal. *)
Definition cstr (s : string) : list Z :=
  map (λ a, Z.of_N (N_of_ascii a)) (list_ascii_of_string s).

(** ** Arithmetic of abtu.h *)

Definition ABTU_max (a b : Z) : Z := if b <? a then a else b.
Definition ABTU_min (a b : Z) : Z := if a <? b then a else b.

Definition ABTU_roundup_uint32 (val multiple : Z) : Z :=
  if Z.land multiple (u32 (multiple - 1)) =? 0
  then Z.land (u32 (val + multiple - 1)) (u32 (Z.lnot (u32 (multiple - 1))))
  else u32 (u32 (val + multiple - 1) / multiple * multiple).

Definition ABTU_roundup_size (val multiple : Z) : Z :=
  if Z.land multiple (u64 (multiple - 1)) =? 0
  then Z.land (u64 (val + multiple - 1)) (u64 (Z.lnot (u64 (multiple - 1))))
  else u64 (u64 (val + multiple - 1) / multiple * multiple).

(** The loop of the two functions: the first [i < bits - 1] with [(val - 1) >> i == 0]. *)
Fixpoint pow2_index (n : nat) (val i : Z) : Z :=
  match n with
  | O => i
  | S n => if Z.shiftr (val - 1) i =? 0 then i else pow2_index n val (i + 1)
  end.
Definition roundup_pow2_uint32 (val : Z) : Z :=
  if val =? 0 then 0 else u32 (Z.shiftl 1 (pow2_index 31 val 0)).
Definition roundup_pow2_size (val : Z) : Z :=
  if val =? 0 then 0 else u64 (Z.shiftl 1 (pow2_index 63 val 0)).

(** ** Constants, the build and the system *)

Definition ABTD_KEY_TABLE_DEFAULT_SIZE : Z := 4.
Definition ABTD_SCHED_DEFAULT_STACKSIZE : Z := 4 * 1024 * 1024.
Definition ABTD_SCHED_EVENT_FREQ : Z := 50.
Definition ABTD_SCHED_SLEEP_NSEC : Z := 100.
Definition ABTD_SYS_PAGE_SIZE : Z := 4096.
Definition ABTD_HUGE_PAGE_SIZE : Z := 2 * 1024 * 1024.
Definition ABTD_MEM_PAGE_SIZE : Z := 2 * 1024 * 1024.
Definition ABTD_MEM_STACK_PAGE_SIZE : Z := 8 * 1024 * 1024.
Definition ABTD_MEM_MAX_NUM_STACKS : Z := 1024.
Definition ABTD_MEM_MAX_TOTAL_STACK_SIZE : Z := 64 * 1024 * 1024.
Definition ABTD_MEM_MAX_NUM_DESCS : Z := 4096.
Definition ABT_MEM_POOL_MAX_LOCAL_BUCKETS : Z := 2.
Definition ABTD_ENV_INT_MAX : Z := INT_MAX / 2.
Definition ABTD_ENV_UINT32_MAX : Z := UINT32_MAX / 2.
Definition ABTD_ENV_UINT64_MAX : Z := UINT64_MAX / 2.
Definition ABTD_ENV_SIZE_MAX : Z := UINT64_MAX / 2.

Inductive ABTI_stack_guard :=
  | ABTI_STACK_GUARD_NONE | ABTI_STACK_GUARD_MPROTECT | ABTI_STACK_GUARD_MPROTECT_STRICT.
Inductive lp_alloc_kind :=
  | ABTI_MEM_LP_MALLOC | ABTI_MEM_LP_MMAP_RP | ABTI_MEM_LP_MMAP_HP_RP
  | ABTI_MEM_LP_MMAP_HP_THP | ABTI_MEM_LP_THP.
Inductive ABTU_MEM_LARGEPAGE_TYPE :=
  | ABTU_MEM_LARGEPAGE_MALLOC | ABTU_MEM_LARGEPAGE_MEMALIGN
  | ABTU_MEM_LARGEPAGE_MMAP | ABTU_MEM_LARGEPAGE_MMAP_HUGEPAGE.

(** What configure decided (the memory pools are compiled in). *)
Record config := Config {
  CACHELINE_SIZE : Z;
  DEFAULT_THREAD_STACKSIZE : Z;
  SYS_HUGE_PAGE_SIZE : Z;
  USE_DEBUG_LOG_PRINT : bool;
  DISABLE_DUMP_RAW_STACK : bool;
  STACK_CHECK_TYPE : ABTI_stack_guard;
  HAVE_MAP_ANON : bool;
  USE_HUGE_PAGE_DEFAULT : bool;
  HAVE_GETPAGESIZE : bool
}.

(** [probe t size alignment]: the system grants a page of this kind. *)
Record system := System {
  getenv : list Z → option (list Z);
  nprocessors : Z;
  getpagesize : Z;
  probe : ABTU_MEM_LARGEPAGE_TYPE → Z → Z → bool
}.

(** The settings of [ABTI_global]; [num_cores] and [set_affinity] are in [aff]. *)
Record settings := Settings {
  use_logging : bool;
  use_debug : bool;
  max_xstreams : Z;
  key_table_size : Z;
  stack_guard_kind : ABTI_stack_guard;
  sys_page_size : Z;
  thread_stacksize : Z;
  sched_stacksize : Z;
  sched_event_freq : Z;
  sched_sleep_nsec : Z;
  mutex_max_handovers : Z;
  mutex_max_wakeups : Z;
  print_raw_stack : bool;
  huge_page_size : Z;
  mem_page_size : Z;
  mem_sp_size : Z;
  mem_max_stacks : Z;
  mem_max_descs : Z;
  mem_lp_alloc : lp_alloc_kind;
  print_config : bool
}.

(** ** Reading one variable *)

(** [strcmp(a, b) == 0] and [strcasecmp(a, b) == 0]. *)
Definition strcmp_eq (a b : list Z) : bool := bool_decide (a = b).
Definition tolower (c : Z) : Z := if (65 <=? c) && (c <=? 90) then c + 32 else c.
Definition strcasecmp_eq (a b : list Z) : bool := bool_decide (map tolower a = map tolower b).

Section env.
Variables (cfg : config) (sys : system).

(** ABT_ is asked first, then ABT_ENV_; a name that does not fit the buffer of 128
    characters is skipped. *)
Fixpoint get_env_prefixed (prefixes : list (list Z)) (env_suffix : list Z) : option (list Z) :=
  match prefixes with
  | [] => None
  | p :: prefixes =>
      if Z.of_nat (List.length p) + Z.of_nat (List.length env_suffix) + 1 <=? 128 then
        match getenv sys (p ++ env_suffix) with
        | Some env => Some env
        | None => get_env_prefixed prefixes env_suffix
        end
      else get_env_prefixed prefixes env_suffix
  end.
Definition get_abt_env (env_suffix : string) : option (list Z) :=
  get_env_prefixed [cstr "ABT_"; cstr "ABT_ENV_"] (cstr env_suffix).

Definition is_false (str : list Z) (include0 : bool) : bool :=
  if include0 && strcmp_eq str (cstr "0") then true
  else strcasecmp_eq str (cstr "n") || strcasecmp_eq str (cstr "no")
       || strcasecmp_eq str (cstr "false") || strcasecmp_eq str (cstr "off").

Definition is_true (str : list Z) (include1 : bool) : bool :=
  if include1 && strcmp_eq str (cstr "1") then true
  else strcasecmp_eq str (cstr "y") || strcasecmp_eq str (cstr "yes")
       || strcasecmp_eq str (cstr "true") || strcasecmp_eq str (cstr "on").

Definition load_env_bool (env_suffix : string) (default_val : bool) : bool :=
  match get_abt_env env_suffix with
  | None => default_val
  | Some env => if default_val then (if is_false env true then false else true)
                else (if is_true env true then true else false)
  end.

(** The common body of the four functions below. *)
Definition load_env (conv : list Z → answer (Z * bool)) (env_suffix : string)
    (default_val min_val max_val : Z) : outcome Z :=
  match get_abt_env env_suffix with
  | None => Done (ABTU_max min_val (ABTU_min max_val default_val))
  | Some env =>
      match conv (env ++ [0]) with
      | Fault f => Fault f
      | Done (inl _) => Done (ABTU_max min_val (ABTU_min max_val default_val))
      | Done (inr (val, _)) => Done (ABTU_max min_val (ABTU_min max_val val))
      end
  end.
Definition load_env_int := load_env ABTU_atoi.
Definition load_env_uint32 := load_env ABTU_atoui32.
Definition load_env_uint64 := load_env ABTU_atoui64.
Definition load_env_size := load_env (ABTU_atosz 8).

(** ** The settings one by one *)

(** The statements of this file run on the state of [Affinity]. *)
Abbreviation M A := (C aff A) (only parsing).

Definition ABTD_env_get_use_debug : bool := load_env_bool "USE_DEBUG" (USE_DEBUG_LOG_PRINT cfg).
Definition ABTD_env_get_use_logging : bool := load_env_bool "USE_LOG" (USE_DEBUG_LOG_PRINT cfg).
Definition ABTD_env_get_print_config : bool := load_env_bool "PRINT_CONFIG" false.

Definition ABTD_env_get_max_xstreams : M Z :=
  lift (load_env_int "MAX_NUM_XSTREAMS" (i32 (nprocessors sys)) 1 ABTD_ENV_INT_MAX).

Definition ABTD_env_key_table_size : M Z :=
  v ← lift (load_env_uint32 "KEY_TABLE_SIZE" ABTD_KEY_TABLE_DEFAULT_SIZE 1 ABTD_ENV_UINT32_MAX);
  mret (roundup_pow2_uint32 v).

Definition ABTD_env_get_sys_pagesize : M Z :=
  let sys_page_size := if HAVE_GETPAGESIZE cfg then u64 (getpagesize sys) else ABTD_SYS_PAGE_SIZE in
  v ← lift (load_env_size "SYS_PAGE_SIZE" sys_page_size 64 ABTD_ENV_SIZE_MAX);
  mret (roundup_pow2_size v).

(** [(mprotect_val, strict_val)] *)
Definition ABTD_env_get_stack_guard_mprotect : bool * bool :=
  match get_abt_env "STACK_OVERFLOW_CHECK" with
  | Some env =>
      if strcasecmp_eq env (cstr "mprotect_strict") then (true, true)
      else if strcasecmp_eq env (cstr "mprotect") then (true, false)
      else (false, false)
  | None =>
      match STACK_CHECK_TYPE cfg with
      | ABTI_STACK_GUARD_MPROTECT => (true, false)
      | ABTI_STACK_GUARD_MPROTECT_STRICT => (true, true)
      | ABTI_STACK_GUARD_NONE => (false, false)
      end
  end.

(** [ABTD_env_get_thread_stacksize] and [ABTD_env_get_sched_stacksize]: two pages more
    if they are protected. *)
Definition get_stacksize (env_suffix : string) (default_stacksize : Z) : M Z :=
  d ← (if ABTD_env_get_stack_guard_mprotect.1
       then p ← ABTD_env_get_sys_pagesize; mret (u64 (default_stacksize + u64 (p * 2)))
       else mret default_stacksize);
  v ← lift (load_env_size env_suffix d 512 ABTD_ENV_SIZE_MAX);
  mret (ABTU_roundup_size v (CACHELINE_SIZE cfg)).
Definition ABTD_env_get_thread_stacksize : M Z :=
  get_stacksize "THREAD_STACKSIZE" (DEFAULT_THREAD_STACKSIZE cfg).
Definition ABTD_env_get_sched_stacksize : M Z :=
  get_stacksize "SCHED_STACKSIZE" ABTD_SCHED_DEFAULT_STACKSIZE.

Definition ABTD_env_get_sched_event_freq : M Z :=
  lift (load_env_uint32 "SCHED_EVENT_FREQ" ABTD_SCHED_EVENT_FREQ 1 ABTD_ENV_UINT32_MAX).
Definition ABTD_env_get_sched_sleep_nsec : M Z :=
  lift (load_env_uint64 "SCHED_SLEEP_NSEC" ABTD_SCHED_SLEEP_NSEC 0 ABTD_ENV_UINT64_MAX).

(** ** Large pages *)

(** util/largepage.c: can the system grant a page of this kind right now? *)
Definition ABTU_is_supported_largepage_type (size alignment_hint : Z)
    (requested : ABTU_MEM_LARGEPAGE_TYPE) : bool :=
  match requested with
  | ABTU_MEM_LARGEPAGE_MALLOC => true
  | t => probe sys t size alignment_hint
  end.

Definition ABTI_mem_check_lp_alloc (sp_size pg_size huge_size : Z) (lp_alloc : lp_alloc_kind)
    : lp_alloc_kind :=
  let alignment := CACHELINE_SIZE cfg in
  match lp_alloc with
  | ABTI_MEM_LP_MMAP_RP =>
      if ABTU_is_supported_largepage_type pg_size alignment ABTU_MEM_LARGEPAGE_MMAP
      then ABTI_MEM_LP_MMAP_RP else ABTI_MEM_LP_MALLOC
  | ABTI_MEM_LP_MMAP_HP_RP =>
      if ABTU_is_supported_largepage_type sp_size alignment ABTU_MEM_LARGEPAGE_MMAP_HUGEPAGE
      then ABTI_MEM_LP_MMAP_HP_RP
      else if ABTU_is_supported_largepage_type pg_size alignment ABTU_MEM_LARGEPAGE_MMAP
      then ABTI_MEM_LP_MMAP_RP else ABTI_MEM_LP_MALLOC
  | ABTI_MEM_LP_MMAP_HP_THP =>
      if ABTU_is_supported_largepage_type sp_size alignment ABTU_MEM_LARGEPAGE_MMAP_HUGEPAGE
      then ABTI_MEM_LP_MMAP_HP_THP
      else if ABTU_is_supported_largepage_type pg_size huge_size ABTU_MEM_LARGEPAGE_MEMALIGN
      then ABTI_MEM_LP_THP else ABTI_MEM_LP_MALLOC
  | ABTI_MEM_LP_THP =>
      if ABTU_is_supported_largepage_type pg_size huge_size ABTU_MEM_LARGEPAGE_MEMALIGN
      then ABTI_MEM_LP_THP else ABTI_MEM_LP_MALLOC
  | ABTI_MEM_LP_MALLOC => ABTI_MEM_LP_MALLOC
  end.

(** The kind of large page that is asked for. *)
Definition wanted_lp_alloc : lp_alloc_kind :=
  let lp_alloc :=
    if HAVE_MAP_ANON cfg then
      match get_abt_env "HUGE_PAGE_SIZE" with
      | Some _ => ABTI_MEM_LP_MMAP_HP_RP
      | None =>
          if USE_HUGE_PAGE_DEFAULT cfg then
            if (4096 <=? SYS_HUGE_PAGE_SIZE cfg) && (SYS_HUGE_PAGE_SIZE cfg <=? 8 * 1024 * 1024)
            then ABTI_MEM_LP_MMAP_HP_RP else ABTI_MEM_LP_MMAP_RP
          else ABTI_MEM_LP_MMAP_RP
      end
    else ABTI_MEM_LP_MALLOC in
  match get_abt_env "MEM_LP_ALLOC" with
  | None => lp_alloc
  | Some env =>
      if strcasecmp_eq env (cstr "malloc") then ABTI_MEM_LP_MALLOC
      else if HAVE_MAP_ANON cfg && strcasecmp_eq env (cstr "mmap_rp") then ABTI_MEM_LP_MMAP_RP
      else if HAVE_MAP_ANON cfg && strcasecmp_eq env (cstr "mmap_hp_rp") then ABTI_MEM_LP_MMAP_HP_RP
      else if HAVE_MAP_ANON cfg && strcasecmp_eq env (cstr "mmap_hp_thp") then ABTI_MEM_LP_MMAP_HP_THP
      else if strcasecmp_eq env (cstr "thp") then ABTI_MEM_LP_THP
      else lp_alloc
  end.

(** ** All settings *)

Section init.
Variables (gives moves : nat → bool) (getaffinity : option (Z → bool)).

Definition ABTD_env_init : M settings :=
  set_cores (i32 (nprocessors sys));;
  let env := get_abt_env "SET_AFFINITY" in
  (if match env with Some e => is_false e false | None => false end then set_flag false
   else set_flag true;;
        ABTD_affinity_init gives moves getaffinity ((λ e, e ++ [0]) <$> env));;
  max_xstreams ← ABTD_env_get_max_xstreams;
  key_table_size ← ABTD_env_key_table_size;
  let guard := match ABTD_env_get_stack_guard_mprotect with
               | (true, true) => ABTI_STACK_GUARD_MPROTECT_STRICT
               | (true, false) => ABTI_STACK_GUARD_MPROTECT
               | (false, _) => ABTI_STACK_GUARD_NONE
               end in
  sys_page_size ← ABTD_env_get_sys_pagesize;
  thread_stacksize ← ABTD_env_get_thread_stacksize;
  sched_stacksize ← ABTD_env_get_sched_stacksize;
  sched_event_freq ← ABTD_env_get_sched_event_freq;
  sched_sleep_nsec ← ABTD_env_get_sched_sleep_nsec;
  mutex_max_handovers ← lift (load_env_uint32 "MUTEX_MAX_HANDOVERS" 64 1 ABTD_ENV_UINT32_MAX);
  mutex_max_wakeups ← lift (load_env_uint32 "MUTEX_MAX_WAKEUPS" 1 1 ABTD_ENV_UINT32_MAX);
  let print_raw_stack := load_env_bool "PRINT_RAW_STACK" (negb (DISABLE_DUMP_RAW_STACK cfg)) in
  let default_huge_page_size :=
    if SYS_HUGE_PAGE_SIZE cfg =? 0 then ABTD_HUGE_PAGE_SIZE else SYS_HUGE_PAGE_SIZE cfg in
  huge_page_size ← lift (load_env_size "HUGE_PAGE_SIZE" default_huge_page_size 4096 ABTD_ENV_SIZE_MAX);
  page ← lift (load_env_size "MEM_PAGE_SIZE" ABTD_MEM_PAGE_SIZE 4096 ABTD_ENV_SIZE_MAX);
  let mem_page_size := roundup_pow2_size (ABTU_roundup_size page (CACHELINE_SIZE cfg)) in
  sp ← lift (load_env_size "MEM_STACK_PAGE_SIZE" ABTD_MEM_STACK_PAGE_SIZE
               (u64 (thread_stacksize * 4)) ABTD_ENV_SIZE_MAX);
  let mem_sp_size := ABTU_roundup_size sp (CACHELINE_SIZE cfg) in
  let default_mem_max_stacks :=
    ABTU_min (u32 (ABTD_MEM_MAX_TOTAL_STACK_SIZE / thread_stacksize)) ABTD_MEM_MAX_NUM_STACKS in
  stacks ← lift (load_env_uint32 "MEM_MAX_NUM_STACKS" default_mem_max_stacks
                   ABT_MEM_POOL_MAX_LOCAL_BUCKETS ABTD_ENV_UINT32_MAX);
  let mem_max_stacks := ABTU_roundup_uint32 stacks ABT_MEM_POOL_MAX_LOCAL_BUCKETS in
  descs ← lift (load_env_uint32 "MEM_MAX_NUM_DESCS" ABTD_MEM_MAX_NUM_DESCS
                  ABT_MEM_POOL_MAX_LOCAL_BUCKETS ABTD_ENV_UINT32_MAX);
  let mem_max_descs := ABTU_roundup_uint32 descs ABT_MEM_POOL_MAX_LOCAL_BUCKETS in
  let mem_lp_alloc :=
    match wanted_lp_alloc with
    | ABTI_MEM_LP_MALLOC => ABTI_MEM_LP_MALLOC
    | lp => ABTI_mem_check_lp_alloc mem_sp_size mem_page_size huge_page_size lp
    end in
  mret {| use_logging := ABTD_env_get_use_logging; use_debug := ABTD_env_get_use_debug;
          max_xstreams := max_xstreams; key_table_size := key_table_size;
          stack_guard_kind := guard; sys_page_size := sys_page_size;
          thread_stacksize := thread_stacksize; sched_stacksize := sched_stacksize;
          sched_event_freq := sched_event_freq; sched_sleep_nsec := sched_sleep_nsec;
          mutex_max_handovers := mutex_max_handovers; mutex_max_wakeups := mutex_max_wakeups;
          print_raw_stack := print_raw_stack; huge_page_size := huge_page_size;
          mem_page_size := mem_page_size; mem_sp_size := mem_sp_size;
          mem_max_stacks := mem_max_stacks; mem_max_descs := mem_max_descs;
          mem_lp_alloc := mem_lp_alloc; print_config := ABTD_env_get_print_config |}.
End init.
End env.

(** ** Rounding *)

(** Clearing the [k] low bits of a [w]-bit number. *)
Lemma land_mask w k x :
  0 ≤ k → k ≤ w → 0 ≤ x < 2 ^ w → Z.land x (Z.lnot (2 ^ k - 1) mod 2 ^ w) = x / 2 ^ k * 2 ^ k.
Proof.
  intros Hk Hkw Hx. rewrite <-Z.land_ones by lia.
  rewrite (Z.land_comm (Z.lnot _)), Z.land_assoc, Z.land_ones by lia.
  rewrite Z.mod_small by done. change (Z.land x (Z.lnot (2 ^ k - 1))) with (Z.land x (Z.lnot (2 ^ k - 1))).
  rewrite <-Z.ldiff_land. rewrite Z.sub_1_r, <-Z.ones_equiv.
  rewrite Z.ldiff_ones_r, Z.shiftl_mul_pow2, Z.shiftr_div_pow2 by lia. done.
Qed.

Lemma pow2_land k : 0 ≤ k → Z.land (2 ^ k) (2 ^ k - 1) = 0.
Proof.
  intros Hk. rewrite Z.sub_1_r, <-Z.ones_equiv, Z.land_ones by lia. by apply Z.mod_same, Z.pow_nonzero.
Qed.

(** The next multiple of [2 ^ k]. *)
Definition ceil_pow2 (k v : Z) : Z := (v + 2 ^ k - 1) / 2 ^ k * 2 ^ k.

Lemma ceil_pow2_spec k v :
  0 ≤ k → v ≤ ceil_pow2 k v < v + 2 ^ k ∧ (2 ^ k | ceil_pow2 k v).
Proof.
  intros Hk. unfold ceil_pow2. assert (0 < 2 ^ k) by (apply Z.pow_pos_nonneg; lia).
  pose proof (Z.div_mod (v + 2 ^ k - 1) (2 ^ k)). pose proof (Z.mod_pos_bound (v + 2 ^ k - 1) (2 ^ k)).
  split; [lia|]. exists ((v + 2 ^ k - 1) / 2 ^ k). lia.
Qed.

Lemma roundup_size_ceil k v :
  0 ≤ k < 64 → 0 ≤ v → v + 2 ^ k ≤ 2 ^ 64 → ABTU_roundup_size v (2 ^ k) = ceil_pow2 k v.
Proof.
  intros Hk Hv Hs. unfold ABTU_roundup_size. assert (0 < 2 ^ k) by (apply Z.pow_pos_nonneg; lia).
  rewrite !(u64_small (2 ^ k - 1)), pow2_land, u64_small by lia.
  cbn [Z.eqb]. unfold u64. rewrite land_mask by lia. done.
Qed.

Lemma roundup_uint32_ceil k v :
  0 ≤ k < 32 → 0 ≤ v → v + 2 ^ k ≤ 2 ^ 32 → ABTU_roundup_uint32 v (2 ^ k) = ceil_pow2 k v.
Proof.
  intros Hk Hv Hs. unfold ABTU_roundup_uint32. assert (0 < 2 ^ k) by (apply Z.pow_pos_nonneg; lia).
  rewrite !(u32_small (2 ^ k - 1)), pow2_land, u32_small by lia.
  cbn [Z.eqb]. unfold u32. rewrite land_mask by lia. done.
Qed.

Lemma pow2_index_log n v i :
  1 ≤ v → 0 ≤ i ≤ Z.log2_up v → Z.log2_up v ≤ i + Z.of_nat n → pow2_index n v i = Z.log2_up v.
Proof.
  intros Hv. revert i. induction n as [|n IH]; intros i Hi Hn; simpl; [lia|].
  rewrite Z.shiftr_div_pow2 by lia. assert (0 < 2 ^ i) by (apply Z.pow_pos_nonneg; lia).
  pose proof (Z.log2_up_le_pow2 v i ltac:(lia)) as Hlog.
  destruct (Z.eqb_spec ((v - 1) / 2 ^ i) 0) as [H0|H0].
  - apply Z.div_small_iff in H0; [|lia]. lia.
  - apply IH; [|lia]. split; [lia|]. destruct (Z.le_gt_cases (Z.log2_up v) i); [|lia].
    exfalso. apply H0, Z.div_small. lia.
Qed.

Lemma roundup_pow2_uint32_log v : 1 ≤ v ≤ 2 ^ 31 → roundup_pow2_uint32 v = 2 ^ Z.log2_up v.
Proof.
  intros Hv. unfold roundup_pow2_uint32. rewrite (proj2 (Z.eqb_neq v 0)) by lia.
  pose proof (Z.log2_up_nonneg v). pose proof (proj1 (Z.log2_up_le_pow2 v 31 ltac:(lia)) (proj2 Hv)).
  rewrite pow2_index_log by lia. rewrite Z.shiftl_1_l, u32_small; [done|].
  split; [apply Z.pow_nonneg; lia|]. apply Z.pow_lt_mono_r; lia.
Qed.

Lemma roundup_pow2_size_log v : 1 ≤ v ≤ 2 ^ 63 → roundup_pow2_size v = 2 ^ Z.log2_up v.
Proof.
  intros Hv. unfold roundup_pow2_size. rewrite (proj2 (Z.eqb_neq v 0)) by lia.
  pose proof (Z.log2_up_nonneg v). pose proof (proj1 (Z.log2_up_le_pow2 v 63 ltac:(lia)) (proj2 Hv)).
  rewrite pow2_index_log by lia. rewrite Z.shiftl_1_l, u64_small; [done|].
  split; [apply Z.pow_nonneg; lia|]. apply Z.pow_lt_mono_r; lia.
Qed.

(** A power of two between two powers of two. *)
Definition pow2_between (lo hi v : Z) : Prop := ∃ k, lo ≤ k ≤ hi ∧ v = 2 ^ k.

Lemma log2_up_between lo hi v :
  0 ≤ lo → 2 ^ lo ≤ v ≤ 2 ^ hi → pow2_between lo hi (2 ^ Z.log2_up v).
Proof.
  intros Hlo Hv. assert (0 < 2 ^ lo) by (apply Z.pow_pos_nonneg; lia).
  exists (Z.log2_up v). split; [|done]. split.
  - rewrite <-(Z.log2_up_pow2 lo) by lia. apply Z.log2_up_le_mono, Hv.
  - destruct (Z.le_gt_cases 0 hi); [|rewrite (Z.pow_neg_r 2 hi) in Hv by lia; lia].
    apply (Z.log2_up_le_pow2 v hi); lia.
Qed.

(** rounding up to a power of two is the smallest power of two that is not below
    the argument, and rounding up to a multiple of a power of two the smallest multiple
    that is not below it, as long as the result fits the type. *)
Theorem roundup_reference v k :
  (1 ≤ v ≤ 2 ^ 31 → roundup_pow2_uint32 v = 2 ^ Z.log2_up v) ∧
  (1 ≤ v ≤ 2 ^ 63 → roundup_pow2_size v = 2 ^ Z.log2_up v) ∧
  (0 ≤ k < 64 → 0 ≤ v → v + 2 ^ k ≤ 2 ^ 64 →
     v ≤ ABTU_roundup_size v (2 ^ k) < v + 2 ^ k ∧ (2 ^ k | ABTU_roundup_size v (2 ^ k))) ∧
  (0 ≤ k < 32 → 0 ≤ v → v + 2 ^ k ≤ 2 ^ 32 →
     v ≤ ABTU_roundup_uint32 v (2 ^ k) < v + 2 ^ k ∧ (2 ^ k | ABTU_roundup_uint32 v (2 ^ k))).
Proof.
  split_and!.
  - apply roundup_pow2_uint32_log.
  - apply roundup_pow2_size_log.
  - intros Hk Hv Hs. rewrite roundup_size_ceil by done. apply ceil_pow2_spec. lia.
  - intros Hk Hv Hs. rewrite roundup_uint32_ceil by done. apply ceil_pow2_spec. lia.
Qed.

(** ** The settings are in range *)

(** The build: a cache line is a power of two of at most 4096 bytes. *)
Definition config_ok (cfg : config) : Prop := ∃ k, 0 ≤ k ≤ 12 ∧ CACHELINE_SIZE cfg = 2 ^ k.

(** The values of environment variables are C strings; the one of the affinities is as
    the parser of affinities needs it. *)
Definition env_ok (sys : system) : Prop :=
  (∀ name env, getenv sys name = Some env → (0 ∉ env)) ∧
  (∀ env, get_abt_env sys "SET_AFFINITY" = Some env →
     short_runs env = true ∧ Z.of_nat (List.length env) < 4095).

Section bounds.
Context (cfg : config) (sys : system) (Hcfg : config_ok cfg) (Hsys : env_ok sys).

Lemma get_abt_env_ok suffix env : get_abt_env sys suffix = Some env → (0 ∉ env).
Proof.
  clear Hcfg. destruct Hsys as [H _]. unfold get_abt_env. cbn [get_env_prefixed].
  repeat case_match; intros; simplify_eq; try done; by eapply H.
Qed.

(** A conversion that answers on every C string. *)
Definition total (conv : list Z → answer (Z * bool)) : Prop :=
  ∀ s, (0 ∉ s) → ∃ r, conv (s ++ [0]) = Done r.

Lemma convert_total conv lo hi :
  (∀ s rest, (0 ∉ s) → conv (s ++ 0 :: rest) = convert lo hi s) → total conv.
Proof.
  clear Hcfg Hsys. intros H s Hs. rewrite (H s []) by done. unfold convert.
  destruct (int_of_text s); by eexists.
Qed.
Lemma atoi_total : total ABTU_atoi.
Proof. apply (convert_total _ INT_MIN INT_MAX), atoi_convert. Qed.
Lemma atoui32_total : total ABTU_atoui32.
Proof. apply (convert_total _ 0 UINT32_MAX), atoui32_convert. Qed.
Lemma atoui64_total : total ABTU_atoui64.
Proof. apply (convert_total _ 0 UINT64_MAX), atoui64_convert. Qed.
Lemma atosz_total : total (ABTU_atosz 8).
Proof. apply (convert_total _ 0 UINT64_MAX). intros. by apply atoui64_convert. Qed.

Lemma clamp_between lo hi x : lo ≤ hi → lo ≤ ABTU_max lo (ABTU_min hi x) ≤ hi.
Proof.
  clear Hcfg Hsys. intros. unfold ABTU_max, ABTU_min.
  repeat case_match; lia.
Qed.

(** Whatever the variable holds, the value is within the bounds. *)
Lemma load_env_between conv suffix d lo hi {A} (k : Z → C aff A) Q s :
  total conv → lo ≤ hi → (∀ v, lo ≤ v ≤ hi → wp (k v) Q s) →
  wp (lift (load_env sys conv suffix d lo hi) ≫= k) Q s.
Proof.
  clear Hcfg. intros Hc Hlh Hk. assert (Hv : ∃ v, load_env sys conv suffix d lo hi = Done v ∧ lo ≤ v ≤ hi).
  { unfold load_env. destruct (get_abt_env sys suffix) as [env|] eqn:He.
    - destruct (Hc env) as [r Hr]; [by eapply get_abt_env_ok|]. rewrite Hr.
      destruct r as [e|[v b]]; eexists; (split; [done|by apply clamp_between]).
    - eexists; (split; [done|by apply clamp_between]). }
  destruct Hv as (v & Hv & Hb). eapply wp_lift; [exact Hv|]. by apply Hk.
Qed.

Lemma size_max : ABTD_ENV_SIZE_MAX = 2 ^ 63 - 1.
Proof. by vm_compute. Qed.
Lemma uint32_max : ABTD_ENV_UINT32_MAX = 2 ^ 31 - 1.
Proof. by vm_compute. Qed.

(** A multiple of the cache line that is not below [lo]. *)
Definition lines_from (lo v : Z) : Prop := lo ≤ v ≤ 2 ^ 63 ∧ (CACHELINE_SIZE cfg | v).

Lemma roundup_line v lo :
  0 ≤ lo → lo ≤ v ≤ ABTD_ENV_SIZE_MAX → lines_from lo (ABTU_roundup_size v (CACHELINE_SIZE cfg)).
Proof.
  clear Hsys. rewrite size_max. intros Hlo Hv. destruct Hcfg as (k & Hk & Hline). unfold lines_from. rewrite Hline.
  assert (2 ^ k ≤ 2 ^ 12) by (apply Z.pow_le_mono_r; lia).
  rewrite roundup_size_ceil by lia. destruct (ceil_pow2_spec k v) as [Hc Hd]; [lia|].
  split; [|done]. split; [lia|]. unfold ceil_pow2 in *.
  assert (Hpow : 2 ^ 63 = 2 ^ k * 2 ^ (63 - k)) by (rewrite <-Z.pow_add_r by lia; f_equal; lia).
  assert (Hdiv : (v + 2 ^ k - 1) / 2 ^ k < 2 ^ (63 - k) + 1) by (apply Z.div_lt_upper_bound; lia).
  nia.
Qed.

(** Stack sizes: at least 512 bytes, whole cache lines. *)
Lemma get_stacksize_spec suffix d {A} (k : Z → C aff A) Q s :
  (∀ v, lines_from 512 v → wp (k v) Q s) → wp (get_stacksize cfg sys suffix d ≫= k) Q s.
Proof.
  intros Hk.
  assert (Hgo : ∀ d', wp (v ← lift (load_env_size sys suffix d' 512 ABTD_ENV_SIZE_MAX);
                          mret (ABTU_roundup_size v (CACHELINE_SIZE cfg))) (λ v, wp (k v) Q) s).
  { intros d'. apply load_env_between; [apply atosz_total|by vm_compute|].
    intros v Hv. apply wp_ret, Hk. by apply roundup_line. }
  apply wp_bind. unfold get_stacksize. apply wp_bind.
  destruct (ABTD_env_get_stack_guard_mprotect cfg sys).1; [|apply wp_ret; apply Hgo].
  apply wp_bind. unfold ABTD_env_get_sys_pagesize.
  apply load_env_between; [apply atosz_total|by vm_compute|]. intros p Hp. apply wp_ret, wp_ret, Hgo.
Qed.

Lemma sys_pagesize_spec {A} (k : Z → C aff A) Q s :
  (∀ v, pow2_between 6 63 v → wp (k v) Q s) → wp (ABTD_env_get_sys_pagesize cfg sys ≫= k) Q s.
Proof.
  intros Hk. apply wp_bind. unfold ABTD_env_get_sys_pagesize.
  apply load_env_between; [apply atosz_total|by vm_compute|]. rewrite size_max. intros v Hv. apply wp_ret, Hk.
  rewrite roundup_pow2_size_log by lia. apply log2_up_between; lia.
Qed.

Lemma key_table_size_spec {A} (k : Z → C aff A) Q s :
  (∀ v, pow2_between 0 31 v → wp (k v) Q s) → wp (ABTD_env_key_table_size sys ≫= k) Q s.
Proof.
  intros Hk. apply wp_bind. unfold ABTD_env_key_table_size.
  apply load_env_between; [apply atoui32_total|by vm_compute|]. rewrite uint32_max. intros v Hv. apply wp_ret, Hk.
  rewrite roundup_pow2_uint32_log by lia. apply log2_up_between; lia.
Qed.

(** The settings every other component relies on. *)
Record settings_ok (g : settings) : Prop := SettingsOk {
  ok_xstreams : 1 ≤ max_xstreams g ≤ ABTD_ENV_INT_MAX;
  ok_key_table : pow2_between 0 31 (key_table_size g);
  ok_page : pow2_between 6 63 (sys_page_size g);
  ok_thread_stack : lines_from 512 (thread_stacksize g);
  ok_sched_stack : lines_from 512 (sched_stacksize g);
  ok_event_freq : 1 ≤ sched_event_freq g ≤ ABTD_ENV_UINT32_MAX;
  ok_sleep : 0 ≤ sched_sleep_nsec g ≤ ABTD_ENV_UINT64_MAX;
  ok_huge_page : 4096 ≤ huge_page_size g ≤ ABTD_ENV_SIZE_MAX;
  ok_mem_page : pow2_between 12 63 (mem_page_size g);
  ok_stack_page : thread_stacksize g < 2 ^ 61 → lines_from (4 * thread_stacksize g) (mem_sp_size g);
  ok_max_stacks : 2 ≤ mem_max_stacks g ≤ 2 ^ 31 ∧ (2 | mem_max_stacks g);
  ok_max_descs : 2 ≤ mem_max_descs g ≤ 2 ^ 31 ∧ (2 | mem_max_descs g)
}.

Lemma roundup_buckets v :
  ABT_MEM_POOL_MAX_LOCAL_BUCKETS ≤ v ≤ ABTD_ENV_UINT32_MAX →
  2 ≤ ABTU_roundup_uint32 v ABT_MEM_POOL_MAX_LOCAL_BUCKETS ≤ 2 ^ 31 ∧
  (2 | ABTU_roundup_uint32 v ABT_MEM_POOL_MAX_LOCAL_BUCKETS).
Proof.
  clear Hcfg Hsys. rewrite uint32_max. unfold ABT_MEM_POOL_MAX_LOCAL_BUCKETS. intros Hv.
  pose proof (roundup_uint32_ceil 1 v ltac:(lia) ltac:(lia) ltac:(lia)) as Hr.
  change (2 ^ 1) with 2 in Hr. rewrite Hr.
  destruct (ceil_pow2_spec 1 v) as [H1 H2]; [lia|]. change (2 ^ 1) with 2 in *.
  split; [lia|done].
Qed.

Lemma mem_page_spec v :
  4096 ≤ v ≤ ABTD_ENV_SIZE_MAX →
  pow2_between 12 63 (roundup_pow2_size (ABTU_roundup_size v (CACHELINE_SIZE cfg))).
Proof.
  clear Hsys. intros Hv. destruct (roundup_line v 4096 ltac:(lia) Hv) as [Hl _].
  rewrite roundup_pow2_size_log by lia. apply log2_up_between; lia.
Qed.

Lemma stack_page_spec ts {A} (k : Z → C aff A) Q s :
  lines_from 512 ts →
  (∀ v, (ts < 2 ^ 61 → lines_from (4 * ts) (ABTU_roundup_size v (CACHELINE_SIZE cfg))) → wp (k v) Q s) →
  wp (lift (load_env_size sys "MEM_STACK_PAGE_SIZE" ABTD_MEM_STACK_PAGE_SIZE (u64 (ts * 4)) ABTD_ENV_SIZE_MAX)
      ≫= k) Q s.
Proof.
  intros Hts Hk.
  assert (Htot : ∃ v, load_env_size sys "MEM_STACK_PAGE_SIZE" ABTD_MEM_STACK_PAGE_SIZE (u64 (ts * 4))
            ABTD_ENV_SIZE_MAX = Done v ∧ (ts < 2 ^ 61 → 4 * ts ≤ v ≤ ABTD_ENV_SIZE_MAX)).
  { assert (Hcl : ∀ x, ts < 2 ^ 61 → 4 * ts ≤ ABTU_max (u64 (ts * 4)) (ABTU_min ABTD_ENV_SIZE_MAX x) ≤ ABTD_ENV_SIZE_MAX).
    { intros x Hlt. destruct Hts as [[Hlo _] _]. rewrite u64_small by lia.
      rewrite (Z.mul_comm 4). apply clamp_between. rewrite size_max. lia. }
    unfold load_env_size, load_env. destruct (get_abt_env sys _) as [env|] eqn:He.
    - destruct (atosz_total env) as [r Hr]; [by eapply get_abt_env_ok|]. rewrite Hr.
      destruct r as [e|[v b]]; eexists; (split; [done|apply Hcl]).
    - eexists; (split; [done|apply Hcl]). }
  destruct Htot as (v & Hv & Hb). eapply wp_lift; [exact Hv|]. apply Hk. intros Hlt.
  apply roundup_line; [destruct Hts as [[? _] _]; lia|by apply Hb].
Qed.

Lemma env_init_ok gives moves getaffinity s :
  wp (ABTD_env_init cfg sys gives moves getaffinity) (λ g _, settings_ok g) s.
Proof.
  unfold ABTD_env_init. apply wp_bind, wp_ret, wp_bind.
  eapply (wp_mono _ (λ _ _, True)).
  { destruct (get_abt_env sys "SET_AFFINITY") as [env|] eqn:He.
    - destruct (is_false env false); [done|]. apply wp_bind, wp_ret.
      eapply wp_mono; [apply affinity_init_ok; intros s'; apply fair_parses|done].
      exists env. destruct Hsys as [_ H]. destruct (H env He). split_and!; try done. by eapply get_abt_env_ok.
    - apply wp_bind, wp_ret. eapply wp_mono; [apply affinity_init_ok; intros s'; by apply fair_parses|done]. }
  intros _ s1 _.
  apply load_env_between; [apply atoi_total|by vm_compute|]. intros mx Hmx.
  apply key_table_size_spec. intros kt Hkt. apply sys_pagesize_spec. intros pg Hpg.
  apply get_stacksize_spec. intros ts Hts. apply get_stacksize_spec. intros ss Hss.
  apply load_env_between; [apply atoui32_total|by vm_compute|]. intros ef Hef.
  apply load_env_between; [apply atoui64_total|by vm_compute|]. intros sl Hsl.
  do 2 (apply load_env_between; [apply atoui32_total|by vm_compute|]; intros ? ?).
  apply load_env_between; [apply atosz_total|by vm_compute|]. intros hp Hhp.
  apply load_env_between; [apply atosz_total|by vm_compute|]. intros mp Hmp.
  apply stack_page_spec; [done|]. intros sp Hsp.
  apply load_env_between; [apply atoui32_total|by vm_compute|]. intros st Hst.
  apply load_env_between; [apply atoui32_total|by vm_compute|]. intros ds Hds.
  apply wp_ret. split; cbn [max_xstreams key_table_size sys_page_size thread_stacksize sched_stacksize
    sched_event_freq sched_sleep_nsec huge_page_size mem_page_size mem_sp_size mem_max_stacks mem_max_descs];
    try done; [by apply mem_page_spec|by apply roundup_buckets|by apply roundup_buckets].
Qed.
End bounds.

(** whatever the environment holds (C strings, the affinity within the limits of its
    parser), reading the settings never faults and every setting is in the range the
    rest of the library relies on: at least one execution stream, a key table and page
    sizes that are powers of two, stacks of at least 512 bytes in whole cache lines, a stack page
    of at least four stacks (for stacks below 2^61 bytes), caches of stacks and
    descriptors in whole buckets. *)
Theorem env_settings_in_range cfg sys gives moves getaffinity s :
  config_ok cfg → env_ok sys →
  ∃ g s', ABTD_env_init cfg sys gives moves getaffinity s = Done (g, s') ∧ settings_ok cfg g.
Proof.
  intros Hcfg Hsys. apply wp_run. by apply env_init_ok.
Qed.

(** A machine of four cores on which one variable is set. *)
Definition machine (name value : string) : system :=
  System (λ n, if decide (n = cstr name) then Some (cstr value) else None) 4 4096 (λ _ _ _, true).
Definition build : config :=
  Config 64 16384 (2 * 1024 * 1024) false false ABTI_STACK_GUARD_NONE true true true.

Lemma env_settings_in_range_witness :
  ∃ g s', ABTD_env_init build (machine "ABT_KEY_TABLE_SIZE" "9") (λ _, true) Nat.odd (Some even_cpus) aff0
          = Done (g, s') ∧ settings_ok build g ∧ key_table_size g = 16.
Proof.
  destruct (env_settings_in_range build (machine "ABT_KEY_TABLE_SIZE" "9") (λ _, true) Nat.odd
    (Some even_cpus) aff0) as (g & s' & Hrun & Hok).
  - exists 6. split; [lia|reflexivity].
  - split.
    + intros name env. simpl. destruct (decide _); [|discriminate]. intros [= <-].
      apply (bool_decide_unpack _). vm_compute. exact I.
    + intros env H. vm_compute in H. discriminate H.
  - exists g, s'. split; [exact Hrun|]. split; [exact Hok|].
    assert (Hk : match ABTD_env_init build (machine "ABT_KEY_TABLE_SIZE" "9") (λ _, true) Nat.odd
      (Some even_cpus) aff0 with Done (g, _) => key_table_size g = 16 | Fault _ => False end)
      by (vm_compute; reflexivity).
    rewrite Hrun in Hk. exact Hk.
Defined.

(** the bound that is meant to avoid overflows does not: with the largest
    accepted ABT_THREAD_STACKSIZE the minimum of four stacks per stack page wraps around to
    0, and the stack pages are smaller than one stack. *)
Theorem env_stack_page_wraps :
  ∃ g s', ABTD_env_init build (machine "ABT_THREAD_STACKSIZE" "9223372036854775807")
            (λ _, true) Nat.odd None aff0 = Done (g, s') ∧
          thread_stacksize g = 2 ^ 63 ∧ mem_sp_size g = 8 * 1024 * 1024.
Proof. eexists _, _. split; [vm_compute; reflexivity|]. by vm_compute. Qed.
