(* ===== verification/LargePage.v ===== *)
(** * Memory and large pages

    The memory the memory pools live in, and argobots/src/util/largepage.c and
    util/mprotect.c, which get regions of it from the system and give them back.
    Memory is a set of granted regions, the 8-byte words that have been written
    in them, and the ranges that are write-protected; a load or store that is not
    aligned, not inside one region, of a word never written, or against a protection
    is undefined behaviour.  What malloc, posix_memalign, mmap and mprotect
    answer is the record [os]. *)

From stdpp Require Import base tactics decidable option list numbers gmap fin_maps.
From Stdlib Require Import ZArith Lia.
From S2P Require Import Prelude Abt Env.
Open Scope Z_scope.

Global Instance largepage_type_eq_dec : EqDecision ABTU_MEM_LARGEPAGE_TYPE.
Proof. solve_decision. Defined.

(** ** Memory *)

Record heap := Heap {
  words : gmap Z Z;
  live : gmap Z (Z * ABTU_MEM_LARGEPAGE_TYPE);
  guards : list (Z * Z)
}.

(** [[a, a + n)] lies in the region of [n'] bytes at [b]. *)
Definition within (a n b n' : Z) : bool := (b <=? a) && (a + n <=? b + n').
Definition overlaps (a n b n' : Z) : bool := (a <? b + n') && (b <? a + n).

Definition mapped (h : heap) (a : Z) : bool :=
  (a mod 8 =? 0) && existsb (λ r, within a 8 r.1 r.2.1) (map_to_list (live h)).
Definition guarded (h : heap) (a : Z) : bool :=
  existsb (λ g, overlaps a 8 g.1 g.2) (guards h).

Definition load (a : Z) : C heap Z := λ h,
  if mapped h a then match words h !! a with Some v => Done (v, h) | None => Fault UB end
  else Fault UB.
Definition set_words (w : gmap Z Z) (h : heap) : heap := Heap w (live h) (guards h).
Definition store (a v : Z) : C heap unit := λ h,
  if mapped h a && negb (guarded h a) then Done ((), set_words (<[a := v]> (words h)) h)
  else Fault UB.

(** ** The system

    [grant]: where a region of a kind is granted, if it is (malloc and posix_memalign
    answering NULL, mmap answering MAP_FAILED otherwise); [protects]: does this mprotect
    call succeed? *)

Record os := Os {
  grant : heap → ABTU_MEM_LARGEPAGE_TYPE → Z → Z → option Z;
  protects : heap → Z → Z → bool → bool
}.

(** A granted region is not NULL, word aligned, and overlaps no other. *)
Definition fresh_region (h : heap) (a n : Z) : Prop :=
  0 < a ∧ a mod 8 = 0 ∧ a + n ≤ 2 ^ 64 ∧
  ∀ b r, live h !! b = Some r → overlaps a n b r.1 = false.
Class OsLaws (o : os) := {
  grant_fresh h ty n al a : grant o h ty n al = Some a → fresh_region h a n
}.

Section largepage.
Variable (o : os).

(** The words of a new region hold nothing yet. *)
Definition add_region (a n : Z) (ty : ABTU_MEM_LARGEPAGE_TYPE) (h : heap) : heap :=
  Heap (filter (λ w, overlaps w.1 8 a n = false) (words h)) (<[a := (n, ty)]> (live h)) (guards h).

(** One attempt of the loop: [malloc], [posix_memalign] or [mmap]. *)
Definition try_alloc (requested : ABTU_MEM_LARGEPAGE_TYPE) (size alignment_hint : Z)
    : C heap (option Z) := λ h,
  match grant o h requested size alignment_hint with
  | Some a => Done (Some a, add_region a size requested h)
  | None => Done (None, h)
  end.

(** The kind and the address are written only when a region was granted. *)
Fixpoint ABTU_alloc_largepage (size alignment_hint : Z)
    (requested_types : list ABTU_MEM_LARGEPAGE_TYPE)
    : C heap (Z * option (ABTU_MEM_LARGEPAGE_TYPE * Z)) :=
  match requested_types with
  | [] => mret (ABT_ERR_MEM, None)
  | requested :: rest =>
      p ← try_alloc requested size alignment_hint;
      match p with
      | Some ptr => mret (ABT_SUCCESS, Some (requested, ptr))
      | None => ABTU_alloc_largepage size alignment_hint rest
      end
  end.

Definition drop_region (a n : Z) (h : heap) : heap :=
  Heap (filter (λ w, overlaps w.1 8 a n = false) (words h)) (delete a (live h)) (guards h).

(** [free] takes the address of a region that malloc or posix_memalign granted, and
    writes in it; [munmap] takes the address and the size of a mapping. *)
Definition c_free (a : Z) : C heap unit := λ h,
  match live h !! a with
  | Some (n, (ABTU_MEM_LARGEPAGE_MALLOC | ABTU_MEM_LARGEPAGE_MEMALIGN)) =>
      if existsb (λ g, overlaps a n g.1 g.2) (guards h) then Fault UB
      else Done ((), drop_region a n h)
  | _ => Fault UB
  end.
Definition c_munmap (a size : Z) : C heap unit := λ h,
  match live h !! a with
  | Some (n, (ABTU_MEM_LARGEPAGE_MMAP | ABTU_MEM_LARGEPAGE_MMAP_HUGEPAGE)) =>
      if n =? size then Done ((), drop_region a n h) else Fault UB
  | _ => Fault UB
  end.

Definition ABTU_free_largepage (ptr size : Z) (type : ABTU_MEM_LARGEPAGE_TYPE) : C heap unit :=
  if ptr =? 0 then mret () else
  match type with
  | ABTU_MEM_LARGEPAGE_MALLOC | ABTU_MEM_LARGEPAGE_MEMALIGN => c_free ptr
  | ABTU_MEM_LARGEPAGE_MMAP | ABTU_MEM_LARGEPAGE_MMAP_HUGEPAGE => c_munmap ptr size
  end.

(** ** Protection *)

(** What [[b, b + m)] leaves of the range [g]. *)
Definition cut (b m : Z) (g : Z * Z) : list (Z * Z) :=
  if overlaps g.1 g.2 b m
  then (if g.1 <? b then [(g.1, b - g.1)] else []) ++
       (if b + m <? g.1 + g.2 then [(b + m, g.1 + g.2 - (b + m))] else [])
  else [g].

Definition ABTU_mprotect (addr size : Z) (protect : bool) : C heap Z := λ h,
  if protects o h addr size protect then
    Done (ABT_SUCCESS,
          Heap (words h) (live h)
               (if protect then (addr, size) :: guards h
                else guards h ≫= cut addr size))
  else Done (ABT_ERR_SYS, h).
End largepage.

(** ** Lemmas *)

Definition in_region (h : heap) (a : Z) : Prop :=
  a mod 8 = 0 ∧ ∃ b r, live h !! b = Some r ∧ b ≤ a ∧ a + 8 ≤ b + r.1.

Lemma mapped_spec h a : mapped h a = true ↔ in_region h a.
Proof.
  unfold mapped, in_region, within. rewrite andb_true_iff, Z.eqb_eq, existsb_exists. split.
  - intros [? ([b r] & Hin & Hw)]. apply list_elem_of_In, elem_of_map_to_list in Hin. cbn in Hw.
    split; [done|]. exists b, r. split; [done|]. lia.
  - intros [? (b & r & Hl & ? & ?)]. split; [done|]. exists (b, r). split.
    + by apply list_elem_of_In, elem_of_map_to_list.
    + cbn. lia.
Qed.

Lemma guarded_spec h a :
  guarded h a = false ↔ ∀ g, g ∈ guards h → overlaps a 8 g.1 g.2 = false.
Proof.
  unfold guarded. rewrite <- not_true_iff_false, existsb_exists. split.
  - intros H g Hg. apply not_true_iff_false. intros Ho. apply H. exists g. split; [|done].
    by apply list_elem_of_In.
  - intros H (g & Hg & Ho). apply list_elem_of_In, H in Hg. congruence.
Qed.

Lemma wp_load a v Q h : in_region h a → words h !! a = Some v → Q v h → wp (load a) Q h.
Proof. intros Hm Hw HQ. unfold wp, load. by rewrite (proj2 (mapped_spec _ _) Hm), Hw. Qed.

Lemma wp_store a v Q h :
  in_region h a → guarded h a = false →
  Q () (set_words (<[a := v]> (words h)) h) → wp (store a v) Q h.
Proof. intros Hm Hg HQ. unfold wp, store. by rewrite (proj2 (mapped_spec _ _) Hm), Hg. Qed.

Lemma wp_alloc_largepage o `{!OsLaws o} size al reqs Q h :
  Q (ABT_ERR_MEM, None) h →
  (∀ ty a, fresh_region h a size → Q (ABT_SUCCESS, Some (ty, a)) (add_region a size ty h)) →
  wp (ABTU_alloc_largepage o size al reqs) Q h.
Proof.
  intros H1 H2. induction reqs as [|ty reqs IH]; [done|]. cbn [ABTU_alloc_largepage].
  apply wp_bind. unfold wp at 1, try_alloc. destruct (grant o h ty size al) as [a|] eqn:E; [|done].
  apply wp_ret, H2. by eapply grant_fresh.
Qed.

Lemma overlaps_false a m b m' : overlaps a m b m' = false ↔ b + m' ≤ a ∨ a + m ≤ b.
Proof. unfold overlaps. lia. Qed.

Lemma add_region_words a m ty h x :
  overlaps x 8 a m = false → words (add_region a m ty h) !! x = words h !! x.
Proof.
  intros Hx. cbn. destruct (words h !! x) as [v|] eqn:E.
  - by apply map_lookup_filter_Some_2.
  - apply map_lookup_filter_None_2. by left.
Qed.
