(* ===== verification/SyncLifo.v ===== *)
(** * The lock-free stack of the memory pools

    argobots/src/include/abti_sync_lifo.h, with 128-bit compare-and-swap: the top of the
    stack is a pointer with a tag that every operation increments.  An element is the
    address of its [p_next] word.  [pc] are the places between the atomic accesses of a
    push and of a pop, [advance] is the next access; [step] interleaves any number of
    threads that push elements they own, pop, and write what they like into
    what they own (a popped element is memory in use again while others still hold
    its address: the ABA problem).  [replay] is the stack that the interleavings are
    proved to implement. *)

From stdpp Require Import functions base tactics decidable option list numbers gmap fin_maps sets.
From Stdlib Require Import ZArith Lia.
From S2P Require Import Prelude Env LargePage.
Open Scope Z_scope.

Record ABTI_sync_lifo := SyncLifo { top_ptr : Z; top_tag : Z }.

Global Instance sync_lifo_eq_dec : EqDecision ABTI_sync_lifo.
Proof. solve_decision. Defined.

Definition ABTI_sync_lifo_init : ABTI_sync_lifo := SyncLifo 0 0.

(** ** Operations of a thread that has the stack for itself *)

Definition ABTI_sync_lifo_push_unsafe (lifo : ABTI_sync_lifo) (p_elem : Z)
    : C heap ABTI_sync_lifo :=
  store p_elem (top_ptr lifo);;
  mret (SyncLifo p_elem (u64 (top_tag lifo + 1))).

Definition ABTI_sync_lifo_pop_unsafe (lifo : ABTI_sync_lifo) : C heap (Z * ABTI_sync_lifo) :=
  if top_ptr lifo =? 0 then mret (0, lifo)
  else p_next ← load (top_ptr lifo);
       mret (top_ptr lifo, SyncLifo p_next (u64 (top_tag lifo + 1))).

(** ** Atomic steps *)

Inductive pc :=
  | Idle
  | PushPtr (e : Z)
  | PushTag (e p : Z)
  | PushLink (e p t : Z)
  | PushCas (e p t : Z)
  | PushRet
  | PopPtr
  | PopTag (p : Z)
  | PopTest (p t : Z)
  | PopNext (p t : Z)
  | PopCas (p t n : Z)
  | PopRet (r : Z).

Definition shared : Type := heap * ABTI_sync_lifo.
Definition on_heap {A} (m : C heap A) : C shared A := zoom fst (λ h s, (h, s.2)) m.

(** [ABTD_atomic_bool_cas_weak_tagged_ptr] with a 128-bit compare-and-swap: pointer and tag
    at once; it fails only if they differ. *)
Definition cas_tagged_ptr (old_ptr old_tag new_ptr new_tag : Z) : C shared bool := λ s,
  if decide (s.2 = SyncLifo old_ptr old_tag)
  then Done (true, (s.1, SyncLifo new_ptr new_tag)) else Done (false, s).

(** The pointer and the tag are loaded one after the other. *)
Definition advance (c : pc) : C shared pc :=
  match c with
  | Idle => mret Idle
  | PushPtr e => s ← get; mret (PushTag e (top_ptr s.2))
  | PushTag e p => s ← get; mret (PushLink e p (top_tag s.2))
  | PushLink e p t => on_heap (store e p);; mret (PushCas e p t)
  | PushCas e p t =>
      ok ← cas_tagged_ptr p t e (u64 (t + 1));
      mret (if ok : bool then PushRet else PushPtr e)
  | PushRet => mret PushRet
  | PopPtr => s ← get; mret (PopTag (top_ptr s.2))
  | PopTag p => s ← get; mret (PopTest p (top_tag s.2))
  | PopTest p t => mret (if p =? 0 then PopRet 0 else PopNext p t)
  | PopNext p t => n ← on_heap (load p); mret (PopCas p t n)
  | PopCas p t n =>
      ok ← cas_tagged_ptr p t n (u64 (t + 1));
      mret (if ok : bool then PopRet p else PopPtr)
  | PopRet r => mret (PopRet r)
  end.

(** A thread running alone up to the return. *)
Fixpoint complete (fuel : nat) (c : pc) : C shared pc :=
  match c with
  | Idle | PushRet | PopRet _ => mret c
  | _ => match fuel with
         | O => throw OutOfFuel
         | S fuel => c' ← advance c; complete fuel c'
         end
  end.

Definition ABTI_sync_lifo_push (p_elem : Z) : C shared unit :=
  complete 4 (PushPtr p_elem);; mret ().
Definition ABTI_sync_lifo_pop : C shared Z :=
  c ← complete 5 PopPtr;
  match c with PopRet r => mret r | _ => throw UB end.

Lemma complete_step n c c' s s' :
  advance c s = Done (c', s') → complete (S n) c s = complete n c' s'.
Proof.
  intros H. destruct c; try (cbn [complete]; by apply C_bind_Done).
  all: injection H as <- <-; by destruct n.
Qed.

Lemma cas_own h l e : cas_tagged_ptr (top_ptr l) (top_tag l) e (u64 (top_tag l + 1)) (h, l) =
  Done (true, (h, SyncLifo e (u64 (top_tag l + 1)))).
Proof. unfold cas_tagged_ptr. by rewrite decide_True by (by destruct l). Qed.

Lemma push_alone e h lifo :
  ABTI_sync_lifo_push e (h, lifo) =
  match ABTI_sync_lifo_push_unsafe lifo e h with
  | Done (lifo', h') => Done ((), (h', lifo'))
  | Fault f => Fault f
  end.
Proof.
  unfold ABTI_sync_lifo_push, ABTI_sync_lifo_push_unsafe, mbind at 1, C_bind at 1.
  do 2 erewrite complete_step by reflexivity. cbn [fst snd].
  destruct (store e (top_ptr lifo) h) as [[[] h']|f] eqn:E.
  - erewrite complete_step by (cbn [advance]; erewrite C_bind_Done; [done|];
      unfold on_heap, zoom; cbn [fst]; by rewrite E).
    erewrite complete_step by (cbn [advance]; by erewrite C_bind_Done by apply cas_own).
    by erewrite C_bind_Done by done.
  - cbn [complete advance]. erewrite C_bind_Fault; [by erewrite C_bind_Fault|].
    apply C_bind_Fault. unfold on_heap, zoom. cbn [fst]. by rewrite E.
Qed.

Lemma pop_alone h lifo :
  ABTI_sync_lifo_pop (h, lifo) =
  match ABTI_sync_lifo_pop_unsafe lifo h with
  | Done ((r, lifo'), h') => Done (r, (h', lifo'))
  | Fault f => Fault f
  end.
Proof.
  unfold ABTI_sync_lifo_pop, ABTI_sync_lifo_pop_unsafe, mbind at 1, C_bind at 1.
  do 3 erewrite complete_step by reflexivity. cbn [fst snd].
  destruct (top_ptr lifo =? 0) eqn:E0; [done|].
  destruct (load (top_ptr lifo) h) as [[n h']|f] eqn:E.
  - erewrite complete_step by (cbn [advance]; erewrite C_bind_Done; [done|];
      unfold on_heap, zoom; cbn [fst]; by rewrite E).
    erewrite complete_step by (cbn [advance]; by erewrite C_bind_Done by apply cas_own).
    by erewrite C_bind_Done by done.
  - cbn [complete advance]. erewrite C_bind_Fault; [by erewrite C_bind_Fault|].
    apply C_bind_Fault. unfold on_heap, zoom. cbn [fst]. by rewrite E.
Qed.

(** ** Any number of threads

    [own t] are the elements thread [t] has; [ops] counts the operations that took
    effect. *)

Record sys := Sys {
  mem : heap;
  lifo : ABTI_sync_lifo;
  pcs : nat → pc;
  own : nat → gset Z;
  ops : Z
}.

Inductive event := Silent | Pushed (e : Z) | Popped (e : Z) | FoundEmpty.

Global Instance event_eq_dec : EqDecision event.
Proof. solve_decision. Defined.

(** The access at which an operation takes effect. *)
Definition effect (c c' : pc) : event :=
  match c, c' with
  | PushCas e _ _, PushRet => Pushed e
  | PopCas _ _ _, PopRet r => Popped r
  | PopPtr, PopTag p => if p =? 0 then FoundEmpty else Silent
  | _, _ => Silent
  end.
Definition changes (ev : event) : bool :=
  match ev with Pushed _ | Popped _ => true | _ => false end.

Definition may_write (E : gset Z) (s : sys) (t : nat) (a : Z) : Prop := a ∈ own s t ∨ a ∉ E.

Inductive step (E : gset Z) : sys → nat → event → sys → Prop :=
  | step_push s t e :
      pcs s t = Idle → e ∈ own s t →
      step E s t Silent (Sys (mem s) (lifo s) (<[t := PushPtr e]> (pcs s))
                           (<[t := own s t ∖ {[e]}]> (own s)) (ops s))
  | step_pop s t :
      pcs s t = Idle →
      step E s t Silent (Sys (mem s) (lifo s) (<[t := PopPtr]> (pcs s)) (own s) (ops s))
  | step_advance s t c h l :
      advance (pcs s t) (mem s, lifo s) = Done (c, (h, l)) →
      step E s t (effect (pcs s t) c)
        (Sys h l (<[t := c]> (pcs s)) (own s)
             (if changes (effect (pcs s t) c) then ops s + 1 else ops s))
  | step_return s t :
      pcs s t = PushRet →
      step E s t Silent (Sys (mem s) (lifo s) (<[t := Idle]> (pcs s)) (own s) (ops s))
  | step_return_elem s t r :
      pcs s t = PopRet r →
      step E s t Silent (Sys (mem s) (lifo s) (<[t := Idle]> (pcs s))
                           (if r =? 0 then own s else <[t := own s t ∪ {[r]}]> (own s)) (ops s))
  | step_write s t a v h :
      pcs s t = Idle → may_write E s t a → store a v (mem s) = Done ((), h) →
      step E s t Silent (Sys h (lifo s) (pcs s) (own s) (ops s)).

Inductive run (E : gset Z) : sys → list event → sys → Prop :=
  | run_nil s : run E s [] s
  | run_snoc s0 evs s1 t ev s2 :
      run E s0 evs s1 → step E s1 t ev s2 → run E s0 (evs ++ [ev]) s2.

(** The stack promised: what an event does to it, if it is possible. *)
Definition replay1 (l : list Z) (ev : event) : option (list Z) :=
  match ev, l with
  | Silent, _ => Some l
  | Pushed e, _ => Some (e :: l)
  | Popped e, x :: l' => if decide (x = e) then Some l' else None
  | Popped _, [] => None
  | FoundEmpty, [] => Some []
  | FoundEmpty, _ :: _ => None
  end.
Fixpoint replay (l : list Z) (evs : list event) : option (list Z) :=
  match evs with
  | [] => Some l
  | ev :: evs => l' ← replay1 l ev; replay l' evs
  end.

(** ** The invariant *)

(** The links from [p] on are the elements [l]. *)
Fixpoint linked (w : gmap Z Z) (p : Z) (l : list Z) : Prop :=
  match l with
  | [] => p = 0
  | x :: l => p = x ∧ x ≠ 0 ∧ ∃ n, w !! x = Some n ∧ linked w n l
  end.

(** The element an operation has in hand. *)
Definition carries (c : pc) : option Z :=
  match c with
  | PushPtr e | PushTag e _ | PushLink e _ _ | PushCas e _ _ => Some e
  | PopRet r => if r =? 0 then None else Some r
  | _ => None
  end.
Definition holds (s : sys) (t : nat) (e : Z) : Prop := e ∈ own s t ∨ carries (pcs s t) = Some e.

(** A pop whose tag is still current has read the link of the current top. *)
Definition pc_ok (E : gset Z) (s : sys) (c : pc) : Prop :=
  match c with
  | PushCas e p _ => words (mem s) !! e = Some p
  | PopTag p => p = 0 ∨ p ∈ E ∧ is_Some (words (mem s) !! p)
  | PopTest p t => (p = 0 ∨ p ∈ E ∧ is_Some (words (mem s) !! p)) ∧ t ≤ ops s
  | PopNext p t => p ∈ E ∧ is_Some (words (mem s) !! p) ∧ t ≤ ops s
  | PopCas p t n =>
      p ∈ E ∧ t ≤ ops s ∧
      (t = ops s → top_ptr (lifo s) = p → words (mem s) !! p = Some n)
  | _ => True
  end.

Record linv (E : gset Z) (s : sys) (l : list Z) : Prop := {
  li_linked : linked (words (mem s)) (top_ptr (lifo s)) l;
  li_nodup : NoDup l;
  li_in e : e ∈ l → e ∈ E ∧ ∀ t, ¬ holds s t e;
  li_holds t e : holds s t e → e ∈ E ∧ ∀ u, holds s u e → u = t;
  li_excl t e : carries (pcs s t) = Some e → e ∉ own s t;
  li_all e : e ∈ E → e ∈ l ∨ ∃ t, holds s t e;
  li_tag : top_tag (lifo s) = ops s;
  li_ops : 0 ≤ ops s < 2 ^ 64;
  li_mem e : e ∈ E → e ≠ 0 ∧ in_region (mem s) e ∧ guarded (mem s) e = false;
  li_pc t : pc_ok E s (pcs s t)
}.

Lemma linked_frame w w' p l :
  (∀ x, x ∈ l → w' !! x = w !! x) → linked w p l → linked w' p l.
Proof.
  revert p. induction l as [|x l IH]; intros p Hw; [done|].
  intros (-> & Hx & n & Hn & Hl). split; [done|]. split; [done|]. exists n. split.
  - rewrite Hw; [done|]. by left.
  - apply IH; [|done]. intros y Hy. apply Hw. by right.
Qed.

Lemma linked_top w p l : linked w p l → p ≠ 0 → ∃ l', l = p :: l'.
Proof. destruct l as [|x l]; [done|]. intros (-> & _) _. by exists l. Qed.

(** The heaps before and after a store into what thread [t] may write. *)
Definition heap_keeps (E : gset Z) (s : sys) (t : nat) (h : heap) : Prop :=
  live h = live (mem s) ∧ guards h = guards (mem s) ∧
  (∀ x, is_Some (words (mem s) !! x) → is_Some (words h !! x)) ∧
  (∀ x, x ∈ E → ¬ holds s t x → words h !! x = words (mem s) !! x).

Lemma heap_keeps_refl E s t : heap_keeps E s t (mem s).
Proof. done. Qed.

Lemma heap_keeps_store E s t a v h :
  store a v (mem s) = Done ((), h) → holds s t a ∨ a ∉ E → heap_keeps E s t h.
Proof.
  unfold store. destruct (mapped (mem s) a && negb (guarded (mem s) a)); [|done].
  intros [= <-] Ha. split; [done|]. split; [done|]. cbn. split; intros x Hx.
  - destruct (decide (x = a)) as [->|]; [by rewrite lookup_insert_eq|by rewrite lookup_insert_ne].
  - intros Hn. rewrite lookup_insert_ne; [done|]. intros ->. by destruct Ha.
Qed.

(** What an access that leaves the top alone keeps. *)
Lemma pc_ok_keep E s l s' t u :
  linv E s l → heap_keeps E s t (mem s') → lifo s' = lifo s → ops s' = ops s → u ≠ t →
  pcs s' u = pcs s u → pc_ok E s' (pcs s' u).
Proof.
  intros I (Hl & Hg & Hsome & Hw) Htop Hops Hu ->. pose proof (li_pc _ _ _ I u) as Hpc.
  destruct (pcs s u) eqn:Eu; cbn in *; try done.
  - assert (Hue : holds s u e) by (right; by rewrite Eu).
    rewrite Hw; [done|apply (li_holds _ _ _ I u e Hue)|].
    intros Ht. by apply Hu, (proj2 (li_holds _ _ _ I t e Ht)).
  - destruct Hpc as [?|[? ?]]; [by left|right; auto].
  - destruct Hpc as [[?|[? ?]] ?]; (split; [|lia]); [by left|right; auto].
  - destruct Hpc as (? & ? & ?). rewrite Hops. auto.
  - destruct Hpc as (Hp & Ht & Hc). rewrite Hops, Htop. split; [done|]. split; [done|].
    intros E1 E2. rewrite Hw; [by apply Hc|done|].
    destruct (linked_top _ _ _ (li_linked _ _ _ I)) as [l' El].
    { rewrite E2. by apply (li_mem _ _ _ I). }
    apply (li_in _ _ _ I). rewrite El, E2. by left.
Qed.

Lemma linv_keep E s l s' t :
  linv E s l → heap_keeps E s t (mem s') → lifo s' = lifo s → ops s' = ops s →
  (∀ u x, holds s' u x ↔ holds s u x) → (∀ u, u ≠ t → pcs s' u = pcs s u ∧ own s' u = own s u) →
  (∀ e, carries (pcs s' t) = Some e → e ∉ own s' t) → pc_ok E s' (pcs s' t) → linv E s' l.
Proof.
  intros I Hk Htop Hops Hh Hu Hex Hpc. destruct Hk as (Hl & Hg & Hsome & Hw). split.
  - rewrite Htop. eapply linked_frame; [|apply (li_linked _ _ _ I)].
    intros x Hx. apply Hw; apply (li_in _ _ _ I x Hx).
  - apply (li_nodup _ _ _ I).
  - intros e He. destruct (li_in _ _ _ I e He) as [H1 H2]. split; [done|].
    intros u. by rewrite Hh.
  - intros u e. rewrite Hh. intros He. destruct (li_holds _ _ _ I u e He) as [H1 H2].
    split; [done|]. intros u'. rewrite Hh. apply H2.
  - intros u e. destruct (decide (u = t)) as [->|Hne]; [apply Hex|].
    destruct (Hu u Hne) as [-> ->]. apply (li_excl _ _ _ I).
  - intros e He. destruct (li_all _ _ _ I e He) as [?|[u ?]]; [by left|right].
    exists u. by rewrite Hh.
  - rewrite Htop, Hops. apply (li_tag _ _ _ I).
  - rewrite Hops. apply (li_ops _ _ _ I).
  - intros e He. destruct (li_mem _ _ _ I e He) as (H1 & H2 & H3). split; [done|].
    unfold in_region, guarded in *. by rewrite Hl, Hg.
  - intros u. destruct (decide (u = t)) as [->|Hne]; [done|].
    eapply pc_ok_keep; [done..|by apply Hu].
Qed.

Lemma linv_quiet E s l t c h :
  linv E s l → heap_keeps E s t h → carries c = carries (pcs s t) →
  pc_ok E (Sys h (lifo s) (pcs s) (own s) (ops s)) c →
  linv E (Sys h (lifo s) (<[t := c]> (pcs s)) (own s) (ops s)) l.
Proof.
  intros I Hk Hc Hpc.
  assert (Hcs : ∀ u, carries (<[t := c]> (pcs s) u) = carries (pcs s u)).
  { intros u. destruct (decide (u = t)) as [->|]; [by rewrite fn_lookup_insert|].
    by rewrite fn_lookup_insert_ne. }
  apply (linv_keep E s l _ t); try done.
  - intros u x. unfold holds. cbn. by rewrite Hcs.
  - intros u Hu. cbn. by rewrite fn_lookup_insert_ne.
  - intros e. cbn. rewrite Hcs. apply (li_excl _ _ _ I).
  - cbn. rewrite fn_lookup_insert. by destruct c.
Qed.

Lemma pc_ok_effect E s s' c :
  mem s' = mem s → ops s' = ops s + 1 → pc_ok E s c → pc_ok E s' c.
Proof.
  intros Hm Ho. destruct c; cbn; rewrite ?Hm, ?Ho; try done.
  - intros [? ?]. split; [done|lia].
  - intros (? & ? & ?). repeat split; [done..|lia].
  - intros (? & ? & _). repeat split; [done|lia|lia].
Qed.

Lemma holds_pc s h l' t c o u x :
  carries c = None → holds (Sys h l' (<[t := c]> (pcs s)) (own s) o) u x →
  holds s u x ∧ (u = t → x ∈ own s t).
Proof.
  intros Hc. unfold holds. cbn. destruct (decide (u = t)) as [->|Hu].
  - rewrite fn_lookup_insert, Hc. intros [?|?]; [auto|done].
  - rewrite fn_lookup_insert_ne by done. naive_solver.
Qed.

Lemma push_effect E s l t e :
  linv E s l → pcs s t = PushCas e (top_ptr (lifo s)) (ops s) → ops s + 1 < 2 ^ 64 →
  linv E (Sys (mem s) (SyncLifo e (u64 (ops s + 1))) (<[t := PushRet]> (pcs s)) (own s) (ops s + 1))
       (e :: l).
Proof.
  intros I Hpc Hlt. pose proof (li_pc _ _ _ I t) as Hok. rewrite Hpc in Hok. cbn in Hok.
  assert (Hte : holds s t e) by (right; by rewrite Hpc).
  destruct (li_holds _ _ _ I t e Hte) as [HeE Huniq].
  assert (Heown : e ∉ own s t) by (apply (li_excl _ _ _ I); by rewrite Hpc).
  assert (Hel : e ∉ l) by (intros Hin; by apply (li_in _ _ _ I e Hin) in Hte).
  pose proof (li_ops _ _ _ I). split; cbn [mem lifo pcs own ops top_ptr top_tag].
  - split; [done|]. split; [by apply (li_mem _ _ _ I)|]. exists (top_ptr (lifo s)).
    split; [done|apply (li_linked _ _ _ I)].
  - apply NoDup_cons. split; [done|apply (li_nodup _ _ _ I)].
  - intros x Hx. apply elem_of_cons in Hx as [->|Hx].
    + split; [done|]. intros u Hu. apply holds_pc in Hu as [Hu Ht]; [|done].
      apply Heown, Ht, Huniq, Hu.
    + destruct (li_in _ _ _ I x Hx) as [H1 H2]. split; [done|]. intros u Hu.
      apply holds_pc in Hu as [Hu _]; [|done]. by apply (H2 u).
  - intros u x Hu. apply holds_pc in Hu as [Hu _]; [|done].
    destruct (li_holds _ _ _ I u x Hu) as [H1 H2]. split; [done|]. intros u' Hu'.
    apply holds_pc in Hu' as [Hu' _]; [|done]. by apply H2.
  - intros u x. destruct (decide (u = t)) as [->|]; [by rewrite fn_lookup_insert|].
    rewrite fn_lookup_insert_ne by done. apply (li_excl _ _ _ I).
  - intros x Hx. destruct (decide (x = e)) as [->|Hne]; [left; by left|].
    destruct (li_all _ _ _ I x Hx) as [?|[u Hu]]; [left; by right|right]. exists u.
    destruct Hu as [?|Hc]; [by left|right]. cbn. destruct (decide (u = t)) as [->|].
    + rewrite Hpc in Hc. cbn in Hc. congruence.
    + by rewrite fn_lookup_insert_ne.
  - by apply u64_small; lia.
  - lia.
  - apply (li_mem _ _ _ I).
  - intros u. destruct (decide (u = t)) as [->|]; [by rewrite fn_lookup_insert|].
    rewrite fn_lookup_insert_ne by done. eapply pc_ok_effect; [..|apply (li_pc _ _ _ I)]; done.
Qed.

Lemma pop_effect E s l t p n :
  linv E s l → pcs s t = PopCas p (ops s) n → top_ptr (lifo s) = p → ops s + 1 < 2 ^ 64 →
  ∃ l', l = p :: l' ∧
  linv E (Sys (mem s) (SyncLifo n (u64 (ops s + 1))) (<[t := PopRet p]> (pcs s)) (own s) (ops s + 1)) l'.
Proof.
  intros I Hpc Htop Hlt. pose proof (li_pc _ _ _ I t) as Hok. rewrite Hpc in Hok.
  cbn in Hok. destruct Hok as (HpE & _ & Hn). specialize (Hn eq_refl Htop).
  destruct (li_mem _ _ _ I p HpE) as (Hp0 & _).
  pose proof (li_linked _ _ _ I) as Hlk. rewrite Htop in Hlk.
  destruct (linked_top _ _ _ Hlk Hp0) as [l' ->]. exists l'. split; [done|].
  destruct Hlk as (_ & _ & n' & Hn' & Hlk). assert (n' = n) as -> by congruence.
  pose proof (li_nodup _ _ _ I) as Hnd. apply NoDup_cons in Hnd as [Hpl Hnd].
  assert (Hcp : carries (PopRet p) = Some p) by (cbn; by rewrite (proj2 (Z.eqb_neq _ _) Hp0)).
  assert (Hfree : ∀ u, ¬ holds s u p) by (apply (li_in _ _ _ I p); by left).
  assert (Hh : ∀ u x, holds (Sys (mem s) (SyncLifo n (u64 (ops s + 1)))
            (<[t := PopRet p]> (pcs s)) (own s) (ops s + 1)) u x ↔ holds s u x ∨ u = t ∧ x = p).
  { intros u x. unfold holds. cbn [own pcs]. destruct (decide (u = t)) as [->|].
    - rewrite fn_lookup_insert, Hcp, Hpc. cbn. naive_solver.
    - rewrite fn_lookup_insert_ne by done. naive_solver. }
  pose proof (li_ops _ _ _ I). split; cbn [mem lifo pcs own ops top_ptr top_tag].
  - done.
  - done.
  - intros x Hx. destruct (li_in _ _ _ I x) as [H1 H2]; [by right|]. split; [done|].
    intros u. rewrite Hh. intros [?|[-> ->]]; [by apply (H2 u)|done].
  - intros u x. rewrite Hh. intros [Hu|[-> ->]].
    + destruct (li_holds _ _ _ I u x Hu) as [H1 H2]. split; [done|]. intros u'. rewrite Hh.
      intros [?|[-> ->]]; [by apply H2|]. by destruct (Hfree u).
    + split; [done|]. intros u'. rewrite Hh. intros [?|[-> _]]; [by destruct (Hfree u')|done].
  - intros u x. destruct (decide (u = t)) as [->|].
    + rewrite fn_lookup_insert, Hcp. intros [= <-] Hown. apply (Hfree t). by left.
    + rewrite fn_lookup_insert_ne by done. apply (li_excl _ _ _ I).
  - intros x Hx. destruct (li_all _ _ _ I x Hx) as [Hl|[u Hu]].
    + apply elem_of_cons in Hl as [->|]; [|by left]. right. exists t. rewrite Hh. auto.
    + right. exists u. rewrite Hh. auto.
  - by apply u64_small; lia.
  - lia.
  - apply (li_mem _ _ _ I).
  - intros u. destruct (decide (u = t)) as [->|]; [by rewrite fn_lookup_insert|].
    rewrite fn_lookup_insert_ne by done. eapply pc_ok_effect; [..|apply (li_pc _ _ _ I)]; done.
Qed.

(** ** Every access keeps the invariant *)

(** The state after the next access of [t]. *)
Definition after (s : sys) (t : nat) (c : pc) (h : heap) (l : ABTI_sync_lifo) : sys :=
  Sys h l (<[t := c]> (pcs s)) (own s)
      (if changes (effect (pcs s t) c) then ops s + 1 else ops s).

Definition access_ok (E : gset Z) (s : sys) (l : list Z) (t : nat) (o : outcome (pc * shared)) : Prop :=
  match o with
  | Done (c, (h, lf)) =>
      ops (after s t c h lf) < 2 ^ 64 →
      ∃ l', replay1 l (effect (pcs s t) c) = Some l' ∧ linv E (after s t c h lf) l'
  | Fault _ => False
  end.

Lemma quiet_access E s l t c h :
  linv E s l → heap_keeps E s t h → carries c = carries (pcs s t) →
  replay1 l (effect (pcs s t) c) = Some l → changes (effect (pcs s t) c) = false →
  pc_ok E (Sys h (lifo s) (pcs s) (own s) (ops s)) c →
  access_ok E s l t (Done (c, (h, lifo s))).
Proof.
  intros I Hk Hc Hr Hch Hpc _. exists l. split; [done|]. unfold after. rewrite Hch.
  by apply linv_quiet.
Qed.

Lemma top_elem E s l :
  linv E s l → top_ptr (lifo s) = 0 ∧ l = [] ∨
  top_ptr (lifo s) ≠ 0 ∧ top_ptr (lifo s) ∈ E ∧ is_Some (words (mem s) !! top_ptr (lifo s)).
Proof.
  intros I. pose proof (li_linked _ _ _ I) as Hl. destruct l as [|x l]; [by left|right].
  destruct Hl as (-> & Hx & n & -> & _). split; [done|].
  split; [apply (li_in _ _ _ I); by left|by eexists].
Qed.

Lemma cas_access E s l t p tg e :
  linv E s l →
  let c := pcs s t in
  c = PushCas e p tg ∨ c = PopCas p tg e →
  access_ok E s l t (advance c (mem s, lifo s)).
Proof.
  intros I c Hc. assert (Hfail : lifo s ≠ SyncLifo p tg →
    access_ok E s l t (advance c (mem s, lifo s))).
  { intros Hne. destruct Hc as [Hc|Hc]; rewrite Hc; cbn [advance];
      (erewrite C_bind_Done; [|unfold cas_tagged_ptr; by rewrite decide_False]);
      subst c; apply quiet_access; rewrite ?Hc; done. }
  destruct (decide (lifo s = SyncLifo p tg)) as [El|Hne]; [|by apply Hfail]. clear Hfail.
  pose proof (li_tag _ _ _ I) as Htg. rewrite El in Htg. cbn in Htg. subst tg.
  destruct Hc as [Hc|Hc]; rewrite Hc; cbn [advance];
    (erewrite C_bind_Done; [|unfold cas_tagged_ptr; by rewrite decide_True]);
    unfold access_ok, after; fold c; rewrite Hc; cbn [effect changes ops mret]; intros Hlt.
  - exists (e :: l). split; [done|]. apply push_effect; [done| |done]. by rewrite El.
  - destruct (pop_effect E s l t p e) as (l' & -> & I'); [done|done|by rewrite El|done|].
    exists l'. split; [|done]. cbn. by rewrite decide_True.
Qed.

Lemma access_keeps E s l t :
  linv E s l → access_ok E s l t (advance (pcs s t) (mem s, lifo s)).
Proof.
  intros I. pose proof (li_pc _ _ _ I t) as Hpc.
  destruct (pcs s t) as [|e|e p|e p tg|e p tg| | |p|p tg|p tg|p tg n|r] eqn:Ec; cbn [pc_ok] in Hpc.
  5: rewrite <- Ec; eapply cas_access; eauto.
  10: rewrite <- Ec; eapply cas_access; eauto.
  1-3, 5, 10: apply quiet_access; rewrite ?Ec; done.
  - destruct (li_holds _ _ _ I t e) as [HeE _]; [right; by rewrite Ec|].
    destruct (li_mem _ _ _ I e HeE) as (_ & Hm & Hg).
    assert (Es : store e p (mem s) = Done ((), set_words (<[e := p]> (words (mem s))) (mem s))).
    { unfold store. by rewrite (proj2 (mapped_spec _ _) Hm), Hg. }
    cbn [advance]. erewrite C_bind_Done; [|unfold on_heap, zoom; cbn [fst]; by rewrite Es].
    apply quiet_access; rewrite ?Ec; try done.
    + eapply heap_keeps_store; [done|]. left. right. by rewrite Ec.
    + cbn. by rewrite lookup_insert_eq.
  - destruct (top_elem E s l I) as [[Ht ->]|(Ht & HE & Hs)]; cbn -[after].
    + apply quiet_access; rewrite ?Ec; cbn; rewrite ?Ht; auto using heap_keeps_refl.
    + apply quiet_access; rewrite ?Ec; cbn; rewrite ?(proj2 (Z.eqb_neq _ _) Ht); auto using heap_keeps_refl.
  - apply quiet_access; rewrite ?Ec; cbn; try done. split; [done|].
    rewrite (li_tag _ _ _ I). done.
  - cbn [advance]. destruct (Z.eqb_spec p 0) as [->|Hp].
    + apply quiet_access; rewrite ?Ec; done.
    + apply quiet_access; rewrite ?Ec; cbn; try done. naive_solver.
  - destruct Hpc as (HE & [n Hn] & Ht). destruct (li_mem _ _ _ I p HE) as (_ & Hm & _).
    cbn [advance]. erewrite C_bind_Done; [|unfold on_heap, zoom, load; cbn [fst];
      rewrite (proj2 (mapped_spec _ _) Hm), Hn; done].
    apply quiet_access; rewrite ?Ec; done.
Qed.

Lemma linv_own E s l t c o :
  linv E s l →
  (∀ e, e ∈ o ∨ carries c = Some e ↔ holds s t e) → (∀ e, carries c = Some e → e ∉ o) →
  pc_ok E s c → linv E (Sys (mem s) (lifo s) (<[t := c]> (pcs s)) (<[t := o]> (own s)) (ops s)) l.
Proof.
  intros I Ho Hex Hc. apply (linv_keep E s l _ t); try done; cbn [pcs own].
  - intros u x. unfold holds. cbn [pcs own]. destruct (decide (u = t)) as [->|].
    + rewrite !fn_lookup_insert. apply Ho.
    + by rewrite !fn_lookup_insert_ne.
  - intros u Hu. by rewrite !fn_lookup_insert_ne.
  - rewrite !fn_lookup_insert. apply Hex.
  - rewrite fn_lookup_insert. by destruct c.
Qed.

Lemma step_linv E s l t ev s' :
  linv E s l → step E s t ev s' → ops s' < 2 ^ 64 →
  ∃ l', replay1 l ev = Some l' ∧ linv E s' l'.
Proof.
  intros I Hs Hlt. destruct Hs as [s t e Hp He|s t Hp|s t c h lf Ha|s t Hp|s t r Hp|s t a v h Hp Hm Hst].
  - exists l. split; [done|]. apply linv_own; cbn; [done| |set_solver|done].
    intros x. unfold holds. rewrite Hp. cbn. split.
    + intros [Hx|[= <-]]; left; set_solver.
    + intros [Hx|?]; [|done]. destruct (decide (e = x)) as [->|]; [by right|left; set_solver].
  - exists l. split; [done|]. apply linv_quiet; [done|apply heap_keeps_refl|by rewrite Hp|done].
  - pose proof (access_keeps E s l t I) as Hok. rewrite Ha in Hok. by apply Hok.
  - exists l. split; [done|]. apply linv_quiet; [done|apply heap_keeps_refl|by rewrite Hp|done].
  - exists l. split; [done|]. destruct (Z.eqb_spec r 0) as [->|Hr].
    + apply linv_quiet; [done|apply heap_keeps_refl|by rewrite Hp|done].
    + apply linv_own; cbn; [done| |done|done].
      intros x. unfold holds. rewrite Hp. cbn. rewrite (proj2 (Z.eqb_neq _ _) Hr). set_solver.
  - exists l. split; [done|]. apply (linv_keep E s l _ t); try done; cbn [mem pcs own].
    + eapply heap_keeps_store; [done|]. destruct Hm; [by left; left|by right].
    + apply (li_excl _ _ _ I).
    + by rewrite Hp.
Qed.

Lemma step_ops E s t ev s' : step E s t ev s' → ops s ≤ ops s'.
Proof. destruct 1; cbn; try lia. destruct (changes _); lia. Qed.

(** ** Theorems *)

Lemma replay_snoc l evs ev :
  replay l (evs ++ [ev]) = replay l evs ≫= λ l', replay1 l' ev.
Proof.
  revert l. induction evs as [|ev' evs IH]; intros l; cbn.
  - by destruct (replay1 l ev).
  - by destruct (replay1 l ev') as [l'|]; cbn.
Qed.

(** The stack is empty, nobody is inside an operation, every element of [E] belongs to
    one thread and is writable memory. *)
Record initial (E : gset Z) (s : sys) : Prop := {
  in_lifo : lifo s = ABTI_sync_lifo_init;
  in_ops : ops s = 0;
  in_pcs t : pcs s t = Idle;
  in_own t e : e ∈ own s t → e ∈ E ∧ ∀ u, e ∈ own s u → u = t;
  in_all e : e ∈ E → ∃ t, e ∈ own s t;
  in_mem e : e ∈ E → e ≠ 0 ∧ in_region (mem s) e ∧ guarded (mem s) e = false
}.

Lemma initial_linv E s : initial E s → linv E s [].
Proof.
  intros I.
  assert (Hh : ∀ t e, holds s t e ↔ e ∈ own s t).
  { intros t e. unfold holds. rewrite (in_pcs _ _ I). cbn. naive_solver. }
  split; rewrite ?(in_lifo _ _ I), ?(in_ops _ _ I); try done.
  - constructor.
  - intros e He. by apply elem_of_nil in He.
  - intros t e. rewrite Hh. intros He. destruct (in_own _ _ I t e He) as [H1 H2].
    split; [done|]. intros u. rewrite Hh. apply H2.
  - intros t e. by rewrite (in_pcs _ _ I).
  - intros e He. right. destruct (in_all _ _ I e He) as [t Ht]. exists t. by rewrite Hh.
  - apply (in_mem _ _ I).
  - intros t. by rewrite (in_pcs _ _ I).
Qed.

Lemma run_linv E s0 evs s :
  initial E s0 → run E s0 evs s → ops s < 2 ^ 64 →
  ∃ l, replay [] evs = Some l ∧ linv E s l.
Proof.
  intros Hi Hr. induction Hr as [s0|s0 evs s1 t ev s2 Hr IH Hs]; intros Hlt.
  - exists []. split; [done|]. by apply initial_linv.
  - pose proof (step_ops _ _ _ _ _ Hs). destruct IH as (l & Hl & I); [done|lia|].
    destruct (step_linv _ _ _ _ _ _ I Hs Hlt) as (l' & Hl' & I').
    exists l'. split; [|done]. by rewrite replay_snoc, Hl.
Qed.

(** C11: Any number of threads push elements they own, pop, and write into what they own, in
    any interleaving of the single loads, stores and compare-and-swaps, with fewer
    than 2^64 operations taking effect: the effects are, in their order, those of
    a stack that was empty; its elements are linked from the top; each
    element is on the stack or with one thread; and no thread ever faults. *)
Theorem lifo_linearizable E s0 evs s :
  initial E s0 → run E s0 evs s → ops s < 2 ^ 64 →
  ∃ l, replay [] evs = Some l ∧
       linked (words (mem s)) (top_ptr (lifo s)) l ∧ NoDup l ∧
       (∀ e, e ∈ E ↔ e ∈ l ∨ (∃ t, holds s t e)) ∧
       (∀ e t, holds s t e → (e ∉ l) ∧ ∀ u, holds s u e → u = t) ∧
       (∀ t, ∃ c sh, advance (pcs s t) (mem s, lifo s) = Done (c, sh)).
Proof.
  intros Hi Hr Hlt. destruct (run_linv _ _ _ _ Hi Hr Hlt) as (l & Hl & I). exists l.
  split; [done|]. split; [apply (li_linked _ _ _ I)|]. split; [apply (li_nodup _ _ _ I)|].
  split; [|split].
  - intros e. split; [apply (li_all _ _ _ I)|]. intros [He|[t Ht]];
      [by apply (li_in _ _ _ I)|by apply (li_holds _ _ _ I t)].
  - intros e t Ht. split; [|by apply (li_holds _ _ _ I t e)].
    intros He. by apply (li_in _ _ _ I e He) in Ht.
  - intros t. pose proof (access_keeps E s l t I) as Hok.
    destruct (advance _ _) as [[c sh]|]; [eauto|done].
Qed.

(** An attempt whose reads are current. *)
Definition fresh (s : sys) (c : pc) : Prop :=
  match c with
  | PushTag _ p => p = top_ptr (lifo s)
  | PushLink _ p t | PushCas _ p t => SyncLifo p t = lifo s
  | PopTag p => p = top_ptr (lifo s)
  | PopTest p t | PopNext p t | PopCas p t _ => SyncLifo p t = lifo s
  | _ => True
  end.
Definition at_cas (c : pc) : bool :=
  match c with PushCas _ _ _ | PopCas _ _ _ => true | _ => false end.

Lemma on_heap_lifo {A} (m : C heap A) s a s' : on_heap m s = Done (a, s') → s'.2 = s.2.
Proof. unfold on_heap, zoom. destruct (m s.1) as [[? ?]|]; [|done]. by intros [= <- <-]. Qed.

(** Only an effect changes the top. *)
Lemma advance_lifo c h l c' h' l' :
  advance c (h, l) = Done (c', (h', l')) → changes (effect c c') = false → l' = l.
Proof.
  destruct c; cbn [advance]; try (by intros [= <- <- <-]).
  - intros (a & s1 & H1 & H2)%C_bind_Done_inv _. unfold mret, C_ret in H2. simplify_eq.
    by apply on_heap_lifo in H1.
  - unfold cas_tagged_ptr, mbind, C_bind. destruct (decide _); by intros [= <- <- <-].
  - intros (a & s1 & H1 & H2)%C_bind_Done_inv _. unfold mret, C_ret in H2. simplify_eq.
    by apply on_heap_lifo in H1.
  - unfold cas_tagged_ptr, mbind, C_bind. destruct (decide _); by intros [= <- <- <-].
Qed.

Lemma fresh_cas s c h l c' :
  fresh s c → at_cas c = true → advance c (mem s, lifo s) = Done (c', (h, l)) →
  changes (effect c c') = true.
Proof.
  destruct c; try done; cbn [fresh advance]; intros Hf _;
    unfold cas_tagged_ptr, mbind, C_bind; rewrite decide_True by done; by intros [= <- <- <-].
Qed.

Lemma fresh_stable s s' c : lifo s' = lifo s → fresh s c → fresh s' c.
Proof. unfold fresh. by intros ->. Qed.

Lemma fresh_advance s t c h l :
  fresh s (pcs s t) → advance (pcs s t) (mem s, lifo s) = Done (c, (h, l)) →
  changes (effect (pcs s t) c) = false → fresh s c.
Proof.
  intros Hf Ha Hch. destruct (at_cas (pcs s t)) eqn:Ecas.
  { pose proof (fresh_cas _ _ _ _ _ Hf Ecas Ha). congruence. }
  destruct (pcs s t) eqn:Ec; try done; cbn [advance fresh] in *; try (by injection Ha as <- <- <-).
  - injection Ha as <- <- <-. subst. cbn. by destruct (lifo s).
  - apply C_bind_Done_inv in Ha as (a & s1 & _ & H2). by injection H2 as <- _.
  - injection Ha as <- <- <-. subst. cbn. by destruct (lifo s).
  - injection Ha as <- <- <-. by destruct (p =? 0).
  - apply C_bind_Done_inv in Ha as (a & s1 & _ & H2). by injection H2 as <- _.
Qed.

Lemma fresh_step E s u ev s' t :
  step E s u ev s' → changes ev = false → fresh s (pcs s t) → fresh s' (pcs s' t).
Proof.
  intros Hs Hev Hf.
  assert (Hother : ∀ c, lifo s' = lifo s → pcs s' = <[u := c]> (pcs s) → (fresh s c) →
    fresh s' (pcs s' t)).
  { intros c Hl -> Hc. apply (fresh_stable s); [done|].
    destruct (decide (t = u)) as [->|]; [by rewrite fn_lookup_insert|by rewrite fn_lookup_insert_ne]. }
  destruct Hs as [s u e Hp He|s u Hp|s u c h lf Ha|s u Hp|s u r Hp|s u a v h Hp Hm Hst];
    try (by eapply Hother).
  - pose proof (advance_lifo _ _ _ _ _ _ Ha Hev) as ->.
    destruct (decide (t = u)) as [->|Hne].
    + apply (Hother c); [done..|]. by eapply fresh_advance.
    + apply (fresh_stable s); [done|]. cbn [pcs]. by rewrite fn_lookup_insert_ne.
  - by apply (fresh_stable s).
Qed.

Lemma fresh_run E s evs s' t :
  run E s evs s' → Forall (λ ev, changes ev = false) evs → fresh s (pcs s t) → fresh s' (pcs s' t).
Proof.
  induction 1 as [s|s0 evs s1 u ev s2 Hr IH Hs]; [done|].
  rewrite Forall_app, Forall_singleton. intros [H1 H2] Hf. eapply fresh_step; [done..|by apply IH].
Qed.

(** C25: The stack is lock-free: if a thread starts an attempt to push or to pop, and until it
    comes to its compare-and-swap no operation of anybody takes effect, then this
    compare-and-swap succeeds, whatever the other threads did; so an attempt fails only
    because another operation completed. *)
Theorem lifo_lock_free E s evs s' t c h l :
  (∃ e, pcs s t = PushPtr e) ∨ pcs s t = PopPtr →
  run E s evs s' → Forall (λ ev, changes ev = false) evs → at_cas (pcs s' t) = true →
  advance (pcs s' t) (mem s', lifo s') = Done (c, (h, l)) →
  changes (effect (pcs s' t) c) = true ∧ (c = PushRet ∨ ∃ r, c = PopRet r).
Proof.
  intros Hp Hr Hev Hcas Ha.
  assert (Hch : changes (effect (pcs s' t) c) = true).
  { eapply fresh_cas; [|done..]. eapply fresh_run; [done..|].
    destruct Hp as [[e He]|He]; by rewrite He. }
  split; [done|]. destruct (pcs s' t), c; try done; eauto.
Qed.

(** ** Schedules *)

Inductive action := ActPush (e : Z) | ActPop | ActGo | ActRet.

Definition act (s : sys) (t : nat) (a : action) : option (event * sys) :=
  match a, pcs s t with
  | ActPush e, Idle =>
      if decide (e ∈ own s t)
      then Some (Silent, Sys (mem s) (lifo s) (<[t := PushPtr e]> (pcs s))
                             (<[t := own s t ∖ {[e]}]> (own s)) (ops s))
      else None
  | ActPop, Idle => Some (Silent, Sys (mem s) (lifo s) (<[t := PopPtr]> (pcs s)) (own s) (ops s))
  | ActRet, PushRet => Some (Silent, Sys (mem s) (lifo s) (<[t := Idle]> (pcs s)) (own s) (ops s))
  | ActRet, PopRet r =>
      Some (Silent, Sys (mem s) (lifo s) (<[t := Idle]> (pcs s))
                        (if r =? 0 then own s else <[t := own s t ∪ {[r]}]> (own s)) (ops s))
  | ActGo, c =>
      match advance c (mem s, lifo s) with
      | Done (c', (h, l)) => Some (effect c c', after s t c' h l)
      | Fault _ => None
      end
  | _, _ => None
  end.

Fixpoint schedule (s : sys) (acts : list (nat * action)) : option (list event * sys) :=
  match acts with
  | [] => Some ([], s)
  | (t, a) :: acts =>
      '(ev, s1) ← act s t a; '(evs, s2) ← schedule s1 acts; Some (ev :: evs, s2)
  end.

Lemma act_step E s t a ev s' : act s t a = Some (ev, s') → step E s t ev s'.
Proof.
  unfold act. destruct a as [e| | |].
  - destruct (pcs s t) eqn:Ep; try done. destruct (decide _); [|done]. intros [= <- <-].
    by constructor.
  - destruct (pcs s t) eqn:Ep; try done. intros [= <- <-]. by constructor.
  - destruct (advance (pcs s t) (mem s, lifo s)) as [[c [h l]]|] eqn:Ea; [|done].
    intros [= <- <-]. by constructor.
  - destruct (pcs s t) eqn:Ep; try done; intros [= <- <-]; by constructor.
Qed.

Lemma run_cons E s0 t ev s1 evs s2 :
  step E s0 t ev s1 → run E s1 evs s2 → run E s0 (ev :: evs) s2.
Proof.
  intros Hs. induction 1 as [s|s1 evs s2 u ev' s3 Hr IH Hs'].
  - by apply (run_snoc E s0 [] s0 t ev s); [constructor|].
  - apply (run_snoc E s0 (ev :: evs) s2 u ev' s3); [by apply IH|done].
Qed.

Lemma schedule_run E acts s evs s' : schedule s acts = Some (evs, s') → run E s evs s'.
Proof.
  revert s evs. induction acts as [|[t a] acts IH]; intros s evs; cbn.
  - intros [= <- <-]. constructor.
  - destruct (act s t a) as [[ev s1]|] eqn:Ea; [|done]. cbn.
    destruct (schedule s1 acts) as [[evs' s2]|] eqn:Es; [|done]. cbn. intros [= <- <-].
    eapply run_cons; [by apply (act_step E) in Ea|by apply IH].
Qed.

(** Two elements [a] and [b]; thread 1 has both. *)
Definition aba_start : sys :=
  Sys (Heap ∅ {[4096 := (4096, ABTU_MEM_LARGEPAGE_MALLOC)]} []) ABTI_sync_lifo_init
      (λ _, Idle) (<[1%nat := {[4096; 4104]}]> (λ _, ∅)) 0.

Definition push_acts (t : nat) (e : Z) : list (nat * action) :=
  (t, ActPush e) :: repeat (t, ActGo) 4 ++ [(t, ActRet)].
Definition pop_acts (t : nat) : list (nat * action) :=
  (t, ActPop) :: repeat (t, ActGo) 5 ++ [(t, ActRet)].

(** Thread 1 pushes [b] and [a]; thread 0 starts a pop and reads that [b] follows [a];
    thread 1 pops both, keeps [b] and pushes [a] again. *)
Definition aba_acts : list (nat * action) :=
  push_acts 1 4104 ++ push_acts 1 4096 ++ (0%nat, ActPop) :: repeat (0%nat, ActGo) 4 ++
  pop_acts 1 ++ pop_acts 1 ++ push_acts 1 4096.

Lemma aba_start_initial : initial {[4096; 4104]} aba_start.
Proof.
  assert (Hown : ∀ t e, e ∈ own aba_start t → t = 1%nat ∧ e ∈ ({[4096; 4104]} : gset Z)).
  { intros t e. cbn. destruct (decide (t = 1%nat)) as [->|].
    - by rewrite fn_lookup_insert.
    - rewrite fn_lookup_insert_ne by done. by intros ?%elem_of_empty. }
  split; try done.
  - intros t e He. destruct (Hown t e He) as [-> ?]. split; [done|]. intros u Hu.
    by apply (Hown u e).
  - intros e He. exists 1%nat. done.
  - intros e He. assert (e = 4096 ∨ e = 4104) as [-> | ->] by set_solver;
      (split; [done|]); (split; [|done]); apply mapped_spec; by vm_compute.
Qed.

(** What remains of a run: the events that took effect, the top, thread 0. *)
Definition aba_view (r : option (list event * sys)) : option (list event * ABTI_sync_lifo * pc) :=
  '(evs, s) ← r; Some (filter (λ ev, ev ≠ Silent) evs, lifo s, pcs s 0%nat).

(** The top is [a] again, but thread 0's compare-and-swap fails: the tag has moved on. *)
Example aba_prevented :
  aba_view (schedule aba_start aba_acts) =
    Some ([Pushed 4104; Pushed 4096; Popped 4096; Popped 4104; Pushed 4096],
          SyncLifo 4096 5, PopCas 4096 2 4104) ∧
  aba_view (schedule aba_start (aba_acts ++ [(0%nat, ActGo)])) =
    Some ([Pushed 4104; Pushed 4096; Popped 4096; Popped 4104; Pushed 4096],
          SyncLifo 4096 5, PopPtr).
Proof. split; vm_compute; reflexivity. Qed.

Lemma lifo_linearizable_witness :
  ∃ evs s, run {[4096; 4104]} aba_start evs s ∧ top_ptr (lifo s) = 4096 ∧
    ∃ l, replay [] evs = Some l ∧ linked (words (mem s)) (top_ptr (lifo s)) l.
Proof.
  destruct (schedule aba_start aba_acts) as [[evs s]|] eqn:Es; [|vm_compute in Es; discriminate].
  assert (Hv : bool_decide (ops s = 5) && bool_decide (top_ptr (lifo s) = 4096) = true).
  { transitivity (match schedule aba_start aba_acts with
                  | Some (_, s) => bool_decide (ops s = 5) && bool_decide (top_ptr (lifo s) = 4096)
                  | None => false end); [by rewrite Es|by vm_compute]. }
  apply andb_prop in Hv as [Ho%bool_decide_eq_true Ht%bool_decide_eq_true].
  apply (schedule_run {[4096; 4104]}) in Es. exists evs, s. split; [done|]. split; [done|].
  destruct (lifo_linearizable _ _ _ _ aba_start_initial Es ltac:(lia)) as (l & Hl & Hk & _).
  eauto.
Defined.

(** Thread 0 pops from the empty stack while thread 1 is inside a push. *)
Definition quiet_acts : list (nat * action) :=
  [(0%nat, ActPop); (0%nat, ActGo); (1%nat, ActGo); (1%nat, ActGo); (1%nat, ActGo)].

Lemma lifo_lock_free_witness :
  ∃ s evs s' c h l,
    run {[4096; 4104]} s evs s' ∧ pcs s' 1%nat = PushCas 4096 0 0 ∧
    advance (pcs s' 1%nat) (mem s', lifo s') = Done (c, (h, l)) ∧
    changes (effect (pcs s' 1%nat) c) = true.
Proof.
  destruct (schedule aba_start [(1%nat, ActPush 4096)]) as [[evs0 s]|] eqn:E0;
    [|vm_compute in E0; discriminate].
  vm_compute in E0. injection E0 as _ Es. symmetry in Es.
  destruct (schedule s quiet_acts) as [[evs s']|] eqn:E1; [|subst s; vm_compute in E1; discriminate].
  assert (Hp : pcs s 1%nat = PushPtr 4096) by (by rewrite Es).
  assert (Hv : match schedule s quiet_acts with
     | Some (evs, s') => (evs, pcs s' 1%nat, lifo s', words (mem s'))
     | None => ([], Idle, ABTI_sync_lifo_init, ∅) end =
     ([Silent; FoundEmpty; Silent; Silent; Silent], PushCas 4096 0 0, ABTI_sync_lifo_init, {[4096 := 0]})).
  { rewrite Es. by vm_compute. }
  rewrite E1 in Hv. injection Hv as Hevs Hp' Hl' Hw'.
  assert (Ha : advance (pcs s' 1%nat) (mem s', lifo s') =
    Done (PushRet, (mem s', SyncLifo 4096 (u64 (0 + 1))))) by (by rewrite Hp', Hl').
  exists s, evs, s', PushRet, (mem s'), (SyncLifo 4096 (u64 (0 + 1))).
  apply (schedule_run {[4096; 4104]}) in E1.
  split; [done|]. split; [done|]. split; [done|].
  refine (proj1 (lifo_lock_free {[4096; 4104]} s evs s' 1%nat _ _ _ _ E1 _ _ Ha)).
  - left. by exists 4096.
  - rewrite Hevs. by repeat constructor.
  - by rewrite Hp'.
Defined.
