(* ===== verification/MemPool.v ===== *)
(** * Memory pools

    argobots/src/mem/mem_pool.c and include/abti_mem_pool.h: blocks of one size (thread
    descriptors, stacks) are cut out of large pages, linked into buckets of
    [num_headers_per_bucket], and cached in local pools of two buckets; full buckets go
    to and come from a lock-free stack of the global pool, what does not fill a
    bucket goes to its partial bucket.  The structures live in the memory of [LargePage]:
    a header is two words, [p_next] and the union [bucket_info] (a count or a link);
    a page has its descriptor of seven words at its end.  The integers of the code are
    converted where the code converts them. *)

From stdpp Require Import base tactics decidable option list numbers gmap fin_maps.
From Stdlib Require Import ZArith Lia.
From S2P Require Import Prelude Abt Env LargePage SyncLifo.
Open Scope Z_scope.

(** ** Data *)

Definition ABT_MEM_POOL_NUM_RETURN_BUCKETS : Z := 1.
Definition ABT_MEM_POOL_NUM_TAKE_BUCKETS : Z := 1.

(** Offsets in [ABTI_mem_pool_header] (16 bytes) and [ABTI_mem_pool_page] (56 bytes). *)
Definition sizeof_header : Z := 16.
Definition off_bucket_info : Z := 8.
Definition sizeof_page : Z := 56.
Definition off_p_next_empty_page : Z := 8.
Definition off_mem : Z := 16.
Definition off_page_size : Z := 24.
Definition off_lp_type : Z := 32.
Definition off_p_mem_extra : Z := 40.
Definition off_mem_extra_size : Z := 48.

Record mprotect_config_t := MprotectConfig {
  enabled : bool;
  check_error : bool;
  mp_offset : Z;
  mp_page_size : Z;
  alignment : Z
}.

Record ABTI_mem_pool_global_pool := GlobalPool {
  header_size : Z;
  page_size : Z;
  alignment_hint : Z;
  header_offset : Z;
  num_headers_per_bucket : Z;
  lp_type_requests : list ABTU_MEM_LARGEPAGE_TYPE;
  mprotect_config : mprotect_config_t;
  bucket_lifo : ABTI_sync_lifo;
  mem_page_lifo : ABTI_sync_lifo;
  p_mem_page_empty : Z;
  partial_bucket_lock : bool;
  partial_bucket : Z
}.

(** A slot of [buckets] that was never written is [None]. *)
Record ABTI_mem_pool_local_pool := LocalPool {
  local_num_headers_per_bucket : Z;
  bucket_index : Z;
  buckets : list (option Z)
}.

(** The memory and the global pool. *)
Record pool := Pool { hp : heap; gp : ABTI_mem_pool_global_pool }.

Definition set_bucket_lifo (l : ABTI_sync_lifo) (g : ABTI_mem_pool_global_pool) :=
  GlobalPool (header_size g) (page_size g) (alignment_hint g) (header_offset g)
    (num_headers_per_bucket g) (lp_type_requests g) (mprotect_config g) l (mem_page_lifo g)
    (p_mem_page_empty g) (partial_bucket_lock g) (partial_bucket g).
Definition set_mem_page_lifo (l : ABTI_sync_lifo) (g : ABTI_mem_pool_global_pool) :=
  GlobalPool (header_size g) (page_size g) (alignment_hint g) (header_offset g)
    (num_headers_per_bucket g) (lp_type_requests g) (mprotect_config g) (bucket_lifo g) l
    (p_mem_page_empty g) (partial_bucket_lock g) (partial_bucket g).
Definition set_p_mem_page_empty (p : Z) (g : ABTI_mem_pool_global_pool) :=
  GlobalPool (header_size g) (page_size g) (alignment_hint g) (header_offset g)
    (num_headers_per_bucket g) (lp_type_requests g) (mprotect_config g) (bucket_lifo g)
    (mem_page_lifo g) p (partial_bucket_lock g) (partial_bucket g).
Definition set_partial_lock (b : bool) (g : ABTI_mem_pool_global_pool) :=
  GlobalPool (header_size g) (page_size g) (alignment_hint g) (header_offset g)
    (num_headers_per_bucket g) (lp_type_requests g) (mprotect_config g) (bucket_lifo g)
    (mem_page_lifo g) (p_mem_page_empty g) b (partial_bucket g).
Definition set_partial (p : Z) (g : ABTI_mem_pool_global_pool) :=
  GlobalPool (header_size g) (page_size g) (alignment_hint g) (header_offset g)
    (num_headers_per_bucket g) (lp_type_requests g) (mprotect_config g) (bucket_lifo g)
    (mem_page_lifo g) (p_mem_page_empty g) (partial_bucket_lock g) p.

Definition set_gp (g : ABTI_mem_pool_global_pool) (s : pool) : pool := Pool (hp s) g.
Definition mem_op {A} (m : C heap A) : C pool A := zoom hp (λ h s, Pool h (gp s)) m.
Definition lock_op {A} (m : C bool A) : C pool A :=
  zoom (λ s, partial_bucket_lock (gp s)) (λ b s, set_gp (set_partial_lock b (gp s)) s) m.
Definition on_bucket_lifo {A} (m : C shared A) : C pool A :=
  zoom (λ s, (hp s, bucket_lifo (gp s))) (λ sh s, Pool sh.1 (set_bucket_lifo sh.2 (gp s))) m.
Definition on_page_lifo {A} (m : C shared A) : C pool A :=
  zoom (λ s, (hp s, mem_page_lifo (gp s))) (λ sh s, Pool sh.1 (set_mem_page_lifo sh.2 (gp s))) m.

Abbreviation ld a := (mem_op (load a)).
Abbreviation st a v := (mem_op (store a v)).

Definition mem_pool_lifo_elem_to_page (lifo_elem : Z) : Z := lifo_elem.
Definition mem_pool_lifo_elem_to_header (lifo_elem : Z) : Z := lifo_elem - off_bucket_info.

(** The enumeration as the code stores it. *)
Definition lp_code (t : ABTU_MEM_LARGEPAGE_TYPE) : Z :=
  match t with
  | ABTU_MEM_LARGEPAGE_MALLOC => 0
  | ABTU_MEM_LARGEPAGE_MEMALIGN => 1
  | ABTU_MEM_LARGEPAGE_MMAP => 2
  | ABTU_MEM_LARGEPAGE_MMAP_HUGEPAGE => 3
  end.
Definition lp_decode (z : Z) : option ABTU_MEM_LARGEPAGE_TYPE :=
  match z with
  | 0 => Some ABTU_MEM_LARGEPAGE_MALLOC
  | 1 => Some ABTU_MEM_LARGEPAGE_MEMALIGN
  | 2 => Some ABTU_MEM_LARGEPAGE_MMAP
  | 3 => Some ABTU_MEM_LARGEPAGE_MMAP_HUGEPAGE
  | _ => None
  end.

Definition ABTU_roundup_ptr (ptr multiple : Z) : Z := ABTU_roundup_size ptr multiple.

Section mem_pool.
Variable (o : os).

(** ** The global pool *)

(** The loop that leaves out huge pages, in place: [idx] entries are kept so far. *)
Fixpoint drop_hugepages (n : nat) (i idx : nat) (a : list ABTU_MEM_LARGEPAGE_TYPE)
    : nat * list ABTU_MEM_LARGEPAGE_TYPE :=
  match n with
  | O => (idx, a)
  | S n =>
      match a !! i with
      | Some t =>
          if decide (t = ABTU_MEM_LARGEPAGE_MMAP_HUGEPAGE) then drop_hugepages n (S i) idx a
          else drop_hugepages n (S i) (S idx) (<[idx := t]> a)
      | None => (idx, a)
      end
  end.

(** The requests used when pages will be protected. *)
Definition protected_requests (requests : list ABTU_MEM_LARGEPAGE_TYPE)
    : list ABTU_MEM_LARGEPAGE_TYPE :=
  let '(idx, a) := drop_hugepages (length requests) 0 0 requests in
  if decide (idx = 0%nat) then [ABTU_MEM_LARGEPAGE_MALLOC] else take idx a.

(** [None] for a missing [p_mprotect_config]: nothing but [enabled] is then used. *)
Definition ABTI_mem_pool_init_global_pool (num_headers_per_bucket header_size header_offset page_size : Z)
    (lp_type_requests : list ABTU_MEM_LARGEPAGE_TYPE) (alignment_hint : Z)
    (p_mprotect_config : option mprotect_config_t) : outcome ABTI_mem_pool_global_pool :=
  if header_offset + sizeof_header <=? header_size then
    if (length lp_type_requests <=? 4)%nat then
      let config := default (MprotectConfig false false 0 0 0) p_mprotect_config in
      let requests := if enabled config then protected_requests lp_type_requests else lp_type_requests in
      Done (GlobalPool header_size page_size alignment_hint header_offset num_headers_per_bucket
              requests config ABTI_sync_lifo_init ABTI_sync_lifo_init 0 false 0)
    else Fault AssertFailed
  else Fault AssertFailed.

Definition protect_memory (addr size page_size : Z) (protect adjust_size : bool) : C pool Z :=
  let mprotect_addr := ABTU_roundup_ptr addr page_size in
  let size := if adjust_size then u64 (size - (mprotect_addr - addr)) else size in
  mem_op (ABTU_mprotect o mprotect_addr size protect).

(** ** Buckets *)

Definition ABTI_mem_pool_return_bucket (bucket : Z) : C pool unit :=
  on_bucket_lifo (ABTI_sync_lifo_push (bucket + off_bucket_info)).

(** [n] times [p = p->p_next]. *)
Fixpoint follow (n : nat) (p : Z) : C pool Z :=
  match n with
  | O => mret p
  | S n => p' ← ld p; follow n p'
  end.

(** The case in which the headers do not make a complete bucket. *)
Definition append_partial (bucket num_in_partial num_in_bucket : Z) : C pool unit :=
  s ← get; let partial := partial_bucket (gp s) in
  partial_bucket_tail ← follow (Z.to_nat (num_in_partial - 1)) partial;
  st partial_bucket_tail bucket;;
  st (partial + off_bucket_info) (u64 (num_in_partial + num_in_bucket)).

(** The case in which they do. *)
Definition complete_partial (bucket num_in_partial num_in_bucket : Z) : C pool unit :=
  s ← get; let partial := partial_bucket (gp s) in
  let num_headers_per_bucket := i32 (num_headers_per_bucket (gp s)) in
  partial_bucket_header ← follow (Z.to_nat (num_headers_per_bucket - num_in_bucket - 1)) partial;
  new_partial_bucket ←
    (if i32 (num_in_partial + num_in_bucket) =? num_headers_per_bucket then mret 0
     else n ← ld partial_bucket_header;
          st (n + off_bucket_info)
             (u64 (num_headers_per_bucket - i32 (num_in_partial + num_in_bucket)));;
          mret n);
  st partial_bucket_header bucket;;
  ABTI_mem_pool_return_bucket partial;;
  modify (λ s, set_gp (set_partial new_partial_bucket (gp s)) s).

Definition mem_pool_return_partial_bucket (bucket : Z) : C pool unit :=
  lock_op ABTD_spinlock_acquire;;
  s ← get;
  (if partial_bucket (gp s) =? 0 then modify (λ s, set_gp (set_partial bucket (gp s)) s)
   else
     np ← ld (partial_bucket (gp s) + off_bucket_info);
     nb ← ld (bucket + off_bucket_info);
     if i32 (i32 np + i32 nb) <? i32 (num_headers_per_bucket (gp s))
     then append_partial bucket (i32 np) (i32 nb)
     else complete_partial bucket (i32 np) (i32 nb));;
  lock_op ABTD_spinlock_release.

(** ** New headers *)

(** A page with memory left, or a new one; or the error. *)
Definition get_page : C pool (Z + Z) :=
  p_page_lifo_elem ← on_page_lifo ABTI_sync_lifo_pop;
  if p_page_lifo_elem =? 0 then
    s ← get; let g := gp s in
    r ← mem_op (ABTU_alloc_largepage o (page_size g) (alignment_hint g) (lp_type_requests g));
    match r with
    | (_, Some (lp_type, p_alloc_mem)) =>
        let p_page := p_alloc_mem + page_size g - sizeof_page in
        st (p_page + off_mem) p_alloc_mem;;
        st (p_page + off_page_size) (page_size g);;
        st (p_page + off_lp_type) (lp_code lp_type);;
        st (p_page + off_p_mem_extra) p_alloc_mem;;
        st (p_page + off_mem_extra_size) (u64 (page_size g - sizeof_page));;
        mret (inr p_page)
    | (abt_errno, None) => mret (inl abt_errno)
    end
  else mret (inr (mem_pool_lifo_elem_to_page p_page_lifo_elem)).

(** Takes the memory of at most [num_required] headers from a page. *)
Definition take_memory (p_page num_required : Z) : C pool (Z * Z) :=
  s ← get; let header_size := header_size (gp s) in
  mem_extra_size ← ld (p_page + off_mem_extra_size);
  let num_provided := i32 (mem_extra_size / header_size) in
  let num_provided := if num_required <? num_provided then num_required else num_provided in
  c_assert (negb (num_provided =? 0));;
  p_mem_extra ← ld (p_page + off_p_mem_extra);
  st (p_page + off_p_mem_extra) (u64 (p_mem_extra + header_size * num_provided));;
  st (p_page + off_mem_extra_size) (u64 (mem_extra_size - header_size * num_provided));;
  mret (p_mem_extra, num_provided).

(** Back to the pages with memory left, or to the list of empty pages. *)
Definition put_page (p_page : Z) : C pool unit :=
  s ← get;
  mem_extra_size ← ld (p_page + off_mem_extra_size);
  if header_size (gp s) <=? mem_extra_size then on_page_lifo (ABTI_sync_lifo_push p_page)
  else
    st (p_page + off_p_next_empty_page) (p_mem_page_empty (gp s));;
    modify (λ s, set_gp (set_p_mem_page_empty p_page (gp s)) s).

(** The guard page of one element, if the pool has them. *)
Definition protect_header (p : Z) : C pool unit :=
  s ← get; let config := mprotect_config (gp s) in
  if enabled config then
    abt_errno ← protect_memory (p - header_offset (gp s) + mp_offset config)
                  (mp_page_size config) (alignment config) true false;
    if check_error config then c_assert (abt_errno =? ABT_SUCCESS) else mret ()
  else mret ().

Fixpoint link_headers (n : nat) (p_prev : Z) : C pool Z :=
  match n with
  | O => mret p_prev
  | S n =>
      s ← get; let p_cur := p_prev + header_size (gp s) in
      st p_cur p_prev;;
      protect_header p_cur;;
      link_headers n p_cur
  end.

(** One round of the loop: the new head and the number of headers. *)
Definition new_headers (p_page num_headers p_head : Z) : C pool (Z * Z) :=
  s ← get;
  '(p_mem_extra, num_provided) ←
    take_memory p_page (i32 (num_headers_per_bucket (gp s)) - num_headers);
  put_page p_page;;
  let p_local_tail := p_mem_extra + header_offset (gp s) in
  st p_local_tail p_head;;
  protect_header p_local_tail;;
  p_prev ← link_headers (Z.to_nat (num_provided - 1)) p_local_tail;
  mret (p_prev, num_headers + num_provided).

Fixpoint collect_headers (fuel : nat) (num_headers p_head : Z) : C pool (Z * option Z) :=
  match fuel with
  | O => throw OutOfFuel
  | S fuel =>
      p ← get_page;
      match p with
      | inl abt_errno =>
          (if negb (num_headers =? 0)
           then st (p_head + off_bucket_info) (u64 num_headers);;
                mem_pool_return_partial_bucket p_head
           else mret ());;
          mret (abt_errno, None)
      | inr p_page =>
          s ← get;
          '(p_head, num_headers) ← new_headers p_page num_headers p_head;
          if num_headers =? i32 (num_headers_per_bucket (gp s))
          then st (p_head + off_bucket_info) (u64 (i32 (num_headers_per_bucket (gp s))));;
               mret (ABT_SUCCESS, Some p_head)
          else collect_headers fuel num_headers p_head
      end
  end.

(** [*p_bucket] is written only on success.  A round gets at least one header. *)
Definition ABTI_mem_pool_take_bucket : C pool (Z * option Z) :=
  p_popped_bucket_lifo_elem ← on_bucket_lifo ABTI_sync_lifo_pop;
  s ← get;
  if p_popped_bucket_lifo_elem =? 0
  then collect_headers (Z.to_nat (num_headers_per_bucket (gp s))) 0 0
  else
    let popped_bucket := mem_pool_lifo_elem_to_header p_popped_bucket_lifo_elem in
    st (popped_bucket + off_bucket_info) (u64 (i32 (num_headers_per_bucket (gp s))));;
    mret (ABT_SUCCESS, Some popped_bucket).

(** ** Local pools *)

Definition get_bucket (l : ABTI_mem_pool_local_pool) (i : Z) : C pool Z :=
  match buckets l !! Z.to_nat i with Some (Some b) => mret b | _ => throw UB end.
Definition set_bucket (i b : Z) (l : ABTI_mem_pool_local_pool) : ABTI_mem_pool_local_pool :=
  LocalPool (local_num_headers_per_bucket l) (bucket_index l) (<[Z.to_nat i := Some b]> (buckets l)).
Definition set_bucket_index (i : Z) (l : ABTI_mem_pool_local_pool) : ABTI_mem_pool_local_pool :=
  LocalPool (local_num_headers_per_bucket l) i (buckets l).

Definition ABTI_mem_pool_init_local_pool : C pool (Z * option ABTI_mem_pool_local_pool) :=
  s ← get;
  r ← ABTI_mem_pool_take_bucket;
  match r with
  | (_, Some b) =>
      mret (ABT_SUCCESS,
            Some (LocalPool (num_headers_per_bucket (gp s)) 0 [Some b; None]))
  | (abt_errno, None) => mret (abt_errno, None)
  end.

Fixpoint return_buckets (l : ABTI_mem_pool_local_pool) (n : nat) (i : Z) : C pool unit :=
  match n with
  | O => mret ()
  | S n => b ← get_bucket l i; ABTI_mem_pool_return_bucket b;; return_buckets l n (i + 1)
  end.

Definition ABTI_mem_pool_destroy_local_pool (l : ABTI_mem_pool_local_pool) : C pool unit :=
  return_buckets l (Z.to_nat (bucket_index l)) 0;;
  cur_bucket ← get_bucket l (bucket_index l);
  num_headers ← ld (cur_bucket + off_bucket_info);
  if num_headers =? local_num_headers_per_bucket l
  then ABTI_mem_pool_return_bucket cur_bucket
  else mem_pool_return_partial_bucket cur_bucket.

(** The error, or the memory, and the local pool afterwards. *)
Definition ABTI_mem_pool_alloc (l : ABTI_mem_pool_local_pool)
    : C pool ((Z * option Z) * ABTI_mem_pool_local_pool) :=
  let bucket_index := bucket_index l in
  cur_bucket ← get_bucket l bucket_index;
  num_headers_in_cur_bucket ← ld (cur_bucket + off_bucket_info);
  c_assert (1 <=? num_headers_in_cur_bucket);;
  if num_headers_in_cur_bucket =? 1 then
    if bucket_index =? 0 then
      r ← ABTI_mem_pool_take_bucket;
      match r with
      | (_, Some b) =>
          mret ((ABT_SUCCESS, Some cur_bucket),
                set_bucket_index (ABT_MEM_POOL_NUM_TAKE_BUCKETS - 1) (set_bucket 0 b l))
      | (abt_errno, None) => mret ((abt_errno, None), l)
      end
    else mret ((ABT_SUCCESS, Some cur_bucket), set_bucket_index (bucket_index - 1) l)
  else
    p_next ← ld cur_bucket;
    st (p_next + off_bucket_info) (u64 (num_headers_in_cur_bucket - 1));;
    mret ((ABT_SUCCESS, Some cur_bucket), set_bucket bucket_index p_next l).

(** All buckets are full: the oldest goes back and the other moves down. *)
Definition return_oldest (l : ABTI_mem_pool_local_pool) : C pool ABTI_mem_pool_local_pool :=
  b0 ← get_bucket l 0;
  ABTI_mem_pool_return_bucket b0;;
  b1 ← get_bucket l ABT_MEM_POOL_NUM_RETURN_BUCKETS;
  mret (set_bucket 0 b1 l).

Definition ABTI_mem_pool_free (l : ABTI_mem_pool_local_pool) (mem : Z)
    : C pool ABTI_mem_pool_local_pool :=
  let p_freed_header := mem in
  cur_bucket ← get_bucket l (bucket_index l);
  num_headers ← ld (cur_bucket + off_bucket_info);
  if num_headers =? local_num_headers_per_bucket l then
    let index := bucket_index l + 1 in
    l ← (if index =? ABT_MEM_POOL_MAX_LOCAL_BUCKETS then return_oldest l else mret l);
    let index := if index =? ABT_MEM_POOL_MAX_LOCAL_BUCKETS
                 then ABT_MEM_POOL_MAX_LOCAL_BUCKETS - ABT_MEM_POOL_NUM_RETURN_BUCKETS else index in
    let l := set_bucket_index index l in
    st p_freed_header 0;;
    st (p_freed_header + off_bucket_info) 1;;
    mret (set_bucket index p_freed_header l)
  else
    st p_freed_header cur_bucket;;
    num_headers ← ld (cur_bucket + off_bucket_info);
    st (p_freed_header + off_bucket_info) (u64 (num_headers + 1));;
    mret (set_bucket (bucket_index l) p_freed_header l).

(** ** Giving all pages back *)

Definition free_page (p_page : Z) : C pool unit :=
  s ← get; let config := mprotect_config (gp s) in
  mem ← ld (p_page + off_mem);
  size ← ld (p_page + off_page_size);
  (if enabled config
   then r ← protect_memory mem size (alignment config) false true; c_assert (r =? ABT_SUCCESS)
   else mret ());;
  code ← ld (p_page + off_lp_type);
  match lp_decode code with
  | Some type => mem_op (ABTU_free_largepage mem size type)
  | None => throw UB
  end.

Fixpoint free_pages (fuel : nat) : C pool unit :=
  s ← get;
  r ← mem_op (ABTI_sync_lifo_pop_unsafe (mem_page_lifo (gp s)));
  modify (λ s, set_gp (set_mem_page_lifo r.2 (gp s)) s);;
  if r.1 =? 0 then mret ()
  else match fuel with
       | O => throw OutOfFuel
       | S fuel => free_page (mem_pool_lifo_elem_to_page r.1);; free_pages fuel
       end.

Fixpoint free_empty_pages (fuel : nat) (p_page : Z) : C pool unit :=
  if p_page =? 0 then mret ()
  else match fuel with
       | O => throw OutOfFuel
       | S fuel =>
           p_next ← ld (p_page + off_p_next_empty_page);
           free_page p_page;;
           free_empty_pages fuel p_next
       end.

Definition ABTI_mem_pool_destroy_global_pool (fuel : nat) : C pool unit :=
  free_pages fuel;;
  s ← get;
  free_empty_pages fuel (p_mem_page_empty (gp s)).

(** ** Users of the pool

    Local pools are numbered; [ms_used] are the blocks in use, each by its header.  A
    user writes into the blocks it was given. *)

Record mem_sys := MemSys {
  ms_pool : pool;
  ms_local : gmap nat ABTI_mem_pool_local_pool;
  ms_used : list Z
}.

Inductive mop :=
  | MInit (i : nat)
  | MAlloc (i : nat)
  | MFree (i : nat) (x : Z)
  | MDestroy (i : nat)
  | MWrite (x a v : Z).

Definition on_pool {A} (m : C pool A) : C mem_sys A :=
  zoom ms_pool (λ p s, MemSys p (ms_local s) (ms_used s)) m.
Definition set_local (i : nat) (l : option ABTI_mem_pool_local_pool) (s : mem_sys) : mem_sys :=
  MemSys (ms_pool s) (partial_alter (λ _, l) i (ms_local s)) (ms_used s).
Definition set_used (u : list Z) (s : mem_sys) : mem_sys := MemSys (ms_pool s) (ms_local s) u.
Definition the_local (i : nat) : C mem_sys ABTI_mem_pool_local_pool := λ s,
  match ms_local s !! i with Some l => Done (l, s) | None => Fault UB end.

(** The error code of the call. *)
Definition mexec (op : mop) : C mem_sys Z :=
  match op with
  | MInit i =>
      r ← on_pool ABTI_mem_pool_init_local_pool;
      modify (λ s, match r.2 with Some l => set_local i (Some l) s | None => s end);;
      mret r.1
  | MAlloc i =>
      l ← the_local i;
      r ← on_pool (ABTI_mem_pool_alloc l);
      modify (λ s, match r.1.2 with Some x => set_used (x :: ms_used s) s | None => s end);;
      modify (set_local i (Some r.2));;
      mret r.1.1
  | MFree i x =>
      l ← the_local i;
      l ← on_pool (ABTI_mem_pool_free l x);
      modify (λ s, set_local i (Some l) (set_used (filter (λ y, y ≠ x) (ms_used s)) s));;
      mret ABT_SUCCESS
  | MDestroy i =>
      l ← the_local i;
      on_pool (ABTI_mem_pool_destroy_local_pool l);;
      modify (set_local i None);;
      mret ABT_SUCCESS
  | MWrite x a v => on_pool (st a v);; mret ABT_SUCCESS
  end.
End mem_pool.

(** The word at [a] is in the block of the header [x]. *)
Definition in_block_of (g : ABTI_mem_pool_global_pool) (x a : Z) : Prop :=
  x - header_offset g ≤ a ∧ a + 8 ≤ x - header_offset g + header_size g.

(** Calls that respect the interface: one local pool per number, a block is freed once,
    writes go to writable words of a block in use. *)
Definition mlegal (s : mem_sys) (op : mop) : Prop :=
  match op with
  | MInit i => ms_local s !! i = None
  | MAlloc i | MDestroy i => is_Some (ms_local s !! i)
  | MFree i x => is_Some (ms_local s !! i) ∧ x ∈ ms_used s
  | MWrite x a v =>
      x ∈ ms_used s ∧ in_block_of (gp (ms_pool s)) x a ∧ a mod 8 = 0 ∧
      guarded (hp (ms_pool s)) a = false
  end.

Inductive mreach (o : os) (s0 : mem_sys) : mem_sys → Prop :=
  | mreach_start : mreach o s0 s0
  | mreach_step s op r s' :
      mreach o s0 s → mlegal s op → mexec o op s = Done (r, s') → mreach o s0 s'.

Definition mem_start (g : ABTI_mem_pool_global_pool) : mem_sys :=
  MemSys (Pool (Heap ∅ ∅ []) g) ∅ [].
