(* ===== verification/MemPoolInv.v ===== *)
(** * Memory pools: the proofs

    Where pages, their descriptors and the blocks cut from them lie ([cfg_ok], [geo]); what
    the words of memory say about buckets, pages and local pools ([core], [inv],
    [local_rep]); that every operation of [MemPool] keeps this, never faults, and does not
    touch blocks that are in use; and the theorems on any sequence of calls of the users
    of a pool. *)

From stdpp Require Import base tactics decidable option list numbers gmap fin_maps sets.
From Stdlib Require Import ZArith Lia.
From S2P Require Import Prelude Abt Env LargePage SyncLifo MemPool.
Open Scope Z_scope.

(** ** The layout *)

Record cfg_ok (hs ps off n : Z) (mc : mprotect_config_t) : Prop := {
  ok_n : 1 ≤ n ≤ 2 ^ 30;
  ok_off : 0 ≤ off ∧ off mod 8 = 0;
  ok_hs : off + sizeof_header ≤ hs ∧ hs mod 8 = 0;
  ok_ps : hs + sizeof_page ≤ ps ∧ ps mod 8 = 0;
  ok_many : ps < 2 ^ 31 * hs;
  ok_guard : enabled mc = true →
    0 ≤ mp_offset mc ∧ 0 < mp_page_size mc ∧ (∃ k, 0 ≤ k < 63 ∧ alignment mc = 2 ^ k) ∧
    mp_offset mc + (alignment mc - 1) + mp_page_size mc ≤ off
}.

Section layout.
Context (hs ps off n : Z) (mc : mprotect_config_t) (Hcfg : cfg_ok hs ps off n mc).
Context (o : os) `{HOS : !OsLaws o}.
Context (Hprot : check_error mc = true → ∀ h a m, protects o h a m true = true).

(** The descriptor of the page at [b]; a header of a page from which [k] were cut; the
    block of a header. *)
Definition desc (b : Z) : Z := b + ps - sizeof_page.
Definition nth_header (b j : Z) : Z := b + j * hs + off.
Definition hdr (P : gmap Z Z) (x : Z) : Prop :=
  ∃ b k j, P !! b = Some k ∧ 0 ≤ j < k ∧ x = nth_header b j.
Definition in_block (x a : Z) : Prop := x - off ≤ a ∧ a + 8 ≤ x - off + hs.

Record geo (h : heap) (P : gmap Z Z) : Prop := {
  geo_live b : is_Some (live h !! b) ↔ is_Some (P !! b);
  geo_size b r : live h !! b = Some r → r.1 = ps;
  geo_base b k : P !! b = Some k → 0 < b ∧ b mod 8 = 0 ∧ b + ps ≤ 2 ^ 64 ∧
                                   0 ≤ k ∧ k * hs ≤ ps - sizeof_page;
  geo_disj b b' : is_Some (P !! b) → is_Some (P !! b') → b ≠ b' → b + ps ≤ b' ∨ b' + ps ≤ b;
  geo_guard g : g ∈ guards h →
    ∃ x, hdr P x ∧ x - off ≤ g.1 ∧ 0 < g.2 ∧ g.1 + g.2 ≤ x ∧ (alignment mc | g.1);
  geo_off : enabled mc = false → guards h = []
}.

Lemma sizes : 0 ≤ off ∧ off + 16 ≤ hs ∧ hs + 56 ≤ ps.
Proof. destruct (ok_ps _ _ _ _ _ Hcfg), (ok_hs _ _ _ _ _ Hcfg), (ok_off _ _ _ _ _ Hcfg). done. Qed.

Lemma nth_bounds h P b k j :
  geo h P → P !! b = Some k → 0 ≤ j < k →
  b ≤ nth_header b j - off ∧ nth_header b j - off + hs ≤ desc b ∧ 0 < b.
Proof.
  intros Hg Hb Hj. destruct (geo_base _ _ Hg b k Hb) as (? & ? & ? & ? & ?).
  pose proof sizes as Hsz.
  unfold desc, nth_header, sizeof_header in *. nia.
Qed.

Lemma block_bounds h P x :
  geo h P → hdr P x → ∃ b k, P !! b = Some k ∧ b ≤ x - off ∧ x - off + hs ≤ desc b ∧ 0 < b.
Proof. intros Hg (b & k & j & Hb & Hj & ->). exists b, k. split; [done|]. by eapply nth_bounds. Qed.

Lemma blocks_apart h P x y :
  geo h P → hdr P x → hdr P y → x ≠ y → x + hs ≤ y ∨ y + hs ≤ x.
Proof.
  intros Hg (b & k & j & Hb & Hj & ->) (b' & k' & j' & Hb' & Hj' & ->) Hne.
  pose proof (nth_bounds _ _ _ _ _ Hg Hb Hj). pose proof (nth_bounds _ _ _ _ _ Hg Hb' Hj').
  pose proof sizes as Hsz.
  destruct (decide (b = b')) as [->|Hbb].
  - assert (Hjj : j ≠ j') by congruence. unfold nth_header. clear - Hsz Hjj. nia.
  - unfold desc, sizeof_page in *.
    destruct (geo_disj _ _ Hg b b') as [|]; [by eexists|by eexists|done|lia|lia].
Qed.

Lemma block_desc_apart h P x b :
  geo h P → hdr P x → is_Some (P !! b) →
  x - off + hs ≤ desc b ∨ desc b + sizeof_page ≤ x - off.
Proof.
  intros Hg Hx Hb. destruct (block_bounds _ _ _ Hg Hx) as (bx & kx & Ebx & ? & ? & _).
  destruct (decide (bx = b)) as [->|Hne]; [by left|].
  pose proof sizes as Hsz.
  unfold desc, sizeof_page, sizeof_header in *.
  destruct (geo_disj _ _ Hg bx b) as [|]; [by eexists|done|done|lia|lia].
Qed.

Lemma descs_apart h P b b' :
  geo h P → is_Some (P !! b) → is_Some (P !! b') → b ≠ b' →
  desc b + sizeof_page ≤ desc b' ∨ desc b' + sizeof_page ≤ desc b.
Proof.
  intros Hg Hb Hb' Hne. pose proof sizes as Hsz.
  unfold desc, sizeof_page, sizeof_header in *.
  destruct (geo_disj _ _ Hg b b' Hb Hb' Hne); lia.
Qed.

(** *** Loads and stores that are allowed *)

Lemma region_in h P b a :
  geo h P → is_Some (P !! b) → b ≤ a → a + 8 ≤ b + ps → a mod 8 = 0 → in_region h a.
Proof.
  intros Hg Hb ? ? ?. split; [done|]. apply (geo_live _ _ Hg) in Hb as [r Hr].
  exists b, r. rewrite (geo_size _ _ Hg b r Hr). auto.
Qed.

Lemma desc_writable h P b i :
  geo h P → is_Some (P !! b) → 0 ≤ i ≤ 48 → i mod 8 = 0 →
  in_region h (desc b + i) ∧ guarded h (desc b + i) = false.
Proof.
  intros Hg Hb Hi Hi8. pose proof Hb as [k Hk].
  destruct (geo_base _ _ Hg b k Hk) as (_ & Hb8 & _).
  pose proof sizes as Hsz. split.
  - apply (region_in h P b); try done; [unfold desc, sizeof_page; lia..|].
    destruct (ok_ps _ _ _ _ _ Hcfg) as [_ Hp8]. unfold desc, sizeof_page.
    apply Z.mod_divide; [done|]. apply Z.mod_divide in Hb8, Hp8, Hi8; [|done..].
    apply Z.divide_add_r; [apply Z.divide_sub_r; [by apply Z.divide_add_r|by exists 7]|done].
  - apply guarded_spec. intros g Hgd. destruct (geo_guard _ _ Hg g Hgd) as (x & Hx & ? & ? & ? & _).
    destruct (block_desc_apart _ _ _ _ Hg Hx Hb); unfold overlaps, sizeof_page in *; lia.
Qed.

Lemma header_aligned h P x : geo h P → hdr P x → x mod 8 = 0.
Proof.
  intros Hg (b & k & j & Hb & Hj & ->). destruct (geo_base _ _ Hg b k Hb) as (_ & Hb8 & _).
  destruct (ok_hs _ _ _ _ _ Hcfg) as [_ Hh], (ok_off _ _ _ _ _ Hcfg) as [_ Ho].
  unfold nth_header. apply Z.mod_divide; [done|].
  apply Z.mod_divide in Hb8, Hh, Ho; [|done..].
  apply Z.divide_add_r; [apply Z.divide_add_r|]; [done|by apply Z.divide_mul_r|done].
Qed.

Lemma header_writable h P x a :
  geo h P → hdr P x → a = x ∨ a = x + 8 → in_region h a ∧ guarded h a = false.
Proof.
  intros Hg Hx Ha. pose proof (header_aligned _ _ _ Hg Hx) as Hx8.
  destruct (block_bounds _ _ _ Hg Hx) as (b & k & Hb & ? & ? & ?).
  pose proof sizes as Hsz.
  unfold desc, sizeof_page, sizeof_header in *. split.
  - apply (region_in h P b); [done|by eexists|lia|lia|].
    destruct Ha as [->| ->]; [done|]. by rewrite Z.add_mod, Hx8 by done.
  - apply guarded_spec. intros g Hgd. destruct (geo_guard _ _ Hg g Hgd) as (y & Hy & ? & ? & ? & _).
    unfold overlaps. destruct (decide (x = y)) as [->|Hne]; [lia|].
    destruct (blocks_apart _ _ _ _ Hg Hx Hy Hne); lia.
Qed.

(** ** The invariant *)

Definition elems (b : Z * list Z) : list Z := b.1 :: b.2.
Definition blist (B : list (Z * list Z)) : list Z := B ≫= elems.

(** Consecutive headers of [l] are linked. *)
Definition seg (w : gmap Z Z) (l : list Z) : Prop :=
  ∀ i x y, l !! i = Some x → l !! S i = Some y → w !! x = Some y.

(** The list of empty pages. *)
Fixpoint elinked (w : gmap Z Z) (p : Z) (bs : list Z) : Prop :=
  match bs with
  | [] => p = 0
  | b :: bs => p = desc b ∧ ∃ q, w !! (desc b + off_p_next_empty_page) = Some q ∧ elinked w q bs
  end.

(** The words of the descriptor of a page from which [k] headers were cut. *)
Definition desc_words (h : heap) (b k : Z) : Prop :=
  words h !! (desc b + off_mem) = Some b ∧
  words h !! (desc b + off_page_size) = Some ps ∧
  (∃ ty, live h !! b = Some (ps, ty) ∧ words h !! (desc b + off_lp_type) = Some (lp_code ty)) ∧
  words h !! (desc b + off_p_mem_extra) = Some (b + k * hs) ∧
  words h !! (desc b + off_mem_extra_size) = Some (ps - sizeof_page - k * hs).

Record linked_words (h : heap) (g : ABTI_mem_pool_global_pool) (P : gmap Z Z)
    (NE EM : list Z) (B : list (Z * list Z)) : Prop := {
  w_pages : linked (words h) (top_ptr (mem_page_lifo g)) (desc <$> NE);
  w_empty : elinked (words h) (p_mem_page_empty g) EM;
  w_desc b k : P !! b = Some k → desc_words h b k;
  w_buckets : linked (words h) (top_ptr (bucket_lifo g)) ((λ b, b.1 + off_bucket_info) <$> B);
  w_bucket b : b ∈ B → seg (words h) (elems b) ∧ Z.of_nat (length (elems b)) = n
}.

Definition same_cfg (g : ABTI_mem_pool_global_pool) : Prop :=
  header_size g = hs ∧ page_size g = ps ∧ header_offset g = off ∧
  num_headers_per_bucket g = n ∧ mprotect_config g = mc.

(** [P]: the pages and how many headers were cut from each; [NE], [EM], [D]: those with
    memory left, those without, one that is being cut; [B]: the buckets of the global pool;
    [X]: all other headers. *)
Record core (s : pool) (P : gmap Z Z) (NE EM D : list Z) (B : list (Z * list Z)) (X : list Z) : Prop := {
  c_cfg : same_cfg (gp s);
  c_geo : geo (hp s) P;
  c_words : linked_words (hp s) (gp s) P NE EM B;
  c_left b k : b ∈ NE → P !! b = Some k → (k + 1) * hs ≤ ps - sizeof_page;
  c_pages : NoDup (NE ++ EM ++ D) ∧ ∀ b, b ∈ NE ++ EM ++ D ↔ is_Some (P !! b);
  c_nodup : NoDup (blist B ++ X);
  c_hdr x : x ∈ blist B ++ X ↔ hdr P x
}.

(** The contents of the blocks [X] are the same. *)
Definition keeps (X : list Z) (s s' : pool) : Prop :=
  ∀ x a, x ∈ X → in_block x a → words (hp s') !! a = words (hp s) !! a.

Lemma keeps_refl X s : keeps X s s.
Proof. done. Qed.
Lemma keeps_trans X s1 s2 s3 : keeps X s1 s2 → keeps X s2 s3 → keeps X s1 s3.
Proof. intros H1 H2 x a Hx Ha. by rewrite (H2 x a), (H1 x a). Qed.
Lemma keeps_sub X Y s s' : (∀ x, x ∈ X → x ∈ Y) → keeps Y s s' → keeps X s s'.
Proof. intros Hs H x a Hx. apply H. auto. Qed.

Lemma in_block_words x : in_block x x ∧ in_block x (x + off_bucket_info).
Proof. pose proof sizes. unfold in_block, off_bucket_info. lia. Qed.

(** *** What the words of the pool depend on *)

Lemma seg_frame w w' l : (∀ x, x ∈ l → w' !! x = w !! x) → seg w l → seg w' l.
Proof. intros Hw Hs i x y Hx Hy. rewrite Hw; [by eapply Hs|]. by eapply list_elem_of_lookup_2. Qed.

Lemma elinked_frame w w' p bs :
  (∀ b, b ∈ bs → w' !! (desc b + off_p_next_empty_page) = w !! (desc b + off_p_next_empty_page)) →
  elinked w p bs → elinked w' p bs.
Proof.
  revert p. induction bs as [|b bs IH]; intros p Hw; [done|]. intros (-> & q & Hq & Hl).
  split; [done|]. exists q. rewrite Hw by (by left). split; [done|].
  apply IH; [|done]. intros b' Hb'. apply Hw. by right.
Qed.

Lemma elem_of_blist B b x : b ∈ B → x ∈ elems b → x ∈ blist B.
Proof. intros Hb Hx. apply list_elem_of_bind. by exists b. Qed.

Lemma linked_words_frame h h' g P NE EM B :
  live h' = live h →
  (∀ b, b ∈ NE → words h' !! desc b = words h !! desc b) →
  (∀ b, b ∈ EM → words h' !! (desc b + off_p_next_empty_page) = words h !! (desc b + off_p_next_empty_page)) →
  (∀ b i, is_Some (P !! b) → 16 ≤ i ≤ 48 → words h' !! (desc b + i) = words h !! (desc b + i)) →
  (∀ x, x ∈ blist B → words h' !! x = words h !! x ∧
                      words h' !! (x + off_bucket_info) = words h !! (x + off_bucket_info)) →
  linked_words h g P NE EM B → linked_words h' g P NE EM B.
Proof.
  intros Hl Hne Hem Hd Hx I. split.
  - eapply linked_frame; [|apply (w_pages _ _ _ _ _ _ I)].
    intros x (b & -> & Hb)%list_elem_of_fmap. by apply Hne.
  - eapply elinked_frame; [|apply (w_empty _ _ _ _ _ _ I)]. done.
  - intros b k Hb. pose proof (w_desc _ _ _ _ _ _ I b k Hb) as HI.
    assert (Hd' : ∀ i, 16 ≤ i ≤ 48 → words h' !! (desc b + i) = words h !! (desc b + i)).
    { intros i. apply Hd. by eexists. }
    unfold desc_words, off_mem, off_page_size, off_lp_type, off_p_mem_extra, off_mem_extra_size in *.
    rewrite Hl, !Hd' by lia. done.
  - eapply linked_frame; [|apply (w_buckets _ _ _ _ _ _ I)].
    intros x (b & -> & Hb)%list_elem_of_fmap. apply Hx. eapply elem_of_blist; [done|by left].
  - intros b Hb. destruct (w_bucket _ _ _ _ _ _ I b Hb) as [H1 H2]. split; [|done].
    eapply seg_frame; [|done]. intros x Hxb. apply Hx. by eapply elem_of_blist.
Qed.

(** *** One word changes *)

Definition upd (s : pool) (a v : Z) : pool :=
  Pool (set_words (<[a := v]> (words (hp s))) (hp s)) (gp s).

Lemma wp_st a v Q s :
  in_region (hp s) a → guarded (hp s) a = false → Q () (upd s a v) → wp (st a v) Q s.
Proof.
  intros H1 H2 HQ. unfold wp, mem_op, zoom, store.
  by rewrite (proj2 (mapped_spec _ _) H1), H2.
Qed.
Lemma wp_ld a v Q s :
  in_region (hp s) a → words (hp s) !! a = Some v → Q v s → wp (ld a) Q s.
Proof.
  intros H1 H2 HQ. unfold wp, mem_op, zoom, load.
  rewrite (proj2 (mapped_spec _ _) H1), H2. by destruct s.
Qed.

Lemma geo_upd s a v P : geo (hp s) P → geo (hp (upd s a v)) P.
Proof. intros G. split; [apply G..| |]; [apply (geo_guard _ _ G)|apply (geo_off _ _ G)]. Qed.

Lemma block_ne h P x y a a' :
  geo h P → hdr P x → hdr P y → x ≠ y → in_block x a → in_block y a' → a ≠ a'.
Proof.
  intros G Hx Hy Hne. unfold in_block. pose proof sizes.
  destruct (blocks_apart _ _ _ _ G Hx Hy Hne); lia.
Qed.
Lemma block_desc_ne h P x b a i :
  geo h P → hdr P x → is_Some (P !! b) → in_block x a → 0 ≤ i ≤ 48 → a ≠ desc b + i.
Proof.
  intros G Hx Hb. unfold in_block. pose proof sizes.
  destruct (block_desc_apart _ _ _ _ G Hx Hb); unfold sizeof_page in *; lia.
Qed.
Lemma desc_ne h P b b' i i' :
  geo h P → is_Some (P !! b) → is_Some (P !! b') → 0 ≤ i ≤ 48 → 0 ≤ i' ≤ 48 →
  b ≠ b' ∨ (i ≠ i') → desc b + i ≠ desc b' + i'.
Proof.
  intros G Hb Hb' Hi Hi' Hne. destruct (decide (b = b')) as [->|Hbb]; [naive_solver lia|].
  destruct (descs_apart _ _ _ _ G Hb Hb' Hbb); unfold sizeof_page in *; lia.
Qed.

Section core_lemmas.
Context (s : pool) (P : gmap Z Z) (NE EM D : list Z) (B : list (Z * list Z)) (X : list Z).
Context (I : core s P NE EM D B X).

Lemma core_X x : x ∈ X → hdr P x.
Proof. intros Hx. apply (c_hdr _ _ _ _ _ _ _ I). apply elem_of_app. by right. Qed.
Lemma core_B x : x ∈ blist B → hdr P x.
Proof. intros Hx. apply (c_hdr _ _ _ _ _ _ _ I). apply elem_of_app. by left. Qed.
Lemma core_BX x y : x ∈ blist B → y ∈ X → x ≠ y.
Proof.
  intros Hx Hy ->. pose proof (c_nodup _ _ _ _ _ _ _ I) as Hnd.
  apply list.NoDup_app in Hnd as (_ & Hd & _). by apply (Hd y).
Qed.
Lemma core_page b : b ∈ NE ∨ b ∈ EM ∨ b ∈ D → is_Some (P !! b).
Proof. intros Hb. apply (c_pages _ _ _ _ _ _ _ I). rewrite !elem_of_app. done. Qed.
Lemma core_D b : b ∈ D → (b ∉ NE) ∧ (b ∉ EM).
Proof.
  intros Hb. destruct (c_pages _ _ _ _ _ _ _ I) as [Hnd _].
  apply list.NoDup_app in Hnd as (_ & H1 & Hnd). apply list.NoDup_app in Hnd as (_ & H2 & _).
  split; [intros Hn; apply (H1 b Hn)|intros Hn; apply (H2 b Hn)]; rewrite ?elem_of_app; auto.
Qed.

(** A write into a block of [X]. *)
Lemma core_upd x a v : x ∈ X → in_block x a → core (upd s a v) P NE EM D B X.
Proof.
  intros Hx Ha. pose proof (core_X x Hx) as Hh. pose proof (c_geo _ _ _ _ _ _ _ I) as G.
  split; try apply I; [by apply geo_upd|].
  apply (linked_words_frame (hp s)); [done| | | | |apply I]; cbn.
  - intros b Hb. rewrite lookup_insert_ne; [done|]. rewrite <- (Z.add_0_r (desc b)).
    eapply block_desc_ne; [done..|apply core_page; auto|done|lia].
  - intros b Hb. rewrite lookup_insert_ne; [done|].
    eapply block_desc_ne; [done..|apply core_page; auto|done|unfold off_p_next_empty_page; lia].
  - intros b i Hb Hi. rewrite lookup_insert_ne; [done|]. eapply block_desc_ne; [done..|lia].
  - intros y Hy. pose proof (core_BX y x Hy Hx). destruct (in_block_words y) as [Y1 Y2].
    rewrite !lookup_insert_ne; [done|eapply (block_ne (hp s) P x y); try done; by apply core_B..].
Qed.

Lemma keeps_upd Y x a v :
  (∀ y, y ∈ Y → hdr P y ∧ y ≠ x) → hdr P x → in_block x a → keeps Y s (upd s a v).
Proof.
  intros HY Hx Ha y a' Hy Ha'. destruct (HY y Hy) as [H1 H2]. cbn.
  rewrite lookup_insert_ne; [done|].
  eapply (block_ne (hp s) P x y); [apply I|done..].
Qed.

(** A write into the links of a page that is in no list. *)
Lemma core_upd_desc b i v :
  b ∈ D → i = 0 ∨ i = off_p_next_empty_page → core (upd s (desc b + i) v) P NE EM D B X.
Proof.
  intros Hb Hi. pose proof (c_geo _ _ _ _ _ _ _ I) as G.
  assert (Hbs : is_Some (P !! b)) by (apply core_page; auto).
  destruct (core_D b Hb) as [H1 H2]. unfold off_p_next_empty_page in *.
  split; try apply I; [by apply geo_upd|].
  apply (linked_words_frame (hp s)); [done| | | | |apply I]; cbn; unfold off_p_next_empty_page.
  - intros b' Hb'. rewrite lookup_insert_ne; [done|]. rewrite <- (Z.add_0_r (desc b')).
    eapply desc_ne; [done|done|apply core_page; auto|lia|lia|left; by intros ->].
  - intros b' Hb'. rewrite lookup_insert_ne; [done|].
    eapply desc_ne; [done|done|apply core_page; auto|lia|lia|left; by intros ->].
  - intros b' i' Hb' Hi'. rewrite lookup_insert_ne; [done|].
    eapply desc_ne; [done|done|done|lia|lia|right; lia].
  - intros y Hy. pose proof (core_B y Hy) as Hh. destruct (in_block_words y) as [Y1 Y2].
    rewrite !lookup_insert_ne; [done| |];
      apply not_eq_sym; (eapply block_desc_ne; [done..|lia]).
Qed.

Lemma keeps_upd_desc b i v Y :
  is_Some (P !! b) → 0 ≤ i ≤ 48 → (∀ y, y ∈ Y → hdr P y) → keeps Y s (upd s (desc b + i) v).
Proof.
  intros Hb Hi HY y a Hy Ha. cbn. rewrite lookup_insert_ne; [done|]. apply not_eq_sym.
  eapply block_desc_ne; [apply I|by apply HY|done..].
Qed.

Lemma wp_st_own x a v Q :
  x ∈ X → a = x ∨ a = x + off_bucket_info → Q () (upd s a v) → wp (st a v) Q s.
Proof.
  intros Hx Ha HQ. destruct (header_writable (hp s) P x a) as [H1 H2];
    [apply I|by apply core_X|done|]. by apply wp_st.
Qed.
Lemma wp_ld_own x a v Q :
  x ∈ X → a = x ∨ a = x + off_bucket_info → words (hp s) !! a = Some v → Q v s → wp (ld a) Q s.
Proof.
  intros Hx Ha Hw HQ. destruct (header_writable (hp s) P x a) as [H1 _];
    [apply I|by apply core_X|done|]. by eapply wp_ld.
Qed.
Lemma core_perm X' : X ≡ₚ X' → core s P NE EM D B X'.
Proof.
  intros HX. split; try apply I.
  - rewrite <- HX. apply (c_nodup _ _ _ _ _ _ _ I).
  - intros x. rewrite <- HX. apply (c_hdr _ _ _ _ _ _ _ I).
Qed.
End core_lemmas.
(** *** Buckets *)

Definition same_rest (s s' : pool) : Prop :=
  partial_bucket (gp s') = partial_bucket (gp s) ∧
  partial_bucket_lock (gp s') = partial_bucket_lock (gp s).

Lemma same_rest_trans s1 s2 s3 : same_rest s1 s2 → same_rest s2 s3 → same_rest s1 s3.
Proof. unfold same_rest. intros [-> ->] [-> ->]. done. Qed.

Lemma wp_zoom {S T A} (view : S → T) (update : T → S → S) (m : C T A) Q s :
  wp m (λ a t, Q a (update t s)) (view s) → wp (zoom view update m) Q s.
Proof. unfold wp, zoom. by destruct (m (view s)) as [[a t]|]. Qed.

Lemma wp_push e Q h lf :
  in_region h e → guarded h e = false →
  Q () (set_words (<[e := top_ptr lf]> (words h)) h, SyncLifo e (u64 (top_tag lf + 1))) →
  wp (ABTI_sync_lifo_push e) Q (h, lf).
Proof.
  intros H1 H2 HQ. unfold wp. rewrite push_alone. unfold ABTI_sync_lifo_push_unsafe.
  erewrite C_bind_Done; [exact HQ|]. unfold store. by rewrite (proj2 (mapped_spec _ _) H1), H2.
Qed.

Lemma wp_pop l Q h lf :
  linked (words h) (top_ptr lf) l → (∀ e, e ∈ l → in_region h e) →
  match l with
  | [] => Q 0 (h, lf)
  | e :: l' => ∀ lf', linked (words h) (top_ptr lf') l' → Q e (h, lf')
  end → wp ABTI_sync_lifo_pop Q (h, lf).
Proof.
  intros Hl Hr HQ. unfold wp. rewrite pop_alone. unfold ABTI_sync_lifo_pop_unsafe.
  destruct l as [|e l']; cbn [linked] in Hl.
  - by rewrite Hl.
  - destruct Hl as (-> & He & nx & Hn & Hl). rewrite (proj2 (Z.eqb_neq _ _) He).
    erewrite C_bind_Done.
    2: { unfold load. rewrite (proj2 (mapped_spec _ _)), Hn; [done|]. apply Hr. by left. }
    cbn. apply HQ. done.
Qed.

Lemma blist_cons x l B X : blist ((x, l) :: B) ++ X ≡ₚ blist B ++ x :: l ++ X.
Proof. unfold blist. cbn. change (x :: l ++ (B ≫= elems)) with ((x :: l) ++ (B ≫= elems)).
  change (x :: l ++ X) with ((x :: l) ++ X). solve_Permutation. Qed.

Lemma wp_return_bucket s P NE EM D B X x l Q :
  core s P NE EM D B (x :: l ++ X) → seg (words (hp s)) (x :: l) →
  Z.of_nat (length (x :: l)) = n →
  (∀ s', core s' P NE EM D ((x, l) :: B) X → keeps X s s' → same_rest s s' → Q () s') →
  wp (ABTI_mem_pool_return_bucket x) Q s.
Proof.
  intros I Hseg Hlen HQ. pose proof (c_geo _ _ _ _ _ _ _ I) as G.
  assert (Hx : hdr P x) by (eapply core_X; [done|]; by left).
  destruct (header_writable (hp s) P x (x + off_bucket_info)) as [H1 H2]; [done|done|by right|].
  apply wp_zoom. cbn. apply wp_push; [done|done|]. cbn. apply HQ; [|..|done].
  - pose proof (core_upd _ _ _ _ _ _ _ I x (x + off_bucket_info) (top_ptr (bucket_lifo (gp s))))
      as I'. specialize (I' (list_elem_of_here _ _) (proj2 (in_block_words x))).
    assert (Hnd : x ∉ l).
    { pose proof (c_nodup _ _ _ _ _ _ _ I) as Hnd. apply list.NoDup_app in Hnd as (_ & _ & Hnd).
      apply NoDup_cons in Hnd as [Hnd _]. intros Hin. apply Hnd. apply elem_of_app. by left. }
    assert (Hseg' : seg (words (hp (upd s (x + off_bucket_info) (top_ptr (bucket_lifo (gp s))))))
                        (x :: l)).
    { eapply seg_frame; [|done]. intros y Hy. cbn. rewrite lookup_insert_ne; [done|].
      assert (hdr P y).
      { eapply core_X; [done|]. apply elem_of_cons in Hy as [->|Hy]; [by left|].
        right. apply elem_of_app. by left. }
      destruct (decide (x = y)) as [->|Hne]; [unfold off_bucket_info; lia|].
      apply (block_ne (hp s) P x y); [done..| |]; apply in_block_words. }
    destruct I' as [I1 I2 I3 I4 I5 I6 I7]. split; try done.
    + destruct I3 as [J1 J2 J3 J4 J5]. split; try done.
      * cbn. split; [done|]. split.
        { destruct (block_bounds _ _ _ G Hx) as (b & k & _ & ? & _ & ?).
          pose proof sizes. unfold off_bucket_info. lia. }
        exists (top_ptr (bucket_lifo (gp s))). split; [by rewrite lookup_insert_eq|done].
      * intros b [->|Hb]%elem_of_cons; [done|by apply J5].
    + by rewrite blist_cons.
    + intros y. rewrite blist_cons. apply I7.
  - change (keeps X s (upd s (x + off_bucket_info) (top_ptr (bucket_lifo (gp s))))).
    eapply keeps_upd; [done| |done|apply in_block_words].
    intros y Hy. split; [eapply core_X; [done|]; right; apply elem_of_app; by right|].
    intros ->. pose proof (c_nodup _ _ _ _ _ _ _ I) as Hnd.
    apply list.NoDup_app in Hnd as (_ & _ & Hnd). apply NoDup_cons in Hnd as [Hnd _].
    apply Hnd. apply elem_of_app. by right.
Qed.

Lemma wp_pop_bucket s P NE EM D B X Q :
  core s P NE EM D B X →
  match B with
  | [] => ∀ s', core s' P NE EM D [] X → keeps X s s' → same_rest s s' → Q 0 s'
  | (x, l) :: B' => ∀ s', core s' P NE EM D B' (x :: l ++ X) → seg (words (hp s')) (x :: l) →
      Z.of_nat (length (x :: l)) = n → keeps (x :: l ++ X) s s' → same_rest s s' →
      Q (x + off_bucket_info) s'
  end → wp (on_bucket_lifo ABTI_sync_lifo_pop) Q s.
Proof.
  intros I HQ. pose proof (c_geo _ _ _ _ _ _ _ I) as G. apply wp_zoom. cbn.
  eapply wp_pop; [apply (w_buckets _ _ _ _ _ _ (c_words _ _ _ _ _ _ _ I))|..].
  - intros e (b & -> & Hb)%list_elem_of_fmap.
    apply (header_writable (hp s) P b.1); [done| |by right].
    eapply core_B; [done|]. eapply elem_of_blist; [done|by left].
  - destruct B as [|[x l] B']; cbn [fmap list_fmap].
    + apply HQ; [|done..]. destruct I as [I1 I2 I3 I4 I5 I6 I7]. split; try done.
      by destruct I3.
    + intros lf' Hl. destruct (w_bucket _ _ _ _ _ _ (c_words _ _ _ _ _ _ _ I) (x, l)) as [Hs Hn];
        [by left|]. apply HQ; [|done..].
      destruct I as [I1 I2 I3 I4 I5 I6 I7]. split; try done.
      * destruct I3 as [J1 J2 J3 J4 J5]. split; try done. intros b Hb. apply J5. by right.
      * by rewrite <- blist_cons.
      * intros y. rewrite <- blist_cons. apply I7.
Qed.

(** *** Pages *)

(** The pages change lists, and the global pool with them. *)
Lemma core_pages_move s g h P NE EM D B X NE' EM' D' :
  same_cfg g → geo h P → NE ++ EM ++ D ≡ₚ NE' ++ EM' ++ D' →
  (∀ b k, b ∈ NE' → P !! b = Some k → (k + 1) * hs ≤ ps - sizeof_page) →
  linked_words h g P NE' EM' B →
  core s P NE EM D B X → core (Pool h g) P NE' EM' D' B X.
Proof.
  intros Hg Hgeo HP Hl Hw [I1 I2 I3 I4 [I5 I6] I7 I8]. split; try done.
  rewrite <- HP. split; [done|]. intros b. rewrite <- HP. apply I6.
Qed.

Lemma wp_pop_page s P NE EM B X Q :
  core s P NE EM [] B X →
  match NE with
  | [] => ∀ s', core s' P [] EM [] B X → keeps X s s' → same_rest s s' → Q 0 s'
  | b :: NE' => ∀ s' k, core s' P NE' EM [b] B X → P !! b = Some k →
      (k + 1) * hs ≤ ps - sizeof_page → keeps X s s' → same_rest s s' → Q (desc b) s'
  end → wp (on_page_lifo ABTI_sync_lifo_pop) Q s.
Proof.
  intros I HQ. pose proof (c_geo _ _ _ _ _ _ _ I) as G. apply wp_zoom. cbn.
  eapply wp_pop; [apply (w_pages _ _ _ _ _ _ (c_words _ _ _ _ _ _ _ I))|..].
  - intros e (b & -> & Hb)%list_elem_of_fmap. rewrite <- (Z.add_0_r (desc b)).
    apply (desc_writable (hp s) P); [done|eapply core_page; [done|by left]|lia|done].
  - destruct NE as [|b NE']; cbn [fmap list_fmap].
    + apply HQ; [|done..]. apply (core_pages_move s _ _ P [] EM [] B X); try done; try apply I.
      by destruct (c_words _ _ _ _ _ _ _ I).
    + intros lf' Hl. assert (is_Some (P !! b)) as [k Hk].
      { eapply core_page; [done|left; by left]. }
      apply (HQ _ k); [|done|eapply (c_left _ _ _ _ _ _ _ I); [by left|done]|done..].
      destruct (c_words _ _ _ _ _ _ _ I) as [J1 J2 J3 J4 J5].
      apply (core_pages_move s _ _ P (b :: NE') EM [] B X); try done; try apply I.
      * rewrite app_nil_r. cbn. by rewrite app_assoc, (Permutation_cons_append (NE' ++ EM)).
      * intros b' k' Hb'. apply (c_left _ _ _ _ _ _ _ I). by right.
Qed.

(** A page that is used goes to one of the two lists. *)
Lemma wp_put_page s P NE EM B X b k Q :
  core s P NE EM [b] B X → P !! b = Some k →
  (∀ s' NE' EM', core s' P NE' EM' [] B X → keeps X s s' → same_rest s s' → Q () s') →
  wp (put_page (desc b)) Q s.
Proof.
  intros I Hk HQ. pose proof (c_geo _ _ _ _ _ _ _ I) as G. pose proof (c_words _ _ _ _ _ _ _ I) as W.
  assert (Hb : is_Some (P !! b)) by (by eexists).
  assert (HX : ∀ y, y ∈ X → hdr P y) by (intros y; by eapply core_X).
  destruct (w_desc _ _ _ _ _ _ W b k Hk) as (_ & _ & _ & _ & Hext).
  destruct (geo_base _ _ G b k Hk) as (Hb0 & _). pose proof sizes as Hsz.
  assert (Hd0 : desc b ≠ 0) by (unfold desc, sizeof_page; lia).
  unfold put_page. apply wp_bind. cbn. apply wp_bind.
  eapply wp_ld; [apply (desc_writable (hp s) P b); [done|done|by unfold off_mem_extra_size|done]|done|].
  destruct (c_cfg _ _ _ _ _ _ _ I) as (-> & _).
  destruct (hs <=? ps - sizeof_page - k * hs) eqn:Ele.
  - destruct (desc_writable (hp s) P b 0) as [H1 H2]; [done..|]. rewrite Z.add_0_r in H1, H2.
    apply wp_zoom. cbn. apply wp_push; [done|done|]. cbn.
    pose proof (core_upd_desc _ _ _ _ _ _ _ I b 0 (top_ptr (mem_page_lifo (gp s)))
      (list_elem_of_here _ _) (or_introl eq_refl)) as I'.
    rewrite Z.add_0_r in I'. apply (HQ _ (b :: NE) EM); [|..|done].
    + apply (core_pages_move (upd s (desc b) (top_ptr (mem_page_lifo (gp s)))) _ _ P NE EM [b] B X);
        try done; try apply I'.
      * rewrite app_nil_r. cbn. by rewrite app_assoc, <- (Permutation_cons_append (NE ++ EM)).
      * intros b' k' [->|Hb']%elem_of_cons; [|by apply (c_left _ _ _ _ _ _ _ I)].
        intros Hk'. assert (k' = k) as -> by congruence. lia.
      * destruct (c_words _ _ _ _ _ _ _ I') as [J1 J2 J3 J4 J5]. split; try done.
        cbn. split; [done|]. split; [done|]. eexists. by rewrite lookup_insert_eq.
    + rewrite <- (Z.add_0_r (desc b)). eapply (keeps_upd_desc s); [done|done|lia|done].
  - destruct (desc_writable (hp s) P b 8) as [H1 H2]; [done..|].
    apply wp_bind. apply wp_st; [done|done|]. cbn.
    pose proof (core_upd_desc _ _ _ _ _ _ _ I b 8 (p_mem_page_empty (gp s))
      (list_elem_of_here _ _) (or_intror eq_refl)) as I'.
    apply (HQ _ NE (b :: EM)); [|..|done].
    + apply (core_pages_move (upd s (desc b + 8) (p_mem_page_empty (gp s))) _ _ P NE EM [b] B X);
        try done; try apply I'.
      * rewrite app_nil_r. by rewrite (Permutation_app_comm EM [b]).
      * destruct (c_words _ _ _ _ _ _ _ I') as [J1 J2 J3 J4 J5]. split; try done.
        cbn. split; [done|]. eexists. by rewrite lookup_insert_eq.
    + apply (keeps_upd_desc s P NE EM [b] B X I); try done.
Qed.

(** *** A new page *)

Lemma hdr_new_page P b x : P !! b = None → hdr (<[b := 0]> P) x ↔ hdr P x.
Proof.
  intros Hb. split; intros (b' & k & j & Hk & Hj & ->); exists b', k, j.
  - destruct (decide (b' = b)) as [->|]; [|by rewrite lookup_insert_ne in Hk].
    rewrite lookup_insert_eq in Hk. injection Hk as <-. lia.
  - split; [|done]. rewrite lookup_insert_ne; [done|]. intros ->. congruence.
Qed.

Lemma fresh_not_page h P b : geo h P → fresh_region h b ps → P !! b = None.
Proof.
  intros G (_ & _ & _ & Hf). apply eq_None_not_Some. intros Hs.
  apply (geo_live _ _ G) in Hs as [r Hr]. pose proof (geo_size _ _ G b r Hr) as Hsz.
  specialize (Hf b r Hr). rewrite Hsz in Hf. pose proof sizes.
  apply overlaps_false in Hf. lia.
Qed.

Lemma geo_new_page h P b ty :
  geo h P → fresh_region h b ps → geo (add_region b ps ty h) (<[b := 0]> P).
Proof.
  intros G F. pose proof (fresh_not_page _ _ _ G F) as Hb. pose proof sizes as Hsz.
  destruct F as (F1 & F2 & F3 & F4).
  assert (Hfar : ∀ b', is_Some (P !! b') → b + ps ≤ b' ∨ b' + ps ≤ b).
  { intros b' Hs. apply (geo_live _ _ G) in Hs as [r Hr]. pose proof (geo_size _ _ G b' r Hr) as Hr1.
    specialize (F4 b' r Hr). rewrite Hr1 in F4. apply overlaps_false in F4. lia. }
  split; cbn.
  - intros b'. destruct (decide (b' = b)) as [->|Hne].
    + rewrite !lookup_insert_eq. split; by eexists.
    + rewrite !lookup_insert_ne by done. apply (geo_live _ _ G).
  - intros b' r. destruct (decide (b' = b)) as [->|Hne].
    + rewrite lookup_insert_eq. by intros [= <-].
    + rewrite lookup_insert_ne by done. apply (geo_size _ _ G).
  - intros b' k. destruct (decide (b' = b)) as [->|Hne].
    + rewrite lookup_insert_eq. intros [= <-]. unfold sizeof_page. lia.
    + rewrite lookup_insert_ne by done. apply (geo_base _ _ G).
  - intros b1 b2. destruct (decide (b1 = b)) as [->|H1], (decide (b2 = b)) as [->|H2]; try done;
      rewrite ?lookup_insert_eq, ?lookup_insert_ne by done.
    + intros _ Hs _. by apply Hfar.
    + intros Hs _ _. destruct (Hfar b1 Hs); auto.
    + apply (geo_disj _ _ G).
  - intros g Hg. destruct (geo_guard _ _ G g Hg) as (x & Hx & Hr). exists x.
    by rewrite hdr_new_page.
  - apply (geo_off _ _ G).
Qed.

(** The state once the descriptor is written. *)
Definition new_page_state (s : pool) (b : Z) (ty : ABTU_MEM_LARGEPAGE_TYPE) : pool :=
  upd (upd (upd (upd (upd (Pool (add_region b ps ty (hp s)) (gp s))
    (desc b + off_mem) b) (desc b + off_page_size) ps) (desc b + off_lp_type) (lp_code ty))
    (desc b + off_p_mem_extra) b) (desc b + off_mem_extra_size) (ps - sizeof_page).

Lemma new_page_words s b ty a :
  overlaps a 8 b ps = false → words (hp (new_page_state s b ty)) !! a = words (hp s) !! a.
Proof.
  intros Ha. pose proof Ha as Ho. apply overlaps_false in Ho. pose proof sizes.
  unfold new_page_state, desc, sizeof_page, off_mem, off_page_size, off_lp_type, off_p_mem_extra,
    off_mem_extra_size. cbn [upd hp words set_words].
  rewrite !lookup_insert_ne by lia. by apply add_region_words.
Qed.

Lemma page_outside h P b b' a :
  geo h P → fresh_region h b ps → is_Some (P !! b') → b' ≤ a → a + 8 ≤ b' + ps →
  overlaps a 8 b ps = false.
Proof.
  intros G (_ & _ & _ & Hf) Hs H1 H2. apply (geo_live _ _ G) in Hs as [r Hr].
  pose proof (geo_size _ _ G b' r Hr) as Hsz. specialize (Hf b' r Hr). rewrite Hsz in Hf.
  apply overlaps_false in Hf. apply overlaps_false. lia.
Qed.

Lemma core_new_page s P NE EM B X b ty :
  core s P NE EM [] B X → fresh_region (hp s) b ps →
  core (new_page_state s b ty) (<[b := 0]> P) NE EM [b] B X ∧ keeps X s (new_page_state s b ty).
Proof.
  intros I F. pose proof (c_geo _ _ _ _ _ _ _ I) as G. pose proof sizes as Hsz.
  pose proof (fresh_not_page _ _ _ G F) as Hb.
  assert (Hpg : ∀ b' i, is_Some (P !! b') → 0 ≤ i ≤ 48 →
    words (hp (new_page_state s b ty)) !! (desc b' + i) = words (hp s) !! (desc b' + i)).
  { intros b' i Hb' Hi. apply new_page_words. eapply page_outside; [done..|unfold desc, sizeof_page; lia|].
    unfold desc, sizeof_page. lia. }
  assert (Hbl : ∀ x a, hdr P x → in_block x a →
    words (hp (new_page_state s b ty)) !! a = words (hp s) !! a).
  { intros x a Hx [Ha1 Ha2]. apply new_page_words.
    destruct (block_bounds _ _ _ G Hx) as (b' & k & Hk & ? & ? & _).
    eapply (page_outside _ _ _ b'); [done|done|by eexists|lia|unfold desc, sizeof_page in *; lia]. }
  split; [|intros x a Hx Ha; eapply Hbl; [eapply core_X; done|done]].
  destruct I as [I1 I2 [J1 J2 J3 J4 J5] I4 [I5 I6] I7 I8]. split.
  - done.
  - by do 5 apply geo_upd; apply geo_new_page.
  - split.
    + eapply linked_frame; [|apply J1]. intros x (b' & -> & Hb')%list_elem_of_fmap.
      rewrite <- (Z.add_0_r (desc b')). apply Hpg; [|lia]. apply I6. rewrite elem_of_app. auto.
    + eapply elinked_frame; [|apply J2]. intros b' Hb'. apply Hpg; [|by unfold off_p_next_empty_page].
      apply I6. rewrite !elem_of_app. auto.
    + intros b' k. destruct (decide (b' = b)) as [->|Hne].
      * rewrite lookup_insert_eq. intros [= <-]. unfold desc_words. rewrite Z.mul_0_l, Z.add_0_r, Z.sub_0_r.
        unfold new_page_state, off_mem, off_page_size, off_lp_type, off_p_mem_extra,
          off_mem_extra_size. cbn [upd hp words set_words live].
        repeat split; try (exists ty; split; [by cbn; rewrite lookup_insert_eq|]);
          rewrite ?lookup_insert_eq; [..|done];
          repeat (rewrite lookup_insert_ne by lia); by rewrite lookup_insert_eq.
      * rewrite lookup_insert_ne by done. intros Hk.
        pose proof (J3 b' k Hk) as Hd. unfold desc_words, off_mem, off_page_size, off_lp_type,
          off_p_mem_extra, off_mem_extra_size in *.
        rewrite !Hpg by (by eexists || lia). cbn [new_page_state upd hp set_words live add_region].
        by rewrite lookup_insert_ne.
    + eapply linked_frame; [|apply J4]. intros x (c & -> & Hc)%list_elem_of_fmap.
      apply (Hbl c.1); [|apply in_block_words]. apply I8, elem_of_app. left.
      eapply elem_of_blist; [done|by left].
    + intros c Hc. destruct (J5 c Hc) as [S1 S2]. split; [|done].
      eapply seg_frame; [|done]. intros x Hx. apply (Hbl x); [|apply in_block_words].
      apply I8, elem_of_app. left. by eapply elem_of_blist.
  - intros b' k Hb'. assert (Hbs : is_Some (P !! b')) by (apply I6, elem_of_app; auto).
    rewrite lookup_insert_ne by (intros ->; rewrite Hb in Hbs; by destruct Hbs). by apply I4.
  - rewrite app_nil_r in I5, I6. rewrite app_assoc. split.
    + apply list.NoDup_app. split; [done|]. split; [|apply NoDup_singleton].
      intros b' Hb' ->%list_elem_of_singleton. apply I6 in Hb'. rewrite Hb in Hb'. by destruct Hb'.
    + intros b'. rewrite elem_of_app, I6, list_elem_of_singleton.
      destruct (decide (b' = b)) as [->|]; [rewrite lookup_insert_eq|rewrite lookup_insert_ne by done].
      * split; [by eexists|by right].
      * naive_solver.
  - done.
  - intros x. rewrite I8. by rewrite hdr_new_page.
Qed.

Lemma wp_get_page s P NE EM B X Q :
  core s P NE EM [] B X →
  (∀ s' e, e ≠ ABT_SUCCESS → core s' P NE EM [] B X → keeps X s s' → same_rest s s' → Q (inl e) s') →
  (∀ s' P' NE' b k, core s' P' NE' EM [b] B X → P' !! b = Some k →
     (k + 1) * hs ≤ ps - sizeof_page → (∀ x, hdr P' x ↔ hdr P x) →
     keeps X s s' → same_rest s s' → Q (inr (desc b)) s') →
  wp (get_page o) Q s.
Proof.
  intros I Herr Hok. unfold get_page. apply wp_bind. eapply wp_pop_page; [done|].
  destruct NE as [|b NE'].
  - intros s1 I1 K1 R1. cbn. apply wp_bind. cbn. destruct (c_cfg _ _ _ _ _ _ _ I1) as (_ & Eps & _).
    rewrite Eps. apply wp_bind. apply wp_zoom. apply wp_alloc_largepage; [done|..].
    + cbn. apply (Herr _ ABT_ERR_MEM); [done| |by destruct s1..]. by destruct s1.
    + intros ty b F. cbn. destruct (core_new_page _ _ _ _ _ _ b ty I1 F) as [I2 K2].
      pose proof (geo_new_page (hp s1) P b ty (c_geo _ _ _ _ _ _ _ I1) F) as G.
      assert (Hbs : is_Some (<[b := 0]> P !! b)) by (rewrite lookup_insert_eq; by eexists).
      assert (Hwr : ∀ (h : heap) i, live h = live (add_region b ps ty (hp s1)) →
         guards h = guards (add_region b ps ty (hp s1)) → 0 ≤ i ≤ 48 → i mod 8 = 0 →
         in_region h (desc b + i) ∧ guarded h (desc b + i) = false).
      { intros h i Hl Hg Hi Hi8. apply (desc_writable h (<[b := 0]> P)); [|done..].
        destruct G as [G1 G2 G3 G4 G5 G6]. split; rewrite ?Hl, ?Hg; done. }
      fold (desc b). do 5 (apply wp_bind; apply wp_st; [by apply Hwr|by apply Hwr|]).
      apply wp_ret. rewrite u64_small by (pose proof sizes; pose proof (geo_base _ _ G b 0
        (lookup_insert_eq _ _ _)); unfold sizeof_page in *; lia).
      apply (Hok _ (<[b := 0]> P) [] b 0); [done|by rewrite lookup_insert_eq| | | |].
      * pose proof sizes. unfold sizeof_page. lia.
      * intros x. apply hdr_new_page. by eapply fresh_not_page; [apply I1|].
      * by eapply keeps_trans.
      * by destruct R1.
  - intros s1 k I1 Hk Hleft K1 R1.
    destruct (geo_base _ _ (c_geo _ _ _ _ _ _ _ I1) b k Hk) as (Hb0 & _). pose proof sizes.
    rewrite (proj2 (Z.eqb_neq (desc b) 0)) by (unfold desc, sizeof_page; lia).
    apply wp_ret. by apply (Hok s1 P NE' b k).
Qed.

(** *** Cutting headers from a page *)

Definition new_list (b k m : Z) : list Z := nth_header b <$> seqZ k m.

Lemma elem_of_new b k m x : x ∈ new_list b k m ↔ ∃ j, x = nth_header b j ∧ k ≤ j < k + m.
Proof.
  unfold new_list. rewrite list_elem_of_fmap. split; intros (j & -> & Hj); exists j;
    (split; [done|]); by apply elem_of_seqZ.
Qed.

Lemma NoDup_new b k m : NoDup (new_list b k m).
Proof.
  unfold new_list. apply NoDup_fmap_2_strong; [|apply NoDup_seqZ].
  intros x y _ _. unfold nth_header. pose proof sizes. nia.
Qed.

Lemma hdr_cut P b k m x :
  P !! b = Some k → 0 ≤ k → 0 ≤ m → hdr (<[b := k + m]> P) x ↔ x ∈ new_list b k m ∨ hdr P x.
Proof.
  intros Hk H0 Hm. split.
  - intros (b' & k' & j & Hk' & Hj & ->). destruct (decide (b' = b)) as [->|Hne].
    + rewrite lookup_insert_eq in Hk'. injection Hk' as <-.
      destruct (decide (j < k)); [right; exists b, k, j; auto with lia|left].
      apply elem_of_new. exists j. auto with lia.
    + rewrite lookup_insert_ne in Hk' by done. right. by exists b', k', j.
  - intros [(j & -> & Hj)%elem_of_new|(b' & k' & j & Hk' & Hj & ->)].
    + exists b, (k + m), j. rewrite lookup_insert_eq. split; [done|]. split; [lia|done].
    + destruct (decide (b' = b)) as [->|Hne].
      * exists b, (k + m), j. rewrite lookup_insert_eq. assert (k' = k) by congruence.
        split; [done|]. split; [lia|done].
      * exists b', k', j. by rewrite lookup_insert_ne.
Qed.

Lemma new_not_hdr h P b k m x :
  geo h P → P !! b = Some k → (k + m) * hs ≤ ps - sizeof_page → x ∈ new_list b k m → ¬ hdr P x.
Proof.
  intros G Hk Hm (j & -> & Hj)%elem_of_new Hx.
  destruct (geo_base _ _ G b k Hk) as (_ & _ & _ & Hk0 & _). pose proof sizes as Hsz.
  destruct Hx as (b' & k' & j' & Hk' & Hj' & E).
  pose proof (nth_bounds _ _ _ _ _ G Hk' Hj') as Hnb. rewrite <- E in Hnb.
  destruct (decide (b' = b)) as [->|Hne].
  - assert (k' = k) by congruence. unfold nth_header in E. nia.
  - unfold nth_header, desc, sizeof_page in *.
    assert (0 ≤ j * hs ∧ (j + 1) * hs ≤ (k + m) * hs) by nia.
    destruct (geo_disj _ _ G b b') as [|]; [by eexists|by eexists|done|lia|lia].
Qed.

Lemma geo_cut h P b k m :
  geo h P → P !! b = Some k → 0 ≤ m → (k + m) * hs ≤ ps - sizeof_page → geo h (<[b := k + m]> P).
Proof.
  intros G Hk Hm Hle. destruct (geo_base _ _ G b k Hk) as (? & ? & ? & ? & ?).
  assert (Hs : ∀ b', is_Some (<[b := k + m]> P !! b') ↔ is_Some (P !! b')).
  { intros b'. destruct (decide (b' = b)) as [->|]; [|by rewrite lookup_insert_ne].
    rewrite lookup_insert_eq, Hk. split; by eexists. }
  split.
  - intros b'. rewrite Hs. apply (geo_live _ _ G).
  - apply (geo_size _ _ G).
  - intros b' k'. destruct (decide (b' = b)) as [->|].
    + rewrite lookup_insert_eq. intros [= <-]. repeat split; try done; lia.
    + rewrite lookup_insert_ne by done. apply (geo_base _ _ G).
  - intros b1 b2. rewrite !Hs. apply (geo_disj _ _ G).
  - intros g Hg. destruct (geo_guard _ _ G g Hg) as (x & Hx & Hr). exists x. split; [|done].
    apply hdr_cut; auto.
  - apply (geo_off _ _ G).
Qed.

Definition cut_state (s : pool) (b k : Z) : pool :=
  upd (upd s (desc b + off_p_mem_extra) (b + k * hs))
      (desc b + off_mem_extra_size) (ps - sizeof_page - k * hs).

Lemma cut_state_words s b k a :
  a ≠ desc b + off_p_mem_extra → a ≠ desc b + off_mem_extra_size →
  words (hp (cut_state s b k)) !! a = words (hp s) !! a.
Proof. intros H1 H2. cbn. by rewrite !lookup_insert_ne. Qed.

Lemma core_cut s P NE EM B X b k m :
  core s P NE EM [b] B X → P !! b = Some k → 0 ≤ m → (k + m) * hs ≤ ps - sizeof_page →
  core (cut_state s b (k + m)) (<[b := k + m]> P) NE EM [b] B (new_list b k m ++ X) ∧
  keeps X s (cut_state s b (k + m)).
Proof.
  intros I Hk Hm Hle. pose proof (c_geo _ _ _ _ _ _ _ I) as G.
  assert (Hb : is_Some (P !! b)) by (by eexists).
  destruct (geo_base _ _ G b k Hk) as (_ & _ & _ & Hk0 & _).
  assert (Hpg : ∀ b' i, is_Some (P !! b') → 0 ≤ i ≤ 48 → b' ≠ b ∨ (i ≤ 32) →
    words (hp (cut_state s b (k + m))) !! (desc b' + i) = words (hp s) !! (desc b' + i)).
  { intros b' i Hb' Hi Hne. unfold off_p_mem_extra, off_mem_extra_size.
    apply cut_state_words; unfold off_p_mem_extra, off_mem_extra_size;
      (eapply desc_ne; [done..|lia|destruct Hne; [by left|right; lia]]). }
  assert (Hbl : ∀ x a, hdr P x → in_block x a →
    words (hp (cut_state s b (k + m))) !! a = words (hp s) !! a).
  { intros x a Hx Ha. apply cut_state_words; (eapply block_desc_ne; [done..|];
      unfold off_p_mem_extra, off_mem_extra_size; lia). }
  split; [|intros x a Hx Ha; eapply Hbl; [by eapply core_X|done]].
  destruct (core_D _ _ _ _ _ _ _ I b) as [HbNE HbEM]; [by left|].
  pose proof (core_page _ _ _ _ _ _ _ I) as Hpage.
  destruct I as [I1 I2 [J1 J2 J3 J4 J5] I4 [I5 I6] I7 I8]. split.
  - done.
  - do 2 apply geo_upd. by apply geo_cut.
  - split.
    + eapply linked_frame; [|apply J1]. intros x (b' & -> & Hb')%list_elem_of_fmap.
      rewrite <- (Z.add_0_r (desc b')). apply Hpg; [apply Hpage; auto|lia|left; by intros ->].
    + eapply elinked_frame; [|apply J2]. intros b' Hb'. unfold off_p_next_empty_page.
      apply Hpg; [apply Hpage; auto|lia|right; lia].
    + intros b' k'. destruct (decide (b' = b)) as [->|Hne].
      * rewrite lookup_insert_eq. intros [= <-]. destruct (J3 b k Hk) as (W1 & W2 & W3 & _).
        unfold desc_words, off_mem, off_page_size, off_lp_type in *.
        rewrite !Hpg by (done || lia || (right; lia)). split; [done|]. split; [done|]. split; [done|].
        cbn. unfold off_p_mem_extra, off_mem_extra_size.
        rewrite lookup_insert_eq, lookup_insert_ne, lookup_insert_eq by lia. done.
      * rewrite lookup_insert_ne by done. intros Hk'. pose proof (J3 b' k' Hk') as Hd.
        unfold desc_words, off_mem, off_page_size, off_lp_type, off_p_mem_extra, off_mem_extra_size in *.
        rewrite !Hpg by (by eexists || lia || by left). done.
    + eapply linked_frame; [|apply J4]. intros x (c & -> & Hc)%list_elem_of_fmap.
      apply (Hbl c.1); [|apply in_block_words]. apply I8, elem_of_app. left.
      eapply elem_of_blist; [done|by left].
    + intros c Hc. destruct (J5 c Hc) as [S1 S2]. split; [|done].
      eapply seg_frame; [|done]. intros x Hx. apply (Hbl x); [|apply in_block_words].
      apply I8, elem_of_app. left. by eapply elem_of_blist.
  - intros b' k' Hb'. rewrite lookup_insert_ne by (by intros ->). by apply I4.
  - split; [done|]. intros b'. rewrite I6. destruct (decide (b' = b)) as [->|].
    + rewrite lookup_insert_eq, Hk. split; by eexists.
    + by rewrite lookup_insert_ne.
  - rewrite app_assoc, (Permutation_app_comm (blist B)), <- app_assoc. apply list.NoDup_app.
    split; [apply NoDup_new|]. split; [|done]. intros x Hx Hin. apply I8 in Hin.
    by eapply new_not_hdr.
  - intros x. rewrite hdr_cut by done. rewrite <- I8, !elem_of_app. naive_solver.
Qed.

Lemma wp_take_memory s P NE EM B X b k req Q :
  core s P NE EM [b] B X → P !! b = Some k → (k + 1) * hs ≤ ps - sizeof_page → 1 ≤ req →
  (∀ s' m, 1 ≤ m ≤ req → (k + m) * hs ≤ ps - sizeof_page →
     core s' (<[b := k + m]> P) NE EM [b] B (new_list b k m ++ X) →
     keeps X s s' → same_rest s s' → Q (b + k * hs, m) s') →
  wp (take_memory (desc b) req) Q s.
Proof.
  intros I Hk Hleft Hreq HQ. pose proof (c_geo _ _ _ _ _ _ _ I) as G. pose proof sizes as Hsz.
  assert (Hb : is_Some (P !! b)) by (by eexists).
  destruct (geo_base _ _ G b k Hk) as (Hb0 & _ & Hb64 & Hk0 & Hkps).
  destruct (w_desc _ _ _ _ _ _ (c_words _ _ _ _ _ _ _ I) b k Hk) as (_ & _ & _ & Hpe & Hes).
  unfold take_memory. apply wp_bind. cbn. destruct (c_cfg _ _ _ _ _ _ _ I) as (-> & _).
  apply wp_bind. eapply wp_ld; [by apply (desc_writable (hp s) P b)|done|].
  set (q := (ps - sizeof_page - k * hs) / hs).
  assert (Hq : 1 ≤ q < 2 ^ 31 ∧ (k + q) * hs ≤ ps - sizeof_page).
  { pose proof (ok_many _ _ _ _ _ Hcfg) as Hmany. unfold q, sizeof_page in *. split; [split|].
    - apply Z.div_le_lower_bound; lia.
    - apply Z.div_lt_upper_bound; nia.
    - pose proof (Z.mul_div_le (ps - 56 - k * hs) hs). lia. }
  rewrite (i32_small q) by lia.
  set (m := if req <? q then req else q).
  assert (Hm : 1 ≤ m ≤ req ∧ m ≤ q) by (unfold m; destruct (Z.ltb_spec req q); lia).
  assert (Hkm : (k + m) * hs ≤ ps - sizeof_page) by nia.
  apply wp_bind. unfold c_assert. rewrite (proj2 (Z.eqb_neq m 0)) by lia. cbn [negb]. apply wp_ret.
  apply wp_bind. eapply wp_ld; [by apply (desc_writable (hp s) P b)|done|].
  rewrite !u64_small by (unfold sizeof_page in *; nia).
  assert (Hw : ∀ s', live (hp s') = live (hp s) → guards (hp s') = guards (hp s) → ∀ i, 0 ≤ i ≤ 48 → i mod 8 = 0 →
    in_region (hp s') (desc b + i) ∧ guarded (hp s') (desc b + i) = false).
  { intros s' Hl Hg i Hi Hi8. apply (desc_writable (hp s') P); [|done..].
    destruct G as [G1 G2 G3 G4 G5 G6]. split; rewrite ?Hl, ?Hg; done. }
  do 2 (apply wp_bind; apply wp_st; [by apply Hw|by apply Hw|]). apply wp_ret.
  destruct (core_cut s P NE EM B X b k m I Hk ltac:(lia) Hkm) as [I' K'].
  replace (b + k * hs + hs * m) with (b + (k + m) * hs) by lia.
  replace (ps - sizeof_page - k * hs - hs * m) with (ps - sizeof_page - (k + m) * hs) by lia.
  apply HQ; [lia|done|done|done|done].
Qed.

(** *** Linking the new headers *)

Lemma core_guard s P NE EM D B X x a m :
  core s P NE EM D B X → enabled mc = true → hdr P x → x - off ≤ a → 0 < m → a + m ≤ x →
  (alignment mc | a) → core (Pool (Heap (words (hp s)) (live (hp s)) ((a, m) :: guards (hp s))) (gp s)) P NE EM D B X.
Proof.
  intros [I1 I2 I3 I4 I5 I6 I7] He Hx H1 H2 H3 H4. split; try done.
  - destruct I2 as [G1 G2 G3 G4 G5 G6]. split; try done; [|congruence].
    intros g [->|Hg]%elem_of_cons; [by exists x|by apply G5].
  - by destruct I3.
Qed.

Lemma wp_protect_header s P NE EM D B X x Q :
  core s P NE EM D B X → hdr P x →
  (∀ s', core s' P NE EM D B X → words (hp s') = words (hp s) → same_rest s s' → Q () s') →
  wp (protect_header o x) Q s.
Proof.
  intros I Hx HQ. destruct (c_cfg _ _ _ _ _ _ _ I) as (_ & _ & Eoff & _ & Emc).
  pose proof (c_geo _ _ _ _ _ _ _ I) as G. pose proof sizes as Hsz.
  unfold protect_header. apply wp_bind. cbn. rewrite Emc, Eoff.
  destruct (enabled mc) eqn:Een; [|by apply wp_ret, HQ].
  destruct (ok_guard _ _ _ _ _ Hcfg Een) as (Hmo & Hmp & (k & Hk & Hal) & Hfit).
  destruct (block_bounds _ _ _ G Hx) as (b & kb & Hb & Hx1 & Hx2 & Hb0).
  destruct (geo_base _ _ G b kb Hb) as (_ & _ & Hb64 & _).
  unfold desc, sizeof_page in *. apply wp_bind. unfold protect_memory. apply wp_zoom.
  unfold wp, ABTU_mprotect. unfold ABTU_roundup_ptr.
  assert (0 < 2 ^ k) by (apply Z.pow_pos_nonneg; lia).
  rewrite Hal in *. rewrite roundup_size_ceil by lia.
  destruct (ceil_pow2_spec k (x - off + mp_offset mc)) as [Hc Hd]; [lia|]. rewrite <- Hal in Hd.
  destruct (protects o (hp s) _ _ true) eqn:Ep.
  - cbn. assert (core (Pool (Heap (words (hp s)) (live (hp s))
      ((ceil_pow2 k (x - off + mp_offset mc), mp_page_size mc) :: guards (hp s))) (gp s)) P NE EM D B X)
      by (apply (core_guard s P NE EM D B X x); (done || lia)).
    destruct (check_error mc); cbn; by apply HQ.
  - cbn. destruct (check_error mc) eqn:Ece; [by rewrite Hprot in Ep|]. apply HQ; [|done..].
    by destruct s.
Qed.

(** [m] headers after [p] put in front of [acc]. *)
Fixpoint built (m : nat) (p : Z) (acc : list Z) : list Z :=
  match m with O => p :: acc | S m => built m (p + hs) (p :: acc) end.
Definition upto (m : nat) (p : Z) : list Z := (λ i, p + Z.of_nat i * hs) <$> seq 1 m.

Lemma built_head m p acc : ∃ l, built m p acc = (p + Z.of_nat m * hs) :: l.
Proof.
  revert p acc. induction m as [|m IH]; intros p acc.
  - exists acc. cbn. f_equal. lia.
  - destruct (IH (p + hs) (p :: acc)) as [l Hl]. exists l. cbn [built]. rewrite Hl. f_equal. lia.
Qed.

Lemma upto_S m p : upto (S m) p = (p + hs) :: upto m (p + hs).
Proof.
  unfold upto. cbn [seq fmap list_fmap]. f_equal; [lia|].
  rewrite <- (fmap_S_seq 1 m), <- list_fmap_compose. apply list_fmap_ext. intros i j _. cbn. lia.
Qed.

Lemma built_perm m p acc : built m p acc ≡ₚ upto m p ++ p :: acc.
Proof.
  revert p acc. induction m as [|m IH]; intros p acc; [done|].
  cbn [built]. rewrite IH, upto_S. cbn. by rewrite Permutation_middle.
Qed.

Lemma seg_cons w p acc :
  seg w acc → (∀ q l, acc = q :: l → w !! p = Some q) → seg w (p :: acc).
Proof.
  intros Hs Hp [|i] x y; cbn.
  - intros [= <-] Hy. destruct acc as [|q l]; [done|]. injection Hy as <-. by apply (Hp q l).
  - apply Hs.
Qed.

Lemma wp_link_headers P NE EM B X m s p acc Y Q :
  core s P NE EM [] B X → seg (words (hp s)) (p :: acc) →
  (∀ x, x ∈ upto m p → x ∈ X) → NoDup (upto m p ++ p :: acc) →
  (∀ y, y ∈ p :: acc → hdr P y) → (∀ y, y ∈ Y → hdr P y ∧ y ∉ upto m p) →
  (∀ s', core s' P NE EM [] B X → seg (words (hp s')) (built m p acc) → keeps Y s s' →
     same_rest s s' → Q (p + Z.of_nat m * hs) s') →
  wp (link_headers o m p) Q s.
Proof.
  revert s p acc Q. induction m as [|m IH]; intros s p acc Q I Hseg HX Hnd Hh HY HQ.
  - apply wp_ret. replace p with (p + Z.of_nat 0 * hs) at 1 by lia. by apply HQ.
  - cbn [link_headers]. apply wp_bind. cbn. destruct (c_cfg _ _ _ _ _ _ _ I) as (-> & _).
    rewrite upto_S in *. assert (Hx : p + hs ∈ X) by (apply HX; by left).
    pose proof (core_X _ _ _ _ _ _ _ I _ Hx) as Hxh.
    apply NoDup_app in Hnd as (Hnd1 & Hnd2 & Hnd3). apply NoDup_cons in Hnd1 as [Hn1 Hn2].
    apply wp_bind. eapply wp_st_own; [done|done|by left|].
    pose proof (core_upd _ _ _ _ _ _ _ I (p + hs) (p + hs) p Hx (proj1 (in_block_words _))) as I1.
    apply wp_bind. eapply wp_protect_header; [done|done|]. intros s2 I2 Ew2 R2.
    assert (Hseg2 : seg (words (hp s2)) (p + hs :: p :: acc)).
    { rewrite Ew2. apply seg_cons.
      - eapply seg_frame; [|done]. intros y Hy. cbn. rewrite lookup_insert_ne; [done|].
        intros <-. by apply (Hnd2 (p + hs)); [left|].
      - intros q l [= <- <-]. cbn. by rewrite lookup_insert_eq. }
    apply (IH s2 (p + hs) (p :: acc)); try done.
    + intros x Hx'. apply HX. by right.
    + apply NoDup_app. split; [done|]. split.
      * intros x Hx' [->|Hin]%elem_of_cons; [done|]. apply (Hnd2 x); [by right|done].
      * apply NoDup_cons. split; [|done]. apply Hnd2. by left.
    + intros y [->|Hy]%elem_of_cons; [done|by apply Hh].
    + intros y Hy. destruct (HY y Hy) as [H1 H2]. split; [done|]. intros Hin. apply H2. by right.
    + intros s3 I3 Hseg3 K3 R3.
      replace (p + hs + Z.of_nat m * hs) with (p + Z.of_nat (S m) * hs) by lia.
      apply HQ; [done|done| |by eapply same_rest_trans].
      eapply keeps_trans; [|done].
      assert (K1 : keeps Y s (upd s (p + hs) p)).
      { eapply keeps_upd; [done| |done|apply in_block_words]. intros y Hy.
        destruct (HY y Hy) as [H1 H2]. split; [done|]. intros ->. apply H2. by left. }
      intros y a Hy Ha. rewrite Ew2. by apply K1 with y.
Qed.

(** ** The partial bucket *)

Definition flist (F : option (Z * list Z)) : list Z :=
  match F with Some f => elems f | None => [] end.

(** Its count is never more than the headers it has. *)
Definition part (w : gmap Z Z) (p : Z) (F : option (Z * list Z)) : Prop :=
  match F with
  | None => p = 0
  | Some f => p = f.1 ∧ seg w (elems f) ∧ Z.of_nat (length (elems f)) ≤ n ∧
      ∃ c, w !! (f.1 + off_bucket_info) = Some c ∧ - n ≤ i32 c ≤ Z.of_nat (length (elems f))
  end.

Record inv (s : pool) (P : gmap Z Z) (NE EM : list Z) (B : list (Z * list Z))
    (F : option (Z * list Z)) (X : list Z) : Prop := {
  i_core : core s P NE EM [] B (flist F ++ X);
  i_lock : partial_bucket_lock (gp s) = false;
  i_part : part (words (hp s)) (partial_bucket (gp s)) F
}.

Lemma wp_follow s P NE EM D B X i : ∀ l p x Q,
  core s P NE EM D B X → (∀ y, y ∈ l → y ∈ X) → seg (words (hp s)) l →
  l !! 0%nat = Some p → l !! i = Some x → Q x s → wp (follow i p) Q s.
Proof.
  induction i as [|i IH]; intros l p x Q I HX Hseg H0 Hi HQ.
  - apply wp_ret. assert (x = p) as -> by congruence. done.
  - cbn [follow]. apply wp_bind. destruct l as [|p' l]; [done|]. injection H0 as ->.
    destruct l as [|q l]; [done|].
    eapply wp_ld_own; [done|apply HX; by left|by left|by apply (Hseg 0%nat p q)|].
    eapply (IH (q :: l)); [done| |intros j; apply (Hseg (S j))|done|done|done].
    intros y Hy. apply HX. by right.
Qed.

Lemma seg_link w l1 l2 y z :
  seg w l1 → seg w l2 → last l1 = Some y → head l2 = Some z → NoDup (l1 ++ l2) →
  seg (<[y := z]> w) (l1 ++ l2).
Proof.
  intros H1 H2 Hy Hz Hnd i a b Ha Hb.
  apply last_Some in Hy as [l1' ->]. destruct l2 as [|z' l2]; [done|]. injection Hz as ->.
  destruct (decide (a = y)) as [->|Hne].
  - assert (Hi : i = length l1').
    { eapply NoDup_lookup; [done|done|]. rewrite <- app_assoc. cbn. by apply list_lookup_middle. }
    subst i. rewrite lookup_insert_eq. rewrite <- app_assoc, lookup_app_r in Hb by lia.
    replace (S (length l1') - length l1')%nat with 1%nat in Hb by lia. cbn in Hb. congruence.
  - rewrite lookup_insert_ne by done.
    destruct (decide (S i < length (l1' ++ [y]))%nat) as [Hlt|Hge].
    + rewrite lookup_app_l in Ha, Hb by lia. by eapply H1.
    + rewrite length_app in Hge. cbn in Hge.
      assert (i ≠ length l1').
      { intros ->. apply Hne. rewrite <- app_assoc in Ha. cbn in Ha.
        rewrite list_lookup_middle in Ha by done. congruence. }
      rewrite lookup_app_r in Ha, Hb by (rewrite length_app; cbn; lia). rewrite length_app in Ha, Hb.
      cbn in Ha, Hb. eapply H2; [exact Ha|].
      by replace (S (i - (length l1' + 1)))%nat with (S i - (length l1' + 1))%nat by lia.
Qed.

Lemma seg_drop w l m : seg w l → seg w (drop m l).
Proof. intros H i x y. rewrite !lookup_drop, Nat.add_succ_r. apply H. Qed.
Lemma seg_take w l m : seg w l → seg w (take m l).
Proof. intros H i x y [Hx _]%lookup_take_Some [Hy _]%lookup_take_Some. by eapply H. Qed.

Lemma take_last {A} (l : list A) m x : l !! m = Some x → last (take (S m) l) = Some x.
Proof. intros H. by rewrite (take_S_r l m x), last_snoc. Qed.

Lemma i32_u64 z : - 2 ^ 31 ≤ z < 2 ^ 31 → i32 (u64 z) = z.
Proof.
  intros Hz. unfold i32, u64.
  rewrite <- Zplus_mod_idemp_l, Z.mod_mod_divide, Zplus_mod_idemp_l by (by exists (2 ^ 32)).
  rewrite Z.mod_small; lia.
Qed.

Lemma hdr_info_ne h P y z : geo h P → hdr P y → hdr P z → z + off_bucket_info ≠ y.
Proof.
  intros G Hy Hz. destruct (decide (z = y)) as [->|Hne]; [unfold off_bucket_info; lia|].
  apply (block_ne h P z y); [done..|apply in_block_words|apply in_block_words].
Qed.

(** Setting a count. *)
Lemma recount s P NE EM D B X z v :
  core s P NE EM D B X → z ∈ X →
  let s' := upd s (z + off_bucket_info) v in
  core s' P NE EM D B X ∧ words (hp s') !! (z + off_bucket_info) = Some v ∧
  (∀ y, y ∈ X → words (hp s') !! y = words (hp s) !! y) ∧
  (∀ Y, (∀ y, y ∈ Y → y ∈ X ∧ y ≠ z) → keeps Y s s').
Proof.
  intros I Hz s'. pose proof (core_X _ _ _ _ _ _ _ I) as HX.
  split; [by apply (core_upd _ _ _ _ _ _ _ I z), in_block_words|].
  split; [by apply lookup_insert_eq|]. split.
  - intros y Hy. cbn. rewrite lookup_insert_ne; [done|]. eapply hdr_info_ne; [apply I|auto..].
  - intros Y HY. eapply keeps_upd; [exact I| |by apply HX|apply in_block_words].
    intros y Hy. destruct (HY y Hy). auto.
Qed.

(** The headers [x :: bl] behind the first [S m] of the headers [L]. *)
Lemma relink s P NE EM B L m y x bl X :
  core s P NE EM [] B (L ++ x :: bl ++ X) → seg (words (hp s)) L → seg (words (hp s)) (x :: bl) →
  L !! m = Some y →
  let s' := upd s y x in
  core s' P NE EM [] B (L ++ x :: bl ++ X) ∧ seg (words (hp s')) (take (S m) L ++ x :: bl) ∧
  seg (words (hp s')) (drop (S m) L) ∧ keeps X s s'.
Proof.
  intros I H1 H2 Hy s'. assert (HyL : y ∈ L) by (by eapply list_elem_of_lookup_2).
  assert (HyX : y ∈ L ++ x :: bl ++ X) by (apply elem_of_app; by left).
  pose proof (c_nodup _ _ _ _ _ _ _ I) as Hnd. apply list.NoDup_app in Hnd as (_ & _ & Hnd).
  split; [by apply (core_upd _ _ _ _ _ _ _ I y), in_block_words|]. split; [|split].
  - apply seg_link; [by apply seg_take|done|by apply take_last|done|].
    eapply sublist_NoDup; [exact Hnd|]. apply sublist_app; [apply sublist_take|].
    rewrite app_comm_cons. by apply sublist_inserts_r.
  - eapply seg_frame; [|by apply seg_drop]. intros z (j & Hj)%list_elem_of_lookup. cbn.
    rewrite lookup_insert_ne; [done|]. intros <-. rewrite lookup_drop in Hj.
    apply list.NoDup_app in Hnd as (Hnd & _). pose proof (NoDup_lookup L _ _ _ Hnd Hy Hj). lia.
  - eapply keeps_upd; [exact I| |eapply core_X; done|apply in_block_words].
    intros z Hz. split; [eapply core_X; [done|]; rewrite app_comm_cons, !app_assoc; apply elem_of_app; by right|].
    apply list.NoDup_app in Hnd as (_ & Hnd & _). intros ->. apply (Hnd y HyL).
    right. apply elem_of_app. by right.
Qed.

(** [bucket]: headers [x :: bl] that do not fill a bucket. *)
Lemma wp_append_partial s P NE EM B f fl x bl X np Q :
  core s P NE EM [] B ((f :: fl) ++ x :: bl ++ X) → partial_bucket (gp s) = f →
  seg (words (hp s)) (f :: fl) → seg (words (hp s)) (x :: bl) →
  - n ≤ np ≤ Z.of_nat (length (f :: fl)) →
  Z.of_nat (length (x :: bl)) < n → np + Z.of_nat (length (x :: bl)) < n →
  (∀ s' F' lost, core s' P NE EM [] B (flist F' ++ lost ++ X) →
     part (words (hp s')) (partial_bucket (gp s')) F' → keeps X s s' → same_rest s s' → Q () s') →
  wp (append_partial x np (Z.of_nat (length (x :: bl)))) Q s.
Proof.
  intros I Hp Hs1 Hs2 Hnp Hnb Hlt HQ. set (nb := Z.of_nat (length (x :: bl))) in *.
  set (m := Z.to_nat (np - 1)).
  assert (Hm : (m < length (f :: fl))%nat) by (unfold m; cbn in *; lia).
  destruct (lookup_lt_is_Some_2 (f :: fl) m Hm) as [y Hy].
  assert (Hin : ∀ z, z ∈ f :: fl → z ∈ (f :: fl) ++ x :: bl ++ X) by (intros; apply elem_of_app; by left).
  unfold append_partial. apply wp_bind. cbn. rewrite Hp. apply wp_bind.
  eapply (wp_follow s _ _ _ _ _ _ m (f :: fl)); [done|done|done|done|done|].
  apply wp_bind. eapply wp_st_own; [exact I|by apply Hin; eapply list_elem_of_lookup_2|by left|].
  destruct (relink s P NE EM B (f :: fl) m y x bl X I Hs1 Hs2 Hy) as (I1 & Hsg & _ & K1).
  eapply wp_st_own; [exact I1|apply (Hin f); by left|by right|].
  destruct (recount _ _ _ _ _ _ _ f (u64 (np + nb)) I1 (Hin f (list_elem_of_here _ _)))
    as (I2 & Hc & Hw & K2).
  assert (Hlen : length ((f :: take m fl) ++ x :: bl) = (S m + length (x :: bl))%nat).
  { rewrite length_app. f_equal. cbn. rewrite length_take. cbn in Hm. lia. }
  apply (HQ _ (Some (f, take m fl ++ x :: bl)) (drop m fl)); [| | |done].
  - eapply core_perm; [exact I2|]. cbn. rewrite <- (take_drop m fl) at 1. solve_Permutation.
  - unfold part, elems. cbn [fst snd]. rewrite app_comm_cons. split; [done|]. split; [|split].
    + eapply seg_frame; [|exact Hsg]. intros z Hz. apply Hw.
      eapply elem_of_submseteq; [exact Hz|]. apply submseteq_app; [apply sublist_submseteq, (sublist_take (f :: fl) (S m))|].
      rewrite app_comm_cons. apply submseteq_inserts_r. done.
    + rewrite Hlen. unfold nb, m in *. lia.
    + eexists. split; [exact Hc|]. rewrite Hlen.
      pose proof (ok_n _ _ _ _ _ Hcfg). rewrite i32_u64 by lia. unfold nb, m in *. lia.
  - eapply keeps_trans; [exact K1|]. apply K2. intros z Hz.
    split; [rewrite app_comm_cons, !app_assoc; apply elem_of_app; by right|]. intros ->.
    pose proof (c_nodup _ _ _ _ _ _ _ I) as Hnd. apply list.NoDup_app in Hnd as (_ & _ & Hnd).
    apply list.NoDup_app in Hnd as (_ & Hnd & _). apply (Hnd f); [by left|].
    right. apply elem_of_app. by right.
Qed.

Lemma part_keeps s s' p F : keeps (flist F) s s' → part (words (hp s)) p F → part (words (hp s')) p F.
Proof.
  destruct F as [f|]; [|done]. cbn. intros K (-> & Hs & Hl & c & Hc & Hb).
  split; [done|]. split; [|split; [done|]].
  - eapply seg_frame; [|done]. intros x Hx. apply (K x); [done|apply in_block_words].
  - exists c. rewrite (K f.1); [done|by left|apply in_block_words].
Qed.

Lemma core_set_partial s P NE EM D B X p :
  core s P NE EM D B X → core (set_gp (set_partial p (gp s)) s) P NE EM D B X.
Proof. intros [I1 I2 [J1 J2 J3 J4 J5] I4 I5 I6 I7]. by split. Qed.

(** The completed bucket goes to the global pool; [F'] is what remains. *)
Lemma wp_finish_bucket s P NE EM B f fl x bl X m y F' lost Q :
  core s P NE EM [] B ((f :: fl) ++ x :: bl ++ X) →
  seg (words (hp s)) (f :: fl) → seg (words (hp s)) (x :: bl) → (f :: fl) !! m = Some y →
  Z.of_nat (S m + length (x :: bl)) = n →
  drop (S m) (f :: fl) = flist F' ++ lost →
  part (words (hp (upd s y x))) (match F' with Some f' => f'.1 | None => 0 end) F' →
  (∀ s' B', core s' P NE EM [] B' (flist F' ++ lost ++ X) →
     part (words (hp s')) (partial_bucket (gp s')) F' → keeps X s s' →
     partial_bucket_lock (gp s') = partial_bucket_lock (gp s) → Q () s') →
  wp (st y x;; ABTI_mem_pool_return_bucket f;;
      modify (λ s, set_gp (set_partial (match F' with Some f' => f'.1 | None => 0 end) (gp s)) s)) Q s.
Proof.
  intros I Hs1 Hs2 Hy Hlen Hdrop HF HQ.
  assert (HyX : y ∈ (f :: fl) ++ x :: bl ++ X)
    by (apply elem_of_app; left; by eapply list_elem_of_lookup_2).
  apply wp_bind. eapply wp_st_own; [exact I|done|by left|].
  destruct (relink s P NE EM B (f :: fl) m y x bl X I Hs1 Hs2 Hy) as (I1 & Hsg & _ & K1).
  assert (Hm : (m < length (f :: fl))%nat) by (by eapply lookup_lt_Some).
  assert (HX : (f :: fl) ++ x :: bl ++ X ≡ₚ f :: (take m fl ++ x :: bl) ++ (flist F' ++ lost) ++ X).
  { rewrite <- Hdrop. cbn. rewrite <- (take_drop m fl) at 1. solve_Permutation. }
  apply wp_bind. eapply (wp_return_bucket (upd s y x) P NE EM [] B ((flist F' ++ lost) ++ X) f
    (take m fl ++ x :: bl)); [by eapply core_perm|done|..].
  { rewrite app_comm_cons, length_app. cbn [length] in *. rewrite length_take. lia. }
  intros s2 I2 K2 [_ R2]. unfold wp, modify.
  apply HQ with ((f, take m fl ++ x :: bl) :: B); [..|done].
  - apply core_set_partial. by rewrite <- app_assoc in I2.
  - eapply part_keeps; [|exact HF]. eapply keeps_sub; [|exact K2].
    intros z Hz. rewrite !elem_of_app. auto.
  - eapply keeps_trans; [exact K1|]. eapply keeps_sub; [|exact K2].
    intros z Hz. rewrite !elem_of_app. auto.
Qed.

Lemma wp_complete_partial s P NE EM B f fl x bl X np Q :
  core s P NE EM [] B ((f :: fl) ++ x :: bl ++ X) → partial_bucket (gp s) = f →
  seg (words (hp s)) (f :: fl) → seg (words (hp s)) (x :: bl) →
  np ≤ Z.of_nat (length (f :: fl)) ≤ n →
  Z.of_nat (length (x :: bl)) < n → n ≤ np + Z.of_nat (length (x :: bl)) →
  (∀ s' B' F' lost, core s' P NE EM [] B' (flist F' ++ lost ++ X) →
     part (words (hp s')) (partial_bucket (gp s')) F' → keeps X s s' →
     partial_bucket_lock (gp s') = partial_bucket_lock (gp s) → Q () s') →
  wp (complete_partial x np (Z.of_nat (length (x :: bl)))) Q s.
Proof.
  intros I Hp Hs1 Hs2 Hnp Hnb Hge HQ. set (nb := Z.of_nat (length (x :: bl))) in *.
  pose proof (ok_n _ _ _ _ _ Hcfg) as Hn. set (m := Z.to_nat (n - nb - 1)).
  assert (Hm : (m < length (f :: fl))%nat) by (unfold m, nb in *; cbn in *; lia).
  assert (HSm : Z.of_nat (S m + length (x :: bl)) = n) by (unfold m, nb in *; lia).
  destruct (lookup_lt_is_Some_2 (f :: fl) m Hm) as [y Hy].
  assert (Hin : ∀ z, z ∈ f :: fl → z ∈ (f :: fl) ++ x :: bl ++ X) by (intros; apply elem_of_app; by left).
  assert (HyL : y ∈ f :: fl) by (by eapply list_elem_of_lookup_2).
  unfold complete_partial. apply wp_bind. cbn [get wp]. rewrite Hp.
  destruct (c_cfg _ _ _ _ _ _ _ I) as (_ & _ & _ & -> & _).
  rewrite (i32_small n) by lia. rewrite (i32_small (np + nb)) by (cbn in Hnp; lia).
  apply wp_bind. eapply (wp_follow s _ _ _ _ _ _ m (f :: fl)); [done|done|done|done|done|].
  apply wp_bind. destruct (Z.eqb_spec (np + nb) n) as [He|Hne].
  - apply wp_ret.
    eapply (wp_finish_bucket s P NE EM B f fl x bl X m y None (drop (S m) (f :: fl))); try done.
    intros s' B' I' HF K' R'. by apply (HQ s' B' None (drop (S m) (f :: fl))).
  - assert (Hlt : (S m < length (f :: fl))%nat) by (unfold m, nb in *; cbn in *; lia).
    destruct (lookup_lt_is_Some_2 (f :: fl) (S m) Hlt) as [z Hz].
    assert (HzL : z ∈ f :: fl) by (by eapply list_elem_of_lookup_2).
    assert (Hdrop : drop (S m) (f :: fl) = z :: drop (S (S m)) (f :: fl)) by (by apply drop_S).
    apply wp_bind. eapply (wp_ld_own _ _ _ _ _ _ _ I y); [by apply Hin|by left|exact (Hs1 m y z Hy Hz)|].
    apply wp_bind. eapply (wp_st_own _ _ _ _ _ _ _ I z); [by apply Hin|by right|].
    destruct (recount _ _ _ _ _ _ _ z (u64 (n - (np + nb))) I (Hin z HzL)) as (I1 & Hc & Hw & K1).
    apply wp_ret.
    assert (Hseg1 : ∀ l, (∀ a, a ∈ l → a ∈ (f :: fl) ++ x :: bl ++ X) → seg (words (hp s)) l →
      seg (words (hp (upd s (z + off_bucket_info) (u64 (n - (np + nb)))))) l).
    { intros l Hl. apply seg_frame. intros a Ha. by apply Hw, Hl. }
    eapply (wp_finish_bucket _ P NE EM B f fl x bl X m y (Some (z, drop (S (S m)) (f :: fl))) []);
      [exact I1|by apply Hseg1| |done|done|by rewrite app_nil_r| |].
    + apply Hseg1; [|done]. intros a Ha. apply elem_of_app. right.
      rewrite app_comm_cons. apply elem_of_app. by left.
    + destruct (relink _ P NE EM B (f :: fl) m y x bl X I1) as (_ & _ & Hsd & _); [by apply Hseg1| |done|].
      { apply Hseg1; [|done]. intros a Ha. apply elem_of_app. right.
        rewrite app_comm_cons. apply elem_of_app. by left. }
      unfold part, elems. cbn [fst snd]. rewrite <- Hdrop. split; [done|]. split; [done|].
      rewrite length_drop. split; [lia|]. exists (u64 (n - (np + nb))). split.
      * cbn. rewrite lookup_insert_ne; [done|]. apply not_eq_sym. eapply hdr_info_ne; [apply I|..];
          (eapply core_X; [exact I|]); by apply Hin.
      * cbn in Hnp, Hlt. rewrite i32_u64 by lia. cbn. lia.
    + intros s' B' I' HF K' R'. apply (HQ s' B' (Some (z, drop (S (S m)) (f :: fl))) []); [done|done| |done].
      eapply keeps_trans; [|exact K']. apply K1. intros a Ha.
      split; [rewrite app_comm_cons, !app_assoc; apply elem_of_app; by right|]. intros ->.
      pose proof (c_nodup _ _ _ _ _ _ _ I) as Hnd. apply list.NoDup_app in Hnd as (_ & _ & Hnd).
      apply list.NoDup_app in Hnd as (_ & Hnd & _). apply (Hnd z HzL).
      right. apply elem_of_app. by right.
Qed.

Lemma core_set_lock s P NE EM D B X v :
  core s P NE EM D B X → core (set_gp (set_partial_lock v (gp s)) s) P NE EM D B X.
Proof. intros [I1 I2 [J1 J2 J3 J4 J5] I4 I5 I6 I7]. by split. Qed.

Lemma hdr_pos h P x : geo h P → hdr P x → 0 < x.
Proof.
  intros G Hx. destruct (block_bounds _ _ _ G Hx) as (b & k & _ & ? & _ & ?). pose proof sizes. lia.
Qed.

Lemma wp_return_partial s P NE EM B F x bl X Q :
  inv s P NE EM B F (x :: bl ++ X) → seg (words (hp s)) (x :: bl) →
  words (hp s) !! (x + off_bucket_info) = Some (Z.of_nat (length (x :: bl))) →
  Z.of_nat (length (x :: bl)) < n →
  (∀ s' B' F' lost, inv s' P NE EM B' F' (lost ++ X) → keeps X s s' → Q () s') →
  wp (mem_pool_return_partial_bucket x) Q s.
Proof.
  intros [I Hlock HF] Hseg Hc Hlen HQ. pose proof (ok_n _ _ _ _ _ Hcfg) as Hn.
  unfold mem_pool_return_partial_bucket. apply wp_bind, wp_zoom. rewrite Hlock.
  unfold ABTD_spinlock_acquire. cbn [wp]. apply (core_set_lock _ _ _ _ _ _ _ true) in I.
  set (s1 := set_gp (set_partial_lock true (gp s)) s) in *.
  assert (Hend : ∀ s' B' F' lost, core s' P NE EM [] B' (flist F' ++ lost ++ X) →
     part (words (hp s')) (partial_bucket (gp s')) F' → keeps X s s' →
     wp (lock_op ABTD_spinlock_release) Q s').
  { intros s' B' F' lost I' HF' K'. apply wp_zoom. cbn. apply (HQ _ B' F' lost); [|done].
    split; [by apply core_set_lock|done|done]. }
  apply wp_bind. change (wp get ?R s1) with (R s1 s1).
  assert (Hin : ∀ y, y ∈ x :: bl → y ∈ flist F ++ x :: bl ++ X).
  { intros y Hy. apply elem_of_app. right. rewrite app_comm_cons. apply elem_of_app. by left. }
  apply wp_bind. destruct F as [[f fl]|].
  - destruct HF as (Hp & Hs & Hl & c & Hfc & Hnp). cbn [fst flist] in *.
    change (elems (f, fl)) with (f :: fl) in *.
    assert (Hf : f ∈ (f :: fl) ++ x :: bl ++ X) by (by left).
    pose proof (hdr_pos _ _ _ (c_geo _ _ _ _ _ _ _ I) (core_X _ _ _ _ _ _ _ I f Hf)) as Hf0.
    change (partial_bucket (gp s1)) with (partial_bucket (gp s)). rewrite Hp.
    rewrite (proj2 (Z.eqb_neq f 0)) by lia.
    apply wp_bind. eapply (wp_ld_own _ _ _ _ _ _ _ I f); [done|by right|done|].
    apply wp_bind. eapply (wp_ld_own _ _ _ _ _ _ _ I x); [apply Hin; by left|by right|done|].
    destruct (c_cfg _ _ _ _ _ _ _ I) as (_ & _ & _ & -> & _).
    rewrite (i32_small n), (i32_small (Z.of_nat (length (x :: bl)))) by (cbn [length] in *; lia).
    rewrite (i32_small (i32 c + Z.of_nat (length (x :: bl)))) by (cbn [length] in *; lia).
    destruct (Z.ltb_spec (i32 c + Z.of_nat (length (x :: bl))) n) as [Hlt|Hge].
    + eapply (wp_append_partial s1 P NE EM B f fl x bl X); [done|done|done|done|lia|done|done|].
      intros s' F' lost I' HF' K' _. by apply (Hend s' B F' lost).
    + eapply (wp_complete_partial s1 P NE EM B f fl x bl X); [done|done|done|done|lia|done|done|].
      intros s' B' F' lost I' HF' K' _. by apply (Hend s' B' F' lost).
  - change (partial_bucket (gp s1)) with (partial_bucket (gp s)). rewrite HF. cbn [Z.eqb].
    unfold wp at 1, modify. apply (Hend _ B (Some (x, bl)) []); [by apply core_set_partial| |done].
    cbn. split; [done|]. split; [done|]. split; [cbn in *; lia|].
    eexists. split; [done|]. rewrite i32_small; cbn in *; lia.
Qed.

(** ** Taking a bucket *)

Lemma upto_new b k m : 1 ≤ m →
  nth_header b k :: upto (Z.to_nat (m - 1)) (nth_header b k) = new_list b k m.
Proof.
  intros Hm. unfold new_list, upto.
  rewrite seqZ_cons by lia. rewrite fmap_cons. f_equal.
  apply list_eq. intros i. rewrite !list_lookup_fmap.
  destruct (decide (i < Z.to_nat (m - 1))%nat) as [Hi|Hi].
  - rewrite lookup_seqZ_lt, lookup_seq_lt by lia. cbn [fmap option_fmap option_map]. f_equal.
    unfold nth_header. lia.
  - rewrite lookup_seqZ_ge, lookup_seq_ge by lia. done.
Qed.

Lemma wp_new_headers s P NE EM B X b k acc Q :
  core s P NE EM [b] B (acc ++ X) → P !! b = Some k → (k + 1) * hs ≤ ps - sizeof_page →
  seg (words (hp s)) acc → Z.of_nat (length acc) < n →
  (∀ s' P' NE' EM' x acc', core s' P' NE' EM' [] B (x :: acc' ++ X) →
     seg (words (hp s')) (x :: acc') → (length acc < length (x :: acc'))%nat →
     Z.of_nat (length (x :: acc')) ≤ n → keeps X s s' → same_rest s s' →
     Q (x, Z.of_nat (length (x :: acc'))) s') →
  wp (new_headers o (desc b) (Z.of_nat (length acc)) (default 0 (head acc))) Q s.
Proof.
  intros I Hk Hroom Hseg Hlen HQ. pose proof (ok_n _ _ _ _ _ Hcfg) as Hn.
  unfold new_headers. apply wp_bind. change (wp get ?R s) with (R s s).
  destruct (c_cfg _ _ _ _ _ _ _ I) as (_ & _ & Hoff & -> & _). rewrite i32_small by lia.
  apply wp_bind. eapply wp_take_memory; [done|done|done|lia|].
  intros s1 m Hm Hfit I1 K1 R1. cbn [fst snd]. set (P1 := <[b := k + m]> P) in *.
  apply wp_bind. eapply (wp_put_page _ P1); [done|by apply lookup_insert_eq|].
  intros s2 NE2 EM2 I2 K2 R2. rewrite Hoff.
  change (b + k * hs + off) with (nth_header b k). set (t := nth_header b k).
  assert (Hnew : new_list b k m = t :: upto (Z.to_nat (m - 1)) t) by (symmetry; apply upto_new; lia).
  rewrite Hnew in *.
  assert (Ht : t ∈ (t :: upto (Z.to_nat (m - 1)) t) ++ acc ++ X) by (by left).
  assert (HX2 : ∀ y, y ∈ (t :: upto (Z.to_nat (m - 1)) t) ++ acc ++ X → hdr P1 y)
    by (intros y; by eapply core_X).
  pose proof (c_nodup _ _ _ _ _ _ _ I2) as Hnd. apply list.NoDup_app in Hnd as (_ & _ & Hnd).
  apply wp_bind. eapply (wp_st_own _ _ _ _ _ _ _ I2 t); [done|by left|].
  pose proof (core_upd _ _ _ _ _ _ _ I2 t t (default 0 (head acc)) Ht (proj1 (in_block_words t))) as I3.
  set (s3 := upd s2 t (default 0 (head acc))) in *.
  assert (K3 : keeps (acc ++ X) s2 s3).
  { eapply keeps_upd; [exact I2| |by apply HX2|apply in_block_words]. intros y Hy.
    split; [apply HX2, elem_of_app; by right|]. intros ->.
    apply list.NoDup_app in Hnd as (_ & Hnd & _). by apply (Hnd t (list_elem_of_here _ _)). }
  apply wp_bind. eapply (wp_protect_header _ P1); [exact I3|by apply HX2|]. intros s4 I4 Ew R4.
  assert (Hacc : seg (words (hp s4)) (t :: acc)).
  { rewrite Ew. apply seg_cons.
    - eapply seg_frame; [|exact Hseg]. intros y Hy.
      assert (Hy' : y ∈ acc ++ X) by (apply elem_of_app; by left).
      rewrite (K3 y y Hy'), (K2 y y), (K1 y y Hy') by (apply in_block_words || (apply elem_of_app; by right)).
      done.
    - intros q l ->. cbn. by rewrite lookup_insert_eq. }
  apply wp_bind. eapply (wp_link_headers P1 NE2 EM2 B _ (Z.to_nat (m - 1)) s4 t acc X); [exact I4|exact Hacc|..].
  - intros y Hy. apply elem_of_app. left. by right.
  - rewrite <- Permutation_middle. eapply sublist_NoDup; [exact Hnd|]. cbn.
    apply sublist_skip, sublist_app; [done|]. by apply sublist_inserts_r.
  - intros y [->|Hy]%elem_of_cons; [by apply HX2|]. apply HX2. rewrite !elem_of_app. auto.
  - intros y Hy. split; [apply HX2; rewrite !elem_of_app; auto|]. intros Hin.
    apply list.NoDup_app in Hnd as (_ & Hnd & _). apply (Hnd y); [by right|]. rewrite elem_of_app. auto.
  - intros s5 I5 Hseg5 K5 R5. apply wp_ret.
    destruct (built_head (Z.to_nat (m - 1)) t acc) as [l Hl]. rewrite Hl in Hseg5.
    assert (Hperm : (t + Z.of_nat (Z.to_nat (m - 1)) * hs) :: l ≡ₚ upto (Z.to_nat (m - 1)) t ++ t :: acc)
      by (rewrite <- Hl; apply built_perm).
    assert (Hll : Z.of_nat (length ((t + Z.of_nat (Z.to_nat (m - 1)) * hs) :: l)) = Z.of_nat (length acc) + m).
    { rewrite Hperm, length_app. unfold upto. rewrite length_fmap, length_seq. cbn. lia. }
    rewrite <- Hll. apply (HQ s5 P1 NE2 EM2); [|exact Hseg5|lia|lia|..].
    + eapply core_perm; [exact I5|]. rewrite app_comm_cons, Hperm. cbn. solve_Permutation.
    + intros y a Hy Ha.
      assert (Hy' : y ∈ acc ++ X) by (apply elem_of_app; by right).
      rewrite (K5 y a Hy Ha), Ew, (K3 y a Hy' Ha), (K2 y a), (K1 y a Hy' Ha) by (done || (apply elem_of_app; by right)).
      done.
    + eapply same_rest_trans; [exact R1|]. eapply same_rest_trans; [exact R2|].
      eapply same_rest_trans; [exact R4|exact R5].
Qed.

Lemma perm_front {A} (l1 l2 l3 : list A) : l1 ++ l2 ++ l3 ≡ₚ l2 ++ l1 ++ l3.
Proof. solve_Permutation. Qed.

Lemma inv_core s P NE EM B F X Y s' P' NE' EM' B' Y' :
  inv s P NE EM B F X → keeps (flist F ++ Y) s s' → same_rest s s' →
  core s' P' NE' EM' [] B' (Y' ++ flist F ++ Y) → inv s' P' NE' EM' B' F (Y' ++ Y).
Proof.
  intros [_ Hl HF] K [R1 R2] I'. split.
  - eapply core_perm; [exact I'|]. apply perm_front.
  - congruence.
  - rewrite R1. eapply part_keeps; [|exact HF]. eapply keeps_sub; [|exact K].
    intros z Hz. apply elem_of_app. by left.
Qed.

Section take.
Context (X : list Z) (Q : Z * option Z → pool → Prop).

Definition take_ok (s0 : pool) : Prop :=
  ∀ s' P' NE' EM' B' F' x l, inv s' P' NE' EM' B' F' (x :: l ++ X) → seg (words (hp s')) (x :: l) →
    Z.of_nat (length (x :: l)) = n → words (hp s') !! (x + off_bucket_info) = Some n →
    keeps X s0 s' → Q (ABT_SUCCESS, Some x) s'.
Definition take_err (s0 : pool) : Prop :=
  ∀ s' P' NE' EM' B' F' lost e, e ≠ ABT_SUCCESS → inv s' P' NE' EM' B' F' (lost ++ X) →
    keeps X s0 s' → Q (e, None) s'.

Lemma wp_give_up s P NE EM B F acc e :
  inv s P NE EM B F (acc ++ X) → seg (words (hp s)) acc → Z.of_nat (length acc) < n →
  e ≠ ABT_SUCCESS → take_err s →
  wp ((if negb (Z.of_nat (length acc) =? 0)
       then st (default 0 (head acc) + off_bucket_info) (u64 (Z.of_nat (length acc)));;
            mem_pool_return_partial_bucket (default 0 (head acc))
       else mret ());; mret (e, None)) Q s.
Proof.
  intros Hi Hseg Hlen He Herr. pose proof (ok_n _ _ _ _ _ Hcfg) as Hn. apply wp_bind.
  destruct acc as [|x bl].
  - apply wp_ret, wp_ret. by apply (Herr s P NE EM B F []).
  - destruct Hi as [I Hl HF]. cbn [negb Z.eqb length Z.of_nat default head].
    rewrite u64_small by (cbn [length Z.of_nat] in *; lia).
    assert (Hx : x ∈ flist F ++ (x :: bl) ++ X) by (apply elem_of_app; right; by left).
    apply wp_bind. eapply (wp_st_own _ _ _ _ _ _ _ I x); [done|by right|].
    destruct (recount _ _ _ _ _ _ _ x (Z.pos (Pos.of_succ_nat (length bl))) I Hx) as (I1 & Hc & Hw & K1).
    pose proof (c_nodup _ _ _ _ _ _ _ I) as Hnd. apply list.NoDup_app in Hnd as (_ & _ & Hnd).
    assert (Hne : ∀ y, y ∈ flist F ++ X → y ∈ flist F ++ (x :: bl) ++ X ∧ y ≠ x).
    { intros y Hy. split; [rewrite !elem_of_app in *; naive_solver|]. intros ->.
      rewrite perm_front in Hnd. apply list.NoDup_app in Hnd as (_ & Hnd & _).
      by apply (Hnd x (list_elem_of_here _ _)). }
    eapply (wp_return_partial _ P NE EM B F x bl X); [|eapply seg_frame; [|exact Hseg]|exact Hc|done|].
    + split; [exact I1|done|]. eapply part_keeps; [|exact HF]. apply K1.
      intros y Hy. apply Hne, elem_of_app. by left.
    + intros y Hy. apply Hw. rewrite !elem_of_app. auto.
    + intros s' B' F' lost I' K'. apply wp_ret. apply (Herr s' P NE EM B' F' lost); [done|done|].
      eapply keeps_trans; [|exact K']. apply K1. intros y Hy. apply Hne, elem_of_app. by right.
Qed.

Lemma wp_collect fuel : ∀ s P NE EM B F acc,
  inv s P NE EM B F (acc ++ X) → seg (words (hp s)) acc → Z.of_nat (length acc) < n →
  n - Z.of_nat (length acc) ≤ Z.of_nat fuel → take_ok s → take_err s →
  wp (collect_headers o fuel (Z.of_nat (length acc)) (default 0 (head acc))) Q s.
Proof.
  induction fuel as [|fuel IH]; intros s P NE EM B F acc Hi Hseg Hlen Hfuel Hok Herr; [lia|].
  pose proof (ok_n _ _ _ _ _ Hcfg) as Hn.
  assert (I : core s P NE EM [] B (acc ++ flist F ++ X)).
  { eapply core_perm; [apply Hi|]. apply perm_front. }
  assert (Hsub : ∀ y, y ∈ X → y ∈ acc ++ flist F ++ X) by (intros; rewrite !elem_of_app; auto).
  cbn [collect_headers]. apply wp_bind. eapply wp_get_page; [exact I|..].
  - intros s1 e He I1 K1 R1. eapply wp_give_up; [| |done|done|].
    + eapply inv_core; [exact Hi| |exact R1|exact I1]. eapply keeps_sub; [|exact K1].
      intros y Hy. apply elem_of_app. by right.
    + eapply seg_frame; [|exact Hseg]. intros y Hy.
      apply (K1 y); [apply elem_of_app; by left|apply in_block_words].
    + intros s' P' NE' EM' B' F' lost e' He' I' K'. apply (Herr s' P' NE' EM' B' F' lost); [done..|].
      eapply keeps_trans; [|exact K']. by eapply keeps_sub.
  - intros s1 P1 NE1 b k I1 Hk Hroom _ K1 R1. apply wp_bind.
    change (wp get ?R s1) with (R s1 s1). apply wp_bind.
    assert (Hseg1 : seg (words (hp s1)) acc).
    { eapply seg_frame; [|exact Hseg]. intros y Hy.
      apply (K1 y); [apply elem_of_app; by left|apply in_block_words]. }
    eapply (wp_new_headers s1 P1 NE1 EM B (flist F ++ X) b k acc); [exact I1|done|done|done|done|].
    intros s2 P2 NE2 EM2 x acc2 I2 Hseg2 Hgrow Hle K2 R2.
    destruct (c_cfg _ _ _ _ _ _ _ I1) as (_ & _ & _ & -> & _). rewrite i32_small by lia.
    assert (K12 : keeps (flist F ++ X) s s2).
    { eapply keeps_trans; [|exact K2]. eapply keeps_sub; [|exact K1]. intros y Hy.
      apply elem_of_app. by right. }
    assert (KX : keeps X s s2) by (eapply keeps_sub; [|exact K12]; intros; apply elem_of_app; by right).
    assert (Hi2 : inv s2 P2 NE2 EM2 B F ((x :: acc2) ++ X)).
    { eapply inv_core; [exact Hi|exact K12|by eapply same_rest_trans|exact I2]. }
    destruct (Z.eqb_spec (Z.of_nat (length (x :: acc2))) n) as [He|Hne].
    + rewrite u64_small by lia.
      assert (Hx : x ∈ (x :: acc2) ++ flist F ++ X) by (by left).
      apply wp_bind. eapply (wp_st_own _ _ _ _ _ _ _ I2 x); [done|by right|]. apply wp_ret.
      destruct (recount _ _ _ _ _ _ _ x n I2 Hx) as (I3 & Hc & Hw & K3).
      assert (K3' : keeps (flist F ++ X) s2 (upd s2 (x + off_bucket_info) n)).
      { apply K3. intros y Hy. split; [by apply (proj2 (elem_of_app (x :: acc2) _ y)); right|]. intros ->.
        pose proof (c_nodup _ _ _ _ _ _ _ I2) as Hnd. apply list.NoDup_app in Hnd as (_ & _ & Hnd).
        apply (list.NoDup_app (x :: acc2)) in Hnd as (_ & Hnd & _). by apply (Hnd x (list_elem_of_here _ _)). }
      apply (Hok _ P2 NE2 EM2 B F x acc2); [| |done|exact Hc|].
      * eapply (inv_core s2 _ _ _ _ _ _ X _ _ _ _ _ (x :: acc2)); [exact Hi2|exact K3'|done|exact I3].
      * eapply seg_frame; [|exact Hseg2]. intros y Hy. apply Hw.
        change (y ∈ (x :: acc2) ++ flist F ++ X). apply elem_of_app. by left.
      * eapply keeps_trans; [exact KX|]. eapply keeps_sub; [|exact K3']. intros; apply elem_of_app; by right.
    + apply (IH s2 P2 NE2 EM2 B F (x :: acc2)); [done|done|cbn in *; lia|cbn in *; lia|..].
      * intros s' P' NE' EM' B' F' x' l I' H1 H2 H3 K'. eapply Hok; [done..|]. by eapply keeps_trans.
      * intros s' P' NE' EM' B' F' lost e He I' K'. eapply Herr; [done..|]. by eapply keeps_trans.
Qed.

Lemma wp_take_bucket s P NE EM B F :
  inv s P NE EM B F X → take_ok s → take_err s → wp (ABTI_mem_pool_take_bucket o) Q s.
Proof.
  intros Hi Hok Herr. pose proof (ok_n _ _ _ _ _ Hcfg) as Hn. unfold ABTI_mem_pool_take_bucket.
  pose proof (i_core _ _ _ _ _ _ _ Hi) as I.
  apply wp_bind. eapply wp_pop_bucket; [exact I|]. destruct B as [|[x l] B'].
  - intros s1 I1 K1 R1. apply wp_bind. change (wp get ?R s1) with (R s1 s1). cbn [Z.eqb].
    destruct (c_cfg _ _ _ _ _ _ _ I1) as (_ & _ & _ & -> & _).
    assert (KX : keeps X s s1) by (eapply keeps_sub; [|exact K1]; intros; apply elem_of_app; by right).
    apply (wp_collect (Z.to_nat n) s1 P NE EM [] F []); [|by intros i ? ? ?|cbn; lia|cbn; lia|..].
    + eapply (inv_core s _ _ _ _ _ _ X s1 _ _ _ _ []); [exact Hi|done..].
    + intros s' P' NE' EM' B' F' x' l I' H1 H2 H3 K'. eapply Hok; [done..|]. by eapply keeps_trans.
    + intros s' P' NE' EM' B' F' lost e He I' K'. eapply Herr; [done..|]. by eapply keeps_trans.
  - intros s1 I1 Hseg Hlen K1 R1. apply wp_bind. change (wp get ?R s1) with (R s1 s1).
    assert (Hx : x ∈ x :: l ++ flist F ++ X) by (by left).
    pose proof (hdr_pos _ _ _ (c_geo _ _ _ _ _ _ _ I1) (core_X _ _ _ _ _ _ _ I1 x Hx)) as Hx0.
    rewrite (proj2 (Z.eqb_neq (x + off_bucket_info) 0)) by (unfold off_bucket_info; lia).
    unfold mem_pool_lifo_elem_to_header. replace (x + off_bucket_info - off_bucket_info) with x by lia.
    destruct (c_cfg _ _ _ _ _ _ _ I1) as (_ & _ & _ & -> & _). rewrite i32_small, u64_small by lia.
    apply wp_bind. eapply (wp_st_own _ _ _ _ _ _ _ I1 x); [done|by right|]. apply wp_ret.
    destruct (recount _ _ _ _ _ _ _ x n I1 Hx) as (I2 & Hc & Hw & K2).
    assert (K2' : keeps (flist F ++ X) s (upd s1 (x + off_bucket_info) n)).
    { eapply keeps_trans; [eapply keeps_sub; [|exact K1]; intros y Hy; right; apply elem_of_app; by right|].
      apply K2. intros y Hy. split; [right; apply elem_of_app; by right|]. intros ->.
      pose proof (c_nodup _ _ _ _ _ _ _ I1) as Hnd. apply list.NoDup_app in Hnd as (_ & _ & Hnd).
      apply NoDup_cons in Hnd as [Hnd _]. apply Hnd, elem_of_app. by right. }
    apply (Hok _ P NE EM B' F x l); [| |done|exact Hc|].
    + eapply (inv_core s _ _ _ _ _ _ X _ _ _ _ _ (x :: l)); [exact Hi|exact K2'|done|exact I2].
    + eapply seg_frame; [|exact Hseg]. intros y Hy. apply Hw.
      change (y ∈ (x :: l) ++ flist F ++ X). apply elem_of_app. by left.
    + eapply keeps_sub; [|exact K2']. intros; apply elem_of_app; by right.
Qed.
End take.

(** ** Local pools *)

(** A bucket of a local pool, with its count. *)
Definition bkt (w : gmap Z Z) (b : Z * list Z) : Prop :=
  seg w (elems b) ∧ w !! (b.1 + off_bucket_info) = Some (Z.of_nat (length (elems b))).

(** The current bucket, and the full one below it. *)
Record local_rep (w : gmap Z Z) (l : ABTI_mem_pool_local_pool)
    (old : option (Z * list Z)) (cur : Z * list Z) : Prop := {
  lr_num : local_num_headers_per_bucket l = n;
  lr_slots : match old with
             | None => bucket_index l = 0 ∧ ∃ v, buckets l = [Some cur.1; v]
             | Some b => bucket_index l = 1 ∧ buckets l = [Some b.1; Some cur.1]
             end;
  lr_cur : bkt w cur ∧ Z.of_nat (length (elems cur)) ≤ n;
  lr_old : match old with Some b => bkt w b ∧ Z.of_nat (length (elems b)) = n | None => True end
}.

Definition llist (old : option (Z * list Z)) (cur : Z * list Z) : list Z := flist old ++ elems cur.

Lemma bkt_keeps s s' b : keeps (elems b) s s' → bkt (words (hp s)) b → bkt (words (hp s')) b.
Proof.
  intros K [Hs Hc]. split.
  - eapply seg_frame; [|done]. intros x Hx. apply (K x); [done|apply in_block_words].
  - rewrite (K b.1); [done|by left|apply in_block_words].
Qed.

Lemma local_rep_keeps s s' l old cur :
  keeps (llist old cur) s s' → local_rep (words (hp s)) l old cur → local_rep (words (hp s')) l old cur.
Proof.
  intros K [H1 H2 [H3 H4] H5]. split; [done|done| |].
  - split; [|done]. eapply bkt_keeps; [|done]. eapply keeps_sub; [|exact K].
    intros x Hx. apply elem_of_app. by right.
  - destruct old as [b|]; [|done]. destruct H5 as [H5 H6]. split; [|done].
    eapply bkt_keeps; [|done]. eapply keeps_sub; [|exact K]. intros x Hx. apply elem_of_app. by left.
Qed.

Lemma get_bucket_ok w l old cur Q s :
  local_rep w l old cur → Q cur.1 s → wp (get_bucket l (bucket_index l)) Q s.
Proof.
  intros [_ Hs _ _] HQ. unfold get_bucket. destruct old as [b|].
  - destruct Hs as [-> ->]. by apply wp_ret.
  - destruct Hs as [-> [v ->]]. by apply wp_ret.
Qed.

Lemma inv_perm s P NE EM B F X X' : X ≡ₚ X' → inv s P NE EM B F X → inv s P NE EM B F X'.
Proof. intros HX [I Hl HF]. split; [|done|done]. eapply core_perm; [exact I|]. by rewrite HX. Qed.

Lemma inv_hdr s P NE EM B F X x : inv s P NE EM B F X → x ∈ X → hdr P x.
Proof. intros [I _ _] Hx. eapply core_X; [exact I|]. apply elem_of_app. by right. Qed.

Lemma inv_nodup s P NE EM B F X : inv s P NE EM B F X → NoDup X.
Proof.
  intros [I _ _]. pose proof (c_nodup _ _ _ _ _ _ _ I) as Hnd.
  apply list.NoDup_app in Hnd as (_ & _ & Hnd). by apply list.NoDup_app in Hnd as (_ & _ & ?).
Qed.

(** Loads and stores of a header outside the global pool. *)
Lemma inv_upd s P NE EM B F X x a v :
  inv s P NE EM B F X → x ∈ X → in_block x a →
  inv (upd s a v) P NE EM B F X ∧ (∀ Y, (∀ y, y ∈ Y → y ∈ X ∧ y ≠ x) → keeps Y s (upd s a v)).
Proof.
  intros Hi Hx Ha. pose proof Hi as [I Hl HF].
  assert (Hx' : x ∈ flist F ++ X) by (apply elem_of_app; by right).
  pose proof (c_nodup _ _ _ _ _ _ _ I) as Hnd. apply list.NoDup_app in Hnd as (_ & _ & Hnd).
  apply list.NoDup_app in Hnd as (_ & Hnd & _).
  assert (K : ∀ Y, (∀ y, y ∈ Y → hdr P y ∧ y ≠ x) → keeps Y s (upd s a v)).
  { intros Y HY. eapply keeps_upd; [exact I|done|by eapply inv_hdr|done]. }
  split.
  - split; [by apply (core_upd _ _ _ _ _ _ _ I x)|done|].
    eapply part_keeps; [|exact HF]. apply K. intros y Hy. split; [|by intros ->; apply (Hnd x)].
    eapply core_X; [exact I|]. apply elem_of_app. by left.
  - intros Y HY. apply K. intros y Hy. destruct (HY y Hy). split; [by eapply inv_hdr|done].
Qed.

Lemma wp_st_inv s P NE EM B F X x a v Q :
  inv s P NE EM B F X → x ∈ X → a = x ∨ a = x + off_bucket_info → Q () (upd s a v) → wp (st a v) Q s.
Proof. intros [I _ _] Hx. eapply wp_st_own; [exact I|]. apply elem_of_app. by right. Qed.
Lemma wp_ld_inv s P NE EM B F X x a v Q :
  inv s P NE EM B F X → x ∈ X → a = x ∨ a = x + off_bucket_info →
  words (hp s) !! a = Some v → Q v s → wp (ld a) Q s.
Proof. intros [I _ _] Hx. eapply wp_ld_own; [exact I|]. apply elem_of_app. by right. Qed.

(** A header [x] whose words are set to [v] and [c]. *)
Lemma set_header s P NE EM B F X x v c :
  inv s P NE EM B F X → x ∈ X →
  let s' := upd (upd s x v) (x + off_bucket_info) c in
  inv s' P NE EM B F X ∧ words (hp s') !! x = Some v ∧
  words (hp s') !! (x + off_bucket_info) = Some c ∧
  (∀ Y, (∀ y, y ∈ Y → y ∈ X ∧ y ≠ x) → keeps Y s s').
Proof.
  intros Hi Hx s'. destruct (inv_upd _ _ _ _ _ _ _ x x v Hi Hx (proj1 (in_block_words x))) as [I1 K1].
  destruct (inv_upd _ _ _ _ _ _ _ x (x + off_bucket_info) c I1 Hx (proj2 (in_block_words x))) as [I2 K2].
  split; [done|]. split; [|split].
  - cbn. rewrite lookup_insert_ne by (unfold off_bucket_info; lia). apply lookup_insert_eq.
  - apply lookup_insert_eq.
  - intros Y HY. eapply keeps_trans; [by apply K1|by apply K2].
Qed.

Lemma wp_return_bucket_inv s P NE EM B F X b Q :
  inv s P NE EM B F (elems b ++ X) → seg (words (hp s)) (elems b) →
  Z.of_nat (length (elems b)) = n →
  (∀ s', inv s' P NE EM (b :: B) F X → keeps X s s' → Q () s') →
  wp (ABTI_mem_pool_return_bucket b.1) Q s.
Proof.
  destruct b as [x l]. intros Hi Hseg Hlen HQ. pose proof Hi as [I Hl HF].
  eapply (wp_return_bucket s P NE EM [] B (flist F ++ X) x l); [|done|done|].
  { eapply core_perm; [exact I|]. apply (perm_front _ (x :: l)). }
  intros s' I' K' R'. apply HQ.
  - by eapply (inv_core s _ _ _ _ _ _ X s' _ _ _ _ []).
  - eapply keeps_sub; [|exact K']. intros; apply elem_of_app; by right.
Qed.

Definition after_alloc (s0 : pool) (X : list Z) (l : ABTI_mem_pool_local_pool)
    (old : option (Z * list Z)) (cur : Z * list Z)
    (Q : (Z * option Z) * ABTI_mem_pool_local_pool → pool → Prop) : Prop :=
  (∀ s' P' NE' EM' B' F' l' old' cur',
     inv s' P' NE' EM' B' F' (cur.1 :: llist old' cur' ++ X) →
     local_rep (words (hp s')) l' old' cur' → keeps X s0 s' →
     Q ((ABT_SUCCESS, Some cur.1), l') s') ∧
  (∀ s' P' NE' EM' B' F' lost e,
     e ≠ ABT_SUCCESS → inv s' P' NE' EM' B' F' (lost ++ llist old cur ++ X) →
     local_rep (words (hp s')) l old cur → keeps X s0 s' →
     Q ((e, None), l) s').

Lemma keeps_app_r X Y s s' : keeps (X ++ Y) s s' → keeps Y s s'.
Proof. apply keeps_sub. intros; apply elem_of_app; by right. Qed.
Lemma keeps_app_l X Y s s' : keeps (X ++ Y) s s' → keeps X s s'.
Proof. apply keeps_sub. intros; apply elem_of_app; by left. Qed.

Lemma wp_alloc s P NE EM B F X l old cur Q :
  inv s P NE EM B F (llist old cur ++ X) → local_rep (words (hp s)) l old cur →
  after_alloc s X l old cur Q → wp (ABTI_mem_pool_alloc o l) Q s.
Proof.
  intros Hi HL [Hok Herr]. pose proof (ok_n _ _ _ _ _ Hcfg) as Hn.
  pose proof HL as [Hnum Hslot [[Hseg Hc] Hle] Hold]. destruct cur as [x xl].
  assert (Hx : x ∈ llist old (x, xl) ++ X).
  { apply elem_of_app. left. apply elem_of_app. right. by left. }
  unfold ABTI_mem_pool_alloc. apply wp_bind. eapply get_bucket_ok; [exact HL|].
  apply wp_bind. eapply (wp_ld_inv _ _ _ _ _ _ _ x); [exact Hi|done|by right|exact Hc|].
  apply wp_bind. unfold c_assert. rewrite (proj2 (Z.leb_le 1 _)) by (cbn; lia). apply wp_ret.
  destruct xl as [|y xl].
  - cbn [elems fst snd length Z.of_nat Z.eqb Pos.of_succ_nat Pos.eqb].
    destruct old as [b|].
    + destruct Hslot as [-> Hb], Hold as [[Hbs Hbc] Hbl]. cbn [Z.eqb]. apply wp_ret.
      apply (Hok s P NE EM B F _ None b); [|split|done].
      * eapply inv_perm; [|exact Hi]. unfold llist. cbn. solve_Permutation.
      * done.
      * split; [done|]. exists (Some x). exact Hb.
      * split; [done|lia].
      * done.
    + destruct Hslot as [-> [v Hb]]. cbn [Z.eqb]. apply wp_bind.
      eapply (wp_take_bucket (llist None (x, []) ++ X)); [exact Hi|..].
      * intros s' P' NE' EM' B' F' y yl I' Hs' Hlen' Hc' K'. apply wp_ret.
        apply (Hok s' P' NE' EM' B' F' _ None (y, yl)); [|split|by eapply keeps_app_r].
        -- eapply inv_perm; [|exact I']. unfold llist, elems. cbn. solve_Permutation.
        -- done.
        -- split; [done|]. exists v. cbn. by rewrite Hb.
        -- split; [|unfold elems; cbn [fst snd]; lia]. split; [done|]. cbn [fst]. by rewrite Hc', <- Hlen'.
        -- done.
      * intros s' P' NE' EM' B' F' lost e He I' K'. apply wp_ret.
        apply (Herr s' P' NE' EM' B' F' lost); [done|done| |by eapply keeps_app_r].
        eapply local_rep_keeps; [|exact HL]. by eapply keeps_app_l.
  - rewrite (proj2 (Z.eqb_neq (Z.of_nat (length (elems (x, y :: xl)))) 1)) by (cbn; lia).
    assert (Hxy : words (hp s) !! x = Some y) by (by apply (Hseg 0%nat)).
    assert (Hy : y ∈ llist old (x, y :: xl) ++ X).
    { apply elem_of_app. left. apply elem_of_app. right. right. by left. }
    apply wp_bind. eapply (wp_ld_inv _ _ _ _ _ _ _ x); [exact Hi|done|by left|exact Hxy|].
    apply wp_bind. eapply (wp_st_inv _ _ _ _ _ _ _ y); [exact Hi|done|by right|]. apply wp_ret.
    set (c := u64 (Z.of_nat (length (elems (x, y :: xl))) - 1)).
    assert (Hcv : c = Z.of_nat (length (elems (y, xl)))).
    { unfold c, elems in *. cbn [fst snd length] in *. rewrite u64_small; lia. }
    destruct (inv_upd _ _ _ _ _ _ _ y (y + off_bucket_info) c Hi Hy (proj2 (in_block_words y))) as [I1 K1].
    pose proof (inv_nodup _ _ _ _ _ _ _ Hi) as Hnd. apply list.NoDup_app in Hnd as (Hnd1 & Hnd2 & _).
    apply list.NoDup_app in Hnd1 as (_ & Hnd1 & _).
    assert (KX : keeps X s (upd s (y + off_bucket_info) c)).
    { apply K1. intros z Hz. split; [apply elem_of_app; by right|]. intros ->.
      apply (Hnd2 y); [|done]. apply elem_of_app. right. right. by left. }
    apply (Hok _ P NE EM B F _ old (y, xl)); [|split|exact KX].
    + eapply inv_perm; [|exact I1]. unfold llist, elems. cbn. solve_Permutation.
    + done.
    + destruct old as [b|]; cbn in *.
      * destruct Hslot as [-> ->]. done.
      * destruct Hslot as [-> [v ->]]. split; [done|]. by exists v.
    + split; [|unfold elems in *; cbn [fst snd length] in *; lia]. split; [|by rewrite <- Hcv; apply lookup_insert_eq].
      eapply seg_frame; [|intros i; apply (Hseg (S i))]. intros z Hz. cbn.
      rewrite lookup_insert_ne; [done|].
      eapply hdr_info_ne; [apply Hi|eapply inv_hdr; [exact Hi|]|eapply inv_hdr; [exact Hi|done]].
      apply elem_of_app. left. apply elem_of_app. right. by right.
    + destruct old as [b|]; [|done]. destruct Hold as [Hb Hbl]. split; [|done].
      eapply bkt_keeps; [|exact Hb]. apply K1. intros z Hz. split.
      * apply elem_of_app. left. apply elem_of_app. by left.
      * intros ->. apply (Hnd1 y Hz). right. by left.
Qed.

Lemma wp_return_oldest s P NE EM B F X l b cur Q :
  inv s P NE EM B F (elems b ++ X) → bkt (words (hp s)) b → Z.of_nat (length (elems b)) = n →
  buckets l = [Some b.1; Some cur] →
  (∀ s', inv s' P NE EM (b :: B) F X → keeps X s s' →
     Q (LocalPool (local_num_headers_per_bucket l) (bucket_index l) [Some cur; Some cur]) s') →
  wp (return_oldest l) Q s.
Proof.
  intros Hi [Hseg _] Hlen Hb HQ. unfold return_oldest. apply wp_bind. unfold get_bucket. rewrite Hb.
  apply wp_ret, wp_bind. eapply wp_return_bucket_inv; [exact Hi|done|done|]. intros s' I' K'.
  apply wp_bind, wp_ret, wp_ret. unfold set_bucket. rewrite Hb. by apply HQ.
Qed.

(** The freed header starts a bucket above the full bucket [cur]. *)
Lemma wp_start_bucket s P NE EM B F X l cur x v Q :
  inv s P NE EM B F (x :: elems cur ++ X) → local_num_headers_per_bucket l = n →
  buckets l = [Some cur.1; v] → bkt (words (hp s)) cur → Z.of_nat (length (elems cur)) = n →
  (∀ s' l' old' cur', inv s' P NE EM B F (llist old' cur' ++ X) →
     local_rep (words (hp s')) l' old' cur' → keeps X s s' → Q l' s') →
  wp (st x 0;; st (x + off_bucket_info) 1;; mret (set_bucket 1 x (set_bucket_index 1 l))) Q s.
Proof.
  intros Hi Hnum Hb Hcur Hlen HQ. pose proof (ok_n _ _ _ _ _ Hcfg) as Hn.
  assert (Hx : x ∈ x :: elems cur ++ X) by (by left).
  destruct (set_header _ _ _ _ _ _ _ x 0 1 Hi Hx) as (I1 & Hv & Hc & K1).
  apply wp_bind. eapply (wp_st_inv _ _ _ _ _ _ _ x); [exact Hi|done|by left|].
  destruct (inv_upd _ _ _ _ _ _ _ x x 0 Hi Hx (proj1 (in_block_words x))) as [I2 _].
  apply wp_bind. eapply (wp_st_inv _ _ _ _ _ _ _ x); [exact I2|done|by right|]. apply wp_ret.
  pose proof (inv_nodup _ _ _ _ _ _ _ Hi) as Hnd. apply NoDup_cons in Hnd as [Hnd _].
  assert (K : keeps (elems cur ++ X) s (upd (upd s x 0) (x + off_bucket_info) 1)).
  { apply K1. intros y Hy. split; [by right|]. by intros ->. }
  apply (HQ _ _ (Some cur) (x, [])); [|split|by eapply keeps_app_r].
  - eapply inv_perm; [|exact I1]. unfold llist. cbn. solve_Permutation.
  - done.
  - split; [done|]. cbn. by rewrite Hb.
  - split; [|cbn; lia]. split; [by intros [|i] ? ? ?|done].
  - split; [|done]. eapply bkt_keeps; [|exact Hcur]. by eapply keeps_app_l.
Qed.

Lemma wp_free s P NE EM B F X l old cur x Q :
  inv s P NE EM B F (x :: llist old cur ++ X) → local_rep (words (hp s)) l old cur →
  (∀ s' B' l' old' cur', inv s' P NE EM B' F (llist old' cur' ++ X) →
     local_rep (words (hp s')) l' old' cur' → keeps X s s' → Q l' s') →
  wp (ABTI_mem_pool_free l x) Q s.
Proof.
  intros Hi HL HQ. pose proof (ok_n _ _ _ _ _ Hcfg) as Hn.
  pose proof HL as [Hnum Hslot [Hcur Hle] Hold].
  assert (Hc : cur.1 ∈ x :: llist old cur ++ X).
  { right. apply elem_of_app. left. apply elem_of_app. right. by left. }
  unfold ABTI_mem_pool_free. apply wp_bind. eapply get_bucket_ok; [exact HL|].
  apply wp_bind. eapply (wp_ld_inv _ _ _ _ _ _ _ cur.1); [exact Hi|done|by right|apply Hcur|].
  rewrite Hnum. destruct (Z.eqb_spec (Z.of_nat (length (elems cur))) n) as [Hfull|Hpart].
  - destruct old as [b|].
    + destruct Hslot as [-> Hb], Hold as [Hbk Hbl]. cbn [Z.eqb Z.add]. apply wp_bind.
      change (1 + 1 =? ABT_MEM_POOL_MAX_LOCAL_BUCKETS) with true. cbn match.
      eapply (wp_return_oldest s P NE EM B F (x :: elems cur ++ X)); [|exact Hbk|done|exact Hb|].
      { eapply inv_perm; [|exact Hi]. unfold llist. cbn. solve_Permutation. }
      intros s1 I1 K1.
      change (ABT_MEM_POOL_MAX_LOCAL_BUCKETS - ABT_MEM_POOL_NUM_RETURN_BUCKETS) with 1.
      eapply (wp_start_bucket s1 P NE EM (b :: B) F X _ cur x (Some cur.1));
        [exact I1|done|done| |done|].
      * eapply bkt_keeps; [|exact Hcur]. eapply keeps_sub; [|exact K1].
        intros y Hy. right. apply elem_of_app. by left.
      * intros s' l' old' cur' I' L' K'. eapply HQ; [exact I'|exact L'|].
        eapply keeps_trans; [|exact K']. eapply keeps_sub; [|exact K1].
        intros y Hy. right. apply elem_of_app. by right.
    + destruct Hslot as [-> [v Hb]]. change (0 + 1 =? ABT_MEM_POOL_MAX_LOCAL_BUCKETS) with false.
      cbn match. apply wp_bind, wp_ret.
      eapply (wp_start_bucket s P NE EM B F X l cur x v); [exact Hi|done|exact Hb|done|done|].
      intros s' l' old' cur'. apply HQ.
  - assert (Hx : x ∈ x :: llist old cur ++ X) by (by left).
    pose proof (inv_nodup _ _ _ _ _ _ _ Hi) as Hnd. apply NoDup_cons in Hnd as [Hnd _].
    set (c := u64 (Z.of_nat (length (elems cur)) + 1)).
    assert (Hcv : c = Z.of_nat (length (elems (x, elems cur)))).
    { unfold c. rewrite u64_small by lia. unfold elems at 2. cbn [fst snd length]. lia. }
    destruct (set_header _ _ _ _ _ _ _ x cur.1 c Hi Hx) as (I1 & Hv & Hcc & K1).
    apply wp_bind. eapply (wp_st_inv _ _ _ _ _ _ _ x); [exact Hi|done|by left|].
    destruct (inv_upd _ _ _ _ _ _ _ x x cur.1 Hi Hx (proj1 (in_block_words x))) as [I2 K2].
    apply wp_bind. eapply (wp_ld_inv _ _ _ _ _ _ _ cur.1 _ (Z.of_nat (length (elems cur)))); [exact I2|done|by right| |].
    { cbn. rewrite lookup_insert_ne; [apply Hcur|]. apply not_eq_sym.
      eapply hdr_info_ne; [apply Hi|eapply inv_hdr; [exact Hi|done]|eapply inv_hdr; [exact Hi|done]]. }
    apply wp_bind. eapply (wp_st_inv _ _ _ _ _ _ _ x); [exact I2|done|by right|]. apply wp_ret. fold c.
    assert (K : keeps (llist old cur ++ X) s (upd (upd s x cur.1) (x + off_bucket_info) c)).
    { apply K1. intros y Hy. split; [by right|]. by intros ->. }
    apply (HQ _ B _ old (x, elems cur)); [|split|by eapply keeps_app_r].
    + eapply inv_perm; [|exact I1]. unfold llist, elems. cbn. solve_Permutation.
    + done.
    + destruct old as [b|]; cbn in *.
      * destruct Hslot as [-> ->]. done.
      * destruct Hslot as [-> [v ->]]. split; [done|]. by exists v.
    + split; [|rewrite <- Hcv; unfold c; rewrite u64_small; lia]. split; [|by rewrite <- Hcv].
      apply seg_cons; [|intros q l0 [= <- <-]; done].
      eapply seg_frame; [|apply Hcur]. intros y Hy. apply (K y); [|apply in_block_words].
      apply elem_of_app. left. apply elem_of_app. by right.
    + destruct old as [b|]; [|done]. destruct Hold as [Hb Hbl]. split; [|done].
      eapply bkt_keeps; [|exact Hb]. eapply keeps_sub; [|exact K].
      intros y Hy. apply elem_of_app. left. apply elem_of_app. by left.
Qed.

Lemma wp_init_local s P NE EM B F X Q :
  inv s P NE EM B F X →
  (∀ s' P' NE' EM' B' F' l cur, inv s' P' NE' EM' B' F' (llist None cur ++ X) →
     local_rep (words (hp s')) l None cur → keeps X s s' → Q (ABT_SUCCESS, Some l) s') →
  (∀ s' P' NE' EM' B' F' lost e, e ≠ ABT_SUCCESS → inv s' P' NE' EM' B' F' (lost ++ X) →
     keeps X s s' → Q (e, None) s') →
  wp (ABTI_mem_pool_init_local_pool o) Q s.
Proof.
  intros Hi Hok Herr. unfold ABTI_mem_pool_init_local_pool. apply wp_bind.
  change (wp get ?R s) with (R s s). apply wp_bind.
  destruct (c_cfg _ _ _ _ _ _ _ (i_core _ _ _ _ _ _ _ Hi)) as (_ & _ & _ & Hn & _).
  eapply (wp_take_bucket X); [exact Hi|..].
  - intros s' P' NE' EM' B' F' x l I' Hs Hlen Hc K'. apply wp_ret.
    apply (Hok s' P' NE' EM' B' F' _ (x, l)); [exact I'|split|done].
    + done.
    + split; [done|]. by exists None.
    + split; [|unfold elems; cbn [fst snd]; lia]. split; [done|]. cbn [fst]. by rewrite Hc, <- Hlen.
    + done.
  - intros s' P' NE' EM' B' F' lost e He I' K'. apply wp_ret. by eapply Herr.
Qed.

Lemma wp_destroy_local s P NE EM B F X l old cur Q :
  inv s P NE EM B F (llist old cur ++ X) → local_rep (words (hp s)) l old cur →
  (∀ s' B' F' lost, inv s' P NE EM B' F' (lost ++ X) → keeps X s s' → Q () s') →
  wp (ABTI_mem_pool_destroy_local_pool l) Q s.
Proof.
  intros Hi HL HQ. pose proof HL as [Hnum Hslot [Hcur Hle] Hold].
  assert (Hlast : ∀ s1 B1, inv s1 P NE EM B1 F (elems cur ++ X) → keeps (elems cur ++ X) s s1 →
    wp (cur_bucket ← get_bucket l (bucket_index l);
        num_headers ← ld (cur_bucket + off_bucket_info);
        if num_headers =? local_num_headers_per_bucket l
        then ABTI_mem_pool_return_bucket cur_bucket
        else mem_pool_return_partial_bucket cur_bucket) Q s1).
  { intros s1 B1 I1 K1. apply wp_bind. eapply get_bucket_ok; [exact HL|]. apply wp_bind.
    assert (Hc1 : bkt (words (hp s1)) cur).
    { eapply bkt_keeps; [|exact Hcur]. by eapply keeps_app_l. }
    eapply (wp_ld_inv _ _ _ _ _ _ _ cur.1); [exact I1|by left|by right|apply Hc1|]. rewrite Hnum.
    apply keeps_app_r in K1.
    destruct (Z.eqb_spec (Z.of_nat (length (elems cur))) n) as [Hfull|Hpart].
    - eapply wp_return_bucket_inv; [exact I1|apply Hc1|done|]. intros s2 I2 K2.
      apply (HQ s2 (cur :: B1) F []); [done|by eapply keeps_trans].
    - destruct cur as [x bl]. eapply wp_return_partial; [exact I1|apply Hc1|apply Hc1|unfold elems in *; cbn [fst snd] in *; lia|].
      intros s2 B2 F2 lost I2 K2. eapply HQ; [exact I2|by eapply keeps_trans]. }
  unfold ABTI_mem_pool_destroy_local_pool. apply wp_bind. destruct old as [b|].
  - destruct Hslot as [Hix Hb], Hold as [Hbk Hbl]. rewrite Hix. change (Z.to_nat 1) with 1%nat.
    cbn [return_buckets]. apply wp_bind. unfold get_bucket at 1. rewrite Hb. apply wp_ret, wp_bind.
    eapply (wp_return_bucket_inv s P NE EM B F (elems cur ++ X)); [|apply Hbk|done|].
    { eapply inv_perm; [|exact Hi]. unfold llist. cbn. by rewrite <- app_assoc. }
    intros s1 I1 K1. apply wp_ret. rewrite <- Hix. by eapply Hlast.
  - destruct Hslot as [Hix [v Hb]]. rewrite Hix. apply wp_ret. rewrite <- Hix. by eapply Hlast.
Qed.



(** ** Giving the pages back *)

Section destroy.
Context (Hunprot : enabled mc = true → ∀ h a m, protects o h a m false = true).

Lemma drop_region_words a m h x :
  overlaps x 8 a m = false → words (drop_region a m h) !! x = words h !! x.
Proof.
  intros Hx. cbn. destruct (words h !! x) as [v|] eqn:E.
  - by apply map_lookup_filter_Some_2.
  - apply map_lookup_filter_None_2. by left.
Qed.

(** No guard is left in the page at [b]; the others are as before. *)
Definition unguarded (b : Z) (gs gs' : list (Z * Z)) : Prop :=
  ∀ g, g ∈ gs' → g ∈ gs ∧ overlaps b ps g.1 g.2 = false.

Lemma geo_drop h P b k w gs :
  geo h P → P !! b = Some k → unguarded b (guards h) gs → (enabled mc = false → gs = []) →
  geo (Heap w (delete b (live h)) gs) (delete b P).
Proof.
  intros G Hk Hgs Hoff. pose proof sizes as Hsz. split; cbn.
  - intros b'. destruct (decide (b' = b)) as [->|].
    + by rewrite !lookup_delete_eq.
    + rewrite !lookup_delete_ne by done. apply (geo_live _ _ G).
  - intros b' r Hr. apply lookup_delete_Some in Hr as [_ Hr]. by eapply geo_size.
  - intros b' k' Hk'. apply lookup_delete_Some in Hk' as [_ Hk']. by eapply geo_base.
  - intros b1 b2 [k1 H1] [k2 H2]. apply lookup_delete_Some in H1 as [_ H1].
    apply lookup_delete_Some in H2 as [_ H2]. eapply geo_disj; [done|by eexists..].
  - intros g Hg. destruct (Hgs g Hg) as [Hg' Ho].
    destruct (geo_guard _ _ G g Hg') as (x & Hx & H1 & H2 & H3 & H4). exists x. split; [|done].
    destruct Hx as (b' & k' & j & Hk' & Hj & ->). exists b', k', j. split; [|done].
    rewrite lookup_delete_ne; [done|]. intros <-.
    pose proof (nth_bounds _ _ _ _ _ G Hk' Hj). apply overlaps_false in Ho.
    unfold desc, sizeof_page in *. lia.
  - done.
Qed.

Lemma cut_all a m g : a ≤ g.1 → g.1 + g.2 ≤ a + m → 0 < g.2 → cut a m g = [].
Proof.
  intros H1 H2 H3. unfold cut, overlaps.
  rewrite (proj2 (Z.ltb_lt g.1 (a + m))), (proj2 (Z.ltb_lt a (g.1 + g.2))) by lia. cbn.
  rewrite (proj2 (Z.ltb_ge g.1 a)), (proj2 (Z.ltb_ge (a + m) (g.1 + g.2))) by lia. done.
Qed.
Lemma cut_none a m g : overlaps g.1 g.2 a m = false → cut a m g = [g].
Proof. intros H. unfold cut. by rewrite H. Qed.

(** Unprotecting from the first aligned address of a page on. *)
Lemma unprotect_page h P b k a :
  geo h P → P !! b = Some k → enabled mc = true → b ≤ a → a < b + alignment mc →
  (alignment mc | a) → unguarded b (guards h) (guards h ≫= cut a (b + ps - a)).
Proof.
  intros G Hk He Ha1 Ha2 Had g (g0 & Hg & Hg0)%list_elem_of_bind.
  destruct (geo_guard _ _ G g0 Hg0) as (x & Hx & H1 & H2 & H3 & H4).
  destruct Hx as (b' & k' & j & Hk' & Hj & ->).
  pose proof (nth_bounds _ _ _ _ _ G Hk' Hj) as Hnb. pose proof sizes as Hsz.
  destruct (ok_guard _ _ _ _ _ Hcfg He) as (_ & _ & (kk & Hkk & Hal) & _).
  assert (0 < alignment mc) by (rewrite Hal; apply Z.pow_pos_nonneg; lia).
  unfold desc, sizeof_page in *. destruct (decide (b' = b)) as [->|Hne].
  - rewrite cut_all in Hg; [by apply elem_of_nil in Hg| |lia|done].
    assert (Hbg : b ≤ g0.1) by lia. destruct Had as [q ->], H4 as [q' Hq]. rewrite Hq in *.
    clear - Ha1 Ha2 Hbg H. destruct (decide (q' < q)); nia.
  - assert (Hdj : b + ps ≤ b' ∨ b' + ps ≤ b) by (eapply geo_disj; [done|by eexists|by eexists|done]).
    rewrite cut_none in Hg by (apply overlaps_false; lia).
    apply list_elem_of_singleton in Hg as ->. split; [done|]. apply overlaps_false. lia.
Qed.

Definition drop_heap (h h' : heap) (P : gmap Z Z) (b : Z) : Prop :=
  geo h' (delete b P) ∧
  ∀ b' k', P !! b' = Some k' → b' ≠ b →
    (∀ i, 0 ≤ i ≤ 48 → words h' !! (desc b' + i) = words h !! (desc b' + i)) ∧
    live h' !! b' = live h !! b'.

Lemma lp_code_decode ty : lp_decode (lp_code ty) = Some ty.
Proof. by destruct ty. Qed.

Lemma wp_free_region s P b k ty gs Q :
  geo (hp s) P → P !! b = Some k → live (hp s) !! b = Some (ps, ty) →
  unguarded b (guards (hp s)) gs → (enabled mc = false → gs = []) →
  (∀ h', drop_heap (hp s) h' P b → Q () (Pool h' (gp s))) →
  wp (mem_op (ABTU_free_largepage b ps ty)) Q (Pool (Heap (words (hp s)) (live (hp s)) gs) (gp s)).
Proof.
  intros G Hk Hl Hgs Hoff HQ. destruct (geo_base _ _ G b k Hk) as (Hb & _).
  assert (HQ' : Q () (Pool (drop_region b ps (Heap (words (hp s)) (live (hp s)) gs)) (gp s))).
  { apply HQ. split; [by apply (geo_drop (hp s) P b k)|]. intros b' k' Hk' Hne. split.
    - intros i Hi. rewrite drop_region_words; [done|]. apply overlaps_false.
      pose proof sizes.
      assert (b + ps ≤ b' ∨ b' + ps ≤ b) by (eapply geo_disj; [done|by eexists|by eexists|done]).
      unfold desc, sizeof_page. lia.
    - cbn. by rewrite lookup_delete_ne. }
  apply wp_zoom. unfold ABTU_free_largepage. rewrite (proj2 (Z.eqb_neq b 0)) by lia.
  assert (Hex : existsb (λ g, overlaps b ps g.1 g.2) gs = false).
  { apply not_true_iff_false. intros (g & Hg & Ho)%existsb_exists.
    apply list_elem_of_In in Hg. destruct (Hgs g Hg) as [_ Hf]. congruence. }
  destruct ty; unfold wp, c_free, c_munmap; cbn [live hp guards];
    rewrite Hl, ?Hex, ?Z.eqb_refl; exact HQ'.
Qed.

Lemma wp_free_page s P b k Q :
  same_cfg (gp s) → geo (hp s) P → P !! b = Some k → desc_words (hp s) b k →
  (∀ h', drop_heap (hp s) h' P b → Q () (Pool h' (gp s))) → wp (free_page o (desc b)) Q s.
Proof.
  intros (_ & _ & _ & _ & Hmc) G Hk (W1 & W2 & (ty & Hl & W3) & _) HQ.
  assert (Hb : is_Some (P !! b)) by (by eexists).
  destruct (geo_base _ _ G b k Hk) as (Hb0 & _ & Hb64 & _). pose proof sizes as Hsz.
  unfold free_page. apply wp_bind. change (wp get ?R s) with (R s s). cbv beta zeta. rewrite Hmc.
  apply wp_bind. eapply wp_ld; [by apply (desc_writable (hp s) P)|exact W1|].
  apply wp_bind. eapply wp_ld; [by apply (desc_writable (hp s) P)|exact W2|]. apply wp_bind.
  assert (Hlast : ∀ gs, unguarded b (guards (hp s)) gs → (enabled mc = false → gs = []) →
    wp (code ← ld (desc b + off_lp_type);
        match lp_decode code with
        | Some type => mem_op (ABTU_free_largepage b ps type)
        | None => throw UB
        end) Q (Pool (Heap (words (hp s)) (live (hp s)) gs) (gp s))).
  { intros gs Hgs Hoff. apply wp_bind. eapply wp_ld; [|exact W3|].
    - destruct (desc_writable (hp s) P b off_lp_type) as [Hr _]; [done..|]. exact Hr.
    - rewrite lp_code_decode. by eapply wp_free_region. }
  destruct (enabled mc) eqn:He.
  - destruct (ok_guard _ _ _ _ _ Hcfg He) as (Hmo & Hmp & (kk & Hkk & Hal) & Hfit).
    assert (0 < 2 ^ kk) by (apply Z.pow_pos_nonneg; lia).
    unfold protect_memory, ABTU_roundup_ptr. rewrite Hal in *. rewrite roundup_size_ceil by lia.
    destruct (ceil_pow2_spec kk b) as [Hc Hd]; [lia|]. set (a := ceil_pow2 kk b) in *.
    rewrite u64_small by lia. replace (ps - (a - b)) with (b + ps - a) by lia.
    apply wp_bind, wp_zoom. unfold wp at 1, ABTU_mprotect. rewrite Hunprot by done. cbn [hp].
    apply wp_ret. apply Hlast; [|done]. rewrite <- Hal in *.
    apply (unprotect_page (hp s) P b k a); [done|done|done|lia|lia|done].
  - apply wp_ret. pose proof (geo_off _ _ G He) as Hoff.
    specialize (Hlast (guards (hp s))). destruct s as [[w lv gs] g]. cbn in *. apply Hlast; [|done].
    subst gs. intros g' Hg. by apply elem_of_nil in Hg.
Qed.


(** The pages that are left. *)
Record dinv (s : pool) (p : Z) (P : gmap Z Z) (NE EM : list Z) : Prop := {
  d_cfg : same_cfg (gp s);
  d_geo : geo (hp s) P;
  d_pages : linked (words (hp s)) (top_ptr (mem_page_lifo (gp s))) (desc <$> NE);
  d_empty : elinked (words (hp s)) p EM;
  d_desc b k : P !! b = Some k → desc_words (hp s) b k;
  d_nodup : NoDup (NE ++ EM);
  d_all b : b ∈ NE ++ EM ↔ is_Some (P !! b)
}.

Lemma core_dinv s P NE EM B X : core s P NE EM [] B X → dinv s (p_mem_page_empty (gp s)) P NE EM.
Proof.
  intros [I1 I2 [J1 J2 J3 _ _] _ [I5 I6] _ _]. rewrite app_nil_r in I5, I6. by split.
Qed.

(** The page at [b] is gone; the lists without it are still linked. *)
Lemma dinv_drop s p h' g p' P b NE EM NE' EM' :
  dinv s p P NE EM → drop_heap (hp s) h' P b → NE ++ EM ≡ₚ b :: NE' ++ EM' → same_cfg g →
  linked (words (hp s)) (top_ptr (mem_page_lifo g)) (desc <$> NE') →
  elinked (words (hp s)) p' EM' →
  dinv (Pool h' g) p' (delete b P) NE' EM'.
Proof.
  intros [D1 D2 D3 D4 D5 D6 D7] [G' Hw] HP Hg Hl He. rewrite HP in D6.
  apply NoDup_cons in D6 as [Hb Hnd].
  assert (HP' : ∀ c, c ∈ NE' ++ EM' → ∃ k, P !! c = Some k ∧ c ≠ b).
  { intros c Hc. assert (is_Some (P !! c)) as [k Hk].
    - apply D7. rewrite HP. by right.
    - exists k. split; [done|]. by intros ->. }
  split; cbn [hp gp].
  - done.
  - done.
  - eapply linked_frame; [|exact Hl]. intros x (c & -> & Hc)%list_elem_of_fmap.
    destruct (HP' c) as (k & Hk & Hne); [apply elem_of_app; by left|].
    rewrite <- (Z.add_0_r (desc c)). by apply (Hw c k Hk Hne).
  - eapply elinked_frame; [|exact He]. intros c Hc.
    destruct (HP' c) as (k & Hk & Hne); [apply elem_of_app; by right|]. by apply (Hw c k Hk Hne).
  - intros c k Hk. apply lookup_delete_Some in Hk as [Hne Hk].
    destruct (Hw c k Hk) as [Hwc Hlc]; [done|]. pose proof (D5 c k Hk) as Hd.
    unfold desc_words, off_mem, off_page_size, off_lp_type, off_p_mem_extra, off_mem_extra_size in *.
    rewrite !Hwc, Hlc by lia. done.
  - done.
  - intros c. split.
    + intros Hc. destruct (HP' c Hc) as (k & Hk & Hne). exists k. by rewrite lookup_delete_ne.
    + intros [k Hk]. apply lookup_delete_Some in Hk as [Hne Hk].
      assert (Hin : c ∈ NE ++ EM) by (apply D7; by eexists). rewrite HP in Hin.
      by apply elem_of_cons in Hin as [->|].
Qed.

Lemma desc_pos s p P NE EM b : dinv s p P NE EM → b ∈ NE ++ EM → desc b ≠ 0.
Proof.
  intros D [k Hk]%(d_all _ _ _ _ _ D). destruct (geo_base _ _ (d_geo _ _ _ _ _ D) b k Hk).
  pose proof sizes. unfold desc, sizeof_page. lia.
Qed.

Lemma wp_free_pages NE : ∀ fuel s p P EM Q,
  dinv s p P NE EM → (length NE ≤ fuel)%nat →
  (∀ s' P', dinv s' p P' [] EM → p_mem_page_empty (gp s') = p_mem_page_empty (gp s) → Q () s') →
  wp (free_pages o fuel) Q s.
Proof.
  induction NE as [|b NE IH]; intros fuel s p P EM Q D Hf HQ.
  - pose proof (d_pages _ _ _ _ _ D) as Htop. cbn in Htop.
    assert (Hend : ∀ rest : Z * ABTI_sync_lifo → C pool unit,
      wp (s ← get; r ← mem_op (ABTI_sync_lifo_pop_unsafe (mem_page_lifo (gp s)));
          modify (λ s, set_gp (set_mem_page_lifo r.2 (gp s)) s);;
          if r.1 =? 0 then mret () else rest r) Q s).
    { intros rest. apply wp_bind. change (wp get ?R s) with (R s s). cbv beta. apply wp_bind, wp_zoom.
      unfold ABTI_sync_lifo_pop_unsafe. rewrite Htop. apply wp_ret, wp_bind. unfold wp at 1, modify.
      apply wp_ret. apply (HQ _ P); [|done]. destruct D as [D1 D2 D3 D4 D5 D6 D7]. by split. }
    destruct fuel; apply Hend.
  - assert (Hin : b ∈ (b :: NE) ++ EM) by (by left).
    pose proof (desc_pos _ _ _ _ _ _ D Hin) as Hd0.
    pose proof (d_pages _ _ _ _ _ D) as (Htop & _ & nx & Hnx & Hlk).
    assert (is_Some (P !! b)) as [k Hk] by (by apply (d_all _ _ _ _ _ D)).
    destruct fuel as [|fuel]; [cbn in Hf; lia|]. cbn [free_pages].
    apply wp_bind. change (wp get ?R s) with (R s s). cbv beta. apply wp_bind, wp_zoom.
    unfold ABTI_sync_lifo_pop_unsafe. rewrite Htop, (proj2 (Z.eqb_neq _ _) Hd0).
    apply wp_bind. eapply wp_load; [|exact Hnx|].
    { rewrite <- (Z.add_0_r (desc b)). by apply (desc_writable (hp s) P); [apply D|eexists|..]. }
    apply wp_ret, wp_bind. unfold wp at 1, modify. cbn [fst snd hp gp].
    rewrite (proj2 (Z.eqb_neq _ _) Hd0). apply wp_bind.
    set (g1 := set_mem_page_lifo (SyncLifo nx (u64 (top_tag (mem_page_lifo (gp s)) + 1))) (gp s)).
    unfold mem_pool_lifo_elem_to_page.
    eapply (wp_free_page _ P b k); cbn [hp gp];
      [apply D|apply D|done|by apply (d_desc _ _ _ _ _ D)|].
    intros h' Hdrop. apply (IH fuel _ p (delete b P) EM); [|cbn in Hf; lia|intros s2 P2 D2 E2; by apply (HQ s2 P2)].
    eapply (dinv_drop s p h' g1 p P b (b :: NE) EM NE EM); [done|done|done|apply D|done|apply D].
Qed.

Lemma wp_free_empty_pages EM : ∀ fuel s p P Q,
  dinv s p P [] EM → (length EM ≤ fuel)%nat →
  (∀ s' p' P', dinv s' p' P' [] [] → Q () s') → wp (free_empty_pages o fuel p) Q s.
Proof.
  induction EM as [|b EM IH]; intros fuel s p P Q D Hf HQ.
  - pose proof (d_empty _ _ _ _ _ D) as Htop. cbn in Htop. subst p.
    destruct fuel; by apply (HQ s 0 P).
  - assert (Hin : b ∈ [] ++ b :: EM) by (by left).
    pose proof (desc_pos _ _ _ _ _ _ D Hin) as Hd0.
    pose proof (d_empty _ _ _ _ _ D) as (-> & nx & Hnx & Hlk).
    assert (is_Some (P !! b)) as [k Hk] by (by apply (d_all _ _ _ _ _ D)).
    destruct fuel as [|fuel]; [cbn in Hf; lia|]. cbn [free_empty_pages].
    rewrite (proj2 (Z.eqb_neq _ _) Hd0). apply wp_bind. eapply wp_ld; [|exact Hnx|].
    { by apply (desc_writable (hp s) P); [apply D|eexists|..]. }
    apply wp_bind. eapply (wp_free_page s P b k); [apply D|apply D|done|by apply (d_desc _ _ _ _ _ D)|].
    intros h' Hdrop. apply (IH fuel _ nx (delete b P)); [|cbn in Hf; lia|done].
    eapply (dinv_drop s (desc b) h' (gp s) nx P b [] (b :: EM) [] EM);
      [done|done|done|apply D|apply D|exact Hlk].
Qed.

(** All pages go back, once each. *)
Lemma wp_destroy_global s P NE EM B X fuel Q :
  core s P NE EM [] B X → (size (live (hp s)) ≤ fuel)%nat →
  (∀ s', live (hp s') = ∅ → guards (hp s') = [] → Q () s') →
  wp (ABTI_mem_pool_destroy_global_pool o fuel) Q s.
Proof.
  intros I Hf HQ. pose proof (core_dinv _ _ _ _ _ _ I) as D.
  assert (Hlen : (length (NE ++ EM) ≤ fuel)%nat).
  { etrans; [|exact Hf]. rewrite <- size_dom.
    replace (dom (live (hp s))) with (list_to_set (NE ++ EM) : gset Z).
    - rewrite size_list_to_set; [done|apply D].
    - apply set_eq. intros b. rewrite elem_of_list_to_set, elem_of_dom, (d_all _ _ _ _ _ D).
      symmetry. apply (geo_live _ _ (d_geo _ _ _ _ _ D)). }
  rewrite length_app in Hlen. unfold ABTI_mem_pool_destroy_global_pool. apply wp_bind.
  eapply wp_free_pages; [exact D|lia|]. intros s1 P1 D1 E1. apply wp_bind.
  change (wp get ?R s1) with (R s1 s1). cbv beta. rewrite E1.
  eapply wp_free_empty_pages; [exact D1|lia|]. intros s2 p2 P2 D2.
  assert (HP : ∀ b, P2 !! b = None).
  { intros b. apply eq_None_not_Some. intros Hb%(d_all _ _ _ _ _ D2). by apply elem_of_nil in Hb. }
  apply HQ.
  - apply map_empty. intros b. apply eq_None_not_Some.
    intros Hb%(geo_live _ _ (d_geo _ _ _ _ _ D2)). rewrite HP in Hb. by destruct Hb.
  - destruct (guards (hp s2)) as [|g gs] eqn:Eg; [done|exfalso].
    destruct (geo_guard _ _ (d_geo _ _ _ _ _ D2) g) as (x & (b & k & j & Hk & _) & _).
    + rewrite Eg. by left.
    + by rewrite HP in Hk.
Qed.
End destroy.

(** ** Any sequence of calls *)

Abbreviation rep_of := (option (Z * list Z) * (Z * list Z))%type.
Definition locals (G : gmap nat rep_of) : list Z := map_to_list G ≫= λ p, llist p.2.1 p.2.2.

(** Every local pool is what [G] says. *)
Definition reps (w : gmap Z Z) (L : gmap nat ABTI_mem_pool_local_pool) (G : gmap nat rep_of) : Prop :=
  ∀ i, match L !! i, G !! i with
       | Some l, Some r => local_rep w l r.1 r.2
       | None, None => True
       | _, _ => False
       end.

Record sinv (s : mem_sys) (G : gmap nat rep_of) (lost : list Z) : Prop := {
  si_inv : ∃ P NE EM B F, inv (ms_pool s) P NE EM B F (locals G ++ ms_used s ++ lost);
  si_reps : reps (words (hp (ms_pool s))) (ms_local s) G
}.

Lemma locals_delete G i r : G !! i = Some r → locals G ≡ₚ llist r.1 r.2 ++ locals (delete i G).
Proof.
  intros Hi. unfold locals. rewrite <- (insert_delete_id G i r Hi) at 1.
  rewrite map_to_list_insert by (by rewrite lookup_delete_eq). done.
Qed.
Lemma locals_insert G i r :
  locals (<[i := r]> G) ≡ₚ llist r.1 r.2 ++ locals (delete i G).
Proof.
  rewrite (locals_delete _ i r) by (by rewrite lookup_insert_eq). by rewrite delete_insert_eq.
Qed.

Lemma alter_id {A} (m : gmap nat A) i x : m !! i = Some x → partial_alter (λ _, Some x) i m = m.
Proof. intros <-. apply partial_alter_self. Qed.

Lemma reps_change w w' L G i l' (r' : option rep_of) :
  reps w L G →
  (∀ j l r, j ≠ i → L !! j = Some l → G !! j = Some r → local_rep w l r.1 r.2 → local_rep w' l r.1 r.2) →
  match l', r' with
  | Some l, Some r => local_rep w' l r.1 r.2
  | None, None => True
  | _, _ => False
  end →
  reps w' (partial_alter (λ _, l') i L) (partial_alter (λ _, r') i G).
Proof.
  intros HR Hk Hi j. destruct (decide (j = i)) as [->|Hne].
  - by rewrite !lookup_partial_alter_eq.
  - rewrite !lookup_partial_alter_ne by done. specialize (HR j).
    destruct (L !! j) eqn:E1, (G !! j) eqn:E2; try done. by eapply Hk.
Qed.

(** The others are not touched by a call on local pool [i]. *)
Lemma others_keep s s' (L : gmap nat ABTI_mem_pool_local_pool) (G : gmap nat rep_of) i X :
  keeps (locals (delete i G) ++ X) s s' →
  ∀ j l r, j ≠ i → L !! j = Some l → G !! j = Some r →
    local_rep (words (hp s)) l r.1 r.2 → local_rep (words (hp s')) l r.1 r.2.
Proof.
  intros K j l r Hne _ HG. apply local_rep_keeps. eapply keeps_sub; [|exact K].
  intros x Hx. apply elem_of_app. left. apply list_elem_of_bind. exists (j, r). split; [done|].
  apply elem_of_map_to_list. by rewrite lookup_delete_ne.
Qed.

Lemma reps_lookup w L G i l :
  reps w L G → L !! i = Some l → ∃ r, G !! i = Some r ∧ local_rep w l r.1 r.2.
Proof.
  intros HR Hl. specialize (HR i). rewrite Hl in HR. destruct (G !! i) as [r|]; [|done]. by exists r.
Qed.

Lemma wp_on_pool {A} (m : C pool A) (Q : A → mem_sys → Prop) s :
  wp m (λ a p, Q a (MemSys p (ms_local s) (ms_used s))) (ms_pool s) → wp (on_pool m) Q s.
Proof. unfold wp, on_pool, zoom. by destruct (m (ms_pool s)) as [[a t]|]. Qed.

Lemma wp_the_local i l (Q : _ → mem_sys → Prop) s : ms_local s !! i = Some l → Q l s → wp (the_local i) Q s.
Proof. intros Hl HQ. unfold wp, the_local. by rewrite Hl. Qed.

Lemma keeps_used X Y Z0 s s' : keeps (X ++ Y ++ Z0) s s' → keeps Y s s'.
Proof. intros K. eapply keeps_app_l, keeps_app_r, K. Qed.

Section calls.
Context (s : mem_sys) (G : gmap nat rep_of) (lost : list Z) (HI : sinv s G lost).

Lemma mexec_init i Q :
  ms_local s !! i = None →
  (∀ s' G' lost' r, sinv s' G' lost' → keeps (ms_used s) (ms_pool s) (ms_pool s') →
     ms_used s' = ms_used s → Q r s') →
  wp (mexec o (MInit i)) Q s.
Proof.
  intros Hi HQ. destruct HI as [(P & NE & EM & B & F & Hinv) HR]. cbn [mexec].
  assert (Gi : G !! i = None).
  { specialize (HR i). rewrite Hi in HR. by destruct (G !! i). }
  apply wp_bind, wp_on_pool. eapply wp_init_local; [exact Hinv|..].
  - intros s' P' NE' EM' B' F' l cur I' L' K'. apply wp_bind. unfold wp at 1, modify. apply wp_ret.
    apply (HQ _ (<[i := (None, cur)]> G) lost); [split|by eapply keeps_used|done].
    + exists P', NE', EM', B', F'. eapply inv_perm; [|exact I']. cbn [ms_used set_local].
      rewrite locals_insert, (delete_id G i) by done. by rewrite <- app_assoc.
    + change (reps (words (hp s')) (partial_alter (λ _, Some l) i (ms_local s))
        (partial_alter (λ _, Some (None, cur)) i G)).
      eapply reps_change; [exact HR|eapply (others_keep (ms_pool s) s'); by rewrite delete_id|exact L'].
  - intros s' P' NE' EM' B' F' lost' e He I' K'. apply wp_bind. unfold wp at 1, modify. apply wp_ret.
    apply (HQ _ G (lost ++ lost')); [split|by eapply keeps_used|done].
    + exists P', NE', EM', B', F'. eapply inv_perm; [|exact I']. cbn [ms_used]. solve_Permutation.
    + intros j. specialize (HR j). cbn [ms_local ms_pool snd].
      destruct (ms_local s !! j) as [l|], (G !! j) as [r|] eqn:Ej; try done.
      eapply local_rep_keeps; [|exact HR]. eapply keeps_sub; [|exact K'].
      intros x Hx. apply elem_of_app. left. apply list_elem_of_bind. exists (j, r).
      split; [done|by apply elem_of_map_to_list].
Qed.

Lemma mexec_alloc i Q :
  is_Some (ms_local s !! i) →
  (∀ s' G' lost' x, sinv s' G' lost' → keeps (ms_used s) (ms_pool s) (ms_pool s') →
     ms_used s' = x :: ms_used s → Q ABT_SUCCESS s') →
  (∀ s' G' lost' e, e ≠ ABT_SUCCESS → sinv s' G' lost' → keeps (ms_used s) (ms_pool s) (ms_pool s') →
     ms_used s' = ms_used s → ms_local s' = ms_local s → Q e s') →
  wp (mexec o (MAlloc i)) Q s.
Proof.
  intros [l Hl] Hok Herr. destruct HI as [(P & NE & EM & B & F & Hinv) HR]. cbn [mexec].
  destruct (reps_lookup _ _ _ _ _ HR Hl) as ([old cur] & Gi & L). cbn [fst snd] in L.
  apply wp_bind. eapply wp_the_local; [exact Hl|]. apply wp_bind, wp_on_pool.
  eapply (wp_alloc _ P NE EM B F (locals (delete i G) ++ ms_used s ++ lost)); [|exact L|].
  { eapply inv_perm; [|exact Hinv]. rewrite (locals_delete G i (old, cur) Gi). by rewrite <- app_assoc. }
  split.
  - intros s' P' NE' EM' B' F' l' old' cur' I' L' K'.
    do 2 (apply wp_bind; unfold wp at 1, modify). apply wp_ret.
    apply (Hok _ (<[i := (old', cur')]> G) lost cur.1); [split|by eapply keeps_used|done].
    + exists P', NE', EM', B', F'. eapply inv_perm; [|exact I']. cbn. rewrite locals_insert.
      cbn [fst snd]. solve_Permutation.
    + eapply reps_change; [exact HR|by eapply (others_keep (ms_pool s) s')|exact L'].
  - intros s' P' NE' EM' B' F' lost' e He I' L' K'.
    do 2 (apply wp_bind; unfold wp at 1, modify). apply wp_ret.
    apply (Herr _ G (lost ++ lost')); [done|split|by eapply keeps_used|done|].
    + exists P', NE', EM', B', F'. eapply inv_perm; [|exact I'].
      rewrite (locals_delete G i (old, cur) Gi). cbn [fst snd ms_used set_local]. solve_Permutation.
    + cbn [ms_pool set_local ms_local]. rewrite <- (alter_id G i _ Gi).
      eapply reps_change; [exact HR|by eapply (others_keep (ms_pool s) s')|exact L'].
    + cbn. by apply alter_id.
Qed.


Lemma used_remove (u : list Z) x : NoDup u → x ∈ u → u ≡ₚ x :: filter (λ y, y ≠ x) u.
Proof.
  intros Hnd Hx. apply NoDup_Permutation; [done|..].
  - apply NoDup_cons. split; [|by apply NoDup_filter]. by intros [? _]%list_elem_of_filter.
  - intros y. rewrite elem_of_cons, list_elem_of_filter. destruct (decide (y = x)) as [->|]; naive_solver.
Qed.

Lemma sinv_used_nodup : NoDup (ms_used s).
Proof.
  destruct HI as [(P & NE & EM & B & F & Hinv) _]. apply inv_nodup in Hinv.
  apply list.NoDup_app in Hinv as (_ & _ & Hnd). by apply list.NoDup_app in Hnd as (? & _ & _).
Qed.

Lemma mexec_free i x Q :
  is_Some (ms_local s !! i) → x ∈ ms_used s →
  (∀ s' G' lost', sinv s' G' lost' →
     keeps (filter (λ y, y ≠ x) (ms_used s)) (ms_pool s) (ms_pool s') →
     ms_used s' = filter (λ y, y ≠ x) (ms_used s) → Q ABT_SUCCESS s') →
  wp (mexec o (MFree i x)) Q s.
Proof.
  intros [l Hl] Hx HQ. pose proof (used_remove _ x sinv_used_nodup Hx) as Hu.
  destruct HI as [(P & NE & EM & B & F & Hinv) HR]. cbn [mexec].
  destruct (reps_lookup _ _ _ _ _ HR Hl) as ([old cur] & Gi & L). cbn [fst snd] in L.
  apply wp_bind. eapply wp_the_local; [exact Hl|]. apply wp_bind, wp_on_pool.
  set (u := filter (λ y, y ≠ x) (ms_used s)) in *.
  eapply (wp_free _ P NE EM B F (locals (delete i G) ++ u ++ lost)); [|exact L|].
  { eapply inv_perm; [|exact Hinv]. rewrite (locals_delete G i (old, cur) Gi), Hu. cbn [fst snd].
    solve_Permutation. }
  intros s' B' l' old' cur' I' L' K'. apply wp_bind. unfold wp at 1, modify. apply wp_ret.
  apply (HQ _ (<[i := (old', cur')]> G) lost); [split|by eapply keeps_used|done].
  - exists P, NE, EM, B', F. eapply inv_perm; [|exact I']. cbn [ms_used set_local set_used]. fold u.
    rewrite locals_insert. cbn [fst snd]. by rewrite <- app_assoc.
  - eapply reps_change; [exact HR|by eapply (others_keep (ms_pool s) s')|exact L'].
Qed.

Lemma mexec_destroy i Q :
  is_Some (ms_local s !! i) →
  (∀ s' G' lost', sinv s' G' lost' → keeps (ms_used s) (ms_pool s) (ms_pool s') →
     ms_used s' = ms_used s → Q ABT_SUCCESS s') →
  wp (mexec o (MDestroy i)) Q s.
Proof.
  intros [l Hl] HQ. destruct HI as [(P & NE & EM & B & F & Hinv) HR]. cbn [mexec].
  destruct (reps_lookup _ _ _ _ _ HR Hl) as ([old cur] & Gi & L). cbn [fst snd] in L.
  apply wp_bind. eapply wp_the_local; [exact Hl|]. apply wp_bind, wp_on_pool.
  eapply (wp_destroy_local _ P NE EM B F (locals (delete i G) ++ ms_used s ++ lost)); [|exact L|].
  { eapply inv_perm; [|exact Hinv]. rewrite (locals_delete G i (old, cur) Gi). by rewrite <- app_assoc. }
  intros s' B' F' lost' I' K'. apply wp_bind. unfold wp at 1, modify. apply wp_ret.
  apply (HQ _ (delete i G) (lost ++ lost')); [split|by eapply keeps_used|done].
  - exists P, NE, EM, B', F'. eapply inv_perm; [|exact I']. cbn. solve_Permutation.
  - eapply reps_change; [exact HR|by eapply (others_keep (ms_pool s) s')|done].
Qed.

Lemma mexec_write x a v Q :
  mlegal s (MWrite x a v) →
  (∀ s' G' lost', sinv s' G' lost' →
     words (hp (ms_pool s')) = <[a := v]> (words (hp (ms_pool s))) →
     ms_used s' = ms_used s → Q ABT_SUCCESS s') →
  wp (mexec o (MWrite x a v)) Q s.
Proof.
  intros (Hx & Ha & Ha8 & Hg) HQ. destruct HI as [(P & NE & EM & B & F & Hinv) HR]. cbn [mexec].
  assert (Hx' : x ∈ locals G ++ ms_used s ++ lost) by (rewrite !elem_of_app; auto).
  assert (Hblk : in_block x a).
  { destruct (c_cfg _ _ _ _ _ _ _ (i_core _ _ _ _ _ _ _ Hinv)) as (E1 & _ & E2 & _).
    unfold in_block_of in Ha. by rewrite E1, E2 in Ha. }
  destruct (inv_upd _ _ _ _ _ _ _ x a v Hinv Hx' Hblk) as [I' K'].
  assert (Hreg : in_region (hp (ms_pool s)) a).
  { pose proof (c_geo _ _ _ _ _ _ _ (i_core _ _ _ _ _ _ _ Hinv)) as Ge.
    destruct (block_bounds _ _ _ Ge (inv_hdr _ _ _ _ _ _ _ x Hinv Hx')) as (b & k & Hb & ? & ? & _).
    pose proof sizes. unfold in_block, desc, sizeof_page in *.
    eapply region_in; [exact Ge|by exists k|lia|lia|done]. }
  apply wp_bind, wp_on_pool, wp_st; [done|done|]. apply wp_ret. apply (HQ _ G lost); [split|done|done].
  - by exists P, NE, EM, B, F.
  - intros j. specialize (HR j). cbn [ms_local ms_pool].
    destruct (ms_local s !! j) as [l|], (G !! j) as [r|] eqn:Ej; try done.
    eapply local_rep_keeps; [|exact HR]. apply K'. intros y Hy.
    assert (Hyl : y ∈ locals G).
    { apply list_elem_of_bind. exists (j, r). split; [done|by apply elem_of_map_to_list]. }
    split; [apply elem_of_app; by left|]. intros ->. apply inv_nodup in Hinv.
    apply list.NoDup_app in Hinv as (_ & Hnd & _). apply (Hnd x Hyl). apply elem_of_app. by left.
Qed.
End calls.

(** ** Theorems *)

(** The effect of a call on the blocks in use. *)
Definition call_effect (op : mop) (s : mem_sys) (r : Z) (s' : mem_sys) : Prop :=
  match op with
  | MAlloc i =>
      r = ABT_SUCCESS ∧ (∃ x, ms_used s' = x :: ms_used s) ∨
      r ≠ ABT_SUCCESS ∧ ms_used s' = ms_used s ∧ ms_local s' = ms_local s
  | MFree i x => ms_used s' = filter (λ y, y ≠ x) (ms_used s)
  | _ => ms_used s' = ms_used s
  end.

(** The words of the blocks that stay in use, except the one written. *)
Definition contents_kept (op : mop) (s s' : mem_sys) : Prop :=
  ∀ x a, x ∈ ms_used s → x ∈ ms_used s' → in_block x a →
    match op with MWrite _ a' _ => a ≠ a' | _ => True end →
    words (hp (ms_pool s')) !! a = words (hp (ms_pool s)) !! a.

Lemma mexec_ok s G lost op :
  sinv s G lost → mlegal s op →
  wp (mexec o op)
     (λ r s', (∃ G' lost', sinv s' G' lost') ∧ call_effect op s r s' ∧ contents_kept op s s') s.
Proof.
  intros HI Hleg. destruct op as [i|i|i x|i|x a v].
  - eapply mexec_init; [done|done|]. intros s' G' lost' r I' K' Hu. split; [eauto|]. split; [done|].
    intros y a Hy _ Ha _. by apply (K' y).
  - eapply mexec_alloc; [done|done|..].
    + intros s' G' lost' x I' K' Hu. split; [eauto|]. split; [left; eauto|].
      intros y a Hy _ Ha _. by apply (K' y).
    + intros s' G' lost' e He I' K' Hu Hl. split; [eauto|]. split; [right; auto|].
      intros y a Hy _ Ha _. by apply (K' y).
  - destruct Hleg as [Hl Hx]. eapply mexec_free; [done|done|done|]. intros s' G' lost' I' K' Hu.
    split; [eauto|]. split; [done|]. intros y a Hy Hy' Ha _. apply (K' y); [|done]. by rewrite Hu in Hy'.
  - eapply mexec_destroy; [done|done|]. intros s' G' lost' I' K' Hu. split; [eauto|]. split; [done|].
    intros y a Hy _ Ha _. by apply (K' y).
  - eapply mexec_write; [done|done|]. intros s' G' lost' I' Hw Hu. split; [eauto|]. split; [done|].
    intros y a' Hy _ Ha Hne. rewrite Hw. by rewrite lookup_insert_ne.
Qed.

Lemma start_sinv reqs al pc g :
  ABTI_mem_pool_init_global_pool n hs off ps reqs al pc = Done g →
  mc = default (MprotectConfig false false 0 0 0) pc → sinv (mem_start g) ∅ [].
Proof.
  unfold ABTI_mem_pool_init_global_pool. destruct (off + sizeof_header <=? hs); [|done].
  destruct (length reqs <=? 4)%nat; [|done]. intros [= <-] Hmc. split; [|done].
  exists ∅, [], [], [], None. split; [|done|done]. split.
  - by repeat split.
  - split; cbn; try done.
    + intros b. rewrite !lookup_empty. split; by intros [? ?].
    + intros b b' [k Hb]. by rewrite lookup_empty in Hb.
    + intros g Hg. by apply elem_of_nil in Hg.
  - split; cbn; try done. intros b Hb. by apply elem_of_nil in Hb.
  - intros b k Hb. by apply elem_of_nil in Hb.
  - split; [constructor|]. intros b. rewrite lookup_empty. cbn. split; [by intros ?%elem_of_nil|by intros [? ?]].
  - constructor.
  - intros x. split; [by intros ?%elem_of_nil|]. intros (b & k & j & Hb & _). done.
Qed.

Lemma mreach_sinv reqs al pc g s :
  ABTI_mem_pool_init_global_pool n hs off ps reqs al pc = Done g →
  mc = default (MprotectConfig false false 0 0 0) pc → mreach o (mem_start g) s →
  ∃ G lost, sinv s G lost.
Proof.
  intros Hg Hmc. induction 1 as [|s op r s' Hr (G & lost & IH) Hleg He].
  - exists ∅, []. by eapply start_sinv.
  - pose proof (mexec_ok s G lost op IH Hleg) as Hok. unfold wp in Hok. rewrite He in Hok. apply Hok.
Qed.

(** C10: Any sequence of legal calls from a new global pool, with memory granted or refused at
    will: every call returns; blocks in use never overlap, lie in granted memory and
    not over a page descriptor; an allocation succeeds with a block that was not in use, or
    fails and leaves the local pools as they are; and no call changes
    the contents of a block that stays in use, except a user's own write. *)
Theorem mem_pool_safe reqs al pc g s :
  ABTI_mem_pool_init_global_pool n hs off ps reqs al pc = Done g →
  mc = default (MprotectConfig false false 0 0 0) pc → mreach o (mem_start g) s →
  NoDup (ms_used s) ∧
  (∀ x y, x ∈ ms_used s → y ∈ ms_used s → x ≠ y → x + hs ≤ y ∨ y + hs ≤ x) ∧
  (∀ x, x ∈ ms_used s → ∃ b ty, live (hp (ms_pool s)) !! b = Some (ps, ty) ∧
     b ≤ x - off ∧ x - off + hs ≤ b + ps - sizeof_page) ∧
  (∀ op, mlegal s op → ∃ r s', mexec o op s = Done (r, s') ∧
     call_effect op s r s' ∧ contents_kept op s s').
Proof.
  intros Hg Hmc Hr. destruct (mreach_sinv _ _ _ _ _ Hg Hmc Hr) as (G & lost & HI).
  split; [by eapply sinv_used_nodup|].
  pose proof (si_inv _ _ _ HI) as (P & NE & EM & B & F & Hinv).
  pose proof (c_geo _ _ _ _ _ _ _ (i_core _ _ _ _ _ _ _ Hinv)) as Ge.
  assert (Hh : ∀ x, x ∈ ms_used s → hdr P x).
  { intros x Hx. eapply inv_hdr; [exact Hinv|]. rewrite !elem_of_app. auto. }
  split; [|split].
  - intros x y Hx Hy. by apply (blocks_apart _ _ _ _ Ge); apply Hh.
  - intros x Hx. destruct (block_bounds _ _ _ Ge (Hh x Hx)) as (b & k & Hk & H1 & H2 & _).
    destruct (w_desc _ _ _ _ _ _ (c_words _ _ _ _ _ _ _ (i_core _ _ _ _ _ _ _ Hinv)) b k Hk)
      as (_ & _ & (ty & Hl & _) & _).
    exists b, ty. by unfold desc in H2.
  - intros op Hleg. pose proof (mexec_ok s G lost op HI Hleg) as Hok.
    apply wp_run in Hok as (r & s' & He & _ & Hc). eauto.
Qed.

(** C26: When a pool that was used in any way is destroyed, all its pages go back to the system,
    each once and in the way it was obtained, with no protection left on
    them; as many rounds as there are pages are enough. *)
Theorem mem_pool_gives_back reqs al pc g s :
  ABTI_mem_pool_init_global_pool n hs off ps reqs al pc = Done g →
  mc = default (MprotectConfig false false 0 0 0) pc →
  (enabled mc = true → ∀ h a m, protects o h a m false = true) → mreach o (mem_start g) s →
  ∃ s', ABTI_mem_pool_destroy_global_pool o (size (live (hp (ms_pool s)))) (ms_pool s) = Done ((), s') ∧
        live (hp s') = ∅ ∧ guards (hp s') = [].
Proof.
  intros Hg Hmc Hun Hr. destruct (mreach_sinv _ _ _ _ _ Hg Hmc Hr) as (G & lost & HI).
  pose proof (si_inv _ _ _ HI) as (P & NE & EM & B & F & Hinv).
  assert (Hwp : wp (ABTI_mem_pool_destroy_global_pool o (size (live (hp (ms_pool s)))))
    (λ _ s', live (hp s') = ∅ ∧ guards (hp s') = []) (ms_pool s)).
  { eapply wp_destroy_global; [exact Hun|apply Hinv|done|]. done. }
  apply wp_run in Hwp as ([] & s' & He & H1 & H2). eauto.
Qed.

End layout.

(** ** A system that grants memory upwards *)

Definition top_of (h : heap) : Z := foldr (λ r m, Z.max (r.1 + r.2.1) m) 0 (map_to_list (live h)).
Definition bump (h : heap) : Z := 4096 * (top_of h / 4096 + 1).
Definition bump_os : os :=
  Os (λ h _ m _, if bump h + m <=? 2 ^ 64 then Some (bump h) else None) (λ _ _ _ _, true).

Lemma top_of_ge h b r : live h !! b = Some r → b + r.1 ≤ top_of h ∧ 0 ≤ top_of h.
Proof.
  intros Hr. apply elem_of_map_to_list in Hr. unfold top_of.
  induction (map_to_list (live h)) as [|[b' r'] l IH]; [by apply elem_of_nil in Hr|]. cbn.
  apply elem_of_cons in Hr as [[= -> ->]|Hr]; [|specialize (IH Hr); lia].
  split; [lia|]. assert (0 ≤ foldr (λ r m, Z.max (r.1 + r.2.1) m) 0 l) by (clear; induction l; cbn; lia). lia.
Qed.

Global Instance bump_laws : OsLaws bump_os.
Proof.
  split. intros h ty m al a. cbn. destruct (Z.leb_spec (bump h + m) (2 ^ 64)); [|done]. intros [= <-].
  assert (H0 : 0 ≤ top_of h) by (unfold top_of; clear; induction (map_to_list (live h)); cbn; lia).
  assert (Hb : top_of h < bump h).
  { unfold bump. pose proof (Z.mod_pos_bound (top_of h) 4096). pose proof (Z.div_mod (top_of h) 4096). lia. }
  split; [lia|]. split.
  - unfold bump. apply Z.mod_divide; [done|]. exists (512 * (top_of h / 4096 + 1)). lia.
  - split; [done|]. intros b r Hr. apply overlaps_false. left. destruct (top_of_ge _ _ _ Hr). lia.
Qed.

(** ** Examples *)

Definition no_protection : mprotect_config_t := MprotectConfig false false 0 0 0.
Definition tiny_pool (n : Z) : ABTI_mem_pool_global_pool :=
  GlobalPool 64 600 64 0 n [ABTU_MEM_LARGEPAGE_MALLOC] no_protection
    ABTI_sync_lifo_init ABTI_sync_lifo_init 0 false 0.

Lemma tiny_cfg : cfg_ok 64 600 0 4 no_protection.
Proof. by repeat split; vm_compute. Qed.

(** Stacks of 8 KiB with a guard page. *)
Definition guard_config : mprotect_config_t := MprotectConfig true true 0 4096 4096.
Definition stack_pool : ABTI_mem_pool_global_pool :=
  GlobalPool 8256 24824 4096 8192 2 [ABTU_MEM_LARGEPAGE_MMAP] guard_config
    ABTI_sync_lifo_init ABTI_sync_lifo_init 0 false 0.

Lemma stack_cfg : cfg_ok 8256 24824 8192 2 guard_config.
Proof.
  split; try (by vm_compute). intros _. split; [done|]. split; [done|]. split; [|done].
  exists 12. split; [lia|done].
Qed.

(** Runs a list of calls, as long as they are legal. *)
Definition mlegalb (s : mem_sys) (op : mop) : bool :=
  match op with
  | MInit i => bool_decide (ms_local s !! i = None)
  | MAlloc i | MDestroy i => bool_decide (is_Some (ms_local s !! i))
  | MFree i x => bool_decide (is_Some (ms_local s !! i)) && bool_decide (x ∈ ms_used s)
  | MWrite x a v =>
      bool_decide (x ∈ ms_used s) && (x - header_offset (gp (ms_pool s)) <=? a) &&
      (a + 8 <=? x - header_offset (gp (ms_pool s)) + header_size (gp (ms_pool s))) &&
      (a mod 8 =? 0) && negb (guarded (hp (ms_pool s)) a)
  end.
Fixpoint mrun (o : os) (ops : list mop) (s : mem_sys) : option mem_sys :=
  match ops with
  | [] => Some s
  | op :: ops =>
      if mlegalb s op then
        match mexec o op s with Done (_, s') => mrun o ops s' | Fault _ => None end
      else None
  end.

Lemma mlegalb_legal s op : mlegalb s op = true → mlegal s op.
Proof.
  destruct op; cbn; rewrite ?andb_true_iff, ?bool_decide_eq_true; try done.
  rewrite negb_true_iff, Z.eqb_eq, !Z.leb_le. unfold in_block_of. tauto.
Qed.

Lemma mrun_reach o ops s0 s s' : mreach o s0 s → mrun o ops s = Some s' → mreach o s0 s'.
Proof.
  revert s. induction ops as [|op ops IH]; intros s Hr; cbn; [by intros [= <-]|].
  destruct (mlegalb s op) eqn:El; [|done]. destruct (mexec o op s) as [[r s1]|] eqn:Ee; [|done].
  apply IH. eapply mreach_step; [done|by apply mlegalb_legal|done].
Qed.

Definition tiny_ops : list mop :=
  [MInit 0; MAlloc 0; MAlloc 0; MAlloc 0; MAlloc 0; MAlloc 0; MInit 1; MFree 1 4224; MAlloc 1;
   MWrite 4096 4104 7; MFree 0 4288; MDestroy 1].

Lemma mem_pool_safe_witness :
  ∃ s, mreach bump_os (mem_start (tiny_pool 4)) s ∧ ms_used s = [4224; 4544; 4096; 4160] ∧
       NoDup (ms_used s) ∧ ∃ r s', mexec bump_os (MAlloc 0) s = Done (r, s').
Proof.
  destruct (mrun bump_os tiny_ops (mem_start (tiny_pool 4))) as [s|] eqn:Er; [|vm_compute in Er; discriminate].
  assert (Hv : (ms_used s, bool_decide (is_Some (ms_local s !! 0%nat))) = ([4224; 4544; 4096; 4160], true)).
  { transitivity (match mrun bump_os tiny_ops (mem_start (tiny_pool 4)) with
                  | Some s => (ms_used s, bool_decide (is_Some (ms_local s !! 0%nat)))
                  | None => ([], false) end); [by rewrite Er|by vm_compute]. }
  injection Hv as Hu Hl%bool_decide_eq_true.
  assert (Hr : mreach bump_os (mem_start (tiny_pool 4)) s) by (eapply mrun_reach; [constructor|done]).
  destruct (mem_pool_safe 64 600 0 4 no_protection tiny_cfg bump_os ltac:(done)
    [ABTU_MEM_LARGEPAGE_MALLOC] 64 None (tiny_pool 4) s eq_refl eq_refl Hr) as (H1 & _ & _ & H4).
  exists s. split; [done|]. split; [done|]. split; [done|].
  destruct (H4 (MAlloc 0) Hl) as (r & s' & He & _). by exists r, s'.
Defined.

Lemma mem_pool_gives_back_witness :
  ∃ s s', mreach bump_os (mem_start stack_pool) s ∧ size (live (hp (ms_pool s))) = 2%nat ∧
    ABTI_mem_pool_destroy_global_pool bump_os (size (live (hp (ms_pool s)))) (ms_pool s) = Done ((), s') ∧
    live (hp s') = ∅.
Proof.
  set (ops := [MInit 0; MAlloc 0; MAlloc 0; MInit 1; MAlloc 1]).
  destruct (mrun bump_os ops (mem_start stack_pool)) as [s|] eqn:Er; [|vm_compute in Er; discriminate].
  assert (Hv : size (live (hp (ms_pool s))) = 2%nat).
  { transitivity (match mrun bump_os ops (mem_start stack_pool) with
                  | Some s => size (live (hp (ms_pool s))) | None => O end); [by rewrite Er|by vm_compute]. }
  assert (Hr : mreach bump_os (mem_start stack_pool) s) by (eapply mrun_reach; [constructor|done]).
  destruct (mem_pool_gives_back 8256 24824 8192 2 guard_config stack_cfg bump_os ltac:(done)
    [ABTU_MEM_LARGEPAGE_MMAP] 4096 (Some guard_config) stack_pool s eq_refl eq_refl ltac:(done) Hr)
    as (s' & He & Hl & _).
  exists s, s'. split; [exact Hr|]. split; [exact Hv|]. split; [exact He|exact Hl].
Defined.

(** *** A header that is lost

    Buckets of four; three local pools, one after the other, each give one block out and are
    destroyed with three headers left. *)
Definition leak_ops : list mop :=
  [MInit 0; MAlloc 0; MInit 1; MAlloc 1; MDestroy 0; MDestroy 1; MInit 2; MAlloc 2; MDestroy 2].

(** The headers one finds from the partial bucket. *)
Fixpoint chase (fuel : nat) (w : gmap Z Z) (p : Z) : list Z :=
  match fuel with
  | O => []
  | S fuel => if p =? 0 then [] else p :: chase fuel w (default 0 (w !! p))
  end.

(** Of the eight headers three are in use and all local pools are gone; the partial
    bucket holds four, and its count says one: the second pool left the count
    [4 - 6], and the third cut off what was behind the first header. *)
Example partial_bucket_loses_a_header :
  match mrun bump_os leak_ops (mem_start (tiny_pool 4)) with
  | Some s =>
      let p := partial_bucket (gp (ms_pool s)) in
      let w := words (hp (ms_pool s)) in
      (length (ms_used s), length (chase 10 w p), w !! (p + off_bucket_info),
       top_ptr (bucket_lifo (gp (ms_pool s))), map_to_list (ms_local s)) = (3%nat, 4%nat, Some 1, 0, [])
  | None => False
  end ∧
  match mrun bump_os (take 6 leak_ops) (mem_start (tiny_pool 4)) with
  | Some s => words (hp (ms_pool s)) !! (partial_bucket (gp (ms_pool s)) + off_bucket_info) = Some (2 ^ 64 - 2)
  | None => False
  end.
Proof. split; by vm_compute. Qed.

(** *** Guard pages need room

    A stack of 512 bytes, the smallest the settings allow, with a guard page of 4096: the
    guard covers the headers of the elements, and linking them faults. *)
Example guard_page_over_headers :
  match ABTI_mem_pool_init_local_pool bump_os
          (Pool (Heap ∅ ∅ []) (GlobalPool 832 8192 4096 512 2 [ABTU_MEM_LARGEPAGE_MMAP] guard_config
             ABTI_sync_lifo_init ABTI_sync_lifo_init 0 false 0)) with
  | Fault f => f = UB
  | Done _ => False
  end.
Proof. by vm_compute. Qed.
