(* ===== verification/Hashtable.v ===== *)
(** * The hash table of Argobots

    argobots/src/util/hashtable.c: the table behind the configurations of schedulers and
    pools.  A bucket is an element that lies in the table itself, in use if its [data]
    pointer is set, followed by a chain of allocated elements.  The table refines a
    finite map from keys (C ints) to the stored data. *)

From stdpp Require Import base tactics option list numbers gmap fin_maps.
From Stdlib Require Import ZArith Lia.
From S2P Require Import Prelude Abt.
Open Scope Z_scope.

Section hashtable.
(** The [data_size] bytes behind [data]. *)
Context {V : Type}.

(** [ABTU_hashtable_element] of the table: its key, its data (NULL: [None]) and the
    chain behind [p_next], whose elements always have data. *)
Record bucket := Bucket {
  b_key : Z;
  b_data : option V;
  b_next : list (Z * V)
}.

(** [num_entries] and the elements; [calls] counts the calls of the allocator. *)
Record ABTU_hashtable := Hashtable {
  entries : list bucket;
  calls : nat
}.

(** Whether the n-th allocation succeeds. *)
Variable gives : nat → bool.

(** A table of zeroed elements. *)
Definition ABTU_hashtable_create (num_entries : nat) (n : nat) : Z + ABTU_hashtable :=
  if gives n then inr (Hashtable (replicate num_entries (Bucket 0 None [])) (S n))
  else inl ABT_ERR_MEM.

(** [%] of C truncates, so the index is corrected for negative keys. *)
Definition entry_index (num_entries key : Z) : Z :=
  let entry_index_tmp := Z.rem key num_entries in
  if entry_index_tmp <? 0 then entry_index_tmp + num_entries else entry_index_tmp.

(** [get_element]; the remainder by an empty table is undefined. *)
Definition get_element (key : Z) : C ABTU_hashtable bucket := λ h,
  let n := Z.of_nat (length (entries h)) in
  if n =? 0 then Fault UB else
  match entries h !! Z.to_nat (entry_index n key) with
  | Some b => Done (b, h)
  | None => Fault UB
  end.
Definition set_element (key : Z) (b : bucket) : C ABTU_hashtable unit :=
  modify (λ h, Hashtable
    (<[Z.to_nat (entry_index (Z.of_nat (length (entries h))) key) := b]> (entries h)) (calls h)).

Definition calloc_element : C ABTU_hashtable bool := λ h,
  Done (gives (calls h), Hashtable (entries h) (S (calls h))).

(** The loop of [ABTU_hashtable_get] over the chain. *)
Fixpoint chain_get (key : Z) (l : list (Z * V)) : option V :=
  match l with
  | [] => None
  | (k, v) :: l => if k =? key then Some v else chain_get key l
  end.

(** [Some data] if found. *)
Definition ABTU_hashtable_get (key : Z) : C ABTU_hashtable (option V) :=
  p_element ← get_element key;
  match b_data p_element with
  | None => mret None
  | Some v => mret (if b_key p_element =? key then Some v else chain_get key (b_next p_element))
  end.

(** The loop of [ABTU_hashtable_set] over the chain: the data of the key replaced, or
    [None] if the end of the chain is reached. *)
Fixpoint chain_set (key : Z) (data : V) (l : list (Z * V)) : option (list (Z * V)) :=
  match l with
  | [] => None
  | (k, v) :: l => if k =? key then Some ((k, data) :: l) else cons (k, v) <$> chain_set key data l
  end.

(** The return code, and [overwritten] if it succeeds. *)
Definition ABTU_hashtable_set (key : Z) (data : V) : C ABTU_hashtable (Z + bool) :=
  p_element ← get_element key;
  match b_data p_element with
  | None => set_element key (Bucket key (Some data) (b_next p_element));; mret (inr false)
  | Some v =>
      if b_key p_element =? key then
        set_element key (Bucket key (Some data) (b_next p_element));; mret (inr true)
      else
        match chain_set key data (b_next p_element) with
        | Some l => set_element key (Bucket (b_key p_element) (Some v) l);; mret (inr true)
        | None =>
            ok ← calloc_element;
            if negb ok then mret (inl ABT_ERR_MEM) else
            set_element key (Bucket (b_key p_element) (Some v) (b_next p_element ++ [(key, data)]));;
            mret (inr false)
        end
  end.

(** The loop of [ABTU_hashtable_delete] over the chain. *)
Fixpoint chain_delete (key : Z) (l : list (Z * V)) : option (list (Z * V)) :=
  match l with
  | [] => None
  | (k, v) :: l => if k =? key then Some l else cons (k, v) <$> chain_delete key l
  end.

(** [deleted].  If the element in the table goes, the next one is copied into its place. *)
Definition ABTU_hashtable_delete (key : Z) : C ABTU_hashtable bool :=
  p_element ← get_element key;
  match b_data p_element with
  | None => mret false
  | Some v =>
      if b_key p_element =? key then
        match b_next p_element with
        | (k, w) :: l => set_element key (Bucket k (Some w) l);; mret true
        | [] => set_element key (Bucket (b_key p_element) None []);; mret true
        end
      else
        match chain_delete key (b_next p_element) with
        | Some l => set_element key (Bucket (b_key p_element) (Some v) l);; mret true
        | None => mret false
        end
  end.

(** How many chained elements [ABTU_hashtable_free] frees. *)
Definition ABTU_hashtable_free (h : ABTU_hashtable) : nat :=
  foldr (λ b n, (length (b_next b) + n)%nat) 0%nat (entries h).

(** ** Refinement of a finite map *)

(** The pairs of a bucket. *)
Definition bucket_pairs (b : bucket) : list (Z * V) :=
  match b_data b with Some v => (b_key b, v) :: b_next b | None => [] end.

(** Keys are unique, lie in the bucket their remainder says, and an unused element has no
    chain. *)
Definition bucket_ok (n i : Z) (b : bucket) : Prop :=
  NoDup (bucket_pairs b).*1 ∧ (b_data b = None → b_next b = []) ∧
  Forall (λ p, p.1 mod n = i) (bucket_pairs b).

Record repr (h : ABTU_hashtable) (m : gmap Z V) : Prop := Repr {
  repr_size : 0 < Z.of_nat (length (entries h));
  repr_bucket : ∀ i b, entries h !! i = Some b →
    bucket_ok (Z.of_nat (length (entries h))) (Z.of_nat i) b;
  repr_map : ∀ k v, m !! k = Some v ↔ ∃ i b, entries h !! i = Some b ∧ (k, v) ∈ bucket_pairs b
}.

Lemma entry_index_mod n key : 0 < n → entry_index n key = key mod n.
Proof.
  intros Hn. unfold entry_index. pose proof (Z.rem_bound_abs key n ltac:(lia)).
  pose proof (Z.quot_rem' key n).
  destruct (Z.ltb_spec (Z.rem key n) 0).
  - apply (Z.mod_unique_pos _ _ (Z.quot key n - 1)); lia.
  - apply (Z.mod_unique_pos _ _ (Z.quot key n)); lia.
Qed.

(** The bucket of a key. *)
Lemma get_element_run h m key :
  repr h m →
  ∃ i b, entries h !! i = Some b ∧ Z.of_nat i = key mod Z.of_nat (length (entries h)) ∧
    get_element key h = Done (b, h) ∧
    (∀ b', set_element key b' h = Done ((), Hashtable (<[i := b']> (entries h)) (calls h))) ∧
    bucket_ok (Z.of_nat (length (entries h))) (Z.of_nat i) b ∧
    ∀ v, m !! key = Some v ↔ (key, v) ∈ bucket_pairs b.
Proof.
  intros Hr. pose proof (repr_size _ _ Hr) as Hn.
  pose proof (Z.mod_pos_bound key _ Hn) as Hm.
  destruct (lookup_lt_is_Some_2 (entries h) (Z.to_nat (key mod Z.of_nat (length (entries h))))) as [b Hb]; [lia|].
  eexists _, b. split; [exact Hb|]. split; [lia|].
  unfold get_element, set_element, modify. rewrite (proj2 (Z.eqb_neq _ 0)) by lia.
  rewrite entry_index_mod, Hb by done. split; [done|]. split; [done|].
  pose proof (repr_bucket _ _ Hr _ _ Hb) as Hok. split; [done|]. intros v. rewrite (repr_map _ _ Hr). split.
  - intros (i' & b' & Hb' & Hin). destruct (repr_bucket _ _ Hr _ _ Hb') as (_ & _ & Hall).
    rewrite list.Forall_forall in Hall. specialize (Hall _ Hin). simpl in Hall.
    replace (Z.to_nat _) with i' in Hb by lia. congruence.
  - eauto.
Qed.

(** The table after its bucket [i] became [b']. *)
Lemma repr_update h m m' key i b b' n :
  repr h m → entries h !! i = Some b → Z.of_nat i = key mod Z.of_nat (length (entries h)) →
  bucket_ok (Z.of_nat (length (entries h))) (Z.of_nat i) b' →
  (∀ k v, k ≠ key → (k, v) ∈ bucket_pairs b' ↔ (k, v) ∈ bucket_pairs b) →
  (∀ k, k ≠ key → m' !! k = m !! k) → (∀ v, m' !! key = Some v ↔ (key, v) ∈ bucket_pairs b') →
  repr (Hashtable (<[i := b']> (entries h)) n) m'.
Proof.
  intros Hr Hb Hi Hok Hother Hm' Hkey. pose proof (lookup_lt_Some _ _ _ Hb) as Hlt.
  split; simpl; [by rewrite length_insert; apply Hr|..]; rewrite ?length_insert.
  - intros j c Hj. destruct (decide (i = j)) as [<-|Hne].
    + rewrite list_lookup_insert_eq in Hj by done. by injection Hj as <-.
    + rewrite list_lookup_insert_ne in Hj by done. by apply (repr_bucket _ _ Hr).
  - intros k v. destruct (decide (k = key)) as [->|Hk].
    + rewrite Hkey. split.
      * intros Hin. exists i, b'. by rewrite list_lookup_insert_eq.
      * intros (j & c & Hj & Hin). destruct (decide (i = j)) as [<-|Hne].
        { rewrite list_lookup_insert_eq in Hj by done. by injection Hj as <-. }
        rewrite list_lookup_insert_ne in Hj by done.
        destruct (repr_bucket _ _ Hr _ _ Hj) as (_ & _ & Hall). rewrite list.Forall_forall in Hall.
        specialize (Hall _ Hin). simpl in Hall. lia.
    + rewrite Hm', (repr_map _ _ Hr) by done. split; intros (j & c & Hj & Hin).
      * destruct (decide (i = j)) as [<-|Hne].
        { exists i, b'. rewrite list_lookup_insert_eq by done. split; [done|].
          apply Hother; [done|]. congruence. }
        exists j, c. by rewrite list_lookup_insert_ne.
      * destruct (decide (i = j)) as [<-|Hne].
        { rewrite list_lookup_insert_eq in Hj by done. injection Hj as <-. exists i, b. split; [done|].
          by apply Hother. }
        rewrite list_lookup_insert_ne in Hj by done. by exists j, c.
Qed.
End hashtable.

(** ** Chains *)

Section chains.
Context {V : Type}.
Implicit Types (l : list (Z * V)) (key : Z).

Lemma elem_of_keys l k v : (k, v) ∈ l → k ∈ l.*1.
Proof. intros H. by apply (list_elem_of_fmap_2 fst) in H. Qed.

Lemma chain_get_spec key l :
  NoDup l.*1 → ∀ v, chain_get key l = Some v ↔ (key, v) ∈ l.
Proof.
  induction l as [|[k w] l IH]; simpl; intros Hnd v; [by rewrite elem_of_nil|].
  apply NoDup_cons in Hnd as [Hk Hnd]. rewrite elem_of_cons.
  destruct (Z.eqb_spec k key) as [->|Hne].
  - split; [intros [= ->]; by left|]. intros [[= ->]|Hin]; [done|].
    destruct Hk. by eapply elem_of_keys.
  - rewrite IH by done. split; [by right|]. intros [[= -> _]|?]; done.
Qed.

Lemma chain_set_None key data l : chain_set key data l = None ↔ (key ∉ l.*1).
Proof.
  induction l as [|[k w] l IH]; simpl; [split; [intros _; apply not_elem_of_nil|done]|].
  rewrite not_elem_of_cons. destruct (Z.eqb_spec k key) as [->|Hne].
  - split; [done|]. by intros [? _].
  - rewrite fmap_None, IH. split; [|tauto]. intros; split; [congruence|done].
Qed.

Lemma chain_set_Some key data l l' :
  NoDup l.*1 → chain_set key data l = Some l' →
  l'.*1 = l.*1 ∧ key ∈ l.*1 ∧ (∀ k v, k ≠ key → (k, v) ∈ l' ↔ (k, v) ∈ l) ∧
  ∀ v, (key, v) ∈ l' ↔ v = data.
Proof.
  revert l'. induction l as [|[k w] l IH]; simpl; [done|]. intros l' [Hk Hnd]%NoDup_cons.
  destruct (Z.eqb_spec k key) as [->|Hne].
  - intros [= <-]. simpl. split_and!; [done|apply elem_of_cons; by left| |].
    + intros k v Hk'. rewrite !elem_of_cons. split; (intros [[= -> _]|?]; [done|by right]).
    + intros v. rewrite elem_of_cons. split; [|intros ->; by left]. intros [[= ->]|Hin]; [done|].
      destruct Hk. by eapply elem_of_keys.
  - intros (l1 & Hl1 & ->)%fmap_Some. destruct (IH l1 Hnd Hl1) as (H1 & H2 & H3 & H4).
    csimpl. rewrite H1. split_and!; [done|apply elem_of_cons; by right| |].
    + intros k' v Hk'. rewrite !elem_of_cons, H3 by done. done.
    + intros v. rewrite elem_of_cons, H4. split; [|by right]. intros [[= -> _]|?]; done.
Qed.

Lemma chain_delete_None key l : chain_delete key l = None ↔ (key ∉ l.*1).
Proof.
  induction l as [|[k w] l IH]; simpl; [split; [intros _; apply not_elem_of_nil|done]|].
  rewrite not_elem_of_cons. destruct (Z.eqb_spec k key) as [->|Hne].
  - split; [done|]. by intros [? _].
  - rewrite fmap_None, IH. split; [|tauto]. intros; split; [congruence|done].
Qed.

Lemma chain_delete_Some key l l' :
  NoDup l.*1 → chain_delete key l = Some l' →
  NoDup l'.*1 ∧ key ∈ l.*1 ∧ (key ∉ l'.*1) ∧ (∀ k v, k ≠ key → (k, v) ∈ l' ↔ (k, v) ∈ l).
Proof.
  revert l'. induction l as [|[k w] l IH]; simpl; [done|]. intros l' [Hk Hnd]%NoDup_cons.
  destruct (Z.eqb_spec k key) as [->|Hne].
  - intros [= <-]. split_and!; [done|apply elem_of_cons; by left|done|].
    intros k v Hk'. rewrite elem_of_cons. split; [by right|]. intros [[= -> _]|?]; done.
  - intros (l1 & Hl1 & ->)%fmap_Some. destruct (IH l1 Hnd Hl1) as (H1 & H2 & H3 & H4). csimpl.
    split_and!.
    + apply NoDup_cons. split; [|done]. intros Hin. apply Hk.
      apply list_elem_of_fmap in Hin as ([k' v] & -> & Hin). simpl in *. apply H4 in Hin; [|done].
      by eapply elem_of_keys.
    + apply elem_of_cons. by right.
    + rewrite not_elem_of_cons. split; [congruence|done].
    + intros k' v Hk'. rewrite !elem_of_cons, H4 by done. done.
Qed.
End chains.

(** ** The operations *)

Section refinement.
Context {V : Type} (gives : nat → bool).
Implicit Types (h : @ABTU_hashtable V) (m : gmap Z V).

(** What the abstract map answers and becomes; only a new key can fail. *)
Inductive map_op := MGet (k : Z) | MSet (k : Z) (v : V) | MDelete (k : Z).
Inductive map_answer := AGet (o : option V) | ASet (r : Z + bool) | ADelete (b : bool).

Inductive map_step : gmap Z V → map_op → map_answer → gmap Z V → Prop :=
  | step_get m k : map_step m (MGet k) (AGet (m !! k)) m
  | step_set m k v : map_step m (MSet k v) (ASet (inr (bool_decide (is_Some (m !! k))))) (<[k := v]> m)
  | step_set_fails m k v n :
      m !! k = None → gives n = false → map_step m (MSet k v) (ASet (inl ABT_ERR_MEM)) m
  | step_delete m k : map_step m (MDelete k) (ADelete (bool_decide (is_Some (m !! k)))) (delete k m).

Definition table_op (o : map_op) : C (@ABTU_hashtable V) map_answer :=
  match o with
  | MGet k => r ← ABTU_hashtable_get k; mret (AGet r)
  | MSet k v => r ← ABTU_hashtable_set gives k v; mret (ASet r)
  | MDelete k => r ← ABTU_hashtable_delete k; mret (ADelete r)
  end.

Lemma bucket_mod n i b p : bucket_ok n i b → p ∈ @bucket_pairs V b → p.1 mod n = i.
Proof. intros (_ & _ & H) Hp. rewrite list.Forall_forall in H. by apply H. Qed.

Lemma is_Some_pairs m key (l : list (Z * V)) :
  (∀ v, m !! key = Some v ↔ (key, v) ∈ l) → is_Some (m !! key) ↔ key ∈ l.*1.
Proof.
  intros H. split.
  - intros [v Hv%H]. by eapply elem_of_keys.
  - intros ([k v] & -> & Hin)%list_elem_of_fmap. exists v. by apply H.
Qed.

Lemma hashtable_get_ok h m key :
  repr h m → ABTU_hashtable_get key h = Done (m !! key, h).
Proof.
  intros Hr. destruct (get_element_run h m key Hr) as (i & b & Hb & Hi & Hget & _ & (Hnd & _) & Hm).
  unfold ABTU_hashtable_get. rewrite (C_bind_Done _ _ _ _ _ Hget).
  assert (Hval : m !! key = chain_get key (bucket_pairs b)).
  { apply option_eq. intros v. rewrite Hm. symmetry. by apply chain_get_spec. }
  unfold bucket_pairs in Hval. destruct (b_data b) as [v|]; simpl in Hval; by rewrite Hval.
Qed.

(** A bucket whose pairs were replaced by [l]. *)
Lemma repr_pairs h m m' key i b b' n :
  repr h m → entries h !! i = Some b → Z.of_nat i = key mod Z.of_nat (length (entries h)) →
  bucket_ok (Z.of_nat (length (entries h))) (Z.of_nat i) b →
  NoDup (bucket_pairs b').*1 → (b_data b' = None → b_next b' = []) →
  (∀ k v, k ≠ key → (k, v) ∈ bucket_pairs b' ↔ (k, v) ∈ bucket_pairs b) →
  (∀ k, k ≠ key → m' !! k = m !! k) → (∀ v, m' !! key = Some v ↔ (key, v) ∈ bucket_pairs b') →
  repr (Hashtable (<[i := b']> (entries h)) n) m'.
Proof.
  intros Hr Hb Hi Hok Hnd Hnone Hother Hm' Hkey. eapply repr_update; try done.
  split_and!; [done|done|]. apply list.Forall_forall. intros [k v] Hin. simpl.
  destruct (decide (k = key)) as [->|Hne]; [done|].
  by apply (bucket_mod _ _ b (k, v) Hok), Hother.
Qed.

Lemma hashtable_delete_ok h m key :
  repr h m →
  wp (ABTU_hashtable_delete key)
     (λ r h', r = bool_decide (is_Some (m !! key)) ∧ repr h' (delete key m)) h.
Proof.
  intros Hr. destruct (get_element_run h m key Hr) as (i & b & Hb & Hi & Hget & Hset & Hok & Hm).
  pose proof Hok as (Hnd & Hnone & _).
  unfold ABTU_hashtable_delete. apply wp_bind. eapply wp_Done; [exact Hget|].
  assert (Hmiss : (key ∉ (bucket_pairs b).*1) → false = bool_decide (is_Some (m !! key)) ∧ repr h (delete key m)).
  { rewrite <-(is_Some_pairs m key _ Hm). intros Hno.
    rewrite bool_decide_eq_false_2 by done. split; [done|]. rewrite delete_id; [done|]. by apply eq_None_not_Some. }
  assert (Hhit : ∀ l b', chain_delete key (bucket_pairs b) = Some l → bucket_pairs b' = l →
    (b_data b' = None → b_next b' = []) →
    wp (set_element key b';; mret true) (λ r h', r = bool_decide (is_Some (m !! key)) ∧ repr h' (delete key m)) h).
  { intros l b' Hl Hl' Hn'. destruct (chain_delete_Some _ _ _ Hnd Hl) as (H1 & H2 & H3 & H4). subst l.
    apply wp_bind. eapply wp_Done; [apply Hset|]. apply wp_ret. split.
    - rewrite bool_decide_eq_true_2; [done|]. by apply (is_Some_pairs m key _ Hm).
    - eapply repr_pairs; try done; [intros k Hk; by rewrite lookup_delete_ne|].
      intros v. rewrite lookup_delete_eq. split; [done|]. intros Hin%elem_of_keys. done. }
  unfold bucket_pairs in Hmiss, Hhit. destruct (b_data b) as [v|] eqn:Hd.
  2:{ apply wp_ret, Hmiss, not_elem_of_nil. }
  simpl in Hmiss, Hhit. destruct (b_key b =? key) eqn:Hk.
  - destruct (b_next b) as [|[k w] l] eqn:Hnx; eapply Hhit; done.
  - destruct (chain_delete key (b_next b)) as [l|] eqn:Hl.
    + eapply Hhit; simpl; done.
    + apply wp_ret, Hmiss. apply Z.eqb_neq in Hk. apply chain_delete_None in Hl.
      rewrite not_elem_of_cons. split; [congruence|done].
Qed.

Lemma hashtable_set_ok h m key data :
  repr h m →
  wp (ABTU_hashtable_set gives key data)
     (λ r h', (r = inr (bool_decide (is_Some (m !! key))) ∧ repr h' (<[key := data]> m)) ∨
              (r = inl ABT_ERR_MEM ∧ m !! key = None ∧ (∃ n, gives n = false) ∧ repr h' m)) h.
Proof.
  intros Hr. destruct (get_element_run h m key Hr) as (i & b & Hb & Hi & Hget & Hset & Hok & Hm).
  pose proof Hok as (Hnd & Hnone & _).
  unfold ABTU_hashtable_set. apply wp_bind. eapply wp_Done; [exact Hget|].
  assert (Hrepr : ∀ b' n, NoDup (bucket_pairs b').*1 → (b_data b' = None → b_next b' = []) →
    (∀ k v, k ≠ key → (k, v) ∈ bucket_pairs b' ↔ (k, v) ∈ bucket_pairs b) →
    (∀ v, (key, v) ∈ bucket_pairs b' ↔ v = data) →
    repr (Hashtable (<[i := b']> (entries h)) n) (<[key := data]> m)).
  { intros b' n H1 H2 H3 H4. eapply repr_pairs; try done; [intros k Hk; by rewrite lookup_insert_ne|].
    intros v. rewrite lookup_insert_eq, H4. split; congruence. }
  (* a bucket to which the key is new *)
  assert (Hnew : ∀ b' n, (key ∉ (bucket_pairs b).*1) → bucket_pairs b' = bucket_pairs b ++ [(key, data)] →
    (b_data b' = None → b_next b' = []) →
    false = bool_decide (is_Some (m !! key)) ∧ repr (Hashtable (<[i := b']> (entries h)) n) (<[key := data]> m)).
  { intros b' n Hno Hp Hn'. split.
    { rewrite bool_decide_eq_false_2; [done|]. by rewrite (is_Some_pairs m key _ Hm). }
    apply Hrepr; rewrite ?Hp; [|done|..].
    - rewrite fmap_app. apply NoDup_app. split_and!; [done| |apply NoDup_singleton].
      intros k Hk ->%list_elem_of_singleton. done.
    - intros k v Hk. rewrite elem_of_app, list_elem_of_singleton. split; [|by left]. intros [?|[= -> _]]; done.
    - intros v. rewrite elem_of_app, list_elem_of_singleton. split; [|intros ->; by right].
      intros [Hin%elem_of_keys|[= ->]]; done. }
  (* a bucket that has the key *)
  assert (Hold : ∀ b' l n, chain_set key data (bucket_pairs b) = Some l → bucket_pairs b' = l →
    (b_data b' = None → b_next b' = []) →
    true = bool_decide (is_Some (m !! key)) ∧ repr (Hashtable (<[i := b']> (entries h)) n) (<[key := data]> m)).
  { intros b' l n Hl Hp Hn'. destruct (chain_set_Some _ _ _ _ Hnd Hl) as (H1 & H2 & H3 & H4). subst l.
    split; [|apply Hrepr; [by rewrite H1|done..]].
    rewrite bool_decide_eq_true_2; [done|]. by apply (is_Some_pairs m key _ Hm). }
  assert (Hno : (key ∉ (bucket_pairs b).*1) → m !! key = None).
  { intros Hk. apply eq_None_not_Some. by rewrite (is_Some_pairs m key _ Hm). }
  unfold bucket_pairs in Hnew, Hold, Hno. destruct (b_data b) as [v|] eqn:Hd; simpl in Hnew, Hold, Hno.
  2:{ apply wp_bind. eapply wp_Done; [apply Hset|]. apply wp_ret. left. rewrite (Hnone eq_refl).
      destruct (Hnew (Bucket key (Some data) []) (calls h)) as [-> ?]; try done. apply not_elem_of_nil. }
  destruct (b_key b =? key) eqn:Hk.
  { apply wp_bind. eapply wp_Done; [apply Hset|]. apply wp_ret. left. apply Z.eqb_eq in Hk. subst key.
    edestruct (Hold (Bucket (b_key b) (Some data) (b_next b))) as [-> ?]; try done. }
  apply Z.eqb_neq in Hk. destruct (chain_set key data (b_next b)) as [l|] eqn:Hl.
  { apply wp_bind. eapply wp_Done; [apply Hset|]. apply wp_ret. left.
    edestruct (Hold (Bucket (b_key b) (Some v) l)) as [-> ?]; try done. }
  apply chain_set_None in Hl. assert (Hkeys : key ∉ b_key b :: (b_next b).*1).
  { rewrite not_elem_of_cons. split; [congruence|done]. }
  apply wp_bind. unfold wp at 1, calloc_element. destruct (gives (calls h)) eqn:Hg; simpl.
  - apply wp_bind. eapply wp_Done; [|apply wp_ret; left].
    { unfold set_element, modify. simpl. reflexivity. }
    simpl. specialize (Hset (Bucket (b_key b) (Some v) (b_next b ++ [(key, data)]))).
    unfold set_element, modify in Hset. injection Hset as Hset.
    edestruct (Hnew (Bucket (b_key b) (Some v) (b_next b ++ [(key, data)])) (S (calls h))) as [-> Hrep]; try done.
    split; [done|]. simpl in *. by rewrite Hset.
  - apply wp_ret. right. split_and!; [done|by apply Hno|by eauto|]. by destruct Hr.
Qed.
End refinement.

(** ** Sequences of operations *)

Section sequences.
Context {V : Type} (gives : nat → bool).

Fixpoint table_ops (os : list (@map_op V)) : C (@ABTU_hashtable V) (list (@map_answer V)) :=
  match os with
  | [] => mret []
  | o :: os => a ← table_op gives o; rest ← table_ops os; mret (a :: rest)
  end.

Inductive map_steps : gmap Z V → list (@map_op V) → list (@map_answer V) → gmap Z V → Prop :=
  | steps_nil m : map_steps m [] [] m
  | steps_cons m o a m1 os rest m2 :
      map_step gives m o a m1 → map_steps m1 os rest m2 → map_steps m (o :: os) (a :: rest) m2.

Lemma table_op_ok (o : @map_op V) h (m : gmap Z V) :
  repr h m → wp (table_op gives o) (λ a h', ∃ m', map_step gives m o a m' ∧ repr h' m') h.
Proof.
  intros Hr. destruct o as [k|k v|k]; simpl; apply wp_bind.
  - eapply wp_Done; [by apply hashtable_get_ok|]. apply wp_ret. exists m. split; [constructor|done].
  - eapply wp_mono; [by apply hashtable_set_ok|].
    intros r h' [[-> Hr']|(-> & Hk & [n Hg] & Hr')]; apply wp_ret; eexists; (split; [|exact Hr']).
    + constructor.
    + by eapply step_set_fails.
  - eapply wp_mono; [by apply hashtable_delete_ok|]. intros r h' [-> Hr']. apply wp_ret.
    eexists. split; [constructor|done].
Qed.

Lemma table_ops_ok (os : list (@map_op V)) h (m : gmap Z V) :
  repr h m → wp (table_ops os) (λ rs h', ∃ m', map_steps m os rs m' ∧ repr h' m') h.
Proof.
  revert h m. induction os as [|o os IH]; intros h m Hr; simpl.
  { apply wp_ret. exists m. split; [constructor|done]. }
  apply wp_bind. eapply wp_mono; [by apply table_op_ok|]. intros a h1 (m1 & Hs1 & Hr1).
  apply wp_bind. eapply wp_mono; [by apply IH|]. intros rest h2 (m2 & Hs2 & Hr2).
  apply wp_ret. exists m2. split; [by econstructor|done].
Qed.

Lemma create_repr n k h :
  (0 < n)%nat → ABTU_hashtable_create gives n k = inr h → repr h (∅ : gmap Z V).
Proof.
  intros Hn. unfold ABTU_hashtable_create. destruct (gives k); [|done]. intros [= <-].
  split; simpl; rewrite ?length_replicate; [lia|..].
  - intros i b [-> _]%lookup_replicate. split_and!; [constructor|done|constructor].
  - intros k' v. rewrite lookup_empty. split; [done|]. intros (i & b & [-> _]%lookup_replicate & Hin).
    by apply not_elem_of_nil in Hin.
Qed.
End sequences.

(** a hash table refines a finite map.  From a fresh table of any nonzero number of
    buckets, any sequence of gets, sets and deletes runs without a fault (also with
    negative keys and colliding ones), and its answers are those of a finite map that
    starts empty: what is found, whether a key was overwritten or deleted; only the
    insertion of a new key can fail, when memory is exhausted, and then it changes nothing. *)
Theorem hashtable_refines_map {V} gives n k (os : list (@map_op V)) h :
  (0 < n)%nat → ABTU_hashtable_create gives n k = inr h →
  ∃ answers h' m', table_ops gives os h = Done (answers, h') ∧
    map_steps gives ∅ os answers m' ∧
    ∀ key, ABTU_hashtable_get key h' = Done (m' !! key, h').
Proof.
  intros Hn Hc. pose proof (table_ops_ok gives os h ∅ (create_repr gives n k h Hn Hc)) as Hwp.
  apply wp_run in Hwp as (answers & h' & Hrun & m' & Hsteps & Hr'). exists answers, h', m'.
  split_and!; [done|done|]. intros key. by apply hashtable_get_ok.
Qed.

Lemma hashtable_refines_map_witness :
  ∃ h' m', table_ops (λ _, true) [MSet 3 30; MSet (-1) 10; MSet 3 31; MGet (-1); MDelete 3; MGet 3]
             (Hashtable (replicate 4 (Bucket 0 None [])) 1) =
           Done ([ASet (inr false); ASet (inr false); ASet (inr true); AGet (Some 10);
                  ADelete true; AGet None], h') ∧
         map_steps (λ _, true) ∅ [MSet 3 30; MSet (-1) 10; MSet 3 31; MGet (-1); MDelete 3; MGet 3]
           [ASet (inr false); ASet (inr false); ASet (inr true); AGet (Some 10); ADelete true; AGet None] m'.
Proof.
  destruct (hashtable_refines_map (λ _, true) 4 0
    [MSet 3 30; MSet (-1) 10; MSet 3 31; MGet (-1); MDelete 3; MGet 3]
    (Hashtable (replicate 4 (Bucket 0 None [])) 1)) as (answers & h' & m' & Hrun & Hsteps & _);
    [lia|reflexivity|].
  exists h', m'. vm_compute in Hrun. injection Hrun as <- <-. split; [vm_compute; reflexivity|exact Hsteps].
Defined.
