(* ===== verification/Config.v ===== *)
(** * Configurations of schedulers and pools

    argobots/src/sched/sched_config.c and pool/pool_config.c: tables from keys to typed
    values, on top of the hash table.  The two files are the same code with other names and
    error codes: the shared bodies come first, then the two interfaces.  What a
    [void *] argument points to is one 64-bit word; an int occupies its lower half. *)

From stdpp Require Import base tactics option list numbers gmap fin_maps.
From Stdlib Require Import ZArith Lia.
From S2P Require Import Prelude Abt Hashtable.
Open Scope Z_scope.

Definition ABT_ERR_INV_SCHED_CONFIG : Z := 11.
Definition ABT_ERR_INV_POOL_CONFIG : Z := 56.

Definition CONFIG_INT : Z := 0.
Definition CONFIG_DOUBLE : Z := 1.
Definition CONFIG_PTR : Z := 2.

(** [sched_config_element]: the type and the word of the union. *)
Record element := Element { e_type : Z; e_val : Z }.

Abbreviation table := (@ABTU_hashtable element) (only parsing).

(** ** The shared bodies *)

(** [memset] to 0, then the member of the union is written. *)
Definition create_element_int (val : Z) : element := Element CONFIG_INT (u32 val).
Definition create_element_double (bits : Z) : element := Element CONFIG_DOUBLE (u64 bits).
Definition create_element_ptr (ptr : Z) : element := Element CONFIG_PTR (u64 ptr).

Definition create_element_typed (type word : Z) : Z + element :=
  if type =? CONFIG_INT then inr (create_element_int (i32 word))
  else if type =? CONFIG_DOUBLE then inr (create_element_double word)
  else if type =? CONFIG_PTR then inr (create_element_ptr word)
  else inl ABT_ERR_INV_ARG.

(** The word behind [ptr] after the write; an unknown type fails an assertion. *)
Definition read_element (e : element) (word : Z) : outcome Z :=
  if e_type e =? CONFIG_INT then Done (word - word mod 2 ^ 32 + u32 (e_val e))
  else if e_type e =? CONFIG_DOUBLE then Done (e_val e)
  else if e_type e =? CONFIG_PTR then Done (e_val e)
  else Fault AssertFailed.

Section config.
Variable gives : nat → bool.

(** A value is added, or deleted if [val] is NULL; the answer is the return code. *)
Definition config_set (key type : Z) (val : option Z) : C table Z :=
  match val with
  | Some word =>
      match create_element_typed type word with
      | inl e => mret e
      | inr data =>
          r ← ABTU_hashtable_set gives key data;
          mret (match r with inl e => e | inr _ => ABT_SUCCESS end)
      end
  | None => _ ← ABTU_hashtable_delete key; mret ABT_SUCCESS
  end.

(** The return code, the word behind [val] and the type. *)
Definition config_get (key : Z) (val : option Z) : C table (Z + (option Z * Z)) :=
  r ← ABTU_hashtable_get key;
  match r with
  | None => mret (inl ABT_ERR_INV_ARG)
  | Some data =>
      match val with
      | Some word =>
          match read_element data word with
          | Done w => mret (inr (Some w, e_type data))
          | Fault f => throw f
          end
      | None => mret (inr (None, e_type data))
      end
  end.

(** [ABTI_..._config_read]: as [config_get] without the type. *)
Definition config_read (key : Z) (val : option Z) : C table (Z + option Z) :=
  r ← config_get key val; mret (match r with inl e => inl e | inr (w, _) => inr w end).

(** A handle is a table or NULL. *)
Definition with_handle {A} (err : Z) (config : option table) (m : C table A)
    : outcome ((Z + A) * option table) :=
  match config with
  | None => Done (inl err, None)
  | Some h => match m h with Done (a, h') => Done (inr a, Some h') | Fault f => Fault f end
  end.
End config.

(** ** Schedulers *)

Module SchedConfig.
Definition SCHED_CONFIG_HTABLE_SIZE : nat := 8.

Definition ABT_sched_config_var_end : Z * Z := (-1, CONFIG_INT).
Definition ABT_sched_config_access : Z * Z := (-2, CONFIG_INT).
Definition ABT_sched_config_automatic : Z * Z := (-3, CONFIG_INT).
Definition ABT_sched_basic_freq : Z * Z := (-4, CONFIG_INT).

Section sched.
Variable gives : nat → bool.

(** The loop over the variable arguments: pairs of a variable [(idx, type)] and a word. *)
Fixpoint read_vars (args : list (Z * Z * Z)) : C table (Z + unit) :=
  match args with
  | [] => throw UB   (* the list must end with ABT_sched_config_var_end *)
  | (idx, type, word) :: args =>
      if idx =? ABT_sched_config_var_end.1 then mret (inr ()) else
      match create_element_typed type word with
      | inl e => mret (inl e)
      | inr data =>
          r ← ABTU_hashtable_set gives idx data;
          match r with inl e => mret (inl e) | inr _ => read_vars args end
      end
  end.

(** The return code, or the new handle.  The configuration itself is the first allocation. *)
Definition ABT_sched_config_create (args : list (Z * Z * Z)) : outcome (Z + table) :=
  if negb (gives 0%nat) then Done (inl ABT_ERR_MEM) else
  match ABTU_hashtable_create gives SCHED_CONFIG_HTABLE_SIZE 1 with
  | inl e => Done (inl e)
  | inr h =>
      match read_vars args h with
      | Fault f => Fault f
      | Done (inl e, _) => Done (inl e)   (* the table is freed *)
      | Done (inr _, h') => Done (inr h')
      end
  end.

Definition ABT_sched_config_set (config : option table) (idx type : Z) (val : option Z) :=
  with_handle ABT_ERR_INV_SCHED_CONFIG config (config_set gives idx type val).
Definition ABT_sched_config_get (config : option table) (idx : Z) (val : option Z) :=
  with_handle ABT_ERR_INV_SCHED_CONFIG config (config_get idx val).

(** The variables 0, 1, ... are read into the words behind the pointers that are not NULL. *)
Fixpoint read_ptrs (idx : Z) (ptrs : list (option Z)) : C table (list (option Z)) :=
  match ptrs with
  | [] => mret []
  | None :: ptrs => r ← read_ptrs (idx + 1) ptrs; mret (None :: r)
  | Some word :: ptrs =>
      o ← ABTU_hashtable_get idx;
      w ← match o with
          | None => mret word
          | Some data => match read_element data word with
                         | Done w => mret w
                         | Fault f => throw f
                         end
          end;
      r ← read_ptrs (idx + 1) ptrs; mret (Some w :: r)
  end.
Definition ABT_sched_config_read (config : option table) (ptrs : list (option Z)) :=
  with_handle ABT_ERR_INV_SCHED_CONFIG config (read_ptrs 0 ptrs).

Definition ABTI_sched_config_read (idx : Z) (val : option Z) : C table (Z + option Z) :=
  config_read idx val.

(** The handle becomes NULL. *)
Definition ABT_sched_config_free (config : option table) : Z * option table :=
  match config with
  | None => (ABT_ERR_INV_SCHED_CONFIG, None)
  | Some _ => (ABT_SUCCESS, None)
  end.
End sched.
End SchedConfig.

(** ** Pools *)

Module PoolConfig.
Definition POOL_CONFIG_HTABLE_SIZE : nat := 8.
Definition ABT_pool_config_automatic : Z * Z := (-2, CONFIG_INT).

Section pool.
Variable gives : nat → bool.

Definition ABT_pool_config_create : Z + table :=
  if negb (gives 0%nat) then inl ABT_ERR_MEM
  else ABTU_hashtable_create gives POOL_CONFIG_HTABLE_SIZE 1.

Definition ABT_pool_config_set (config : option table) (key type : Z) (val : option Z) :=
  with_handle ABT_ERR_INV_POOL_CONFIG config (config_set gives key type val).
Definition ABT_pool_config_get (config : option table) (key : Z) (val : option Z) :=
  with_handle ABT_ERR_INV_POOL_CONFIG config (config_get key val).
Definition ABTI_pool_config_read (key : Z) (val : option Z) : C table (Z + option Z) :=
  config_read key val.

Definition ABT_pool_config_free (config : option table) : Z * option table :=
  match config with
  | None => (ABT_ERR_INV_POOL_CONFIG, None)
  | Some _ => (ABT_SUCCESS, None)
  end.
End pool.
End PoolConfig.

(** ** What a configuration holds *)

(** The values a table stands for are of the three known types. *)
Definition typed (m : gmap Z element) : Prop :=
  map_Forall (λ _ e, e_type e = CONFIG_INT ∨ e_type e = CONFIG_DOUBLE ∨ e_type e = CONFIG_PTR) m.
Definition holds_config (h : table) (m : gmap Z element) : Prop := repr h m ∧ typed m.

Lemma create_element_type type word e :
  create_element_typed type word = inr e →
  e_type e = type ∧ (type = CONFIG_INT ∨ type = CONFIG_DOUBLE ∨ type = CONFIG_PTR).
Proof.
  unfold create_element_typed.
  destruct (Z.eqb_spec type CONFIG_INT); [intros [= <-]; auto|].
  destruct (Z.eqb_spec type CONFIG_DOUBLE); [intros [= <-]; auto|].
  destruct (Z.eqb_spec type CONFIG_PTR); [intros [= <-]; auto|done].
Qed.

(** The word that is stored and read back: an int in the lower half, anything else whole. *)
Definition stored (type word old : Z) : Z :=
  if type =? CONFIG_INT then old - old mod 2 ^ 32 + u32 (i32 word) else u64 word.

Lemma read_created type word e old :
  create_element_typed type word = inr e → read_element e old = Done (stored type word old).
Proof.
  unfold create_element_typed, stored, read_element.
  destruct (Z.eqb_spec type CONFIG_INT) as [->|].
  { intros [= <-]. simpl. f_equal. unfold u32. by rewrite Z.mod_mod. }
  destruct (Z.eqb_spec type CONFIG_DOUBLE) as [->|]; [by intros [= <-]|].
  destruct (Z.eqb_spec type CONFIG_PTR) as [->|]; [by intros [= <-]|done].
Qed.

Lemma typed_reads m key e word :
  typed m → m !! key = Some e → ∃ w, read_element e word = Done w.
Proof.
  intros Hm He. unfold read_element. destruct (Hm key e He) as [H|[H|H]]; rewrite H; simpl; eauto.
Qed.

Lemma config_get_ok h m key word :
  holds_config h m →
  config_get key (Some word) h =
    match m !! key with
    | None => Done (inl ABT_ERR_INV_ARG, h)
    | Some e => match read_element e word with
                | Done w => Done (inr (Some w, e_type e), h)
                | Fault f => Fault f
                end
    end.
Proof.
  intros [Hr _]. unfold config_get. rewrite (C_bind_Done _ _ _ _ _ (hashtable_get_ok h m key Hr)).
  destruct (m !! key) as [e|]; [|done]. by destruct (read_element e word).
Qed.

Lemma typed_insert m key e :
  typed m → (e_type e = CONFIG_INT ∨ e_type e = CONFIG_DOUBLE ∨ e_type e = CONFIG_PTR) →
  typed (<[key := e]> m).
Proof. intros Hm He. by apply map_Forall_insert_2. Qed.

Lemma config_set_ok gives h m key type word e :
  holds_config h m → create_element_typed type word = inr e →
  wp (config_set gives key type (Some word))
     (λ r h', (r = ABT_SUCCESS ∧ holds_config h' (<[key := e]> m)) ∨
              (r = ABT_ERR_MEM ∧ (∃ n, gives n = false) ∧ holds_config h' m)) h.
Proof.
  intros [Hr Hm] He. destruct (create_element_type _ _ _ He) as [Ht Htypes]. unfold config_set. rewrite He.
  apply wp_bind. eapply wp_mono; [by apply hashtable_set_ok|].
  intros r h' [[-> Hr']|(-> & _ & Hg & Hr')]; apply wp_ret; [left|right]; split_and!; try done.
  split; [done|]. apply typed_insert; [done|congruence].
Qed.

Lemma config_delete_ok gives h m key type :
  holds_config h m →
  wp (config_set gives key type None) (λ r h', r = ABT_SUCCESS ∧ holds_config h' (delete key m)) h.
Proof.
  intros [Hr Hm]. unfold config_set. apply wp_bind. eapply wp_mono; [by apply hashtable_delete_ok|].
  intros r h' [_ Hr']. apply wp_ret. split; [done|]. split; [done|]. by apply map_Forall_delete.
Qed.

(** ** The claims *)

(** The last value the arguments give to a variable. *)
Fixpoint last_var (idx : Z) (args : list (Z * Z * Z)) : option (Z * Z) :=
  match args with
  | [] => None
  | (i, type, word) :: args =>
      match last_var idx args with
      | Some tw => Some tw
      | None => if i =? idx then Some (type, word) else None
      end
  end.

Definition valid_var (arg : Z * Z * Z) : bool :=
  negb (arg.1.1 =? -1) && (0 <=? arg.1.2) && (arg.1.2 <=? 2).

Lemma valid_creates type word :
  (0 <=? type) && (type <=? 2) = true → ∃ e, create_element_typed type word = inr e.
Proof.
  intros H. assert (type = 0 ∨ type = 1 ∨ type = 2) as [->|[->| ->]] by lia; by eexists.
Qed.

(** What the arguments make of a map. *)
Definition add_vars (args : list (Z * Z * Z)) (m m' : gmap Z element) : Prop :=
  ∀ idx, match last_var idx args with
         | Some (type, word) => ∃ e, m' !! idx = Some e ∧ create_element_typed type word = inr e
         | None => m' !! idx = m !! idx
         end.

Lemma read_vars_ok gives args rest word h m :
  (∀ n, gives n = true) → forallb valid_var args = true → holds_config h m →
  wp (SchedConfig.read_vars gives (args ++ (-1, 0, word) :: rest))
     (λ r h', r = inr () ∧ ∃ m', holds_config h' m' ∧ add_vars args m m') h.
Proof.
  intros Hg. revert h m. induction args as [|[[i type] w] args IH]; intros h m Hv Hh; simpl.
  { apply wp_ret. split; [done|]. exists m. split; [done|]. by intros idx. }
  apply andb_true_iff in Hv as [Hv Hvs]. unfold valid_var in Hv. cbn [fst snd] in Hv.
  destruct (Z.eqb_spec i (-1)) as [->|Hi]; [done|].
  destruct (valid_creates type w ltac:(lia)) as [e He]. rewrite He.
  destruct (create_element_type _ _ _ He) as [Ht Htypes]. destruct Hh as [Hr Hm].
  apply wp_bind. eapply wp_mono; [by apply hashtable_set_ok|].
  intros r h1 [[-> Hr1]|(_ & _ & [n Hn] & _)]; [|by rewrite Hg in Hn].
  assert (Hh1 : holds_config h1 (<[i := e]> m)) by (split; [done|apply typed_insert; [done|congruence]]).
  eapply wp_mono; [by apply (IH h1 (<[i := e]> m))|]. intros r h2 (-> & m' & Hh2 & Hadd).
  split; [done|]. exists m'. split; [done|]. intros idx. specialize (Hadd idx). simpl.
  destruct (last_var idx args) as [[t' w']|]; [done|]. rewrite Hadd.
  destruct (Z.eqb_spec i idx) as [->|Hne].
  - exists e. by rewrite lookup_insert_eq.
  - by rewrite lookup_insert_ne.
Qed.

Lemma fresh_config gives n : ∀ h, ABTU_hashtable_create gives 8 n = inr h → holds_config h ∅.
Proof.
  intros h Hh. split; [eapply (create_repr gives 8 n); [lia|done]|]. apply map_Forall_empty.
Qed.

(** a scheduler configuration created from a list of variables answers for each of them
    the type and the value it was given last (an int as an int, other values as whole
    words), and INV_ARG for every other variable. *)
Theorem sched_config_create_get gives args rest word :
  (∀ n, gives n = true) → forallb valid_var args = true →
  ∃ h, SchedConfig.ABT_sched_config_create gives (args ++ (-1, 0, word) :: rest) = Done (inr h) ∧
    ∀ idx old, SchedConfig.ABT_sched_config_get (Some h) idx (Some old) =
      Done (inr (match last_var idx args with
                 | Some (type, w) => inr (Some (stored type w old), type)
                 | None => inl ABT_ERR_INV_ARG
                 end), Some h).
Proof.
  intros Hg Hv. unfold SchedConfig.ABT_sched_config_create. rewrite Hg. cbn [negb].
  destruct (ABTU_hashtable_create gives SchedConfig.SCHED_CONFIG_HTABLE_SIZE 1) as [e|h0] eqn:Hc.
  { unfold ABTU_hashtable_create in Hc. by rewrite Hg in Hc. }
  pose proof (read_vars_ok gives args rest word h0 ∅ Hg Hv (fresh_config gives 1 h0 Hc)) as Hwp.
  apply wp_run in Hwp as (r & h & -> & -> & m & Hh & Hadd). exists h. split; [done|].
  intros idx old. unfold SchedConfig.ABT_sched_config_get, with_handle. rewrite (config_get_ok h m) by done.
  specialize (Hadd idx). destruct (last_var idx args) as [[type w]|].
  - destruct Hadd as (e & -> & He). rewrite (read_created _ _ _ old He).
    by destruct (create_element_type _ _ _ He) as [-> _].
  - by rewrite Hadd, lookup_empty.
Qed.

Lemma sched_config_create_get_witness :
  ∃ h, SchedConfig.ABT_sched_config_create (λ _, true)
         ([(-4, CONFIG_INT, 5); (-3, CONFIG_INT, 1); (-4, CONFIG_INT, -7)] ++ [(-1, 0, 0)]) = Done (inr h) ∧
       SchedConfig.ABT_sched_config_get (Some h) (-4) (Some 0) =
         Done (inr (inr (Some (u32 (-7)), CONFIG_INT)), Some h).
Proof.
  destruct (sched_config_create_get (λ _, true) [(-4, CONFIG_INT, 5); (-3, CONFIG_INT, 1); (-4, CONFIG_INT, -7)]
    [] 0) as (h & H1 & H2); [reflexivity|reflexivity|].
  exists h. split; [exact H1|]. rewrite H2. reflexivity.
Defined.

(** setting a value of a pool configuration that holds [m] changes this key only:
    reading it back gives the type and the value, deleting it makes it unknown, a type the
    library does not know is refused with INV_ARG and changes nothing. *)
Theorem pool_config_set_get gives h m key type word old :
  (∀ n, gives n = true) → holds_config h m →
  (∃ h', PoolConfig.ABT_pool_config_set gives (Some h) key type (Some word) =
           Done (inr (if (0 <=? type) && (type <=? 2) then ABT_SUCCESS else ABT_ERR_INV_ARG), Some h') ∧
     ∀ k, PoolConfig.ABT_pool_config_get (Some h') k (Some old) =
       if (k =? key) && (0 <=? type) && (type <=? 2)
       then Done (inr (inr (Some (stored type word old), type)), Some h')
       else match m !! k with
            | None => Done (inr (inl ABT_ERR_INV_ARG), Some h')
            | Some e => match read_element e old with
                        | Done w => Done (inr (inr (Some w, e_type e)), Some h')
                        | Fault f => Fault f
                        end
            end) ∧
  (∃ h', PoolConfig.ABT_pool_config_set gives (Some h) key type None = Done (inr ABT_SUCCESS, Some h') ∧
     PoolConfig.ABT_pool_config_get (Some h') key (Some old) = Done (inr (inl ABT_ERR_INV_ARG), Some h')).
Proof.
  intros Hg Hh. unfold PoolConfig.ABT_pool_config_set, PoolConfig.ABT_pool_config_get, with_handle. split.
  - destruct ((0 <=? type) && (type <=? 2)) eqn:Ht.
    + destruct (valid_creates type word Ht) as [e He].
      pose proof (config_set_ok gives h m key type word e Hh He) as Hwp.
      apply wp_run in Hwp as (r & h' & -> & [[-> Hh']|(_ & [n Hn] & _)]); [|by rewrite Hg in Hn].
      exists h'. split; [done|]. intros k. rewrite (config_get_ok h' (<[key := e]> m)) by done.
      rewrite <-andb_assoc, Ht, andb_true_r. destruct (Z.eqb_spec k key) as [->|Hne].
      * rewrite lookup_insert_eq, (read_created _ _ _ old He).
        by destruct (create_element_type _ _ _ He) as [-> _].
      * rewrite lookup_insert_ne by done. destruct (m !! k) as [e'|]; [|done]. by destruct (read_element e' old).
    + exists h. split.
      { unfold config_set, create_element_typed, CONFIG_INT, CONFIG_DOUBLE, CONFIG_PTR.
        replace (type =? 0) with false by lia. replace (type =? 1) with false by lia.
        by replace (type =? 2) with false by lia. }
      intros k. rewrite <-andb_assoc, Ht, andb_false_r, (config_get_ok h m) by done.
      destruct (m !! k) as [e'|]; [|done]. by destruct (read_element e' old).
  - pose proof (config_delete_ok gives h m key type Hh) as Hwp.
    apply wp_run in Hwp as (r & h' & -> & -> & Hh'). exists h'. split; [done|].
    rewrite (config_get_ok h' (delete key m)) by done. by rewrite lookup_delete_eq.
Qed.

Lemma pool_config_set_get_witness :
  ∃ h', PoolConfig.ABT_pool_config_set (λ _, true) (Some (Hashtable (replicate 8 (Bucket 0 None [])) 2))
          (-2) CONFIG_INT (Some 1) = Done (inr ABT_SUCCESS, Some h').
Proof.
  destruct (pool_config_set_get (λ _, true) (Hashtable (replicate 8 (Bucket 0 None [])) 2) ∅ (-2)
    CONFIG_INT 1 0) as [(h' & H & _) _].
  - reflexivity.
  - apply (fresh_config (λ _, true) 1). reflexivity.
  - exists h'. exact H.
Defined.
