(* ===== verification/Key.v ===== *)
(** * Work-unit-specific data

    argobots/src/key.c and include/abti_key.h: every work unit has a table from keys to
    values, created by the first write, with one chain of elements per bucket.  The
    table and its elements are carved out of descriptors of the memory pool.  The first
    part models the operations as they run alone, the module [Race] the steps of
    several threads that write to the table of one work unit. *)

From stdpp Require Import functions base tactics option list numbers gmap fin_maps.
From Stdlib Require Import ZArith Lia.
From S2P Require Import Prelude Abt Atoi Hashtable Env.
Open Scope Z_scope.

Definition ABTI_KEY_ID_STACKABLE_SCHED : Z := 0.
Definition ABTI_KEY_ID_MIGRATION : Z := 1.
Definition ABTI_KEY_ID_END_ : Z := 2.

(** A destructor and a value are pointers, 0 is NULL. *)
Record ABTI_key := Key { f_destructor : Z; key_id : Z }.

(** What an element holds besides its key: destructor, value, and the place of the element:
    the number of its block and the offset in it. *)
Record ktdata := KtData { d_destructor : Z; d_value : Z; d_block : nat; d_offset : Z }.

(** A block ([ABTI_ktable_mem_header]): its number, and whether it is from the memory pool. *)
Record block := Block { blk : nat; is_from_mempool : bool }.

(** [lock] is the spinlock; [p_used_mem] the list of blocks, newest first;
    [p_extra_mem] the block and offset of the free rest of a block. *)
Record ABTI_ktable := Ktable {
  size : Z;
  lock : bool;
  p_used_mem : list block;
  p_extra_mem : nat * Z;
  extra_mem_size : Z;
  p_elems : list (list (Z * ktdata))
}.

(** [sizeof(ABTI_ktable_mem_header)], [ABTU_MAX_ALIGNMENT], the size of an element rounded
    up to it, and the offset of [p_elems]. *)
Definition HEADER : Z := 16.
Definition MAX_ALIGNMENT : Z := 16.
Definition KTELEM_SIZE : Z := 32.
Definition ELEMS_OFFSET : Z := 32.

Section key.
(** [ABTI_KTABLE_DESC_SIZE], the usable size of a descriptor; the n-th allocation succeeds. *)
Variables (DESC_SIZE : Z) (gives : nat → bool).

(** The table behind [p_keytable] (NULL is [None]) and the number of allocations so far,
    which numbers the blocks. *)
Record kst := Kst { tab : option ABTI_ktable; nblocks : nat }.

Definition alloc_block : C kst (option nat) := λ s,
  Done (if gives (nblocks s) then Some (nblocks s) else None, Kst (tab s) (S (nblocks s))).

Definition ABTI_ktable_create (key_table_size : Z) : C kst (Z + ABTI_ktable) :=
  c_assert (Z.land key_table_size (u32 (key_table_size - 1)) =? 0);;
  let ktable_size := ABTU_roundup_size (ELEMS_OFFSET + 8 * key_table_size) MAX_ALIGNMENT in
  p ← alloc_block;
  match p with
  | None => mret (inl ABT_ERR_MEM)
  | Some b =>
      let elems := replicate (Z.to_nat key_table_size) [] in
      mret (inr (if ktable_size <=? DESC_SIZE
        then Ktable (i32 key_table_size) false [Block b true] (b, HEADER + ktable_size)
                    (DESC_SIZE - ktable_size) elems
        else Ktable (i32 key_table_size) false [Block b false] (b, 0) 0 elems))
  end.

(** A place for [sz] bytes: [(table, Some (block, offset))]. *)
Definition ABTI_ktable_alloc_elem (t : ABTI_ktable) (sz : Z)
    : C kst (ABTI_ktable * option (nat * Z)) :=
  c_assert (Z.land sz (MAX_ALIGNMENT - 1) =? 0);;
  if sz <=? extra_mem_size t then
    let '(b, off) := p_extra_mem t in
    mret (Ktable (size t) (lock t) (p_used_mem t) (b, off + sz) (extra_mem_size t - sz) (p_elems t),
          Some (b, off))
  else
    p ← alloc_block;
    match p with
    | None => mret (t, None)
    | Some b =>
        mret (if sz <=? DESC_SIZE
          then Ktable (size t) (lock t) (Block b true :: p_used_mem t) (b, HEADER + sz)
                      (DESC_SIZE - sz) (p_elems t)
          else Ktable (size t) (lock t) (Block b false :: p_used_mem t) (p_extra_mem t)
                      (extra_mem_size t) (p_elems t), Some (b, HEADER))
    end.

(** [p_key->id & (size - 1)]: [size] is an int, and [size - 1] must not overflow. *)
Definition ABTI_ktable_get_idx (key : ABTI_key) (size : Z) : outcome Z :=
  if size =? INT_MIN then Fault UB else Done (Z.land (key_id key) (u32 (size - 1))).

(** [p_ktable->p_elems[idx]] *)
Definition get_chain (t : ABTI_ktable) (key : ABTI_key) : outcome (nat * list (Z * ktdata)) :=
  match ABTI_ktable_get_idx key (size t) with
  | Fault f => Fault f
  | Done idx => match p_elems t !! Z.to_nat idx with
                | Some l => Done (Z.to_nat idx, l)
                | None => Fault UB
                end
  end.

Definition set_chain (t : ABTI_ktable) (i : nat) (l : list (Z * ktdata)) : ABTI_ktable :=
  Ktable (size t) (lock t) (p_used_mem t) (p_extra_mem t) (extra_mem_size t) (<[i := l]> (p_elems t)).
Definition set_lock (b : bool) (t : ABTI_ktable) : ABTI_ktable :=
  Ktable (size t) b (p_used_mem t) (p_extra_mem t) (extra_mem_size t) (p_elems t).

(** The search: the value of the element with the key is replaced, its destructor stays. *)
Fixpoint elem_set (id value : Z) (l : list (Z * ktdata)) : option (list (Z * ktdata)) :=
  match l with
  | [] => None
  | (k, d) :: l =>
      if k =? id then Some ((k, KtData (d_destructor d) value (d_block d) (d_offset d)) :: l)
      else cons (k, d) <$> elem_set id value l
  end.

(** Alone, the second search finds the end of the chain where the first one left it. *)
Definition ABTI_ktable_set_impl (t : ABTI_ktable) (key : ABTI_key) (value : Z) (is_safe : bool)
    : C kst (Z * ABTI_ktable) :=
  c ← (λ s, match get_chain t key with Done a => Done (a, s) | Fault f => Fault f end);
  let '(i, l) := c in
  match elem_set (key_id key) value l with
  | Some l' => mret (ABT_SUCCESS, set_chain t i l')
  | None =>
      (if is_safe && lock t then throw Blocked else mret ());;
      let t := if is_safe then set_lock true t else t in
      r ← ABTI_ktable_alloc_elem t KTELEM_SIZE;
      let '(t, place) := r in
      match place with
      | None => mret (ABT_ERR_MEM, if is_safe then set_lock false t else t)
      | Some (b, off) =>
          let t := set_chain t i (l ++ [(key_id key, KtData (f_destructor key) value b off)]) in
          mret (ABT_SUCCESS, if is_safe then set_lock false t else t)
      end
  end.

Definition put_table (t : ABTI_ktable) : C kst unit := modify (λ s, Kst (Some t) (nblocks s)).

(** The table behind [pp_ktable], created if there is none. *)
Definition need_table (key_table_size : Z) : C kst (Z + ABTI_ktable) :=
  s ← get;
  match tab s with
  | Some t => mret (inr t)
  | None =>
      r ← ABTI_ktable_create key_table_size;
      match r with
      | inl e => mret (inl e)
      | inr t => put_table t;; mret (inr t)
      end
  end.

Definition ktable_set (is_safe : bool) (key_table_size : Z) (key : ABTI_key) (value : Z) : C kst Z :=
  r ← need_table key_table_size;
  match r with
  | inl e => mret e
  | inr t => '(e, t') ← ABTI_ktable_set_impl t key value is_safe; put_table t';; mret e
  end.
Definition ABTI_ktable_set := ktable_set true.
Definition ABTI_ktable_set_unsafe := ktable_set false.

Definition ABTI_ktable_get (key : ABTI_key) : C kst Z := λ s,
  match tab s with
  | None => Done (0, s)
  | Some t =>
      match get_chain t key with
      | Fault f => Fault f
      | Done (_, l) => Done (match chain_get (key_id key) l with Some d => d_value d | None => 0 end, s)
      end
  end.

(** The calls of destructors, and the blocks that go back: [for (i = 0; i < size; i++)]. *)
Definition destructor_calls (l : list (Z * ktdata)) : list (Z * Z) :=
  (λ p, (d_destructor p.2, d_value p.2)) <$>
    filter (λ p : Z * ktdata, d_destructor p.2 ≠ 0 ∧ d_value p.2 ≠ 0) l.
Definition ABTI_ktable_free (t : ABTI_ktable) : list (Z * Z) * list block :=
  (concat (destructor_calls <$> take (Z.to_nat (size t)) (p_elems t)), p_used_mem t).

(** ** The API *)

(** Handles are [option]s; [initialized] and [on_xstream] stand for ABTI_SETUP_GLOBAL and
    ABTI_SETUP_LOCAL_XSTREAM. *)
Definition ABT_key_create (g_key_id destructor : Z) (ok : bool) : (Z + ABTI_key) * Z :=
  if ok then (inr (Key destructor g_key_id), u32 (g_key_id + 1)) else (inl ABT_ERR_MEM, g_key_id).

Definition ABT_key_free (key : option ABTI_key) : Z * option ABTI_key :=
  match key with None => (ABT_ERR_INV_KEY, None) | Some _ => (ABT_SUCCESS, None) end.

Definition ABT_key_set (initialized on_xstream : bool) (key_table_size : Z) (key : option ABTI_key)
    (value : Z) : C kst Z :=
  match key with
  | None => mret ABT_ERR_INV_KEY
  | Some key =>
      if negb initialized then mret ABT_ERR_UNINITIALIZED
      else if negb on_xstream then mret ABT_ERR_INV_XSTREAM
      else ABTI_ktable_set key_table_size key value
  end.

Definition ABT_key_get (initialized on_xstream : bool) (key : option ABTI_key) : C kst (Z + Z) :=
  match key with
  | None => mret (inl ABT_ERR_INV_KEY)
  | Some key =>
      if negb initialized then mret (inl ABT_ERR_UNINITIALIZED)
      else if negb on_xstream then mret (inl ABT_ERR_INV_XSTREAM)
      else v ← ABTI_ktable_get key; mret (inr v)
  end.
End key.

(** ** The table refines a finite map *)

(** A chain as a bucket of [Hashtable], to use its lemmas. *)
Definition to_bucket (l : list (Z * ktdata)) : @bucket ktdata :=
  match l with [] => Bucket 0 None [] | (k, d) :: l => Bucket k (Some d) l end.
Lemma to_bucket_pairs l : bucket_pairs (to_bucket l) = l.
Proof. by destruct l as [|[k d] l]. Qed.
Lemma to_bucket_none l : b_data (to_bucket l) = None → b_next (to_bucket l) = [].
Proof. by destruct l as [|[k d] l]. Qed.

Definition as_hashtable (t : ABTI_ktable) : @ABTU_hashtable ktdata :=
  Hashtable (to_bucket <$> p_elems t) 0.

(** A table with a power of two of buckets that fits an int. *)
Definition kt_size_ok (t : ABTI_ktable) : Prop :=
  pow2_between 0 30 (size t) ∧ Z.of_nat (length (p_elems t)) = size t.
Definition kt_repr (t : ABTI_ktable) (m : gmap Z ktdata) : Prop :=
  kt_size_ok t ∧ repr (as_hashtable t) m.

Lemma pow2_bounds lo hi v : 0 ≤ lo → pow2_between lo hi v → 1 ≤ v ≤ 2 ^ hi.
Proof.
  intros Hlo (k & Hk & ->). split; [|apply Z.pow_le_mono_r; lia].
  assert (0 < 2 ^ k) by (apply Z.pow_pos_nonneg; lia). lia.
Qed.

Lemma get_idx_mod key sz :
  pow2_between 0 30 sz → ABTI_ktable_get_idx key sz = Done (key_id key mod sz).
Proof.
  intros Hp. pose proof (pow2_bounds 0 30 sz ltac:(lia) Hp). destruct Hp as (k & Hk & ->).
  unfold ABTI_ktable_get_idx, INT_MIN. rewrite (proj2 (Z.eqb_neq _ _)) by lia.
  rewrite u32_small by lia. f_equal. rewrite Z.sub_1_r, <-Z.ones_equiv. apply Z.land_ones. lia.
Qed.

(** The chain of a key. *)
Lemma get_chain_run t m key :
  kt_repr t m →
  ∃ i l, get_chain t key = Done (i, l) ∧ p_elems t !! i = Some l ∧
    Z.of_nat i = key_id key mod Z.of_nat (length (p_elems t)) ∧
    bucket_ok (Z.of_nat (length (p_elems t))) (Z.of_nat i) (to_bucket l) ∧
    ∀ d, m !! key_id key = Some d ↔ (key_id key, d) ∈ l.
Proof.
  intros [[Hp Hlen] Hr]. destruct (get_element_run _ m (key_id key) Hr) as (i & b & Hb & Hi & _ & _ & Hok & Hm).
  simpl in *. rewrite length_fmap in *.
  rewrite list_lookup_fmap in Hb. destruct (p_elems t !! i) as [l|] eqn:Hl; [|done]. injection Hb as <-.
  exists i, l. rewrite to_bucket_pairs in Hm. split_and!; try done.
  unfold get_chain. rewrite get_idx_mod by done. rewrite <-Hlen, <-Hi, Nat2Z.id. by rewrite Hl.
Qed.

Lemma elem_set_chain id value l :
  elem_set id value l =
  (d ← chain_get id l; chain_set id (KtData (d_destructor d) value (d_block d) (d_offset d)) l).
Proof.
  induction l as [|[k d] l IH]; simpl; [done|]. destruct (k =? id); [done|]. rewrite IH.
  by destruct (chain_get id l).
Qed.

(** The table after one of its chains changed at the key [id]. *)
Lemma kt_repr_set t m m' id i l l' ex ems um :
  kt_repr t m → p_elems t !! i = Some l → Z.of_nat i = id mod Z.of_nat (length (p_elems t)) →
  NoDup l'.*1 → (∀ k d, k ≠ id → (k, d) ∈ l' ↔ (k, d) ∈ l) →
  (∀ k, k ≠ id → m' !! k = m !! k) → (∀ d, m' !! id = Some d ↔ (id, d) ∈ l') →
  kt_repr (Ktable (size t) false um ex ems (<[i := l']> (p_elems t))) m'.
Proof.
  intros [[Hp Hlen] Hr] Hl Hi Hnd Hother Hm' Hid. split.
  { split; simpl; [done|by rewrite length_insert]. }
  unfold as_hashtable. simpl. rewrite list_fmap_insert.
  eapply (repr_pairs (as_hashtable t) m m' id i (to_bucket l)); simpl;
    rewrite ?length_fmap, ?to_bucket_pairs; try done.
  - by rewrite list_lookup_fmap, Hl.
  - pose proof (repr_bucket _ _ Hr i (to_bucket l)) as Hok. simpl in Hok. rewrite length_fmap in Hok.
    apply Hok. by rewrite list_lookup_fmap, Hl.
  - apply to_bucket_none.
Qed.

(** ** Memory *)

Section memory.
Variables (DESC_SIZE : Z) (gives : nat → bool).

(** Every element lies in a block of the table and inside of its bounds, no two of them
    overlap, and the free rest of a block is behind its elements. *)
Record mem_ok (m : gmap Z ktdata) (t : ABTI_ktable) (n : nat) : Prop := MemOk {
  mo_nodup : NoDup (blk <$> p_used_mem t);
  mo_old : ∀ b, b ∈ p_used_mem t → (blk b < n)%nat;
  mo_in : ∀ id d, m !! id = Some d → d_block d ∈ blk <$> p_used_mem t ∧
    HEADER ≤ d_offset d ∧ d_offset d + KTELEM_SIZE ≤ HEADER + Z.max DESC_SIZE KTELEM_SIZE;
  mo_disjoint : ∀ id1 id2 d1 d2, m !! id1 = Some d1 → m !! id2 = Some d2 → id1 ≠ id2 →
    d_block d1 = d_block d2 →
    d_offset d1 + KTELEM_SIZE ≤ d_offset d2 ∨ d_offset d2 + KTELEM_SIZE ≤ d_offset d1;
  mo_extra : 0 < extra_mem_size t →
    (p_extra_mem t).1 ∈ blk <$> p_used_mem t ∧ HEADER ≤ (p_extra_mem t).2 ∧
    (p_extra_mem t).2 + extra_mem_size t ≤ HEADER + DESC_SIZE ∧
    ∀ id d, m !! id = Some d → d_block d = (p_extra_mem t).1 →
      d_offset d + KTELEM_SIZE ≤ (p_extra_mem t).2
}.

(** Replacing a value keeps the place of its element. *)
Lemma mem_ok_value m t n id d d' t' :
  mem_ok m t n → m !! id = Some d → d_block d' = d_block d → d_offset d' = d_offset d →
  p_used_mem t' = p_used_mem t → p_extra_mem t' = p_extra_mem t → extra_mem_size t' = extra_mem_size t →
  mem_ok (<[id := d']> m) t' n.
Proof.
  intros [H1 H2 H3 H4 H5] Hd Hb Ho Hu He Hs.
  assert (Hold : ∀ k e, <[id := d']> m !! k = Some e →
    ∃ e0, m !! k = Some e0 ∧ d_block e = d_block e0 ∧ d_offset e = d_offset e0).
  { intros k e. destruct (decide (k = id)) as [->|Hne].
    - rewrite lookup_insert_eq. intros [= <-]. eauto.
    - rewrite lookup_insert_ne by done. eauto. }
  split; rewrite ?Hu, ?He, ?Hs; try done.
  - intros k e (e0 & Hk & -> & ->)%Hold. by eapply H3.
  - intros k1 k2 e1 e2 (f1 & Hk1 & -> & ->)%Hold (f2 & Hk2 & -> & ->)%Hold. by eapply H4.
  - intros Hpos. destruct (H5 Hpos) as (? & ? & ? & H6). split_and!; try done.
    intros k e (e0 & Hk & -> & ->)%Hold. by eapply H6.
Qed.

(** A new element at the place [(b, off)] that no element uses. *)
Lemma mem_ok_new m t t' n n' id d :
  m !! id = None → mem_ok m t n →
  (∀ k e, m !! k = Some e → d_block e = d_block d → d_offset e + KTELEM_SIZE ≤ d_offset d) →
  mem_ok ∅ t' n' → (∀ b, b ∈ blk <$> p_used_mem t → b ∈ blk <$> p_used_mem t') →
  d_block d ∈ blk <$> p_used_mem t' → HEADER ≤ d_offset d →
  d_offset d + KTELEM_SIZE ≤ HEADER + Z.max DESC_SIZE KTELEM_SIZE →
  (0 < extra_mem_size t' →
     (d_block d = (p_extra_mem t').1 → d_offset d + KTELEM_SIZE ≤ (p_extra_mem t').2) ∧
     ∀ k e, m !! k = Some e → d_block e = (p_extra_mem t').1 → d_offset e + KTELEM_SIZE ≤ (p_extra_mem t').2) →
  mem_ok (<[id := d]> m) t' n'.
Proof.
  intros Hid [_ _ H3 H4 _] Hfree [K1 K2 _ _ K5] Hsub Hin Hlo Hhi Hex.
  assert (Hcase : ∀ k e, <[id := d]> m !! k = Some e → (k = id ∧ e = d) ∨ (k ≠ id ∧ m !! k = Some e)).
  { intros k e. destruct (decide (k = id)) as [->|Hne].
    - rewrite lookup_insert_eq. intros [= <-]. by left.
    - rewrite lookup_insert_ne by done. by right. }
  split; try done.
  - intros k e [[-> ->]|[_ Hk]]%Hcase; [done|]. destruct (H3 _ _ Hk) as (? & ? & ?). split_and!; auto.
  - intros k1 k2 e1 e2 [[-> ->]|[? Hk1]]%Hcase [[-> ->]|[? Hk2]]%Hcase Hne Hb; [done|..].
    + right. by eapply Hfree.
    + left. by eapply Hfree.
    + by eapply H4.
  - intros Hpos. destruct (K5 Hpos) as (? & ? & ? & _). destruct (Hex Hpos) as [He1 He2]. split_and!; try done.
    intros k e [[-> ->]|[_ Hk]]%Hcase; [done|]. by eapply He2.
Qed.

Lemma mem_ok_later m t n n' : (n ≤ n')%nat → mem_ok m t n → mem_ok m t n'.
Proof. intros Hn [H1 H2 H3 H4 H5]. split; try done. intros b Hb. specialize (H2 b Hb). lia. Qed.

Lemma mem_ok_empty m t n : mem_ok m t n → mem_ok ∅ t n.
Proof.
  intros [H1 H2 H3 H4 H5]. split; try done.
  intros Hpos. destruct (H5 Hpos) as (? & ? & ? & _). by split_and!.
Qed.

(** What [ABTI_ktable_alloc_elem] does to a table: only its memory changes. *)
Definition alloc_elem_post (m : gmap Z ktdata) (id : Z) (t : ABTI_ktable) (s : kst)
    (r : ABTI_ktable * option (nat * Z)) (s' : kst) : Prop :=
  tab s' = tab s ∧ size r.1 = size t ∧ lock r.1 = lock t ∧ p_elems r.1 = p_elems t ∧
  match r.2 with
  | None => (∃ n, gives n = false) ∧ mem_ok m r.1 (nblocks s')
  | Some (b, off) => ∀ dt v, mem_ok (<[id := KtData dt v b off]> m) r.1 (nblocks s')
  end.

Lemma alloc_elem_spec m id t s :
  0 ≤ DESC_SIZE → mem_ok m t (nblocks s) → m !! id = None →
  wp (ABTI_ktable_alloc_elem DESC_SIZE gives t KTELEM_SIZE) (alloc_elem_post m id t s) s.
Proof.
  intros HD Hm Hid. unfold ABTI_ktable_alloc_elem. apply wp_bind. eapply wp_Done; [done|].
  destruct (Z.leb_spec KTELEM_SIZE (extra_mem_size t)) as [Hfit|Hno].
  - destruct (p_extra_mem t) as [b off] eqn:Hex. apply wp_ret. split_and!; try done. simpl. intros dt v.
    destruct (mo_extra _ _ _ Hm ltac:(unfold KTELEM_SIZE in *; lia)) as (E1 & E2 & E3 & E4).
    rewrite Hex in *. simpl in *.
    eapply (mem_ok_new m t); try done; simpl; try (unfold KTELEM_SIZE in *; lia).
    + split; simpl; try done; try apply Hm; [done..|].
      intros Hpos. split_and!; [done|unfold KTELEM_SIZE in *; lia..|done].
    + intros Hpos. split; [lia|]. intros k e Hk Hb. specialize (E4 k e Hk Hb). unfold KTELEM_SIZE in *. lia.
  - apply wp_bind. unfold wp at 1, alloc_block. destruct (gives (nblocks s)) eqn:Hg.
    2:{ apply wp_ret. split_and!; try done. simpl. split; [by eauto|]. eapply mem_ok_later; [|exact Hm]. lia. }
    apply wp_ret.
    assert (Hfresh : nblocks s ∉ blk <$> p_used_mem t).
    { intros ([b mp] & Hb & Hin)%list_elem_of_fmap. apply (mo_old _ _ _ Hm) in Hin. simpl in *. lia. }
    assert (Hfree : ∀ k e, m !! k = Some e → d_block e ≠ nblocks s).
    { intros k e Hk Hb. destruct (mo_in _ _ _ Hm _ _ Hk) as (Hin & _). by rewrite Hb in Hin. }
    assert (Hused : ∀ mp, NoDup (blk <$> Block (nblocks s) mp :: p_used_mem t) ∧
      ∀ b, b ∈ Block (nblocks s) mp :: p_used_mem t → (blk b < S (nblocks s))%nat).
    { intros mp. split; [csimpl; apply NoDup_cons; split; [done|apply Hm]|].
      intros b [->|Hb]%elem_of_cons; simpl; [lia|]. apply (mo_old _ _ _ Hm) in Hb. lia. }
    destruct (Z.leb_spec KTELEM_SIZE DESC_SIZE) as [Hd|Hd]; (split_and!; try done); simpl; intros dt v.
    + eapply (mem_ok_new m t); try done; simpl; try (unfold KTELEM_SIZE in *; lia).
      * intros k e Hk Hb. by destruct (Hfree k e Hk).
      * split; simpl; [apply (Hused true)|apply (Hused true)|done|done|].
        intros Hpos. split_and!; [by left|unfold KTELEM_SIZE in *; lia..|done].
      * intros b Hb. by right.
      * by left.
      * intros _. split; [lia|]. intros k e Hk Hb. by destruct (Hfree k e Hk).
    + eapply (mem_ok_new m t); try done; simpl; try (unfold KTELEM_SIZE in *; lia).
      * intros k e Hk Hb. by destruct (Hfree k e Hk).
      * split; simpl; [apply (Hused false)|apply (Hused false)|done|done|].
        intros Hpos. destruct (mo_extra _ _ _ Hm Hpos) as (? & ? & ? & _).
        split_and!; [by right|done|done|done].
      * intros b Hb. by right.
      * by left.
      * intros Hpos. destruct (mo_extra _ _ _ Hm Hpos) as (Hin & ? & ? & Hlast). split; [|done].
        intros Heq. exfalso. apply Hfresh. by rewrite Heq.
Qed.
End memory.

(** ** Sequences of writes and reads *)

Section sequences.
Variables (DESC_SIZE : Z) (gives : nat → bool).

Record kt_inv (t : ABTI_ktable) (m : gmap Z ktdata) (n : nat) : Prop := KtInv {
  ki_repr : kt_repr t m;
  ki_lock : lock t = false;
  ki_mem : mem_ok DESC_SIZE m t n
}.

(** The values and destructors, without the places. *)
Definition contents (m : gmap Z ktdata) : gmap Z (Z * Z) := (λ d, (d_value d, d_destructor d)) <$> m.

(** A write to the abstract map: the destructor is the one of the first write. *)
Definition map_set (v : gmap Z (Z * Z)) (key : ABTI_key) (value : Z) : gmap Z (Z * Z) :=
  <[key_id key := (value, match v !! key_id key with Some (_, dt) => dt | None => f_destructor key end)]> v.

Definition set_post (m : gmap Z ktdata) (key : ABTI_key) (value : Z) (e : Z) (t' : ABTI_ktable) (n : nat) : Prop :=
  (e = ABT_SUCCESS ∧ ∃ m', contents m' = map_set (contents m) key value ∧ kt_inv t' m' n) ∨
  (e = ABT_ERR_MEM ∧ m !! key_id key = None ∧ (∃ k, gives k = false) ∧ kt_inv t' m n).

Lemma kt_repr_append t m id i l d ex ems um :
  kt_repr t m → p_elems t !! i = Some l → Z.of_nat i = id mod Z.of_nat (length (p_elems t)) →
  NoDup l.*1 → (id ∉ l.*1) →
  kt_repr (Ktable (size t) false um ex ems (<[i := l ++ [(id, d)]]> (p_elems t))) (<[id := d]> m).
Proof.
  intros Hr Hl Hi Hnd Hno. eapply (kt_repr_set t m); try done.
  - rewrite fmap_app. apply NoDup_app. split_and!; [done| |apply NoDup_singleton].
    intros k Hk ->%list_elem_of_singleton. done.
  - intros k e Hk. rewrite elem_of_app, list_elem_of_singleton. split; [|by left].
    intros [?|[= -> _]]; done.
  - intros k Hk. by rewrite lookup_insert_ne.
  - intros e. rewrite lookup_insert_eq, elem_of_app, list_elem_of_singleton. split.
    + intros [= <-]. by right.
    + intros [Hin%elem_of_keys|[= ->]]; done.
Qed.

Lemma set_impl_ok t m key value safe s :
  0 ≤ DESC_SIZE → kt_inv t m (nblocks s) →
  wp (ABTI_ktable_set_impl DESC_SIZE gives t key value safe)
     (λ r s', tab s' = tab s ∧ set_post m key value r.1 r.2 (nblocks s')) s.
Proof.
  intros HD [Hr Hlock Hmem]. destruct (get_chain_run t m key Hr) as (i & l & Hget & Hl & Hi & Hok & Hm).
  destruct Hok as (Hnd & _ & _). rewrite to_bucket_pairs in Hnd.
  unfold ABTI_ktable_set_impl. apply wp_bind. eapply wp_Done; [by rewrite Hget|].
  cbn beta iota. rewrite elem_set_chain. destruct (chain_get (key_id key) l) as [d|] eqn:Hd.
  - simpl. apply chain_get_spec in Hd as Hin; [|done]. set (d' := KtData _ value _ _).
    destruct (chain_set (key_id key) d' l) as [l'|] eqn:Hs.
    2:{ apply chain_set_None in Hs. destruct Hs. by eapply elem_of_keys. }
    destruct (chain_set_Some _ _ _ _ Hnd Hs) as (H1 & _ & H3 & H4). apply wp_ret. split; [done|]. left.
    split; [done|]. exists (<[key_id key := d']> m). assert (Hmd : m !! key_id key = Some d) by (by apply Hm).
    split.
    { unfold contents, map_set. rewrite fmap_insert, lookup_fmap, Hmd. done. }
    split; [|done|by eapply mem_ok_value]. unfold set_chain. rewrite Hlock.
    eapply (kt_repr_set t m); try done; [by rewrite H1|intros k Hk; by rewrite lookup_insert_ne|].
    intros e. rewrite lookup_insert_eq, H4. split; congruence.
  - simpl. rewrite Hlock, andb_false_r. apply wp_bind, wp_ret.
    assert (Hno : m !! key_id key = None).
    { apply eq_None_not_Some. intros [d E]. apply Hm, chain_get_spec in E; [|done]. congruence. }
    assert (Hkeys : key_id key ∉ l.*1).
    { intros ([k d] & Hk & Hin)%list_elem_of_fmap. simpl in Hk. subst k. apply Hm in Hin. congruence. }
    set (t1 := if safe then set_lock true t else t).
    assert (Ht1 : mem_ok DESC_SIZE m t1 (nblocks s) ∧ size t1 = size t ∧ p_elems t1 = p_elems t ∧ lock t1 = safe).
    { unfold t1. destruct safe; split_and!; try done. by destruct Hmem. }
    destruct Ht1 as (Hmem1 & Hsz1 & Hel1 & Hlk1). clearbody t1.
    apply wp_bind. eapply wp_mono; [by apply (alloc_elem_spec DESC_SIZE gives m (key_id key))|].
    intros [t2 place] s2 (Htab & Hsz & Hlk & Hel & Hpost). simpl in *.
    destruct place as [[b off]|].
    + apply wp_ret. split; [done|]. left. split; [done|].
      exists (<[key_id key := KtData (f_destructor key) value b off]> m). split.
      { unfold contents, map_set. rewrite fmap_insert, lookup_fmap, Hno. done. }
      set (l' := l ++ [(key_id key, KtData (f_destructor key) value b off)]).
      assert (Hrepr : kt_repr (Ktable (size t) false (p_used_mem t2) (p_extra_mem t2) (extra_mem_size t2)
                        (<[i := l']> (p_elems t))) (<[key_id key := KtData (f_destructor key) value b off]> m)).
      { by apply kt_repr_append. }
      specialize (Hpost (f_destructor key) value).
      destruct safe; (split; [|simpl; congruence|by destruct Hpost]);
        unfold set_lock, set_chain; simpl; rewrite Hel, Hel1, Hsz, Hsz1; [done|].
      by rewrite Hlk, Hlk1.
    + apply wp_ret. split; [done|]. right. destruct Hpost as [Hg Hm2]. split_and!; try done.
      assert (Hback : kt_repr (Ktable (size t) false (p_used_mem t2) (p_extra_mem t2) (extra_mem_size t2) (p_elems t)) m)
        by (destruct Hr as [H1 H2]; by split).
      destruct safe; (split; [|simpl; congruence|by destruct Hm2]).
      * unfold set_lock. simpl. by rewrite Hel, Hel1, Hsz, Hsz1.
      * destruct t2; simpl in *. subst. by rewrite Hsz1, Hel1, Hlk1.
Qed.

Lemma create_ok key_table_size s :
  0 ≤ DESC_SIZE → pow2_between 0 30 key_table_size →
  wp (ABTI_ktable_create DESC_SIZE gives key_table_size)
     (λ r s', tab s' = tab s ∧
        match r with
        | inl e => e = ABT_ERR_MEM ∧ ∃ k, gives k = false
        | inr t => kt_inv t ∅ (nblocks s')
        end) s.
Proof.
  intros HD Hp. pose proof (pow2_bounds 0 30 _ ltac:(lia) Hp) as Hb. unfold ABTI_ktable_create.
  assert (Hland : Z.land key_table_size (u32 (key_table_size - 1)) = 0).
  { rewrite u32_small by lia. destruct Hp as (k & Hk & ->). apply pow2_land. lia. }
  rewrite Hland. apply wp_bind, wp_ret, wp_bind. unfold wp at 1, alloc_block.
  destruct (gives (nblocks s)) eqn:Hg; [|apply wp_ret; split; [done|by eauto]].
  apply wp_ret. split; [done|].
  assert (Hsize : 0 ≤ ABTU_roundup_size (ELEMS_OFFSET + 8 * key_table_size) MAX_ALIGNMENT).
  { change MAX_ALIGNMENT with (2 ^ 4). rewrite roundup_size_ceil by (unfold ELEMS_OFFSET; lia).
    destruct (ceil_pow2_spec 4 (ELEMS_OFFSET + 8 * key_table_size)); unfold ELEMS_OFFSET in *; lia. }
  assert (Hrepr : ∀ um ex ems, kt_repr (Ktable (i32 key_table_size) false um ex ems
                    (replicate (Z.to_nat key_table_size) [])) ∅).
  { intros um ex ems. rewrite i32_small by lia. split; [split; simpl; [done|rewrite length_replicate; lia]|].
    unfold as_hashtable. simpl. rewrite fmap_replicate. simpl.
    split; simpl; rewrite ?length_replicate; [lia|..].
    - intros i b [-> _]%lookup_replicate. split_and!; [constructor|done|constructor].
    - intros k d. rewrite lookup_empty. split; [done|]. intros (i & b & [-> _]%lookup_replicate & Hin).
      by apply not_elem_of_nil in Hin. }
  destruct (_ <=? DESC_SIZE); (split; [apply Hrepr|done|]).
  - split; simpl; [apply NoDup_singleton| |done|done|].
    + intros b ->%list_elem_of_singleton. simpl. lia.
    + intros _. split_and!; [by left|unfold HEADER; lia|lia|done].
  - split; simpl; [apply NoDup_singleton| |done|done|lia].
    intros b ->%list_elem_of_singleton. simpl. lia.
Qed.

(** The state of a work unit whose table, if there is one, holds [m]. *)
Definition kinv (s : kst) (m : gmap Z ktdata) : Prop :=
  match tab s with None => m = ∅ | Some t => kt_inv t m (nblocks s) end.

Lemma ktable_set_ok safe kts key value s m :
  0 ≤ DESC_SIZE → pow2_between 0 30 kts → kinv s m →
  wp (ktable_set DESC_SIZE gives safe kts key value)
     (λ e s', (e = ABT_SUCCESS ∧ ∃ m', contents m' = map_set (contents m) key value ∧ kinv s' m') ∨
              (e = ABT_ERR_MEM ∧ m !! key_id key = None ∧ (∃ k, gives k = false) ∧ kinv s' m)) s.
Proof.
  intros HD Hp Hi.
  assert (Hgo : ∀ t s1, kt_inv t m (nblocks s1) →
    wp ('(e, t') ← ABTI_ktable_set_impl DESC_SIZE gives t key value safe; put_table t';; mret e)
     (λ e s', (e = ABT_SUCCESS ∧ ∃ m', contents m' = map_set (contents m) key value ∧ kinv s' m') ∨
              (e = ABT_ERR_MEM ∧ m !! key_id key = None ∧ (∃ k, gives k = false) ∧ kinv s' m)) s1).
  { intros t s1 Ht. apply wp_bind. eapply wp_mono; [by apply set_impl_ok|].
    intros [e t'] s2 [_ Hpost]. simpl in Hpost. apply wp_bind, wp_ret, wp_ret. exact Hpost. }
  unfold ktable_set. apply wp_bind. unfold need_table. apply wp_bind, wp_ret.
  unfold kinv in Hi. destruct (tab s) as [t|] eqn:Ht; [apply wp_ret; by apply Hgo|]. subst m.
  apply wp_bind. eapply wp_mono; [by apply create_ok|]. intros [e|t] s1 [Htab Hr].
  - apply wp_ret, wp_ret. right. destruct Hr as [-> Hg]. split_and!; try done. unfold kinv. by rewrite Htab, Ht.
  - apply wp_bind, wp_ret, wp_ret. by apply Hgo.
Qed.

Lemma ktable_get_ok key s m :
  kinv s m → ABTI_ktable_get key s = Done (default 0 (fst <$> contents m !! key_id key), s).
Proof.
  unfold kinv, ABTI_ktable_get, contents. destruct (tab s) as [t|]; [|intros ->; by rewrite fmap_empty, lookup_empty].
  intros [Hr _ _]. destruct (get_chain_run t m key Hr) as (i & l & -> & _ & _ & (Hnd & _ & _) & Hm).
  rewrite to_bucket_pairs in Hnd. rewrite lookup_fmap.
  replace (m !! key_id key) with (chain_get (key_id key) l); [by destruct (chain_get _ l)|].
  apply option_eq. intros d. rewrite Hm. by apply chain_get_spec.
Qed.

(** Operations of the API on one work unit, and the abstract ones. *)
Inductive key_op := KeySet (safe : bool) (key : ABTI_key) (value : Z) | KeyGet (key : ABTI_key).

Definition key_run (kts : Z) (o : key_op) : C kst Z :=
  match o with
  | KeySet safe key value => ktable_set DESC_SIZE gives safe kts key value
  | KeyGet key => ABTI_ktable_get key
  end.

Inductive key_step : gmap Z (Z * Z) → key_op → Z → gmap Z (Z * Z) → Prop :=
  | kstep_set v safe key value : key_step v (KeySet safe key value) ABT_SUCCESS (map_set v key value)
  | kstep_fails v safe key value n :
      v !! key_id key = None → gives n = false → key_step v (KeySet safe key value) ABT_ERR_MEM v
  | kstep_get v key : key_step v (KeyGet key) (default 0 (fst <$> v !! key_id key)) v.

Fixpoint key_runs (kts : Z) (os : list key_op) : C kst (list Z) :=
  match os with
  | [] => mret []
  | o :: os => a ← key_run kts o; rest ← key_runs kts os; mret (a :: rest)
  end.
Inductive key_steps : gmap Z (Z * Z) → list key_op → list Z → gmap Z (Z * Z) → Prop :=
  | ksteps_nil v : key_steps v [] [] v
  | ksteps_cons v o a v1 os rest v2 :
      key_step v o a v1 → key_steps v1 os rest v2 → key_steps v (o :: os) (a :: rest) v2.

Lemma key_runs_ok kts os s m :
  0 ≤ DESC_SIZE → pow2_between 0 30 kts → kinv s m →
  wp (key_runs kts os) (λ rs s', ∃ m', key_steps (contents m) os rs (contents m') ∧ kinv s' m') s.
Proof.
  intros HD Hp. revert s m. induction os as [|o os IH]; intros s m Hi; simpl.
  { apply wp_ret. exists m. split; [constructor|done]. }
  apply wp_bind. destruct o as [safe key value|key]; simpl.
  - eapply wp_mono; [by apply ktable_set_ok|].
    intros e s1 [[-> (m1 & Hc1 & Hi1)]|(-> & Hno & [n Hg] & Hi1)].
    + apply wp_bind. eapply wp_mono; [by apply IH|]. intros rest s2 (m2 & Hs & Hi2). apply wp_ret.
      exists m2. split; [|done]. rewrite Hc1 in Hs. econstructor; [constructor|done].
    + apply wp_bind. eapply wp_mono; [by apply IH|]. intros rest s2 (m2 & Hs & Hi2). apply wp_ret.
      exists m2. split; [|done]. econstructor; [eapply kstep_fails; [|done]|done].
      unfold contents. by rewrite lookup_fmap, Hno.
  - eapply wp_Done; [by apply ktable_get_ok|].
    apply wp_bind. eapply wp_mono; [by apply IH|]. intros rest s2 (m2 & Hs & Hi2). apply wp_ret.
    exists m2. split; [|done]. econstructor; [constructor|done].
Qed.
End sequences.

(** ** What is in a table, and what freeing it does *)

Lemma elem_of_concat {A} (x : A) ls : x ∈ concat ls ↔ ∃ l, x ∈ l ∧ l ∈ ls.
Proof.
  rewrite list_elem_of_In, in_concat. split; intros (l & H1 & H2); exists l;
    rewrite ?list_elem_of_In in *; done.
Qed.

Lemma filter_fmap_list {A B} (f : A → B) (P : B → Prop) `{!∀ x, Decision (P x)} (l : list A) :
  filter P (f <$> l) = f <$> filter (λ a, P (f a)) l.
Proof.
  induction l as [|a l IH]; [done|]. rewrite fmap_cons, !filter_cons.
  destruct (decide (P (f a))); by rewrite IH.
Qed.

Lemma NoDup_concat_disjoint {A} (ls : list (list A)) :
  (∀ i l, ls !! i = Some l → NoDup l) →
  (∀ i j li lj x, ls !! i = Some li → ls !! j = Some lj → x ∈ li → x ∈ lj → i = j) →
  NoDup (concat ls).
Proof.
  induction ls as [|l ls IH]; simpl; intros Hnd Hdis; [constructor|].
  apply NoDup_app. split_and!; [by apply (Hnd 0%nat)| |].
  - intros x Hx Hin. apply elem_of_concat in Hin as (l' & Hx' & Hl').
    apply list_elem_of_lookup in Hl' as [j Hj]. by specialize (Hdis 0%nat (S j) l l' x eq_refl Hj Hx Hx').
  - apply IH; [intros i l' Hl'; by apply (Hnd (S i))|].
    intros i j li lj x Hi Hj Hxi Hxj. by specialize (Hdis (S i) (S j) li lj x Hi Hj Hxi Hxj); simplify_eq.
Qed.

Lemma kt_elements t m : kt_repr t m → concat (p_elems t) ≡ₚ map_to_list m.
Proof.
  intros [_ Hr].
  assert (Hlk : ∀ i l, p_elems t !! i = Some l → (to_bucket <$> p_elems t) !! i = Some (to_bucket l)).
  { intros i l Hl. by rewrite list_lookup_fmap, Hl. }
  apply NoDup_Permutation.
  - apply NoDup_concat_disjoint.
    + intros i l Hl. destruct (repr_bucket _ _ Hr i _ (Hlk i l Hl)) as (Hnd & _).
      rewrite to_bucket_pairs in Hnd. by eapply NoDup_fmap_1.
    + intros i j li lj [k d] Hi Hj Hki Hkj.
      destruct (repr_bucket _ _ Hr i _ (Hlk i li Hi)) as (_ & _ & Fi).
      destruct (repr_bucket _ _ Hr j _ (Hlk j lj Hj)) as (_ & _ & Fj).
      rewrite to_bucket_pairs, list.Forall_forall in Fi, Fj.
      specialize (Fi _ Hki). specialize (Fj _ Hkj). simpl in *. lia.
  - apply NoDup_map_to_list.
  - intros [k d]. rewrite elem_of_map_to_list, (repr_map _ _ Hr). simpl. rewrite elem_of_concat. split.
    + intros (l & Hin & Hl). apply list_elem_of_lookup in Hl as [i Hi]. exists i, (to_bucket l).
      split; [by apply Hlk|by rewrite to_bucket_pairs].
    + intros (i & b & Hb & Hin). rewrite list_lookup_fmap in Hb.
      destruct (p_elems t !! i) as [l|] eqn:Hl; [|done]. injection Hb as <-.
      rewrite to_bucket_pairs in Hin. exists l. split; [done|]. by eapply list_elem_of_lookup_2.
Qed.

Lemma destructor_calls_concat ls : concat (destructor_calls <$> ls) = destructor_calls (concat ls).
Proof.
  induction ls as [|l ls IH]; [done|]. rewrite fmap_cons. simpl. rewrite IH. unfold destructor_calls.
  by rewrite list.filter_app, fmap_app.
Qed.

(** The calls the contents of a table ask for. *)
Definition wanted_calls (v : gmap Z (Z * Z)) : list (Z * Z) :=
  (λ p, (p.2.2, p.2.1)) <$> filter (λ p : Z * (Z * Z), p.2.2 ≠ 0 ∧ p.2.1 ≠ 0) (map_to_list v).

Lemma free_calls t m : kt_repr t m → (ABTI_ktable_free t).1 ≡ₚ wanted_calls (contents m).
Proof.
  intros Hr. unfold ABTI_ktable_free. simpl. destruct (Hr) as [[Hp Hlen] _].
  rewrite take_ge by lia. rewrite destructor_calls_concat.
  unfold destructor_calls, wanted_calls, contents. rewrite (kt_elements t m Hr), map_to_list_fmap.
  rewrite filter_fmap_list, <-list_fmap_compose. apply reflexive_eq. simpl.
  done.
Qed.

Lemma pow2_31_split kts : pow2_between 0 31 kts → kts = 2 ^ 31 ∨ pow2_between 0 30 kts.
Proof.
  intros (k & Hk & ->). destruct (decide (k = 31)) as [->|]; [by left|right]. exists k. split; [lia|done].
Qed.

(** The table of 2^31 entries: its [size] is INT_MIN, and the first access overflows. *)
Lemma largest_size_faults DESC_SIZE gives safe key value os :
  gives 0%nat = true →
  key_runs DESC_SIZE gives (2 ^ 31) (KeySet safe key value :: os) (Kst None 0) = Fault UB.
Proof.
  intros Hg. cbn [key_runs key_run]. unfold ktable_set, need_table, ABTI_ktable_create, alloc_block.
  change (Z.land (2 ^ 31) (u32 (2 ^ 31 - 1)) =? 0) with true.
  change (i32 (2 ^ 31)) with INT_MIN. generalize (Z.to_nat (2 ^ 31)). intros n.
  unfold mbind, C_bind, get, c_assert, mret, C_ret. cbn [tab nblocks]. rewrite Hg.
  by destruct (ABTU_roundup_size _ _ <=? DESC_SIZE).
Qed.

(** C20: the table of a work unit refines a finite map, for every accepted table size but the
    largest.  From no table at all, any sequence of writes (safe or not) and reads runs without
    a fault; a read answers the value written last, NULL if there is none; a key keeps the
    destructor of its first write; only the write of a new key can fail, when memory is
    exhausted, and changes nothing.  At the end freeing the table calls exactly the destructors
    of the keys whose value is not NULL, each once, and gives every block back once.
    With the largest accepted size, 2^31, the first write is undefined as soon as
    its table can be allocated. *)
Theorem ktable_refines_map DESC_SIZE gives kts :
  0 ≤ DESC_SIZE → pow2_between 0 31 kts →
  (kts ≠ 2 ^ 31 → ∀ os,
   ∃ answers s' v, key_runs DESC_SIZE gives kts os (Kst None 0) = Done (answers, s') ∧
    key_steps gives ∅ os answers v ∧
    match tab s' with
    | None => v = ∅
    | Some t => (ABTI_ktable_free t).1 ≡ₚ wanted_calls v ∧ NoDup (blk <$> (ABTI_ktable_free t).2)
    end) ∧
  (kts = 2 ^ 31 → gives 0%nat = true → ∀ safe key value os,
   key_runs DESC_SIZE gives kts (KeySet safe key value :: os) (Kst None 0) = Fault UB).
Proof.
  intros HD Hp. split; [|intros -> Hg safe key value os; by apply largest_size_faults].
  intros Hne os. destruct (pow2_31_split kts Hp) as [?|Hp']; [done|].
  pose proof (key_runs_ok DESC_SIZE gives kts os (Kst None 0) ∅ HD Hp' eq_refl) as Hwp.
  apply wp_run in Hwp as (answers & s' & Hrun & m & Hsteps & Hi). exists answers, s', (contents m).
  unfold contents in Hsteps at 1. rewrite fmap_empty in Hsteps. split_and!; [done|done|].
  unfold kinv in Hi. destruct (tab s') as [t|]; [|by subst m; unfold contents; rewrite fmap_empty].
  destruct Hi as [Hr _ Hm]. split; [by apply free_calls|apply Hm].
Qed.

Lemma pow2_4 : pow2_between 0 31 4.
Proof. exists 2. split; [lia|reflexivity]. Qed.

Lemma ktable_refines_map_witness :
  ∃ s' v, key_runs 492 (λ n, Nat.even n) 4
            [KeySet true (Key 7 2) 20; KeySet true (Key 0 6) 60; KeySet false (Key 9 2) 21;
             KeyGet (Key 7 2); KeyGet (Key 7 3)] (Kst None 0)
          = Done ([ABT_SUCCESS; ABT_SUCCESS; ABT_SUCCESS; 21; 0], s') ∧
    key_steps (λ n, Nat.even n) ∅
            [KeySet true (Key 7 2) 20; KeySet true (Key 0 6) 60; KeySet false (Key 9 2) 21;
             KeyGet (Key 7 2); KeyGet (Key 7 3)] [ABT_SUCCESS; ABT_SUCCESS; ABT_SUCCESS; 21; 0] v.
Proof.
  destruct (proj1 (ktable_refines_map 492 (λ n, Nat.even n) 4 ltac:(lia) pow2_4) ltac:(done)
    [KeySet true (Key 7 2) 20; KeySet true (Key 0 6) 60; KeySet false (Key 9 2) 21;
     KeyGet (Key 7 2); KeyGet (Key 7 3)]) as (answers & s' & v & Hrun & Hsteps & _).
  - vm_compute in Hrun. injection Hrun as <- <-. eexists _, v. split; [vm_compute; reflexivity|exact Hsteps].
Defined.

(** the elements of a table never overlap: whatever was written, every element lies in
    a block of the table, behind the header and inside of the descriptor, and two elements
    of the same block are disjoint. *)
Theorem ktable_elements_disjoint DESC_SIZE gives kts os answers s' t :
  0 ≤ DESC_SIZE → pow2_between 0 30 kts →
  key_runs DESC_SIZE gives kts os (Kst None 0) = Done (answers, s') → tab s' = Some t →
  ∀ k1 d1, (k1, d1) ∈ concat (p_elems t) →
    d_block d1 ∈ blk <$> p_used_mem t ∧
    HEADER ≤ d_offset d1 ∧ d_offset d1 + KTELEM_SIZE ≤ HEADER + Z.max DESC_SIZE KTELEM_SIZE ∧
    ∀ k2 d2, (k2, d2) ∈ concat (p_elems t) → k1 ≠ k2 → d_block d1 = d_block d2 →
      d_offset d1 + KTELEM_SIZE ≤ d_offset d2 ∨ d_offset d2 + KTELEM_SIZE ≤ d_offset d1.
Proof.
  intros HD Hp Hrun Ht. pose proof (key_runs_ok DESC_SIZE gives kts os (Kst None 0) ∅ HD Hp eq_refl) as Hwp.
  apply wp_run in Hwp as (answers' & s'' & Hrun' & m & _ & Hi). rewrite Hrun in Hrun'. injection Hrun' as <- <-.
  unfold kinv in Hi. rewrite Ht in Hi. destruct Hi as [Hr _ Hm].
  assert (Hin : ∀ k d, (k, d) ∈ concat (p_elems t) → m !! k = Some d).
  { intros k d. rewrite (kt_elements t m Hr). by rewrite elem_of_map_to_list. }
  intros k1 d1 H1%Hin. destruct (mo_in _ _ _ _ Hm _ _ H1) as (? & ? & ?). split_and!; try done.
  intros k2 d2 Hk2%Hin Hne Hb. by eapply (mo_disjoint _ _ _ _ Hm).
Qed.

Lemma ktable_elements_disjoint_witness :
  ∃ t answers s', key_runs 492 (λ _, true) 4 [KeySet true (Key 7 2) 20; KeySet true (Key 0 6) 60] (Kst None 0)
      = Done (answers, s') ∧ tab s' = Some t ∧
    ∀ k1 d1, (k1, d1) ∈ concat (p_elems t) → HEADER ≤ d_offset d1.
Proof.
  eexists _, _, _. split; [vm_compute; reflexivity|]. split; [reflexivity|]. intros k1 d1 Hin.
  refine (proj1 (proj2 (ktable_elements_disjoint 492 (λ _, true) 4
    [KeySet true (Key 7 2) 20; KeySet true (Key 0 6) 60] _ _ _ _ _ _ _ k1 d1 Hin))).
  - lia.
  - exists 2. split; [lia|reflexivity].
  - vm_compute. reflexivity.
  - reflexivity.
Defined.

(** the largest accepted ABT_KEY_TABLE_SIZE breaks the table: rounded up to a power of
    two it is 2^31, which as an int is INT_MIN, and the index of the first write overflows. *)
Theorem ktable_largest_size_is_undefined DESC_SIZE key value :
  roundup_pow2_uint32 ABTD_ENV_UINT32_MAX = 2 ^ 31 ∧
  ABTI_ktable_get_idx key (i32 (2 ^ 31)) = Fault UB ∧
  ∀ b, ABTI_ktable_set_impl DESC_SIZE (λ _, true)
    (Ktable (i32 (2 ^ 31)) false [Block 0 false] (0%nat, 0) 0 b) key value true (Kst None 1) = Fault UB.
Proof. split; [by vm_compute|]. split; [done|]. intros b. done. Qed.

(** ** Several threads write to the table of one work unit

    The steps of [ABTI_ktable_set] and [ABTI_ktable_set_impl] between their atomic
    operations, for any number of threads; thread [t] writes the value [(job t).2] for the
    key [(job t).1]. *)

Module Race.

(** [*pp_ktable]: NULL, ABTI_KTABLE_LOCKED or a table. *)
Inductive kptr := PNull | PLocked | PTable.

(** Where a thread is; a position [i] in a chain is the [p_next] field (or bucket) that
    [pp_elem] points to, after [i] elements. *)
Inductive pc :=
  | Load                  (* p_ktable = load(pp_ktable) *)
  | Cas                   (* cas(pp_ktable, NULL, LOCKED) *)
  | Create                (* holds the lock in pp_ktable *)
  | Reload                (* the load after a failed cas *)
  | Spin                  (* while (p_ktable == LOCKED) *)
  | Find (i : nat)        (* the search without the lock *)
  | Acquire (i : nat)
  | LFind (i : nat)       (* the search with the lock *)
  | Append (i : nat)
  | Release
  | Write (i : nat)       (* p_elem->value = value *)
  | Stop (e : Z)
  | Crashed.              (* a NULL table was dereferenced *)

Record st := St {
  kp : kptr;
  els : Z → list (Z * Z);   (* the chain of a bucket: key ids and values *)
  klock : option nat;
  pcs : nat → pc
}.

Definition at_pc (t : nat) (p : pc) (s : st) : st := St (kp s) (els s) (klock s) (<[t := p]> (pcs s)).

Section race.
Variables (bucket : Z → Z) (job : nat → Z * Z).
(** Whether the creation of the table may fail. *)
Variable may_fail : bool.

Definition key (t : nat) : Z := (job t).1.
Definition chain (t : nat) (s : st) : list (Z * Z) := els s (bucket (key t)).
Definition set_els (t : nat) (l : list (Z * Z)) (s : st) : st :=
  St (kp s) (<[bucket (key t) := l]> (els s)) (klock s) (pcs s).

Inductive step (t : nat) (s : st) : st → Prop :=
  | s_load :
      pcs s t = Load →
      step t s (at_pc t (match kp s with PTable => Find 0 | _ => Cas end) s)
  | s_cas :
      pcs s t = Cas → kp s = PNull →
      step t s (at_pc t Create (St PLocked (els s) (klock s) (pcs s)))
  | s_cas_fails :   (* a weak cas may also fail without a reason *)
      pcs s t = Cas → step t s (at_pc t Reload s)
  | s_create :
      pcs s t = Create →
      step t s (at_pc t (Find 0) (St PTable (λ _, []) None (pcs s)))
  | s_create_fails :
      pcs s t = Create → may_fail = true →
      step t s (at_pc t (Stop ABT_ERR_MEM) (St PNull (els s) (klock s) (pcs s)))
  | s_reload :
      pcs s t = Reload →
      step t s (at_pc t (match kp s with PNull => Cas | PLocked => Spin | PTable => Find 0 end) s)
  | s_spin :
      pcs s t = Spin →
      step t s (at_pc t (match kp s with PLocked => Spin | PTable => Find 0 | PNull => Crashed end) s)
  | s_find i :
      pcs s t = Find i →
      step t s (at_pc t (match chain t s !! i with
                         | Some (k, _) => if k =? key t then Write i else Find (S i)
                         | None => Acquire i
                         end) s)
  | s_acquire i :
      pcs s t = Acquire i → klock s = None →
      step t s (at_pc t (LFind i) (St (kp s) (els s) (Some t) (pcs s)))
  | s_lfind i k v :
      pcs s t = LFind i → chain t s !! i = Some (k, v) → k ≠ key t →
      step t s (at_pc t (LFind (S i)) s)
  | s_lfind_hit i v :
      pcs s t = LFind i → chain t s !! i = Some (key t, v) →
      step t s (at_pc t (Write i) (St (kp s) (els s) None (pcs s)))
  | s_lfind_end i :
      pcs s t = LFind i → chain t s !! i = None → step t s (at_pc t (Append i) s)
  | s_append i :   (* the new element is stored where pp_elem points to *)
      pcs s t = Append i →
      step t s (at_pc t Release (set_els t (take i (chain t s) ++ [job t]) s))
  | s_append_fails i :
      pcs s t = Append i →
      step t s (at_pc t (Stop ABT_ERR_MEM) (St (kp s) (els s) None (pcs s)))
  | s_release :
      pcs s t = Release →
      step t s (at_pc t (Stop ABT_SUCCESS) (St (kp s) (els s) None (pcs s)))
  | s_write i k v :
      pcs s t = Write i → chain t s !! i = Some (k, v) →
      step t s (at_pc t (Stop ABT_SUCCESS) (set_els t (<[i := (k, (job t).2)]> (chain t s)) s)).

Definition start : st := St PNull (λ _, []) None (λ _, Load).
Definition steps : st → st → Prop := rtc (λ s s', ∃ t, step t s s').

(** ** The invariant *)

(** In a search: the table exists and the elements passed do not have the key. *)
Definition keys (t : nat) (s : st) : list Z := (chain t s).*1.
Definition passed (t : nat) (i : nat) (s : st) : Prop :=
  kp s = PTable ∧ (i ≤ length (keys t s))%nat ∧ (key t ∉ take i (keys t s)).

Definition pc_ok (t : nat) (s : st) : Prop :=
  match pcs s t with
  | Create => kp s = PLocked
  | Find i | Acquire i => passed t i s
  | LFind i => passed t i s ∧ klock s = Some t
  | Append i => passed t i s ∧ klock s = Some t ∧ i = length (keys t s)
  | Release => kp s = PTable ∧ klock s = Some t ∧ key t ∈ keys t s
  | Write i => kp s = PTable ∧ keys t s !! i = Some (key t)
  | Stop e => e = ABT_SUCCESS → kp s = PTable ∧ key t ∈ keys t s
  | Crashed => may_fail = true
  | Spin => may_fail = true ∨ kp s ≠ PNull
  | Load | Cas | Reload => True
  end.

Definition holds_lock (p : pc) : bool :=
  match p with LFind _ | Append _ | Release => true | _ => false end.

Record inv (s : st) : Prop := Inv {
  i_pcs : ∀ t, pc_ok t s;
  i_nodup : ∀ b, NoDup (els s b).*1;
  i_creator : ∀ t t', pcs s t = Create → pcs s t' = Create → t = t';
  i_lock : ∀ t, klock s = Some t → holds_lock (pcs s t) = true;
  i_locked : kp s = PLocked → ∃ t, pcs s t = Create
}.

Lemma keys_lookup t s i k v : chain t s !! i = Some (k, v) → keys t s !! i = Some k.
Proof. intros H. unfold keys. by rewrite list_lookup_fmap, H. Qed.
Lemma keys_lookup_None t s i : chain t s !! i = None → (length (keys t s) ≤ i)%nat.
Proof. intros H. unfold keys. rewrite length_fmap. by apply lookup_ge_None. Qed.

(** What a step may do to the state a thread [t] that does not move relies on. *)
Record respects (t : nat) (s s' : st) : Prop := Respects {
  r_pc : pcs s' t = pcs s t;
  r_table : kp s = PTable → kp s' = PTable ∧ ∃ ext, keys t s' = keys t s ++ ext ∧
              (klock s = Some t → ext = [] ∧ klock s' = Some t);
  r_create : pcs s t = Create → kp s' = kp s;
  r_spin : kp s ≠ PNull → may_fail = true ∨ kp s' ≠ PNull
}.

Lemma passed_ext t i s s' ext :
  kp s' = PTable → keys t s' = keys t s ++ ext → passed t i s → passed t i s'.
Proof.
  intros Hk He (_ & Hi & Hp). split_and!; [done|rewrite He, length_app; lia|].
  by rewrite He, take_app_le.
Qed.

Lemma pc_ok_respects t s s' : respects t s s' → pc_ok t s → pc_ok t s'.
Proof.
  intros [Hpc Htab Hcr Hsp]. unfold pc_ok. rewrite Hpc. destruct (pcs s t) eqn:Ep; try done.
  - intros Hk. rewrite Hcr; done.
  - intros [Hm|Hk]; [by left|]. by apply Hsp.
  - intros Hp. destruct (Htab (proj1 Hp)) as (? & ext & He & _). by eapply passed_ext.
  - intros Hp. destruct (Htab (proj1 Hp)) as (? & ext & He & _). by eapply passed_ext.
  - intros [Hp Hl]. destruct (Htab (proj1 Hp)) as (? & ext & He & Hl'). destruct (Hl' Hl) as [-> ?].
    split; [|done]. by eapply passed_ext.
  - intros (Hp & Hl & Hi). destruct (Htab (proj1 Hp)) as (? & ext & He & Hl'). destruct (Hl' Hl) as [-> ?].
    split_and!; [by eapply passed_ext|done|]. rewrite He, app_nil_r. done.
  - intros (Hp & Hl & Hin). destruct (Htab Hp) as (? & ext & He & Hl'). destruct (Hl' Hl) as [-> ?].
    split_and!; [done|done|]. rewrite He. apply elem_of_app. by left.
  - intros (Hp & Hin). destruct (Htab Hp) as (? & ext & He & _). split; [done|]. rewrite He.
    by apply lookup_app_l_Some.
  - intros H He'. destruct (H He') as [Hp Hin]. destruct (Htab Hp) as (? & ext & He & _). split; [done|].
    rewrite He. apply elem_of_app. by left.
Qed.

(** A step that only moves its thread. *)
Lemma at_pc_other t t' p s : t ≠ t' → respects t' s (at_pc t p s).
Proof.
  intros Hne. split; simpl; try done; [by rewrite fn_lookup_insert_ne| |by right].
  intros Hk. split; [done|]. exists []. unfold keys, chain. simpl. by rewrite app_nil_r.
Qed.

Lemma inv_change t p s kp' els' lk' :
  inv s →
  (∀ t', t ≠ t' → respects t' s (St kp' els' lk' (<[t := p]> (pcs s)))) →
  pc_ok t (St kp' els' lk' (<[t := p]> (pcs s))) → (∀ b, NoDup (els' b).*1) →
  (p = Create → ∀ t', pcs s t' ≠ Create) →
  (∀ t', lk' = Some t' → if decide (t = t') then holds_lock p = true else klock s = Some t') →
  (kp' = PLocked → p = Create ∨ (kp s = PLocked ∧ pcs s t ≠ Create)) →
  inv (St kp' els' lk' (<[t := p]> (pcs s))).
Proof.
  intros [H1 H2 H3 H4 H5] Hr Hp Hnd Hc Hl Hk. split; simpl; try done.
  - intros t'. destruct (decide (t = t')) as [<-|Hne]; [done|].
    eapply pc_ok_respects; [by apply Hr|done].
  - intros t1 t2.
    destruct (decide (t = t1)) as [<-|], (decide (t = t2)) as [<-|];
      rewrite ?fn_lookup_insert, ?fn_lookup_insert_ne by done; try done.
    + intros Hpc Ht2. by destruct (Hc Hpc t2).
    + intros Ht1 Hpc. by destruct (Hc Hpc t1).
    + apply H3.
  - intros t' Ht'. specialize (Hl t' Ht'). destruct (decide (t = t')) as [<-|];
      rewrite ?fn_lookup_insert, ?fn_lookup_insert_ne by done; [done|by apply H4].
  - intros Hkp. destruct (Hk Hkp) as [->|[Hs Hn]].
    + exists t. by rewrite fn_lookup_insert.
    + destruct (H5 Hs) as [t' Ht']. exists t'. rewrite fn_lookup_insert_ne; [done|]. congruence.
Qed.

(** A step that leaves the table alone. *)
Lemma respects_same t t' p s kp' lk' :
  t ≠ t' → (kp s = PTable → kp' = PTable ∧ (klock s = Some t' → lk' = Some t')) →
  (pcs s t' = Create → kp' = kp s) → (kp s ≠ PNull → may_fail = true ∨ kp' ≠ PNull) →
  respects t' s (St kp' (els s) lk' (<[t := p]> (pcs s))).
Proof.
  intros Hne Hk Hc Hs. split; simpl; try done; [by rewrite fn_lookup_insert_ne|].
  intros Ht. destruct (Hk Ht) as [? Hl]. split; [done|]. exists []. unfold keys, chain. simpl.
  rewrite app_nil_r. split; [done|]. intros. split; [done|by apply Hl].
Qed.

Lemma inv_move t p s :
  inv s → pc_ok t (at_pc t p s) → pcs s t ≠ Create → p ≠ Create →
  (klock s = Some t → holds_lock p = true) → inv (at_pc t p s).
Proof.
  intros Hi Hp Hc Hp' Hl. apply inv_change; try done; [..|by right].
  - intros t' Hne. apply respects_same; [done|done|done|by right].
  - apply Hi.
  - intros t' Ht'. case_decide; [subst t'; by apply Hl|done].
Qed.

(** [pc_ok] of the thread that moved. *)
Ltac pc_done := unfold pc_ok, at_pc; cbn [pcs kp klock]; rewrite fn_lookup_insert; cbn beta iota.

Lemma no_lock t s p : inv s → pcs s t = p → holds_lock p = false → klock s ≠ Some t.
Proof. intros Hi Hp Hh Hl. apply (i_lock _ Hi) in Hl. rewrite Hp in Hl. congruence. Qed.

Lemma passed_next t i s k v :
  passed t i s → chain t s !! i = Some (k, v) → k ≠ key t → passed t (S i) s.
Proof.
  intros (Hk & Hi & Hp) Hc Hne. apply keys_lookup in Hc. split_and!; [done|by apply lookup_lt_Some in Hc|].
  rewrite (take_S_r _ _ _ Hc), not_elem_of_app, list_elem_of_singleton. split; [done|congruence].
Qed.

(** The steps up to the table. *)
Lemma inv_pointer t s s' :
  inv s → step t s s' →
  match pcs s t with Load | Cas | Create | Reload | Spin => inv s' | _ => True end.
Proof.
  intros Hi Hs. pose proof (i_pcs _ Hi t) as Hok.
  assert (H0 : ∀ s0, kp s0 = PTable → passed t 0 s0) by (intros; split_and!; [done|lia|apply not_elem_of_nil]).
  destruct Hs as [Hpc|Hpc Hk|Hpc|Hpc|Hpc Hf|Hpc|Hpc|i Hpc|i Hpc ?|i k v Hpc ? ?|i v Hpc ?|i Hpc ?|i Hpc|i Hpc
                 |Hpc|i k v Hpc ?]; rewrite Hpc; try done.
  - apply inv_move; [done| |by rewrite Hpc|by destruct (kp s)|].
    + pc_done. destruct (kp s) eqn:E; try done. by apply H0.
    + intros Hl. by destruct (no_lock t s _ Hi Hpc eq_refl).
  - unfold at_pc; cbn [kp els klock pcs]; apply (inv_change t _ s); try done.
    + intros t' Hne. apply respects_same; [done|congruence| |by right].
      intros Ht'. pose proof (i_pcs _ Hi t') as Hc. unfold pc_ok in Hc. rewrite Ht' in Hc. congruence.
    + by pc_done.
    + apply Hi.
    + intros _ t' Ht'. pose proof (i_pcs _ Hi t') as Hc. unfold pc_ok in Hc. rewrite Ht' in Hc. congruence.
    + intros t' Ht'. case_decide; [|done]. subst t'. by destruct (no_lock t s _ Hi Hpc eq_refl).
    + by left.
  - apply inv_move; try done; [by pc_done|by rewrite Hpc|]. intros Hl. by destruct (no_lock t s _ Hi Hpc eq_refl).
  - unfold pc_ok in Hok. rewrite Hpc in Hok. unfold at_pc; cbn [kp els klock pcs]; apply (inv_change t _ s); try done.
    + intros t' Hne. split; simpl; [by rewrite fn_lookup_insert_ne|congruence| |by right].
      intros Ht'. by destruct (Hne (i_creator _ Hi _ _ Hpc Ht')).
    + pc_done. split_and!; [done|simpl; lia|apply not_elem_of_nil].
    + intros b. constructor.
  - unfold pc_ok in Hok. rewrite Hpc in Hok. unfold at_pc; cbn [kp els klock pcs]; apply (inv_change t _ s); try done.
    + intros t' Hne. apply respects_same; [done|congruence| |by left].
      intros Ht'. by destruct (Hne (i_creator _ Hi _ _ Hpc Ht')).
    + by pc_done.
    + apply Hi.
    + intros t' Ht'. case_decide; [|done]. subst t'. by destruct (no_lock t s _ Hi Hpc eq_refl).
  - apply inv_move; [done| |by rewrite Hpc|by destruct (kp s)|].
    + pc_done. simpl. destruct (kp s) eqn:E; (done || (by right) || by apply H0).
    + intros Hl. by destruct (no_lock t s _ Hi Hpc eq_refl).
  - unfold pc_ok in Hok. rewrite Hpc in Hok. apply inv_move; [done| |by rewrite Hpc|by destruct (kp s)|].
    + pc_done. simpl. destruct (kp s) eqn:E; (done || (by right) || (by apply H0) || by destruct Hok).
    + intros Hl. by destruct (no_lock t s _ Hi Hpc eq_refl).
Qed.

(** The lock is held by one thread, so a step of its holder does not concern others. *)
Lemma other_lock t t' s : klock s = Some t → t ≠ t' → klock s ≠ Some t'.
Proof. congruence. Qed.

Ltac not_holder Hi Hpc := intros Hl; by destruct (no_lock _ _ _ Hi Hpc eq_refl).

(** The search and the lock. *)
Lemma inv_search t s s' :
  inv s → step t s s' →
  match pcs s t with Find _ | Acquire _ | LFind _ | Release => inv s' | _ => True end.
Proof.
  intros Hi Hs. pose proof (i_pcs _ Hi t) as Hok. unfold pc_ok in Hok.
  destruct Hs as [Hpc|Hpc ?|Hpc|Hpc|Hpc ?|Hpc|Hpc|i Hpc|i Hpc Hl|i k v Hpc Hc Hne|i v Hpc Hc|i Hpc Hc|i Hpc|i Hpc
                 |Hpc|i k v Hpc ?]; rewrite Hpc in *; try done.
  - destruct (chain t s !! i) as [[k v]|] eqn:Hc.
    + destruct (Z.eqb_spec k (key t)) as [->|Hne]; (apply inv_move; [done| |by rewrite Hpc|discriminate|not_holder Hi Hpc]).
      * pc_done. split; [apply Hok|]. by eapply keys_lookup.
      * pc_done. by eapply passed_next.
    + apply inv_move; [done| |by rewrite Hpc|discriminate|not_holder Hi Hpc]. by pc_done.
  - unfold at_pc; cbn [kp els klock pcs]; apply (inv_change t _ s); try done.
    + intros t' Hne. apply respects_same; [done| |done|by right]. intros Hkt. split; [done|congruence].
    + by pc_done.
    + apply Hi.
    + intros t' [= <-]. by rewrite decide_True.
    + intros Hk. right. split; [done|by rewrite Hpc].
  - destruct Hok as [Hp Hl]. apply inv_move; [done| |by rewrite Hpc|discriminate|done].
    pc_done. split; [by eapply passed_next|done].
  - destruct Hok as [Hp Hl]. unfold at_pc; cbn [kp els klock pcs]; apply (inv_change t _ s); try done.
    + intros t' Hne. apply respects_same; [done| |done|by right]. intros Hkt. split; [done|congruence].
    + pc_done. split; [apply Hp|]. by eapply keys_lookup.
    + apply Hi.
    + intros Hk. right. split; [done|by rewrite Hpc].
  - destruct Hok as [Hp Hl]. apply inv_move; [done| |by rewrite Hpc|discriminate|done].
    pc_done. split_and!; [done|done|]. apply keys_lookup_None in Hc. destruct Hp as (_ & ? & _).
    unfold keys, chain in *. simpl. lia.
  - destruct Hok as (Hp & Hl & Hin). unfold at_pc; cbn [kp els klock pcs]; apply (inv_change t _ s); try done.
    + intros t' Hne. apply respects_same; [done| |done|by right]. intros Hkt. split; [done|congruence].
    + by pc_done.
    + apply Hi.
    + intros Hk. right. split; [done|by rewrite Hpc].
Qed.

(** A chain that changed in the bucket of [t]. *)
Lemma keys_set t t' l s kp' lk' pcs' :
  keys t' (St kp' (<[bucket (key t) := l]> (els s)) lk' pcs') =
  if decide (bucket (key t') = bucket (key t)) then l.*1 else keys t' s.
Proof.
  unfold keys, chain. simpl. case_decide as H; [rewrite H; by rewrite fn_lookup_insert|].
  rewrite fn_lookup_insert_ne; [done|congruence].
Qed.
Lemma keys_bucket t t' s : bucket (key t') = bucket (key t) → keys t' s = keys t s.
Proof. unfold keys, chain. by intros ->. Qed.
Lemma NoDup_set t l s :
  (∀ b, NoDup (els s b).*1) → NoDup l.*1 → ∀ b, NoDup (<[bucket (key t) := l]> (els s) b).*1.
Proof.
  intros Hs Hl b. destruct (decide (bucket (key t) = b)) as [<-|].
  - by rewrite fn_lookup_insert.
  - by rewrite fn_lookup_insert_ne.
Qed.

(** The writes. *)
Lemma inv_write t s s' :
  inv s → step t s s' →
  match pcs s t with Append _ | Write _ | Stop _ | Crashed => inv s' | _ => True end.
Proof.
  intros Hi Hs. pose proof (i_pcs _ Hi t) as Hok. unfold pc_ok in Hok.
  destruct Hs as [Hpc|Hpc ?|Hpc|Hpc|Hpc ?|Hpc|Hpc|i Hpc|i Hpc Hl|i k v Hpc Hc Hne|i v Hpc Hc|i Hpc Hc|i Hpc|i Hpc
                 |Hpc|i k v Hpc Hc]; rewrite Hpc in *; try done.
  - destruct Hok as ((Hk & _ & Hno) & Hl & Hi').
    assert (Hkeys : (take i (chain t s) ++ [job t]).*1 = keys t s ++ [key t]).
    { rewrite take_ge by (unfold keys in Hi'; rewrite length_fmap in Hi'; lia). by rewrite fmap_app. }
    rewrite Hi', firstn_all in Hno.
    unfold at_pc, set_els; cbn [kp els klock pcs]; apply (inv_change t _ s); try done.
    + intros t' Hne. split; simpl; [by rewrite fn_lookup_insert_ne| |done|by right].
      intros _. split; [done|]. rewrite keys_set. case_decide as Hb.
      * exists [key t]. rewrite Hkeys, (keys_bucket t t' s Hb). split; [done|congruence].
      * exists []. rewrite app_nil_r. done.
    + pc_done. rewrite keys_set, decide_True by done. split_and!; [done|done|].
      rewrite Hkeys. apply elem_of_app. right. by left.
    + apply NoDup_set; [apply Hi|]. rewrite Hkeys. apply list.NoDup_app. split_and!; [apply Hi| |apply NoDup_singleton].
      intros x Hx ->%list_elem_of_singleton. done.
    + intros t' Ht'. case_decide; done.
    + congruence.
  - destruct Hok as (Hp & Hl & _). unfold at_pc; cbn [kp els klock pcs]; apply (inv_change t _ s); try done.
    + intros t' Hne. apply respects_same; [done| |done|by right]. intros Hkt. split; [done|congruence].
    + by pc_done.
    + apply Hi.
    + intros Hk. right. split; [done|by rewrite Hpc].
  - destruct Hok as [Hk Hin].
    assert (Hkeys : (<[i := (k, (job t).2)]> (chain t s)).*1 = keys t s).
    { rewrite list_fmap_insert. simpl. apply list_insert_id. by eapply keys_lookup. }
    unfold at_pc, set_els; cbn [kp els klock pcs]; apply (inv_change t _ s); try done.
    + intros t' Hne. split; simpl; [by rewrite fn_lookup_insert_ne| |done|by right].
      intros _. split; [done|]. exists []. rewrite app_nil_r, keys_set. split; [|done].
      case_decide as Hb; [|done]. by rewrite Hkeys, (keys_bucket t t' s Hb).
    + pc_done. intros _. rewrite keys_set, decide_True, Hkeys by done. split; [done|].
      by eapply list_elem_of_lookup_2.
    + apply NoDup_set; [apply Hi|]. rewrite Hkeys. apply Hi.
    + intros t' Ht'. case_decide; [|done]. subst t'. by destruct (no_lock t s _ Hi Hpc eq_refl).
    + congruence.
Qed.

Lemma inv_step t s s' : inv s → step t s s' → inv s'.
Proof.
  intros Hi Hs. pose proof (inv_pointer t s s' Hi Hs). pose proof (inv_search t s s' Hi Hs).
  pose proof (inv_write t s s' Hi Hs). by destruct (pcs s t).
Qed.

Lemma inv_start : inv start.
Proof. split; try done. intros b. constructor. Qed.

Lemma inv_steps s : steps start s → inv s.
Proof.
  assert (Hgen : ∀ s0 s, steps s0 s → inv s0 → inv s).
  { induction 1 as [|s0 s1 s2 [t Ht] _ IH]; [done|]. intros Hi. apply IH. by eapply inv_step. }
  intros Hs. apply (Hgen start s Hs), inv_start.
Qed.
End race.
End Race.

(** C21: any number of threads that write to the table of one work unit at the same time,
    also to the same key and also while the table is being created: at most one table is
    ever being created, no key is in the table twice, and a thread that returned
    successfully finds its key in the table.  If the creation of the table does not fail,
    no thread ever dereferences a NULL table. *)
Theorem ktable_race_safe bucket job may_fail s :
  Race.steps bucket job may_fail Race.start s →
  (∀ t t', Race.pcs s t = Race.Create → Race.pcs s t' = Race.Create → t = t') ∧
  (∀ b, NoDup (Race.els s b).*1) ∧
  (∀ t, Race.pcs s t = Race.Stop ABT_SUCCESS →
     Race.kp s = Race.PTable ∧ (job t).1 ∈ (Race.els s (bucket (job t).1)).*1) ∧
  (may_fail = false → ∀ t, Race.pcs s t ≠ Race.Crashed).
Proof.
  intros Hs. apply Race.inv_steps in Hs as Hi. split_and!; [apply Hi|apply Hi|..].
  - intros t Ht. pose proof (Race.i_pcs _ _ _ _ Hi t) as Hok. unfold Race.pc_ok in Hok.
    rewrite Ht in Hok. by apply Hok.
  - intros Hf t Ht. pose proof (Race.i_pcs _ _ _ _ Hi t) as Hok. unfold Race.pc_ok in Hok.
    rewrite Ht in Hok. congruence.
Qed.

(** One thread alone: the table is created and its key added. *)
Lemma ktable_race_safe_witness :
  ∃ s, Race.steps (λ k, k) (λ _, (5, 50)) false Race.start s ∧
    (∀ b, NoDup (Race.els s b).*1) ∧ Race.pcs s 0%nat = Race.Create.
Proof.
  assert (Hs : Race.steps (λ k, k) (λ _, (5, 50)) false Race.start
    (Race.at_pc 0 Race.Create (Race.St Race.PLocked (λ _, []) None
       (Race.pcs (Race.at_pc 0 Race.Cas Race.start))))).
  { eapply rtc_l; [exists 0%nat; apply Race.s_load; reflexivity|].
    eapply rtc_l; [exists 0%nat; apply Race.s_cas; reflexivity|]. apply rtc_refl. }
  eexists. split; [exact Hs|]. split; [apply (ktable_race_safe _ _ _ _ Hs)|reflexivity].
Defined.

(** if the creation of the table fails for one thread (memory is exhausted) while another
    one waits for it, the waiting thread leaves its loop with a NULL table and dereferences
    it. *)
Theorem ktable_race_null_table bucket job :
  ∃ s, Race.steps bucket job true Race.start s ∧ Race.pcs s 1%nat = Race.Crashed.
Proof.
  eexists. split.
  - eapply rtc_l; [exists 0%nat; apply Race.s_load; reflexivity|].
    eapply rtc_l; [exists 0%nat; apply Race.s_cas; reflexivity|].
    eapply rtc_l; [exists 1%nat; apply Race.s_load; reflexivity|].
    eapply rtc_l; [exists 1%nat; apply Race.s_cas_fails; reflexivity|].
    eapply rtc_l; [exists 1%nat; apply Race.s_reload; reflexivity|].
    eapply rtc_l; [exists 0%nat; apply Race.s_create_fails; reflexivity|].
    eapply rtc_l; [exists 1%nat; apply Race.s_spin; reflexivity|]. apply rtc_refl.
  - reflexivity.
Qed.
