(* ===== verification/Thread.v ===== *)
(** * Work-unit descriptors

    The part of [struct ABTI_thread] (argobots/src/include/abti.h) that pools,
    waitlists and the scheduler share, and the heap that holds the descriptors.
    A descriptor pointer is a [ptr]; a C pointer field is an [option ptr] with
    [None] for NULL.  Reading or writing through NULL or a pointer to no
    descriptor is undefined behaviour. *)

From stdpp Require Import base tactics option list numbers gmap fin_maps.
From S2P Require Import Prelude.

Abbreviation ptr := positive (only parsing).

(** [ABT_thread_state] (abt.h.in). *)
Inductive ABT_thread_state :=
  | ABT_THREAD_STATE_READY
  | ABT_THREAD_STATE_RUNNING
  | ABT_THREAD_STATE_BLOCKED
  | ABT_THREAD_STATE_TERMINATED.

Global Instance ABT_thread_state_eq_dec : EqDecision ABT_thread_state.
Proof. solve_decision. Defined.

(** Bits of [ABTI_thread_type] (abti.h). *)
Definition ABTI_THREAD_TYPE_EXT : Z := 0.
Definition ABTI_THREAD_TYPE_THREAD : Z := Z.shiftl 1 0.
Definition ABTI_THREAD_TYPE_PRIMARY : Z := Z.shiftl 1 2.
Definition ABTI_THREAD_TYPE_MAIN_SCHED : Z := Z.shiftl 1 3.
Definition ABTI_THREAD_TYPE_YIELDABLE : Z := Z.shiftl 1 4.
Definition ABTI_THREAD_TYPE_NAMED : Z := Z.shiftl 1 5.
Definition ABTI_THREAD_TYPE_MIGRATABLE : Z := Z.shiftl 1 6.

(** Bits of a request word (abti.h). *)
Definition ABTI_THREAD_REQ_JOIN : Z := Z.shiftl 1 0.
Definition ABTI_THREAD_REQ_CANCEL : Z := Z.shiftl 1 1.
Definition ABTI_THREAD_REQ_MIGRATE : Z := Z.shiftl 1 2.

Record ABTI_thread := mk_thread {
  p_prev : option ptr;
  p_next : option ptr;
  is_in_pool : Z;
  ttype : Z;
  state : ABT_thread_state;
}.

Definition set_p_prev (v : option ptr) (t : ABTI_thread) : ABTI_thread :=
  mk_thread v (p_next t) (is_in_pool t) (ttype t) (state t).
Definition set_p_next (v : option ptr) (t : ABTI_thread) : ABTI_thread :=
  mk_thread (p_prev t) v (is_in_pool t) (ttype t) (state t).
Definition set_is_in_pool (v : Z) (t : ABTI_thread) : ABTI_thread :=
  mk_thread (p_prev t) (p_next t) v (ttype t) (state t).
Definition set_state (v : ABT_thread_state) (t : ABTI_thread) : ABTI_thread :=
  mk_thread (p_prev t) (p_next t) (is_in_pool t) (ttype t) v.

Abbreviation heap := (gmap ptr ABTI_thread) (only parsing).

(** Field access through a pointer. *)
Definition load {A} (f : ABTI_thread → A) (p : option ptr) : C heap A := λ h,
  match p with
  | None => Fault UB
  | Some a => match h !! a with
              | None => Fault UB
              | Some t => Done (f t, h)
              end
  end.

Definition store (f : ABTI_thread → ABTI_thread) (p : option ptr) : C heap unit := λ h,
  match p with
  | None => Fault UB
  | Some a => match h !! a with
              | None => Fault UB
              | Some t => Done ((), <[a := f t]> h)
              end
  end.

(** [ABTI_thread_get_ythread_or_null]: a yieldable descriptor is the first
    member of its [ABTI_ythread], so the two pointers are the same. *)
Definition ABTI_thread_get_ythread_or_null (p : option ptr) : C heap (option ptr) :=
  ty ← load ttype p;
  mret (if Z.eqb (Z.land ty ABTI_THREAD_TYPE_YIELDABLE) 0 then None else p).

(** ** Field views of a heap *)

Definition nx (h : heap) (a : ptr) : option ptr := h !! a ≫= p_next.
Definition pv (h : heap) (a : ptr) : option ptr := h !! a ≫= p_prev.

Definition allocated (h : heap) (l : list ptr) : Prop := Forall (λ a, is_Some (h !! a)) l.

Section heap_lemmas.
Implicit Types (h : heap) (a b : ptr) (l : list ptr) (f : ABTI_thread → ABTI_thread).

Lemma store_run f a h :
  is_Some (h !! a) → store f (Some a) h = Done ((), alter f a h).
Proof.
  intros [t Ht]. simpl. rewrite Ht. do 2 f_equal.
  apply map_eq. intros b. rewrite lookup_insert, lookup_alter.
  case_decide; [subst; by rewrite Ht|done].
Qed.

Lemma load_run {A} (g : ABTI_thread → A) a t h :
  h !! a = Some t → load g (Some a) h = Done (g t, h).
Proof. intros Ht. simpl. by rewrite Ht. Qed.

Lemma load_nx_run a h :
  is_Some (h !! a) → load p_next (Some a) h = Done (nx h a, h).
Proof. intros [t Ht]. unfold nx. simpl. by rewrite Ht. Qed.

Lemma load_pv_run a h :
  is_Some (h !! a) → load p_prev (Some a) h = Done (pv h a, h).
Proof. intros [t Ht]. unfold pv. simpl. by rewrite Ht. Qed.

Lemma alter_is_Some f a b h : is_Some (alter f a h !! b) ↔ is_Some (h !! b).
Proof. rewrite lookup_alter. case_decide; subst; [apply fmap_is_Some|done]. Qed.

Lemma nx_alter_next v a b h :
  nx (alter (set_p_next v) a h) b = if decide (a = b ∧ is_Some (h !! b)) then v else nx h b.
Proof.
  unfold nx. rewrite lookup_alter. destruct (h !! b) as [t|] eqn:E;
    repeat case_decide; destruct_and?; subst; rewrite ?E; naive_solver.
Qed.

Lemma pv_alter_prev v a b h :
  pv (alter (set_p_prev v) a h) b = if decide (a = b ∧ is_Some (h !! b)) then v else pv h b.
Proof.
  unfold pv. rewrite lookup_alter. destruct (h !! b) as [t|] eqn:E;
    repeat case_decide; destruct_and?; subst; rewrite ?E; naive_solver.
Qed.

Lemma nx_alter_id f a b h : (∀ t, p_next (f t) = p_next t) → nx (alter f a h) b = nx h b.
Proof.
  intros Hf. unfold nx. rewrite lookup_alter. case_decide; subst; [|done].
  destruct (h !! b); simpl; auto.
Qed.

Lemma pv_alter_id f a b h : (∀ t, p_prev (f t) = p_prev t) → pv (alter f a h) b = pv h b.
Proof.
  intros Hf. unfold pv. rewrite lookup_alter. case_decide; subst; [|done].
  destruct (h !! b); simpl; auto.
Qed.

Lemma nx_next_eq v a h : is_Some (h !! a) → nx (alter (set_p_next v) a h) a = v.
Proof. intros. rewrite nx_alter_next. by rewrite decide_True. Qed.
Lemma nx_next_ne v a b h : a ≠ b → nx (alter (set_p_next v) a h) b = nx h b.
Proof. intros. rewrite nx_alter_next. by rewrite decide_False by (intros [? _]; done). Qed.
Lemma pv_prev_eq v a h : is_Some (h !! a) → pv (alter (set_p_prev v) a h) a = v.
Proof. intros. rewrite pv_alter_prev. by rewrite decide_True. Qed.
Lemma pv_prev_ne v a b h : a ≠ b → pv (alter (set_p_prev v) a h) b = pv h b.
Proof. intros. rewrite pv_alter_prev. by rewrite decide_False by (intros [? _]; done). Qed.
Lemma nx_prev v a b h : nx (alter (set_p_prev v) a h) b = nx h b.
Proof. by apply nx_alter_id. Qed.
Lemma pv_next v a b h : pv (alter (set_p_next v) a h) b = pv h b.
Proof. by apply pv_alter_id. Qed.
Lemma nx_flag v a b h : nx (alter (set_is_in_pool v) a h) b = nx h b.
Proof. by apply nx_alter_id. Qed.
Lemma pv_flag v a b h : pv (alter (set_is_in_pool v) a h) b = pv h b.
Proof. by apply pv_alter_id. Qed.

Lemma allocated_alter f a h l : allocated (alter f a h) l ↔ allocated h l.
Proof.
  unfold allocated. rewrite !Forall_forall. by setoid_rewrite alter_is_Some.
Qed.
End heap_lemmas.

(** [heap_simp] computes the link fields of a heap after a sequence of field
    writes, with disequalities and allocation facts from the context. *)
Create Rewrite HintDb heap.
#[export] Hint Rewrite nx_prev pv_next nx_flag pv_flag : heap.
Ltac heap_simp :=
  repeat first
    [ progress autorewrite with heap
    | rewrite nx_next_eq by (rewrite ?alter_is_Some; done)
    | rewrite pv_prev_eq by (rewrite ?alter_is_Some; done)
    | rewrite nx_next_ne by done
    | rewrite pv_prev_ne by done ].
