(* ===== verification/ThreadQueue.v ===== *)
(** * The intrusive work-unit queue of the built-in pools

    [thread_queue_t] (argobots/src/pool/thread_queue.h) is a circular doubly
    linked list threaded through the descriptors it holds.  The operations are
    translated statement by statement over the descriptor heap; the
    representation predicate [tq_rep] relates a queue and a heap to the list of
    work units the queue holds, and every operation is shown to implement its
    list operation on that list. *)

From stdpp Require Import base tactics option list numbers gmap fin_maps.
From S2P Require Import Prelude.
From S2P Require Import Abt.
From S2P Require Import Thread.

Record thread_queue_t := mk_queue {
  num_threads : Z;
  p_head : option ptr;
  p_tail : option ptr;
  is_empty : Z;
}.

Definition set_num_threads (v : Z) (q : thread_queue_t) : thread_queue_t :=
  mk_queue v (p_head q) (p_tail q) (is_empty q).
Definition set_p_head (v : option ptr) (q : thread_queue_t) : thread_queue_t :=
  mk_queue (num_threads q) v (p_tail q) (is_empty q).
Definition set_p_tail (v : option ptr) (q : thread_queue_t) : thread_queue_t :=
  mk_queue (num_threads q) (p_head q) v (is_empty q).
Definition set_is_empty (v : Z) (q : thread_queue_t) : thread_queue_t :=
  mk_queue (num_threads q) (p_head q) (p_tail q) v.

(** The state a queue operation works on. *)
Abbreviation tqs := (thread_queue_t * gmap positive ABTI_thread)%type (only parsing).

Definition on_heap {A} (m : C (gmap ptr ABTI_thread) A) : C tqs A :=
  zoom snd (λ h s, (s.1, h)) m.
Definition queue : C tqs thread_queue_t := gets fst.
Definition update (f : thread_queue_t → thread_queue_t) : C tqs unit :=
  modify (λ s, (f s.1, s.2)).

Definition thread_queue_init : C tqs unit :=
  update (set_num_threads 0);;
  update (set_p_head None);;
  update (set_p_tail None);;
  update (set_is_empty 1).

Definition thread_queue_is_empty (q : thread_queue_t) : bool :=
  negb (Z.eqb (is_empty q) 0).

Definition thread_queue_get_size (q : thread_queue_t) : Z := num_threads q.

Definition thread_queue_push_head (p_thread : ptr) : C tqs unit :=
  q ← queue;
  (if Z.eqb (num_threads q) 0 then
     on_heap (store (set_p_prev (Some p_thread)) (Some p_thread));;
     on_heap (store (set_p_next (Some p_thread)) (Some p_thread));;
     update (set_p_head (Some p_thread));;
     update (set_p_tail (Some p_thread));;
     update (set_num_threads 1);;
     update (set_is_empty 0)
   else
     let head := p_head q in
     let tail := p_tail q in
     on_heap (store (set_p_next (Some p_thread)) tail);;
     on_heap (store (set_p_prev (Some p_thread)) head);;
     on_heap (store (set_p_prev tail) (Some p_thread));;
     on_heap (store (set_p_next head) (Some p_thread));;
     update (set_p_head (Some p_thread));;
     update (λ q, set_num_threads (u64 (num_threads q + 1)) q));;
  on_heap (store (set_is_in_pool 1) (Some p_thread)).

Definition thread_queue_push_tail (p_thread : ptr) : C tqs unit :=
  q ← queue;
  (if Z.eqb (num_threads q) 0 then
     on_heap (store (set_p_prev (Some p_thread)) (Some p_thread));;
     on_heap (store (set_p_next (Some p_thread)) (Some p_thread));;
     update (set_p_head (Some p_thread));;
     update (set_p_tail (Some p_thread));;
     update (set_num_threads 1);;
     update (set_is_empty 0)
   else
     let head := p_head q in
     let tail := p_tail q in
     on_heap (store (set_p_next (Some p_thread)) tail);;
     on_heap (store (set_p_prev (Some p_thread)) head);;
     on_heap (store (set_p_prev tail) (Some p_thread));;
     on_heap (store (set_p_next head) (Some p_thread));;
     update (set_p_tail (Some p_thread));;
     update (λ q, set_num_threads (u64 (num_threads q + 1)) q));;
  on_heap (store (set_is_in_pool 1) (Some p_thread)).

(** [p_thread->p_prev->p_next = p_thread->p_next;
     p_thread->p_next->p_prev = p_thread->p_prev;] *)
Definition unlink (p_thread : option ptr) : C (gmap ptr ABTI_thread) unit :=
  prev ← load p_prev p_thread;
  next ← load p_next p_thread;
  store (set_p_next next) prev;;
  next ← load p_next p_thread;
  prev ← load p_prev p_thread;
  store (set_p_prev prev) next.

Definition reset_queue : C tqs unit :=
  update (set_p_head None);;
  update (set_p_tail None);;
  update (set_num_threads 0);;
  update (set_is_empty 1).

Definition detach (p_thread : option ptr) : C tqs unit :=
  on_heap (store (set_p_prev None) p_thread);;
  on_heap (store (set_p_next None) p_thread);;
  on_heap (store (set_is_in_pool 0) p_thread).

Definition thread_queue_pop_head : C tqs (option ptr) :=
  q ← queue;
  if Z.ltb 0 (num_threads q) then
    let p_thread := p_head q in
    (if Z.eqb (num_threads q) 1 then reset_queue
     else
       on_heap (unlink p_thread);;
       next ← on_heap (load p_next p_thread);
       update (set_p_head next);;
       update (λ q, set_num_threads (u64 (num_threads q - 1)) q));;
    detach p_thread;;
    mret p_thread
  else mret None.

Definition thread_queue_pop_tail : C tqs (option ptr) :=
  q ← queue;
  if Z.ltb 0 (num_threads q) then
    let p_thread := p_tail q in
    (if Z.eqb (num_threads q) 1 then reset_queue
     else
       on_heap (unlink p_thread);;
       prev ← on_heap (load p_prev p_thread);
       update (set_p_tail prev);;
       update (λ q, set_num_threads (u64 (num_threads q - 1)) q));;
    detach p_thread;;
    mret p_thread
  else mret None.

Definition thread_queue_remove (p_thread : ptr) : C tqs Z :=
  q ← queue;
  if Z.eqb (num_threads q) 0 then mret ABT_ERR_POOL else
  in_pool ← on_heap (load is_in_pool (Some p_thread));
  if negb (Z.eqb in_pool 1) then mret ABT_ERR_POOL else
  (if Z.eqb (num_threads q) 1 then reset_queue
   else
     on_heap (unlink (Some p_thread));;
     (if decide (Some p_thread = p_head q) then
        next ← on_heap (load p_next (Some p_thread));
        update (set_p_head next)
      else if decide (Some p_thread = p_tail q) then
        prev ← on_heap (load p_prev (Some p_thread));
        update (set_p_tail prev)
      else mret ());;
     update (λ q, set_num_threads (u64 (num_threads q - 1)) q));;
  on_heap (store (set_is_in_pool 0) (Some p_thread));;
  on_heap (store (set_p_prev None) (Some p_thread));;
  on_heap (store (set_p_next None) (Some p_thread));;
  mret ABT_SUCCESS.

(** [thread_queue_print_all]: the handles passed to [print_fn], in order.  The
    loop runs [num_threads] times. *)
Fixpoint print_loop (n : nat) (p_thread : option ptr) : C (gmap ptr ABTI_thread) (list ptr) :=
  match n with
  | O => mret []
  | S n =>
      match p_thread with
      | None => throw AssertFailed
      | Some a =>
          next ← load p_next p_thread;
          rest ← print_loop n next;
          mret (a :: rest)
      end
  end.

Definition thread_queue_print_all : C tqs (list ptr) :=
  q ← queue; on_heap (print_loop (Z.to_nat (num_threads q)) (p_head q)).

(** ** Linked chains and rings *)

Definition lnk (h : gmap ptr ABTI_thread) (a b : ptr) : Prop :=
  nx h a = Some b ∧ pv h b = Some a.

Fixpoint chain (h : gmap ptr ABTI_thread) (l : list ptr) : Prop :=
  match l with
  | a :: (b :: _) as l' => lnk h a b ∧ chain h l'
  | _ => True
  end.

(** The units of [l] form a ring: each is linked to its successor and the last
    one to the first. *)
Definition ring (h : gmap ptr ABTI_thread) (l : list ptr) : Prop :=
  chain h (l ++ option_list (head l)).

Section rings.
Implicit Types (h : gmap ptr ABTI_thread) (a b p x t : ptr) (l : list ptr).

Lemma chain_app h l1 x l2 : chain h (l1 ++ x :: l2) ↔ chain h (l1 ++ [x]) ∧ chain h (x :: l2).
Proof.
  induction l1 as [|a [|b l1] IH]; simpl in *; [tauto| |].
  - destruct l2; simpl; tauto.
  - tauto.
Qed.

Lemma ring_cons h x l : ring h (x :: l) ↔ chain h (x :: l ++ [x]).
Proof. done. Qed.

Lemma ring_snoc h x l t : ring h (x :: l ++ [t]) ↔ chain h (x :: l ++ [t]) ∧ lnk h t x.
Proof.
  rewrite ring_cons. rewrite <- app_assoc. change (x :: l ++ [t] ++ [x]) with ((x :: l) ++ t :: [x]).
  rewrite chain_app. simpl. tauto.
Qed.

(** Rotating a ring. *)
Lemma ring_rotate1 h x l : ring h (x :: l) ↔ ring h (l ++ [x]).
Proof.
  destruct l as [|y l]; [done|]. simpl. rewrite ring_snoc, ring_cons. simpl. tauto.
Qed.

Lemma ring_rotate h l1 l2 : ring h (l1 ++ l2) ↔ ring h (l2 ++ l1).
Proof.
  revert l2. induction l1 as [|x l1 IH]; intros l2; [by rewrite app_nil_r|].
  simpl. rewrite ring_rotate1, <- app_assoc, IH, <- app_assoc. done.
Qed.

(** A chain only depends on the [next] of all but its last element and the
    [prev] of all but its first. *)
Lemma chain_frame h h' l :
  (∀ a, a ∈ l → last l ≠ Some a → nx h' a = nx h a) →
  (∀ a, a ∈ l → head l ≠ Some a → pv h' a = pv h a) →
  NoDup l → chain h l → chain h' l.
Proof.
  induction l as [|a [|b l] IH]; intros Hn Hp Hd Hc; [done..|].
  inversion Hd as [|?? Ha Hd']; subst. destruct Hc as [[H1 H2] Hc].
  inversion Hd' as [|?? Hb Hd'']; subst.
  split; [split|].
  - rewrite Hn; [done|set_solver|]. rewrite last_cons_cons. intros Hl.
    apply last_Some_elem_of in Hl. set_solver.
  - rewrite Hp; [done|set_solver|]. simpl. set_solver.
  - apply IH; [| |done..].
    + intros c Hcl Hl. apply Hn; [by right|]. by rewrite last_cons_cons.
    + intros c Hcl Hl. apply Hp; [by right|]. simpl. intros [= ->]. done.
Qed.
End rings.

Section links.
Implicit Types (h : gmap ptr ABTI_thread) (a b p x t : ptr) (l : list ptr).

Lemma chain_cons h p l x : head l = Some x → chain h (p :: l) ↔ lnk h p x ∧ chain h l.
Proof. destruct l; simpl; naive_solver. Qed.

Lemma chain_snoc h l t p : last l = Some t → chain h (l ++ [p]) ↔ chain h l ∧ lnk h t p.
Proof.
  intros Hl. apply last_Some in Hl as [l' ->]. rewrite <- app_assoc. simpl.
  rewrite chain_app. simpl. tauto.
Qed.

Lemma ring_iff h l x t :
  head l = Some x → last l = Some t → ring h l ↔ chain h l ∧ lnk h t x.
Proof. intros Hx Ht. unfold ring. rewrite Hx. by apply chain_snoc. Qed.

(** The four stores of a push onto a non-empty queue. *)
Definition ins_heap (p x t : ptr) h :=
  alter (set_p_next (Some x)) p (alter (set_p_prev (Some t)) p
    (alter (set_p_prev (Some p)) x (alter (set_p_next (Some p)) t h))).

Lemma ring_insert h l p x t :
  head l = Some x → last l = Some t → NoDup (p :: l) → allocated h (p :: l) →
  ring h l → ring (ins_heap p x t h) (p :: l).
Proof.
  intros Hx Ht Hd Ha Hr. inversion Hd as [|?? Hp Hd']; subst.
  inversion Ha as [|?? Hap Hal]; subst. unfold allocated in Hal. rewrite Forall_forall in Hal.
  assert (x ∈ l) by (destruct l; set_solver). assert (t ∈ l) by by apply last_Some_elem_of.
  assert (p ≠ x) by set_solver. assert (p ≠ t) by set_solver.
  apply (ring_iff _ _ _ _ Hx Ht) in Hr as [Hc _].
  rewrite ring_cons, (chain_cons _ _ (l ++ [p]) x) by (by destruct l).
  rewrite (chain_snoc _ _ t) by done. unfold lnk, ins_heap.
  assert (is_Some (h !! x)) by auto. assert (is_Some (h !! t)) by auto.
  split_and!; try (by heap_simp).
  - apply (chain_frame h); try done.
    + intros a Hal' Hne. assert (t ≠ a) by congruence. assert (p ≠ a) by set_solver. by heap_simp.
    + intros a Hal' Hne. assert (x ≠ a) by congruence. assert (p ≠ a) by set_solver. by heap_simp.
Qed.

(** The two stores that take [p], between [t] and [x], out of a ring. *)
Definition del_heap (x t : ptr) h :=
  alter (set_p_prev (Some t)) x (alter (set_p_next (Some x)) t h).

Lemma ring_delete h l p x t :
  head l = Some x → last l = Some t → NoDup (p :: l) → allocated h (p :: l) →
  ring h (p :: l) → ring (del_heap x t h) l ∧ nx h p = Some x ∧ pv h p = Some t.
Proof.
  intros Hx Ht Hd Ha Hr. inversion Hd as [|?? Hp Hd']; subst.
  inversion Ha as [|?? Hap Hal]; subst. unfold allocated in Hal. rewrite Forall_forall in Hal.
  assert (x ∈ l) by (destruct l; set_solver). assert (t ∈ l) by by apply last_Some_elem_of.
  rewrite ring_cons, (chain_cons _ _ (l ++ [p]) x) in Hr by (by destruct l).
  rewrite (chain_snoc _ _ t) in Hr by done. destruct Hr as [[Hn _] [Hc [_ Hv]]].
  split; [|done]. rewrite ring_iff by done. unfold lnk, del_heap.
  assert (is_Some (h !! x)) by auto. assert (is_Some (h !! t)) by auto.
  split_and!; try (by heap_simp).
  apply (chain_frame h); try done.
  - intros a Hal' Hne. assert (t ≠ a) by congruence. by heap_simp.
  - intros a Hal' Hne. assert (x ≠ a) by congruence. by heap_simp.
Qed.
End links.

(** ** Symbolic execution of queue statements *)

Section exec.
Implicit Types (q : thread_queue_t) (h : gmap ptr ABTI_thread) (a : ptr).

Lemma on_heap_Done {A} (m : C (gmap ptr ABTI_thread) A) q h v h' :
  m h = Done (v, h') → on_heap m (q, h) = Done (v, (q, h')).
Proof. intros E. unfold on_heap, zoom. simpl. by rewrite E. Qed.

Lemma update_run f q h : update f (q, h) = Done ((), (f q, h)).
Proof. done. Qed.

Lemma queue_run q h : queue (q, h) = Done (q, (q, h)).
Proof. done. Qed.

Lemma on_heap_store f a q h :
  is_Some (h !! a) → on_heap (store f (Some a)) (q, h) = Done ((), (q, alter f a h)).
Proof. intros. by apply on_heap_Done, store_run. Qed.

Lemma on_heap_load_next a q h :
  is_Some (h !! a) → on_heap (load p_next (Some a)) (q, h) = Done (nx h a, (q, h)).
Proof. intros. by apply on_heap_Done, load_nx_run. Qed.

Lemma on_heap_load_prev a q h :
  is_Some (h !! a) → on_heap (load p_prev (Some a)) (q, h) = Done (pv h a, (q, h)).
Proof. intros. by apply on_heap_Done, load_pv_run. Qed.

Lemma unlink_run h p x t :
  allocated h [p; x; t] → nx h p = Some x → pv h p = Some t → p ≠ x → p ≠ t →
  unlink (Some p) h = Done ((), del_heap x t h).
Proof.
  intros Ha Hx Ht Hpx Hpt. unfold allocated in Ha. rewrite !Forall_cons in Ha.
  destruct Ha as (Hp & Hax & Hat & _). unfold unlink.
  erewrite C_bind_Done by (by apply load_pv_run). rewrite Ht.
  erewrite C_bind_Done by (by apply load_nx_run). rewrite Hx.
  erewrite C_bind_Done by (by apply store_run).
  erewrite C_bind_Done by (apply load_nx_run; by rewrite alter_is_Some).
  erewrite C_bind_Done by (apply load_pv_run; by rewrite alter_is_Some).
  heap_simp. rewrite Hx, Ht. rewrite store_run by (by rewrite alter_is_Some). done.
Qed.
End exec.

Ltac alloc_side := rewrite ?alter_is_Some; first [assumption | eauto].
Ltac qstep :=
  first
    [ rewrite C_bind_assoc
    | erewrite C_bind_Done by (apply on_heap_store; alloc_side)
    | erewrite C_bind_Done by (apply on_heap_load_next; alloc_side)
    | erewrite C_bind_Done by (apply on_heap_load_prev; alloc_side)
    | erewrite C_bind_Done by (apply update_run)
    | erewrite C_bind_Done by (apply queue_run)
    | rewrite on_heap_store by alloc_side ];
  cbn beta.

(** ** Representation *)

Definition in_queue (h : gmap ptr ABTI_thread) (a : ptr) : Prop :=
  ∃ t, h !! a = Some t ∧ is_in_pool t = 1.

Record tq_rep (q : thread_queue_t) (h : gmap ptr ABTI_thread) (l : list ptr) : Prop := {
  rep_num : num_threads q = Z.of_nat (length l);
  rep_bound : Z.of_nat (length l) < 2 ^ 64;
  rep_head : p_head q = head l;
  rep_tail : p_tail q = last l;
  rep_empty : is_empty q = (if decide (l = []) then 1 else 0);
  rep_nodup : NoDup l;
  rep_in : Forall (in_queue h) l;
  rep_ring : ring h l;
}.

(** What an operation may touch: the link fields and the pool flag of the units
    in [l]; every other descriptor and every other field stays. *)
Definition payload (t : ABTI_thread) := (ttype t, state t).
Definition frame (h h' : gmap ptr ABTI_thread) (l : list ptr) : Prop :=
  (∀ b, b ∉ l → h' !! b = h !! b) ∧ (∀ b, payload <$> h' !! b = payload <$> h !! b).

Section rep.
Implicit Types (q : thread_queue_t) (h : gmap ptr ABTI_thread) (a p : ptr) (l : list ptr).

Lemma in_queue_alloc h l : Forall (in_queue h) l → allocated h l.
Proof. intros H. eapply Forall_impl; [done|]. intros a (t & -> & _). eauto. Qed.

Lemma in_queue_alter f a b h :
  (∀ t, is_in_pool (f t) = is_in_pool t) → in_queue (alter f a h) b ↔ in_queue h b.
Proof.
  intros Hf. unfold in_queue. rewrite lookup_alter. case_decide; subst; [|done].
  destruct (h !! b) as [t|]; simpl; [|naive_solver].
  split; intros (u & [= <-] & Hu); eexists; (split; [done|]); by rewrite ?Hf in *.
Qed.

Lemma in_queue_ne a b v h : a ≠ b → in_queue (alter (set_is_in_pool v) a h) b ↔ in_queue h b.
Proof. intros. unfold in_queue. by rewrite lookup_alter_ne. Qed.

Lemma in_queue_set a h : is_Some (h !! a) → in_queue (alter (set_is_in_pool 1) a h) a.
Proof. intros [t Ht]. exists (set_is_in_pool 1 t). by rewrite lookup_alter_eq, Ht. Qed.

Lemma frame_refl h l : frame h h l.
Proof. done. Qed.

Lemma frame_alter f a h h' l :
  (∀ t, payload (f t) = payload t) → a ∈ l → frame h h' l → frame h (alter f a h') l.
Proof.
  intros Hf Ha [H1 H2]. split; intros b.
  - intros Hb. rewrite lookup_alter_ne by set_solver. auto.
  - rewrite <- H2, lookup_alter. case_decide; subst; [|done].
    destruct (h' !! b); simpl; [by rewrite Hf|done].
Qed.

Lemma ring_nil h : ring h [].
Proof. done. Qed.

Lemma ring_single h p : nx h p = Some p → pv h p = Some p → ring h [p].
Proof. done. Qed.

Lemma ring_flag v a h l : ring (alter (set_is_in_pool v) a h) l ↔ ring h l.
Proof.
  unfold ring. generalize (l ++ option_list (head l)) as k.
  induction k as [|b [|c k] IH]; [done..|]. unfold lnk in *.
  simpl in *. rewrite IH. unfold lnk. by heap_simp.
Qed.
End rep.

#[export] Hint Resolve frame_refl ring_nil : core.
Ltac frame_solve := repeat (apply frame_alter; [done|set_solver|]); apply frame_refl.

Section push.
Implicit Types (q : thread_queue_t) (h : gmap ptr ABTI_thread) (p x t : ptr) (l : list ptr).

(** The descriptor heap after a push, whatever end the unit goes to. *)
Lemma push_heap_one h p :
  is_Some (h !! p) →
  let h' := alter (set_is_in_pool 1) p (alter (set_p_next (Some p)) p
              (alter (set_p_prev (Some p)) p h)) in
  Forall (in_queue h') [p] ∧ ring h' [p] ∧ frame h h' [p].
Proof.
  intros Hp. cbn zeta. split_and!; [| |frame_solve].
  - rewrite Forall_singleton. apply in_queue_set. by rewrite !alter_is_Some.
  - rewrite ring_flag. by apply ring_single; heap_simp.
Qed.

Lemma push_heap_many h l p x t :
  head l = Some x → last l = Some t → NoDup (p :: l) → is_Some (h !! p) →
  Forall (in_queue h) l → ring h l →
  let h' := alter (set_is_in_pool 1) p (ins_heap p x t h) in
  Forall (in_queue h') (p :: l) ∧ ring h' (p :: l) ∧ frame h h' (p :: l).
Proof.
  intros Hx Ht Hd Hp Hin Hr. cbn zeta. inversion Hd as [|?? Hpl _]; subst.
  assert (x ∈ l) by (destruct l; set_solver). assert (t ∈ l) by by apply last_Some_elem_of.
  split_and!.
  - constructor; [apply in_queue_set; unfold ins_heap; by rewrite !alter_is_Some|].
    rewrite !Forall_forall in Hin |- *. intros a Ha.
    rewrite in_queue_ne by set_solver. unfold ins_heap. rewrite !in_queue_alter by done. auto.
  - rewrite ring_flag. apply ring_insert; try done.
    constructor; [done|]. by apply in_queue_alloc.
  - unfold ins_heap. frame_solve.
Qed.

Lemma head_Some_ne l : l ≠ [] → ∃ x t, head l = Some x ∧ last l = Some t.
Proof.
  destruct l as [|x l]; [done|]. intros _. destruct (last (x :: l)) eqn:E; [eauto|].
  by apply last_None in E.
Qed.

Lemma decide_ne {A} (l : list A) (a b : Z) : l ≠ [] → (if decide (l = []) then a else b) = b.
Proof. intros. by rewrite decide_False. Qed.

Lemma push_tail_ok q h l p :
  tq_rep q h l → p ∉ l → is_Some (h !! p) → Z.of_nat (length l) + 1 < 2 ^ 64 →
  ∃ q' h', thread_queue_push_tail p (q, h) = Done ((), (q', h')) ∧
           tq_rep q' h' (l ++ [p]) ∧ frame h h' (p :: l).
Proof.
  intros [Hn Hb Hh Htl He Hd Hin Hr] Hpl Hp Hlen. unfold thread_queue_push_tail.
  qstep.
  destruct (decide (l = [])) as [->|Hne].
  - rewrite Hn. simpl Z.eqb. cbn match. repeat qstep.
    destruct (push_heap_one h p Hp) as (G1 & G2 & G3).
    eexists _, _. split_and!; [reflexivity| |done]. split; try done. apply NoDup_singleton.
  - destruct (head_Some_ne _ Hne) as (x & t & Hx & Ht).
    assert (length l ≠ 0%nat) by (by destruct l).
    rewrite (proj2 (Z.eqb_neq _ _)) by lia. cbn beta zeta. rewrite Hh, Htl, Hx, Ht.
    assert (allocated h l) as Hal by (by apply in_queue_alloc).
    unfold allocated in Hal. rewrite Forall_forall in Hal.
    assert (is_Some (h !! x)) by (apply Hal; destruct l; set_solver).
    assert (is_Some (h !! t)) by (by apply Hal, last_Some_elem_of).
    repeat qstep.
    assert (NoDup (p :: l)) by (by constructor).
    destruct (push_heap_many h l p x t Hx Ht) as (G1 & G2 & G3); try done.
    eexists _, _. split_and!; [reflexivity| |done]. split; simpl.
    + rewrite Hn, u64_small by lia. rewrite length_app. simpl. lia.
    + rewrite length_app. simpl. lia.
    + by destruct l.
    + by rewrite last_snoc.
    + rewrite decide_ne by (by destruct l). by rewrite He.
    + apply NoDup_app. split_and!; [done|by intros a Ha ->%list_elem_of_singleton|apply NoDup_singleton].
    + apply Forall_app. inversion G1. split; auto.
    + by rewrite <- ring_rotate1.
Qed.

Lemma push_head_ok q h l p :
  tq_rep q h l → p ∉ l → is_Some (h !! p) → Z.of_nat (length l) + 1 < 2 ^ 64 →
  ∃ q' h', thread_queue_push_head p (q, h) = Done ((), (q', h')) ∧
           tq_rep q' h' (p :: l) ∧ frame h h' (p :: l).
Proof.
  intros [Hn Hb Hh Htl He Hd Hin Hr] Hpl Hp Hlen. unfold thread_queue_push_head.
  qstep.
  destruct (decide (l = [])) as [->|Hne].
  - rewrite Hn. simpl Z.eqb. cbn match. repeat qstep.
    destruct (push_heap_one h p Hp) as (G1 & G2 & G3).
    eexists _, _. split_and!; [reflexivity| |done]. split; try done. apply NoDup_singleton.
  - destruct (head_Some_ne _ Hne) as (x & t & Hx & Ht).
    assert (length l ≠ 0%nat) by (by destruct l).
    rewrite (proj2 (Z.eqb_neq _ _)) by lia. cbn beta zeta. rewrite Hh, Htl, Hx, Ht.
    assert (allocated h l) as Hal by (by apply in_queue_alloc).
    unfold allocated in Hal. rewrite Forall_forall in Hal.
    assert (is_Some (h !! x)) by (apply Hal; destruct l; set_solver).
    assert (is_Some (h !! t)) by (by apply Hal, last_Some_elem_of).
    repeat qstep.
    assert (NoDup (p :: l)) by (by constructor).
    destruct (push_heap_many h l p x t Hx Ht) as (G1 & G2 & G3); try done.
    eexists _, _. split_and!; [reflexivity| |done]. split; simpl.
    + rewrite Hn, u64_small by lia. lia.
    + lia.
    + done.
    + rewrite Htl. destruct l; [done|]. by rewrite last_cons_cons.
    + by rewrite He.
    + done.
    + done.
    + done.
Qed.
End push.

Section pop.
Implicit Types (q : thread_queue_t) (h : gmap ptr ABTI_thread) (a p x : ptr) (l : list ptr).

(** A unit that left its queue: no links, not in a pool. *)
Definition detached h p : Prop :=
  ∃ t, h !! p = Some t ∧ p_prev t = None ∧ p_next t = None ∧ is_in_pool t = 0.

Definition agree_off p h h' : Prop := ∀ b, b ≠ p → h' !! b = h !! b.

Lemma agree_off_alter f p h h' : agree_off p h h' → agree_off p h (alter f p h').
Proof. intros H b Hb. rewrite lookup_alter_ne by done. auto. Qed.

Lemma chain_agree h h' l :
  (∀ b, b ∈ l → h' !! b = h !! b) → chain h l → chain h' l.
Proof.
  induction l as [|a [|b l] IH]; intros Ha Hc; [done..|]. destruct Hc as [[H1 H2] Hc].
  split; [unfold lnk, nx, pv in *; rewrite !Ha by set_solver; done|].
  apply IH; [|done]. intros c Hcl. apply Ha. by right.
Qed.

Lemma ring_agree h h' p l : p ∉ l → agree_off p h h' → ring h l → ring h' l.
Proof.
  intros Hp Ha. unfold ring. apply chain_agree. intros b Hb. apply Ha. intros ->.
  destruct l; set_solver.
Qed.

Lemma in_queue_agree h h' p l :
  p ∉ l → agree_off p h h' → Forall (in_queue h) l → Forall (in_queue h') l.
Proof.
  intros Hp Ha H. rewrite !Forall_forall in H |- *. intros a Hal.
  destruct (H a Hal) as (t & Ht & Hi). exists t. by rewrite Ha by set_solver.
Qed.

(** Taking [p] out of the ring [p :: l] and clearing its fields, in any order. *)
Lemma delete_heap h h' p l :
  NoDup (p :: l) → Forall (in_queue h) (p :: l) → ring h (p :: l) → l ≠ [] →
  ∃ x t, head l = Some x ∧ last l = Some t ∧ nx h p = Some x ∧ pv h p = Some t ∧
    p ≠ x ∧ p ≠ t ∧ allocated h [p; x; t] ∧
    (agree_off p (del_heap x t h) h' → Forall (in_queue h') l ∧ ring h' l).
Proof.
  intros Hd Hin Hr Hne. destruct (head_Some_ne _ Hne) as (x & t & Hx & Ht).
  assert (allocated h (p :: l)) as Hal by (by apply in_queue_alloc).
  destruct (ring_delete h l p x t) as (Hring & Hn & Hv); try done.
  inversion Hd as [|?? Hp Hd']; subst. inversion Hin as [|?? Hip Hin']; subst.
  assert (x ∈ l) by (destruct l; set_solver). assert (t ∈ l) by by apply last_Some_elem_of.
  exists x, t. split_and!; try done; [set_solver|set_solver| |].
  - unfold allocated in *. rewrite Forall_forall in *. set_solver.
  - intros Ha. split; [|by eapply ring_agree].
    eapply in_queue_agree; [done..|]. rewrite !Forall_forall in *. intros a Hal'.
    unfold del_heap. rewrite !in_queue_alter by done. auto.
Qed.

Lemma detach_run q h p :
  is_Some (h !! p) →
  ∃ h', detach (Some p) (q, h) = Done ((), (q, h')) ∧ agree_off p h h' ∧
        detached h' p ∧ (∀ h0 k, p ∈ k → frame h0 h k → frame h0 h' k).
Proof.
  intros Hp. unfold detach. repeat qstep. eexists. split_and!; [done| | |].
  - by repeat apply agree_off_alter.
  - destruct Hp as [t Ht]. eexists. rewrite !lookup_alter_eq, Ht. simpl. split; done.
  - intros h0 k Hk Hf. by repeat (apply frame_alter; [done|done|]).
Qed.

Lemma rep_nonempty q h p l : tq_rep q h (p :: l) → 0 < num_threads q.
Proof. intros [-> _ _ _ _ _ _ _]. simpl. lia. Qed.

Lemma rep_reset q h h' p :
  tq_rep q h [p] → tq_rep (mk_queue 0 None None 1) h' [].
Proof. split; try done. constructor. Qed.

(** Removing a unit from anywhere in a queue of at least two. *)
Lemma rep_delete q h l1 p l2 :
  tq_rep q h (l1 ++ p :: l2) → l1 ++ l2 ≠ [] →
  ∃ x t, head (l2 ++ l1) = Some x ∧ last (l2 ++ l1) = Some t ∧
    nx h p = Some x ∧ pv h p = Some t ∧ p ≠ x ∧ p ≠ t ∧
    allocated h [p; x; t] ∧ frame h (del_heap x t h) (l1 ++ p :: l2) ∧
    ∀ h', agree_off p (del_heap x t h) h' →
      tq_rep (mk_queue (u64 (num_threads q - 1)) (head (l1 ++ l2)) (last (l1 ++ l2)) (is_empty q))
        h' (l1 ++ l2).
Proof.
  intros [Hn Hb Hh Htl He Hd Hin Hr] Hne.
  assert (p :: l2 ++ l1 ≡ₚ l1 ++ p :: l2) as Hperm by (by rewrite (Permutation_app_comm l1)).
  assert (NoDup (p :: l2 ++ l1)) as Hd' by (by rewrite Hperm).
  assert (Forall (in_queue h) (p :: l2 ++ l1)) as Hin' by (by rewrite Hperm).
  assert (ring h (p :: l2 ++ l1)) as Hr' by (by apply (ring_rotate h l1 (p :: l2))).
  assert (l2 ++ l1 ≠ []) as Hne' by (by destruct l1, l2).
  destruct (delete_heap h h p _ Hd' Hin' Hr' Hne') as (x & t & Hx & Ht & Hnx & Hpv & ? & ? & Hal & _).
  exists x, t. split_and!; try done.
  - assert (x ∈ l2 ++ l1) by (destruct (l2 ++ l1); set_solver).
    assert (t ∈ l2 ++ l1) by by apply last_Some_elem_of. unfold del_heap. frame_solve.
  - intros h' Hoff.
    destruct (delete_heap h h' p _ Hd' Hin' Hr' Hne') as (x' & t' & ? & ? & _ & _ & _ & _ & _ & Hok).
    simplify_eq. destruct (Hok Hoff) as [Hin'' Hr''].
    assert (l1 ++ l2 ≡ₚ l2 ++ l1) as Hperm' by apply Permutation_app_comm.
    rewrite length_app in Hn, Hb. simpl in Hn, Hb. split; simpl; try done.
    + rewrite Hn, u64_small by lia. rewrite length_app. lia.
    + rewrite length_app. lia.
    + rewrite He, !decide_ne; [done|done|by destruct l1].
    + rewrite Hperm'. by inversion Hd'.
    + by rewrite Hperm'.
    + by apply ring_rotate.
Qed.

Lemma rep_alloc q h l1 p l2 : tq_rep q h (l1 ++ p :: l2) → in_queue h p ∧ is_Some (h !! p).
Proof.
  intros [_ _ _ _ _ _ Hin _]. rewrite Forall_app, Forall_cons in Hin.
  destruct Hin as (_ & (t & Ht & ?) & _). split; [by exists t|by exists t].
Qed.

Lemma rep_length_ne1 q h l1 p l2 :
  tq_rep q h (l1 ++ p :: l2) → l1 ++ l2 ≠ [] → 1 < num_threads q.
Proof.
  intros [-> _ _ _ _ _ _ _] Hne. rewrite length_app. simpl. destruct l1, l2; simpl in *; [done|lia..].
Qed.

Lemma del_heap_alloc x t h p : is_Some (h !! p) → is_Some (del_heap x t h !! p).
Proof. unfold del_heap. by rewrite !alter_is_Some. Qed.
Lemma del_heap_nx x t h p : p ≠ t → nx (del_heap x t h) p = nx h p.
Proof. intros. unfold del_heap. by heap_simp. Qed.
Lemma del_heap_pv x t h p : p ≠ x → pv (del_heap x t h) p = pv h p.
Proof. intros. unfold del_heap. by heap_simp. Qed.

Lemma pop_head_ok q h p l :
  tq_rep q h (p :: l) →
  ∃ q' h', thread_queue_pop_head (q, h) = Done (Some p, (q', h')) ∧
           tq_rep q' h' l ∧ detached h' p ∧ frame h h' (p :: l).
Proof.
  intros Hrep. pose proof (rep_nonempty _ _ _ _ Hrep). destruct (rep_alloc q h [] p l Hrep) as [_ Hp].
  unfold thread_queue_pop_head. qstep. rewrite (proj2 (Z.ltb_lt _ _)) by done.
  rewrite (rep_head _ _ _ Hrep). cbn zeta. simpl head.
  destruct (decide (l = [])) as [->|Hne].
  - rewrite (rep_num _ _ _ Hrep). simpl Z.eqb. cbn match. unfold reset_queue. repeat qstep.
    destruct (detach_run (mk_queue 0 None None 1) h p) as (h' & E & _ & Hdet & Hfr); [done|].
    erewrite C_bind_Done by exact E. eexists _, _.
    split_and!; [done|by eapply rep_reset|done|apply Hfr; set_solver].
  - pose proof (rep_length_ne1 q h [] p l Hrep Hne). rewrite (proj2 (Z.eqb_neq _ _)) by lia.
    destruct (rep_delete q h [] p l Hrep Hne) as (x & t & Hx & Ht & Hnx & Hpv & ? & ? & Hal & Hfr & Hok).
    rewrite app_nil_r in Hx, Ht. repeat qstep.
    erewrite C_bind_Done by (apply on_heap_Done, unlink_run; done). cbn beta.
    pose proof (del_heap_alloc x t h p Hp). repeat qstep. rewrite del_heap_nx, Hnx by done.
    edestruct (detach_run) as (h' & E & Hoff & Hdet & Hfr'); [done|]. erewrite C_bind_Done by exact E.
    eexists _, _. split_and!; [done| |done|apply Hfr'; [set_solver|exact Hfr]].
    pose proof (Hok h' Hoff) as Hq. simpl app in Hq. rewrite Hx in Hq.
    unfold set_num_threads, set_p_head; simpl. rewrite (rep_tail _ _ _ Hrep). destruct l; [done|]. by rewrite last_cons_cons.
Qed.

Lemma pop_tail_ok q h p l :
  tq_rep q h (l ++ [p]) →
  ∃ q' h', thread_queue_pop_tail (q, h) = Done (Some p, (q', h')) ∧
           tq_rep q' h' l ∧ detached h' p ∧ frame h h' (l ++ [p]).
Proof.
  intros Hrep. destruct (rep_alloc q h l p [] Hrep) as [_ Hp]. pose proof (rep_num _ _ _ Hrep) as Hn.
  rewrite length_app in Hn. simpl in Hn.
  unfold thread_queue_pop_tail. qstep. rewrite (proj2 (Z.ltb_lt _ _)) by lia.
  rewrite (rep_tail _ _ _ Hrep), last_snoc. cbn zeta.
  destruct (decide (l = [])) as [->|Hne].
  - rewrite Hn. simpl Z.eqb. cbn match. unfold reset_queue. repeat qstep.
    destruct (detach_run (mk_queue 0 None None 1) h p) as (h' & E & _ & Hdet & Hfr); [done|].
    erewrite C_bind_Done by exact E. eexists _, _.
    split_and!; [done|by eapply rep_reset|done|apply Hfr; set_solver].
  - assert (l ++ [] ≠ []) as Hne' by (by rewrite app_nil_r).
    pose proof (rep_length_ne1 q h l p [] Hrep Hne'). rewrite (proj2 (Z.eqb_neq _ _)) by lia.
    destruct (rep_delete q h l p [] Hrep Hne') as (x & t & Hx & Ht & Hnx & Hpv & ? & ? & Hal & Hfr & Hok).
    simpl app in Hx, Ht. repeat qstep.
    erewrite C_bind_Done by (apply on_heap_Done, unlink_run; done). cbn beta.
    pose proof (del_heap_alloc x t h p Hp). repeat qstep. rewrite del_heap_pv, Hpv by done.
    edestruct (detach_run) as (h' & E & Hoff & Hdet & Hfr'); [done|]. erewrite C_bind_Done by exact E.
    eexists _, _. split_and!; [done| |done|apply Hfr'; [set_solver|exact Hfr]].
    pose proof (Hok h' Hoff) as Hq. rewrite app_nil_r, Hx, Ht in Hq.
    unfold set_num_threads, set_p_tail; simpl. rewrite (rep_head _ _ _ Hrep). destruct l; [done|]. simpl in *. by simplify_eq.
Qed.

(** An empty queue yields NULL and nothing changes. *)
Lemma pop_head_empty q h : tq_rep q h [] → thread_queue_pop_head (q, h) = Done (None, (q, h)).
Proof. intros [Hn _ _ _ _ _ _ _]. unfold thread_queue_pop_head. qstep. by rewrite Hn. Qed.
Lemma pop_tail_empty q h : tq_rep q h [] → thread_queue_pop_tail (q, h) = Done (None, (q, h)).
Proof. intros [Hn _ _ _ _ _ _ _]. unfold thread_queue_pop_tail. qstep. by rewrite Hn. Qed.
End pop.

Section remove.
Implicit Types (q : thread_queue_t) (h : gmap ptr ABTI_thread) (p : ptr) (l : list ptr).

Lemma load_flag_run q h p t :
  h !! p = Some t → on_heap (load is_in_pool (Some p)) (q, h) = Done (is_in_pool t, (q, h)).
Proof. intros. by apply on_heap_Done, load_run. Qed.

Lemma clear_run q h p :
  is_Some (h !! p) →
  ∃ h', (on_heap (store (set_is_in_pool 0) (Some p));;
         on_heap (store (set_p_prev None) (Some p));;
         on_heap (store (set_p_next None) (Some p));;
         mret ABT_SUCCESS) (q, h) = Done (ABT_SUCCESS, (q, h')) ∧ agree_off p h h' ∧
        detached h' p ∧ (∀ h0 k, p ∈ k → frame h0 h k → frame h0 h' k).
Proof.
  intros Hp. repeat qstep. eexists. split_and!; [done| | |].
  - by repeat apply agree_off_alter.
  - destruct Hp as [t Ht]. eexists. rewrite !lookup_alter_eq, Ht. simpl. split; done.
  - intros h0 k Hk Hf. by repeat (apply frame_alter; [done|done|]).
Qed.

(** Which end pointers a removal from the middle, the head or the tail sets. *)
Lemma remove_ends q h l1 p l2 x t :
  tq_rep q h (l1 ++ p :: l2) → l1 ++ l2 ≠ [] →
  head (l2 ++ l1) = Some x → last (l2 ++ l1) = Some t →
  (Some p = p_head q → l1 = [] ∧ head (l1 ++ l2) = Some x ∧ p_tail q = last (l1 ++ l2)) ∧
  (Some p ≠ p_head q → Some p = p_tail q → p_head q = head (l1 ++ l2) ∧ last (l1 ++ l2) = Some t) ∧
  (Some p ≠ p_head q → Some p ≠ p_tail q →
     p_head q = head (l1 ++ l2) ∧ p_tail q = last (l1 ++ l2)).
Proof.
  intros Hrep Hne Hx Ht. rewrite (rep_head _ _ _ Hrep), (rep_tail _ _ _ Hrep).
  pose proof (rep_nodup _ _ _ Hrep) as Hd. apply NoDup_app in Hd as (_ & Hdis & Hd2).
  inversion Hd2 as [|?? Hp2 _]; subst.
  split_and!.
  - destruct l1 as [|a l1]; simpl; [|intros [= ->]; exfalso; apply (Hdis a); set_solver].
    intros _. rewrite app_nil_r in Hx. destruct l2; [done|]. by rewrite last_cons_cons.
  - destruct l1 as [|a l1]; [done|]. intros _ Hl. split; [done|].
    destruct l2 as [|b l2]; [by rewrite app_nil_r in *|].
    exfalso. rewrite last_app_cons, last_cons_cons in Hl.
    symmetry in Hl. apply last_Some_elem_of in Hl. done.
  - destruct l1 as [|a l1]; [done|]. intros _ Hl. split; [done|].
    destruct l2 as [|b l2]; [by rewrite last_snoc in Hl|]. by apply last_mid.
Qed.

Lemma remove_ok q h l1 p l2 :
  tq_rep q h (l1 ++ p :: l2) →
  ∃ q' h', thread_queue_remove p (q, h) = Done (ABT_SUCCESS, (q', h')) ∧
           tq_rep q' h' (l1 ++ l2) ∧ detached h' p ∧ frame h h' (l1 ++ p :: l2).
Proof.
  intros Hrep. destruct (rep_alloc _ _ _ _ _ Hrep) as [(tp & Htp & Hflag) Hp].
  pose proof (rep_num _ _ _ Hrep) as Hn. rewrite length_app in Hn. simpl in Hn.
  unfold thread_queue_remove. qstep. rewrite (proj2 (Z.eqb_neq _ 0)) by lia.
  erewrite C_bind_Done by (by apply load_flag_run). cbn beta. rewrite Hflag. cbn [Z.eqb Pos.eqb negb].
  destruct (decide (l1 ++ l2 = [])) as [Hnil|Hne].
  - apply app_eq_nil in Hnil as [-> ->]. rewrite Hn. simpl Z.eqb. cbn match.
    unfold reset_queue. do 7 qstep.
    destruct (clear_run (mk_queue 0 None None 1) h p Hp) as (h' & E & _ & Hdet & Hfr).
    eexists _, _. split_and!; [exact E|by eapply rep_reset|done|apply Hfr; set_solver].
  - pose proof (rep_length_ne1 _ _ _ _ _ Hrep Hne). rewrite (proj2 (Z.eqb_neq _ 1)) by lia.
    destruct (rep_delete _ _ _ _ _ Hrep Hne) as (x & t & Hx & Ht & Hnx & Hpv & ? & ? & Hal & Hfr & Hok).
    destruct (remove_ends _ _ _ _ _ _ _ Hrep Hne Hx Ht) as (C1 & C2 & C3).
    pose proof (del_heap_alloc x t h p Hp) as Hp'.
    rewrite C_bind_assoc. erewrite C_bind_Done by (apply on_heap_Done, unlink_run; done). cbn beta.
    assert (∀ q0, q0 = mk_queue (num_threads q) (head (l1 ++ l2)) (last (l1 ++ l2)) (is_empty q) →
      ∃ q' h', (update (λ q, set_num_threads (u64 (num_threads q - 1)) q) ≫= λ _,
         on_heap (store (set_is_in_pool 0) (Some p));;
         on_heap (store (set_p_prev None) (Some p));;
         on_heap (store (set_p_next None) (Some p));; mret ABT_SUCCESS) (q0, del_heap x t h)
         = Done (ABT_SUCCESS, (q', h')) ∧
         tq_rep q' h' (l1 ++ l2) ∧ detached h' p ∧ frame h h' (l1 ++ p :: l2)) as Hrest.
    { intros q0 ->. qstep. edestruct (clear_run) as (h' & E & Hoff & Hdet & Hfr'); [exact Hp'|].
      eexists _, _. split_and!; [exact E|by apply Hok|done|apply Hfr'; [set_solver|done]]. }
    destruct (decide (Some p = p_head q)) as [Hph|Hph]; [|destruct (decide (Some p = p_tail q)) as [Hpt|Hpt]].
    + destruct (C1 Hph) as (-> & Hhx & Htt). rewrite !C_bind_assoc. do 3 qstep.
      rewrite del_heap_nx, Hnx by done. apply Hrest. rewrite <- Hhx, <- Htt. done.
    + destruct (C2 Hph Hpt) as [Hhh Htt]. rewrite !C_bind_assoc. do 3 qstep.
      rewrite del_heap_pv, Hpv by done. apply Hrest. rewrite <- Htt, <- Hhh. done.
    + destruct (C3 Hph Hpt) as [Hhh Htt]. rewrite C_bind_assoc.
      erewrite C_bind_Done by reflexivity. cbn beta. apply Hrest. rewrite <- Hhh, <- Htt. by destruct q.
Qed.

(** The two error returns leave everything as it was. *)
Lemma remove_err q h l p t :
  tq_rep q h l → h !! p = Some t → l = [] ∨ is_in_pool t ≠ 1 →
  thread_queue_remove p (q, h) = Done (ABT_ERR_POOL, (q, h)).
Proof.
  intros [Hn _ _ _ _ _ _ _] Ht Hor. unfold thread_queue_remove. qstep.
  destruct (decide (l = [])) as [->|Hne]; [by rewrite Hn|].
  destruct Hor as [?|Hflag]; [done|].
  rewrite (proj2 (Z.eqb_neq _ 0)) by (destruct l; simpl in *; [done|lia]).
  erewrite C_bind_Done by (by apply load_flag_run). cbn beta.
  rewrite (proj2 (Z.eqb_neq _ 1)) by done. done.
Qed.
End remove.

Section print.
Implicit Types (h : gmap ptr ABTI_thread) (l : list ptr).

Lemma print_loop_chain h l x :
  allocated h l → head l = Some x → chain h l →
  print_loop (length l) (Some x) h = Done (l, h).
Proof.
  revert x. induction l as [|a l IH]; intros x Ha Hx Hc; [done|]. simpl in Hx. simplify_eq.
  inversion Ha as [|?? Hax Hal]; subst. simpl. erewrite C_bind_Done by (by apply load_nx_run).
  destruct l as [|b l].
  - simpl. erewrite C_bind_Done by reflexivity. done.
  - destruct Hc as [[-> _] Hc]. erewrite C_bind_Done by (by apply IH). done.
Qed.

Lemma print_all_ok q h l :
  tq_rep q h l → thread_queue_print_all (q, h) = Done (l, (q, h)).
Proof.
  intros [Hn Hb Hh Htl He Hd Hin Hr]. unfold thread_queue_print_all. qstep.
  rewrite Hn, Hh, Nat2Z.id. destruct l as [|a l]; [done|].
  apply on_heap_Done. apply print_loop_chain; [by apply in_queue_alloc|done|].
  assert (a :: l ≠ []) as Hne by done.
  destruct (head_Some_ne _ Hne) as (x & t & Hx & Ht).
  rewrite (ring_iff _ _ _ _ Hx Ht) in Hr. tauto.
Qed.
End print.

(** ** The queue as an abstract deque

    Sequences of operations on one queue over a fixed set of descriptors, the
    list semantics they promise, and the refinement between the two. *)

Inductive qop :=
  | PushHead (p : ptr)
  | PushTail (p : ptr)
  | PopHead
  | PopTail
  | Remove (p : ptr)
  | PrintAll
  | GetSize
  | IsEmpty.

Inductive qret :=
  | RUnit
  | RUnitOrNull (r : option ptr)
  | RCode (c : Z)
  | RUnits (l : list ptr)
  | RSize (n : Z)
  | RBool (b : bool).

Definition exec_op (o : qop) : C tqs qret :=
  match o with
  | PushHead p => thread_queue_push_head p;; mret RUnit
  | PushTail p => thread_queue_push_tail p;; mret RUnit
  | PopHead => r ← thread_queue_pop_head; mret (RUnitOrNull r)
  | PopTail => r ← thread_queue_pop_tail; mret (RUnitOrNull r)
  | Remove p => c ← thread_queue_remove p; mret (RCode c)
  | PrintAll => l ← thread_queue_print_all; mret (RUnits l)
  | GetSize => q ← queue; mret (RSize (thread_queue_get_size q))
  | IsEmpty => q ← queue; mret (RBool (thread_queue_is_empty q))
  end.

Definition take_out (p : ptr) (l : list ptr) : list ptr := filter (λ a, a ≠ p) l.

(** [None]: the caller pushed a unit that is queued already. *)
Definition spec_op (o : qop) (l : list ptr) : option (qret * list ptr) :=
  match o with
  | PushHead p => if decide (p ∈ l) then None else Some (RUnit, p :: l)
  | PushTail p => if decide (p ∈ l) then None else Some (RUnit, l ++ [p])
  | PopHead => Some (RUnitOrNull (head l), tail l)
  | PopTail => Some (RUnitOrNull (last l), take (pred (length l)) l)
  | Remove p => if decide (p ∈ l) then Some (RCode ABT_SUCCESS, take_out p l)
                else Some (RCode ABT_ERR_POOL, l)
  | PrintAll => Some (RUnits l, l)
  | GetSize => Some (RSize (Z.of_nat (length l)), l)
  | IsEmpty => Some (RBool (bool_decide (l = [])), l)
  end.

Fixpoint exec_ops (os : list qop) : C tqs (list qret) :=
  match os with
  | [] => mret []
  | o :: os => r ← exec_op o; rs ← exec_ops os; mret (r :: rs)
  end.

Fixpoint spec_ops (os : list qop) (l : list ptr) : option (list qret * list ptr) :=
  match os with
  | [] => Some ([], l)
  | o :: os => '(r, l) ← spec_op o l; '(rs, l) ← spec_ops os l; Some (r :: rs, l)
  end.

Definition op_unit (o : qop) : list ptr :=
  match o with PushHead p | PushTail p | Remove p => [p] | _ => [] end.

(** One queue over its descriptors: the queue represents [l] and the units in a
    pool are those of [l]. *)
Record world (q : thread_queue_t) (h : gmap ptr ABTI_thread) (l : list ptr) : Prop := {
  world_rep : tq_rep q h l;
  world_flag : ∀ p t, h !! p = Some t → is_in_pool t = 1 → p ∈ l;
}.

Section deque.
Implicit Types (q : thread_queue_t) (h : gmap ptr ABTI_thread) (p : ptr) (l : list ptr).

Lemma frame_dom h h' l : frame h h' l → dom h' = dom h.
Proof.
  intros [_ Hp]. apply set_eq. intros b. rewrite !elem_of_dom.
  specialize (Hp b). destruct (h !! b), (h' !! b); simpl in *; split; intros; naive_solver.
Qed.

Lemma rep_size q h l : tq_rep q h l → (length l ≤ size (dom h))%nat.
Proof.
  intros Hrep. rewrite <- (size_list_to_set (C:=gset ptr) l) by apply Hrep.
  apply subseteq_size. intros a Ha. rewrite elem_of_list_to_set in Ha.
  destruct Hrep as [_ _ _ _ _ _ Hin _]. rewrite Forall_forall in Hin.
  destruct (Hin a Ha) as (t & Ht & _). apply elem_of_dom. eauto.
Qed.

Lemma rep_room q h l p :
  tq_rep q h l → p ∉ l → p ∈ dom h → (length l < size (dom h))%nat.
Proof.
  intros Hrep Hp Hd. assert (length (p :: l) ≤ size (dom h))%nat; [|simpl in *; lia].
  rewrite <- (size_list_to_set (C:=gset ptr) (p :: l)) by (constructor; [done|apply Hrep]).
  apply subseteq_size. intros a Ha. rewrite elem_of_list_to_set, elem_of_cons in Ha.
  destruct Ha as [->|Ha]; [done|]. destruct Hrep as [_ _ _ _ _ _ Hin _]. rewrite Forall_forall in Hin.
  destruct (Hin a Ha) as (t & Ht & _). apply elem_of_dom. eauto.
Qed.

Lemma world_frame q' h h' l l' k :
  tq_rep q' h' l' → frame h h' k → (∀ p t, h !! p = Some t → is_in_pool t = 1 → p ∈ l) →
  (∀ p, p ∈ l → p ∉ k → p ∈ l') →
  (∀ p t, p ∈ k → h' !! p = Some t → is_in_pool t = 1 → p ∈ l') → world q' h' l'.
Proof.
  intros Hrep [Hf _] Hflag Hkeep Hk. split; [done|]. intros p t Ht Hi.
  destruct (decide (p ∈ k)); [by eapply Hk|]. rewrite Hf in Ht by done. eauto.
Qed.

Lemma detached_flag h p t : detached h p → h !! p = Some t → is_in_pool t ≠ 1.
Proof. intros (u & Hu & _ & _ & Hi) Ht. simplify_eq. by rewrite Hi. Qed.

Lemma take_out_mid l1 p l2 : NoDup (l1 ++ p :: l2) → take_out p (l1 ++ p :: l2) = l1 ++ l2.
Proof.
  intros Hd. apply NoDup_app in Hd as (_ & Hdis & Hd2). inversion Hd2 as [|?? Hp _]; subst.
  unfold take_out. rewrite filter_app, filter_cons_False by (by intros []).
  rewrite !filter_all; [done| |]; apply Forall_forall.
  - intros a Ha ->. done.
  - intros a Ha ->. apply (Hdis p); set_solver.
Qed.

Lemma exec_op_ok o q h l r l' :
  world q h l → Z.of_nat (size (dom h)) < 2 ^ 64 → Forall (.∈ dom h) (op_unit o) →
  spec_op o l = Some (r, l') →
  ∃ q' h', exec_op o (q, h) = Done (r, (q', h')) ∧ world q' h' l' ∧ dom h' = dom h.
Proof.
  intros [Hrep Hflag] Hsz Hu Hspec. destruct o; simpl in Hspec, Hu |- *; try case_decide; simplify_eq.
  - rewrite Forall_singleton in Hu. pose proof (rep_room _ _ _ _ Hrep H Hu).
    destruct (push_head_ok q h l p) as (q' & h' & E & Hr & Hf); [done|done|by apply elem_of_dom|lia|].
    erewrite C_bind_Done by done. eexists _, _. split_and!; [done| |by eapply frame_dom].
    eapply world_frame; [done|done|done|set_solver|done].
  - rewrite Forall_singleton in Hu. pose proof (rep_room _ _ _ _ Hrep H Hu).
    destruct (push_tail_ok q h l p) as (q' & h' & E & Hr & Hf); [done|done|by apply elem_of_dom|lia|].
    erewrite C_bind_Done by done. eexists _, _. split_and!; [done| |by eapply frame_dom].
    eapply world_frame; [done|done|done|set_solver|set_solver].
  - destruct l as [|p l]; simpl.
    { erewrite C_bind_Done by (by apply pop_head_empty). by eexists _, _. }
    destruct (pop_head_ok q h p l) as (q' & h' & E & Hr & Hdet & Hf); [done|].
    erewrite C_bind_Done by done. eexists _, _. split_and!; [done| |by eapply frame_dom].
    eapply world_frame; [done|done|done|set_solver|]. intros a t Ha Ht Hi.
    apply elem_of_cons in Ha as [->|]; [by eapply detached_flag in Ht|done].
  - destruct l as [|p l _] using rev_ind; simpl.
    { erewrite C_bind_Done by (by apply pop_tail_empty). by eexists _, _. }
    destruct (pop_tail_ok q h p l) as (q' & h' & E & Hr & Hdet & Hf); [done|].
    erewrite C_bind_Done by done. rewrite last_snoc, length_app. simpl.
    rewrite Nat.add_1_r. simpl. rewrite take_app_length.
    eexists _, _. split_and!; [done| |by eapply frame_dom].
    eapply world_frame; [done|done|done|set_solver|]. intros a t Ha Ht Hi.
    rewrite elem_of_app, list_elem_of_singleton in Ha. destruct Ha as [| ->]; [done|].
    by eapply detached_flag in Ht.
  - pose proof H as (l1 & l2 & ->)%list_elem_of_split.
    destruct (remove_ok q h l1 p l2) as (q' & h' & E & Hr & Hdet & Hf); [done|].
    erewrite C_bind_Done by done. rewrite take_out_mid by apply Hrep.
    eexists _, _. split_and!; [done| |by eapply frame_dom].
    eapply world_frame; [done|done|done|set_solver|]. intros a t Ha Ht Hi.
    destruct (decide (a = p)) as [->|]; [by eapply detached_flag in Ht|set_solver].
  - rewrite Forall_singleton in Hu. apply elem_of_dom in Hu as [t Ht].
    erewrite C_bind_Done by (eapply remove_err; [done..|right; naive_solver]).
    by eexists _, _.
  - erewrite C_bind_Done by (by apply print_all_ok). by eexists _, _.
  - qstep. unfold thread_queue_get_size. rewrite (rep_num _ _ _ Hrep). by eexists _, _.
  - qstep. unfold thread_queue_is_empty. rewrite (rep_empty _ _ _ Hrep).
    eexists _, _. split_and!; [|done..]. by case_decide; case_bool_decide.
Qed.
End deque.

(** C15: the intrusive queue refines a deque.  Any sequence of operations that
    never pushes a queued unit runs without fault and returns what the list
    semantics returns, [ABT_ERR_POOL] included, and the final state again
    represents the list. *)
Theorem thread_queue_refines_deque os : ∀ q h l rs l',
  world q h l → Z.of_nat (size (dom h)) < 2 ^ 64 →
  Forall (λ o, Forall (.∈ dom h) (op_unit o)) os →
  spec_ops os l = Some (rs, l') →
  ∃ q' h', exec_ops os (q, h) = Done (rs, (q', h')) ∧ world q' h' l' ∧ dom h' = dom h.
Proof.
  induction os as [|o os IH]; intros q h l rs l' Hw Hsz Hu Hspec; simpl in Hspec |- *.
  { simplify_eq. by eexists _, _. }
  apply Forall_cons in Hu as [Ho Hu].
  apply bind_Some in Hspec as ([r l1] & Hop & Hspec).
  apply bind_Some in Hspec as ([rs1 l2] & Hops & Hspec). simplify_eq.
  destruct (exec_op_ok o q h l r l1) as (q1 & h1 & E1 & Hw1 & Hd1); [done..|].
  destruct (IH q1 h1 l1 rs1 l') as (q2 & h2 & E2 & Hw2 & Hd2); [done|by rewrite Hd1..|done|].
  erewrite C_bind_Done by done. erewrite C_bind_Done by done.
  eexists _, _. split_and!; [done|done|congruence].
Qed.

(** A run over three units, with both ends used and a removal. *)
Definition idle : ABTI_thread := mk_thread None None 0 ABTI_THREAD_TYPE_YIELDABLE ABT_THREAD_STATE_READY.
Definition three_idle : gmap ptr ABTI_thread := list_to_map [(1%positive, idle); (2%positive, idle); (3%positive, idle)].
Definition demo_ops : list qop :=
  [PushTail 1; PushHead 2; PushTail 3; PrintAll; Remove 1; Remove 1; PopTail; PopHead; PopHead; IsEmpty].

Lemma thread_queue_refines_deque_witness :
  ∃ q' h', exec_ops demo_ops (mk_queue 0 None None 1, three_idle) =
    Done ([RUnit; RUnit; RUnit; RUnits [2; 1; 3]; RCode ABT_SUCCESS; RCode ABT_ERR_POOL;
           RUnitOrNull (Some 3); RUnitOrNull (Some 2); RUnitOrNull None; RBool true]%positive, (q', h'))
    ∧ world q' h' [].
Proof.
  destruct (thread_queue_refines_deque demo_ops (mk_queue 0 None None 1) three_idle []
    [RUnit; RUnit; RUnit; RUnits [2; 1; 3]; RCode ABT_SUCCESS; RCode ABT_ERR_POOL;
     RUnitOrNull (Some 3); RUnitOrNull (Some 2); RUnitOrNull None; RBool true]%positive [])
    as (q' & h' & E & Hw & _).
  - split; [split; try done; constructor|]. intros p t Ht Hi.
    apply elem_of_list_to_map_2 in Ht. set_solver.
  - by vm_compute.
  - repeat constructor; by vm_compute.
  - reflexivity.
  - eauto.
Defined.
