(* ===== verification/Pool.v ===== *)
(** * Built-in pools: shared data and the pool interface

    A pool object with its spinlock and its work-unit queue, the encoding of
    built-in units (argobots/src/include/abti_unit.h), the lock-if-not-empty
    protocol of thread_queue.h, and the interface through which schedulers use
    a pool ([ABTI_pool_required_def]), as a class with its laws. *)

From stdpp Require Import base tactics option list numbers gmap fin_maps.
From S2P Require Import Prelude.
From S2P Require Import Abt.
From S2P Require Import Thread.
From S2P Require Import ThreadQueue.

(** [ABT_pool_access] (abt.h.in). *)
Definition ABT_POOL_ACCESS_PRIV : Z := 0.
Definition ABT_POOL_ACCESS_SPSC : Z := 1.
Definition ABT_POOL_ACCESS_MPSC : Z := 2.
Definition ABT_POOL_ACCESS_SPMC : Z := 3.
Definition ABT_POOL_ACCESS_MPMC : Z := 4.

(** [ABT_pool_context] bits (abt.h.in). *)
Definition ABT_POOL_CONTEXT_OP_POOL_OTHER : Z := 0x0.
Definition ABT_POOL_CONTEXT_OWNER_PRIMARY : Z := 0x100.
Definition ABT_POOL_CONTEXT_OWNER_SECONDARY : Z := 0x200.
Definition ABT_POOL_CONTEXT_OP_THREAD_CREATE : Z := 0x1000.
Definition ABT_POOL_CONTEXT_OP_THREAD_CREATE_TO : Z := 0x2000.
Definition ABT_POOL_CONTEXT_OP_THREAD_REVIVE : Z := 0x4000.
Definition ABT_POOL_CONTEXT_OP_THREAD_REVIVE_TO : Z := 0x8000.
Definition ABT_POOL_CONTEXT_OP_THREAD_YIELD : Z := 0x10000.

(** ** Built-in units

    Descriptor [p] lives at the even address [addr p]; the unit of a built-in
    pool is that address with the lowest bit set. *)

Definition addr (p : ptr) : Z := 2 * Z.pos p.
Definition of_addr (a : Z) : option ptr :=
  match a with Z.pos (xO p) => Some p | _ => None end.

Definition ABTI_UNIT_BUILTIN_POOL_BIT : Z := 0x1.

Definition ABTI_unit_is_builtin (unit : Z) : bool :=
  negb (Z.eqb (Z.land unit ABTI_UNIT_BUILTIN_POOL_BIT) 0).

Definition ABTI_unit_get_builtin_unit {S} (p_thread : ptr) : C S Z :=
  c_assert (Z.eqb (Z.land (addr p_thread) ABTI_UNIT_BUILTIN_POOL_BIT) 0);;
  mret (Z.lor (addr p_thread) ABTI_UNIT_BUILTIN_POOL_BIT).

Definition ABTI_unit_get_thread_from_builtin_unit {S} (unit : Z) : C S ptr :=
  c_assert (ABTI_unit_is_builtin unit);;
  match of_addr (Z.land unit (Z.lnot ABTI_UNIT_BUILTIN_POOL_BIT)) with
  | Some p => mret p
  | None => throw UB
  end.

(** The unit of a descriptor. *)
Definition builtin (p : ptr) : Z := 2 * Z.pos p + 1.

Lemma get_builtin_unit_run {S} (s : S) p :
  ABTI_unit_get_builtin_unit p s = Done (builtin p, s).
Proof. reflexivity. Qed.

Lemma get_thread_run {S} (s : S) p :
  ABTI_unit_get_thread_from_builtin_unit (builtin p) s = Done (p, s).
Proof. reflexivity. Qed.

(** ** Pool objects *)

Record data_t := mk_data { mutex : bool; dqueue : thread_queue_t }.
Record ABTI_pool := mk_pool { access : Z; data : option data_t }.

Abbreviation dst := (data_t * gmap positive ABTI_thread)%type (only parsing).
Abbreviation pst := (ABTI_pool * gmap positive ABTI_thread)%type (only parsing).

Definition on_queue {A} (m : C tqs A) : C dst A :=
  zoom (λ s, (dqueue s.1, s.2)) (λ t s, (mk_data (mutex s.1) t.1, t.2)) m.
Definition on_mutex {A} (m : C bool A) : C dst A :=
  zoom (λ s, mutex s.1) (λ b s, (mk_data b (dqueue s.1), s.2)) m.

(** [data_t *p_data = pool_get_data_ptr(p_pool->data)], then [m] on it. *)
Definition with_data {A} (m : C dst A) : C pst A := λ s,
  match data s.1 with
  | None => Fault UB
  | Some d =>
      match m (d, s.2) with
      | Done (a, (d', h')) => Done (a, (mk_pool (access s.1) (Some d'), h'))
      | Fault f => Fault f
      end
  end.

(** Take the lock unless the queue is empty: returns 1 without the lock on an
    empty queue, 0 with the lock held otherwise.  With the queue not empty and
    the lock held by somebody else neither inner-loop exit applies until that
    thread acts. *)
Definition thread_queue_acquire_spinlock_if_not_empty : C dst Z :=
  empty ← gets (λ s, is_empty (dqueue s.1));
  if negb (Z.eqb empty 0) then mret 1 else
  failed ← on_mutex ABTD_spinlock_try_acquire;
  if (failed : bool) then throw Blocked else mret 0.

Fixpoint push_many_loop (push : ptr → C dst unit) (units : list Z) : C dst unit :=
  match units with
  | [] => mret ()
  | u :: units => p ← ABTI_unit_get_thread_from_builtin_unit u; push p;; push_many_loop push units
  end.

(** The pop loop: at most [n] handles, stopping at the first NULL. *)
Fixpoint pop_many_loop (pop : C dst (option ptr)) (n : nat) : C dst (list ptr) :=
  match n with
  | O => mret []
  | S n =>
      r ← pop;
      match r with
      | None => mret []
      | Some p => rest ← pop_many_loop pop n; mret (p :: rest)
      end
  end.

(** ** Pool representation *)

(** The pool holds the units [l], its lock is free. *)
Definition pool_rep (s : pst) (l : list ptr) : Prop :=
  ∃ d, data s.1 = Some d ∧ mutex d = false ∧ tq_rep (dqueue d) s.2 l.

(** What a pool operation leaves alone: the access mode, descriptors outside
    [k], and the non-link fields of every descriptor. *)
Definition pool_frame (s s' : pst) (k : list ptr) : Prop :=
  access s'.1 = access s.1 ∧ frame s.2 s'.2 k.

Lemma pool_rep_room s l p :
  pool_rep s l → p ∉ l → p ∈ dom s.2 → (length l < size (dom s.2))%nat.
Proof. intros (d & _ & _ & Hr). by eapply rep_room. Qed.

(** ** The interface schedulers rely on

    A pool implementation gives a push and a pop; both work on a pool that
    holds [l], and pop hands out each unit exactly once. *)

Class PoolOps := {
  (* required *)
  p_create_unit : C pst unit;
  p_free_unit : C pst unit;
  p_is_empty : C pst bool;
  p_pop : Z → C pst (option ptr);
  p_push : Z → Z → C pst unit;
  (* optional *)
  p_init : data_t → bool → C pst Z;
  p_free : C pst unit;
  p_get_size : C pst Z;
  p_pop_wait : (nat → Z) → (nat → C dst unit) → nat → Z → Z → C pst (option ptr);
  p_pop_many : nat → Z → C pst (list ptr);
  p_push_many : list Z → Z → C pst unit;
  p_print_all : C pst (list ptr);
  (* deprecated *)
  u_is_in_pool : Z → C pst bool;
  p_pop_timedwait : (nat → Z) → (nat → C dst unit) → nat → Z → C pst (option Z);
  p_remove : Z → C pst Z;
}.

Class PoolLaws (ops : PoolOps) := {
  push_law s l p ctx :
    pool_rep s l → p ∉ l → p ∈ dom s.2 → Z.of_nat (size (dom s.2)) < 2 ^ 64 →
    ∃ s' l', p_push (builtin p) ctx s = Done ((), s') ∧ pool_rep s' l' ∧ l' ≡ₚ p :: l ∧
             pool_frame s s' (p :: l);
  pop_law s l ctx :
    pool_rep s l →
    ∃ r s', p_pop ctx s = Done (r, s') ∧
      match r with
      | None => l = [] ∧ s' = s
      | Some p => ∃ l', l ≡ₚ p :: l' ∧ pool_rep s' l' ∧ pool_frame s s' l ∧ detached s'.2 p
      end;
  empty_law s l :
    pool_rep s l → p_is_empty s = Done (bool_decide (l = []), s);
  size_law s l :
    pool_rep s l → p_get_size s = Done (Z.of_nat (length l), s);
}.

(** ** Symbolic execution of pool statements *)

Section exec.
Implicit Types (d : data_t) (h : gmap ptr ABTI_thread).

Lemma on_queue_run {A} (m : C tqs A) d h a q' h' :
  m (dqueue d, h) = Done (a, (q', h')) →
  on_queue m (d, h) = Done (a, (mk_data (mutex d) q', h')).
Proof. intros E. unfold on_queue, zoom. simpl. by rewrite E. Qed.

Lemma acquire_run q h :
  on_mutex ABTD_spinlock_acquire (mk_data false q, h) = Done ((), (mk_data true q, h)).
Proof. done. Qed.

Lemma release_run d h :
  on_mutex ABTD_spinlock_release (d, h) = Done ((), (mk_data false (dqueue d), h)).
Proof. done. Qed.

Lemma acquire_if_run q h l :
  tq_rep q h l →
  thread_queue_acquire_spinlock_if_not_empty (mk_data false q, h) =
    if decide (l = []) then Done (1, (mk_data false q, h)) else Done (0, (mk_data true q, h)).
Proof.
  intros Hr. unfold thread_queue_acquire_spinlock_if_not_empty.
  erewrite C_bind_Done by reflexivity. simpl. rewrite (rep_empty _ _ _ Hr). by case_decide.
Qed.

Lemma with_data_run {A} (m : C dst A) a acc d d' h h' :
  m (d, h) = Done (a, (d', h')) →
  with_data m (mk_pool acc (Some d), h) = Done (a, (mk_pool acc (Some d'), h')).
Proof. intros E. unfold with_data. simpl. by rewrite E. Qed.
End exec.

Ltac pstep :=
  first
    [ rewrite C_bind_assoc
    | erewrite C_bind_Done by (apply get_thread_run)
    | erewrite C_bind_Done by (apply acquire_run)
    | erewrite C_bind_Done by (apply release_run)
    | erewrite C_bind_Done by (eapply on_queue_run; simpl; eassumption)
    | rewrite release_run ];
  cbn beta.

(** A pool that represents [l], opened. *)
Lemma pool_rep_inv s l :
  pool_rep s l → ∃ acc q h, s = (mk_pool acc (Some (mk_data false q)), h) ∧ tq_rep q h l.
Proof.
  destruct s as [[acc [d|]] h]; intros (d' & Hd & Hm & Hr); simpl in *; [|done].
  simplify_eq. destruct d' as [m q]. simpl in *. subst. eauto.
Qed.

Lemma pool_rep_intro acc q h l :
  tq_rep q h l → pool_rep (mk_pool acc (Some (mk_data false q)), h) l.
Proof. intros. by exists (mk_data false q). Qed.
#[export] Hint Resolve pool_rep_intro : core.
