(* ===== verification/PoolFifo.v ===== *)
(** * The FIFO pool

    argobots/src/pool/fifo.c: the pool Argobots gives every execution stream by
    default.  The shared variants run under the pool's spinlock, the private
    ones without it. *)

From stdpp Require Import base tactics option list numbers gmap fin_maps.
From S2P Require Import Prelude.
From S2P Require Import Abt.
From S2P Require Import Thread.
From S2P Require Import ThreadQueue.
From S2P Require Import Pool.

(** [malloc_ok] tells whether [ABTU_malloc] succeeds, [p_data] is what the
    fresh block holds. *)
Definition pool_init (p_data : data_t) (malloc_ok : bool) : C pst Z :=
  if negb malloc_ok then mret ABT_ERR_MEM else
  p ← gets fst;
  let p_data := if Z.eqb (access p) ABT_POOL_ACCESS_PRIV then p_data
                else mk_data false (dqueue p_data) in
  h ← gets snd;
  match thread_queue_init (dqueue p_data, h) with
  | Fault f => throw f
  | Done (_, (q, h)) =>
      put (mk_pool (access p) (Some (mk_data (mutex p_data) q)), h);;
      mret ABT_SUCCESS
  end.

Definition pool_free : C pst unit :=
  with_data (mret ());; modify (λ s, (mk_pool (access s.1) None, s.2)).

Definition pool_is_empty : C pst bool :=
  with_data (gets (λ s, thread_queue_is_empty (dqueue s.1))).

Definition pool_get_size : C pst Z :=
  with_data (gets (λ s, thread_queue_get_size (dqueue s.1))).

Definition pool_push_shared (u context : Z) : C pst unit :=
  with_data (
    p_thread ← ABTI_unit_get_thread_from_builtin_unit u;
    on_mutex ABTD_spinlock_acquire;;
    on_queue (thread_queue_push_tail p_thread);;
    on_mutex ABTD_spinlock_release).

Definition pool_push_private (u context : Z) : C pst unit :=
  with_data (
    p_thread ← ABTI_unit_get_thread_from_builtin_unit u;
    on_queue (thread_queue_push_tail p_thread)).

Definition push_tail_of (p : ptr) : C dst unit := on_queue (thread_queue_push_tail p).

Definition pool_push_many_shared (units : list Z) (context : Z) : C pst unit :=
  with_data (
    if decide (length units = 0%nat) then mret () else
    on_mutex ABTD_spinlock_acquire;;
    push_many_loop push_tail_of units;;
    on_mutex ABTD_spinlock_release).

Definition pool_push_many_private (units : list Z) (context : Z) : C pst unit :=
  with_data (push_many_loop push_tail_of units).

Definition pool_pop_shared (context : Z) : C pst (option ptr) :=
  with_data (
    r ← thread_queue_acquire_spinlock_if_not_empty;
    if Z.eqb r 0 then
      p_thread ← on_queue thread_queue_pop_head;
      on_mutex ABTD_spinlock_release;;
      mret p_thread
    else mret None).

Definition pool_pop_private (context : Z) : C pst (option ptr) :=
  with_data (on_queue thread_queue_pop_head).

Definition pool_pop_many_shared (max_threads : nat) (context : Z) : C pst (list ptr) :=
  with_data (
    if decide (max_threads = 0%nat) then mret [] else
    r ← thread_queue_acquire_spinlock_if_not_empty;
    if Z.eqb r 0 then
      threads ← pop_many_loop (on_queue thread_queue_pop_head) max_threads;
      on_mutex ABTD_spinlock_release;;
      mret threads
    else mret []).

Definition pool_pop_many_private (max_threads : nat) (context : Z) : C pst (list ptr) :=
  with_data (pop_many_loop (on_queue thread_queue_pop_head) max_threads).

Definition pool_remove_shared (u : Z) : C pst Z :=
  with_data (
    p_thread ← ABTI_unit_get_thread_from_builtin_unit u;
    on_mutex ABTD_spinlock_acquire;;
    abt_errno ← on_queue (thread_queue_remove p_thread);
    on_mutex ABTD_spinlock_release;;
    mret abt_errno).

Definition pool_remove_private (u : Z) : C pst Z :=
  with_data (
    p_thread ← ABTI_unit_get_thread_from_builtin_unit u;
    on_queue (thread_queue_remove p_thread)).

Definition pool_print_all : C pst (list ptr) :=
  acc ← gets (λ s : pst, access s.1);
  with_data (
    (if Z.eqb acc ABT_POOL_ACCESS_PRIV then mret () else on_mutex ABTD_spinlock_acquire);;
    units ← on_queue thread_queue_print_all;
    (if Z.eqb acc ABT_POOL_ACCESS_PRIV then mret () else on_mutex ABTD_spinlock_release);;
    mret units).

Definition pool_unit_is_in_pool (u : Z) : C pst bool :=
  p_thread ← ABTI_unit_get_thread_from_builtin_unit u;
  flag ← zoom snd (λ h s, (s.1, h)) (load is_in_pool (Some p_thread));
  mret (negb (Z.eqb flag 0)).

Definition pool_create_unit : C pst unit := c_assert false.
Definition pool_free_unit : C pst unit := c_assert false.

(** ** Waiting pops

    [clock i] is the [i]-th reading of [ABTI_get_wtime()] (as an exact number),
    [env i] is what other threads do to the pool during the [i]-th sleep.  Each
    pass of the loop takes one unit of fuel. *)
Section waiting.
Variable clock : nat → Z.
Variable env : nat → C dst unit.

Definition try_pop : C dst (option ptr) :=
  r ← thread_queue_acquire_spinlock_if_not_empty;
  if Z.eqb r 0 then
    p_thread ← on_queue thread_queue_pop_head;
    on_mutex ABTD_spinlock_release;;
    mret p_thread
  else mret None.

Fixpoint pop_wait_loop (fuel i : nat) (time_start time_secs : Z) : C dst (option ptr) :=
  match fuel with
  | O => throw OutOfFuel
  | S fuel =>
      p_thread ← try_pop;
      match p_thread with
      | Some p => mret (Some p)
      | None =>
          if Z.eqb time_start 0 then
            env i;; pop_wait_loop fuel (S i) (clock i) time_secs
          else
            let elapsed := clock i - time_start in
            if Z.ltb time_secs elapsed then mret None
            else env i;; pop_wait_loop fuel (S i) time_start time_secs
      end
  end.

Definition pool_pop_wait (fuel : nat) (time_secs context : Z) : C pst (option ptr) :=
  with_data (pop_wait_loop fuel 0 0 time_secs).

Fixpoint pop_timedwait_loop (fuel i : nat) (abstime_secs : Z) : C dst (option Z) :=
  match fuel with
  | O => throw OutOfFuel
  | S fuel =>
      p_thread ← try_pop;
      match p_thread with
      | Some p => u ← ABTI_unit_get_builtin_unit p; mret (Some u)
      | None =>
          env i;;
          if Z.ltb abstime_secs (clock i) then mret None
          else pop_timedwait_loop fuel (S i) abstime_secs
      end
  end.

Definition pool_pop_timedwait (fuel : nat) (abstime_secs : Z) : C pst (option Z) :=
  with_data (pop_timedwait_loop fuel 0 abstime_secs).
End waiting.

(** [ABTI_pool_get_fifo_def]: the operations for an access mode. *)
Definition fifo_private : PoolOps := {|
  p_push := pool_push_private; p_pop := pool_pop_private;
  p_push_many := pool_push_many_private; p_pop_many := pool_pop_many_private;
  p_remove := pool_remove_private;
  p_init := pool_init; p_free := pool_free; p_is_empty := pool_is_empty;
  p_get_size := pool_get_size; p_pop_wait := pool_pop_wait; p_print_all := pool_print_all;
  p_create_unit := pool_create_unit; p_free_unit := pool_free_unit;
  p_pop_timedwait := pool_pop_timedwait; u_is_in_pool := pool_unit_is_in_pool |}.

Definition fifo_shared : PoolOps := {|
  p_push := pool_push_shared; p_pop := pool_pop_shared;
  p_push_many := pool_push_many_shared; p_pop_many := pool_pop_many_shared;
  p_remove := pool_remove_shared;
  p_init := pool_init; p_free := pool_free; p_is_empty := pool_is_empty;
  p_get_size := pool_get_size; p_pop_wait := pool_pop_wait; p_print_all := pool_print_all;
  p_create_unit := pool_create_unit; p_free_unit := pool_free_unit;
  p_pop_timedwait := pool_pop_timedwait; u_is_in_pool := pool_unit_is_in_pool |}.

Definition ABTI_pool_get_fifo_def (acc : Z) : Z + PoolOps :=
  if Z.eqb acc ABT_POOL_ACCESS_PRIV then inr fifo_private
  else if (Z.eqb acc ABT_POOL_ACCESS_SPSC || Z.eqb acc ABT_POOL_ACCESS_MPSC ||
           Z.eqb acc ABT_POOL_ACCESS_SPMC || Z.eqb acc ABT_POOL_ACCESS_MPMC)%bool
  then inr fifo_shared
  else inl ABT_ERR_INV_POOL_ACCESS.

(** ** Correctness *)

Section ops.
Implicit Types (q : thread_queue_t) (h : gmap ptr ABTI_thread) (p : ptr) (l : list ptr).

(** Push appends, pop takes the front, whatever the context bits. *)
Lemma push_shared_ok s l p ctx :
  pool_rep s l → p ∉ l → p ∈ dom s.2 → Z.of_nat (size (dom s.2)) < 2 ^ 64 →
  ∃ s', pool_push_shared (builtin p) ctx s = Done ((), s') ∧ pool_rep s' (l ++ [p]) ∧
        pool_frame s s' (p :: l).
Proof.
  intros Hr Hp Hd Hsz. pose proof (pool_rep_room _ _ _ Hr Hp Hd).
  destruct (pool_rep_inv _ _ Hr) as (acc & q & h & -> & Hq). simpl in *.
  destruct (push_tail_ok q h l p) as (q' & h' & E & Hq' & Hf); [done..|by apply elem_of_dom|lia|].
  eexists. split_and!; [apply with_data_run; repeat pstep; reflexivity|by apply pool_rep_intro|done].
Qed.

Lemma push_private_ok s l p ctx :
  pool_rep s l → p ∉ l → p ∈ dom s.2 → Z.of_nat (size (dom s.2)) < 2 ^ 64 →
  ∃ s', pool_push_private (builtin p) ctx s = Done ((), s') ∧ pool_rep s' (l ++ [p]) ∧
        pool_frame s s' (p :: l).
Proof.
  intros Hr Hp Hd Hsz. pose proof (pool_rep_room _ _ _ Hr Hp Hd).
  destruct (pool_rep_inv _ _ Hr) as (acc & q & h & -> & Hq). simpl in *.
  destruct (push_tail_ok q h l p) as (q' & h' & E & Hq' & Hf); [done..|by apply elem_of_dom|lia|].
  eexists. split_and!; [apply with_data_run; pstep; by apply on_queue_run| |done].
  by apply pool_rep_intro.
Qed.

(** The critical section of a pop, also the body of the waiting pops. *)
Lemma try_pop_ok q h l :
  tq_rep q h l →
  match l with
  | [] => try_pop (mk_data false q, h) = Done (None, (mk_data false q, h))
  | p :: l => ∃ q' h', try_pop (mk_data false q, h) = Done (Some p, (mk_data false q', h')) ∧
                       tq_rep q' h' l ∧ detached h' p ∧ frame h h' (p :: l)
  end.
Proof.
  intros Hq. destruct l as [|p l]; unfold try_pop.
  - unfold mbind, C_bind. rewrite (acquire_if_run _ _ _ Hq). done.
  - destruct (pop_head_ok q h p l Hq) as (q' & h' & E & Hq' & Hdet & Hf).
    exists q', h'. split; [|done]. erewrite C_bind_Done by (by apply (acquire_if_run _ _ _ Hq)).
    cbn beta. cbn [Z.eqb]. repeat pstep. done.
Qed.

Lemma pop_shared_ok s l ctx :
  pool_rep s l →
  match l with
  | [] => pool_pop_shared ctx s = Done (None, s)
  | p :: l => ∃ s', pool_pop_shared ctx s = Done (Some p, s') ∧ pool_rep s' l ∧
                    detached s'.2 p ∧ pool_frame s s' (p :: l)
  end.
Proof.
  intros Hr. destruct (pool_rep_inv _ _ Hr) as (acc & q & h & -> & Hq).
  pose proof (try_pop_ok _ _ _ Hq) as Ht. destruct l as [|p l].
  - by apply with_data_run.
  - destruct Ht as (q' & h' & E & Hq' & Hdet & Hf). eexists.
    split_and!; [by apply with_data_run|by apply pool_rep_intro|done|done].
Qed.

Lemma pop_private_ok s l ctx :
  pool_rep s l →
  match l with
  | [] => pool_pop_private ctx s = Done (None, s)
  | p :: l => ∃ s', pool_pop_private ctx s = Done (Some p, s') ∧ pool_rep s' l ∧
                    detached s'.2 p ∧ pool_frame s s' (p :: l)
  end.
Proof.
  intros Hr. destruct (pool_rep_inv _ _ Hr) as (acc & q & h & -> & Hq). destruct l as [|p l].
  - apply with_data_run, on_queue_run, pop_head_empty, Hq.
  - destruct (pop_head_ok q h p l Hq) as (q' & h' & E & Hq' & Hdet & Hf). eexists.
    split_and!; [by apply with_data_run, on_queue_run|by apply pool_rep_intro|done|done].
Qed.

Lemma is_empty_ok s l : pool_rep s l → pool_is_empty s = Done (bool_decide (l = []), s).
Proof.
  intros Hr. destruct (pool_rep_inv _ _ Hr) as (acc & q & h & -> & Hq).
  unfold pool_is_empty. erewrite with_data_run by reflexivity. do 2 f_equal. simpl.
  unfold thread_queue_is_empty. rewrite (rep_empty _ _ _ Hq). by case_decide; case_bool_decide.
Qed.

Lemma get_size_ok s l : pool_rep s l → pool_get_size s = Done (Z.of_nat (length l), s).
Proof.
  intros Hr. destruct (pool_rep_inv _ _ Hr) as (acc & q & h & -> & Hq).
  unfold pool_get_size. erewrite with_data_run by reflexivity. do 2 f_equal. apply Hq.
Qed.
End ops.

#[export] Instance fifo_shared_laws : PoolLaws fifo_shared.
Proof.
  split; simpl.
  - intros s l p ctx Hr Hp Hd Hsz. destruct (push_shared_ok s l p ctx) as (s' & E & Hr' & Hf); [done..|].
    exists s', (l ++ [p]). split_and!; [done..|apply Permutation_app_comm|done].
  - intros s l ctx Hr. pose proof (pop_shared_ok s l ctx Hr) as Hp. destruct l as [|p l]; [by eexists _, _|].
    destruct Hp as (s' & E & Hr' & Hdet & Hf). eexists (Some p), s'. split; [done|]. eauto.
  - apply is_empty_ok.
  - apply get_size_ok.
Qed.

#[export] Instance fifo_private_laws : PoolLaws fifo_private.
Proof.
  split; simpl.
  - intros s l p ctx Hr Hp Hd Hsz. destruct (push_private_ok s l p ctx) as (s' & E & Hr' & Hf); [done..|].
    exists s', (l ++ [p]). split_and!; [done..|apply Permutation_app_comm|done].
  - intros s l ctx Hr. pose proof (pop_private_ok s l ctx Hr) as Hp. destruct l as [|p l]; [by eexists _, _|].
    destruct Hp as (s' & E & Hr' & Hdet & Hf). eexists (Some p), s'. split; [done|]. eauto.
  - apply is_empty_ok.
  - apply get_size_ok.
Qed.

(** ** Batches *)

Section batches.
Implicit Types (q : thread_queue_t) (h : gmap ptr ABTI_thread) (p : ptr) (l ps : list ptr).

Lemma push_loop_ok ps b q h l :
  tq_rep q h l → NoDup (l ++ ps) → Forall (.∈ dom h) ps → Z.of_nat (size (dom h)) < 2 ^ 64 →
  ∃ q' h', push_many_loop push_tail_of (builtin <$> ps) (mk_data b q, h)
             = Done ((), (mk_data b q', h')) ∧ tq_rep q' h' (l ++ ps) ∧ dom h' = dom h.
Proof.
  revert q h l. induction ps as [|p ps IH]; intros q h l Hq Hd Hal Hsz; simpl.
  { rewrite app_nil_r. by eexists _, _. }
  apply Forall_cons in Hal as [Hp Hal].
  assert (p ∉ l) as Hpl by (apply NoDup_app in Hd as (_ & Hdis & _); intros Hin; by apply (Hdis p Hin), list_elem_of_here).
  pose proof (rep_room _ _ _ _ Hq Hpl Hp).
  destruct (push_tail_ok q h l p) as (q1 & h1 & E & Hq1 & Hf); [done..|by apply elem_of_dom|lia|].
  pose proof (frame_dom _ _ _ Hf) as Hdom.
  destruct (IH q1 h1 (l ++ [p])) as (q2 & h2 & E2 & Hq2 & Hd2);
    [done|by rewrite <- app_assoc|by rewrite Hdom|by rewrite Hdom|].
  rewrite <- app_assoc in Hq2. exists q2, h2. split_and!; [|done|congruence].
  pstep. erewrite C_bind_Done by (by apply on_queue_run). done.
Qed.

Lemma pop_loop_ok n b q h l :
  tq_rep q h l →
  ∃ q' h', pop_many_loop (on_queue thread_queue_pop_head) n (mk_data b q, h)
             = Done (take n l, (mk_data b q', h')) ∧ tq_rep q' h' (drop n l).
Proof.
  revert q h l. induction n as [|n IH]; intros q h l Hq; simpl.
  { rewrite drop_0. by eexists _, _. }
  destruct l as [|p l].
  - erewrite C_bind_Done by (by apply on_queue_run, pop_head_empty). by eexists _, _.
  - destruct (pop_head_ok q h p l Hq) as (q1 & h1 & E & Hq1 & _ & _).
    destruct (IH q1 h1 l Hq1) as (q2 & h2 & E2 & Hq2).
    erewrite C_bind_Done by (by apply on_queue_run). cbn beta match.
    erewrite C_bind_Done by exact E2. by eexists _, _.
Qed.
End batches.

(** the FIFO pool hands units out in the order they came, through both the
    shared and the private batch operations: after a batch of distinct units is
    pushed onto a pool holding [l], popping up to [n] units returns the first
    [n] of [l] followed by the batch, and leaves the others queued in order. *)
Theorem fifo_batch_order s l ps n ctx1 ctx2 :
  pool_rep s l → NoDup (l ++ ps) → Forall (.∈ dom s.2) ps → Z.of_nat (size (dom s.2)) < 2 ^ 64 →
  (∃ s1 s2, pool_push_many_shared (builtin <$> ps) ctx1 s = Done ((), s1) ∧
     pool_pop_many_shared n ctx2 s1 = Done (take n (l ++ ps), s2) ∧ pool_rep s2 (drop n (l ++ ps))) ∧
  (∃ s1 s2, pool_push_many_private (builtin <$> ps) ctx1 s = Done ((), s1) ∧
     pool_pop_many_private n ctx2 s1 = Done (take n (l ++ ps), s2) ∧ pool_rep s2 (drop n (l ++ ps))).
Proof.
  intros Hr Hd Hal Hsz. destruct (pool_rep_inv _ _ Hr) as (acc & q & h & -> & Hq). simpl in *.
  split.
  - destruct (push_loop_ok ps true q h l) as (q1 & h1 & E1 & Hq1 & _); [done..|].
    destruct (pop_loop_ok n true q1 h1 _ Hq1) as (q2 & h2 & E2 & Hq2).
    assert (pool_push_many_shared (builtin <$> ps) ctx1 (mk_pool acc (Some (mk_data false q)), h) =
      Done ((), (mk_pool acc (Some (mk_data false q1)), h1))) as ->.
    { apply with_data_run. rewrite length_fmap. case_decide as Hn.
      - destruct ps; [|done]. by inversion E1.
      - pstep. erewrite C_bind_Done by exact E1. done. }
    destruct (decide (n = 0%nat)) as [->|Hn].
    { eexists _, _. split_and!; [done|by apply with_data_run|]. rewrite drop_0. by apply pool_rep_intro. }
    destruct (decide (l ++ ps = [])) as [Hnil|Hnil].
    + rewrite Hnil, take_nil, drop_nil. rewrite Hnil in Hq1. eexists _, _. split_and!; [done| |].
      * apply with_data_run. rewrite decide_False by done.
        erewrite C_bind_Done by (by apply (acquire_if_run _ _ _ Hq1)). reflexivity.
      * by apply pool_rep_intro.
    + eexists _, _. split_and!; [done| |by apply pool_rep_intro].
      apply with_data_run. rewrite decide_False by done.
      erewrite C_bind_Done by (rewrite (acquire_if_run _ _ _ Hq1), decide_False by done; done).
      simpl. erewrite C_bind_Done by exact E2. pstep. reflexivity.
  - destruct (push_loop_ok ps false q h l) as (q1 & h1 & E1 & Hq1 & _); [done..|].
    destruct (pop_loop_ok n false q1 h1 _ Hq1) as (q2 & h2 & E2 & Hq2).
    eexists _, _. split_and!; [by apply with_data_run|by apply with_data_run|by apply pool_rep_intro].
Qed.

(** ** Waiting pops *)

Section wait.
Context (clock : nat → Z) (env : nat → C dst unit) (q : thread_queue_t) (h : gmap ptr ABTI_thread).
Hypothesis empty : tq_rep q h [].

(** While nobody pushes and the deadline has not passed, the loop of a
    started wait goes from its [i]-th to its [j]-th pass unchanged. *)
Lemma wait_idle t0 secs i j fuel :
  t0 ≠ 0 → (i ≤ j)%nat →
  (∀ k, (i ≤ k < j)%nat → env k (mk_data false q, h) = Done ((), (mk_data false q, h))) →
  (∀ k, (i ≤ k < j)%nat → clock k - t0 ≤ secs) →
  pop_wait_loop clock env (j - i + fuel) i t0 secs (mk_data false q, h) =
  pop_wait_loop clock env fuel j t0 secs (mk_data false q, h).
Proof using empty.
  intros Ht Hij. remember (j - i)%nat as n eqn:Hn. revert i Hn Hij.
  induction n as [|n IH]; intros i Hn Hij Henv Hclk.
  { assert (i = j) by lia. by subst. }
  simpl. erewrite C_bind_Done by (apply (try_pop_ok _ _ _ empty)). cbn beta match.
  rewrite (proj2 (Z.eqb_neq _ _)) by done.
  rewrite (proj2 (Z.ltb_ge _ _)) by (apply Hclk; lia).
  erewrite C_bind_Done by (apply Henv; lia). apply IH; [lia|lia| |].
  - intros k Hk. apply Henv. lia.
  - intros k Hk. apply Hclk. lia.
Qed.

Lemma wait_first secs fuel :
  env 0%nat (mk_data false q, h) = Done ((), (mk_data false q, h)) →
  pop_wait_loop clock env (S fuel) 0 0 secs (mk_data false q, h) =
  pop_wait_loop clock env fuel 1 (clock 0%nat) secs (mk_data false q, h).
Proof using empty.
  intros Henv. simpl. erewrite C_bind_Done by (apply (try_pop_ok _ _ _ empty)). cbn beta match.
  simpl. by erewrite C_bind_Done by exact Henv.
Qed.
End wait.

(** on an empty pool that nobody pushes to, [pool_pop_wait] gives up: it
    returns NULL at the first clock reading past [time_secs] after the first
    one, with the pool untouched; [k + 1] passes are enough. *)
Theorem pop_wait_times_out clock env s time_secs k fuel ctx :
  pool_rep s [] → (1 ≤ k)%nat → (k < fuel)%nat → clock 0%nat ≠ 0 →
  (∀ i d, env i d = Done ((), d)) →
  (∀ i, (1 ≤ i < k)%nat → clock i - clock 0%nat ≤ time_secs) →
  time_secs < clock k - clock 0%nat →
  pool_pop_wait clock env fuel time_secs ctx s = Done (None, s).
Proof.
  intros Hr Hk Hfuel H0 Henv Hbefore Hafter.
  destruct (pool_rep_inv _ _ Hr) as (acc & q & h & -> & Hq). apply with_data_run.
  replace fuel with (S (k - 1 + S (fuel - k - 1))) by lia.
  rewrite (wait_first clock env q h Hq) by apply Henv.
  rewrite (wait_idle clock env q h Hq _ _ 1 k) by (try done; intros; auto; apply Hbefore; lia).
  simpl. erewrite C_bind_Done by (apply (try_pop_ok _ _ _ Hq)). cbn beta match.
  rewrite (proj2 (Z.eqb_neq _ _)) by done. by rewrite (proj2 (Z.ltb_lt _ _)).
Qed.

(** a waiting pop is woken by a push: if during its [j]-th sleep another
    thread leaves the pool with [p] at the front, and the deadline had not
    passed before, [pool_pop_wait] returns [p] and the rest stays queued. *)
Theorem pop_wait_wakes clock env s time_secs j fuel ctx q1 h1 p l :
  pool_rep s [] → (j + 1 < fuel)%nat → clock 0%nat ≠ 0 →
  (∀ i d, (i < j)%nat → env i d = Done ((), d)) →
  (∀ d, data s.1 = Some d → env j (d, s.2) = Done ((), (mk_data false q1, h1))) →
  tq_rep q1 h1 (p :: l) →
  (∀ i, (1 ≤ i ≤ j)%nat → clock i - clock 0%nat ≤ time_secs) →
  ∃ s', pool_pop_wait clock env fuel time_secs ctx s = Done (Some p, s') ∧ pool_rep s' l.
Proof.
  intros Hr Hfuel H0 Hidle Hpush Hq1 Hclk.
  destruct (pool_rep_inv _ _ Hr) as (acc & q & h & -> & Hq). simpl in Hpush.
  specialize (Hpush _ eq_refl).
  destruct (try_pop_ok _ _ _ Hq1) as (q2 & h2 & E & Hq2 & _).
  exists (mk_pool acc (Some (mk_data false q2)), h2). split; [|by apply pool_rep_intro].
  apply with_data_run. destruct j as [|j].
  - destruct fuel as [|[|fuel]]; [lia..|]. simpl.
    erewrite C_bind_Done by (apply (try_pop_ok _ _ _ Hq)). cbn beta match. simpl.
    erewrite C_bind_Done by exact Hpush. simpl. erewrite C_bind_Done by exact E. done.
  - replace fuel with (S (S j - 1 + S (S (fuel - j - 3)))) by lia.
    rewrite (wait_first clock env q h Hq) by (apply Hidle; lia).
    rewrite (wait_idle clock env q h Hq _ _ 1 (S j)) by first [lia|done|intros; apply Hidle; lia|intros; apply Hclk; lia].
    simpl. erewrite C_bind_Done by (apply (try_pop_ok _ _ _ Hq)). cbn beta match.
    rewrite (proj2 (Z.eqb_neq _ _)) by done.
    rewrite (proj2 (Z.ltb_ge _ _)) by (apply Hclk; lia).
    erewrite C_bind_Done by exact Hpush. simpl. erewrite C_bind_Done by exact E. done.
Qed.

(** ** Instances on a pool over three idle units *)

Definition idle_pool : pst :=
  (mk_pool ABT_POOL_ACCESS_MPMC (Some (mk_data false (mk_queue 0 None None 1))), three_idle).

Lemma idle_pool_rep : pool_rep idle_pool [].
Proof. apply pool_rep_intro. split; try done. constructor. Qed.

Lemma fifo_batch_order_witness :
  ∃ s1 s2, pool_push_many_shared (builtin <$> [3; 1; 2]%positive) 0 idle_pool = Done ((), s1) ∧
    pool_pop_many_shared 2 0 s1 = Done ([3; 1]%positive, s2) ∧ pool_rep s2 [2%positive].
Proof.
  apply (fifo_batch_order idle_pool [] [3; 1; 2]%positive 2 0 0 idle_pool_rep).
  - by apply (bool_decide_unpack _).
  - repeat constructor; by vm_compute.
  - by vm_compute.
Defined.

Definition tick (i : nat) : Z := 100 + 10 * Z.of_nat i.

Lemma pop_wait_times_out_witness :
  pool_pop_wait tick (λ _, mret ()) 10 25 0 idle_pool = Done (None, idle_pool).
Proof.
  apply (pop_wait_times_out tick (λ _, mret ()) idle_pool 25 3 10 0 idle_pool_rep);
    unfold tick; try lia. done.
Defined.

Lemma pop_wait_wakes_witness :
  ∃ s', pool_pop_wait tick (λ i, if decide (i = 1%nat) then push_tail_of 2%positive else mret ())
          10 25 0 idle_pool = Done (Some 2%positive, s') ∧ pool_rep s' [].
Proof.
  destruct (push_tail_ok (mk_queue 0 None None 1) three_idle [] 2) as (q1 & h1 & E & Hq & _).
  - split; try done. constructor.
  - set_solver.
  - by eexists.
  - done.
  - apply (pop_wait_wakes tick _ idle_pool 25 1 10 0 q1 h1 2%positive [] idle_pool_rep);
      unfold tick; try lia; [| |done].
    + intros i d Hi. rewrite decide_False by lia. done.
    + intros d [= <-]. rewrite decide_True by lia. by apply on_queue_run.
Defined.
