(* ===== verification/PoolRandws.v ===== *)
(** * The work-stealing pool

    argobots/src/pool/randws.c: a deque per execution stream.  Newly created or
    revived units are pushed at the head, all others at the tail; the owner
    pops at the head, a thief (a consumer with the SECONDARY context bit) at
    the tail. *)

From stdpp Require Import base tactics option list numbers gmap fin_maps.
From S2P Require Import Prelude.
From S2P Require Import Abt.
From S2P Require Import Thread.
From S2P Require Import ThreadQueue.
From S2P Require Import Pool.

Definition POOL_CONTEXT_PUSH_HEAD : Z :=
  Z.lor (Z.lor (Z.lor ABT_POOL_CONTEXT_OP_THREAD_CREATE ABT_POOL_CONTEXT_OP_THREAD_CREATE_TO)
               ABT_POOL_CONTEXT_OP_THREAD_REVIVE) ABT_POOL_CONTEXT_OP_THREAD_REVIVE_TO.
Definition POOL_CONTEXT_POP_TAIL : Z := ABT_POOL_CONTEXT_OWNER_SECONDARY.

Definition push_by (context : Z) (p_thread : ptr) : C dst unit :=
  if negb (Z.eqb (Z.land context POOL_CONTEXT_PUSH_HEAD) 0)
  then on_queue (thread_queue_push_head p_thread)
  else on_queue (thread_queue_push_tail p_thread).

Definition pop_by (context : Z) : C dst (option ptr) :=
  if negb (Z.eqb (Z.land context POOL_CONTEXT_POP_TAIL) 0)
  then on_queue thread_queue_pop_tail
  else on_queue thread_queue_pop_head.

(** [malloc_ok] tells whether [ABTU_malloc] succeeds, [p_data] is what the
    fresh block holds. *)
Definition pool_init (p_data : data_t) (malloc_ok : bool) : C pst Z :=
  if negb malloc_ok then mret ABT_ERR_MEM else
  p ← gets fst;
  let p_data := if Z.eqb (access p) ABT_POOL_ACCESS_PRIV then p_data
                else mk_data false (dqueue p_data) in
  h ← gets snd;
  match thread_queue_init (dqueue p_data, h) with
  | Fault f => throw f
  | Done (_, (q, h)) =>
      put (mk_pool (access p) (Some (mk_data (mutex p_data) q)), h);;
      mret ABT_SUCCESS
  end.

Definition pool_free : C pst unit :=
  with_data (mret ());; modify (λ s, (mk_pool (access s.1) None, s.2)).

Definition pool_is_empty : C pst bool :=
  with_data (gets (λ s, thread_queue_is_empty (dqueue s.1))).

Definition pool_get_size : C pst Z :=
  with_data (gets (λ s, thread_queue_get_size (dqueue s.1))).

Definition pool_push_shared (u context : Z) : C pst unit :=
  with_data (
    p_thread ← ABTI_unit_get_thread_from_builtin_unit u;
    on_mutex ABTD_spinlock_acquire;;
    push_by context p_thread;;
    on_mutex ABTD_spinlock_release).

Definition pool_push_private (u context : Z) : C pst unit :=
  with_data (
    p_thread ← ABTI_unit_get_thread_from_builtin_unit u;
    push_by context p_thread).

Definition pool_push_many_shared (units : list Z) (context : Z) : C pst unit :=
  with_data (
    if decide (length units = 0%nat) then mret () else
    on_mutex ABTD_spinlock_acquire;;
    push_many_loop (push_by context) units;;
    on_mutex ABTD_spinlock_release).

Definition pool_push_many_private (units : list Z) (context : Z) : C pst unit :=
  with_data (push_many_loop (push_by context) units).

Definition pool_pop_shared (context : Z) : C pst (option ptr) :=
  with_data (
    r ← thread_queue_acquire_spinlock_if_not_empty;
    if Z.eqb r 0 then
      p_thread ← pop_by context;
      on_mutex ABTD_spinlock_release;;
      mret p_thread
    else mret None).

Definition pool_pop_private (context : Z) : C pst (option ptr) :=
  with_data (pop_by context).

Definition pool_pop_many_shared (max_threads : nat) (context : Z) : C pst (list ptr) :=
  with_data (
    if decide (max_threads = 0%nat) then mret [] else
    r ← thread_queue_acquire_spinlock_if_not_empty;
    if Z.eqb r 0 then
      threads ← pop_many_loop (pop_by context) max_threads;
      on_mutex ABTD_spinlock_release;;
      mret threads
    else mret []).

Definition pool_pop_many_private (max_threads : nat) (context : Z) : C pst (list ptr) :=
  with_data (pop_many_loop (pop_by context) max_threads).

Definition pool_remove_shared (u : Z) : C pst Z :=
  with_data (
    p_thread ← ABTI_unit_get_thread_from_builtin_unit u;
    on_mutex ABTD_spinlock_acquire;;
    abt_errno ← on_queue (thread_queue_remove p_thread);
    on_mutex ABTD_spinlock_release;;
    mret abt_errno).

Definition pool_remove_private (u : Z) : C pst Z :=
  with_data (
    p_thread ← ABTI_unit_get_thread_from_builtin_unit u;
    on_queue (thread_queue_remove p_thread)).

Definition pool_print_all : C pst (list ptr) :=
  acc ← gets (λ s : pst, access s.1);
  with_data (
    (if Z.eqb acc ABT_POOL_ACCESS_PRIV then mret () else on_mutex ABTD_spinlock_acquire);;
    units ← on_queue thread_queue_print_all;
    (if Z.eqb acc ABT_POOL_ACCESS_PRIV then mret () else on_mutex ABTD_spinlock_release);;
    mret units).

Definition pool_unit_is_in_pool (u : Z) : C pst bool :=
  p_thread ← ABTI_unit_get_thread_from_builtin_unit u;
  flag ← zoom snd (λ h s, (s.1, h)) (load is_in_pool (Some p_thread));
  mret (negb (Z.eqb flag 0)).

Definition pool_create_unit : C pst unit := c_assert false.
Definition pool_free_unit : C pst unit := c_assert false.

(** ** Waiting pops

    [clock i] is the [i]-th reading of [ABTI_get_wtime()] (as an exact number),
    [env i] is what other threads do to the pool during the [i]-th sleep.  Each
    pass of the loop takes one unit of fuel. *)
Section waiting.
Variable clock : nat → Z.
Variable env : nat → C dst unit.

Definition try_pop (pop : C dst (option ptr)) : C dst (option ptr) :=
  r ← thread_queue_acquire_spinlock_if_not_empty;
  if Z.eqb r 0 then
    p_thread ← pop;
    on_mutex ABTD_spinlock_release;;
    mret p_thread
  else mret None.

Fixpoint pop_wait_loop (context : Z) (fuel i : nat) (time_start time_secs : Z) : C dst (option ptr) :=
  match fuel with
  | O => throw OutOfFuel
  | S fuel =>
      p_thread ← try_pop (pop_by context);
      match p_thread with
      | Some p => mret (Some p)
      | None =>
          if Z.eqb time_start 0 then
            env i;; pop_wait_loop context fuel (S i) (clock i) time_secs
          else
            let elapsed := clock i - time_start in
            if Z.ltb time_secs elapsed then mret None
            else env i;; pop_wait_loop context fuel (S i) time_start time_secs
      end
  end.

Definition pool_pop_wait (fuel : nat) (time_secs context : Z) : C pst (option ptr) :=
  with_data (pop_wait_loop context fuel 0 0 time_secs).

Fixpoint pop_timedwait_loop (fuel i : nat) (abstime_secs : Z) : C dst (option Z) :=
  match fuel with
  | O => throw OutOfFuel
  | S fuel =>
      p_thread ← try_pop (on_queue thread_queue_pop_head);
      match p_thread with
      | Some p => u ← ABTI_unit_get_builtin_unit p; mret (Some u)
      | None =>
          env i;;
          if Z.ltb abstime_secs (clock i) then mret None
          else pop_timedwait_loop fuel (S i) abstime_secs
      end
  end.

Definition pool_pop_timedwait (fuel : nat) (abstime_secs : Z) : C pst (option Z) :=
  with_data (pop_timedwait_loop fuel 0 abstime_secs).
End waiting.

(** [ABTI_pool_get_randws_def]: the operations for an access mode. *)
Definition randws_private : PoolOps := {|
  p_push := pool_push_private; p_pop := pool_pop_private;
  p_push_many := pool_push_many_private; p_pop_many := pool_pop_many_private;
  p_remove := pool_remove_private;
  p_init := pool_init; p_free := pool_free; p_is_empty := pool_is_empty;
  p_get_size := pool_get_size; p_pop_wait := pool_pop_wait; p_print_all := pool_print_all;
  p_create_unit := pool_create_unit; p_free_unit := pool_free_unit;
  p_pop_timedwait := pool_pop_timedwait; u_is_in_pool := pool_unit_is_in_pool |}.

Definition randws_shared : PoolOps := {|
  p_push := pool_push_shared; p_pop := pool_pop_shared;
  p_push_many := pool_push_many_shared; p_pop_many := pool_pop_many_shared;
  p_remove := pool_remove_shared;
  p_init := pool_init; p_free := pool_free; p_is_empty := pool_is_empty;
  p_get_size := pool_get_size; p_pop_wait := pool_pop_wait; p_print_all := pool_print_all;
  p_create_unit := pool_create_unit; p_free_unit := pool_free_unit;
  p_pop_timedwait := pool_pop_timedwait; u_is_in_pool := pool_unit_is_in_pool |}.

Definition ABTI_pool_get_randws_def (acc : Z) : Z + PoolOps :=
  if Z.eqb acc ABT_POOL_ACCESS_PRIV then inr randws_private
  else if (Z.eqb acc ABT_POOL_ACCESS_SPSC || Z.eqb acc ABT_POOL_ACCESS_MPSC ||
           Z.eqb acc ABT_POOL_ACCESS_SPMC || Z.eqb acc ABT_POOL_ACCESS_MPMC)%bool
  then inr randws_shared
  else inl ABT_ERR_INV_POOL_ACCESS.


(** ** Correctness *)

(** Where a push with [context] puts a unit, and what a pop takes. *)
Definition push_head_ctx (context : Z) : bool := negb (Z.eqb (Z.land context POOL_CONTEXT_PUSH_HEAD) 0).
Definition pop_tail_ctx (context : Z) : bool := negb (Z.eqb (Z.land context POOL_CONTEXT_POP_TAIL) 0).

Definition list_push (context : Z) (p : ptr) (l : list ptr) : list ptr :=
  if push_head_ctx context then p :: l else l ++ [p].

(** The order in which successive pops with [context] empty a pool holding [l]. *)
Definition pop_order (context : Z) (l : list ptr) : list ptr :=
  if pop_tail_ctx context then rev l else l.

Section ops.
Implicit Types (q : thread_queue_t) (h : gmap ptr ABTI_thread) (p : ptr) (l ps : list ptr).

Lemma randws_push_by_ok b q h l p ctx :
  tq_rep q h l → p ∉ l → p ∈ dom h → Z.of_nat (size (dom h)) < 2 ^ 64 →
  ∃ q' h', push_by ctx p (mk_data b q, h) = Done ((), (mk_data b q', h')) ∧
           tq_rep q' h' (list_push ctx p l) ∧ frame h h' (p :: l).
Proof.
  intros Hq Hp Hd Hsz. pose proof (rep_room _ _ _ _ Hq Hp Hd). unfold push_by, list_push.
  fold (push_head_ctx ctx). destruct (push_head_ctx ctx).
  - destruct (push_head_ok q h l p) as (q' & h' & E & Hq' & Hf); [done..|by apply elem_of_dom|lia|].
    exists q', h'. split_and!; [by apply on_queue_run|done|done].
  - destruct (push_tail_ok q h l p) as (q' & h' & E & Hq' & Hf); [done..|by apply elem_of_dom|lia|].
    exists q', h'. split_and!; [by apply on_queue_run|done|done].
Qed.

Lemma randws_pop_by_ok b q h l ctx :
  tq_rep q h l →
  match pop_order ctx l with
  | [] => pop_by ctx (mk_data b q, h) = Done (None, (mk_data b q, h)) ∧ l = []
  | p :: rest => ∃ q' h' l', pop_by ctx (mk_data b q, h) = Done (Some p, (mk_data b q', h')) ∧
      tq_rep q' h' l' ∧ pop_order ctx l' = rest ∧ l ≡ₚ p :: l' ∧ detached h' p ∧ frame h h' l
  end.
Proof.
  intros Hq. unfold pop_order, pop_by. fold (pop_tail_ctx ctx). destruct (pop_tail_ctx ctx).
  - destruct l as [|p l _] using rev_ind; simpl.
    { split; [|done]. by apply on_queue_run, pop_tail_empty. }
    rewrite rev_unit. destruct (pop_tail_ok q h p l Hq) as (q' & h' & E & Hq' & Hdet & Hf).
    exists q', h', l. split_and!; [by apply on_queue_run|done|done|apply Permutation_app_comm|done|done].
  - destruct l as [|p l].
    { split; [|done]. by apply on_queue_run, pop_head_empty. }
    destruct (pop_head_ok q h p l Hq) as (q' & h' & E & Hq' & Hdet & Hf).
    exists q', h', l. split_and!; [by apply on_queue_run|done|done|done|done|done].
Qed.

Lemma list_push_perm ctx p l : list_push ctx p l ≡ₚ p :: l.
Proof. unfold list_push. case_match; [done|]. apply Permutation_app_comm. Qed.

Lemma randws_push_shared_ok s l p ctx :
  pool_rep s l → p ∉ l → p ∈ dom s.2 → Z.of_nat (size (dom s.2)) < 2 ^ 64 →
  ∃ s', pool_push_shared (builtin p) ctx s = Done ((), s') ∧ pool_rep s' (list_push ctx p l) ∧
        pool_frame s s' (p :: l).
Proof.
  intros Hr Hp Hd Hsz. destruct (pool_rep_inv _ _ Hr) as (acc & q & h & -> & Hq). simpl in *.
  destruct (randws_push_by_ok true q h l p ctx) as (q' & h' & E & Hq' & Hf); [done..|].
  eexists. split_and!; [|by apply pool_rep_intro|done].
  apply with_data_run. do 2 pstep. erewrite C_bind_Done by exact E. pstep. reflexivity.
Qed.

Lemma randws_push_private_ok s l p ctx :
  pool_rep s l → p ∉ l → p ∈ dom s.2 → Z.of_nat (size (dom s.2)) < 2 ^ 64 →
  ∃ s', pool_push_private (builtin p) ctx s = Done ((), s') ∧ pool_rep s' (list_push ctx p l) ∧
        pool_frame s s' (p :: l).
Proof.
  intros Hr Hp Hd Hsz. destruct (pool_rep_inv _ _ Hr) as (acc & q & h & -> & Hq). simpl in *.
  destruct (randws_push_by_ok false q h l p ctx) as (q' & h' & E & Hq' & Hf); [done..|].
  eexists. split_and!; [|by apply pool_rep_intro|done]. apply with_data_run. pstep. exact E.
Qed.

Lemma pop_order_nil ctx l : pop_order ctx l = [] → l = [].
Proof. unfold pop_order. case_match; [|done]. destruct l using rev_ind; [done|by rewrite rev_unit]. Qed.

Lemma randws_pop_shared_ok s l ctx :
  pool_rep s l →
  match pop_order ctx l with
  | [] => pool_pop_shared ctx s = Done (None, s) ∧ l = []
  | p :: rest => ∃ s' l', pool_pop_shared ctx s = Done (Some p, s') ∧ pool_rep s' l' ∧
      pop_order ctx l' = rest ∧ l ≡ₚ p :: l' ∧ detached s'.2 p ∧ pool_frame s s' l
  end.
Proof.
  intros Hr. destruct (pool_rep_inv _ _ Hr) as (acc & q & h & -> & Hq).
  pose proof (randws_pop_by_ok true q h l ctx Hq) as Hp. destruct (pop_order ctx l) as [|p rest] eqn:Ho.
  - apply pop_order_nil in Ho as ->. split; [|done]. apply with_data_run.
    erewrite C_bind_Done by (by apply (acquire_if_run _ _ _ Hq)). done.
  - destruct Hp as (q' & h' & l' & E & Hq' & Hrest & Hperm & Hdet & Hf).
    eexists _, l'. split_and!; [|by apply pool_rep_intro|done|done|done|done].
    apply with_data_run. assert (l ≠ []) by (intros ->; by apply Permutation_nil_cons in Hperm).
    erewrite C_bind_Done by (rewrite (acquire_if_run _ _ _ Hq), decide_False by done; done).
    simpl. erewrite C_bind_Done by exact E. pstep. reflexivity.
Qed.

Lemma randws_pop_private_ok s l ctx :
  pool_rep s l →
  match pop_order ctx l with
  | [] => pool_pop_private ctx s = Done (None, s) ∧ l = []
  | p :: rest => ∃ s' l', pool_pop_private ctx s = Done (Some p, s') ∧ pool_rep s' l' ∧
      pop_order ctx l' = rest ∧ l ≡ₚ p :: l' ∧ detached s'.2 p ∧ pool_frame s s' l
  end.
Proof.
  intros Hr. destruct (pool_rep_inv _ _ Hr) as (acc & q & h & -> & Hq).
  pose proof (randws_pop_by_ok false q h l ctx Hq) as Hp. destruct (pop_order ctx l) as [|p rest].
  - destruct Hp as [E ->]. split; [|done]. by apply with_data_run.
  - destruct Hp as (q' & h' & l' & E & Hq' & Hrest & Hperm & Hdet & Hf).
    eexists _, l'. split_and!; [by apply with_data_run|by apply pool_rep_intro|done..].
Qed.

Lemma randws_is_empty_ok s l : pool_rep s l → pool_is_empty s = Done (bool_decide (l = []), s).
Proof.
  intros Hr. destruct (pool_rep_inv _ _ Hr) as (acc & q & h & -> & Hq).
  unfold pool_is_empty. erewrite with_data_run by reflexivity. do 2 f_equal. simpl.
  unfold thread_queue_is_empty. rewrite (rep_empty _ _ _ Hq). by case_decide; case_bool_decide.
Qed.

Lemma randws_get_size_ok s l : pool_rep s l → pool_get_size s = Done (Z.of_nat (length l), s).
Proof.
  intros Hr. destruct (pool_rep_inv _ _ Hr) as (acc & q & h & -> & Hq).
  unfold pool_get_size. erewrite with_data_run by reflexivity. do 2 f_equal. apply Hq.
Qed.
End ops.

#[export] Instance randws_shared_laws : PoolLaws randws_shared.
Proof.
  split; simpl.
  - intros s l p ctx Hr Hp Hd Hsz.
    destruct (randws_push_shared_ok s l p ctx) as (s' & E & Hr' & Hf); [done..|].
    exists s', (list_push ctx p l). split_and!; [done..|apply list_push_perm|done].
  - intros s l ctx Hr. pose proof (randws_pop_shared_ok s l ctx Hr) as Hp.
    destruct (pop_order ctx l) as [|p rest]; [destruct Hp; by eexists _, _|].
    destruct Hp as (s' & l' & E & Hr' & _ & Hperm & Hdet & Hf). eexists (Some p), s'. split; [done|]. eauto.
  - apply randws_is_empty_ok.
  - apply randws_get_size_ok.
Qed.

#[export] Instance randws_private_laws : PoolLaws randws_private.
Proof.
  split; simpl.
  - intros s l p ctx Hr Hp Hd Hsz.
    destruct (randws_push_private_ok s l p ctx) as (s' & E & Hr' & Hf); [done..|].
    exists s', (list_push ctx p l). split_and!; [done..|apply list_push_perm|done].
  - intros s l ctx Hr. pose proof (randws_pop_private_ok s l ctx Hr) as Hp.
    destruct (pop_order ctx l) as [|p rest]; [destruct Hp; by eexists _, _|].
    destruct Hp as (s' & l' & E & Hr' & _ & Hperm & Hdet & Hf). eexists (Some p), s'. split; [done|]. eauto.
  - apply randws_is_empty_ok.
  - apply randws_get_size_ok.
Qed.

(** ** Batches *)

Section batches.
Implicit Types (q : thread_queue_t) (h : gmap ptr ABTI_thread) (p : ptr) (l ps : list ptr).

Definition list_push_many (context : Z) (ps l : list ptr) : list ptr :=
  foldl (λ l p, list_push context p l) l ps.

Lemma randws_push_loop_ok ctx ps b q h l :
  tq_rep q h l → NoDup (ps ++ l) → Forall (.∈ dom h) ps → Z.of_nat (size (dom h)) < 2 ^ 64 →
  ∃ q' h', push_many_loop (push_by ctx) (builtin <$> ps) (mk_data b q, h)
             = Done ((), (mk_data b q', h')) ∧ tq_rep q' h' (list_push_many ctx ps l) ∧ dom h' = dom h.
Proof.
  revert q h l. induction ps as [|p ps IH]; intros q h l Hq Hd Hal Hsz; simpl.
  { by eexists _, _. }
  apply Forall_cons in Hal as [Hp Hal]. inversion Hd as [|?? Hpl Hd']; subst.
  destruct (randws_push_by_ok b q h l p ctx) as (q1 & h1 & E & Hq1 & Hf); [done|set_solver|done..|].
  pose proof (frame_dom _ _ _ Hf) as Hdom.
  destruct (IH q1 h1 (list_push ctx p l)) as (q2 & h2 & E2 & Hq2 & Hd2); [done| |by rewrite Hdom..|].
  { rewrite list_push_perm, Permutation_app_comm. simpl. rewrite Permutation_app_comm. by constructor. }
  exists q2, h2. split_and!; [|done|congruence]. pstep. by erewrite C_bind_Done by exact E.
Qed.

Lemma randws_pop_loop_ok ctx n b q h l :
  tq_rep q h l →
  ∃ q' h' l', pop_many_loop (pop_by ctx) n (mk_data b q, h)
             = Done (take n (pop_order ctx l), (mk_data b q', h')) ∧
           tq_rep q' h' l' ∧ pop_order ctx l' = drop n (pop_order ctx l).
Proof.
  revert q h l. induction n as [|n IH]; intros q h l Hq; simpl.
  { rewrite drop_0. by eexists _, _, _. }
  pose proof (randws_pop_by_ok b q h l ctx Hq) as Hp. destruct (pop_order ctx l) as [|p rest] eqn:Ho.
  - destruct Hp as [E ->]. erewrite C_bind_Done by exact E. eexists _, _, []. split_and!; [done|done|].
    unfold pop_order. by case_match.
  - destruct Hp as (q1 & h1 & l1 & E & Hq1 & <- & _). erewrite C_bind_Done by exact E. cbn beta match.
    destruct (IH q1 h1 l1 Hq1) as (q2 & h2 & l2 & E2 & Hq2 & Hl2).
    erewrite C_bind_Done by exact E2. by eexists _, _, _.
Qed.

Lemma list_push_many_create ctx ps l :
  push_head_ctx ctx = true → list_push_many ctx ps l = rev ps ++ l.
Proof.
  intros Hc. unfold list_push_many. revert l. induction ps as [|p ps IH]; intros l; [done|].
  simpl. rewrite IH. unfold list_push. rewrite Hc, <- app_assoc. done.
Qed.
End batches.

(** work stealing.  Units created in the order [ps] on an empty pool are
    run by the owner newest first, and stolen by a thief oldest first: with up
    to [n] units taken, each side gets its prefix of that order. *)
Theorem randws_owner_lifo_thief_fifo s ps n :
  pool_rep s [] → NoDup ps → Forall (.∈ dom s.2) ps → Z.of_nat (size (dom s.2)) < 2 ^ 64 → (0 < n)%nat →
  ∃ s1, pool_push_many_shared (builtin <$> ps) ABT_POOL_CONTEXT_OP_THREAD_CREATE s = Done ((), s1) ∧
    (∃ s2, pool_pop_many_shared n ABT_POOL_CONTEXT_OWNER_PRIMARY s1 = Done (take n (rev ps), s2)) ∧
    (∃ s2, pool_pop_many_shared n ABT_POOL_CONTEXT_OWNER_SECONDARY s1 = Done (take n ps, s2)).
Proof.
  intros Hr Hd Hal Hsz Hn. destruct (pool_rep_inv _ _ Hr) as (acc & q & h & -> & Hq). simpl in *.
  destruct (randws_push_loop_ok ABT_POOL_CONTEXT_OP_THREAD_CREATE ps true q h [])
    as (q1 & h1 & E1 & Hq1 & _); [done|by rewrite app_nil_r|done..|].
  rewrite list_push_many_create, app_nil_r in Hq1 by done.
  exists (mk_pool acc (Some (mk_data false q1)), h1). split.
  { apply with_data_run. rewrite length_fmap. case_decide.
    - destruct ps; [|done]. by inversion E1.
    - pstep. by erewrite C_bind_Done by exact E1. }
  assert (∀ ctx, ∃ s2, pool_pop_many_shared n ctx (mk_pool acc (Some (mk_data false q1)), h1) =
            Done (take n (pop_order ctx (rev ps)), s2)) as Hpop.
  { intros ctx. destruct (randws_pop_loop_ok ctx n true q1 h1 _ Hq1) as (q2 & h2 & l2 & E2 & _).
    destruct (decide (rev ps = [])) as [Hnil|Hnil].
    - rewrite Hnil in *. eexists. apply with_data_run. rewrite decide_False by lia.
      erewrite C_bind_Done by (by apply (acquire_if_run _ _ _ Hq1)).
      unfold pop_order. destruct (pop_tail_ctx ctx); simpl; rewrite take_nil; reflexivity.
    - eexists. apply with_data_run. rewrite decide_False by lia.
      erewrite C_bind_Done by (rewrite (acquire_if_run _ _ _ Hq1), decide_False by done; done).
      simpl. erewrite C_bind_Done by exact E2. pstep. reflexivity. }
  split; [apply Hpop|]. destruct (Hpop ABT_POOL_CONTEXT_OWNER_SECONDARY) as [s2 E].
  exists s2. rewrite <- (rev_involutive ps). exact E.
Qed.

Lemma randws_owner_lifo_thief_fifo_witness :
  ∃ s1, pool_push_many_shared (builtin <$> [1; 2; 3]%positive) ABT_POOL_CONTEXT_OP_THREAD_CREATE
          (mk_pool ABT_POOL_ACCESS_MPMC (Some (mk_data false (mk_queue 0 None None 1))), three_idle)
        = Done ((), s1) ∧
    (∃ s2, pool_pop_many_shared 2 ABT_POOL_CONTEXT_OWNER_PRIMARY s1 = Done ([3; 2]%positive, s2)) ∧
    (∃ s2, pool_pop_many_shared 2 ABT_POOL_CONTEXT_OWNER_SECONDARY s1 = Done ([1; 2]%positive, s2)).
Proof.
  apply (randws_owner_lifo_thief_fifo _ [1; 2; 3]%positive 2).
  - apply pool_rep_intro. split; try done. constructor.
  - by apply (bool_decide_unpack _).
  - repeat constructor; by vm_compute.
  - by vm_compute.
  - lia.
Defined.
