(* ===== verification/PoolFifoWait.v ===== *)
(** * The waiting FIFO pool

    argobots/src/pool/fifo_wait.c: the queue of the FIFO pool under a pthread
    mutex, with a condition variable that idle schedulers sleep on.  The pthread
    mutex is the lock flag of the pool data; the condition variable is the
    number of sleepers and the number of sleepers woken. *)

From stdpp Require Import base tactics option list numbers gmap fin_maps.
From S2P Require Import Prelude.
From S2P Require Import Abt.
From S2P Require Import Thread.
From S2P Require Import ThreadQueue.
From S2P Require Import Pool.
From S2P Require Import PoolFifo.

Record pthread_cond_t := Cond { sleepers : Z; woken : Z }.

Abbreviation wdst := (dst * pthread_cond_t)%type (only parsing).
Abbreviation wpst := (pst * pthread_cond_t)%type (only parsing).

Definition on_data {A} (m : C dst A) : C wdst A := zoom fst (λ d s, (d, s.2)) m.

Definition with_wdata {A} (m : C wdst A) : C wpst A := λ s,
  match data s.1.1 with
  | None => Fault UB
  | Some d =>
      match m ((d, s.1.2), s.2) with
      | Done (a, ((d', h'), c')) => Done (a, ((mk_pool (access s.1.1) (Some d'), h'), c'))
      | Fault f => Fault f
      end
  end.

Definition real_pthread_mutex_lock : C wdst unit :=
  on_data (on_mutex (b ← get; if (b : bool) then throw Blocked else put true)).
Definition real_pthread_mutex_unlock : C wdst unit := on_data (on_mutex (put false)).
Definition real_pthread_cond_signal : C wdst unit :=
  modify (λ s, (s.1, if Z.ltb 0 (sleepers s.2) then Cond (sleepers s.2 - 1) (woken s.2 + 1) else s.2)).
Definition real_pthread_cond_broadcast : C wdst unit :=
  modify (λ s, (s.1, Cond 0 (woken s.2 + sleepers s.2))).

(** [malloc_ok], [mutex_init] and [cond_init] are the results of the calls. *)
Definition pool_init (p_data : data_t) (malloc_ok : bool) (mutex_init cond_init : Z) : C wpst Z :=
  if negb malloc_ok then mret ABT_ERR_MEM else
  if negb (Z.eqb mutex_init 0) then mret ABT_ERR_SYS else
  if negb (Z.eqb cond_init 0) then mret ABT_ERR_SYS else
  s ← get;
  match thread_queue_init (dqueue p_data, s.1.2) with
  | Fault f => throw f
  | Done (_, (q, h)) =>
      put ((mk_pool (access s.1.1) (Some (mk_data false q)), h), Cond 0 0);;
      mret ABT_SUCCESS
  end.

Definition pool_free : C wpst unit :=
  with_wdata (mret ());;
  modify (λ s, ((mk_pool (access s.1.1) None, s.1.2), s.2)).

Definition pool_is_empty : C wpst bool :=
  with_wdata (on_data (gets (λ s, thread_queue_is_empty (dqueue s.1)))).

Definition pool_get_size : C wpst Z :=
  with_wdata (on_data (gets (λ s, thread_queue_get_size (dqueue s.1)))).

Definition pool_push (u context : Z) : C wpst unit :=
  with_wdata (
    p_thread ← ABTI_unit_get_thread_from_builtin_unit u;
    real_pthread_mutex_lock;;
    on_data (on_queue (thread_queue_push_tail p_thread));;
    real_pthread_cond_signal;;
    real_pthread_mutex_unlock).

Definition pool_push_many (units : list Z) (context : Z) : C wpst unit :=
  with_wdata (
    let num_units := Z.of_nat (length units) in
    if Z.ltb 0 num_units then
      real_pthread_mutex_lock;;
      on_data (push_many_loop push_tail_of units);;
      (if Z.eqb num_units 1 then real_pthread_cond_signal else real_pthread_cond_broadcast);;
      real_pthread_mutex_unlock
    else mret ()).

(** ** Waiting

    [clock] is the time of day, [env] what other threads do while this one
    sleeps in [pthread_cond_timedwait]: it leaves its place among the sleepers
    when it is woken or when the time is up. *)

Section waiting.
Context (env : Z * Z → C wdst unit).

Definition real_pthread_cond_timedwait (ts : Z * Z) : C wdst unit :=
  real_pthread_mutex_unlock;;
  modify (λ s, (s.1, Cond (sleepers s.2 + 1) (woken s.2)));;
  env ts;;
  real_pthread_mutex_lock.

Definition NSEC : Z := 1000000000.

(** [time_secs] is given as its whole seconds and the nanoseconds left. *)
Definition deadline (now : Z * Z) (secs nsecs : Z) : Z * Z :=
  let ts := (now.1 + secs, now.2 + nsecs) in
  if Z.ltb NSEC ts.2 then (ts.1 + 1, ts.2 - NSEC) else ts.

Definition pool_pop_wait (clock : Z * Z) (secs nsecs context : Z) : C wpst (option ptr) :=
  with_wdata (
    real_pthread_mutex_lock;;
    empty ← on_data (gets (λ s, thread_queue_is_empty (dqueue s.1)));
    (if (empty : bool) then real_pthread_cond_timedwait (deadline clock secs nsecs) else mret ());;
    p_thread ← on_data (on_queue thread_queue_pop_head);
    real_pthread_mutex_unlock;;
    mret p_thread).

(** The absolute time as seconds and nanoseconds. *)
Definition pool_pop_timedwait (abstime : Z * Z) : C wpst (option Z) :=
  with_wdata (
    real_pthread_mutex_lock;;
    empty ← on_data (gets (λ s, thread_queue_is_empty (dqueue s.1)));
    (if (empty : bool) then real_pthread_cond_timedwait abstime else mret ());;
    p_thread ← on_data (on_queue thread_queue_pop_head);
    real_pthread_mutex_unlock;;
    match p_thread with
    | Some p => u ← ABTI_unit_get_builtin_unit p; mret (Some u)
    | None => mret None
    end).
End waiting.

Definition pool_pop (context : Z) : C wpst (option ptr) :=
  with_wdata (
    empty ← on_data (gets (λ s, thread_queue_is_empty (dqueue s.1)));
    if negb (empty : bool) then
      real_pthread_mutex_lock;;
      p_thread ← on_data (on_queue thread_queue_pop_head);
      real_pthread_mutex_unlock;;
      mret p_thread
    else mret None).

Definition pool_pop_many (max_threads : nat) (context : Z) : C wpst (list ptr) :=
  with_wdata (
    empty ← on_data (gets (λ s, thread_queue_is_empty (dqueue s.1)));
    if (negb (bool_decide (max_threads = 0%nat)) && negb (empty : bool))%bool then
      real_pthread_mutex_lock;;
      threads ← on_data (pop_many_loop (on_queue thread_queue_pop_head) max_threads);
      real_pthread_mutex_unlock;;
      mret threads
    else mret []).

Definition pool_remove (u : Z) : C wpst Z :=
  with_wdata (
    p_thread ← ABTI_unit_get_thread_from_builtin_unit u;
    empty ← on_data (gets (λ s, thread_queue_is_empty (dqueue s.1)));
    if (empty : bool) then mret ABT_ERR_POOL else
    flag ← on_data (zoom snd (λ h s, (s.1, h)) (load is_in_pool (Some p_thread)));
    if negb (Z.eqb flag 1) then mret ABT_ERR_POOL else
    real_pthread_mutex_lock;;
    abt_errno ← on_data (on_queue (thread_queue_remove p_thread));
    real_pthread_mutex_unlock;;
    mret abt_errno).

Definition pool_print_all : C wpst (list ptr) :=
  with_wdata (
    real_pthread_mutex_lock;;
    units ← on_data (on_queue thread_queue_print_all);
    real_pthread_mutex_unlock;;
    mret units).

Definition pool_unit_is_in_pool (u : Z) : C wpst bool :=
  p_thread ← ABTI_unit_get_thread_from_builtin_unit u;
  flag ← zoom (λ s, s.1.2) (λ h s, ((s.1.1, h), s.2)) (load is_in_pool (Some p_thread));
  mret (negb (Z.eqb flag 0)).

Definition pool_create_unit : C wpst unit := c_assert false.
Definition pool_free_unit : C wpst unit := c_assert false.

(** ** Properties *)

(** The pool holds [l], its mutex is free, and [w] schedulers sleep. *)
Definition wpool_rep (s : wpst) (l : list ptr) (w : Z) : Prop :=
  pool_rep s.1 l ∧ sleepers s.2 = w ∧ 0 ≤ w.

Lemma with_wdata_run {A} (m : C wdst A) a acc d d' h h' c c' :
  m ((d, h), c) = Done (a, ((d', h'), c')) →
  with_wdata m ((mk_pool acc (Some d), h), c) = Done (a, ((mk_pool acc (Some d'), h'), c')).
Proof. intros E. unfold with_wdata. simpl. by rewrite E. Qed.

Lemma on_data_run {A} (m : C dst A) a d d' c : m d = Done (a, d') → on_data m (d, c) = Done (a, (d', c)).
Proof. intros E. unfold on_data, zoom. simpl. by rewrite E. Qed.

Lemma queue_empty_run q h l b c :
  tq_rep q h l →
  on_data (gets (λ s : dst, thread_queue_is_empty (dqueue s.1))) ((mk_data b q, h), c)
  = Done (bool_decide (l = []), ((mk_data b q, h), c)).
Proof.
  intros Hq. apply on_data_run. unfold gets. do 2 f_equal. simpl. unfold thread_queue_is_empty.
  rewrite (rep_empty _ _ _ Hq). by case_decide; case_bool_decide.
Qed.

(** a batch of [n] distinct units pushed on a waiting pool goes to the tail in
    order, wakes at least as many sleepers as it can (one for one unit, all for
    more), and is handed out in order by later pops. *)
Theorem fifo_wait_push_many_wakes s l w ps n ctx1 ctx2 :
  wpool_rep s l w → NoDup (l ++ ps) → Forall (.∈ dom s.1.2) ps → Z.of_nat (size (dom s.1.2)) < 2 ^ 64 →
  ∃ s1 s2 w', pool_push_many (builtin <$> ps) ctx1 s = Done ((), s1) ∧ wpool_rep s1 (l ++ ps) w' ∧
    woken s1.2 - woken s.2 = w - w' ∧ Z.min (Z.of_nat (length ps)) w ≤ w - w' ∧
    pool_pop_many n ctx2 s1 = Done (take n (l ++ ps), s2) ∧ wpool_rep s2 (drop n (l ++ ps)) w'.
Proof.
  destruct s as [s0 c]. intros (Hr & Hw & Hw0) Hd Hal Hsz. simpl in *.
  destruct (pool_rep_inv _ _ Hr) as (acc & q & h & -> & Hq). simpl in *.
  destruct (push_loop_ok ps true q h l) as (q1 & h1 & E1 & Hq1 & _); [done..|].
  set (c1 := if Z.ltb 0 (Z.of_nat (length ps)) then
               if Z.eqb (Z.of_nat (length ps)) 1
               then if Z.ltb 0 (sleepers c) then Cond (sleepers c - 1) (woken c + 1) else c
               else Cond 0 (woken c + sleepers c)
             else c).
  assert (pool_push_many (builtin <$> ps) ctx1 ((mk_pool acc (Some (mk_data false q)), h), c)
    = Done ((), ((mk_pool acc (Some (mk_data false q1)), h1), c1))) as Ep.
  { apply with_wdata_run. cbv zeta. rewrite length_fmap. subst c1. destruct (Z.ltb_spec 0 (Z.of_nat (length ps))).
    - erewrite (C_bind_Done _ _ _ _ ((mk_data true q, h), c)) by done.
      rewrite (C_bind_Done _ _ _ _ _ (on_data_run _ _ _ _ c E1)). by destruct (Z.eqb _ 1).
    - destruct ps; [|simpl in *; lia]. by inversion E1. }
  destruct (pop_loop_ok n true q1 h1 _ Hq1) as (q2 & h2 & E2 & Hq2).
  assert (∃ s2, pool_pop_many n ctx2 ((mk_pool acc (Some (mk_data false q1)), h1), c1)
    = Done (take n (l ++ ps), (s2, c1)) ∧ pool_rep s2 (drop n (l ++ ps))) as (s2 & Eq & Hs2).
  { destruct (decide (n = 0%nat ∨ l ++ ps = [])) as [Hz|Hz].
    - exists (mk_pool acc (Some (mk_data false q1)), h1). split.
      + apply with_wdata_run. rewrite (C_bind_Done _ _ _ _ _ (queue_empty_run _ _ _ _ _ Hq1)).
        destruct Hz as [->| ->]; [done|]. rewrite (bool_decide_true ([] = [])) by done.
        rewrite andb_false_r, take_nil. done.
      + apply pool_rep_intro. destruct Hz as [->|Hz]; [by rewrite drop_0|]. by rewrite Hz, drop_nil in *.
    - exists (mk_pool acc (Some (mk_data false q2)), h2). split; [|by apply pool_rep_intro].
      apply with_wdata_run. rewrite (C_bind_Done _ _ _ _ _ (queue_empty_run _ _ _ _ _ Hq1)).
      rewrite !bool_decide_false by tauto. cbn [negb andb].
      erewrite (C_bind_Done _ _ _ _ ((mk_data true q1, h1), c1)) by done.
      rewrite (C_bind_Done _ _ _ _ _ (on_data_run _ _ _ _ c1 E2)). done. }
  eexists _, (s2, c1), (sleepers c1). split; [exact Ep|].
  assert (0 ≤ sleepers c1 ∧ woken c1 - woken c = w - sleepers c1 ∧
          Z.min (Z.of_nat (length ps)) w ≤ w - sleepers c1) as (H0 & H1 & H2).
  { subst c1 w. destruct (Z.ltb_spec 0 (Z.of_nat (length ps))), (Z.eqb_spec (Z.of_nat (length ps)) 1),
      (Z.ltb_spec 0 (sleepers c)); simpl; lia. }
  split_and!; [split; [by apply pool_rep_intro|done]|done|done|exact Eq|split; [done|done]].
Qed.

(** a waiting pop sleeps at most once, on an empty pool, with the mutex
    released; it returns the head of whatever the other threads left, and NULL
    when that is nothing. *)
Theorem fifo_wait_pop_wait_result env s l w clock secs nsecs ctx :
  wpool_rep s l w →
  (l ≠ [] → ∃ p l' s', l = p :: l' ∧ pool_pop_wait env clock secs nsecs ctx s = Done (Some p, s') ∧ wpool_rep s' l' w) ∧
  (l = [] → ∀ d1 h1 l1 c1,
     (∀ d h, data s.1.1 = Some d → s.1.2 = h →
        env (deadline clock secs nsecs) ((d, h), Cond (w + 1) (woken s.2)) = Done ((), ((d1, h1), c1))) →
     mutex d1 = false → tq_rep (dqueue d1) h1 l1 → 0 ≤ sleepers c1 →
     ∃ s', pool_pop_wait env clock secs nsecs ctx s = Done (head l1, s') ∧ wpool_rep s' (tail l1) (sleepers c1)).
Proof.
  destruct s as [s0 c]. intros (Hr & Hw & Hw0). simpl in *.
  destruct (pool_rep_inv _ _ Hr) as (acc & q & h & -> & Hq). simpl in *. split.
  - intros Hne. destruct l as [|p l']; [done|].
    destruct (pop_head_ok q h p l' Hq) as (q' & h' & E & Hq' & _).
    exists p, l', ((mk_pool acc (Some (mk_data false q')), h'), c). split; [done|].
    split; [|split; [by apply pool_rep_intro|done]]. apply with_wdata_run.
    erewrite (C_bind_Done _ _ _ _ ((mk_data true q, h), c)) by done.
    rewrite (C_bind_Done _ _ _ _ _ (queue_empty_run _ _ _ _ _ Hq)). rewrite bool_decide_false by done.
    erewrite (C_bind_Done _ _ _ _ ((mk_data true q, h), c)) by done.
    erewrite C_bind_Done by (apply on_data_run, on_queue_run; simpl; exact E). done.
  - intros -> d1 h1 l1 c1 Henv Hm1 Hq1 Hc1. specialize (Henv _ _ eq_refl eq_refl).
    destruct d1 as [m1 q1]. simpl in *. subst m1 w.
    assert (∃ q2 h2, thread_queue_pop_head (q1, h1) = Done (head l1, (q2, h2)) ∧ tq_rep q2 h2 (tail l1)) as (q2 & h2 & E & Hq2).
    { destruct l1 as [|p l1]; [by eexists _, _; split; [apply pop_head_empty|]|].
      destruct (pop_head_ok q1 h1 p l1 Hq1) as (q' & h' & E & Hq' & _). by eexists _, _. }
    exists ((mk_pool acc (Some (mk_data false q2)), h2), c1).
    split; [|split; [by apply pool_rep_intro|done]]. apply with_wdata_run.
    erewrite (C_bind_Done _ _ _ _ ((mk_data true q, h), c)) by done.
    rewrite (C_bind_Done _ _ _ _ _ (queue_empty_run _ _ _ _ _ Hq)). rewrite bool_decide_true by done.
    rewrite (C_bind_Done _ _ _ () ((mk_data true q1, h1), c1)).
    2:{ unfold real_pthread_cond_timedwait. erewrite (C_bind_Done _ _ _ _ ((mk_data false q, h), c)) by done.
        erewrite (C_bind_Done _ _ _ _ ((mk_data false q, h), Cond (sleepers c + 1) (woken c))) by done.
        erewrite C_bind_Done by exact Henv. done. }
    erewrite C_bind_Done by (apply on_data_run, on_queue_run; simpl; exact E). done.
Qed.

(** ** Instances *)

Definition idle_wpool : wpst := (idle_pool, Cond 2 0).

Lemma idle_wpool_rep : wpool_rep idle_wpool [] 2.
Proof. split; [apply idle_pool_rep|done]. Qed.

Lemma fifo_wait_push_many_wakes_witness :
  ∃ s1 s2 w', pool_push_many (builtin <$> [3; 1]%positive) 0 idle_wpool = Done ((), s1) ∧ wpool_rep s1 [3; 1]%positive w' ∧
    woken s1.2 - 0 = 2 - w' ∧ Z.min 2 2 ≤ 2 - w' ∧
    pool_pop_many 1 0 s1 = Done ([3%positive], s2) ∧ wpool_rep s2 [1%positive] w'.
Proof.
  apply (fifo_wait_push_many_wakes idle_wpool [] 2 [3; 1]%positive 1 0 0 idle_wpool_rep).
  - by apply (bool_decide_unpack _).
  - repeat constructor; by vm_compute.
  - by vm_compute.
Defined.

Lemma fifo_wait_pop_wait_result_witness :
  ∃ s', pool_pop_wait (λ _, modify (λ s, (s.1, Cond 2 0))) (5, 0) 1 0 0 idle_wpool = Done (None, s') ∧ wpool_rep s' [] 2.
Proof.
  destruct (fifo_wait_pop_wait_result (λ _, modify (λ s, (s.1, Cond 2 0))) idle_wpool [] 2 (5, 0) 1 0 0 idle_wpool_rep)
    as [_ H].
  apply (H eq_refl (mk_data false (mk_queue 0 None None 1)) three_idle [] (Cond 2 0)); [|done| |done].
  - intros d h' [= <-] <-. done.
  - split; try done. constructor.
Defined.
