(* ===== verification/Ult.v ===== *)
(** * User-level threads: context switches, suspending, joining, exiting

    argobots/src: include/abti_ythread.h, include/abti_thread.h, ythread.c, the life cycle
    in thread.c and task.c, and the functions of self.c that switch.  A function is a tree
    of its accesses to shared memory ([Next], one atomic access each) and of its context
    switches; the tree that is left when a thread is switched away from is its saved
    context, and is what runs when somebody switches to it again, on whichever execution
    stream that is.  A callback of a switch ([f_cb] with its argument) runs on
    the new context before the new thread goes on.  User code ([User]) may call any function
    of the interface next; [step] interleaves any number of execution streams and
    external threads.  Allocation of descriptors may fail; what a pool returns is
    any of its units, so that every pool implementation is covered. *)

From stdpp Require Import functions base tactics decidable option list numbers gmap fin_maps sets.
From Stdlib Require Import ZArith Lia.
From S2P Require Import Prelude Abt Thread.
Open Scope Z_scope.

Abbreviation tid := nat (only parsing).
Abbreviation pid := nat (only parsing).
Abbreviation xid := nat (only parsing).

(** Who waits for the end of a thread: a user-level thread by its context, or a thread
    that cannot yield, by the dummy context with its futex. *)
Inductive joiner := JUlt (j : tid) | JExt (x : xid).

Global Instance joiner_eq_dec : EqDecision joiner.
Proof. solve_decision. Defined.

(** What a blocked thread waits for; part of the specification only. *)
Inductive waits := ForResume | ForResumer | ForEnd (t : tid).

Global Instance waits_eq_dec : EqDecision waits.
Proof. solve_decision. Defined.

(** ** Accesses *)

Inductive cmd :=
  | LoadState (t : tid)
  | StoreState (t : tid) (s : ABT_thread_state)
  | StoreBlocked (t : tid) (why : waits)
  | LoadRequest (t : tid)
  | FetchOr (t : tid) (bits : Z)
  | FetchAnd (t : tid) (bits : Z)
  | LoadType (t : tid)
  | LoadPool (t : tid)
  | StorePool (t : tid) (p : pid)
  | LoadParent (t : tid)
  | StoreParent (t : tid) (q : option tid)
  | LoadLast (t : tid)
  | StoreLast (t : tid) (x : option xid)
  | LoadLink (t : tid)
  | AwaitLink (t : tid)
  | StoreLink (t : tid) (j : joiner)
  | LoadMig (t : tid)
  | StoreMig (t : tid) (p : pid)
  | GetCurrent (x : xid)
  | SetCurrent (x : xid) (t : tid)
  | IncBlocked (p : pid)
  | DecBlocked (p : pid)
  | Push (p : pid) (t : tid)
  | Pop (p : pid)
  | NewThread (type : Z) (p : pid)
  | FreeThread (x : option xid) (t : tid)
  | FutexInit (x : xid)
  | FutexWait (x : xid)
  | FutexWake (x : xid)
  | Unlock (l : nat)
  | HasStack (t : tid)
  | AllocStack (t : tid)
  | FreeStack (x : option xid) (t : tid)
  | Assert (b : bool).

Definition ret (c : cmd) : Set :=
  match c with
  | LoadState _ => ABT_thread_state
  | LoadRequest _ | FetchOr _ _ | LoadType _ => Z
  | LoadPool _ => pid
  | LoadParent _ | GetCurrent _ | Pop _ | NewThread _ _ => option tid
  | LoadLast _ => option xid
  | LoadLink _ => option joiner
  | AwaitLink _ => joiner
  | LoadMig _ => option pid
  | HasStack _ => bool
  | _ => unit
  end.

(** The callbacks of context switches with their arguments. *)
Inductive callback :=
  | cb_yield (p_prev : tid)
  | cb_resume_yield_to (p_prev p_next : tid)
  | cb_suspend (p_prev : tid)
  | cb_resume_suspend_to (p_prev p_next : tid)
  | cb_exit (p_prev : tid)
  | cb_resume_exit_to (p_prev p_next : tid)
  | cb_suspend_unlock (p_prev : tid) (lock : nat)
  | cb_suspend_join (p_prev p_target : tid).

(** [User]: the function of a thread (or an external thread) runs; [Task p]: the function of a
    tasklet runs and its scheduler goes on with [p].  [JoinLoop] and [BusyLoop] are the
    loops of a join. *)
Inductive prog : Set :=
  | User
  | Task (k : prog)
  | Next (c : cmd) (k : ret c → prog)
  | Switch (old new : tid) (cb : option callback) (k : prog)
  | Jump (new : tid) (cb : callback)
  | JoinLoop (x : xid) (self t : tid) (k : prog)
  | BusyLoop (t : tid) (k : prog)
  | Crash.

(** Functions in continuation-passing style. *)
Definition M (A : Type) : Type := (A → prog) → prog.

Global Instance M_ret : MRet M := λ A a k, k a.
Global Instance M_bind : MBind M := λ A B f m k, m (λ a, f a k).

Definition do (c : cmd) : M (ret c) := Next c.
(** Dereferences a pointer that must not be NULL. *)
Definition deref {A} (p : option A) : M A := λ k, match p with Some a => k a | None => Crash end.

Definition has (v bits : Z) : bool := negb (Z.land v bits =? 0).
Definition yieldable (type : Z) : bool := has type ABTI_THREAD_TYPE_YIELDABLE.

(** The stack of such a thread is allocated when the thread is first run (only if Argobots is
    configured with --enable-lazy-stack-alloc). *)
Definition ABTI_THREAD_TYPE_MEM_MEMPOOL_DESC_MEMPOOL_LAZY_STACK : Z := Z.shiftl 1 11.
Definition ABTI_THREAD_TYPE_MEM_MALLOC_DESC_MEMPOOL_LAZY_STACK : Z := Z.shiftl 1 12.
Definition lazy_stack (type : Z) : bool :=
  has type (Z.lor ABTI_THREAD_TYPE_MEM_MEMPOOL_DESC_MEMPOOL_LAZY_STACK ABTI_THREAD_TYPE_MEM_MALLOC_DESC_MEMPOOL_LAZY_STACK).

Section programs.
Context (migration : bool).

(** ** Pools (include/abti_pool.h) *)

Definition ABTI_pool_inc_num_blocked (p_pool : pid) : M unit := do (IncBlocked p_pool).
Definition ABTI_pool_dec_num_blocked (p_pool : pid) : M unit := do (DecBlocked p_pool).
Definition ABTI_pool_add_thread (p_thread : tid) : M unit :=
  do (StoreState p_thread ABT_THREAD_STATE_READY);;
  p_pool ← do (LoadPool p_thread);
  do (Push p_pool p_thread).

Definition ABTI_ythread_resume_and_push (p_ythread : tid) : M unit :=
  state ← do (LoadState p_ythread);
  do (Assert (bool_decide (state = ABT_THREAD_STATE_BLOCKED)));;
  p_pool ← do (LoadPool p_ythread);
  ABTI_pool_add_thread p_ythread;;
  ABTI_pool_dec_num_blocked p_pool.

(** ** Context switches (include/abti_ythread.h) *)

(** A context that has not been started gets a stack if it has none; the source asserts that
    there is memory for it ([AllocStack]).  A started context has a stack. *)
Definition ensure_stack (p_new : tid) : M unit :=
  has_stack ← do (HasStack p_new);
  if (has_stack : bool) then mret () else do (AllocStack p_new).

(** [ABTD_ythread_context_switch_with_call] and [ABTD_ythread_context_jump_with_call], or the
    functions that start the new context. *)
Definition switch (p_old p_new : tid) (cb : option callback) : M unit := λ k, Switch p_old p_new cb (k ()).
Definition jump {A} (p_new : tid) (cb : callback) : M A := λ _, Jump p_new cb.

Definition ABTI_ythread_context_switch (p_old p_new : tid) (cb : option callback) : M unit :=
  ensure_stack p_new;;
  switch p_old p_new cb.
Definition ABTI_ythread_context_jump_with_call {A} (p_new : tid) (cb : callback) : M A :=
  ensure_stack p_new;;
  jump p_new cb.

Definition ABTI_ythread_switch_to_child_internal (x : xid) (p_old p_new : tid) : M xid :=
  do (StoreParent p_new (Some p_old));;
  do (SetCurrent x p_new);;
  do (StoreLast p_new (Some x));;
  ABTI_ythread_context_switch p_old p_new None;;
  last ← do (LoadLast p_old);
  deref last.

Definition ABTI_ythread_jump_to_sibling_internal {A} (x : xid) (p_old p_new : tid)
    (cb : callback) : M A :=
  p_parent ← do (LoadParent p_old);
  do (StoreParent p_new p_parent);;
  do (SetCurrent x p_new);;
  do (StoreLast p_new (Some x));;
  ABTI_ythread_context_jump_with_call p_new cb.

Definition ABTI_ythread_switch_to_sibling_internal (x : xid) (p_old p_new : tid)
    (cb : callback) : M xid :=
  p_parent ← do (LoadParent p_old);
  do (StoreParent p_new p_parent);;
  do (SetCurrent x p_new);;
  do (StoreLast p_new (Some x));;
  ABTI_ythread_context_switch p_old p_new (Some cb);;
  last ← do (LoadLast p_old);
  deref last.

Definition ABTI_ythread_jump_to_parent_internal {A} (x : xid) (p_old : tid) (cb : callback) : M A :=
  p_parent ← do (LoadParent p_old);
  p_new ← deref p_parent;
  do (SetCurrent x p_new);;
  last ← do (LoadLast p_new);
  do (Assert (bool_decide (last = Some x)));;
  ABTI_ythread_context_jump_with_call p_new cb.

Definition ABTI_ythread_switch_to_parent_internal (x : xid) (p_old : tid) (cb : callback) : M xid :=
  p_parent ← do (LoadParent p_old);
  p_new ← deref p_parent;
  do (SetCurrent x p_new);;
  last ← do (LoadLast p_new);
  do (Assert (bool_decide (last = Some x)));;
  ABTI_ythread_context_switch p_old p_new (Some cb);;
  last ← do (LoadLast p_old);
  deref last.

Definition ABTI_ythread_run_child (x : xid) (p_self p_child : tid) : M xid :=
  do (StoreState p_child ABT_THREAD_STATE_RUNNING);;
  ABTI_ythread_switch_to_child_internal x p_self p_child.

(** ** Yield and suspend *)

Definition ABTI_ythread_yield (x : xid) (p_self : tid) : M xid :=
  ABTI_ythread_switch_to_parent_internal x p_self (cb_yield p_self).

Definition ABTI_ythread_yield_to (x : xid) (p_self p_target : tid) : M xid :=
  do (StoreState p_target ABT_THREAD_STATE_RUNNING);;
  ABTI_ythread_switch_to_sibling_internal x p_self p_target (cb_yield p_self).

Definition assert_blocked (p_target : tid) : M unit :=
  state ← do (LoadState p_target);
  do (Assert (bool_decide (state = ABT_THREAD_STATE_BLOCKED))).

Definition ABTI_ythread_resume_yield_to (x : xid) (p_self p_target : tid) : M xid :=
  assert_blocked p_target;;
  do (StoreState p_target ABT_THREAD_STATE_RUNNING);;
  ABTI_ythread_switch_to_sibling_internal x p_self p_target (cb_resume_yield_to p_self p_target).

Definition ABTI_ythread_suspend (x : xid) (p_self : tid) : M xid :=
  ABTI_ythread_switch_to_parent_internal x p_self (cb_suspend p_self).

(** The state of the target is not set here. *)
Definition ABTI_ythread_suspend_to (x : xid) (p_self p_target : tid) : M xid :=
  ABTI_ythread_switch_to_sibling_internal x p_self p_target (cb_suspend p_self).

Definition ABTI_ythread_resume_suspend_to (x : xid) (p_self p_target : tid) : M xid :=
  assert_blocked p_target;;
  do (StoreState p_target ABT_THREAD_STATE_RUNNING);;
  ABTI_ythread_switch_to_sibling_internal x p_self p_target (cb_resume_suspend_to p_self p_target).

Definition ABTI_ythread_suspend_unlock (x : xid) (p_self : tid) (lock : nat) : M xid :=
  ABTI_ythread_switch_to_parent_internal x p_self (cb_suspend_unlock p_self lock).

Definition ABTI_ythread_suspend_join (x : xid) (p_self p_target : tid) : M xid :=
  ABTI_ythread_switch_to_parent_internal x p_self (cb_suspend_join p_self p_target).

(** ** The end of a thread *)

Definition ABTI_ythread_atomic_get_joiner (p_ythread : tid) : M (option joiner) :=
  p_link ← do (LoadLink p_ythread);
  match p_link with
  | None =>
      req ← do (FetchOr p_ythread ABTI_THREAD_REQ_JOIN);
      if negb (has req ABTI_THREAD_REQ_JOIN) then mret None
      else j ← do (AwaitLink p_ythread); mret (Some j)
  | Some j => mret (Some j)
  end.

Definition ABTI_ythread_resume_joiner (p_ythread : tid) : M unit :=
  p_joiner ← ABTI_ythread_atomic_get_joiner p_ythread;
  match p_joiner with
  | None => mret ()
  | Some (JExt e) => do (FutexWake e)
  | Some (JUlt j) => ABTI_ythread_resume_and_push j
  end.

(** [ABTI_thread_free] of a thread that has no name: its memory goes to the local
    pool of stream [x]. *)
Definition ABTI_thread_terminate (x : option xid) (p_thread : tid) : M unit :=
  type ← do (LoadType p_thread);
  (if lazy_stack type then
     has_stack ← do (HasStack p_thread);
     if (has_stack : bool) then do (FreeStack x p_thread) else mret ()
   else mret ());;
  if negb (has type ABTI_THREAD_TYPE_NAMED) then
    do (StoreState p_thread ABT_THREAD_STATE_TERMINATED);;
    do (FreeThread x p_thread)
  else do (StoreState p_thread ABT_THREAD_STATE_TERMINATED).

Definition ABTI_ythread_exit {A} (x : xid) (p_self : tid) : M A :=
  p_joiner ← ABTI_ythread_atomic_get_joiner p_self;
  match p_joiner with
  | None => mret ()
  | Some (JExt e) => do (FutexWake e)
  | Some (JUlt j) =>
      last ← do (LoadLast p_self);
      last' ← do (LoadLast j);
      type ← do (LoadType p_self);
      if bool_decide (last = last') && negb (has type ABTI_THREAD_TYPE_MAIN_SCHED) then
        p_pool ← do (LoadPool j);
        ABTI_pool_dec_num_blocked p_pool;;
        do (StoreState j ABT_THREAD_STATE_RUNNING);;
        ABTI_ythread_jump_to_sibling_internal x p_self j (cb_exit p_self)
      else ABTI_ythread_resume_and_push j
  end;;
  ABTI_ythread_jump_to_parent_internal x p_self (cb_exit p_self).

Definition ABTI_ythread_exit_to {A} (x : xid) (p_self p_target : tid) : M A :=
  ABTI_ythread_resume_joiner p_self;;
  do (StoreState p_target ABT_THREAD_STATE_RUNNING);;
  ABTI_ythread_jump_to_sibling_internal x p_self p_target (cb_exit p_self).

Definition ABTI_ythread_resume_exit_to {A} (x : xid) (p_self p_target : tid) : M A :=
  assert_blocked p_target;;
  ABTI_ythread_resume_joiner p_self;;
  do (StoreState p_target ABT_THREAD_STATE_RUNNING);;
  ABTI_ythread_jump_to_sibling_internal x p_self p_target (cb_resume_exit_to p_self p_target).

(** ** Requests (include/abti_thread.h, thread.c) *)

Definition ABTI_THREAD_HANDLE_REQUEST_NONE : Z := 0.
Definition ABTI_THREAD_HANDLE_REQUEST_CANCELLED : Z := 1.
Definition ABTI_THREAD_HANDLE_REQUEST_MIGRATED : Z := 2.

Definition ABTI_thread_set_request (p_thread : tid) (req : Z) : M unit :=
  do (FetchOr p_thread req);; mret ().
Definition ABTI_thread_unset_request (p_thread : tid) (req : Z) : M unit :=
  do (FetchAnd p_thread (Z.lnot req)).

Definition ABTI_thread_handle_request_cancel (x : option xid) (p_thread : tid) : M unit :=
  type ← do (LoadType p_thread);
  (if yieldable type then ABTI_ythread_resume_joiner p_thread else mret ());;
  ABTI_thread_terminate x p_thread.

(** Built-in pools: the unit stays, the pool is set.  The other cases, which can fail, are in
    [UnitPool]. *)
Definition ABTI_thread_set_associated_pool (p_thread : tid) (p_pool : pid) : M Z :=
  do (StorePool p_thread p_pool);; mret ABT_SUCCESS.

Definition ABTI_thread_handle_request_migrate (p_thread : tid) : M unit :=
  p_migration_pool ← do (LoadMig p_thread);
  p_pool ← deref p_migration_pool;
  ABTI_thread_set_associated_pool p_thread p_pool;;
  ABTI_thread_unset_request p_thread ABTI_THREAD_REQ_MIGRATE.

Definition ABTI_thread_handle_request (p_thread : tid) (allow_termination : bool) : M Z :=
  request ← do (LoadRequest p_thread);
  if allow_termination && has request ABTI_THREAD_REQ_CANCEL then
    last ← do (LoadLast p_thread);
    ABTI_thread_handle_request_cancel last p_thread;;
    mret ABTI_THREAD_HANDLE_REQUEST_CANCELLED
  else if migration && has request ABTI_THREAD_REQ_MIGRATE then
    ABTI_thread_handle_request_migrate p_thread;;
    mret ABTI_THREAD_HANDLE_REQUEST_MIGRATED
  else mret ABTI_THREAD_HANDLE_REQUEST_NONE.

(** ** Callbacks (ythread.c) *)

Definition ythread_callback_yield_impl (p_prev : tid) : M unit :=
  r ← ABTI_thread_handle_request p_prev true;
  if has r ABTI_THREAD_HANDLE_REQUEST_CANCELLED then mret ()
  else ABTI_pool_add_thread p_prev.

Definition ABTI_ythread_callback_resume_yield_to (p_prev p_next : tid) : M unit :=
  r ← ABTI_thread_handle_request p_prev true;
  (if has r ABTI_THREAD_HANDLE_REQUEST_CANCELLED then mret ()
   else ABTI_pool_add_thread p_prev);;
  p_pool ← do (LoadPool p_next);
  ABTI_pool_dec_num_blocked p_pool.

Definition block_prev (p_prev : tid) (why : waits) : M unit :=
  ABTI_thread_handle_request p_prev false;;
  do (StoreBlocked p_prev why).

Definition ABTI_ythread_callback_suspend (p_prev : tid) : M unit :=
  p_pool ← do (LoadPool p_prev);
  ABTI_pool_inc_num_blocked p_pool;;
  block_prev p_prev ForResume.

Definition ABTI_ythread_callback_resume_suspend_to (p_prev p_next : tid) : M unit :=
  p_prev_pool ← do (LoadPool p_prev);
  p_next_pool ← do (LoadPool p_next);
  (if bool_decide (p_prev_pool ≠ p_next_pool) then
     ABTI_pool_inc_num_blocked p_prev_pool;;
     ABTI_pool_dec_num_blocked p_next_pool
   else mret ());;
  block_prev p_prev ForResume.

Definition ABTI_ythread_callback_exit (p_prev : tid) : M unit :=
  last ← do (LoadLast p_prev);
  ABTI_thread_terminate last p_prev.

Definition ABTI_ythread_callback_resume_exit_to (p_prev p_next : tid) : M unit :=
  last ← do (LoadLast p_prev);
  ABTI_thread_terminate last p_prev;;
  p_pool ← do (LoadPool p_next);
  ABTI_pool_dec_num_blocked p_pool.

Definition ABTI_ythread_callback_suspend_unlock (p_prev : tid) (lock : nat) : M unit :=
  p_pool ← do (LoadPool p_prev);
  ABTI_pool_inc_num_blocked p_pool;;
  block_prev p_prev ForResume;;
  do (Unlock lock).

Definition ABTI_ythread_callback_suspend_join (p_prev p_target : tid) : M unit :=
  p_pool ← do (LoadPool p_prev);
  ABTI_pool_inc_num_blocked p_pool;;
  block_prev p_prev (ForEnd p_target);;
  do (StoreLink p_target (JUlt p_prev)).

Definition run_callback (cb : callback) : M unit :=
  match cb with
  | cb_yield p_prev => ythread_callback_yield_impl p_prev
  | cb_resume_yield_to p_prev p_next => ABTI_ythread_callback_resume_yield_to p_prev p_next
  | cb_suspend p_prev => ABTI_ythread_callback_suspend p_prev
  | cb_resume_suspend_to p_prev p_next => ABTI_ythread_callback_resume_suspend_to p_prev p_next
  | cb_exit p_prev => ABTI_ythread_callback_exit p_prev
  | cb_resume_exit_to p_prev p_next => ABTI_ythread_callback_resume_exit_to p_prev p_next
  | cb_suspend_unlock p_prev lock => ABTI_ythread_callback_suspend_unlock p_prev lock
  | cb_suspend_join p_prev p_target => ABTI_ythread_callback_suspend_join p_prev p_target
  end.

(** ** Running a work unit *)

(** The function of a tasklet, on the stack of its scheduler. *)
Definition f_thread : M unit := λ k, Task (k ()).

Definition ABTI_ythread_schedule (x : xid) (p_thread : tid) : M unit :=
  request_op ← ABTI_thread_handle_request p_thread true;
  if request_op =? ABTI_THREAD_HANDLE_REQUEST_NONE then
    type ← do (LoadType p_thread);
    if yieldable type then
      self ← do (GetCurrent x);
      p_self ← deref self;
      ABTI_ythread_run_child x p_self p_thread;; mret ()
    else
      do (StoreState p_thread ABT_THREAD_STATE_RUNNING);;
      do (StoreLast p_thread (Some x));;
      sched ← do (GetCurrent x);
      p_sched_thread ← deref sched;
      do (SetCurrent x p_thread);;
      do (StoreParent p_thread (Some p_sched_thread));;
      f_thread;;
      do (SetCurrent x p_sched_thread);;
      ABTI_thread_terminate (Some x) p_thread
  else if request_op =? ABTI_THREAD_HANDLE_REQUEST_CANCELLED then mret ()
  else ABTI_pool_add_thread p_thread.

(** ** Join (thread.c) *)

Definition thread_join_busywait (p_thread : tid) : M unit := λ k, BusyLoop p_thread (k ()).

Definition busy_body (p_thread : tid) (k : prog) : prog :=
  Next (LoadState p_thread) (λ state,
    if decide (state = ABT_THREAD_STATE_TERMINATED) then k else BusyLoop p_thread k).

(** [me] is the native thread that waits; the futex is a variable of its stack. *)
Definition thread_join_futexwait (me : xid) (p_thread : tid) : M unit :=
  type ← do (LoadType p_thread);
  (if yieldable type then
     req ← do (FetchOr p_thread ABTI_THREAD_REQ_JOIN);
     if negb (has req ABTI_THREAD_REQ_JOIN) then
       do (FutexInit me);;
       do (StoreLink p_thread (JExt me));;
       do (FutexWait me)
     else mret ()
   else mret ());;
  thread_join_busywait p_thread.

Definition thread_join_yield_thread (x : xid) (p_self p_thread : tid) : M unit :=
  λ k, JoinLoop x p_self p_thread (k ()).

Definition join_body (x : xid) (p_self p_thread : tid) (k : prog) : prog :=
  Next (LoadState p_thread) (λ state,
    if decide (state = ABT_THREAD_STATE_TERMINATED) then k
    else ABTI_ythread_yield x p_self (λ x, JoinLoop x p_self p_thread k)).

(** [cur] is the current thread of stream [x], or [None] on an external thread. *)
Definition thread_join (x : xid) (cur : option tid) (p_thread : tid) : M unit :=
  state ← do (LoadState p_thread);
  if decide (state = ABT_THREAD_STATE_TERMINATED) then mret () else
  type ← do (LoadType p_thread);
  do (Assert (negb (has type ABTI_THREAD_TYPE_PRIMARY)));;
  match cur with
  | None => thread_join_futexwait x p_thread
  | Some p_self =>
      self_type ← do (LoadType p_self);
      if negb (yieldable self_type) then thread_join_futexwait x p_thread else
      do (Assert (bool_decide (p_thread ≠ p_self)));;
      if negb (yieldable type) then thread_join_yield_thread x p_self p_thread else
      req ← do (FetchOr p_thread ABTI_THREAD_REQ_JOIN);
      if has req ABTI_THREAD_REQ_JOIN then thread_join_yield_thread x p_self p_thread
      else
        x ← ABTI_ythread_suspend_join x p_self p_thread;
        thread_join_yield_thread x p_self p_thread
  end.

(** ** The interface (thread.c, task.c, self.c)

    A handle is a thread; [cur] as above.  [ABTI_SETUP_LOCAL_YTHREAD] is [local_ythread]. *)

Definition local_ythread (cur : option tid) (body : tid → M Z) : M Z :=
  match cur with
  | None => mret ABT_ERR_INV_XSTREAM
  | Some p_self =>
      type ← do (LoadType p_self);
      if negb (yieldable type) then mret ABT_ERR_INV_THREAD else body p_self
  end.

(** [ABTI_CHECK_TRUE(!(p->type & bits), ABT_ERR_INV_THREAD)] *)
Definition check_type (p : tid) (bits : Z) (body : M Z) : M Z :=
  type ← do (LoadType p);
  if has type bits then mret ABT_ERR_INV_THREAD else body.
Definition check_yieldable (p : tid) (body : M Z) : M Z :=
  type ← do (LoadType p);
  if negb (yieldable type) then mret ABT_ERR_INV_THREAD else body.

(** [ythread_create] and [task_create] with the push of the new unit. *)
Definition thread_create (type : Z) (p_pool : pid) : M Z :=
  p_newthread ← do (NewThread type p_pool);
  match p_newthread with
  | None => mret ABT_ERR_MEM
  | Some t => do (Push p_pool t);; mret ABT_SUCCESS
  end.

Definition ABT_thread_create_to (x : xid) (cur : option tid) (type : Z) (p_pool : pid) : M Z :=
  local_ythread cur (λ p_cur, check_type p_cur ABTI_THREAD_TYPE_MAIN_SCHED (
    p_newthread ← do (NewThread type p_pool);
    match p_newthread with
    | None => mret ABT_ERR_MEM
    | Some t => ABTI_ythread_yield_to x p_cur t;; mret ABT_SUCCESS
    end)).

Definition ABT_self_yield (x : xid) (cur : option tid) : M Z :=
  local_ythread cur (λ p_self, ABTI_ythread_yield x p_self;; mret ABT_SUCCESS).

Definition ABT_self_suspend (x : xid) (cur : option tid) : M Z :=
  local_ythread cur (λ p_self, ABTI_ythread_suspend x p_self;; mret ABT_SUCCESS).

(** The checks of the functions that switch to a given thread. *)
Definition to_target (cur : option tid) (t : tid) (self_bits target_bits : Z) (body : tid → M Z) : M Z :=
  local_ythread cur (λ p_self,
    check_yieldable t (
    if decide (p_self = t) then mret ABT_ERR_INV_THREAD else
    check_type p_self self_bits (check_type t target_bits (body p_self)))).

Definition ABT_self_yield_to (x : xid) (cur : option tid) (t : tid) : M Z :=
  to_target cur t ABTI_THREAD_TYPE_MAIN_SCHED ABTI_THREAD_TYPE_MAIN_SCHED
    (λ p_self, ABTI_ythread_yield_to x p_self t;; mret ABT_SUCCESS).
Definition ABT_self_suspend_to (x : xid) (cur : option tid) (t : tid) : M Z :=
  to_target cur t ABTI_THREAD_TYPE_MAIN_SCHED ABTI_THREAD_TYPE_MAIN_SCHED
    (λ p_self, ABTI_ythread_suspend_to x p_self t;; mret ABT_SUCCESS).
Definition ABT_self_exit_to (x : xid) (cur : option tid) (t : tid) : M Z :=
  to_target cur t ABTI_THREAD_TYPE_MAIN_SCHED
    (Z.lor ABTI_THREAD_TYPE_MAIN_SCHED ABTI_THREAD_TYPE_PRIMARY)
    (λ p_self, ABTI_ythread_exit_to x p_self t).

(** The checks of the functions that resume a blocked thread and switch to it. *)
Definition to_blocked (cur : option tid) (t : tid) (self_bits : Z) (body : tid → M Z) : M Z :=
  local_ythread cur (λ p_self,
    check_yieldable t (
    check_type p_self self_bits (check_type t ABTI_THREAD_TYPE_MAIN_SCHED (
    do (Assert (bool_decide (p_self ≠ t)));;
    assert_blocked t;;
    body p_self)))).

Definition ABT_self_resume_yield_to (x : xid) (cur : option tid) (t : tid) : M Z :=
  to_blocked cur t ABTI_THREAD_TYPE_MAIN_SCHED
    (λ p_self, ABTI_ythread_resume_yield_to x p_self t;; mret ABT_SUCCESS).
Definition ABT_self_resume_suspend_to (x : xid) (cur : option tid) (t : tid) : M Z :=
  to_blocked cur t ABTI_THREAD_TYPE_MAIN_SCHED
    (λ p_self, ABTI_ythread_resume_suspend_to x p_self t;; mret ABT_SUCCESS).
Definition ABT_self_resume_exit_to (x : xid) (cur : option tid) (t : tid) : M Z :=
  to_blocked cur t (Z.lor ABTI_THREAD_TYPE_PRIMARY ABTI_THREAD_TYPE_MAIN_SCHED)
    (λ p_self, ABTI_ythread_resume_exit_to x p_self t).

Definition ABT_self_exit (x : xid) (cur : option tid) : M Z :=
  local_ythread cur (λ p_self,
    check_type p_self ABTI_THREAD_TYPE_PRIMARY (ABTI_ythread_exit x p_self)).

(** [pool] is [None] for [ABT_POOL_NULL]. *)
Definition ABT_self_schedule (x : xid) (cur : option tid) (pool : option pid) (t : tid) : M Z :=
  local_ythread cur (λ _,
    abt_errno ← match pool with
                | Some p_pool => ABTI_thread_set_associated_pool t p_pool
                | None => mret ABT_SUCCESS
                end;
    if negb (abt_errno =? ABT_SUCCESS) then mret abt_errno
    else ABTI_ythread_schedule x t;; mret ABT_SUCCESS).

Definition ABT_thread_resume (t : tid) : M Z :=
  check_yieldable t (
  state ← do (LoadState t);
  if decide (state = ABT_THREAD_STATE_BLOCKED)
  then ABTI_ythread_resume_and_push t;; mret ABT_SUCCESS
  else mret ABT_ERR_THREAD).

Definition ABT_thread_join (x : xid) (cur : option tid) (t : tid) : M Z :=
  if decide (cur = Some t) then mret ABT_ERR_INV_THREAD else
  check_type t (Z.lor ABTI_THREAD_TYPE_PRIMARY ABTI_THREAD_TYPE_MAIN_SCHED)
    (thread_join x cur t;; mret ABT_SUCCESS).

Definition ABT_thread_cancel (t : tid) : M Z :=
  check_type t ABTI_THREAD_TYPE_PRIMARY
    (ABTI_thread_set_request t ABTI_THREAD_REQ_CANCEL;; mret ABT_SUCCESS).

(** With [p_thread->p_pool != p_pool] already checked by the caller's [differs]. *)
Definition thread_migrate_to_pool (t : tid) (p_pool : pid) : M unit :=
  do (StoreMig t p_pool);;
  ABTI_thread_set_request t ABTI_THREAD_REQ_MIGRATE.

Definition ABT_thread_migrate_to_pool (t : tid) (p_pool : pid) (differs : bool) : M Z :=
  if negb migration then mret ABT_ERR_MIGRATION_NA else
  type ← do (LoadType t);
  if negb (has type ABTI_THREAD_TYPE_MIGRATABLE) then mret ABT_ERR_INV_THREAD else
  check_type t ABTI_THREAD_TYPE_MAIN_SCHED (
  if negb differs then mret ABT_ERR_MIGRATION_TARGET else
  thread_migrate_to_pool t p_pool;; mret ABT_SUCCESS).

(** What user code may call.  A thread that was taken from a pool is pushed back if the
    call on it fails. *)
Inductive call :=
  | CCreate (type : Z) (p : pid)
  | CCreateTo (type : Z) (p : pid)
  | CYield
  | CSuspend
  | CSuspendUnlock (l : nat)
  | CYieldTo (p : pid)
  | CSuspendTo (p : pid)
  | CExitTo (p : pid)
  | CSchedule (p : pid) (pool : option pid)
  | CExit
  | CResume (t : tid)
  | CResumeYieldTo (t : tid)
  | CResumeSuspendTo (t : tid)
  | CResumeExitTo (t : tid)
  | CJoin (t : tid)
  | CCancel (t : tid)
  | CMigrate (t : tid) (p : pid) (differs : bool).

Definition with_popped (p : pid) (f : tid → M Z) : M Z :=
  popped ← do (Pop p);
  match popped with
  | None => mret ABT_SUCCESS
  | Some t =>
      abt_errno ← f t;
      if abt_errno =? ABT_SUCCESS then mret ABT_SUCCESS
      else p_pool ← do (LoadPool t); do (Push p_pool t);; mret abt_errno
  end.

Definition start (x : xid) (cur : option tid) (c : call) : M Z :=
  match c with
  | CCreate type p => thread_create type p
  | CCreateTo type p => ABT_thread_create_to x cur type p
  | CYield => ABT_self_yield x cur
  | CSuspend => ABT_self_suspend x cur
  | CSuspendUnlock l =>
      local_ythread cur (λ p_self, ABTI_ythread_suspend_unlock x p_self l;; mret ABT_SUCCESS)
  | CYieldTo p => with_popped p (ABT_self_yield_to x cur)
  | CSuspendTo p => with_popped p (ABT_self_suspend_to x cur)
  | CExitTo p => with_popped p (ABT_self_exit_to x cur)
  | CSchedule p pool => with_popped p (ABT_self_schedule x cur pool)
  | CExit => ABT_self_exit x cur
  | CResume t => ABT_thread_resume t
  | CResumeYieldTo t => ABT_self_resume_yield_to x cur t
  | CResumeSuspendTo t => ABT_self_resume_suspend_to x cur t
  | CResumeExitTo t => ABT_self_resume_exit_to x cur t
  | CJoin t => ABT_thread_join x cur t
  | CCancel t => ABT_thread_cancel t
  | CMigrate t p differs => ABT_thread_migrate_to_pool t p differs
  end.

(** ** Memory *)

Record uthread := UThread {
  t_state : ABT_thread_state;
  t_request : Z;
  t_pool : pid;
  t_parent : option tid;
  t_last : option xid;
  t_link : option joiner;
  t_mig : option pid;
  t_ctx : option prog;
  t_waits : waits
}.

Definition set_t_state v (t : uthread) := UThread v (t_request t) (t_pool t) (t_parent t) (t_last t) (t_link t) (t_mig t) (t_ctx t) (t_waits t).
Definition set_t_request v (t : uthread) := UThread (t_state t) v (t_pool t) (t_parent t) (t_last t) (t_link t) (t_mig t) (t_ctx t) (t_waits t).
Definition set_t_pool v (t : uthread) := UThread (t_state t) (t_request t) v (t_parent t) (t_last t) (t_link t) (t_mig t) (t_ctx t) (t_waits t).
Definition set_t_parent v (t : uthread) := UThread (t_state t) (t_request t) (t_pool t) v (t_last t) (t_link t) (t_mig t) (t_ctx t) (t_waits t).
Definition set_t_last v (t : uthread) := UThread (t_state t) (t_request t) (t_pool t) (t_parent t) v (t_link t) (t_mig t) (t_ctx t) (t_waits t).
Definition set_t_link v (t : uthread) := UThread (t_state t) (t_request t) (t_pool t) (t_parent t) (t_last t) v (t_mig t) (t_ctx t) (t_waits t).
Definition set_t_mig v (t : uthread) := UThread (t_state t) (t_request t) (t_pool t) (t_parent t) (t_last t) (t_link t) v (t_ctx t) (t_waits t).
Definition set_t_ctx v (t : uthread) := UThread (t_state t) (t_request t) (t_pool t) (t_parent t) (t_last t) (t_link t) (t_mig t) v (t_waits t).
Definition set_t_waits v (t : uthread) := UThread (t_state t) (t_request t) (t_pool t) (t_parent t) (t_last t) (t_link t) (t_mig t) (t_ctx t) v.

Record upool := UPool { units : list tid; num_blocked : Z }.

Record world := World {
  threads : gmap tid uthread;
  pools : pid → upool;
  current : xid → option tid;
  futex : xid → Z;
  locks : nat → bool;
  stacks : gset tid  (** the threads to which a stack was allocated lazily *)
}.

Definition set_threads v (w : world) := World v (pools w) (current w) (futex w) (locks w) (stacks w).
Definition set_pool (p : pid) v (w : world) := World (threads w) (<[p := v]> (pools w)) (current w) (futex w) (locks w) (stacks w).
Definition set_current (x : xid) v (w : world) := World (threads w) (pools w) (<[x := v]> (current w)) (futex w) (locks w) (stacks w).
Definition set_futex (x : xid) v (w : world) := World (threads w) (pools w) (current w) (<[x := v]> (futex w)) (locks w) (stacks w).
Definition set_lock (l : nat) v (w : world) := World (threads w) (pools w) (current w) (futex w) (<[l := v]> (locks w)) (stacks w).
Definition set_stacks v (w : world) := World (threads w) (pools w) (current w) (futex w) (locks w) v.

(** An access to a descriptor that does not exist (any more) is undefined. *)
Definition thread (t : tid) : C world uthread := λ w,
  match threads w !! t with Some th => Done (th, w) | None => Fault UB end.
Definition update (t : tid) (f : uthread → uthread) : C world unit :=
  th ← thread t; modify (λ w, set_threads (<[t := f th]> (threads w)) w).

(** A new descriptor: ready, no request, never run, its context at the start of its
    function. *)
Definition new_thread (p : pid) : uthread :=
  UThread ABT_THREAD_STATE_READY 0 p None None None None (Some User) ForResume.

(** The type of a thread is fixed; thread [t] has type [ttype t]. *)
Context (ttype : tid → Z).

(** [x] is the stream or external thread that executes, [n] the choice of the
    environment: the unit that a pool returns, the address of a new descriptor, whether memory
    for a stack is refused ([0]).  Threads of the other types have their stack from the
    start. *)
Definition exec (x : xid) (n : nat) (c : cmd) : C world (ret c) :=
  match c return C world (ret c) with
  | LoadState t => th ← thread t; mret (t_state th)
  | StoreState t s => update t (set_t_state s)
  | StoreBlocked t why =>
      update t (λ th, set_t_waits why (set_t_state ABT_THREAD_STATE_BLOCKED th))
  | LoadRequest t => th ← thread t; mret (t_request th)
  | FetchOr t bits =>
      th ← thread t; update t (set_t_request (Z.lor (t_request th) bits));; mret (t_request th)
  | FetchAnd t bits =>
      th ← thread t; update t (set_t_request (Z.land (t_request th) bits))
  | LoadType t => thread t;; mret (ttype t)
  | LoadPool t => th ← thread t; mret (t_pool th)
  | StorePool t p => update t (set_t_pool p)
  | LoadParent t => th ← thread t; mret (t_parent th)
  | StoreParent t q => update t (set_t_parent q)
  | LoadLast t => th ← thread t; mret (t_last th)
  | StoreLast t y => update t (set_t_last y)
  | LoadLink t => th ← thread t; mret (t_link th)
  | AwaitLink t =>
      th ← thread t;
      match t_link th with Some j => mret j | None => throw Blocked end
  | StoreLink t j => update t (set_t_link (Some j))
  | LoadMig t => th ← thread t; mret (t_mig th)
  | StoreMig t p => update t (set_t_mig (Some p))
  | GetCurrent y => if decide (y = x) then gets (λ w, current w x) else throw UB
  | SetCurrent y t => if decide (y = x) then modify (set_current x (Some t)) else throw UB
  | IncBlocked p =>
      modify (λ w, set_pool p (UPool (units (pools w p)) (i32 (num_blocked (pools w p) + 1))) w)
  | DecBlocked p =>
      modify (λ w, set_pool p (UPool (units (pools w p)) (i32 (num_blocked (pools w p) - 1))) w)
  | Push p t =>
      thread t;;
      modify (λ w, set_pool p (UPool (units (pools w p) ++ [t]) (num_blocked (pools w p))) w)
  | Pop p =>
      w ← get;
      match units (pools w p) !! n with
      | Some t =>
          put (set_pool p (UPool (delete n (units (pools w p))) (num_blocked (pools w p))) w);;
          mret (Some t)
      | None => mret None
      end
  | NewThread type p =>
      w ← get;
      if decide (threads w !! n = None ∧ ttype n = type)
      then put (set_stacks (stacks w ∖ {[n]}) (set_threads (<[n := new_thread p]> (threads w)) w));; mret (Some n)
      else mret None
  | FreeThread y t =>
      if decide (y = Some x)
      then thread t;; modify (λ w, set_threads (delete t (threads w)) w) else throw UB
  | FutexInit y => modify (set_futex y 0)
  | FutexWait y => w ← get; if futex w y =? 0 then throw Blocked else mret ()
  | FutexWake y => w ← get; c_assert (futex w y =? 0);; modify (set_futex y 1)
  | Unlock l => modify (set_lock l false)
  | HasStack t => thread t;; gets (λ w, negb (lazy_stack (ttype t)) || bool_decide (t ∈ stacks w))
  | AllocStack t =>
      thread t;;
      if negb (lazy_stack (ttype t)) then throw UB else
      c_assert (negb (n =? 0)%nat);; modify (λ w, set_stacks ({[t]} ∪ stacks w) w)
  | FreeStack y t =>
      if decide (y = Some x)
      then thread t;; modify (λ w, set_stacks (stacks w ∖ {[t]}) w) else throw UB
  | Assert b => c_assert b
  end.

(** Enters the saved context of [t]; a context is entered once per time it was saved. *)
Definition enter (t : tid) : C world prog :=
  th ← thread t;
  match t_ctx th with
  | Some k => update t (set_t_ctx None);; mret k
  | None => throw UB
  end.

Definition advance (x : xid) (n : nat) (p : prog) : C world prog :=
  match p with
  | User | Task _ => throw Blocked
  | Next c k => r ← exec x n c; mret (k r)
  | Switch old new cb k =>
      update old (set_t_ctx (Some k));;
      k' ← enter new;
      mret (match cb with Some cb => run_callback cb (λ _, k') | None => k' end)
  | Jump new cb => k' ← enter new; mret (run_callback cb (λ _, k'))
  | JoinLoop y self t k => mret (join_body y self t k)
  | BusyLoop t k => mret (busy_body t k)
  | Crash => throw UB
  end.

(** ** Any number of execution streams and external threads *)

Record mach := Mach { wd : world; code : xid → prog }.

Definition named (t : tid) : bool := has (ttype t) ABTI_THREAD_TYPE_NAMED.

(** A thread that has a scheduler to return to; tasklets and external threads do not
    switch. *)
Definition can_leave (w : world) (cur : option tid) : Prop :=
  ∀ self th, cur = Some self → yieldable (ttype self) = true → threads w !! self = Some th →
             t_parent th ≠ None.

(** What a caller must respect: a handle is that of a named thread, and a blocked thread is
    resumed by one caller, and not if it waits for the end of a thread. *)
Definition handle_ok (w : world) (t : tid) : Prop := is_Some (threads w !! t) ∧ named t = true.
Definition resumable (w : world) (t : tid) : Prop :=
  handle_ok w t ∧
  ∃ th, threads w !! t = Some th ∧ t_state th = ABT_THREAD_STATE_BLOCKED ∧ t_waits th = ForResume.
Definition switches_from (cur : option tid) (bits : Z) (t : tid) : Prop :=
  has (ttype t) ABTI_THREAD_TYPE_MAIN_SCHED = false ∧
  ∃ self, cur = Some self ∧ yieldable (ttype self) = true ∧ has (ttype self) bits = false.

Definition legal (w : world) (x : xid) (c : call) : Prop :=
  let cur := current w x in
  match c with
  | CCreate _ _ | CSchedule _ _ => True
  | CCreateTo type _ => can_leave w cur ∧ yieldable type = true
  | CYield | CSuspend | CSuspendUnlock _ | CYieldTo _ | CSuspendTo _ | CExitTo _ | CExit => can_leave w cur
  | CResume t => resumable w t
  | CResumeYieldTo t | CResumeSuspendTo t =>
      can_leave w cur ∧ resumable w t ∧ switches_from cur ABTI_THREAD_TYPE_MAIN_SCHED t
  | CResumeExitTo t =>
      can_leave w cur ∧ resumable w t ∧
      switches_from cur (Z.lor ABTI_THREAD_TYPE_PRIMARY ABTI_THREAD_TYPE_MAIN_SCHED) t
  | CJoin t => can_leave w cur ∧ handle_ok w t
  | CCancel t | CMigrate t _ _ => handle_ok w t
  end.

(** A caller that undertakes to resume a thread. *)
Definition claim (c : call) (w : world) : world :=
  match c with
  | CResume t | CResumeYieldTo t | CResumeSuspendTo t | CResumeExitTo t =>
      set_threads (alter (set_t_waits ForResumer) t (threads w)) w
  | _ => w
  end.

Inductive step : mach → xid → mach → Prop :=
  | step_advance m x n p w :
      advance x n (code m x) (wd m) = Done (p, w) → step m x (Mach w (<[x := p]> (code m)))
  | step_call m x c :
      code m x = User ∨ (∃ k, code m x = Task k) → legal (wd m) x c →
      step m x (Mach (claim c (wd m))
                  (<[x := start x (current (wd m) x) c (λ _, code m x)]> (code m)))
  | step_task_ends m x k :
      code m x = Task k → step m x (Mach (wd m) (<[x := k]> (code m))).

Inductive steps (xs : list xid) : mach → mach → Prop :=
  | steps_refl m : steps xs m m
  | steps_step m x m' m'' : steps xs m m' → x ∈ xs → step m' x m'' → steps xs m m''.

End programs.
