(* ===== verification/UltLogic.v ===== *)
(** * A logic for the programs of user-level threads

    What an execution stream has at a point of its program is a record [lg]: the
    stack of threads it runs, the threads it has in hand, what it knows of them, and what it
    still owes to others (a link to a thread it is about to wait for, a wake-up, a change of
    the counters of blocked threads).  [rule] says for each access what a stream must have,
    and what it has afterwards; [safe] extends this to programs.  A saved context is
    safe on any stream ([saved]). *)

From stdpp Require Import functions base tactics decidable option list numbers gmap fin_maps sets.
From Stdlib Require Import ZArith Lia.
From S2P Require Import Prelude Abt Thread Ult.
Open Scope Z_scope.

(** A thread in hand: ready; running or ready; blocked and to be resumed; terminated. *)
Inductive hkind := HReady | HRun | HClaim | HDead.

Record hold := Hold {
  hk : hkind;
  hctx : bool;                      (** its context is saved *)
  hpar : option (option tid);       (** its parent, if known *)
  hlast : option (option xid)       (** its last stream, if known *)
}.

(** The join flag of a thread is known to be set; its joiner has been dealt with. *)
Inductive jphase := JSeen | JClosed.

Inductive fphase := FNone | FInit | FWait (t : tid).

Global Instance hkind_eq_dec : EqDecision hkind.
Proof. solve_decision. Defined.
Global Instance jphase_eq_dec : EqDecision jphase.
Proof. solve_decision. Defined.

Record lg := LG {
  stk : list tid;
  cur : option tid;
  held : gmap tid hold;
  joined : gmap tid jphase;
  kpool : gmap tid pid;
  kmig : gset tid;
  debt : pid → Z;
  owes : option (tid * option tid);
  futs : fphase;
  wakes : option xid
}.

Definition set_stk v (g : lg) := LG v (cur g) (held g) (joined g) (kpool g) (kmig g) (debt g) (owes g) (futs g) (wakes g).
Definition set_cur v (g : lg) := LG (stk g) v (held g) (joined g) (kpool g) (kmig g) (debt g) (owes g) (futs g) (wakes g).
Definition set_held v (g : lg) := LG (stk g) (cur g) v (joined g) (kpool g) (kmig g) (debt g) (owes g) (futs g) (wakes g).
Definition set_joined v (g : lg) := LG (stk g) (cur g) (held g) v (kpool g) (kmig g) (debt g) (owes g) (futs g) (wakes g).
Definition set_kpool v (g : lg) := LG (stk g) (cur g) (held g) (joined g) v (kmig g) (debt g) (owes g) (futs g) (wakes g).
Definition set_kmig v (g : lg) := LG (stk g) (cur g) (held g) (joined g) (kpool g) v (debt g) (owes g) (futs g) (wakes g).
Definition set_debt v (g : lg) := LG (stk g) (cur g) (held g) (joined g) (kpool g) (kmig g) v (owes g) (futs g) (wakes g).
Definition set_owes v (g : lg) := LG (stk g) (cur g) (held g) (joined g) (kpool g) (kmig g) (debt g) v (futs g) (wakes g).
Definition set_futs v (g : lg) := LG (stk g) (cur g) (held g) (joined g) (kpool g) (kmig g) (debt g) (owes g) v (wakes g).
Definition set_wakes v (g : lg) := LG (stk g) (cur g) (held g) (joined g) (kpool g) (kmig g) (debt g) (owes g) (futs g) v.

Definition owned (g : lg) (t : tid) : Prop := t ∈ stk g ∨ is_Some (held g !! t).
Global Instance owned_dec g t : Decision (owned g t).
Proof. unfold owned. apply _. Defined.

(** The stream has [t], and it has not ended. *)
Definition alive (g : lg) (t : tid) : Prop :=
  t ∈ stk g ∨ ∃ h, held g !! t = Some h ∧ (hk h = HReady ∨ hk h = HRun).

(** Nothing in hand but what runs. *)
Definition only_running (g : lg) : Prop := ∀ t h, held g !! t = Some h → hk h = HRun.

Lemma alive_owned g t : alive g t → owned g t.
Proof. intros [?|(h & Hh & _)]; [by left|right; eauto]. Qed.

Definition bump (p : pid) (n : Z) (d : pid → Z) : pid → Z := λ q, if decide (q = p) then d q + n else d q.

Definition learn (t : tid) (p : pid) (g : lg) : lg := set_kpool (<[t := p]> (kpool g)) g.
Definition knows (g : lg) (t : tid) (p : pid) : Prop := ∀ p0, kpool g !! t = Some p0 → p = p0.
Definition keep (t : tid) (h : hold) (g : lg) : lg := set_held (<[t := h]> (held g)) g.
Definition close (t : tid) (g : lg) : lg := set_joined (<[t := JClosed]> (joined g)) g.
(** The stream gives [t] up. *)
Definition drop (t : tid) (g : lg) : lg :=
  set_held (delete t (held g)) (set_joined (delete t (joined g)) (set_kpool (delete t (kpool g)) g)).

Definition set_kind (k : hkind) (h : hold) : hold := Hold k (hctx h) (hpar h) (hlast h).
Definition claimed : hold := Hold HClaim true None None.
Definition popped : hold := Hold HReady true None None.

(** The stream that ends [t] finds its joiner. *)
Definition take_joiner (t : tid) (j : joiner) (g : lg) : lg :=
  match j with
  | JUlt a => keep a claimed (close t g)
  | JExt e => set_wakes (Some e) (close t g)
  end.

Section logic.
Context (migration : bool) (ttype : tid → Z) (roots : gset tid).

Abbreviation isY t := (yieldable (ttype t)) (only parsing).

Definition settled (d : pid → Z) : Prop := migration = false → ∀ p, d p = 0.

(** Accessible: a named thread, or one the stream has. *)
Definition acc (A : gset tid) (g : lg) (t : tid) : Prop := t ∈ A ∨ owned g t.

Definition joiner_new (g : lg) (j : joiner) : Prop :=
  match j with
  | JUlt a => (¬ owned g a) ∧ kpool g !! a = None ∧ joined g !! a = None ∧ isY a = true
  | JExt _ => True
  end.

Definition store_state (g : lg) (t : tid) (h : hold) (s : ABT_thread_state) (Q : lg → Prop) : Prop :=
  match s, hk h with
  | ABT_THREAD_STATE_READY, (HReady | HRun) => Q (keep t (set_kind HReady h) g)
  | ABT_THREAD_STATE_RUNNING, (HReady | HRun) => Q (keep t (set_kind HRun h) g)
  | ABT_THREAD_STATE_READY, HClaim =>
      ∀ p, knows g t p → Q (keep t (set_kind HReady h) (learn t p (set_debt (bump p 1 (debt g)) g)))
  | ABT_THREAD_STATE_RUNNING, HClaim =>
      ∀ p, knows g t p → Q (keep t (set_kind HRun h) (learn t p (set_debt (bump p 1 (debt g)) g)))
  | ABT_THREAD_STATE_TERMINATED, (HReady | HRun) =>
      (isY t = true → joined g !! t = Some JClosed) ∧
      Q (if named ttype t then drop t g else keep t (set_kind HDead h) g)
  | _, _ => False
  end.

Definition rule (A : gset tid) (x : xid) (g : lg) (c : cmd) : (ret c → lg → Prop) → Prop :=
  match c return (ret c → lg → Prop) → Prop with
  | LoadState t => λ Q,
      acc A g t ∧
      ∀ s, (∀ h, held g !! t = Some h → hk h = HClaim → s = ABT_THREAD_STATE_BLOCKED) → Q s g
  | StoreState t s => λ Q, ∃ h, held g !! t = Some h ∧ store_state g t h s (Q ())
  | StoreBlocked t why => λ Q,
      ∃ h, held g !! t = Some h ∧ hk h = HRun ∧ hctx h = true ∧ isY t = true ∧ joined g !! t = None ∧
           ∀ p, knows g t p →
           match why with
           | ForResume => owes g = None ∧ Q () (drop t (set_debt (bump p (-1) (debt g)) g))
           | ForResumer => False
           | ForEnd u => owes g = Some (u, None) ∧ futs g = FNone ∧
               Q () (set_owes (Some (u, Some t)) (drop t (set_debt (bump p (-1) (debt g)) g)))
           end
  | LoadRequest t => λ Q,
      acc A g t ∧
      ∀ v, (named ttype t = false → has v ABTI_THREAD_REQ_CANCEL = false) →
           Q v (if has v ABTI_THREAD_REQ_MIGRATE then set_kmig ({[t]} ∪ kmig g) g else g)
  | FetchOr t bits => λ Q,
      (bits = ABTI_THREAD_REQ_JOIN ∧ isY t = true ∧ owned g t ∧ joined g !! t = None ∧
       ∀ v, Q v (set_joined (<[t := if has v ABTI_THREAD_REQ_JOIN then JSeen else JClosed]> (joined g)) g))
      ∨ (bits = ABTI_THREAD_REQ_JOIN ∧ isY t = true ∧ t ∈ A ∧ owes g = None ∧ futs g = FNone ∧
         ∀ v, Q v (if has v ABTI_THREAD_REQ_JOIN then g else set_owes (Some (t, None)) g))
      ∨ ((bits = ABTI_THREAD_REQ_CANCEL ∨ (bits = ABTI_THREAD_REQ_MIGRATE ∧ t ∈ kmig g)) ∧ t ∈ A ∧ ∀ v, Q v g)
  | FetchAnd t bits => λ Q,
      bits = Z.lnot ABTI_THREAD_REQ_MIGRATE ∧ owned g t ∧ Q () g
  | LoadType t => λ Q, acc A g t ∧ Q (ttype t) g
  | LoadPool t => λ Q, owned g t ∧ ∀ p, knows g t p → Q p (learn t p g)
  | StorePool t p => λ Q,
      ∃ h, held g !! t = Some h ∧ hk h ≠ HClaim ∧ Q () (learn t p g)
  | LoadParent t => λ Q, head (stk g) = Some t ∧ Q (head (tail (stk g))) g
  | StoreParent t q => λ Q, ∃ h, held g !! t = Some h ∧ Q () (keep t (Hold (hk h) (hctx h) (Some q) (hlast h)) g)
  | LoadLast t => λ Q,
      (t ∈ stk g ∧ Q (Some x) g) ∨
      (∃ h, held g !! t = Some h ∧ ∀ v, (∀ y, hlast h = Some y → v = y) → Q v g)
  | StoreLast t y => λ Q, ∃ h, held g !! t = Some h ∧ Q () (keep t (Hold (hk h) (hctx h) (hpar h) (Some y)) g)
  | LoadLink t => λ Q,
      alive g t ∧ isY t = true ∧ joined g !! t = None ∧ wakes g = None ∧ Q None g ∧
      ∀ j, joiner_new g j → Q (Some j) (take_joiner t j g)
  | AwaitLink t => λ Q,
      alive g t ∧ isY t = true ∧ joined g !! t = Some JSeen ∧ owes g = None ∧ wakes g = None ∧
      ∀ j, joiner_new g j → Q j (take_joiner t j g)
  | StoreLink t j => λ Q,
      match j with
      | JUlt a => owes g = Some (t, Some a) ∧ Q () (set_owes None g)
      | JExt e => e = x ∧ owes g = Some (t, None) ∧ futs g = FInit ∧ Q () (set_futs (FWait t) (set_owes None g))
      end
  | LoadMig t => λ Q, acc A g t ∧ ∀ v, (t ∈ kmig g → v ≠ None) → Q v g
  | StoreMig t p => λ Q, t ∈ A ∧ Q () (set_kmig ({[t]} ∪ kmig g) g)
  | GetCurrent y => λ Q, y = x ∧ Q (cur g) g
  | SetCurrent y t => λ Q, y = x ∧ owned g t ∧ Q () (set_cur (Some t) g)
  | IncBlocked p => λ Q, Q () (set_debt (bump p 1 (debt g)) g)
  | DecBlocked p => λ Q, Q () (set_debt (bump p (-1) (debt g)) g)
  | Push p t => λ Q,
      ∃ h, held g !! t = Some h ∧ hk h = HReady ∧ hctx h = true ∧ joined g !! t = None ∧
           kpool g !! t = Some p ∧ Q () (drop t g)
  | Pop p => λ Q, Q None g ∧ ∀ t, (¬ owned g t) → joined g !! t = None → Q (Some t) (learn t p (keep t popped g))
  | NewThread type p => λ Q,
      Q None g ∧ ∀ t, (¬ owned g t) → joined g !! t = None → ttype t = type → Q (Some t) (learn t p (keep t popped g))
  | FreeThread y t => λ Q,
      y = Some x ∧ named ttype t = false ∧ ∃ h, held g !! t = Some h ∧ hk h = HDead ∧ Q () (drop t g)
  | FutexInit y => λ Q, y = x ∧ futs g = FNone ∧ Q () (set_futs FInit g)
  | FutexWait y => λ Q, y = x ∧ owes g = None ∧ wakes g = None ∧ only_running g ∧ (∃ t, futs g = FWait t) ∧ Q () (set_futs FNone g)
  | FutexWake e => λ Q, wakes g = Some e ∧ Q () (set_wakes None g)
  | Unlock l => λ Q, Q () g
  | HasStack t => λ Q, acc A g t ∧ ∀ b, (b = false → lazy_stack (ttype t) = true) → Q b g
  | AllocStack t => λ Q, acc A g t ∧ lazy_stack (ttype t) = true ∧ Q () g
  | FreeStack _ t => λ Q, acc A g t ∧ lazy_stack (ttype t) = true ∧ Q () g
  | Assert b => λ Q, b = true ∧ Q () g
  end.

(** What a stream has when its stack is [s] and it owes nothing. *)
Definition base (s : list tid) (kp : gmap tid pid) (km : gset tid) (d : pid → Z) : lg :=
  LG s (head s) ∅ ∅ kp km d None FNone None.

Definition idle (g : lg) : Prop :=
  joined g = ∅ ∧ settled (debt g) ∧ owes g = None ∧ futs g = FNone ∧ wakes g = None.

(** The stream after a switch away from [old]; the context of [old] is saved if [ctx]. *)
Definition left_by (x : xid) (ctx : bool) : hold := Hold HRun ctx None (Some (Some x)).

Inductive switched (x : xid) (g : lg) (old new : tid) (ctx : bool) : lg → Prop :=
  | to_parent rest :
      stk g = old :: new :: rest →
      switched x g old new ctx (set_stk (new :: rest) (keep old (left_by x ctx) g))
  | to_sibling rest h :
      stk g = old :: rest → rest ≠ [] → held g !! new = Some h → hk h = HReady ∨ hk h = HRun →
      hctx h = true → isY new = true → hpar h = Some (head rest) → hlast h = Some (Some x) →
      joined g !! new = None →
      switched x g old new ctx
        (set_stk (new :: rest) (set_held (<[old := left_by x ctx]> (delete new (held g))) g))
  | to_child rest h :
      ctx = true →
      stk g = old :: rest → held g !! new = Some h → hk h = HReady ∨ hk h = HRun →
      hctx h = true → isY new = true → hpar h = Some (Some old) → hlast h = Some (Some x) →
      joined g !! new = None →
      switched x g old new ctx (set_stk (new :: old :: rest) (set_held (delete new (held g)) g)).

(** What a callback needs: [p_prev] in hand and, if it resumed [p_next], one blocked thread
    too many in the counter of the pool of [p_next]. *)
Definition one_more (g : lg) (t : tid) : Prop :=
  migration = false → ∃ p, kpool g !! t = Some p ∧ ∀ q, debt g q = if decide (q = p) then 1 else 0.

Definition leaves (x : xid) (g : lg) (prev : tid) : Prop :=
  held g = {[prev := left_by x true]} ∧ joined g = ∅ ∧ futs g = FNone ∧ wakes g = None ∧ isY prev = true.
Definition ends (x : xid) (g : lg) (prev : tid) : Prop :=
  held g = {[prev := left_by x false]} ∧ joined g = {[prev := JClosed]} ∧
  futs g = FNone ∧ wakes g = None ∧ owes g = None.

Definition callback_ok (x : xid) (g : lg) (cb : option callback) : Prop :=
  match cb with
  | None => held g = ∅ ∧ idle g
  | Some (cb_yield prev) => leaves x g prev ∧ owes g = None ∧ settled (debt g)
  | Some (cb_suspend prev) => leaves x g prev ∧ owes g = None ∧ settled (debt g)
  | Some (cb_suspend_unlock prev _) => leaves x g prev ∧ owes g = None ∧ settled (debt g)
  | Some (cb_suspend_join prev t) => leaves x g prev ∧ owes g = Some (t, None) ∧ settled (debt g)
  | Some (cb_resume_yield_to prev next) =>
      leaves x g prev ∧ owes g = None ∧ one_more g next ∧ head (stk g) = Some next ∧ prev ≠ next
  | Some (cb_resume_suspend_to prev next) =>
      leaves x g prev ∧ owes g = None ∧ one_more g next ∧ head (stk g) = Some next ∧ prev ≠ next
  | Some (cb_exit prev) => ends x g prev ∧ settled (debt g)
  | Some (cb_resume_exit_to prev next) =>
      ends x g prev ∧ one_more g next ∧ head (stk g) = Some next ∧ prev ≠ next
  end.

Definition refreshed (g : lg) (kp : gmap tid pid) (km : gset tid) (d : pid → Z) : lg :=
  LG (stk g) (cur g) (held g) (joined g) kp km d (owes g) (futs g) (wakes g).

Fixpoint safe (A : gset tid) (x : xid) (g : lg) (p : prog) {struct p} : Prop :=
  match p with
  | User => idle g ∧ held g = ∅ ∧ cur g = head (stk g)
  | Task k =>
      idle g ∧
      (∃ t h, held g = {[t := h]} ∧ hk h = HRun ∧ cur g = Some t ∧ isY t = false) ∧
      ∀ kp km d, settled d → safe A x (refreshed g kp km d) k
  | Next c k => rule A x g c (λ r g', safe A x g' (k r))
  | Switch old new cb k =>
      cur g = Some new ∧
      (∃ g', switched x g old new true g' ∧ callback_ok x g' cb) ∧
      ∀ y rest kp km d, settled d → (rest = [] → old ∈ roots) → safe A y (base (old :: rest) kp km d) k
  | Jump new cb =>
      cur g = Some new ∧ ∃ old g', switched x g old new false g' ∧ callback_ok x g' (Some cb)
  | JoinLoop y self t k =>
      y = x ∧ idle g ∧ held g = ∅ ∧ cur g = Some self ∧ (∃ rest, stk g = self :: rest ∧ rest ≠ []) ∧
      (self ∉ roots) ∧ isY self = true ∧ t ∈ A ∧
      ∀ y rest kp km d, settled d → (rest = [] → self ∈ roots) → safe A y (base (self :: rest) kp km d) k
  | BusyLoop t k => t ∈ A ∧ owes g = None ∧ safe A x g k
  | Crash => False
  end.

(** A context that can be entered on any stream, at any time. *)
Definition saved (A : gset tid) (t : tid) (k : prog) : Prop :=
  ∀ x rest kp km d, settled d → (rest = [] → t ∈ roots) → safe A x (base (t :: rest) kp km d) k.

(** ** More named threads, weaker conclusions *)

Lemma store_state_mono g t h s (Q Q' : lg → Prop) :
  (∀ g', Q g' → Q' g') → store_state g t h s Q → store_state g t h s Q'.
Proof. intros HQ. unfold store_state. destruct s, (hk h); cbn; try done; intuition eauto. Qed.

Lemma rule_mono A A' x g c (Q Q' : ret c → lg → Prop) :
  A ⊆ A' → (∀ r g', Q r g' → Q' r g') → rule A x g c Q → rule A' x g c Q'.
Proof.
  intros HA HQ. assert (∀ t, acc A g t → acc A' g t) as Hacc by (unfold acc; set_solver).
  assert (∀ t, t ∈ A → t ∈ A') by set_solver.
  destruct c; cbn -[ABTI_THREAD_REQ_JOIN ABTI_THREAD_REQ_CANCEL ABTI_THREAD_REQ_MIGRATE]; try naive_solver.
  - intros (h & Hh & Hs). exists h. split; [done|]. eapply store_state_mono; [|exact Hs]. auto.
  - intros (h & H1 & H2 & H3 & H4 & H5 & Hw). exists h. do 5 (split; [done|]).
    intros p Hp. specialize (Hw p Hp). destruct why; naive_solver.
  - destruct j; naive_solver.
Qed.

Lemma safe_mono A A' x g p : A ⊆ A' → safe A x g p → safe A' x g p.
Proof.
  intros HA. revert x g. induction p as [|k IH|c k IH|old new cb k IH|new cb|y self t k IH|t k IH|];
    intros x g; cbn -[rule]; try done.
  - intros (? & ? & ?). split_and!; eauto.
  - apply rule_mono; eauto.
  - intros (? & ? & ?). split_and!; eauto.
  - intros (? & ? & ? & ? & ? & ? & ? & ? & ?). split_and!; eauto.
  - intros (? & ? & ?). split_and!; eauto.
Qed.

Lemma saved_mono A A' t k : A ⊆ A' → saved A t k → saved A' t k.
Proof. intros HA H x rest kp km d Hd Hr. eapply safe_mono, H; done. Qed.

End logic.
