(* ===== verification/UltSafe.v ===== *)
(** * The programs of user-level threads keep the rules

    For every function of [Ult] what it needs and leaves, by the rules of [UltLogic]; last, that
    every legal call is safe and so is every callback. *)

From stdpp Require Import functions base tactics decidable option list numbers gmap fin_maps sets.
From Stdlib Require Import ZArith Lia.
From S2P Require Import Prelude Abt Thread Ult UltLogic.
Open Scope Z_scope.

(** ** Records *)

Lemma drop_keep t h g : drop t (keep t h g) = drop t g.
Proof. unfold drop, keep, set_held, set_joined, set_kpool. cbn. by rewrite delete_insert_eq. Qed.
Lemma drop_learn t p g : drop t (learn t p g) = drop t g.
Proof. unfold drop, learn, set_held, set_joined, set_kpool. cbn. by rewrite delete_insert_eq. Qed.
Lemma drop_close t g : drop t (close t g) = drop t g.
Proof. unfold drop, close, set_held, set_joined, set_kpool. cbn. by rewrite delete_insert_eq. Qed.
Lemma keep_keep t h h' g : keep t h (keep t h' g) = keep t h g.
Proof. unfold keep, set_held. cbn. by rewrite insert_insert_eq. Qed.

Lemma drop_set_debt t d g : drop t (set_debt d g) = set_debt d (drop t g).
Proof. done. Qed.

Lemma drop_new a h g d :
  (¬ owned g a) → kpool g !! a = None → joined g !! a = None →
  drop a (set_debt d (keep a h g)) = set_debt d g.
Proof.
  intros Ho Hk Hj. assert (held g !! a = None).
  { apply eq_None_not_Some. intros ?. apply Ho. by right. }
  destruct g. unfold drop, keep, set_held, set_joined, set_kpool, set_debt. cbn in *.
  by rewrite delete_insert_id, !delete_id.
Qed.

Lemma bump_bump p n m d q : bump p n (bump p m d) q = bump p (n + m) d q.
Proof. unfold bump. case_decide; lia. Qed.
Lemma bump_0 p d q : bump p 0 d q = d q.
Proof. unfold bump. case_decide; lia. Qed.

Lemma owned_keep t h g u : owned (keep t h g) u ↔ owned g u ∨ u = t.
Proof.
  unfold owned, keep. cbn. destruct (decide (u = t)) as [->|Hne].
  - rewrite lookup_insert_eq. split; [by right|]. right. eauto.
  - rewrite lookup_insert_ne by done. naive_solver.
Qed.
Lemma owned_held g t h : held g !! t = Some h → owned g t.
Proof. intros H. right. eauto. Qed.
Lemma owned_stk g t : t ∈ stk g → owned g t.
Proof. by left. Qed.
Create HintDb ult.
#[export] Hint Resolve owned_held owned_stk : ult.

Ltac prog :=
  unfold mbind, M_bind, mret, M_ret, do, deref, assert_blocked, ABTI_pool_inc_num_blocked,
    ABTI_pool_dec_num_blocked in *;
  cbn [safe rule] in *.

Section safe.
Context (migration : bool) (ttype : tid → Z) (roots : gset tid).

Abbreviation isY t := (yieldable (ttype t)) (only parsing).
Abbreviation safe := (safe migration ttype roots).
Abbreviation saved := (saved migration ttype roots).
Abbreviation settled := (settled migration).

Implicit Types (A : gset tid) (x y : xid) (g : lg) (t u : tid).

Definition go (h : hold) : Prop := hk h = HReady ∨ hk h = HRun.

Lemma store_ready g t h Q :
  go h → Q (keep t (set_kind HReady h) g) → store_state ttype g t h ABT_THREAD_STATE_READY Q.
Proof. unfold store_state. by intros [-> | ->]. Qed.
Lemma store_running g t h Q :
  go h → Q (keep t (set_kind HRun h) g) → store_state ttype g t h ABT_THREAD_STATE_RUNNING Q.
Proof. unfold store_state. by intros [-> | ->]. Qed.
Lemma store_terminated g t h (Q : lg → Prop) :
  go h → (isY t = true → joined g !! t = Some JClosed) →
  Q (if named ttype t then drop t g else keep t (set_kind HDead h) g) →
  store_state ttype g t h ABT_THREAD_STATE_TERMINATED Q.
Proof. unfold store_state. by intros [-> | ->]. Qed.

Lemma add_thread_safe A x g t h k :
  held g !! t = Some h → go h → hctx h = true → joined g !! t = None →
  safe A x (drop t g) (k ()) → safe A x g (ABTI_pool_add_thread t k).
Proof.
  intros Hh Hk Hc Hj HQ. unfold ABTI_pool_add_thread. prog.
  exists h. split; [done|]. apply store_ready; [done|].
  split; [apply owned_keep; auto|]. intros p _.
  exists (set_kind HReady h). cbn. rewrite !lookup_insert_eq.
  do 5 (split; [done|]). by rewrite drop_learn, drop_keep.
Qed.

Lemma resume_and_push_safe A x g t h k :
  held g !! t = Some h → hk h = HClaim → hctx h = true → joined g !! t = None →
  (∀ d, (∀ q, d q = debt g q) → safe A x (drop t (set_debt d g)) (k ())) →
  safe A x g (ABTI_ythread_resume_and_push t k).
Proof.
  intros Hh Hk Hc Hj HQ. unfold ABTI_ythread_resume_and_push, ABTI_pool_add_thread. prog.
  split; [right; eauto with ult|]. intros s Hs. rewrite (Hs h) by done.
  rewrite bool_decide_true by done. split; [done|].
  split; [eauto with ult|]. intros p _.
  exists h. split; [done|]. unfold store_state. rewrite Hk. intros p' Hp'.
  assert (p' = p) as -> by (apply Hp'; cbn; by rewrite lookup_insert_eq).
  split; [apply owned_keep; auto|]. intros p'' Hp''.
  assert (p'' = p) as -> by (apply Hp''; cbn; by rewrite lookup_insert_eq).
  exists (set_kind HReady h). cbn. rewrite !lookup_insert_eq. do 5 (split; [done|]).
  rewrite drop_learn, drop_keep, drop_learn, drop_set_debt, drop_learn.
  apply (HQ (bump p (-1) (bump p 1 (debt g)))). intros q. by rewrite bump_bump, bump_0.
Qed.

Definition free_to_end (g : lg) (t : tid) : Prop :=
  joined g !! t = None ∧ wakes g = None ∧ owes g = None.

Lemma get_joiner_safe A x g t k :
  alive g t → isY t = true → free_to_end g t →
  safe A x (close t g) (k None) →
  (∀ j, joiner_new ttype g j → safe A x (take_joiner t j g) (k (Some j))) →
  safe A x g (ABTI_ythread_atomic_get_joiner t k).
Proof.
  intros Ho HY (Hj & Hw & Howe) HN HS. unfold ABTI_ythread_atomic_get_joiner. prog.
  split_and!; [done..| |done].
  left. split_and!; [done|done|by apply alive_owned|done|]. intros v. destruct (has v ABTI_THREAD_REQ_JOIN); [|done].
  cbn [negb]. prog. split_and!; [done| done | cbn; by rewrite lookup_insert_eq | done.. |].
  intros j Hn.
  assert (take_joiner t j (set_joined (<[t := JSeen]> (joined g)) g) = take_joiner t j g) as ->.
  { unfold take_joiner, close, keep, set_joined, set_held, set_wakes.
    destruct j; cbn; by rewrite insert_insert_eq. }
  apply HS. destruct j as [a|]; [|done]. destruct Hn as (H1 & H2 & H3 & H4). cbn in *.
  split_and!; [done..| |done]. destruct (decide (a = t)) as [->|].
  - by rewrite lookup_insert_eq in H3.
  - by rewrite lookup_insert_ne in H3.
Qed.

Lemma take_joiner_resume_safe A x g t j k :
  owned g t → wakes g = None → joiner_new ttype g j →
  (∀ d, (∀ q, d q = debt g q) → safe A x (set_debt d (close t g)) (k ())) →
  safe A x (take_joiner t j g)
    (match j with JExt e => do (FutexWake e) k | JUlt a => ABTI_ythread_resume_and_push a k end).
Proof.
  intros Ho Hw Hn HQ. destruct j as [a|e]; cbn [take_joiner].
  - destruct Hn as (H1 & H2 & H3 & _).
    assert (a ≠ t) by (intros ->; done).
    assert (joined (close t g) !! a = None) as Hj by (cbn; by rewrite lookup_insert_ne).
    eapply resume_and_push_safe; [cbn; by rewrite lookup_insert_eq|done..|].
    intros d Hd. rewrite drop_new; [by apply HQ|done..].
  - prog. split; [done|].
    specialize (HQ (debt g) (λ _, eq_refl)).
    destruct g. unfold set_wakes, close, set_joined, set_debt in *. cbn in *. by subst.
Qed.

Lemma resume_joiner_safe A x g t k :
  alive g t → isY t = true → free_to_end g t →
  (∀ d, (∀ q, d q = debt g q) → safe A x (set_debt d (close t g)) (k ())) →
  safe A x g (ABTI_ythread_resume_joiner t k).
Proof.
  intros Ho HY Hf HQ. unfold ABTI_ythread_resume_joiner. unfold mbind at 1, M_bind at 1.
  apply get_joiner_safe; [done..| |].
  - specialize (HQ (debt g) (λ _, eq_refl)). by destruct g.
  - intros j Hn. pose proof (take_joiner_resume_safe A x g t j k (alive_owned _ _ Ho) (proj1 (proj2 Hf)) Hn HQ).
    by destruct j.
Qed.

(** Whether a thread has its stack does not matter: it gets one. *)
Lemma ensure_stack_safe A x g t k : acc A g t → safe A x g (k ()) → safe A x g (ensure_stack t k).
Proof.
  intros Ha HQ. unfold ensure_stack. prog. split; [done|]. intros [|] Hb; [done|]. prog. split_and!; auto.
Qed.

Lemma free_stack_safe A x (y : option xid) g t k :
  acc A g t → safe A x g (k ()) →
  safe A x g
    ((if lazy_stack (ttype t) then
        has_stack ← do (HasStack t);
        if (has_stack : bool) then do (FreeStack y t) else mret ()
      else mret ()) k).
Proof.
  intros Ha HQ. destruct (lazy_stack (ttype t)) eqn:El; [|done]. prog. split; [done|]. intros [|] _; prog; [|done].
  split_and!; done.
Qed.

Lemma terminate_safe A x (y : option xid) g t h k :
  held g !! t = Some h → go h → (isY t = true → joined g !! t = Some JClosed) →
  (named ttype t = false → y = Some x) →
  safe A x (drop t g) (k ()) → safe A x g (ABTI_thread_terminate y t k).
Proof.
  intros Hh Hk Hj Hy HQ. unfold ABTI_thread_terminate. unfold mbind at 1, M_bind at 1, do at 1. cbn [safe rule].
  split; [right; eauto with ult|]. unfold mbind at 1, M_bind at 1.
  apply (free_stack_safe A x y g t); [right; eauto with ult|]. fold (named ttype t).
  destruct (named ttype t) eqn:En; cbn [negb]; prog; (exists h; split; [done|]);
    (apply store_terminated; [done..|]); rewrite En; [done|].
  split; [auto|]. split; [done|]. exists (set_kind HDead h).
  cbn. rewrite lookup_insert_eq. do 2 (split; [done|]). by rewrite drop_keep.
Qed.

Lemma handle_cancel_safe A x (y : option xid) g t h k :
  held g !! t = Some h → go h → free_to_end g t → (named ttype t = false → y = Some x) →
  (∀ d, (∀ q, d q = debt g q) → safe A x (set_debt d (drop t g)) (k ())) →
  safe A x g (ABTI_thread_handle_request_cancel y t k).
Proof.
  intros Hh Hk Hf Hy HQ. unfold ABTI_thread_handle_request_cancel. prog.
  split; [right; eauto with ult|]. destruct (isY t) eqn:HY.
  - apply resume_joiner_safe; [right; eauto|done..|]. intros d Hd.
    eapply terminate_safe; [done..| | done |].
    + intros _. cbn. by rewrite lookup_insert_eq.
    + rewrite drop_set_debt, drop_close. by apply HQ.
  - eapply terminate_safe; [done..| congruence | done |].
    specialize (HQ (debt g) (λ _, eq_refl)). by destruct g.
Qed.

(** The request of a thread in hand is handled: it is cancelled, nothing happens, or it
    changes its pool. *)
Lemma handle_request_safe A x g t h (allow : bool) k :
  held g !! t = Some h → go h → (allow = true → free_to_end g t) →
  (∀ km d, allow = true → (∀ q, d q = debt g q) →
           safe A x (set_kmig km (set_debt d (drop t g))) (k ABTI_THREAD_HANDLE_REQUEST_CANCELLED)) →
  (∀ km, safe A x (set_kmig km g) (k ABTI_THREAD_HANDLE_REQUEST_NONE)) →
  (∀ km p, migration = true →
           safe A x (set_kmig km (learn t p g)) (k ABTI_THREAD_HANDLE_REQUEST_MIGRATED)) →
  safe A x g (ABTI_thread_handle_request migration t allow k).
Proof.
  intros Hh Hk Hf HC HN HM. unfold ABTI_thread_handle_request. prog.
  split; [right; eauto with ult|]. intros v Hv.
  assert (∃ km, (if has v ABTI_THREAD_REQ_MIGRATE then set_kmig ({[t]} ∪ kmig g) g else g) = set_kmig km g ∧
                (has v ABTI_THREAD_REQ_MIGRATE = true → t ∈ km)) as (km & -> & Hkm).
  { destruct (has v ABTI_THREAD_REQ_MIGRATE); [exists ({[t]} ∪ kmig g); set_solver|].
    exists (kmig g). split; [by destruct g|done]. }
  destruct (allow && has v ABTI_THREAD_REQ_CANCEL) eqn:Ea.
  - apply andb_true_iff in Ea as [-> Hc]. prog. right. exists h. split; [done|]. intros last _.
    eapply handle_cancel_safe; [done..| by apply Hf | |].
    + intros En. rewrite (Hv En) in Hc. done.
    + intros d Hd. by apply (HC km d).
  - clear Hv. destruct (migration && has v ABTI_THREAD_REQ_MIGRATE) eqn:Em; [|by apply HN].
    apply andb_true_iff in Em as [-> Hm].
    unfold ABTI_thread_handle_request_migrate, ABTI_thread_set_associated_pool, ABTI_thread_unset_request. prog.
    split; [right; eauto with ult|]. intros [p|] Hp; [|by destruct Hp; auto].
    prog. exists h. split; [done|]. split; [by destruct Hk; congruence|].
    do 2 (split; [eauto with ult|]). by apply (HM km p).
Qed.

(** ** Callbacks *)

(** The stream has only [prev] in hand, and gives it up. *)
Lemma drop_last x g prev c km d :
  held g = {[prev := left_by x c]} → joined g = ∅ ∨ joined g = {[prev := JClosed]} →
  cur g = head (stk g) → futs g = FNone → wakes g = None → owes g = None →
  set_kmig km (set_debt d (drop prev g)) = base (stk g) (delete prev (kpool g)) km d.
Proof.
  destruct g as [s c' h j kp km' d' o f w]. cbn. intros -> Hj -> -> -> ->.
  unfold base, drop, set_kmig, set_debt, set_held, set_joined, set_kpool. cbn.
  rewrite delete_singleton_eq.
  destruct Hj as [-> | ->]; by rewrite ?delete_empty, ?delete_singleton_eq.
Qed.

Lemma settled_eq d d' : (∀ q, d q = d' q) → settled d' → settled d.
Proof. intros E H Hm p. by rewrite E, H. Qed.

Lemma held_one x g prev c : held g = {[prev := left_by x c]} → held g !! prev = Some (left_by x c).
Proof. intros ->. by rewrite lookup_singleton_eq. Qed.

Lemma go_left x c : go (left_by x c).
Proof. by right. Qed.

Section callbacks.
Context (A : gset tid) (x : xid) (g : lg) (kc : prog).
Hypothesis Hcur : cur g = head (stk g).
Hypothesis Hkc : ∀ kp km d, settled d → safe A x (base (stk g) kp km d) kc.

(** A yield: back to the pool, or cancelled. *)
Lemma yield_impl_safe prev k :
  leaves ttype x g prev → owes g = None →
  (∀ kp km d, (∀ q, d q = debt g q) → (∀ u, u ≠ prev → kp !! u = kpool g !! u) →
              safe A x (base (stk g) kp km d) (k ())) →
  safe A x g
    (ABTI_thread_handle_request migration prev true
       (λ r, (if has r ABTI_THREAD_HANDLE_REQUEST_CANCELLED then mret () else ABTI_pool_add_thread prev) k)).
Proof.
  intros (Hh & Hj & Hfu & Hw & HY) Ho Hk. pose proof (held_one _ _ _ _ Hh) as Hh1.
  assert (∀ u, u ≠ prev → delete prev (kpool g) !! u = kpool g !! u) as Hd.
  { intros u ?. by rewrite lookup_delete_ne. }
  eapply handle_request_safe; [done|apply go_left| | | |].
  - intros _. split_and!; [by rewrite Hj|done..].
  - intros km d _ Hd'. cbn. rewrite (drop_last x _ _ true) by eauto. by apply Hk.
  - intros km. cbn. eapply add_thread_safe; [done|apply go_left|done|by cbn; rewrite Hj|].
    change (drop prev (set_kmig km g)) with (set_kmig km (set_debt (debt g) (drop prev g))).
    rewrite (drop_last x _ _ true) by eauto. by apply Hk.
  - intros km p _. cbn. eapply add_thread_safe; [done|apply go_left|done|by cbn; rewrite Hj|].
    change (drop prev (set_kmig km (learn prev p g))) with (set_kmig km (set_debt (debt g) (drop prev (learn prev p g)))).
    rewrite drop_learn, (drop_last x _ _ true) by eauto. by apply Hk.
Qed.

(** [p_prev] goes to sleep; its pool [p] has been charged before. *)
Lemma block_prev_safe g' prev p why o k :
  stk g' = stk g → cur g' = cur g → leaves ttype x g' prev → kpool g' !! prev = Some p →
  match why with
  | ForResume => owes g' = None ∧ o = None
  | ForEnd u => owes g' = Some (u, None) ∧ o = Some (u, Some prev)
  | ForResumer => False
  end →
  (∀ kp km d, (migration = false → ∀ q, d q = bump p (-1) (debt g') q) →
              safe A x (set_owes o (base (stk g) kp km d)) (k ())) →
  safe A x g' (block_prev migration prev why k).
Proof.
  intros Es Ec (Hh & Hj & Hfu & Hw & HY) Hp Ho Hk. pose proof (held_one _ _ _ _ Hh) as Hh1.
  unfold block_prev. unfold mbind, M_bind.
  assert (∀ km kp d, (migration = false → ∀ q, d q = bump p (-1) (debt g') q) →
    ∀ g1, stk g1 = stk g' → cur g1 = cur g' → held g1 = delete prev (held g') → joined g1 = joined g' →
    futs g1 = futs g' → wakes g1 = wakes g' → kpool g1 = kp → kmig g1 = km → debt g1 = d → owes g1 = o →
    safe A x g1 (k ())) as Hend.
  { intros km kp d Hd [] ? ? Hh' ? ? ? ? ? ? ?. cbn in *. subst.
    rewrite Hh, delete_singleton_eq, Hj, Hfu, Hw, Es, Ec, Hcur. by apply (Hk kp km d). }
  assert (∀ km kp, (migration = false → kp !! prev = Some p) →
    safe A x (set_kmig km (set_kpool kp g')) (do (StoreBlocked prev why) k)) as Hstore.
  { intros km kp Hkp. prog. exists (left_by x true). cbn. rewrite Hj. do 5 (split; [done|]).
    intros p' Hp'. destruct why as [| |u]; [|done|]; destruct Ho as [Ho ->].
    all: rewrite Ho, ?Hfu; (split; [done|]); try (split; [done|]).
    all: eapply (Hend km (delete prev kp) (bump p' (-1) (debt g'))); cbn; rewrite ?Hj, ?delete_empty, ?Ho; try done.
    all: intros Hm; rewrite (Hp' p) by (cbn; auto); done. }
  eapply handle_request_safe; [done|apply go_left|done|done| |].
  - intros km. specialize (Hstore km (kpool g') (λ _, Hp)). by destruct g'.
  - intros km p' Hm. apply (Hstore km (<[prev := p']> (kpool g'))). by rewrite Hm.
Qed.

Lemma leaves_learn g' prev t p : leaves ttype x (learn t p g') prev ↔ leaves ttype x g' prev.
Proof. done. Qed.
Lemma leaves_debt g' prev d : leaves ttype x (set_debt d g') prev ↔ leaves ttype x g' prev.
Proof. done. Qed.

Lemma callback_suspend_safe prev why o k :
  leaves ttype x g prev → settled (debt g) →
  match why with
  | ForResume => owes g = None ∧ o = None
  | ForEnd u => owes g = Some (u, None) ∧ o = Some (u, Some prev)
  | ForResumer => False
  end →
  (∀ kp km d, settled d → safe A x (set_owes o (base (stk g) kp km d)) (k ())) →
  safe A x g (Next (LoadPool prev) (λ p, Next (IncBlocked p) (λ _, block_prev migration prev why k))).
Proof.
  intros Hl Hd Ho Hk. prog. pose proof Hl as (Hh & _). split; [right; rewrite Hh, lookup_singleton_eq; eauto|].
  intros p _. eapply (block_prev_safe _ prev p); [done|done|by apply leaves_debt| |done|].
  - cbn. by rewrite lookup_insert_eq.
  - intros kp km d Hd'. apply Hk. intros Hm q. rewrite Hd' by done. cbn.
    rewrite bump_bump. replace (-1 + 1) with 0 by done. rewrite bump_0. by apply Hd.
Qed.

Lemma exit_safe prev k :
  ends x g prev →
  (∀ kp km, (∀ u, u ≠ prev → kp !! u = kpool g !! u) → safe A x (base (stk g) kp km (debt g)) (k ())) →
  safe A x g (Next (LoadLast prev) (λ last, ABTI_thread_terminate last prev k)).
Proof.
  intros (Hh & Hj & Hfu & Hw & Ho) Hk. pose proof (held_one _ _ _ _ Hh) as Hh1. prog.
  right. eexists. split; [done|]. intros v Hv. eapply terminate_safe; [done|apply go_left| | |].
  - intros _. rewrite Hj. by rewrite lookup_singleton_eq.
  - intros _. by apply Hv.
  - assert (drop prev g = set_kmig (kmig g) (set_debt (debt g) (drop prev g))) as -> by (by destruct g).
    rewrite (drop_last x _ _ false) by eauto. apply Hk. intros u ?. by rewrite lookup_delete_ne.
Qed.

(** The counter of the pool of a thread that was resumed is put right. *)
Lemma dec_next_safe next kp km d k :
  (migration = false → ∃ p, kp !! next = Some p ∧ ∀ q, d q = if decide (q = p) then 1 else 0) →
  head (stk g) = Some next →
  (∀ kp km d, settled d → safe A x (base (stk g) kp km d) (k ())) →
  safe A x (base (stk g) kp km d) (Next (LoadPool next) (λ p, Next (DecBlocked p) k)).
Proof.
  intros Hd Hn Hk. prog. split.
  { left. cbn. destruct (stk g); [done|]. injection Hn as ->. by left. }
  intros p Hp. specialize (Hk (<[next := p]> kp) km (bump p (-1) d)). unfold learn, set_debt, set_kpool, base in *.
  cbn in *. apply Hk. intros Hm q. destruct (Hd Hm) as (p0 & H0 & H1).
  rewrite (Hp p0) by done. unfold bump. rewrite H1. case_decide; lia.
Qed.

Lemma callback_safe cb :
  callback_ok migration ttype x g (Some cb) → safe A x g (run_callback migration cb (λ _, kc)).
Proof.
  destruct cb as [prev|prev next|prev|prev next|prev|prev next|prev l|prev t]; cbn [run_callback callback_ok].
  - intros (Hl & Ho & Hd). unfold ythread_callback_yield_impl. unfold mbind, M_bind.
    eapply yield_impl_safe; [done..|]. intros kp km d Hd' _. apply Hkc. by eapply settled_eq.
  - intros (Hl & Ho & H1 & Hn & Hne). unfold ABTI_ythread_callback_resume_yield_to. unfold mbind, M_bind.
    eapply (yield_impl_safe _ (λ _, _)); [done..|]. intros kp km d Hd Hkp.
    apply dec_next_safe; [|done|auto]. intros Hm. destruct (H1 Hm) as (p & Hp & Hq).
    exists p. rewrite Hkp by done. split; [done|]. intros q. by rewrite Hd.
  - intros (Hl & Ho & Hd). unfold ABTI_ythread_callback_suspend. prog.
    apply (callback_suspend_safe _ _ None); [done..|]. auto.
  - intros (Hl & Ho & H1 & Hn & Hne). unfold ABTI_ythread_callback_resume_suspend_to. unfold mbind, M_bind, do.
    pose proof Hl as (Hh & _). cbn [safe rule].
    split; [right; rewrite Hh, lookup_singleton_eq; eauto|]. intros p _.
    split; [left; cbn; destruct (stk g); [done|]; injection Hn as ->; by left|]. intros p' Hp'.
    assert (∀ d, (migration = false → ∀ q, d q = if decide (q = p) then 1 else 0) →
      safe A x (set_debt d (learn next p' (learn prev p g))) (block_prev migration prev ForResume (λ _, kc))) as Hb.
    { intros d Hd. eapply (block_prev_safe _ prev p _ None); [done|done|done| |done|].
      - cbn. rewrite lookup_insert_ne by done. by rewrite lookup_insert_eq.
      - intros kp km d' Hd'. apply Hkc. intros Hm q. rewrite Hd' by done. cbn. unfold bump.
        rewrite Hd by done. case_decide; lia. }
    assert (migration = false → ∀ q, debt g q = if decide (q = p') then 1 else 0) as Hq.
    { intros Hm q. destruct (H1 Hm) as (p0 & H0 & Hq). assert (p' = p0) as ->; [|apply Hq].
      apply Hp'. cbn. by rewrite lookup_insert_ne. }
    case_bool_decide as Epp.
    + unfold ABTI_pool_inc_num_blocked, ABTI_pool_dec_num_blocked, do. cbn [safe rule].
      apply Hb. intros Hm q. cbn. unfold bump. rewrite Hq by done. repeat case_decide; subst; lia.
    + subst p'. specialize (Hb (debt g) Hq). by destruct g.
  - intros (He & Hd). unfold ABTI_ythread_callback_exit. unfold mbind, M_bind, do.
    apply exit_safe; [done|]. auto.
  - intros (He & H1 & Hn & Hne). unfold ABTI_ythread_callback_resume_exit_to. unfold mbind, M_bind, do.
    apply exit_safe; [done|]. intros kp km Hkp. apply dec_next_safe; [|done|auto].
    intros Hm. destruct (H1 Hm) as (p & Hp & Hq). exists p. by rewrite Hkp.
  - intros (Hl & Ho & Hd). unfold ABTI_ythread_callback_suspend_unlock. prog.
    apply (callback_suspend_safe _ _ None); [done..|]. intros kp km d ?. prog. by apply (Hkc kp km d).
  - intros (Hl & Ho & Hd). unfold ABTI_ythread_callback_suspend_join. prog.
    apply (callback_suspend_safe _ _ (Some (t, Some prev))); [done..|].
    intros kp km d ?. prog. split; [done|]. apply (Hkc kp km d). done.
Qed.

End callbacks.

(** ** Switches *)

Definition anywhere A (self : tid) (k : xid → prog) : Prop :=
  ∀ y rest kp km d, settled d → (rest = [] → self ∈ roots) →
                    safe A y (base (self :: rest) kp km d) (k y).

Lemma anywhere_last A self k :
  anywhere A self k →
  ∀ y rest kp km d, settled d → (rest = [] → self ∈ roots) →
    safe A y (base (self :: rest) kp km d)
      (Next (LoadLast self) (λ last, match last with Some a => k a | None => Crash end)).
Proof. intros Ha y rest kp km d Hd Hr. prog. left. split; [by left|]. by apply Ha. Qed.

Definition gone_to_parent x ctx self par rest g : lg :=
  set_stk (par :: rest) (keep self (left_by x ctx) (set_cur (Some par) g)).
Definition gone_to_sibling x ctx self new rest g : lg :=
  set_stk (new :: rest) (set_held (<[self := left_by x ctx]> (delete new (held g))) (set_cur (Some new) g)).

Lemma switch_to_parent_safe A x g self par rest cb k :
  stk g = self :: par :: rest →
  callback_ok migration ttype x (gone_to_parent x true self par rest g) (Some cb) →
  anywhere A self k →
  safe A x g (ABTI_ythread_switch_to_parent_internal x self cb k).
Proof.
  intros Hs Hcb Ha. unfold ABTI_ythread_switch_to_parent_internal, ABTI_ythread_context_switch, switch.
  unfold mbind, M_bind, do, deref. cbn [safe rule]. rewrite Hs. split; [done|]. cbn [tail head].
  cbn [safe rule]. split; [done|]. split; [left; rewrite Hs; set_solver|].
  left. split; [cbn; rewrite Hs; set_solver|]. rewrite bool_decide_true by done. split; [done|].
  apply ensure_stack_safe; [right; left; cbn; rewrite Hs; set_solver|].
  split; [done|]. split; [|by apply anywhere_last].
  eexists. split; [|exact Hcb]. by eapply to_parent.
Qed.

Lemma jump_to_parent_safe A x g self par rest cb (B : Type) (k : B → prog) :
  stk g = self :: par :: rest →
  callback_ok migration ttype x (gone_to_parent x false self par rest g) (Some cb) →
  safe A x g (ABTI_ythread_jump_to_parent_internal x self cb k).
Proof.
  intros Hs Hcb. unfold ABTI_ythread_jump_to_parent_internal, ABTI_ythread_context_jump_with_call, jump.
  unfold mbind, M_bind, do, deref. cbn [safe rule]. rewrite Hs. split; [done|]. cbn [tail head].
  cbn [safe rule]. split; [done|]. split; [left; rewrite Hs; set_solver|].
  left. split; [cbn; rewrite Hs; set_solver|]. rewrite bool_decide_true by done. split; [done|].
  apply ensure_stack_safe; [right; left; cbn; rewrite Hs; set_solver|].
  split; [done|]. exists self. eexists. split; [|exact Hcb]. by eapply to_parent.
Qed.

Definition can_enter g new h : Prop :=
  held g !! new = Some h ∧ go h ∧ hctx h = true ∧ isY new = true ∧ joined g !! new = None.

Lemma sibling_safe x g self new rest h ctx :
  stk g = self :: rest → rest ≠ [] → can_enter g new h →
  switched ttype x
    (keep new (Hold (hk h) (hctx h) (Some (head rest)) (Some (Some x)))
       (set_cur (Some new) (keep new (Hold (hk h) (hctx h) (Some (head rest)) (hlast h)) g)))
    self new ctx (gone_to_sibling x ctx self new rest g).
Proof.
  intros Hs Hr (Hh & Hgo & Hc & HY & Hj).
  set (g' := keep new _ _).
  assert (gone_to_sibling x ctx self new rest g =
          set_stk (new :: rest) (set_held (<[self := left_by x ctx]> (delete new (held g'))) g')) as ->.
  { unfold g', gone_to_sibling, keep, set_stk, set_held, set_cur. cbn. by rewrite !delete_insert_eq. }
  apply (to_sibling ttype x g' self new ctx rest (Hold (hk h) (hctx h) (Some (head rest)) (Some (Some x))));
    subst g'; cbn; by rewrite ?lookup_insert_eq.
Qed.

Lemma switch_to_sibling_safe A x g self new rest h cb k :
  stk g = self :: rest → rest ≠ [] → can_enter g new h →
  callback_ok migration ttype x (gone_to_sibling x true self new rest g) (Some cb) →
  anywhere A self k →
  safe A x g (ABTI_ythread_switch_to_sibling_internal x self new cb k).
Proof.
  intros Hs Hr He Hcb Ha. unfold ABTI_ythread_switch_to_sibling_internal, ABTI_ythread_context_switch, switch. prog.
  rewrite Hs. split; [done|]. destruct He as (Hh & He). exists h. split; [done|].
  split; [done|]. split; [apply owned_keep; auto|].
  eexists. split; [cbn; by rewrite lookup_insert_eq|]. apply ensure_stack_safe; [right; apply owned_keep; auto|]. split; [done|].
  split; [|by apply anywhere_last]. eexists. split; [|exact Hcb].
  by apply (sibling_safe _ _ _ _ _ _ true Hs Hr (conj Hh He)).
Qed.

Lemma jump_to_sibling_safe A x g self new rest h cb (B : Type) (k : B → prog) :
  stk g = self :: rest → rest ≠ [] → can_enter g new h →
  callback_ok migration ttype x (gone_to_sibling x false self new rest g) (Some cb) →
  safe A x g (ABTI_ythread_jump_to_sibling_internal x self new cb k).
Proof.
  intros Hs Hr He Hcb. unfold ABTI_ythread_jump_to_sibling_internal, ABTI_ythread_context_jump_with_call, jump. prog.
  rewrite Hs. split; [done|]. destruct He as (Hh & He). exists h. split; [done|].
  split; [done|]. split; [apply owned_keep; auto|].
  eexists. split; [cbn; by rewrite lookup_insert_eq|]. apply ensure_stack_safe; [right; apply owned_keep; auto|]. split; [done|].
  exists self. eexists. split; [|exact Hcb].
  by apply (sibling_safe _ _ _ _ _ _ false Hs Hr (conj Hh He)).
Qed.

(** ** Yield, suspend, exit

    A user-level thread [self] calls, with nothing in hand, or with a thread [t]. *)

Definition running g self rest : Prop :=
  stk g = self :: rest ∧ cur g = Some self ∧ joined g = ∅ ∧ owes g = None ∧ futs g = FNone ∧ wakes g = None.

Lemma parent_leaves x g self par rest :
  running g self (par :: rest) → held g = ∅ → isY self = true →
  leaves ttype x (gone_to_parent x true self par rest g) self.
Proof. intros (_ & _ & Hj & Ho & Hf & Hw) Hh HY. unfold leaves. cbn. by rewrite Hh, insert_empty. Qed.

Lemma sibling_leaves x g self new h rest :
  running g self rest → held g = {[new := h]} → isY self = true →
  leaves ttype x (gone_to_sibling x true self new rest g) self.
Proof.
  intros (_ & _ & Hj & Ho & Hf & Hw) Hh HY. unfold leaves. cbn.
  by rewrite Hh, delete_singleton_eq, insert_empty.
Qed.

Lemma leave_to_parent_safe A x g self rest cb k :
  running g self rest → rest ≠ [] → held g = ∅ → settled (debt g) → isY self = true →
  cb = cb_yield self ∨ cb = cb_suspend self ∨ (∃ l, cb = cb_suspend_unlock self l) →
  anywhere A self k →
  safe A x g (ABTI_ythread_switch_to_parent_internal x self cb k).
Proof.
  intros Hr Hne Hh Hd HY Hcb Ha. destruct rest as [|par rest]; [done|].
  pose proof (parent_leaves x g self par rest Hr Hh HY) as Hl. destruct Hr as (Hs & _ & _ & Ho & _).
  eapply switch_to_parent_safe; [done| |done].
  destruct Hcb as [-> | [-> | (l & ->)]]; cbn [callback_ok]; done.
Qed.

Lemma suspend_join_safe A x g self t rest k :
  stk g = self :: rest → cur g = Some self → joined g = ∅ → futs g = FNone → wakes g = None → rest ≠ [] →
  held g = ∅ → settled (debt g) → isY self = true → owes g = Some (t, None) →
  anywhere A self k →
  safe A x g (ABTI_ythread_suspend_join x self t k).
Proof.
  intros Hs Hc Hj Hf Hw Hne Hh Hd HY Ho Ha. destruct rest as [|par rest]; [done|].
  eapply switch_to_parent_safe; [done| |done]. cbn [callback_ok]. unfold leaves. cbn.
  by rewrite Hh, insert_empty.
Qed.

Lemma can_enter_one g t h : held g = {[t := h]} → go h → hctx h = true → isY t = true →
  joined g !! t = None → can_enter g t h.
Proof. intros Hh ? ? ? ?. unfold can_enter. by rewrite Hh, lookup_singleton_eq. Qed.

Lemma yield_to_safe A x g self t h rest k :
  running g self rest → rest ≠ [] → held g = {[t := h]} → go h → hctx h = true → isY t = true →
  settled (debt g) → isY self = true → anywhere A self k →
  safe A x g (ABTI_ythread_yield_to x self t k).
Proof.
  intros Hr Hne Hh Hgo Hc HY Hd HYs Ha. unfold ABTI_ythread_yield_to. prog.
  exists h. split; [by rewrite Hh, lookup_singleton_eq|]. apply store_running; [done|].
  assert (held (keep t (set_kind HRun h) g) = {[t := set_kind HRun h]}) as Hh'.
  { cbn. by rewrite Hh, insert_singleton_eq. }
  pose proof (sibling_leaves x (keep t (set_kind HRun h) g) self t (set_kind HRun h) rest Hr Hh' HYs) as Hl.
  pose proof Hr as (Hs & _ & Hj & Ho & _).
  eapply switch_to_sibling_safe; [done|done| | |done].
  - eapply can_enter_one; [exact Hh'|by right|done..|]. cbn. by rewrite Hj.
  - cbn [callback_ok]. done.
Qed.

Lemma suspend_to_safe A x g self t h rest k :
  running g self rest → rest ≠ [] → held g = {[t := h]} → go h → hctx h = true → isY t = true →
  settled (debt g) → isY self = true → anywhere A self k →
  safe A x g (ABTI_ythread_suspend_to x self t k).
Proof.
  intros Hr Hne Hh Hgo Hc HY Hd HYs Ha.
  pose proof (sibling_leaves x g self t h rest Hr Hh HYs) as Hl. pose proof Hr as (Hs & _ & Hj & Ho & _).
  eapply switch_to_sibling_safe; [done|done| | |done].
  - by eapply can_enter_one; [..|rewrite Hj].
  - cbn [callback_ok]. done.
Qed.

(** A thread that waits is claimed, set running, and entered. *)
Lemma resume_to_safe A x g self t rest cb k :
  running g self rest → rest ≠ [] → held g = {[t := claimed]} → kpool g !! t = None → isY t = true →
  settled (debt g) → isY self = true → self ≠ t →
  cb = cb_resume_yield_to self t ∨ cb = cb_resume_suspend_to self t →
  anywhere A self k →
  safe A x g ((assert_blocked t;; do (StoreState t ABT_THREAD_STATE_RUNNING);;
               ABTI_ythread_switch_to_sibling_internal x self t cb) k).
Proof.
  intros Hr Hne Hh Hkp HY Hd HYs Hst Hcb Ha. prog.
  split; [right; right; rewrite Hh, lookup_singleton_eq; eauto|]. intros s Hs. rewrite (Hs claimed); [|by rewrite Hh, lookup_singleton_eq|done].
  rewrite bool_decide_true by done. split; [done|].
  exists claimed. split; [by rewrite Hh, lookup_singleton_eq|]. unfold store_state. cbn [hk claimed]. intros p _.
  set (g' := keep t _ _).
  assert (held g' = {[t := set_kind HRun claimed]}) as Hh' by (cbn; by rewrite Hh, insert_singleton_eq).
  pose proof (sibling_leaves x g' self t _ rest Hr Hh' HYs) as Hl. pose proof Hr as (Hsk & _ & Hj & Ho & _).
  assert (one_more migration (gone_to_sibling x true self t rest g') t) as H1.
  { intros Hm. exists p. cbn. rewrite lookup_insert_eq. split; [done|]. intros q. unfold bump.
    by rewrite Hd. }
  eapply switch_to_sibling_safe; [done|done| | |done].
  - eapply can_enter_one; [exact Hh'|by right|done..|]. cbn. by rewrite Hj.
  - destruct Hcb as [-> | ->]; cbn [callback_ok]; done.
Qed.

Lemma parent_ends x g self par rest d :
  running g self (par :: rest) → held g = ∅ →
  ends x (gone_to_parent x false self par rest (set_debt d (close self g))) self.
Proof.
  intros (_ & _ & Hj & Ho & Hf & Hw) Hh. unfold ends. cbn.
  by rewrite Hh, Hj, !insert_empty.
Qed.

Lemma exit_to_parent_safe A x g self rest d (B : Type) (k : B → prog) :
  running g self rest → rest ≠ [] → held g = ∅ → settled d →
  safe A x (set_debt d (close self g)) (ABTI_ythread_jump_to_parent_internal x self (cb_exit self) k).
Proof.
  intros Hr Hne Hh Hd. destruct rest as [|par rest]; [done|].
  pose proof (parent_ends x g self par rest d Hr Hh). destruct Hr as (Hs & _).
  eapply jump_to_parent_safe; [done|]. by cbn [callback_ok].
Qed.

Lemma thread_exit_safe A x g self rest (B : Type) (k : B → prog) :
  running g self rest → rest ≠ [] → held g = ∅ → settled (debt g) → isY self = true →
  safe A x g (ABTI_ythread_exit x self k).
Proof.
  intros Hr Hne Hh Hd HY. pose proof Hr as (Hs & Hc & Hj & Ho & Hf & Hw).
  assert (owned g self) as Hown by (left; rewrite Hs; by left).
  assert (free_to_end g self) as Hfe by (by split_and!; [rewrite Hj|..]).
  assert (∀ d, (∀ q, d q = debt g q) → safe A x (set_debt d (close self g)) (ABTI_ythread_jump_to_parent_internal x self (cb_exit self) k)) as Hpar.
  { intros d E. eapply exit_to_parent_safe; [done..|]. by eapply settled_eq. }
  unfold ABTI_ythread_exit. unfold mbind, M_bind, mret, M_ret. apply get_joiner_safe; [left; rewrite Hs; by left|done..| |].
  - specialize (Hpar (debt g) (λ _, eq_refl)). by destruct g.
  - intros j Hn. pose proof (take_joiner_resume_safe A x g self j (λ _, ABTI_ythread_jump_to_parent_internal x self (cb_exit self) k) Hown Hw Hn Hpar) as Hpush.
    destruct j as [a|e]; [|done]. destruct Hn as (Hna & Hkp & Hja & HYa).
    cbn [take_joiner]. prog.
    assert (a ≠ self) by (intros ->; done).
    left. split; [cbn; rewrite Hs; by left|]. right. exists claimed. split; [cbn; by rewrite lookup_insert_eq|].
    intros last _. split; [right; by apply owned_keep; left|].
    destruct (_ && _); [|done]. prog.
    split; [apply owned_keep; auto|]. intros p _.
    exists claimed. split; [cbn; by rewrite lookup_insert_eq|]. unfold store_state. cbn [hk claimed]. intros p' Hp'.
    assert (p' = p) as -> by (apply Hp'; cbn; by rewrite lookup_insert_eq).
    eapply jump_to_sibling_safe; [done|done| |].
    + split_and!; [cbn; by rewrite lookup_insert_eq|by right|done|done|cbn; by rewrite lookup_insert_ne].
    + assert (held g !! a = None) as Hha by (apply eq_None_not_Some; intros ?; apply Hna; by right).
      cbn [callback_ok]. split.
      * unfold ends. cbn. rewrite insert_insert_eq, delete_insert_id by done.
        by rewrite Hh, Hj, !insert_empty.
      * intros Hm q. cbn. rewrite bump_bump, bump_0. by apply Hd.
Qed.

Lemma exit_with_safe A x g self t h rest (B : Type) (k : B → prog) :
  running g self rest → rest ≠ [] → held g = {[t := h]} → go h → hctx h = true → isY t = true →
  settled (debt g) → isY self = true → self ≠ t →
  safe A x g (ABTI_ythread_exit_to x self t k).
Proof.
  intros Hr Hne Hh Hgo Hc HY Hd HYs Hst. pose proof Hr as (Hs & Hcu & Hj & Ho & Hf & Hw).
  unfold ABTI_ythread_exit_to. prog. apply resume_joiner_safe; [left; rewrite Hs; by left|done| |].
  { by split_and!; [rewrite Hj|..]. }
  intros d E. prog. exists h. split; [cbn; by rewrite Hh, lookup_singleton_eq|]. apply store_running; [done|].
  eapply jump_to_sibling_safe; [done|done| |].
  - split_and!; [cbn; by rewrite lookup_insert_eq|by right|done|done|].
    cbn. by rewrite Hj, lookup_insert_ne.
  - cbn [callback_ok]. split; [|by eapply settled_eq]. unfold ends. cbn.
    by rewrite Hh, Hj, delete_insert_eq, delete_singleton_eq, !insert_empty.
Qed.

Lemma resume_exit_to_safe A x g self t rest (B : Type) (k : B → prog) :
  running g self rest → rest ≠ [] → held g = {[t := claimed]} → isY t = true →
  settled (debt g) → isY self = true → self ≠ t →
  safe A x g (ABTI_ythread_resume_exit_to x self t k).
Proof.
  intros Hr Hne Hh HY Hd HYs Hst. pose proof Hr as (Hs & Hcu & Hj & Ho & Hf & Hw).
  unfold ABTI_ythread_resume_exit_to. prog.
  split; [right; right; rewrite Hh, lookup_singleton_eq; eauto|].
  intros s Hss. rewrite (Hss claimed); [|by rewrite Hh, lookup_singleton_eq|done].
  rewrite bool_decide_true by done. split; [done|].
  apply resume_joiner_safe; [left; rewrite Hs; by left|done| |].
  { by split_and!; [rewrite Hj|..]. }
  intros d E. prog. exists claimed. split; [cbn; by rewrite Hh, lookup_singleton_eq|].
  unfold store_state. cbn [hk claimed]. intros p _.
  eapply jump_to_sibling_safe; [done|done| |].
  - split_and!; [cbn; by rewrite lookup_insert_eq|by right|done|done|].
    cbn. by rewrite Hj, lookup_insert_ne.
  - cbn [callback_ok]. split_and!; [| |done|done].
    + unfold ends. cbn. by rewrite Hh, Hj, delete_insert_eq, delete_singleton_eq, !insert_empty.
    + intros Hm. exists p. cbn. rewrite lookup_insert_eq. split; [done|]. intros q. unfold bump.
      by rewrite E, Hd.
Qed.

(** ** Running a unit *)

Lemma running_base g self rest :
  running g self rest → held g = ∅ → g = base (self :: rest) (kpool g) (kmig g) (debt g).
Proof.
  destruct g. unfold running. cbn. intros (-> & -> & -> & -> & -> & ->) ->. done.
Qed.

Lemma drop_one g self rest t h :
  running g self rest → held g = {[t := h]} →
  drop t g = base (self :: rest) (delete t (kpool g)) (kmig g) (debt g).
Proof.
  destruct g. unfold running, drop, base, set_held, set_joined, set_kpool. cbn.
  intros (-> & -> & -> & -> & -> & ->) ->. by rewrite delete_singleton_eq, delete_empty.
Qed.

Lemma run_child_safe A x g self rest t h k :
  running g self rest → held g = {[t := h]} → go h → hctx h = true → isY t = true → settled (debt g) →
  anywhere A self k → safe A x g (ABTI_ythread_run_child x self t k).
Proof.
  intros (Hs & Hcu & Hj & Ho & Hf & Hw) Hh Hgo Hc HY Hd Ha.
  unfold ABTI_ythread_run_child, ABTI_ythread_switch_to_child_internal, ABTI_ythread_context_switch, switch. prog.
  exists h. split; [by rewrite Hh, lookup_singleton_eq|]. apply store_running; [done|].
  eexists. split; [cbn; by rewrite lookup_insert_eq|]. split; [done|].
  split; [apply owned_keep; auto|]. eexists. split; [cbn; by rewrite lookup_insert_eq|].
  apply ensure_stack_safe; [right; apply owned_keep; auto|]. split; [done|]. split; [|by apply anywhere_last].
  eexists. split.
  - eapply (to_child _ _ _ _ _ _ rest (Hold HRun (hctx h) (Some (Some self)) (Some (Some x))));
      cbn; rewrite ?Hj, ?lookup_insert_eq; auto.
  - cbn [callback_ok]. unfold idle. cbn. rewrite Hh. by rewrite !insert_singleton_eq, delete_singleton_eq.
Qed.

Lemma task_safe A x g self rest t h k :
  running g self rest → held g = {[t := h]} → go h → isY t = false → settled (debt g) →
  (∀ kp km d, settled d → safe A x (base (self :: rest) kp km d) (k ())) →
  safe A x g
    (Next (StoreState t ABT_THREAD_STATE_RUNNING) (λ _, Next (StoreLast t (Some x)) (λ _,
     Next (GetCurrent x) (λ sched, match sched with Some s =>
       Next (SetCurrent x t) (λ _, Next (StoreParent t (Some s)) (λ _,
       Task (Next (SetCurrent x s) (λ _, ABTI_thread_terminate (Some x) t k)))) | None => Crash end)))).
Proof.
  intros (Hs & Hcu & Hj & Ho & Hf & Hw) Hh Hgo HY Hd Hk. cbn [safe rule].
  exists h. split; [by rewrite Hh, lookup_singleton_eq|]. apply store_running; [done|].
  eexists. split; [cbn; by rewrite lookup_insert_eq|]. split; [done|]. cbn [cur keep set_held]. rewrite Hcu.
  cbn [safe rule]. split; [done|]. split; [apply owned_keep; auto|].
  eexists. split; [cbn; by rewrite lookup_insert_eq|].
  split; [by unfold idle; cbn|]. split.
  { exists t. eexists. cbn. rewrite Hh, !insert_singleton_eq. done. }
  intros kp km d Hd'. split; [done|]. split; [left; cbn; rewrite Hs; by left|].
  eapply terminate_safe; [cbn; by rewrite lookup_insert_eq|by right|congruence|done|].
  eassert (drop t _ = base (self :: rest) (delete t kp) km d) as ->; [|by apply Hk].
  unfold drop, refreshed, base, set_held, set_joined, set_kpool. cbn.
  by rewrite Hs, Hj, Ho, Hf, Hw, Hh, !insert_singleton_eq, delete_singleton_eq, delete_empty.
Qed.

Lemma schedule_safe A x g self rest t h k :
  running g self rest → (rest = [] → self ∈ roots) → held g = {[t := h]} → go h → hctx h = true →
  settled (debt g) → anywhere A self (λ _, k ()) →
  safe A x g (ABTI_ythread_schedule migration x t k).
Proof.
  intros Hr Hroot Hh Hgo Hc Hd Ha. unfold ABTI_ythread_schedule. unfold mbind at 1, M_bind at 1.
  pose proof Hr as (Hs & Hcu & Hj & Ho & Hf & Hw).
  eapply handle_request_safe; [by rewrite Hh, lookup_singleton_eq|done| | | |].
  - intros _. by split_and!; [rewrite Hj|..].
  - intros km d _ E. cbn. rewrite (drop_one _ _ _ _ _ Hr Hh). apply Ha; [|done]. by eapply settled_eq.
  - intros km. cbn [Z.eqb ABTI_THREAD_HANDLE_REQUEST_NONE]. prog.
    split; [right; right; cbn; rewrite Hh, lookup_singleton_eq; eauto|].
    destruct (isY t) eqn:HY.
    + prog. split; [done|]. cbn [cur set_kmig]. rewrite Hcu.
      eapply run_child_safe; [exact Hr|done..]. 
    + eapply task_safe; [exact Hr|done..|]. intros kp km' d Hd'. by apply Ha.
  - intros km p _. cbn [Z.eqb ABTI_THREAD_HANDLE_REQUEST_MIGRATED ABTI_THREAD_HANDLE_REQUEST_NONE
      ABTI_THREAD_HANDLE_REQUEST_CANCELLED Pos.eqb].
    eapply add_thread_safe; [cbn; by rewrite Hh, lookup_singleton_eq|done|done|cbn; by rewrite Hj|].
    eassert (drop t _ = base (self :: rest) (delete t (kpool g)) km (debt g)) as ->.
    { unfold drop, base, set_held, set_joined, set_kpool, set_kmig, learn. cbn.
      by rewrite Hs, Hcu, Hj, Ho, Hf, Hw, Hh, delete_singleton_eq, delete_empty, delete_insert_eq. }
    by apply Ha.
Qed.

(** ** Joining *)

Lemma futexwait_safe A x g t k :
  t ∈ A → owes g = None → futs g = FNone → wakes g = None → only_running g → safe A x g (k ()) →
  safe A x g (thread_join_futexwait x t k).
Proof.
  intros Ht Ho Hf Hw Hor Hk. unfold thread_join_futexwait, thread_join_busywait. prog. split; [by left|].
  assert (safe A x g (BusyLoop t (k ()))) as Hb by (cbn; done).
  destruct (isY t) eqn:HY; [|done]. prog. right; left. do 5 (split; [done|]). intros v.
  destruct (has v ABTI_THREAD_REQ_JOIN); [done|]. cbn [negb]. prog.
  split; [done|]. split; [done|]. do 3 (split; [done|]). do 4 (split; [done|]). split; [by eexists|].
  destruct g. cbn in *. by subst.
Qed.

Lemma join_loop_safe A x g self rest t k :
  running g self rest → rest ≠ [] → (self ∉ roots) → held g = ∅ → settled (debt g) → isY self = true → t ∈ A →
  anywhere A self (λ _, k ()) → safe A x g (thread_join_yield_thread x self t k).
Proof.
  intros (Hs & Hcu & Hj & Ho & Hf & Hw) Hne Hroot Hh Hd HY Ht Ha. unfold thread_join_yield_thread. cbn [safe].
  split_and!; [done|done|done|done|by exists rest|done..|]. intros y r kp km d ? ?. by apply (Ha y).
Qed.

(** One round of the loop. *)
Lemma join_body_safe A x g y self t k :
  safe A x g (JoinLoop y self t k) → safe A x g (join_body y self t k).
Proof.
  cbn [safe]. intros (-> & (Hj & Hd & Ho & Hf & Hw) & Hh & Hcu & (rest & Hs & Hne) & Hroot & HY & Ht & Hk).
  unfold join_body. cbn [safe rule]. split; [by left|]. intros s _. case_decide.
  - assert (running g self rest) as Hr by done. rewrite (running_base _ _ _ Hr Hh). apply Hk; [done|]. by intros ->.
  - eapply leave_to_parent_safe; [done..|by left|]. intros y' rest' kp km d Hd' Hr'. cbn [safe].
    split_and!; [done|done|done|done| |done..]. exists rest'. split; [done|]. by intros ->; destruct Hroot; auto.
Qed.

Lemma busy_body_safe A x g t k : safe A x g (BusyLoop t k) → safe A x g (busy_body t k).
Proof.
  cbn [safe]. intros (Ht & Ho & Hk). unfold busy_body. cbn [safe rule]. split; [by left|].
  intros s _. by case_decide.
Qed.

Lemma thread_join_safe A x g t k :
  t ∈ A → idle migration g → only_running g →
  (∀ self, cur g = Some self → owned g self) →
  (∀ self, cur g = Some self → isY self = true →
     held g = ∅ ∧ ∃ rest, stk g = self :: rest ∧ rest ≠ [] ∧ (self ∉ roots) ∧ anywhere A self (λ _, k ())) →
  cur g ≠ Some t → has (ttype t) ABTI_THREAD_TYPE_PRIMARY = false →
  safe A x g (k ()) →
  safe A x g (thread_join x (cur g) t k).
Proof.
  intros Ht (Hj & Hd & Ho & Hf & Hw) Hor Hco Hult Hne Hprim Hk.
  pose proof (futexwait_safe A x g t k Ht Ho Hf Hw Hor Hk) as Hfutex.
  unfold thread_join. prog. split; [by left|]. intros s _. case_decide; [done|]. prog.
  split; [by left|]. rewrite Hprim. split; [done|].
  destruct (cur g) as [self|] eqn:Hcu; [|done]. prog. split; [right; auto|].
  destruct (isY self) eqn:HY; cbn [negb]; [|done].
  destruct (Hult self) as (Hh & rest & Hs & Hr & Hroot & Ha); [done..|].
  assert (running g self rest) as Hrun by done.
  prog. split; [by apply bool_decide_eq_true; congruence|].
  destruct (isY t) eqn:HYt; cbn [negb]; [|by eapply join_loop_safe].
  prog. right; left. do 5 (split; [done|]). intros v.
  destruct (has v ABTI_THREAD_REQ_JOIN); [by eapply join_loop_safe|].
  eapply suspend_join_safe; [done..|]. intros y r kp km d Hd' Hr'.
  eapply (join_loop_safe _ _ _ _ r); [done| |done..]. intros ->. destruct Hroot; auto.
Qed.

(** ** Calls of user code *)

(** A caller and what it returns to. *)
Definition from_user A x g back : Prop := safe A x g back ∧ (back = User ∨ ∃ k, back = Task k).

Definition may_leave g : Prop :=
  ∀ self, cur g = Some self → isY self = true →
          ∃ rest, stk g = self :: rest ∧ rest ≠ [] ∧ (self ∉ roots).

Lemma back_refresh A x g back kp km d :
  from_user A x g back → settled d → safe A x (refreshed g kp km d) back.
Proof.
  intros (Hs & Hb) Hd. destruct Hb as [-> | (k & ->)]; cbn [safe] in *.
  - destruct Hs as ((? & ? & ? & ? & ?) & ? & ?). done.
  - destruct Hs as ((? & ? & ? & ? & ?) & ? & ?). done.
Qed.

Lemma user_idle A x g back : from_user A x g back → idle migration g.
Proof. intros (Hs & [-> | (k & ->)]); apply Hs. Qed.

Lemma user_only_running A x g back : from_user A x g back → only_running g.
Proof.
  intros (Hs & [-> | (k & ->)]); cbn [safe] in Hs; intros t h Hh.
  - destruct Hs as (_ & E & _). by rewrite E in Hh.
  - destruct Hs as (_ & (t' & h' & E & ? & _) & _). rewrite E, lookup_singleton_Some in Hh. by destruct Hh as [_ <-].
Qed.

Lemma user_cur_owned A x g back self : from_user A x g back → cur g = Some self → owned g self.
Proof.
  intros (Hs & Hb) Hc. destruct Hb as [-> | (k & ->)]; cbn [safe] in Hs.
  - destruct Hs as (_ & _ & E). left. rewrite Hc in E. destruct (stk g); [done|]. injection E as ->. by left.
  - destruct Hs as (_ & (t & h & Hh & _ & E & _) & _). right. rewrite Hh.
    assert (t = self) as -> by congruence. rewrite lookup_singleton_eq. eauto.
Qed.

Lemma user_ult A x g back self :
  from_user A x g back → cur g = Some self → isY self = true →
  back = User ∧ held g = ∅ ∧ ∃ rest, running g self rest ∧ settled (debt g).
Proof.
  intros (Hs & Hb) Hc HY. destruct Hb as [-> | (k & ->)]; cbn [safe] in Hs.
  - destruct Hs as ((? & ? & ? & ? & ?) & ? & E). split; [done|]. split; [done|].
    rewrite Hc in E. destruct (stk g) as [|a rest] eqn:Es; [done|]. injection E as <-. by exists rest.
  - destruct Hs as (_ & (t & h & Hh & _ & E & HY') & _). congruence.
Qed.

Lemma user_anywhere A self : anywhere A self (λ _, User).
Proof. intros y rest kp km d Hd Hr. cbn. done. Qed.

Lemma local_ythread_safe A x g g' cu back body (k : Z → prog) :
  from_user A x g back → cur g = cu → (∀ t, owned g t → owned g' t) →
  (∀ e, e ≠ ABT_SUCCESS → safe A x g' (k e)) →
  (∀ self rest, cu = Some self → isY self = true → back = User → held g = ∅ → running g self rest →
                settled (debt g) → safe A x g' (body self k)) →
  safe A x g' (local_ythread cu body k).
Proof.
  intros Hu Hc Ho He Hb. unfold local_ythread. destruct cu as [self|]; [|by apply He].
  prog. split; [right; apply Ho; by eapply user_cur_owned|].
  destruct (isY self) eqn:HY; cbn [negb]; [|by apply He].
  destruct (user_ult _ _ _ _ _ Hu Hc HY) as (-> & Hh & rest & Hr & Hd). by eapply Hb.
Qed.

Lemma check_type_safe A x g t bits body (k : Z → prog) :
  acc A g t → (∀ e, e ≠ ABT_SUCCESS → safe A x g (k e)) →
  (has (ttype t) bits = false → safe A x g (body k)) → safe A x g (check_type t bits body k).
Proof. intros Ha He Hb. unfold check_type. prog. split; [done|]. destruct (has _ _); [by apply He|auto]. Qed.

Lemma check_yieldable_safe A x g t body (k : Z → prog) :
  acc A g t → (∀ e, e ≠ ABT_SUCCESS → safe A x g (k e)) →
  (isY t = true → safe A x g (body k)) → safe A x g (check_yieldable t body k).
Proof.
  intros Ha He Hb. unfold check_yieldable. prog. split; [done|].
  destruct (isY t); cbn [negb]; [auto|by apply He].
Qed.

Definition with_one t p g : lg := learn t p (keep t popped g).

Lemma drop_with_one t p g :
  (¬ owned g t) → joined g = ∅ →
  drop t (with_one t p g) = refreshed g (delete t (kpool g)) (kmig g) (debt g).
Proof.
  intros Ho Hj. unfold with_one. rewrite drop_learn, drop_keep.
  assert (held g !! t = None) by (apply eq_None_not_Some; intros ?; apply Ho; by right).
  destruct g. unfold drop, refreshed, set_held, set_joined, set_kpool. cbn in *.
  by rewrite delete_id, Hj, delete_empty.
Qed.

(** A new or popped unit is pushed. *)
Lemma push_one_safe A x g back t p p' e :
  from_user A x g back → (¬ owned g t) → p' = p →
  safe A x (with_one t p g) (Next (Push p' t) (λ _, (λ _ : Z, back) e)).
Proof.
  intros Hu Ho ->. destruct (user_idle _ _ _ _ Hu) as (Hj & Hd & _). cbn [safe rule].
  exists popped. cbn. rewrite !lookup_insert_eq, Hj. do 5 (split; [done|]).
  change (safe A x (drop t (with_one t p g)) back).
  rewrite drop_with_one by done. by eapply back_refresh.
Qed.

Lemma with_popped_safe A x g back p f :
  from_user A x g back →
  (∀ t (k : Z → prog), (¬ owned g t) → k ABT_SUCCESS = back →
     (∀ e, e ≠ ABT_SUCCESS → safe A x (with_one t p g) (k e)) →
     safe A x (with_one t p g) (f t k)) →
  safe A x g (with_popped p f (λ _, back)).
Proof.
  intros Hu Hf. unfold with_popped. prog. split; [by apply Hu|].
  intros t Ho Hj. apply (Hf t (λ e, _)); [done|done|]. intros e He. rewrite (proj2 (Z.eqb_neq _ _)) by done.
  prog. split; [apply owned_keep; auto|]. intros p' Hp'.
  assert (p' = p) as -> by (apply Hp'; cbn; by rewrite lookup_insert_eq).
  assert (learn t p (with_one t p g) = with_one t p g) as ->.
  { unfold with_one, learn, set_kpool. cbn. by rewrite insert_insert_eq. }
  by apply (push_one_safe _ _ _ _ _ _ _ e Hu).
Qed.

Lemma running_with_one g self rest t p :
  running g self rest → held g = ∅ →
  running (with_one t p g) self rest ∧ held (with_one t p g) = {[t := popped]}.
Proof. intros Hr Hh. split; [done|]. cbn. by rewrite Hh, insert_empty. Qed.

Lemma owned_with_one g t p u : owned g u → owned (with_one t p g) u.
Proof. intros Ho. apply owned_keep. by left. Qed.

Lemma to_target_safe A x g back t p sb tb body (k : Z → prog) :
  from_user A x g back → may_leave g → (¬ owned g t) →
  (∀ e, e ≠ ABT_SUCCESS → safe A x (with_one t p g) (k e)) →
  (∀ self rest, running (with_one t p g) self rest → rest ≠ [] → held (with_one t p g) = {[t := popped]} →
     settled (debt g) → isY t = true → isY self = true → self ≠ t → back = User →
     safe A x (with_one t p g) (body self k)) →
  safe A x (with_one t p g) (to_target (cur g) t sb tb body k).
Proof.
  intros Hu Hl Ho He Hb. unfold to_target.
  eapply local_ythread_safe; [done|done|apply owned_with_one|done|].
  intros self rest Hc HY Hback Hh Hr Hd. destruct (Hl self Hc HY) as (rest' & Hs & Hne & _).
  destruct (running_with_one g self rest t p Hr Hh) as [Hr' Hh'].
  assert (rest' = rest) as -> by (destruct Hr; congruence).
  assert (acc A (with_one t p g) t) by (right; apply owned_keep; auto).
  apply check_yieldable_safe; [done|done|]. intros HYt. case_decide as Est; [by apply He|].
  apply check_type_safe; [right; apply owned_with_one; by eapply user_cur_owned|done|]. intros _.
  apply check_type_safe; [done|done|]. intros _. by eapply Hb.
Qed.

Definition claims (c : call) : option tid :=
  match c with
  | CResume t | CResumeYieldTo t | CResumeSuspendTo t | CResumeExitTo t => Some t
  | _ => None
  end.

Definition claim_local (c : call) (g : lg) : lg :=
  match claims c with Some t => keep t claimed g | None => g end.

(** What the legality of a call gives to the caller. *)
Definition legal_local A g (c : call) : Prop :=
  (∀ t, claims c = Some t → t ∈ A ∧ (¬ owned g t) ∧ kpool g !! t = None ∧ isY t = true) ∧
  match c with
  | CCreate _ _ | CSchedule _ _ | CResume _ => True
  | CCreateTo type _ => may_leave g ∧ yieldable type = true
  | CYield | CSuspend | CSuspendUnlock _ | CYieldTo _ | CSuspendTo _ | CExitTo _ | CExit => may_leave g
  | CResumeYieldTo t | CResumeSuspendTo t =>
      may_leave g ∧ switches_from ttype (cur g) ABTI_THREAD_TYPE_MAIN_SCHED t
  | CResumeExitTo t =>
      may_leave g ∧
      switches_from ttype (cur g) (Z.lor ABTI_THREAD_TYPE_PRIMARY ABTI_THREAD_TYPE_MAIN_SCHED) t
  | CJoin t => may_leave g ∧ t ∈ A
  | CCancel t | CMigrate t _ _ => t ∈ A
  end.

(** A thread that was claimed by the caller is entered. *)
Lemma to_blocked_safe A x g back t sb body (k : Z → prog) :
  from_user A x g back → may_leave g → (¬ owned g t) → isY t = true →
  switches_from ttype (cur g) sb t →
  (∀ self rest, running (keep t claimed g) self rest → rest ≠ [] → held (keep t claimed g) = {[t := claimed]} →
     settled (debt g) → isY self = true → self ≠ t → back = User →
     safe A x (keep t claimed g) (body self k)) →
  safe A x (keep t claimed g) (to_blocked (cur g) t sb body k).
Proof.
  intros Hu Hl Ho HYt (Hm & self & Hc & HY & Hsb) Hb. unfold to_blocked, local_ythread. rewrite Hc. prog.
  assert (owned (keep t claimed g) self) by (apply owned_keep; left; by eapply user_cur_owned).
  assert (owned (keep t claimed g) t) by (apply owned_keep; auto).
  destruct (user_ult _ _ _ _ _ Hu Hc HY) as (-> & Hh & rest & Hr & Hd).
  destruct (Hl self Hc HY) as (rest' & Hs & Hne & _).
  assert (rest' = rest) as -> by (destruct Hr; congruence).
  assert (self ≠ t) by (intros ->; apply Ho; left; rewrite Hs; by left).
  split; [by right|]. rewrite HY. cbn [negb]. unfold check_yieldable, check_type. prog.
  split; [by right|]. rewrite HYt. cbn [negb]. prog. split; [by right|]. rewrite Hsb. prog.
  split; [by right|]. rewrite Hm. prog. rewrite bool_decide_true by done. split; [done|].
  split; [by right|]. intros s Hss. rewrite (Hss claimed) by (cbn; by rewrite ?lookup_insert_eq).
  rewrite bool_decide_true by done. split; [done|].
  eapply Hb; [done..| |done|done|done|done]. cbn. by rewrite Hh, insert_empty.
Qed.

Section calls.
Context (A : gset tid) (x : xid) (g : lg) (back : prog).
Hypothesis Hu : from_user A x g back.

Lemma create_safe type p : safe A x g (thread_create type p (λ _, back)).
Proof.
  unfold thread_create. prog. split; [by apply Hu|]. intros t Ho Hj _.
  by apply (push_one_safe _ _ _ _ _ _ _ ABT_SUCCESS Hu).
Qed.

(** A caller that switches and comes back on some stream. *)
Lemma leave_safe (m : tid → M xid) :
  (∀ self rest (k : xid → prog), running g self rest → rest ≠ [] → held g = ∅ → settled (debt g) →
     isY self = true → anywhere A self k → safe A x g (m self k)) →
  may_leave g →
  safe A x g (local_ythread (cur g) (λ self, m self;; mret ABT_SUCCESS) (λ _, back)).
Proof.
  intros Hm Hl. eapply local_ythread_safe; [done|done|done|intros; apply Hu|].
  intros self rest Hc HY -> Hh Hr Hd. destruct (Hl self Hc HY) as (rest' & Hs & Hne & _).
  assert (rest' = rest) as -> by (destruct Hr; congruence).
  unfold mbind, M_bind, mret, M_ret. eapply Hm; [done..|]. apply user_anywhere.
Qed.

Lemma create_to_safe type p :
  may_leave g → yieldable type = true → safe A x g (ABT_thread_create_to x (cur g) type p (λ _, back)).
Proof.
  intros Hl HYt. unfold ABT_thread_create_to.
  eapply local_ythread_safe; [done|done|done|intros; apply Hu|].
  intros self rest Hc HY Hback Hh Hr Hd. destruct (Hl self Hc HY) as (rest' & Hs & Hne & _).
  assert (rest' = rest) as -> by (destruct Hr; congruence).
  apply check_type_safe; [right; by eapply user_cur_owned|intros; apply Hu|]. intros _.
  prog. split; [by apply Hu|]. intros t Ho Hj Et.
  destruct (running_with_one g self rest t p Hr Hh) as [Hr' Hh']. subst back.
  eapply yield_to_safe; [done|done|done|by left|done|by rewrite Et|done|done|apply user_anywhere].
Qed.

Lemma resume_safe t :
  (¬ owned g t) → kpool g !! t = None → isY t = true → t ∈ A →
  safe A x (keep t claimed g) (ABT_thread_resume t (λ _, back)).
Proof.
  intros Ho Hk HY Ht. destruct (user_idle _ _ _ _ Hu) as (Hj & Hd & _).
  unfold ABT_thread_resume, check_yieldable. prog.
  assert (acc A (keep t claimed g) t) by (right; apply owned_keep; auto).
  split; [done|]. rewrite HY. cbn [negb]. prog. split; [done|]. intros s Hs.
  rewrite (Hs claimed) by (cbn; by rewrite ?lookup_insert_eq). rewrite decide_True by done.
  eapply resume_and_push_safe; [cbn; by rewrite lookup_insert_eq|done|done|cbn; by rewrite Hj|].
  intros d E. rewrite drop_new by (try done; by rewrite Hj).
  assert (set_debt d g = refreshed g (kpool g) (kmig g) d) as -> by (by destruct g).
  apply back_refresh; [done|]. by eapply settled_eq.
Qed.

Lemma join_call_safe t :
  may_leave g → t ∈ A → safe A x g (ABT_thread_join x (cur g) t (λ _, back)).
Proof.
  intros Hl Ht. unfold ABT_thread_join. case_decide as Ec; [apply Hu|].
  apply check_type_safe; [by left|intros; apply Hu|]. intros Hty. unfold mbind, M_bind, mret, M_ret.
  apply thread_join_safe; [done|by eapply user_idle|by eapply user_only_running|by intros; eapply user_cur_owned| |done| |apply Hu].
  - intros self Hc HY. destruct (user_ult _ _ _ _ _ Hu Hc HY) as (-> & Hh & rest & Hr & Hd).
    destruct (Hl self Hc HY) as (rest' & Hs & Hne & Hroot). split; [done|]. exists rest'.
    split_and!; [done..|]. apply user_anywhere.
  - unfold has in *. destruct (Z.land (ttype t) ABTI_THREAD_TYPE_PRIMARY =? 0) eqn:E; [done|].
    rewrite Z.land_lor_distr_r in Hty. apply negb_false_iff, Z.eqb_eq, Z.lor_eq_0_iff in Hty as [Hty _].
    by rewrite Hty in E.
Qed.

Lemma set_request_safe t bits (k : prog) :
  t ∈ A → safe A x g k → bits = ABTI_THREAD_REQ_CANCEL →
  safe A x g (ABTI_thread_set_request t bits (λ _, k)).
Proof.
  intros Ht Hk ->. unfold ABTI_thread_set_request. prog. do 2 right. split; [by left|]. done.
Qed.

Lemma migrate_safe t p differs :
  t ∈ A → safe A x g (ABT_thread_migrate_to_pool migration t p differs (λ _, back)).
Proof.
  intros Ht. unfold ABT_thread_migrate_to_pool. destruct (negb migration); [apply Hu|].
  prog. split; [by left|]. destruct (has _ _); cbn [negb]; [|apply Hu].
  unfold check_type, thread_migrate_to_pool, ABTI_thread_set_request. prog. split; [by left|].
  destruct (has _ _); [apply Hu|]. destruct differs; cbn [negb]; [|apply Hu]. prog.
  split; [done|]. do 2 right. split; [right; cbn; set_solver|]. split; [done|]. intros _.
  destruct (user_idle _ _ _ _ Hu) as (_ & Hd & _).
  apply (back_refresh A x g back (kpool g) ({[t]} ∪ kmig g) (debt g) Hu Hd).
Qed.

Lemma start_safe c :
  legal_local A g c → (∀ self, cur g = Some self → isY self = true → stk g = [self] → self ∈ roots) →
  safe A x (claim_local c g) (start migration x (cur g) c (λ _, back)).
Proof.
  intros (Hcl & Hleg) Hroot. unfold claim_local.
  destruct c as [type p|type p| | |l|p|p|p|p pool| |t|t|t|t|t|t|t p b]; cbn [start claims] in *.
  - apply create_safe.
  - destruct Hleg. by apply create_to_safe.
  - apply leave_safe; [|done]. intros. eapply leave_to_parent_safe; try done. by left.
  - apply leave_safe; [|done]. intros. eapply leave_to_parent_safe; try done. by right; left.
  - apply (leave_safe (λ self, ABTI_ythread_suspend_unlock x self l)); [|done].
    intros. eapply leave_to_parent_safe; try done. right; right. eauto.
  - apply with_popped_safe; [done|]. intros t k Ho Hk He. eapply to_target_safe; [done..|].
    intros self rest Hr Hne Hh Hd HYt HY Hst ->. unfold mbind, M_bind, mret, M_ret. rewrite Hk.
    eapply yield_to_safe; [done|done|done|by left|done..|]. apply user_anywhere.
  - apply with_popped_safe; [done|]. intros t k Ho Hk He. eapply to_target_safe; [done..|].
    intros self rest Hr Hne Hh Hd HYt HY Hst ->. unfold mbind, M_bind, mret, M_ret. rewrite Hk.
    eapply suspend_to_safe; [done|done|done|by left|done..|]. apply user_anywhere.
  - apply with_popped_safe; [done|]. intros t k Ho Hk He. eapply to_target_safe; [done..|].
    intros self rest Hr Hne Hh Hd HYt HY Hst ->.
    eapply exit_with_safe; [done|done|done|by left|done..].
  - apply with_popped_safe; [done|]. intros t k Ho Hk He. unfold ABT_self_schedule.
    eapply local_ythread_safe; [done|done|apply owned_with_one|done|].
    intros self rest Hc HY -> Hh Hr Hd.
    assert (∀ q, safe A x (with_one t q g) (ABTI_ythread_schedule migration x t (λ _, k ABT_SUCCESS))) as Hsch.
    { intros q. destruct (running_with_one g self rest t q Hr Hh) as [Hr' Hh']. rewrite Hk.
      eapply schedule_safe; [done| |done|by left|done|done|apply user_anywhere].
      intros ->. apply Hroot; [done..|]. by destruct Hr. }
    unfold mbind, M_bind, mret, M_ret. destruct pool as [q|]; [|apply Hsch].
    unfold ABTI_thread_set_associated_pool. prog. exists popped. split; [cbn; by rewrite lookup_insert_eq|]. split; [done|].
    assert (learn t q (with_one t p g) = with_one t q g) as -> by (unfold with_one, learn, set_kpool; cbn; by rewrite insert_insert_eq).
    apply Hsch.
  - unfold ABT_self_exit. eapply local_ythread_safe; [done|done|done|intros; apply Hu|].
    intros self rest Hc HY Hback Hh Hr Hd. destruct (Hleg self Hc HY) as (rest' & Hs & Hne & _).
    assert (rest' = rest) as -> by (destruct Hr; congruence).
    apply check_type_safe; [right; by eapply user_cur_owned|intros; apply Hu|]. intros _.
    by eapply thread_exit_safe.
  - destruct (Hcl t) as (? & ? & ? & ?); [done|]. by apply resume_safe.
  - destruct Hleg as [Hl Hs]. destruct (Hcl t) as (? & ? & ? & ?); [done|].
    eapply to_blocked_safe; [done..|]. intros self rest Hr Hne Hh Hd HY Hst ->.
    eapply (resume_to_safe _ _ _ _ _ _ (cb_resume_yield_to self t)); [done..|by left|apply user_anywhere].
  - destruct Hleg as [Hl Hs]. destruct (Hcl t) as (? & ? & ? & ?); [done|].
    eapply to_blocked_safe; [done..|]. intros self rest Hr Hne Hh Hd HY Hst ->.
    eapply (resume_to_safe _ _ _ _ _ _ (cb_resume_suspend_to self t)); [done..|by right|apply user_anywhere].
  - destruct Hleg as [Hl Hs]. destruct (Hcl t) as (? & ? & ? & ?); [done|].
    eapply to_blocked_safe; [done..|]. intros self rest Hr Hne Hh Hd HY Hst ->.
    by eapply resume_exit_to_safe.
  - destruct Hleg as [Hl Ht]. by apply join_call_safe.
  - unfold ABT_thread_cancel. apply check_type_safe; [by left|intros; apply Hu|]. intros _.
    unfold mbind, M_bind, mret, M_ret. apply set_request_safe; [done|apply Hu|done].
  - by apply migrate_safe.
Qed.

End calls.

End safe.
