(* ===== verification/UltInv.v ===== *)
(** * The invariant of user-level threads

    [winv]: every thread is on the stack of one stream, in the hands of one, in one pool
    once, blocked with its context saved, or terminated; who waits for the end of a thread
    has linked itself to it or is about to; the counters of blocked threads are
    exact up to what streams owe.  Every access that keeps the rules keeps it. *)

From stdpp Require Import functions base tactics decidable option list numbers gmap fin_maps sets.
From Stdlib Require Import ZArith Lia.
From S2P Require Import Prelude Abt Thread Ult UltLogic UltSafe.
Open Scope Z_scope.

Section inv.
Context (migration : bool) (ttype : tid → Z) (roots : gset tid) (xs : list xid).

Abbreviation isY t := (yieldable (ttype t)) (only parsing).
Abbreviation safe := (safe migration ttype roots).
Abbreviation saved := (saved migration ttype roots).
Implicit Types (w : world) (L : xid → lg) (x y e : xid) (t u j : tid) (g : lg) (th : uthread).

(** Threads with a handle. *)
Definition names w : gset tid := filter (λ t, named ttype t = true) (dom (threads w)).

Definition Own L t : Prop := ∃ x, x ∈ xs ∧ owned (L x) t.
Definition Clo L t : Prop := ∃ x, x ∈ xs ∧ joined (L x) !! t = Some JClosed.
Definition owed L t (a : option tid) : Prop := ∃ x, x ∈ xs ∧ owes (L x) = Some (t, a).
Definition Wakes L e : Prop := ∃ x, x ∈ xs ∧ wakes (L x) = Some e.

(** Joiners of [t] can still come, or wait. *)
Definition is_open L t th : Prop := t_state th ≠ ABT_THREAD_STATE_TERMINATED ∧ ¬ Clo L t.

Definition joins th : bool := has (t_request th) ABTI_THREAD_REQ_JOIN.

Definition ctx_ok (A : gset tid) t th : Prop :=
  isY t = true → ∃ k, t_ctx th = Some k ∧ saved A t k.

Definition live th : Prop := t_state th = ABT_THREAD_STATE_READY ∨ t_state th = ABT_THREAD_STATE_RUNNING.

Definition stack_ok (A : gset tid) x (s : list tid) (i : nat) t th : Prop :=
  live th ∧ t_parent th = s !! S i ∧ t_last th = Some x ∧ isY t = true ∧
  (if decide (i = 0%nat) then t_ctx th = None else ctx_ok A t th) ∧
  (t ∈ roots ↔ S i = length s).

Definition kind_ok (k : hkind) th : Prop :=
  match k with
  | HReady => t_state th = ABT_THREAD_STATE_READY
  | HRun => live th
  | HClaim => t_state th = ABT_THREAD_STATE_BLOCKED ∧ t_waits th ≠ ForResume
  | HDead => t_state th = ABT_THREAD_STATE_TERMINATED
  end.

Definition hold_ok (A : gset tid) t (h : hold) th : Prop :=
  kind_ok (hk h) th ∧ (hctx h = true → ctx_ok A t th) ∧
  (∀ q, hpar h = Some q → t_parent th = q) ∧ (∀ v, hlast h = Some v → t_last th = v).

Definition free_ok (A : gset tid) w t th : Prop :=
  t_state th = ABT_THREAD_STATE_TERMINATED ∨
  (ctx_ok A t th ∧
   (t_state th = ABT_THREAD_STATE_BLOCKED ∧ isY t = true ∨
    t_state th = ABT_THREAD_STATE_READY ∧ t ∈ units (pools w (t_pool th)))).

(** [a] waits for the end of [t]. *)
Definition asleep w L (a : joiner) t : Prop :=
  match a with
  | JUlt j => (¬ Own L j) ∧ ∃ th, threads w !! j = Some th ∧
              t_state th = ABT_THREAD_STATE_BLOCKED ∧ t_waits th = ForEnd t
  | JExt e => e ∈ xs ∧ futs (L e) = FWait t ∧ futex w e = 0
  end.

Definition blocked_in (p : pid) th : Prop := t_state th = ABT_THREAD_STATE_BLOCKED ∧ t_pool th = p.
Global Instance blocked_in_dec p th : Decision (blocked_in p th).
Proof. unfold blocked_in. apply _. Defined.

Definition nblocked w (p : pid) : Z :=
  Z.of_nat (size (filter (λ tt : tid * uthread, blocked_in p tt.2) (threads w))).
Definition debts L (p : pid) : Z := foldr Z.add 0 ((λ x, debt (L x) p) <$> xs).

(** Where threads are. *)
Record pinv w L : Prop := {
  v_cur : ∀ x, x ∈ xs → current w x = cur (L x);
  v_owner : ∀ x y t, x ∈ xs → y ∈ xs → owned (L x) t → owned (L y) t → x = y;
  v_stk : ∀ x, x ∈ xs → NoDup (stk (L x)) ∧ ∀ t, t ∈ stk (L x) → held (L x) !! t = None;
  v_stack : ∀ x i t, x ∈ xs → stk (L x) !! i = Some t →
    ∃ th, threads w !! t = Some th ∧ stack_ok (names w) x (stk (L x)) i t th;
  v_held : ∀ x t h, x ∈ xs → held (L x) !! t = Some h →
    (t ∉ roots) ∧ ∃ th, threads w !! t = Some th ∧ hold_ok (names w) t h th;
  v_nodup : ∀ p, NoDup (units (pools w p));
  v_pooled : ∀ p t, t ∈ units (pools w p) →
    (¬ Own L t) ∧ ∃ th, threads w !! t = Some th ∧ t_state th = ABT_THREAD_STATE_READY ∧ t_pool th = p;
  v_free : ∀ t th, threads w !! t = Some th → (¬ Own L t) → (t ∉ roots) ∧ free_ok (names w) w t th;
  v_kpool : ∀ x t p, x ∈ xs → kpool (L x) !! t = Some p →
    owned (L x) t ∧ ∃ th, threads w !! t = Some th ∧ t_pool th = p;
  v_joined : ∀ x t a, x ∈ xs → joined (L x) !! t = Some a → owned (L x) t ∧ is_Some (threads w !! t);
  v_roots : ∀ t, t ∈ roots → ∃ x, x ∈ xs ∧ t ∈ stk (L x)
}.

(** Requests. *)
Record rinv w L : Prop := {
  v_kmig : ∀ x t, x ∈ xs → t ∈ kmig (L x) →
    named ttype t = true ∧ ∃ th, threads w !! t = Some th ∧ t_mig th ≠ None;
  v_req : ∀ t th, threads w !! t = Some th →
    (named ttype t = false → has (t_request th) ABTI_THREAD_REQ_CANCEL = false ∧
                             has (t_request th) ABTI_THREAD_REQ_MIGRATE = false) ∧
    (has (t_request th) ABTI_THREAD_REQ_MIGRATE = true → t_mig th ≠ None)
}.

(** Who waits for the end of whom. *)
Record jinv w L : Prop := {
  v_seen : ∀ x t a th, x ∈ xs → joined (L x) !! t = Some a → threads w !! t = Some th → joins th = true;
  v_open : ∀ t th, threads w !! t = Some th → isY t = true → is_open L t th →
    match t_link th with
    | None => joins th = true → ∃ a, owed L t a
    | Some a => joins th = true ∧ asleep w L a t
    end;
  v_term : ∀ t th, threads w !! t = Some th → isY t = true →
    t_state th = ABT_THREAD_STATE_TERMINATED → joins th = true;
  v_owes : ∀ x t a, x ∈ xs → owes (L x) = Some (t, a) →
    named ttype t = true ∧ isY t = true ∧ (∀ j, a = Some j → asleep w L (JUlt j) t) ∧
    ∃ th, threads w !! t = Some th ∧ is_open L t th ∧ t_link th = None ∧ joins th = true;
  v_owes1 : ∀ x y t a b, x ∈ xs → y ∈ xs → owes (L x) = Some (t, a) → owes (L y) = Some (t, b) → x = y;
  v_sleep : ∀ j t, asleep w L (JUlt j) t →
    isY t = true ∧ ∃ th, threads w !! t = Some th ∧ is_open L t th ∧
      (t_link th = Some (JUlt j) ∨ owed L t (Some j));
  v_futs : ∀ x, x ∈ xs →
    match futs (L x) with
    | FNone => True
    | FInit => futex w x = 0
    | FWait t => named ttype t = true ∧
                 (futex w x ≠ 0 ∨ Wakes L x ∨
                  isY t = true ∧ ∃ th, threads w !! t = Some th ∧ is_open L t th ∧ t_link th = Some (JExt x))
    end;
  v_wakes : ∀ y e, y ∈ xs → wakes (L y) = Some e →
    e ∈ xs ∧ futex w e = 0 ∧
    ∃ t th, futs (L e) = FWait t ∧ named ttype t = true ∧ threads w !! t = Some th ∧ ¬ is_open L t th;
  v_wakes1 : ∀ x y e, x ∈ xs → y ∈ xs → wakes (L x) = Some e → wakes (L y) = Some e → x = y
}.

(** The counters of blocked threads. *)
Definition cinv w L : Prop :=
  migration = false → ∀ p, num_blocked (pools w p) = i32 (nblocked w p + debts L p).

Record winv w L : Prop := {
  w_places : pinv w L;
  w_requests : rinv w L;
  w_joins : jinv w L;
  w_counts : cinv w L
}.

(** ** Frames for the join part *)

(** Two records with the same debts to joiners. *)
Record gsame g g' : Prop := {
  g_owes : owes g = owes g';
  g_futs : futs g = futs g';
  g_wakes : wakes g = wakes g'
}.
Definition lsame L L' : Prop := ∀ y, y ∈ xs → gsame (L y) (L' y).

Section lsame.
Context (L L' : xid → lg) (Hs : lsame L L').

Lemma owed_same t a : owed L t a ↔ owed L' t a.
Proof. split; intros (x & Hx & Ho); exists x; (split; [done|]); destruct (Hs x Hx); congruence. Qed.
Lemma Wakes_same e : Wakes L e ↔ Wakes L' e.
Proof. split; intros (x & Hx & Ho); exists x; (split; [done|]); destruct (Hs x Hx); congruence. Qed.

End lsame.

(** The same joiner, the same join flag. *)
Definition lj_same th th' : Prop := t_link th = t_link th' ∧ joins th = joins th'.

(** A change that no joiner sees: what is open stays open, and nothing is opened. *)
Record jkeep w w' L L' : Prop := {
  k_same : lsame L L';
  k_to : ∀ t th, threads w !! t = Some th → is_open L t th ∨ named ttype t = true →
    ∃ th', threads w' !! t = Some th' ∧
           (isY t = true → is_open L t th → joins th = true → lj_same th th' ∧ is_open L' t th') ∧
           (¬ is_open L t th → ¬ is_open L' t th');
  k_from : ∀ t th', threads w' !! t = Some th' → isY t = true → is_open L' t th' →
    (∃ th, threads w !! t = Some th ∧ lj_same th th' ∧ is_open L t th) ∨ t_link th' = None ∧ joins th' = false;
  k_futex : ∀ e, e ∈ xs → futex w' e = futex w e;
  k_asleep : ∀ j t, asleep w L (JUlt j) t ↔ asleep w' L' (JUlt j) t;
  k_seen : ∀ x t a th, x ∈ xs → joined (L' x) !! t = Some a → threads w' !! t = Some th → joins th = true;
  k_term : ∀ t th, threads w' !! t = Some th → isY t = true →
    t_state th = ABT_THREAD_STATE_TERMINATED → joins th = true
}.

Lemma jinv_keep w w' L L' : jkeep w w' L L' → jinv w L → jinv w' L'.
Proof.
  intros K J. pose proof (k_same _ _ _ _ K) as Hs. pose proof (k_futex _ _ _ _ K) as Hfu.
  assert (∀ a t, asleep w L a t ↔ asleep w' L' a t) as Has.
  { intros [j|e] t; [apply (k_asleep _ _ _ _ K)|]. cbn. split; intros (He & Hf & H0).
    - rewrite <- (g_futs _ _ (Hs e He)), Hfu by done. done.
    - rewrite (g_futs _ _ (Hs e He)), <- Hfu by done. done. }
  split.
  - apply (k_seen _ _ _ _ K).
  - intros t th' Ht HY Hop. destruct (k_from _ _ _ _ K t th' Ht HY Hop) as [(th & Ht0 & (El & Ej) & Hop0)|[-> ->]]; [|done].
    pose proof (v_open _ _ J t th Ht0 HY Hop0) as H. rewrite <- El, <- Ej.
    destruct (t_link th) as [a|]; [by rewrite <- Has|]. intros Hj. destruct (H Hj) as (a & Hao). exists a.
    by apply (owed_same L L' Hs).
  - apply (k_term _ _ _ _ K).
  - intros x t a Hx Ho. rewrite <- (g_owes _ _ (Hs x Hx)) in Ho.
    destruct (v_owes _ _ J x t a Hx Ho) as (Hn & HY & Hj & th & Ht & Hop & Hl & Hjo).
    split; [done|]. split; [done|]. split; [intros j E; by apply Has, Hj|].
    destruct (k_to _ _ _ _ K t th Ht) as (th' & Ht' & Hopen & _); [auto|]. exists th'.
    destruct (Hopen HY Hop Hjo) as ((El & Ej) & ?). rewrite <- El, <- Ej. auto.
  - intros x y t a b Hx Hy Hox Hoy. rewrite <- (g_owes _ _ (Hs x Hx)) in Hox. rewrite <- (g_owes _ _ (Hs y Hy)) in Hoy.
    by eapply v_owes1.
  - intros j t Hj. apply Has in Hj. destruct (v_sleep _ _ J j t Hj) as (HY & th & Ht & Hop & Hl).
    assert (joins th = true) as Hjo.
    { pose proof (v_open _ _ J t th Ht HY Hop) as H. destruct Hl as [Hl|(x & Hx & Ho)]; [rewrite Hl in H; by destruct H|].
      destruct (v_owes _ _ J x t _ Hx Ho) as (_ & _ & _ & th0 & ? & _ & _ & ?). congruence. }
    split; [done|]. destruct (k_to _ _ _ _ K t th Ht) as (th' & Ht' & Hopen & _); [auto|]. exists th'.
    destruct (Hopen HY Hop Hjo) as ((El & _) & ?). rewrite <- (owed_same L L' Hs), <- El. auto.
  - intros x Hx. pose proof (v_futs _ _ J x Hx) as H. rewrite <- (g_futs _ _ (Hs x Hx)).
    rewrite Hfu by done. destruct (futs (L x)) as [| |t]; [done..|]. destruct H as [Hn H]. split; [done|].
    destruct H as [?|[?|(HY & th & Ht & Hop & Hl)]]; [by left| |].
    + right; left. by apply (Wakes_same L L' Hs).
    + right; right. split; [done|]. destruct (k_to _ _ _ _ K t th Ht) as (th' & Ht' & Hopen & _); [auto|].
      exists th'. pose proof (v_open _ _ J t th Ht HY Hop) as H. rewrite Hl in H. destruct H as [Hjo _].
      destruct (Hopen HY Hop Hjo) as ((El & _) & ?). rewrite <- El. auto.
  - intros y e Hy Hw. rewrite <- (g_wakes _ _ (Hs y Hy)) in Hw.
    destruct (v_wakes _ _ J y e Hy Hw) as (He & H0 & t & th & Hf & Hn & Ht & Hop).
    split; [done|]. rewrite Hfu by done. split; [done|].
    destruct (k_to _ _ _ _ K t th Ht) as (th' & Ht' & _ & Hclosed); [auto|].
    exists t, th'. rewrite <- (g_futs _ _ (Hs e He)). auto.
  - intros x y e Hx Hy Hwx Hwy. rewrite <- (g_wakes _ _ (Hs x Hx)) in Hwx. rewrite <- (g_wakes _ _ (Hs y Hy)) in Hwy.
    by eapply v_wakes1.
Qed.

(** Descriptors that joiners cannot tell apart. *)
Definition tsame th th' : Prop :=
  t_link th = t_link th' ∧ joins th = joins th' ∧
  (t_state th = ABT_THREAD_STATE_TERMINATED ↔ t_state th' = ABT_THREAD_STATE_TERMINATED).

(** A descriptor that nobody can have joined yet. *)
Definition tnew th : Prop :=
  t_link th = None ∧ joins th = false ∧ t_state th ≠ ABT_THREAD_STATE_TERMINATED.

Lemma tsame_refl th : tsame th th.
Proof. by split_and!. Qed.

Definition joined_same L L' : Prop := ∀ y t, y ∈ xs → joined (L' y) !! t = joined (L y) !! t.

Lemma Clo_same L L' t : joined_same L L' → Clo L t ↔ Clo L' t.
Proof. intros Hj. split; intros (x & Hx & Ho); exists x; (split; [done|]); [by rewrite Hj|by rewrite <- Hj]. Qed.

Lemma is_open_same L L' t th th' : joined_same L L' → tsame th th' → is_open L t th ↔ is_open L' t th'.
Proof. intros Hs (_ & _ & Ht). unfold is_open. rewrite (Clo_same L L' t Hs). naive_solver. Qed.

Lemma jinv_frame w w' L L' :
  lsame L L' → joined_same L L' →
  (∀ t th, threads w !! t = Some th → ∃ th', threads w' !! t = Some th' ∧ tsame th th') →
  (∀ t th', threads w' !! t = Some th' →
            (∃ th, threads w !! t = Some th ∧ tsame th th') ∨
            tnew th' ∧ ∀ x, x ∈ xs → joined (L x) !! t = None) →
  (∀ e, e ∈ xs → futex w' e = futex w e) →
  (∀ j t, asleep w L (JUlt j) t ↔ asleep w' L' (JUlt j) t) →
  jinv w L → jinv w' L'.
Proof.
  intros Hs Hj Hto Hfrom Hfu Ha J. eapply jinv_keep; [|exact J]. split; try done.
  - intros t th Ht _. destruct (Hto t th Ht) as (th' & Ht' & Hts). exists th'.
    pose proof (is_open_same L L' t th th' Hj Hts). destruct Hts as (? & ? & _). split; [done|]. unfold lj_same. tauto.
  - intros t th' Ht HY Hop. destruct (Hfrom t th' Ht) as [(th & Ht0 & Hts)|[(-> & -> & _) _]]; [|by right].
    left. exists th. apply (is_open_same L L' t th th' Hj Hts) in Hop. by destruct Hts as (? & ? & _).
  - intros x t a th' Hx Hjo Ht. rewrite (Hj x t Hx) in Hjo.
    destruct (Hfrom t th' Ht) as [(th & Ht0 & (_ & E & _))|[_ Hn]]; [|by rewrite Hn in Hjo].
    rewrite <- E. by eapply v_seen.
  - intros t th' Ht HY Hte. destruct (Hfrom t th' Ht) as [(th & Ht0 & (_ & <- & E))|[(_ & _ & Hn) _]]; [|done].
    apply (v_term _ _ J t th Ht0 HY). by apply E.
Qed.

(** ** A change at one thread *)

Lemma ctx_ok_mono A A' t th : A ⊆ A' → ctx_ok A t th → ctx_ok A' t th.
Proof. intros HA H HY. destruct (H HY) as (k & Hk & Hs). exists k. split; [done|]. by eapply saved_mono. Qed.
Lemma stack_ok_mono A A' x l i t th : A ⊆ A' → stack_ok A x l i t th → stack_ok A' x l i t th.
Proof.
  intros HA (? & ? & ? & ? & Hc & ?). split_and!; try done. case_decide; [done|]. by eapply ctx_ok_mono.
Qed.
Lemma hold_ok_mono A A' t h th : A ⊆ A' → hold_ok A t h th → hold_ok A' t h th.
Proof. intros HA (? & Hc & ? & ?). split_and!; try done. intros E. eapply ctx_ok_mono; [done|]. by apply Hc. Qed.

(** The record [g'] of a stream differs from [g] at [t] only. *)
Definition only_at t g g' : Prop :=
  stk g' = stk g ∧
  ∀ u, u ≠ t → held g' !! u = held g !! u ∧ kpool g' !! u = kpool g !! u ∧ joined g' !! u = joined g !! u.

Lemma only_at_owned t g g' u : only_at t g g' → u ≠ t → owned g' u ↔ owned g u.
Proof. intros (Hs & Hu) Hne. unfold owned. destruct (Hu u Hne) as (-> & _). by rewrite Hs. Qed.

Lemma Own_at L x g' t u :
  x ∈ xs → only_at t (L x) g' → u ≠ t → Own (<[x := g']> L) u ↔ Own L u.
Proof.
  intros Hx Ha Hne. split; intros (y & Hy & Ho); exists y; (split; [done|]).
  - destruct (decide (y = x)) as [->|]; [rewrite fn_lookup_insert in Ho; by apply (only_at_owned t (L x) g')|].
    by rewrite fn_lookup_insert_ne in Ho.
  - destruct (decide (y = x)) as [->|]; [rewrite fn_lookup_insert; by apply (only_at_owned t (L x) g')|].
    by rewrite fn_lookup_insert_ne.
Qed.

Lemma Own_gone L x g' t :
  (∀ y, y ∈ xs → y ≠ x → ¬ owned (L y) t) → ¬ owned g' t → ¬ Own (<[x := g']> L) t.
Proof.
  intros Ho Hg (y & Hy & H). destruct (decide (y = x)) as [->|].
  - by rewrite fn_lookup_insert in H.
  - rewrite fn_lookup_insert_ne in H by done. by eapply Ho.
Qed.

Record at_ok w' g' t : Prop := {
  a_held : ∀ h, held g' !! t = Some h →
    (t ∉ roots) ∧ (∀ p, t ∉ units (pools w' p)) ∧ ∃ th, threads w' !! t = Some th ∧ hold_ok (names w') t h th;
  a_free : held g' !! t = None → ∀ th, threads w' !! t = Some th → (t ∉ roots) ∧ free_ok (names w') w' t th;
  a_pool : held g' !! t = None → ∀ p, t ∈ units (pools w' p) →
    ∃ th, threads w' !! t = Some th ∧ t_state th = ABT_THREAD_STATE_READY ∧ t_pool th = p;
  a_kpool : ∀ p, kpool g' !! t = Some p →
    is_Some (held g' !! t) ∧ ∃ th, threads w' !! t = Some th ∧ t_pool th = p;
  a_joined : is_Some (joined g' !! t) → is_Some (held g' !! t)
}.

Lemma pinv_at w w' L x t g' :
  pinv w L → x ∈ xs → only_at t (L x) g' → (t ∉ stk (L x)) →
  (∀ y, y ∈ xs → y ≠ x → ¬ owned (L y) t) →
  (∀ u, u ≠ t → threads w' !! u = threads w !! u) → names w ⊆ names w' →
  (∀ p u, u ≠ t → u ∈ units (pools w' p) ↔ u ∈ units (pools w p)) →
  (∀ p, NoDup (units (pools w' p))) →
  (∀ y, y ∈ xs → current w' y = cur (<[x := g']> L y)) →
  at_ok w' g' t →
  pinv w' (<[x := g']> L).
Proof.
  intros P Hx Ha Hts Hoth Hth Hn Hu Hnd Hcur Hat. pose proof Ha as (Hsk & Hsame).
  assert (∀ y, y ∈ xs → stk (<[x := g']> L y) = stk (L y)) as Hstk.
  { intros y Hy. destruct (decide (y = x)) as [->|]; [by rewrite fn_lookup_insert|by rewrite fn_lookup_insert_ne]. }
  assert (∀ y u, y ∈ xs → u ≠ t → held (<[x := g']> L y) !! u = held (L y) !! u ∧
            kpool (<[x := g']> L y) !! u = kpool (L y) !! u ∧ joined (<[x := g']> L y) !! u = joined (L y) !! u) as Hne.
  { intros y u Hy Hut. destruct (decide (y = x)) as [->|]; [rewrite fn_lookup_insert; auto|by rewrite fn_lookup_insert_ne]. }
  assert (∀ y u, y ∈ xs → u ≠ t → owned (<[x := g']> L y) u ↔ owned (L y) u) as Hown.
  { intros y u Hy Hut. unfold owned. rewrite Hstk by done. by destruct (Hne y u Hy Hut) as (-> & _). }
  assert (∀ y, y ∈ xs → owned (<[x := g']> L y) t → y = x ∧ is_Some (held g' !! t)) as Hownt.
  { intros y Hy Ho. destruct (decide (y = x)) as [->|Hyx].
    - rewrite fn_lookup_insert in Ho. split; [done|]. destruct Ho as [Ho|]; [|done]. by rewrite Hsk in Ho.
    - rewrite fn_lookup_insert_ne in Ho by done. by destruct (Hoth y Hy Hyx). }
  split.
  - done.
  - intros y z u Hy Hz Hoy Hoz. destruct (decide (u = t)) as [->|Hut].
    + destruct (Hownt y Hy Hoy) as [-> _], (Hownt z Hz Hoz) as [-> _]. done.
    + apply Hown in Hoy, Hoz; try done. by eapply v_owner.
  - intros y Hy. rewrite Hstk by done. destruct (v_stk _ _ P y Hy) as [Hd Hh]. split; [done|].
    intros u Hu'. destruct (decide (u = t)) as [->|Hut].
    + destruct (decide (y = x)) as [->|Hyx]; [done|]. destruct (Hoth y Hy Hyx). by left.
    + destruct (Hne y u Hy Hut) as (-> & _). auto.
  - intros y i u Hy. rewrite Hstk by done. intros Hi. destruct (v_stack _ _ P y i u Hy Hi) as (th & Ht & Hok).
    exists th. assert (u ≠ t) as Hut.
    { intros ->. apply list_elem_of_lookup_2 in Hi. destruct (decide (y = x)) as [->|Hyx]; [done|].
      destruct (Hoth y Hy Hyx). by left. }
    rewrite Hth by done. split; [done|]. by eapply stack_ok_mono.
  - intros y u h Hy Hh. destruct (decide (u = t)) as [->|Hut].
    + destruct (Hownt y Hy) as [-> _]; [right; eauto|]. rewrite fn_lookup_insert in Hh.
      destruct (a_held _ _ _ Hat h Hh) as (? & _ & ?). done.
    + destruct (Hne y u Hy Hut) as (E & _). rewrite E in Hh. destruct (v_held _ _ P y u h Hy Hh) as (? & th & ? & ?).
      split; [done|]. exists th. rewrite Hth by done. split; [done|]. by eapply hold_ok_mono.
  - done.
  - intros p u Hpu. destruct (decide (u = t)) as [->|Hut].
    + assert (held g' !! t = None) as Hg.
      { apply eq_None_not_Some. intros [h Hh]. destruct (a_held _ _ _ Hat h Hh) as (_ & Hnp & _). by eapply Hnp. }
      split; [|by apply (a_pool _ _ _ Hat)].
      apply Own_gone; [done|]. unfold owned. rewrite Hsk, Hg. intros [?|[? ?]]; done.
    + apply Hu in Hpu; [|done]. destruct (v_pooled _ _ P p u Hpu) as (Ho & th & ? & ?).
      rewrite Own_at by done. split; [done|]. exists th. by rewrite Hth.
  - intros u th Htu Ho. destruct (decide (u = t)) as [->|Hut].
    + apply (a_free _ _ _ Hat); [|done]. apply eq_None_not_Some. intros Hs. apply Ho. exists x.
      rewrite fn_lookup_insert. split; [done|]. by right.
    + rewrite Own_at in Ho by done. rewrite Hth in Htu by done.
      destruct (v_free _ _ P u th Htu Ho) as (? & [?|(Hc & Hf)]); (split; [done|]); [by left|].
      right. split; [by eapply ctx_ok_mono|]. destruct Hf as [?|[? ?]]; [by left|]. right. by rewrite Hu.
  - intros y u p Hy Hk. destruct (decide (u = t)) as [->|Hut].
    + destruct (decide (y = x)) as [->|Hyx].
      * rewrite fn_lookup_insert in *. destruct (a_kpool _ _ _ Hat p Hk) as (? & ?). split; [by right|done].
      * rewrite fn_lookup_insert_ne in Hk by done. destruct (v_kpool _ _ P y t p Hy Hk) as (Ho & _).
        by destruct (Hoth y Hy Hyx).
    + destruct (Hne y u Hy Hut) as (_ & E & _). rewrite E in Hk. rewrite Hown, Hth by done. by apply (v_kpool _ _ P).
  - intros y u a Hy Hj. destruct (decide (u = t)) as [->|Hut].
    + destruct (decide (y = x)) as [->|Hyx].
      * rewrite fn_lookup_insert in *. destruct (a_joined _ _ _ Hat) as [h Hh]; [eauto|].
        destruct (a_held _ _ _ Hat h Hh) as (_ & _ & th & -> & _). split; [right; eauto|eauto].
      * rewrite fn_lookup_insert_ne in Hj by done. destruct (v_joined _ _ P y t a Hy Hj) as (Ho & _).
        by destruct (Hoth y Hy Hyx).
    + destruct (Hne y u Hy Hut) as (_ & _ & E). rewrite E in Hj. rewrite Hown, Hth by done. by eapply v_joined.
  - intros u Hr. destruct (v_roots _ _ P u Hr) as (y & Hy & ?). exists y. by rewrite Hstk.
Qed.

(** ** Changes that move no thread *)

Definition every (R : uthread → uthread → Prop) w w' : Prop :=
  ∀ t, option_Forall2 R (threads w !! t) (threads w' !! t).

Definition psame th th' : Prop :=
  t_state th' = t_state th ∧ t_pool th' = t_pool th ∧ t_parent th' = t_parent th ∧
  t_last th' = t_last th ∧ t_ctx th' = t_ctx th ∧ (t_waits th ≠ ForResume → t_waits th' ≠ ForResume).
Definition rsame th th' : Prop := t_request th' = t_request th ∧ t_mig th' = t_mig th.

Lemma every_to R w w' t th : every R w w' → threads w !! t = Some th → ∃ th', threads w' !! t = Some th' ∧ R th th'.
Proof. intros H Ht. specialize (H t). rewrite Ht in H. inversion H; subst. eauto. Qed.
Lemma every_from R w w' t th' : every R w w' → threads w' !! t = Some th' → ∃ th, threads w !! t = Some th ∧ R th th'.
Proof. intros H Ht. specialize (H t). rewrite Ht in H. inversion H; subst. eauto. Qed.

Lemma every_names R w w' : every R w w' → names w' = names w.
Proof.
  intros H. unfold names. f_equal. apply set_eq. intros t. rewrite !elem_of_dom.
  specialize (H t). inversion H; split; intros [? ?]; try congruence; eauto.
Qed.

Lemma every_same R w w' : Reflexive R → threads w' = threads w → every R w w'.
Proof. intros HR E t. rewrite E. destruct (threads w !! t); constructor. apply HR. Qed.

Lemma every_at R w w' t th th' :
  Reflexive R → threads w !! t = Some th → threads w' = <[t := th']> (threads w) → R th th' → every R w w'.
Proof.
  intros HR Ht E H u. rewrite E. destruct (decide (u = t)) as [->|].
  - rewrite Ht, lookup_insert_eq. by constructor.
  - rewrite lookup_insert_ne by done. destruct (threads w !! u); constructor. apply HR.
Qed.

Global Instance psame_refl : Reflexive psame.
Proof. intros th. by split_and!. Qed.
Global Instance rsame_refl : Reflexive rsame.
Proof. intros th. by split. Qed.
Global Instance tsame_reflexive : Reflexive tsame.
Proof. exact tsame_refl. Qed.

Lemma owned_thread w L x t : pinv w L → x ∈ xs → owned (L x) t → ∃ th, threads w !! t = Some th.
Proof.
  intros P Hx [Ht|[h Hh]].
  - apply list_elem_of_lookup in Ht as [i Hi]. destruct (v_stack _ _ P x i t Hx Hi) as (th & ? & _). eauto.
  - destruct (v_held _ _ P x t h Hx Hh) as (_ & th & ? & _). eauto.
Qed.

Lemma acc_thread w L x t : pinv w L → x ∈ xs → acc (names w) (L x) t → ∃ th, threads w !! t = Some th.
Proof.
  intros P Hx [Ht|Ho]; [|by eapply owned_thread]. unfold names in Ht.
  apply elem_of_filter in Ht as [_ Ht]. by apply elem_of_dom in Ht.
Qed.

Lemma names_thread w t : t ∈ names w → named ttype t = true ∧ ∃ th, threads w !! t = Some th.
Proof. unfold names. intros Ht. apply elem_of_filter in Ht as [? Ht]. by apply elem_of_dom in Ht. Qed.

Lemma pinv_frame w w' L L' :
  pinv w L → every psame w w' → (∀ p, units (pools w' p) = units (pools w p)) →
  (∀ y, y ∈ xs → stk (L' y) = stk (L y) ∧ held (L' y) = held (L y) ∧ current w' y = cur (L' y)) →
  (∀ y t p, y ∈ xs → kpool (L' y) !! t = Some p →
            owned (L y) t ∧ ∃ th, threads w !! t = Some th ∧ t_pool th = p) →
  (∀ y t a, y ∈ xs → joined (L' y) !! t = Some a → owned (L y) t) →
  pinv w' L'.
Proof.
  intros P He Hu HL Hk Hj. pose proof (every_names _ _ _ He) as En.
  assert (∀ y t, y ∈ xs → owned (L' y) t ↔ owned (L y) t) as Ho.
  { intros y t Hy. unfold owned. destruct (HL y Hy) as (-> & -> & _). done. }
  assert (∀ t, Own L' t ↔ Own L t) as HO.
  { intros t. split; intros (y & Hy & H); exists y; (split; [done|]); by apply Ho. }
  split; try rewrite En.
  - intros y Hy. by destruct (HL y Hy) as (_ & _ & ->).
  - intros y z t Hy Hz Hoy Hoz. rewrite Ho in Hoy, Hoz by done. by eapply v_owner.
  - intros y Hy. destruct (HL y Hy) as (-> & -> & _). by apply (v_stk _ _ P).
  - intros y i t Hy. destruct (HL y Hy) as (-> & _ & _). intros Hi.
    destruct (v_stack _ _ P y i t Hy Hi) as (th & Ht & Hok). destruct (every_to _ _ _ _ _ He Ht) as (th' & Ht' & Hs).
    exists th'. split; [done|]. destruct Hs as (E1 & E2 & E3 & E4 & E5 & E6).
    unfold stack_ok, ctx_ok, live in *. by rewrite E1, E3, E4, E5.
  - intros y t h Hy. destruct (HL y Hy) as (_ & -> & _). intros Hh.
    destruct (v_held _ _ P y t h Hy Hh) as (Hr & th & Ht & Hok). destruct (every_to _ _ _ _ _ He Ht) as (th' & Ht' & Hs).
    split; [done|]. exists th'. split; [done|]. destruct Hs as (E1 & E2 & E3 & E4 & E5 & E6).
    unfold hold_ok, kind_ok, ctx_ok, live in *. rewrite E1, E3, E4, E5. destruct (hk h); naive_solver.
  - intros p. rewrite Hu. by apply (v_nodup _ _ P).
  - intros p t. rewrite Hu, HO. intros Hp. destruct (v_pooled _ _ P p t Hp) as (? & th & Ht & ?). split; [done|].
    destruct (every_to _ _ _ _ _ He Ht) as (th' & Ht' & (E1 & E2 & _)). exists th'. by rewrite E1, E2.
  - intros t th' Ht'. rewrite HO. intros Hno. destruct (every_from _ _ _ _ _ He Ht') as (th & Ht & (E1 & E2 & _ & _ & E5 & _)).
    destruct (v_free _ _ P t th Ht Hno) as (? & Hf). split; [done|]. unfold free_ok, ctx_ok in *.
    by rewrite E1, E2, E5, Hu.
  - intros y t p Hy Hkp. destruct (Hk y t p Hy Hkp) as (? & th & Ht & ?). rewrite Ho by done. split; [done|].
    destruct (every_to _ _ _ _ _ He Ht) as (th' & Ht' & (_ & E2 & _)). exists th'. by rewrite E2.
  - intros y t a Hy Hja. specialize (Hj y t a Hy Hja). rewrite Ho by done. split; [done|].
    destruct (owned_thread _ _ _ _ P Hy Hj) as (th & Ht). destruct (every_to _ _ _ _ _ He Ht) as (th' & Ht' & _). eauto.
  - intros t Hr. destruct (v_roots _ _ P t Hr) as (y & Hy & ?). exists y. by destruct (HL y Hy) as (-> & _).
Qed.

Lemma rinv_frame w w' L L' :
  rinv w L → every rsame w w' → (∀ y, y ∈ xs → kmig (L' y) = kmig (L y)) → rinv w' L'.
Proof.
  intros R He Hk. split.
  - intros y t Hy Ht. rewrite Hk in Ht by done. destruct (v_kmig _ _ R y t Hy Ht) as (? & th & Htt & ?). split; [done|].
    destruct (every_to _ _ _ _ _ He Htt) as (th' & ? & (_ & E)). exists th'. by rewrite E.
  - intros t th' Ht. destruct (every_from _ _ _ _ _ He Ht) as (th & Ht0 & (E1 & E2)). rewrite E1, E2. by eapply v_req.
Qed.

(** ** Counting *)

Definition nb (p : pid) (o : option uthread) : Z :=
  match o with Some th => if decide (blocked_in p th) then 1 else 0 | None => 0 end.

Lemma nblocked_delete w t p :
  nblocked (set_threads (delete t (threads w)) w) p = nblocked w p - nb p (threads w !! t).
Proof using Type.
  clear ttype. unfold nblocked. cbn [threads set_threads]. rewrite map_filter_delete. unfold nb.
  destruct (threads w !! t) as [th|] eqn:Ht; [case_decide as Hb|].
  - rewrite map_size_delete_Some; [|exists th; by apply map_lookup_filter_Some].
    assert (size (filter (λ tt : tid * uthread, blocked_in p tt.2) (threads w)) ≠ 0%nat); [|lia].
    intros E. apply map_size_empty_iff in E. assert (filter (λ tt : tid * uthread, blocked_in p tt.2) (threads w) !! t = Some th) as H
      by (by apply map_lookup_filter_Some). rewrite E in H. by rewrite lookup_empty in H.
  - rewrite map_size_delete_None; [lia|]. apply map_lookup_filter_None. right. cbn. naive_solver.
  - rewrite map_size_delete_None; [lia|]. apply map_lookup_filter_None. by left.
Qed.

Lemma nblocked_insert w t th p :
  nblocked (set_threads (<[t := th]> (threads w)) w) p = nblocked w p - nb p (threads w !! t) + nb p (Some th).
Proof using Type.
  rewrite <- (nblocked_delete w t p). unfold nblocked. cbn [threads set_threads nb].
  case_decide as Hb.
  - rewrite (map_filter_insert_True (λ tt : tid * uthread, blocked_in p tt.2)) by done.
    rewrite map_filter_delete. rewrite <- (insert_delete_eq _ t th).
    rewrite map_size_insert_None by apply lookup_delete_eq. lia.
  - rewrite (map_filter_insert_False (λ tt : tid * uthread, blocked_in p tt.2)) by done. lia.
Qed.

Lemma nblocked_same (S : uthread → uthread → Prop) w w' p :
  every S w w' → (∀ th th', S th th' → t_state th' = t_state th ∧ t_pool th' = t_pool th) → nblocked w' p = nblocked w p.
Proof using Type.
  intros He HS. unfold nblocked. f_equal. rewrite <- !size_dom. f_equal. apply set_eq. intros t. rewrite !elem_of_dom.
  unfold is_Some. setoid_rewrite map_lookup_filter_Some. unfold blocked_in. cbn. split; intros (th & Ht & Hs & Hp).
  - destruct (every_from _ _ _ _ _ He Ht) as (th' & ? & (H1 & H2)%HS). exists th'. by rewrite <- H1, <- H2.
  - destruct (every_to _ _ _ _ _ He Ht) as (th' & ? & (H1 & H2)%HS). exists th'. by rewrite H1, H2.
Qed.

Lemma debts_ext L L' p : (∀ x, x ∈ xs → debt (L' x) p = debt (L x) p) → debts L' p = debts L p.
Proof using Type.
  unfold debts. induction xs as [|x l IH]; [done|]. intros H. cbn. rewrite (H x) by constructor.
  rewrite IH; [done|]. intros y Hy. apply H. by constructor.
Qed.

Lemma debts_insert L x g p : NoDup xs → x ∈ xs → debts (<[x := g]> L) p = debts L p - debt (L x) p + debt g p.
Proof using Type.
  unfold debts. induction xs as [|z l IH]; [intros _ Hx; inversion Hx|]. intros [Hz Hd]%NoDup_cons Hx. cbn.
  apply elem_of_cons in Hx as [->|Hx].
  - rewrite fn_lookup_insert. assert ((λ x, debt (<[z := g]> L x) p) <$> l = (λ x, debt (L x) p) <$> l) as ->; [|lia].
    apply list_fmap_ext. intros i y Hi%list_elem_of_lookup_2. rewrite fn_lookup_insert_ne; [done|]. congruence.
  - rewrite fn_lookup_insert_ne by congruence. rewrite IH by done. lia.
Qed.

Lemma i32_add a b : i32 (i32 a + b) = i32 (a + b).
Proof.
  unfold i32. f_equal. replace ((a + 2 ^ 31) `mod` 2 ^ 32 - 2 ^ 31 + b + 2 ^ 31) with ((a + 2 ^ 31) `mod` 2 ^ 32 + b) by lia.
  rewrite Zplus_mod_idemp_l. f_equal. lia.
Qed.

(** A change of the counters and of what is counted. *)
Lemma cinv_same w w' L L' :
  cinv w L →
  (migration = false → ∀ p, num_blocked (pools w' p) = num_blocked (pools w p) ∧
                            nblocked w' p + debts L' p = nblocked w p + debts L p) →
  cinv w' L'.
Proof. intros C H Hm p. destruct (H Hm p) as [-> ->]. by apply C. Qed.

Lemma cinv_count w w' L L' q (n : Z) :
  cinv w L → (∀ p, p ≠ q → num_blocked (pools w' p) = num_blocked (pools w p)) →
  num_blocked (pools w' q) = i32 (num_blocked (pools w q) + n) → threads w' = threads w →
  (∀ p, debts L' p = debts L p + (if decide (p = q) then n else 0)) →
  cinv w' L'.
Proof.
  intros C Hne Hq Ht Hd Hm p. rewrite Hd. unfold nblocked. rewrite Ht. fold (nblocked w p). case_decide as Hp.
  - subst p. rewrite Hq, (C Hm q), i32_add. f_equal. lia.
  - rewrite Hne, (C Hm p) by done. f_equal. lia.
Qed.

End inv.
