(* ===== verification/UltExec.v ===== *)
(** * Every access keeps the invariant

    [exec_keeps]: an access whose rule holds does not fail, and leads to a state in which
    the invariant holds again for what the rule says the stream has now; the only accesses
    that wait are those for a link and for a futex. *)

From stdpp Require Import functions base tactics decidable option list numbers gmap fin_maps sets.
From Stdlib Require Import ZArith Lia.
From S2P Require Import Prelude Abt Thread Ult UltLogic UltSafe UltInv.
Open Scope Z_scope.

(** The record of [y] after an update at [x]. *)
Ltac upd y x :=
  destruct (decide (y = x)) as [->|]; [rewrite ?fn_lookup_insert in *|rewrite ?fn_lookup_insert_ne in * by done].

(** Runs an access. *)
Ltac exe := cbv beta iota delta [exec thread update mbind C_bind mret C_ret throw get gets put modify c_assert].

Section exec.
Context (migration : bool) (ttype : tid → Z) (roots : gset tid) (xs : list xid).
Hypothesis Hnd : NoDup xs.

Abbreviation isY t := (yieldable (ttype t)) (only parsing).
Abbreviation safe := (safe migration ttype roots).
Abbreviation names := (names ttype).
Abbreviation pinv := (pinv migration ttype roots xs).
Abbreviation rinv := (rinv ttype xs).
Abbreviation jinv := (jinv ttype xs).
Abbreviation cinv := (cinv migration xs).
Abbreviation winv := (winv migration ttype roots xs).
Abbreviation at_ok := (at_ok migration ttype roots).
Abbreviation rule := (rule ttype).
Implicit Types (w : world) (L : xid → lg) (x y e : xid) (t u j : tid) (g : lg) (th : uthread) (p : pid).

(** ** Knowledge *)

Definition know_same g g' : Prop :=
  stk g' = stk g ∧ held g' = held g ∧ joined g' = joined g ∧ debt g' = debt g ∧
  owes g' = owes g ∧ futs g' = futs g ∧ wakes g' = wakes g.

Lemma Own_insert_same L x g' j :
  stk g' = stk (L x) → held g' = held (L x) → Own xs (<[x := g']> L) j ↔ Own xs L j.
Proof.
  intros E1 E2. unfold Own, owned. split; intros (y & Hy & H); exists y; (split; [done|]); upd y x; by rewrite ?E1, ?E2 in *.
Qed.

(** Only what [x] knows changes, and its current thread. *)
Lemma winv_know w w' L x g' :
  winv w L → x ∈ xs → threads w' = threads w → pools w' = pools w → futex w' = futex w →
  (∀ y, y ∈ xs → current w' y = cur (<[x := g']> L y)) → know_same (L x) g' →
  (∀ t p, kpool g' !! t = Some p → kpool (L x) !! t = Some p ∨
          owned (L x) t ∧ ∃ th, threads w !! t = Some th ∧ t_pool th = p) →
  (∀ t, t ∈ kmig g' → t ∈ kmig (L x) ∨
        named ttype t = true ∧ ∃ th, threads w !! t = Some th ∧ t_mig th ≠ None) →
  winv w' (<[x := g']> L).
Proof.
  intros [P R J C] Hx Et Ep Ef Hc (E1 & E2 & E3 & E4 & E5 & E6 & E7) Hk Hm. split.
  - eapply pinv_frame; [done|by apply every_same; [apply _|]|by rewrite Ep|..].
    + intros y Hy. specialize (Hc y Hy). by upd y x.
    + intros y t p Hy. upd y x; [|by apply P]. intros H. destruct (Hk t p H) as [?|?]; [by apply P|done].
    + intros y t a Hy. upd y x; [rewrite E3|]; intros H; by eapply (v_joined _ _ _ _ _ _ P).
  - split.
    + intros y t Hy. rewrite Et. upd y x; [|by apply R]. intros H. destruct (Hm t H) as [?|?]; [by eapply R|done].
    + rewrite Et. apply R.
  - eapply jinv_frame; [..|exact J].
    + intros y Hy. upd y x; by split.
    + intros y t Hy. upd y x; by rewrite ?E3.
    + intros t th Ht. rewrite Et. eauto using tsame_refl.
    + rewrite Et. left. eauto using tsame_refl.
    + by rewrite Ef.
    + intros j t. cbn. by rewrite Et, Own_insert_same.
  - eapply cinv_same; [done|]. intros _ p. rewrite Ep. split; [done|]. unfold nblocked. rewrite Et. f_equal.
    apply debts_ext. intros y Hy. upd y x; by rewrite ?E4.
Qed.

(** ** One thread changes *)

Lemma asleep_off w w' L x t g' j u :
  x ∈ xs → only_at t (L x) g' → (∀ v, v ≠ t → threads w' !! v = threads w !! v) → j ≠ t →
  asleep xs w L (JUlt j) u ↔ asleep xs w' (<[x := g']> L) (JUlt j) u.
Proof. intros Hx Ha Hth Hj. cbn. by rewrite (Own_at xs L x g' t j), Hth by done. Qed.

Lemma not_asleep_owned w L x t u : x ∈ xs → owned (L x) t → ¬ asleep xs w L (JUlt t) u.
Proof. intros Hx Ho [Hn _]. apply Hn. by exists x. Qed.

(** The descriptor of [t] before and after. *)
Definition thread_kept (o o' : option uthread) : Prop :=
  match o, o' with
  | Some th, Some th' => tsame th th' ∧ rsame th th'
  | None, Some th' => tnew th' ∧ t_request th' = 0
  | None, None => True
  | Some _, None => False
  end.

Lemma winv_at w w' L x t g' :
  winv w L → x ∈ xs → only_at t (L x) g' → (t ∉ stk (L x)) →
  (∀ y, y ∈ xs → y ≠ x → ¬ owned (L y) t) →
  (∀ u, u ≠ t → threads w' !! u = threads w !! u) →
  (∀ p u, u ≠ t → u ∈ units (pools w' p) ↔ u ∈ units (pools w p)) →
  (∀ p, NoDup (units (pools w' p))) →
  (∀ p, num_blocked (pools w' p) = num_blocked (pools w p)) → futex w' = futex w →
  current w' = current w → cur g' = cur (L x) →
  at_ok w' g' t →
  thread_kept (threads w !! t) (threads w' !! t) →
  gsame (L x) g' → joined g' !! t = joined (L x) !! t → kmig g' = kmig (L x) →
  (∀ u, ¬ asleep xs w L (JUlt t) u) → (∀ u, ¬ asleep xs w' (<[x := g']> L) (JUlt t) u) →
  (migration = false → ∀ p, nb p (threads w' !! t) + debt g' p = nb p (threads w !! t) + debt (L x) p) →
  winv w' (<[x := g']> L) ∧ names w ⊆ names w'.
Proof.
  intros [P R J C] Hx Ha Hts Hoth Hth Hu Hndu Hnum Hfu Hcu Hcur Hat Hkept Hg Hj Hkm Has Has' Hcount.
  assert (names w ⊆ names w') as Hn.
  { intros u. unfold names. rewrite !elem_of_filter, !elem_of_dom. intros [? Hs]. split; [done|].
    destruct (decide (u = t)) as [->|]; [|by rewrite Hth]. destruct Hs as [th Ht]. rewrite Ht in Hkept.
    destruct (threads w' !! t); [eauto|done]. }
  split; [|done]. split.
  - eapply pinv_at; try done. intros y Hy. rewrite Hcu. upd y x; [rewrite Hcur|]; by apply P.
  - split.
    + intros y u Hy Hm. assert (u ∈ kmig (L y)) as Hm' by (upd y x; by rewrite ?Hkm in Hm).
      destruct (v_kmig _ _ _ _ R y u Hy Hm') as (? & th & Ht & Hmig). split; [done|].
      destruct (decide (u = t)) as [->|]; [|exists th; by rewrite Hth]. rewrite Ht in Hkept.
      destruct (threads w' !! t) as [th'|]; [|done]. destruct Hkept as [_ [_ E]]. exists th'. by rewrite E.
    + intros u th' Ht. destruct (decide (u = t)) as [->|]; [|rewrite Hth in Ht by done; by eapply R].
      rewrite Ht in Hkept. destruct (threads w !! t) as [th|] eqn:Et.
      * destruct Hkept as [_ [E1 E2]]. rewrite E1, E2. by eapply R.
      * destruct Hkept as [_ ->]. done.
  - eapply jinv_frame; [..|exact J].
    + intros y Hy. upd y x; [done|by split].
    + intros y u Hy. upd y x; [|done]. destruct (decide (u = t)) as [->|]; [done|]. by apply Ha.
    + intros u th Ht. destruct (decide (u = t)) as [->|]; [|rewrite Hth by done; eauto using tsame_refl].
      rewrite Ht in Hkept. destruct (threads w' !! t) as [th'|]; [|done]. destruct Hkept. eauto.
    + intros u th' Ht. destruct (decide (u = t)) as [->|]; [|rewrite Hth in Ht by done; eauto using tsame_refl].
      rewrite Ht in Hkept. destruct (threads w !! t) as [th|] eqn:Et; [destruct Hkept; eauto|].
      right. split; [apply Hkept|]. intros y Hy. apply eq_None_not_Some. intros [a Hja].
      destruct (v_joined _ _ _ _ _ _ P y t a Hy Hja) as (_ & [? ?]). congruence.
    + by rewrite Hfu.
    + intros j u. destruct (decide (j = t)) as [->|]; [|by eapply asleep_off]. split; intros H; exfalso; [by eapply Has|by eapply Has'].
  - intros Hm p. rewrite Hnum, (C Hm p). f_equal. rewrite debts_insert by done.
    assert (nblocked w' p - nb p (threads w' !! t) = nblocked w p - nb p (threads w !! t)) as E.
    { rewrite <- !nblocked_delete. unfold nblocked. cbn [threads set_threads].
      assert (delete t (threads w') = delete t (threads w)) as ->; [|done]. apply map_eq. intros u.
      destruct (decide (u = t)) as [->|]; [by rewrite !lookup_delete_eq|]. rewrite !lookup_delete_ne by done. by apply Hth. }
    specialize (Hcount Hm p). lia.
Qed.

(** ** The accesses *)

Definition waiting (c : cmd) : Prop := match c with AwaitLink _ | FutexWait _ => True | _ => False end.

(** The failures that lazily allocated stacks bring: no memory for a stack, and the stack
    of a cancelled thread that last ran on another stream. *)
Definition stack_fault (x : xid) (c : cmd) (f : fault) : Prop :=
  match c with
  | AllocStack t => lazy_stack (ttype t) = true ∧ f = AssertFailed
  | FreeStack y t => lazy_stack (ttype t) = true ∧ y ≠ Some x ∧ f = UB
  | _ => False
  end.

Definition kept L x w (c : cmd) (Q : ret c → lg → Prop) (o : outcome (ret c * world)) : Prop :=
  match o with
  | Done (r, w') => ∃ g', Q r g' ∧ winv w' (<[x := g']> L) ∧ names w ⊆ names w'
  | Fault Blocked => waiting c
  | Fault f => stack_fault x c f
  end.

Section access.
Context (w : world) (L : xid → lg) (x : xid) (W : winv w L) (Hx : x ∈ xs) (n : nat).

Abbreviation keeps c := (∀ Q, rule (names w) x (L x) c Q → kept L x w c Q (exec ttype x n c w)) (only parsing).

Lemma held_at t h :
  held (L x) !! t = Some h →
  (t ∉ roots) ∧ (t ∉ stk (L x)) ∧ (∀ y, y ∈ xs → y ≠ x → ¬ owned (L y) t) ∧ (∀ p, t ∉ units (pools w p)) ∧
  ∃ th, threads w !! t = Some th ∧ hold_ok migration ttype roots (names w) t h th.
Proof.
  intros Hh. destruct W as [P _ _ _]. destruct (v_held _ _ _ _ _ _ P x t h Hx Hh) as (Hr & th & Ht & Hok).
  split_and!; [done|..|eauto].
  - intros Hs. destruct (v_stk _ _ _ _ _ _ P x Hx) as (_ & Hno). by rewrite (Hno t Hs) in Hh.
  - intros y Hy Hyx Ho. apply Hyx. eapply (v_owner _ _ _ _ _ _ P); [done..|]. right. eauto.
  - intros p Hp. destruct (v_pooled _ _ _ _ _ _ P p t Hp) as (Hno & _). apply Hno. exists x. split; [done|]. right. eauto.
Qed.

Lemma winv_refl g' : g' = L x → winv w (<[x := g']> L).
Proof.
  intros ->. eapply winv_know; eauto; try done; try by split_and!.
  intros y Hy. destruct W as [P _ _ _]. upd y x; by apply P.
Qed.

(** Reads that add nothing to what the stream has. *)
Lemma load_keeps c r (Q : ret c → lg → Prop) :
  exec ttype x n c w = Done (r, w) → Q r (L x) → kept L x w c Q (exec ttype x n c w).
Proof. intros -> HQ. exists (L x). split; [done|]. split; [by apply winv_refl|done]. Qed.

Lemma acc_at t : acc (names w) (L x) t → ∃ th, threads w !! t = Some th.
Proof. destruct W as [P _ _ _]. by eapply acc_thread. Qed.
Lemma owned_at t : owned (L x) t → ∃ th, threads w !! t = Some th.
Proof. destruct W as [P _ _ _]. by eapply owned_thread. Qed.

(** What [x] learns, and what it makes its current thread. *)
Lemma know_keeps g' :
  know_same (L x) g' → cur g' = cur (L x) →
  (∀ t p, kpool g' !! t = Some p → kpool (L x) !! t = Some p ∨
          owned (L x) t ∧ ∃ th, threads w !! t = Some th ∧ t_pool th = p) →
  (∀ t, t ∈ kmig g' → t ∈ kmig (L x) ∨
        named ttype t = true ∧ ∃ th, threads w !! t = Some th ∧ t_mig th ≠ None) →
  winv w (<[x := g']> L).
Proof.
  intros Hs Hc. eapply winv_know; try done. intros y Hy. destruct W as [P _ _ _].
  upd y x; [rewrite Hc|]; by apply P.
Qed.

Lemma LoadState_keeps t : keeps (LoadState t).
Proof.
  intros Q [Ha HQ]. destruct (acc_at t Ha) as (th & Ht). eapply load_keeps; [by exe; rewrite Ht|].
  apply HQ. intros h Hh Hk. destruct (held_at t h Hh) as (_ & _ & _ & _ & th' & Ht' & (Hok & _)).
  rewrite Hk in Hok. destruct Hok. congruence.
Qed.

Lemma LoadRequest_keeps t : keeps (LoadRequest t).
Proof.
  intros Q [Ha HQ]. destruct (acc_at t Ha) as (th & Ht). exe. rewrite Ht.
  destruct W as [P R J C]. destruct (v_req _ _ _ _ R t th Ht) as [Hn Hm].
  eexists. split; [apply HQ; intros; by apply Hn|]. split; [|done].
  destruct (has (t_request th) ABTI_THREAD_REQ_MIGRATE) eqn:E; [|by apply winv_refl].
  apply know_keeps; [by split_and!|done|by left|]. intros u. cbn. rewrite elem_of_union, elem_of_singleton.
  intros [->|?]; [|by left]. right. split; [|eauto]. destruct (named ttype t) eqn:En; [done|].
  destruct (Hn eq_refl). congruence.
Qed.

Lemma LoadType_keeps t : keeps (LoadType t).
Proof. intros Q [Ha HQ]. destruct (acc_at t Ha) as (th & Ht). eapply load_keeps; [by exe; rewrite Ht|done]. Qed.

Lemma LoadPool_keeps t : keeps (LoadPool t).
Proof.
  intros Q [Ho HQ]. destruct (owned_at t Ho) as (th & Ht). exe. rewrite Ht. eexists. split.
  - apply HQ. intros p Hp. destruct W as [P _ _ _]. destruct (v_kpool _ _ _ _ _ _ P x t p Hx Hp) as (_ & th' & ? & ?). congruence.
  - split; [|done]. apply know_keeps; [by split_and!|done| |by left]. intros u p. cbn.
    rewrite lookup_insert_Some. intros [[-> <-]|[_ ?]]; [right; eauto|by left].
Qed.

Lemma LoadParent_keeps t : keeps (LoadParent t).
Proof.
  intros Q [Hh HQ]. destruct W as [P _ _ _].
  assert (stk (L x) !! 0%nat = Some t) as H0 by (by destruct (stk (L x))).
  destruct (v_stack _ _ _ _ _ _ P x 0 t Hx H0) as (th & Ht & (_ & Hp & _)).
  eapply load_keeps; [by exe; rewrite Ht|]. rewrite Hp. by destruct (stk (L x)) as [|? []].
Qed.

Lemma LoadLast_keeps t : keeps (LoadLast t).
Proof.
  intros Q [[Hs HQ]|(h & Hh & HQ)].
  - destruct W as [P _ _ _]. apply list_elem_of_lookup in Hs as [i Hi].
    destruct (v_stack _ _ _ _ _ _ P x i t Hx Hi) as (th & Ht & (_ & _ & Hl & _)).
    eapply load_keeps; [by exe; rewrite Ht|]. by rewrite Hl.
  - destruct (held_at t h Hh) as (_ & _ & _ & _ & th & Ht & (_ & _ & _ & Hl)).
    eapply load_keeps; [by exe; rewrite Ht|]. auto.
Qed.

Lemma LoadMig_keeps t : keeps (LoadMig t).
Proof.
  intros Q [Ha HQ]. destruct (acc_at t Ha) as (th & Ht). eapply load_keeps; [by exe; rewrite Ht|].
  apply HQ. intros Hm. destruct W as [_ R _ _]. destruct (v_kmig _ _ _ _ R x t Hx Hm) as (_ & th' & ? & ?). congruence.
Qed.

Lemma GetCurrent_keeps y : keeps (GetCurrent y).
Proof.
  intros Q [-> HQ]. eapply load_keeps; [by exe; rewrite decide_True by done|].
  destruct W as [P _ _ _]. by rewrite (v_cur _ _ _ _ _ _ P x Hx).
Qed.

Lemma SetCurrent_keeps y t : keeps (SetCurrent y t).
Proof.
  intros Q (-> & Ho & HQ). exe. rewrite decide_True by done. eexists. split; [exact HQ|]. split; [|done].
  eapply (winv_know w); try done; try (by split_and!); try (by left).
  intros y Hy. cbn. destruct W as [P _ _ _]. upd y x; [done|by apply P].
Qed.

Lemma Unlock_keeps l : keeps (Unlock l).
Proof.
  intros Q HQ. exe. eexists. split; [exact HQ|]. split; [|done].
  eapply (winv_know w); try done; try (by split_and!); try (by left).
  intros y Hy. cbn. destruct W as [P _ _ _]. upd y x; by apply P.
Qed.

Lemma winv_stacks v g' : g' = L x → winv (set_stacks v w) (<[x := g']> L).
Proof.
  intros ->. eapply (winv_know w); try done; try (by split_and!); try (by left).
  intros y Hy. cbn. destruct W as [P _ _ _]. upd y x; by apply P.
Qed.

Lemma HasStack_keeps t : keeps (HasStack t).
Proof.
  intros Q [Ha HQ]. destruct (acc_at t Ha) as (th & Ht). eapply load_keeps; [by exe; rewrite Ht|].
  apply HQ. by destruct (lazy_stack (ttype t)).
Qed.

Lemma AllocStack_keeps t : keeps (AllocStack t).
Proof.
  intros Q (Ha & Hl & HQ). destruct (acc_at t Ha) as (th & Ht). exe. rewrite Ht, Hl. cbn [negb].
  destruct (n =? 0)%nat; cbn [negb]; exe; [by cbn|]. exists (L x). split; [done|]. split; [by apply winv_stacks|done].
Qed.

Lemma FreeStack_keeps (y : option xid) t : keeps (FreeStack y t).
Proof.
  intros Q (Ha & Hl & HQ). destruct (acc_at t Ha) as (th & Ht). exe. case_decide; [|by cbn]. rewrite Ht.
  exists (L x). split; [done|]. split; [by apply winv_stacks|done].
Qed.

Lemma Assert_keeps b : keeps (Assert b).
Proof. intros Q [-> HQ]. by eapply load_keeps. Qed.

(** ** A thread in hand *)

Definition put_thread t th : world := set_threads (<[t := th]> (threads w)) w.

Lemma put_names t th th' : threads w !! t = Some th → names (put_thread t th') = names w.
Proof.
  intros Ht. apply (every_names ttype (λ _ _, True)). by apply (every_at _ w _ t th th').
Qed.

Lemma winv_held t h h' th th' g' :
  held (L x) !! t = Some h → threads w !! t = Some th →
  stk g' = stk (L x) → cur g' = cur (L x) → held g' = <[t := h']> (held (L x)) →
  joined g' = joined (L x) → kmig g' = kmig (L x) → gsame (L x) g' →
  (∀ u, u ≠ t → kpool g' !! u = kpool (L x) !! u) → (∀ p, kpool g' !! t = Some p → t_pool th' = p) →
  hold_ok migration ttype roots (names w) t h' th' → tsame th th' → rsame th th' →
  (migration = false → ∀ p, nb p (Some th') + debt g' p = nb p (Some th) + debt (L x) p) →
  winv (put_thread t th') (<[x := g']> L) ∧ names w ⊆ names (put_thread t th').
Proof.
  intros Hh Ht Es Ec Eh Ej Em Hg Hk Hkt Hok Hts Hrs Hcount.
  destruct (held_at t h Hh) as (Hr & Hns & Hoth & Hnp & _). destruct W as [P _ _ _].
  assert (threads (put_thread t th') !! t = Some th') as Ht' by (cbn; apply lookup_insert_eq).
  apply (winv_at w _ L x t g'); try done.
  - split; [done|]. intros u Hu. rewrite Eh, Ej, Hk, lookup_insert_ne by done. done.
  - intros u Hu. cbn. by rewrite lookup_insert_ne.
  - by apply P.
  - split; rewrite ?Eh, ?lookup_insert_eq, ?(put_names t th) by done; try done.
    + intros h0 [= <-]. eauto.
    + intros p Hp. split; [eauto|]. exists th'. auto.
  - rewrite Ht, Ht'. by split.
  - by rewrite Ej.
  - intros u. apply (not_asleep_owned w L x); [done|]. right. eauto.
  - intros u. apply (not_asleep_owned _ _ x); [done|]. rewrite fn_lookup_insert. right. rewrite Eh, lookup_insert_eq. eauto.
  - by rewrite Ht, Ht'.
Qed.

Lemma nb_live p th : live th → nb p (Some th) = 0.
Proof. intros [E|E]; cbn; rewrite decide_False; try done; intros [? _]; congruence. Qed.

Lemma nb_blocked p th : t_state th = ABT_THREAD_STATE_BLOCKED → nb p (Some th) = if decide (p = t_pool th) then 1 else 0.
Proof. intros E. cbn. unfold blocked_in. repeat case_decide; naive_solver. Qed.

Lemma kind_live k th : kind_ok k th → k = HReady ∨ k = HRun → live th.
Proof. intros Hk [->| ->]; [by left|done]. Qed.

(** Between ready and running. *)
Lemma store_live t h th s k :
  held (L x) !! t = Some h → threads w !! t = Some th → hold_ok migration ttype roots (names w) t h th →
  hk h = HReady ∨ hk h = HRun → kind_ok k (set_t_state s th) → live (set_t_state s th) →
  winv (put_thread t (set_t_state s th)) (<[x := keep t (set_kind k h) (L x)]> L) ∧
  names w ⊆ names (put_thread t (set_t_state s th)).
Proof.
  intros Hh Ht (Hk & Hc & Hp & Hl) Hgo Hk' Hlive. apply (winv_held t h (set_kind k h) th); try done.
  - intros p Hkp. destruct W as [P _ _ _]. destruct (v_kpool _ _ _ _ _ _ P x t p Hx Hkp) as (_ & th0 & Ht0 & E).
    cbn. congruence.
  - split_and!; try done. pose proof (kind_live _ _ Hk Hgo) as Hl0. unfold live in *. cbn in *. split; intros E; exfalso; naive_solver congruence.
  - intros _ p. rewrite !nb_live; [done| |done]. by eapply kind_live.
Qed.

(** A blocked thread is resumed. *)
Lemma store_claim t h th s k :
  held (L x) !! t = Some h → threads w !! t = Some th → hold_ok migration ttype roots (names w) t h th →
  hk h = HClaim → kind_ok k (set_t_state s th) → live (set_t_state s th) →
  let g' := keep t (set_kind k h) (learn t (t_pool th) (set_debt (bump (t_pool th) 1 (debt (L x))) (L x))) in
  winv (put_thread t (set_t_state s th)) (<[x := g']> L) ∧ names w ⊆ names (put_thread t (set_t_state s th)).
Proof.
  intros Hh Ht (Hk & Hc & Hp & Hl) Hgo Hk' Hlive g'. rewrite Hgo in Hk. destruct Hk as [Hk Hwt].
  apply (winv_held t h (set_kind k h) th); try done.
  - intros u Hu. cbn. by rewrite lookup_insert_ne.
  - intros p. cbn. rewrite lookup_insert_eq. by intros [= <-].
  - split_and!; try done. rewrite Hk. destruct Hlive as [E|E]; cbn in E; subst s; by split.
  - intros _ p. rewrite nb_live, nb_blocked by done. cbn. unfold bump. case_decide; lia.
Qed.

Lemma StoreState_live_keeps t s Q h :
  s ≠ ABT_THREAD_STATE_TERMINATED →
  held (L x) !! t = Some h → store_state ttype (L x) t h s (Q ()) →
  kept L x w (StoreState t s) Q (exec ttype x n (StoreState t s) w).
Proof.
  intros Hs Hh HQ. destruct (held_at t h Hh) as (_ & _ & _ & _ & th & Ht & Hok). exe. rewrite Ht.
  fold (put_thread t (set_t_state s th)).
  assert (knows (L x) t (t_pool th)) as Hkn.
  { intros p Hp. destruct W as [P _ _ _]. destruct (v_kpool _ _ _ _ _ _ P x t p Hx Hp) as (_ & th' & ? & ?). congruence. }
  destruct s, (hk h) eqn:Ek; cbn in HQ; rewrite ?Ek in HQ; cbn in HQ; try done.
  all: try specialize (HQ _ Hkn).
  all: eexists; split; [exact HQ|]; (apply store_live || apply store_claim); unfold live; cbn; auto.
  all: by right.
Qed.

Lemma StorePool_keeps t p : keeps (StorePool t p).
Proof.
  intros Q (h & Hh & Hk & HQ). destruct (held_at t h Hh) as (_ & _ & _ & _ & th & Ht & (Hok & Hc & Hp & Hl)).
  exe. rewrite Ht. eexists. split; [exact HQ|]. apply (winv_held t h h th); try done.
  - by cbn; rewrite insert_id.
  - intros u Hu. cbn. by rewrite lookup_insert_ne.
  - intros q. cbn. rewrite lookup_insert_eq. by intros [= <-].
  - intros _ q. assert (t_state th ≠ ABT_THREAD_STATE_BLOCKED) as Hs.
    { destruct (hk h); [congruence|destruct Hok; congruence|done|congruence]. }
    unfold nb, blocked_in. cbn. rewrite !decide_False by naive_solver. done.
Qed.

Lemma StoreParent_keeps t q : keeps (StoreParent t q).
Proof.
  intros Q (h & Hh & HQ). destruct (held_at t h Hh) as (_ & _ & _ & _ & th & Ht & (Hok & Hc & Hp & Hl)).
  exe. rewrite Ht. eexists. split; [exact HQ|]. eapply (winv_held t h _ th); try done.
  - intros p Hkp. destruct W as [P _ _ _]. destruct (v_kpool _ _ _ _ _ _ P x t p Hx Hkp) as (_ & th0 & Ht0 & E). cbn. congruence.
  - split_and!; try done. by intros v [= <-].
Qed.

Lemma StoreLast_keeps t v : keeps (StoreLast t v).
Proof.
  intros Q (h & Hh & HQ). destruct (held_at t h Hh) as (_ & _ & _ & _ & th & Ht & (Hok & Hc & Hp & Hl)).
  exe. rewrite Ht. eexists. split; [exact HQ|]. eapply (winv_held t h _ th); try done.
  - intros p Hkp. destruct W as [P _ _ _]. destruct (v_kpool _ _ _ _ _ _ P x t p Hx Hkp) as (_ & th0 & Ht0 & E). cbn. congruence.
  - split_and!; try done. by intros q [= <-].
Qed.

(** ** Threads that are given up, and taken *)

Lemma drop_only_at t g d : only_at t g (drop t (set_debt d g)).
Proof. split; [done|]. intros u Hu. cbn. by rewrite !lookup_delete_ne by done. Qed.

(** [x] gives [t] up. *)
Lemma winv_drop t h th th' w' d :
  held (L x) !! t = Some h → joined (L x) !! t = None → threads w !! t = Some th →
  threads w' !! t = Some th' → (∀ u, u ≠ t → threads w' !! u = threads w !! u) →
  (∀ p u, u ≠ t → u ∈ units (pools w' p) ↔ u ∈ units (pools w p)) → (∀ p, NoDup (units (pools w' p))) →
  (∀ p, num_blocked (pools w' p) = num_blocked (pools w p)) → futex w' = futex w → current w' = current w →
  free_ok migration ttype roots (names w) w' t th' →
  (∀ p, t ∈ units (pools w' p) → t_state th' = ABT_THREAD_STATE_READY ∧ t_pool th' = p) →
  tsame th th' → rsame th th' →
  (t_state th' = ABT_THREAD_STATE_BLOCKED → t_waits th' = ForResume) →
  (migration = false → ∀ p, nb p (Some th') + d p = nb p (Some th) + debt (L x) p) →
  winv w' (<[x := drop t (set_debt d (L x))]> L) ∧ names w ⊆ names w'.
Proof.
  intros Hh Hj Ht Ht' Hth Hu Hnd' Hnum Hfu Hcu Hfree Hpl Hts Hrs Hb Hcount.
  destruct (held_at t h Hh) as (Hr & Hns & Hoth & _).
  assert (names w' = names w) as En.
  { apply (every_names ttype (λ _ _, True)). intros u. destruct (decide (u = t)) as [->|]; [rewrite Ht, Ht'; by constructor|].
    rewrite Hth by done. by destruct (threads w !! u); constructor. }
  apply (winv_at w w' L x t); try done.
  - apply drop_only_at.
  - split; cbn; rewrite !lookup_delete_eq, ?En; try done.
    + intros _ th0 E. rewrite Ht' in E. by injection E as <-.
    + intros _ p Hp. exists th'. naive_solver.
  - rewrite Ht, Ht'. by split.
  - cbn. by rewrite lookup_delete_eq, Hj.
  - intros u. apply (not_asleep_owned w L x); [done|]. right. eauto.
  - intros u (_ & th0 & E & Hs & Hw). rewrite Ht' in E. injection E as <-. rewrite Hb in Hw by done. done.
  - by rewrite Ht, Ht'.
Qed.

Lemma StoreBlocked_resume_keeps t Q h :
  held (L x) !! t = Some h → hk h = HRun → hctx h = true → isY t = true → joined (L x) !! t = None →
  (∀ p, knows (L x) t p → Q () (drop t (set_debt (bump p (-1) (debt (L x))) (L x)))) →
  kept L x w (StoreBlocked t ForResume) Q (exec ttype x n (StoreBlocked t ForResume) w).
Proof.
  intros Hh Hk Hc HY Hj HQ. destruct (held_at t h Hh) as (_ & _ & _ & Hnp & th & Ht & (Hok & Hctx & _)).
  rewrite Hk in Hok. exe. rewrite Ht. destruct W as [P _ _ _]. eexists. split.
  - apply (HQ (t_pool th)). intros p Hp. destruct (v_kpool _ _ _ _ _ _ P x t p Hx Hp) as (_ & th' & ? & ?). congruence.
  - eapply (winv_drop t h th (set_t_waits ForResume (set_t_state ABT_THREAD_STATE_BLOCKED th))); try done; cbn -[nb].
    + by rewrite lookup_insert_eq.
    + intros u Hu. by rewrite lookup_insert_ne.
    + apply P.
    + right. cbn. split; [|by left]. by apply Hctx.
    + intros p Hp. by destruct (Hnp p).
    + split_and!; try done. cbn. split; intros E; [|done]. destruct Hok; congruence.
    + intros _ p. rewrite (nb_live p th) by done. unfold bump. rewrite nb_blocked by done. cbn -[Z.add]. case_decide; lia.
Qed.

Lemma Push_keeps p t : keeps (Push p t).
Proof.
  intros Q (h & Hh & Hk & Hc & Hj & Hkp & HQ). destruct (held_at t h Hh) as (_ & _ & _ & Hnp & th & Ht & (Hok & Hctx & _)).
  rewrite Hk in Hok. cbn in Hok. exe. rewrite Ht. destruct W as [P _ _ _].
  destruct (v_kpool _ _ _ _ _ _ P x t p Hx Hkp) as (_ & th' & Ht' & Ep). assert (th' = th) as -> by congruence.
  eexists. split; [exact HQ|]. replace (drop t (L x)) with (drop t (set_debt (debt (L x)) (L x))) by (by destruct (L x)).
  eapply (winv_drop t h th th); try done; cbn -[nb].
  - intros q u Hu. upd q p; [cbn; set_solver|done].
  - intros q. upd q p; [cbn|apply P]. apply NoDup_app. split; [apply P|]. split; [|apply NoDup_singleton].
    intros u Hpu ->%list_elem_of_singleton. by destruct (Hnp p).
  - intros q. by upd q p.
  - right. split; [by apply Hctx|]. right. split; [done|]. cbn. rewrite Ep, fn_lookup_insert. cbn. set_solver.
  - intros q. upd q p; [done|]. intros Hq. by destruct (Hnp q).
  - intros E. congruence.
Qed.

(** [x] takes a thread that nobody has. *)
Lemma winv_take t p th' w' :
  (∀ y, y ∈ xs → ¬ owned (L y) t) → (t ∉ roots) →
  threads w' !! t = Some th' → (∀ u, u ≠ t → threads w' !! u = threads w !! u) →
  (∀ q u, u ≠ t → u ∈ units (pools w' q) ↔ u ∈ units (pools w q)) → (∀ q, NoDup (units (pools w' q))) →
  (∀ q, t ∉ units (pools w' q)) →
  (∀ q, num_blocked (pools w' q) = num_blocked (pools w q)) → futex w' = futex w → current w' = current w →
  hold_ok migration ttype roots (names w') t popped th' → t_pool th' = p →
  thread_kept (threads w !! t) (Some th') →
  (∀ u, ¬ asleep xs w L (JUlt t) u) → (∀ q, nb q (threads w !! t) = 0) →
  winv w' (<[x := learn t p (keep t popped (L x))]> L) ∧ names w ⊆ names w'.
Proof.
  intros Ho Hr Ht' Hth Hu Hndu Hnp Hnum Hfu Hcu Hok Hp Hkept Has Hn0. destruct W as [P _ _ _].
  apply (winv_at w w' L x t); try done; rewrite ?Ht'; try done.
  - split; [done|]. intros u Hut. cbn. by rewrite !lookup_insert_ne.
  - intros Hs. apply (Ho x Hx). by left.
  - auto.
  - split; cbn; rewrite ?lookup_insert_eq; try done.
    + intros h [= <-]. eauto.
    + intros q [= <-]. eauto.
  - intros u. apply (not_asleep_owned _ _ x); [done|]. rewrite fn_lookup_insert. right. cbn. rewrite lookup_insert_eq. eauto.
  - intros _ q. rewrite Hn0. destruct Hok as (Hk & _). rewrite (nb_live q th'); [done|]. by left.
Qed.

Lemma unowned_new t : (∀ y, y ∈ xs → ¬ owned (L y) t) → (¬ owned (L x) t) ∧ joined (L x) !! t = None.
Proof.
  intros Ho. split; [by apply Ho|]. apply eq_None_not_Some. intros [a Ha]. destruct W as [P _ _ _].
  destruct (v_joined _ _ _ _ _ _ P x t a Hx Ha) as (? & _). by eapply Ho.
Qed.

Lemma elem_of_delete_nodup (l : list tid) i t u : NoDup l → l !! i = Some t → u ≠ t → u ∈ delete i l ↔ u ∈ l.
Proof.
  intros _ Hi Hu. rewrite (delete_Permutation l i t Hi) at 2. rewrite elem_of_cons. naive_solver.
Qed.

Lemma not_elem_delete (l : list tid) i t : NoDup l → l !! i = Some t → t ∉ delete i l.
Proof. intros Hl Hi. rewrite (delete_Permutation l i t Hi) in Hl. by apply NoDup_cons in Hl as []. Qed.

Lemma Pop_keeps p : keeps (Pop p).
Proof.
  intros Q [HN HS]. exe. destruct (units (pools w p) !! n) as [t|] eqn:E.
  2: { exists (L x). split; [done|]. split; [by apply winv_refl|done]. }
  pose proof W as [P _ _ _]. pose proof (list_elem_of_lookup_2 _ _ _ E) as Hin.
  destruct (v_pooled _ _ _ _ _ _ P p t Hin) as (Ho & th & Ht & Hs & Hp).
  assert (∀ y, y ∈ xs → ¬ owned (L y) t) as Ho' by (intros y Hy Hoy; apply Ho; by exists y).
  destruct (unowned_new t Ho') as (Ho1 & Hj1). pose proof (v_nodup _ _ _ _ _ _ P) as Hn.
  destruct (v_free _ _ _ _ _ _ P t th Ht Ho) as (Hr & [?|(Hc & _)]); [congruence|].
  eexists. split; [by apply HS|]. eapply (winv_take t p th); try done; cbn -[nb].
  - intros q u Hu. upd q p; [cbn|done]. by apply (elem_of_delete_nodup _ _ t).
  - intros q. upd q p; [cbn|by apply P]. specialize (Hn p). rewrite (delete_Permutation _ _ _ E) in Hn. by apply NoDup_cons in Hn as [].
  - intros q Hq. upd q p; [by eapply not_elem_delete in Hq|]. destruct (v_pooled _ _ _ _ _ _ P q t Hq) as (_ & th' & ? & _ & ?). congruence.
  - intros q. by upd q p.
  - rewrite Ht. split; reflexivity.
  - intros u (_ & th' & ? & ? & _). congruence.
  - intros q. rewrite Ht. apply nb_live. by left.
Qed.

Lemma NewThread_keeps type p : keeps (NewThread type p).
Proof.
  intros Q [HN HS]. exe. case_decide as E.
  2: { exists (L x). split; [done|]. split; [by apply winv_refl|done]. }
  destruct E as [E Ety]. pose proof W as [P _ _ _].
  assert (∀ y, y ∈ xs → ¬ owned (L y) n) as Ho'.
  { intros y Hy Hoy. destruct (owned_thread _ _ _ _ _ _ _ _ P Hy Hoy). congruence. }
  destruct (unowned_new n Ho') as (Ho1 & Hj1).
  assert (∀ q, n ∉ units (pools w q)) as Hnp.
  { intros q Hq. destruct (v_pooled _ _ _ _ _ _ P q n Hq) as (_ & th & ? & _). congruence. }
  eexists. split; [by apply HS|]. eapply (winv_take n p (new_thread p)); try done; cbn -[nb].
  - intros Hr. destruct (v_roots _ _ _ _ _ _ P n Hr) as (y & Hy & Hs). eapply Ho'; [done|]. by left.
  - by rewrite lookup_insert_eq.
  - intros u Hu. by rewrite lookup_insert_ne.
  - by apply P.
  - split_and!; try done. intros _ HY. exists User. split; [done|]. intros y rest kp km d Hd Hr.
    by split_and!.
  - by rewrite E.
  - intros u (_ & th' & ? & ? & _). congruence.
  - intros q. by rewrite E.
Qed.

(** ** Requests *)

Lemma has_bit v k : 0 ≤ k → has v (Z.shiftl 1 k) = Z.testbit v k.
Proof.
  intros Hk. unfold has. rewrite Z.shiftl_1_l.
  destruct (Z.testbit v k) eqn:E.
  - apply negb_true_iff, Z.eqb_neq. intros E0. assert (Z.testbit (Z.land v (2 ^ k)) k = false) as H by (by rewrite E0, Z.bits_0).
    rewrite Z.land_spec, E, Z.pow2_bits_true in H by done. done.
  - apply negb_false_iff, Z.eqb_eq. apply Z.bits_inj'. intros i Hi. rewrite Z.land_spec, Z.bits_0.
    destruct (decide (i = k)) as [->|]; [by rewrite E|]. rewrite Z.pow2_bits_false by done. apply andb_false_r.
Qed.

Lemma has_join v : has v ABTI_THREAD_REQ_JOIN = Z.testbit v 0.
Proof. by apply has_bit. Qed.
Lemma has_cancel v : has v ABTI_THREAD_REQ_CANCEL = Z.testbit v 1.
Proof. by apply has_bit. Qed.
Lemma has_migrate v : has v ABTI_THREAD_REQ_MIGRATE = Z.testbit v 2.
Proof. by apply has_bit. Qed.

Lemma nb_same p th th' : psame th th' → nb p (Some th') = nb p (Some th).
Proof. intros (E1 & E2 & _). cbn. repeat case_decide; unfold blocked_in in *; naive_solver congruence. Qed.

(** Fields change that say nothing of where [t] is, nor of who joins it. *)
Lemma winv_fields t th th' g' :
  threads w !! t = Some th → psame th th' → tsame th th' → t_waits th' = t_waits th →
  know_same (L x) g' → cur g' = cur (L x) → kpool g' = kpool (L x) →
  rinv (put_thread t th') (<[x := g']> L) →
  winv (put_thread t th') (<[x := g']> L) ∧ names w ⊆ names (put_thread t th').
Proof.
  intros Ht Hps Hts Hw (E1 & E2 & E3 & E4 & E5 & E6 & E7) Ec Ek R. rewrite (put_names t th) by done. split; [|done].
  destruct W as [P _ J C]. split.
  - eapply pinv_frame; [done|by apply (every_at _ _ _ t th th'); [apply _|..]|done|..].
    + intros y Hy. cbn. upd y x; rewrite ?E1, ?E2, ?Ec; split_and!; try done; by apply P.
    + intros y u p Hy. upd y x; [rewrite Ek|]; by apply P.
    + intros y u a Hy. upd y x; [rewrite E3|]; intros H; by eapply (v_joined _ _ _ _ _ _ P).
  - done.
  - assert (every tsame w (put_thread t th')) as He by (by apply (every_at _ _ _ t th th'); [apply _|..]).
    eapply jinv_frame; [..|exact J].
    + intros y Hy. upd y x; by split.
    + intros y u Hy. upd y x; by rewrite ?E3.
    + intros u th0. by eapply every_to.
    + intros u th0 Hu. left. by eapply every_from.
    + done.
    + intros j u. cbn. rewrite Own_insert_same by done.
      destruct (decide (j = t)) as [->|]; [|by rewrite lookup_insert_ne]. rewrite lookup_insert_eq.
      split; intros (Hn & th0 & Eth & Hs & Hwu); (split; [done|]).
      * exists th'. split; [done|]. rewrite Hw. replace (t_state th') with (t_state th) by (symmetry; apply Hps). naive_solver.
      * exists th. split; [done|]. injection Eth as <-. rewrite <- Hw. replace (t_state th) with (t_state th') by apply Hps. done.
  - eapply cinv_same; [done|]. intros _ p. split; [done|]. unfold put_thread. rewrite nblocked_insert, Ht.
    rewrite (nb_same p th th') by done.
    rewrite (debts_ext xs L); [lia|]. intros y Hy. upd y x; by rewrite ?E4.
Qed.

(** The requests of one thread change. *)
Lemma rinv_at t th th' g' :
  threads w !! t = Some th →
  (named ttype t = false → has (t_request th') ABTI_THREAD_REQ_CANCEL = false ∧ has (t_request th') ABTI_THREAD_REQ_MIGRATE = false) →
  (has (t_request th') ABTI_THREAD_REQ_MIGRATE = true → t_mig th' ≠ None) →
  (t_mig th ≠ None → t_mig th' ≠ None) →
  (∀ u, u ∈ kmig g' → u ∈ kmig (L x) ∨ u = t ∧ named ttype t = true ∧ t_mig th' ≠ None) →
  rinv (put_thread t th') (<[x := g']> L).
Proof.
  intros Ht H1 H2 Hm Hk. destruct W as [_ R _ _]. split.
  - intros y u Hy Hu. cbn. assert (u ∈ kmig (L y) ∨ u = t ∧ named ttype t = true ∧ t_mig th' ≠ None) as [Hu'|(-> & ? & ?)]
      by (upd y x; auto).
    + destruct (v_kmig _ _ _ _ R y u Hy Hu') as (? & th0 & Ht0 & ?). split; [done|].
      destruct (decide (u = t)) as [->|]; [|exists th0; by rewrite lookup_insert_ne].
      exists th'. rewrite lookup_insert_eq. split; [done|]. apply Hm. congruence.
    + split; [done|]. exists th'. by rewrite lookup_insert_eq.
  - intros u th0. cbn. destruct (decide (u = t)) as [->|]; [rewrite lookup_insert_eq; by intros [= <-]|].
    rewrite lookup_insert_ne by done. by apply R.
Qed.

Lemma StoreMig_keeps t p : keeps (StoreMig t p).
Proof.
  intros Q [Ha HQ]. destruct (names_thread ttype w t Ha) as (Hn & th & Ht). exe. rewrite Ht. eexists. split; [exact HQ|].
  fold (put_thread t (set_t_mig (Some p) th)). apply (winv_fields t th); try done.
  - apply (rinv_at t th); try done; [by rewrite Hn|]. intros u. cbn. rewrite elem_of_union, elem_of_singleton.
    intros [->|?]; [right|by left]. by split_and!.
Qed.

Lemma FetchOr_request_keeps t bits Q :
  bits = ABTI_THREAD_REQ_CANCEL ∨ bits = ABTI_THREAD_REQ_MIGRATE ∧ t ∈ kmig (L x) → t ∈ names w →
  (∀ v, Q v (L x)) → kept L x w (FetchOr t bits) Q (exec ttype x n (FetchOr t bits) w).
Proof.
  intros Hb Ha HQ. destruct (names_thread ttype w t Ha) as (Hn & th & Ht). exe. rewrite !Ht. eexists. split; [apply HQ|].
  pose proof W as [_ R _ _]. destruct (v_req _ _ _ _ R t th Ht) as [_ Hm].
  set (th' := set_t_request _ th). fold (put_thread t th'). apply (winv_fields t th th'); try done.
  - split_and!; try done. unfold joins. rewrite !has_join. cbn -[Z.testbit Z.lor]. rewrite Z.lor_spec.
    destruct Hb as [->|[-> _]]; cbn; by rewrite orb_false_r.
  - apply (rinv_at t th); try done; cbn -[Z.testbit Z.lor].
    + by rewrite Hn.
    + rewrite has_migrate in *. rewrite Z.lor_spec. destruct Hb as [->|[-> Hk]].
      * cbn. by rewrite orb_false_r.
      * intros _. destruct (v_kmig _ _ _ _ R x t Hx Hk) as (_ & th0 & ? & ?). congruence.
    + by left.
Qed.

Lemma FetchAnd_keeps t bits : keeps (FetchAnd t bits).
Proof.
  intros Q (-> & Ho & HQ). destruct (owned_at t Ho) as (th & Ht). exe. rewrite !Ht. eexists. split; [exact HQ|].
  pose proof W as [_ R _ _]. destruct (v_req _ _ _ _ R t th Ht) as [H1 Hm].
  set (th' := set_t_request _ th). fold (put_thread t th').
  assert (∀ k, 0 ≤ k → Z.testbit (Z.lnot ABTI_THREAD_REQ_MIGRATE) k = negb (k =? 2)) as Hbit.
  { intros k Hk. rewrite Z.lnot_spec by done. f_equal. change ABTI_THREAD_REQ_MIGRATE with (2 ^ 2). by rewrite Z.pow2_bits_eqb, Z.eqb_sym by done. }
  apply (winv_fields t th th'); try done.
  - split_and!; try done. unfold joins. rewrite !has_join. cbn -[Z.testbit Z.land Z.lnot]. by rewrite Z.land_spec, Hbit, andb_true_r by done.
  - apply (rinv_at t th); try done; cbn -[Z.testbit Z.land Z.lnot].
    + intros Hf. destruct (H1 Hf) as [Hc Hg]. rewrite has_cancel, has_migrate in *. rewrite !Z.land_spec, Hc, Hg. done.
    + rewrite has_migrate, Z.land_spec, Hbit, andb_false_r by done. done.
    + by left.
Qed.

(** ** Counters *)

Lemma count_keeps q (k : Z) :
  winv (set_pool q (UPool (units (pools w q)) (i32 (num_blocked (pools w q) + k))) w)
       (<[x := set_debt (bump q k (debt (L x))) (L x)]> L).
Proof.
  destruct W as [P R J C]. split.
  - eapply pinv_frame; [done|by apply every_same; [apply _|]|..].
    + intros p. cbn. by upd p q.
    + intros y Hy. cbn. upd y x; split_and!; try done; by apply P.
    + intros y t p Hy. upd y x; by apply P.
    + intros y t a Hy. upd y x; intros H; by eapply (v_joined _ _ _ _ _ _ P).
  - eapply rinv_frame; [done|by apply every_same; [apply _|]|]. intros y Hy. by upd y x.
  - eapply jinv_frame; [..|exact J]; try done.
    + intros y Hy. upd y x; by split.
    + intros y t Hy. by upd y x.
    + intros t th Ht. eauto using tsame_refl.
    + left. eauto using tsame_refl.
    + intros j t. cbn. by rewrite Own_insert_same.
  - eapply (cinv_count _ _ w _ L _ q k); try done.
    + intros p Hp. cbn. by rewrite fn_lookup_insert_ne.
    + cbn. by rewrite fn_lookup_insert.
    + intros p. rewrite debts_insert by done. cbn. unfold bump. case_decide; lia.
Qed.

Lemma IncBlocked_keeps p : keeps (IncBlocked p).
Proof. intros Q HQ. eexists. split; [exact HQ|]. split; [apply count_keeps|done]. Qed.
Lemma DecBlocked_keeps p : keeps (DecBlocked p).
Proof. intros Q HQ. eexists. split; [exact HQ|]. split; [apply (count_keeps p (-1))|done]. Qed.

(** ** The end of a thread *)

Lemma Clo_at g' t u : only_at t (L x) g' → u ≠ t → Clo xs (<[x := g']> L) u ↔ Clo xs L u.
Proof.
  intros (_ & Ha) Hu. unfold Clo. split; intros (y & Hy & H); exists y; (split; [done|]); upd y x; try done.
  - by destruct (Ha u Hu) as (_ & _ & <-).
  - by destruct (Ha u Hu) as (_ & _ & ->).
Qed.

Lemma jinv_gone w' t h th g' :
  held (L x) !! t = Some h → threads w !! t = Some th → only_at t (L x) g' → gsame (L x) g' →
  (isY t = true → ¬ is_open xs L t th) →
  (∀ u, u ≠ t → threads w' !! u = threads w !! u) → futex w' = futex w →
  match threads w' !! t with
  | Some th' => t_state th' = ABT_THREAD_STATE_TERMINATED ∧ lj_same th th' ∧ (isY t = true → joins th = true) ∧
                (∀ a, joined g' !! t = Some a → joined (L x) !! t = Some a)
  | None => named ttype t = false ∧ (¬ is_open xs L t th) ∧ joined g' !! t = None
  end →
  jinv w' (<[x := g']> L).
Proof.
  intros Hh Ht Ha Hg Hcl Hth Hfu H. destruct (held_at t h Hh) as (_ & _ & Hoth & _). destruct W as [P _ J _].
  assert (∀ u th0, u ≠ t → is_open xs (<[x := g']> L) u th0 ↔ is_open xs L u th0) as Hop.
  { intros u th0 Hu. unfold is_open. by rewrite (Clo_at g' t). }
  eapply jinv_keep; [|exact J]. split.
  - intros y Hy. upd y x; [done|by split].
  - intros u th0 Hu Hon. destruct (decide (u = t)) as [->|Hut].
    + rewrite Ht in Hu. injection Hu as <-. destruct (threads w' !! t) as [th'|]; [|destruct H as (En & Hno & _), Hon as [?|?]; [done|congruence]].
      destruct H as (Hs & Hlj & _). exists th'. split_and!; try done; [intros HY Ho; by destruct (Hcl HY)|].
      intros _ (Hn & _). done.
    + exists th0. rewrite Hth, Hop by done. split_and!; try done.
  - intros u th' Hu HY Hon. destruct (decide (u = t)) as [->|Hut].
    + rewrite Hu in H. destruct H as (Hs & _). by destruct Hon.
    + left. exists th'. rewrite Hth in Hu by done. rewrite Hop in Hon by done. split_and!; try done.
  - by rewrite Hfu.
  - intros j u. destruct (decide (j = t)) as [->|]; [|by eapply asleep_off]. split; intros Hs; exfalso.
    + eapply not_asleep_owned; [exact Hx| |exact Hs]. right. eauto.
    + destruct Hs as (_ & th' & E & Hs & _). rewrite E in H. destruct H as (? & _). congruence.
  - intros y u a th' Hy Hj Hu. destruct (decide (u = t)) as [->|Hut].
    + rewrite Hu in H. destruct H as (_ & (_ & <-) & _ & Hja). upd y x; [by eapply (v_seen _ _ _ _ J x t a); [|auto|]|].
      destruct (v_joined _ _ _ _ _ _ P y t a Hy Hj) as (Ho & _). by destruct (Hoth y).
    + rewrite Hth in Hu by done. assert (joined (L y) !! u = Some a) as Hj'; [|by eapply (v_seen _ _ _ _ J y u a)].
      upd y x; [|done]. by destruct Ha as [_ Ha]; destruct (Ha u Hut) as (_ & _ & <-).
  - intros u th' Hu HY Hs. destruct (decide (u = t)) as [->|Hut].
    + rewrite Hu in H. destruct H as (_ & (_ & <-) & Hj & _). auto.
    + rewrite Hth in Hu by done. by apply (v_term _ _ _ _ J u).
Qed.

Lemma nb_not_blocked p th : t_state th ≠ ABT_THREAD_STATE_BLOCKED → nb p (Some th) = 0.
Proof. intros E. cbn. rewrite decide_False; [done|]. by intros [? _]. Qed.

Lemma StoreTerminated_keeps t h Q :
  held (L x) !! t = Some h → hk h = HReady ∨ hk h = HRun → (isY t = true → joined (L x) !! t = Some JClosed) →
  Q () (if named ttype t then drop t (L x) else keep t (set_kind HDead h) (L x)) →
  kept L x w (StoreState t ABT_THREAD_STATE_TERMINATED) Q (exec ttype x n (StoreState t ABT_THREAD_STATE_TERMINATED) w).
Proof.
  intros Hh Hk Hcl HQ. destruct (held_at t h Hh) as (Hr & Hns & Hoth & Hnp & th & Ht & (Hok & Hc & Hp & Hl)).
  pose proof (kind_live _ _ Hok Hk) as Hlive. exe. rewrite Ht. eexists. split; [exact HQ|].
  set (th' := set_t_state _ th). fold (put_thread t th'). set (g' := if named ttype t then _ else _).
  assert (threads (put_thread t th') !! t = Some th') as Ht' by (cbn; apply lookup_insert_eq).
  assert (∀ u, u ≠ t → threads (put_thread t th') !! u = threads w !! u) as Hth by (intros u Hu; cbn; by rewrite lookup_insert_ne).
  assert (only_at t (L x) g') as Ha.
  { subst g'. destruct (named ttype t); (split; [done|]); intros u Hu; cbn; by rewrite ?lookup_delete_ne, ?lookup_insert_ne by done. }
  assert (gsame (L x) g') as Hg by (subst g'; destruct (named ttype t); by split).
  assert (cur g' = cur (L x) ∧ kmig g' = kmig (L x) ∧ debt g' = debt (L x)) as (Ec & Em & Ed) by (subst g'; by destruct (named ttype t)).
  rewrite (put_names t th) by done. split; [|done]. pose proof W as [P R J C]. split.
  - eapply pinv_at; try done.
    + by rewrite (put_names t th).
    + by apply P.
    + intros y Hy. cbn. upd y x; [rewrite Ec|]; by apply P.
    + subst g'. destruct (named ttype t); split; cbn; rewrite ?lookup_delete_eq, ?lookup_insert_eq; try done.
      * intros _ th0 [= <-]. split; [done|]. by left.
      * intros _ p Hq. by destruct (Hnp p).
      * intros h0 [= <-]. split_and!; try done. exists th'. fold (put_thread t th'). rewrite (put_names t th) by done. by split_and!.
      * intros p Hkp. split; [eauto|]. exists th'. split; [done|]. destruct (v_kpool _ _ _ _ _ _ P x t p Hx Hkp) as (_ & th0 & ? & ?). cbn. congruence.
  - eapply rinv_frame; [done|by apply (every_at _ _ _ t th th'); [apply _|..]|]. intros y Hy. by upd y x; rewrite ?Em.
  - eapply (jinv_gone _ t h th); try done.
    + intros HY [_ Hn]. apply Hn. exists x. auto.
    + rewrite Ht'. split_and!; try done.
      * intros HY. eapply (v_seen _ _ _ _ J); [exact Hx|by apply Hcl|done].
      * subst g'. intros a. destruct (named ttype t); cbn; [by rewrite lookup_delete_eq|done].
  - eapply cinv_same; [done|]. intros _ p. split; [done|]. unfold put_thread. rewrite nblocked_insert, Ht, nb_live, nb_not_blocked by done.
    rewrite (debts_ext xs L); [lia|]. intros y Hy. upd y x; by rewrite ?Ed.
Qed.

Lemma FreeThread_keeps (y : option xid) t : keeps (FreeThread y t).
Proof.
  intros Q (-> & Hn & h & Hh & Hk & HQ). destruct (held_at t h Hh) as (Hr & Hns & Hoth & Hnp & th & Ht & (Hok & _)).
  rewrite Hk in Hok. cbn in Hok. exe. rewrite decide_True by done. rewrite Ht. eexists. split; [exact HQ|].
  set (w' := set_threads _ w).
  assert (threads w' !! t = None) as Ht' by (cbn; apply lookup_delete_eq).
  assert (∀ u, u ≠ t → threads w' !! u = threads w !! u) as Hth by (intros u Hu; cbn; by rewrite lookup_delete_ne).
  assert (only_at t (L x) (drop t (L x))) as Ha by (split; [done|]; intros u Hu; cbn; by rewrite !lookup_delete_ne by done).
  assert (names w ⊆ names w') as Hnm.
  { intros u. unfold names. rewrite !elem_of_filter, !elem_of_dom. intros [Hu ?]. split; [done|]. rewrite Hth; [done|]. congruence. }
  split; [|done]. pose proof W as [P R J C]. split.
  - eapply pinv_at; try done.
    + by apply P.
    + intros z Hz. cbn. upd z x; by apply P.
    + split; cbn; rewrite ?lookup_delete_eq; try done. intros _ p Hq. by destruct (Hnp p).
  - split.
    + intros z u Hz Hu. assert (u ∈ kmig (L z)) as Hu' by (by upd z x).
      destruct (v_kmig _ _ _ _ R z u Hz Hu') as (? & ?). split; [done|]. rewrite Hth by congruence. done.
    + intros u th0. destruct (decide (u = t)) as [->|]; [by rewrite Ht'|]. rewrite Hth by done. by apply R.
  - eapply (jinv_gone _ t h th); try done.
    + by intros _ [? _].
    + rewrite Ht'. split_and!; try done; [by intros [? _]|]. cbn. by rewrite lookup_delete_eq.
  - eapply cinv_same; [done|]. intros _ p. split; [done|]. subst w'. rewrite nblocked_delete, Ht, nb_not_blocked by congruence.
    rewrite (debts_ext xs L); [lia|]. intros z Hz. by upd z x.
Qed.

End access.

End exec.
