(* ===== verification/UltJoin.v ===== *)
(** * Joiners

    The accesses by which joiners and ending threads meet: the join flag, the link, the
    futex.  Each keeps the part [jinv] of the invariant. *)

From stdpp Require Import functions base tactics decidable option list numbers gmap fin_maps sets.
From Stdlib Require Import ZArith Lia.
From S2P Require Import Prelude Abt Thread Ult UltLogic UltSafe UltInv UltExec.
Open Scope Z_scope.

Section joins.
Context (migration : bool) (ttype : tid → Z) (roots : gset tid) (xs : list xid).
Hypothesis Hnd : NoDup xs.

Abbreviation isY t := (yieldable (ttype t)) (only parsing).
Abbreviation names := (names ttype).
Abbreviation pinv := (pinv migration ttype roots xs).
Abbreviation rinv := (rinv ttype xs).
Abbreviation jinv := (jinv ttype xs).
Abbreviation cinv := (cinv migration xs).
Abbreviation winv := (winv migration ttype roots xs).
Abbreviation rule := (rule ttype).
Abbreviation kept := (kept migration ttype roots xs).
Implicit Types (w : world) (L : xid → lg) (x y e : xid) (t u j : tid) (g : lg) (th : uthread) (p : pid).

(** Somebody after a change at [x]. *)
Lemma some_at (P : lg → Prop) L x g' :
  x ∈ xs → (∃ y, y ∈ xs ∧ P (<[x := g']> L y)) ↔ P g' ∨ ∃ y, y ∈ xs ∧ y ≠ x ∧ P (L y).
Proof using Type.
  intros Hx. split.
  - intros (y & Hy & H). upd y x; eauto.
  - intros [H|(y & Hy & Hyx & H)]; [exists x; by rewrite fn_lookup_insert|exists y; by rewrite fn_lookup_insert_ne].
Qed.

Lemma some_split (P : lg → Prop) L x :
  x ∈ xs → (∃ y, y ∈ xs ∧ P (L y)) ↔ P (L x) ∨ ∃ y, y ∈ xs ∧ y ≠ x ∧ P (L y).
Proof using Type.
  intros Hx. split.
  - intros (y & Hy & H). destruct (decide (y = x)) as [->|]; eauto.
  - intros [H|(y & Hy & _ & H)]; eauto.
Qed.

Lemma owed_at L x g' t a : x ∈ xs → owed xs (<[x := g']> L) t a ↔ owes g' = Some (t, a) ∨ ∃ y, y ∈ xs ∧ y ≠ x ∧ owes (L y) = Some (t, a).
Proof using Type. intros Hx. by apply (some_at (λ g, owes g = Some (t, a))). Qed.
Lemma owed_split L x t a : x ∈ xs → owed xs L t a ↔ owes (L x) = Some (t, a) ∨ ∃ y, y ∈ xs ∧ y ≠ x ∧ owes (L y) = Some (t, a).
Proof using Type. intros Hx. by apply (some_split (λ g, owes g = Some (t, a))). Qed.
Lemma Wakes_at L x g' e : x ∈ xs → Wakes xs (<[x := g']> L) e ↔ wakes g' = Some e ∨ ∃ y, y ∈ xs ∧ y ≠ x ∧ wakes (L y) = Some e.
Proof using Type. intros Hx. by apply (some_at (λ g, wakes g = Some e)). Qed.
Lemma Wakes_split L x e : x ∈ xs → Wakes xs L e ↔ wakes (L x) = Some e ∨ ∃ y, y ∈ xs ∧ y ≠ x ∧ wakes (L y) = Some e.
Proof using Type. intros Hx. by apply (some_split (λ g, wakes g = Some e)). Qed.
Lemma Clo_insert L x g' t : x ∈ xs → Clo xs (<[x := g']> L) t ↔ joined g' !! t = Some JClosed ∨ ∃ y, y ∈ xs ∧ y ≠ x ∧ joined (L y) !! t = Some JClosed.
Proof using Type. intros Hx. by apply (some_at (λ g, joined g !! t = Some JClosed)). Qed.
Lemma Clo_split L x t : x ∈ xs → Clo xs L t ↔ joined (L x) !! t = Some JClosed ∨ ∃ y, y ∈ xs ∧ y ≠ x ∧ joined (L y) !! t = Some JClosed.
Proof using Type. intros Hx. by apply (some_split (λ g, joined g !! t = Some JClosed)). Qed.

Section access.
Context (w : world) (L : xid → lg) (x : xid) (W : winv w L) (Hx : x ∈ xs) (n : nat).

Abbreviation keeps c := (∀ Q, rule (names w) x (L x) c Q → kept L x w c Q (exec ttype x n c w)) (only parsing).
Abbreviation put_thread := (put_thread w).

Let P : pinv w L := w_places _ _ _ _ _ _ W.
Let R : rinv w L := w_requests _ _ _ _ _ _ W.
Let J : jinv w L := w_joins _ _ _ _ _ _ W.
Let C : cinv w L := w_counts _ _ _ _ _ _ W.

Definition place_same g g' : Prop :=
  stk g' = stk g ∧ cur g' = cur g ∧ held g' = held g ∧ kpool g' = kpool g ∧ debt g' = debt g.

(** Only joiners see the change. *)
Lemma winv_join w' g' :
  every psame w w' → pools w' = pools w → current w' = current w → place_same (L x) g' →
  (∀ t a, joined g' !! t = Some a → owned (L x) t) →
  rinv w' (<[x := g']> L) → jinv w' (<[x := g']> L) →
  winv w' (<[x := g']> L) ∧ names w ⊆ names w'.
Proof.
  intros He Ep Ec (E1 & E2 & E3 & E4 & E5) Hj R' J'. split; [|by rewrite (every_names ttype psame w w')].
  split; [|done|done|].
  - eapply pinv_frame; [exact P|done|by rewrite Ep|..].
    + intros y Hy. rewrite Ec. upd y x; rewrite ?E1, ?E2, ?E3; split_and!; try done; by apply P.
    + intros y t p Hy. upd y x; rewrite ?E4; by apply P.
    + intros y t a Hy. upd y x; [by apply Hj|]. intros H. by eapply (v_joined _ _ _ _ _ _ P).
  - eapply cinv_same; [exact C|]. intros _ p. rewrite Ep. split; [done|].
    rewrite (nblocked_same psame w w') by (done || by intros th th' (? & ? & _)).
    f_equal. apply debts_ext. intros y Hy. upd y x; by rewrite ?E5.
Qed.

(** A thread that somebody joins: its flag is set. *)
Lemma joins_of t th :
  threads w !! t = Some th → isY t = true → is_open xs L t th →
  t_link th ≠ None ∨ (∃ a, owed xs L t a) ∨ (∃ j, asleep xs w L (JUlt j) t) → joins th = true.
Proof.
  assert (∀ a, owed xs L t a → threads w !! t = Some th → joins th = true) as Howed.
  { intros a (y & Hy & Ho) Ht. destruct (v_owes _ _ _ _ J y t a Hy Ho) as (_ & _ & _ & th0 & ? & _ & _ & ?). congruence. }
  intros Ht HY Hop H. pose proof (v_open _ _ _ _ J t th Ht HY Hop) as Hv. destruct (t_link th) eqn:El; [by destruct Hv|].
  destruct H as [?|[(a & Ha)|(j & Hj)]]; [done|by eapply Howed|].
  destruct (v_sleep _ _ _ _ J j t Hj) as (_ & th0 & Ht0 & _ & [Hl|Ho]); [congruence|by eapply Howed].
Qed.

(** A thread that [x] has and that has not ended is open unless [x] closed it. *)
Lemma alive_open t th :
  threads w !! t = Some th → alive (L x) t → joined (L x) !! t ≠ Some JClosed → is_open xs L t th.
Proof.
  intros Ht Ha Hj. split.
  - assert (live th) as [E|E]; [|congruence..]. destruct Ha as [Hs|(h & Hh & Hk)].
    + apply list_elem_of_lookup in Hs as [i Hi]. destruct (v_stack _ _ _ _ _ _ P x i t Hx Hi) as (th0 & ? & Hok & _). congruence.
    + destruct (v_held _ _ _ _ _ _ P x t h Hx Hh) as (_ & th0 & Ht0 & Hok & _). assert (th0 = th) as -> by congruence. by eapply kind_live.
  - intros (y & Hy & Hc). destruct (v_joined _ _ _ _ _ _ P y t _ Hy Hc) as (Ho & _). apply alive_owned in Ha.
    by rewrite (v_owner _ _ _ _ _ _ P y x t) in Hc.
Qed.

Lemma open_at g' u th : joined g' = joined (L x) → is_open xs (<[x := g']> L) u th ↔ is_open xs L u th.
Proof. intros E. unfold is_open. by rewrite Clo_insert, (Clo_split L x), E by done. Qed.

Lemma put_lookup t th u : threads (put_thread t th) !! u = if decide (u = t) then Some th else threads w !! u.
Proof. cbn. case_decide; [subst; apply lookup_insert_eq|by apply lookup_insert_ne]. Qed.

Lemma asleep_put g' t th th' j u :
  stk g' = stk (L x) → held g' = held (L x) → threads w !! t = Some th →
  t_state th' = t_state th → t_waits th' = t_waits th →
  asleep xs w L (JUlt j) u ↔ asleep xs (put_thread t th') (<[x := g']> L) (JUlt j) u.
Proof.
  intros E1 E2 Ht Es Ew. unfold asleep. rewrite Own_insert_same, put_lookup by done. case_decide as E; [|done]. subst j. split.
  - intros (? & th0 & Hu & Hs). split; [done|]. exists th'. rewrite Es, Ew. naive_solver congruence.
  - intros (? & th0 & [= <-] & Hs). split; [done|]. exists th. by rewrite <- Es, <- Ew.
Qed.

Lemma same_at g' :
  joined g' = joined (L x) → futs g' = futs (L x) → wakes g' = wakes (L x) →
  ∀ y, joined (<[x := g']> L y) = joined (L y) ∧ futs (<[x := g']> L y) = futs (L y) ∧ wakes (<[x := g']> L y) = wakes (L y).
Proof. intros ? ? ? y. by upd y x. Qed.

(** ** The join flag *)

Definition raised th : uthread := set_t_request (Z.lor (t_request th) ABTI_THREAD_REQ_JOIN) th.

Lemma joins_raised th : joins (raised th) = true.
Proof. unfold joins. rewrite has_join. cbn -[Z.testbit Z.lor]. rewrite Z.lor_spec. by rewrite orb_true_r. Qed.

Lemma rinv_raised t th g' :
  threads w !! t = Some th → kmig g' = kmig (L x) → rinv (put_thread t (raised th)) (<[x := g']> L).
Proof.
  intros Ht Hk. destruct (v_req _ _ _ _ R t th Ht) as [H1 H2].
  assert (∀ k, 0 < k → Z.testbit (t_request (raised th)) k = Z.testbit (t_request th) k) as Hb.
  { intros k Hk0. cbn -[Z.testbit Z.lor]. rewrite Z.lor_spec. change ABTI_THREAD_REQ_JOIN with (2 ^ 0).
    rewrite Z.pow2_bits_false by lia. apply orb_false_r. }
  rewrite has_cancel, has_migrate in *. eapply (rinv_at _ _ _ _ w L x W t th); try done.
  - rewrite has_cancel, has_migrate, !Hb by done. done.
  - rewrite has_migrate, Hb by done. done.
  - rewrite Hk. by left.
Qed.

Lemma every_raised (S : uthread → uthread → Prop) t th :
  threads w !! t = Some th → Reflexive S → S th (raised th) → every S w (put_thread t (raised th)).
Proof. intros Ht HS H. by apply (every_at _ _ _ t th (raised th)). Qed.

(** The stream that ends [t]. *)
Lemma jinv_raise t th :
  threads w !! t = Some th → isY t = true → owned (L x) t → joined (L x) !! t = None →
  let a := if joins th then JSeen else JClosed in
  jinv (put_thread t (raised th)) (<[x := set_joined (<[t := a]> (joined (L x))) (L x)]> L).
Proof.
  intros Ht HY Ho Hj a. set (g' := set_joined _ _).
  assert (∀ u, Clo xs (<[x := g']> L) u ↔ Clo xs L u ∨ u = t ∧ joins th = false) as Hclo.
  { intros u. rewrite Clo_insert, (Clo_split L x) by done. cbn. rewrite lookup_insert_Some. subst a.
    destruct (decide (u = t)) as [->|]; [rewrite Hj|]; destruct (joins th); naive_solver. }
  eapply jinv_keep; [|exact J]. split.
  - intros y Hy. upd y x; by split.
  - intros u th0 Hu _. rewrite put_lookup. case_decide as E.
    + subst u. assert (th0 = th) as -> by congruence. eexists. split; [done|]. unfold is_open. rewrite Hclo. cbn [t_state raised set_t_request].
      split; [|tauto]. intros _ Hop Hjo. split; [|naive_solver congruence]. split; [done|]. by rewrite joins_raised.
    + exists th0. unfold is_open. rewrite Hclo. split; [done|]. split; [|tauto]. intros _ Hop _. split; [done|]. naive_solver.
  - intros u th'. rewrite put_lookup. case_decide as E.
    + subst u. intros [= <-] _ [Hs Hc]. rewrite Hclo in Hc. left. exists th. destruct (joins th) eqn:Ej; [|naive_solver].
      split; [done|]. split; [by split; [|rewrite Ej, joins_raised]|]. split; [done|]. tauto.
    + intros Hu _ [Hs Hc]. rewrite Hclo in Hc. left. exists th'. split; [done|]. split; [done|]. split; [done|]. tauto.
  - done.
  - intros j u. by apply (asleep_put g' t th).
  - intros y u b th' Hy Hb. rewrite put_lookup. case_decide as E; [intros [= <-]; by rewrite joins_raised|].
    intros Hu. eapply (v_seen _ _ _ _ J y u); [done| |done]. upd y x; [|done]. subst g'. cbn in Hb. by rewrite lookup_insert_ne in Hb.
  - intros u th'. rewrite put_lookup. case_decide as E; [intros [= <-]; by rewrite joins_raised|]. apply J.
Qed.

(** A stream that joins [t]. *)
Lemma jinv_raise_owe t th :
  threads w !! t = Some th → isY t = true → named ttype t = true → joins th = false → owes (L x) = None →
  jinv (put_thread t (raised th)) (<[x := set_owes (Some (t, None)) (L x)]> L).
Proof.
  intros Ht HY Hn Hj Ho. set (g' := set_owes _ _). set (L' := <[x := g']> L). set (w' := put_thread t (raised th)).
  pose proof (same_at g' eq_refl eq_refl eq_refl) as HL. fold L' in HL.
  assert (is_open xs L t th) as Hop.
  { split; [intros E; by rewrite (v_term _ _ _ _ J t th Ht HY E) in Hj|].
    intros (y & Hy & Hc). by rewrite (v_seen _ _ _ _ J y t _ th Hy Hc Ht) in Hj. }
  assert (∀ H, joins th = true → H) as Habs by (rewrite Hj; done).
  assert (t_link th = None) as Hl.
  { destruct (t_link th) eqn:E; [|done]. apply Habs. apply (joins_of t th); try done. left. congruence. }
  assert (∀ a, ¬ owed xs L t a) as Hno by (intros a H; by apply Habs, (joins_of t th); eauto).
  assert (∀ j u, asleep xs w L (JUlt j) u ↔ asleep xs w' L' (JUlt j) u) as Has
    by (intros j u; by apply (asleep_put g' t th)).
  assert (∀ j u, asleep xs w L (JExt j) u ↔ asleep xs w' L' (JExt j) u) as Hase.
  { intros e u. cbn. split; intros (He & Hf & ?); destruct (HL e) as (_ & E & _); [by rewrite E|by rewrite <- E]. }
  assert (∀ u th0, threads w !! u = Some th0 → u ≠ t → threads w' !! u = Some th0) as Hto
    by (intros u th0 Hu Hut; unfold w'; by rewrite put_lookup, decide_False).
  assert (∀ u th0, is_open xs L' u th0 ↔ is_open xs L u th0) as Hope by (intros; by apply open_at).
  split.
  - intros y u a th'. unfold w'. rewrite put_lookup. intros Hy. destruct (HL y) as (-> & _). case_decide as E.
    + intros _ [= <-]. apply joins_raised.
    + intros Hb Hu. by eapply (v_seen _ _ _ _ J).
  - intros u th'. unfold w'. rewrite put_lookup. case_decide as E.
    + subst u. intros [= <-] _ _. cbn. rewrite Hl. intros _. exists None. unfold L'. rewrite owed_at by done. by left.
    + intros Hu HYu. rewrite Hope. intros Hou. pose proof (v_open _ _ _ _ J u th' Hu HYu Hou) as H.
      destruct (t_link th') as [[j|e]|]; [split; [apply H|apply Has, H]|split; [apply H|apply Hase, H]|]. intros Hjo. destruct (H Hjo) as (a & Ha). exists a.
      unfold L'. rewrite owed_at by done. rewrite (owed_split L x) in Ha by done. right. destruct Ha; [congruence|done].
  - intros u th'. unfold w'. rewrite put_lookup. case_decide; [intros [= <-] _ _; apply joins_raised|apply J].
  - intros y u a Hy Hoy. setoid_rewrite Hope. unfold L' in Hoy. upd y x.
    + cbn in Hoy. injection Hoy as <- <-. split_and!; try done. exists (raised th). unfold w'. rewrite put_lookup, decide_True by done.
      split_and!; try done. apply joins_raised.
    + destruct (v_owes _ _ _ _ J y u a Hy Hoy) as (? & ? & Hsl & th0 & Hu & ? & ? & ?). split_and!; try done; [intros j ->; by apply Has, Hsl|].
      exists th0. split_and!; try done. apply Hto; [done|]. intros ->. apply (Hno a). by exists y.
  - intros y z u a b Hy Hz Hoy Hoz. unfold L' in *. upd y x; upd z x; try done; cbn in *.
    + injection Hoy as <- <-. destruct (Hno b). by exists z.
    + injection Hoz as <- <-. destruct (Hno a). by exists y.
    + by eapply (v_owes1 _ _ _ _ J).
  - intros j u Hs. apply Has in Hs. destruct (v_sleep _ _ _ _ J j u Hs) as (HYu & th0 & Hu & Hou & Hlo). split; [done|].
    exists th0. rewrite Hope. split_and!; try done.
    + apply Hto; [done|]. intros ->. apply Habs, (joins_of t th); eauto.
    + destruct Hlo as [?|H]; [by left|]. right. unfold L'. rewrite owed_at by done. rewrite (owed_split L x) in H by done.
      right. destruct H; [congruence|done].
  - intros y Hy. destruct (HL y) as (_ & -> & _). pose proof (v_futs _ _ _ _ J y Hy) as H. destruct (futs (L y)) as [| |u]; try done.
    destruct H as [? H]. split; [done|]. unfold L'. rewrite Wakes_at by done. rewrite (Wakes_split L x) in H by done.
    destruct H as [?|[?|(? & th0 & Hu & Hou & Hlk)]]; [by left|by right; left|]. right; right. split; [done|]. exists th0.
    split; [apply Hto; [done|]; intros ->; congruence|]. split; [by apply Hope|done].
  - intros y e Hy. destruct (HL y) as (_ & _ & ->). intros Hw. destruct (v_wakes _ _ _ _ J y e Hy Hw) as (He & ? & u & th0 & ? & ? & Hu & Hou).
    split; [done|]. split; [done|]. destruct (HL e) as (_ & -> & _). exists u, th0. rewrite Hope. split_and!; try done.
    apply Hto; [done|]. intros ->. apply Hou. congruence.
  - intros y z e Hy Hz. destruct (HL y) as (_ & _ & ->), (HL z) as (_ & _ & ->). by eapply (v_wakes1 _ _ _ _ J).
Qed.

Lemma FetchOr_keeps t bits : keeps (FetchOr t bits).
Proof.
  intros Q [(-> & HY & Ho & Hj & HQ)|[(-> & HY & Ha & How & Hf & HQ)|(Hb & Ha & HQ)]].
  - destruct (owned_at _ _ _ _ w L x W Hx t Ho) as (th & Ht). exe. rewrite !Ht. fold (raised th). fold (put_thread t (raised th)).
    eexists. split; [apply HQ|]. apply winv_join; try done.
    + by apply every_raised; [|apply _|].
    + intros u a. cbn. rewrite lookup_insert_Some. intros [[-> _]|[_ Hu]]; [done|]. by eapply (v_joined _ _ _ _ _ _ P).
    + by apply rinv_raised.
    + by apply jinv_raise.
  - destruct (names_thread ttype w t Ha) as (Hn & th & Ht). exe. rewrite !Ht. fold (raised th). fold (put_thread t (raised th)).
    eexists. split; [apply HQ|]. destruct (has (t_request th) ABTI_THREAD_REQ_JOIN) eqn:E.
    + eapply (winv_fields _ _ _ _ w L x W t th); try done; [|by apply rinv_raised].
      split_and!; try done. by rewrite joins_raised.
    + apply winv_join; try done.
      * by apply every_raised; [|apply _|].
      * intros u a H. by eapply (v_joined _ _ _ _ _ _ P).
      * by apply rinv_raised.
      * by apply jinv_raise_owe.
  - by eapply FetchOr_request_keeps.
Qed.

(** ** The link *)

Lemma jinv_link_ult t th a :
  threads w !! t = Some th → owes (L x) = Some (t, Some a) →
  jinv (put_thread t (set_t_link (Some (JUlt a)) th)) (<[x := set_owes None (L x)]> L).
Proof.
  intros Ht Ho. set (g' := set_owes _ _). set (L' := <[x := g']> L). set (th' := set_t_link _ th). set (w' := put_thread t th').
  destruct (v_owes _ _ _ _ J x t _ Hx Ho) as (Hn & HY & Hsl & th0 & Ht0 & Hop & Hl & Hjo). assert (th0 = th) as -> by congruence.
  pose proof (same_at g' eq_refl eq_refl eq_refl) as HL. fold L' in HL.
  assert (∀ j u, asleep xs w L (JUlt j) u ↔ asleep xs w' L' (JUlt j) u) as Has by (intros j u; by apply (asleep_put g' t th)).
  assert (∀ u th0, is_open xs L' u th0 ↔ is_open xs L u th0) as Hope by (intros; by apply open_at).
  assert (∀ y b, y ∈ xs → owes (L y) = Some (t, b) → y = x) as Hone by (intros; by eapply (v_owes1 _ _ _ _ J)).
  assert (∀ u b, u ≠ t → owed xs L u b → owed xs L' u b) as Howed.
  { intros u b Hut H. unfold L'. rewrite owed_at by done. rewrite (owed_split L x) in H by done. right. destruct H; [congruence|done]. }
  split.
  - intros y u b thu Hy. destruct (HL y) as (-> & _). unfold w'. rewrite put_lookup. case_decide as E.
    + intros _ [= <-]. done.
    + intros Hb Hu. by eapply (v_seen _ _ _ _ J).
  - intros u thu. unfold w'. rewrite put_lookup. case_decide as E.
    + subst u. intros [= <-] _ _. cbn [t_link th' set_t_link]. split; [done|]. apply Has. by apply Hsl.
    + intros Hu HYu. rewrite Hope. intros Hou. pose proof (v_open _ _ _ _ J u thu Hu HYu Hou) as H.
      destruct (t_link thu) as [[j|e]|]; [split; [apply H|apply Has, H]| |].
      * cbn. cbn in H. by destruct (HL e) as (_ & -> & _).
      * intros Hj. destruct (H Hj) as (b & Hb). eauto.
  - intros u thu. unfold w'. rewrite put_lookup. case_decide; [by intros [= <-]|apply J].
  - intros y u b Hy Hoy. setoid_rewrite Hope. unfold L' in Hoy. upd y x; [done|].
    destruct (v_owes _ _ _ _ J y u b Hy Hoy) as (? & ? & Hsu & thu & Hu & ? & ? & ?). split_and!; try done; [intros j ->; by apply Has, Hsu|].
    exists thu. unfold w'. rewrite put_lookup, decide_False; [done|]. intros ->. naive_solver.
  - intros y z u b c Hy Hz Hoy Hoz. unfold L' in *. upd y x; upd z x; try done. by eapply (v_owes1 _ _ _ _ J).
  - intros j u Hs. apply Has in Hs. destruct (v_sleep _ _ _ _ J j u Hs) as (HYu & thu & Hu & Hou & Hlo). split; [done|].
    setoid_rewrite Hope. unfold w'. rewrite put_lookup. case_decide as E.
    + subst u. assert (thu = th) as -> by congruence. exists th'. split_and!; try done. left.
      destruct Hlo as [?|(y & Hy & Hoy)]; [congruence|]. rewrite (Hone y _ Hy Hoy) in Hoy. rewrite Ho in Hoy. injection Hoy as ->. done.
    + exists thu. split_and!; try done. destruct Hlo as [?|H]; [by left|right]. auto.
  - intros y Hy. destruct (HL y) as (_ & -> & _). pose proof (v_futs _ _ _ _ J y Hy) as H. destruct (futs (L y)) as [| |u]; try done.
    destruct H as [? H]. split; [done|]. unfold L'. rewrite Wakes_at by done. rewrite (Wakes_split L x) in H by done.
    destruct H as [?|[?|(? & thu & Hu & Hou & Hlk)]]; [by left|by right; left|]. right; right. split; [done|]. exists thu.
    unfold w'. rewrite put_lookup, decide_False by (intros ->; congruence). split; [done|]. split; [by apply Hope|done].
  - intros y e Hy. destruct (HL y) as (_ & _ & ->). intros Hw. destruct (v_wakes _ _ _ _ J y e Hy Hw) as (He & ? & u & thu & ? & ? & Hu & Hou).
    split; [done|]. split; [done|]. destruct (HL e) as (_ & -> & _). exists u, thu. rewrite Hope. split_and!; try done.
    unfold w'. rewrite put_lookup, decide_False; [done|]. intros ->. apply Hou. congruence.
  - intros y z e Hy Hz. destruct (HL y) as (_ & _ & ->), (HL z) as (_ & _ & ->). by eapply (v_wakes1 _ _ _ _ J).
Qed.

Lemma jinv_link_ext t th :
  threads w !! t = Some th → owes (L x) = Some (t, None) → futs (L x) = FInit →
  jinv (put_thread t (set_t_link (Some (JExt x)) th)) (<[x := set_futs (FWait t) (set_owes None (L x))]> L).
Proof.
  intros Ht Ho Hf. set (g' := set_futs _ _). set (L' := <[x := g']> L). set (th' := set_t_link _ th). set (w' := put_thread t th').
  destruct (v_owes _ _ _ _ J x t _ Hx Ho) as (Hn & HY & _ & th0 & Ht0 & Hop & Hl & Hjo). assert (th0 = th) as -> by congruence.
  pose proof (v_futs _ _ _ _ J x Hx) as H0. rewrite Hf in H0.
  assert (∀ y, joined (L' y) = joined (L y) ∧ wakes (L' y) = wakes (L y)) as HL by (intros y; unfold L'; by upd y x).
  assert (∀ y, y ≠ x → futs (L' y) = futs (L y)) as HF by (intros y Hy; unfold L'; by rewrite fn_lookup_insert_ne).
  assert (∀ e u, futs (L e) = FWait u → e ≠ x) as Hex by (intros e u Hu ->; congruence).
  assert (∀ j u, asleep xs w L (JUlt j) u ↔ asleep xs w' L' (JUlt j) u) as Has by (intros j u; by apply (asleep_put g' t th)).
  assert (∀ u th0, is_open xs L' u th0 ↔ is_open xs L u th0) as Hope by (intros; by apply open_at).
  assert (∀ y b, y ∈ xs → owes (L y) = Some (t, b) → y = x) as Hone by (intros; by eapply (v_owes1 _ _ _ _ J)).
  assert (∀ u b, u ≠ t → owed xs L u b → owed xs L' u b) as Howed.
  { intros u b Hut H. unfold L'. rewrite owed_at by done. rewrite (owed_split L x) in H by done. right. destruct H; [congruence|done]. }
  assert (∀ e, Wakes xs L e → Wakes xs L' e) as HW.
  { intros e (y & Hy & Hw). exists y. destruct (HL y) as (_ & ->). done. }
  split.
  - intros y u b thu Hy. destruct (HL y) as (-> & _). unfold w'. rewrite put_lookup. case_decide as E.
    + intros _ [= <-]. done.
    + intros Hb Hu. by eapply (v_seen _ _ _ _ J).
  - intros u thu. unfold w'. rewrite put_lookup. case_decide as E.
    + subst u. intros [= <-] _ _. cbn [t_link th' set_t_link]. split; [done|]. cbn. unfold L'. by rewrite fn_lookup_insert.
    + intros Hu HYu. rewrite Hope. intros Hou. pose proof (v_open _ _ _ _ J u thu Hu HYu Hou) as H.
      destruct (t_link thu) as [[j|e]|]; [split; [apply H|apply Has, H]| |].
      * cbn. destruct H as (? & ? & Hfe & ?). by rewrite HF by eauto.
      * intros Hj. destruct (H Hj) as (b & Hb). eauto.
  - intros u thu. unfold w'. rewrite put_lookup. case_decide; [by intros [= <-]|apply J].
  - intros y u b Hy Hoy. setoid_rewrite Hope. unfold L' in Hoy. upd y x; [done|].
    destruct (v_owes _ _ _ _ J y u b Hy Hoy) as (? & ? & Hsu & thu & Hu & ? & ? & ?). split_and!; try done; [intros j ->; by apply Has, Hsu|].
    exists thu. unfold w'. rewrite put_lookup, decide_False; [done|]. intros ->. naive_solver.
  - intros y z u b c Hy Hz Hoy Hoz. unfold L' in *. upd y x; upd z x; try done. by eapply (v_owes1 _ _ _ _ J).
  - intros j u Hs. apply Has in Hs. destruct (v_sleep _ _ _ _ J j u Hs) as (HYu & thu & Hu & Hou & Hlo). split; [done|].
    setoid_rewrite Hope. unfold w'. rewrite put_lookup. case_decide as E.
    + subst u. exfalso. destruct Hlo as [?|(y & Hy & Hoy)]; [congruence|]. rewrite (Hone y _ Hy Hoy) in Hoy. congruence.
    + exists thu. split_and!; try done. destruct Hlo as [?|H]; [by left|right]. auto.
  - intros y Hy. destruct (decide (y = x)) as [->|Hyx].
    + unfold L' at 1. rewrite fn_lookup_insert. cbn [futs g' set_futs]. split; [done|]. right; right. split; [done|]. exists th'.
      unfold w'. rewrite put_lookup, decide_True by done. split; [done|]. split; [by apply Hope|done].
    + rewrite HF by done. pose proof (v_futs _ _ _ _ J y Hy) as H. destruct (futs (L y)) as [| |u]; try done.
      destruct H as [? H]. split; [done|].
      destruct H as [?|[?|(? & thu & Hu & Hou & Hlk)]]; [by left|right; left; auto|]. right; right. split; [done|]. exists thu.
      unfold w'. rewrite put_lookup, decide_False by (intros ->; congruence). split; [done|]. split; [by apply Hope|done].
  - intros y e Hy. destruct (HL y) as (_ & ->). intros Hw. destruct (v_wakes _ _ _ _ J y e Hy Hw) as (He & ? & u & thu & Hfe & ? & Hu & Hou).
    split; [done|]. split; [done|]. exists u, thu. rewrite HF by eauto. rewrite Hope. split_and!; try done.
    unfold w'. rewrite put_lookup, decide_False; [done|]. intros ->. apply Hou. congruence.
  - intros y z e Hy Hz. destruct (HL y) as (_ & ->), (HL z) as (_ & ->). by eapply (v_wakes1 _ _ _ _ J).
Qed.

Lemma StoreLink_keeps t (j : joiner) : keeps (StoreLink t j).
Proof.
  assert (∀ g' th, threads w !! t = Some th → kmig g' = kmig (L x) →
            rinv (put_thread t (set_t_link (Some j) th)) (<[x := g']> L)) as HR.
  { intros g' th Ht E. eapply rinv_frame; [exact R|by apply (every_at _ _ _ t th (set_t_link (Some j) th)); [apply _|..]|].
    intros y Hy. upd y x; by rewrite ?E. }
  assert (∀ th, threads w !! t = Some th → every psame w (put_thread t (set_t_link (Some j) th))) as HE.
  { intros th Ht. by apply (every_at _ _ _ t th (set_t_link (Some j) th)); [apply _|..]. }
  assert (∀ u b, joined (L x) !! u = Some b → owned (L x) u) as Hjo by (intros u b Hb; by eapply (v_joined _ _ _ _ _ _ P)).
  intros Q. destruct j as [a|e]; cbn.
  - intros [Ho HQ]. destruct (v_owes _ _ _ _ J x t _ Hx Ho) as (_ & _ & _ & th & Ht & _). exe. rewrite Ht. eexists. split; [exact HQ|].
    apply winv_join; try done; [by apply HE|by apply HR|]. by apply jinv_link_ult.
  - intros (-> & Ho & Hf & HQ). destruct (v_owes _ _ _ _ J x t _ Hx Ho) as (_ & _ & _ & th & Ht & _). exe. rewrite Ht. eexists. split; [exact HQ|].
    apply winv_join; try done; [by apply HE|by apply HR|]. by apply jinv_link_ext.
Qed.

(** ** Futexes *)

Lemma rinv_same w' g' : threads w' = threads w → kmig g' = kmig (L x) → rinv w' (<[x := g']> L).
Proof. intros Et E. eapply rinv_frame; [exact R|by apply every_same; [apply _|]|]. intros y Hy. upd y x; by rewrite ?E. Qed.

Lemma winv_futex w' g' :
  threads w' = threads w → pools w' = pools w → current w' = current w → place_same (L x) g' →
  joined g' = joined (L x) → kmig g' = kmig (L x) → jinv w' (<[x := g']> L) →
  winv w' (<[x := g']> L) ∧ names w ⊆ names w'.
Proof.
  intros Et Ep Ec Hs Ej Em J'. apply winv_join; try done.
  - by apply every_same; [apply _|].
  - intros t a. rewrite Ej. intros H. by eapply (v_joined _ _ _ _ _ _ P).
  - by apply rinv_same.
Qed.

(** Only futexes and what is known of them change. *)
Lemma jinv_futex w' g' :
  threads w' = threads w → stk g' = stk (L x) → held g' = held (L x) → joined g' = joined (L x) → owes g' = owes (L x) →
  (∀ t th e, threads w !! t = Some th → isY t = true → is_open xs L t th → t_link th = Some (JExt e) →
             e ∈ xs ∧ futs (<[x := g']> L e) = FWait t ∧ futex w' e = 0) →
  (∀ y, y ∈ xs →
    match futs (<[x := g']> L y) with
    | FNone => True
    | FInit => futex w' y = 0
    | FWait t => named ttype t = true ∧
                 (futex w' y ≠ 0 ∨ Wakes xs (<[x := g']> L) y ∨
                  isY t = true ∧ ∃ th, threads w !! t = Some th ∧ is_open xs L t th ∧ t_link th = Some (JExt y))
    end) →
  (∀ y e, y ∈ xs → wakes (<[x := g']> L y) = Some e →
    wakes (L y) = Some e ∧ futex w' e = 0 ∧ ∀ t, futs (L e) = FWait t → futs (<[x := g']> L e) = FWait t) →
  jinv w' (<[x := g']> L).
Proof.
  intros Et E1 E2 E3 E4 Hlink Hfuts Hwakes.
  assert (∀ y, joined (<[x := g']> L y) = joined (L y) ∧ owes (<[x := g']> L y) = owes (L y)) as HL by (intros y; by upd y x).
  assert (∀ j u, asleep xs w' (<[x := g']> L) (JUlt j) u ↔ asleep xs w L (JUlt j) u) as Has
    by (intros j u; cbn; by rewrite Et, Own_insert_same).
  assert (∀ u a, owed xs (<[x := g']> L) u a ↔ owed xs L u a) as Ho.
  { intros u a. split; intros (y & Hy & H); exists y; destruct (HL y) as (_ & E); by rewrite ?E in *. }
  split.
  - intros y t a th Hy. destruct (HL y) as (-> & _). rewrite Et. apply J. done.
  - intros t th. rewrite Et. intros Ht HY. rewrite open_at by done. intros Hop. pose proof (v_open _ _ _ _ J t th Ht HY Hop) as H.
    destruct (t_link th) as [[j|e]|] eqn:El; [by rewrite Has| |by setoid_rewrite Ho]. split; [apply H|]. by eapply Hlink.
  - rewrite Et. apply J.
  - intros y t a Hy. destruct (HL y) as (_ & ->). intros H. rewrite Et. setoid_rewrite Has. setoid_rewrite open_at; [|done]. by apply (v_owes _ _ _ _ J y).
  - intros y z t a b Hy Hz. destruct (HL y) as (_ & ->), (HL z) as (_ & ->). by apply J.
  - intros j t Hs. apply Has in Hs. destruct (v_sleep _ _ _ _ J j t Hs) as (? & th & ? & ? & ?). split; [done|].
    exists th. by rewrite Et, open_at, Ho.
  - intros y Hy. specialize (Hfuts y Hy). rewrite Et. destruct (futs (<[x := g']> L y)); try done.
    destruct Hfuts as (? & [?|[?|(? & th & ? & ? & ?)]]); (split; [done|]); [by left|by right; left|].
    right; right. split; [done|]. exists th. by rewrite open_at.
  - intros y e Hy Hw. destruct (Hwakes y e Hy Hw) as (Hw0 & H0 & Hf). destruct (v_wakes _ _ _ _ J y e Hy Hw0) as (? & _ & t & th & ? & ? & ? & ?).
    split; [done|]. split; [done|]. exists t, th. rewrite Et, open_at by done. auto.
  - intros y z e Hy Hz Hwy Hwz. destruct (Hwakes y e Hy Hwy) as (Hy0 & _), (Hwakes z e Hz Hwz) as (Hz0 & _). by eapply (v_wakes1 _ _ _ _ J).
Qed.

(** The futex of another thread. *)
Lemma futs_other w' g' y :
  (∀ e, e ≠ x → futex w' e = futex w e) → (∀ e, Wakes xs L e → e = x ∨ futex w' e ≠ 0 ∨ Wakes xs (<[x := g']> L) e) → y ∈ xs → y ≠ x →
  match futs (L y) with
  | FNone => True
  | FInit => futex w' y = 0
  | FWait t => named ttype t = true ∧
               (futex w' y ≠ 0 ∨ Wakes xs (<[x := g']> L) y ∨
                isY t = true ∧ ∃ th, threads w !! t = Some th ∧ is_open xs L t th ∧ t_link th = Some (JExt y))
  end.
Proof.
  intros Hf HW Hy Hyx. pose proof (v_futs _ _ _ _ J y Hy) as H. rewrite Hf by done. destruct (futs (L y)); try done.
  destruct H as [? [?|[H|?]]]; (split; [done|]); [by left| |by right; right].
  destruct (HW y H) as [?|[H'|?]]; [done| |by right; left]. left. by rewrite Hf in H'.
Qed.

Lemma FutexInit_keeps (y : xid) : keeps (FutexInit y).
Proof.
  intros Q (-> & Hf & HQ). exe. eexists. split; [exact HQ|]. apply winv_futex; try done.
  assert (∀ e t, futs (L e) = FWait t → e ≠ x) as Hne by (intros e t E ->; congruence).
  apply jinv_futex; try done; cbn.
  - intros t th e Ht HY Hop Hl. pose proof (v_open _ _ _ _ J t th Ht HY Hop) as H. rewrite Hl in H. destruct H as (_ & ? & Hfe & ?).
    pose proof (Hne e t Hfe). by rewrite !fn_lookup_insert_ne by done.
  - intros y Hy. destruct (decide (y = x)) as [->|Hyx]; [rewrite fn_lookup_insert; cbn; by rewrite fn_lookup_insert|].
    rewrite (fn_lookup_insert_ne L) by done. apply (futs_other (set_futex x 0 w)); try done.
    + intros e He. cbn. by rewrite fn_lookup_insert_ne.
    + intros e. rewrite Wakes_at, (Wakes_split L x) by done. tauto.
  - intros y e Hy Hw. assert (wakes (L y) = Some e) as Hw0 by (by upd y x).
    destruct (v_wakes _ _ _ _ J y e Hy Hw0) as (? & ? & t & _ & Hfe & _). pose proof (Hne e t Hfe). by rewrite !fn_lookup_insert_ne by done.
Qed.

Lemma FutexWait_keeps (y : xid) : keeps (FutexWait y).
Proof.
  intros Q (-> & Ho & _ & _ & (u & Hf) & HQ). exe. destruct (futex w x =? 0) eqn:E0; [done|]. apply Z.eqb_neq in E0.
  eexists. split; [exact HQ|]. apply winv_futex; try done.
  apply jinv_futex; try done; cbn.
  - intros t th e Ht HY Hop Hl. pose proof (v_open _ _ _ _ J t th Ht HY Hop) as H. rewrite Hl in H. destruct H as (_ & ? & Hfe & He).
    by rewrite fn_lookup_insert_ne by congruence.
  - intros y Hy. destruct (decide (y = x)) as [->|Hyx]; [by rewrite fn_lookup_insert|].
    rewrite (fn_lookup_insert_ne L) by done. apply (futs_other w); try done.
    intros e. rewrite Wakes_at, (Wakes_split L x) by done. tauto.
  - intros y e Hy Hw. assert (wakes (L y) = Some e) as Hw0 by (by upd y x).
    destruct (v_wakes _ _ _ _ J y e Hy Hw0) as (? & ? & t & _ & Hfe & _). by rewrite fn_lookup_insert_ne by congruence.
Qed.

Lemma FutexWake_keeps (e : xid) : keeps (FutexWake e).
Proof.
  intros Q (Hw & HQ). destruct (v_wakes _ _ _ _ J x e Hx Hw) as (He & H0 & t & th & Hf & Hn & Ht & Hop).
  exe. rewrite H0. cbn. eexists. split; [exact HQ|]. apply winv_futex; try done.
  assert (∀ y, futs (<[x := set_wakes None (L x)]> L y) = futs (L y)) as HF by (intros y; by upd y x).
  apply jinv_futex; try done; cbn; setoid_rewrite HF.
  - intros u thu e' Hu HY Hou Hl. pose proof (v_open _ _ _ _ J u thu Hu HY Hou) as H. rewrite Hl in H. destruct H as (_ & ? & Hfe & ?).
    split; [done|]. split; [done|]. rewrite fn_lookup_insert_ne; [done|]. intros ->.
    assert (u = t) as -> by congruence. apply Hop. congruence.
  - intros y Hy. destruct (decide (y = e)) as [->|Hye]; [rewrite Hf, fn_lookup_insert; split; [done|by left]|].
    rewrite fn_lookup_insert_ne by done. pose proof (v_futs _ _ _ _ J y Hy) as H. destruct (futs (L y)); try done.
    destruct H as [? [?|[H|?]]]; (split; [done|]); [by left| |by right; right]. right; left. rewrite Wakes_at by done.
    rewrite (Wakes_split L x) in H by done. right. destruct H; [congruence|done].
  - intros y e' Hy Hw'. upd y x; [done|]. destruct (v_wakes _ _ _ _ J y e' Hy Hw') as (? & ? & _). split; [done|]. split; [|done].
    rewrite fn_lookup_insert_ne; [done|]. intros ->. by pose proof (v_wakes1 _ _ _ _ J y x _ Hy Hx Hw' Hw).
Qed.

(** ** Waiting for the end of a thread *)

Lemma winv_ext L' : (∀ y, L' y = L y) → winv w L'.
Proof.
  intros E. split.
  - eapply pinv_frame; [exact P|by apply every_same; [apply _|]|done|..]; intros y; rewrite E; [intros Hy; split_and!; try done; by apply P|apply P|].
    intros t a Hy H. by eapply (v_joined _ _ _ _ _ _ P).
  - eapply rinv_frame; [exact R|by apply every_same; [apply _|]|]. intros y Hy. by rewrite E.
  - eapply jinv_frame; [..|exact J]; try done.
    + intros y Hy. rewrite E. by split.
    + intros y t Hy. by rewrite E.
    + intros t th Ht. eauto using tsame_refl.
    + left. eauto using tsame_refl.
    + intros j t. cbn. unfold Own. by setoid_rewrite E.
  - eapply cinv_same; [exact C|]. intros _ p. split; [done|]. f_equal. apply debts_ext. intros y Hy. by rewrite E.
Qed.

(** [x] owes a link to [u], and [t] now waits for it. *)
Lemma wait_end t u th :
  (¬ Own xs L t) → threads w !! t = Some th → t_state th = ABT_THREAD_STATE_BLOCKED → t_waits th = ForResume →
  owes (L x) = Some (u, None) →
  let w' := put_thread t (set_t_waits (ForEnd u) th) in
  winv w' (<[x := set_owes (Some (u, Some t)) (L x)]> L) ∧ names w ⊆ names w'.
Proof.
  intros Hno Ht Hs Hw Ho w'. set (th' := set_t_waits _ th) in *. set (g' := set_owes _ _). apply winv_join; try done.
  - by apply (every_at _ _ _ t th th'); [apply _|..].
  - intros v a H. by eapply (v_joined _ _ _ _ _ _ P).
  - eapply rinv_frame; [exact R|by apply (every_at _ _ _ t th th'); [apply _|..]|]. intros y Hy. by upd y x.
  - set (L' := <[x := g']> L).
    destruct (v_owes _ _ _ _ J x u _ Hx Ho) as (Hn & HY & _ & thu & Hu & Hop & Hl & Hjo).
    pose proof (same_at g' eq_refl eq_refl eq_refl) as HL. fold L' in HL.
    assert (∀ v, ¬ asleep xs w L (JUlt t) v) as Hna by (intros v (_ & th0 & ? & _ & ?); congruence).
    assert (∀ j v, asleep xs w' L' (JUlt j) v ↔ asleep xs w L (JUlt j) v ∨ j = t ∧ v = u) as Has.
    { intros j v. unfold asleep, L', w'. rewrite Own_insert_same, put_lookup by done. case_decide as E; [subst j|naive_solver]. split.
      - intros (? & th0 & [= <-] & ? & [= <-]). by right.
      - intros [H|[_ ->]]; [by destruct (Hna v)|]. split; [done|]. by exists th'. }
    assert (∀ v th0, is_open xs L' v th0 ↔ is_open xs L v th0) as Hope by (intros; by apply open_at).
    assert (∀ v th0, threads w !! v = Some th0 → ∃ th1, threads w' !! v = Some th1 ∧ t_link th1 = t_link th0 ∧ joins th1 = joins th0 ∧ t_state th1 = t_state th0) as Hto.
    { intros v th0 Hv. unfold w'. rewrite put_lookup. case_decide; [subst v; rewrite Ht in Hv; injection Hv as <-; by exists th'|by exists th0]. }
    assert (∀ v th1, threads w' !! v = Some th1 → ∃ th0, threads w !! v = Some th0 ∧ t_link th1 = t_link th0 ∧ joins th1 = joins th0 ∧ t_state th1 = t_state th0) as Hfrom.
    { intros v th1. unfold w'. rewrite put_lookup. case_decide; [subst v; intros [= <-]; by exists th|by exists th1]. }
    split.
    + intros y v b th1 Hy. destruct (HL y) as (-> & _). intros Hb Hv. destruct (Hfrom v th1 Hv) as (th0 & Hv0 & _ & -> & _). by eapply (v_seen _ _ _ _ J).
    + intros v th1 Hv HYv. destruct (Hfrom v th1 Hv) as (th0 & Hv0 & -> & -> & Es). unfold is_open. rewrite Es. fold (is_open xs L' v th0). rewrite Hope. intros Hov.
      pose proof (v_open _ _ _ _ J v th0 Hv0 HYv Hov) as H. destruct (t_link th0) as [[j|e]|].
      * split; [apply H|]. apply Has. left. apply H.
      * cbn. cbn in H. by destruct (HL e) as (_ & -> & _).
      * intros Hj. destruct (H Hj) as (b & Hb). unfold L'. setoid_rewrite owed_at; [|done]. rewrite (owed_split L x) in Hb by done.
        destruct Hb as [Hb|?]; [|eauto]. rewrite Ho in Hb. injection Hb as <- <-. exists (Some t). by left.
    + intros v th1 Hv HYv. destruct (Hfrom v th1 Hv) as (th0 & Hv0 & _ & -> & ->). by apply (v_term _ _ _ _ J v).
    + intros y v b Hy Hoy. setoid_rewrite Hope. unfold L' in Hoy.
      assert (named ttype v = true ∧ isY v = true ∧ (∀ j, b = Some j → asleep xs w' L' (JUlt j) v) ∧ ∃ th0, threads w !! v = Some th0 ∧ is_open xs L v th0 ∧ t_link th0 = None ∧ joins th0 = true) as (? & ? & ? & th0 & Hv & ? & Hlv & Hjv).
      { upd y x.
        - cbn in Hoy. injection Hoy as <- <-. split_and!; try done; [intros j [= <-]; apply Has; by right|eauto].
        - destruct (v_owes _ _ _ _ J y v b Hy Hoy) as (? & ? & Hsl & ?). split_and!; try done. intros j Hj. apply Has. left. auto. }
      split_and!; try done. destruct (Hto v th0 Hv) as (th1 & ? & El & Ej & Es). exists th1. unfold is_open. by rewrite El, Ej, Es.
    + intros y z v b c Hy Hz Hoy Hoz. unfold L' in *. upd y x; upd z x; try done; cbn in *.
      * injection Hoy as <- <-. by eapply (v_owes1 _ _ _ _ J).
      * injection Hoz as <- <-. by eapply (v_owes1 _ _ _ _ J).
      * by eapply (v_owes1 _ _ _ _ J).
    + intros j v H. apply Has in H. setoid_rewrite Hope. destruct H as [H|[-> ->]].
      * destruct (v_sleep _ _ _ _ J j v H) as (? & th0 & Hv & ? & Hlo). split; [done|].
        destruct (Hto v th0 Hv) as (th1 & ? & El & Ej & Es). exists th1. unfold is_open. rewrite El, Es. split; [done|]. split; [done|].
        destruct Hlo as [?|Hlo]; [by left|right]. unfold L'. rewrite owed_at by done. rewrite (owed_split L x) in Hlo by done. right. destruct Hlo; [congruence|done].
      * split; [done|]. destruct (Hto u thu Hu) as (th1 & ? & El & Ej & Es). exists th1. unfold is_open. rewrite El, Es. split; [done|]. split; [done|].
        right. unfold L'. rewrite owed_at by done. by left.
    + intros y Hy. destruct (HL y) as (_ & -> & _). pose proof (v_futs _ _ _ _ J y Hy) as H. destruct (futs (L y)) as [| |v]; try done.
      destruct H as [? H]. split; [done|]. unfold L'. rewrite Wakes_at by done. rewrite (Wakes_split L x) in H by done.
      destruct H as [?|[?|(? & th0 & Hv & Hov & Hlk)]]; [by left|by right; left|]. right; right. split; [done|].
      destruct (Hto v th0 Hv) as (th1 & ? & El & Ej & Es). exists th1. rewrite open_at by done. unfold is_open. by rewrite El, Es.
    + intros y e Hy. destruct (HL y) as (_ & _ & ->). intros Hwk. destruct (v_wakes _ _ _ _ J y e Hy Hwk) as (He & ? & v & th0 & ? & ? & Hv & Hov).
      split; [done|]. split; [done|]. destruct (HL e) as (_ & -> & _). destruct (Hto v th0 Hv) as (th1 & ? & El & Ej & Es). exists v, th1.
      rewrite Hope. unfold is_open. by rewrite Es.
    + intros y z e Hy Hz. destruct (HL y) as (_ & _ & ->), (HL z) as (_ & _ & ->). by eapply (v_wakes1 _ _ _ _ J).
Qed.

(** ** The joiner is found *)

Lemma pinv_close g t : owned g t → ∀ u a, joined (close t g) !! u = Some a → joined g !! u = Some a ∨ u = t.
Proof. intros Ho u a. cbn. rewrite lookup_insert_Some. naive_solver. Qed.

(** The thread [a] that waited for [t] is now in the hands of [x]. *)
Lemma pinv_take_ult t a :
  owned (L x) t → asleep xs w L (JUlt a) t → pinv w (<[x := keep a claimed (close t (L x))]> L).
Proof.
  intros Ho (Hno & th & Ha & Hs & Hwt). destruct (v_free _ _ _ _ _ _ P a th Ha Hno) as (Hr & [?|(Hc & _)]); [congruence|].
  assert (∀ y, y ∈ xs → ¬ owned (L y) a) as Ho' by (intros y Hy H; apply Hno; by exists y).
  assert (pinv w (<[x := keep a claimed (L x)]> L)) as P1.
  { eapply (pinv_at _ _ _ _ w w L x a); try done.
    - split; [done|]. intros u Hu. cbn. by rewrite lookup_insert_ne.
    - intros H. apply (Ho' x Hx). by left.
    - auto.
    - apply P.
    - intros y Hy. upd y x; by apply P.
    - split; cbn; rewrite ?lookup_insert_eq; try done.
      + intros h [= <-]. split_and!; try done; [|exists th; split; [done|]; split; [by cbn; rewrite Hwt|by split_and!]].
        intros p Hp. destruct (v_pooled _ _ _ _ _ _ P p a Hp) as (_ & th0 & ? & ? & _). congruence.
      + intros p Hp. destruct (v_kpool _ _ _ _ _ _ P x a p Hx Hp) as (? & _). by destruct (Ho' x Hx). }
  eapply pinv_frame; [exact P1|by apply every_same; [apply _|]|done|..].
  - intros y Hy. upd y x; split_and!; try done; by apply P.
  - intros y u p Hy. pose proof (v_kpool _ _ _ _ _ _ P1 y u p Hy) as H. by upd y x.
  - intros y u b Hy. pose proof (v_joined _ _ _ _ _ _ P1 y u b Hy) as H. upd y x; [|by intros Hb; apply H].
    intros [Hb| ->]%(pinv_close (L x) t Ho u); [by apply H|]. destruct Ho as [Ho|Ho]; [by left|right]. cbn.
    destruct (decide (a = t)) as [->|]; [rewrite lookup_insert_eq; eauto|by rewrite lookup_insert_ne].
Qed.

(** [t] is closed, and its joiner [a] found. *)
Lemma take_facts t th a :
  threads w !! t = Some th → isY t = true → is_open xs L t th → t_link th = Some a → owned (L x) t →
  joins th = true ∧ asleep xs w L a t ∧ (∀ b, ¬ owed xs L t b) ∧ (∀ j, asleep xs w L (JUlt j) t → a = JUlt j) ∧
  (∀ g' u, joined g' = <[t := JClosed]> (joined (L x)) → Clo xs (<[x := g']> L) u ↔ u = t ∨ Clo xs L u).
Proof.
  intros Ht HY Hop Hl Hown. pose proof (v_open _ _ _ _ J t th Ht HY Hop) as H. rewrite Hl in H. destruct H as [Hj Ha].
  assert (∀ b, ¬ owed xs L t b) as Hno.
  { intros b (y & Hy & Ho). destruct (v_owes _ _ _ _ J y t b Hy Ho) as (_ & _ & _ & th0 & ? & _ & ? & _). congruence. }
  split_and!; try done.
  - intros j Hs. destruct (v_sleep _ _ _ _ J j t Hs) as (_ & th0 & ? & _ & [?|H]); [congruence|]. by destruct (Hno (Some j)).
  - intros g' u E. rewrite Clo_insert, (Clo_split L x), E, lookup_insert_Some by done.
    destruct (decide (t = u)) as [<-|]; [naive_solver|]. assert (u ≠ t) by done. tauto.
Qed.

Lemma jinv_take t th a g' :
  threads w !! t = Some th → isY t = true → is_open xs L t th → t_link th = Some a → owned (L x) t →
  joined g' = <[t := JClosed]> (joined (L x)) → owes g' = owes (L x) → futs g' = futs (L x) →
  wakes (L x) = None → wakes g' = match a with JExt e => Some e | JUlt _ => None end →
  (∀ j u, asleep xs w (<[x := g']> L) (JUlt j) u ↔ a ≠ JUlt j ∧ asleep xs w L (JUlt j) u) →
  jinv w (<[x := g']> L).
Proof.
  intros Ht HY Hop Hl Hown Ej Eo Ef Ew0 Ew Has. destruct (take_facts t th _ Ht HY Hop Hl Hown) as (Hj & Ha & Hno & Hone & Hclo).
  set (L' := <[x := g']> L) in *. specialize (Hclo g').
  assert (∀ y, owes (L' y) = owes (L y) ∧ futs (L' y) = futs (L y)) as HL by (intros y; unfold L'; by upd y x).
  assert (∀ u b, owed xs L' u b ↔ owed xs L u b) as Howed.
  { intros u b. split; intros (y & Hy & H); exists y; destruct (HL y) as (E & _); by rewrite ?E in *. }
  assert (∀ u th0, is_open xs L' u th0 ↔ u ≠ t ∧ is_open xs L u th0) as Hope.
  { intros u th0. unfold is_open, L'. rewrite Hclo by done. tauto. }
  assert (∀ u, u ≠ t → ¬ asleep xs w L a u) as Hau.
  { intros u Hut Hs. destruct a as [j|e].
    - destruct Ha as (_ & th1 & ? & _ & ?), Hs as (_ & th2 & ? & _ & ?). congruence.
    - destruct Ha as (_ & ? & _), Hs as (_ & ? & _). congruence. }
  split.
  - intros y u b thu Hy Hb Hu. destruct (decide (u = t)) as [->|Hut]; [congruence|]. apply (v_seen _ _ _ _ J y u b); try done.
    unfold L' in Hb. upd y x; [|done]. by rewrite Ej, lookup_insert_ne in Hb.
  - intros u thu Hu HYu [Hut Hou]%Hope. pose proof (v_open _ _ _ _ J u thu Hu HYu Hou) as H.
    destruct (t_link thu) as [[j|e]|]; [split; [apply H|]| |by setoid_rewrite Howed].
    + apply Has. split; [|apply H]. intros ->. apply (Hau u Hut), H.
    + cbn in *. by destruct (HL e) as (_ & ->).
  - apply J.
  - intros y u b Hy. destruct (HL y) as (-> & _). intros Hoy. destruct (v_owes _ _ _ _ J y u b Hy Hoy) as (? & ? & Hsl & thu & ? & ? & ? & ?).
    assert (u ≠ t) as Hut by (intros ->; congruence). split_and!; try done.
    + intros j Hb. apply Has. split; [|auto]. intros ->. by apply (Hau u Hut), Hsl.
    + exists thu. by rewrite Hope.
  - intros y z u b c Hy Hz. destruct (HL y) as (-> & _), (HL z) as (-> & _). by apply J.
  - intros j u [Hj' Hs]%Has. destruct (v_sleep _ _ _ _ J j u Hs) as (? & thu & Hu & ? & ?). split; [done|]. exists thu.
    rewrite Hope, Howed. split_and!; try done. intros ->. by apply Hj', Hone.
  - intros y Hy. destruct (HL y) as (_ & ->). pose proof (v_futs _ _ _ _ J y Hy) as H. destruct (futs (L y)) as [| |u]; try done.
    destruct H as [? H]. split; [done|]. destruct H as [?|[H|(? & thu & Hu & Hou & Hlk)]]; [by left|right; left|].
    + unfold L'. rewrite Wakes_at by done. rewrite (Wakes_split L x) in H by done. right. destruct H; [congruence|done].
    + right. destruct (decide (u = t)) as [->|]; [left|right; split; [done|]; exists thu; by rewrite Hope].
      unfold L'. rewrite Wakes_at by done. left. rewrite Ew. assert (a = JExt y) as -> by congruence. done.
  - intros y e Hy Hw. unfold L' in Hw. destruct (HL e) as (_ & Efe). setoid_rewrite Efe. upd y x.
    + rewrite Ew in Hw. destruct a as [|e']; [done|]. injection Hw as ->. destruct Ha as (He & Hfe & H0).
      split; [done|]. split; [done|]. exists t, th. pose proof (v_futs _ _ _ _ J e He) as H. rewrite Hfe in H.
      split_and!; try done; [apply H|]. rewrite Hope. by intros [? _].
    + destruct (v_wakes _ _ _ _ J y e Hy Hw) as (? & ? & u & thu & ? & ? & ? & Hou). split; [done|]. split; [done|]. exists u, thu.
      split_and!; try done. rewrite Hope. tauto.
  - assert (∀ y e, y ∈ xs → wakes (L y) = Some e → a ≠ JExt e) as Hwe.
    { intros y e Hy Hw ->. destruct (v_wakes _ _ _ _ J y e Hy Hw) as (_ & _ & u & thu & Hfe & _ & Hu & Hou), Ha as (_ & Hfe' & _).
      apply Hou. assert (u = t) as -> by congruence. congruence. }
    intros y z e Hy Hz Hwy Hwz. unfold L' in *. upd y x; upd z x; try done.
    + rewrite Ew in Hwy. destruct a as [|e']; [done|]. injection Hwy as ->. by destruct (Hwe z e Hz Hwz).
    + rewrite Ew in Hwz. destruct a as [|e']; [done|]. injection Hwz as ->. by destruct (Hwe y e Hy Hwy).
    + by eapply (v_wakes1 _ _ _ _ J).
Qed.

Lemma take_keeps t th a :
  threads w !! t = Some th → isY t = true → is_open xs L t th → t_link th = Some a → owned (L x) t → wakes (L x) = None →
  joiner_new ttype (L x) a ∧ winv w (<[x := take_joiner t a (L x)]> L).
Proof.
  intros Ht HY Hop Hl Hown Hw. destruct (take_facts t th _ Ht HY Hop Hl Hown) as (_ & Ha & _). destruct a as [a|e]; cbn [take_joiner].
  - split.
    + destruct Ha as (Hno & tha & Hta & Hs & _). assert (¬ owned (L x) a) as Hox by (intros H; apply Hno; by exists x).
      destruct (v_free _ _ _ _ _ _ P a tha Hta Hno) as (_ & [?|(_ & [[_ ?]|[? _]])]); [congruence| |congruence].
      split_and!; try done.
      * apply eq_None_not_Some. intros [p Hp]. destruct (v_kpool _ _ _ _ _ _ P x a p Hx Hp). done.
      * apply eq_None_not_Some. intros [p Hp]. destruct (v_joined _ _ _ _ _ _ P x a p Hx Hp). done.
    + split.
      * by apply pinv_take_ult.
      * by apply rinv_same.
      * eapply (jinv_take t th (JUlt a)); try done. intros j u. cbn. destruct (decide (j = a)) as [->|Hja].
        -- split; [|naive_solver]. intros [H _]. destruct H. exists x. rewrite fn_lookup_insert. split; [done|]. right. cbn. rewrite lookup_insert_eq. eauto.
        -- assert (Own xs (<[x := keep a claimed (close t (L x))]> L) j ↔ Own xs L j) as ->; [|naive_solver].
           unfold Own. rewrite (some_at (λ g, owned g j)), (some_split (λ g, owned g j) L x) by done.
           unfold owned. cbn. by rewrite lookup_insert_ne.
      * eapply cinv_same; [exact C|]. intros _ p. split; [done|]. f_equal. apply debts_ext. intros y Hy. by upd y x.
  - split; [done|]. apply winv_join; try done.
    + by apply every_same; [apply _|].
    + intros u b [Hb| ->]%(pinv_close (L x) t Hown u); [|done]. by eapply (v_joined _ _ _ _ _ _ P).
    + by apply rinv_same.
    + eapply (jinv_take t th (JExt e)); try done. intros j u. cbn. rewrite Own_insert_same by done. naive_solver.
Qed.

Lemma LoadLink_keeps t : keeps (LoadLink t).
Proof.
  intros Q (Ha & HY & Hj & Hw & HN & HS). pose proof (alive_owned _ _ Ha) as Ho.
  destruct (owned_at _ _ _ _ w L x W Hx t Ho) as (th & Ht). exe. rewrite Ht. destruct (t_link th) as [a|] eqn:El.
  - assert (is_open xs L t th) as Hop by (apply alive_open; try done; by rewrite Hj).
    destruct (take_keeps t th a) as [Hnew HW]; try done. eexists. split; [by apply HS|done].
  - exists (L x). split; [done|]. split; [|done]. apply winv_refl; done.
Qed.

Lemma AwaitLink_keeps t : keeps (AwaitLink t).
Proof.
  intros Q (Ha & HY & Hj & How & Hw & HS). pose proof (alive_owned _ _ Ha) as Ho.
  destruct (owned_at _ _ _ _ w L x W Hx t Ho) as (th & Ht). exe. rewrite Ht. destruct (t_link th) as [a|] eqn:El; [|done].
  assert (is_open xs L t th) as Hop by (apply alive_open; try done; by rewrite Hj).
  destruct (take_keeps t th a) as [Hnew HW]; try done. eexists. split; [by apply HS|done].
Qed.

End access.

(** ** All accesses *)

Section all.
Context (w : world) (L : xid → lg) (x : xid) (W : winv w L) (Hx : x ∈ xs) (n : nat).

Abbreviation keeps c := (∀ Q, rule (names w) x (L x) c Q → kept L x w c Q (exec ttype x n c w)) (only parsing).

Lemma StoreBlocked_keeps t why : keeps (StoreBlocked t why).
Proof.
  intros Q (h & Hh & Hk & Hc & HY & Hj & HQ).
  pose proof (StoreBlocked_resume_keeps migration ttype roots xs Hnd w L x W Hx n t
    (λ _ g', ∃ p, knows (L x) t p ∧ g' = drop t (set_debt (bump p (-1) (debt (L x))) (L x))) h Hh Hk Hc HY Hj) as H.
  destruct why as [| |u].
  - eapply StoreBlocked_resume_keeps; [done..|]. intros p Hp. by apply HQ.
  - destruct (w_places _ _ _ _ _ _ W) as [_ _ _ _ _ _ _ _ Hkp _]. destruct (v_held _ _ _ _ _ _ (w_places _ _ _ _ _ _ W) x t h Hx Hh) as (_ & th & Ht & _).
    destruct (HQ (t_pool th)). intros p Hp. destruct (Hkp x t p Hx Hp) as (_ & th' & ? & ?). congruence.
  - destruct (held_at _ _ _ _ w L x W Hx t h Hh) as (_ & Hns & Hoth & _ & th & Ht & _).
    unfold kept in H. revert H. exe. rewrite Ht. intros (g1 & (p & Hp & ->) & W1 & Hn1); [eauto|].
    destruct (HQ p Hp) as (Ho & Hf & HQ'). eexists. split; [exact HQ'|].
    set (w1 := set_threads _ w) in W1. set (L1 := <[x := _]> L) in W1.
    assert (threads w1 !! t = Some (set_t_waits ForResume (set_t_state ABT_THREAD_STATE_BLOCKED th))) as Ht1 by apply lookup_insert_eq.
    edestruct (wait_end w1 L1 x W1 Hx t u) as [W2 Hn2]; [|exact Ht1|done..| |].
    + intros (y & Hy & H). unfold L1 in H. upd y x; [|by destruct (Hoth y)]. destruct H as [H|H]; [by destruct Hns|].
      cbn in H. rewrite lookup_delete_eq in H. by destruct H.
    + unfold L1. rewrite fn_lookup_insert. done.
    + unfold put_thread, w1 in W2, Hn2. cbn in W2, Hn2. rewrite insert_insert_eq in W2, Hn2. split; [|etrans; [exact Hn1|exact Hn2]].
      eapply winv_ext; [exact W2|]. intros y. unfold L1. upd y x; rewrite ?fn_lookup_insert; done.
Qed.

(** An access whose rule holds does not fail and keeps the invariant; it waits only for a
    link or a futex. *)
Lemma exec_keeps c : keeps c.
Proof.
  destruct c.
  - by eapply LoadState_keeps.
  - intros Q (h & Hh & HQ). destruct (decide (s = ABT_THREAD_STATE_TERMINATED)) as [->|].
    + unfold store_state in HQ. destruct (hk h) eqn:Hk; try done; destruct HQ; eapply StoreTerminated_keeps; eauto.
    + by eapply StoreState_live_keeps.
  - by apply StoreBlocked_keeps.
  - by eapply LoadRequest_keeps.
  - by apply FetchOr_keeps.
  - by eapply FetchAnd_keeps.
  - by eapply LoadType_keeps.
  - by eapply LoadPool_keeps.
  - by eapply StorePool_keeps.
  - by eapply LoadParent_keeps.
  - by eapply StoreParent_keeps.
  - by eapply LoadLast_keeps.
  - by eapply StoreLast_keeps.
  - by apply LoadLink_keeps.
  - by apply AwaitLink_keeps.
  - by apply StoreLink_keeps.
  - by eapply LoadMig_keeps.
  - by eapply StoreMig_keeps.
  - by eapply GetCurrent_keeps.
  - by eapply SetCurrent_keeps.
  - by eapply IncBlocked_keeps.
  - by eapply DecBlocked_keeps.
  - by eapply Push_keeps.
  - by eapply Pop_keeps.
  - by eapply NewThread_keeps.
  - by eapply FreeThread_keeps.
  - by apply FutexInit_keeps.
  - by apply FutexWait_keeps.
  - by apply FutexWake_keeps.
  - by eapply Unlock_keeps.
  - by eapply HasStack_keeps.
  - by eapply AllocStack_keeps.
  - by eapply FreeStack_keeps.
  - by eapply Assert_keeps.
Qed.

End all.
End joins.
