(* ===== verification/UltRun.v ===== *)
(** * Every interleaving of user-level threads

    Context switches keep the invariant; so does every step of a stream.  From this, for all
    interleavings of any number of streams and external threads: no undefined access and no failed
    assertion, the place of every thread, joins that lose no wake-up, and exact counters
    of blocked threads. *)

From stdpp Require Import functions base tactics decidable option list numbers gmap fin_maps sets.
From Stdlib Require Import ZArith Lia.
From S2P Require Import Prelude Abt Thread Ult UltLogic UltSafe UltInv UltExec UltJoin.
Open Scope Z_scope.

Section run.
Context (migration : bool) (ttype : tid → Z) (roots : gset tid) (xs : list xid).
Hypothesis Hnd : NoDup xs.

Abbreviation isY t := (yieldable (ttype t)) (only parsing).
Abbreviation safe := (safe migration ttype roots).
Abbreviation saved := (saved migration ttype roots).
Abbreviation names := (names ttype).
Abbreviation pinv := (pinv migration ttype roots xs).
Abbreviation rinv := (rinv ttype xs).
Abbreviation jinv := (jinv ttype xs).
Abbreviation cinv := (cinv migration xs).
Abbreviation winv := (winv migration ttype roots xs).
Abbreviation ctx_ok := (ctx_ok migration ttype roots).
Implicit Types (w : world) (L : xid → lg) (x y e : xid) (t u j : tid) (g : lg) (th : uthread) (p : pid).

(** ** Context switches *)

Section switch.
Context (w : world) (L : xid → lg) (x : xid) (W : winv w L) (Hx : x ∈ xs).

Let P : pinv w L := w_places _ _ _ _ _ _ W.

Lemma switched_owned old new c g' : switched ttype x (L x) old new c g' → ∀ t, owned g' t ↔ owned (L x) t.
Proof.
  intros S t. destruct S as [rest E|rest h E Hne Hh _ _ _ _ _ _|rest h _ E Hh _ _ _ _ _ _]; unfold owned; cbn; rewrite E.
  - destruct (decide (t = old)) as [->|]; [rewrite lookup_insert_eq|rewrite lookup_insert_ne by done]; set_solver.
  - destruct (decide (t = old)) as [->|]; [rewrite lookup_insert_eq; set_solver|]. rewrite lookup_insert_ne by done.
    destruct (decide (t = new)) as [->|]; [rewrite lookup_delete_eq; set_solver|]. rewrite lookup_delete_ne by done. set_solver.
  - destruct (decide (t = new)) as [->|]; [rewrite lookup_delete_eq; set_solver|]. rewrite lookup_delete_ne by done. set_solver.
Qed.

Lemma switched_same old new c g' :
  switched ttype x (L x) old new c g' →
  cur g' = cur (L x) ∧ joined g' = joined (L x) ∧ kpool g' = kpool (L x) ∧ kmig g' = kmig (L x) ∧ debt g' = debt (L x) ∧
  owes g' = owes (L x) ∧ futs g' = futs (L x) ∧ wakes g' = wakes (L x).
Proof. by intros []. Qed.

(** Where the two threads are before the switch. *)
Lemma switched_at old new c g' :
  switched ttype x (L x) old new c g' →
  old ≠ new ∧ (∃ tho, threads w !! old = Some tho ∧ live tho ∧ t_last tho = Some x ∧ isY old = true) ∧
  (∃ thn k, threads w !! new = Some thn ∧ live thn ∧ t_last thn = Some x ∧ isY new = true ∧ t_ctx thn = Some k ∧ saved (names w) new k) ∧
  ∃ rest, stk g' = new :: rest ∧ (rest = [] → new ∈ roots).
Proof.
  intros S. destruct (v_stk _ _ _ _ _ _ P x Hx) as [Hdup Hsh].
  assert (∀ rest, stk (L x) = old :: rest → ∃ tho, threads w !! old = Some tho ∧ live tho ∧ t_last tho = Some x ∧ isY old = true) as Hold.
  { intros rest E. destruct (v_stack _ _ _ _ _ _ P x 0 old Hx) as (tho & ? & (? & _ & ? & ? & _)); [by rewrite E|]. eauto. }
  assert (∀ rest h, stk (L x) = old :: rest → held (L x) !! new = Some h → old ≠ new) as Hne.
  { intros rest h E Hh ->. rewrite Hsh in Hh; [done|]. rewrite E. by left. }
  assert (∀ h, held (L x) !! new = Some h → hk h = HReady ∨ hk h = HRun → hctx h = true → isY new = true → hlast h = Some (Some x) →
    ∃ thn k, threads w !! new = Some thn ∧ live thn ∧ t_last thn = Some x ∧ isY new = true ∧ t_ctx thn = Some k ∧ saved (names w) new k) as Hnew.
  { intros h Hh Hk Hc HY Hl. destruct (v_held _ _ _ _ _ _ P x new h Hx Hh) as (_ & thn & Ht & (Hok & Hctx & _ & Hla)).
    destruct (Hctx Hc HY) as (k & ? & ?). exists thn, k. split_and!; try done; [by eapply kind_live|auto]. }
  destruct S as [rest E|rest h E Hr Hh Hk Hc HY _ Hl _|rest h _ E Hh Hk Hc HY _ Hl _].
  - rewrite E in Hdup. split; [intros ->; apply NoDup_cons in Hdup as [Hd _]; apply Hd; by left|]. split; [by eapply Hold|].
    destruct (v_stack _ _ _ _ _ _ P x 1 new Hx) as (thn & Ht & (Hli & _ & Hl & HY & Hctx & Hr)); [by rewrite E|].
    cbn in Hctx. destruct (Hctx HY) as (k & ? & ?). split; [exists thn, k; by split_and!|]. exists rest. split; [done|]. intros ->. apply Hr. by rewrite E.
  - split; [by eapply Hne|]. split; [by eapply Hold|]. split; [by eapply Hnew|]. by exists rest.
  - split; [by eapply Hne|]. split; [by eapply Hold|]. split; [by eapply Hnew|]. by exists (old :: rest).
Qed.

(** All but the saved context. *)
Definition csame th th' : Prop := ∃ o, th' = set_t_ctx o th.

Section switched.
Context (old new : tid) (c : bool) (g' : lg) (S : switched ttype x (L x) old new c g').
Context (tho thn : uthread) (Htho : threads w !! old = Some tho) (Hthn : threads w !! new = Some thn) (o : option prog).
Hypothesis Hsaved : c = true → ∃ k, o = Some k ∧ saved (names w) old k.

Definition after : world :=
  set_threads (<[new := set_t_ctx None thn]> (<[old := set_t_ctx o tho]> (threads w))) w.

Lemma after_lookup u :
  old ≠ new → threads after !! u = if decide (u = new) then Some (set_t_ctx None thn)
                                   else if decide (u = old) then Some (set_t_ctx o tho) else threads w !! u.
Proof.
  intros Hne. cbn. repeat case_decide; subst; rewrite ?lookup_insert_eq; try done; rewrite lookup_insert_ne by done.
  - by rewrite lookup_insert_eq.
  - by rewrite lookup_insert_ne.
Qed.

Lemma after_every : old ≠ new → every csame w after.
Proof.
  intros Hne u. rewrite after_lookup by done. repeat case_decide; subst.
  - rewrite Hthn. constructor. by exists None.
  - rewrite Htho. constructor. by exists o.
  - destruct (threads w !! u) as [th|]; constructor. exists (t_ctx th). by destruct th.
Qed.

Lemma csame_eq th th' : csame th th' → t_state th' = t_state th ∧ t_pool th' = t_pool th ∧ t_parent th' = t_parent th ∧
  t_last th' = t_last th ∧ t_link th' = t_link th ∧ t_request th' = t_request th ∧ t_mig th' = t_mig th ∧ t_waits th' = t_waits th.
Proof. intros (v & ->). done. Qed.

(** The six parts of [stack_ok]. *)
Ltac six := refine (conj _ (conj _ (conj _ (conj _ (conj _ _))))).

(** A thread of the new stack other than the two keeps its place above the bottom. *)
Lemma stack_shift (s s' : list tid) i i' t th :
  stack_ok migration ttype roots (names w) x s i t th → s !! Datatypes.S i = s' !! Datatypes.S i' →
  (Datatypes.S i = length s ↔ Datatypes.S i' = length s') → i ≠ 0%nat → i' ≠ 0%nat →
  stack_ok migration ttype roots (names w) x s' i' t th.
Proof.
  intros (H1 & H2 & H3 & H4 & H5 & H6) E El Hi Hi'. rewrite decide_False in H5 by done.
  six; try done; [congruence|by rewrite decide_False|by rewrite <- El].
Qed.

Lemma switched_stack i t :
  stk g' !! i = Some t →
  ∃ th, threads after !! t = Some th ∧ stack_ok migration ttype roots (names w) x (stk g') i t th.
Proof.
  intros Hi. destruct (switched_at old new c g' S) as (Hne & _ & (thn' & k & E & Hli & Hla & HYn & _) & _).
  assert (thn' = thn) as -> by congruence. clear E. rewrite after_lookup by done.
  destruct (v_stk _ _ _ _ _ _ P x Hx) as [Hdup Hsh]. pose proof (v_stack _ _ _ _ _ _ P x) as Hst.
  destruct S as [rest E|rest h E Hr Hh Hk Hc HY Hp Hl _|rest h Ec E Hh Hk Hc HY Hp Hl _]; cbn in *.
  - rewrite E in Hst, Hdup. apply NoDup_cons in Hdup as [Ho Hdup]. apply NoDup_cons in Hdup as [Hn Hdup]. destruct i as [|i]; cbn in Hi.
    + injection Hi as <-. rewrite decide_True by done. eexists. split; [done|].
      destruct (Hst 1%nat new Hx eq_refl) as (th & Ht & (? & Hpa & ? & ? & _ & Hro)). assert (th = thn) as -> by congruence.
      six; try done. rewrite Hro. cbn. lia.
    + destruct (Hst (Datatypes.S (Datatypes.S i)) t Hx Hi) as (th & Ht & Hok). pose proof (list_elem_of_lookup_2 _ _ _ Hi).
      rewrite decide_False, decide_False by set_solver. exists th. split; [done|]. eapply stack_shift; [exact Hok|done| |done..]. cbn. lia.
  - rewrite E in Hst, Hdup. apply NoDup_cons in Hdup as [Ho Hdup]. destruct i as [|i]; cbn in Hi.
    + injection Hi as <-. rewrite decide_True by done. eexists. split; [done|].
      destruct (v_held _ _ _ _ _ _ P x new h Hx Hh) as (Hnr & th & Ht & (_ & _ & Hpar & _)). assert (th = thn) as -> by congruence.
      six; try done; cbn; [by rewrite (Hpar _ Hp); destruct rest|]. destruct rest; [done|]. cbn. split; [done|lia].
    + destruct (Hst (Datatypes.S i) t Hx Hi) as (th & Ht & Hok). pose proof (list_elem_of_lookup_2 _ _ _ Hi) as Hin.
      assert (t ≠ new) by (intros ->; rewrite Hsh in Hh; [done|]; rewrite E; by right).
      rewrite decide_False, decide_False by set_solver. exists th. split; [done|]. eapply stack_shift; [exact Hok|done|done|done..].
  - rewrite E in Hst, Hdup. apply NoDup_cons in Hdup as [Ho Hdup]. destruct i as [|[|i]]; cbn in Hi.
    + injection Hi as <-. rewrite decide_True by done. eexists. split; [done|].
      destruct (v_held _ _ _ _ _ _ P x new h Hx Hh) as (Hnr & th & Ht & (_ & _ & Hpar & _)). assert (th = thn) as -> by congruence.
      six; try done. cbn. by rewrite (Hpar _ Hp).
    + injection Hi as <-. rewrite decide_False, decide_True by done. eexists. split; [done|].
      destruct (Hst 0%nat old Hx eq_refl) as (th & Ht & (? & Hpa & ? & ? & _ & Hro)). assert (th = tho) as -> by congruence.
      destruct (Hsaved Ec) as (k' & -> & Hk'). six; try done; [intros _; by exists k'|]. rewrite Hro. cbn. lia.
    + destruct (Hst (Datatypes.S i) t Hx Hi) as (th & Ht & Hok). pose proof (list_elem_of_lookup_2 _ _ _ Hi) as Hin.
      assert (t ≠ new) by (intros ->; rewrite Hsh in Hh; [done|]; rewrite E; by right).
      rewrite decide_False, decide_False by set_solver. exists th. split; [done|]. eapply stack_shift; [exact Hok|done| |done..]. cbn. lia.
Qed.

Lemma switched_held t h :
  held g' !! t = Some h →
  (t ∉ stk g') ∧ (t ∉ roots) ∧ ∃ th, threads after !! t = Some th ∧ hold_ok migration ttype roots (names w) t h th.
Proof.
  intros Hh. destruct (switched_at old new c g' S) as (Hne & (tho' & E & Hli & Hla & HYo) & _ & _).
  assert (tho' = tho) as -> by congruence. clear E. rewrite after_lookup by done.
  destruct (v_stk _ _ _ _ _ _ P x Hx) as [Hdup Hsh]. pose proof (v_held _ _ _ _ _ _ P x) as Hhe.
  assert (∀ rest, stk (L x) = old :: rest → rest ≠ [] → (old ∉ roots) ∧ (old ∉ rest) ∧
            hold_ok migration ttype roots (names w) old (left_by x c) (set_t_ctx o tho)) as Hold.
  { intros rest E Hr. rewrite E in Hdup. apply NoDup_cons in Hdup as [Ho _].
    destruct (v_stack _ _ _ _ _ _ P x 0 old Hx) as (th & _ & (_ & _ & _ & _ & _ & Hro)); [by rewrite E|].
    split; [rewrite Hro, E; destruct rest; [done|cbn; lia]|]. split; [done|]. split; [done|]. split; [|split; [done|by intros v [= <-]]].
    cbn. intros Hc _. destruct (Hsaved Hc) as (k' & -> & ?). by exists k'. }
  destruct S as [rest E|rest h' E Hr Hh' _ _ _ _ _ _|rest h' _ E Hh' _ _ _ _ _ _]; cbn in *.
  - destruct (Hold (new :: rest) E) as (? & ? & ?); [done|]. rewrite lookup_insert_Some in Hh. destruct Hh as [[<- <-]|[Hto Hh]].
    + rewrite decide_False, decide_True by done. eauto.
    + destruct (Hhe t h Hx Hh) as (? & th & ? & ?). assert (t ∉ old :: new :: rest) as Hin by (intros Hin; rewrite <- E in Hin; by rewrite Hsh in Hh).
      rewrite decide_False, decide_False by set_solver. split; [set_solver|]. eauto.
  - destruct (Hold rest E Hr) as (? & ? & ?). rewrite lookup_insert_Some in Hh. destruct Hh as [[<- <-]|[Hto Hh]].
    + rewrite decide_False, decide_True by done. split; [set_solver|]. eauto.
    + rewrite lookup_delete_Some in Hh. destruct Hh as [Htn Hh]. destruct (Hhe t h Hx Hh) as (? & th & ? & ?).
      assert (t ∉ old :: rest) as Hin by (intros Hin; rewrite <- E in Hin; by rewrite Hsh in Hh).
      rewrite decide_False, decide_False by done. split; [set_solver|]. eauto.
  - rewrite lookup_delete_Some in Hh. destruct Hh as [Htn Hh]. destruct (Hhe t h Hx Hh) as (? & th & ? & ?).
    assert (t ∉ old :: rest) as Hin by (intros Hin; rewrite <- E in Hin; by rewrite Hsh in Hh).
    rewrite decide_False, decide_False by set_solver. split; [set_solver|]. eauto.
Qed.

Lemma switched_nodup : NoDup (stk g').
Proof.
  destruct (v_stk _ _ _ _ _ _ P x Hx) as [Hdup Hsh].
  destruct S as [rest E|rest h' E Hr Hh' _ _ _ _ _ _|rest h' _ E Hh' _ _ _ _ _ _]; cbn in *; rewrite E in Hdup, Hsh;
    apply NoDup_cons in Hdup as [Ho Hdup]; [done|..]; repeat (apply NoDup_cons; split); try done;
    intros Hin; rewrite Hsh in Hh'; try done; set_solver.
Qed.

Lemma switched_Own u : Own xs (<[x := g']> L) u ↔ Own xs L u.
Proof.
  unfold Own. pose proof (switched_owned old new c g' S u) as H.
  split; intros (y & Hy & Ho); exists y; (split; [done|]); upd y x; by try apply H.
Qed.

Lemma after_off u : (¬ owned (L x) u) → threads after !! u = threads w !! u.
Proof.
  intros Hno. destruct (switched_at old new c g' S) as (Hne & _). rewrite after_lookup by done.
  pose proof (switched_owned old new c g' S) as Hown.
  destruct S as [rest E|rest h' E Hr Hh' _ _ _ _ _ _|rest h' _ E Hh' _ _ _ _ _ _]; cbn in *; unfold owned in Hno; rewrite E in Hno;
    (rewrite decide_False by (intros ->; apply Hno; (left; set_solver) || (right; eauto)));
    (rewrite decide_False by (intros ->; apply Hno; left; set_solver)); done.
Qed.

Lemma pinv_switched : pinv after (<[x := g']> L).
Proof.
  destruct (switched_at old new c g' S) as (Hne & _). pose proof (after_every Hne) as He.
  pose proof (every_names ttype _ _ _ He) as En. pose proof (switched_owned old new c g' S) as Hown.
  destruct (switched_same old new c g' S) as (Ec & Ej & Ek & _).
  assert (∀ y t, y ∈ xs → owned (<[x := g']> L y) t ↔ owned (L y) t) as Ho by (intros y t Hy; upd y x; auto).
  assert (∀ y t, y ∈ xs → y ≠ x → owned (L y) t → threads after !! t = threads w !! t) as Hoff.
  { intros y t Hy Hyx Hyo. apply after_off. intros Hxo. apply Hyx. by eapply (v_owner _ _ _ _ _ _ P). }
  assert (∀ t, (¬ Own xs L t) → threads after !! t = threads w !! t) as Hfree.
  { intros t Hno. apply after_off. intros H. apply Hno. by exists x. }
  split; try rewrite En.
  - intros y Hy. cbn. upd y x; [rewrite Ec|]; by apply P.
  - intros y z t Hy Hz. rewrite !Ho by done. by apply P.
  - intros y Hy. upd y x; [|by apply P]. split; [apply switched_nodup|]. intros t Ht. apply eq_None_not_Some. intros [h Hh].
    by destruct (switched_held t h Hh).
  - intros y i t Hy. upd y x; [by apply switched_stack|]. intros Hi. destruct (v_stack _ _ _ _ _ _ P y i t Hy Hi) as (th & ? & ?). exists th.
    rewrite (Hoff y) by (done || left; by eapply list_elem_of_lookup_2). done.
  - intros y t h Hy. upd y x; [by apply switched_held|]. intros Hh. destruct (v_held _ _ _ _ _ _ P y t h Hy Hh) as (? & th & ? & ?).
    split; [done|]. exists th. rewrite (Hoff y); [done..|]. right. eauto.
  - apply P.
  - intros p t Hp. destruct (v_pooled _ _ _ _ _ _ P p t Hp) as (Hno & ?). rewrite switched_Own, Hfree by done. done.
  - intros t th Ht. rewrite switched_Own. intros Hno. rewrite Hfree in Ht by done. by apply (v_free _ _ _ _ _ _ P).
  - intros y t p Hy Hk. rewrite Ho by done. assert (kpool (L y) !! t = Some p) as Hk' by (by upd y x; rewrite ?Ek in Hk).
    destruct (v_kpool _ _ _ _ _ _ P y t p Hy Hk') as (? & th & Ht & ?). split; [done|].
    destruct (every_to _ _ _ _ _ He Ht) as (th' & ? & (_ & Ep & _)%csame_eq). exists th'. by rewrite Ep.
  - intros y t a Hy Hj. rewrite Ho by done. assert (joined (L y) !! t = Some a) as Hj' by (by upd y x; rewrite ?Ej in Hj).
    destruct (v_joined _ _ _ _ _ _ P y t a Hy Hj') as (? & th & Ht). split; [done|].
    destruct (every_to _ _ _ _ _ He Ht) as (th' & ? & _). eauto.
  - intros t Hr. destruct (v_roots _ _ _ _ _ _ P t Hr) as (y & Hy & Hs). assert (owned (<[x := g']> L y) t) as [?|[h Hh]].
    + rewrite Ho by done. by left.
    + eauto.
    + upd y x; [by destruct (switched_held t h Hh) as (_ & ? & _)|]. by destruct (v_held _ _ _ _ _ _ P y t h Hy Hh).
Qed.

Lemma winv_switched : winv after (<[x := g']> L) ∧ names after = names w.
Proof.
  destruct (switched_at old new c g' S) as (Hne & _). pose proof (after_every Hne) as He.
  destruct (switched_same old new c g' S) as (Ec & Ej & Ek & Em & Ed & Eo & Ef & Ew).
  split; [|by eapply every_names]. split.
  - apply pinv_switched.
  - eapply rinv_frame; [exact (w_requests _ _ _ _ _ _ W)| |].
    + intros t. destruct (He t) as [th th' Hc|]; constructor. apply csame_eq in Hc as (_ & _ & _ & _ & _ & ? & ? & _). by split.
    + intros y Hy. upd y x; by rewrite ?Em.
  - eapply jinv_frame; [..|exact (w_joins _ _ _ _ _ _ W)].
    + intros y Hy. upd y x; by split.
    + intros y t Hy. upd y x; by rewrite ?Ej.
    + intros t th Ht. destruct (every_to _ _ _ _ _ He Ht) as (th' & ? & (v & ->)). exists (set_t_ctx v th). by split_and!.
    + intros t th' Ht. left. destruct (every_from _ _ _ _ _ He Ht) as (th & ? & (v & ->)). exists th. by split_and!.
    + done.
    + intros j t. cbn [asleep]. rewrite switched_Own. split; intros (? & th & Ht & ? & ?); (split; [done|]).
      * destruct (every_to _ _ _ _ _ He Ht) as (th' & ? & (v & ->)). by eexists.
      * destruct (every_from _ _ _ _ _ He Ht) as (th' & ? & (v & ->)). by exists th'.
  - eapply cinv_same; [exact (w_counts _ _ _ _ _ _ W)|]. intros _ p. split; [done|].
    rewrite (debts_ext xs L) by (intros y Hy; upd y x; by rewrite ?Ed). f_equal. eapply nblocked_same; [exact He|]. by intros th th' (? & ? & _)%csame_eq.
Qed.

End switched.
End switch.

(** ** Steps of a stream *)

Definition minv_with (m : mach) (L : xid → lg) : Prop :=
  winv (wd m) L ∧ ∀ x, x ∈ xs → safe (names (wd m)) x (L x) (code m x).
Definition minv (m : mach) : Prop := ∃ L, minv_with m L.

(** The joiner of [t] is known to [t]. *)
Definition linked (w : world) (t : tid) : Prop := ∃ th, threads w !! t = Some th ∧ t_link th ≠ None.

(** A stream that owes a link still owes it, or has stored it. *)
Definition debt_kept (g g' : lg) (w' : world) : Prop :=
  ∀ t a, owes g = Some (t, a) → (∃ a', owes g' = Some (t, a')) ∨ linked w' t.

Lemma debt_kept_same g g' w' : owes g' = owes g → debt_kept g g' w'.
Proof. intros E t a Ho. left. exists a. by rewrite E. Qed.

Ltac still_owes Ho a :=
  lazymatch goal with
  | |- (∃ a', _ = Some (_, a')) ∨ _ => left; exists a; exact Ho
  | |- _ ∧ _ => split; still_owes Ho a
  | |- ∀ _, _ => intros; still_owes Ho a
  | |- _ => solve [eauto | congruence]
  end.

(** An access by a stream that owes a link. *)
Lemma rule_owes A x g c (Q : ret c → lg → Prop) t a :
  owes g = Some (t, a) → rule ttype A x g c Q →
  rule ttype A x g c (λ r g', Q r g' ∧ ((∃ a', owes g' = Some (t, a')) ∨ ∃ j' : joiner, c = StoreLink t j')).
Proof.
  intros Ho. destruct c; cbn -[ABTI_THREAD_REQ_JOIN ABTI_THREAD_REQ_CANCEL ABTI_THREAD_REQ_MIGRATE]; intros H;
    repeat match goal with H : _ ∧ _ |- _ => destruct H | H : ∃ _, _ |- _ => destruct H end.
  all: try solve [still_owes Ho a].
  all: try solve [eexists; still_owes Ho a].
  all: try congruence.
  - eexists. split; [eassumption|]. unfold store_state in *. destruct s, (hk x0), (named ttype t0);
      try done; destruct_and?; still_owes Ho a.
  - eexists. do 5 (split; [eassumption|]). intros p Hp.
    match goal with H : ∀ p, knows _ _ _ → _ |- _ => specialize (H p Hp) end.
    destruct why; [destruct_and?; congruence|done|]. destruct_and!.
    match goal with E : owes g = Some (_, None) |- _ => rewrite Ho in E; injection E as <- -> end. split_and!; eauto.
  - split; [done|]. intros v Hv. split; [auto|]. destruct (has v ABTI_THREAD_REQ_MIGRATE); still_owes Ho a.
  - destruct H as [H|[H|H]]; destruct_and!; [left|congruence|right; right]; still_owes Ho a.
  - destruct H as [H|H]; [left|right]; destruct_and?; [still_owes Ho a|]. destruct H as (h & H1 & H2). exists h. still_owes Ho a.
  - split_and!; try done; [still_owes Ho a..|]. intros j' Hj. split; [auto|]. left. exists a. by destruct j'.
  - destruct j; destruct_and!; split_and!; try done; right; eexists; simplify_eq; f_equal; congruence.
  - do 2 (split; [done|]). eexists. still_owes Ho a.
Qed.

Definition in_user (p : prog) : Prop := p = User ∨ ∃ k, p = Task k.

(** What [x] does while the others stay. *)
Lemma minv_at m L x w' (p : prog) g' :
  (∀ y, y ∈ xs → safe (names (wd m)) y (L y) (code m y)) → names (wd m) ⊆ names w' →
  winv w' (<[x := g']> L) → safe (names w') x g' p → minv_with (Mach w' (<[x := p]> (code m))) (<[x := g']> L).
Proof.
  intros Hs Hn W Hp. split; [done|]. intros y Hy. cbn. upd y x; [done|].
  eapply safe_mono, Hs; done.
Qed.

Lemma base_eq g : held g = ∅ → idle migration g → cur g = head (stk g) → g = base (stk g) (kpool g) (kmig g) (debt g).
Proof. unfold idle. destruct g. cbn. intros -> (-> & _ & -> & -> & ->) ->. done. Qed.

(** After a switch the callback runs, then the new thread goes on where it was. *)
Lemma resumed_safe A x g' new rest cb k :
  cur g' = Some new → stk g' = new :: rest → (rest = [] → new ∈ roots) →
  callback_ok migration ttype x g' cb → saved A new k →
  safe A x g' (match cb with Some cb => run_callback migration cb (λ _, k) | None => k end).
Proof.
  intros Hc Hs Hr Hcb Hk. assert (cur g' = head (stk g')) as Hc' by (by rewrite Hs).
  assert (∀ kp km d, settled migration d → safe A x (base (stk g') kp km d) k) as Hb.
  { intros kp km d Hd. rewrite Hs. by apply Hk. }
  destruct cb as [cb|]; [by apply callback_safe|]. destruct Hcb as [Hh Hi]. rewrite (base_eq g') by done. apply Hb, Hi.
Qed.

Section step.
Context (m : mach) (L : xid → lg) (W : winv (wd m) L) (Hsafe : ∀ y, y ∈ xs → safe (names (wd m)) y (L y) (code m y)).
Context (x : xid) (Hx : x ∈ xs).

Definition advanced (o : outcome (prog * world)) : Prop :=
  match o with
  | Done (p, w') => ∃ g', minv_with (Mach w' (<[x := p]> (code m))) (<[x := g']> L) ∧ debt_kept (L x) g' w'
  | Fault Blocked => in_user (code m x) ∨ ∃ c k, code m x = Next c k ∧ waiting c
  | Fault f => ∃ c k, code m x = Next c k ∧ stack_fault ttype x c f
  end.

Lemma next_advances n c k : code m x = Next c k → advanced (advance migration ttype x n (Next c k) (wd m)).
Proof.
  intros E. pose proof (Hsafe x Hx) as Hs. rewrite E in Hs.
  assert (rule ttype (names (wd m)) x (L x) c (λ r g', safe (names (wd m)) x g' (k r) ∧
    ∀ t a, owes (L x) = Some (t, a) → (∃ a', owes g' = Some (t, a')) ∨ ∃ j' : joiner, c = StoreLink t j')) as Hs'.
  { destruct (owes (L x)) as [[t a]|] eqn:Ho.
    - eapply rule_mono; [done| |exact (rule_owes _ _ _ _ _ t a Ho Hs)]. intros r g' [? Hd]. split; [done|]. by intros ? ? [= <- <-].
    - eapply rule_mono; [done| |exact Hs]. intros r g' ?. by split. }
  pose proof (exec_keeps migration ttype roots xs Hnd (wd m) L x W Hx n c _ Hs') as Hk.
  cbv beta iota delta [advance mbind C_bind mret C_ret]. unfold kept in Hk. destruct (exec ttype x n c (wd m)) as [[r w']|f] eqn:Ee.
  - destruct Hk as (g' & [HQ Hd] & W' & Hn). exists g'. split; [eapply minv_at; [exact Hsafe|done..|]; by eapply safe_mono|].
    intros t a Ho. destruct (Hd t a Ho) as [?|[j ->]]; [by left|right]. cbv beta iota delta [exec update thread modify mbind C_bind] in Ee.
    destruct (threads (wd m) !! t) as [th|] eqn:Et; [|done]. injection Ee as <- <-. eexists. cbn. rewrite lookup_insert_eq. done.
  - destruct f; try (right; exists c, k; exact (conj E Hk)); exists c, k; exact (conj E Hk).
Qed.

Lemma switch_advances n old new cb k :
  code m x = Switch old new cb k → advanced (advance migration ttype x n (Switch old new cb k) (wd m)).
Proof.
  intros E. pose proof (Hsafe x Hx) as Hs. rewrite E in Hs. destruct Hs as (Hc & (g' & S & Hcb) & Hk).
  destruct (switched_at (wd m) L x W Hx old new true g' S) as (Hne & (tho & Ho & _) & (thn & kn & Hn & _ & _ & _ & Hctx & Hkn) & rest & Hst & Hr).
  destruct (switched_same L x old new true g' S) as (Ec & _ & _ & _ & _ & Eo & _).
  cbv beta iota delta [advance enter update thread modify mbind C_bind mret C_ret].
  rewrite Ho. cbn [threads set_threads wd]. rewrite lookup_insert_ne, Hn by done. rewrite Hctx. cbn [threads set_threads wd].
  rewrite lookup_insert_ne, Hn by done.
  destruct (winv_switched (wd m) L x W Hx old new true g' S tho thn Ho Hn (Some k)) as [W' En]; [intros _; exists k; split; [done|]; intros y; apply Hk|].
  exists g'. split; [|by apply debt_kept_same].
  eapply minv_at; [exact Hsafe| |exact W'|]; [by rewrite <- En|]. eapply (resumed_safe _ _ _ new rest cb kn); try done; [by rewrite Ec|].
  change (names (set_threads _ (set_threads _ (wd m)))) with (names (after (wd m) old new tho thn (Some k))). by rewrite En.
Qed.

Lemma jump_advances n new cb :
  code m x = Jump new cb → advanced (advance migration ttype x n (Jump new cb) (wd m)).
Proof.
  intros E. pose proof (Hsafe x Hx) as Hs. rewrite E in Hs. destruct Hs as (Hc & old & g' & S & Hcb).
  destruct (switched_at (wd m) L x W Hx old new false g' S) as (Hne & (tho & Ho & _) & (thn & kn & Hn & _ & _ & _ & Hctx & Hkn) & rest & Hst & Hr).
  destruct (switched_same L x old new false g' S) as (Ec & _ & _ & _ & _ & Eo & _).
  cbv beta iota delta [advance enter update thread modify mbind C_bind mret C_ret].
  rewrite Hn, Hctx. cbn [threads set_threads wd].
  destruct (winv_switched (wd m) L x W Hx old new false g' S tho thn Ho Hn (t_ctx tho)) as [W' En]; [done|].
  assert (after (wd m) old new tho thn (t_ctx tho) = set_threads (<[new := set_t_ctx None thn]> (threads (wd m))) (wd m)) as Ea.
  { unfold after. f_equal. f_equal. apply insert_id. rewrite Ho. by destruct tho. }
  rewrite Ea in W', En. rewrite Hn. exists g'. split; [|by apply debt_kept_same].
  eapply minv_at; [exact Hsafe| |exact W'|]; [by rewrite <- En|].
  eapply (resumed_safe _ _ _ new rest (Some cb) kn); try done; [by rewrite Ec|]. by rewrite En.
Qed.

Lemma step_advances n : advanced (advance migration ttype x n (code m x) (wd m)).
Proof.
  pose proof (Hsafe x Hx) as Hs.
  assert (∀ p : prog, safe (names (wd m)) x (L x) p →
    ∃ g', minv_with (Mach (wd m) (<[x := p]> (code m))) (<[x := g']> L) ∧ debt_kept (L x) g' (wd m)) as Hloop.
  { intros p Hp. exists (L x). split; [|by apply debt_kept_same]. eapply minv_at; [exact Hsafe|done| |exact Hp].
    by apply (winv_refl migration ttype roots xs). }
  destruct (code m x) as [|k|c k|old new cb k|new cb|y self t k|t k|] eqn:E.
  - left. rewrite E. by left.
  - left. rewrite E. right. eauto.
  - by apply next_advances.
  - by apply switch_advances.
  - by apply jump_advances.
  - by apply Hloop, join_body_safe.
  - by apply Hloop, busy_body_safe.
  - done.
Qed.

(** ** Calls of user code *)

Lemma user_may_leave : in_user (code m x) → can_leave ttype (wd m) (current (wd m) x) → may_leave ttype roots (L x).
Proof.
  intros Hu Hc self Hself HY. pose proof (w_places _ _ _ _ _ _ W) as P. pose proof (Hsafe x Hx) as Hs.
  rewrite (v_cur _ _ _ _ _ _ P x Hx) in Hc. destruct Hu as [E|[k E]]; rewrite E in Hs.
  - destruct Hs as (_ & _ & Hh). rewrite Hself in Hh. destruct (stk (L x)) as [|t rest] eqn:Es; [done|]. injection Hh as <-.
    destruct (v_stack _ _ _ _ _ _ P x 0 self Hx) as (th & Ht & (_ & Hp & _ & _ & _ & Hr)); [by rewrite Es|].
    exists rest. split; [done|]. rewrite Es in Hp, Hr. specialize (Hc self th Hself HY Ht).
    destruct rest; [by rewrite Hp in Hc|]. split; [done|]. rewrite Hr. cbn. lia.
  - destruct Hs as (_ & (t & h & _ & _ & Hcur & HYt) & _). congruence.
Qed.

Lemma resumable_free t :
  in_user (code m x) → resumable ttype (wd m) t →
  t ∈ names (wd m) ∧ (∀ y, y ∈ xs → ¬ owned (L y) t) ∧ kpool (L x) !! t = None ∧ isY t = true.
Proof.
  intros Hu ((Hsome & Hn) & th & Ht & Hs & Hw). pose proof (w_places _ _ _ _ _ _ W) as P.
  assert (∀ y, y ∈ xs → ¬ owned (L y) t) as Hno.
  { intros y Hy [Hst|[h Hh]].
    - apply list_elem_of_lookup in Hst as [i Hi]. destruct (v_stack _ _ _ _ _ _ P y i t Hy Hi) as (th' & ? & ([?|?] & _)); congruence.
    - destruct (v_held _ _ _ _ _ _ P y t h Hy Hh) as (_ & th' & Ht' & (Hk & _)). assert (th' = th) as -> by congruence.
      destruct (hk h); cbn in Hk; [congruence|destruct Hk; congruence|by destruct Hk|congruence]. }
  split_and!; [|done|..].
  - unfold names. rewrite elem_of_filter, elem_of_dom. done.
  - apply eq_None_not_Some. intros [p Hp]. destruct (v_kpool _ _ _ _ _ _ P x t p Hx Hp) as (Ho & _). by apply (Hno x).
  - assert (¬ Own xs L t) as Hno' by (intros (y & Hy & Ho); by apply (Hno y)).
    destruct (v_free _ _ _ _ _ _ P t th Ht Hno') as (_ & [?|(_ & [[_ ?]|[? _]])]); congruence.
Qed.

Lemma handle_names t : handle_ok ttype (wd m) t → t ∈ names (wd m).
Proof. intros [? ?]. unfold names. by rewrite elem_of_filter, elem_of_dom. Qed.

Lemma legal_here c : in_user (code m x) → legal ttype (wd m) x c → legal_local ttype roots (names (wd m)) (L x) c.
Proof.
  intros Hu Hl. pose proof (user_may_leave Hu) as Hleave. rewrite (v_cur _ _ _ _ _ _ (w_places _ _ _ _ _ _ W) x Hx) in Hleave.
  unfold legal in Hl. rewrite (v_cur _ _ _ _ _ _ (w_places _ _ _ _ _ _ W) x Hx) in Hl. split.
  - assert (∀ t, resumable ttype (wd m) t → t ∈ names (wd m) ∧ (¬ owned (L x) t) ∧ kpool (L x) !! t = None ∧ isY t = true) as H.
    { intros t Ht. destruct (resumable_free t Hu Ht) as (? & Hno & ? & ?). split_and!; try done. by apply Hno. }
    intros t Ht. destruct c; try done; injection Ht as ->; apply H; tauto.
  - pose proof handle_names. destruct c; naive_solver.
Qed.

(** The claim on a blocked thread. *)
Lemma winv_claim c :
  in_user (code m x) → legal ttype (wd m) x c →
  winv (claim c (wd m)) (<[x := claim_local c (L x)]> L) ∧ names (wd m) ⊆ names (claim c (wd m)).
Proof.
  intros Hu Hl. assert (∀ t, resumable ttype (wd m) t →
    let w' := set_threads (alter (set_t_waits ForResumer) t (threads (wd m))) (wd m) in
    winv w' (<[x := keep t claimed (L x)]> L) ∧ names (wd m) ⊆ names w') as H.
  { intros t Hr w'. destruct (resumable_free t Hu Hr) as (_ & Hno & Hkp & HY). destruct Hr as (_ & th & Ht & Hs & Hw).
    pose proof (w_places _ _ _ _ _ _ W) as P. assert (¬ Own xs L t) as Hno' by (intros (y & Hy & Ho); by apply (Hno y)).
    destruct (v_free _ _ _ _ _ _ P t th Ht Hno') as (Hroot & [?|(Hc & _)]); [congruence|].
    set (th' := set_t_waits ForResumer th). assert (threads w' !! t = Some th') as Ht' by (cbn; by rewrite lookup_alter_eq, Ht).
    assert (names w' = names (wd m)) as En.
    { apply (every_names ttype (λ _ _, True)). intros u. cbn. destruct (decide (u = t)) as [->|]; [rewrite lookup_alter_eq, Ht; by constructor|].
      rewrite lookup_alter_ne by done. by destruct (threads (wd m) !! u); constructor. }
    apply (winv_at migration ttype roots xs Hnd (wd m) w' L x t); rewrite ?Ht, ?Ht'; try done.
    - split; [done|]. intros u Hut. cbn. by rewrite !lookup_insert_ne.
    - intros Hst. apply (Hno x Hx). by left.
    - auto.
    - intros u Hut. cbn. by rewrite lookup_alter_ne.
    - by apply P.
    - split; cbn -[names]; rewrite ?lookup_insert_eq; try done.
      + intros h [= <-]. split_and!; try done; [|exists th'; fold w'; rewrite En; by split_and!].
        intros p Hp. destruct (v_pooled _ _ _ _ _ _ P p t Hp) as (_ & th0 & ? & ? & _). congruence.
      + intros p Hp. congruence.
    - intros u (_ & th0 & ? & _ & ?). congruence.
    - intros u. apply (not_asleep_owned xs _ _ x); [done|]. rewrite fn_lookup_insert. right. cbn. rewrite lookup_insert_eq. eauto. }
  unfold legal in Hl. destruct c; try (split; [by apply (winv_refl migration ttype roots xs)|done]); apply H; tauto.
Qed.

Lemma step_calls c :
  in_user (code m x) → legal ttype (wd m) x c →
  ∃ g', minv_with (Mach (claim c (wd m)) (<[x := start migration x (current (wd m) x) c (λ _, code m x)]> (code m))) (<[x := g']> L).
Proof.
  intros Hu Hl. destruct (winv_claim c Hu Hl) as [W' Hn]. eexists. eapply minv_at; [exact Hsafe|exact Hn|exact W'|].
  pose proof (w_places _ _ _ _ _ _ W) as P. rewrite (v_cur _ _ _ _ _ _ P x Hx).
  eapply safe_mono; [exact Hn|]. apply start_safe.
  - split; [by apply Hsafe|done].
  - by apply legal_here.
  - intros self _ _ Hs. destruct (v_stack _ _ _ _ _ _ P x 0 self Hx) as (th & _ & (_ & _ & _ & _ & _ & Hr)); [by rewrite Hs|].
    apply Hr. by rewrite Hs.
Qed.

Lemma step_task k : code m x = Task k → ∃ g', minv_with (Mach (wd m) (<[x := k]> (code m))) (<[x := g']> L).
Proof.
  intros E. pose proof (Hsafe x Hx) as Hs. rewrite E in Hs. destruct Hs as (Hi & _ & Hk).
  exists (L x). eapply minv_at; [exact Hsafe|done|by apply (winv_refl migration ttype roots xs)|].
  specialize (Hk (kpool (L x)) (kmig (L x)) (debt (L x)) (proj1 (proj2 Hi))). by destruct (L x).
Qed.

End step.

(** A step of [x] changes only what [x] has. *)
Lemma minv_step_with m L x m' :
  x ∈ xs → minv_with m L → step migration ttype m x m' → ∃ g', minv_with m' (<[x := g']> L).
Proof.
  intros Hx (W & Hsafe) St. destruct St as [m x n p w E|m x c Hu Hl|m x k E].
  - pose proof (step_advances m L W Hsafe x Hx n) as H. rewrite E in H. destruct H as (g' & H & _). eauto.
  - by eapply step_calls.
  - by eapply step_task.
Qed.

Lemma minv_step m x m' : x ∈ xs → minv m → step migration ttype m x m' → minv m'.
Proof. intros Hx [L HL] St. destruct (minv_step_with m L x m' Hx HL St) as [g' H]. by eexists. Qed.

Lemma minv_steps m m' : minv m → steps migration ttype xs m m' → minv m'.
Proof. intros Hm St. induction St as [|m x m1 m2 St IH Hx Hstep]; [done|]. exact (minv_step m1 x m2 Hx (IH Hm) Hstep). Qed.

End run.
