(* ===== verification/UltCorrect.v ===== *)
(** * Correctness of user-level threads

    From the start of the streams ([launch]: each runs its root thread, external threads run
    nothing), for every interleaving of every number of streams: nothing fails, every thread
    has its place, joins lose no wake-up, the counters of blocked threads are exact.  Then
    runs of the model, by computation: the witnesses, and two that show where counters and
    states go wrong. *)

From stdpp Require Import functions base tactics decidable option list numbers gmap fin_maps sets.
From Stdlib Require Import ZArith Lia.
From S2P Require Import Prelude Abt Thread Ult UltLogic UltSafe UltInv UltExec UltJoin UltRun.
Open Scope Z_scope.

(** ** The start *)

(** The root thread of stream [x] as [xstream_launch_root_ythread] leaves it before it runs;
    it has no pool. *)
Definition root_thread (x : xid) : uthread := set_t_ctx None (set_t_last (Some x) (new_thread 0)).

(** [rt x]: the root thread of stream [x], none for an external thread. *)
Definition launch (rt : xid → option tid) (xs : list xid) : mach :=
  Mach (World (list_to_map (omap (λ x, (λ t, (t, root_thread x)) <$> rt x) xs))
          (λ _, UPool [] 0) rt (λ _, 0) (λ _, false) ∅)
       (λ _, User).

Record launchable (ttype : tid → Z) (rt : xid → option tid) (xs : list xid) : Prop := {
  l_nodup : NoDup xs;
  l_inj : ∀ x y t, x ∈ xs → y ∈ xs → rt x = Some t → rt y = Some t → x = y;
  l_yield : ∀ x t, x ∈ xs → rt x = Some t → yieldable (ttype t) = true
}.

Section launch.
Context (migration : bool) (ttype : tid → Z) (rt : xid → option tid) (xs : list xid).
Hypothesis Hl : launchable ttype rt xs.

Definition roots : gset tid := list_to_set (omap rt xs).
Definition started (x : xid) : lg := base (option_list (rt x)) ∅ ∅ (λ _, 0).

Lemma launch_thread t th :
  threads (wd (launch rt xs)) !! t = Some th ↔ ∃ x, x ∈ xs ∧ rt x = Some t ∧ th = root_thread x.
Proof.
  cbn. assert (∀ t th, (t, th) ∈ omap (λ x, (λ t, (t, root_thread x)) <$> rt x) xs ↔ ∃ x, x ∈ xs ∧ rt x = Some t ∧ th = root_thread x) as Hin.
  { intros u thu. rewrite list_elem_of_omap. split.
    - intros (x & Hx & (v & E & ?)%fmap_Some). naive_solver.
    - intros (x & Hx & E & ->). exists x. split; [done|]. by rewrite E. }
  split.
  - intros H. by apply elem_of_list_to_map_2, Hin in H.
  - intros (x & Hx & E & ->). apply elem_of_list_to_map_1'; [|apply Hin; eauto]. intros th' (y & Hy & Ey & ->)%Hin.
    by rewrite (l_inj _ _ _ Hl x y t).
Qed.

Lemma roots_spec t : t ∈ roots ↔ ∃ x, x ∈ xs ∧ rt x = Some t.
Proof. unfold roots. rewrite elem_of_list_to_set, list_elem_of_omap. done. Qed.

Lemma started_owned x t : owned (started x) t ↔ rt x = Some t.
Proof. unfold owned. cbn. rewrite lookup_empty. destruct (rt x); cbn; rewrite ?list_elem_of_singleton; unfold is_Some; set_solver. Qed.

Lemma launch_places : pinv migration ttype roots xs (wd (launch rt xs)) started.
Proof.
  split; cbn -[started]; try done.
  - intros x Hx. cbn. by destruct (rt x).
  - intros x y t Hx Hy. rewrite !started_owned. by eapply l_inj.
  - intros x Hx. cbn. split; [|by intros; rewrite lookup_empty]. destruct (rt x); cbn; [apply NoDup_singleton|constructor].
  - intros x i t Hx Hi. cbn in Hi. destruct (rt x) as [r|] eqn:E; [|done]. destruct i as [|i]; [|done]. injection Hi as <-.
    exists (root_thread x). split; [apply launch_thread; eauto|]. unfold stack_ok, started. cbn [stk base]. rewrite E. cbn [option_list].
    refine (conj _ (conj _ (conj _ (conj _ (conj _ _))))); try done; [by left|by eapply l_yield|]. rewrite roots_spec. split; eauto.
  - intros p. constructor.
  - intros p t Hp. set_solver.
  - intros t th (x & Hx & E & ->)%launch_thread Hno. destruct Hno. exists x. split; [done|]. by apply started_owned.
  - intros t (x & Hx & E)%roots_spec. exists x. split; [done|]. unfold started. cbn [stk base]. rewrite E. by left.
Qed.

Lemma launch_joins : jinv ttype xs (wd (launch rt xs)) started.
Proof.
  split; try done.
  - intros t th (x & Hx & E & ->)%launch_thread. done.
  - intros t th (x & Hx & E & ->)%launch_thread. done.
  - intros j t (_ & th & (x & Hx & E & ->)%launch_thread & ? & _). done.
Qed.

Lemma launch_minv : minv migration ttype roots xs (launch rt xs).
Proof.
  exists started. split; [|intros x Hx; by split_and!]. split.
  - apply launch_places.
  - split; [done|]. intros t th (x & Hx & E & ->)%launch_thread. done.
  - apply launch_joins.
  - intros _ p. unfold nblocked. cbn -[launch]. replace (filter _ _) with (∅ : gmap tid uthread).
    + unfold debts. clear Hl. induction xs as [|z l IH]; [done|]. cbn. done.
    + symmetry. apply map_empty. intros t. apply map_lookup_filter_None. right.
      intros th Ht [Hb _]. apply launch_thread in Ht as (x & Hx & E & ->). done.
Qed.

Lemma reached_minv m : steps migration ttype xs (launch rt xs) m → minv migration ttype roots xs m.
Proof. intros St. eapply minv_steps; [apply Hl|apply launch_minv|done]. Qed.

End launch.

(** ** What holds in every reachable state *)

Section reached.
Context (migration : bool) (ttype : tid → Z) (rs : gset tid) (xs : list xid) (m : mach) (L : xid → lg).
Hypothesis W : winv migration ttype rs xs (wd m) L.
Hypothesis Hsafe : ∀ x, x ∈ xs → safe migration ttype rs (names ttype (wd m)) x (L x) (code m x).

Let P := w_places _ _ _ _ _ _ W.
Let J := w_joins _ _ _ _ _ _ W.

Lemma user_from x : x ∈ xs → in_user (code m x) → from_user migration ttype rs (names ttype (wd m)) x (L x) (code m x).
Proof. intros Hx Hu. split; [by apply Hsafe|done]. Qed.

(** A stream in user code runs its current thread, and no other stream has it. *)
Lemma user_current x t :
  x ∈ xs → in_user (code m x) → current (wd m) x = Some t →
  owned (L x) t ∧ ∃ th, threads (wd m) !! t = Some th ∧ live th.
Proof.
  intros Hx Hu Hc. rewrite (v_cur _ _ _ _ _ _ P x Hx) in Hc. pose proof (user_from x Hx Hu) as Hf.
  pose proof (user_cur_owned _ _ _ _ _ _ _ _ Hf Hc) as Ho. split; [done|]. destruct Ho as [Hs|[h Hh]].
  - apply list_elem_of_lookup in Hs as [i Hi]. destruct (v_stack _ _ _ _ _ _ P x i t Hx Hi) as (th & ? & ? & _). eauto.
  - pose proof (user_only_running _ _ _ _ _ _ _ Hf t h Hh) as Hk.
    destruct (v_held _ _ _ _ _ _ P x t h Hx Hh) as (_ & th & ? & Hok & _). rewrite Hk in Hok. eauto.
Qed.

(** Streams in user code, or external threads that wait for a futex. *)
Definition resting (p : prog) : Prop := in_user p ∨ ∃ e k, p = Next (FutexWait e) k.

Lemma resting_done x : x ∈ xs → resting (code m x) → owes (L x) = None ∧ wakes (L x) = None ∧ only_running (L x).
Proof.
  intros Hx [Hu|(e & k & E)].
  - pose proof (user_from x Hx Hu) as Hf. destruct (user_idle _ _ _ _ _ _ _ Hf) as (_ & _ & ? & _ & ?).
    split_and!; try done. by eapply user_only_running.
  - pose proof (Hsafe x Hx) as Hs. rewrite E in Hs. by destruct Hs as (_ & ? & ? & ? & _).
Qed.

Lemma resting_closed t : (∀ x, x ∈ xs → in_user (code m x)) → ¬ Clo xs L t.
Proof.
  intros Hr (x & Hx & Hc). pose proof (user_from x Hx (Hr x Hx)) as Hf. destruct (user_idle _ _ _ _ _ _ _ Hf) as (E & _).
  by rewrite E in Hc.
Qed.

Lemma resting_sleeps j t th :
  (∀ x, x ∈ xs → resting (code m x)) → threads (wd m) !! j = Some th →
  t_state th = ABT_THREAD_STATE_BLOCKED → t_waits th = ForEnd t →
  ∃ tht, threads (wd m) !! t = Some tht ∧ t_state tht ≠ ABT_THREAD_STATE_TERMINATED ∧ t_link tht = Some (JUlt j).
Proof.
  intros Hr Hj Hs Hw. assert (asleep xs (wd m) L (JUlt j) t) as Ha.
  { split; [|eauto]. intros (x & Hx & [Hst|[h Hh]]).
    - apply list_elem_of_lookup in Hst as [i Hi]. destruct (v_stack _ _ _ _ _ _ P x i j Hx Hi) as (th' & ? & [?|?] & _); congruence.
    - destruct (resting_done x Hx (Hr x Hx)) as (_ & _ & Hor). destruct (v_held _ _ _ _ _ _ P x j h Hx Hh) as (_ & th' & ? & Hok & _).
      rewrite (Hor j h Hh) in Hok. destruct Hok; congruence. }
  destruct (v_sleep _ _ _ _ J j t Ha) as (_ & tht & ? & [? _] & [?|(x & Hx & Ho)]); [eauto|].
  destruct (resting_done x Hx (Hr x Hx)) as (E & _). congruence.
Qed.

Lemma resting_futex e k :
  (∀ x, x ∈ xs → resting (code m x)) → e ∈ xs → code m e = Next (FutexWait e) k → futex (wd m) e = 0 →
  ∃ t tht, threads (wd m) !! t = Some tht ∧ t_state tht ≠ ABT_THREAD_STATE_TERMINATED ∧ t_link tht = Some (JExt e).
Proof.
  intros Hr He Hc H0. pose proof (Hsafe e He) as Hs. rewrite Hc in Hs. destruct Hs as (_ & _ & _ & _ & (t & Hf) & _).
  pose proof (v_futs _ _ _ _ J e He) as Hv. rewrite Hf in Hv. destruct Hv as (_ & [?|[(x & Hx & Hw)|(_ & tht & ? & [? _] & ?)]]); [done| |eauto].
  destruct (resting_done x Hx (Hr x Hx)) as (_ & E & _). congruence.
Qed.

(** A stream that waits for a link waits for another that is about to store it. *)
Lemma await_owed x t k :
  x ∈ xs → code m x = Next (AwaitLink t) k →
  (∃ th, threads (wd m) !! t = Some th ∧ t_link th ≠ None) ∨ ∃ y a, y ∈ xs ∧ y ≠ x ∧ owes (L y) = Some (t, a).
Proof.
  intros Hx Hc. pose proof (Hsafe x Hx) as Hs. rewrite Hc in Hs. destruct Hs as (Ha & HY & Hj & Ho & _ & _).
  destruct (owned_thread _ _ _ _ _ _ _ _ P Hx (alive_owned _ _ Ha)) as (th & Ht).
  pose proof (v_seen _ _ _ _ J x t _ th Hx Hj Ht) as Hjo. destruct (t_link th) as [a|] eqn:El; [left; exists th; by rewrite El|right].
  pose proof (v_open _ _ _ _ J t th Ht HY) as Hv. rewrite El in Hv. destruct Hv as (a & y & Hy & Hoy); [|done|].
  - eapply (alive_open migration ttype rs xs); try done. by rewrite Hj.
  - exists y, a. split_and!; try done. intros ->. congruence.
Qed.

(** A stream that owes a link does not wait. *)
Lemma owes_steps y t a n f :
  NoDup xs → y ∈ xs → owes (L y) = Some (t, a) → advance migration ttype y n (code m y) (wd m) = Fault f →
  ∃ c k, code m y = Next c k ∧ stack_fault ttype y c f.
Proof.
  intros Hnd Hy Ho Ef. pose proof (step_advances migration ttype rs xs Hnd m L W Hsafe y Hy n) as H. rewrite Ef in H.
  destruct f; try exact H. exfalso. destruct H as [Hu|(c & k & E & Hc)].
  - destruct (user_idle _ _ _ _ _ _ _ (user_from y Hy Hu)) as (_ & _ & ? & _). congruence.
  - pose proof (Hsafe y Hy) as Hs. rewrite E in Hs. destruct c; try done.
    + destruct Hs as (_ & _ & _ & ? & _). congruence.
    + destruct Hs as (_ & ? & _). congruence.
Qed.

Lemma user_debts p : migration = false → (∀ x, x ∈ xs → in_user (code m x)) → debts xs L p = 0.
Proof.
  intros Hm Hu. assert (∀ x, x ∈ xs → debt (L x) p = 0) as H.
  { intros x Hx. destruct (user_idle _ _ _ _ _ _ _ (user_from x Hx (Hu x Hx))) as (_ & Hd & _). by apply Hd. }
  unfold debts. clear - H. induction xs as [|z l IH]; [done|]. cbn. rewrite H by constructor. apply IH. intros x Hx. apply H. by constructor.
Qed.

(** The threads of a stream: its current thread, and who runs it. *)
Inductive on_stream (w : world) (x : xid) : tid → Prop :=
  | on_current t : current w x = Some t → on_stream w x t
  | on_parent t th q : on_stream w x t → threads w !! t = Some th → t_parent th = Some q → on_stream w x q.

Lemma user_stack x i t : x ∈ xs → code m x = User → stk (L x) !! i = Some t → on_stream (wd m) x t.
Proof.
  intros Hx Hu. pose proof (Hsafe x Hx) as Hs. rewrite Hu in Hs. destruct Hs as (_ & _ & Hc). revert t.
  induction i as [|i IH]; intros t Hi.
  - apply on_current. rewrite (v_cur _ _ _ _ _ _ P x Hx), Hc. by destruct (stk (L x)).
  - destruct (lookup_lt_is_Some_2 (stk (L x)) i) as [u Hu']; [apply lookup_lt_Some in Hi; lia|].
    destruct (v_stack _ _ _ _ _ _ P x i u Hx Hu') as (th & ? & (_ & Hp & _)). eapply on_parent; [by apply IH|done|congruence].
Qed.

Lemma user_place t th :
  (∀ x, x ∈ xs → code m x = User) → threads (wd m) !! t = Some th →
  t_state th = ABT_THREAD_STATE_TERMINATED ∨ t_state th = ABT_THREAD_STATE_BLOCKED ∧ t_ctx th ≠ None ∨
  t_state th = ABT_THREAD_STATE_READY ∧ t ∈ units (pools (wd m) (t_pool th)) ∨ ∃ x, x ∈ xs ∧ on_stream (wd m) x t.
Proof.
  intros Hu Ht. assert ((∃ x i, x ∈ xs ∧ stk (L x) !! i = Some t) ∨ ¬ Own xs L t) as [(x & i & Hx & Hi)|Hno].
  { destruct (decide (Exists (λ x, t ∈ stk (L x)) xs)) as [(x & Hx & Hs)%list.Exists_exists|Hn]; [|rewrite list.Exists_exists in Hn].
    - left. apply list_elem_of_lookup in Hs as [i Hi]. eauto.
    - right. intros (x & Hx & [Hs|[h Hh]]); [by apply Hn; exists x|]. pose proof (Hsafe x Hx) as H. rewrite (Hu x Hx) in H.
      destruct H as (_ & E & _). by rewrite E in Hh. }
  - right; right; right. exists x. split; [done|]. eapply user_stack; eauto.
  - destruct (v_free _ _ _ _ _ _ P t th Ht Hno) as (_ & [?|(Hc & [[? HY]|[? ?]])]); [by left| |auto].
    right; left. split; [done|]. destruct (Hc HY) as (k & -> & _). done.
Qed.

End reached.

(** ** Paying a link *)

Section pay.
Context (migration : bool) (ttype : tid → Z) (rs : gset tid) (xs : list xid).
Hypothesis Hnd : NoDup xs.

(** Steps of the other streams. *)
Inductive others (y : xid) (m : mach) : mach → Prop :=
  | others_refl : others y m m
  | others_step x m' m'' : others y m m' → x ∈ xs → x ≠ y → step migration ttype m' x m'' → others y m m''.

(** Stream [y] stores the link of [t] after finitely many of its own steps, whatever the others do in
    between; until then it does not have to wait for anybody. *)
Inductive will_link (y : xid) (t : tid) : mach → Prop :=
  | link_stored m : linked (wd m) t → will_link y t m
  | link_later m :
      (∀ m' n f, others y m m' → advance migration ttype y n (code m' y) (wd m') = Fault f →
         ∃ c k, code m' y = Next c k ∧ stack_fault ttype y c f) →
      (∀ m' m'', others y m m' → step migration ttype m' y m'' → will_link y t m'') →
      will_link y t m.

(** The program stores the link of [t] within [n] accesses, or cannot go on. *)
Fixpoint pays (n : nat) (t : tid) (p : prog) : Prop :=
  match n with
  | O => False
  | S n =>
      match p with
      | Next c k => (∃ j : joiner, c = StoreLink t j) ∨ ∀ r, pays n t (k r)
      | Crash => True
      | _ => False
      end
  end.

Lemma callback_pays prev t k : pays 8 t (ABTI_ythread_callback_suspend_join migration prev t k).
Proof.
  unfold ABTI_ythread_callback_suspend_join, block_prev, ABTI_thread_handle_request, ABTI_thread_handle_request_migrate,
    ABTI_thread_set_associated_pool, ABTI_thread_unset_request, ABTI_pool_inc_num_blocked, mbind, M_bind, mret, M_ret, do, deref.
  do 3 (right; intros ?). cbn [andb]. destruct (migration && has r1 ABTI_THREAD_REQ_MIGRATE); [|right; intros ?; left; eauto].
  right. intros [p|]; [|done]. do 3 (right; intros ?). left. eauto.
Qed.

Definition owing y t m : Prop := ∃ L a, minv_with migration ttype rs xs m L ∧ owes (L y) = Some (t, a).

Lemma others_owing y t m m' : others y m m' → owing y t m → owing y t m' ∧ code m' y = code m y.
Proof.
  induction 1 as [|x m' m'' Ho IH Hx Hne Hs]; [done|]. intros H. destruct (IH H) as ((L & a & HL & Ha) & Hc).
  destruct (minv_step_with migration ttype rs xs Hnd m' L x m'' Hx HL Hs) as [g' HL'].
  split; [|rewrite <- Hc; destruct Hs; cbn; by rewrite fn_lookup_insert_ne].
  exists (<[x := g']> L), a. by rewrite fn_lookup_insert_ne.
Qed.

(** [p'] is left of [p] after its first access. *)
Definition left_of (p p' : prog) : Prop := match p with Next c k => ∃ r, p' = k r | _ => False end.
Definition stores (t : tid) (p : prog) : Prop := match p with Next (StoreLink u _) _ => u = t | _ => False end.

(** A step of a stream that owes a link: it is an access or a switch, and the debt stays or is paid. *)
Lemma owing_step y t m m' :
  y ∈ xs → owing y t m → step migration ttype m y m' →
  (linked (wd m') t ∨ owing y t m') ∧
  (left_of (code m y) (code m' y) ∧ (stores t (code m y) → linked (wd m') t) ∨
   (∃ old new prev k k', code m y = Switch old new (Some (cb_suspend_join prev t)) k ∧
      code m' y = run_callback migration (cb_suspend_join prev t) (λ _, k'))).
Proof.
  intros Hy (L & a & [W Hs] & Ho) St. pose proof (Hs y Hy) as Hsy.
  assert (∀ p, code m y = p → idle migration (L y) → False) as Hidle by (intros ? _ (_ & _ & ? & _); congruence).
  destruct St as [m y n p w E|m y c Hu Hl|m y k E].
  2:{ exfalso. destruct Hu as [E|[k E]]; rewrite E in Hsy; by eapply Hidle, Hsy. }
  2:{ exfalso. rewrite E in Hsy. by eapply Hidle, Hsy. }
  pose proof (step_advances migration ttype rs xs Hnd m L W Hs y Hy n) as H. rewrite E in H. destruct H as (g' & HL & Hd). cbn [code wd].
  split; [destruct (Hd t a Ho) as [[a' ?]|?]; [right; exists (<[y := g']> L), a'; by rewrite fn_lookup_insert|by left]|].
  rewrite fn_lookup_insert. destruct (code m y) as [|k|c k|old new cb k|new cb|y' self u k|u k|] eqn:Ec; try done.
  - left. cbv beta iota delta [advance mbind C_bind mret C_ret] in E. destruct (exec ttype y n c (wd m)) as [[r w1]|] eqn:Ee; [|done].
    injection E as <- <-. split; [by exists r|]. destruct c as [| | | | | | | | | | | | | | |u j| | | | | | | | | | | | | | | | | |]; try done. cbn [stores]. intros Hu. rewrite <- Hu.
    cbv beta iota delta [exec update thread modify mbind C_bind] in Ee.
    destruct (threads (wd m) !! u) as [th|] eqn:Et; [|done]. injection Ee as <- <-. eexists. cbn. rewrite lookup_insert_eq. done.
  - right. destruct Hsy as (_ & (g1 & Hsw & Hcb) & _). destruct (switched_same ttype L y old new true g1 Hsw) as (_ & _ & _ & _ & _ & Eo & _).
    destruct cb as [[]|]; cbn in Hcb; try (exfalso; unfold idle, leaves, ends in Hcb; destruct_and!; congruence).
    destruct Hcb as (_ & Et & _). assert (p_target = t) as -> by congruence.
    cbv beta iota delta [advance mbind C_bind mret C_ret] in E. destruct (update old _ (wd m)) as [[? w1]|]; [|done].
    destruct (enter new w1) as [[k' w2]|]; [|done]. injection E as <- <-. eauto 10.
  - exfalso. destruct Hsy as (_ & old & g1 & Hsw & Hcb). destruct (switched_same ttype L y old new false g1 Hsw) as (_ & _ & _ & _ & _ & Eo & _).
    assert (owes g1 = None ∨ ∃ prev u, cb = cb_suspend_join prev u) as [?|(prev & u & ->)]; [|congruence|].
    { destruct cb; cbn in Hcb; unfold leaves, ends in Hcb; destruct_and?; eauto. }
    cbn in Hcb. unfold leaves in Hcb. destruct Hcb as ((Hh & _) & _).
    apply (f_equal (lookup old)) in Hh. destruct Hsw; cbn in Hh; [..|done]; rewrite lookup_insert_eq in Hh;
      by symmetry in Hh; apply lookup_singleton_Some in Hh as [_ Hh].
  - exfalso. destruct Hsy as (_ & Hi & _). by eapply Hidle.
  - exfalso. destruct Hsy as (_ & ? & _). congruence.
Qed.

(** The premises of [link_later], in a state where [y] owes the link. *)
Lemma owing_links y t m :
  y ∈ xs → owing y t m → (∀ m' m'', code m' y = code m y → owing y t m' → step migration ttype m' y m'' → will_link y t m'') →
  will_link y t m.
Proof.
  intros Hy Ho Hk. apply link_later.
  - intros m' n f Hs Hf. destruct (others_owing y t m m' Hs Ho) as ((L & a & [W HL] & Ha) & _). by eapply owes_steps.
  - intros m' m'' Hs St. destruct (others_owing y t m m' Hs Ho) as [Ho' Hc]. by eapply Hk.
Qed.

Lemma pays_links n y t m : y ∈ xs → owing y t m → pays n t (code m y) → will_link y t m.
Proof.
  intros Hy. revert m. induction n as [|n IH]; intros m Ho Hp; [done|]. apply owing_links; [done..|].
  intros m' m'' Hc Ho' St. destruct (owing_step y t m' m'' Hy Ho' St) as ([?|Ho''] & H); [by apply link_stored|].
  rewrite <- Hc in Hp. destruct H as [[Er Hl]|(old & new & prev & k & k' & E & _)]; [|by rewrite E in Hp].
  destruct (code m' y) as [| |c k| | | | |]; try done. destruct Er as [r Er].
  destruct Hp as [[j ->]|Hp]; [by apply link_stored, Hl|]. apply IH; [done|]. by rewrite Er.
Qed.

Lemma owing_will_link y t m : y ∈ xs → owing y t m → will_link y t m.
Proof.
  intros Hy. remember (code m y) as p eqn:Ep. revert m Ep.
  induction p as [| |c k IH|old new cb k _| | | |]; intros m Ep Ho; (apply owing_links; [done..|]); intros m' m'' Hc Ho' St;
    destruct (owing_step y t m' m'' Hy Ho' St) as ([?|Ho''] & H); try (by apply link_stored);
    destruct H as [[Er _]|(old' & new' & prev & k0 & k' & E & Er)]; rewrite Hc, <- Ep in *; try done.
  - destruct Er as [r Er]. by apply (IH r).
  - apply (pays_links 8); [done..|]. rewrite Er. apply callback_pays.
Qed.

End pay.

(** ** Executable runs *)

(** [Call x c]: the user code of [x] calls [c]; [Go x n k]: [x] takes [k] steps, with choice
    [n] of the environment; [Run x n]: it goes on until it must wait. *)
Inductive act := Call (x : xid) (c : call) | Go (x : xid) (n k : nat) | Run (x : xid) (n : nat) | EndTask (x : xid).

Section play.
Context (migration : bool) (ttype : tid → Z).

Definition can_leaveb (w : world) (cur : option tid) : bool :=
  match cur with
  | Some self =>
      negb (yieldable (ttype self)) ||
      match threads w !! self with Some th => bool_decide (is_Some (t_parent th)) | None => true end
  | None => true
  end.
Definition handleb (w : world) (t : tid) : bool := bool_decide (is_Some (threads w !! t)) && named ttype t.
Definition resumableb (w : world) (t : tid) : bool :=
  handleb w t &&
  match threads w !! t with
  | Some th => bool_decide (t_state th = ABT_THREAD_STATE_BLOCKED ∧ t_waits th = ForResume)
  | None => false
  end.
Definition switchesb (cur : option tid) (bits : Z) (t : tid) : bool :=
  negb (has (ttype t) ABTI_THREAD_TYPE_MAIN_SCHED) &&
  match cur with Some self => yieldable (ttype self) && negb (has (ttype self) bits) | None => false end.

Definition legalb (w : world) (x : xid) (c : call) : bool :=
  let cur := current w x in
  match c with
  | CCreate _ _ | CSchedule _ _ => true
  | CCreateTo type _ => can_leaveb w cur && yieldable type
  | CYield | CSuspend | CSuspendUnlock _ | CYieldTo _ | CSuspendTo _ | CExitTo _ | CExit => can_leaveb w cur
  | CResume t => resumableb w t
  | CResumeYieldTo t | CResumeSuspendTo t =>
      can_leaveb w cur && resumableb w t && switchesb cur ABTI_THREAD_TYPE_MAIN_SCHED t
  | CResumeExitTo t =>
      can_leaveb w cur && resumableb w t &&
      switchesb cur (Z.lor ABTI_THREAD_TYPE_PRIMARY ABTI_THREAD_TYPE_MAIN_SCHED) t
  | CJoin t => can_leaveb w cur && handleb w t
  | CCancel t | CMigrate t _ _ => handleb w t
  end.

Lemma can_leaveb_ok w cur : can_leaveb w cur = true → can_leave ttype w cur.
Proof.
  intros H self th -> HY Ht. cbn in H. rewrite HY, Ht in H. cbn in H. apply bool_decide_eq_true in H as [q ->]. done.
Qed.
Lemma handleb_ok w t : handleb w t = true → handle_ok ttype w t.
Proof. intros [H ?]%andb_true_iff. split; [by apply bool_decide_eq_true in H|done]. Qed.
Lemma resumableb_ok w t : resumableb w t = true → resumable ttype w t.
Proof.
  intros [H H']%andb_true_iff. split; [by apply handleb_ok|]. destruct (threads w !! t) as [th|]; [|done].
  apply bool_decide_eq_true in H' as []. eauto.
Qed.
Lemma switchesb_ok cur bits t : switchesb cur bits t = true → switches_from ttype cur bits t.
Proof.
  intros [H H']%andb_true_iff. split; [by apply negb_true_iff|]. destruct cur as [self|]; [|done].
  apply andb_true_iff in H' as [? ?%negb_true_iff]. eauto.
Qed.

Lemma legalb_ok w x c : legalb w x c = true → legal ttype w x c.
Proof.
  pose proof (can_leaveb_ok w (current w x)). pose proof (handleb_ok w). pose proof (resumableb_ok w).
  pose proof (switchesb_ok (current w x)).
  destruct c; cbn -[has yieldable]; rewrite ?andb_true_iff; naive_solver.
Qed.

(** Up to [k] steps of [x], fewer if it must wait. *)
Fixpoint drive (k : nat) (x : xid) (n : nat) (m : mach) : nat * mach :=
  match k with
  | O => (O, m)
  | S k' =>
      match advance migration ttype x n (code m x) (wd m) with
      | Done (p, w) => drive k' x n (Mach w (<[x := p]> (code m)))
      | Fault _ => (k, m)
      end
  end.

Definition in_userb (p : prog) : bool := match p with User | Task _ => true | _ => false end.

Definition act_of (a : act) (m : mach) : option mach :=
  match a with
  | Call x c =>
      if in_userb (code m x) && legalb (wd m) x c
      then Some (Mach (claim c (wd m)) (<[x := start migration x (current (wd m) x) c (λ _, code m x)]> (code m)))
      else None
  | Go x n k => let '(r, m') := drive k x n m in if decide (r = O) then Some m' else None
  | Run x n => Some (drive 200 x n m).2
  | EndTask x => match code m x with Task k => Some (Mach (wd m) (<[x := k]> (code m))) | _ => None end
  end.

Definition who (a : act) : xid := match a with Call x _ | Go x _ _ | Run x _ | EndTask x => x end.

Fixpoint play (l : list act) (m : mach) : option mach :=
  match l with
  | [] => Some m
  | a :: l => match act_of a m with Some m' => play l m' | None => None end
  end.

Lemma drive_steps xs k x n m0 m :
  x ∈ xs → steps migration ttype xs m0 m → steps migration ttype xs m0 (drive k x n m).2.
Proof.
  intros Hx. revert m. induction k as [|k IH]; intros m Hm; [done|]. cbn.
  destruct (advance migration ttype x n (code m x) (wd m)) as [[p w]|f] eqn:E; [|done].
  apply IH. eapply steps_step; [done..|]. by eapply step_advance.
Qed.

Lemma act_steps xs a m0 m m' :
  who a ∈ xs → steps migration ttype xs m0 m → act_of a m = Some m' → steps migration ttype xs m0 m'.
Proof.
  intros Hx Hm Ha. destruct a as [x c|x n k|x n|x]; cbn in *.
  - destruct (in_userb (code m x) && legalb (wd m) x c) eqn:E; [|done]. injection Ha as <-. apply andb_true_iff in E as [Eu El].
    eapply steps_step; [done..|]. apply step_call; [|by apply legalb_ok]. destruct (code m x); try done; eauto.
  - pose proof (drive_steps xs k x n m0 m Hx Hm) as H. destruct (drive k x n m) as [r m1]. case_decide; [|done]. by injection Ha as <-.
  - injection Ha as <-. by apply (drive_steps xs 200).
  - destruct (code m x) eqn:E; try done. injection Ha as <-. eapply steps_step; [done..|]. by apply step_task_ends.
Qed.

Lemma play_steps xs l m0 m m' :
  Forall (λ a, who a ∈ xs) l → steps migration ttype xs m0 m → play l m = Some m' → steps migration ttype xs m0 m'.
Proof.
  intros Hl. revert m. induction Hl as [|a l Ha Hl IH]; intros m Hm; cbn; [by intros [= <-]|].
  destruct (act_of a m) as [m1|] eqn:E; [|done]. apply IH. by eapply act_steps.
Qed.

End play.

(** ** Theorems *)

(** C4: a step of any stream in any reachable state does not fail: no access to a descriptor
    that was freed, no context entered that is not saved (or entered twice), no [NULL] parent, no
    descriptor freed into the memory pool of another stream, and no assertion of these functions fails.
    A stream that cannot go on is in user code, waits for a link or waits for a futex.  The exceptions
    are those of lazily allocated stacks ([stack_fault]: the types that only the option
    --enable-lazy-stack-alloc makes): there is no memory for a stack, or a cancelled thread last ran on another stream. *)
Theorem ult_no_fault migration ttype rt xs m x n :
  launchable ttype rt xs → steps migration ttype xs (launch rt xs) m → x ∈ xs →
  match advance migration ttype x n (code m x) (wd m) with
  | Done _ => True
  | Fault Blocked => in_user (code m x) ∨ ∃ c k, code m x = Next c k ∧ waiting c
  | Fault f => ∃ c k, code m x = Next c k ∧ stack_fault ttype x c f
  end.
Proof.
  intros Hl St Hx. destruct (reached_minv migration ttype rt xs Hl m St) as (L & W & Hs).
  pose proof (step_advances _ _ _ _ (l_nodup _ _ _ Hl) m L W Hs x Hx n) as H.
  destruct (advance _ _ _ _ _ _) as [[p w']|[]]; done.
Qed.

(** C6: in every reachable state a pool holds each of its units once, units are ready and
    belong to the pool, and their contexts are saved; what a stream runs is in no pool and run by
    no other stream; and when all streams run user-level threads or their root threads, every thread
    has ended, is blocked with its context saved, is ready in its pool, or is on the
    stack of a stream. *)
Theorem ult_places migration ttype rt xs m :
  launchable ttype rt xs → steps migration ttype xs (launch rt xs) m →
  (∀ p, NoDup (units (pools (wd m) p))) ∧
  (∀ p t, t ∈ units (pools (wd m) p) → ∃ th, threads (wd m) !! t = Some th ∧
     t_state th = ABT_THREAD_STATE_READY ∧ t_pool th = p ∧ (yieldable (ttype t) = true → t_ctx th ≠ None)) ∧
  (∀ x t, x ∈ xs → in_user (code m x) → current (wd m) x = Some t →
     (∃ th, threads (wd m) !! t = Some th ∧ live th) ∧ (∀ p, t ∉ units (pools (wd m) p)) ∧
     ∀ y, y ∈ xs → in_user (code m y) → current (wd m) y = Some t → y = x) ∧
  ((∀ x, x ∈ xs → code m x = User) → ∀ t th, threads (wd m) !! t = Some th →
     t_state th = ABT_THREAD_STATE_TERMINATED ∨ t_state th = ABT_THREAD_STATE_BLOCKED ∧ t_ctx th ≠ None ∨
     t_state th = ABT_THREAD_STATE_READY ∧ t ∈ units (pools (wd m) (t_pool th)) ∨ ∃ x, x ∈ xs ∧ on_stream (wd m) x t).
Proof.
  intros Hl St. destruct (reached_minv migration ttype rt xs Hl m St) as (L & W & Hs). pose proof (w_places _ _ _ _ _ _ W) as P.
  split; [apply P|]. split; [|split].
  - intros p t Hp. destruct (v_pooled _ _ _ _ _ _ P p t Hp) as (Hno & th & Ht & Hr & Ep). exists th. split_and!; try done.
    intros HY. destruct (v_free _ _ _ _ _ _ P t th Ht Hno) as (_ & [?|(Hc & _)]); [congruence|]. by destruct (Hc HY) as (k & -> & _).
  - intros x t Hx Hu Hc. destruct (user_current _ _ _ _ m L W Hs x t Hx Hu Hc) as [Ho Hlive]. split; [done|]. split.
    + intros p Hp. destruct (v_pooled _ _ _ _ _ _ P p t Hp) as (Hno & _). apply Hno. by exists x.
    + intros y Hy Hu' Hc'. destruct (user_current _ _ _ _ m L W Hs y t Hy Hu' Hc') as [Ho' _]. by eapply (v_owner _ _ _ _ _ _ P).
  - intros Hu t th Ht. by eapply user_place.
Qed.

(** C5: no join is lost.  When every stream is in user code or waits in a futex, a thread that is
    blocked in a join waits for a thread that exists, has not terminated, and
    carries a link back to the waiting thread, so that its end will resume it; and an external thread (or
    tasklet) that waits for a futex which is not yet set is linked in the same way. *)
Theorem join_no_lost_wakeup migration ttype rt xs m :
  launchable ttype rt xs → steps migration ttype xs (launch rt xs) m → (∀ x, x ∈ xs → resting (code m x)) →
  (∀ j t th, threads (wd m) !! j = Some th → t_state th = ABT_THREAD_STATE_BLOCKED → t_waits th = ForEnd t →
     ∃ tht, threads (wd m) !! t = Some tht ∧ t_state tht ≠ ABT_THREAD_STATE_TERMINATED ∧ t_link tht = Some (JUlt j)) ∧
  (∀ e k, e ∈ xs → code m e = Next (FutexWait e) k → futex (wd m) e = 0 →
     ∃ t tht, threads (wd m) !! t = Some tht ∧ t_state tht ≠ ABT_THREAD_STATE_TERMINATED ∧ t_link tht = Some (JExt e)).
Proof.
  intros Hl St Hr. destruct (reached_minv migration ttype rt xs Hl m St) as (L & W & Hs). split.
  - intros j t th Hj Hb Hw. by eapply resting_sleeps.
  - intros e k He Hc H0. by eapply resting_futex.
Qed.

(** C17: a stream that spins for the link of a thread it ends ([AwaitLink]) is not stuck: the
    link is there, or another stream stores it after finitely many of its own steps, whatever the
    others do meanwhile, and does not have to wait for anybody until then ([will_link]). *)
Theorem await_link_progress migration ttype rt xs m x t k :
  launchable ttype rt xs → steps migration ttype xs (launch rt xs) m → x ∈ xs → code m x = Next (AwaitLink t) k →
  linked (wd m) t ∨ ∃ y, y ∈ xs ∧ y ≠ x ∧ will_link migration ttype xs y t m.
Proof.
  intros Hl St Hx Hc. destruct (reached_minv migration ttype rt xs Hl m St) as (L & W & Hs).
  destruct (await_owed _ _ _ _ m L W Hs x t k Hx Hc) as [?|(y & a & Hy & Hyx & Ho)]; [by left|right].
  exists y. split_and!; try done. eapply owing_will_link; [apply Hl|done|]. exists L, a. by split.
Qed.

(** C16: without migration, whenever all streams are in user code, the counter of blocked threads of
    each pool is the number of its threads that are blocked (as a 32-bit integer). *)
Theorem blocked_counts_exact ttype rt xs m p :
  launchable ttype rt xs → steps false ttype xs (launch rt xs) m → (∀ x, x ∈ xs → in_user (code m x)) →
  num_blocked (pools (wd m) p) = i32 (nblocked (wd m) p).
Proof.
  intros Hl St Hu. destruct (reached_minv false ttype rt xs Hl m St) as (L & W & Hs).
  rewrite (w_counts _ _ _ _ _ _ W eq_refl p). by erewrite user_debts, Z.add_0_r.
Qed.

(** ** Runs *)

Definition demo_types (t : tid) : Z := match t with 0%nat => 50 | _ => 112 end.
Definition demo_roots (x : xid) : option tid := match x with 0%nat => Some 0%nat | _ => None end.
Definition demo_xs : list xid := [0%nat; 1%nat].
Definition demo (migration : bool) (l : list act) : option mach := play migration demo_types l (launch demo_roots demo_xs).
Definition demo_end (migration : bool) (l : list act) : mach := default (launch demo_roots demo_xs) (demo migration l).

Lemma demo_launchable : launchable demo_types demo_roots demo_xs.
Proof.
  split.
  - repeat constructor; set_solver.
  - intros [|x] [|y] t _ _; cbn; congruence.
  - intros [|x] t _; cbn; [by intros [= <-]|done].
Qed.

Definition demo_okb (migration : bool) (l : list act) : bool :=
  forallb (λ a, bool_decide (who a ∈ demo_xs)) l && match demo migration l with Some _ => true | None => false end.

Lemma demo_steps migration l :
  demo_okb migration l = true → steps migration demo_types demo_xs (launch demo_roots demo_xs) (demo_end migration l).
Proof.
  unfold demo_okb, demo_end, demo. intros [Hl Hp]%andb_true_iff.
  destruct (play migration demo_types l (launch demo_roots demo_xs)) as [m|] eqn:E; [|done]. cbn.
  eapply play_steps; [|constructor|exact E]. apply list.Forall_forall. intros a Ha.
  rewrite forallb_forall in Hl. apply (bool_decide_eq_true (who a ∈ demo_xs)), Hl. by apply list_elem_of_In.
Qed.

(** Threads 1, 2 and 3 are made; 1 yields; 2 joins 1 and is suspended; the external thread
    joins 3 and waits. *)
Definition demo_joins : list act :=
  [Call 0 (CCreate 112 0); Run 0 1; Call 0 (CCreate 112 0); Run 0 2; Call 0 (CCreate 112 0); Run 0 3;
   Call 0 (CSchedule 0 None); Run 0 0; Call 0 CYield; Run 0 0; Call 0 (CSchedule 0 None); Run 0 0; Call 0 (CJoin 1); Run 0 0;
   Call 1 (CJoin 3); Run 1 0].

(** The external thread has set the join flag of 1 and not yet its link when 1 exits. *)
Definition demo_await : list act :=
  [Call 0 (CCreate 112 0); Run 0 1; Call 0 (CSchedule 0 None); Run 0 0; Call 1 (CJoin 1); Go 1 0 6; Call 0 CExit; Run 0 0].

(** Thread 1 is to migrate to pool 1; it is suspended, and resumed by the root thread. *)
Definition demo_migrate : list act :=
  [Call 0 (CCreate 112 0); Run 0 1; Call 0 (CSchedule 0 None); Run 0 0; Call 1 (CMigrate 1 1 true); Run 1 0;
   Call 0 CSuspend; Run 0 0; Call 0 (CResume 1); Run 0 0].

(** Thread 1 suspends itself and switches to thread 2. *)
Definition demo_suspend_to : list act :=
  [Call 0 (CCreate 112 0); Run 0 1; Call 0 (CCreate 112 0); Run 0 2; Call 0 (CSchedule 0 None); Run 0 0;
   Call 0 (CSuspendTo 0); Run 0 0].

Definition state_of (m : mach) (t : tid) : option ABT_thread_state := t_state <$> threads (wd m) !! t.

(** Nobody is blocked, and yet the counter of pool 0 stays at 1 and that of pool 1 at -1. *)
Lemma migrating_suspend_breaks_counts :
  let m := demo_end true demo_migrate in
  steps true demo_types demo_xs (launch demo_roots demo_xs) m ∧
  (∀ x, x ∈ demo_xs → in_user (code m x)) ∧
  nblocked (wd m) 0 = 0 ∧ nblocked (wd m) 1 = 0 ∧
  num_blocked (pools (wd m) 0) = 1 ∧ num_blocked (pools (wd m) 1) = -1.
Proof.
  split; [apply demo_steps; vm_compute; reflexivity|]. split; [|by vm_compute].
  intros x Hx. repeat (apply elem_of_cons in Hx as [->|Hx]); [left; by vm_compute..|by apply elem_of_nil in Hx].
Qed.

(** Thread 2 runs, in state ready. *)
Lemma suspend_to_runs_ready :
  let m := demo_end false demo_suspend_to in
  steps false demo_types demo_xs (launch demo_roots demo_xs) m ∧
  code m 0%nat = User ∧ current (wd m) 0%nat = Some 2%nat ∧ state_of m 2 = Some ABT_THREAD_STATE_READY ∧
  state_of m 1 = Some ABT_THREAD_STATE_BLOCKED.
Proof. split; [apply demo_steps; vm_compute; reflexivity|]. by vm_compute. Qed.

(** Two streams, and threads whose stacks are allocated lazily. *)
Definition lazy_types (t : tid) : Z := match t with 0%nat | 1%nat => 50 | _ => 2160 end.
Definition lazy_roots (x : xid) : option tid := Some x.
Definition lazy_end (l : list act) : option mach := play false lazy_types l (launch lazy_roots [0%nat; 1%nat]).

(** Thread 2 runs on stream 0 and yields; it is cancelled, and stream 1 takes it. *)
Definition lazy_cancel : list act :=
  [Call 0 (CCreate 2160 0); Run 0 2; Call 0 (CSchedule 0 None); Go 0 0 1; Run 0 1; Call 0 CYield; Run 0 1;
   Call 1 (CCancel 2); Run 1 1; Call 1 (CSchedule 0 None); Go 1 0 1; Run 1 1].

(** Stream 1 gives the stack back to the memory pool of stream 0. *)
Lemma cancel_frees_stack_elsewhere :
  match lazy_end lazy_cancel with
  | Some m => (∃ k, code m 1%nat = Next (FreeStack (Some 0%nat) 2) k) ∧ advance false lazy_types 1 1 (code m 1%nat) (wd m) = Fault UB
  | None => False
  end.
Proof. vm_compute. split; [eexists|]; reflexivity. Qed.

(** The first run of a thread when there is no memory for its stack. *)
Lemma no_stack_fails_assertion :
  match lazy_end [Call 0 (CCreate 2160 0); Run 0 2; Call 0 (CSchedule 0 None); Go 0 0 1; Run 0 0] with
  | Some m => (∃ k, code m 0%nat = Next (AllocStack 2) k) ∧ advance false lazy_types 0 0 (code m 0%nat) (wd m) = Fault AssertFailed
  | None => False
  end.
Proof. vm_compute. split; [eexists|]; reflexivity. Qed.

(** ** Witnesses *)

Lemma ult_no_fault_witness :
  let m := demo_end false demo_await in
  match advance false demo_types 0 0 (code m 0%nat) (wd m) with
  | Done _ => True
  | Fault Blocked => in_user (code m 0%nat) ∨ ∃ c k, code m 0%nat = Next c k ∧ waiting c
  | Fault f => ∃ c k, code m 0%nat = Next c k ∧ stack_fault demo_types 0 c f
  end.
Proof.
  intros m. apply (ult_no_fault false demo_types demo_roots demo_xs m 0 0).
  - apply demo_launchable.
  - apply demo_steps. vm_compute. reflexivity.
  - left.
Defined.

Lemma ult_places_witness :
  let m := demo_end false demo_joins in
  units (pools (wd m) 0) = [3%nat; 1%nat] ∧ NoDup (units (pools (wd m) 0)).
Proof.
  intros m. split; [vm_compute; reflexivity|]. apply (ult_places false demo_types demo_roots demo_xs m).
  - apply demo_launchable.
  - apply demo_steps. vm_compute. reflexivity.
Defined.

Lemma join_no_lost_wakeup_witness :
  let m := demo_end false demo_joins in
  state_of m 2 = Some ABT_THREAD_STATE_BLOCKED ∧
  (∃ tht, threads (wd m) !! 1%nat = Some tht ∧ t_state tht ≠ ABT_THREAD_STATE_TERMINATED ∧ t_link tht = Some (JUlt 2)) ∧
  (∃ t tht, threads (wd m) !! t = Some tht ∧ t_state tht ≠ ABT_THREAD_STATE_TERMINATED ∧ t_link tht = Some (JExt 1)).
Proof.
  intros m. split; [vm_compute; reflexivity|].
  destruct (join_no_lost_wakeup false demo_types demo_roots demo_xs m) as [H1 H2].
  - apply demo_launchable.
  - apply demo_steps. vm_compute. reflexivity.
  - intros x Hx. repeat (apply elem_of_cons in Hx as [->|Hx]); [left; left; vm_compute; reflexivity| |by apply elem_of_nil in Hx].
    right. eexists _, _. vm_compute. reflexivity.
  - split.
    + eapply (H1 2%nat 1%nat); vm_compute; reflexivity.
    + eapply (H2 1%nat); [right; left|vm_compute; reflexivity..].
Defined.

Lemma await_link_progress_witness :
  let m := demo_end false demo_await in
  linked (wd m) 1 ∨ ∃ y, y ∈ demo_xs ∧ y ≠ 0%nat ∧ will_link false demo_types demo_xs y 1 m.
Proof.
  intros m. eapply (await_link_progress false demo_types demo_roots demo_xs m 0 1).
  - apply demo_launchable.
  - apply demo_steps. vm_compute. reflexivity.
  - left.
  - vm_compute. reflexivity.
Defined.

(** Thread 1 is suspended. *)
Definition demo_block : list act :=
  [Call 0 (CCreate 112 0); Run 0 1; Call 0 (CSchedule 0 None); Run 0 0; Call 0 CSuspend; Run 0 0].

Lemma blocked_counts_exact_witness :
  let m := demo_end false demo_block in
  num_blocked (pools (wd m) 0) = 1 ∧ num_blocked (pools (wd m) 0) = i32 (nblocked (wd m) 0).
Proof.
  intros m. split; [vm_compute; reflexivity|]. apply (blocked_counts_exact demo_types demo_roots demo_xs m 0).
  - apply demo_launchable.
  - apply demo_steps. vm_compute. reflexivity.
  - intros x Hx. repeat (apply elem_of_cons in Hx as [->|Hx]); [left; vm_compute; reflexivity..|by apply elem_of_nil in Hx].
Defined.
