(* ===== verification/Unit.v ===== *)
(** * Units of user-defined pools and their threads

    argobots/src/unit.c and the encoding in include/abti_unit.h.  A unit of a built-in pool is
    the address of its thread with the lowest bit set; the units of user-defined
    pools are whatever the pool made them, and a hash table maps them to threads.
    Mapping and unmapping hold the lock of the bucket; looking up takes no lock and walks a
    list whose elements are reused while it walks.  [pc] are the places between shared
    accesses, [advance] is the next access, [step] interleaves any number of threads.  A
    client maps a unit that is not mapped, and looks up or unmaps one that is;
    [status] keeps track of that. *)

From stdpp Require Import functions base tactics decidable option list numbers gmap fin_maps sets.
From Stdlib Require Import ZArith Lia.
From S2P Require Import Prelude Abt.
Open Scope Z_scope.

Abbreviation addr := nat (only parsing).
Abbreviation agent := nat (only parsing).

Definition ABT_UNIT_NULL : Z := 0.

(** ** Built-in units *)

Definition ABTI_UNIT_BUILTIN_POOL_BIT : Z := 1.

Definition ABTI_unit_is_builtin (unit : Z) : bool := negb (Z.land unit ABTI_UNIT_BUILTIN_POOL_BIT =? 0).

Definition ABTI_unit_get_builtin_unit {S} (p_thread : Z) : C S Z :=
  c_assert (Z.land p_thread ABTI_UNIT_BUILTIN_POOL_BIT =? 0);;
  mret (Z.lor p_thread ABTI_UNIT_BUILTIN_POOL_BIT).

Definition ABTI_unit_get_thread_from_builtin_unit {S} (unit : Z) : C S Z :=
  c_assert (ABTI_unit_is_builtin unit);;
  mret (Z.land unit (Z.lnot ABTI_UNIT_BUILTIN_POOL_BIT)).

(** ** The table *)

Definition ABTI_UNIT_HASH_TABLE_SIZE_EXP : Z := 8.
Definition ABTI_UNIT_HASH_TABLE_SIZE : Z := Z.shiftl 1 ABTI_UNIT_HASH_TABLE_SIZE_EXP.

Definition unit_get_hash_index (unit : Z) : Z :=
  let base_val := Z.shiftr unit 3 in
  let base_val := u64 (base_val + Z.shiftr unit (ABTI_UNIT_HASH_TABLE_SIZE_EXP + 3)) in
  let base_val := u64 (base_val + Z.shiftr unit (ABTI_UNIT_HASH_TABLE_SIZE_EXP * 2 + 3)) in
  Z.land base_val (ABTI_UNIT_HASH_TABLE_SIZE - 1).

Record unit_to_thread := UnitToThread { e_unit : Z; e_thread : Z; e_next : option addr }.

Record table := Table {
  elems : gmap addr unit_to_thread;
  lists : Z → option addr;
  locks : Z → bool
}.

Definition set_elems v (s : table) := Table v (lists s) (locks s).
Definition set_list (b : Z) v (s : table) := Table (elems s) (<[b := v]> (lists s)) (locks s).
Definition set_lock (b : Z) v (s : table) := Table (elems s) (lists s) (<[b := v]> (locks s)).

Definition elem (a : addr) : C table unit_to_thread := λ s,
  match elems s !! a with Some e => Done (e, s) | None => Fault UB end.
Definition set_elem (a : addr) (f : unit_to_thread → unit_to_thread) : C table unit :=
  e ← elem a; modify (λ s, set_elems (<[a := f e]> (elems s)) s).

Definition acquire (b : Z) : C table unit := λ s,
  if locks s b then Fault Blocked else Done ((), set_lock b true s).
Definition release (b : Z) : C table unit := modify (set_lock b false).

(** ** Accesses *)

Inductive pc :=
  | Idle
  | MapLock (u t : Z)
  | MapHead (u t : Z)
  | MapUnit (u t : Z) (a : addr)
  | MapNext (u t : Z) (a : addr)
  | MapSetUnit (u t : Z) (a : addr)
  | MapSetThread (u t : Z) (a : addr)
  | MapHeadAgain (u t : Z)
  | MapNew (u t : Z) (h : option addr)
  | MapPublish (u t : Z) (a : addr)
  | MapUnlock (u t : Z) (ok : bool)
  | MapRet (u t : Z) (ok : bool)
  | UnmapLock (u : Z)
  | UnmapHead (u : Z)
  | UnmapUnit (u : Z) (p : option addr)
  | UnmapNext (u : Z) (a : addr)
  | UnmapClear (u : Z) (a : addr)
  | UnmapUnlock (u : Z)
  | UnmapRet (u : Z)
  | GetHead (u : Z)
  | GetUnit (u : Z) (p : option addr)
  | GetNext (u : Z) (a : addr)
  | GetThread (u : Z) (a : addr)
  | GetRet (u t : Z).

Abbreviation hash u := (unit_get_hash_index u) (only parsing).

(** [new]: what [ABTU_malloc] returns.  The new element is filled before anybody can see it. *)
Definition advance (new : option addr) (c : pc) : C table pc :=
  match c with
  | Idle => throw Blocked
  | MapLock u t =>
      c_assert (negb (ABTI_unit_is_builtin u));; acquire (hash u);; mret (MapHead u t)
  | MapHead u t =>
      p_cur ← gets (λ s, lists s (hash u));
      mret (match p_cur with Some a => MapUnit u t a | None => MapHeadAgain u t end)
  | MapUnit u t a =>
      e ← elem a; mret (if e_unit e =? ABT_UNIT_NULL then MapSetUnit u t a else MapNext u t a)
  | MapNext u t a =>
      e ← elem a; mret (match e_next e with Some a => MapUnit u t a | None => MapHeadAgain u t end)
  | MapSetUnit u t a => set_elem a (λ e, UnitToThread u (e_thread e) (e_next e));; mret (MapSetThread u t a)
  | MapSetThread u t a => set_elem a (λ e, UnitToThread (e_unit e) t (e_next e));; mret (MapUnlock u t true)
  | MapHeadAgain u t => p_cur ← gets (λ s, lists s (hash u)); mret (MapNew u t p_cur)
  | MapNew u t h =>
      match new with
      | None => mret (MapUnlock u t false)
      | Some a => modify (λ s, set_elems (<[a := UnitToThread u t h]> (elems s)) s);; mret (MapPublish u t a)
      end
  | MapPublish u t a => modify (set_list (hash u) (Some a));; mret (MapUnlock u t true)
  | MapUnlock u t ok => release (hash u);; mret (MapRet u t ok)
  | UnmapLock u =>
      c_assert (negb (ABTI_unit_is_builtin u));; acquire (hash u);; mret (UnmapHead u)
  | UnmapHead u => p_cur ← gets (λ s, lists s (hash u)); mret (UnmapUnit u p_cur)
  | UnmapUnit u None => throw UB
  | UnmapUnit u (Some a) => e ← elem a; mret (if e_unit e =? u then UnmapClear u a else UnmapNext u a)
  | UnmapNext u a =>
      e ← elem a; c_assert (bool_decide (is_Some (e_next e)));; mret (UnmapUnit u (e_next e))
  | UnmapClear u a => set_elem a (λ e, UnitToThread ABT_UNIT_NULL (e_thread e) (e_next e));; mret (UnmapUnlock u)
  | UnmapUnlock u => release (hash u);; mret (UnmapRet u)
  | GetHead u =>
      c_assert (negb (ABTI_unit_is_builtin u));;
      p_cur ← gets (λ s, lists s (hash u)); mret (GetUnit u p_cur)
  | GetUnit u None => throw AssertFailed
  | GetUnit u (Some a) => e ← elem a; mret (if e_unit e =? u then GetThread u a else GetNext u a)
  | GetThread u a => e ← elem a; mret (GetRet u (e_thread e))
  | GetNext u a => e ← elem a; mret (GetUnit u (e_next e))
  | MapRet _ _ _ | UnmapRet _ | GetRet _ _ => throw Blocked
  end.

(** ** Start and end *)

Definition unit_init_hash_table : table := Table ∅ (λ _, None) (λ _, false).

(** Frees a list; the length of the list is fuel. *)
Fixpoint free_list (fuel : nat) (p : option addr) : C table unit :=
  match p with
  | None => mret ()
  | Some a =>
      match fuel with
      | O => throw OutOfFuel
      | S fuel =>
          e ← elem a;
          c_assert (e_unit e =? ABT_UNIT_NULL);;
          modify (λ s, set_elems (delete a (elems s)) s);;
          free_list fuel (e_next e)
      end
  end.

Definition finalize_bucket (fuel : nat) (b : Z) : C table unit :=
  locked ← gets (λ s, locks s b);
  c_assert (negb locked);;
  p_cur ← gets (λ s, lists s b);
  free_list fuel p_cur.

Fixpoint finalize_from (fuel n : nat) (b : Z) : C table unit :=
  match n with
  | O => mret ()
  | S n => finalize_bucket fuel b;; finalize_from fuel n (b + 1)
  end.

Definition unit_finalize_hash_table (fuel : nat) : C table unit :=
  finalize_from fuel (Z.to_nat ABTI_UNIT_HASH_TABLE_SIZE) 0.

(** ** Any number of threads *)

Inductive status := Free | Mapping (t : Z) | Mapped (t : Z) | Unmapping.

#[export] Instance status_eq : EqDecision status.
Proof. solve_decision. Defined.

Record sys := Sys { tab : table; pcs : agent → pc; st : Z → status }.

(** The unit that an operation is about. *)
Definition gets_unit (c : pc) : option Z :=
  match c with GetHead u | GetUnit u _ | GetNext u _ | GetThread u _ | GetRet u _ => Some u | _ => None end.

Inductive step : sys → sys → Prop :=
  | step_advance s i new c tab' :
      (∀ a, new = Some a → elems (tab s) !! a = None) →
      advance new (pcs s i) (tab s) = Done (c, tab') → step s (Sys tab' (<[i := c]> (pcs s)) (st s))
  | step_map s i u t :
      pcs s i = Idle → u ≠ ABT_UNIT_NULL → ABTI_unit_is_builtin u = false → st s u = Free →
      step s (Sys (tab s) (<[i := MapLock u t]> (pcs s)) (<[u := Mapping t]> (st s)))
  | step_mapped s i u t (ok : bool) :
      pcs s i = MapRet u t ok →
      step s (Sys (tab s) (<[i := Idle]> (pcs s)) (<[u := if ok then Mapped t else Free]> (st s)))
  | step_unmap s i u t :
      pcs s i = Idle → st s u = Mapped t → (∀ j, gets_unit (pcs s j) ≠ Some u) →
      step s (Sys (tab s) (<[i := UnmapLock u]> (pcs s)) (<[u := Unmapping]> (st s)))
  | step_unmapped s i u :
      pcs s i = UnmapRet u → step s (Sys (tab s) (<[i := Idle]> (pcs s)) (<[u := Free]> (st s)))
  | step_get s i u t :
      pcs s i = Idle → st s u = Mapped t → step s (Sys (tab s) (<[i := GetHead u]> (pcs s)) (st s))
  | step_got s i u t :
      pcs s i = GetRet u t → step s (Sys (tab s) (<[i := Idle]> (pcs s)) (st s)).

Definition start : sys := Sys unit_init_hash_table (λ _, Idle) (λ _, Free).

Inductive reachable : sys → Prop :=
  | reach_start : reachable start
  | reach_step s s' : reachable s → step s s' → reachable s'.

(** ** The invariant *)

Implicit Types (s : sys) (i j : agent) (a : addr) (u t : Z) (b : Z) (l : list addr) (c : pc).

Fixpoint is_list (E : gmap addr unit_to_thread) (p : option addr) l : Prop :=
  match l with
  | [] => p = None
  | a :: l => p = Some a ∧ ∃ e, E !! a = Some e ∧ is_list E (e_next e) l
  end.

(** The bucket whose lock an operation holds. *)
Definition holds c : option Z :=
  match c with
  | MapHead u _ | MapUnit u _ _ | MapNext u _ _ | MapSetUnit u _ _ | MapSetThread u _ _ | MapHeadAgain u _
  | MapNew u _ _ | MapPublish u _ _ | MapUnlock u _ _
  | UnmapHead u | UnmapUnit u _ | UnmapNext u _ | UnmapClear u _ | UnmapUnlock u => Some (hash u)
  | _ => None
  end.

(** The unit an operation is about, and what its status must be meanwhile. *)
Definition work c : option (Z * status) :=
  match c with
  | MapLock u t | MapHead u t | MapUnit u t _ | MapNext u t _ | MapSetUnit u t _ | MapSetThread u t _
  | MapHeadAgain u t | MapNew u t _ | MapPublish u t _ | MapUnlock u t _ | MapRet u t _ => Some (u, Mapping t)
  | UnmapLock u | UnmapHead u | UnmapUnit u _ | UnmapNext u _ | UnmapClear u _ | UnmapUnlock u | UnmapRet u =>
      Some (u, Unmapping)
  | _ => None
  end.

Section facts.
Context (T : table) (ch : Z → list addr).

(** An element of the bucket of [u] that carries [u]. *)
Definition carries u a (e : unit_to_thread) : Prop := a ∈ ch (hash u) ∧ elems T !! a = Some e ∧ e_unit e = u.
Definition absent u : Prop := ∀ a e, ¬ carries u a e.
Definition present u : Prop := ∃ a e, carries u a e.
Definition present_as u t : Prop := ∃ a e, carries u a e ∧ e_thread e = t.
(** It is met by who walks from [p]. *)
Definition ahead u (p : option addr) : Prop :=
  ∃ l a e, is_list (elems T) p l ∧ l ⊆ ch (hash u) ∧ a ∈ l ∧ elems T !! a = Some e ∧ e_unit e = u.

Definition pc_ok c : Prop :=
  match c with
  | MapLock u _ | MapHead u _ | MapHeadAgain u _ => absent u
  | MapUnit u _ a | MapNext u _ a => absent u ∧ a ∈ ch (hash u)
  | MapSetUnit u _ a => absent u ∧ a ∈ ch (hash u) ∧ ∃ e, elems T !! a = Some e ∧ e_unit e = ABT_UNIT_NULL
  | MapSetThread u _ a => ∃ e, carries u a e
  | MapNew u _ h => absent u ∧ h = lists T (hash u)
  | MapPublish u t a =>
      absent u ∧ elems T !! a = Some (UnitToThread u t (lists T (hash u))) ∧ ∀ b, a ∉ ch b
  | MapUnlock u t ok | MapRet u t ok => if ok then present_as u t else absent u
  | UnmapLock u | UnmapHead u => present u
  | UnmapUnit u p => ahead u p
  | UnmapNext u a | GetNext u a => ∃ e, a ∈ ch (hash u) ∧ elems T !! a = Some e ∧ ahead u (e_next e)
  | UnmapClear u a | GetThread u a => ∃ e, carries u a e
  | UnmapUnlock u | UnmapRet u => absent u
  | GetUnit u p => ahead u p
  | Idle | GetHead _ | GetRet _ _ => True
  end.

End facts.

Record inv s (ch : Z → list addr) : Prop := {
  v_chain : ∀ b, is_list (elems (tab s)) (lists (tab s) b) (ch b);
  v_nodup : ∀ b, NoDup (ch b);
  v_disj : ∀ b b' a, a ∈ ch b → a ∈ ch b' → b = b';
  v_elems : ∀ a e, elems (tab s) !! a = Some e → (∃ b, a ∈ ch b) ∨ ∃ i u t, pcs s i = MapPublish u t a;
  v_used : ∀ b a e, a ∈ ch b → elems (tab s) !! a = Some e → e_unit e ≠ ABT_UNIT_NULL →
    hash (e_unit e) = b ∧ st s (e_unit e) ≠ Free ∧ ∀ t, st s (e_unit e) = Mapped t → e_thread e = t;
  v_uniq : ∀ u a a' e e', carries (tab s) ch u a e → carries (tab s) ch u a' e' → u ≠ ABT_UNIT_NULL → a = a';
  v_legal : ∀ u, st s u ≠ Free → u ≠ ABT_UNIT_NULL ∧ ABTI_unit_is_builtin u = false;
  v_mapped : ∀ u t, st s u = Mapped t → present (tab s) ch u;
  v_lock : ∀ b, locks (tab s) b = true ↔ ∃ i, holds (pcs s i) = Some b;
  v_excl : ∀ i j b, holds (pcs s i) = Some b → holds (pcs s j) = Some b → i = j;
  v_work : ∀ i u x, work (pcs s i) = Some (u, x) → st s u = x;
  v_alone : ∀ i j u x y, work (pcs s i) = Some (u, x) → work (pcs s j) = Some (u, y) → i = j;
  v_busy : ∀ u, (st s u = Unmapping ∨ ∃ t, st s u = Mapping t) → ∃ i x, work (pcs s i) = Some (u, x);
  v_get : ∀ i u, gets_unit (pcs s i) = Some u → ∃ t, st s u = Mapped t;
  v_got : ∀ i u t, pcs s i = GetRet u t → st s u = Mapped t;
  v_pc : ∀ i, pc_ok (tab s) ch (pcs s i)
}.

(** ** Lists and changes of elements *)

Lemma is_list_same E E' p l :
  (∀ a e, a ∈ l → E !! a = Some e → ∃ e', E' !! a = Some e' ∧ e_next e' = e_next e) → is_list E p l → is_list E' p l.
Proof.
  intros H. revert p. induction l as [|a l IH]; intros p; [done|]. cbn. intros (-> & e & He & Hl). split; [done|].
  destruct (H a e) as (e' & He' & En); [by left|done|]. exists e'. split; [done|]. rewrite En. apply IH; [|done].
  intros a' e0 Ha'. apply H. by right.
Qed.

Lemma is_list_elem E p l a : is_list E p l → a ∈ l → ∃ e, E !! a = Some e.
Proof.
  revert p. induction l as [|a' l IH]; intros p; [set_solver|]. cbn. intros (-> & e & He & Hl) [->|Ha]%elem_of_cons; eauto.
Qed.

Lemma is_list_from E p l a e : is_list E p l → a ∈ l → E !! a = Some e → ∃ l', is_list E (e_next e) l' ∧ l' ⊆ l.
Proof.
  revert p. induction l as [|a' l IH]; intros p; [set_solver|]. cbn. intros (-> & e' & He' & Hl) Ha He.
  apply elem_of_cons in Ha as [->|Ha].
  - assert (e' = e) as -> by congruence. exists l. set_solver.
  - destruct (IH _ Hl Ha He) as (l' & ? & ?). exists l'. set_solver.
Qed.

(** ** Bookkeeping of one thread *)

Definition locks_ok (lk : Z → bool) (f : agent → pc) : Prop :=
  (∀ b, lk b = true ↔ ∃ i, holds (f i) = Some b) ∧
  (∀ i j b, holds (f i) = Some b → holds (f j) = Some b → i = j).

Lemma locks_keep lk f i c : locks_ok lk f → holds c = holds (f i) → locks_ok lk (<[i := c]> f).
Proof.
  intros [H1 H2] E. assert (∀ j, holds (<[i := c]> f j) = holds (f j)) as Hh.
  { intros j. destruct (decide (j = i)) as [->|]; [by rewrite fn_lookup_insert|by rewrite fn_lookup_insert_ne]. }
  split; [intros b; by setoid_rewrite Hh|intros j k b; rewrite !Hh; apply H2].
Qed.

Lemma locks_acquire lk f i c b :
  locks_ok lk f → holds (f i) = None → holds c = Some b → lk b = false → locks_ok (<[b := true]> lk) (<[i := c]> f).
Proof.
  intros [H1 H2] E Ec Hb. assert (∀ j, j ≠ i → holds (f j) ≠ Some b) as Hno.
  { intros j _ Hj. assert (lk b = true) by (apply H1; eauto). congruence. }
  split.
  - intros b'. destruct (decide (b' = b)) as [->|Hne].
    + rewrite fn_lookup_insert. split; [|done]. intros _. exists i. by rewrite fn_lookup_insert.
    + rewrite fn_lookup_insert_ne, H1 by done. split; intros (j & Hj); exists j.
      * rewrite fn_lookup_insert_ne by congruence. done.
      * destruct (decide (j = i)) as [->|]; [rewrite fn_lookup_insert in Hj; congruence|by rewrite fn_lookup_insert_ne in Hj].
  - intros j k b' Hj Hk. destruct (decide (j = i)) as [->|], (decide (k = i)) as [->|];
      rewrite ?fn_lookup_insert, ?fn_lookup_insert_ne in * by done; try done.
    + assert (b' = b) as -> by congruence. by destruct (Hno k).
    + assert (b' = b) as -> by congruence. by destruct (Hno j).
    + by eapply H2.
Qed.

Lemma locks_release lk f i c b :
  locks_ok lk f → holds (f i) = Some b → holds c = None → locks_ok (<[b := false]> lk) (<[i := c]> f).
Proof.
  intros [H1 H2] E Ec. split.
  - intros b'. destruct (decide (b' = b)) as [->|Hne].
    + rewrite fn_lookup_insert. split; [done|]. intros (j & Hj). destruct (decide (j = i)) as [->|];
        [rewrite fn_lookup_insert in Hj; congruence|]. rewrite fn_lookup_insert_ne in Hj by done. by rewrite (H2 i j b) in *.
    + rewrite fn_lookup_insert_ne, H1 by done. split; intros (j & Hj); exists j.
      * rewrite fn_lookup_insert_ne by congruence. done.
      * destruct (decide (j = i)) as [->|]; [rewrite fn_lookup_insert in Hj; congruence|by rewrite fn_lookup_insert_ne in Hj].
  - intros j k b' Hj Hk. destruct (decide (j = i)) as [->|], (decide (k = i)) as [->|];
      rewrite ?fn_lookup_insert, ?fn_lookup_insert_ne in * by done; try congruence. by eapply H2.
Qed.

Lemma inv_locks s ch : inv s ch → locks_ok (locks (tab s)) (pcs s).
Proof. intros I. split; apply I. Qed.

(** What the operations do does not change. *)
Definition work_ok (f : agent → pc) (z : Z → status) : Prop :=
  (∀ i u x, work (f i) = Some (u, x) → z u = x) ∧
  (∀ i j u x y, work (f i) = Some (u, x) → work (f j) = Some (u, y) → i = j) ∧
  (∀ u, (z u = Unmapping ∨ ∃ t, z u = Mapping t) → ∃ i x, work (f i) = Some (u, x)) ∧
  (∀ i u, gets_unit (f i) = Some u → ∃ t, z u = Mapped t).

Lemma inv_works s ch : inv s ch → work_ok (pcs s) (st s).
Proof. intros I. split_and!; apply I. Qed.

Lemma work_keep f z i c :
  work_ok f z → work c = work (f i) → gets_unit c = gets_unit (f i) → work_ok (<[i := c]> f) z.
Proof.
  intros (H1 & H2 & H3 & H4) Ew Eg.
  assert (∀ j, work (<[i := c]> f j) = work (f j) ∧ gets_unit (<[i := c]> f j) = gets_unit (f j)) as Hh.
  { intros j. destruct (decide (j = i)) as [->|]; [by rewrite fn_lookup_insert|by rewrite fn_lookup_insert_ne]. }
  assert (∀ j, work (<[i := c]> f j) = work (f j)) as Hw by apply Hh.
  split_and!.
  - intros j u x. rewrite Hw. apply H1.
  - intros j k u x y. rewrite !Hw. apply H2.
  - intros u Hu. setoid_rewrite Hw. by apply H3.
  - intros j u. destruct (Hh j) as [_ ->]. apply H4.
Qed.

(** A new operation, or the end of one. *)
Lemma work_start f z i c u x :
  work_ok f z → work (f i) = None → gets_unit (f i) = None → work c = Some (u, x) → gets_unit c = None →
  (∀ j y, work (f j) ≠ Some (u, y)) → (∀ j, gets_unit (f j) ≠ Some u) → work_ok (<[i := c]> f) (<[u := x]> z).
Proof.
  intros (H1 & H2 & H3 & H4) Ew Eg Ec Ecg Hno Hng. split_and!.
  - intros j v y. destruct (decide (j = i)) as [->|]; [rewrite fn_lookup_insert, Ec; intros [= <- <-]; by rewrite fn_lookup_insert|].
    rewrite fn_lookup_insert_ne by done. intros Hj. rewrite fn_lookup_insert_ne; [by eapply H1|]. intros ->. by eapply Hno.
  - intros j k v y y' Hj Hk. destruct (decide (j = i)) as [->|], (decide (k = i)) as [->|];
      rewrite ?fn_lookup_insert, ?fn_lookup_insert_ne in * by done; try done.
    + assert (v = u) as -> by congruence. by destruct (Hno k y').
    + assert (v = u) as -> by congruence. by destruct (Hno j y).
    + by eapply H2.
  - intros v Hv. destruct (decide (v = u)) as [->|]; [exists i, x; by rewrite fn_lookup_insert|].
    rewrite fn_lookup_insert_ne in Hv by done. destruct (H3 v Hv) as (j & y & Hj). exists j, y. rewrite fn_lookup_insert_ne; [done|]. congruence.
  - intros j v. destruct (decide (j = i)) as [->|]; [rewrite fn_lookup_insert; congruence|]. rewrite fn_lookup_insert_ne by done.
    intros Hj. rewrite fn_lookup_insert_ne; [by eapply H4|]. intros ->. by eapply Hng.
Qed.

Lemma work_end f z i u x (y : status) :
  work_ok f z → work (f i) = Some (u, x) → y ≠ Unmapping → (∀ t, y ≠ Mapping t) →
  work_ok (<[i := Idle]> f) (<[u := y]> z).
Proof.
  intros (H1 & H2 & H3 & H4) Ew Hy Hy'. assert (∀ j x', j ≠ i → work (f j) ≠ Some (u, x')) as Hno.
  { intros j x' Hji Hj. apply Hji. by eapply H2. }
  split_and!.
  - intros j v x'. destruct (decide (j = i)) as [->|]; [by rewrite fn_lookup_insert|]. rewrite fn_lookup_insert_ne by done. intros Hj.
    rewrite fn_lookup_insert_ne; [by eapply H1|]. intros ->. by eapply Hno.
  - intros j k v x1 x2 Hj Hk. destruct (decide (j = i)) as [->|], (decide (k = i)) as [->|];
      rewrite ?fn_lookup_insert, ?fn_lookup_insert_ne in * by done; try done. by eapply H2.
  - intros v Hv. destruct (decide (v = u)) as [->|]; [rewrite fn_lookup_insert in Hv; naive_solver|].
    rewrite fn_lookup_insert_ne in Hv by done. destruct (H3 v Hv) as (j & x' & Hj). exists j, x'. rewrite fn_lookup_insert_ne; [done|]. congruence.
  - intros j v. destruct (decide (j = i)) as [->|]; [by rewrite fn_lookup_insert|]. rewrite fn_lookup_insert_ne by done. intros Hj.
    rewrite fn_lookup_insert_ne; [by eapply H4|]. intros ->. destruct (H4 j v Hj) as (t & Ht). specialize (H1 i v x Ew). destruct x; try congruence.
    all: destruct (f i); cbn in Ew; congruence.
Qed.

(** ** Accesses that change no element *)

Lemma pc_ok_same T T' ch c : elems T' = elems T → lists T' = lists T → pc_ok T ch c → pc_ok T' ch c.
Proof. destruct T, T'. cbn. intros -> ->. by destruct c. Qed.

Lemma inv_quiet s ch i c T' :
  inv s ch → elems T' = elems (tab s) → lists T' = lists (tab s) → locks_ok (locks T') (<[i := c]> (pcs s)) →
  work c = work (pcs s i) → gets_unit c = gets_unit (pcs s i) → (∀ u t a, pcs s i ≠ MapPublish u t a) →
  (∀ u t, c = GetRet u t → st s u = Mapped t) → pc_ok (tab s) ch c →
  inv (Sys T' (<[i := c]> (pcs s)) (st s)) ch.
Proof.
  intros I Ee El [Hl Hx] Ew Eg Hp Hg Hc. destruct (work_keep _ _ i c (inv_works s ch I) Ew Eg) as (H1 & H2 & H3 & H4).
  split; cbn; try rewrite Ee; try rewrite El; try done; try apply I.
  - intros a e Ha. destruct (v_elems _ _ I a e Ha) as [?|(j & u & t & Hj)]; [by left|right]. exists j, u, t.
    rewrite fn_lookup_insert_ne; [done|]. intros ->. by eapply Hp.
  - intros u a a' e e'. unfold carries. rewrite Ee. apply I.
  - intros u t Hu. unfold present, carries. rewrite Ee. by apply (v_mapped _ _ I u t).
  - intros j u t. destruct (decide (j = i)) as [->|]; [rewrite fn_lookup_insert; by apply Hg|].
    rewrite fn_lookup_insert_ne by done. apply I.
  - intros j. apply (pc_ok_same (tab s)); [done..|]. destruct (decide (j = i)) as [->|]; [by rewrite fn_lookup_insert|].
    rewrite fn_lookup_insert_ne by done. apply I.
Qed.

(** ** One element changes *)

(** The unit [u] that a thread maps or unmaps concerns no other thread. *)
Lemma other_unit s ch i j u x v :
  inv s ch → work (pcs s i) = Some (u, x) → j ≠ i →
  (∃ y, work (pcs s j) = Some (v, y)) ∨ gets_unit (pcs s j) = Some v → v ≠ u ∧ v ≠ ABT_UNIT_NULL.
Proof.
  intros I Hi Hji Hj. pose proof (v_work _ _ I i u x Hi) as Hu.
  assert (x = Unmapping ∨ ∃ t, x = Mapping t) as Hx by (destruct (pcs s i); cbn in Hi; naive_solver).
  destruct Hj as [(y & Hj)|Hj].
  - split; [intros ->; apply Hji; by eapply (v_alone _ _ I)|]. pose proof (v_work _ _ I j v y Hj) as Hv.
    apply (v_legal _ _ I v). destruct (pcs s j); cbn in Hj; naive_solver congruence.
  - destruct (v_get _ _ I j v Hj) as (t & Hv). split; [intros ->; naive_solver congruence|]. apply (v_legal _ _ I v). congruence.
Qed.

Section one.
Context (s : sys) (ch : Z → list addr) (I : inv s ch) (i : agent) (u : Z) (x : status).
Context (Hi : work (pcs s i) = Some (u, x)) (a : addr) (e e' : unit_to_thread).
Context (Ha : a ∈ ch (hash u)) (He : elems (tab s) !! a = Some e) (Hn : e_next e' = e_next e).
Context (Hhold : holds (pcs s i) = Some (hash u)).
(** Before and after, [a] is free or carries [u]. *)
Context (Hb : e_unit e = ABT_UNIT_NULL ∨ e_unit e = u) (Hb' : e_unit e' = ABT_UNIT_NULL ∨ e_unit e' = u).

Definition one_table : table := set_elems (<[a := e']> (elems (tab s))) (tab s).

Lemma one_list p l : is_list (elems (tab s)) p l ↔ is_list (elems one_table) p l.
Proof.
  split; apply is_list_same; intros a' e0 _; cbn; destruct (decide (a' = a)) as [->|];
    rewrite ?lookup_insert_eq, ?lookup_insert_ne by done; try (by eauto).
  - intros E. assert (e0 = e) as -> by congruence. eauto.
  - intros [= <-]. eauto.
Qed.

Lemma one_carries v a' e0 : v ≠ u → v ≠ ABT_UNIT_NULL → carries (tab s) ch v a' e0 ↔ carries one_table ch v a' e0.
Proof.
  intros Hv Hv0. unfold carries. cbn. destruct (decide (a' = a)) as [->|]; [|by rewrite lookup_insert_ne].
  rewrite lookup_insert_eq, He. split; intros (_ & [= <-] & E); exfalso; naive_solver congruence.
Qed.

Lemma one_ahead v p : v ≠ u → v ≠ ABT_UNIT_NULL → ahead (tab s) ch v p → ahead one_table ch v p.
Proof.
  intros Hv Hv0 (l & a' & e0 & Hl & Hin & Hal & Hae & Hu). exists l, a', e0. split; [by apply one_list|]. do 2 (split; [done|]).
  cbn. rewrite lookup_insert_ne; [done|]. intros <-. assert (e0 = e) as -> by congruence. naive_solver congruence.
Qed.

Lemma one_others c j :
  j ≠ i → pcs s j = c → pc_ok one_table ch c.
Proof.
  intros Hji Hc. pose proof (v_pc _ _ I j) as Hok. rewrite Hc in Hok.
  assert (∀ v, (∃ y, work c = Some (v, y)) ∨ gets_unit c = Some v → v ≠ u ∧ v ≠ ABT_UNIT_NULL) as Hv
    by (intros v H; rewrite <- Hc in H; by eapply other_unit).
  assert (∀ v, v ≠ u ∧ v ≠ ABT_UNIT_NULL → absent (tab s) ch v → absent one_table ch v) as Habs.
  { intros v [Hv1 Hv2] Hab a' e0 H'. eapply Hab. by apply one_carries. }
  assert (∀ v, v ≠ u ∧ v ≠ ABT_UNIT_NULL → ∀ a' e0, carries (tab s) ch v a' e0 → carries one_table ch v a' e0) as Hcar.
  { intros v [? ?] a' e0 H'. by apply one_carries. }
  assert (∀ v, v ≠ u ∧ v ≠ ABT_UNIT_NULL → ∀ p, ahead (tab s) ch v p → ahead one_table ch v p) as Hahead.
  { intros v [? ?] p. by apply one_ahead. }
  assert (∀ v a', v ≠ u ∧ v ≠ ABT_UNIT_NULL → (∃ e0, a' ∈ ch (hash v) ∧ elems (tab s) !! a' = Some e0 ∧ ahead (tab s) ch v (e_next e0)) →
            ∃ e0, a' ∈ ch (hash v) ∧ elems one_table !! a' = Some e0 ∧ ahead one_table ch v (e_next e0)) as Hnext.
  { intros v a' Hvv (e0 & ? & He0 & ?). cbn. destruct (decide (a' = a)) as [->|]; [exists e'|exists e0].
    - rewrite lookup_insert_eq, Hn. assert (e0 = e) as -> by congruence. auto.
    - rewrite lookup_insert_ne by done. auto. }
  destruct c as [|v t|v t|v t a'|v t a'|v t a'|v t a'|v t|v t h|v t a'|v t ok|v t ok|v|v|v p|v a'|v a'|v|v|v|v p|v a'|v a'|v t];
    cbn in Hok |- *; try done; try (pose proof (Hv v ltac:(cbn; eauto)) as Hvv); try (by eauto); try (by destruct Hok; eauto).
  - destruct Hok as (? & Hin & e0 & He0 & E0). split; [eauto|]. split; [done|]. cbn. rewrite lookup_insert_ne; [eauto|]. intros <-.
    apply Hji. eapply (v_excl _ _ I); [rewrite Hc; done|]. rewrite (v_disj _ _ I (hash v) (hash u) a); done.
  - destruct Hok as (? & ? & Hno). split; [eauto|]. split; [|done]. rewrite lookup_insert_ne; [done|]. intros <-. by eapply Hno.
  - destruct ok; [|eauto]. destruct Hok as (a' & e0 & ? & ?). exists a', e0. auto.
  - destruct ok; [|eauto]. destruct Hok as (a' & e0 & ? & ?). exists a', e0. auto.
  - destruct Hok as (a' & e0 & ?). exists a', e0. auto.
  - destruct Hok as (a' & e0 & ?). exists a', e0. auto.
Qed.

(** The thread that does it goes on at [c]. *)
Lemma inv_one c :
  work c = Some (u, x) → holds c = holds (pcs s i) → pc_ok one_table ch c →
  (e_unit e' = u → st s u ≠ Free) → (e_unit e' = u → e_unit e = ABT_UNIT_NULL → absent (tab s) ch u) →
  (∀ v t a', pcs s i ≠ MapPublish v t a') → (x = Unmapping ∨ ∃ t, x = Mapping t) →
  inv (Sys one_table (<[i := c]> (pcs s)) (st s)) ch.
Proof.
  intros Hc Hh Hok Hst Habs Hnp Hx. pose proof (v_work _ _ I i u x Hi) as Hu.
  assert (gets_unit c = None ∧ gets_unit (pcs s i) = None) as [Hg Hg'].
  { split; [destruct c|destruct (pcs s i)]; cbn in *; congruence. }
  destruct (work_keep _ _ i c (inv_works s ch I)) as (H1 & H2 & H3 & H4); [congruence..|].
  destruct (locks_keep _ _ i c (inv_locks s ch I) Hh) as (H5 & H6).
  assert (u ≠ ABT_UNIT_NULL) as Hu0 by (apply (v_legal _ _ I u); destruct Hx as [->|(? & ->)]; congruence).
  split; cbn -[one_table]; try done; try apply I.
  - intros b. by apply one_list, I.
  - intros a' e0 He0. assert (is_Some (elems (tab s) !! a')) as [e1 He1].
    { cbn in He0. destruct (decide (a' = a)) as [->|]; [eauto|]. by rewrite lookup_insert_ne in He0. }
    destruct (v_elems _ _ I a' e1 He1) as [?|(j & v & t & Hj)]; [by left|right]. exists j, v, t. rewrite fn_lookup_insert_ne; [done|].
    intros ->. by eapply Hnp.
  - intros b a' e0 Ha' He0 Hnz. cbn in He0. destruct (decide (a' = a)) as [->|].
    + rewrite lookup_insert_eq in He0. injection He0 as <-. destruct Hb' as [?|E]; [done|]. rewrite E in *.
      split; [by eapply (v_disj _ _ I)|]. split; [auto|]. intros t Ht. destruct Hx as [->|(? & ->)]; congruence.
    + rewrite lookup_insert_ne in He0 by done. by eapply (v_used _ _ I).
  - intros v a1 a2 e1 e2 H1' H2' Hv. destruct (decide (v = u)) as [->|Hvu]; [|eapply (v_uniq _ _ I v); [by apply one_carries..|done]].
    assert (∀ a3 e3, carries one_table ch u a3 e3 → a3 ≠ a → carries (tab s) ch u a3 e3) as Hoff.
    { intros a3 e3 (? & Hl & ?) Hne. cbn in Hl. rewrite lookup_insert_ne in Hl by done. by split_and!. }
    assert (∀ a3 e3 e4, carries one_table ch u a3 e3 → a3 ≠ a → ¬ carries one_table ch u a e4) as Hcl.
    { intros a3 e3 e4 H3' Hne (_ & Hl & E'). cbn in Hl. rewrite lookup_insert_eq in Hl. injection Hl as <-.
      pose proof (Hoff a3 e3 H3' Hne) as H3''. destruct Hb as [E0|E0].
      - by apply (Habs E' E0 a3 e3).
      - apply Hne. eapply (v_uniq _ _ I u); [exact H3''| |done]. by split_and!. }
    destruct (decide (a1 = a)) as [->|], (decide (a2 = a)) as [->|]; [done|..].
    + exfalso. by apply (Hcl a2 e2 e1).
    + exfalso. by apply (Hcl a1 e1 e2).
    + eapply (v_uniq _ _ I u); [by apply Hoff..|done].
  - intros v t Hv. destruct (v_mapped _ _ I v t Hv) as (a1 & e1 & Hc1). exists a1, e1. apply one_carries; [| |done].
    + intros ->. destruct Hx as [->|(? & ->)]; congruence.
    + apply (v_legal _ _ I v). congruence.
  - intros j v t. destruct (decide (j = i)) as [->|]; [rewrite fn_lookup_insert; by intros ->|]. rewrite fn_lookup_insert_ne by done. apply I.
  - intros j. destruct (decide (j = i)) as [->|]; [by rewrite fn_lookup_insert|]. rewrite fn_lookup_insert_ne by done. by eapply one_others.
Qed.

End one.

(** ** A new element *)

Section new.
Context (s : sys) (ch : Z → list addr) (I : inv s ch) (i : agent) (u t : Z).

Lemma chain_elem b a : a ∈ ch b → ∃ e, elems (tab s) !! a = Some e.
Proof. intros Ha. by eapply is_list_elem, Ha; apply I. Qed.

Lemma fresh_ok a e c : elems (tab s) !! a = None → pc_ok (tab s) ch c → pc_ok (set_elems (<[a := e]> (elems (tab s))) (tab s)) ch c.
Proof.
  intros Hf. set (T' := set_elems _ _).
  assert (∀ b a' e0, a' ∈ ch b → elems (tab s) !! a' = Some e0 ↔ elems T' !! a' = Some e0) as He.
  { intros b a' e0 Ha'. destruct (chain_elem b a' Ha') as (e1 & ?). cbn. rewrite lookup_insert_ne; [done|]. congruence. }
  assert (∀ v a' e0, carries (tab s) ch v a' e0 ↔ carries T' ch v a' e0) as Hcar.
  { intros v a' e0. unfold carries. split; intros (? & ? & ?); split_and!; try done; by eapply He. }
  assert (∀ v, absent (tab s) ch v → absent T' ch v) as Habs by (intros v H a' e0 Hc; by eapply H, Hcar).
  assert (∀ v p, ahead (tab s) ch v p → ahead T' ch v p) as Hahead.
  { intros v p (l & a' & e0 & Hl & Hin & Ha' & He0 & Hu). exists l, a', e0. split_and!; try done; [|by eapply (He (hash v)); [apply Hin|]].
    eapply is_list_same; [|exact Hl]. intros a1 e1 H1 Hl1. exists e1. split; [|done]. by eapply (He (hash v)); [apply Hin|]. }
  destruct c; cbn -[T']; try done; try (by apply Habs); try (by apply Hahead).
  - intros []. auto.
  - intros []. auto.
  - intros (? & Ha & e0 & ? & ?). split; [auto|]. split; [done|]. exists e0. split; [by eapply He|done].
  - intros (e0 & ?). exists e0. by apply Hcar.
  - intros []. auto.
  - intros (? & Ha & ?). split; [auto|]. split; [|done]. cbn. rewrite lookup_insert_ne; [done|]. congruence.
  - destruct ok; [|apply Habs]. intros (a' & e0 & ? & ?). exists a', e0. by rewrite <- Hcar.
  - destruct ok; [|apply Habs]. intros (a' & e0 & ? & ?). exists a', e0. by rewrite <- Hcar.
  - intros (a' & e0 & ?). exists a', e0. by apply Hcar.
  - intros (a' & e0 & ?). exists a', e0. by apply Hcar.
  - intros (e0 & ? & ? & ?). exists e0. split; [done|]. split; [by eapply He|auto].
  - intros (e0 & ?). exists e0. by apply Hcar.
  - intros (e0 & ? & ? & ?). exists e0. split; [done|]. split; [by eapply He|auto].
  - intros (e0 & ?). exists e0. by apply Hcar.
Qed.

Lemma inv_new h a :
  pcs s i = MapNew u t h → elems (tab s) !! a = None →
  inv (Sys (set_elems (<[a := UnitToThread u t h]> (elems (tab s))) (tab s)) (<[i := MapPublish u t a]> (pcs s)) (st s)) ch.
Proof.
  intros Hi Hf. pose proof (v_pc _ _ I i) as Hok. rewrite Hi in Hok. destruct Hok as [Habs ->].
  destruct (work_keep _ _ i (MapPublish u t a) (inv_works s ch I)) as (H1 & H2 & H3 & H4); [by rewrite Hi..|].
  destruct (locks_keep _ _ i (MapPublish u t a) (inv_locks s ch I)) as (H5 & H6); [by rewrite Hi|].
  set (T' := set_elems _ _).
  assert (∀ b, a ∉ ch b) as Hno by (intros b Hb; destruct (chain_elem b a Hb); congruence).
  assert (∀ b a' e0, a' ∈ ch b → elems T' !! a' = Some e0 → elems (tab s) !! a' = Some e0) as He.
  { intros b a' e0 Ha'. cbn. rewrite lookup_insert_ne; [done|]. intros <-. by eapply Hno. }
  assert (∀ v a' e0, carries T' ch v a' e0 → carries (tab s) ch v a' e0) as Hcar.
  { intros v a' e0 (? & ? & ?). split_and!; try done. by eapply He. }
  split; cbn -[T']; try done; try apply I.
  - intros b. eapply is_list_same; [|apply I]. intros a' e0 Ha' He0. exists e0. split; [|done]. cbn. rewrite lookup_insert_ne; [done|]. congruence.
  - intros a' e0. cbn. destruct (decide (a' = a)) as [->|].
    + intros _. right. exists i, u, t. by rewrite fn_lookup_insert.
    + rewrite lookup_insert_ne by done. intros Ha'. destruct (v_elems _ _ I a' e0 Ha') as [?|(j & v & t' & Hj)]; [by left|right].
      exists j, v, t'. rewrite fn_lookup_insert_ne; [done|]. intros ->. congruence.
  - intros b a' e0 Ha' He0. by apply (v_used _ _ I b a'), (He b).
  - intros v a1 a2 e1 e2 Hc1 Hc2. by apply (v_uniq _ _ I v a1 a2 e1 e2); apply Hcar.
  - intros v t' Hv. destruct (v_mapped _ _ I v t' Hv) as (a' & e0 & Ha' & He0 & Eu). exists a', e0. split_and!; try done.
    cbn. rewrite lookup_insert_ne; [done|]. intros <-. by eapply Hno.
  - intros j v t'. destruct (decide (j = i)) as [->|]; [by rewrite fn_lookup_insert|]. rewrite fn_lookup_insert_ne by done. apply I.
  - intros j. destruct (decide (j = i)) as [->|].
    + rewrite fn_lookup_insert. cbn. split; [|split; [by rewrite lookup_insert_eq|done]]. intros a' e0 Hc. by eapply Habs, Hcar.
    + rewrite fn_lookup_insert_ne by done. apply fresh_ok; [done|]. apply I.
Qed.

(** It is put at the head of the list. *)
Definition longer a : Z → list addr := <[hash u := a :: ch (hash u)]> ch.

Lemma longer_elem a b a' : a' ∈ longer a b ↔ a' ∈ ch b ∨ b = hash u ∧ a' = a.
Proof.
  unfold longer. destruct (decide (b = hash u)) as [->|]; [rewrite fn_lookup_insert|rewrite fn_lookup_insert_ne by done]; set_solver.
Qed.

Lemma publish_ok a c j :
  pcs s i = MapPublish u t a → j ≠ i → pcs s j = c → pc_ok (set_list (hash u) (Some a) (tab s)) (longer a) c.
Proof.
  intros Hi Hji Hc. set (T' := set_list _ _ _). pose proof (v_pc _ _ I i) as Hoki. rewrite Hi in Hoki. destruct Hoki as (_ & Hea & Hno).
  pose proof (v_pc _ _ I j) as Hok. rewrite Hc in Hok.
  assert (∀ v, (∃ y, work c = Some (v, y)) ∨ gets_unit c = Some v → v ≠ u ∧ v ≠ ABT_UNIT_NULL) as Hv.
  { intros v H. rewrite <- Hc in H. eapply (other_unit s ch i j u (Mapping t)); [done|by rewrite Hi|done..]. }
  assert (∀ v a' e0, v ≠ u ∧ v ≠ ABT_UNIT_NULL → carries (tab s) ch v a' e0 ↔ carries T' (longer a) v a' e0) as Hcar.
  { intros v a' e0 [Hvu _]. unfold carries. rewrite longer_elem. cbn. split; [naive_solver|]. intros ([?|[_ ->]] & Ee & <-); [done|].
    destruct Hvu. rewrite Hea in Ee. by injection Ee as <-. }
  assert (∀ v, v ≠ u ∧ v ≠ ABT_UNIT_NULL → absent (tab s) ch v → absent T' (longer a) v) as Habs.
  { intros v ? H a' e0 Hca. by eapply H, Hcar. }
  assert (∀ v p, ahead (tab s) ch v p → ahead T' (longer a) v p) as Hahead.
  { intros v p (l & a' & e0 & Hl & Hin & ?). exists l, a', e0. split; [done|]. split; [|done]. intros a1 H1. apply longer_elem. left. by apply Hin. }
  assert (∀ v, holds c = Some (hash v) → lists T' (hash v) = lists (tab s) (hash v)) as Hlist.
  { intros v Hh. cbn. rewrite fn_lookup_insert_ne; [done|]. intros E. apply Hji. eapply (v_excl _ _ I); [by rewrite Hc|]. rewrite Hi. cbn. congruence. }
  assert (∀ b a', a' ∈ ch b → a' ∈ longer a b) as Hin by (intros b a' ?; apply longer_elem; by left).
  destruct c as [|v t1|v t1|v t1 a1|v t1 a1|v t1 a1|v t1 a1|v t1|v t1 h|v t1 a1|v t1 ok|v t1 ok|v|v|v p|v a1|v a1|v|v|v|v p|v a1|v a1|v t1];
    cbn -[T'] in Hok |- *; try done; try (pose proof (Hv v ltac:(cbn; eauto)) as Hvv); try (by auto).
  - destruct Hok. auto.
  - destruct Hok. auto.
  - destruct Hok as (? & ? & ?). auto.
  - destruct Hok as (e0 & ?). exists e0. by apply Hcar.
  - destruct Hok as [? ->]. split; [auto|]. symmetry. by apply Hlist.
  - destruct Hok as (? & Hea1 & Hno1). split; [auto|]. rewrite Hlist by done. split; [done|]. intros b. rewrite longer_elem.
    intros [?|[_ ->]]; [by eapply Hno1|]. rewrite Hea in Hea1. destruct Hvv. congruence.
  - destruct ok; [|auto]. destruct Hok as (a' & e0 & ? & ?). exists a', e0. by rewrite <- Hcar.
  - destruct ok; [|auto]. destruct Hok as (a' & e0 & ? & ?). exists a', e0. by rewrite <- Hcar.
  - destruct Hok as (a' & e0 & ?). exists a', e0. by apply Hcar.
  - destruct Hok as (a' & e0 & ?). exists a', e0. by apply Hcar.
  - destruct Hok as (e0 & ? & ? & ?). exists e0. auto.
  - destruct Hok as (e0 & ?). exists e0. by apply Hcar.
  - destruct Hok as (e0 & ? & ? & ?). exists e0. auto.
  - destruct Hok as (e0 & ?). exists e0. by apply Hcar.
Qed.

Lemma inv_publish a :
  pcs s i = MapPublish u t a →
  inv (Sys (set_list (hash u) (Some a) (tab s)) (<[i := MapUnlock u t true]> (pcs s)) (st s)) (longer a).
Proof.
  intros Hi. set (T' := set_list _ _ _). pose proof (v_pc _ _ I i) as Hok. rewrite Hi in Hok. destruct Hok as (Habs & Hea & Hno).
  destruct (work_keep _ _ i (MapUnlock u t true) (inv_works s ch I)) as (H1 & H2 & H3 & H4); [by rewrite Hi..|].
  destruct (locks_keep _ _ i (MapUnlock u t true) (inv_locks s ch I)) as (H5 & H6); [by rewrite Hi|].
  assert (st s u = Mapping t) as Hst by (apply (v_work _ _ I i); by rewrite Hi).
  assert (∀ v a' e0, carries T' (longer a) v a' e0 → carries (tab s) ch v a' e0 ∨ v = u ∧ a' = a) as Hcar.
  { intros v a' e0 ([?|[Eh ->]]%longer_elem & Ee & Eu); [by left; split_and!|]. right. cbn in Ee. rewrite Hea in Ee. injection Ee as <-. by cbn in Eu. }
  split; cbn -[T']; try done; try apply I.
  - intros b. unfold longer. cbn. destruct (decide (b = hash u)) as [->|]; [rewrite !fn_lookup_insert|rewrite !fn_lookup_insert_ne by done; apply I].
    cbn. split; [done|]. eexists. split; [exact Hea|]. cbn. apply I.
  - intros b. unfold longer. destruct (decide (b = hash u)) as [->|]; [rewrite fn_lookup_insert|rewrite fn_lookup_insert_ne by done; apply I].
    apply NoDup_cons. split; [done|]. apply I.
  - intros b b' a'. rewrite !longer_elem. intros [Hb|[-> ->]] [Hb'|[-> E]]; subst; try done; [by eapply (v_disj _ _ I)|by destruct (Hno b)|by destruct (Hno b')].
  - intros a' e0 Ha'. destruct (decide (a' = a)) as [->|].
    + left. exists (hash u). apply longer_elem. by right.
    + destruct (v_elems _ _ I a' e0 Ha') as [(b & ?)|(j & v & t' & Hj)]; [left; exists b; apply longer_elem; by left|right].
      exists j, v, t'. rewrite fn_lookup_insert_ne; [done|]. intros ->. congruence.
  - intros b a' e0 [Hb|[-> ->]]%longer_elem He0 Hnz; [by eapply (v_used _ _ I)|]. cbn in He0. rewrite Hea in He0. injection He0 as <-. cbn.
    split; [done|]. rewrite Hst. done.
  - intros v a1 a2 e1 e2 [Hc1|[-> ->]]%Hcar [Hc2|[E ->]]%Hcar Hv; subst; try done; [by eapply (v_uniq _ _ I v)|by destruct (Habs a1 e1)|by destruct (Habs a2 e2)].
  - intros v t' Hv. destruct (v_mapped _ _ I v t' Hv) as (a' & e0 & Ha' & He0 & Eu). exists a', e0. split_and!; try done. apply longer_elem. by left.
  - intros j v t'. destruct (decide (j = i)) as [->|]; [by rewrite fn_lookup_insert|]. rewrite fn_lookup_insert_ne by done. apply I.
  - intros j. destruct (decide (j = i)) as [->|]; [|rewrite fn_lookup_insert_ne by done; by eapply publish_ok].
    rewrite fn_lookup_insert. exists a, (UnitToThread u t (lists (tab s) (hash u))). split; [|done]. split_and!; try done. apply longer_elem. by right.
Qed.

End new.

(** ** Every access *)

Ltac act := cbv beta iota delta [advance elem set_elem acquire release c_assert gets modify throw mbind C_bind mret C_ret].

Section access.
Context (s : sys) (ch : Z → list addr) (I : inv s ch) (i : agent) (new : option addr).
Hypothesis Hnew : ∀ a, new = Some a → elems (tab s) !! a = None.

(** Between operations, or at the lock of a bucket that another thread holds. *)
Definition may_wait c : Prop :=
  match c with
  | Idle | MapRet _ _ _ | UnmapRet _ | GetRet _ _ => True
  | MapLock u _ | UnmapLock u => ∃ j, j ≠ i ∧ holds (pcs s j) = Some (hash u)
  | _ => False
  end.

Definition kept (o : outcome (pc * table)) : Prop :=
  match o with
  | Done (c, T') => ∃ ch', inv (Sys T' (<[i := c]> (pcs s)) (st s)) ch'
  | Fault Blocked => may_wait (pcs s i)
  | Fault _ => False
  end.

Lemma works_on u x : work (pcs s i) = Some (u, x) → (x = Unmapping ∨ ∃ t, x = Mapping t) →
  st s u = x ∧ u ≠ ABT_UNIT_NULL ∧ ABTI_unit_is_builtin u = false.
Proof.
  intros Hw Hx. pose proof (v_work _ _ I i u x Hw) as Hu. split; [done|]. apply (v_legal _ _ I). destruct Hx as [->|(? & ->)]; congruence.
Qed.

Lemma quiet c T' :
  elems T' = elems (tab s) → lists T' = lists (tab s) → locks_ok (locks T') (<[i := c]> (pcs s)) →
  work c = work (pcs s i) → gets_unit c = gets_unit (pcs s i) → (∀ u t a, pcs s i ≠ MapPublish u t a) →
  (∀ u t, c = GetRet u t → st s u = Mapped t) → pc_ok (tab s) ch c → kept (Done (c, T')).
Proof. intros. exists ch. by apply inv_quiet. Qed.

Lemma quiet_same c :
  holds c = holds (pcs s i) → work c = work (pcs s i) → gets_unit c = gets_unit (pcs s i) →
  (∀ u t a, pcs s i ≠ MapPublish u t a) → (∀ u t, c = GetRet u t → st s u = Mapped t) → pc_ok (tab s) ch c → kept (Done (c, tab s)).
Proof. intros Hh. apply quiet; [done..|]. by apply locks_keep; [eapply inv_locks|]. Qed.

Lemma lock_keeps u c x :
  work (pcs s i) = Some (u, x) → holds (pcs s i) = None → holds c = Some (hash u) → work c = Some (u, x) → gets_unit c = None →
  gets_unit (pcs s i) = None → (∀ v t a, pcs s i ≠ MapPublish v t a) → pc_ok (tab s) ch c → (∀ j, j ≠ i → holds (pcs s j) = Some (hash u) → may_wait (pcs s i)) →
  kept (if locks (tab s) (hash u) then Fault Blocked else Done (c, set_lock (hash u) true (tab s))).
Proof.
  intros Hw Hh Hc Hwc Hg Hg' Hp Hok Hwait. destruct (locks (tab s) (hash u)) eqn:El.
  - apply (v_lock _ _ I) in El as (j & Hj). apply (Hwait j); [|done]. intros ->. congruence.
  - apply quiet; try done; [|congruence|congruence|by intros v t ->]. by apply locks_acquire; [eapply inv_locks|..].
Qed.

Lemma ahead_start u : present (tab s) ch u → ahead (tab s) ch u (lists (tab s) (hash u)).
Proof. intros (a & e & Ha & He & Hu). exists (ch (hash u)), a, e. split_and!; try done. apply I. Qed.

(** Who walks sees the element, or goes past another one. *)
Lemma ahead_step u p : ahead (tab s) ch u p →
  ∃ a e, p = Some a ∧ elems (tab s) !! a = Some e ∧ a ∈ ch (hash u) ∧ (e_unit e = u ∨ ahead (tab s) ch u (e_next e)).
Proof.
  intros (l & a & e & Hl & Hin & Ha & He & Hu). destruct l as [|a0 l]; [set_solver|]. destruct Hl as (-> & e0 & He0 & Hl).
  exists a0, e0. split_and!; [done|done|by apply Hin; left|]. apply elem_of_cons in Ha as [->|Ha].
  - left. congruence.
  - right. exists l, a, e. split_and!; try done. intros a' Ha'. apply Hin. by right.
Qed.

Lemma map_keeps c u t :
  pcs s i = c → work c = Some (u, Mapping t) → (∀ ok, c ≠ MapRet u t ok) → kept (advance new c (tab s)).
Proof.
  intros Hi Hw Hret. pose proof (v_pc _ _ I i) as Hok. rewrite Hi in Hok.
  destruct (works_on u (Mapping t)) as (Hst & Hu0 & Hbu); [by rewrite Hi|eauto|].
  assert (∀ b a, a ∈ ch b → ∃ e, elems (tab s) !! a = Some e) as Hel by (intros b a; by apply (chain_elem s ch I)).
  destruct c; cbn in Hw; try done; injection Hw as -> ->; cbn in Hok; act.
  - rewrite Hbu. cbn [negb]. pose proof (lock_keeps u (MapHead u t) (Mapping t)) as H. destruct (locks (tab s) (hash u));
      apply H; rewrite ?Hi; try done; intros j Hj Hh; exists j; auto.
  - destruct (lists (tab s) (hash u)) as [a|] eqn:El; apply quiet_same; rewrite ?Hi; try done. cbn. split; [done|].
    pose proof (v_chain _ _ I (hash u)) as Hl. rewrite El in Hl. destruct (ch (hash u)); [done|]. destruct Hl as ([= ->] & _). by left.
  - destruct Hok as [Habs Ha]. destruct (Hel _ _ Ha) as (e & He). rewrite He. destruct (e_unit e =? ABT_UNIT_NULL) eqn:E;
      apply quiet_same; rewrite ?Hi; try done. cbn. apply Z.eqb_eq in E. eauto.
  - destruct Hok as [Habs Ha]. destruct (Hel _ _ Ha) as (e & He). rewrite He. destruct (e_next e) as [a'|] eqn:En;
      apply quiet_same; rewrite ?Hi; try done. cbn. split; [done|].
    destruct (is_list_from _ _ _ _ _ (v_chain _ _ I (hash u)) Ha He) as (l & Hl & Hin). rewrite En in Hl.
    destruct l as [|a0 l]; [done|]. destruct Hl as ([= ->] & _). apply Hin. by left.
  - destruct Hok as (Habs & Ha & e & He & E0). rewrite He. exists ch.
    apply (inv_one s ch I i u (Mapping t) ltac:(by rewrite Hi) a e (UnitToThread u (e_thread e) (e_next e)) Ha He eq_refl ltac:(by rewrite Hi)
             (or_introl E0) (or_intror eq_refl) (MapSetThread u t a)); rewrite ?Hi; try done; [|congruence|eauto].
    eexists. split; [done|]. cbn. by rewrite lookup_insert_eq.
  - destruct Hok as (e & Ha & He & Eu). rewrite He. exists ch.
    apply (inv_one s ch I i u (Mapping t) ltac:(by rewrite Hi) a e (UnitToThread (e_unit e) t (e_next e)) Ha He eq_refl ltac:(by rewrite Hi)
             (or_intror Eu) (or_intror Eu) (MapUnlock u t true)); rewrite ?Hi; try done; [|congruence|congruence|eauto].
    cbn. eexists _, _. split; [split; [done|]; split; [cbn; by rewrite lookup_insert_eq|done]|done].
  - apply quiet_same; rewrite ?Hi; try done.
  - destruct Hok as [Habs ->]. destruct new as [a|].
    + exists ch. eapply inv_new; eauto.
    + apply quiet_same; rewrite ?Hi; try done.
  - eexists. by apply inv_publish.
  - apply quiet; rewrite ?Hi; try done. apply locks_release; [by eapply inv_locks|by rewrite Hi|done].
  - by destruct (Hret ok).
Qed.

Lemma unmap_keeps c u :
  pcs s i = c → work c = Some (u, Unmapping) → c ≠ UnmapRet u → kept (advance new c (tab s)).
Proof.
  intros Hi Hw Hret. pose proof (v_pc _ _ I i) as Hok. rewrite Hi in Hok.
  destruct (works_on u Unmapping) as (Hst & Hu0 & Hbu); [by rewrite Hi|by left|].
  destruct c as [| | | | | | | | | | | |v|v|v p|v a|v a|v|v| | | | |]; cbn in Hw; try done; injection Hw as ->; cbn in Hok; act.
  - rewrite Hbu. cbn [negb]. pose proof (lock_keeps u (UnmapHead u) Unmapping) as H. destruct (locks (tab s) (hash u));
      apply H; rewrite ?Hi; try done; intros j Hj Hh; exists j; auto.
  - apply quiet_same; rewrite ?Hi; try done. by apply ahead_start.
  - destruct (ahead_step u p Hok) as (a & e & -> & He & Ha & Hor). rewrite He. destruct (e_unit e =? u) eqn:E; [apply Z.eqb_eq in E|apply Z.eqb_neq in E];
      apply quiet_same; rewrite ?Hi; try done; cbn.
    + exists e. by split_and!.
    + exists e. naive_solver.
  - destruct Hok as (e & Ha & He & Hah). rewrite He. destruct (ahead_step u _ Hah) as (a' & _ & E & _). rewrite E in *.
    rewrite bool_decide_eq_true_2 by eauto. apply quiet_same; rewrite ?Hi; done.
  - destruct Hok as (e & Ha & He & Eu). rewrite He. exists ch.
    apply (inv_one s ch I i u Unmapping ltac:(by rewrite Hi) a e (UnitToThread ABT_UNIT_NULL (e_thread e) (e_next e)) Ha He eq_refl
             ltac:(by rewrite Hi) (or_intror Eu) (or_introl eq_refl) (UnmapUnlock u)); rewrite ?Hi; try done; [|by left].
    intros a' e' (Ha' & He' & Eu'). cbn in He'. destruct (decide (a' = a)) as [->|Hne].
    + rewrite lookup_insert_eq in He'. injection He' as <-. cbn in Eu'. by subst u.
    + rewrite lookup_insert_ne in He' by done. apply Hne. by eapply (v_uniq _ _ I u); [split_and!|split_and!|].
  - apply quiet; rewrite ?Hi; try done. apply locks_release; [by eapply inv_locks|by rewrite Hi|done].
  - by destruct Hret.
Qed.

Lemma get_keeps c u :
  pcs s i = c → gets_unit c = Some u → (∀ t, c ≠ GetRet u t) → kept (advance new c (tab s)).
Proof.
  intros Hi Hg Hret. pose proof (v_pc _ _ I i) as Hok. rewrite Hi in Hok.
  destruct (v_get _ _ I i u) as (t & Hst); [by rewrite Hi|].
  assert (ABTI_unit_is_builtin u = false) as Hbu by (apply (v_legal _ _ I); congruence).
  destruct c as [| | | | | | | | | | | | | | | | | | |v|v p|v a|v a|v t']; cbn in Hg; try done; injection Hg as ->; cbn in Hok; act.
  - rewrite Hbu. cbn [negb]. apply quiet_same; rewrite ?Hi; try done. apply ahead_start. by eapply (v_mapped _ _ I).
  - destruct (ahead_step u p Hok) as (a & e & -> & He & Ha & Hor). rewrite He. destruct (e_unit e =? u) eqn:E; [apply Z.eqb_eq in E|apply Z.eqb_neq in E];
      apply quiet_same; rewrite ?Hi; try done; cbn.
    + exists e. by split_and!.
    + exists e. naive_solver.
  - destruct Hok as (e & Ha & He & Hah). rewrite He. apply quiet_same; rewrite ?Hi; done.
  - destruct Hok as (e & Ha & He & Eu). rewrite He. apply quiet_same; rewrite ?Hi; try done. intros v t' [= <- <-].
    destruct (v_used _ _ I _ _ _ Ha He) as (_ & _ & Ht); [rewrite Eu; apply (v_legal _ _ I); congruence|]. rewrite Eu in Ht.
    rewrite Hst. f_equal. symmetry. by apply Ht.
  - by destruct (Hret t').
Qed.

Lemma advance_keeps : kept (advance new (pcs s i) (tab s)).
Proof.
  destruct (pcs s i) eqn:Hi; try (by eapply map_keeps); try (by eapply unmap_keeps); try (by eapply get_keeps); act; unfold kept; by rewrite Hi.
Qed.

End access.

(** ** Clients *)

Section client.
Context (s : sys) (ch : Z → list addr) (I : inv s ch) (i : agent).

(** The table stays, the thread [i] starts or ends an operation. *)
Lemma inv_client c (z : Z → status) :
  (∀ u t a, pcs s i ≠ MapPublish u t a) → holds c = holds (pcs s i) → (∀ u t, c ≠ GetRet u t) → pc_ok (tab s) ch c →
  work_ok (<[i := c]> (pcs s)) z →
  (∀ u, st s u ≠ z u → (∀ j, gets_unit (pcs s j) ≠ Some u) ∧
    (z u ≠ Free → u ≠ ABT_UNIT_NULL ∧ ABTI_unit_is_builtin u = false) ∧ (∀ t, z u = Mapped t → present (tab s) ch u) ∧
    (∀ a e, carries (tab s) ch u a e → z u ≠ Free ∧ ∀ t, z u = Mapped t → e_thread e = t)) →
  inv (Sys (tab s) (<[i := c]> (pcs s)) z) ch.
Proof.
  intros Hp Hh Hg Hc (H1 & H2 & H3 & H4) Hz. destruct (locks_keep _ _ i c (inv_locks s ch I) Hh) as (H5 & H6).
  assert (∀ u, st s u = z u ∨ st s u ≠ z u) as Hdec by (intros u; destruct (decide (st s u = z u)); auto).
  split; cbn; try done; try apply I.
  - intros a e Ha. destruct (v_elems _ _ I a e Ha) as [?|(j & u & t & Hj)]; [by left|right]. exists j, u, t.
    rewrite fn_lookup_insert_ne; [done|]. intros ->. by eapply Hp.
  - intros b a e Ha He Hnz. destruct (v_used _ _ I b a e Ha He Hnz) as (Hb & Hu). split; [done|].
    destruct (Hdec (e_unit e)) as [<-|Hne]; [done|]. apply Hz in Hne as (_ & _ & _ & Hne). apply (Hne a e). split_and!; [by rewrite Hb|done..].
  - intros u. destruct (Hdec u) as [<-|Hne]; [apply I|]. apply Hz in Hne. apply Hne.
  - intros u t. destruct (Hdec u) as [<-|Hne]; [apply I|]. apply Hz in Hne. apply Hne.
  - intros j u t. destruct (decide (j = i)) as [->|]; [rewrite fn_lookup_insert; intros ->; by destruct (Hg u t)|].
    rewrite fn_lookup_insert_ne by done. intros Hj. pose proof (v_got _ _ I j u t Hj) as Hst. destruct (Hdec u) as [<-|Hne]; [done|].
    apply Hz in Hne as (Hne & _). destruct (Hne j). by rewrite Hj.
  - intros j. destruct (decide (j = i)) as [->|]; [by rewrite fn_lookup_insert|]. rewrite fn_lookup_insert_ne by done. apply I.
Qed.

(** Only the status of [u] changes. *)
Lemma inv_client_at c u (x : status) :
  (∀ v t a, pcs s i ≠ MapPublish v t a) → holds c = holds (pcs s i) → (∀ v t, c ≠ GetRet v t) → pc_ok (tab s) ch c →
  work_ok (<[i := c]> (pcs s)) (<[u := x]> (st s)) → (∀ j, gets_unit (pcs s j) ≠ Some u) →
  (x ≠ Free → u ≠ ABT_UNIT_NULL ∧ ABTI_unit_is_builtin u = false) → (∀ t, x = Mapped t → present (tab s) ch u) →
  (∀ a e, carries (tab s) ch u a e → x ≠ Free ∧ ∀ t, x = Mapped t → e_thread e = t) →
  inv (Sys (tab s) (<[i := c]> (pcs s)) (<[u := x]> (st s))) ch.
Proof.
  intros. apply inv_client; try done. intros v. destruct (decide (v = u)) as [->|]; [by rewrite fn_lookup_insert|by rewrite fn_lookup_insert_ne].
Qed.

Lemma not_got u : (∀ t, st s u ≠ Mapped t) → ∀ j, gets_unit (pcs s j) ≠ Some u.
Proof. intros H j Hj. destruct (v_get _ _ I j u Hj) as (t & Ht). by destruct (H t). Qed.

Lemma not_worked u : (st s u = Free ∨ ∃ t, st s u = Mapped t) → ∀ j x, work (pcs s j) ≠ Some (u, x).
Proof.
  intros H j x Hj. pose proof (v_work _ _ I j u x Hj) as Hx. assert (x = Unmapping ∨ ∃ t, x = Mapping t) as Hk.
  { destruct (pcs s j); cbn in Hj; try done; injection Hj as _ <-; eauto. }
  destruct H as [?|(? & ?)], Hk as [->|(? & ->)]; congruence.
Qed.

Lemma free_absent u : u ≠ ABT_UNIT_NULL → st s u = Free → absent (tab s) ch u.
Proof. intros H0 Hu a e (Ha & He & Eu). destruct (v_used _ _ I _ a e Ha He) as (_ & Hn & _); [congruence|]. rewrite Eu in Hn. by destruct Hn. Qed.

Lemma map_starts u t : pcs s i = Idle → u ≠ ABT_UNIT_NULL → ABTI_unit_is_builtin u = false → st s u = Free →
  inv (Sys (tab s) (<[i := MapLock u t]> (pcs s)) (<[u := Mapping t]> (st s))) ch.
Proof.
  intros Hi H0 Hb Hu. pose proof (free_absent u H0 Hu) as Habs. assert (∀ j, gets_unit (pcs s j) ≠ Some u) as Hng by (apply not_got; congruence).
  apply inv_client_at; rewrite ?Hi; try done. eapply work_start; rewrite ?Hi; try done; [by eapply inv_works|]. apply not_worked. auto.
Qed.

Lemma unmap_starts u t : pcs s i = Idle → st s u = Mapped t → (∀ j, gets_unit (pcs s j) ≠ Some u) →
  inv (Sys (tab s) (<[i := UnmapLock u]> (pcs s)) (<[u := Unmapping]> (st s))) ch.
Proof.
  intros Hi Hu Hng. pose proof (v_mapped _ _ I u t Hu) as Hp. apply inv_client_at; rewrite ?Hi; try done.
  - eapply work_start; rewrite ?Hi; try done; [by eapply inv_works|]. apply not_worked. eauto.
  - intros _. apply (v_legal _ _ I). congruence.
Qed.

Lemma map_ends u t (ok : bool) : pcs s i = MapRet u t ok →
  inv (Sys (tab s) (<[i := Idle]> (pcs s)) (<[u := if ok then Mapped t else Free]> (st s))) ch.
Proof.
  intros Hi. pose proof (v_pc _ _ I i) as Hok. rewrite Hi in Hok. cbn in Hok. assert (st s u = Mapping t) as Hst by (apply (v_work _ _ I i); by rewrite Hi).
  assert (u ≠ ABT_UNIT_NULL ∧ ABTI_unit_is_builtin u = false) as Hl by (apply (v_legal _ _ I); congruence).
  apply inv_client_at; rewrite ?Hi; try done.
  - apply (work_end _ _ i u (Mapping t)); [by eapply inv_works|by rewrite Hi|by destruct ok..].
  - apply not_got. congruence.
  - intros t' E. destruct ok; [|done]. destruct Hok as (a & e & Hc & _). by exists a, e.
  - intros a e Hc. destruct ok; [|by destruct (Hok a e)]. split; [done|]. intros t' [= <-]. destruct Hok as (a' & e' & Hc' & <-).
    assert (a' = a) as -> by (eapply (v_uniq _ _ I u); [done..|apply Hl]). destruct Hc as (_ & H1 & _), Hc' as (_ & H2 & _). congruence.
Qed.

Lemma unmap_ends u : pcs s i = UnmapRet u → inv (Sys (tab s) (<[i := Idle]> (pcs s)) (<[u := Free]> (st s))) ch.
Proof.
  intros Hi. pose proof (v_pc _ _ I i) as Hok. rewrite Hi in Hok. cbn in Hok. assert (st s u = Unmapping) as Hst by (apply (v_work _ _ I i); by rewrite Hi).
  apply inv_client_at; rewrite ?Hi; try done.
  - apply (work_end _ _ i u Unmapping); [by eapply inv_works|by rewrite Hi|done..].
  - apply not_got. congruence.
  - intros a e Hc. by destruct (Hok a e).
Qed.

(** Looking up changes no status. *)
Lemma get_client c : pcs s i = Idle ∧ (∃ u t, c = GetHead u ∧ st s u = Mapped t) ∨ (∃ u t, pcs s i = GetRet u t ∧ c = Idle) →
  inv (Sys (tab s) (<[i := c]> (pcs s)) (st s)) ch.
Proof.
  intros H. assert (work c = None ∧ work (pcs s i) = None ∧ holds c = None ∧ holds (pcs s i) = None ∧ pc_ok (tab s) ch c ∧
    (∀ u, gets_unit c = Some u → ∃ t, st s u = Mapped t) ∧ (∀ u t, c ≠ GetRet u t) ∧ ∀ u t a, pcs s i ≠ MapPublish u t a) as (Hw & Hw' & Hh & Hh' & Hok & Hg & Hr & Hp).
  { destruct H as [(-> & u & t & -> & Ht)|(u & t & -> & ->)]; split_and!; try done. intros v [= <-]. eauto. }
  apply inv_client; try done; [congruence|]. destruct (inv_works s ch I) as (H1 & H2 & H3 & H4).
  assert (∀ j, work (<[i := c]> (pcs s) j) = work (pcs s j)) as Ew.
  { intros j. destruct (decide (j = i)) as [->|]; [rewrite fn_lookup_insert; congruence|by rewrite fn_lookup_insert_ne]. }
  refine (conj _ (conj _ (conj _ _))).
  - intros j u x. rewrite Ew. apply H1.
  - intros j k u x y. rewrite !Ew. apply H2.
  - intros u Hu. setoid_rewrite Ew. by apply H3.
  - intros j u. destruct (decide (j = i)) as [->|]; [rewrite fn_lookup_insert; apply Hg|rewrite fn_lookup_insert_ne by done; apply H4].
Qed.

End client.

Lemma unit_inv_start : inv start (λ _, []).
Proof.
  split; cbn; try done.
  - intros b. apply NoDup_nil_2.
  - intros. set_solver.
  - intros u a a' e e' (H & _). cbn in H. set_solver.
  - intros b. split; [done|]. by intros (i & ?).
  - intros u [?|(t & ?)]; done.
Qed.

Lemma step_inv s s' ch : inv s ch → step s s' → ∃ ch', inv s' ch'.
Proof.
  intros I Hs. destruct Hs as [s i new c T' Hnew Hc|s i u t|s i u t ok|s i u t|s i u|s i u t|s i u t].
  - pose proof (advance_keeps s ch I i new Hnew) as H. by rewrite Hc in H.
  - exists ch. by apply map_starts.
  - exists ch. by apply map_ends.
  - exists ch. by eapply unmap_starts.
  - exists ch. by eapply unmap_ends.
  - exists ch. apply get_client; [done|]. left. eauto 10.
  - exists ch. apply get_client; [done|]. right. eauto.
Qed.

Lemma reachable_inv s : reachable s → ∃ ch, inv s ch.
Proof. induction 1 as [|s s' _ (ch & I) Hs]; [exists (λ _, []); apply unit_inv_start|by eapply step_inv]. Qed.

(** ** Lookups *)

(** Other threads never change where an element points to. *)
Lemma advance_next new c c' (T T' : table) :
  (∀ a, new = Some a → elems T !! a = None) → advance new c T = Done (c', T') →
  ∀ a e, elems T !! a = Some e → ∃ e', elems T' !! a = Some e' ∧ e_next e' = e_next e.
Proof.
  intros Hnew H a e Ha.
  assert (∀ (b : addr) e0 e1, elems T !! b = Some e0 → e_next e1 = e_next e0 → ∃ e', (<[b := e1]> (elems T)) !! a = Some e' ∧ e_next e' = e_next e) as Hset.
  { intros b e0 e1 Hb En. destruct (decide (a = b)) as [->|]; [rewrite lookup_insert_eq|rewrite lookup_insert_ne by done]; eexists; split; eauto. congruence. }
  destruct c as [| | | | | | | |v t h| | | | | |v []| | | | | |v []| | |]; revert H; act; repeat case_match; intros; simplify_eq; eauto; cbn; try (by eapply Hset).
  rewrite lookup_insert_ne; [eauto|]. intros ->. by rewrite Hnew in Ha.
Qed.

Lemma step_list s s' p l : step s s' → is_list (elems (tab s)) p l → is_list (elems (tab s')) p l.
Proof.
  intros Hs. destruct Hs; cbn; try done. apply is_list_same. intros a e _. by eapply advance_next.
Qed.

(** [looks i u k s s']: from [s] to [s'] any threads take steps, [k] of them are accesses of
    the lookup of [u] by [i], which has not been left. *)
Inductive looks i u : nat → sys → sys → Prop :=
  | looks_none s : looks i u 0 s s
  | looks_other k s s1 s' : looks i u k s s1 → step s1 s' → pcs s' i = pcs s1 i → looks i u k s s'
  | looks_own k s s1 s' new c T' :
      looks i u k s s1 → (∀ a, new = Some a → elems (tab s1) !! a = None) →
      advance new (pcs s1 i) (tab s1) = Done (c, T') → s' = Sys T' (<[i := c]> (pcs s1)) (st s1) → looks i u (S k) s s'.

(** [n] more accesses are enough. *)
Definition to_go (T : table) c (n : nat) : Prop :=
  match c with
  | GetUnit u p => ∃ l, is_list (elems T) p l ∧ (2 * length l ≤ n)%nat
  | GetNext u a => ∃ e l, elems T !! a = Some e ∧ is_list (elems T) (e_next e) l ∧ (2 * length l + 1 ≤ n)%nat
  | GetThread u a => (1 ≤ n)%nat
  | GetRet u t => True
  | _ => False
  end.

Lemma to_go_other s s' c n : step s s' → to_go (tab s) c n → to_go (tab s') c n.
Proof.
  intros Hs. destruct c; cbn; try done.
  - intros (l & ? & ?). exists l. split; [by eapply step_list|done].
  - intros (e & l & He & Hl & ?). destruct Hs; cbn; eauto. edestruct advance_next as (e' & He' & En); [done..|]. exists e', l. rewrite En.
    split_and!; [done| |done]. eapply is_list_same; [|done]. intros a' e0 _. by eapply advance_next.
Qed.

Lemma to_go_own new c c' (T T' : table) n :
  to_go T c n → advance new c T = Done (c', T') → gets_unit c = gets_unit c' ∧ ∃ m, n = S m ∧ to_go T' c' m.
Proof.
  destruct c as [| | | | | | | | | | | | | | | | | | |v|v p|v a|v a|v t]; try done; cbn [to_go].
  - intros (l & Hl & Hn). destruct p as [a|]; [|done]. destruct l as [|a0 l]; [done|]. destruct Hl as ([= <-] & e & He & Hl). cbn in Hn. act. rewrite He.
    intros [= <- <-]. destruct n as [|m]; [lia|]. case_match; split; try done; exists m; (split; [done|]); cbn; [lia|]. exists e, l. split_and!; try done. lia.
  - intros (e & l & He & Hl & Hn). act. rewrite He. intros [= <- <-]. destruct n as [|m]; [lia|]. split; [done|]. exists m. split; [done|]. exists l. split; [done|lia].
  - intros Hn. act. destruct (elems T !! a) as [e|]; [|done]. intros [= <- <-]. destruct n as [|m]; [lia|]. split; [done|]. by exists m.
Qed.

Lemma looks_left i u k s s' n :
  looks i u k s s' → reachable s → gets_unit (pcs s i) = Some u → to_go (tab s) (pcs s i) n →
  reachable s' ∧ gets_unit (pcs s' i) = Some u ∧ (k ≤ n)%nat ∧ to_go (tab s') (pcs s' i) (n - k).
Proof.
  intros H Hr Hg Hn. induction H as [s|k s s1 s' H IH Hs Ei|k s s1 s' new c T' H IH Hnew Ha ->].
  - rewrite Nat.sub_0_r. split_and!; auto with lia.
  - destruct IH as (Hr1 & Hg1 & Hk & Hgo); [done..|]. rewrite Ei. split_and!; try done; [by eapply reach_step|by eapply to_go_other].
  - destruct IH as (Hr1 & Hg1 & Hk & Hgo); [done..|]. destruct (to_go_own _ _ _ _ _ _ Hgo Ha) as (Eg & m & Em & Hm).
    assert (m = n - S k)%nat as -> by lia. cbn. rewrite fn_lookup_insert. split_and!; try done; [|congruence|lia].
    eapply reach_step; [done|by eapply step_advance].
Qed.

(** C38: A lookup takes no lock and is never held up: once it has read the head of a list of [n]
    elements it makes at most [2 n] more accesses, whatever the other threads map and unmap
    meanwhile; it can always make the next one, until it has the thread its unit is mapped to. *)
Theorem unit_lookup_wait_free s i u p :
  reachable s → pcs s i = GetUnit u p →
  ∃ l, is_list (elems (tab s)) p l ∧ ∀ k s', looks i u k s s' →
    (k ≤ 2 * length l)%nat ∧
    ((∃ t, pcs s' i = GetRet u t ∧ st s' u = Mapped t) ∨
     ∀ new, (∀ a, new = Some a → elems (tab s') !! a = None) → ∃ c T', advance new (pcs s' i) (tab s') = Done (c, T')).
Proof.
  intros Hr Hi. destruct (reachable_inv s Hr) as (ch & I). pose proof (v_pc _ _ I i) as Hok. rewrite Hi in Hok.
  destruct Hok as (l & _ & _ & Hl & _). exists l. split; [done|]. intros k s' Hk.
  destruct (looks_left i u k s s' (2 * length l) Hk Hr) as (Hr' & Hg' & Hle & _); [by rewrite Hi|rewrite Hi; by exists l|]. split; [done|].
  destruct (reachable_inv s' Hr') as (ch' & I'). assert ((∃ t, pcs s' i = GetRet u t) ∨ ∀ t, pcs s' i ≠ GetRet u t) as [(t & Ht)|Hno].
  { destruct (pcs s' i); cbn in Hg'; try (by right). injection Hg' as ->. eauto. }
  - left. exists t. split; [done|]. by eapply (v_got _ _ I').
  - right. intros new Hnew. pose proof (advance_keeps s' ch' I' i new Hnew) as H. destruct (advance _ _ _) as [[c T']|[]]; eauto; try done.
    cbn in H. destruct (pcs s' i) eqn:E; cbn in Hg', H; try done. injection Hg' as ->. by destruct (Hno t).
Qed.

(** C31: Under every interleaving of mapping, unmapping and looking up: no access follows a null
    or freed pointer, no assertion fails, no lookup misses its unit; a thread waits only between operations or
    at the lock of a bucket that another thread holds; and a lookup returns the thread its unit is mapped to. *)
Theorem unit_table_safe s i :
  reachable s →
  (∀ new, (∀ a, new = Some a → elems (tab s) !! a = None) →
     match advance new (pcs s i) (tab s) with Done _ => True | Fault Blocked => may_wait s i (pcs s i) | Fault _ => False end) ∧
  (∀ u t, pcs s i = GetRet u t → st s u = Mapped t).
Proof.
  intros Hr. destruct (reachable_inv s Hr) as (ch & I). split; [|apply I]. intros new Hnew.
  pose proof (advance_keeps s ch I i new Hnew) as H. by destruct (advance _ _ _) as [[]|[]].
Qed.

(** ** Freeing the table *)

Lemma hash_range u : 0 ≤ hash u < ABTI_UNIT_HASH_TABLE_SIZE.
Proof.
  unfold unit_get_hash_index. cbv zeta. change (ABTI_UNIT_HASH_TABLE_SIZE - 1) with (Z.ones 8). rewrite Z.land_ones by lia.
  apply Z.mod_pos_bound. reflexivity.
Qed.

Lemma lists_range s b : reachable s → is_Some (lists (tab s) b) → 0 ≤ b < ABTI_UNIT_HASH_TABLE_SIZE.
Proof.
  induction 1 as [|s s' _ IH Hs]; [by intros []|]. destruct Hs as [s i new c T' _ Hc|s i u t|s i u t ok|s i u t|s i u|s i u t|s i u t]; try exact IH.
  cbn. intros Hb. assert (is_Some (lists (tab s) b) ∨ ∃ u, b = hash u) as [?|(u & ->)]; [|by apply IH|apply hash_range].
  revert Hc Hb. destruct (pcs s i) as [| | | | | | | | |v t a| | | | |v []| | | | | |v []| | |]; act; repeat case_match; intros; simplify_eq; auto.
  cbn in Hb. destruct (decide (b = hash v)) as [->|]; [eauto|rewrite fn_lookup_insert_ne in Hb by done; auto].
Qed.

Lemma free_list_done (T : table) p l fuel :
  is_list (elems T) p l → NoDup l → (∀ a e, a ∈ l → elems T !! a = Some e → e_unit e = ABT_UNIT_NULL) → (length l ≤ fuel)%nat →
  ∃ E, free_list fuel p T = Done ((), Table E (lists T) (locks T)) ∧ ∀ a, E !! a = if decide (a ∈ l) then None else elems T !! a.
Proof.
  revert T p fuel. induction l as [|a l IH]; intros T p fuel.
  - intros -> _ _ _. exists (elems T). destruct T. by destruct fuel.
  - intros (-> & e & He & Hl) [Hn Hd]%NoDup_cons H0 Hf. destruct fuel as [|fuel]; [cbn in Hf; lia|].
    destruct (IH (set_elems (delete a (elems T)) T) (e_next e) fuel) as (E & HE & HEa).
    + eapply is_list_same; [|done]. intros a' e' Ha' He'. exists e'. split; [|done]. cbn. rewrite lookup_delete_ne; [done|]. by intros ->.
    + done.
    + cbn. intros a' e' Ha'. rewrite lookup_delete_ne by (by intros ->). apply H0. by right.
    + cbn in Hf. lia.
    + exists E. split.
      * cbn [free_list]. act. rewrite He. rewrite (H0 a e) by (done || by left). exact HE.
      * intros a'. rewrite HEa. cbn. destruct (decide (a' ∈ l)), (decide (a' ∈ a :: l)) as [Hin|Hin]; try done; [destruct Hin; by right| |].
        -- apply elem_of_cons in Hin as [->|]; [apply lookup_delete_eq|done].
        -- apply lookup_delete_ne. intros ->. destruct Hin. by left.
Qed.

Lemma finalize_done ch fuel (n : nat) b (T : table) :
  (∀ b', b ≤ b' < b + Z.of_nat n → is_list (elems T) (lists T b') (ch b')) → (∀ b', NoDup (ch b')) →
  (∀ b1 b2 a, a ∈ ch b1 → a ∈ ch b2 → b1 = b2) → (∀ b' a e, a ∈ ch b' → elems T !! a = Some e → e_unit e = ABT_UNIT_NULL) →
  (∀ b', locks T b' = false) → (∀ b', (length (ch b') ≤ fuel)%nat) →
  ∃ E, finalize_from fuel n b T = Done ((), Table E (lists T) (locks T)) ∧
    ∀ a, (E !! a = elems T !! a ∨ E !! a = None) ∧ ∀ b', b ≤ b' < b + Z.of_nat n → a ∈ ch b' → E !! a = None.
Proof.
  intros Hch Hnd Hdj H0 Hlk Hf. revert b T Hch H0 Hlk. induction n as [|n IH]; intros b T Hch H0 Hlk.
  - exists (elems T). split; [by destruct T|]. intros a. split; [by left|lia].
  - destruct (free_list_done T (lists T b) (ch b) fuel) as (E1 & HE1 & HEa); [apply Hch; lia|eauto..|].
    assert (∀ a, E1 !! a = elems T !! a ∨ E1 !! a = None) as Hsub by (intros a; rewrite HEa; case_decide; auto).
    destruct (IH (b + 1) (Table E1 (lists T) (locks T))) as (E & HE & Hall); cbn.
    + intros b' Hb'. eapply is_list_same; [|apply Hch; lia]. intros a e Ha He. exists e. split; [|done]. rewrite HEa.
      destruct (decide (a ∈ ch b)); [|done]. assert (b' = b) by (by eapply Hdj). lia.
    + intros b' a e Ha He. destruct (Hsub a) as [E2|E2]; rewrite E2 in He; [eauto|done].
    + done.
    + exists E. split.
      * cbn [finalize_from]. unfold finalize_bucket. act. rewrite Hlk. cbn [negb]. rewrite HE1. exact HE.
      * intros a. destruct (Hall a) as [Ha Hb]. cbn in Ha. split; [destruct Ha as [->|]; auto|]. intros b' Hb' Hin.
        destruct (decide (b' = b)) as [->|]; [|apply (Hb b'); [lia|done]]. destruct Ha as [->|]; [|done]. rewrite HEa. by rewrite decide_True.
Qed.

(** When every unit has been unmapped and no operation is under way, the table can be freed: the assertions
    hold (no lock is taken, every element is empty) and no element is left behind. *)
Theorem unit_finalize_frees_all s :
  reachable s → (∀ i, pcs s i = Idle) → (∀ u, st s u = Free) →
  ∃ T', unit_finalize_hash_table (size (elems (tab s))) (tab s) = Done ((), T') ∧ elems T' = ∅.
Proof.
  intros Hr Hidle Hfree. destruct (reachable_inv s Hr) as (ch & I).
  destruct (finalize_done ch (size (elems (tab s))) (Z.to_nat ABTI_UNIT_HASH_TABLE_SIZE) 0 (tab s)) as (E & HE & Hall).
  - intros b _. apply I.
  - apply I.
  - intros b1 b2 a. apply I.
  - intros b a e Ha He. destruct (decide (e_unit e = ABT_UNIT_NULL)); [done|]. destruct (v_used _ _ I b a e Ha He) as (_ & Hn & _); [done|]. by rewrite Hfree in Hn.
  - intros b. destruct (locks (tab s) b) eqn:El; [|done]. apply (v_lock _ _ I) in El as (i & Hi). by rewrite Hidle in Hi.
  - intros b. rewrite <- (size_dom (elems (tab s))), <- (size_list_to_set (C := gset addr)) by apply I. apply subseteq_size. intros a Ha%elem_of_list_to_set.
    apply elem_of_dom. by eapply chain_elem.
  - eexists. split; [exact HE|]. cbn. apply map_eq. intros a. rewrite lookup_empty. destruct (Hall a) as [[Ha|Ha] Hb]; [|done].
    destruct (E !! a) as [e|] eqn:Ee; [|done]. symmetry in Ha. destruct (v_elems _ _ I a e Ha) as [(b & Hin)|(i & u & t & Hi)]; [|by rewrite Hidle in Hi].
    apply (Hb b); [|done]. change (Z.of_nat (Z.to_nat ABTI_UNIT_HASH_TABLE_SIZE)) with ABTI_UNIT_HASH_TABLE_SIZE. rewrite Z.add_0_l.
    apply (lists_range s b Hr). pose proof (v_chain _ _ I b) as Hl. destruct (ch b); [by apply not_elem_of_nil in Hin|]. destruct Hl as (-> & _). eauto.
Qed.

(** ** A run *)

(** The next access of [i], with new memory at [a] if it is free. *)
Definition adv i a s : sys :=
  match advance (match elems (tab s) !! a with None => Some a | Some _ => None end) (pcs s i) (tab s) with
  | Done (c, T') => Sys T' (<[i := c]> (pcs s)) (st s)
  | Fault _ => s
  end.

Lemma adv_reachable i a s n : reachable s → reachable (Nat.iter n (adv i a) s).
Proof.
  intros Hr. induction n as [|n IH]; [done|]. cbn. unfold adv at 1. destruct (advance _ _ _) as [[c T']|] eqn:E; [|done].
  eapply reach_step; [exact IH|]. eapply step_advance; [|exact E]. intros a' H. case_match; [done|]. by injection H as <-.
Qed.

(** Thread 0 maps unit 16 to thread 100; thread 1 looks it up; thread 0 unmaps it. *)
Definition run1 : sys := Nat.iter 6 (adv 0 7) (Sys unit_init_hash_table (<[0%nat := MapLock 16 100]> (λ _, Idle)) (<[16 := Mapping 100]> (λ _, Free))).
Definition run2 : sys := Sys (tab run1) (<[0%nat := Idle]> (pcs run1)) (<[16 := Mapped 100]> (st run1)).
Definition run3 : sys := Nat.iter 1 (adv 1 8) (Sys (tab run2) (<[1%nat := GetHead 16]> (pcs run2)) (st run2)).
Definition run4 : sys := Nat.iter 2 (adv 1 8) run3.
Definition run5 : sys := Nat.iter 5 (adv 0 8) (Sys (tab run2) (<[0%nat := UnmapLock 16]> (pcs run2)) (<[16 := Unmapping]> (st run2))).
Definition run6 : sys := Sys (tab run5) (<[0%nat := Idle]> (pcs run5)) (<[16 := Free]> (st run5)).

Lemma run2_reachable : reachable run2.
Proof.
  eapply reach_step; [|apply (step_mapped run1 0 16 100 true); vm_compute; reflexivity].
  apply adv_reachable. eapply reach_step; [apply reach_start|]. by apply (step_map start 0 16 100).
Qed.

Lemma run3_reachable : reachable run3.
Proof.
  apply adv_reachable. eapply reach_step; [apply run2_reachable|]. apply (step_get run2 1 16 100); vm_compute; reflexivity.
Qed.

Lemma unmap_run s i u t :
  reachable s → pcs s i = Idle → st s u = Mapped t → (∀ j, gets_unit (pcs s j) ≠ Some u) →
  reachable (Sys (tab s) (<[i := UnmapLock u]> (pcs s)) (<[u := Unmapping]> (st s))).
Proof. intros Hr ???. eapply reach_step; [exact Hr|]. by eapply step_unmap. Qed.

Lemma run6_reachable : reachable run6.
Proof.
  eapply reach_step; [|apply (step_unmapped run5 0 16); vm_compute; reflexivity].
  apply adv_reachable. apply (unmap_run run2 0 16 100); [apply run2_reachable|vm_compute; reflexivity..|].
  intros [|j]; vm_compute; discriminate.
Qed.

Lemma unit_table_safe_witness : reachable run4 ∧ pcs run4 1%nat = GetRet 16 100 ∧ st run4 16 = Mapped 100.
Proof.
  assert (reachable run4) as Hr by (apply adv_reachable, run3_reachable). assert (pcs run4 1%nat = GetRet 16 100) as Hp by (vm_compute; reflexivity).
  split; [exact Hr|]. split; [exact Hp|]. apply (proj2 (unit_table_safe run4 1 Hr) 16 100 Hp).
Defined.

Lemma unit_lookup_wait_free_witness :
  reachable run3 ∧ pcs run3 1%nat = GetUnit 16 (Some 7%nat) ∧
  ∃ l, is_list (elems (tab run3)) (Some 7%nat) l ∧ ∀ k s', looks 1 16 k run3 s' → (k ≤ 2 * length l)%nat.
Proof.
  assert (pcs run3 1%nat = GetUnit 16 (Some 7%nat)) as Hp by (vm_compute; reflexivity). split; [apply run3_reachable|]. split; [exact Hp|].
  destruct (unit_lookup_wait_free run3 1 16 (Some 7%nat) run3_reachable Hp) as (l & Hl & H). exists l. split; [exact Hl|]. intros k s' Hk. apply (H k s' Hk).
Defined.

Lemma unit_finalize_frees_all_witness :
  reachable run6 ∧ size (elems (tab run6)) = 1%nat ∧
  ∃ T', unit_finalize_hash_table (size (elems (tab run6))) (tab run6) = Done ((), T') ∧ elems T' = ∅.
Proof.
  split; [apply run6_reachable|]. split; [vm_compute; reflexivity|]. apply (unit_finalize_frees_all run6 run6_reachable).
  - intros [|j]; vm_compute; reflexivity.
  - intros u. cbn [st run6]. destruct (decide (u = 16)) as [->|Hu]; [apply fn_lookup_insert|]. rewrite fn_lookup_insert_ne by done.
    transitivity (<[16 := Unmapping]> (st run2) u); [vm_compute; reflexivity|]. rewrite fn_lookup_insert_ne by done.
    transitivity (<[16 := Mapped 100]> (st run1) u); [vm_compute; reflexivity|]. rewrite fn_lookup_insert_ne by done.
    transitivity ((<[16 := Mapping 100]> (λ _, Free) : Z → status) u); [vm_compute; reflexivity|]. by rewrite fn_lookup_insert_ne by done.
Defined.
