(* ===== verification/UnitPool.v ===== *)
(** * Work units and the pools they belong to

    The rest of argobots/src/include/abti_unit.h and of unit.c: associating a work unit with a
    pool, which may need a new [ABT_unit] of a user-defined pool, and looking up the work
    unit of a [ABT_unit].  The hash table is used through its specification, a finite
    map from units to threads ([Unit] shows that lookups return what was mapped, provided
    that a unit is mapped when it is not, and looked up or unmapped when it is; here this is
    what the operations below are shown to respect).  The functions of a user-defined pool
    are a parameter: [new_unit] is what [p_create_unit] returns; the units that have been created and
    not been freed are recorded with their pool, and freeing anything else is undefined. *)

From stdpp Require Import functions base tactics decidable option list numbers gmap fin_maps sets.
From Stdlib Require Import ZArith Lia.
From S2P Require Import Prelude Abt Unit.
Open Scope Z_scope.

(** The fields of [ABTI_thread] that are concerned. *)
Record thread := Thread { th_prev : option Z; th_next : option Z; is_in_pool : Z; unit : Z; p_pool : option Z }.

Record world := World {
  threads : gmap Z thread;
  is_builtin : Z → bool;       (* of the pools *)
  mapped : gmap Z Z;           (* the hash table *)
  created : gmap Z Z           (* units of user-defined pools, with their pool *)
}.

(** What the pool and the memory allocator do in a call. *)
Record env := Env { new_unit : Z; malloc : Z }.

Abbreviation M := (C world).

Definition set_threads v w := World v (is_builtin w) (mapped w) (created w).
Definition set_mapped v w := World (threads w) (is_builtin w) v (created w).
Definition set_created v w := World (threads w) (is_builtin w) (mapped w) v.

Definition load {A} (f : thread → A) (p_thread : Z) : M A := λ w,
  match threads w !! p_thread with Some t => Done (f t, w) | None => Fault UB end.
Definition store (f : thread → thread) (p_thread : Z) : M Datatypes.unit := λ w,
  match threads w !! p_thread with Some t => Done ((), set_threads (<[p_thread := f t]> (threads w)) w) | None => Fault UB end.
Definition set_unit v (t : thread) := Thread (th_prev t) (th_next t) (is_in_pool t) v (p_pool t).
Definition set_pool v (t : thread) := Thread (th_prev t) (th_next t) (is_in_pool t) (unit t) v.

Definition pool_is_builtin (p : Z) : M bool := gets (λ w, is_builtin w p).

(** ** The table and the pools *)

(** A unit that is in the table already would get a second element, which the
    specification by a finite map does not cover; the model treats it as undefined, so that the
    theorems below also say that it does not happen. *)
Definition ABTI_unit_map_thread (e : env) (u p_thread : Z) : M Z :=
  c_assert (negb (ABTI_unit_is_builtin u));;
  if negb (malloc e =? ABT_SUCCESS) then mret (malloc e) else
  m ← gets (λ w, mapped w !! u);
  match m with
  | Some _ => throw UB
  | None => modify (λ w, set_mapped (<[u := p_thread]> (mapped w)) w);; mret ABT_SUCCESS
  end.

Definition ABTI_unit_unmap_thread (u : Z) : M Datatypes.unit :=
  c_assert (negb (ABTI_unit_is_builtin u));;
  m ← gets (λ w, mapped w !! u);
  match m with Some _ => modify (λ w, set_mapped (delete u (mapped w)) w) | None => throw UB end.

Definition ABTI_unit_get_thread_from_user_defined_unit (u : Z) : M Z :=
  c_assert (negb (ABTI_unit_is_builtin u));;
  m ← gets (λ w, mapped w !! u);
  match m with Some t => mret t | None => throw AssertFailed end.

Definition p_create_unit (e : env) (pool : Z) : M Z := λ w,
  Done (new_unit e, if new_unit e =? ABT_UNIT_NULL then w else set_created (<[new_unit e := pool]> (created w)) w).

Definition p_free_unit (pool : option Z) (u : Z) : M Datatypes.unit := λ w,
  if decide (is_Some pool ∧ created w !! u = pool) then Done ((), set_created (delete u (created w)) w) else Fault UB.

(** ** The operations *)

Definition ABTI_unit_init_builtin (p_thread : Z) : M Datatypes.unit :=
  store (λ t, Thread None (th_next t) (is_in_pool t) (unit t) (p_pool t)) p_thread;;
  store (λ t, Thread (th_prev t) None (is_in_pool t) (unit t) (p_pool t)) p_thread;;
  store (λ t, Thread (th_prev t) (th_next t) 0 (unit t) (p_pool t)) p_thread;;
  u ← ABTI_unit_get_builtin_unit p_thread;
  store (set_unit u) p_thread.

Definition ABTI_unit_get_thread (u : Z) : M Z :=
  if ABTI_unit_is_builtin u then ABTI_unit_get_thread_from_builtin_unit u
  else ABTI_unit_get_thread_from_user_defined_unit u.

(** The part that the three functions below have in common in the source: a unit of the
    user-defined pool [p] for a thread, mapped, or an error and nothing done. *)
Definition new_mapped_unit (e : env) (p_thread p : Z) : M (Z + Z) :=
  u ← p_create_unit e p;
  if u =? ABT_UNIT_NULL then mret (inl ABT_ERR_OTHER) else
  ret ← ABTI_unit_map_thread e u p_thread;
  if negb (ret =? ABT_SUCCESS) then p_free_unit (Some p) u;; mret (inl ret) else mret (inr u).

Definition ABTI_unit_set_associated_pool (e : env) (u p : Z) : M (Z * option Z) :=
  builtin ← pool_is_builtin p;
  if ABTI_unit_is_builtin u then
    p_thread ← ABTI_unit_get_thread_from_builtin_unit u;
    if (builtin : bool) then store (set_pool (Some p)) p_thread;; mret (ABT_SUCCESS, Some p_thread)
    else
      r ← new_mapped_unit e p_thread p;
      match r with
      | inl ret => mret (ret, None)
      | inr new_unit => store (set_unit new_unit) p_thread;; store (set_pool (Some p)) p_thread;; mret (ABT_SUCCESS, Some p_thread)
      end
  else
    p_thread ← ABTI_unit_get_thread_from_user_defined_unit u;
    if (builtin : bool) then
      ABTI_unit_unmap_thread u;;
      old_pool ← load p_pool p_thread;
      p_free_unit old_pool u;;
      ABTI_unit_init_builtin p_thread;;
      store (set_pool (Some p)) p_thread;; mret (ABT_SUCCESS, Some p_thread)
    else
      cur ← load p_pool p_thread;
      if bool_decide (cur = Some p) then mret (ABT_SUCCESS, Some p_thread)
      else
        r ← new_mapped_unit e p_thread p;
        match r with
        | inl ret => mret (ret, None)
        | inr new_unit =>
            ABTI_unit_unmap_thread u;;
            old_pool ← load p_pool p_thread;
            p_free_unit old_pool u;;
            store (set_unit new_unit) p_thread;; store (set_pool (Some p)) p_thread;; mret (ABT_SUCCESS, Some p_thread)
        end.

Definition ABTI_thread_init_pool (e : env) (p_thread p : Z) : M Z :=
  builtin ← pool_is_builtin p;
  if (builtin : bool) then ABTI_unit_init_builtin p_thread;; store (set_pool (Some p)) p_thread;; mret ABT_SUCCESS
  else
    r ← new_mapped_unit e p_thread p;
    match r with
    | inl ret => mret ret
    | inr new_unit => store (set_unit new_unit) p_thread;; store (set_pool (Some p)) p_thread;; mret ABT_SUCCESS
    end.

Definition ABTI_thread_set_associated_pool (e : env) (p_thread p : Z) : M Z :=
  u ← load unit p_thread;
  builtin ← pool_is_builtin p;
  if ABTI_unit_is_builtin u && (builtin : bool) then store (set_pool (Some p)) p_thread;; mret ABT_SUCCESS
  else if ABTI_unit_is_builtin u then
    r ← new_mapped_unit e p_thread p;
    match r with
    | inl ret => mret ret
    | inr new_unit => store (set_unit new_unit) p_thread;; store (set_pool (Some p)) p_thread;; mret ABT_SUCCESS
    end
  else if builtin then
    ABTI_unit_unmap_thread u;;
    old_pool ← load p_pool p_thread;
    p_free_unit old_pool u;;
    ABTI_unit_init_builtin p_thread;;
    store (set_pool (Some p)) p_thread;; mret ABT_SUCCESS
  else
    cur ← load p_pool p_thread;
    if bool_decide (cur = Some p) then mret ABT_SUCCESS
    else
      r ← new_mapped_unit e p_thread p;
      match r with
      | inl ret => mret ret
      | inr new_unit =>
          ABTI_unit_unmap_thread u;;
          old_pool ← load p_pool p_thread;
          p_free_unit old_pool u;;
          store (set_unit new_unit) p_thread;; store (set_pool (Some p)) p_thread;; mret ABT_SUCCESS
      end.

Definition ABTI_thread_unset_associated_pool (p_thread : Z) : M Datatypes.unit :=
  u ← load unit p_thread;
  (if negb (ABTI_unit_is_builtin u) then
     ABTI_unit_unmap_thread u;; old_pool ← load p_pool p_thread; p_free_unit old_pool u
   else mret ());;
  store (set_unit ABT_UNIT_NULL) p_thread;;
  store (set_pool None) p_thread.

(** *** The public functions *)

Definition ABT_unit_set_associated_pool (u : Z) (pool : option Z) : M Z :=
  match pool with
  | None => mret ABT_ERR_INV_POOL
  | Some _ => if negb (u =? ABT_UNIT_NULL) then mret ABT_SUCCESS else mret ABT_ERR_INV_UNIT
  end.

Definition ABT_unit_get_thread (u : Z) : M (Z * option Z) :=
  if negb (u =? ABT_UNIT_NULL) then t ← ABTI_unit_get_thread u; mret (ABT_SUCCESS, Some t)
  else mret (ABT_ERR_INV_UNIT, None).

Definition ABT_thread_set_associated_pool (e : env) (thread pool : option Z) : M Z :=
  match thread with
  | None => mret ABT_ERR_INV_THREAD
  | Some p_thread =>
      match pool with
      | None => mret ABT_ERR_INV_POOL
      | Some p => abt_errno ← ABTI_thread_set_associated_pool e p_thread p;
                  if negb (abt_errno =? ABT_SUCCESS) then mret abt_errno else mret ABT_SUCCESS
      end
  end.

Definition ABT_self_set_associated_pool (e : env) (p_self : option Z) (pool : option Z) : M Z :=
  match p_self with
  | None => mret ABT_ERR_INV_XSTREAM
  | Some p_thread =>
      match pool with
      | None => mret ABT_ERR_INV_POOL
      | Some p => abt_errno ← ABTI_thread_set_associated_pool e p_thread p;
                  if negb (abt_errno =? ABT_SUCCESS) then mret abt_errno else mret ABT_SUCCESS
      end
  end.

(** ** The invariant *)

Implicit Types (w : world) (t u p : Z) (th : thread) (e : env).

Definition assoc w t th : Prop :=
  match p_pool th with
  | None => unit th = ABT_UNIT_NULL
  | Some p => if is_builtin w p then unit th = Z.lor t ABTI_UNIT_BUILTIN_POOL_BIT
              else mapped w !! unit th = Some t ∧ created w !! unit th = Some p
  end.

(** Of all threads, or of all but one that is being changed. *)
Record winv_but (x : option Z) w : Prop := {
  w_assoc : ∀ t th, threads w !! t = Some th → Some t ≠ x → assoc w t th;
  w_aligned : ∀ t th, threads w !! t = Some th → Z.land t ABTI_UNIT_BUILTIN_POOL_BIT = 0;
  w_mapped : ∀ u t, mapped w !! u = Some t →
    u ≠ ABT_UNIT_NULL ∧ ABTI_unit_is_builtin u = false ∧ Some t ≠ x ∧ ∃ th, threads w !! t = Some th ∧ unit th = u;
  w_created : ∀ u p, created w !! u = Some p → is_Some (mapped w !! u)
}.
Abbreviation winv := (winv_but None).

(** What is documented of [p_create_unit]: an aligned address that is unique in the system, or NULL. *)
Definition env_ok e w : Prop :=
  new_unit e ≠ ABT_UNIT_NULL → ABTI_unit_is_builtin (new_unit e) = false ∧ created w !! new_unit e = None.

(** *** Built-in units *)

Lemma builtin_unit t : Z.land t ABTI_UNIT_BUILTIN_POOL_BIT = 0 →
  ABTI_unit_is_builtin (Z.lor t ABTI_UNIT_BUILTIN_POOL_BIT) = true ∧
  Z.land (Z.lor t ABTI_UNIT_BUILTIN_POOL_BIT) (Z.lnot ABTI_UNIT_BUILTIN_POOL_BIT) = t.
Proof.
  intros Ht. split.
  - unfold ABTI_unit_is_builtin. rewrite Z.land_lor_distr_l, Ht. reflexivity.
  - rewrite Z.land_lor_distr_l. change (Z.land ABTI_UNIT_BUILTIN_POOL_BIT (Z.lnot ABTI_UNIT_BUILTIN_POOL_BIT)) with 0.
    rewrite Z.lor_0_r. apply Z.bits_inj'. intros k Hk0. rewrite Z.land_spec, Z.lnot_spec by done.
    assert (Z.testbit (Z.land t ABTI_UNIT_BUILTIN_POOL_BIT) k = false) as Hk by (rewrite Ht; apply Z.bits_0). rewrite Z.land_spec in Hk.
    destruct (Z.testbit t k), (Z.testbit ABTI_UNIT_BUILTIN_POOL_BIT k); done.
Qed.

Lemma builtin_thread {S} t (s : S) : Z.land t ABTI_UNIT_BUILTIN_POOL_BIT = 0 →
  ABTI_unit_get_builtin_unit t s = Done (Z.lor t ABTI_UNIT_BUILTIN_POOL_BIT, s) ∧
  ABTI_unit_get_thread_from_builtin_unit (Z.lor t ABTI_UNIT_BUILTIN_POOL_BIT) s = Done (t, s).
Proof.
  intros Ht. destruct (builtin_unit t Ht) as [H1 H2]. unfold ABTI_unit_get_builtin_unit, ABTI_unit_get_thread_from_builtin_unit. by rewrite H1, H2, Ht.
Qed.

(** *** Changing one thread *)

Lemma assoc_cases x w t th : winv_but x w → threads w !! t = Some th → Some t ≠ x → is_Some (p_pool th) →
  (ABTI_unit_is_builtin (unit th) = true ∧ unit th = Z.lor t ABTI_UNIT_BUILTIN_POOL_BIT) ∨
  (ABTI_unit_is_builtin (unit th) = false ∧ mapped w !! unit th = Some t ∧ ∃ p, p_pool th = Some p ∧ created w !! unit th = Some p).
Proof.
  intros I Ht Hx [p Hp]. pose proof (w_assoc _ _ I t th Ht Hx) as Ha. unfold assoc in Ha. rewrite Hp in Ha. destruct (is_builtin w p).
  - left. split; [|done]. rewrite Ha. apply builtin_unit. by eapply (w_aligned _ _ I).
  - right. destruct Ha as [Hm Hc]. split_and!; eauto. by eapply (w_mapped _ _ I).
Qed.

Lemma fresh_unmapped x w u : winv_but x w → created w !! u = None → mapped w !! u = None.
Proof.
  intros I Hc. destruct (mapped w !! u) as [t|] eqn:Hm; [|done]. destruct (w_mapped _ _ I u t Hm) as (H0 & Hb & Hx & th & Ht & Hu).
  pose proof (w_assoc _ _ I t th Ht Hx) as Ha. unfold assoc in Ha. destruct (p_pool th) as [p|]; [|congruence]. destruct (is_builtin w p).
  - destruct (builtin_unit t) as [Hb' _]; [by eapply (w_aligned _ _ I)|]. congruence.
  - destruct Ha. congruence.
Qed.

(** The unit of [t] is given up. *)
Definition without u w : world := set_created (delete u (created w)) (set_mapped (delete u (mapped w)) w).
Definition release th w : world := if ABTI_unit_is_builtin (unit th) then w else without (unit th) w.
(** The thread gets a unit of a user-defined pool. *)
Definition with_unit u t p w : world := set_created (<[u := p]> (created w)) (set_mapped (<[u := t]> (mapped w)) w).
Definition put_thread t th w : world := set_threads (<[t := th]> (threads w)) w.

Lemma release_but w t th : winv w → threads w !! t = Some th → is_Some (p_pool th) → winv_but (Some t) (release th w).
Proof.
  intros I Ht Hp. destruct (assoc_cases None w t th I Ht) as [[Hb Hu]|(Hb & Hm & p & Hpp & Hc)]; [done|done|..]; unfold release; rewrite Hb.
  - split; [intros; by apply I|apply I| |apply I]. intros v t' Hv. destruct (w_mapped _ _ I v t' Hv) as (? & ? & _ & th' & Ht' & Hu').
    split_and!; eauto. intros [= ->]. assert (th' = th) as -> by congruence. congruence.
  - split; cbn.
    + intros t' th' Ht' Hne. pose proof (w_assoc _ _ I t' th' Ht') as Ha. unfold assoc in *. cbn. destruct (p_pool th') as [p'|]; [|by apply Ha].
      destruct (is_builtin w p'); [by apply Ha|]. destruct Ha as [Hm' Hc']; [done|]. rewrite !lookup_delete_ne; [done|..]; congruence.
    + apply I.
    + intros v t' Hv. destruct (decide (v = unit th)) as [->|]; [by rewrite lookup_delete_eq in Hv|]. rewrite lookup_delete_ne in Hv by done.
      destruct (w_mapped _ _ I v t' Hv) as (? & ? & _ & th' & Ht' & Hu'). split_and!; eauto. intros [= ->]. congruence.
    + intros v p' Hv. destruct (decide (v = unit th)) as [->|]; [by rewrite lookup_delete_eq in Hv|]. rewrite lookup_delete_ne in Hv by done.
      rewrite lookup_delete_ne by done. by eapply (w_created _ _ I).
Qed.

Lemma init_but w t th : winv w → threads w !! t = Some th → p_pool th = None → winv_but (Some t) w.
Proof.
  intros I Ht Hp. pose proof (w_assoc _ _ I t th Ht) as Ha. unfold assoc in Ha. rewrite Hp in Ha.
  split; [intros; by apply I|apply I| |apply I]. intros v t' Hv. destruct (w_mapped _ _ I v t' Hv) as (? & ? & _ & th' & Ht' & Hu').
  split_and!; eauto. intros [= ->]. assert (th' = th) as -> by congruence. rewrite Ha in Hu'; congruence.
Qed.

(** It gets a unit of a built-in pool, or none. *)
Lemma put_builtin w t th : winv_but (Some t) w → is_Some (threads w !! t) → assoc w t th →
  (∀ p, p_pool th = Some p → is_builtin w p = true) → winv (put_thread t th w).
Proof.
  intros I [th0 Ht] Ha Hb. split; cbn; [| | |apply I].
  - intros t' th'. destruct (decide (t' = t)) as [->|]; [rewrite lookup_insert_eq; by intros [= <-]|]. rewrite lookup_insert_ne by done. intros Ht' _.
    apply (w_assoc _ _ I t' th'); congruence.
  - intros t' th'. destruct (decide (t' = t)) as [->|]; [intros _; by eapply (w_aligned _ _ I)|]. rewrite lookup_insert_ne by done. apply I.
  - intros v t' Hv. destruct (w_mapped _ _ I v t' Hv) as (? & ? & Hx & th' & Ht' & Hu'). split_and!; try done. exists th'.
    rewrite lookup_insert_ne; [done|]. congruence.
Qed.

Lemma put_unit w t th p u : winv_but (Some t) w → is_Some (threads w !! t) → is_builtin w p = false →
  u ≠ ABT_UNIT_NULL → ABTI_unit_is_builtin u = false → created w !! u = None → unit th = u → p_pool th = Some p →
  winv (put_thread t th (with_unit u t p w)).
Proof.
  intros I [th0 Ht] Hb H0 Hu Hc Eu Ep. pose proof (fresh_unmapped _ _ u I Hc) as Hm. split; cbn.
  - intros t' th'. destruct (decide (t' = t)) as [->|].
    + rewrite lookup_insert_eq. intros [= <-] _. unfold assoc. cbn. rewrite Ep, Hb, Eu, !lookup_insert_eq. done.
    + rewrite lookup_insert_ne by done. intros Ht' _. pose proof (w_assoc _ _ I t' th' Ht' ltac:(congruence)) as Ha. unfold assoc in *. cbn.
      destruct (p_pool th') as [p'|]; [|done]. destruct (is_builtin w p'); [done|]. rewrite !lookup_insert_ne; [done|..]; intros ->; destruct Ha; congruence.
  - intros t' th'. destruct (decide (t' = t)) as [->|]; [intros _; by eapply (w_aligned _ _ I)|]. rewrite lookup_insert_ne by done. apply I.
  - intros v t'. destruct (decide (v = u)) as [->|].
    + rewrite lookup_insert_eq. intros [= <-]. split_and!; try done. exists th. by rewrite lookup_insert_eq.
    + rewrite lookup_insert_ne by done. intros Hv. destruct (w_mapped _ _ I v t' Hv) as (? & ? & Hx & th' & Ht' & Hu'). split_and!; try done. exists th'.
      rewrite lookup_insert_ne; [done|]. congruence.
  - intros v p'. destruct (decide (v = u)) as [->|]; [rewrite !lookup_insert_eq; by eauto|]. rewrite !lookup_insert_ne by done. apply I.
Qed.

(** ** What the operations do *)

Lemma world_eta w : World (threads w) (is_builtin w) (mapped w) (created w) = w.
Proof. by destruct w. Qed.

(** A unit that is mapped has been created by a pool. *)
Lemma mapped_created w u : winv w → created w !! u = None → mapped w !! u = None.
Proof.
  intros I Hc. destruct (mapped w !! u) as [t|] eqn:E; [exfalso|done].
  destruct (w_mapped _ _ I u t E) as (Hn & Hb & _ & th & Ht & Hu). pose proof (w_assoc _ _ I t th Ht ltac:(done)) as Ha.
  unfold assoc in Ha. destruct (p_pool th) as [p|]; [|congruence]. destruct (is_builtin w p); [|destruct Ha; congruence].
  destruct (builtin_unit t (w_aligned _ _ I t th Ht)). congruence.
Qed.

Lemma new_mapped_unit_run e t p w : winv w → env_ok e w →
  (∃ ret, ret ≠ ABT_SUCCESS ∧ new_mapped_unit e t p w = Done (inl ret, w) ∧ (new_unit e = ABT_UNIT_NULL ∨ malloc e ≠ ABT_SUCCESS)) ∨
  (new_unit e ≠ ABT_UNIT_NULL ∧ malloc e = ABT_SUCCESS ∧ new_mapped_unit e t p w = Done (inr (new_unit e), with_unit (new_unit e) t p w)).
Proof.
  intros I He. unfold new_mapped_unit, p_create_unit, mbind, C_bind. destruct (new_unit e =? ABT_UNIT_NULL) eqn:E0.
  - left. apply Z.eqb_eq in E0. exists ABT_ERR_OTHER. split_and!; [done|done|by left].
  - apply Z.eqb_neq in E0. destruct (He E0) as [Hb Hc]. unfold ABTI_unit_map_thread, mbind, C_bind, c_assert. rewrite Hb. cbn [negb mret C_ret].
    destruct (malloc e =? ABT_SUCCESS) eqn:Em; cbn [negb].
    + right. apply Z.eqb_eq in Em. split_and!; [done..|]. unfold gets. cbn [set_created mapped].
      by rewrite (mapped_created _ _ I Hc).
    + left. exists (malloc e). apply Z.eqb_neq in Em. split_and!; [done| |by right]. cbn [mret C_ret]. rewrite (proj2 (Z.eqb_neq _ _) Em). cbn [negb].
      unfold p_free_unit. rewrite decide_True by (split; [eauto|]; cbn; by rewrite lookup_insert_eq). cbn. do 2 f_equal. unfold set_created. cbn.
      rewrite delete_insert_id by done. by rewrite world_eta.
Qed.

Lemma store_thread_run f t th w : threads w !! t = Some th → store f t w = Done ((), put_thread t (f th) w).
Proof. unfold store. by intros ->. Qed.

Lemma put_put t th th' w : put_thread t th' (put_thread t th w) = put_thread t th' w.
Proof. unfold put_thread, set_threads. cbn. by rewrite insert_insert_eq. Qed.

Lemma put_thread_lookup t th w : threads (put_thread t th w) !! t = Some th.
Proof. cbn. apply lookup_insert_eq. Qed.

Definition builtin_thread_of t th : thread := Thread None None 0 (Z.lor t ABTI_UNIT_BUILTIN_POOL_BIT) (p_pool th).

Lemma init_builtin_run t th w : Z.land t ABTI_UNIT_BUILTIN_POOL_BIT = 0 → threads w !! t = Some th →
  ABTI_unit_init_builtin t w = Done ((), put_thread t (builtin_thread_of t th) w).
Proof.
  intros Ha Ht. unfold ABTI_unit_init_builtin, mbind, C_bind. rewrite (store_thread_run _ t th) by done.
  rewrite (store_thread_run _ _ _ _ (put_thread_lookup _ _ _)), put_put, (store_thread_run _ _ _ _ (put_thread_lookup _ _ _)), put_put.
  rewrite (proj1 (builtin_thread t _ Ha)), (store_thread_run _ _ _ _ (put_thread_lookup _ _ _)), put_put. done.
Qed.

(** Unmapping a unit and giving it back to its pool. *)
Definition give_back u t : M Datatypes.unit := ABTI_unit_unmap_thread u;; old_pool ← load p_pool t; p_free_unit old_pool u.

Lemma give_back_run u t th p w :
  ABTI_unit_is_builtin u = false → is_Some (mapped w !! u) → threads w !! t = Some th → p_pool th = Some p → created w !! u = Some p →
  give_back u t w = Done ((), without u w).
Proof.
  intros Hb [x Hm] Ht Hp Hc. unfold give_back, ABTI_unit_unmap_thread, mbind, C_bind, c_assert, gets, modify. rewrite Hb. cbn [negb mret C_ret]. rewrite Hm.
  unfold load. cbn [set_mapped threads]. rewrite Ht. unfold p_free_unit. rewrite decide_True by (rewrite Hp; eauto). done.
Qed.

Lemma bind3 {A} u t (k : M A) w :
  (ABTI_unit_unmap_thread u;; old_pool ← load p_pool t; p_free_unit old_pool u;; k) w = (give_back u t;; k) w.
Proof.
  unfold give_back, mbind, C_bind. destruct (ABTI_unit_unmap_thread u w) as [[]|]; [|done]. by destruct (load p_pool t w0) as [[]|].
Qed.

Lemma with_without u u' t p w : u ≠ u' → without u (with_unit u' t p w) = with_unit u' t p (without u w).
Proof. intros. unfold without, with_unit, set_created, set_mapped. cbn. by rewrite !delete_insert_ne. Qed.

(** What a thread looks like once it belongs to the pool. *)
Inductive joined e w t th p : world → Prop :=
  | joined_builtin th' : is_builtin w p = true → unit th' = Z.lor t ABTI_UNIT_BUILTIN_POOL_BIT → p_pool th' = Some p →
      joined e w t th p (put_thread t th' (release th w))
  | joined_same : is_builtin w p = false → p_pool th = Some p → joined e w t th p w
  | joined_user th' : is_builtin w p = false → new_unit e ≠ ABT_UNIT_NULL → unit th' = new_unit e → p_pool th' = Some p →
      joined e w t th p (put_thread t th' (with_unit (new_unit e) t p (release th w))).

Lemma joined_winv e w w' t th p : winv w → threads w !! t = Some th → is_Some (p_pool th) → env_ok e w → joined e w t th p w' →
  winv w' ∧ ∀ t', (threads w' !! t' ≫= p_pool) = if decide (t' = t) then Some p else threads w !! t' ≫= p_pool.
Proof.
  intros I Ht Hp He Hj. pose proof (release_but w t th I Ht Hp) as Ib.
  assert (threads (release th w) = threads w ∧ is_builtin (release th w) = is_builtin w) as [Eth Ebi] by (unfold release; by case_match).
  assert (∀ w1 th', p_pool th' = Some p → threads w1 = threads w → ∀ t', (threads (put_thread t th' w1) !! t' ≫= p_pool) = if decide (t' = t) then Some p else threads w !! t' ≫= p_pool) as Hview.
  { intros w1 th' Ep E t'. cbn. rewrite E. case_decide; [subst; by rewrite lookup_insert_eq|by rewrite lookup_insert_ne]. }
  destruct Hj as [th' Hb Hu Ep|Hb Ep|th' Hb H0 Hu Ep].
  - split; [|by apply Hview]. apply put_builtin; [done|rewrite Eth; eauto|unfold assoc; by rewrite Ep, Ebi, Hb|]. intros p'. rewrite Ebi, Ep. by intros [= <-].
  - split; [done|]. intros t'. case_decide; [|done]. subst. by rewrite Ht.
  - split; [|by apply Hview]. destruct (He H0) as [Hnb Hc]. apply put_unit; try done; [rewrite Eth; eauto|by rewrite Ebi|].
    unfold release. case_match; [done|]. cbn. rewrite lookup_delete_None. by right.
Qed.

(** Changes nothing on failure, which is the failure of the pool or of the memory allocator. *)
Definition set_result e w t th p (r : Z) (w' : world) : Prop :=
  (r = ABT_SUCCESS ∧ joined e w t th p w') ∨
  (r ≠ ABT_SUCCESS ∧ w' = w ∧ is_builtin w p = false ∧ (new_unit e = ABT_UNIT_NULL ∨ malloc e ≠ ABT_SUCCESS)).

Lemma set_tail {A} nu t p th w (x : A) : threads w !! t = Some th →
  (store (set_unit nu) t;; store (set_pool (Some p)) t;; mret x) w = Done (x, put_thread t (set_pool (Some p) (set_unit nu th)) w).
Proof. intros Ht. unfold mbind, C_bind. rewrite (store_thread_run _ _ _ _ Ht), (store_thread_run _ _ _ _ (put_thread_lookup _ _ _)), put_put. done. Qed.

Lemma builtin_tail {A} t p th w (x : A) : Z.land t ABTI_UNIT_BUILTIN_POOL_BIT = 0 → threads w !! t = Some th →
  (ABTI_unit_init_builtin t;; store (set_pool (Some p)) t;; mret x) w = Done (x, put_thread t (set_pool (Some p) (builtin_thread_of t th)) w).
Proof. intros Ha Ht. unfold mbind, C_bind. rewrite (init_builtin_run _ _ _ Ha Ht), (store_thread_run _ _ _ _ (put_thread_lookup _ _ _)), put_put. done. Qed.

Lemma bind_run {A B} (m : M A) (k : A → M B) w a w' : m w = Done (a, w') → (m ≫= k) w = k a w'.
Proof. unfold mbind, C_bind. by intros ->. Qed.

Section set_pool.
Context (e : env) (w : world) (t : Z) (th : thread) (p : Z).
Hypotheses (I : winv w) (Ht : threads w !! t = Some th) (Hp : is_Some (p_pool th)) (He : env_ok e w).

Lemma load_thread_run {A} (f : thread → A) : load f t w = Done (f th, w).
Proof using Ht. unfold load. by rewrite Ht. Qed.

Lemma aligned : Z.land t ABTI_UNIT_BUILTIN_POOL_BIT = 0.
Proof using I Ht. by eapply (w_aligned _ _ I). Qed.

(** The old unit goes once the new one is mapped. *)
Lemma give_back_new p0 : ABTI_unit_is_builtin (unit th) = false → new_unit e ≠ ABT_UNIT_NULL → is_Some (mapped w !! unit th) →
  p_pool th = Some p0 → created w !! unit th = Some p0 →
  give_back (unit th) t (with_unit (new_unit e) t p w) = Done ((), without (unit th) (with_unit (new_unit e) t p w)).
Proof using Ht He.
  intros Hb H0 Hm Hpp Hc. destruct (He H0) as [_ Hc']. eapply give_back_run; try done; cbn; rewrite lookup_insert_ne; try done; congruence.
Qed.

Lemma thread_set_run : ∃ r w', ABTI_thread_set_associated_pool e t p w = Done (r, w') ∧ set_result e w t th p r w'.
Proof.
  unfold ABTI_thread_set_associated_pool. rewrite (bind_run _ _ _ _ _ (load_thread_run unit)). unfold pool_is_builtin.
  rewrite (bind_run (gets (λ w, is_builtin w p)) _ w (is_builtin w p) w) by done. pose proof aligned as Hal.
  destruct (assoc_cases None w t th I Ht) as [[Hb Hu]|(Hb & Hm & p0 & Hpp & Hc)]; [done|done|..]; rewrite Hb; cbn [andb].
  - destruct (is_builtin w p) eqn:Ep; cbn [andb].
    + rewrite (bind_run _ _ _ _ _ (store_thread_run _ _ _ _ Ht)). eexists _, _. split; [done|]. left. split; [done|].
      assert (w = release th w) as Er by (unfold release; by rewrite Hb). rewrite Er at 2. by apply joined_builtin.
    + destruct (new_mapped_unit_run e t p w I He) as [(ret & Hr & Hn & Hf)|(H0 & Hmal & Hn)]; rewrite (bind_run _ _ _ _ _ Hn).
      * eexists _, _. split; [done|]. right. by split_and!.
      * rewrite (set_tail _ _ _ th) by done. eexists _, _. split; [done|]. left. split; [done|].
        assert (w = release th w) as Er by (unfold release; by rewrite Hb). rewrite Er at 2. by apply joined_user.
  - assert (release th w = without (unit th) w) as Er by (unfold release; by rewrite Hb).
    destruct (is_builtin w p) eqn:Ep; cbn [andb].
    + rewrite bind3, (bind_run _ _ _ _ _ (give_back_run (unit th) t th p0 w Hb ltac:(eauto) Ht Hpp Hc)), (builtin_tail _ _ th) by done.
      eexists _, _. split; [done|]. left. split; [done|]. rewrite <- Er. by apply joined_builtin.
    + rewrite (bind_run _ _ _ _ _ (load_thread_run p_pool)). case_bool_decide.
      * eexists _, _. split; [done|]. left. split; [done|]. by apply joined_same.
      * destruct (new_mapped_unit_run e t p w I He) as [(ret & Hr & Hn & Hf)|(H0 & Hmal & Hn)]; rewrite (bind_run _ _ _ _ _ Hn).
        -- eexists _, _. split; [done|]. right. by split_and!.
        -- assert (new_unit e ≠ unit th) as Hne by (intros E; destruct (He H0) as [_ Hc']; congruence).
           rewrite bind3, (bind_run _ _ _ _ _ (give_back_new p0 Hb H0 ltac:(eauto) Hpp Hc)).
           rewrite with_without, (set_tail _ _ _ th) by done. eexists _, _. split; [done|]. left. split; [done|].
           rewrite <- Er. by apply joined_user.
Qed.

Lemma unit_set_run r w' : ABTI_thread_set_associated_pool e t p w = Done (r, w') →
  ABTI_unit_set_associated_pool e (unit th) p w = Done ((r, if decide (r = ABT_SUCCESS) then Some t else None), w').
Proof.
  unfold ABTI_thread_set_associated_pool, ABTI_unit_set_associated_pool. rewrite (bind_run _ _ _ _ _ (load_thread_run unit)). unfold pool_is_builtin.
  rewrite !(bind_run (gets (λ w, is_builtin w p)) _ w (is_builtin w p) w) by done. pose proof aligned as Hal.
  destruct (assoc_cases None w t th I Ht) as [[Hb Hu]|(Hb & Hm & p0 & Hpp & Hc)]; [done|done|..]; rewrite Hb; cbn [andb].
  - assert (ABTI_unit_get_thread_from_builtin_unit (unit th) w = Done (t, w)) as Hg by (rewrite Hu; by apply builtin_thread).
    rewrite (bind_run _ _ _ _ _ Hg). destruct (is_builtin w p) eqn:Ep.
    + rewrite !(bind_run _ _ _ _ _ (store_thread_run _ _ _ _ Ht)). by intros [= <- <-].
    + destruct (new_mapped_unit_run e t p w I He) as [(ret & Hr & Hn & Hf)|(H0 & Hmal & Hn)]; rewrite !(bind_run _ _ _ _ _ Hn).
      * intros [= <- <-]. cbn. by rewrite decide_False.
      * rewrite !(set_tail _ _ _ th) by done. by intros [= <- <-].
  - assert (ABTI_unit_get_thread_from_user_defined_unit (unit th) w = Done (t, w)) as Hg.
    { unfold ABTI_unit_get_thread_from_user_defined_unit, mbind, C_bind, c_assert, gets. rewrite Hb. cbn [negb mret C_ret]. by rewrite Hm. }
    rewrite (bind_run _ _ _ _ _ Hg). destruct (is_builtin w p) eqn:Ep.
    + rewrite !bind3, !(bind_run _ _ _ _ _ (give_back_run (unit th) t th p0 w Hb ltac:(eauto) Ht Hpp Hc)), !(builtin_tail _ _ th) by done.
      by intros [= <- <-].
    + rewrite !(bind_run _ _ _ _ _ (load_thread_run p_pool)). case_bool_decide; [by intros [= <- <-]|].
      destruct (new_mapped_unit_run e t p w I He) as [(ret & Hr & Hn & Hf)|(H0 & Hmal & Hn)]; rewrite !(bind_run _ _ _ _ _ Hn).
      * intros [= <- <-]. cbn. by rewrite decide_False.
      * rewrite !bind3, !(bind_run _ _ _ _ _ (give_back_new p0 Hb H0 ltac:(eauto) Hpp Hc)), !(set_tail _ _ _ th) by done. by intros [= <- <-].
Qed.

End set_pool.

(** ** Sequences of operations *)

Inductive op :=
  | Init (e : env) (t p : Z)
  | Set_pool (e : env) (t p : Z)
  | Set_unit (e : env) (u p : Z)
  | Unset (t : Z).

Definition do_op (o : op) : M Z :=
  match o with
  | Init e t p => ABTI_thread_init_pool e t p
  | Set_pool e t p => ABTI_thread_set_associated_pool e t p
  | Set_unit e u p => r ← ABTI_unit_set_associated_pool e u p; mret (fst r)
  | Unset t => ABTI_thread_unset_associated_pool t;; mret ABT_SUCCESS
  end.

(** The thread is new in [Init], and belongs to a pool in the other operations. *)
Definition allowed (o : op) w : Prop :=
  match o with
  | Init e t p => env_ok e w ∧ ∃ th, threads w !! t = Some th ∧ p_pool th = None
  | Set_pool e t p => env_ok e w ∧ ∃ th, threads w !! t = Some th ∧ is_Some (p_pool th)
  | Set_unit e u p => env_ok e w ∧ ∃ t th, threads w !! t = Some th ∧ is_Some (p_pool th) ∧ unit th = u
  | Unset t => ∃ th, threads w !! t = Some th ∧ is_Some (p_pool th)
  end.

Definition pool_of w t : option Z := threads w !! t ≫= p_pool.

(** What an operation means: the pool of one thread. *)
Definition meaning (o : op) (w w' : world) : Prop :=
  match o with
  | Init _ t p | Set_pool _ t p => ∀ t', pool_of w' t' = if decide (t' = t) then Some p else pool_of w t'
  | Set_unit _ u p => ∃ t, ABTI_unit_get_thread u w = Done (t, w) ∧ ∀ t', pool_of w' t' = if decide (t' = t) then Some p else pool_of w t'
  | Unset t => ∀ t', pool_of w' t' = if decide (t' = t) then None else pool_of w t'
  end.

Lemma unit_get_thread_run w t th : winv w → threads w !! t = Some th → is_Some (p_pool th) → ABTI_unit_get_thread (unit th) w = Done (t, w).
Proof.
  intros I Ht Hp. unfold ABTI_unit_get_thread. destruct (assoc_cases None w t th I Ht) as [[Hb Hu]|(Hb & Hm & _)]; [done|done|..]; rewrite Hb.
  - rewrite Hu. apply builtin_thread. by eapply (w_aligned _ _ I).
  - unfold ABTI_unit_get_thread_from_user_defined_unit, mbind, C_bind, c_assert, gets. rewrite Hb. cbn [negb mret C_ret]. by rewrite Hm.
Qed.

Lemma view_put t th w w1 : threads w1 = threads w → ∀ t', pool_of (put_thread t th w1) t' = if decide (t' = t) then p_pool th else pool_of w t'.
Proof. intros E t'. unfold pool_of. cbn. rewrite E. case_decide; [subst; by rewrite lookup_insert_eq|by rewrite lookup_insert_ne]. Qed.

Lemma init_pool_run e w t th p : winv w → threads w !! t = Some th → p_pool th = None → env_ok e w →
  ∃ r w', ABTI_thread_init_pool e t p w = Done (r, w') ∧ winv w' ∧
    ((r = ABT_SUCCESS ∧ ∀ t', pool_of w' t' = if decide (t' = t) then Some p else pool_of w t') ∨ (r ≠ ABT_SUCCESS ∧ w' = w)).
Proof.
  intros I Ht Hp He. pose proof (init_but w t th I Ht Hp) as Ib. assert (Z.land t ABTI_UNIT_BUILTIN_POOL_BIT = 0) as Ha by (by eapply (w_aligned _ _ I)).
  unfold ABTI_thread_init_pool, pool_is_builtin. rewrite (bind_run (gets (λ w, is_builtin w p)) _ w (is_builtin w p) w) by done.
  destruct (is_builtin w p) eqn:Ep.
  - rewrite (builtin_tail _ _ th) by done. eexists _, _. split; [done|]. split; [|left; split; [done|by apply view_put]].
    apply put_builtin; eauto; [unfold assoc; cbn; by rewrite Ep|]. by intros p' [= <-].
  - destruct (new_mapped_unit_run e t p w I He) as [(ret & Hr & Hn & Hf)|(H0 & Hmal & Hn)]; rewrite (bind_run _ _ _ _ _ Hn).
    + eexists _, _. split; [done|]. split; [done|]. by right.
    + rewrite (set_tail _ _ _ th) by done. eexists _, _. split; [done|]. destruct (He H0). split; [by apply put_unit; eauto|]. left. split; [done|]. by apply view_put.
Qed.

Lemma unset_run w t th : winv w → threads w !! t = Some th → is_Some (p_pool th) →
  ∃ w', ABTI_thread_unset_associated_pool t w = Done ((), w') ∧ winv w' ∧ ∀ t', pool_of w' t' = if decide (t' = t) then None else pool_of w t'.
Proof.
  intros I Ht Hp. pose proof (release_but w t th I Ht Hp) as Ib. set (th' := set_pool None (set_unit ABT_UNIT_NULL th)).
  assert (threads (release th w) = threads w) as Eth by (unfold release; by case_match).
  exists (put_thread t th' (release th w)). split; [|split; [apply put_builtin; [done|rewrite Eth; eauto|done|done]|by apply view_put]].
  unfold ABTI_thread_unset_associated_pool. rewrite (bind_run _ _ _ _ _ (load_thread_run w t th Ht unit)).
  assert (∀ w1, threads w1 = threads w → (store (set_unit ABT_UNIT_NULL) t;; store (set_pool None) t) w1 = Done ((), put_thread t th' w1)) as Htail.
  { intros w1 E. rewrite (bind_run _ _ _ _ _ (store_thread_run (set_unit ABT_UNIT_NULL) t th w1 ltac:(congruence))), (store_thread_run _ _ _ _ (put_thread_lookup _ _ _)), put_put. done. }
  unfold release in *. destruct (assoc_cases None w t th I Ht) as [[Hb Hu]|(Hb & Hm & p0 & Hpp & Hc)]; [done|done|..]; rewrite Hb in *; cbn [negb].
  - by apply Htail.
  - fold (give_back (unit th) t). rewrite (bind_run _ _ _ _ _ (give_back_run (unit th) t th p0 w Hb ltac:(eauto) Ht Hpp Hc)). by apply Htail.
Qed.

Lemma op_run o w : winv w → allowed o w →
  ∃ r w', do_op o w = Done (r, w') ∧ winv w' ∧ ((r = ABT_SUCCESS ∧ meaning o w w') ∨ (r ≠ ABT_SUCCESS ∧ w' = w)).
Proof.
  intros I Hal. destruct o as [e t p|e t p|e u p|t]; cbn [do_op meaning] in *.
  - destruct Hal as (He & th & Ht & Hp). by eapply init_pool_run.
  - destruct Hal as (He & th & Ht & Hp). destruct (thread_set_run e w t th p I Ht Hp He) as (r & w' & Hr & Hres). exists r, w'. split; [done|].
    destruct Hres as [[-> Hj]|(Hne & -> & _)]; [|by auto]. destruct (joined_winv _ _ _ _ _ _ I Ht Hp He Hj). auto.
  - destruct Hal as (He & t & th & Ht & Hp & <-). destruct (thread_set_run e w t th p I Ht Hp He) as (r & w' & Hr & Hres).
    apply (unit_set_run e w t th p I Ht Hp He) in Hr. exists r, w'. rewrite (bind_run _ _ _ _ _ Hr). split; [done|].
    destruct Hres as [[-> Hj]|(Hne & -> & _)]; [|by auto]. destruct (joined_winv _ _ _ _ _ _ I Ht Hp He Hj). split; [done|]. left. split; [done|].
    exists t. split; [by eapply unit_get_thread_run|done].
  - destruct Hal as (th & Ht & Hp). destruct (unset_run w t th I Ht Hp) as (w' & Hr & Hw & Hv). exists ABT_SUCCESS, w'. rewrite (bind_run _ _ _ _ _ Hr). auto.
Qed.

Inductive ran : list op → world → world → Prop :=
  | ran_nil w : ran [] w w
  | ran_cons o l w w1 w2 r : allowed o w → do_op o w = Done (r, w1) → ran l w1 w2 → ran (o :: l) w w2.

(** No thread belongs to a pool, and no unit of a user-defined pool exists. *)
Definition fresh w : Prop :=
  mapped w = ∅ ∧ created w = ∅ ∧
  ∀ t th, threads w !! t = Some th → p_pool th = None ∧ unit th = ABT_UNIT_NULL ∧ Z.land t ABTI_UNIT_BUILTIN_POOL_BIT = 0.

Lemma fresh_winv w : fresh w → winv w.
Proof.
  intros (Hm & Hc & Ht). split.
  - intros t th H _. destruct (Ht t th H) as (Hp & Hu & _). unfold assoc. by rewrite Hp.
  - intros t th H. by destruct (Ht t th H) as (_ & _ & ?).
  - intros u t. by rewrite Hm.
  - intros u p. by rewrite Hc.
Qed.

Lemma ran_winv l w w' : winv w → ran l w w' → winv w'.
Proof.
  intros I H. induction H as [|o l w w1 w2 r Ha Hd _ IH]; [done|]. destruct (op_run o w I Ha) as (r' & w1' & Hd' & I' & _).
  rewrite Hd in Hd'. injection Hd' as <- <-. by apply IH.
Qed.

(** C37: After any sequence of operations on work units, the next one completes without a fault: it maps
    only units that are not in the table, unmaps and looks up only units that are, and frees
    only units that their pool created.  It succeeds, and then exactly the pool of
    its work unit has changed, or it fails and has changed nothing, the new unit included. *)
Theorem pool_association_atomic w l w1 o :
  fresh w → ran l w w1 → allowed o w1 →
  ∃ r w2, do_op o w1 = Done (r, w2) ∧ ((r = ABT_SUCCESS ∧ meaning o w1 w2) ∨ (r ≠ ABT_SUCCESS ∧ w2 = w1)).
Proof. intros Hf Hr Ha. destruct (op_run o w1) as (r & w2 & H & _ & ?); eauto using ran_winv, fresh_winv. Qed.

(** C39: After any sequence of operations, the handle of every work unit that belongs to a pool leads back to the
    work unit, and once no work unit belongs to a pool nothing is left in the table and no unit has leaked. *)
Theorem units_found_and_freed w l w1 :
  fresh w → ran l w w1 →
  (∀ t th, threads w1 !! t = Some th → is_Some (p_pool th) →
     unit th ≠ ABT_UNIT_NULL ∧ ABT_unit_get_thread (unit th) w1 = Done ((ABT_SUCCESS, Some t), w1)) ∧
  ((∀ t, pool_of w1 t = None) → mapped w1 = ∅ ∧ created w1 = ∅).
Proof.
  intros Hf Hr. assert (winv w1) as I by eauto using ran_winv, fresh_winv. split.
  - intros t th Ht Hp. pose proof (unit_get_thread_run w1 t th I Ht Hp) as Hg. assert (unit th ≠ ABT_UNIT_NULL) as H0.
    { destruct (assoc_cases None w1 t th I Ht) as [[Hb _]|(_ & Hm & _)]; [done|done|intros E; by rewrite E in Hb|by eapply (w_mapped _ _ I)]. }
    split; [done|]. unfold ABT_unit_get_thread. rewrite (proj2 (Z.eqb_neq _ _) H0). cbn [negb]. by rewrite (bind_run _ _ _ _ _ Hg).
  - intros Hno. assert (mapped w1 = ∅) as Hm.
    { apply map_eq. intros u. rewrite lookup_empty. destruct (mapped w1 !! u) as [t|] eqn:E; [|done].
      destruct (w_mapped _ _ I u t E) as (H0 & _ & _ & th & Ht & Hu). pose proof (w_assoc _ _ I t th Ht) as Ha. unfold assoc in Ha.
      specialize (Hno t). unfold pool_of in Hno. rewrite Ht in Hno. cbn in Hno. rewrite Hno in Ha. rewrite Ha in Hu; congruence. }
    split; [done|]. apply map_eq. intros u. rewrite lookup_empty. destruct (created w1 !! u) as [p|] eqn:E; [|done].
    destruct (w_created _ _ I u p E) as [t Ht]. by rewrite Hm in Ht.
Qed.

(** ** A run *)

(** Two threads; pool 1 is built in, pools 2 and 3 are not. *)
Definition w0 : world := World {[ 8 := Thread None None 0 0 None; 16 := Thread None None 0 0 None ]} (λ p, p =? 1) ∅ ∅.

Lemma w0_fresh : fresh w0.
Proof.
  split; [done|]. split; [done|]. intros t th Ht. cbn in Ht. apply lookup_insert_Some in Ht as [[<- <-]|[_ Ht]]; [done|].
  apply lookup_singleton_Some in Ht as [<- <-]. done.
Qed.

Definition after (o : op) w : world := match do_op o w with Done (_, w') => w' | Fault _ => w end.
Definition ops1 : list op := [Init (Env 0 0) 8 1; Init (Env 64 0) 16 2; Set_pool (Env 72 0) 8 2; Set_unit (Env 80 2) 64 3; Set_unit (Env 80 0) 64 3].
Definition ops2 : list op := ops1 ++ [Unset 8; Unset 16].
Definition after_all l w : world := fold_left (λ w o, after o w) l w.

(** An allowed operation on thread [t], by computation. *)
Ltac allow t :=
  cbn [allowed];
  repeat match goal with
  | |- env_ok _ _ => intros ?; split; vm_compute; reflexivity
  | |- ∃ _ : Z, _ => exists t
  | |- ∃ _, _ => eexists
  | |- _ ∧ _ => split
  | |- is_Some _ => eexists; vm_compute; reflexivity
  | |- _ = _ => vm_compute; reflexivity
  end.

Lemma ops2_ran : ran ops2 w0 (after_all ops2 w0).
Proof.
  repeat (eapply ran_cons; [|vm_compute; reflexivity|]); [allow 8|allow 16|allow 8|allow 16|allow 16|allow 8|allow 16|].
  vm_compute. constructor.
Qed.

Lemma ops1_ran : ran ops1 w0 (after_all ops1 w0).
Proof.
  repeat (eapply ran_cons; [|vm_compute; reflexivity|]); [allow 8|allow 16|allow 8|allow 16|allow 16|].
  vm_compute. constructor.
Qed.

Lemma pool_association_atomic_witness :
  fresh w0 ∧ ∃ r w2, do_op (Set_pool (Env 88 0) 8 3) (after_all ops1 w0) = Done (r, w2) ∧
    ((r = ABT_SUCCESS ∧ meaning (Set_pool (Env 88 0) 8 3) (after_all ops1 w0) w2) ∨ (r ≠ ABT_SUCCESS ∧ w2 = after_all ops1 w0)).
Proof.
  split; [exact w0_fresh|]. apply (pool_association_atomic w0 ops1 _ (Set_pool (Env 88 0) 8 3) w0_fresh ops1_ran). allow 8.
Defined.

Lemma units_found_and_freed_witness :
  fresh w0 ∧ ran ops1 w0 (after_all ops1 w0) ∧
  ABT_unit_get_thread 80 (after_all ops1 w0) = Done ((ABT_SUCCESS, Some 16), after_all ops1 w0) ∧ mapped (after_all ops2 w0) = ∅.
Proof.
  split; [exact w0_fresh|]. split; [exact ops1_ran|]. split.
  - apply (proj1 (units_found_and_freed w0 ops1 _ w0_fresh ops1_ran) 16 (Thread None None 0 80 (Some 3))); [vm_compute; reflexivity|eexists; reflexivity].
  - apply (proj2 (units_found_and_freed w0 ops2 _ w0_fresh ops2_ran)). intros t. unfold pool_of.
    destruct (threads (after_all ops2 w0) !! t) as [th|] eqn:E; [|reflexivity].
    assert (threads (after_all ops2 w0) = {[ 8 := Thread None None 0 0 None; 16 := Thread None None 0 0 None ]}) as Et by (vm_compute; reflexivity).
    rewrite Et in E. apply lookup_insert_Some in E as [[_ <-]|[_ E]]; [reflexivity|]. apply lookup_singleton_Some in E as [_ <-]. reflexivity.
Defined.
