(* ===== verification/Waitlist.v ===== *)
(** * Waitlists

    argobots/src/include/abti_waitlist.h: the queue of waiters behind every
    blocking object of Argobots (mutexes, condition variables, barriers,
    eventuals, futures).  It links the descriptors of the waiters through
    [p_next]; a timed waiter is a dummy descriptor on the waiter's stack that
    also keeps [p_prev], so that it can leave the middle of the list.

    [wst] is one waitlist with the spinlock that protects it, the descriptors,
    and the user-level threads that were pushed back to their pools.  What other
    threads do while a waiter sleeps or yields is the parameter [env]. *)

From stdpp Require Import base tactics option list numbers gmap fin_maps.
From S2P Require Import Prelude.
From S2P Require Import Abt.
From S2P Require Import Thread.

Record ABTI_waitlist := Waitlist { p_head : option ptr; p_tail : option ptr; futex : Z }.

Record wst := Wst {
  wl : ABTI_waitlist;
  wl_lock : bool;
  wl_heap : gmap positive ABTI_thread;
  resumed : list positive;
}.

Definition set_wl (v : ABTI_waitlist) (s : wst) : wst := Wst v (wl_lock s) (wl_heap s) (resumed s).
Definition set_wl_lock (v : bool) (s : wst) : wst := Wst (wl s) v (wl_heap s) (resumed s).
Definition set_wl_heap (v : gmap positive ABTI_thread) (s : wst) : wst := Wst (wl s) (wl_lock s) v (resumed s).
Definition set_resumed (v : list positive) (s : wst) : wst := Wst (wl s) (wl_lock s) (wl_heap s) v.

Definition set_head (v : option ptr) (s : wst) : wst := set_wl (Waitlist v (p_tail (wl s)) (futex (wl s))) s.
Definition set_tail (v : option ptr) (s : wst) : wst := set_wl (Waitlist (p_head (wl s)) v (futex (wl s))) s.
Definition bump_futex (s : wst) : wst := set_wl (Waitlist (p_head (wl s)) (p_tail (wl s)) (futex (wl s) + 1)) s.

Definition on_heap {A} (m : C (gmap positive ABTI_thread) A) : C wst A := zoom wl_heap set_wl_heap m.
Definition on_lock {A} (m : C bool A) : C wst A := zoom wl_lock set_wl_lock m.

(** ** Operations *)

Definition ABTI_waitlist_init : C wst unit := modify (set_wl (Waitlist None None 0)).

Definition ABTI_waitlist_is_empty (s : wst) : bool :=
  match p_head (wl s) with Some _ => false | None => true end.

(** A stack descriptor of type [EXT] in state [BLOCKED]. *)
Definition new_dummy (p : ptr) : C wst unit :=
  modify (λ s, set_wl_heap (<[p := mk_thread None None 0 ABTI_THREAD_TYPE_EXT ABT_THREAD_STATE_BLOCKED]> (wl_heap s)) s).

Definition append (p : ptr) : C wst unit :=
  on_heap (store (set_p_next None) (Some p));;
  head ← gets (λ s, p_head (wl s));
  (match head with
   | None => modify (set_head (Some p))
   | Some _ =>
       tail ← gets (λ s, p_tail (wl s));
       on_heap (store (set_p_next (Some p)) tail)
   end);;
  modify (set_tail (Some p)).

(** The timed waiter also records its predecessor. *)
Definition append_timed (p : ptr) : C wst unit :=
  on_heap (store (set_p_next None) (Some p));;
  head ← gets (λ s, p_head (wl s));
  (match head with
   | None => modify (set_head (Some p));; on_heap (store (set_p_prev None) (Some p))
   | Some _ =>
       tail ← gets (λ s, p_tail (wl s));
       on_heap (store (set_p_next (Some p)) tail);;
       on_heap (store (set_p_prev tail) (Some p))
   end);;
  modify (set_tail (Some p)).

(** The removal after a timeout. *)
Definition remove_timed (p : ptr) : C wst unit :=
  head ← gets (λ s, p_head (wl s));
  next ← on_heap (load p_next (Some p));
  if decide (head = Some p) then
    modify (set_head next);;
    match next with
    | None =>
        tail ← gets (λ s, p_tail (wl s));
        c_assert (bool_decide (tail = Some p));;
        modify (set_tail None)
    | Some _ => mret ()
    end
  else
    prev ← on_heap (load p_prev (Some p));
    c_assert (bool_decide (is_Some prev));;
    on_heap (store (set_p_next next) prev);;
    ty ← on_heap (load ttype (Some p));
    if (bool_decide (is_Some next) && Z.eqb ty ABTI_THREAD_TYPE_EXT)%bool then
      on_heap (store (set_p_prev prev) next)
    else
      tail ← gets (λ s, p_tail (wl s));
      c_assert (bool_decide (tail = Some p));;
      modify (set_tail prev).

(** Waking one descriptor: [ABTI_ythread_resume_and_push] for a user-level
    thread, the state word for an external thread or a tasklet. *)
Definition wake (p : ptr) : C wst bool :=
  yt ← on_heap (ABTI_thread_get_ythread_or_null (Some p));
  match yt with
  | Some y =>
      on_heap (store (set_state ABT_THREAD_STATE_READY) (Some y));;
      modify (λ s, set_resumed (resumed s ++ [y]) s);;
      mret false
  | None =>
      on_heap (store (set_state ABT_THREAD_STATE_READY) (Some p));;
      mret true
  end.

Definition ABTI_waitlist_signal : C wst unit :=
  head ← gets (λ s, p_head (wl s));
  match head with
  | None => mret ()
  | Some p =>
      next ← on_heap (load p_next (Some p));
      on_heap (store (set_p_next None) (Some p));;
      ext ← wake p;
      (if (ext : bool) then modify bump_futex else mret ());;
      modify (set_head next);;
      match next with
      | None => modify (set_tail None)
      | Some _ => mret ()
      end
  end.

(** The loop runs once per waiter; a list longer than [fuel] is a cycle. *)
Fixpoint broadcast_loop (fuel : nat) (p : ptr) (nonyieldable : bool) : C wst bool :=
  match fuel with
  | O => throw OutOfFuel
  | S fuel =>
      next ← on_heap (load p_next (Some p));
      on_heap (store (set_p_next None) (Some p));;
      ext ← wake p;
      let nonyieldable := (nonyieldable || ext)%bool in
      match next with
      | Some q => broadcast_loop fuel q nonyieldable
      | None => mret nonyieldable
      end
  end.

Definition ABTI_waitlist_broadcast : C wst unit :=
  head ← gets (λ s, p_head (wl s));
  match head with
  | None => mret ()
  | Some p =>
      n ← gets (λ s, size (wl_heap s));
      wakeup_nonyieldable ← broadcast_loop n p false;
      modify (set_head None);;
      modify (set_tail None);;
      if (wakeup_nonyieldable : bool) then modify bump_futex else mret ()
  end.

(** ** Waiting

    A waitlist is part of a larger state [S] ([view], [upd]); while a waiter
    sleeps or yields for the [i]-th time, [env i] happens to that state. *)

Definition ready (p : ptr) : C wst bool :=
  st ← on_heap (load state (Some p));
  mret (bool_decide (st = ABT_THREAD_STATE_READY)).

Section waiting.
Context {S : Type} (view : S → wst) (upd : wst → S → S) (env : nat → C S unit).

Definition on_wst {A} (m : C wst A) : C S A := zoom view upd m.

(** [ABTI_ythread_suspend_unlock]: the thread is blocked before the lock is
    released and runs again once somebody has resumed it. *)
Definition ythread_suspend_unlock (p : ptr) : C S unit :=
  on_wst (on_heap (store (set_state ABT_THREAD_STATE_BLOCKED) (Some p)));;
  on_wst (on_lock ABTD_spinlock_release);;
  env 0;;
  r ← on_wst (ready p);
  if (r : bool) then mret () else throw Blocked.

(** An external thread sleeps on the futex of the waitlist. *)
Fixpoint ext_wait (fuel i : nat) (p : ptr) : C S unit :=
  match fuel with
  | O => throw OutOfFuel
  | Datatypes.S fuel =>
      r ← on_wst (ready p);
      if (r : bool) then on_wst (on_lock ABTD_spinlock_release)
      else
        on_wst (on_lock ABTD_spinlock_release);;
        env i;;
        r ← on_wst (ready p);
        if (r : bool) then mret ()
        else on_wst (on_lock ABTD_spinlock_acquire);; ext_wait fuel (Datatypes.S i) p
  end.

(** [self] is the calling user-level thread, [None] on an external thread or a
    tasklet; [dummy] is the stack slot of the latter. *)
Definition ABTI_waitlist_wait_and_unlock (fuel : nat) (self : option ptr) (dummy : ptr) : C S unit :=
  locked ← on_wst (on_lock ABTD_spinlock_is_locked);
  c_assert locked;;
  match self with
  | None => on_wst (new_dummy dummy);; on_wst (append dummy);; ext_wait fuel 0 dummy
  | Some p => on_wst (append p);; ythread_suspend_unlock p
  end.

Context (clock : nat → Z).

(** Is the wait over?  [true] with the lock held when the time is up, [false]
    when signalled. *)
Fixpoint timed_loop_yield (fuel i : nat) (p : ptr) (target_time : Z) : C S bool :=
  match fuel with
  | O => throw OutOfFuel
  | Datatypes.S fuel =>
      r ← on_wst (ready p);
      if (r : bool) then mret false
      else
        let cur_time := clock i in
        if Z.leb target_time cur_time then on_wst (on_lock ABTD_spinlock_acquire);; mret true
        else env i;; timed_loop_yield fuel (Datatypes.S i) p target_time
  end.

Fixpoint timed_loop_ext (fuel i : nat) (p : ptr) (target_time : Z) : C S bool :=
  match fuel with
  | O => throw OutOfFuel
  | Datatypes.S fuel =>
      let cur_time := clock i in
      if Z.leb target_time cur_time then mret true
      else
        r ← on_wst (ready p);
        if (r : bool) then on_wst (on_lock ABTD_spinlock_release);; mret false
        else
          on_wst (on_lock ABTD_spinlock_release);;
          env i;;
          r ← on_wst (ready p);
          if (r : bool) then mret false
          else on_wst (on_lock ABTD_spinlock_acquire);; timed_loop_ext fuel (Datatypes.S i) p target_time
  end.

(** Both the function with the default clock and the one with a clock id: the
    clock is [clock]. *)
Definition ABTI_waitlist_wait_timedout_and_unlock (fuel : nat) (yieldable : bool) (dummy : ptr)
    (target_time : Z) : C S bool :=
  locked ← on_wst (on_lock ABTD_spinlock_is_locked);
  c_assert locked;;
  on_wst (new_dummy dummy);;
  on_wst (append_timed dummy);;
  timeout ← (if yieldable
             then on_wst (on_lock ABTD_spinlock_release);; timed_loop_yield fuel 0 dummy target_time
             else timed_loop_ext fuel 0 dummy target_time);
  if (timeout : bool) then
    locked ← on_wst (on_lock ABTD_spinlock_is_locked);
    c_assert locked;;
    r ← on_wst (ready dummy);
    let is_timedout := negb r in
    (if is_timedout then on_wst (remove_timed dummy) else mret ());;
    on_wst (on_lock ABTD_spinlock_release);;
    mret is_timedout
  else mret false.
End waiting.

(** A waitlist on its own. *)
Definition whole (s : wst) : wst := s.
Definition replace_whole (w s : wst) : wst := w.

(** ** Representation

    The waitlist holds the descriptors [l], oldest first; those in [T] are timed
    waiters. *)

Record wl_rep (T l : list ptr) (s : wst) : Prop := {
  wrep_head : p_head (wl s) = head l;
  wrep_tail : p_tail (wl s) = last l;
  wrep_nodup : NoDup l;
  wrep_alloc : ∀ a, a ∈ l → is_Some (wl_heap s !! a);
  wrep_next : ∀ i a, l !! i = Some a → nx (wl_heap s) a = l !! S i;
  wrep_prev : ∀ i b, l !! S i = Some b → b ∈ T → pv (wl_heap s) b = l !! i;
  wrep_type : ∀ b, b ∈ l → b ∈ T → ttype <$> wl_heap s !! b = Some ABTI_THREAD_TYPE_EXT;
}.

Definition tstate (h : gmap ptr ABTI_thread) (p : ptr) : option ABT_thread_state := state <$> h !! p.

(** Everything a list operation leaves alone. *)
Record wl_frame (k : list ptr) (s s' : wst) : Prop := {
  wfr_lock : wl_lock s' = wl_lock s;
  wfr_resumed : resumed s' = resumed s;
  wfr_state : ∀ a, tstate (wl_heap s') a = tstate (wl_heap s) a;
  wfr_type : ∀ a, ttype <$> wl_heap s' !! a = ttype <$> wl_heap s !! a;
  wfr_out : ∀ a, a ∉ k → wl_heap s' !! a = wl_heap s !! a;
}.

Section lemmas.
Implicit Types (h : gmap ptr ABTI_thread) (a b p : ptr) (l T : list ptr) (s : wst).

Lemma on_heap_run {A} (m : C (gmap ptr ABTI_thread) A) s (r : A) h :
  m (wl_heap s) = Done (r, h) → on_heap m s = Done (r, set_wl_heap h s).
Proof. intros E. unfold on_heap, zoom. by rewrite E. Qed.

Lemma on_heap_store_run f p s :
  is_Some (wl_heap s !! p) → on_heap (store f (Some p)) s = Done ((), set_wl_heap (alter f p (wl_heap s)) s).
Proof. intros Hp. by apply on_heap_run, store_run. Qed.

Lemma set_wl_heap_id s : set_wl_heap (wl_heap s) s = s.
Proof. by destruct s. Qed.

Lemma on_heap_load_run {A} (g : ABTI_thread → A) p t s :
  wl_heap s !! p = Some t → on_heap (load g (Some p)) s = Done (g t, s).
Proof.
  intros Hp. rewrite (on_heap_run _ _ (g t) (wl_heap s)) by (by apply load_run). by rewrite set_wl_heap_id.
Qed.

Lemma wl_load_next p s :
  is_Some (wl_heap s !! p) → on_heap (load p_next (Some p)) s = Done (nx (wl_heap s) p, s).
Proof. intros [t Ht]. rewrite (on_heap_load_run _ _ _ _ Ht). unfold nx. by rewrite Ht. Qed.

Lemma fmap_alter_same {A} (g : ABTI_thread → A) f p a h :
  (∀ t, g (f t) = g t) → g <$> alter f p h !! a = g <$> h !! a.
Proof.
  intros Hg. rewrite lookup_alter. case_decide; [|done]. subst. destruct (h !! a); simpl; [|done]. by rewrite Hg.
Qed.

Lemma last_lookup_inv l t : last l = Some t → ∃ i, l !! i = Some t ∧ l !! S i = None ∧ S i = length l.
Proof.
  intros Hl. rewrite last_lookup in Hl. destruct l as [|x l]; [done|]. simpl in Hl.
  exists (length l). split; [done|]. split; [|done]. apply lookup_ge_None_2. simpl. lia.
Qed.

Lemma last_Some_of l a : a ∈ l → is_Some (last l).
Proof. destruct l using rev_ind; [by intros ?%elem_of_nil|]. intros _. rewrite last_snoc. by eexists. Qed.

Lemma NoDup_lookup_ne l i j a b : NoDup l → l !! i = Some a → l !! j = Some b → i ≠ j → a ≠ b.
Proof. intros Hd Ha Hb Hne <-. apply Hne. by eapply NoDup_lookup. Qed.

(** *** Appending *)

(** The state after an append. *)
Definition app_state (l : list ptr) (p : ptr) (s : wst) : wst :=
  let s1 := set_wl_heap (alter (set_p_next None) p (wl_heap s)) s in
  match last l with
  | None => set_tail (Some p) (set_head (Some p) s1)
  | Some t => set_tail (Some p) (set_wl_heap (alter (set_p_next (Some p)) t (wl_heap s1)) s1)
  end.

Lemma head_last l : (head l = None ∧ last l = None ∧ l = []) ∨ ∃ x t, head l = Some x ∧ last l = Some t ∧ t ∈ l.
Proof.
  destruct l as [|x l]; [by left|right]. destruct (last_Some_of (x :: l) x) as [t Ht]; [set_solver|].
  exists x, t. split_and!; [done..|]. apply last_lookup_inv in Ht as (i & ? & _). by eapply list_elem_of_lookup_2.
Qed.

Lemma append_run T l p s :
  wl_rep T l s → is_Some (wl_heap s !! p) → append p s = Done ((), app_state l p s).
Proof.
  intros Hr Hal. unfold append, app_state. rewrite (C_bind_Done _ _ _ _ _ (on_heap_store_run _ p s Hal)).
  set (s1 := set_wl_heap _ s). rewrite (C_bind_Done _ _ s1 (head l) s1).
  2:{ unfold gets. simpl. by rewrite (wrep_head _ _ _ Hr). }
  destruct (head_last l) as [(-> & -> & _)|(x & t & -> & Ht & Htl)]; [done|]. rewrite Ht.
  assert (is_Some (wl_heap s1 !! t)) as Halt by (subst s1; simpl; rewrite alter_is_Some; by apply Hr).
  rewrite (C_bind_Done _ _ _ () (set_wl_heap (alter (set_p_next (Some p)) t (wl_heap s1)) s1)); [done|].
  rewrite (C_bind_Done _ _ s1 (Some t) s1) by (unfold gets; simpl; by rewrite (wrep_tail _ _ _ Hr), Ht).
  by apply on_heap_store_run.
Qed.

Definition add_prev (v : option ptr) (p : ptr) (s : wst) : wst :=
  set_wl_heap (alter (set_p_prev v) p (wl_heap s)) s.

Lemma append_timed_run T l p s :
  wl_rep T l s → is_Some (wl_heap s !! p) → append_timed p s = Done ((), add_prev (last l) p (app_state l p s)).
Proof.
  intros Hr Hal. unfold append_timed, app_state, add_prev. rewrite (C_bind_Done _ _ _ _ _ (on_heap_store_run _ p s Hal)).
  set (s1 := set_wl_heap _ s). rewrite (C_bind_Done _ _ s1 (head l) s1).
  2:{ unfold gets. simpl. by rewrite (wrep_head _ _ _ Hr). }
  assert (is_Some (wl_heap s1 !! p)) as Hal1 by (subst s1; simpl; by rewrite alter_is_Some).
  destruct (head_last l) as [(-> & -> & _)|(x & t & -> & Ht & Htl)].
  - rewrite (C_bind_Done _ _ _ () (set_wl_heap (alter (set_p_prev None) p (wl_heap s1)) (set_head (Some p) s1))); [done|].
    rewrite (C_bind_Done _ _ s1 () (set_head (Some p) s1)) by done. by rewrite on_heap_store_run.
  - rewrite Ht.
    assert (is_Some (wl_heap s1 !! t)) as Halt by (subst s1; simpl; rewrite alter_is_Some; by apply Hr).
    set (s2 := set_wl_heap (alter (set_p_next (Some p)) t (wl_heap s1)) s1).
    rewrite (C_bind_Done _ _ _ () (set_wl_heap (alter (set_p_prev (Some t)) p (wl_heap s2)) s2)); [done|].
    rewrite (C_bind_Done _ _ s1 (Some t) s1) by (unfold gets; simpl; by rewrite (wrep_tail _ _ _ Hr), Ht).
    rewrite (C_bind_Done _ _ _ _ _ (on_heap_store_run _ t s1 Halt)).
    apply on_heap_store_run. subst s2. simpl. by rewrite alter_is_Some.
Qed.

Lemma app_state_rep T l p s :
  wl_rep T l s → p ∉ l → p ∉ T → is_Some (wl_heap s !! p) →
  wl_rep T (l ++ [p]) (app_state l p s) ∧ wl_frame (p :: l) s (app_state l p s).
Proof.
  intros Hr Hp HpT Hal. unfold app_state.
  destruct (head_last l) as [(_ & -> & ->)|(x & t & Hx & Ht & Htl)].
  - split.
    + split; simpl; try done.
      * apply NoDup_singleton.
      * intros a Ha. apply list_elem_of_singleton in Ha as ->. by rewrite alter_is_Some.
      * intros [|[|i]] a Ha; simpl in Ha; simplify_eq. by rewrite nx_next_eq.
      * intros b Hb. apply list_elem_of_singleton in Hb as ->. done.
    + split; simpl; try done.
      * intros a. by apply fmap_alter_same.
      * intros a. by apply fmap_alter_same.
      * intros a Ha. rewrite lookup_alter_ne by set_solver. done.
  - rewrite Ht. assert (p ≠ t) as Hpt by (intros ->; done).
    apply last_lookup_inv in Ht as Htl'. destruct Htl' as (it & Hit & Hit2 & Hlen).
    split.
    + split; simpl.
      * rewrite (wrep_head _ _ _ Hr), Hx. by destruct l.
      * by rewrite last_snoc.
      * apply NoDup_app. split_and!; [apply Hr|set_solver|apply NoDup_singleton].
      * intros a Ha. rewrite !alter_is_Some. apply elem_of_app in Ha as [Ha|Ha]; [by apply Hr|]. set_solver.
      * intros i a [Hi|[Hi Ha]]%lookup_app_Some.
        -- assert (a ≠ p) by (intros ->; by eapply Hp, list_elem_of_lookup_2).
           destruct (decide (i = it)) as [->|Hne].
           ++ simplify_eq. rewrite nx_next_eq by (by rewrite alter_is_Some; apply Hr).
              rewrite lookup_app_r by lia. by replace (S it - length l)%nat with 0%nat by lia.
           ++ rewrite nx_next_ne by (eapply NoDup_lookup_ne; [apply Hr|exact Hit|exact Hi|done]).
              rewrite nx_next_ne by done. rewrite (wrep_next _ _ _ Hr i a Hi). apply lookup_lt_Some in Hi.
              rewrite lookup_app_l by lia. done.
        -- apply list_lookup_singleton_Some in Ha as [Hi0 <-]. rewrite nx_next_ne, nx_next_eq by done.
           symmetry. apply lookup_ge_None_2. rewrite length_app. simpl. lia.
      * intros i b [Hi|[Hi Hb]]%lookup_app_Some HbT.
        -- rewrite !pv_next, (wrep_prev _ _ _ Hr i b) by done. apply lookup_lt_Some in Hi. by rewrite lookup_app_l by lia.
        -- apply list_lookup_singleton_Some in Hb as [_ <-]. done.
      * intros b Hb HbT. rewrite !fmap_alter_same by done. apply Hr; [set_solver|done].
    + split; simpl; try done.
      * intros a. unfold tstate. by rewrite !fmap_alter_same.
      * intros a. by rewrite !fmap_alter_same.
      * intros a Ha. rewrite !lookup_alter_ne by set_solver. done.
Qed.

Lemma add_prev_rep T l k v p s :
  wl_rep T l s → l !! k = Some p → (∀ j, k = S j → v = l !! j) →
  ttype <$> wl_heap s !! p = Some ABTI_THREAD_TYPE_EXT →
  wl_rep (p :: T) l (add_prev v p s) ∧ wl_frame [p] s (add_prev v p s).
Proof.
  intros Hr Hk Hv Hty. assert (is_Some (wl_heap s !! p)) as Hal by (by apply Hr, (list_elem_of_lookup_2 _ k)).
  split.
  - split; simpl; try apply Hr.
    + intros a Ha. rewrite alter_is_Some. by apply Hr.
    + intros i a Ha. rewrite nx_prev. by apply Hr.
    + intros i b Hb HbT. destruct (decide (p = b)) as [<-|Hne].
      * rewrite pv_prev_eq by done. apply Hv. eapply NoDup_lookup; [apply Hr|done|done].
      * rewrite pv_prev_ne by done. apply Hr; [done|set_solver].
    + intros b Hb HbT. rewrite fmap_alter_same by done. destruct (decide (p = b)) as [<-|Hne]; [done|].
      apply Hr; [done|set_solver].
  - split; simpl; try done.
    + intros a. by apply fmap_alter_same.
    + intros a. by apply fmap_alter_same.
    + intros a Ha. rewrite lookup_alter_ne by set_solver. done.
Qed.

Lemma append_timed_ok T l p s :
  wl_rep T l s → p ∉ l → p ∉ T → ttype <$> wl_heap s !! p = Some ABTI_THREAD_TYPE_EXT →
  ∃ s', append_timed p s = Done ((), s') ∧ wl_rep (p :: T) (l ++ [p]) s' ∧ wl_frame (p :: l) s s'.
Proof.
  intros Hr Hp HpT Hty. assert (is_Some (wl_heap s !! p)) as Hal by (by destruct (wl_heap s !! p)).
  exists (add_prev (last l) p (app_state l p s)). split; [by eapply append_timed_run|].
  destruct (app_state_rep T l p s Hr Hp HpT Hal) as [Hr1 Hf1].
  destruct (add_prev_rep T (l ++ [p]) (length l) (last l) p (app_state l p s)) as [Hr2 Hf2]; [done| | | |].
  - by rewrite list_lookup_middle.
  - intros j Hj. rewrite last_lookup, Hj. simpl. by rewrite lookup_app_l by lia.
  - by rewrite (wfr_type _ _ _ Hf1).
  - split; [done|]. destruct Hf1 as [F1 F2 F3 F4 F5], Hf2 as [G1 G2 G3 G4 G5].
    split; [congruence..|]. intros a Ha. rewrite G5, F5 by set_solver. done.
Qed.

(** *** Removing a timed waiter *)

Lemma lookup_split_ne l1 p l2 i a : NoDup (l1 ++ p :: l2) → (l1 ++ p :: l2) !! i = Some a → i ≠ length l1 → a ≠ p.
Proof.
  intros Hd Hi Hne ->. apply Hne. eapply NoDup_lookup; [exact Hd|exact Hi|by apply list_lookup_middle].
Qed.

Lemma lookup_delete_mid l1 p l2 i :
  (l1 ++ l2) !! i = if decide (i < length l1)%nat then (l1 ++ p :: l2) !! i else (l1 ++ p :: l2) !! S i.
Proof.
  case_decide.
  - by rewrite !lookup_app_l by lia.
  - rewrite !lookup_app_r by lia. by replace (S i - length l1)%nat with (S (i - length l1)) by lia.
Qed.

Lemma remove_timed_ok T l1 p l2 s :
  wl_rep T (l1 ++ p :: l2) s → p ∈ T →
  ∃ s', remove_timed p s = Done ((), s') ∧ wl_rep T (l1 ++ l2) s' ∧ wl_frame (l1 ++ l2) s s'.
Proof.
  intros Hr HpT. pose proof (wrep_nodup _ _ _ Hr) as Hd.
  assert (p ∉ l1 ++ l2) as Hp by (rewrite NoDup_app, NoDup_cons in Hd; set_solver).
  assert (NoDup (l1 ++ l2)) as Hd' by (rewrite !NoDup_app, NoDup_cons in *; set_solver).
  assert (is_Some (wl_heap s !! p)) as Hal by (apply Hr; set_solver).
  pose proof (list_lookup_middle l1 l2 p _ eq_refl) as Hmid.
  assert (nx (wl_heap s) p = head l2) as Hnx.
  { rewrite (wrep_next _ _ _ Hr _ _ Hmid), lookup_app_r by lia.
    replace (S (length l1) - length l1)%nat with 1%nat by lia. by destruct l2. }
  unfold remove_timed. rewrite (C_bind_Done _ _ s (head (l1 ++ p :: l2)) s) by (unfold gets; by rewrite (wrep_head _ _ _ Hr)).
  rewrite (C_bind_Done _ _ _ _ _ (wl_load_next p s Hal)), Hnx.
  destruct (head_last l1) as [(_ & _ & ->)|(x & t & Hx & Ht & Htl)].
  - (* the head of the list *)
    simpl. rewrite decide_True by done.
    destruct l2 as [|y l2]; simpl.
    + rewrite (C_bind_Done _ _ s () (set_head None s)) by done.
      rewrite (C_bind_Done _ _ (set_head None s) (Some p) (set_head None s)) by (unfold gets; simpl; by rewrite (wrep_tail _ _ _ Hr)).
      rewrite bool_decide_true by done.
      exists (set_tail None (set_head None s)). split; [done|]. split; [|split; done].
      split; simpl; try done; try apply NoDup_nil_2; intros; set_solver.
    + rewrite (C_bind_Done _ _ s () (set_head (Some y) s)) by done. exists (set_head (Some y) s).
      split; [done|]. split; [|split; done]. simpl in *.
      split; simpl; try done.
      * rewrite (wrep_tail _ _ _ Hr). by rewrite last_cons_cons.
      * intros a Ha. apply Hr. set_solver.
      * intros i a Hi. apply (wrep_next _ _ _ Hr (S i)). done.
      * intros i b Hi HbT. apply (wrep_prev _ _ _ Hr (S i)); done.
      * intros b Hb HbT. apply Hr; [set_solver|done].
  - assert (head (l1 ++ p :: l2) = Some x) as -> by (by destruct l1).
    assert (x ≠ p) as Hxp by (destruct l1; simplify_eq/=; set_solver).
    rewrite decide_False by congruence.
    apply last_lookup_inv in Ht as Ht'. destruct Ht' as (it & Hit & _ & Hlen).
    assert (pv (wl_heap s) p = Some t) as Hpv.
    { rewrite (wrep_prev _ _ _ Hr it p); [by rewrite lookup_app_l by lia| |done].
      rewrite Hlen. done. }
    assert (t ≠ p) as Htp by (intros ->; set_solver).
    rewrite (C_bind_Done _ _ s (Some t) s).
    2:{ destruct Hal as [td Htd]. rewrite (on_heap_load_run _ _ _ _ Htd). unfold pv in Hpv. rewrite Htd in Hpv. simpl in Hpv. by rewrite Hpv. }
    rewrite (C_bind_Done _ _ s () s) by done.
    assert (is_Some (wl_heap s !! t)) as Halt by (apply Hr; set_solver).
    rewrite (C_bind_Done _ _ _ _ _ (on_heap_store_run _ t s Halt)).
    set (s1 := set_wl_heap _ s).
    rewrite (C_bind_Done _ _ s1 ABTI_THREAD_TYPE_EXT s1).
    2:{ destruct Hal as [td Htd]. assert (wl_heap s1 !! p = Some td) as E1 by (subst s1; simpl; by rewrite lookup_alter_ne).
        rewrite (on_heap_load_run _ _ _ _ E1). pose proof (wrep_type _ _ _ Hr p ltac:(set_solver) HpT) as Hty.
        rewrite Htd in Hty. simpl in Hty. injection Hty as ->. done. }
    assert (∀ i a, (l1 ++ l2) !! i = Some a →
      nx (alter (set_p_next (head l2)) t (wl_heap s)) a = (l1 ++ l2) !! S i) as Hnext.
    { intros i a Hi. rewrite (lookup_delete_mid l1 p l2) in Hi. rewrite (lookup_delete_mid l1 p l2 (S i)).
      destruct (decide (i = it)) as [->|Hne].
      - rewrite decide_True, lookup_app_l in Hi by lia. simplify_eq. rewrite nx_next_eq by done.
        rewrite decide_False by lia. rewrite lookup_app_r by lia.
        replace (S (S it) - length l1)%nat with 1%nat by lia. by destruct l2.
      - case_decide.
        + assert (a ≠ t).
          { eapply (NoDup_lookup_ne _ i it); [exact Hd|exact Hi| |done]. by rewrite lookup_app_l by lia. }
          rewrite nx_next_ne by done. rewrite (wrep_next _ _ _ Hr i a Hi). by rewrite decide_True by lia.
        + assert (a ≠ t).
          { eapply (NoDup_lookup_ne _ (S i) it); [exact Hd|exact Hi| |lia]. by rewrite lookup_app_l by lia. }
          rewrite nx_next_ne by done. rewrite (wrep_next _ _ _ Hr _ a Hi). by rewrite decide_False by lia. }
    destruct l2 as [|y l2].
    + (* the tail of the list *)
      simpl. rewrite (C_bind_Done _ _ s1 (Some p) s1) by (unfold gets; simpl; by rewrite (wrep_tail _ _ _ Hr), last_snoc).
      rewrite bool_decide_true by done. exists (set_tail (Some t) s1). split; [done|]. rewrite app_nil_r in *.
      split.
      * split; simpl; try done.
        -- rewrite (wrep_head _ _ _ Hr). by destruct l1.
        -- intros a Ha. rewrite alter_is_Some. apply Hr. set_solver.
        -- intros i b Hb HbT. rewrite pv_next. rewrite (wrep_prev _ _ _ Hr i b); [|by apply lookup_app_l_Some|done].
           apply lookup_lt_Some in Hb. by rewrite lookup_app_l by lia.
        -- intros b Hb HbT. rewrite fmap_alter_same by done. apply Hr; [set_solver|done].
      * split; simpl; try done.
        -- intros a. by apply fmap_alter_same.
        -- intros a. by apply fmap_alter_same.
        -- intros a Ha. rewrite lookup_alter_ne by set_solver. done.
    + simpl. assert (is_Some (wl_heap s1 !! y)) as Haly by (subst s1; simpl; rewrite alter_is_Some; apply Hr; set_solver).
      rewrite (on_heap_store_run _ y s1 Haly). eexists. split; [done|].
      split.
      * split; simpl; try done.
        -- rewrite (wrep_head _ _ _ Hr). by destruct l1.
        -- rewrite (wrep_tail _ _ _ Hr). rewrite !last_app_cons. by rewrite last_cons_cons.
        -- intros a Ha. rewrite !alter_is_Some. apply Hr. set_solver.
        -- intros i a Hi. rewrite nx_prev. by apply Hnext.
        -- intros i b Hb HbT. pose proof Hb as Hb'. rewrite (lookup_delete_mid l1 p (y :: l2)) in Hb'.
           rewrite (lookup_delete_mid l1 p (y :: l2) i). destruct (decide (y = b)) as [<-|Hyb].
           ++ rewrite pv_prev_eq by done.
              assert (S i = length l1) as Ei.
              { eapply NoDup_lookup; [exact Hd'|exact Hb|]. by apply list_lookup_middle. }
              rewrite decide_True, lookup_app_l by lia. replace i with it by lia. by rewrite Hit.
           ++ rewrite pv_prev_ne, pv_next by done. case_decide.
              ** rewrite decide_True by lia. by apply Hr.
              ** rewrite decide_False.
                 --- by apply Hr.
                 --- intros Hlt. assert (S i = length l1) by lia. rewrite H0 in Hb.
                     rewrite list_lookup_middle in Hb by done. congruence.
        -- intros b Hb HbT. rewrite !fmap_alter_same by done. apply Hr; [set_solver|done].
      * split; simpl; try done.
        -- intros a. unfold tstate. by rewrite !fmap_alter_same.
        -- intros a. by rewrite !fmap_alter_same.
        -- intros a Ha. rewrite !lookup_alter_ne by set_solver. done.
Qed.
End lemmas.

(** ** Waking *)

(** A user-level thread, that goes back to its pool when it is woken. *)
Definition yieldable (h : gmap ptr ABTI_thread) (p : ptr) : bool :=
  match h !! p with
  | Some t => negb (Z.eqb (Z.land (ttype t) ABTI_THREAD_TYPE_YIELDABLE) 0)
  | None => false
  end.

(** [woken h k s s']: from [s] to [s'] exactly the waiters [k] were made ready,
    in this order, and the user-level threads among them pushed to their pools. *)
Record woken (k : list ptr) (s s' : wst) : Prop := {
  wkn_lock : wl_lock s' = wl_lock s;
  wkn_ready : ∀ a, a ∈ k → tstate (wl_heap s') a = Some ABT_THREAD_STATE_READY;
  wkn_state : ∀ a, a ∉ k → tstate (wl_heap s') a = tstate (wl_heap s) a;
  wkn_type : ∀ a, ttype <$> wl_heap s' !! a = ttype <$> wl_heap s !! a;
  wkn_resumed : resumed s' = resumed s ++ filter (λ a, yieldable (wl_heap s) a = true) k;
}.

Section waking.
Implicit Types (h : gmap ptr ABTI_thread) (a b p : ptr) (l T k : list ptr) (s : wst).

Lemma yieldable_type h h' p : ttype <$> h' !! p = ttype <$> h !! p → yieldable h' p = yieldable h p.
Proof. unfold yieldable. destruct (h !! p), (h' !! p); simpl; intros; simplify_eq; congruence. Qed.

Lemma woken_nil s : woken [] s s.
Proof. split; try done; [intros a []%elem_of_nil|by rewrite app_nil_r]. Qed.

Lemma woken_trans k1 k2 s1 s2 s3 :
  woken k1 s1 s2 → woken k2 s2 s3 → woken (k1 ++ k2) s1 s3.
Proof.
  intros W1 W2. split.
  - rewrite (wkn_lock _ _ _ W2). apply W1.
  - intros a Ha. destruct (decide (a ∈ k2)); [by apply W2|].
    rewrite (wkn_state _ _ _ W2) by done. apply W1. set_solver.
  - intros a Ha. rewrite (wkn_state _ _ _ W2), (wkn_state _ _ _ W1) by set_solver. done.
  - intros a. rewrite (wkn_type _ _ _ W2). apply W1.
  - rewrite (wkn_resumed _ _ _ W2), (wkn_resumed _ _ _ W1), filter_app, app_assoc. f_equal.
    apply list_filter_iff. intros a. by rewrite (yieldable_type _ _ a (wkn_type _ _ _ W1 a)).
Qed.

(** What waking [p] does once it is unlinked. *)
Definition wake_state (p : ptr) (s : wst) : wst :=
  let s1 := set_wl_heap (alter (set_state ABT_THREAD_STATE_READY) p (wl_heap s)) s in
  if yieldable (wl_heap s) p then set_resumed (resumed s ++ [p]) s1 else s1.

Lemma wake_run p s : is_Some (wl_heap s !! p) → wake p s = Done (negb (yieldable (wl_heap s) p), wake_state p s).
Proof.
  intros Hal. unfold wake, wake_state, yieldable. destruct (Hal) as [t Ht]. rewrite Ht.
  rewrite (C_bind_Done _ _ s (if Z.eqb (Z.land (ttype t) ABTI_THREAD_TYPE_YIELDABLE) 0 then None else Some p) s).
  2:{ unfold on_heap, zoom, ABTI_thread_get_ythread_or_null.
      rewrite (C_bind_Done _ _ _ _ _ (load_run _ _ _ _ Ht)). simpl. by rewrite set_wl_heap_id. }
  destruct (Z.eqb _ 0); simpl negb; cbv iota;
    by rewrite (C_bind_Done _ _ _ _ _ (on_heap_store_run _ p s Hal)).
Qed.

(** Unlinking and waking one waiter. *)
Definition unlink_wake (p : ptr) (s : wst) : wst :=
  wake_state p (set_wl_heap (alter (set_p_next None) p (wl_heap s)) s).

Lemma unlink_wake_woken p s : is_Some (wl_heap s !! p) → woken [p] s (unlink_wake p s).
Proof.
  intros Hal. unfold unlink_wake, wake_state.
  assert (yieldable (wl_heap (set_wl_heap (alter (set_p_next None) p (wl_heap s)) s)) p = yieldable (wl_heap s) p) as ->.
  { apply yieldable_type. simpl. by apply fmap_alter_same. }
  split.
  - by destruct (yieldable _ p).
  - intros a Ha. apply list_elem_of_singleton in Ha as ->. destruct Hal as [t Ht].
    destruct (yieldable _ p); simpl; unfold tstate; by rewrite !lookup_alter_eq, Ht.
  - intros a Ha. destruct (yieldable _ p); simpl; unfold tstate; rewrite !lookup_alter_ne by set_solver; done.
  - intros a. destruct (yieldable _ p); simpl; by rewrite !fmap_alter_same.
  - rewrite filter_cons. simpl. destruct (yieldable (wl_heap s) p); [by rewrite decide_True|].
    rewrite decide_False by done. by rewrite app_nil_r.
Qed.

Lemma unlink_wake_lookup_ne p a s : a ≠ p → wl_heap (unlink_wake p s) !! a = wl_heap s !! a.
Proof. intros. unfold unlink_wake, wake_state. destruct (yieldable _ p); simpl; by rewrite !lookup_alter_ne. Qed.

Lemma unlink_wake_wl p s : wl (unlink_wake p s) = wl s.
Proof. unfold unlink_wake, wake_state. by destruct (yieldable _ p). Qed.

Lemma unlink_wake_dom p s : dom (wl_heap (unlink_wake p s)) = dom (wl_heap s).
Proof. unfold unlink_wake, wake_state. destruct (yieldable _ p); simpl; by rewrite !dom_alter_L. Qed.

(** The rest of the list is still in place. *)
Record links (l : list ptr) (s : wst) : Prop := {
  lk_nodup : NoDup l;
  lk_alloc : ∀ a, a ∈ l → is_Some (wl_heap s !! a);
  lk_next : ∀ i a, l !! i = Some a → nx (wl_heap s) a = l !! S i;
}.

Lemma rep_links T l s : wl_rep T l s → links l s.
Proof. intros Hr. split; apply Hr. Qed.

Lemma links_cons_inv p l s : links (p :: l) s → is_Some (wl_heap s !! p) ∧ nx (wl_heap s) p = head l ∧ links l (unlink_wake p s).
Proof.
  intros Hk. pose proof (lk_nodup _ _ Hk) as [Hp Hd]%NoDup_cons.
  split; [apply Hk; set_solver|]. split; [rewrite (lk_next _ _ Hk 0%nat p eq_refl); by destruct l|]. split.
  - done.
  - intros a Ha. rewrite unlink_wake_lookup_ne by (intros ->; done). apply Hk. set_solver.
  - intros i a Ha. unfold nx. rewrite unlink_wake_lookup_ne by (intros ->; apply Hp; by eapply list_elem_of_lookup_2).
    apply (lk_next _ _ Hk (S i) a Ha).
Qed.

(** The wake-up of the front waiter, shared by signal and broadcast. *)
Lemma wake_front_run {B} p l s (k : option ptr → bool → C wst B) :
  links (p :: l) s →
  (next ← on_heap (load p_next (Some p));
   on_heap (store (set_p_next None) (Some p));; ext ← wake p; k next ext) s =
  k (head l) (negb (yieldable (wl_heap s) p)) (unlink_wake p s).
Proof.
  intros Hk. destruct (links_cons_inv _ _ _ Hk) as (Hal & Hnx & _).
  rewrite (C_bind_Done _ _ _ _ _ (wl_load_next p s Hal)), Hnx.
  rewrite (C_bind_Done _ _ _ _ _ (on_heap_store_run _ p s Hal)).
  set (s1 := set_wl_heap _ s). assert (is_Some (wl_heap s1 !! p)) as Hal1 by (simpl; by rewrite alter_is_Some).
  rewrite (C_bind_Done _ _ _ _ _ (wake_run p s1 Hal1)).
  assert (yieldable (wl_heap s1) p = yieldable (wl_heap s) p) as ->; [|done]. apply yieldable_type. simpl. by apply fmap_alter_same.
Qed.

Lemma existsb_same (f g : ptr → bool) l : (∀ a, f a = g a) → existsb f l = existsb g l.
Proof. intros Hfg. induction l as [|a l IH]; [done|]. simpl. by rewrite Hfg, IH. Qed.

Lemma broadcast_loop_ok fuel l p (c : bool) s :
  links (p :: l) s → (length l < fuel)%nat →
  ∃ s', broadcast_loop fuel p c s = Done ((c || existsb (λ a, negb (yieldable (wl_heap s) a)) (p :: l))%bool, s') ∧
    woken (p :: l) s s' ∧ wl s' = wl s.
Proof.
  revert l p c s. induction fuel as [|fuel IH]; intros l p c s Hk Hf; [lia|]. cbn [broadcast_loop].
  rewrite (wake_front_run p l s (λ next ext, match next with Some q => _ | None => _ end) Hk).
  destruct (links_cons_inv _ _ _ Hk) as (Hal & _ & Hk1).
  pose proof (unlink_wake_woken p s Hal) as W1.
  destruct l as [|q l]; simpl.
  - exists (unlink_wake p s). rewrite orb_false_r. split; [done|]. split; [done|]. apply unlink_wake_wl.
  - destruct (IH l q (c || negb (yieldable (wl_heap s) p))%bool _ Hk1 ltac:(simpl in Hf; lia)) as (s' & E & W2 & Hwl).
    exists s'. split; [|split].
    + assert (∀ a, yieldable (wl_heap (unlink_wake p s)) a = yieldable (wl_heap s) a) as Ey
        by (intros a; apply yieldable_type, W1).
      rewrite E, <- orb_assoc. rewrite (existsb_same _ (λ a, negb (yieldable (wl_heap s) a))); [done|].
      intros a. by rewrite Ey.
    + apply (woken_trans [p] (q :: l) _ _ _ W1 W2).
    + rewrite Hwl. apply unlink_wake_wl.
Qed.

(** Signalling wakes the oldest waiter, and nobody when there is none. *)
Lemma signal_ok T l s :
  wl_rep T l s →
  ∃ s', ABTI_waitlist_signal s = Done ((), s') ∧ wl_rep T (tail l) s' ∧ woken (take 1 l) s s' ∧
    (∀ a, a ∉ take 1 l → wl_heap s' !! a = wl_heap s !! a).
Proof.
  intros Hr. unfold ABTI_waitlist_signal.
  rewrite (C_bind_Done _ _ s (head l) s) by (unfold gets; by rewrite (wrep_head _ _ _ Hr)).
  destruct l as [|p l]; cbn [head].
  - exists s. split; [done|]. split; [done|]. split; [apply woken_nil|done].
  - rewrite (wake_front_run p l s (λ next ext, _) (rep_links _ _ _ Hr)).
    destruct (links_cons_inv _ _ _ (rep_links _ _ _ Hr)) as (Hal & _ & Hk1).
    pose proof (unlink_wake_woken p s Hal) as W.
    set (s1 := unlink_wake p s) in *.
    set (s2 := if negb (yieldable (wl_heap s) p) then bump_futex s1 else s1).
    set (s3 := set_head (head l) s2).
    assert (wl_heap s2 = wl_heap s1 ∧ wl_lock s2 = wl_lock s1 ∧ resumed s2 = resumed s1 ∧ p_tail (wl s2) = p_tail (wl s1))
      as (E1 & E2 & E3 & E4) by (subst s2; by destruct (yieldable _ p)).
    exists (match l with [] => set_tail None s3 | _ => s3 end). split; [|split; [|split]].
    + destruct (yieldable (wl_heap s) p), l; done.
    + assert (p ∉ l) as Hp by (pose proof (wrep_nodup _ _ _ Hr) as [? _]%NoDup_cons; done).
      assert (∀ a, a ∈ l → wl_heap s3 !! a = wl_heap s !! a) as Hsame.
      { intros a Ha. subst s3. simpl. rewrite E1. apply unlink_wake_lookup_ne. by intros ->. }
      assert (∀ s', wl_heap s' = wl_heap s3 → p_head (wl s') = head l → p_tail (wl s') = last l → wl_rep T l s') as HH.
      { intros s' Eh Ehd Etl. split; rewrite ?Eh; try done; [apply Hk1|subst s3; simpl; rewrite E1; apply Hk1
          |subst s3; simpl; rewrite E1; apply Hk1| |].
        - intros i b Hb HbT. unfold pv. rewrite Hsame by (by eapply list_elem_of_lookup_2).
          apply (wrep_prev _ _ _ Hr (S i) b Hb HbT).
        - intros b Hb HbT. rewrite Hsame by done. apply Hr; [set_solver|done]. }
      destruct l as [|q l]; apply HH; try done.
      subst s3. simpl. rewrite E4. subst s1. rewrite unlink_wake_wl, (wrep_tail _ _ _ Hr). by rewrite last_cons_cons.
    + destruct W as [W1 W2 W3 W4 W5]. cbn [take].
      destruct l; split; simpl; rewrite ?E1, ?E2, ?E3; done.
    + intros a Ha. destruct l; simpl; rewrite E1; apply unlink_wake_lookup_ne; set_solver.
Qed.

(** Broadcasting wakes every waiter, oldest first, and empties the list. *)
Lemma broadcast_ok T l s :
  wl_rep T l s →
  ∃ s', ABTI_waitlist_broadcast s = Done ((), s') ∧ wl_rep T [] s' ∧ woken l s s'.
Proof.
  intros Hr. unfold ABTI_waitlist_broadcast.
  rewrite (C_bind_Done _ _ s (head l) s) by (unfold gets; by rewrite (wrep_head _ _ _ Hr)).
  destruct l as [|p l]; cbn [head].
  - exists s. split; [done|]. split; [done|]. apply woken_nil.
  - destruct (broadcast_loop_ok (size (wl_heap s)) l p false s (rep_links _ _ _ Hr)) as (s' & E & W & Hwl).
    { assert (list_to_set (p :: l) ⊆@{gset ptr} dom (wl_heap s)) as Hsub.
      { intros a Ha. apply elem_of_dom. apply Hr. by apply elem_of_list_to_set in Ha. }
      apply subseteq_size in Hsub. rewrite size_list_to_set in Hsub by apply Hr. rewrite size_dom in Hsub. simpl in Hsub. lia. }
    rewrite (C_bind_Done _ _ s (size (wl_heap s)) s) by done. rewrite (C_bind_Done _ _ _ _ _ E).
    set (b := (false || existsb _ _)%bool). clearbody b. set (s2 := set_tail None (set_head None s')).
    exists (if b then bump_futex s2 else s2). split; [by destruct b|].
    assert (∀ s'', wl_heap s'' = wl_heap s' → p_head (wl s'') = None → p_tail (wl s'') = None → wl_rep T [] s'') as HH.
    { intros s'' _ Eh Et. split; try done; [apply NoDup_nil_2|intros; set_solver..]. }
    destruct W as [W1 W2 W3 W4 W5]. destruct b; (split; [by apply HH|]); split; done.
Qed.
End waking.

(** ** The waitlist as a FIFO of waiters

    The abstract waitlist is the list of waiters, oldest first, with a flag for
    the timed ones.  [X] are descriptors that belong to somebody else and [Y] the
    user-level threads. *)

Inductive wop :=
  | Suspend (p : ptr) | Sleep (p : ptr) | TimedWait (p : ptr) | Timeout (p : ptr)
  | Signal | Broadcast.

Definition timed (l : list (ptr * bool)) : list ptr := (filter (λ x, x.2 = true) l).*1.

Definition abs_step (X Y : list ptr) (o : wop) (l : list (ptr * bool)) : option (list ptr * list (ptr * bool)) :=
  match o with
  | Suspend p =>
      if decide ((p ∉ l.*1) ∧ (p ∉ X) ∧ (p ∈ Y)) then Some ([], l ++ [(p, false)]) else None
  | Sleep p =>
      if decide ((p ∉ l.*1) ∧ (p ∉ X) ∧ (p ∉ Y)) then Some ([], l ++ [(p, false)]) else None
  | TimedWait p =>
      if decide ((p ∉ l.*1) ∧ (p ∉ X) ∧ (p ∉ Y)) then Some ([], l ++ [(p, true)]) else None
  | Timeout p =>
      if decide ((p ∈ timed l) ∧ (p ∉ X)) then Some ([], filter (λ x, x.1 ≠ p) l) else None
  | Signal => Some (take 1 l.*1, tail l)
  | Broadcast => Some (l.*1, [])
  end.

Fixpoint abs_run (X Y : list ptr) (os : list wop) (l : list (ptr * bool)) : option (list ptr * list (ptr * bool)) :=
  match os with
  | [] => Some ([], l)
  | o :: os =>
      match abs_step X Y o l with
      | Some (w, l') =>
          match abs_run X Y os l' with
          | Some (w', l'') => Some (w ++ w', l'')
          | None => None
          end
      | None => None
      end
  end.

(** What the code does for one operation between acquiring and releasing the lock. *)
Definition wop_body (o : wop) : C wst unit :=
  match o with
  | Suspend p => append p;; on_heap (store (set_state ABT_THREAD_STATE_BLOCKED) (Some p))
  | Sleep p => new_dummy p;; append p
  | TimedWait p => new_dummy p;; append_timed p
  | Timeout p => r ← ready p; if (r : bool) then mret () else remove_timed p
  | Signal => ABTI_waitlist_signal
  | Broadcast => ABTI_waitlist_broadcast
  end.

Definition wop_run (o : wop) : C wst unit :=
  on_lock ABTD_spinlock_acquire;; wop_body o;; on_lock ABTD_spinlock_release.

Fixpoint run_ops (os : list wop) : C wst unit :=
  match os with
  | [] => mret ()
  | o :: os => wop_run o;; run_ops os
  end.

Record winv (Y : list ptr) (l : list (ptr * bool)) (s : wst) : Prop := {
  wi_rep : wl_rep (timed l) l.*1 s;
  wi_blocked : ∀ p, p ∈ l.*1 → tstate (wl_heap s) p = Some ABT_THREAD_STATE_BLOCKED;
  wi_ult : ∀ p, p ∈ Y → yieldable (wl_heap s) p = true;
  wi_ext : ∀ p, p ∈ l.*1 → p ∉ Y → yieldable (wl_heap s) p = false;
}.

(** What one operation changes, apart from the list: [w] are made ready. *)
Record wstep (X Y w : list ptr) (s s' : wst) : Prop := {
  ws_lock : wl_lock s' = wl_lock s;
  ws_resumed : resumed s' = resumed s ++ filter (λ p, p ∈ Y) w;
  ws_ready : ∀ a, a ∈ w → a ∈ X → tstate (wl_heap s') a = Some ABT_THREAD_STATE_READY;
  ws_state : ∀ a, a ∉ w → a ∈ X → tstate (wl_heap s') a = tstate (wl_heap s) a;
}.

Section fifo.
Context (X Y : list ptr).
Implicit Types (l : list (ptr * bool)) (s : wst) (p : ptr) (w : list ptr).

Lemma elem_of_timed l p : p ∈ timed l ↔ (p, true) ∈ l.
Proof.
  unfold timed. rewrite list_elem_of_fmap. split.
  - intros ([q b] & -> & [Hb Hin]%list_elem_of_filter). simpl in *. by subst.
  - intros Hin. exists (p, true). split; [done|]. by apply list_elem_of_filter.
Qed.

Lemma timed_sub l p : p ∈ timed l → p ∈ l.*1.
Proof. rewrite elem_of_timed. intros Hp. apply list_elem_of_fmap. by exists (p, true). Qed.

Lemma wl_rep_sub T T' k s : wl_rep T k s → (∀ p, p ∈ k → p ∈ T' → p ∈ T) → wl_rep T' k s.
Proof.
  intros Hr Hsub. split; try apply Hr.
  - intros i b Hb HbT. apply Hr; [done|]. apply Hsub; [by eapply list_elem_of_lookup_2|done].
  - intros b Hb HbT. apply Hr; [done|]. by apply Hsub.
Qed.

Lemma yieldable_alloc h p : yieldable h p = true → is_Some (h !! p).
Proof. unfold yieldable. by destruct (h !! p). Qed.

Lemma append_ok T k p s :
  wl_rep T k s → p ∉ k → p ∉ T → is_Some (wl_heap s !! p) →
  ∃ s', append p s = Done ((), s') ∧ wl_rep T (k ++ [p]) s' ∧ wl_frame (p :: k) s s'.
Proof.
  intros Hr Hp HpT Hal. exists (app_state k p s). split; [by eapply append_run|]. by apply app_state_rep.
Qed.

(** The invariant from the frame of a list operation. *)
Lemma winv_frame k l l' s s' :
  winv Y l s → wl_frame k s s' → wl_rep (timed l') l'.*1 s' →
  (∀ p, p ∈ l'.*1 → p ∉ l.*1 → tstate (wl_heap s) p = Some ABT_THREAD_STATE_BLOCKED ∧
     (p ∉ Y → yieldable (wl_heap s) p = false)) →
  winv Y l' s'.
Proof.
  intros Hi Hf Hr Hnew. split; [done| | |].
  - intros p Hp. rewrite (wfr_state _ _ _ Hf). destruct (decide (p ∈ l.*1)); [by apply Hi|]. by apply Hnew.
  - intros p Hp. rewrite (yieldable_type _ _ _ (wfr_type _ _ _ Hf p)). by apply Hi.
  - intros p Hp HpY. rewrite (yieldable_type _ _ _ (wfr_type _ _ _ Hf p)).
    destruct (decide (p ∈ l.*1)); [by apply Hi|]. by apply Hnew.
Qed.

Lemma wstep_frame k s s' : wl_frame k s s' → wstep X Y [] s s'.
Proof. intros Hf. split; [apply Hf|by rewrite app_nil_r; apply Hf|intros a []%elem_of_nil|]. intros a _ _. apply Hf. Qed.

(** A fresh stack descriptor. *)
Definition dummied (p : ptr) (s : wst) : wst :=
  set_wl_heap (<[p := mk_thread None None 0 ABTI_THREAD_TYPE_EXT ABT_THREAD_STATE_BLOCKED]> (wl_heap s)) s.

Lemma dummied_winv l p s : winv Y l s → p ∉ l.*1 → p ∉ Y → winv Y l (dummied p s).
Proof.
  intros Hi Hp HpY. assert (∀ a, a ∈ l.*1 ∨ a ∈ Y → wl_heap (dummied p s) !! a = wl_heap s !! a) as Hsame.
  { intros a Ha. simpl. rewrite lookup_insert_ne; [done|]. intros ->. naive_solver. }
  destruct Hi as [Hr Hb Hu He]. split.
  - split; try apply Hr.
    + intros a Ha. rewrite Hsame by auto. by apply Hr.
    + intros i a Ha. unfold nx. rewrite Hsame by (left; by eapply list_elem_of_lookup_2). by apply Hr.
    + intros i a Ha HaT. unfold pv. rewrite Hsame by (left; by eapply list_elem_of_lookup_2). by apply Hr.
    + intros a Ha HaT. rewrite Hsame by auto. by apply Hr.
  - intros a Ha. unfold tstate. rewrite Hsame by auto. by apply Hb.
  - intros a Ha. unfold yieldable. rewrite Hsame by auto. by apply Hu.
  - intros a Ha HaY. unfold yieldable. rewrite Hsame by auto. by apply He.
Qed.

Lemma dummied_at p s :
  tstate (wl_heap (dummied p s)) p = Some ABT_THREAD_STATE_BLOCKED ∧
  yieldable (wl_heap (dummied p s)) p = false ∧
  ttype <$> wl_heap (dummied p s) !! p = Some ABTI_THREAD_TYPE_EXT.
Proof. unfold tstate, yieldable. simpl. by rewrite lookup_insert_eq. Qed.

Lemma dummied_wstep p s : p ∉ X → wstep X Y [] s (dummied p s).
Proof.
  intros Hp. split; [done|by rewrite app_nil_r|intros a []%elem_of_nil|].
  intros a _ Ha. unfold tstate. simpl. rewrite lookup_insert_ne; [done|]. by intros ->.
Qed.

Lemma wstep_trans w1 w2 s1 s2 s3 : wstep X Y w1 s1 s2 → wstep X Y w2 s2 s3 → wstep X Y (w1 ++ w2) s1 s3.
Proof.
  intros W1 W2. split.
  - rewrite (ws_lock _ _ _ _ _ W2). apply W1.
  - rewrite (ws_resumed _ _ _ _ _ W2), (ws_resumed _ _ _ _ _ W1), filter_app, app_assoc. done.
  - intros a Ha HaX. destruct (decide (a ∈ w2)); [by apply W2|].
    rewrite (ws_state _ _ _ _ _ W2) by done. apply W1; [set_solver|done].
  - intros a Ha HaX. rewrite (ws_state _ _ _ _ _ W2), (ws_state _ _ _ _ _ W1) by set_solver. done.
Qed.

Lemma timed_snoc l p b : timed (l ++ [(p, b)]) = timed l ++ (if b then [p] else []).
Proof. unfold timed. rewrite filter_app, fmap_app. f_equal. by destruct b. Qed.

Lemma snoc_rep_T T l p b s :
  wl_rep T (l.*1 ++ [p]) s → (∀ q, q ∈ timed l → q ∈ T) → (b = true → p ∈ T) →
  wl_rep (timed (l ++ [(p, b)])) (l ++ [(p, b)]).*1 s.
Proof.
  intros Hr HT Hb. rewrite fmap_app. eapply wl_rep_sub; [exact Hr|].
  intros q _. rewrite timed_snoc. destruct b; set_solver.
Qed.

Lemma sleep_ok l p s :
  winv Y l s → p ∉ l.*1 → p ∉ X → p ∉ Y →
  ∃ s', wop_body (Sleep p) s = Done ((), s') ∧ winv Y (l ++ [(p, false)]) s' ∧ wstep X Y [] s s'.
Proof.
  intros Hi Hp HpX HpY. pose proof (dummied_winv l p s Hi Hp HpY) as Hi1. destruct (dummied_at p s) as (D1 & D2 & D3).
  destruct (append_ok (timed l) l.*1 p (dummied p s)) as (s' & E & Hr & Hf); [apply Hi1|done| | |].
  { intros ?%timed_sub. done. } { by destruct (wl_heap (dummied p s) !! p). }
  exists s'. split; [exact E|]. split.
  - eapply winv_frame; [exact Hi1|exact Hf|eapply snoc_rep_T; [done|done|done]|].
    intros q Hq Hq'. rewrite fmap_app in Hq. assert (q = p) as -> by set_solver. done.
  - apply (wstep_trans [] [] _ _ _ (dummied_wstep p s HpX)). by eapply wstep_frame.
Qed.

Lemma timedwait_ok l p s :
  winv Y l s → p ∉ l.*1 → p ∉ X → p ∉ Y →
  ∃ s', wop_body (TimedWait p) s = Done ((), s') ∧ winv Y (l ++ [(p, true)]) s' ∧ wstep X Y [] s s'.
Proof.
  intros Hi Hp HpX HpY. pose proof (dummied_winv l p s Hi Hp HpY) as Hi1. destruct (dummied_at p s) as (D1 & D2 & D3).
  destruct (append_timed_ok (timed l) l.*1 p (dummied p s)) as (s' & E & Hr & Hf); [apply Hi1|done| |done|].
  { intros ?%timed_sub. done. }
  exists s'. split; [exact E|]. split.
  - eapply winv_frame; [exact Hi1|exact Hf|eapply snoc_rep_T; [done|set_solver|set_solver]|].
    intros q Hq Hq'. rewrite fmap_app in Hq. assert (q = p) as -> by set_solver. done.
  - apply (wstep_trans [] [] _ _ _ (dummied_wstep p s HpX)). by eapply wstep_frame.
Qed.

Lemma filter_ne_split l p : NoDup l.*1 → p ∈ l.*1 → ∃ l1 b l2, l = l1 ++ (p, b) :: l2 ∧ filter (λ x, x.1 ≠ p) l = l1 ++ l2.
Proof.
  intros Hd Hp. apply list_elem_of_fmap in Hp as ([q b] & -> & Hin). simpl in *.
  apply list_elem_of_split in Hin as (l1 & l2 & ->). exists l1, b, l2. split; [done|].
  rewrite fmap_app, fmap_cons, NoDup_app, NoDup_cons in Hd. destruct Hd as (_ & Hd1 & Hd2 & _). simpl in *.
  rewrite filter_app, filter_cons_False by naive_solver. f_equal; apply filter_all, Forall_forall; intros [a c] Ha; simpl; intros ->.
  - apply (Hd1 q); [|set_solver]. apply list_elem_of_fmap. by exists (q, c).
  - apply Hd2. apply list_elem_of_fmap. by exists (q, c).
Qed.

Lemma wl_remove_ok l p s :
  winv Y l s → p ∈ timed l →
  ∃ s', remove_timed p s = Done ((), s') ∧ winv Y (filter (λ x, x.1 ≠ p) l) s' ∧ wl_frame l.*1 s s'.
Proof.
  intros Hi Hp. pose proof (wi_rep _ _ _ Hi) as Hr.
  destruct (filter_ne_split l p) as (l1 & b & l2 & -> & ->); [apply Hr|by apply timed_sub|].
  rewrite fmap_app, fmap_cons in Hr. simpl in Hr.
  destruct (remove_timed_ok (timed (l1 ++ (p, b) :: l2)) l1.*1 p l2.*1 s) as (s' & E & Hr' & Hf); [done|done|].
  assert (wl_frame (l1 ++ (p, b) :: l2).*1 s s') as Hf'.
  { destruct Hf as [F1 F2 F3 F4 F5]. split; try done. intros a Ha. apply F5. rewrite fmap_app, fmap_cons in Ha. set_solver. }
  exists s'. split; [done|]. split; [|done]. eapply winv_frame; [exact Hi|exact Hf'| |].
  - rewrite fmap_app. eapply wl_rep_sub; [exact Hr'|]. intros q _. rewrite !elem_of_timed. set_solver.
  - intros q Hq Hq'. exfalso. apply Hq'. rewrite fmap_app, fmap_cons. rewrite fmap_app in Hq. set_solver.
Qed.

Lemma ready_run p t s : tstate (wl_heap s) p = Some t → ready p s = Done (bool_decide (t = ABT_THREAD_STATE_READY), s).
Proof.
  unfold tstate. destruct (wl_heap s !! p) as [d|] eqn:Hd; [|done]. simpl. intros [= <-]. unfold ready.
  by rewrite (C_bind_Done _ _ _ _ _ (on_heap_load_run _ _ _ _ Hd)).
Qed.

(** Waking keeps the invariant. *)
Lemma winv_woken l l' s s' k :
  winv Y l s → woken k s s' → wl_rep (timed l') l'.*1 s' →
  (∀ p, p ∈ l'.*1 → p ∈ l.*1 ∧ p ∉ k) → (∀ p, p ∈ k → p ∈ l.*1) →
  winv Y l' s' ∧ wstep X Y k s s'.
Proof.
  intros Hi Hw Hr Hsub Hk. split; [split; [done| | |]|split].
  - intros p Hp. rewrite (wkn_state _ _ _ Hw) by (by apply Hsub). by apply Hi, Hsub.
  - intros p Hp. rewrite (yieldable_type _ _ _ (wkn_type _ _ _ Hw p)). by apply Hi.
  - intros p Hp HpY. rewrite (yieldable_type _ _ _ (wkn_type _ _ _ Hw p)). apply Hi; [by apply Hsub|done].
  - apply Hw.
  - rewrite (wkn_resumed _ _ _ Hw). f_equal. clear -Hi Hk. induction k as [|p k IH]; [done|].
    rewrite !filter_cons, IH by set_solver.
    destruct (decide (p ∈ Y)) as [HpY|HpY].
    + rewrite (decide_True (P := yieldable _ _ = true)) by (by apply Hi). done.
    + rewrite (decide_False (P := yieldable _ _ = true)); [done|].
      rewrite (wi_ext _ _ _ Hi p) by (try apply Hk; set_solver). done.
  - intros a Ha _. by apply Hw.
  - intros a Ha _. by apply Hw.
Qed.

Lemma suspend_ok l p s :
  winv Y l s → p ∉ l.*1 → p ∉ X → p ∈ Y →
  ∃ s', wop_body (Suspend p) s = Done ((), s') ∧ winv Y (l ++ [(p, false)]) s' ∧ wstep X Y [] s s'.
Proof.
  intros Hi Hp HpX HpY. assert (is_Some (wl_heap s !! p)) as Hal by (by apply yieldable_alloc, Hi).
  destruct (append_ok (timed l) l.*1 p s) as (s1 & E & Hr & Hf); [apply Hi|done|by intros ?%timed_sub|done|].
  assert (is_Some (wl_heap s1 !! p)) as Hal1 by (apply Hr; set_solver).
  set (s2 := set_wl_heap (alter (set_state ABT_THREAD_STATE_BLOCKED) p (wl_heap s1)) s1).
  exists s2. split; [|split].
  - unfold wop_body. rewrite (C_bind_Done _ _ _ _ _ E). by apply on_heap_store_run.
  - assert (∀ q, ttype <$> wl_heap s2 !! q = ttype <$> wl_heap s !! q) as Ety.
    { intros q. subst s2. simpl. rewrite fmap_alter_same by done. apply Hf. }
    split.
    + apply (snoc_rep_T (timed l)); [|done|done]. destruct Hr as [R1 R2 R3 R4 R5 R6 R7]. subst s2. split; simpl; try done.
      * intros a Ha. rewrite alter_is_Some. by apply R4.
      * intros i a Ha. rewrite nx_alter_id by done. by apply R5.
      * intros i a Ha HaT. rewrite pv_alter_id by done. by apply R6.
      * intros a Ha HaT. rewrite fmap_alter_same by done. by apply R7.
    + intros q Hq. rewrite fmap_app in Hq. subst s2. simpl. unfold tstate. destruct (decide (p = q)) as [<-|Hne].
      * rewrite lookup_alter_eq. by destruct Hal1 as [t ->].
      * rewrite lookup_alter_ne by done. change (tstate (wl_heap s1) q = Some ABT_THREAD_STATE_BLOCKED).
        rewrite (wfr_state _ _ _ Hf). apply Hi. set_solver.
    + intros q Hq. rewrite (yieldable_type _ _ _ (Ety q)). by apply Hi.
    + intros q Hq HqY. rewrite (yieldable_type _ _ _ (Ety q)). rewrite fmap_app in Hq. apply Hi; set_solver.
  - apply (wstep_trans [] [] s s1 s2); [by eapply wstep_frame|]. subst s2.
    split; [done|by rewrite app_nil_r|intros a []%elem_of_nil|].
    intros a _ Ha. unfold tstate. simpl. rewrite lookup_alter_ne; [done|]. by intros ->.
Qed.

Lemma timed_tail l p : p ∈ timed (tail l) → p ∈ timed l.
Proof. rewrite !elem_of_timed. destruct l; [done|]. simpl. set_solver. Qed.

Lemma wop_ok o l w l' s :
  abs_step X Y o l = Some (w, l') → winv Y l s →
  ∃ s', wop_body o s = Done ((), s') ∧ winv Y l' s' ∧ wstep X Y w s s'.
Proof.
  intros Ha Hi. destruct o as [p|p|p|p| |]; simpl in Ha; try case_decide; destruct_and?; simplify_eq.
  - by apply suspend_ok.
  - by apply sleep_ok.
  - by apply timedwait_ok.
  - destruct (wl_remove_ok l p s Hi) as (s' & E & Hi' & Hf); [done|].
    exists s'. split; [|split; [done|by eapply wstep_frame]]. simpl.
    rewrite (C_bind_Done _ _ s _ _ (ready_run p _ s (wi_blocked _ _ _ Hi p ltac:(by apply timed_sub)))). done.
  - destruct (signal_ok (timed l) l.*1 s (wi_rep _ _ _ Hi)) as (s' & E & Hr & Hw & _).
    exists s'. split; [done|]. pose proof (wrep_nodup _ _ _ (wi_rep _ _ _ Hi)) as Hd. apply winv_woken with l; [done|done| | |].
    + replace ((tail l).*1) with (tail l.*1) by (by destruct l). eapply wl_rep_sub; [exact Hr|]. intros q _. apply timed_tail.
    + intros q Hq. destruct l as [|x l]; [by apply elem_of_nil in Hq|]. simpl in *. apply NoDup_cons in Hd as [Hd _]. set_solver.
    + intros q Hq. destruct l as [|x l]; [by apply elem_of_nil in Hq|]. simpl in *. set_solver.
  - destruct (broadcast_ok (timed l) l.*1 s (wi_rep _ _ _ Hi)) as (s' & E & Hr & Hw).
    exists s'. split; [done|]. apply winv_woken with l; [done|done| |set_solver|done].
    eapply wl_rep_sub; [exact Hr|]. intros q Hq. by apply elem_of_nil in Hq.
Qed.

Lemma run_ops_ok os l w l' s :
  abs_run X Y os l = Some (w, l') → winv Y l s → wl_lock s = false →
  ∃ s', run_ops os s = Done ((), s') ∧ winv Y l' s' ∧ wstep X Y w s s'.
Proof.
  revert l w l' s. induction os as [|o os IH]; intros l w l' s Ha Hi Hlk; simpl in Ha.
  - simplify_eq. exists s. split; [done|]. split; [done|].
    split; [done|by rewrite app_nil_r|intros a []%elem_of_nil|done].
  - destruct (abs_step X Y o l) as [[w1 l1]|] eqn:E1; [|done].
    destruct (abs_run X Y os l1) as [[w2 l2]|] eqn:E2; [|done]. simplify_eq.
    assert (∀ b s0, winv Y l s0 → winv Y l (set_wl_lock b s0)) as Hlock by (intros b s0 [R ? ? ?]; split; try done; destruct R; by split).
    assert (∀ b k s0, winv Y k s0 → winv Y k (set_wl_lock b s0)) as Hlock' by (intros b k s0 [R ? ? ?]; split; try done; destruct R; by split).
    destruct (wop_ok o l w1 l1 (set_wl_lock true s) E1 (Hlock true s Hi)) as (s1 & R1 & I1 & W1).
    destruct (IH l1 w2 l' (set_wl_lock false s1) E2 (Hlock' false _ _ I1) eq_refl) as (s2 & R2 & I2 & W2).
    exists s2. split; [|split; [done|]].
    + simpl. unfold wop_run. rewrite C_bind_assoc.
      rewrite (C_bind_Done _ _ s () (set_wl_lock true s)) by (unfold on_lock, zoom, ABTD_spinlock_acquire; by rewrite Hlk).
      rewrite C_bind_assoc, (C_bind_Done _ _ _ _ _ R1). done.
    + destruct W1 as [A1 A2 A3 A4], W2 as [B1 B2 B3 B4]. simpl in *. split.
      * congruence.
      * rewrite B2, A2, filter_app, app_assoc. done.
      * intros a Ha HaX. destruct (decide (a ∈ w2)); [by apply B3|]. rewrite B4 by done. apply A3; [set_solver|done].
      * intros a Ha HaX. rewrite B4, A4 by set_solver. done.
Qed.
End fifo.

(** ** The timed wait against its specification

    [others i] is what other threads do to the waitlist while the waiter yields
    or sleeps for the [i]-th time. *)

Lemma whole_run {A} (m : C wst A) s a s' : m s = Done (a, s') → on_wst whole replace_whole m s = Done (a, s').
Proof. intros E. unfold on_wst, zoom, whole, replace_whole. by rewrite E. Qed.

Section timed_wait.
Context (Y : list ptr) (me : ptr) (others : nat → list wop) (clock : nat → Z) (target : Z).
Implicit Types (l : list (ptr * bool)) (s : wst).

(** The waiter polls: it is done when it was woken, and leaves when it is late. *)
Fixpoint timed_spec (fuel i : nat) (l : list (ptr * bool)) : option (bool * list (ptr * bool)) :=
  match fuel with
  | O => None
  | S fuel =>
      if decide (me ∈ l.*1) then
        if Z.leb target (clock i) then Some (true, filter (λ x, x.1 ≠ me) l)
        else match abs_run [me] Y (others i) l with
             | Some (_, l') => timed_spec fuel (S i) l'
             | None => None
             end
      else Some (false, l)
  end.

Abbreviation env := (λ i, run_ops (others i)).

(** While it waits, [me] is on the list or was made ready. *)
Definition waiting_me l s : Prop :=
  winv Y l s ∧ (me ∈ l.*1 → me ∈ timed l) ∧
  tstate (wl_heap s) me =
    Some (if decide (me ∈ l.*1) then ABT_THREAD_STATE_BLOCKED else ABT_THREAD_STATE_READY).

Lemma winv_lock b l s : winv Y l s → winv Y l (set_wl_lock b s).
Proof. intros [R ? ? ?]; split; try done. destruct R; by split. Qed.

Lemma waiting_me_lock b l s : waiting_me l s → waiting_me l (set_wl_lock b s).
Proof. intros (? & ? & ?). split; [by apply winv_lock|done]. Qed.

Lemma ready_me l s : waiting_me l s → ready me s = Done (bool_decide (me ∉ l.*1), s).
Proof.
  intros (_ & _ & Hs). rewrite (ready_run _ _ _ Hs). do 2 f_equal. apply bool_decide_ext. case_decide; naive_solver.
Qed.

(** The others do not touch [me] except to wake it. *)
Lemma abs_step_me o l w l' :
  abs_step [me] Y o l = Some (w, l') → NoDup l.*1 →
  ((me, true) ∈ l' ↔ (me, true) ∈ l ∧ me ∉ w) ∧ (me ∈ l'.*1 ↔ me ∈ l.*1 ∧ me ∉ w) ∧ (me ∈ w → me ∈ l.*1) ∧ NoDup l'.*1.
Proof.
  intros Ha Hd. destruct o as [p|p|p|p| |]; simpl in Ha; try case_decide; destruct_and?; simplify_eq.
  - rewrite fmap_app, NoDup_app. assert (p ≠ me) by set_solver. simpl.
    split_and!; [set_solver..|done|set_solver|apply NoDup_singleton].
  - rewrite fmap_app, NoDup_app. assert (p ≠ me) by set_solver. simpl.
    split_and!; [set_solver..|done|set_solver|apply NoDup_singleton].
  - rewrite fmap_app, NoDup_app. assert (p ≠ me) by set_solver. simpl.
    split_and!; [set_solver..|done|set_solver|apply NoDup_singleton].
  - assert (p ≠ me) as Hne by set_solver. destruct (filter_ne_split l p) as (l1 & b & l2 & -> & ->); [done|by apply timed_sub|].
    rewrite fmap_app, fmap_cons, NoDup_app, NoDup_cons in Hd. rewrite !fmap_app, fmap_cons, NoDup_app. simpl in *.
    set_solver.
  - destruct l as [|[q b] l]; simpl in *; [set_solver|]. apply NoDup_cons in Hd as [Hq Hd].
    destruct (decide (q = me)) as [->|Hne]; [|set_solver].
    assert ((me, true) ∉ l) by (intros Hin; apply Hq, list_elem_of_fmap; by exists (me, true)). set_solver.
  - assert ((me, true) ∈ l → me ∈ l.*1) by (intros Hin; apply list_elem_of_fmap; by exists (me, true)).
    split_and!; [set_solver|set_solver|done|apply NoDup_nil_2].
Qed.

Lemma abs_run_me os l w l' :
  abs_run [me] Y os l = Some (w, l') → NoDup l.*1 →
  ((me, true) ∈ l' ↔ (me, true) ∈ l ∧ me ∉ w) ∧ (me ∈ l'.*1 ↔ me ∈ l.*1 ∧ me ∉ w) ∧ (me ∈ w → me ∈ l.*1).
Proof.
  revert l w l'. induction os as [|o os IH]; intros l w l' Ha Hd; simpl in Ha; [simplify_eq; set_solver|].
  destruct (abs_step [me] Y o l) as [[w1 l1]|] eqn:E1; [|done].
  destruct (abs_run [me] Y os l1) as [[w2 l2]|] eqn:E2; [|done]. simplify_eq.
  destruct (abs_step_me _ _ _ _ E1 Hd) as (A1 & A2 & A3 & A4), (IH _ _ _ E2 A4) as (B1 & B2 & B3).
  rewrite elem_of_app. tauto.
Qed.

Lemma env_me i l w l' s :
  abs_run [me] Y (others i) l = Some (w, l') → waiting_me l s → me ∈ l.*1 → wl_lock s = false →
  ∃ s', env i s = Done ((), s') ∧ waiting_me l' s' ∧ wl_lock s' = false.
Proof.
  intros Ha (Hi & Ht & Hs) Hin Hlk. destruct (run_ops_ok [me] Y _ _ _ _ s Ha Hi Hlk) as (s' & E & Hi' & Hw).
  exists s'. split; [done|]. split; [|rewrite (ws_lock _ _ _ _ _ Hw); done].
  destruct (abs_run_me _ _ _ _ Ha (wrep_nodup _ _ _ (wi_rep _ _ _ Hi))) as (A1 & A2 & _).
  rewrite decide_True in Hs by done.
  split; [done|]. split.
  - intros Hin'. rewrite elem_of_timed in Ht |- *. naive_solver.
  - destruct (decide (me ∈ w)) as [Hw'|Hw'].
    + rewrite decide_False by naive_solver. apply Hw; [done|set_solver].
    + rewrite decide_True by naive_solver. rewrite (ws_state _ _ _ _ _ Hw) by set_solver. done.
Qed.

Lemma wl_acquire_run s : wl_lock s = false → on_lock ABTD_spinlock_acquire s = Done ((), set_wl_lock true s).
Proof. intros E. unfold on_lock, zoom, ABTD_spinlock_acquire. by rewrite E. Qed.

(** After a loop: [Some true] is a timeout with the lock held. *)
Definition loop_end (r : bool * list (ptr * bool)) (out : outcome (bool * wst)) : Prop :=
  ∃ timeout l s, out = Done (timeout, s) ∧ waiting_me l s ∧ wl_lock s = timeout ∧
    if (timeout : bool) then r = (bool_decide (me ∈ l.*1), filter (λ x, x.1 ≠ me) l)
    else r = (false, l) ∧ me ∉ l.*1.

Lemma filter_ne_id l : me ∉ l.*1 → filter (λ x, x.1 ≠ me) l = l.
Proof.
  intros Hm. apply filter_all, Forall_forall. intros x Hx He. apply Hm. apply list_elem_of_fmap. by exists x.
Qed.

Lemma timed_loop_yield_ok fuel i l r s :
  timed_spec fuel i l = Some r → waiting_me l s → wl_lock s = false →
  loop_end r (timed_loop_yield whole replace_whole env clock fuel i me target s).
Proof.
  revert i l s. induction fuel as [|fuel IH]; intros i l s Hsp Hme Hlk; [done|]. cbn [timed_loop_yield]. simpl in Hsp.
  rewrite (C_bind_Done _ _ _ _ _ (whole_run _ _ _ _ (ready_me l s Hme))). case_decide as Hin.
  - rewrite bool_decide_false by (intros ?; done).
    destruct (Z.leb target (clock i)) eqn:Et; simplify_eq.
    + rewrite (C_bind_Done _ _ _ _ _ (whole_run _ _ _ _ (wl_acquire_run s Hlk))). exists true, l, (set_wl_lock true s).
      split; [done|]. split; [by apply waiting_me_lock|]. split; [done|]. by rewrite bool_decide_true.
    + destruct (abs_run _ _ _ _) as [[w l']|] eqn:Ea; [|done].
      destruct (env_me i l w l' s Ea Hme Hin Hlk) as (s' & E & Hme' & Hlk').
      rewrite (C_bind_Done _ _ _ _ _ E). by eapply IH.
  - rewrite bool_decide_true by done. simplify_eq. exists false, l, s. done.
Qed.

Lemma timed_loop_ext_ok fuel i l r s :
  timed_spec fuel i l = Some r → waiting_me l s → wl_lock s = true →
  loop_end r (timed_loop_ext whole replace_whole env clock fuel i me target s).
Proof.
  revert i l s. induction fuel as [|fuel IH]; intros i l s Hsp Hme Hlk; [done|]. cbn [timed_loop_ext]. simpl in Hsp.
  destruct (Z.leb target (clock i)) eqn:Et.
  - exists true, l, s. split; [done|]. split; [done|]. split; [done|]. case_decide; simplify_eq.
    + by rewrite bool_decide_true.
    + rewrite bool_decide_false, filter_ne_id by done. done.
  - rewrite (C_bind_Done _ _ _ _ _ (whole_run _ _ _ _ (ready_me l s Hme))). case_decide as Hin.
    + rewrite bool_decide_false by (intros ?; done). rewrite (C_bind_Done _ _ s () (set_wl_lock false s)) by done.
      destruct (abs_run _ _ _ _) as [[w l']|] eqn:Ea; [|done].
      destruct (env_me i l w l' (set_wl_lock false s) Ea (waiting_me_lock _ _ _ Hme) Hin eq_refl) as (s' & E & Hme' & Hlk').
      rewrite (C_bind_Done _ _ _ _ _ E), (C_bind_Done _ _ _ _ _ (whole_run _ _ _ _ (ready_me l' s' Hme'))).
      destruct (decide (me ∈ l'.*1)) as [Hin'|Hin'].
      * rewrite bool_decide_false by (intros ?; done). rewrite (C_bind_Done _ _ _ _ _ (whole_run _ _ _ _ (wl_acquire_run s' Hlk'))).
        eapply IH; [done|by apply waiting_me_lock|done].
      * rewrite bool_decide_true by done. destruct fuel as [|fuel]; [done|]. simpl in Hsp.
        rewrite decide_False in Hsp by done. simplify_eq. exists false, l', s'. done.
    + rewrite bool_decide_true by done. simplify_eq. exists false, l, (set_wl_lock false s).
      split; [done|]. split; [by apply waiting_me_lock|]. done.
Qed.

Lemma timed_wait_ok fuel yieldable l r s :
  winv Y l s → me ∉ l.*1 → me ∉ Y → wl_lock s = true →
  timed_spec fuel 0 (l ++ [(me, true)]) = Some r →
  ∃ s', ABTI_waitlist_wait_timedout_and_unlock whole replace_whole env clock fuel yieldable me target s = Done (r.1, s') ∧
    winv Y r.2 s' ∧ wl_lock s' = false.
Proof.
  intros Hi Hm HmY Hlk Hsp. unfold ABTI_waitlist_wait_timedout_and_unlock.
  rewrite (C_bind_Done _ _ s true s) by (unfold on_wst, whole, replace_whole, on_lock, zoom, ABTD_spinlock_is_locked, get; rewrite Hlk; by destruct s; simpl in *; subst).
  rewrite (C_bind_Done _ _ s () s) by done.
  destruct (timedwait_ok [] Y l me s Hi Hm (not_elem_of_nil _) HmY) as (s1 & E1 & Hi1 & W1).
  rewrite (C_bind_Done _ _ s () (dummied me s)) by done.
  change (append_timed me (dummied me s) = Done ((), s1)) in E1. rewrite (C_bind_Done _ _ _ _ _ (whole_run _ _ _ _ E1)).
  assert (waiting_me (l ++ [(me, true)]) s1) as Hme1.
  { split; [done|]. split; [intros _; rewrite elem_of_timed; set_solver|].
    rewrite decide_True by (rewrite fmap_app; set_solver). apply Hi1. rewrite fmap_app. set_solver. }
  assert (loop_end r ((if yieldable then on_wst whole replace_whole (on_lock ABTD_spinlock_release);; timed_loop_yield whole replace_whole env clock fuel 0 me target
             else timed_loop_ext whole replace_whole env clock fuel 0 me target) s1)) as (b & l2 & s2 & E2 & Hme2 & Hlk2 & Hr).
  { destruct yieldable.
    - rewrite (C_bind_Done _ _ s1 () (set_wl_lock false s1)) by done.
      eapply timed_loop_yield_ok; [done|by apply waiting_me_lock|done].
    - eapply timed_loop_ext_ok; [done..|]. by rewrite (ws_lock _ _ _ _ _ W1). }
  rewrite (C_bind_Done _ _ _ _ _ E2). destruct b.
  - rewrite (C_bind_Done _ _ s2 true s2) by (unfold on_wst, whole, replace_whole, on_lock, zoom, ABTD_spinlock_is_locked, get; rewrite Hlk2; by destruct s2; simpl in *; subst).
    rewrite (C_bind_Done _ _ s2 () s2) by done. rewrite (C_bind_Done _ _ _ _ _ (whole_run _ _ _ _ (ready_me l2 s2 Hme2))).
    destruct Hme2 as (Hi2 & Ht2 & _). subst r. simpl. destruct (decide (me ∈ l2.*1)) as [Hin|Hin].
    + rewrite (bool_decide_false (_ ∉ _)) by (intros ?; done). rewrite bool_decide_true by done. simpl.
      destruct (wl_remove_ok Y l2 me s2 Hi2 (Ht2 Hin)) as (s3 & E3 & Hi3 & Hf3).
      rewrite (C_bind_Done _ _ _ _ _ (whole_run _ _ _ _ E3)). exists (set_wl_lock false s3). split; [done|]. split; [by apply winv_lock|done].
    + rewrite (bool_decide_true (_ ∉ _)) by done. rewrite bool_decide_false by done. simpl.
      rewrite filter_ne_id by done. exists (set_wl_lock false s2). split; [done|]. split; [by apply winv_lock|done].
  - destruct Hr as [-> _]. exists s2. split; [done|]. split; [apply Hme2|done].
Qed.
End timed_wait.

(** ** Theorems *)

Lemma winv_init Y s :
  (∀ p, p ∈ Y → yieldable (wl_heap s) p = true) → winv Y [] (set_wl (Waitlist None None 0) s).
Proof.
  intros HY. split; [|intros p []%elem_of_nil|done|intros p []%elem_of_nil].
  split; try done; [apply NoDup_nil_2|intros; set_solver..].
Qed.

(** C12: A waitlist refines a FIFO of waiters.  After any sequence of
    suspensions, external waits, timed waits, timeouts, signals and broadcasts,
    each under the lock, the links of the waitlist spell the abstract list,
    every waiter on it is still blocked, the user-level threads woken were
    pushed back to their pools in the order in which they had arrived, and the
    lock is free. *)
Theorem waitlist_refines_fifo Y os w l s :
  (∀ p, p ∈ Y → yieldable (wl_heap s) p = true) → wl_lock s = false →
  abs_run [] Y os [] = Some (w, l) →
  ∃ s', (ABTI_waitlist_init;; run_ops os) s = Done ((), s') ∧
    wl_rep (timed l) l.*1 s' ∧
    ABTI_waitlist_is_empty s' = bool_decide (l = []) ∧
    (∀ p, p ∈ l.*1 → tstate (wl_heap s') p = Some ABT_THREAD_STATE_BLOCKED) ∧
    resumed s' = resumed s ++ filter (λ p, p ∈ Y) w ∧
    wl_lock s' = false.
Proof.
  intros HY Hlk Ha. destruct (run_ops_ok [] Y os [] w l _ Ha (winv_init Y s HY) Hlk) as (s' & E & Hi & Hw).
  exists s'. split; [done|]. split; [apply Hi|]. split; [|split; [apply Hi|split; [apply Hw|by rewrite (ws_lock _ _ _ _ _ Hw)]]].
  unfold ABTI_waitlist_is_empty. rewrite (wrep_head _ _ _ (wi_rep _ _ _ Hi)). by destruct l.
Qed.

(** Two user-level threads, two external waiters. *)
Definition ult : ABTI_thread := mk_thread None None 0 (Z.lor ABTI_THREAD_TYPE_THREAD ABTI_THREAD_TYPE_YIELDABLE) ABT_THREAD_STATE_RUNNING.
Definition wl_start : wst := Wst (Waitlist None None 0) false {[ 1%positive := ult; 2%positive := ult ]} [].
Definition wl_ops : list wop := [Suspend 1; TimedWait 11; Suspend 2; TimedWait 12; Timeout 11; Signal; TimedWait 13; Broadcast; Suspend 1].

Lemma wl_start_ult p : p ∈ [1; 2]%positive → yieldable (wl_heap wl_start) p = true.
Proof. rewrite !elem_of_cons, elem_of_nil. intros [->|[->|[]]]; reflexivity. Qed.

Lemma waitlist_refines_fifo_witness :
  ∃ s', (ABTI_waitlist_init;; run_ops wl_ops) wl_start = Done ((), s') ∧
    wl_rep [] [1%positive] s' ∧
    ABTI_waitlist_is_empty s' = false ∧
    (∀ p, p ∈ [1%positive] → tstate (wl_heap s') p = Some ABT_THREAD_STATE_BLOCKED) ∧
    resumed s' = [1; 2]%positive ∧
    wl_lock s' = false.
Proof.
  apply (waitlist_refines_fifo [1; 2]%positive wl_ops [1; 2; 12; 13]%positive [(1%positive, false)] wl_start wl_start_ult);
    vm_compute; reflexivity.
Defined.

Lemma timed_spec_gone Y me others clock target fuel i l r :
  timed_spec Y me others clock target fuel i l = Some r → me ∉ r.2.*1.
Proof.
  revert i l. induction fuel as [|fuel IH]; intros i l Hsp; [done|]. simpl in Hsp. case_decide; [|by simplify_eq].
  destruct (Z.leb _ _); [|by destruct (abs_run _ _ _ _) as [[w l']|]; [eapply IH|]].
  simplify_eq. simpl. intros ([q b] & E & [Hne _]%list_elem_of_filter)%list_elem_of_fmap. simpl in *. by subst.
Qed.

(** A timed wait, on a user-level thread as well as on an external one,
    refines its specification while other threads wait, time out, signal and
    broadcast: it answers "timed out" exactly if its deadline passed before
    anybody woke it, in which case its descriptor, which lives on its stack, has
    left the list wherever it was; otherwise a signal was consumed by it.  All
    other waiters keep their places and the lock is free. *)
Theorem timedwait_result Y me others clock target fuel yieldable l timedout l' s :
  winv Y l s → me ∉ l.*1 → me ∉ Y → wl_lock s = true →
  timed_spec Y me others clock target fuel 0 (l ++ [(me, true)]) = Some (timedout, l') →
  ∃ s', ABTI_waitlist_wait_timedout_and_unlock whole replace_whole (λ i, run_ops (others i)) clock fuel yieldable me target s =
      Done (timedout, s') ∧
    wl_rep (timed l') l'.*1 s' ∧ (me ∉ l'.*1) ∧ wl_lock s' = false.
Proof.
  intros Hi Hm HmY Hlk Hsp. destruct (timed_wait_ok Y me others clock target fuel yieldable l _ s Hi Hm HmY Hlk Hsp) as (s' & E & Hi' & Hlk').
  exists s'. split; [done|]. split; [apply Hi'|]. split; [|done].
  exact (timed_spec_gone _ _ _ _ _ _ _ _ _ Hsp).
Qed.

(** Thread 1 is suspended; the waiter 9 arrives behind it and is late after
    thread 2 and another timed waiter have queued up and thread 1 was woken. *)
Definition wl_busy : wst :=
  match (append 1;; on_heap (store (set_state ABT_THREAD_STATE_BLOCKED) (Some 1%positive))) (set_wl_lock true wl_start) with
  | Done (_, s) => s
  | Fault _ => wl_start
  end.

Definition wl_others (i : nat) : list wop := nth i [[Suspend 2; TimedWait 11]; [Signal]] [].

Lemma wl_busy_winv : winv [1; 2]%positive [(1%positive, false)] wl_busy.
Proof.
  assert (winv [1; 2]%positive [] (set_wl_lock true wl_start)) as Hi
    by apply (winv_lock _ true _ (set_wl _ _)), (winv_init _ wl_start wl_start_ult).
  destruct (wop_ok [] [1; 2]%positive (Suspend 1) [] [] [(1%positive, false)] _ eq_refl Hi) as (s' & E & Hi' & _).
  assert (wl_busy = s') as ->; [|done]. unfold wl_busy. unfold wop_body in E. by rewrite E.
Qed.

Lemma timedwait_result_witness :
  ∃ s', ABTI_waitlist_wait_timedout_and_unlock whole replace_whole (λ i, run_ops (wl_others i)) Z.of_nat 5 false 9 2 wl_busy = Done (true, s') ∧
    wl_rep [11%positive] [2; 11]%positive s' ∧ (9%positive ∉ [2; 11]%positive) ∧ wl_lock s' = false.
Proof.
  apply (timedwait_result [1; 2]%positive 9 wl_others Z.of_nat 2 5 false
    [(1%positive, false)] true [(2%positive, false); (11%positive, true)] wl_busy wl_busy_winv).
  - apply (bool_decide_unpack _). vm_compute. exact I.
  - apply (bool_decide_unpack _). vm_compute. exact I.
  - reflexivity.
  - vm_compute. reflexivity.
Defined.
