(* ===== verification/Mutex.v ===== *)
(** * Mutexes

    argobots/src/include/abti_mutex.h, argobots/src/mutex.c and
    argobots/src/mutex_attr.c, in the default configuration (a waiter list
    rather than the yield-based mutex, error checks on, the 1.x API).

    [world] holds the synchronisation objects and the work-unit descriptors;
    handles are [option ptr] with [None] for the NULL handle.  [malloc] is the
    address that [ABTU_malloc] returns (with what the memory holds), [None] when
    memory is exhausted.  What
    other threads do while the caller sleeps on a waitlist is [env]. *)

From stdpp Require Import base tactics option list numbers gmap fin_maps.
From S2P Require Import Prelude.
From S2P Require Import Abt.
From S2P Require Import Thread.
From S2P Require Import Waitlist.

(** ** Objects *)

Definition ABTI_MUTEX_ATTR_NONE : Z := 0.
Definition ABTI_MUTEX_ATTR_RECURSIVE : Z := 1.
Definition ABT_ERR_INV_MUTEX_ATTR : Z := 21.

Record ABTI_mutex := Mutex {
  attrs : Z;
  mlock : bool;
  nesting_cnt : Z;
  owner_id : Z;
  waiter_lock : bool;
  waitlist : ABTI_waitlist;
}.

Definition set_attrs (v : Z) (m : ABTI_mutex) : ABTI_mutex :=
  Mutex v (mlock m) (nesting_cnt m) (owner_id m) (waiter_lock m) (waitlist m).
Definition set_mlock (v : bool) (m : ABTI_mutex) : ABTI_mutex :=
  Mutex (attrs m) v (nesting_cnt m) (owner_id m) (waiter_lock m) (waitlist m).
Definition set_nesting_cnt (v : Z) (m : ABTI_mutex) : ABTI_mutex :=
  Mutex (attrs m) (mlock m) v (owner_id m) (waiter_lock m) (waitlist m).
Definition set_owner_id (v : Z) (m : ABTI_mutex) : ABTI_mutex :=
  Mutex (attrs m) (mlock m) (nesting_cnt m) v (waiter_lock m) (waitlist m).
Definition set_waiting (l : bool) (v : ABTI_waitlist) (m : ABTI_mutex) : ABTI_mutex :=
  Mutex (attrs m) (mlock m) (nesting_cnt m) (owner_id m) l v.

Record ABTI_cond := Cond {
  cond_lock : bool;
  p_waiter_mutex : option ptr;
  cwaitlist : ABTI_waitlist;
  clkid : Z;
}.

(** A read-write lock embeds a mutex and a condition variable, at these addresses. *)
Record ABTI_rwlock := Rwlock {
  rw_mutex : ptr;
  rw_cond : ptr;
  reader_count : Z;
  write_flag : Z;
}.

Record world := World {
  mutexes : gmap positive ABTI_mutex;
  mattrs : gmap positive Z;
  conds : gmap positive ABTI_cond;
  rwlocks : gmap positive ABTI_rwlock;
  threads : gmap positive ABTI_thread;
  w_resumed : list positive;
}.

Definition set_mutexes (v : gmap positive ABTI_mutex) (w : world) : world :=
  World v (mattrs w) (conds w) (rwlocks w) (threads w) (w_resumed w).
Definition set_mattrs (v : gmap positive Z) (w : world) : world :=
  World (mutexes w) v (conds w) (rwlocks w) (threads w) (w_resumed w).
Definition set_conds (v : gmap positive ABTI_cond) (w : world) : world :=
  World (mutexes w) (mattrs w) v (rwlocks w) (threads w) (w_resumed w).
Definition set_rwlocks (v : gmap positive ABTI_rwlock) (w : world) : world :=
  World (mutexes w) (mattrs w) (conds w) v (threads w) (w_resumed w).
Definition set_threads (h : gmap positive ABTI_thread) (r : list positive) (w : world) : world :=
  World (mutexes w) (mattrs w) (conds w) (rwlocks w) h r.

(** Field access through a mutex pointer. *)
Definition mload {A} (f : ABTI_mutex → A) (p : ptr) : C world A := λ w,
  match mutexes w !! p with
  | Some m => Done (f m, w)
  | None => Fault UB
  end.

Definition mstore (f : ABTI_mutex → ABTI_mutex) (p : ptr) : C world unit := λ w,
  match mutexes w !! p with
  | Some m => Done ((), set_mutexes (<[p := f m]> (mutexes w)) w)
  | None => Fault UB
  end.

(** A statement on the lock word. *)
Definition on_mlock {A} (p : ptr) (m : C bool A) : C world A :=
  l ← mload mlock p;
  match m l with
  | Done (a, l') => mstore (set_mlock l') p;; mret a
  | Fault f => throw f
  end.

(** The waiter list of a mutex with [waiter_lock]. *)
Definition no_waitlist : ABTI_waitlist := Waitlist None None 0.
Definition mutex_view (p : ptr) (w : world) : wst :=
  match mutexes w !! p with
  | Some m => Wst (waitlist m) (waiter_lock m) (threads w) (w_resumed w)
  | None => Wst no_waitlist false (threads w) (w_resumed w)
  end.
Definition mutex_upd (p : ptr) (v : wst) (w : world) : world :=
  set_threads (wl_heap v) (resumed v) (set_mutexes (alter (set_waiting (wl_lock v) (wl v)) p (mutexes w)) w).

Definition on_waiters {A} (p : ptr) (m : C wst A) : C world A := on_wst (mutex_view p) (mutex_upd p) m.

(** ** The calling work unit *)

Inductive unit_kind := ExtThread | Tasklet | Ult (p : ptr).

Record self := Self {
  self_id : Z;       (** [ABTI_self_get_thread_id] *)
  kind : unit_kind;
  slot : ptr;        (** its stack slot for a dummy descriptor *)
}.

Definition self_ythread (me : self) : option ptr :=
  match kind me with Ult p => Some p | _ => None end.

(** ** Internal operations *)

Definition recursive (a : Z) : bool := negb (Z.eqb (Z.land a ABTI_MUTEX_ATTR_RECURSIVE) 0).

Definition ABTI_mutex_init (p : ptr) : C world unit :=
  on_mlock p ABTD_spinlock_clear;;
  on_waiters p (on_lock ABTD_spinlock_clear);;
  on_waiters p ABTI_waitlist_init;;
  mstore (set_attrs ABTI_MUTEX_ATTR_NONE) p;;
  mstore (set_nesting_cnt 0) p;;
  mstore (set_owner_id 0) p.

Definition ABTI_mutex_fini (p : ptr) : C world unit := on_waiters p (on_lock ABTD_spinlock_acquire).

Section mutex.
Context (env : nat → C world unit) (me : self) (fuel : nat).

(** One round per failed attempt; [n] bounds the rounds. *)
Fixpoint ABTI_mutex_lock_no_recursion (n : nat) (p : ptr) : C world unit :=
  match n with
  | O => throw OutOfFuel
  | S n =>
      held ← on_mlock p ABTD_spinlock_try_acquire;
      if (held : bool) then
        on_waiters p (on_lock ABTD_spinlock_acquire);;
        held ← on_mlock p ABTD_spinlock_try_acquire;
        if negb held then on_waiters p (on_lock ABTD_spinlock_release)
        else
          ABTI_waitlist_wait_and_unlock (mutex_view p) (mutex_upd p) env fuel (self_ythread me) (slot me);;
          ABTI_mutex_lock_no_recursion n p
      else mret ()
  end.

Definition incr_nesting (p : ptr) : C world unit :=
  n ← mload nesting_cnt p;
  mstore (set_nesting_cnt (i32 (n + 1))) p.

(** What a recursive mutex does once the lock is taken. *)
Definition take_ownership (p : ptr) : C world unit :=
  n ← mload nesting_cnt p;
  c_assert (Z.eqb n 0);;
  mstore (set_owner_id (self_id me)) p.

Definition ABTI_mutex_lock (p : ptr) : C world unit :=
  a ← mload attrs p;
  if recursive a then
    owner ← mload owner_id p;
    if negb (Z.eqb (self_id me) owner) then
      ABTI_mutex_lock_no_recursion fuel p;; take_ownership p
    else incr_nesting p
  else ABTI_mutex_lock_no_recursion fuel p.

Definition ABTI_mutex_is_locked (p : ptr) : C world bool := on_mlock p ABTD_spinlock_is_locked.

Definition ABTI_mutex_trylock_no_recursion (p : ptr) : C world Z :=
  held ← on_mlock p ABTD_spinlock_try_acquire;
  mret (if (held : bool) then ABT_ERR_MUTEX_LOCKED else ABT_SUCCESS).

Definition ABTI_mutex_trylock (p : ptr) : C world Z :=
  a ← mload attrs p;
  if recursive a then
    owner ← mload owner_id p;
    if negb (Z.eqb (self_id me) owner) then
      abt_errno ← ABTI_mutex_trylock_no_recursion p;
      (if Z.eqb abt_errno ABT_SUCCESS then take_ownership p else mret ());;
      mret abt_errno
    else incr_nesting p;; mret ABT_SUCCESS
  else ABTI_mutex_trylock_no_recursion p.

Definition ABTI_mutex_spinlock_no_recursion (p : ptr) : C world unit := on_mlock p ABTD_spinlock_acquire.

Definition ABTI_mutex_spinlock (p : ptr) : C world unit :=
  a ← mload attrs p;
  if recursive a then
    owner ← mload owner_id p;
    if negb (Z.eqb (self_id me) owner) then
      ABTI_mutex_spinlock_no_recursion p;; take_ownership p
    else incr_nesting p
  else ABTI_mutex_spinlock_no_recursion p.

Definition ABTI_mutex_unlock_no_recursion (p : ptr) : C world unit :=
  on_waiters p (on_lock ABTD_spinlock_acquire);;
  on_mlock p ABTD_spinlock_release;;
  on_waiters p ABTI_waitlist_broadcast;;
  on_waiters p (on_lock ABTD_spinlock_release).

Definition ABTI_mutex_unlock (p : ptr) : C world unit :=
  a ← mload attrs p;
  if recursive a then
    n ← mload nesting_cnt p;
    if Z.eqb n 0 then mstore (set_owner_id 0) p;; ABTI_mutex_unlock_no_recursion p
    else mstore (set_nesting_cnt (i32 (n - 1))) p
  else ABTI_mutex_unlock_no_recursion p.

(** ** API (mutex.c) *)

(** [ABTI_UB_ASSERT]. *)
Definition ub_assert (b : bool) : C world unit := if b then mret () else throw UB.

(** [ABTI_CHECK_NULL_MUTEX_PTR]. *)
Definition check_null (err : Z) (h : option ptr) (k : ptr → C world Z) : C world Z :=
  match h with
  | Some p => k p
  | None => mret err
  end.

(** Fresh memory holds arbitrary bytes. *)
Definition malloc_mutex (p : ptr) (junk : ABTI_mutex) : C world unit :=
  modify (λ w, set_mutexes (<[p := junk]> (mutexes w)) w).

Definition ABT_mutex_create (malloc : option (ptr * ABTI_mutex)) : C world (Z * option ptr) :=
  match malloc with
  | None => mret (ABT_ERR_MEM, None)
  | Some (p, junk) => malloc_mutex p junk;; ABTI_mutex_init p;; mret (ABT_SUCCESS, Some p)
  end.

Definition aload (p : ptr) : C world Z := λ w,
  match mattrs w !! p with Some a => Done (a, w) | None => Fault UB end.
Definition astore (f : Z → Z) (p : ptr) : C world unit := λ w,
  match mattrs w !! p with
  | Some a => Done ((), set_mattrs (<[p := f a]> (mattrs w)) w)
  | None => Fault UB
  end.

Definition ABT_mutex_create_with_attr (malloc : option (ptr * ABTI_mutex)) (attr : option ptr) : C world (Z * option ptr) :=
  match malloc with
  | None => mret (ABT_ERR_MEM, None)
  | Some (p, junk) =>
      malloc_mutex p junk;;
      ABTI_mutex_init p;;
      (match attr with
       | Some q => a ← aload q; mstore (set_attrs a) p
       | None => mret ()
       end);;
      mret (ABT_SUCCESS, Some p)
  end.

Definition ABT_mutex_free (h : option ptr) : C world (Z * option ptr) :=
  match h with
  | None => mret (ABT_ERR_INV_MUTEX, None)
  | Some p =>
      mload attrs p;;
      modify (λ w, set_mutexes (delete p (mutexes w)) w);;
      mret (ABT_SUCCESS, None)
  end.

Definition ABT_mutex_lock (h : option ptr) : C world Z :=
  check_null ABT_ERR_INV_MUTEX h (λ p, ABTI_mutex_lock p;; mret ABT_SUCCESS).
Definition ABT_mutex_lock_low (h : option ptr) : C world Z :=
  check_null ABT_ERR_INV_MUTEX h (λ p, ABTI_mutex_lock p;; mret ABT_SUCCESS).
Definition ABT_mutex_lock_high (h : option ptr) : C world Z :=
  check_null ABT_ERR_INV_MUTEX h (λ p, ABTI_mutex_lock p;; mret ABT_SUCCESS).
Definition ABT_mutex_trylock (h : option ptr) : C world Z :=
  check_null ABT_ERR_INV_MUTEX h (λ p, abt_errno ← ABTI_mutex_trylock p; mret abt_errno).
Definition ABT_mutex_spinlock (h : option ptr) : C world Z :=
  check_null ABT_ERR_INV_MUTEX h (λ p, ABTI_mutex_spinlock p;; mret ABT_SUCCESS).

(** The caller must hold the mutex. *)
Definition assert_owned (p : ptr) : C world unit :=
  l ← ABTI_mutex_is_locked p;
  ub_assert l;;
  a ← mload attrs p;
  owner ← mload owner_id p;
  ub_assert (negb (recursive a && negb (Z.eqb owner (self_id me)))).

Definition ABT_mutex_unlock (h : option ptr) : C world Z :=
  check_null ABT_ERR_INV_MUTEX h (λ p, assert_owned p;; ABTI_mutex_unlock p;; mret ABT_SUCCESS).
Definition ABT_mutex_unlock_se (h : option ptr) : C world Z :=
  check_null ABT_ERR_INV_MUTEX h (λ p, assert_owned p;; ABTI_mutex_unlock p;; mret ABT_SUCCESS).
Definition ABT_mutex_unlock_de (h : option ptr) : C world Z :=
  check_null ABT_ERR_INV_MUTEX h (λ p, assert_owned p;; ABTI_mutex_unlock p;; mret ABT_SUCCESS).

Definition ABT_mutex_equal (h1 h2 : option ptr) : Z * bool := (ABT_SUCCESS, bool_decide (h1 = h2)).

Definition ABT_mutex_get_attr (malloc h : option ptr) : C world (Z * option ptr) :=
  match h with
  | None => mret (ABT_ERR_INV_MUTEX, None)
  | Some p =>
      match malloc with
      | None => mret (ABT_ERR_MEM, None)
      | Some q =>
          a ← mload attrs p;
          modify (λ w, set_mattrs (<[q := a]> (mattrs w)) w);;
          mret (ABT_SUCCESS, Some q)
      end
  end.

(** ** Attributes (mutex_attr.c) *)

Definition ABT_mutex_attr_create (malloc : option ptr) : C world (Z * option ptr) :=
  match malloc with
  | None => mret (ABT_ERR_MEM, None)
  | Some q =>
      modify (λ w, set_mattrs (<[q := ABTI_MUTEX_ATTR_NONE]> (mattrs w)) w);;
      mret (ABT_SUCCESS, Some q)
  end.

Definition ABT_mutex_attr_free (h : option ptr) : C world (Z * option ptr) :=
  match h with
  | None => mret (ABT_ERR_INV_MUTEX_ATTR, None)
  | Some q =>
      aload q;;
      modify (λ w, set_mattrs (delete q (mattrs w)) w);;
      mret (ABT_SUCCESS, None)
  end.

Definition ABT_mutex_attr_set_recursive (h : option ptr) (r : bool) : C world Z :=
  check_null ABT_ERR_INV_MUTEX_ATTR h (λ q,
    astore (λ a, if r then Z.lor a ABTI_MUTEX_ATTR_RECURSIVE else Z.land a (Z.lnot ABTI_MUTEX_ATTR_RECURSIVE)) q;;
    mret ABT_SUCCESS).

Definition ABT_mutex_attr_get_recursive (h : option ptr) : C world (Z * option bool) :=
  match h with
  | None => mret (ABT_ERR_INV_MUTEX_ATTR, None)
  | Some q => a ← aload q; mret (ABT_SUCCESS, Some (recursive a))
  end.
End mutex.

(** ** Running the statements on a mutex *)

(** The mutex at [p] becomes [f m]. *)
Definition setm (p : ptr) (m : ABTI_mutex) (w : world) : world := set_mutexes (<[p := m]> (mutexes w)) w.

Section runs.
Context (p : ptr).
Implicit Types (w : world) (m : ABTI_mutex) (v : wst).

Lemma mload_run {A} (f : ABTI_mutex → A) m w : mutexes w !! p = Some m → mload f p w = Done (f m, w).
Proof. intros E. unfold mload. by rewrite E. Qed.

Lemma mstore_run f m w : mutexes w !! p = Some m → mstore f p w = Done ((), setm p (f m) w).
Proof. intros E. unfold mstore. by rewrite E. Qed.

Lemma on_mlock_run {A} (c : C bool A) m w b l :
  mutexes w !! p = Some m → c (mlock m) = Done (b, l) → on_mlock p c w = Done (b, setm p (set_mlock l m) w).
Proof.
  intros E Ec. unfold on_mlock. rewrite (C_bind_Done _ _ _ _ _ (mload_run _ _ _ E)), Ec.
  by rewrite (C_bind_Done _ _ _ _ _ (mstore_run _ _ _ E)).
Qed.

Lemma on_waiters_run {A} (c : C wst A) w b v :
  c (mutex_view p w) = Done (b, v) → on_waiters p c w = Done (b, mutex_upd p v w).
Proof. intros Ec. unfold on_waiters, on_wst, zoom. by rewrite Ec. Qed.

Lemma mutex_view_eq m w : mutexes w !! p = Some m →
  mutex_view p w = Wst (waitlist m) (waiter_lock m) (threads w) (w_resumed w).
Proof. intros E. unfold mutex_view. by rewrite E. Qed.

Lemma mutex_view_upd m v w : mutexes w !! p = Some m → mutex_view p (mutex_upd p v w) = v.
Proof. intros E. unfold mutex_view, mutex_upd. simpl. rewrite lookup_alter_eq, E. by destruct v. Qed.

Lemma mutex_upd_lookup m v w : mutexes w !! p = Some m →
  mutexes (mutex_upd p v w) !! p = Some (set_waiting (wl_lock v) (wl v) m).
Proof. intros E. unfold mutex_upd. simpl. by rewrite lookup_alter_eq, E. Qed.

Lemma setm_lookup m w : mutexes (setm p m w) !! p = Some m.
Proof. unfold setm. simpl. by rewrite lookup_insert_eq. Qed.

Lemma setm_view m m' w : mutexes w !! p = Some m → waitlist m' = waitlist m → waiter_lock m' = waiter_lock m →
  mutex_view p (setm p m' w) = mutex_view p w.
Proof. intros E Ew El. rewrite (mutex_view_eq m' _ (setm_lookup m' w)), (mutex_view_eq m w E). by rewrite Ew, El. Qed.
End runs.

(** ** A mutex without contention *)

Section solo.
Context (p : ptr) (env : nat → C world unit) (me : self) (fuel : nat).
Implicit Types (w : world) (m : ABTI_mutex) (v : wst).

Lemma setm_setm m m' w : setm p m (setm p m' w) = setm p m w.
Proof. unfold setm, set_mutexes. simpl. by rewrite insert_insert_eq. Qed.

Lemma setm_id m w : mutexes w !! p = Some m → setm p m w = w.
Proof. intros E. unfold setm, set_mutexes. rewrite insert_id by done. by destruct w. Qed.

Lemma mutex_upd_setm m v w :
  mutexes w !! p = Some m → wl_heap v = threads w → resumed v = w_resumed w →
  mutex_upd p v w = setm p (set_waiting (wl_lock v) (wl v) m) w.
Proof.
  intros Em Eh Er. unfold mutex_upd, setm, set_threads, set_mutexes. simpl. rewrite Eh, Er. f_equal.
  apply map_eq. intros q. destruct (decide (p = q)) as [<-|Hne].
  - by rewrite lookup_alter_eq, lookup_insert_eq, Em.
  - by rewrite lookup_alter_ne, lookup_insert_ne.
Qed.

(** What [m] looks like when the calling thread holds it [n] times (recursive) or once. *)
Definition held (m : ABTI_mutex) (n : nat) : ABTI_mutex :=
  match n with
  | O => m
  | S n' => if recursive (attrs m) then Mutex (attrs m) true (Z.of_nat n') (self_id me) false (waitlist m)
            else set_mlock true m
  end.

(** Nobody holds the mutex and nobody waits. *)
Definition free_mutex (m : ABTI_mutex) : Prop :=
  mlock m = false ∧ nesting_cnt m = 0 ∧ owner_id m = 0 ∧ waiter_lock m = false ∧ p_head (waitlist m) = None.

Lemma lock_no_recursion_free fl n m w :
  mutexes w !! p = Some m → mlock m = false →
  ABTI_mutex_lock_no_recursion env me fl (S n) p w = Done ((), setm p (set_mlock true m) w).
Proof.
  intros Em El. cbn [ABTI_mutex_lock_no_recursion].
  rewrite (C_bind_Done _ _ _ _ _ (on_mlock_run p _ _ _ (mlock m) true Em eq_refl)). by rewrite El.
Qed.

Lemma lock_held m w n :
  free_mutex m → self_id me ≠ 0 → (0 < fuel)%nat → mutexes w !! p = Some (held m n) →
  (if recursive (attrs m) then Z.of_nat n < 2 ^ 31 else n = 0%nat) →
  ABTI_mutex_lock env me fuel p w = Done ((), setm p (held m (S n)) w).
Proof.
  intros (F1 & F2 & F3 & F4 & F5) Hid Hf Em Hn. unfold ABTI_mutex_lock. destruct fuel as [|fuel']; [lia|].
  rewrite (C_bind_Done _ _ _ _ _ (mload_run p _ _ _ Em)).
  assert (attrs (held m n) = attrs m) as -> by (destruct n; simpl; [done|]; by destruct (recursive (attrs m))).
  destruct (recursive (attrs m)) eqn:Hr.
  - rewrite (C_bind_Done _ _ _ _ _ (mload_run p _ _ _ Em)). destruct n as [|n].
    + assert (owner_id (held m 0) = 0) as -> by done. destruct (Z.eqb_spec (self_id me) 0); [done|]. cbn [negb].
      assert (mlock (held m 0) = false) as El by done.
      pose proof (on_mlock_run p ABTD_spinlock_try_acquire _ _ (mlock (held m 0)) true Em eq_refl) as E1.
      rewrite (C_bind_Done _ _ _ () (setm p (set_mlock true m) w)).
      2:{ cbn [ABTI_mutex_lock_no_recursion]. rewrite (C_bind_Done _ _ _ _ _ E1). by rewrite El. }
      unfold take_ownership. rewrite (C_bind_Done _ _ _ _ _ (mload_run p _ _ _ (setm_lookup p _ w))). cbn [nesting_cnt set_mlock]. rewrite F2.
      rewrite (C_bind_Done _ _ _ () (setm p (set_mlock true m) w)) by done.
      rewrite (mstore_run p _ _ _ (setm_lookup p _ w)), setm_setm. unfold set_owner_id, set_mlock. simpl. by rewrite Hr, F2, F4.
    + simpl in Em. rewrite Hr in Em.
      assert (owner_id (held m (S n)) = self_id me) as -> by (simpl; by rewrite Hr).
      rewrite Z.eqb_refl. cbn [negb]. unfold incr_nesting. rewrite (C_bind_Done _ _ _ _ _ (mload_run p _ _ _ Em)).
      rewrite (mstore_run p _ _ _ Em). simpl. rewrite Hr. unfold set_nesting_cnt. simpl. rewrite i32_small by lia.
      do 4 f_equal. lia.
  - subst n. rewrite (lock_no_recursion_free _ _ m w Em F1). simpl. by rewrite Hr.
Qed.

Lemma unlock_no_recursion_free m w :
  mutexes w !! p = Some m → waiter_lock m = false → p_head (waitlist m) = None →
  ABTI_mutex_unlock_no_recursion p w = Done ((), setm p (set_mlock false m) w).
Proof.
  intros Em Ew Eh. unfold ABTI_mutex_unlock_no_recursion.
  rewrite (C_bind_Done _ _ _ () (setm p (set_waiting true (waitlist m) m) w)).
  2:{ rewrite (on_waiters_run p _ _ () (Wst (waitlist m) true (threads w) (w_resumed w))).
      - by rewrite (mutex_upd_setm m).
      - rewrite (mutex_view_eq p m), Ew by done. done. }
  rewrite (C_bind_Done _ _ _ _ _ (on_mlock_run p _ _ _ () false (setm_lookup p _ w) eq_refl)), setm_setm.
  set (m1 := set_mlock false (set_waiting true (waitlist m) m)).
  rewrite (C_bind_Done _ _ _ () (setm p m1 w)).
  2:{ rewrite (on_waiters_run p _ _ () (mutex_view p (setm p m1 w))).
      - rewrite (mutex_upd_setm m1); [|apply setm_lookup|by rewrite (mutex_view_eq p m1) by apply setm_lookup..].
        rewrite (mutex_view_eq p m1) by apply setm_lookup. by rewrite setm_setm.
      - unfold ABTI_waitlist_broadcast. rewrite (mutex_view_eq p m1) by apply setm_lookup. simpl.
        rewrite (C_bind_Done _ _ _ None _) by (unfold gets; simpl; by rewrite Eh). done. }
  rewrite (on_waiters_run p _ _ () (set_wl_lock false (mutex_view p (setm p m1 w)))) by done.
  rewrite (mutex_upd_setm m1); [|apply setm_lookup|by rewrite (mutex_view_eq p m1) by apply setm_lookup..].
  rewrite setm_setm, (mutex_view_eq p m1) by apply setm_lookup. unfold m1, set_waiting, set_mlock. simpl. by rewrite Ew.
Qed.

Lemma unlock_held m w n :
  free_mutex m → mutexes w !! p = Some (held m (S n)) →
  (if recursive (attrs m) then Z.of_nat n < 2 ^ 31 else n = 0%nat) →
  ABTI_mutex_unlock p w = Done ((), setm p (held m n) w).
Proof.
  intros (F1 & F2 & F3 & F4 & F5) Em Hn. unfold ABTI_mutex_unlock.
  rewrite (C_bind_Done _ _ _ _ _ (mload_run p _ _ _ Em)).
  assert (attrs (held m (S n)) = attrs m) as -> by (simpl; by destruct (recursive (attrs m))).
  simpl in Em. destruct (recursive (attrs m)) eqn:Hr.
  - rewrite (C_bind_Done _ _ _ _ _ (mload_run p _ _ _ Em)). cbn [nesting_cnt]. destruct n as [|n].
    + change (Z.eqb (Z.of_nat 0) 0) with true. cbv iota.
      rewrite (C_bind_Done _ _ _ _ _ (mstore_run p _ _ _ Em)). rewrite (unlock_no_recursion_free _ _ (setm_lookup p _ w)); [|done|done].
      rewrite setm_setm. unfold set_mlock, set_owner_id. simpl. do 3 f_equal. destruct m; simpl in *; by subst.
    + destruct (Z.eqb_spec (Z.of_nat (S n)) 0); [lia|]. rewrite (mstore_run p _ _ _ Em). simpl held. rewrite Hr.
      unfold set_nesting_cnt. simpl. rewrite i32_small by lia. do 4 f_equal. lia.
  - subst n. rewrite (unlock_no_recursion_free _ _ Em); [|done|done]. simpl. do 3 f_equal. unfold set_mlock. simpl. destruct m; simpl in *; by subst.
Qed.

Lemma trylock_other m w n other :
  free_mutex m → mutexes w !! p = Some (held m (S n)) → self_id other ≠ self_id me →
  ABTI_mutex_trylock other p w = Done (ABT_ERR_MUTEX_LOCKED, w).
Proof.
  intros _ Em Hne. unfold ABTI_mutex_trylock. rewrite (C_bind_Done _ _ _ _ _ (mload_run p _ _ _ Em)).
  assert (attrs (held m (S n)) = attrs m ∧ mlock (held m (S n)) = true ∧ set_mlock true (held m (S n)) = held m (S n)) as (Ea & El & Es)
    by (simpl; by destruct (recursive (attrs m))).
  assert (ABTI_mutex_trylock_no_recursion p w = Done (ABT_ERR_MUTEX_LOCKED, w)) as Et.
  { unfold ABTI_mutex_trylock_no_recursion. rewrite (C_bind_Done _ _ _ _ _ (on_mlock_run p _ _ _ (mlock (held m (S n))) true Em eq_refl)).
    rewrite El, Es, setm_id by done. done. }
  rewrite Ea. destruct (recursive (attrs m)) eqn:Hr; [|done].
  rewrite (C_bind_Done _ _ _ _ _ (mload_run p _ _ _ Em)). 
  assert (owner_id (held m (S n)) = self_id me) as -> by (simpl; by rewrite Hr).
  destruct (Z.eqb_spec (self_id other) (self_id me)); [done|]. cbn [negb]. by rewrite (C_bind_Done _ _ _ _ _ Et).
Qed.
End solo.

Lemma init_run p junk w : ABTI_mutex_init p (setm p junk w) = Done ((), setm p (Mutex 0 false 0 0 false no_waitlist) w).
Proof.
  unfold ABTI_mutex_init. rewrite (C_bind_Done _ _ _ _ _ (on_mlock_run p _ _ _ () false (setm_lookup p _ w) eq_refl)), setm_setm.
  set (m1 := set_mlock false junk).
  rewrite (C_bind_Done _ _ _ () (setm p (set_waiting false (waitlist m1) m1) w)).
  2:{ rewrite (on_waiters_run p _ _ () (set_wl_lock false (mutex_view p (setm p m1 w)))) by done.
      rewrite (mutex_view_eq p m1) by apply setm_lookup. rewrite (mutex_upd_setm p m1); [|apply setm_lookup|done|done]. by rewrite setm_setm. }
  set (m2 := set_waiting false (waitlist m1) m1).
  rewrite (C_bind_Done _ _ _ () (setm p (set_waiting false no_waitlist m2) w)).
  2:{ rewrite (on_waiters_run p _ _ () (set_wl no_waitlist (mutex_view p (setm p m2 w)))) by done.
      rewrite (mutex_view_eq p m2) by apply setm_lookup. rewrite (mutex_upd_setm p m2); [|apply setm_lookup|done|done]. by rewrite setm_setm. }
  do 2 (rewrite (C_bind_Done _ _ _ _ _ (mstore_run p _ _ _ (setm_lookup p _ w))), setm_setm).
  by rewrite (mstore_run p _ _ _ (setm_lookup p _ w)), setm_setm.
Qed.

Fixpoint times {S A} (n : nat) (m : C S A) : C S unit :=
  match n with
  | O => mret ()
  | Datatypes.S n => m;; times n m
  end.

(** A recursive mutex created through the API nests: [n] locks by one thread
    succeed, in between every attempt of another thread fails with
    [ABT_ERR_MUTEX_LOCKED] and changes nothing, and [n] unlocks make the mutex
    exactly what it was after its creation.  The bytes of the fresh memory do
    not matter. *)
Theorem recursive_mutex_nests p q junk env me other fuel n w :
  mattrs w !! q = Some ABTI_MUTEX_ATTR_RECURSIVE → self_id me ≠ 0 → self_id other ≠ self_id me → (0 < fuel)%nat →
  (0 < n)%nat → Z.of_nat n ≤ 2 ^ 31 →
  ∃ w1 w2, ABT_mutex_create_with_attr (Some (p, junk)) (Some q) w = Done ((ABT_SUCCESS, Some p), w1) ∧
    times n (ABT_mutex_lock env me fuel (Some p)) w1 = Done ((), w2) ∧
    ABT_mutex_trylock other (Some p) w2 = Done (ABT_ERR_MUTEX_LOCKED, w2) ∧
    times n (ABT_mutex_unlock me (Some p)) w2 = Done ((), w1).
Proof.
  intros Hq Hid Hne Hf Hn Hmax.
  set (m0 := Mutex ABTI_MUTEX_ATTR_RECURSIVE false 0 0 false no_waitlist). set (w1 := setm p m0 w).
  assert (free_mutex m0) as Hfree by done.
  assert (∀ k w', setm p (held me m0 k) (setm p w' w) = setm p (held me m0 k) w) as Hss by (intros; apply setm_setm).
  assert (∀ k j, (j + k ≤ n)%nat →
    times k (ABT_mutex_lock env me fuel (Some p)) (setm p (held me m0 j) w) = Done ((), setm p (held me m0 (j + k)) w)) as Hlock.
  { induction k as [|k IH]; intros j Hj; [by rewrite Nat.add_0_r|]. cbn [times].
    rewrite (C_bind_Done _ _ _ ABT_SUCCESS (setm p (held me m0 (S j)) w)).
    - rewrite IH by lia. do 4 f_equal. lia.
    - unfold ABT_mutex_lock, check_null.
      rewrite (C_bind_Done _ _ _ _ _ (lock_held p env me fuel m0 _ j Hfree Hid Hf (setm_lookup p _ w) ltac:(simpl; lia))).
      by rewrite Hss. }
  assert (∀ k, (k ≤ n)%nat → times k (ABT_mutex_unlock me (Some p)) (setm p (held me m0 k) w) = Done ((), w1)) as Hunlock.
  { induction k as [|k IH]; intros Hk; [done|]. cbn [times].
    rewrite (C_bind_Done _ _ _ ABT_SUCCESS (setm p (held me m0 k) w)); [apply IH; lia|].
    unfold ABT_mutex_unlock, check_null. rewrite (C_bind_Done _ _ _ () (setm p (held me m0 (S k)) w)).
    2:{ unfold assert_owned, ABTI_mutex_is_locked. set (wk := setm p _ w).
        assert (mutexes wk !! p = Some (held me m0 (S k))) as Ek by apply setm_lookup.
        rewrite (C_bind_Done _ _ _ _ _ (on_mlock_run p _ _ _ true true Ek eq_refl)), (setm_id p _ wk) by done.
        rewrite (C_bind_Done _ _ wk () wk) by done. rewrite !(C_bind_Done _ _ _ _ _ (mload_run p _ _ _ Ek)).
        simpl. by rewrite Z.eqb_refl. }
    rewrite (C_bind_Done _ _ _ _ _ (unlock_held p me m0 _ k Hfree (setm_lookup p _ w) ltac:(simpl; lia))). by rewrite Hss. }
  exists w1, (setm p (held me m0 n) w). split; [|split; [by apply (Hlock n 0%nat)|split]].
  - unfold ABT_mutex_create_with_attr.
    rewrite (C_bind_Done _ _ _ () (setm p junk w)) by done.
    rewrite (C_bind_Done _ _ _ () (setm p (Mutex 0 false 0 0 false no_waitlist) w)) by apply init_run.
    assert (aload q (setm p (Mutex 0 false 0 0 false no_waitlist) w) = Done (ABTI_MUTEX_ATTR_RECURSIVE, setm p (Mutex 0 false 0 0 false no_waitlist) w)) as Ea
      by (unfold aload; simpl; by rewrite Hq).
    rewrite C_bind_assoc, (C_bind_Done _ _ _ _ _ Ea), (C_bind_Done _ _ _ _ _ (mstore_run p _ _ _ (setm_lookup p _ w))), setm_setm. done.
  - unfold ABT_mutex_trylock, check_null. destruct n as [|n']; [lia|].
    by rewrite (C_bind_Done _ _ _ _ _ (trylock_other p me m0 _ n' other Hfree (setm_lookup p _ w) Hne)).
  - by apply Hunlock.
Qed.

(** A thread that nests three times against another one. *)
Lemma recursive_mutex_nests_witness :
  let w := World ∅ {[ 7%positive := 1 ]} ∅ ∅ ∅ [] in
  let me := Self 11 ExtThread 9 in
  ∃ w1 w2, ABT_mutex_create_with_attr (Some (5%positive, Mutex 77 true 3 9 true no_waitlist)) (Some 7%positive) w = Done ((ABT_SUCCESS, Some 5%positive), w1) ∧
    times 3 (ABT_mutex_lock (λ _, mret ()) me 1 (Some 5%positive)) w1 = Done ((), w2) ∧
    ABT_mutex_trylock (Self 12 ExtThread 10) (Some 5%positive) w2 = Done (ABT_ERR_MUTEX_LOCKED, w2) ∧
    times 3 (ABT_mutex_unlock me (Some 5%positive)) w2 = Done ((), w1).
Proof.
  intros w me. apply (recursive_mutex_nests 5 7 _ (λ _, mret ()) me (Self 12 ExtThread 10) 1 3 w);
    [reflexivity|discriminate|discriminate|lia|lia|lia].
Defined.

