(* ===== verification/MutexConc.v ===== *)
(** * Contending for a mutex

    Any number of user-level and external threads lock, try-lock and unlock one
    mutex (abti_mutex.h); their atomic steps interleave in any order.  Every
    access to the lock word is a step of its own; the plain fields
    [nesting_cnt] and [owner_id] are read without the lock as in the code; the
    waiter list is changed by the waitlist operations of [Waitlist], which run
    under [waiter_lock]. *)

From stdpp Require Import base tactics option list numbers gmap fin_maps functions.
From Stdlib Require Import FunctionalExtensionality.
From S2P Require Import Prelude.
From S2P Require Import Abt.
From S2P Require Import Thread.
From S2P Require Import Waitlist.
From S2P Require Import Mutex.

(** ** The machine *)

(** Where a thread is inside [ABTI_mutex_lock], [ABTI_mutex_trylock] or
    [ABTI_mutex_unlock]. *)
Inductive pc :=
  | Idle
  | LCheck | LTry | LWaiter | LRetry | LRelW | LEnq | LUnl | LSleep | LGot
  | TCheck | TTry
  | UStart | UWaiter | URel | UBcast | UEnd.

Global Instance pc_eq_dec : EqDecision pc.
Proof. solve_decision. Defined.

(** [depth] is how often a thread holds the mutex. *)
Record sys := Sys { sw : world; pcs : ptr → pc; depth : ptr → nat }.

Section machine.
Context (p : ptr) (Y : list ptr).

(** A thread is named by its descriptor; those in [Y] are user-level threads,
    the others are external threads with a descriptor on their stacks. *)
Definition unit_of (t : ptr) : self := Self (Zpos t) (if decide (t ∈ Y) then Ult t else ExtThread) t.

Definition enqueue (t : ptr) : wop := if decide (t ∈ Y) then Suspend t else Sleep t.

(** One step inside an operation: the next position and depth. *)
Definition advance (t : ptr) (c : pc) (d : nat) : C world (pc * nat) :=
  match c with
  | Idle => throw Blocked
  (* ABTI_mutex_lock *)
  | LCheck =>
      owner ← mload owner_id p;
      if negb (Z.eqb (self_id (unit_of t)) owner) then mret (LTry, d)
      else incr_nesting p;; mret (Idle, S d)
  | LTry =>
      held ← on_mlock p ABTD_spinlock_try_acquire;
      mret (if (held : bool) then LWaiter else LGot, d)
  | LWaiter => on_waiters p (on_lock ABTD_spinlock_acquire);; mret (LRetry, d)
  | LRetry =>
      held ← on_mlock p ABTD_spinlock_try_acquire;
      mret (if negb held then LRelW else LEnq, d)
  | LRelW => on_waiters p (on_lock ABTD_spinlock_release);; mret (LGot, d)
  | LEnq =>
      locked ← on_waiters p (on_lock ABTD_spinlock_is_locked);
      c_assert locked;;
      on_waiters p (wop_body (enqueue t));;
      mret (LUnl, d)
  | LUnl => on_waiters p (on_lock ABTD_spinlock_release);; mret (LSleep, d)
  | LSleep =>
      r ← on_waiters p (ready t);
      if (r : bool) then mret (LTry, d) else throw Blocked
  | LGot =>
      a ← mload attrs p;
      (if recursive a then take_ownership (unit_of t) p else mret ());;
      mret (Idle, S d)
  (* ABTI_mutex_trylock *)
  | TCheck =>
      owner ← mload owner_id p;
      if negb (Z.eqb (self_id (unit_of t)) owner) then mret (TTry, d)
      else incr_nesting p;; mret (Idle, S d)
  | TTry =>
      held ← on_mlock p ABTD_spinlock_try_acquire;
      mret (if (held : bool) then Idle else LGot, d)
  (* ABTI_mutex_unlock *)
  | UStart =>
      a ← mload attrs p;
      if recursive a then
        n ← mload nesting_cnt p;
        if Z.eqb n 0 then mstore (set_owner_id 0) p;; mret (UWaiter, 0%nat)
        else mstore (set_nesting_cnt (i32 (n - 1))) p;; mret (Idle, pred d)
      else mret (UWaiter, 0%nat)
  | UWaiter => on_waiters p (on_lock ABTD_spinlock_acquire);; mret (URel, d)
  | URel => on_mlock p ABTD_spinlock_release;; mret (UBcast, d)
  | UBcast => on_waiters p ABTI_waitlist_broadcast;; mret (UEnd, d)
  | UEnd => on_waiters p (on_lock ABTD_spinlock_release);; mret (Idle, d)
  end.

(** The calls a thread may make: it unlocks only what it holds, does not lock a
    plain mutex twice, and does not nest deeper than an [int] can count. *)
Inductive call := CallLock | CallTrylock | CallUnlock.

Definition begin_call (r : bool) (c : call) (d : nat) : option pc :=
  match c with
  | CallLock =>
      if r then if decide (Z.of_nat d < 2 ^ 31 - 1) then Some LCheck else None
      else if decide (d = 0%nat) then Some LTry else None
  | CallTrylock =>
      if r then if decide (Z.of_nat d < 2 ^ 31 - 1) then Some TCheck else None
      else Some TTry
  | CallUnlock => if decide (0 < d)%nat then Some UStart else None
  end.

Inductive mstep (s : sys) : sys → Prop :=
  | mstep_call t c c' m :
      pcs s t = Idle → mutexes (sw s) !! p = Some m →
      begin_call (recursive (attrs m)) c (depth s t) = Some c' →
      mstep s (Sys (sw s) (<[t := c']> (pcs s)) (depth s))
  | mstep_run t c' d' w' :
      advance t (pcs s t) (depth s t) (sw s) = Done ((c', d'), w') →
      mstep s (Sys w' (<[t := c']> (pcs s)) (<[t := d']> (depth s))).

Inductive reachable (s0 : sys) : sys → Prop :=
  | reach_init : reachable s0 s0
  | reach_step s s' : reachable s0 s → mstep s s' → reachable s0 s'.

(** A fresh mutex with attributes [a], nobody in it. *)
Definition fresh_mutex (a : Z) : ABTI_mutex := Mutex a false 0 0 false no_waitlist.

Record initial (a : Z) (s : sys) : Prop := {
  init_mutex : mutexes (sw s) !! p = Some (fresh_mutex a);
  init_pcs : ∀ t, pcs s t = Idle;
  init_depth : ∀ t, depth s t = 0%nat;
  init_ult : ∀ t, t ∈ Y → yieldable (threads (sw s)) t = true;
}.

(** ** The invariant *)

(** The thread owns the lock word / [waiter_lock]. *)
Definition holds (c : pc) (d : nat) : bool :=
  match d with
  | S _ => true
  | O => match c with LRelW | LGot | UWaiter | URel => true | _ => false end
  end.

Definition holds_waiters (c : pc) : bool :=
  match c with LRetry | LRelW | LEnq | LUnl | URel | UBcast | UEnd => true | _ => false end.

Definition queued (c : pc) : bool := match c with LUnl | LSleep => true | _ => false end.

Definition pc_ok (r : bool) (c : pc) (d : nat) : Prop :=
  match c with
  | Idle => Z.of_nat d < 2 ^ 31
  | LCheck | TCheck => r = true ∧ Z.of_nat d < 2 ^ 31 - 1
  | UStart => (0 < d)%nat ∧ Z.of_nat d < 2 ^ 31
  | TTry => (r = true → d = 0%nat) ∧ Z.of_nat d < 2 ^ 31
  | _ => d = 0%nat
  end ∧ (r = false → (d ≤ 1)%nat).

Record minv (a : Z) (h k : option ptr) (l : list (ptr * bool)) (m : ABTI_mutex) (s : sys) : Prop := {
  mi_mutex : mutexes (sw s) !! p = Some m;
  mi_attrs : attrs m = a;
  mi_lock : mlock m = bool_decide (is_Some h);
  mi_wlock : waiter_lock m = bool_decide (is_Some k);
  mi_nest : nesting_cnt m = if recursive a then match h with Some t => Z.of_nat (pred (depth s t)) | None => 0 end else 0;
  mi_owner : owner_id m =
    match h with Some t => if (recursive a && negb (Nat.eqb (depth s t) 0))%bool then Zpos t else 0 | None => 0 end;
  mi_wl : winv Y l (mutex_view p (sw s));
  mi_h : ∀ t, holds (pcs s t) (depth s t) = true ↔ h = Some t;
  mi_k : ∀ t, holds_waiters (pcs s t) = true ↔ k = Some t;
  mi_list : ∀ t, t ∈ l.*1 → queued (pcs s t) = true;
  mi_sleep : ∀ t, queued (pcs s t) = true →
    t ∈ l.*1 ∨ (pcs s t = LSleep ∧ tstate (threads (sw s)) t = Some ABT_THREAD_STATE_READY);
  mi_wake : l ≠ [] → is_Some h ∨ ∃ t, pcs s t = UBcast;
  mi_enq : ∀ t, pcs s t = LEnq → is_Some h;
  mi_pc : ∀ t, pc_ok (recursive a) (pcs s t) (depth s t);
}.
End machine.

(** ** Preservation *)

Section preservation.
Context (p : ptr) (Y : list ptr) (a : Z).
Implicit Types (s : sys) (h k : option ptr) (l : list (ptr * bool)) (m : ABTI_mutex) (t : ptr).

(** A step of [t] that leaves the waiters alone. *)
Lemma minv_quiet h k l m s t w' c' d' h' k' m' :
  minv p Y a h k l m s →
  mutexes w' !! p = Some m' → attrs m' = a →
  mlock m' = bool_decide (is_Some h') → waiter_lock m' = bool_decide (is_Some k') →
  nesting_cnt m' = (if recursive a then match h' with Some u => Z.of_nat (pred (<[t := d']> (depth s) u)) | None => 0 end else 0) →
  owner_id m' = (match h' with Some u => if (recursive a && negb (Nat.eqb (<[t := d']> (depth s) u) 0))%bool then Zpos u else 0 | None => 0 end) →
  winv Y l (mutex_view p w') → threads w' = threads (sw s) →
  (∀ u, u ≠ t → h = Some u ↔ h' = Some u) → (holds c' d' = true ↔ h' = Some t) →
  (∀ u, u ≠ t → k = Some u ↔ k' = Some u) → (holds_waiters c' = true ↔ k' = Some t) →
  (queued c' = true → queued (pcs s t) = true ∧ c' = LSleep) →
  (queued (pcs s t) = true → queued c' = false → t ∉ l.*1) →
  (is_Some h → is_Some h' ∨ c' = UBcast) → pcs s t ≠ UBcast →
  (is_Some h → is_Some h' ∨ k = Some t) →
  (c' = LEnq → is_Some h') →
  pc_ok (recursive a) c' d' →
  minv p Y a h' k' l m' (Sys w' (<[t := c']> (pcs s)) (<[t := d']> (depth s))).
Proof.
  intros Hi E1 E2 E3 E4 E5 E6 Hw Ht Hh Hht Hk Hkt Hq1 Hq2 Hwk Hnb Hkeep Henq Hpc.
  assert (∀ u, holds (<[t := c']> (pcs s) u) (<[t := d']> (depth s) u) = true ↔ h' = Some u) as Hholds.
  { intros u. destruct (decide (u = t)) as [->|Hne]; [by rewrite !fn_lookup_insert|].
    rewrite !fn_lookup_insert_ne by done. rewrite <- Hh by done. apply Hi. }
  split; simpl; try done.
  - intros u. destruct (decide (u = t)) as [->|Hne]; [by rewrite fn_lookup_insert|].
    rewrite fn_lookup_insert_ne by done. rewrite <- Hk by done. apply Hi.
  - intros u Hu. destruct (decide (u = t)) as [->|Hne].
    + rewrite fn_lookup_insert. destruct (queued c') eqn:Eq; [done|]. exfalso. by apply Hq2; [apply Hi|done|].
    + rewrite fn_lookup_insert_ne by done. by apply Hi.
  - intros u Hu. rewrite Ht. destruct (decide (u = t)) as [->|Hne].
    + rewrite fn_lookup_insert in *. destruct (Hq1 Hu) as [Hq ->].
      destruct (mi_sleep _ _ _ _ _ _ _ _ Hi t Hq) as [?|[? ?]]; [by left|by right].
    + rewrite fn_lookup_insert_ne in * by done. by apply Hi.
  - intros Hl. destruct (mi_wake _ _ _ _ _ _ _ _ Hi Hl) as [Hs|[u Hu]].
    + destruct (Hwk Hs) as [?| ->]; [by left|right; exists t; by rewrite fn_lookup_insert].
    + right. exists u. rewrite fn_lookup_insert_ne; [done|]. intros <-. done.
  - intros u Hu. destruct (decide (u = t)) as [->|Hne]; [rewrite fn_lookup_insert in Hu; by apply Henq|].
    rewrite fn_lookup_insert_ne in Hu by done.
    destruct (Hkeep (mi_enq _ _ _ _ _ _ _ _ Hi u Hu)) as [?|Hkt']; [done|].
    assert (k = Some u) by (apply (mi_k _ _ _ _ _ _ _ _ Hi); by rewrite Hu). congruence.
  - intros u. destruct (decide (u = t)) as [->|Hne]; [by rewrite !fn_lookup_insert|].
    rewrite !fn_lookup_insert_ne by done. apply Hi.
Qed.

(** The post-condition of a step; a thread waits only in these places. *)
Definition blocked_at k l s t : Prop :=
  match pcs s t with
  | Idle => True
  | LWaiter | UWaiter => is_Some k
  | LSleep => t ∈ l.*1
  | _ => False
  end.

Definition step_post k l s t (o : outcome ((pc * nat) * world)) : Prop :=
  match o with
  | Done ((c', d'), w') => ∃ h' k' l' m', minv p Y a h' k' l' m' (Sys w' (<[t := c']> (pcs s)) (<[t := d']> (depth s)))
  | Fault f => f = Blocked ∧ blocked_at k l s t
  end.

Lemma not_queued_list h k l m s t : minv p Y a h k l m s → queued (pcs s t) = false → t ∉ l.*1.
Proof. intros Hi Hq Hin. by rewrite (mi_list _ _ _ _ _ _ _ _ Hi t Hin) in Hq. Qed.

Lemma depth_of_holder h k l m s t : minv p Y a h k l m s → h ≠ Some t → depth s t = 0%nat.
Proof.
  intros Hi Hne. destruct (depth s t) eqn:E; [done|]. exfalso. apply Hne. apply (mi_h _ _ _ _ _ _ _ _ Hi). by rewrite E.
Qed.

(** The same when the two locks and the position relative to the queue stay. *)
Lemma minv_same h k l m s t w' c' d' m' :
  minv p Y a h k l m s → pcs s t ≠ UBcast → queued (pcs s t) = false → queued c' = false → (c' = LEnq → is_Some h) →
  holds_waiters c' = holds_waiters (pcs s t) → holds c' d' = holds (pcs s t) (depth s t) →
  mutexes w' !! p = Some m' → attrs m' = a → mlock m' = mlock m → waiter_lock m' = waiter_lock m → waitlist m' = waitlist m →
  threads w' = threads (sw s) → w_resumed w' = w_resumed (sw s) →
  nesting_cnt m' = (if recursive a then match h with Some u => Z.of_nat (pred (<[t := d']> (depth s) u)) | None => 0 end else 0) →
  owner_id m' = (match h with Some u => if (recursive a && negb (Nat.eqb (<[t := d']> (depth s) u) 0))%bool then Zpos u else 0 | None => 0 end) →
  pc_ok (recursive a) c' d' →
  minv p Y a h k l m' (Sys w' (<[t := c']> (pcs s)) (<[t := d']> (depth s))).
Proof.
  intros Hi Hnb Hq Hq' Henq Hw Hh Em' Ea El Ew Ewl Eth Ere En Eo Hpc.
  eapply minv_quiet; [exact Hi|exact Em'|exact Ea|rewrite El; apply Hi|rewrite Ew; apply Hi|exact En|exact Eo| |exact Eth
    |done|rewrite Hh; apply Hi|done|rewrite Hw; apply Hi|by rewrite Hq'|by rewrite Hq|by left|done|by left|exact Henq|exact Hpc].
  rewrite (mutex_view_eq p m' w' Em'), Ewl, Ew, Eth, Ere, <- (mutex_view_eq p m (sw s)); apply Hi.
Qed.

Lemma holder_fields h k l m s t d' :
  minv p Y a h k l m s → h ≠ Some t →
  nesting_cnt m = (if recursive a then match h with Some u => Z.of_nat (pred (<[t := d']> (depth s) u)) | None => 0 end else 0) ∧
  owner_id m = (match h with Some u => if (recursive a && negb (Nat.eqb (<[t := d']> (depth s) u) 0))%bool then Zpos u else 0 | None => 0 end).
Proof.
  intros Hi Hne. rewrite (mi_nest _ _ _ _ _ _ _ _ Hi), (mi_owner _ _ _ _ _ _ _ _ Hi).
  destruct h as [u|]; [|done]. rewrite fn_lookup_insert_ne by congruence. done.
Qed.

Lemma lcheck_step h k l m s t c2 :
  minv p Y a h k l m s → (pcs s t = LCheck ∧ c2 = LTry) ∨ (pcs s t = TCheck ∧ c2 = TTry) →
  step_post k l s t
    ((owner ← mload owner_id p;
      if negb (Z.eqb (self_id (unit_of Y t)) owner) then mret (c2, depth s t)
      else incr_nesting p;; mret (Idle, S (depth s t))) (sw s)).
Proof.
  intros Hi Hc. pose proof (mi_mutex _ _ _ _ _ _ _ _ Hi) as Em. pose proof (mi_pc _ _ _ _ _ _ _ _ Hi t) as Hpc.
  pose proof (mi_h _ _ _ _ _ _ _ _ Hi t) as Hht.
  assert (recursive a = true ∧ Z.of_nat (depth s t) < 2 ^ 31 - 1) as [Hrec Hlt]
    by (destruct Hc as [[E _]|[E _]]; rewrite E in Hpc; apply Hpc).
  assert (holds_waiters (pcs s t) = false ∧ queued (pcs s t) = false ∧ pcs s t ≠ UBcast ∧
    holds (pcs s t) (depth s t) = negb (Nat.eqb (depth s t) 0)) as (Hw & Hq & Hnb & Hd).
  { destruct Hc as [[E _]|[E _]]; rewrite E; split_and!; try done; by destruct (depth s t). }
  rewrite (C_bind_Done _ _ _ _ _ (mload_run _ _ _ _ Em)). rewrite (mi_owner _ _ _ _ _ _ _ _ Hi), Hrec. cbn [self_id unit_of andb].
  destruct (Z.eqb_spec (Zpos t) (match h with Some u => if negb (Nat.eqb (depth s u) 0) then Zpos u else 0 | None => 0 end)) as [Eo|Eo]; cbn [negb].
  - destruct h as [u|]; [|done]. destruct (Nat.eqb_spec (depth s u) 0) as [|Hdu]; [done|]. simpl in Eo. injection Eo as <-.
    unfold incr_nesting. rewrite C_bind_assoc, (C_bind_Done _ _ _ _ _ (mload_run _ _ _ _ Em)).
    rewrite (C_bind_Done _ _ _ _ _ (mstore_run _ _ _ _ Em)).
    rewrite (mi_nest _ _ _ _ _ _ _ _ Hi), Hrec.
    exists (Some t), k, l, (set_nesting_cnt (i32 (Z.of_nat (pred (depth s t)) + 1)) m).
    eapply minv_same; [exact Hi|done|done|done|done|done| |apply setm_lookup|apply Hi|done..| | |].
    + rewrite Hd. by destruct (Nat.eqb_spec (depth s t) 0).
    + simpl. rewrite Hrec, fn_lookup_insert, i32_small; lia.
    + simpl. rewrite Hrec, fn_lookup_insert. simpl. rewrite (mi_owner _ _ _ _ _ _ _ _ Hi), Hrec. by destruct (Nat.eqb_spec (depth s t) 0).
    + simpl. split; [lia|by rewrite Hrec].
  - assert (depth s t = 0%nat) as Hd0.
    { destruct (decide (h = Some t)) as [->|Hne]; [|by eapply depth_of_holder]. destruct (Nat.eqb_spec (depth s t) 0); done. }
    assert (h ≠ Some t) as Hne by (rewrite <- Hht, Hd, Hd0; done).
    exists h, k, l, m. destruct (holder_fields h k l m s t (depth s t) Hi Hne) as [F1 F2].
    eapply minv_same; [exact Hi|done|done| | | | |exact Em|apply Hi|done|done|done|done|done|exact F1|exact F2|].
    1-4: destruct Hc as [[E ->]|[E ->]]; rewrite ?E, ?Hd0; done.
    destruct Hc as [[E ->]|[E ->]]; simpl; rewrite Hd0, Hrec; split; done.
Qed.

Ltac pc_cases Hc :=
  destruct_or! Hc; destruct_and! Hc; subst;
  match goal with E : pcs _ _ = _ |- _ =>
    rewrite ?E; try match goal with H : pc_ok _ (pcs _ _) _ |- _ => rewrite E in H end
  end.

Lemma try_step h k l m s t c1 c2 :
  minv p Y a h k l m s →
  (pcs s t = LTry ∧ c1 = LWaiter ∧ c2 = LGot) ∨ (pcs s t = TTry ∧ c1 = Idle ∧ c2 = LGot) ∨
    (pcs s t = LRetry ∧ c1 = LEnq ∧ c2 = LRelW) →
  step_post k l s t
    ((held ← on_mlock p ABTD_spinlock_try_acquire; mret (if (held : bool) then c1 else c2, depth s t)) (sw s)).
Proof.
  intros Hi Hc. pose proof (mi_mutex _ _ _ _ _ _ _ _ Hi) as Em. pose proof (mi_pc _ _ _ _ _ _ _ _ Hi t) as Hpc.
  pose proof (mi_h _ _ _ _ _ _ _ _ Hi t) as Hht.
  rewrite (C_bind_Done _ _ _ _ _ (on_mlock_run p _ _ _ (mlock m) true Em eq_refl)).
  rewrite (mi_lock _ _ _ _ _ _ _ _ Hi).
  assert (pcs s t ≠ UBcast ∧ queued (pcs s t) = false) as [Hnb Hq] by (pc_cases Hc; done).
  assert (mlock (set_mlock true m) = true) as Etrue by done.
  destruct h as [u|].
  - rewrite bool_decide_true by done. exists (Some u), k, l, (set_mlock true m).
    assert (mlock m = true) as Elm by (rewrite (mi_lock _ _ _ _ _ _ _ _ Hi); by rewrite bool_decide_true).
    eapply minv_same; [exact Hi|done|done| | | | |apply setm_lookup|apply Hi|by rewrite Elm|done|done|done|done| | |].
    1-4: pc_cases Hc; try done; destruct (depth s t); done.
    + destruct (decide (u = t)) as [->|Hne].
      * rewrite fn_lookup_insert. apply (mi_nest _ _ _ _ _ _ _ _ Hi).
      * rewrite fn_lookup_insert_ne by done. apply (mi_nest _ _ _ _ _ _ _ _ Hi).
    + destruct (decide (u = t)) as [->|Hne].
      * rewrite fn_lookup_insert. apply (mi_owner _ _ _ _ _ _ _ _ Hi).
      * rewrite fn_lookup_insert_ne by done. apply (mi_owner _ _ _ _ _ _ _ _ Hi).
    + pc_cases Hc; destruct Hpc as [Hp1 Hp2]; split; try exact Hp2; try exact Hp1; apply Hp1.
  - rewrite bool_decide_false by (intros []; done).
    assert (depth s t = 0%nat) as Hd0 by (by eapply depth_of_holder).
    destruct (holder_fields None k l m s t (depth s t) Hi ltac:(done)) as [F1 F2].
    exists (Some t), k, l, (set_mlock true m).
    eapply minv_quiet; [exact Hi|apply setm_lookup|apply Hi|done|apply Hi| | | |done|intros u Hu; split; congruence| |done| | | |by left|done|by left| |].
    + rewrite fn_lookup_insert, Hd0. simpl in F1. done.
    + rewrite fn_lookup_insert, Hd0, andb_false_r. done.
    + rewrite (setm_view p m); [apply Hi|done|done|done].
    + rewrite Hd0. pc_cases Hc; done.
    + rewrite <- (mi_k _ _ _ _ _ _ _ _ Hi t). pc_cases Hc; done.
    + pc_cases Hc; done.
    + by rewrite Hq.
    + by intros _.
    + rewrite Hd0. pc_cases Hc; simpl; split; try done; lia.
Qed.

(** Acquiring [waiter_lock]. *)
Lemma wacquire_step h k l m s t c' :
  minv p Y a h k l m s → (pcs s t = LWaiter ∧ c' = LRetry) ∨ (pcs s t = UWaiter ∧ c' = URel) →
  step_post k l s t ((on_waiters p (on_lock ABTD_spinlock_acquire);; mret (c', depth s t)) (sw s)).
Proof.
  intros Hi Hc. pose proof (mi_mutex _ _ _ _ _ _ _ _ Hi) as Em. pose proof (mi_pc _ _ _ _ _ _ _ _ Hi t) as Hpc.
  pose proof (mi_wlock _ _ _ _ _ _ _ _ Hi) as Ew. pose proof (mi_wl _ _ _ _ _ _ _ _ Hi) as Hwl.
  assert (depth s t = 0%nat) as Hd0 by (pc_cases Hc; apply Hpc).
  assert (pcs s t ≠ UBcast ∧ queued (pcs s t) = false ∧ queued c' = false ∧ c' ≠ UBcast ∧ c' ≠ LEnq ∧ holds_waiters c' = true ∧
    holds c' 0 = holds (pcs s t) 0 ∧ pc_ok (recursive a) c' 0) as (Hnb & Hq & Hq' & Hb' & He' & Hw' & Hh' & Hpc')
    by (pc_cases Hc; split_and!; try done; split; simpl; lia).
  set (v := mutex_view p (sw s)) in *.
  assert (wl_lock v = waiter_lock m) as Ev by (subst v; by rewrite (mutex_view_eq p m)).
  destruct k as [u|].
  - rewrite (C_bind_Fault _ _ _ Blocked).
    { split; [done|]. unfold blocked_at. by pc_cases Hc. }
    unfold on_waiters, on_wst, zoom. fold v. unfold on_lock, zoom, ABTD_spinlock_acquire.
    rewrite Ev, Ew, bool_decide_true by done. done.
  - rewrite (C_bind_Done _ _ _ () (mutex_upd p (set_wl_lock true v) (sw s))).
    2:{ apply on_waiters_run. fold v. unfold on_lock, zoom, ABTD_spinlock_acquire. rewrite Ev, Ew.
        rewrite bool_decide_false by (intros []; done). done. }
    exists h, (Some t), l, (set_waiting true (waitlist m) m).
    assert (mutexes (mutex_upd p (set_wl_lock true v) (sw s)) !! p = Some (set_waiting true (waitlist m) m)) as Em'.
    { rewrite (mutex_upd_lookup p m) by done. subst v. by rewrite (mutex_view_eq p m). }
    eapply minv_quiet; [exact Hi|exact Em'|apply Hi|apply Hi|by rewrite bool_decide_true| | | | |done| |intros u Hu; split; congruence
      | |by rewrite Hq'|by rewrite Hq|by left|done|by left|done|].
    + simpl. rewrite (mi_nest _ _ _ _ _ _ _ _ Hi). destruct h as [u|]; [|done].
      destruct (decide (u = t)) as [->|]; [by rewrite fn_lookup_insert|by rewrite fn_lookup_insert_ne].
    + simpl. rewrite (mi_owner _ _ _ _ _ _ _ _ Hi). destruct h as [u|]; [|done].
      destruct (decide (u = t)) as [->|]; [by rewrite fn_lookup_insert|by rewrite fn_lookup_insert_ne].
    + rewrite (mutex_view_upd p m) by done. by apply winv_lock.
    + subst v. unfold mutex_upd. simpl. by rewrite (mutex_view_eq p m).
    + rewrite Hd0, Hh', <- Hd0. apply Hi.
    + rewrite Hw'. done.
    + by rewrite Hd0.
Qed.

(** Releasing [waiter_lock]. *)
Lemma wrelease_step h k l m s t c' :
  minv p Y a h k l m s → (pcs s t = LRelW ∧ c' = LGot) ∨ (pcs s t = LUnl ∧ c' = LSleep) ∨ (pcs s t = UEnd ∧ c' = Idle) →
  step_post k l s t ((on_waiters p (on_lock ABTD_spinlock_release);; mret (c', depth s t)) (sw s)).
Proof.
  intros Hi Hc. pose proof (mi_mutex _ _ _ _ _ _ _ _ Hi) as Em. pose proof (mi_pc _ _ _ _ _ _ _ _ Hi t) as Hpc.
  pose proof (mi_wl _ _ _ _ _ _ _ _ Hi) as Hwl.
  assert (depth s t = 0%nat) as Hd0 by (pc_cases Hc; apply Hpc).
  assert (pcs s t ≠ UBcast ∧ (queued c' = true → queued (pcs s t) = true ∧ c' = LSleep) ∧ queued (pcs s t) = queued c' ∧ c' ≠ LEnq ∧
    holds_waiters c' = false ∧ holds_waiters (pcs s t) = true ∧
    holds c' 0 = holds (pcs s t) 0 ∧ pc_ok (recursive a) c' 0) as (Hnb & Hq & Hq' & He' & Hw' & Hw & Hh' & Hpc')
    by (pc_cases Hc; split_and!; try done; split; simpl; lia).
  apply (mi_k _ _ _ _ _ _ _ _ Hi) in Hw as ->.
  set (v := mutex_view p (sw s)) in *.
  rewrite (C_bind_Done _ _ _ () (mutex_upd p (set_wl_lock false v) (sw s))) by (by apply on_waiters_run).
  exists h, None, l, (set_waiting false (waitlist m) m).
  assert (mutexes (mutex_upd p (set_wl_lock false v) (sw s)) !! p = Some (set_waiting false (waitlist m) m)) as Em'.
  { rewrite (mutex_upd_lookup p m) by done. subst v. by rewrite (mutex_view_eq p m). }
  eapply minv_quiet; [exact Hi|exact Em'|apply Hi|apply Hi|by rewrite bool_decide_false by (intros []; done)| | | | |done|
    |intros u Hu; split; congruence|by rewrite Hw'|done|intros; congruence|by left|done|by left|done|].
  - simpl. rewrite (mi_nest _ _ _ _ _ _ _ _ Hi). destruct h as [u|]; [|done].
    destruct (decide (u = t)) as [->|]; [by rewrite fn_lookup_insert|by rewrite fn_lookup_insert_ne].
  - simpl. rewrite (mi_owner _ _ _ _ _ _ _ _ Hi). destruct h as [u|]; [|done].
    destruct (decide (u = t)) as [->|]; [by rewrite fn_lookup_insert|by rewrite fn_lookup_insert_ne].
  - rewrite (mutex_view_upd p m) by done. by apply winv_lock.
  - subst v. unfold mutex_upd. simpl. by rewrite (mutex_view_eq p m).
  - rewrite Hd0, Hh', <- Hd0. apply Hi.
  - by rewrite Hd0.
Qed.

Lemma fields_ins h k l m s t :
  minv p Y a h k l m s →
  nesting_cnt m = (if recursive a then match h with Some u => Z.of_nat (pred (<[t := depth s t]> (depth s) u)) | None => 0 end else 0) ∧
  owner_id m = (match h with Some u => if (recursive a && negb (Nat.eqb (<[t := depth s t]> (depth s) u) 0))%bool then Zpos u else 0 | None => 0 end).
Proof.
  intros Hi. rewrite (mi_nest _ _ _ _ _ _ _ _ Hi), (mi_owner _ _ _ _ _ _ _ _ Hi). destruct h as [u|]; [|done].
  destruct (decide (u = t)) as [->|]; [by rewrite fn_lookup_insert|by rewrite fn_lookup_insert_ne].
Qed.

Lemma sleep_step h k l m s t :
  minv p Y a h k l m s → pcs s t = LSleep → step_post k l s t (advance p Y t LSleep (depth s t) (sw s)).
Proof.
  intros Hi Hc. pose proof (mi_mutex _ _ _ _ _ _ _ _ Hi) as Em. pose proof (mi_pc _ _ _ _ _ _ _ _ Hi t) as Hpc.
  pose proof (mi_wl _ _ _ _ _ _ _ _ Hi) as Hwl. pose proof (mi_h _ _ _ _ _ _ _ _ Hi t) as Hh. rewrite Hc in Hpc, Hh.
  assert (depth s t = 0%nat) as Hd0 by apply Hpc.
  assert (∀ st, tstate (threads (sw s)) t = Some st → on_waiters p (ready t) (sw s) =
    Done (bool_decide (st = ABT_THREAD_STATE_READY), mutex_upd p (mutex_view p (sw s)) (sw s))) as Hrun.
  { intros st Hst. apply on_waiters_run. apply ready_run. by rewrite (mutex_view_eq p m). }
  cbn [advance]. destruct (decide (t ∈ l.*1)) as [Hin|Hin].
  - pose proof (wi_blocked _ _ _ Hwl t Hin) as Hb. rewrite (mutex_view_eq p m _ Em) in Hb.
    rewrite (C_bind_Done _ _ _ _ _ (Hrun _ Hb)). split; [done|]. unfold blocked_at. by rewrite Hc.
  - destruct (mi_sleep _ _ _ _ _ _ _ _ Hi t) as [?|[_ Hr]]; [by rewrite Hc|done|].
    rewrite (C_bind_Done _ _ _ _ _ (Hrun _ Hr)). rewrite bool_decide_true by done.
    exists h, k, l, (set_waiting (waiter_lock m) (waitlist m) m).
    destruct (fields_ins h k l m s t Hi) as [F1 F2].
    eapply minv_quiet; [exact Hi| |apply Hi|apply Hi|apply Hi|exact F1|exact F2| | |done| |done| |done|done|by left|by rewrite Hc|by left|done|].
    + rewrite (mutex_upd_lookup p m) by done. by rewrite (mutex_view_eq p m).
    + by rewrite (mutex_view_upd p m).
    + unfold mutex_upd. simpl. by rewrite (mutex_view_eq p m).
    + rewrite <- Hh, Hd0. done.
    + rewrite <- (mi_k _ _ _ _ _ _ _ _ Hi t), Hc. done.
    + rewrite Hd0. split; simpl; lia.
Qed.

Lemma got_step h k l m s t :
  minv p Y a h k l m s → pcs s t = LGot → step_post k l s t (advance p Y t LGot (depth s t) (sw s)).
Proof.
  intros Hi Hc. pose proof (mi_mutex _ _ _ _ _ _ _ _ Hi) as Em. pose proof (mi_pc _ _ _ _ _ _ _ _ Hi t) as Hpc.
  pose proof (mi_h _ _ _ _ _ _ _ _ Hi t) as Hh. rewrite Hc in Hpc, Hh.
  assert (depth s t = 0%nat) as Hd0 by apply Hpc. rewrite Hd0 in *. simpl in Hh.
  assert (h = Some t) as -> by (by apply Hh).
  pose proof (mi_nest _ _ _ _ _ _ _ _ Hi) as En. pose proof (mi_owner _ _ _ _ _ _ _ _ Hi) as Eo.
  cbn beta iota in En, Eo. rewrite Hd0 in En, Eo. simpl in En, Eo. rewrite andb_false_r in Eo.
  assert (nesting_cnt m = 0) as En0 by (by destruct (recursive a)).
  cbn [advance]. rewrite (C_bind_Done _ _ _ _ _ (mload_run _ _ _ _ Em)), (mi_attrs _ _ _ _ _ _ _ _ Hi).
  destruct (recursive a) eqn:Hrec.
  - rewrite (C_bind_Done _ _ _ () (setm p (set_owner_id (Zpos t) m) (sw s))).
    2:{ unfold take_ownership. rewrite (C_bind_Done _ _ _ _ _ (mload_run _ _ _ _ Em)), En0.
        rewrite (C_bind_Done _ _ (sw s) () (sw s)) by done. rewrite (mstore_run _ _ _ _ Em). done. }
    exists (Some t), k, l, (set_owner_id (Zpos t) m).
    eapply minv_same; [exact Hi|by rewrite Hc|by rewrite Hc|done|done|by rewrite Hc|by rewrite Hc, Hd0|apply setm_lookup|apply Hi|done..| | |].
    + simpl. by rewrite fn_lookup_insert, Hrec.
    + simpl. by rewrite fn_lookup_insert, Hrec.
    + rewrite Hrec. split; simpl; lia.
  - rewrite (C_bind_Done _ _ _ () (sw s)) by done.
    exists (Some t), k, l, m.
    eapply minv_same; [exact Hi|by rewrite Hc|by rewrite Hc|done|done|by rewrite Hc|by rewrite Hc, Hd0|exact Em|apply Hi|done..| | |].
    + by rewrite Hrec.
    + by rewrite Hrec.
    + rewrite Hrec. split; simpl; lia.
Qed.

Lemma ustart_step h k l m s t :
  minv p Y a h k l m s → pcs s t = UStart → step_post k l s t (advance p Y t UStart (depth s t) (sw s)).
Proof.
  intros Hi Hc. pose proof (mi_mutex _ _ _ _ _ _ _ _ Hi) as Em. pose proof (mi_pc _ _ _ _ _ _ _ _ Hi t) as Hpc.
  pose proof (mi_h _ _ _ _ _ _ _ _ Hi t) as Hh. rewrite Hc in Hpc, Hh. destruct Hpc as [[Hd Hlt] Hd1].
  assert (h = Some t) as -> by (apply Hh; destruct (depth s t); [lia|done]).
  pose proof (mi_nest _ _ _ _ _ _ _ _ Hi) as En. pose proof (mi_owner _ _ _ _ _ _ _ _ Hi) as Eo. cbn beta iota in En, Eo.
  assert (Nat.eqb (depth s t) 0 = false) as Hnz by (apply Nat.eqb_neq; lia). rewrite Hnz in Eo.
  assert (holds UStart (depth s t) = true) as Hht by (destruct (depth s t); [lia|done]).
  cbn [advance]. rewrite (C_bind_Done _ _ _ _ _ (mload_run _ _ _ _ Em)), (mi_attrs _ _ _ _ _ _ _ _ Hi).
  destruct (recursive a) eqn:Hrec; simpl in Eo.
  - rewrite (C_bind_Done _ _ _ _ _ (mload_run _ _ _ _ Em)), En.
    destruct (Z.eqb_spec (Z.of_nat (pred (depth s t))) 0) as [E0|E0]; rewrite (C_bind_Done _ _ _ _ _ (mstore_run _ _ _ _ Em)).
    + exists (Some t), k, l, (set_owner_id 0 m).
      eapply minv_same; [exact Hi|by rewrite Hc|by rewrite Hc|done|done|by rewrite Hc|by rewrite Hc, Hht|apply setm_lookup|apply Hi|done..| | |];
        simpl; rewrite ?fn_lookup_insert, ?Hrec; simpl; [lia|done|split; [done|lia]].
    + exists (Some t), k, l, (set_nesting_cnt (i32 (nesting_cnt m - 1)) m). rewrite En.
      eapply minv_same; [exact Hi|by rewrite Hc|by rewrite Hc|done|done|by rewrite Hc| |apply setm_lookup|apply Hi|done..| | |].
      * rewrite Hc, Hht. destruct (depth s t) as [|[|?]]; [lia|done|done].
      * simpl. rewrite fn_lookup_insert, Hrec, i32_small; lia.
      * simpl. rewrite fn_lookup_insert, Hrec, Eo. simpl. destruct (Nat.eqb_spec (pred (depth s t)) 0); [lia|done].
      * rewrite Hrec. split; [simpl; lia|done].
  - exists (Some t), k, l, m.
    eapply minv_same; [exact Hi|by rewrite Hc|by rewrite Hc|done|done|by rewrite Hc|by rewrite Hc, Hht|exact Em|apply Hi|done..| | |];
      simpl; rewrite ?fn_lookup_insert, ?Hrec; simpl; [lia|done|split; [done|lia]].
Qed.

Lemma urel_step h k l m s t :
  minv p Y a h k l m s → pcs s t = URel → step_post k l s t (advance p Y t URel (depth s t) (sw s)).
Proof.
  intros Hi Hc. pose proof (mi_mutex _ _ _ _ _ _ _ _ Hi) as Em. pose proof (mi_pc _ _ _ _ _ _ _ _ Hi t) as Hpc.
  pose proof (mi_h _ _ _ _ _ _ _ _ Hi t) as Hh. pose proof (mi_k _ _ _ _ _ _ _ _ Hi t) as Hk. rewrite Hc in Hpc, Hh, Hk.
  assert (depth s t = 0%nat) as Hd0 by apply Hpc. rewrite Hd0 in *. simpl in Hh, Hk.
  assert (h = Some t) as -> by (by apply Hh). assert (k = Some t) as -> by (by apply Hk).
  pose proof (mi_nest _ _ _ _ _ _ _ _ Hi) as En. pose proof (mi_owner _ _ _ _ _ _ _ _ Hi) as Eo.
  cbn beta iota in En, Eo. rewrite Hd0 in En, Eo. simpl in En, Eo. rewrite andb_false_r in Eo.
  cbn [advance]. rewrite (C_bind_Done _ _ _ _ _ (on_mlock_run p _ _ _ () false Em eq_refl)).
  exists None, (Some t), l, (set_mlock false m).
  eapply minv_quiet; [exact Hi|apply setm_lookup|apply Hi|by rewrite bool_decide_false by (intros []; done)|apply Hi|exact En|exact Eo| |done
    |intros u Hu; split; congruence|done|done|done|done|by rewrite Hc|by right|by rewrite Hc|by right|done|].
  - rewrite (setm_view p m); [apply Hi|done|done|done].
  - split; simpl; lia.
Qed.

(** A step of [t] that changes the waiter list under [waiter_lock]. *)
Lemma minv_list h l l' m s t v' c' :
  minv p Y a h (Some t) l m s →
  winv Y l' v' → wl_lock v' = true → depth s t = 0%nat → holds c' 0 = holds (pcs s t) 0 → holds_waiters c' = true →
  pc_ok (recursive a) c' 0 → c' ≠ LEnq →
  (∀ u, u ∈ l'.*1 → if decide (u = t) then c' = LUnl else u ∈ l.*1) →
  (c' = LUnl → t ∈ l'.*1) → c' ≠ LSleep →
  (∀ u, u ≠ t → u ∈ l.*1 ∨ tstate (threads (sw s)) u = Some ABT_THREAD_STATE_READY →
     u ∈ l'.*1 ∨ tstate (wl_heap v') u = Some ABT_THREAD_STATE_READY) →
  (l' ≠ [] → is_Some h) →
  minv p Y a h (Some t) l' (set_waiting (wl_lock v') (wl v') m)
    (Sys (mutex_upd p v' (sw s)) (<[t := c']> (pcs s)) (<[t := depth s t]> (depth s))).
Proof.
  intros Hi Hw Hlk Hd0 Hh Hhw Hpc Henq Hl Hl' Hns Hst Hwk. pose proof (mi_mutex _ _ _ _ _ _ _ _ Hi) as Em.
  destruct (fields_ins h (Some t) l m s t Hi) as [F1 F2].
  assert (∀ u, u ≠ t → holds_waiters (pcs s u) = false) as Hothers.
  { intros u Hu. apply not_true_is_false. intros E. apply (mi_k _ _ _ _ _ _ _ _ Hi) in E. congruence. }
  split; simpl; try done.
  - exact (mutex_upd_lookup p m v' _ Em).
  - apply Hi.
  - apply Hi.
  - by rewrite (mutex_view_upd p m).
  - intros u. destruct (decide (u = t)) as [->|Hne].
    + rewrite !fn_lookup_insert, Hd0, Hh, <- Hd0. apply Hi.
    + rewrite !fn_lookup_insert_ne by done. apply Hi.
  - intros u. destruct (decide (u = t)) as [->|Hne]; [rewrite fn_lookup_insert; done|].
    rewrite fn_lookup_insert_ne by done. apply Hi.
  - intros u Hu. specialize (Hl u Hu). destruct (decide (u = t)) as [->|Hne]; [by rewrite fn_lookup_insert, Hl|].
    rewrite fn_lookup_insert_ne by done. by apply Hi.
  - intros u Hu. destruct (decide (u = t)) as [->|Hne].
    + rewrite fn_lookup_insert in Hu. left. apply Hl'. destruct c'; done.
    + rewrite fn_lookup_insert_ne in * by done.
      destruct (Hst u Hne) as [?|?]; [|by left|].
      * destruct (mi_sleep _ _ _ _ _ _ _ _ Hi u Hu) as [?|[_ ?]]; auto.
      * right. split; [|done]. specialize (Hothers u Hne). destruct (pcs s u); done.
  - intros Hne. left. auto.
  - intros u Hu. destruct (decide (u = t)) as [->|Hne]; [by rewrite fn_lookup_insert in Hu|].
    rewrite fn_lookup_insert_ne in Hu by done. specialize (Hothers u Hne). by rewrite Hu in Hothers.
  - intros u. destruct (decide (u = t)) as [->|Hne]; [by rewrite !fn_lookup_insert, Hd0|].
    rewrite !fn_lookup_insert_ne by done. apply Hi.
Qed.

Lemma enq_step h k l m s t :
  minv p Y a h k l m s → pcs s t = LEnq → step_post k l s t (advance p Y t LEnq (depth s t) (sw s)).
Proof.
  intros Hi Hc. pose proof (mi_mutex _ _ _ _ _ _ _ _ Hi) as Em. pose proof (mi_pc _ _ _ _ _ _ _ _ Hi t) as Hpc.
  pose proof (mi_k _ _ _ _ _ _ _ _ Hi t) as Hk. rewrite Hc in Hpc, Hk. assert (k = Some t) as -> by (by apply Hk).
  assert (depth s t = 0%nat) as Hd0 by apply Hpc. pose proof (mi_wlock _ _ _ _ _ _ _ _ Hi) as Ew. rewrite bool_decide_true in Ew by done.
  assert (t ∉ l.*1) as Hnl by (eapply not_queued_list; [exact Hi|by rewrite Hc]).
  set (v := mutex_view p (sw s)). pose proof (mi_wl _ _ _ _ _ _ _ _ Hi) as Hwl.
  assert (∀ X, t ∉ X → abs_step X Y (enqueue Y t) l = Some ([], l ++ [(t, false)])) as Habs.
  { intros X HX. unfold enqueue. destruct (decide (t ∈ Y)); simpl; by rewrite decide_True. }
  destruct (wop_ok [] Y (enqueue Y t) l [] (l ++ [(t, false)]) v) as (v' & E & Hw' & Hs'); [apply Habs; set_solver|done|].
  assert (v = Wst (waitlist m) true (threads (sw s)) (w_resumed (sw s))) as Ev by (subst v; by rewrite (mutex_view_eq p m), Ew).
  cbn [advance]. rewrite (C_bind_Done _ _ _ true (mutex_upd p v (sw s))) by (apply on_waiters_run; fold v; by rewrite Ev).
  rewrite (C_bind_Done _ _ _ () (mutex_upd p v (sw s))) by done.
  rewrite (C_bind_Done _ _ _ () (mutex_upd p v' (sw s))).
  2:{ rewrite (on_waiters_run p _ _ () v'); [|by rewrite (mutex_view_upd p m)]. do 2 f_equal.
      unfold mutex_upd. simpl. unfold set_threads, set_mutexes. simpl. f_equal.
      apply map_eq. intros q. destruct (decide (p = q)) as [<-|Hne]; [by rewrite !lookup_alter_eq, Em|by rewrite !lookup_alter_ne]. }
  exists h, (Some t), (l ++ [(t, false)]), (set_waiting (wl_lock v') (wl v') m).
  eapply (minv_list h l); [exact Hi|done| |done|by rewrite Hc|done|split; simpl; lia|done| | |done| |].
  - rewrite (ws_lock _ _ _ _ _ Hs'), Ev. done.
  - intros u Hu. rewrite fmap_app in Hu. case_decide; [done|set_solver].
  - intros _. rewrite fmap_app. set_solver.
  - intros u Hne [Hu|Hu]; [left; rewrite fmap_app; set_solver|].
    destruct (decide (u ∈ l.*1)) as [?|Hul]; [left; rewrite fmap_app; set_solver|right].
    destruct (wop_ok [u] Y (enqueue Y t) l [] (l ++ [(t, false)]) v) as (v'' & E' & _ & Hs''); [apply Habs; set_solver|done|].
    rewrite E in E'. simplify_eq. rewrite (ws_state _ _ _ _ _ Hs'') by set_solver. by rewrite Ev.
  - intros _. by apply (mi_enq _ _ _ _ _ _ _ _ Hi t).
Qed.

Lemma bcast_step h k l m s t :
  minv p Y a h k l m s → pcs s t = UBcast → step_post k l s t (advance p Y t UBcast (depth s t) (sw s)).
Proof.
  intros Hi Hc. pose proof (mi_mutex _ _ _ _ _ _ _ _ Hi) as Em. pose proof (mi_pc _ _ _ _ _ _ _ _ Hi t) as Hpc.
  pose proof (mi_k _ _ _ _ _ _ _ _ Hi t) as Hk. rewrite Hc in Hpc, Hk. assert (k = Some t) as -> by (by apply Hk).
  assert (depth s t = 0%nat) as Hd0 by apply Hpc. pose proof (mi_wlock _ _ _ _ _ _ _ _ Hi) as Ew. rewrite bool_decide_true in Ew by done.
  set (v := mutex_view p (sw s)). pose proof (mi_wl _ _ _ _ _ _ _ _ Hi) as Hwl.
  destruct (wop_ok [] Y Broadcast l l.*1 [] v) as (v' & E & Hw' & Hs'); [done|done|].
  assert (v = Wst (waitlist m) true (threads (sw s)) (w_resumed (sw s))) as Ev by (subst v; by rewrite (mutex_view_eq p m), Ew).
  cbn [advance]. rewrite (C_bind_Done _ _ _ () (mutex_upd p v' (sw s))) by (by apply on_waiters_run).
  exists h, (Some t), [], (set_waiting (wl_lock v') (wl v') m).
  eapply (minv_list h l); [exact Hi|done| |done|by rewrite Hc|done|split; simpl; lia|done| |done|done| |done].
  - rewrite (ws_lock _ _ _ _ _ Hs'), Ev. done.
  - intros u Hu. by apply elem_of_nil in Hu.
  - intros u Hne Hu. right.
    destruct (wop_ok [u] Y Broadcast l l.*1 [] v) as (v'' & E' & _ & Hs''); [done|done|].
    rewrite E in E'. simplify_eq. destruct (decide (u ∈ l.*1)) as [Hul|Hul]; [apply (ws_ready _ _ _ _ _ Hs''); [done|set_solver]|].
    destruct Hu as [?|Hu]; [done|]. rewrite (ws_state _ _ _ _ _ Hs'') by set_solver. by rewrite Ev.
Qed.

(** Every step inside an operation keeps the invariant, and none can go wrong:
    a thread waits or makes progress. *)
Lemma advance_ok h k l m s t :
  minv p Y a h k l m s → step_post k l s t (advance p Y t (pcs s t) (depth s t) (sw s)).
Proof.
  intros Hi. destruct (pcs s t) eqn:Hc.
  - split; [done|]. unfold blocked_at. by rewrite Hc.
  - apply (lcheck_step h k l m s t LTry Hi). auto.
  - apply (try_step h k l m s t LWaiter LGot Hi). auto.
  - apply (wacquire_step h k l m s t LRetry Hi). auto.
  - pose proof (try_step h k l m s t LEnq LRelW Hi ltac:(auto)) as Hp. cbn [advance].
    unfold step_post, mbind, C_bind in *. destruct (on_mlock p ABTD_spinlock_try_acquire (sw s)) as [[[] w']|]; exact Hp.
  - apply (wrelease_step h k l m s t LGot Hi). auto.
  - by apply (enq_step h k l m).
  - apply (wrelease_step h k l m s t LSleep Hi). auto.
  - by apply (sleep_step h k l m).
  - by apply (got_step h k l m).
  - apply (lcheck_step h k l m s t TTry Hi). auto.
  - apply (try_step h k l m s t Idle LGot Hi). auto.
  - by apply (ustart_step h k l m).
  - apply (wacquire_step h k l m s t URel Hi). auto.
  - by apply (urel_step h k l m).
  - by apply (bcast_step h k l m).
  - apply (wrelease_step h k l m s t Idle Hi). auto.
Qed.

Lemma call_ok h k l m s t c c' :
  minv p Y a h k l m s → pcs s t = Idle → begin_call (recursive a) c (depth s t) = Some c' →
  minv p Y a h k l m (Sys (sw s) (<[t := c']> (pcs s)) (<[t := depth s t]> (depth s))).
Proof.
  intros Hi Hc Hb. destruct (fields_ins h k l m s t Hi) as [F1 F2]. pose proof (mi_pc _ _ _ _ _ _ _ _ Hi t) as Hpc. rewrite Hc in Hpc.
  assert (queued c' = false ∧ c' ≠ LEnq ∧ holds_waiters c' = false ∧ holds c' (depth s t) = holds Idle (depth s t) ∧
    pc_ok (recursive a) c' (depth s t)) as (A1 & A2 & A3 & A4 & A5).
  { destruct c; simpl in Hb; repeat case_decide; destruct (recursive a) eqn:Hr; simplify_eq; split_and!; try done;
      try (destruct (depth s t); done); destruct Hpc as [Hp1 Hp2]; split; simpl; try done; try lia; simpl in Hp1; split; try done. }
  eapply minv_same; [exact Hi|by rewrite Hc|by rewrite Hc|done|done|by rewrite Hc|by rewrite Hc|apply Hi|apply Hi|done..|exact F1|exact F2|done].
Qed.
End preservation.

(** ** Theorems *)

Section reach.
Context (p : ptr) (Y : list ptr) (a : Z).

Lemma initial_minv s : initial p Y a s → minv p Y a None None [] (fresh_mutex a) s.
Proof.
  intros [Hm Hp Hd Hu].
  split; try done.
  - by destruct (recursive a).
  - rewrite (mutex_view_eq p _ _ Hm). simpl. apply (winv_init Y (Wst no_waitlist false (threads (sw s)) (w_resumed (sw s))) Hu).
  - intros t. by rewrite Hp, Hd.
  - intros t. by rewrite Hp.
  - intros t Ht. by apply elem_of_nil in Ht.
  - intros t. by rewrite Hp.
  - intros t. by rewrite Hp.
  - intros t. rewrite Hp, Hd. split; simpl; lia.
Qed.

Lemma depth_insert_id (f : ptr → nat) (t : ptr) : <[t := f t]> f = f.
Proof.
  extensionality u. destruct (decide (u = t)) as [->|]; [by rewrite fn_lookup_insert|by rewrite fn_lookup_insert_ne].
Qed.

Lemma reachable_minv s0 s :
  initial p Y a s0 → reachable p Y s0 s → ∃ h k l m, minv p Y a h k l m s.
Proof.
  intros H0. induction 1 as [|s s' _ (h & k & l & m & Hi) Hs].
  - exists None, None, [], (fresh_mutex a). by apply initial_minv.
  - destruct Hs as [t c c' m' Hc Hm Hb|t c' d' w' Ha].
    + rewrite (mi_mutex _ _ _ _ _ _ _ _ Hi) in Hm. simplify_eq. rewrite (mi_attrs _ _ _ _ _ _ _ _ Hi) in Hb.
      exists h, k, l, m'. pose proof (call_ok p Y a h k l m' s t c c' Hi Hc Hb) as Hi'. by rewrite depth_insert_id in Hi'.
    + pose proof (advance_ok p Y a h k l m s t Hi) as Hp. unfold step_post in Hp. by rewrite Ha in Hp.
Qed.

Lemma holder_unique h k l m s t u :
  minv p Y a h k l m s → (0 < depth s t)%nat → holds (pcs s u) (depth s u) = true → t = u.
Proof.
  intros Hi Ht Hu. assert (holds (pcs s t) (depth s t) = true) as Ht' by (destruct (depth s t); [lia|done]).
  apply (mi_h _ _ _ _ _ _ _ _ Hi) in Ht', Hu. congruence.
Qed.

Lemma can_step h k l m s t :
  minv p Y a h k l m s → ¬ blocked_at k l s t → ∃ r, advance p Y t (pcs s t) (depth s t) (sw s) = Done r.
Proof.
  intros Hi Hnb. pose proof (advance_ok p Y a h k l m s t Hi) as Hp. unfold step_post in Hp.
  destruct (advance p Y t (pcs s t) (depth s t) (sw s)) as [r|f]; [by exists r|]. by destruct Hp.
Qed.

Global Instance blocked_at_dec k l s t : Decision (blocked_at k l s t).
Proof. unfold blocked_at. destruct (pcs s t); apply _. Defined.

(** C3: At every moment of every interleaving of lock, trylock and unlock calls
    (threads unlock only what they hold, do not lock a plain mutex twice and do
    not nest beyond [INT_MAX]) at most one thread holds the mutex; the lock word
    is then set, and a recursive mutex records that thread and how often it has
    nested although [owner_id] is read without any lock.  In every such state,
    held or not, no step of any thread fails an assertion or is undefined: a
    thread makes progress or waits, and it waits only for the waiter lock or in
    its sleep. *)
Theorem mutex_mutual_exclusion s0 s :
  initial p Y a s0 → reachable p Y s0 s →
  (∀ t, (0 < depth s t)%nat →
     (∀ u, (0 < depth s u)%nat → u = t) ∧
     ∃ m, mutexes (sw s) !! p = Some m ∧ mlock m = true ∧
       (recursive a = true → owner_id m = Zpos t ∧ nesting_cnt m = Z.of_nat (depth s t) - 1) ∧
       (recursive a = false → depth s t = 1%nat)) ∧
  (∀ u f, advance p Y u (pcs s u) (depth s u) (sw s) = Fault f →
     f = Blocked ∧ (pcs s u = Idle ∨ pcs s u = LWaiter ∨ pcs s u = UWaiter ∨ pcs s u = LSleep)).
Proof.
  intros H0 Hr. destruct (reachable_minv s0 s H0 Hr) as (h & k & l & m & Hi). split.
  - intros t Ht.
    assert (h = Some t) as -> by (apply (mi_h _ _ _ _ _ _ _ _ Hi); destruct (depth s t); [lia|done]).
    split; [intros u Hu; symmetry; eapply holder_unique; [done..|]; destruct (depth s u); [lia|done]|].
    exists m. split; [apply Hi|]. split; [rewrite (mi_lock _ _ _ _ _ _ _ _ Hi); by rewrite bool_decide_true|]. split.
    + intros Hrec. rewrite (mi_owner _ _ _ _ _ _ _ _ Hi), (mi_nest _ _ _ _ _ _ _ _ Hi), Hrec.
      destruct (Nat.eqb_spec (depth s t) 0); [lia|]. split; [done|lia].
    + intros Hrec. pose proof (proj2 (mi_pc _ _ _ _ _ _ _ _ Hi t) Hrec). lia.
  - intros u f Hf. pose proof (advance_ok p Y a _ k l m s u Hi) as Hp. unfold step_post in Hp. rewrite Hf in Hp.
    destruct Hp as [-> Hb]. split; [done|]. unfold blocked_at in Hb. destruct (pcs s u); auto; done.
Qed.

(** C9: No wake-up is lost.  Whenever a thread sleeps in the lock function and has not
    been made ready, the lock is taken or its last holder is about to wake
    everybody; and whenever any thread is inside an operation, some thread can
    take a step, or the mutex is held by a thread that is in its critical
    section. *)
Theorem mutex_no_lost_wakeup s0 s t :
  initial p Y a s0 → reachable p Y s0 s → pcs s t ≠ Idle →
  (pcs s t = LSleep → tstate (threads (sw s)) t = Some ABT_THREAD_STATE_BLOCKED →
     (∃ m, mutexes (sw s) !! p = Some m ∧ mlock m = true) ∨ ∃ u, pcs s u = UBcast) ∧
  ((∃ u r, pcs s u ≠ Idle ∧ advance p Y u (pcs s u) (depth s u) (sw s) = Done r) ∨
   ∃ u, pcs s u = Idle ∧ (0 < depth s u)%nat).
Proof.
  intros H0 Hr Hni. destruct (reachable_minv s0 s H0 Hr) as (h & k & l & m & Hi).
  assert (t ∈ l.*1 → is_Some h ∨ ∃ u, pcs s u = UBcast) as Hwake.
  { intros Hin. apply Hi. intros ->. by apply elem_of_nil in Hin. }
  split.
  - intros Hc Hb. destruct (mi_sleep _ _ _ _ _ _ _ _ Hi t) as [Hin|[_ Hrd]]; [by rewrite Hc| |congruence].
    destruct (Hwake Hin) as [Hh|Hu]; [left|by right]. exists m. split; [apply Hi|].
    rewrite (mi_lock _ _ _ _ _ _ _ _ Hi). by rewrite bool_decide_true.
  - destruct k as [u|].
    + left. exists u. assert (holds_waiters (pcs s u) = true) as Hu by (by apply Hi).
      destruct (can_step h (Some u) l m s u Hi) as [r Hr']; [revert Hu; unfold blocked_at; by destruct (pcs s u); intros ? ?|].
      exists r. split; [intros E; by rewrite E in Hu|done].
    + destruct (decide (blocked_at None l s t)) as [Hbl|Hbl].
      * assert (t ∈ l.*1) as Hin by (unfold blocked_at in Hbl; destruct (pcs s t); try done; by destruct Hbl).
        destruct (Hwake Hin) as [[u ->]|[u Hu]].
        2:{ assert (None = Some u) by (apply (mi_k _ _ _ _ _ _ _ _ Hi); by rewrite Hu). done. }
        assert (holds (pcs s u) (depth s u) = true) as Hh by (by apply (mi_h _ _ _ _ _ _ _ _ Hi)).
        destruct (decide (pcs s u = Idle)) as [Eu|Eu].
        -- right. exists u. split; [done|]. rewrite Eu in Hh. destruct (depth s u); [done|lia].
        -- left. exists u. destruct (can_step (Some u) None l m s u Hi) as [r Hr'].
           { unfold blocked_at. pose proof (proj1 (mi_pc _ _ _ _ _ _ _ _ Hi u)) as Hpc.
             destruct (pcs s u) eqn:Ec; intros Hb; try done; try (by destruct Hb); rewrite Hpc in Hh; done. }
           by exists r.
      * left. exists t. destruct (can_step h None l m s t Hi Hbl) as [r Hr']. by exists r.
Qed.
End reach.

(** ** Schedules *)

(** One scheduling decision: a call ([Some]) or a step of a thread; a decision
    that is not possible changes nothing. *)
Definition sched_step (p : ptr) (Y : list ptr) (s : sys) (e : ptr * option call) : sys :=
  match e with
  | (t, Some c) =>
      match decide (pcs s t = Idle), mutexes (sw s) !! p with
      | left _, Some m =>
          match begin_call (recursive (attrs m)) c (depth s t) with
          | Some c' => Sys (sw s) (<[t := c']> (pcs s)) (depth s)
          | None => s
          end
      | _, _ => s
      end
  | (t, None) =>
      match advance p Y t (pcs s t) (depth s t) (sw s) with
      | Done ((c', d'), w') => Sys w' (<[t := c']> (pcs s)) (<[t := d']> (depth s))
      | Fault _ => s
      end
  end.

Definition run_schedule (p : ptr) (Y : list ptr) (es : list (ptr * option call)) (s : sys) : sys :=
  foldl (sched_step p Y) s es.

Lemma schedule_reachable p Y es s0 : reachable p Y s0 (run_schedule p Y es s0).
Proof.
  unfold run_schedule. assert (reachable p Y s0 s0) as Hr by constructor. revert Hr. generalize s0 at 2 4.
  induction es as [|[t [c|]] es IH]; intros s Hr; simpl; [done|apply IH..].
  - destruct (decide (pcs s t = Idle)) as [Hc|]; [|done]. destruct (mutexes (sw s) !! p) as [m|] eqn:Em; [|done].
    destruct (begin_call _ c _) as [c'|] eqn:Eb; [|done]. eapply reach_step; [exact Hr|]. by eapply mstep_call.
  - destruct (advance _ _ _ _ _ _) as [[[c' d'] w']|] eqn:Ea; [|done]. eapply reach_step; [exact Hr|]. by eapply mstep_run.
Qed.

(** A recursive mutex at 50, user-level threads 1 and 2, and an external thread
    whose stack slot is 9. *)
Definition conc_start : sys :=
  Sys (World {[ 50%positive := fresh_mutex 1 ]} ∅ ∅ ∅ {[ 1%positive := ult; 2%positive := ult ]} []) (λ _, Idle) (λ _, 0%nat).

Lemma conc_start_initial : initial 50 [1; 2]%positive 1 conc_start.
Proof. split; try done. apply wl_start_ult. Qed.

Definition steps (t : ptr) (n : nat) : list (ptr * option call) := repeat (t, None) n.

(** Thread 1 locks twice; thread 2 and the external thread queue up behind it. *)
Definition conc_schedule : list (ptr * option call) :=
  [(1%positive, Some CallLock)] ++ steps 1 3 ++ [(1%positive, Some CallLock)] ++ steps 1 1 ++
  [(2%positive, Some CallLock)] ++ steps 2 6 ++ [(9%positive, Some CallLock)] ++ steps 9 6.

Definition conc_state : sys := run_schedule 50 [1; 2]%positive conc_schedule conc_start.

Lemma mutex_mutual_exclusion_witness :
  depth conc_state 1 = 2%nat ∧
  (∀ u, (0 < depth conc_state u)%nat → u = 1%positive) ∧
  (∃ m, mutexes (sw conc_state) !! 50%positive = Some m ∧ mlock m = true ∧ owner_id m = 1 ∧ nesting_cnt m = 1) ∧
  (∀ f, advance 50 [1; 2]%positive 1 (pcs conc_state 1) (depth conc_state 1) (sw conc_state) = Fault f → f = Blocked).
Proof.
  assert (depth conc_state 1 = 2%nat) as Hd by (vm_compute; reflexivity).
  destruct (mutex_mutual_exclusion 50 [1; 2]%positive 1 conc_start conc_state conc_start_initial (schedule_reachable _ _ _ _))
    as [Hx Hf].
  split; [exact Hd|]. destruct (Hx 1%positive) as (Hu & m & Em & El & Hrec & _); [rewrite Hd; lia|].
  destruct (Hrec eq_refl) as [Ho Hn]. rewrite Hd in Hn.
  split; [exact Hu|]. split; [exact (ex_intro _ m (conj Em (conj El (conj Ho Hn))))|]. intros f E. apply (Hf _ _ E).
Defined.

Lemma mutex_no_lost_wakeup_witness :
  pcs conc_state 9 = LSleep ∧ pcs conc_state 2 = LSleep ∧
  (pcs conc_state 9 = LSleep → tstate (threads (sw conc_state)) 9 = Some ABT_THREAD_STATE_BLOCKED →
     (∃ m, mutexes (sw conc_state) !! 50%positive = Some m ∧ mlock m = true) ∨ ∃ u, pcs conc_state u = UBcast) ∧
  ((∃ u r, pcs conc_state u ≠ Idle ∧ advance 50 [1; 2]%positive u (pcs conc_state u) (depth conc_state u) (sw conc_state) = Done r) ∨
   ∃ u, pcs conc_state u = Idle ∧ (0 < depth conc_state u)%nat).
Proof.
  split; [vm_compute; reflexivity|]. split; [vm_compute; reflexivity|].
  apply (mutex_no_lost_wakeup 50 [1; 2]%positive 1 conc_start conc_state 9 conc_start_initial (schedule_reachable _ _ _ _)).
  replace (pcs conc_state 9) with LSleep by (vm_compute; reflexivity). discriminate.
Defined.
