(* ===== verification/CondVar.v ===== *)
(** * Condition variables

    argobots/src/include/abti_cond.h and argobots/src/cond.c, with the two
    functions this repository adds ([ABT_cond_create2], [ABT_cond_clockwait]).
    [env k i] is what other threads do during the [i]-th sleep of the [k]-th
    blocking call of the operation; [clock id i] is the [i]-th reading of the
    clock [id], in nanoseconds. *)

From stdpp Require Import base tactics option list numbers gmap fin_maps.
From S2P Require Import Prelude.
From S2P Require Import Abt.
From S2P Require Import Thread.
From S2P Require Import Waitlist.
From S2P Require Import Mutex.

Definition CLOCK_REALTIME : Z := 0.

Definition set_p_waiter_mutex (v : option ptr) (c : ABTI_cond) : ABTI_cond := Cond (cond_lock c) v (cwaitlist c) (clkid c).
Definition set_clkid (v : Z) (c : ABTI_cond) : ABTI_cond := Cond (cond_lock c) (p_waiter_mutex c) (cwaitlist c) v.
Definition set_cwaiting (l : bool) (v : ABTI_waitlist) (c : ABTI_cond) : ABTI_cond := Cond l (p_waiter_mutex c) v (clkid c).

Definition cload {A} (f : ABTI_cond → A) (c : ptr) : C world A := λ w,
  match conds w !! c with
  | Some x => Done (f x, w)
  | None => Fault UB
  end.

Definition setc (c : ptr) (x : ABTI_cond) (w : world) : world := set_conds (<[c := x]> (conds w)) w.

Definition cstore (f : ABTI_cond → ABTI_cond) (c : ptr) : C world unit := λ w,
  match conds w !! c with
  | Some x => Done ((), setc c (f x) w)
  | None => Fault UB
  end.

Definition cond_view (c : ptr) (w : world) : wst :=
  match conds w !! c with
  | Some x => Wst (cwaitlist x) (cond_lock x) (threads w) (w_resumed w)
  | None => Wst no_waitlist false (threads w) (w_resumed w)
  end.
Definition cond_upd (c : ptr) (v : wst) (w : world) : world :=
  set_threads (wl_heap v) (resumed v) (set_conds (alter (set_cwaiting (wl_lock v) (wl v)) c (conds w)) w).

Definition on_cwaiters {A} (c : ptr) (m : C wst A) : C world A :=
  cload cond_lock c;; on_wst (cond_view c) (cond_upd c) m.

(** ** Internal operations *)

Definition ABTI_cond_init (c : ptr) : C world unit :=
  on_cwaiters c (on_lock ABTD_spinlock_clear);;
  cstore (set_p_waiter_mutex None) c;;
  on_cwaiters c ABTI_waitlist_init.

Definition ABTI_cond_fini (c : ptr) : C world unit :=
  on_cwaiters c (on_lock ABTD_spinlock_acquire);;
  empty ← on_cwaiters c (gets ABTI_waitlist_is_empty);
  ub_assert empty.

Definition ABTI_cond_broadcast (c : ptr) : C world unit :=
  on_cwaiters c (on_lock ABTD_spinlock_acquire);;
  on_cwaiters c ABTI_waitlist_broadcast;;
  on_cwaiters c (on_lock ABTD_spinlock_release).

(** The first waiter's mutex becomes the mutex of the condition variable. *)
Definition check_waiter_mutex (c p : ptr) : C world bool :=
  q ← cload p_waiter_mutex c;
  match q with
  | None => cstore (set_p_waiter_mutex (Some p)) c;; mret true
  | Some q => mret (bool_decide (q = p))
  end.

Section cond.
Context (env : nat → nat → C world unit) (clock : Z → nat → Z) (me : self) (fuel : nat).

Definition ABTI_cond_wait (c p : ptr) : C world Z :=
  on_cwaiters c (on_lock ABTD_spinlock_acquire);;
  ok ← check_waiter_mutex c p;
  if (ok : bool) then
    ABTI_mutex_unlock p;;
    ABTI_waitlist_wait_and_unlock (cond_view c) (cond_upd c) (env 0) fuel (self_ythread me) (slot me);;
    ABTI_mutex_lock (env 1) me fuel p;;
    mret ABT_SUCCESS
  else
    on_cwaiters c (on_lock ABTD_spinlock_release);;
    mret ABT_ERR_INV_MUTEX.

(** ** API *)

Definition create_cond (malloc : option (ptr * ABTI_cond)) (id : Z) : C world (Z * option ptr) :=
  match malloc with
  | None => mret (ABT_ERR_MEM, None)
  | Some (c, junk) =>
      modify (setc c junk);;
      ABTI_cond_init c;;
      cstore (set_clkid id) c;;
      mret (ABT_SUCCESS, Some c)
  end.

Definition ABT_cond_create (malloc : option (ptr * ABTI_cond)) : C world (Z * option ptr) :=
  create_cond malloc CLOCK_REALTIME.

Definition ABT_cond_create2 (malloc : option (ptr * ABTI_cond)) (clkid : Z) : C world (Z * option ptr) :=
  create_cond malloc clkid.

(** The handle is set to NULL unless an error is returned. *)
Definition ABT_cond_free (h : option ptr) : C world (Z * option ptr) :=
  match h with
  | None => mret (ABT_ERR_INV_COND, None)
  | Some c =>
      empty ← on_cwaiters c (gets ABTI_waitlist_is_empty);
      if (empty : bool) then
        ABTI_cond_fini c;;
        modify (λ w, set_conds (delete c (conds w)) w);;
        mret (ABT_SUCCESS, None)
      else mret (ABT_ERR_COND, Some c)
  end.

(** The caller holds the mutex, and not too often. *)
Definition assert_cond_mutex (p : ptr) : C world unit :=
  assert_owned me p;;
  a ← mload attrs p;
  n ← mload nesting_cnt p;
  ub_assert (negb (recursive a && Z.ltb 1 n)).

Definition ABT_cond_wait (hc hm : option ptr) : C world Z :=
  match kind me with
  | Tasklet => mret ABT_ERR_COND
  | _ =>
      check_null ABT_ERR_INV_COND hc (λ c,
      check_null ABT_ERR_INV_MUTEX hm (λ p,
        assert_cond_mutex p;;
        abt_errno ← ABTI_cond_wait c p;
        mret abt_errno))
  end.

(** Seconds and nanoseconds. *)
Record timespec := Timespec { tv_sec : Z; tv_nsec : Z }.

(** The time as one number, in nanoseconds. *)
Definition convert_timespec_to_sec (t : timespec) : Z := tv_sec t * 1000000000 + tv_nsec t.

Definition timedwait_on (c p : ptr) (wtime : nat → Z) (abstime : timespec) : C world Z :=
  assert_cond_mutex p;;
  let tar_time := convert_timespec_to_sec abstime in
  on_cwaiters c (on_lock ABTD_spinlock_acquire);;
  ok ← check_waiter_mutex c p;
  if (ok : bool) then
    ABTI_mutex_unlock p;;
    is_timedout ← ABTI_waitlist_wait_timedout_and_unlock (cond_view c) (cond_upd c) (env 0) wtime fuel
      (bool_decide (is_Some (self_ythread me))) (slot me) tar_time;
    ABTI_mutex_lock (env 1) me fuel p;;
    mret (if (is_timedout : bool) then ABT_ERR_COND_TIMEDOUT else ABT_SUCCESS)
  else
    on_cwaiters c (on_lock ABTD_spinlock_release);;
    mret ABT_ERR_INV_MUTEX.

Definition ABT_cond_timedwait (hc hm : option ptr) (abstime : timespec) : C world Z :=
  check_null ABT_ERR_INV_COND hc (λ c,
  check_null ABT_ERR_INV_MUTEX hm (λ p,
    timedwait_on c p (clock CLOCK_REALTIME) abstime)).

(** The clock is that of the condition variable; the argument is not used. *)
Definition ABT_cond_clockwait (hc hm : option ptr) (id : Z) (abstime : timespec) : C world Z :=
  check_null ABT_ERR_INV_COND hc (λ c,
  check_null ABT_ERR_INV_MUTEX hm (λ p,
    k ← cload clkid c;
    timedwait_on c p (clock k) abstime)).

Definition ABT_cond_signal (hc : option ptr) : C world Z :=
  check_null ABT_ERR_INV_COND hc (λ c,
    on_cwaiters c (on_lock ABTD_spinlock_acquire);;
    on_cwaiters c ABTI_waitlist_signal;;
    on_cwaiters c (on_lock ABTD_spinlock_release);;
    mret ABT_SUCCESS).

Definition ABT_cond_broadcast (hc : option ptr) : C world Z :=
  check_null ABT_ERR_INV_COND hc (λ c, ABTI_cond_broadcast c;; mret ABT_SUCCESS).
End cond.

(** ** Running the statements on a condition variable *)

Section cond_runs.
Context (c : ptr).
Implicit Types (w : world) (x : ABTI_cond) (v : wst).

Lemma cload_run {A} (f : ABTI_cond → A) x w : conds w !! c = Some x → cload f c w = Done (f x, w).
Proof. intros E. unfold cload. by rewrite E. Qed.

Lemma cstore_run f x w : conds w !! c = Some x → cstore f c w = Done ((), setc c (f x) w).
Proof. intros E. unfold cstore. by rewrite E. Qed.

Lemma on_cwaiters_run {A} (m : C wst A) x w b v :
  conds w !! c = Some x → m (cond_view c w) = Done (b, v) → on_cwaiters c m w = Done (b, cond_upd c v w).
Proof.
  intros E Em. unfold on_cwaiters. rewrite (C_bind_Done _ _ _ _ _ (cload_run _ _ _ E)). unfold on_wst, zoom. by rewrite Em.
Qed.

Lemma cond_view_eq x w : conds w !! c = Some x → cond_view c w = Wst (cwaitlist x) (cond_lock x) (threads w) (w_resumed w).
Proof. intros E. unfold cond_view. by rewrite E. Qed.

Lemma cond_upd_lookup x v w : conds w !! c = Some x →
  conds (cond_upd c v w) !! c = Some (set_cwaiting (wl_lock v) (wl v) x).
Proof. intros E. unfold cond_upd. simpl. by rewrite lookup_alter_eq, E. Qed.

Lemma cond_view_upd x v w : conds w !! c = Some x → cond_view c (cond_upd c v w) = v.
Proof. intros E. rewrite (cond_view_eq _ _ (cond_upd_lookup x v w E)). by destruct v. Qed.

Lemma cond_upd_upd v v' w : cond_upd c v (cond_upd c v' w) = cond_upd c v w.
Proof.
  unfold cond_upd, set_threads, set_conds. simpl. f_equal. apply map_eq. intros q.
  destruct (decide (c = q)) as [<-|Hne]; [|by rewrite !lookup_alter_ne].
  rewrite !lookup_alter_eq. by destruct (conds w !! c).
Qed.

Lemma setc_lookup x w : conds (setc c x w) !! c = Some x.
Proof. unfold setc. simpl. by rewrite lookup_insert_eq. Qed.

Lemma cond_upd_setc x v w :
  conds w !! c = Some x → wl_heap v = threads w → resumed v = w_resumed w →
  cond_upd c v w = setc c (set_cwaiting (wl_lock v) (wl v) x) w.
Proof.
  intros E Eh Er. unfold cond_upd, setc, set_threads, set_conds. simpl. rewrite Eh, Er. f_equal.
  apply map_eq. intros q. destruct (decide (c = q)) as [<-|Hne].
  - by rewrite lookup_alter_eq, lookup_insert_eq, E.
  - by rewrite lookup_alter_ne, lookup_insert_ne.
Qed.

Lemma acquire_cond_run x w :
  conds w !! c = Some x → cond_lock x = false →
  on_cwaiters c (on_lock ABTD_spinlock_acquire) w = Done ((), setc c (set_cwaiting true (cwaitlist x) x) w).
Proof.
  intros E El. rewrite (on_cwaiters_run _ x _ () (set_wl_lock true (cond_view c w))); [|done|].
  - rewrite (cond_upd_setc x); [|done|by rewrite (cond_view_eq x)..]. by rewrite (cond_view_eq x).
  - rewrite (cond_view_eq x), El by done. done.
Qed.
Lemma cond_upd_id x w : conds w !! c = Some x → cond_upd c (cond_view c w) w = w.
Proof.
  intros E. rewrite (cond_upd_setc x); [|done|by rewrite (cond_view_eq x)..]. rewrite (cond_view_eq x) by done. simpl.
  unfold setc, set_conds. rewrite insert_id; [by destruct w|]. rewrite E. f_equal. by destruct x.
Qed.

Lemma on_cond_run {A} (m : C wst A) w b v :
  m (cond_view c w) = Done (b, v) → on_wst (cond_view c) (cond_upd c) m w = Done (b, cond_upd c v w).
Proof. intros E. unfold on_wst, zoom. by rewrite E. Qed.

(** Reading leaves the world alone. *)
Lemma on_cond_pure {A} (m : C wst A) x w b :
  conds w !! c = Some x → m (cond_view c w) = Done (b, cond_view c w) → on_wst (cond_view c) (cond_upd c) m w = Done (b, w).
Proof. intros E Em. rewrite (on_cond_run _ _ _ _ Em). by rewrite (cond_upd_id x). Qed.

Lemma on_cond_seq {A} (m : C wst A) x w b v v' :
  conds w !! c = Some x → m v = Done (b, v') → on_wst (cond_view c) (cond_upd c) m (cond_upd c v w) = Done (b, cond_upd c v' w).
Proof. intros E Em. rewrite (on_cond_run _ _ b v') by (by rewrite (cond_view_upd x)). by rewrite cond_upd_upd. Qed.
End cond_runs.

Section cond_ok.
Context (p c t : ptr) (me : self) (Y : list ptr).

(** The caller is a user-level thread with descriptor [t], or an external
    thread whose stack slot is [t]. *)
Definition caller_ok : Prop :=
  (kind me = Ult t ∧ t ∈ Y) ∨ (kind me = ExtThread ∧ slot me = t ∧ t ∉ Y).

Lemma assert_cond_mutex_run m w :
  free_mutex m → mutexes w !! p = Some (held me m 1) → assert_cond_mutex me p w = Done ((), w).
Proof.
  intros _ Em. unfold assert_cond_mutex.
  assert (mlock (held me m 1) = true ∧ attrs (held me m 1) = attrs m) as [El Ea] by (simpl; by destruct (recursive (attrs m))).
  rewrite (C_bind_Done _ _ _ () w).
  2:{ unfold assert_owned, ABTI_mutex_is_locked.
      rewrite (C_bind_Done _ _ _ (mlock (held me m 1)) w).
      2:{ rewrite (on_mlock_run p _ _ _ (mlock (held me m 1)) (mlock (held me m 1)) Em eq_refl).
          rewrite (setm_id p); [done|]. rewrite Em. f_equal. by destruct (held me m 1). }
      rewrite El. rewrite (C_bind_Done _ _ _ () w) by done. rewrite !(C_bind_Done _ _ _ _ _ (mload_run p _ _ _ Em)), Ea.
      simpl. destruct (recursive (attrs m)); [|done]. simpl. by rewrite Z.eqb_refl. }
  rewrite !(C_bind_Done _ _ _ _ _ (mload_run p _ _ _ Em)), Ea. simpl. by destruct (recursive (attrs m)).
Qed.

Definition enqueue_me : wop := if decide (t ∈ Y) then Suspend t else Sleep t.

(** The waiting part: [v'] is the list with the caller, under the lock. *)
Lemma cond_sleep_run x w v v' fuel env w2 :
  conds w !! c = Some x → cond_view c w = v → wl_lock v = true → wop_body enqueue_me v = Done ((), v') →
  tstate (wl_heap v') t = Some ABT_THREAD_STATE_BLOCKED → caller_ok → (0 < fuel)%nat →
  env 0%nat (cond_upd c (set_wl_lock false v') w) = Done ((), w2) → tstate (threads w2) t = Some ABT_THREAD_STATE_READY →
  is_Some (conds w2 !! c) →
  ABTI_waitlist_wait_and_unlock (cond_view c) (cond_upd c) env fuel (self_ythread me) (slot me) w = Done ((), w2).
Proof.
  intros Ex Ev Hlk E Hbl Hc Hf Henv Hrd [x2 Hx2]. unfold ABTI_waitlist_wait_and_unlock, self_ythread, enqueue_me in *.
  rewrite (C_bind_Done _ _ w true w).
  2:{ apply (on_cond_pure c _ x); [done|]. rewrite Ev. unfold on_lock, zoom, ABTD_spinlock_is_locked, get. rewrite Hlk. by destruct v; simpl in *; subst. }
  rewrite (C_bind_Done _ _ w () w) by done.
  assert (on_wst (cond_view c) (cond_upd c) (ready t) w2 = Done (true, w2)) as Hready.
  { apply (on_cond_pure c _ x2); [done|]. rewrite (ready_run t ABT_THREAD_STATE_READY); [done|]. by rewrite (cond_view_eq c x2). }
  assert (on_wst (cond_view c) (cond_upd c) (on_lock ABTD_spinlock_release) (cond_upd c v' w) =
    Done ((), cond_upd c (set_wl_lock false v') w)) as Hrel by (by apply (on_cond_seq c _ x)).
  destruct Hc as [[-> HtY]|(-> & -> & HtY)].
  - rewrite decide_True in E by done. apply C_bind_Done_inv in E as (u & va & E1 & E2).
    rewrite (C_bind_Done _ _ w u (cond_upd c va w)) by (apply on_cond_run; by rewrite Ev).
    unfold ythread_suspend_unlock.
    rewrite (C_bind_Done _ _ _ () (cond_upd c v' w)) by (by apply (on_cond_seq c _ x)).
    rewrite (C_bind_Done _ _ _ _ _ Hrel), (C_bind_Done _ _ _ _ _ Henv), (C_bind_Done _ _ _ _ _ Hready). done.
  - rewrite decide_False in E by done. apply C_bind_Done_inv in E as (u & va & E1 & E2).
    rewrite (C_bind_Done _ _ w u (cond_upd c va w)) by (apply on_cond_run; by rewrite Ev).
    rewrite (C_bind_Done _ _ _ () (cond_upd c v' w)) by (by apply (on_cond_seq c _ x)).
    destruct fuel as [|fuel]; [lia|]. cbn [ext_wait].
    rewrite (C_bind_Done _ _ _ false (cond_upd c v' w)) by (apply (on_cond_seq c _ x); [done|]; by rewrite (ready_run t _ _ Hbl)).
    rewrite (C_bind_Done _ _ _ _ _ Hrel), (C_bind_Done _ _ _ _ _ Henv), (C_bind_Done _ _ _ _ _ Hready). done.
Qed.

Lemma check_waiter_run x w :
  conds w !! c = Some x → (p_waiter_mutex x = None ∨ p_waiter_mutex x = Some p) →
  check_waiter_mutex c p w = Done (true, setc c (set_p_waiter_mutex (Some p) x) w).
Proof.
  intros E Hp. unfold check_waiter_mutex. rewrite (C_bind_Done _ _ _ _ _ (cload_run c _ _ _ E)).
  destruct Hp as [-> | Hp].
  - by rewrite (C_bind_Done _ _ _ _ _ (cstore_run c _ _ _ E)).
  - rewrite Hp, bool_decide_true by done. do 2 f_equal. unfold setc, set_conds. rewrite insert_id; [by destruct w|].
    rewrite E. f_equal. destruct x; simpl in *; by subst.
Qed.

(** Up to the moment at which the caller sleeps. *)
Lemma wait_prefix m x l w :
  free_mutex m → mutexes w !! p = Some (held me m 1) →
  conds w !! c = Some x → cond_lock x = false → (p_waiter_mutex x = None ∨ p_waiter_mutex x = Some p) →
  winv Y l (cond_view c w) → t ∉ l.*1 → caller_ok →
  ∃ w1, winv Y (l ++ [(t, false)]) (cond_view c w1) ∧ wl_lock (cond_view c w1) = false ∧ mutexes w1 !! p = Some m ∧
    ∀ env fuel w2 m2, env 0%nat 0%nat w1 = Done ((), w2) → tstate (threads w2) t = Some ABT_THREAD_STATE_READY →
      free_mutex m2 → mutexes w2 !! p = Some m2 → is_Some (conds w2 !! c) → self_id me ≠ 0 → (0 < fuel)%nat →
      ABTI_cond_wait env me fuel c p w = Done (ABT_SUCCESS, setm p (held me m2 1) w2).
Proof.
  intros Hm Em Ex Elk Hpw Hw Hnt Hc.
  set (xb := set_p_waiter_mutex (Some p) (set_cwaiting true (cwaitlist x) x)).
  set (wb := setc c xb w). set (wc := setm p m wb).
  assert (conds wc !! c = Some xb) as Ec by apply setc_lookup.
  assert (cond_view c wc = set_wl_lock true (cond_view c w)) as Ev
    by (rewrite (cond_view_eq c xb), (cond_view_eq c x) by done; done).
  assert (winv Y l (cond_view c wc)) as Hwc by (rewrite Ev; by apply winv_lock).
  assert (abs_step [] Y enqueue_me l = Some ([], l ++ [(t, false)])) as Habs.
  { unfold enqueue_me. destruct (decide (t ∈ Y)); simpl; rewrite decide_True; set_solver. }
  destruct (wop_ok [] Y _ l _ _ _ Habs Hwc) as (v' & E & Hw' & Hs').
  exists (cond_upd c (set_wl_lock false v') wc). split; [|split; [|split]].
  - rewrite (cond_view_upd c xb) by done. by apply winv_lock.
  - by rewrite (cond_view_upd c xb).
  - apply setm_lookup.
  - intros env fuel w2 m2 Henv Hrd Hm2 Em2 Hx2 Hid Hf. unfold ABTI_cond_wait.
    rewrite (C_bind_Done _ _ _ _ _ (acquire_cond_run c x w Ex Elk)).
    rewrite (C_bind_Done _ _ _ true wb).
    2:{ rewrite (check_waiter_run (set_cwaiting true (cwaitlist x) x)); [|apply setc_lookup|done]. do 2 f_equal.
        unfold wb, setc, set_conds. simpl. by rewrite insert_insert_eq. }
    rewrite (C_bind_Done _ _ wb () wc).
    2:{ rewrite (unlock_held p me m wb 0 Hm); [done|done|]. destruct (recursive (attrs m)); [lia|done]. }
    rewrite (C_bind_Done _ _ wc () w2).
    2:{ eapply (cond_sleep_run xb wc); [done|reflexivity|by rewrite Ev|exact E| |done|done|exact Henv|done|done].
        apply (wi_blocked _ _ _ Hw'). rewrite fmap_app. set_solver. }
    rewrite (C_bind_Done _ _ _ _ _ (lock_held p (env 1%nat) me fuel m2 w2 0 Hm2 Hid Hf Em2 ltac:(destruct (recursive (attrs m2)); [lia|done]))).
    done.
Qed.
End cond_ok.

(** ** Theorems *)

(** What a wait does when nobody contends for the locks: it gives up the mutex
    and enlists the caller as the youngest waiter before it sleeps in [w1]; when
    it wakes up in [w2] and the mutex is free it returns [ABT_SUCCESS] holding
    the mutex again, once, with nothing else changed.  The interleaving with
    signals and with other users of the mutex is in [CondConc]. *)
Theorem cond_wait_runs p c t me Y m x l w :
  free_mutex m → mutexes w !! p = Some (held me m 1) →
  conds w !! c = Some x → cond_lock x = false → (p_waiter_mutex x = None ∨ p_waiter_mutex x = Some p) →
  winv Y l (cond_view c w) → t ∉ l.*1 → caller_ok t me Y → self_id me ≠ 0 →
  ∃ w1, winv Y (l ++ [(t, false)]) (cond_view c w1) ∧ wl_lock (cond_view c w1) = false ∧ mutexes w1 !! p = Some m ∧
    ∀ env fuel w2 m2, env 0%nat 0%nat w1 = Done ((), w2) → tstate (threads w2) t = Some ABT_THREAD_STATE_READY →
      free_mutex m2 → mutexes w2 !! p = Some m2 → is_Some (conds w2 !! c) → (0 < fuel)%nat →
      ABT_cond_wait env me fuel (Some c) (Some p) w = Done (ABT_SUCCESS, setm p (held me m2 1) w2).
Proof.
  intros Hm Em Ex Elk Hpw Hw Hnt Hc Hid.
  destruct (wait_prefix p c t me Y m x l w Hm Em Ex Elk Hpw Hw Hnt Hc) as (w1 & H1 & H2 & H3 & Hrun).
  exists w1. split_and!; [done..|]. intros env fuel w2 m2 Henv Hrd Hm2 Em2 Hx2 Hf.
  pose proof (Hrun env fuel w2 m2 Henv Hrd Hm2 Em2 Hx2 Hid Hf) as E.
  assert (kind me ≠ Tasklet) as Hk by (destruct Hc as [[-> _]|[-> _]]; done).
  unfold ABT_cond_wait, check_null. destruct (kind me); [|done|];
    rewrite (C_bind_Done _ _ _ _ _ (assert_cond_mutex_run p me m w Hm Em)), (C_bind_Done _ _ _ _ _ E); done.
Qed.

(** A condition variable at 60 that nobody waits for, a mutex at 50 held by the
    user-level thread 1. *)
Definition cond_start : world :=
  World {[ 50%positive := held (Self 1 (Ult 1) 9) (Mutex 0 false 0 0 false no_waitlist) 1 ]} ∅
    {[ 60%positive := Cond false None no_waitlist 0 ]} ∅ {[ 1%positive := ult; 2%positive := ult ]} [].

Lemma cond_start_winv : winv [1; 2]%positive [] (cond_view 60 cond_start).
Proof. apply (winv_init _ wl_start wl_start_ult). Qed.

Lemma cond_wait_runs_witness :
  let me := Self 1 (Ult 1) 9 in let m := Mutex 0 false 0 0 false no_waitlist in
  ∃ w1, winv [1; 2]%positive [(1%positive, false)] (cond_view 60 w1) ∧ wl_lock (cond_view 60 w1) = false ∧ mutexes w1 !! 50%positive = Some m ∧
    ∀ env fuel w2 m2, env 0%nat 0%nat w1 = Done ((), w2) → tstate (threads w2) 1 = Some ABT_THREAD_STATE_READY →
      free_mutex m2 → mutexes w2 !! 50%positive = Some m2 → is_Some (conds w2 !! 60%positive) → (0 < fuel)%nat →
      ABT_cond_wait env me fuel (Some 60%positive) (Some 50%positive) cond_start = Done (ABT_SUCCESS, setm 50 (held me m2 1) w2).
Proof.
  intros me m. apply (cond_wait_runs 50 60 1 me [1; 2]%positive m (Cond false None no_waitlist 0) [] cond_start).
  - repeat split.
  - reflexivity.
  - reflexivity.
  - reflexivity.
  - left. reflexivity.
  - apply cond_start_winv.
  - apply not_elem_of_nil.
  - left. split; [reflexivity|]. left.
  - discriminate.
Defined.

(** A condition variable stays tied to the mutex of its first waiter, also
    after everybody has left: a wait with another mutex is refused with
    [ABT_ERR_INV_MUTEX], timed or not, without releasing that mutex or changing
    anything. *)
Theorem cond_tied_to_first_mutex p q c me m x w env clock fuel abstime :
  free_mutex m → mutexes w !! p = Some (held me m 1) → kind me ≠ Tasklet →
  conds w !! c = Some x → cond_lock x = false → p_waiter_mutex x = Some q → q ≠ p →
  ABT_cond_wait env me fuel (Some c) (Some p) w = Done (ABT_ERR_INV_MUTEX, w) ∧
  ABT_cond_timedwait env clock me fuel (Some c) (Some p) abstime w = Done (ABT_ERR_INV_MUTEX, w).
Proof.
  intros Hm Em Hk Ex Elk Hq Hne. set (xa := set_cwaiting true (cwaitlist x) x).
  assert (check_waiter_mutex c p (setc c xa w) = Done (false, setc c xa w)) as Echk.
  { unfold check_waiter_mutex. rewrite (C_bind_Done _ _ _ _ _ (cload_run c _ _ _ (setc_lookup c xa w))). simpl.
    rewrite Hq, bool_decide_false by done. done. }
  assert (on_cwaiters c (on_lock ABTD_spinlock_release) (setc c xa w) = Done ((), w)) as Erel.
  { rewrite (on_cwaiters_run c _ xa _ () (set_wl_lock false (cond_view c (setc c xa w)))); [|apply setc_lookup|done].
    rewrite (cond_upd_setc c xa); [|apply setc_lookup|by rewrite (cond_view_eq c xa) by apply setc_lookup..].
    rewrite (cond_view_eq c xa) by apply setc_lookup. do 2 f_equal. unfold setc, set_conds. simpl. rewrite insert_insert_eq.
    rewrite insert_id; [by destruct w|]. rewrite Ex. f_equal. destruct x; simpl in *; by subst. }
  pose proof (acquire_cond_run c x w Ex Elk) as Eacq. pose proof (assert_cond_mutex_run p me m w Hm Em) as Eas.
  split.
  - unfold ABT_cond_wait, check_null, ABTI_cond_wait.
    destruct (kind me); [|done|]; rewrite (C_bind_Done _ _ _ _ _ Eas), C_bind_assoc, (C_bind_Done _ _ _ _ _ Eacq), C_bind_assoc,
      (C_bind_Done _ _ _ _ _ Echk), C_bind_assoc, (C_bind_Done _ _ _ _ _ Erel); done.
  - unfold ABT_cond_timedwait, check_null, timedwait_on.
    rewrite (C_bind_Done _ _ _ _ _ Eas), (C_bind_Done _ _ _ _ _ Eacq), (C_bind_Done _ _ _ _ _ Echk), (C_bind_Done _ _ _ _ _ Erel). done.
Qed.

(** A second mutex at 51 after the first waiter came with the mutex 50. *)
Lemma cond_tied_to_first_mutex_witness :
  let me := Self 1 (Ult 1) 9 in
  let w := World {[ 51%positive := held me (Mutex 0 false 0 0 false no_waitlist) 1 ]} ∅
    {[ 60%positive := Cond false (Some 50%positive) no_waitlist 0 ]} ∅ {[ 1%positive := ult ]} [] in
  ABT_cond_wait (λ _ _, mret ()) me 1 (Some 60%positive) (Some 51%positive) w = Done (ABT_ERR_INV_MUTEX, w) ∧
  ABT_cond_timedwait (λ _ _, mret ()) (λ _ _, 0) me 1 (Some 60%positive) (Some 51%positive) (Timespec 1 0) w = Done (ABT_ERR_INV_MUTEX, w).
Proof.
  intros me w. apply (cond_tied_to_first_mutex 51 50 60 me (Mutex 0 false 0 0 false no_waitlist) (Cond false (Some 50%positive) no_waitlist 0) w);
    [repeat split|reflexivity|discriminate|reflexivity|reflexivity|reflexivity|discriminate].
Defined.
