(* ===== verification/CondConc.v ===== *)
(** * Waiting on a condition variable, interleaved

    Any number of user-level and external threads lock and unlock mutexes, wait
    on one condition variable, signal it and broadcast it (abti_cond.h,
    cond.c); their steps interleave in any order.  Every step is a statement of
    [CondVar]: taking and releasing the internal lock, comparing the mutex,
    giving up the mutex, enlisting, the test of a sleeper.  The mutexes are those
    of [Mutex]; locking one waits while it is taken and unlocking it is one
    step, which is what the theorems on [MutexConc] say of them.  Timed waits
    are not part of this machine (their list operations are in [Waitlist]). *)

From stdpp Require Import base tactics option list numbers gmap fin_maps functions.
From S2P Require Import Prelude.
From S2P Require Import Abt.
From S2P Require Import Thread.
From S2P Require Import Waitlist.
From S2P Require Import Mutex.
From S2P Require Import MutexConc.
From S2P Require Import CondVar.

(** ** The machine *)

(** Where a thread is: outside with the code its last call returned, or inside
    [ABTI_cond_wait] with a mutex, [ABT_cond_signal], [ABTI_cond_broadcast],
    [ABTI_mutex_lock] or [ABTI_mutex_unlock]. *)
Inductive cpc :=
  | Outside (r : Z)
  | WAcq (p : ptr) | WCheck (p : ptr) | WBad (p : ptr) | WUnlock (p : ptr)
  | WEnq (p : ptr) | WRel (p : ptr) | WSleep (p : ptr) | WLock (p : ptr)
  | SAcq | SPop | SRel
  | BAcq | BAll | BRel
  | MLock (p : ptr) | MUnlock (p : ptr).

Global Instance cpc_eq_dec : EqDecision cpc.
Proof. solve_decision. Defined.

(** Two histories are kept: [own p] is the thread that took the mutex [p] and has
    not given it up; [waiting] is the list of an ideal condition variable, on
    which giving up the mutex and starting to wait is one step. *)
Record csys := CSys { cw : world; cpcs : ptr → cpc; own : ptr → option ptr; waiting : list ptr }.

Section machine.
Context (c : ptr) (Y : list ptr).

(** Locking a mutex: the caller waits while it is taken. *)
Definition mutex_take (t p : ptr) : C world unit :=
  locked ← ABTI_mutex_is_locked p;
  if (locked : bool) then throw Blocked else ABTI_mutex_lock (λ _, throw Blocked) (unit_of Y t) 1 p.

(** One step inside an operation. *)
Definition cond_advance (t : ptr) (k : cpc) : C world cpc :=
  match k with
  | Outside _ => throw Blocked
  (* ABTI_cond_wait *)
  | WAcq p => on_cwaiters c (on_lock ABTD_spinlock_acquire);; mret (WCheck p)
  | WCheck p => ok ← check_waiter_mutex c p; mret (if (ok : bool) then WUnlock p else WBad p)
  | WBad p => on_cwaiters c (on_lock ABTD_spinlock_release);; mret (Outside ABT_ERR_INV_MUTEX)
  | WUnlock p => ABTI_mutex_unlock p;; mret (WEnq p)
  | WEnq p =>
      locked ← on_cwaiters c (on_lock ABTD_spinlock_is_locked);
      c_assert locked;;
      on_cwaiters c (wop_body (enqueue Y t));;
      mret (WRel p)
  | WRel p => on_cwaiters c (on_lock ABTD_spinlock_release);; mret (WSleep p)
  | WSleep p =>
      r ← on_cwaiters c (ready t);
      if (r : bool) then mret (WLock p) else throw Blocked
  | WLock p => mutex_take t p;; mret (Outside ABT_SUCCESS)
  (* ABT_cond_signal *)
  | SAcq => on_cwaiters c (on_lock ABTD_spinlock_acquire);; mret SPop
  | SPop => on_cwaiters c ABTI_waitlist_signal;; mret SRel
  | SRel => on_cwaiters c (on_lock ABTD_spinlock_release);; mret (Outside ABT_SUCCESS)
  (* ABTI_cond_broadcast *)
  | BAcq => on_cwaiters c (on_lock ABTD_spinlock_acquire);; mret BAll
  | BAll => on_cwaiters c ABTI_waitlist_broadcast;; mret BRel
  | BRel => on_cwaiters c (on_lock ABTD_spinlock_release);; mret (Outside ABT_SUCCESS)
  (* ABTI_mutex_lock, ABTI_mutex_unlock *)
  | MLock p => mutex_take t p;; mret (Outside ABT_SUCCESS)
  | MUnlock p => ABTI_mutex_unlock p;; mret (Outside ABT_SUCCESS)
  end.

(** The step at which a mutex changes hands, and what the ideal condition
    variable does then. *)
Definition next_own (t : ptr) (k : cpc) (o : ptr → option ptr) : ptr → option ptr :=
  match k with
  | WUnlock p | MUnlock p => <[p := None]> o
  | WLock p | MLock p => <[p := Some t]> o
  | _ => o
  end.

Definition next_waiting (t : ptr) (k : cpc) (q : list ptr) : list ptr :=
  match k with
  | WUnlock _ => q ++ [t]
  | SPop => tail q
  | BAll => []
  | _ => q
  end.

(** The calls: a thread waits with and unlocks a mutex it holds, and locks one it
    does not hold. *)
Inductive ccall := CallCondWait (p : ptr) | CallSignal | CallBroadcast | CallMLock (p : ptr) | CallMUnlock (p : ptr).

Definition begin_ccall (w : world) (o : ptr → option ptr) (t : ptr) (k : ccall) : option cpc :=
  match k with
  | CallCondWait p => if decide (o p = Some t) then Some (WAcq p) else None
  | CallSignal => Some SAcq
  | CallBroadcast => Some BAcq
  | CallMLock p => if decide (o p ≠ Some t ∧ is_Some (mutexes w !! p)) then Some (MLock p) else None
  | CallMUnlock p => if decide (o p = Some t) then Some (MUnlock p) else None
  end.

Definition is_outside (k : cpc) : bool := match k with Outside _ => true | _ => false end.

Definition after (s : csys) (t : ptr) (k : cpc) (w : world) : csys :=
  CSys w (<[t := k]> (cpcs s)) (next_own t (cpcs s t) (own s)) (next_waiting t (cpcs s t) (waiting s)).

Inductive cstep (s : csys) : csys → Prop :=
  | cstep_call t e k :
      is_outside (cpcs s t) = true → begin_ccall (cw s) (own s) t e = Some k →
      cstep s (CSys (cw s) (<[t := k]> (cpcs s)) (own s) (waiting s))
  | cstep_run t k w :
      cond_advance t (cpcs s t) (cw s) = Done (k, w) → cstep s (after s t k w).

Inductive creachable (s0 : csys) : csys → Prop :=
  | creach_init : creachable s0 s0
  | creach_step s s' : creachable s0 s → cstep s s' → creachable s0 s'.

(** A condition variable as [ABTI_cond_init] leaves it, free mutexes, everybody
    outside. *)
Record cinitial (s : csys) : Prop := {
  ini_cond : ∃ id, conds (cw s) !! c = Some (Cond false None no_waitlist id);
  ini_mutex : ∀ p m, mutexes (cw s) !! p = Some m → free_mutex m;
  ini_pcs : ∀ t, is_outside (cpcs s t) = true;
  ini_own : ∀ p, own s p = None;
  ini_wait : waiting s = [];
  ini_ult : ∀ t, t ∈ Y → yieldable (threads (cw s)) t = true;
}.

(** ** The invariant *)

(** The thread is inside the internal lock. *)
Definition holds_cond (k : cpc) : bool :=
  match k with
  | WCheck _ | WBad _ | WUnlock _ | WEnq _ | WRel _ | SPop | SRel | BAll | BRel => true
  | _ => false
  end.

Definition enlisted (k : cpc) : bool := match k with WRel _ | WSleep _ => true | _ => false end.
Definition asleep (k : cpc) : bool := match k with WSleep _ => true | _ => false end.

(** The holder of the internal lock that has given up its mutex and is not in
    the list yet. *)
Definition pending (h : option ptr) (pcs : ptr → cpc) : list ptr :=
  match h with
  | Some t => match pcs t with WEnq _ => [t] | _ => [] end
  | None => []
  end.

(** The mutex a position needs, and whether the thread has it. *)
Definition cpc_ok (w : world) (o : ptr → option ptr) (t : ptr) (k : cpc) : Prop :=
  match k with
  | WAcq p | WCheck p | WBad p | WUnlock p | MUnlock p => o p = Some t
  | WEnq p | WRel p | WSleep p | WLock p | MLock p => is_Some (mutexes w !! p)
  | _ => True
  end.

(** Each mutex is free or held once by the thread that took it. *)
Definition mutexes_ok (w : world) (o : ptr → option ptr) : Prop :=
  (∀ p x, mutexes w !! p = Some x →
     ∃ m, free_mutex m ∧ x = match o p with Some t => held (unit_of Y t) m 1 | None => m end) ∧
  (∀ p t, o p = Some t → is_Some (mutexes w !! p)).

Record cinv (h : option ptr) (l : list (ptr * bool)) (x : ABTI_cond) (s : csys) : Prop := {
  ci_cond : conds (cw s) !! c = Some x;
  ci_lock : cond_lock x = bool_decide (is_Some h);
  ci_h : ∀ t, holds_cond (cpcs s t) = true ↔ h = Some t;
  ci_wl : winv Y l (cond_view c (cw s));
  ci_wait : waiting s = l.*1 ++ pending h (cpcs s);
  ci_list : ∀ t, t ∈ l.*1 → enlisted (cpcs s t) = true;
  ci_sleep : ∀ t, enlisted (cpcs s t) = true →
    t ∈ l.*1 ∨ (asleep (cpcs s t) = true ∧ tstate (threads (cw s)) t = Some ABT_THREAD_STATE_READY);
  ci_mutex : mutexes_ok (cw s) (own s);
  ci_pc : ∀ t, cpc_ok (cw s) (own s) t (cpcs s t);
}.
End machine.

(** ** Preservation *)

Section preservation.
Context (c : ptr) (Y : list ptr).
Implicit Types (s : csys) (h : option ptr) (l : list (ptr * bool)) (x : ABTI_cond) (t u p : ptr) (w : world) (k : cpc).

(** A step of [t] that leaves the waiters alone. *)
Lemma cinv_quiet h l x s t w k o q h' x' :
  cinv c Y h l x s →
  conds w !! c = Some x' → cond_lock x' = bool_decide (is_Some h') → winv Y l (cond_view c w) → threads w = threads (cw s) →
  (∀ u, u ≠ t → h = Some u ↔ h' = Some u) → (holds_cond k = true ↔ h' = Some t) →
  (enlisted k = true → enlisted (cpcs s t) = true ∧ asleep k = true) →
  (enlisted (cpcs s t) = true → enlisted k = false → t ∉ l.*1) →
  q = l.*1 ++ pending h' (<[t := k]> (cpcs s)) →
  mutexes_ok Y w o → (∀ u k', u ≠ t → cpc_ok (cw s) (own s) u k' → cpc_ok w o u k') → cpc_ok w o t k →
  cinv c Y h' l x' (CSys w (<[t := k]> (cpcs s)) o q).
Proof.
  intros Hi E1 E2 Hw Ht Hh Hht Hq1 Hq2 Hq Hm Hpc Hpt. split; simpl; try done.
  - intros u. destruct (decide (u = t)) as [->|Hne]; [by rewrite fn_lookup_insert|].
    rewrite fn_lookup_insert_ne by done. rewrite <- Hh by done. apply Hi.
  - intros u Hu. destruct (decide (u = t)) as [->|Hne].
    + rewrite fn_lookup_insert. destruct (enlisted k) eqn:Eq; [done|]. exfalso. by apply Hq2; [apply Hi|done|].
    + rewrite fn_lookup_insert_ne by done. by apply Hi.
  - intros u Hu. rewrite Ht. destruct (decide (u = t)) as [->|Hne].
    + rewrite fn_lookup_insert in *. destruct (Hq1 Hu) as [Hq' Ha].
      destruct (ci_sleep _ _ _ _ _ _ Hi t Hq') as [?|[? ?]]; [by left|by right].
    + rewrite fn_lookup_insert_ne in * by done. by apply Hi.
  - intros u. destruct (decide (u = t)) as [->|Hne]; [by rewrite fn_lookup_insert|].
    rewrite fn_lookup_insert_ne by done. apply Hpc; [done|apply Hi].
Qed.

(** Where a thread may have to wait. *)
Definition cblocked h l s t : Prop :=
  match cpcs s t with
  | Outside _ => True
  | WAcq _ | SAcq | BAcq => is_Some h
  | WSleep _ => t ∈ l.*1
  | WLock p | MLock p => is_Some (own s p)
  | _ => False
  end.

Definition cstep_post h l s t (r : outcome (cpc * world)) : Prop :=
  match r with
  | Done (k, w) => ∃ h' l' x', cinv c Y h' l' x' (after s t k w)
  | Fault f => f = Blocked ∧ cblocked h l s t
  end.

(** Only the lock, the list or the mutex of the condition variable change. *)
Lemma setc_mutexes_ok x w o : mutexes_ok Y w o → mutexes_ok Y (setc c x w) o.
Proof. done. Qed.

Lemma setc_cpc_ok x w o u k : cpc_ok w o u k → cpc_ok (setc c x w) o u k.
Proof. done. Qed.

Lemma setc_winv x x' l w :
  conds w !! c = Some x → cwaitlist x' = cwaitlist x → winv Y l (cond_view c w) → winv Y l (cond_view c (setc c x' w)).
Proof.
  intros E El Hw. rewrite (cond_view_eq c x' _ (setc_lookup c x' w)), El.
  rewrite (cond_view_eq c x w E) in Hw. exact (winv_lock Y (cond_lock x') _ _ Hw).
Qed.

Lemma not_holding h l x s t : cinv c Y h l x s → holds_cond (cpcs s t) = false → h ≠ Some t.
Proof. intros Hi Hf E. apply (ci_h _ _ _ _ _ _ Hi) in E. congruence. Qed.

(** The others' pending waiter is not touched by a step of [t]. *)
Lemma pending_other h s t k : h ≠ Some t → pending h (<[t := k]> (cpcs s)) = pending h (cpcs s).
Proof. intros Hne. destruct h as [u|]; [|done]. simpl. rewrite fn_lookup_insert_ne by congruence. done. Qed.

(** Taking the internal lock. *)
Lemma acquire_step h l x s t k :
  cinv c Y h l x s →
  (∃ p, cpcs s t = WAcq p ∧ k = WCheck p) ∨ (cpcs s t = SAcq ∧ k = SPop) ∨ (cpcs s t = BAcq ∧ k = BAll) →
  cstep_post h l s t ((on_cwaiters c (on_lock ABTD_spinlock_acquire);; mret k) (cw s)).
Proof.
  intros Hi Hc. pose proof (ci_cond _ _ _ _ _ _ Hi) as Ex. pose proof (ci_lock _ _ _ _ _ _ Hi) as El.
  assert (holds_cond (cpcs s t) = false ∧ enlisted (cpcs s t) = false ∧ enlisted k = false ∧ holds_cond k = true ∧
    next_own t (cpcs s t) (own s) = own s ∧ next_waiting t (cpcs s t) (waiting s) = waiting s ∧
    cpc_ok (cw s) (own s) t k ∧ (is_Some h → cblocked h l s t) ∧ pending (Some t) (<[t := k]> (cpcs s)) = [])
    as (A1 & A2 & A3 & A4 & A5 & A6 & A7 & A8 & A9).
  { pose proof (ci_pc _ _ _ _ _ _ Hi t) as Hp. unfold cblocked. cbn [pending]. rewrite fn_lookup_insert.
    destruct Hc as [(p & Hc & ->)|[[Hc ->]|[Hc ->]]]; rewrite Hc in *; done. }
  destruct h as [u|].
  - rewrite (C_bind_Fault _ _ _ Blocked); [split; [done|by apply A8]|].
    unfold on_cwaiters. rewrite (C_bind_Done _ _ _ _ _ (cload_run _ _ _ _ Ex)).
    unfold on_wst, zoom. rewrite (cond_view_eq _ x) by done. unfold on_lock, zoom, ABTD_spinlock_acquire. simpl.
    rewrite El, bool_decide_true by done. done.
  - rewrite (C_bind_Done _ _ _ _ _ (acquire_cond_run c x _ Ex El)).
    exists (Some t), l, (set_cwaiting true (cwaitlist x) x). unfold after. rewrite A5, A6.
    eapply cinv_quiet; [exact Hi|apply setc_lookup|done| |done| |done|by rewrite A3|by rewrite A2| | | |].
    + apply (setc_winv x); [done|done|apply Hi].
    + intros u Hu. split; congruence.
    + rewrite A9, (ci_wait _ _ _ _ _ _ Hi). done.
    + apply setc_mutexes_ok, Hi.
    + intros u k' _. apply setc_cpc_ok.
    + exact A7.
Qed.

Lemma release_cond_run x w :
  conds w !! c = Some x →
  on_cwaiters c (on_lock ABTD_spinlock_release) w = Done ((), setc c (set_cwaiting false (cwaitlist x) x) w).
Proof.
  intros E. rewrite (on_cwaiters_run c _ x _ () (set_wl_lock false (cond_view c w))); [|done|done].
  rewrite (cond_upd_setc c x); [|done|by rewrite (cond_view_eq c x)..]. by rewrite (cond_view_eq c x).
Qed.

Lemma release_step h l x s t k :
  cinv c Y h l x s →
  (∃ p, cpcs s t = WBad p ∧ k = Outside ABT_ERR_INV_MUTEX) ∨ (∃ p, cpcs s t = WRel p ∧ k = WSleep p) ∨
    (cpcs s t = SRel ∧ k = Outside ABT_SUCCESS) ∨ (cpcs s t = BRel ∧ k = Outside ABT_SUCCESS) →
  cstep_post h l s t ((on_cwaiters c (on_lock ABTD_spinlock_release);; mret k) (cw s)).
Proof.
  intros Hi Hc. pose proof (ci_cond _ _ _ _ _ _ Hi) as Ex.
  assert (holds_cond (cpcs s t) = true ∧ (enlisted k = true → enlisted (cpcs s t) = true ∧ asleep k = true) ∧
    (enlisted (cpcs s t) = enlisted k) ∧ holds_cond k = false ∧
    next_own t (cpcs s t) (own s) = own s ∧ next_waiting t (cpcs s t) (waiting s) = waiting s ∧
    cpc_ok (cw s) (own s) t k ∧ pending (Some t) (cpcs s) = []) as (A1 & A2 & A3 & A4 & A5 & A6 & A7 & A8).
  { pose proof (ci_pc _ _ _ _ _ _ Hi t) as Hp. cbn [pending].
    destruct Hc as [(p & Hc & ->)|[(p & Hc & ->)|[[Hc ->]|[Hc ->]]]]; rewrite Hc in *; done. }
  apply (ci_h _ _ _ _ _ _ Hi) in A1 as ->.
  rewrite (C_bind_Done _ _ _ _ _ (release_cond_run x _ Ex)).
  exists None, l, (set_cwaiting false (cwaitlist x) x). unfold after. rewrite A5, A6.
  eapply cinv_quiet; [exact Hi|apply setc_lookup|by rewrite bool_decide_false by (intros []; done)| |done| |by rewrite A4|done| | | | |].
  - apply (setc_winv x); [done|done|apply Hi].
  - intros u Hu. split; congruence.
  - intros; congruence.
  - rewrite (ci_wait _ _ _ _ _ _ Hi), A8. done.
  - apply setc_mutexes_ok, Hi.
  - intros u k' _. apply setc_cpc_ok.
  - exact A7.
Qed.

Lemma check_step h l x s t p :
  cinv c Y h l x s → cpcs s t = WCheck p → cstep_post h l s t (cond_advance c Y t (WCheck p) (cw s)).
Proof.
  intros Hi Hc. pose proof (ci_cond _ _ _ _ _ _ Hi) as Ex. pose proof (ci_pc _ _ _ _ _ _ Hi t) as Hp.
  pose proof (ci_h _ _ _ _ _ _ Hi t) as Hh. rewrite Hc in Hp, Hh. assert (h = Some t) as -> by (by apply Hh).
  assert (∀ k w x', k = WUnlock p ∨ k = WBad p → conds w !! c = Some x' → cond_lock x' = cond_lock x → winv Y l (cond_view c w) →
    threads w = threads (cw s) → mutexes w = mutexes (cw s) → cinv c Y (Some t) l x' (after s t k w)) as Hq.
  { intros k w x' Hk E1 E2 Hw Ht Em. unfold after. rewrite Hc. cbn [next_own next_waiting].
    eapply cinv_quiet; [exact Hi|exact E1|rewrite E2; apply Hi|exact Hw|exact Ht|done| | |by rewrite Hc| | | |].
    - by destruct Hk as [-> | ->].
    - by destruct Hk as [-> | ->].
    - rewrite (ci_wait _ _ _ _ _ _ Hi). cbn [pending]. rewrite fn_lookup_insert, Hc. by destruct Hk as [-> | ->].
    - unfold mutexes_ok. rewrite Em. apply Hi.
    - intros u k' _. unfold cpc_ok. by rewrite Em.
    - by destruct Hk as [-> | ->]. }
  cbn [cond_advance]. unfold check_waiter_mutex. rewrite C_bind_assoc, (C_bind_Done _ _ _ _ _ (cload_run c _ _ _ Ex)).
  destruct (p_waiter_mutex x) as [q|] eqn:Eq.
  - rewrite (C_bind_Done _ _ _ (bool_decide (q = p)) (cw s)) by done. exists (Some t), l, x.
    apply Hq; [case_bool_decide; auto|done|done|apply Hi|done|done].
  - rewrite C_bind_assoc, (C_bind_Done _ _ _ _ _ (cstore_run c _ _ _ Ex)). rewrite (C_bind_Done _ _ _ true (setc c (set_p_waiter_mutex (Some p) x) (cw s))) by done.
    exists (Some t), l, (set_p_waiter_mutex (Some p) x).
    apply Hq; [auto|apply setc_lookup|done|apply (setc_winv x); [done|done|apply Hi]|done|done].
Qed.

(** Giving up a mutex and taking one. *)
Lemma setm_view_cond p m w : cond_view c (setm p m w) = cond_view c w.
Proof. done. Qed.

Lemma setm_is_Some p m w q : is_Some (mutexes w !! q) → is_Some (mutexes (setm p m w) !! q).
Proof.
  intros Hq. simpl. destruct (decide (p = q)) as [<-|Hne]; [by rewrite lookup_insert_eq|by rewrite lookup_insert_ne].
Qed.

Lemma give_mutexes_ok w o t p :
  mutexes_ok Y w o → o p = Some t →
  ∃ m, free_mutex m ∧ ABTI_mutex_unlock p w = Done ((), setm p m w) ∧ mutexes_ok Y (setm p m w) (<[p := None]> o).
Proof.
  intros [H1 H2] Ho. destruct (H2 p t Ho) as [x Ex]. destruct (H1 p x Ex) as (m & Hm & E). rewrite Ho in E. subst x.
  exists m. split; [done|]. split.
  - apply (unlock_held p (unit_of Y t) m w 0 Hm Ex). destruct (recursive (attrs m)); [lia|done].
  - split.
    + intros q x Eq. simpl in Eq. destruct (decide (q = p)) as [->|Hne].
      * rewrite lookup_insert_eq in Eq. simplify_eq. rewrite fn_lookup_insert. eauto.
      * rewrite lookup_insert_ne in Eq by done. rewrite fn_lookup_insert_ne by done. by apply H1.
    + intros q u Hq. apply setm_is_Some. destruct (decide (q = p)) as [->|Hne]; [by rewrite fn_lookup_insert in Hq|].
      rewrite fn_lookup_insert_ne in Hq by done. by eapply H2.
Qed.

Lemma take_mutexes_ok w o t p :
  mutexes_ok Y w o → is_Some (mutexes w !! p) →
  match o p with
  | Some _ => mutex_take Y t p w = Fault Blocked
  | None => ∃ m, mutex_take Y t p w = Done ((), setm p (held (unit_of Y t) m 1) w) ∧
      mutexes_ok Y (setm p (held (unit_of Y t) m 1) w) (<[p := Some t]> o)
  end.
Proof.
  intros [H1 H2] [x Ex]. destruct (H1 p x Ex) as (m & Hm & E). unfold mutex_take, ABTI_mutex_is_locked.
  rewrite (C_bind_Done _ _ _ (mlock x) w).
  2:{ rewrite (on_mlock_run p ABTD_spinlock_is_locked x w (mlock x) (mlock x) Ex eq_refl). rewrite (setm_id p); [done|]. rewrite Ex. f_equal. by destruct x. }
  destruct (o p) as [u|] eqn:Ho; subst x.
  - assert (mlock (held (unit_of Y u) m 1) = true) as -> by (simpl; by destruct (recursive (attrs m))). done.
  - assert (mlock m = false) as -> by apply Hm. exists m. split.
    + apply (lock_held p (λ _, throw Blocked) (unit_of Y t) 1 m w 0 Hm); [done|lia|done|]. destruct (recursive (attrs m)); [lia|done].
    + split.
      * intros q x Eq. simpl in Eq. destruct (decide (q = p)) as [->|Hne].
        -- rewrite lookup_insert_eq in Eq. simplify_eq. rewrite fn_lookup_insert. eauto.
        -- rewrite lookup_insert_ne in Eq by done. rewrite fn_lookup_insert_ne by done. by apply H1.
      * intros q u Hq. apply setm_is_Some. destruct (decide (q = p)) as [->|Hne]; [done|].
        rewrite fn_lookup_insert_ne in Hq by done. by eapply H2.
Qed.

(** What the others need of the mutexes stays when [t] gives up or takes one. *)
Lemma cpc_ok_others w o t p m v u k :
  (∀ a, o p = Some a → a = t) → u ≠ t → cpc_ok w o u k → cpc_ok (setm p m w) (<[p := v]> o) u k.
Proof.
  intros Hp Hu Hk. assert (∀ q, o q = Some u → <[p := v]> o q = Some u) as Ho.
  { intros q Hq. rewrite fn_lookup_insert_ne; [done|]. intros ->. apply Hu. by apply Hp. }
  destruct k; cbn [cpc_ok] in *; auto using setm_is_Some.
Qed.

Lemma unlock_step h l x s t p :
  cinv c Y h l x s → cpcs s t = WUnlock p ∨ cpcs s t = MUnlock p → cstep_post h l s t (cond_advance c Y t (cpcs s t) (cw s)).
Proof.
  intros Hi Hc. pose proof (ci_pc _ _ _ _ _ _ Hi t) as Hp. pose proof (ci_h _ _ _ _ _ _ Hi t) as Hh.
  assert (own s p = Some t) as Ho by (destruct Hc as [Hc|Hc]; by rewrite Hc in Hp).
  destruct (give_mutexes_ok (cw s) (own s) t p (ci_mutex _ _ _ _ _ _ Hi) Ho) as (m & Hm & E & Hok).
  assert (∀ u k', u ≠ t → cpc_ok (cw s) (own s) u k' → cpc_ok (setm p m (cw s)) (<[p := None]> (own s)) u k') as Hoth
    by (intros; apply (cpc_ok_others _ _ t); [congruence|done|done]).
  destruct Hc as [Hc|Hc]; rewrite Hc in *; cbn [cond_advance]; rewrite (C_bind_Done _ _ _ _ _ E);
    exists h, l, x; unfold after; rewrite Hc; cbn [next_own next_waiting].
  - assert (h = Some t) as -> by (by apply Hh).
    eapply cinv_quiet; [exact Hi|apply Hi|apply Hi|rewrite setm_view_cond; apply Hi|done|done|done|done|by rewrite Hc| |exact Hok|exact Hoth|].
    + rewrite (ci_wait _ _ _ _ _ _ Hi). cbn [pending]. rewrite Hc, fn_lookup_insert, app_nil_r. done.
    + simpl. by rewrite lookup_insert_eq.
  - assert (h ≠ Some t) as Hne by (eapply not_holding; [exact Hi|by rewrite Hc]).
    eapply cinv_quiet; [exact Hi|apply Hi|apply Hi|rewrite setm_view_cond; apply Hi|done|done|done|done|by rewrite Hc| |exact Hok|exact Hoth|done].
    rewrite pending_other by done. apply Hi.
Qed.

Lemma take_step h l x s t p :
  cinv c Y h l x s → cpcs s t = WLock p ∨ cpcs s t = MLock p →
  cstep_post h l s t ((mutex_take Y t p;; mret (Outside ABT_SUCCESS)) (cw s)).
Proof.
  intros Hi Hc. pose proof (ci_pc _ _ _ _ _ _ Hi t) as Hp.
  assert (is_Some (mutexes (cw s) !! p)) as Hs by (destruct Hc as [Hc|Hc]; by rewrite Hc in Hp).
  assert (holds_cond (cpcs s t) = false ∧ enlisted (cpcs s t) = false ∧ next_own t (cpcs s t) (own s) = <[p := Some t]> (own s) ∧
    next_waiting t (cpcs s t) (waiting s) = waiting s ∧ (is_Some (own s p) → cblocked h l s t)) as (A1 & A2 & A3 & A4 & A5)
    by (unfold cblocked; destruct Hc as [Hc|Hc]; rewrite Hc; done).
  assert (h ≠ Some t) as Hne by (by eapply not_holding).
  pose proof (take_mutexes_ok (cw s) (own s) t p (ci_mutex _ _ _ _ _ _ Hi) Hs) as Htk.
  destruct (own s p) as [u|] eqn:Ho.
  - rewrite (C_bind_Fault _ _ _ Blocked) by done. split; [done|]. by apply A5.
  - destruct Htk as (m & E & Hok). rewrite (C_bind_Done _ _ _ _ _ E). exists h, l, x. unfold after. rewrite A3, A4.
    eapply cinv_quiet; [exact Hi|apply Hi|apply Hi|rewrite setm_view_cond; apply Hi|done|done|done|done|by rewrite A2| |exact Hok| |done].
    + rewrite pending_other by done. apply Hi.
    + intros u k' Hu. apply (cpc_ok_others _ _ t); [congruence|done].
Qed.

Lemma wsleep_step h l x s t p :
  cinv c Y h l x s → cpcs s t = WSleep p → cstep_post h l s t (cond_advance c Y t (WSleep p) (cw s)).
Proof.
  intros Hi Hc. pose proof (ci_cond _ _ _ _ _ _ Hi) as Ex. pose proof (ci_pc _ _ _ _ _ _ Hi t) as Hp.
  assert (∀ st, tstate (threads (cw s)) t = Some st →
    on_cwaiters c (ready t) (cw s) = Done (bool_decide (st = ABT_THREAD_STATE_READY), cw s)) as Hrun.
  { intros st Hst. rewrite (on_cwaiters_run c _ x _ (bool_decide (st = ABT_THREAD_STATE_READY)) (cond_view c (cw s))); [|done|].
    - by rewrite (cond_upd_id c x).
    - apply ready_run. by rewrite (cond_view_eq c x). }
  cbn [cond_advance]. destruct (decide (t ∈ l.*1)) as [Hin|Hin].
  - pose proof (wi_blocked _ _ _ (ci_wl _ _ _ _ _ _ Hi) t Hin) as Hb. rewrite (cond_view_eq c x _ Ex) in Hb.
    rewrite (C_bind_Done _ _ _ _ _ (Hrun _ Hb)). split; [done|]. unfold cblocked. by rewrite Hc.
  - destruct (ci_sleep _ _ _ _ _ _ Hi t) as [?|[_ Hr]]; [by rewrite Hc|done|].
    rewrite (C_bind_Done _ _ _ _ _ (Hrun _ Hr)). rewrite bool_decide_true by done.
    assert (h ≠ Some t) as Hne by (eapply not_holding; [exact Hi|by rewrite Hc]).
    exists h, l, x. unfold after. rewrite Hc in *. cbn [next_own next_waiting].
    eapply cinv_quiet; [exact Hi|apply Hi|apply Hi|apply Hi|done|done|done|done|by intros _ _| |apply Hi|done|exact Hp].
    rewrite pending_other by done. apply Hi.
Qed.

(** A step of [t] that changes the list under the internal lock. *)
Lemma cinv_list l l' x s t v' k q :
  cinv c Y (Some t) l x s → winv Y l' v' → wl_lock v' = true → holds_cond k = true →
  (∀ u, u ∈ l'.*1 → if decide (u = t) then enlisted k = true else u ∈ l.*1) →
  (enlisted k = true → t ∈ l'.*1) →
  (∀ u, u ≠ t → u ∈ l.*1 ∨ tstate (threads (cw s)) u = Some ABT_THREAD_STATE_READY →
     u ∈ l'.*1 ∨ tstate (wl_heap v') u = Some ABT_THREAD_STATE_READY) →
  q = l'.*1 ++ pending (Some t) (<[t := k]> (cpcs s)) → cpc_ok (cw s) (own s) t k →
  cinv c Y (Some t) l' (set_cwaiting (wl_lock v') (wl v') x) (CSys (cond_upd c v' (cw s)) (<[t := k]> (cpcs s)) (own s) q).
Proof.
  intros Hi Hw Hlk Hh Hl Hl' Hst Hq Hp. pose proof (ci_cond _ _ _ _ _ _ Hi) as Ex.
  assert (∀ u, u ≠ t → holds_cond (cpcs s u) = false) as Hothers.
  { intros u Hu. apply not_true_is_false. intros E. apply (ci_h _ _ _ _ _ _ Hi) in E. congruence. }
  split; simpl; try done.
  - exact (cond_upd_lookup c x v' _ Ex).
  - intros u. destruct (decide (u = t)) as [->|Hne]; [rewrite fn_lookup_insert; done|].
    rewrite fn_lookup_insert_ne by done. apply Hi.
  - by rewrite (cond_view_upd c x).
  - intros u Hu. specialize (Hl u Hu). destruct (decide (u = t)) as [->|Hne]; [by rewrite fn_lookup_insert|].
    rewrite fn_lookup_insert_ne by done. by apply Hi.
  - intros u Hu. destruct (decide (u = t)) as [->|Hne].
    + rewrite fn_lookup_insert in Hu. left. by apply Hl'.
    + rewrite fn_lookup_insert_ne in * by done.
      destruct (Hst u Hne) as [?|?]; [|by left|].
      * destruct (ci_sleep _ _ _ _ _ _ Hi u Hu) as [?|[_ ?]]; auto.
      * right. split; [|done]. specialize (Hothers u Hne). destruct (cpcs s u); done.
  - apply Hi.
  - intros u. destruct (decide (u = t)) as [->|Hne]; [by rewrite fn_lookup_insert|].
    rewrite fn_lookup_insert_ne by done. apply Hi.
Qed.

(** The state of a thread that an operation on the list neither adds nor removes. *)
Lemma wop_keeps o l g l' v v' u :
  abs_step [u] Y o l = Some (g, l') → winv Y l v → wop_body o v = Done ((), v') →
  (u ∈ g → tstate (wl_heap v') u = Some ABT_THREAD_STATE_READY) ∧
  (u ∉ g → tstate (wl_heap v') u = tstate (wl_heap v) u).
Proof.
  intros Ha Hw E. destruct (wop_ok [u] Y o l g l' v Ha Hw) as (v'' & E' & _ & Hs). rewrite E in E'. simplify_eq.
  split; intros Hu; [by apply (ws_ready _ _ _ _ _ Hs); [|set_solver]|by apply (ws_state _ _ _ _ _ Hs); [|set_solver]].
Qed.

Lemma wenq_step h l x s t p :
  cinv c Y h l x s → cpcs s t = WEnq p → cstep_post h l s t (cond_advance c Y t (WEnq p) (cw s)).
Proof.
  intros Hi Hc. pose proof (ci_cond _ _ _ _ _ _ Hi) as Ex. pose proof (ci_pc _ _ _ _ _ _ Hi t) as Hp.
  pose proof (ci_h _ _ _ _ _ _ Hi t) as Hh. rewrite Hc in Hp, Hh. assert (h = Some t) as -> by (by apply Hh).
  pose proof (ci_lock _ _ _ _ _ _ Hi) as El. rewrite bool_decide_true in El by done.
  assert (t ∉ l.*1) as Hnl by (intros Hin; apply (ci_list _ _ _ _ _ _ Hi) in Hin; by rewrite Hc in Hin).
  set (v := cond_view c (cw s)). pose proof (ci_wl _ _ _ _ _ _ Hi) as Hwl. fold v in Hwl.
  assert (v = Wst (cwaitlist x) true (threads (cw s)) (w_resumed (cw s))) as Ev by (subst v; by rewrite (cond_view_eq c x), El).
  assert (∀ X, t ∉ X → abs_step X Y (enqueue Y t) l = Some ([], l ++ [(t, false)])) as Habs.
  { intros X HX. unfold enqueue. destruct (decide (t ∈ Y)); simpl; by rewrite decide_True. }
  destruct (wop_ok [] Y (enqueue Y t) l [] (l ++ [(t, false)]) v) as (v' & E & Hw' & Hs'); [apply Habs; set_solver|done|].
  cbn [cond_advance]. rewrite (C_bind_Done _ _ _ true (cw s)).
  2:{ rewrite (on_cwaiters_run c _ x _ true v Ex); [subst v; by rewrite (cond_upd_id c x)|fold v; by rewrite Ev]. }
  rewrite (C_bind_Done _ _ _ () (cw s)) by done.
  rewrite (C_bind_Done _ _ _ () (cond_upd c v' (cw s))) by (by apply (on_cwaiters_run c _ x)).
  exists (Some t), (l ++ [(t, false)]), (set_cwaiting (wl_lock v') (wl v') x). unfold after. rewrite Hc. cbn [next_own next_waiting].
  eapply (cinv_list l); [exact Hi|exact Hw'| |done| | | | |exact Hp].
  - rewrite (ws_lock _ _ _ _ _ Hs'), Ev. done.
  - intros u Hu. rewrite fmap_app in Hu. case_decide; [done|set_solver].
  - intros _. rewrite fmap_app. set_solver.
  - intros u Hne [Hu|Hu]; [left; rewrite fmap_app; set_solver|]. right.
    destruct (wop_keeps _ _ _ _ _ _ u (Habs [u] ltac:(set_solver)) Hwl E) as [_ ->]; [by rewrite Ev|apply not_elem_of_nil].
  - rewrite (ci_wait _ _ _ _ _ _ Hi). cbn [pending]. rewrite Hc, fn_lookup_insert, fmap_app, app_nil_r. done.
Qed.

Lemma wake_step h l x s t o g l' k :
  cinv c Y h l x s →
  (cpcs s t = SPop ∧ o = Signal ∧ g = take 1 l.*1 ∧ l' = tail l ∧ k = SRel) ∨
    (cpcs s t = BAll ∧ o = Broadcast ∧ g = l.*1 ∧ l' = [] ∧ k = BRel) →
  cstep_post h l s t ((on_cwaiters c (wop_body o);; mret k) (cw s)).
Proof.
  intros Hi Hc. pose proof (ci_cond _ _ _ _ _ _ Hi) as Ex. pose proof (ci_h _ _ _ _ _ _ Hi t) as Hh.
  pose proof (ci_lock _ _ _ _ _ _ Hi) as El. pose proof (ci_wl _ _ _ _ _ _ Hi) as Hwl.
  assert (holds_cond (cpcs s t) = true ∧ enlisted (cpcs s t) = false ∧ enlisted k = false ∧ holds_cond k = true ∧
    next_own t (cpcs s t) (own s) = own s ∧ next_waiting t (cpcs s t) l.*1 = l'.*1 ∧ cpc_ok (cw s) (own s) t k ∧
    pending (Some t) (cpcs s) = [] ∧ pending (Some t) (<[t := k]> (cpcs s)) = [] ∧
    (∀ X, abs_step X Y o l = Some (g, l')) ∧ (∀ u, u ∈ l.*1 ↔ u ∈ g ∨ u ∈ l'.*1))
    as (A1 & A2 & A3 & A4 & A5 & A6 & A7 & A8 & A9 & A10 & A11).
  { cbn [pending]. rewrite fn_lookup_insert.
    destruct Hc as [(Hc & -> & -> & -> & ->)|(Hc & -> & -> & -> & ->)]; rewrite Hc; split_and!; try done.
    - by destruct l.
    - intros u. destruct l as [|y l]; simpl; [set_solver|]. set_solver.
    - intros u. set_solver. }
  apply (ci_h _ _ _ _ _ _ Hi) in A1 as ->. rewrite bool_decide_true in El by done.
  set (v := cond_view c (cw s)) in *.
  assert (v = Wst (cwaitlist x) true (threads (cw s)) (w_resumed (cw s))) as Ev by (subst v; by rewrite (cond_view_eq c x), El).
  assert (t ∉ l.*1) as Hnl by (intros Hin; apply (ci_list _ _ _ _ _ _ Hi) in Hin; congruence).
  destruct (wop_ok [] Y o l g l' v (A10 _) Hwl) as (v' & E & Hw' & Hs').
  rewrite (C_bind_Done _ _ _ () (cond_upd c v' (cw s))) by (by apply (on_cwaiters_run c _ x)).
  exists (Some t), l', (set_cwaiting (wl_lock v') (wl v') x). unfold after.
  rewrite A5, (ci_wait _ _ _ _ _ _ Hi), A8, app_nil_r, A6.
  eapply (cinv_list l); [exact Hi|exact Hw'| |done| | | | |exact A7].
  - rewrite (ws_lock _ _ _ _ _ Hs'), Ev. done.
  - intros u Hu. assert (u ∈ l.*1) as Hul by (apply A11; by right). case_decide; [by subst|done].
  - by rewrite A3.
  - intros u Hne Hu. destruct (decide (u ∈ l'.*1)) as [?|Hl]; [by left|right].
    destruct (wop_keeps o l g l' v v' u (A10 _) Hwl E) as [K1 K2]. destruct (decide (u ∈ g)) as [Hw|Hw]; [by apply K1|].
    rewrite K2 by done. destruct Hu as [Hu|Hu]; [apply A11 in Hu as [?|?]; done|]. by rewrite Ev.
  - by rewrite A9, app_nil_r.
Qed.

Lemma cond_advance_ok h l x s t : cinv c Y h l x s → cstep_post h l s t (cond_advance c Y t (cpcs s t) (cw s)).
Proof.
  intros Hi. destruct (cpcs s t) eqn:Hc.
  - split; [done|]. unfold cblocked. by rewrite Hc.
  - apply (acquire_step h l x s t (WCheck p) Hi). eauto.
  - by apply (check_step h l x).
  - apply (release_step h l x s t (Outside ABT_ERR_INV_MUTEX) Hi). eauto.
  - rewrite <- Hc. apply (unlock_step h l x s t p Hi). auto.
  - by apply (wenq_step h l x).
  - apply (release_step h l x s t (WSleep p) Hi). eauto.
  - by apply (wsleep_step h l x).
  - apply (take_step h l x s t p Hi). auto.
  - apply (acquire_step h l x s t SPop Hi). auto.
  - apply (wake_step h l x s t Signal (take 1 l.*1) (tail l) SRel Hi). auto 10.
  - apply (release_step h l x s t (Outside ABT_SUCCESS) Hi). auto.
  - apply (acquire_step h l x s t BAll Hi). auto.
  - apply (wake_step h l x s t Broadcast l.*1 [] BRel Hi). auto 10.
  - apply (release_step h l x s t (Outside ABT_SUCCESS) Hi). auto.
  - apply (take_step h l x s t p Hi). auto.
  - rewrite <- Hc. apply (unlock_step h l x s t p Hi). auto.
Qed.

Lemma ccall_ok h l x s t e k :
  cinv c Y h l x s → is_outside (cpcs s t) = true → begin_ccall (cw s) (own s) t e = Some k →
  cinv c Y h l x (CSys (cw s) (<[t := k]> (cpcs s)) (own s) (waiting s)).
Proof.
  intros Hi Hc Hb. assert (holds_cond k = false ∧ enlisted k = false ∧ cpc_ok (cw s) (own s) t k) as (A1 & A2 & A3)
    by (destruct e; simpl in Hb; repeat case_decide; simplify_eq; simpl; tauto).
  assert (holds_cond (cpcs s t) = false ∧ enlisted (cpcs s t) = false) as [B1 B2] by (by destruct (cpcs s t)).
  assert (h ≠ Some t) as Hne by (by eapply not_holding).
  eapply cinv_quiet; [exact Hi|apply Hi|apply Hi|apply Hi|done|done|by rewrite A1|by rewrite A2|by rewrite B2| |apply Hi|done|exact A3].
  rewrite pending_other by done. apply Hi.
Qed.

Lemma cinitial_cinv s : cinitial c Y s → ∃ x, cinv c Y None [] x s.
Proof.
  intros [[id Hx] Hm Hp Ho Hq Hu]. exists (Cond false None no_waitlist id).
  assert (∀ t, holds_cond (cpcs s t) = false ∧ enlisted (cpcs s t) = false ∧ cpc_ok (cw s) (own s) t (cpcs s t)) as Hout
    by (intros t; specialize (Hp t); by destruct (cpcs s t)).
  split; try done.
  - intros t. destruct (Hout t) as (-> & _). done.
  - rewrite (cond_view_eq c _ _ Hx). exact (winv_init Y (Wst no_waitlist false (threads (cw s)) (w_resumed (cw s))) Hu).
  - intros t Ht. by apply elem_of_nil in Ht.
  - intros t. destruct (Hout t) as (_ & -> & _). done.
  - split; [|intros p t; by rewrite Ho]. intros p m Em. exists m. rewrite Ho. split; [by eapply Hm|done].
  - intros t. apply Hout.
Qed.

Lemma creachable_cinv s0 s : cinitial c Y s0 → creachable c Y s0 s → ∃ h l x, cinv c Y h l x s.
Proof.
  intros H0. induction 1 as [|s s' _ (h & l & x & Hi) Hs].
  - destruct (cinitial_cinv s0 H0) as [x Hi]. eauto.
  - destruct Hs as [t e k Hc Hb|t k w Ha].
    + exists h, l, x. by eapply ccall_ok.
    + pose proof (cond_advance_ok h l x s t Hi) as Hp. unfold cstep_post in Hp. by rewrite Ha in Hp.
Qed.
End preservation.

(** ** Theorems *)

Section reach.
Context (c : ptr) (Y : list ptr).

Lemma holder_steps h l x s u :
  cinv c Y h l x s → h = Some u → ∃ r, cond_advance c Y u (cpcs s u) (cw s) = Done r.
Proof.
  intros Hi Hu. pose proof (cond_advance_ok c Y h l x s u Hi) as Hp. unfold cstep_post in Hp.
  destruct (cond_advance c Y u (cpcs s u) (cw s)) as [r|f]; [by exists r|]. destruct Hp as [_ Hb]. exfalso.
  apply (ci_h _ _ _ _ _ _ Hi) in Hu. unfold cblocked in Hb. by destruct (cpcs s u).
Qed.

(** The list of the ideal condition variable is the linked list, followed by the
    thread that is about to enlist. *)
Lemma waiting_elem h l x s t :
  cinv c Y h l x s → t ∈ waiting s ↔ t ∈ l.*1 ∨ ∃ p, cpcs s t = WEnq p.
Proof.
  intros Hi. rewrite (ci_wait _ _ _ _ _ _ Hi), elem_of_app. apply or_iff_compat_l. split.
  - destruct h as [u|]; cbn [pending]; [|by intros ?%elem_of_nil].
    destruct (cpcs s u) eqn:E; try (by intros ?%elem_of_nil). intros ->%list_elem_of_singleton. eauto.
  - intros [p E]. assert (h = Some t) as -> by (apply (ci_h _ _ _ _ _ _ Hi); by rewrite E).
    cbn [pending]. rewrite E. by apply list_elem_of_singleton.
Qed.

Lemma waiting_NoDup h l x s : cinv c Y h l x s → NoDup (waiting s).
Proof.
  intros Hi. pose proof (wrep_nodup _ _ _ (wi_rep _ _ _ (ci_wl _ _ _ _ _ _ Hi))) as Hd.
  rewrite (ci_wait _ _ _ _ _ _ Hi). apply list.NoDup_app. split; [done|]. split.
  - intros t Ht Hin. destruct h as [u|]; cbn [pending] in Hin; [|by apply elem_of_nil in Hin].
    destruct (cpcs s u) eqn:E; try (by apply elem_of_nil in Hin). apply list_elem_of_singleton in Hin as ->.
    apply (ci_list _ _ _ _ _ _ Hi) in Ht. by rewrite E in Ht.
  - destruct h as [u|]; cbn [pending]; [|constructor]. destruct (cpcs s u); try constructor; apply NoDup_singleton || apply not_elem_of_nil || constructor.
Qed.

(** C23: Giving up the mutex and starting to wait is one step as far as anybody can
    see.  In every interleaving of waits (with any mutexes), signals,
    broadcasts, locks and unlocks, [waiting] is the list of the condition
    variable in which a wait joins at the very step that gives up its mutex, a
    signal removes the thread that has waited longest and a broadcast removes
    all: a thread that sleeps has been made ready exactly when it is no longer in
    that list, so no signal sent after the mutex was given up is lost and nobody
    is woken without one; a thread in that list has not returned.  The lock
    word of a mutex is set exactly while some thread has taken it.  No step
    fails the assertion or is undefined: a thread waits only for the internal
    lock, which another thread holds that can take its next step, for a
    signal while it is in the list, or for a mutex that is taken. *)
Theorem cond_wait_atomic s0 s :
  cinitial c Y s0 → creachable c Y s0 s →
  NoDup (waiting s) ∧
  (∀ t p, cpcs s t = WSleep p →
     tstate (threads (cw s)) t = Some (if decide (t ∈ waiting s) then ABT_THREAD_STATE_BLOCKED else ABT_THREAD_STATE_READY)) ∧
  (∀ t, t ∈ waiting s → ∃ p, cpcs s t = WEnq p ∨ cpcs s t = WRel p ∨ cpcs s t = WSleep p) ∧
  (∀ p m, mutexes (cw s) !! p = Some m → mlock m = bool_decide (is_Some (own s p))) ∧
  (∀ t f, cond_advance c Y t (cpcs s t) (cw s) = Fault f →
     f = Blocked ∧
     match cpcs s t with
     | Outside _ => True
     | WAcq _ | SAcq | BAcq => ∃ u r, u ≠ t ∧ holds_cond (cpcs s u) = true ∧ cond_advance c Y u (cpcs s u) (cw s) = Done r
     | WSleep _ => t ∈ waiting s
     | WLock p | MLock p => is_Some (own s p)
     | _ => False
     end).
Proof.
  intros H0 Hr. destruct (creachable_cinv c Y s0 s H0 Hr) as (h & l & x & Hi). split; [by eapply waiting_NoDup|]. split_and!.
  - intros t p Hc. assert (t ∈ waiting s ↔ t ∈ l.*1) as Hw.
    { rewrite (waiting_elem h l x s t Hi), Hc. split; [by intros [?|[? ?]]|by left]. }
    case_decide as Ht; rewrite Hw in Ht.
    + pose proof (wi_blocked _ _ _ (ci_wl _ _ _ _ _ _ Hi) t Ht) as Hb. by rewrite (cond_view_eq c x _ (ci_cond _ _ _ _ _ _ Hi)) in Hb.
    + destruct (ci_sleep _ _ _ _ _ _ Hi t) as [?|[_ ?]]; [by rewrite Hc|done|done].
  - intros t Ht. apply (waiting_elem h l x s t Hi) in Ht as [Ht|[p Hp]]; [|eauto].
    apply (ci_list _ _ _ _ _ _ Hi) in Ht. destruct (cpcs s t); try done; eauto.
  - intros p m Em. destruct (proj1 (ci_mutex _ _ _ _ _ _ Hi) p m Em) as (m0 & Hm & ->).
    destruct (own s p) as [u|]; [|apply Hm]. simpl. by destruct (recursive (attrs m0)).
  - intros t f Hf. pose proof (cond_advance_ok c Y h l x s t Hi) as Hp. unfold cstep_post in Hp. rewrite Hf in Hp.
    destruct Hp as [-> Hb]. split; [done|]. unfold cblocked in Hb.
    assert (is_Some h → holds_cond (cpcs s t) = false →
      ∃ u r, u ≠ t ∧ holds_cond (cpcs s u) = true ∧ cond_advance c Y u (cpcs s u) (cw s) = Done r) as Hlock.
    { intros [u Hu] Hno. destruct (holder_steps h l x s u Hi Hu) as [r Er].
      assert (holds_cond (cpcs s u) = true) as Hh by (by apply (ci_h _ _ _ _ _ _ Hi)).
      exists u, r. split; [intros ->; congruence|done]. }
    destruct (cpcs s t) eqn:Hc; auto. apply (waiting_elem h l x s t Hi). by left.
Qed.
End reach.

(** ** A run *)

(** One scheduling decision: a call ([Some]) or a step; an impossible one changes
    nothing. *)
Definition csched_step (c : ptr) (Y : list ptr) (s : csys) (e : ptr * option ccall) : csys :=
  match e with
  | (t, Some e) =>
      if is_outside (cpcs s t) then
        match begin_ccall (cw s) (own s) t e with
        | Some k => CSys (cw s) (<[t := k]> (cpcs s)) (own s) (waiting s)
        | None => s
        end
      else s
  | (t, None) =>
      match cond_advance c Y t (cpcs s t) (cw s) with
      | Done (k, w) => after s t k w
      | Fault _ => s
      end
  end.

Lemma csched_reachable c Y es s0 : creachable c Y s0 (foldl (csched_step c Y) s0 es).
Proof.
  assert (creachable c Y s0 s0) as Hr by constructor. revert Hr. generalize s0 at 2 4.
  induction es as [|[t [e|]] es IH]; intros s Hr; simpl; [done|apply IH..].
  - destruct (is_outside (cpcs s t)) eqn:Ho; [|done]. destruct (begin_ccall _ _ _ e) as [k|] eqn:Eb; [|done].
    eapply creach_step; [exact Hr|]. by eapply cstep_call.
  - destruct (cond_advance _ _ _ _ _) as [[k w]|] eqn:Ea; [|done]. eapply creach_step; [exact Hr|]. by eapply cstep_run.
Qed.

(** A condition variable at 60 and a mutex at 50; user-level threads 1 and 2 and an
    external thread with the slot 9. *)
Definition cconc_start : csys :=
  CSys (World {[ 50%positive := fresh_mutex 0 ]} ∅ {[ 60%positive := Cond false None no_waitlist 0 ]} ∅
          {[ 1%positive := ult; 2%positive := ult ]} [])
    (λ _, Outside ABT_SUCCESS) (λ _, None) [].

Lemma cconc_start_initial : cinitial 60 [1; 2]%positive cconc_start.
Proof.
  split; try done.
  - by exists 0.
  - intros p m Em. simpl in Em. apply lookup_singleton_Some in Em as [_ <-]. repeat split.
  - apply wl_start_ult.
Qed.

Definition csteps (t : ptr) (n : nat) : list (ptr * option ccall) := repeat (t, None) n.

(** Thread 1 waits; thread 2 takes the mutex as soon as it is free and signals
    while thread 1 still holds the internal lock; it has to wait until thread 1
    is in the list.  The external thread waits too and is left waiting. *)
Definition cconc_state : csys :=
  foldl (csched_step 60 [1; 2]%positive) cconc_start
    ([(1%positive, Some (CallMLock 50))] ++ csteps 1 1 ++ [(1%positive, Some (CallCondWait 50))] ++ csteps 1 3 ++
     [(2%positive, Some (CallMLock 50))] ++ csteps 2 1 ++ [(2%positive, Some CallSignal)] ++ csteps 2 1 ++
     csteps 1 2 ++ [(2%positive, Some (CallMUnlock 50)) ] ++ csteps 2 3 ++
     [(2%positive, Some (CallMUnlock 50)) ] ++ csteps 2 1 ++
     [(9%positive, Some (CallMLock 50))] ++ csteps 9 1 ++ [(9%positive, Some (CallCondWait 50))] ++ csteps 9 5).

Lemma cconc_state_pcs :
  cpcs cconc_state 1 = WSleep 50 ∧ cpcs cconc_state 9 = WSleep 50 ∧ waiting cconc_state = [9%positive].
Proof. vm_compute. split_and!; reflexivity. Qed.

Lemma cond_wait_atomic_witness :
  cpcs cconc_state 1 = WSleep 50 ∧ tstate (threads (cw cconc_state)) 1 = Some ABT_THREAD_STATE_READY ∧
  cpcs cconc_state 9 = WSleep 50 ∧ tstate (threads (cw cconc_state)) 9 = Some ABT_THREAD_STATE_BLOCKED.
Proof.
  destruct cconc_state_pcs as (H1 & H9 & Hw).
  destruct (cond_wait_atomic 60 [1; 2]%positive cconc_start cconc_state cconc_start_initial (csched_reachable _ _ _ _)) as (_ & Hs & _).
  pose proof (Hs _ _ H1) as S1. pose proof (Hs _ _ H9) as S9. rewrite Hw in S1, S9.
  exact (conj H1 (conj S1 (conj H9 S9))).
Defined.
