(* ===== verification/Rwlock.v ===== *)
(** * Read-write locks

    argobots/src/rwlock.c: a mutex and a condition variable around a count of
    readers and a flag for a writer.  First the functions; then any number of
    threads that take and release the lock, where each critical section of the
    mutex is one step ([MutexConc] shows that they exclude each other) and a wait
    on the condition variable ends the section. *)

From stdpp Require Import base tactics option list numbers gmap fin_maps functions.
From S2P Require Import Prelude.
From S2P Require Import Abt.
From S2P Require Import Thread.
From S2P Require Import Waitlist.
From S2P Require Import Mutex.
From S2P Require Import CondVar.

Definition set_reader_count (v : Z) (r : ABTI_rwlock) : ABTI_rwlock := Rwlock (rw_mutex r) (rw_cond r) v (write_flag r).
Definition set_write_flag (v : Z) (r : ABTI_rwlock) : ABTI_rwlock := Rwlock (rw_mutex r) (rw_cond r) (reader_count r) v.

(** ** The conditions and the updates inside the critical sections *)

Definition rd_must_wait (r : ABTI_rwlock) : bool := negb (Z.eqb (write_flag r) 0).
Definition wr_must_wait (r : ABTI_rwlock) : bool := negb (Z.eqb (write_flag r) 0) || negb (Z.eqb (reader_count r) 0).

(** [reader_count] is a [size_t]. *)
Definition rd_enter (r : ABTI_rwlock) : ABTI_rwlock := set_reader_count (u64 (reader_count r + 1)) r.
Definition wr_enter (r : ABTI_rwlock) : ABTI_rwlock := set_write_flag 1 r.

(** [None] where the precondition of the function is violated. *)
Definition rw_leave (r : ABTI_rwlock) : option ABTI_rwlock :=
  if negb (Z.eqb (write_flag r) 0) then Some (set_write_flag 0 r)
  else if Z.ltb 0 (reader_count r) then Some (set_reader_count (u64 (reader_count r - 1)) r)
  else None.

(** ** API *)

Definition rload (q : ptr) : C world ABTI_rwlock := λ w,
  match rwlocks w !! q with Some r => Done (r, w) | None => Fault UB end.
Definition rstore (q : ptr) (r : ABTI_rwlock) : C world unit :=
  modify (λ w, set_rwlocks (<[q := r]> (rwlocks w)) w).

(** [malloc] is the address of the lock, with those of its mutex and its
    condition variable and what they hold. *)
Definition ABT_rwlock_create (malloc : option (ptr * (ptr * ABTI_mutex) * (ptr * ABTI_cond))) : C world (Z * option ptr) :=
  match malloc with
  | None => mret (ABT_ERR_MEM, None)
  | Some (q, (p, junk), (c, cjunk)) =>
      malloc_mutex p junk;;
      modify (setc c cjunk);;
      ABTI_mutex_init p;;
      ABTI_cond_init c;;
      rstore q (Rwlock p c 0 0);;
      mret (ABT_SUCCESS, Some q)
  end.

Definition ABT_rwlock_free (h : option ptr) : C world (Z * option ptr) :=
  match h with
  | None => mret (ABT_ERR_INV_RWLOCK, None)
  | Some q =>
      r ← rload q;
      ABTI_cond_fini (rw_cond r);;
      modify (λ w, set_rwlocks (delete q (rwlocks w)) (set_conds (delete (rw_cond r) (conds w))
        (set_mutexes (delete (rw_mutex r) (mutexes w)) w)));;
      mret (ABT_SUCCESS, None)
  end.

Section rwlock.
Context (env : nat → nat → nat → C world unit) (me : self) (fuel : nat).

(** The [while] loop: [n] bounds the wake-ups, [k] counts them. *)
Fixpoint wait_while (must_wait : ABTI_rwlock → bool) (n k : nat) (q : ptr) : C world Z :=
  match n with
  | O => throw OutOfFuel
  | S n =>
      r ← rload q;
      if must_wait r then
        abt_errno ← ABTI_cond_wait (env (S k)) me fuel (rw_cond r) (rw_mutex r);
        if Z.eqb abt_errno ABT_SUCCESS then wait_while must_wait n (S k) q else mret abt_errno
      else mret ABT_SUCCESS
  end.

Definition lock_with (must_wait : ABTI_rwlock → bool) (enter : ABTI_rwlock → ABTI_rwlock) (h : option ptr) : C world Z :=
  check_null ABT_ERR_INV_RWLOCK h (λ q,
    match kind me with
    | Tasklet => mret ABT_ERR_RWLOCK
    | _ =>
        r ← rload q;
        ABTI_mutex_lock (env 0 0) me fuel (rw_mutex r);;
        abt_errno ← wait_while must_wait fuel 0 q;
        (if Z.eqb abt_errno ABT_SUCCESS then r ← rload q; rstore q (enter r) else mret ());;
        ABTI_mutex_unlock (rw_mutex r);;
        mret abt_errno
    end).

Definition ABT_rwlock_rdlock (h : option ptr) : C world Z := lock_with rd_must_wait rd_enter h.
Definition ABT_rwlock_wrlock (h : option ptr) : C world Z := lock_with wr_must_wait wr_enter h.

Definition ABT_rwlock_unlock (h : option ptr) : C world Z :=
  check_null ABT_ERR_INV_RWLOCK h (λ q,
    r ← rload q;
    ABTI_mutex_lock (env 0 0) me fuel (rw_mutex r);;
    r ← rload q;
    (match rw_leave r with
     | Some r' => rstore q r'
     | None => throw UB
     end);;
    ABTI_cond_broadcast (rw_cond r);;
    ABTI_mutex_unlock (rw_mutex r);;
    mret ABT_SUCCESS).
End rwlock.

(** ** Threads around one lock

    Every critical section of [ABT_rwlock_rdlock], [ABT_rwlock_wrlock] and
    [ABT_rwlock_unlock] is one step: a test of the wait condition followed by
    the update ([rd_enter], [wr_enter]) or by the sleep, and a release followed
    by the broadcast.  That sections exclude each other is [MutexConc]; that a
    wait gives up the mutex and joins the waiters in one step, and that a
    broadcast takes every waiter, is [CondConc].  A thread takes the lock once at
    a time: a reader that reads again while it reads is not part of the
    machine. *)

Inductive rwpos := ROut | RTest | RSleep | Reading | WTest | WSleep | Writing.

Global Instance rwpos_eq_dec : EqDecision rwpos.
Proof. solve_decision. Defined.

Record rwsys := RwSys { lk : ABTI_rwlock; rpos : ptr → rwpos }.

(** The broadcast: every sleeper tests again. *)
Definition awake (c : rwpos) : rwpos := match c with RSleep => RTest | WSleep => WTest | _ => c end.

Section rwmachine.
Context (ths : list ptr).  (* the threads *)

(** The steps: two calls, the test of a reader and of a writer with either
    result, and the release. *)
Inductive rwstep (s : rwsys) : rwsys → Prop :=
  | rw_call_rd t : t ∈ ths → rpos s t = ROut → rwstep s (RwSys (lk s) (<[t := RTest]> (rpos s)))
  | rw_call_wr t : t ∈ ths → rpos s t = ROut → rwstep s (RwSys (lk s) (<[t := WTest]> (rpos s)))
  | rw_rd_wait t : t ∈ ths → rpos s t = RTest → rd_must_wait (lk s) = true →
      rwstep s (RwSys (lk s) (<[t := RSleep]> (rpos s)))
  | rw_rd_enter t : t ∈ ths → rpos s t = RTest → rd_must_wait (lk s) = false →
      rwstep s (RwSys (rd_enter (lk s)) (<[t := Reading]> (rpos s)))
  | rw_wr_wait t : t ∈ ths → rpos s t = WTest → wr_must_wait (lk s) = true →
      rwstep s (RwSys (lk s) (<[t := WSleep]> (rpos s)))
  | rw_wr_enter t : t ∈ ths → rpos s t = WTest → wr_must_wait (lk s) = false →
      rwstep s (RwSys (wr_enter (lk s)) (<[t := Writing]> (rpos s)))
  | rw_unlock t r : t ∈ ths → rpos s t = Reading ∨ rpos s t = Writing → rw_leave (lk s) = Some r →
      rwstep s (RwSys r (awake ∘ <[t := ROut]> (rpos s))).

Inductive rwreach (p c : ptr) : rwsys → Prop :=
  | rw_start : rwreach p c (RwSys (Rwlock p c 0 0) (λ _, ROut))
  | rw_next s s' : rwreach p c s → rwstep s s' → rwreach p c s'.

(** How many threads are at [c]. *)
Definition count (c : rwpos) (f : ptr → rwpos) : nat := length (filter (λ t, f t = c) ths).

Record rwinv (s : rwsys) : Prop := {
  rw_readers : reader_count (lk s) = Z.of_nat (count Reading (rpos s));
  rw_writer : write_flag (lk s) = Z.of_nat (count Writing (rpos s));
  rw_one : (count Writing (rpos s) ≤ 1)%nat;
  rw_excl : count Writing (rpos s) = 0%nat ∨ count Reading (rpos s) = 0%nat;
  rw_rsleep : ∀ t, rpos s t = RSleep → count Writing (rpos s) ≠ 0%nat;
  rw_wsleep : ∀ t, rpos s t = WSleep → (count Writing (rpos s) + count Reading (rpos s))%nat ≠ 0%nat;
}.
End rwmachine.

(** ** Readers exclude the writer *)

Section rwproofs.
Context (ths : list ptr).
Implicit Types (f : ptr → rwpos) (c : rwpos) (t : ptr).

Definition here (c c' : rwpos) : nat := if decide (c = c') then 1%nat else 0%nat.

Lemma count_out (l : list ptr) c c' t f : t ∉ l → count l c (<[t := c']> f) = count l c f.
Proof.
  intros Ht. unfold count. induction l as [|u l IH]; [done|]. rewrite !filter_cons, fn_lookup_insert_ne by set_solver.
  case_decide; simpl; rewrite IH by set_solver; done.
Qed.

Lemma count_cons (l : list ptr) c f u : count (u :: l) c f = (here (f u) c + count l c f)%nat.
Proof. unfold count, here. rewrite filter_cons. by case_decide. Qed.

Lemma count_insert c c' t f :
  NoDup ths → t ∈ ths → (count ths c (<[t := c']> f) + here (f t) c = count ths c f + here c' c)%nat.
Proof.
  intros Hnd Ht. induction Hnd as [|u l Hu Hl IH]; [by apply elem_of_nil in Ht|].
  rewrite !count_cons. apply elem_of_cons in Ht as [->|Ht].
  - rewrite fn_lookup_insert, count_out by done. lia.
  - rewrite fn_lookup_insert_ne by (intros ->; done). specialize (IH Ht). lia.
Qed.

Lemma count_ext (l : list ptr) c f f' : (∀ u, f u = c ↔ f' u = c) → count l c f = count l c f'.
Proof. intros E. unfold count. f_equal. apply list_filter_iff. done. Qed.

Lemma count_pos c f t : t ∈ ths → f t = c → (0 < count ths c f)%nat.
Proof.
  intros Ht E. unfold count. assert (t ∈ filter (λ u, f u = c) ths) as Hin by (apply list_elem_of_filter; done).
  destruct (filter _ ths); [by apply elem_of_nil in Hin|simpl; lia].
Qed.

Lemma count_le c f : (count ths c f ≤ length ths)%nat.
Proof. unfold count. apply length_filter. Qed.

Lemma count_exists c f : (0 < count ths c f)%nat → ∃ t, t ∈ ths ∧ f t = c.
Proof.
  unfold count. destruct (filter (λ u, f u = c) ths) as [|t l] eqn:E; simpl; [lia|]. intros _. exists t.
  assert (t ∈ filter (λ u, f u = c) ths) as Hin by (rewrite E; set_solver). apply list_elem_of_filter in Hin. tauto.
Qed.

Lemma awake_held c f : c = Reading ∨ c = Writing → count ths c (awake ∘ f) = count ths c f.
Proof. intros Hc. apply count_ext. intros u. simpl. destruct Hc as [-> | ->]; by destruct (f u). Qed.

Hypothesis Hnd : NoDup ths.
Hypothesis Hsize : Z.of_nat (length ths) < 2 ^ 64.

(** A step of [t] to [c'] that keeps the two counts. *)
Lemma rwinv_move s t c' :
  rwinv ths s → t ∈ ths → rpos s t ≠ Reading → rpos s t ≠ Writing → c' ≠ Reading → c' ≠ Writing →
  (c' = RSleep → count ths Writing (rpos s) ≠ 0%nat) →
  (c' = WSleep → (count ths Writing (rpos s) + count ths Reading (rpos s))%nat ≠ 0%nat) →
  rwinv ths (RwSys (lk s) (<[t := c']> (rpos s))).
Proof.
  intros [I1 I2 I3 I4 I5 I6] Ht N1 N2 N3 N4 Hr Hw.
  pose proof (count_insert Reading c' t (rpos s) Hnd Ht) as E1. pose proof (count_insert Writing c' t (rpos s) Hnd Ht) as E2.
  unfold here in *. rewrite !decide_False in E1 by done. rewrite !decide_False in E2 by done.
  assert (count ths Reading (<[t := c']> (rpos s)) = count ths Reading (rpos s)) as F1 by lia.
  assert (count ths Writing (<[t := c']> (rpos s)) = count ths Writing (rpos s)) as F2 by lia.
  split; simpl; rewrite ?F1, ?F2; try done.
  - intros u. destruct (decide (u = t)) as [->|Hne]; [by rewrite fn_lookup_insert|rewrite fn_lookup_insert_ne by done; apply I5].
  - intros u. destruct (decide (u = t)) as [->|Hne]; [by rewrite fn_lookup_insert|rewrite fn_lookup_insert_ne by done; apply I6].
Qed.

Lemma rwinv_step s s' : rwinv ths s → rwstep ths s s' → rwinv ths s'.
Proof.
  intros Hi Hs. pose proof Hi as [I1 I2 I3 I4 I5 I6].
  destruct Hs as [t Ht Hp|t Ht Hp|t Ht Hp Hb|t Ht Hp Hb|t Ht Hp Hb|t Ht Hp Hb|t r Ht Hp Hl].
  - apply rwinv_move; rewrite ?Hp; done.
  - apply rwinv_move; rewrite ?Hp; done.
  - apply rwinv_move; rewrite ?Hp; try done. intros _ E. unfold rd_must_wait in Hb. by rewrite I2, E in Hb.
  - (* a reader enters *)
    assert (write_flag (lk s) = 0) as Hz by (unfold rd_must_wait in Hb; destruct (Z.eqb_spec (write_flag (lk s)) 0); done).
    pose proof (count_insert Reading Reading t (rpos s) Hnd Ht) as E1. pose proof (count_insert Writing Reading t (rpos s) Hnd Ht) as E2.
    unfold here in E1, E2. rewrite Hp in E1, E2. simpl in E1, E2. pose proof (count_le Reading (<[t := Reading]> (rpos s))) as Hle.
    split; simpl.
    + rewrite I1, u64_small by lia. lia.
    + lia.
    + lia.
    + left. lia.
    + intros u. destruct (decide (u = t)) as [->|Hne]; [by rewrite fn_lookup_insert|rewrite fn_lookup_insert_ne by done].
      intros Hu. specialize (I5 u Hu). lia.
    + intros u _. lia.
  - apply rwinv_move; rewrite ?Hp; try done. intros _ E. unfold wr_must_wait in Hb.
    assert (count ths Writing (rpos s) = 0%nat ∧ count ths Reading (rpos s) = 0%nat) as [E1 E2] by lia. by rewrite I1, I2, E1, E2 in Hb.
  - (* a writer enters *)
    assert (write_flag (lk s) = 0 ∧ reader_count (lk s) = 0) as [Hz Hz']
      by (unfold wr_must_wait in Hb; destruct (Z.eqb_spec (write_flag (lk s)) 0), (Z.eqb_spec (reader_count (lk s)) 0); done).
    pose proof (count_insert Reading Writing t (rpos s) Hnd Ht) as E1. pose proof (count_insert Writing Writing t (rpos s) Hnd Ht) as E2.
    unfold here in E1, E2. rewrite Hp in E1, E2. simpl in E1, E2.
    split; simpl; try lia; intros u _; lia.
  - (* leaving wakes everybody *)
    pose proof (count_insert Reading ROut t (rpos s) Hnd Ht) as E1. pose proof (count_insert Writing ROut t (rpos s) Hnd Ht) as E2.
    unfold here in E1, E2. unfold rw_leave in Hl. pose proof (count_le Reading (rpos s)) as Hle.
    assert (∀ u, (awake ∘ <[t := ROut]> (rpos s)) u ≠ RSleep ∧ (awake ∘ <[t := ROut]> (rpos s)) u ≠ WSleep) as Hns
      by (intros u; simpl; by destruct (<[t := ROut]> (rpos s) u)).
    assert ((count ths Writing (<[t := ROut]> (rpos s)) ≤ 1)%nat ∧
      reader_count r = Z.of_nat (count ths Reading (<[t := ROut]> (rpos s))) ∧
      write_flag r = Z.of_nat (count ths Writing (<[t := ROut]> (rpos s))) ∧
      (count ths Writing (<[t := ROut]> (rpos s)) = 0%nat ∨ count ths Reading (<[t := ROut]> (rpos s)) = 0%nat)) as (G1 & G2 & G3 & G4).
    { destruct Hp as [Hp|Hp]; rewrite Hp in E1, E2; simpl in E1, E2.
      - pose proof (count_pos Reading (rpos s) t Ht Hp). assert (count ths Writing (rpos s) = 0%nat) as Ew by lia.
        rewrite I2, Ew in Hl. simpl in Hl. destruct (Z.ltb_spec 0 (reader_count (lk s))); [|lia]. simplify_eq. simpl.
        rewrite u64_small by lia. lia.
      - pose proof (count_pos Writing (rpos s) t Ht Hp). destruct (Z.eqb_spec (write_flag (lk s)) 0); [lia|]. simpl in Hl. simplify_eq. simpl. lia. }
    split; simpl lk; simpl rpos; rewrite ?awake_held by auto; try done.
    + intros u Hu. by destruct (Hns u).
    + intros u Hu. by destruct (Hns u).
Qed.

Lemma rwinv_reach p cv s : rwreach ths p cv s → rwinv ths s.
Proof.
  induction 1 as [|s s' _ IH Hs]; [|by eapply rwinv_step].
  assert (∀ d, d ≠ ROut → count ths d (λ _, ROut) = 0%nat) as Hz.
  { intros d Hd. unfold count. clear -Hd. induction ths as [|u l IH]; [done|]. rewrite filter_cons_False by done. done. }
  split; simpl; rewrite ?Hz by done; try done; lia.
Qed.

(** C40: Any number of threads take and release a read-write lock: there is at most
    one writer and then no reader, the fields count exactly the threads
    inside, the release function is never called in a state it does not accept, and
    whoever sleeps waits for somebody inside, whose release wakes all. *)
Theorem rwlock_exclusion p cv s :
  rwreach ths p cv s →
  (∀ t u, t ∈ ths → u ∈ ths → rpos s t = Writing → rpos s u ≠ Reading) ∧
  (count ths Writing (rpos s) ≤ 1)%nat ∧
  reader_count (lk s) = Z.of_nat (count ths Reading (rpos s)) ∧
  write_flag (lk s) = Z.of_nat (count ths Writing (rpos s)) ∧
  (∀ t, t ∈ ths → rpos s t = Reading ∨ rpos s t = Writing → is_Some (rw_leave (lk s))) ∧
  (∀ t, rpos s t = RSleep ∨ rpos s t = WSleep → ∃ u, u ∈ ths ∧ (rpos s u = Reading ∨ rpos s u = Writing)).
Proof.
  intros Hr. destruct (rwinv_reach p cv s Hr) as [I1 I2 I3 I4 I5 I6]. split_and!; try done.
  - intros t u Ht Hu Et Eu. pose proof (count_pos _ _ _ Ht Et). pose proof (count_pos _ _ _ Hu Eu). lia.
  - intros t Ht Hp. unfold rw_leave. destruct (Z.eqb_spec (write_flag (lk s)) 0); simpl; [|done].
    destruct (Z.ltb_spec 0 (reader_count (lk s))); [done|]. exfalso.
    destruct Hp as [Hp|Hp]; pose proof (count_pos _ _ _ Ht Hp); lia.
  - intros t Hp. assert (0 < count ths Writing (rpos s) ∨ 0 < count ths Reading (rpos s))%nat as [Hc|Hc].
    { destruct Hp as [Hp|Hp]; [specialize (I5 t Hp)|specialize (I6 t Hp)]; lia. }
    + destruct (count_exists _ _ Hc) as (u & ? & ?). exists u. auto.
    + destruct (count_exists _ _ Hc) as (u & ? & ?). exists u. auto.
Qed.
End rwproofs.

(** Three threads: one writes, one reader and one writer sleep. *)
Definition rw_state : rwsys :=
  RwSys (Rwlock 5 6 0 1) (<[3%positive := WSleep]> (<[2%positive := RSleep]> (<[3%positive := WTest]> (<[2%positive := RTest]>
    (<[1%positive := Writing]> (<[1%positive := WTest]> (λ _, ROut))))))).

Lemma rw_state_reach : rwreach [1; 2; 3]%positive 5 6 rw_state.
Proof.
  eapply rw_next; [eapply rw_next; [eapply rw_next; [eapply rw_next; [eapply rw_next; [eapply rw_next; [apply rw_start|]|]|]|]|]|].
  - apply rw_call_wr with (t := 1%positive); [set_solver|reflexivity].
  - apply rw_wr_enter with (t := 1%positive); [set_solver|reflexivity|reflexivity].
  - apply rw_call_rd with (t := 2%positive); [set_solver|reflexivity].
  - apply rw_call_wr with (t := 3%positive); [set_solver|reflexivity].
  - apply rw_rd_wait with (t := 2%positive); [set_solver|reflexivity|reflexivity].
  - apply rw_wr_wait with (t := 3%positive); [set_solver|reflexivity|reflexivity].
Qed.

Lemma rwlock_exclusion_witness :
  let ths := [1; 2; 3]%positive in
  (∀ t u, t ∈ ths → u ∈ ths → rpos rw_state t = Writing → rpos rw_state u ≠ Reading) ∧
  (count ths Writing (rpos rw_state) ≤ 1)%nat ∧
  reader_count (lk rw_state) = Z.of_nat (count ths Reading (rpos rw_state)) ∧
  write_flag (lk rw_state) = Z.of_nat (count ths Writing (rpos rw_state)) ∧
  (∀ t, t ∈ ths → rpos rw_state t = Reading ∨ rpos rw_state t = Writing → is_Some (rw_leave (lk rw_state))) ∧
  (∀ t, rpos rw_state t = RSleep ∨ rpos rw_state t = WSleep → ∃ u, u ∈ ths ∧ (rpos rw_state u = Reading ∨ rpos rw_state u = Writing)).
Proof.
  intros ths. apply (rwlock_exclusion ths ltac:(apply (bool_decide_unpack _); vm_compute; exact I) ltac:(vm_compute; reflexivity) 5 6 rw_state rw_state_reach).
Defined.
