(* ===== verification/Sync.v ===== *)
(** * Barriers, eventuals and futures

    argobots/src/barrier.c, eventual.c and futures.c.  All three are a spinlock, a
    waiting list and a few fields, so an object is [obj F] with the fields [F].  A
    function that may wait is written with the way to sleep as an argument: with
    [sleep] it is the function of the API, with [enlist] it is what the function does
    up to the moment at which the caller sleeps, which is one step of a machine of
    any number of threads.  The class [Waitable] is what such an object promises; what
    sleeping and waking threads see is proved from it once. *)

From stdpp Require Import functions base tactics option list numbers gmap fin_maps.
From Stdlib Require Import ZArith Lia.
From S2P Require Import Prelude Abt Thread Waitlist Mutex.
Open Scope Z_scope.

(** ** Objects with waiters *)

(** The fields, and the waiting list with the lock and the descriptors of the threads. *)
Record obj (F : Type) := Obj { fld : F; waiters : wst }.
Arguments Obj {F} fld waiters.
Arguments fld {F} o.
Arguments waiters {F} o.

Section obj.
Context {F : Type}.

Definition set_waiters (v : wst) (o : obj F) : obj F := Obj (fld o) v.
Definition on_w {A} (m : C wst A) : C (obj F) A := on_wst waiters set_waiters m.
Definition set_fld (f : F → F) : C (obj F) unit := modify (λ o, Obj (f (fld o)) (waiters o)).
Definition acquire : C (obj F) unit := on_w (on_lock ABTD_spinlock_acquire).
Definition release : C (obj F) unit := on_w (on_lock ABTD_spinlock_release).

(** [ABTI_UB_ASSERT]: a call that breaks it is undefined. *)
Definition must (b : bool) : C (obj F) unit := if b then mret () else throw UB.

(** The whole wait, and its part before the caller sleeps. *)
Definition sleep (env : nat → C (obj F) unit) (me : self) (fuel : nat) : C (obj F) unit :=
  ABTI_waitlist_wait_and_unlock waiters set_waiters env fuel (self_ythread me) (slot me).
Definition enlist (me : self) : C wst unit :=
  match self_ythread me with
  | Some p => append p;; on_heap (store (set_state ABT_THREAD_STATE_BLOCKED) (Some p))
  | None => new_dummy (slot me);; append (slot me)
  end.

(** What a critical section ends with: the caller sleeps, or has a return code. *)
Definition sleeps (me : self) : C (obj F) (option Z) := on_w (enlist me);; release;; mret None.
Definition returns (slp : C (obj F) unit) : C (obj F) (option Z) := slp;; mret (Some ABT_SUCCESS).

(** The functions that wait refuse to run on a tasklet. *)
Definition not_on_tasklet {A} (me : self) (err : A) (k : C (obj F) A) : C (obj F) A :=
  match kind me with Tasklet => mret err | _ => k end.
End obj.

(** ** Barriers *)

Record ABTI_barrier := Barrier { num_waiters : Z; counter : Z }.

Definition set_counter (v : Z) (b : ABTI_barrier) : ABTI_barrier := Barrier (num_waiters b) v.

(** [malloc] is the fresh memory with what it happens to hold; the handle is NULL on an
    error. *)
Definition ABT_barrier_create (num_waiters : Z) (malloc : option (obj ABTI_barrier))
    : Z * option (obj ABTI_barrier) :=
  if num_waiters =? 0 then (ABT_ERR_INV_ARG, None) else
  match malloc with
  | None => (ABT_ERR_MEM, None)
  | Some o => (ABT_SUCCESS, Some (Obj (Barrier num_waiters 0)
                (set_wl (Waitlist None None 0) (set_wl_lock false (waiters o)))))
  end.

Section barrier_api.
(** Whether the handle is a barrier, [false] for ABT_BARRIER_NULL. *)
Variable handle : bool.

Definition ABT_barrier_reinit (n : Z) : C (obj ABTI_barrier) Z :=
  if negb handle then mret ABT_ERR_INV_BARRIER else
  o ← get;
  must (counter (fld o) =? 0);;
  if n =? 0 then mret ABT_ERR_INV_ARG else
  (if negb (n =? num_waiters (fld o)) then set_fld (λ b, Barrier n (counter b)) else mret ());;
  mret ABT_SUCCESS.

(** On success the handle is set to NULL and the barrier is gone. *)
Definition ABT_barrier_free : C (obj ABTI_barrier) (Z * bool) :=
  if negb handle then mret (ABT_ERR_INV_BARRIER, handle) else
  acquire;;
  o ← get;
  must (counter (fld o) =? 0);;
  mret (ABT_SUCCESS, false).

(** The critical section of [ABT_barrier_wait]; [slp] is the call of
    [ABTI_waitlist_wait_and_unlock]. *)
Definition barrier_wait (slp : C (obj ABTI_barrier) (option Z)) : C (obj ABTI_barrier) (option Z) :=
  acquire;;
  o ← get;
  c_assert (counter (fld o) <? num_waiters (fld o));;
  set_fld (λ b, set_counter (u64 (counter b + 1)) b);;
  o ← get;
  if counter (fld o) <? num_waiters (fld o) then slp
  else
    on_w ABTI_waitlist_broadcast;;
    set_fld (set_counter 0);;
    release;;
    mret (Some ABT_SUCCESS).

Definition ABT_barrier_wait (env : nat → C (obj ABTI_barrier) unit) (me : self) (fuel : nat)
    : C (obj ABTI_barrier) (option Z) :=
  if negb handle then mret (Some ABT_ERR_INV_BARRIER) else
  not_on_tasklet me (Some ABT_ERR_BARRIER) (barrier_wait (returns (sleep env me fuel))).

Definition ABT_barrier_get_num_waiters (o : obj ABTI_barrier) : Z * option Z :=
  if handle then (ABT_SUCCESS, Some (u32 (num_waiters (fld o)))) else (ABT_ERR_INV_BARRIER, None).
End barrier_api.

(** ** Eventuals *)

(** [value] is NULL or the [nbytes] bytes of the buffer. *)
Record ABTI_eventual := Eventual { ready : bool; value : option (list Z); nbytes : Z }.

Definition set_ready (v : bool) (e : ABTI_eventual) : ABTI_eventual := Eventual v (value e) (nbytes e).

(** [malloc] and [buffer] are the two allocations. *)
Definition ABT_eventual_create (n : Z) (malloc : option (obj ABTI_eventual)) (buffer : option (list Z))
    : Z * option (obj ABTI_eventual) :=
  if n <? 0 then (ABT_ERR_INV_ARG, None) else
  match malloc with
  | None => (ABT_ERR_MEM, None)
  | Some o =>
      let w := set_wl (Waitlist None None 0) (set_wl_lock false (waiters o)) in
      if n =? 0 then (ABT_SUCCESS, Some (Obj (Eventual false None n) w))
      else match buffer with
           | None => (ABT_ERR_MEM, None)
           | Some bytes => (ABT_SUCCESS, Some (Obj (Eventual false (Some bytes) n) w))
           end
  end.

(** [memcpy(buf, src, n)]: reading past the source or writing past the buffer is undefined;
    [src] is only read when there is something to copy. *)
Definition memcpy (buf : list Z) (src : option (list Z)) (n : Z) : outcome (list Z) :=
  if n =? 0 then Done buf else
  match src with
  | None => Fault UB
  | Some bytes =>
      if (n <=? Z.of_nat (length bytes)) && (n <=? Z.of_nat (length buf))
      then Done (take (Z.to_nat n) bytes ++ drop (Z.to_nat n) buf) else Fault UB
  end.

Definition copy_value (src : option (list Z)) (n : Z) : C (obj ABTI_eventual) unit := λ o,
  match value (fld o) with
  | None => Done ((), o)
  | Some buf =>
      match memcpy buf src n with
      | Done buf' => Done ((), Obj (Eventual (ready (fld o)) (Some buf') (nbytes (fld o))) (waiters o))
      | Fault f => Fault f
      end
  end.

Section eventual_api.
Variable handle : bool.

Definition ABT_eventual_free : C (obj ABTI_eventual) (Z * bool) :=
  if negb handle then mret (ABT_ERR_INV_EVENTUAL, handle) else
  acquire;;
  o ← get;
  must (ABTI_waitlist_is_empty (waiters o));;
  mret (ABT_SUCCESS, false).

Definition eventual_wait (slp : C (obj ABTI_eventual) (option Z)) : C (obj ABTI_eventual) (option Z) :=
  acquire;;
  o ← get;
  if negb (ready (fld o)) then slp else release;; mret (Some ABT_SUCCESS).

(** The second component is what is stored at [value], if anything. *)
Definition ABT_eventual_wait (env : nat → C (obj ABTI_eventual) unit) (me : self) (fuel : nat)
    : C (obj ABTI_eventual) (Z * option (option (list Z))) :=
  if negb handle then mret (ABT_ERR_INV_EVENTUAL, None) else
  not_on_tasklet me (ABT_ERR_EVENTUAL, None) (
    eventual_wait (returns (sleep env me fuel));;
    o ← get;
    mret (ABT_SUCCESS, Some (value (fld o)))).

Definition ABT_eventual_test : C (obj ABTI_eventual) (Z * option (bool * option (option (list Z)))) :=
  if negb handle then mret (ABT_ERR_INV_EVENTUAL, None) else
  acquire;;
  o ← get;
  let r := if ready (fld o) then (true, Some (value (fld o))) else (false, None) in
  release;;
  mret (ABT_SUCCESS, Some r).

Definition ABT_eventual_set (src : option (list Z)) (n : Z) : C (obj ABTI_eventual) Z :=
  must (bool_decide (is_Some src) || (n <=? 0));;
  if negb handle then mret ABT_ERR_INV_EVENTUAL else
  if n <? 0 then mret ABT_ERR_INV_ARG else
  o ← get;
  if nbytes (fld o) <? n then mret ABT_ERR_INV_EVENTUAL else
  acquire;;
  o ← get;
  if negb (ready (fld o)) then
    copy_value src n;;
    set_fld (set_ready true);;
    on_w ABTI_waitlist_broadcast;;
    release;;
    mret ABT_SUCCESS
  else release;; mret ABT_ERR_EVENTUAL.

Definition ABT_eventual_reset : C (obj ABTI_eventual) Z :=
  if negb handle then mret ABT_ERR_INV_EVENTUAL else
  acquire;;
  o ← get;
  must (ABTI_waitlist_is_empty (waiters o));;
  set_fld (set_ready false);;
  release;;
  mret ABT_SUCCESS.
End eventual_api.

(** ** Futures *)

(** [array] is what the compartments hold (values are pointers); [p_callback] says whether
    there is a callback, and [called] lists its calls with the array they were given. *)
Record ABTI_future := Future {
  fcounter : Z;
  num_compartments : Z;
  array : list Z;
  p_callback : bool;
  called : list (list Z)
}.

Definition set_fcounter (v : Z) (f : ABTI_future) : ABTI_future :=
  Future v (num_compartments f) (array f) (p_callback f) (called f).
Definition call_back (f : ABTI_future) : ABTI_future :=
  Future (fcounter f) (num_compartments f) (array f) (p_callback f) (called f ++ [array f]).

Definition ABT_future_create (n : Z) (cb_func : bool) (malloc : option (obj ABTI_future))
    (buffer : option (list Z)) : Z * option (obj ABTI_future) :=
  match malloc with
  | None => (ABT_ERR_MEM, None)
  | Some o =>
      let w := set_wl (Waitlist None None 0) (set_wl_lock false (waiters o)) in
      if 0 <? n then
        match buffer with
        | None => (ABT_ERR_MEM, None)
        | Some junk => (ABT_SUCCESS, Some (Obj (Future 0 n junk cb_func []) w))
        end
      else (ABT_SUCCESS, Some (Obj (Future 0 n [] cb_func []) w))
  end.

(** [p_future->array[i] = v] *)
Definition set_compartment (i v : Z) : C (obj ABTI_future) unit := λ o,
  let f := fld o in
  if bool_decide (Z.to_nat i < length (array f))%nat
  then Done ((), Obj (Future (fcounter f) (num_compartments f) (<[Z.to_nat i := v]> (array f))
                        (p_callback f) (called f)) (waiters o))
  else Fault UB.

Section future_api.
Variable handle : bool.

Definition ABT_future_free : C (obj ABTI_future) (Z * bool) :=
  if negb handle then mret (ABT_ERR_INV_FUTURE, handle) else
  acquire;;
  o ← get;
  must (ABTI_waitlist_is_empty (waiters o));;
  mret (ABT_SUCCESS, false).

Definition future_wait (slp : C (obj ABTI_future) (option Z)) : C (obj ABTI_future) (option Z) :=
  acquire;;
  o ← get;
  if fcounter (fld o) <? num_compartments (fld o) then slp else release;; mret (Some ABT_SUCCESS).

Definition ABT_future_wait (env : nat → C (obj ABTI_future) unit) (me : self) (fuel : nat)
    : C (obj ABTI_future) (option Z) :=
  if negb handle then mret (Some ABT_ERR_INV_FUTURE) else
  not_on_tasklet me (Some ABT_ERR_FUTURE) (future_wait (returns (sleep env me fuel))).

Definition ABT_future_test (o : obj ABTI_future) : Z * option bool :=
  if handle then (ABT_SUCCESS, Some (fcounter (fld o) =? num_compartments (fld o)))
  else (ABT_ERR_INV_FUTURE, None).

Definition ABT_future_set (v : Z) : C (obj ABTI_future) Z :=
  if negb handle then mret ABT_ERR_INV_FUTURE else
  acquire;;
  o ← get;
  let counter := fcounter (fld o) in
  let n := num_compartments (fld o) in
  if n <=? counter then release;; mret ABT_ERR_FUTURE else
  set_compartment counter v;;
  let counter := u64 (counter + 1) in
  (if (counter =? n) && p_callback (fld o) then set_fld call_back else mret ());;
  set_fld (set_fcounter counter);;
  (if counter =? n then on_w ABTI_waitlist_broadcast else mret ());;
  release;;
  mret ABT_SUCCESS.

Definition ABT_future_reset : C (obj ABTI_future) Z :=
  if negb handle then mret ABT_ERR_INV_FUTURE else
  acquire;;
  o ← get;
  must (ABTI_waitlist_is_empty (waiters o));;
  set_fld (set_fcounter 0);;
  release;;
  mret ABT_SUCCESS.
End future_api.

(** ** What an object with waiters promises

    The abstract object is its fields; an operation answers how it ends and with which fields,
    [None] if the call is undefined. *)

Inductive ans := Sleeps | Returns (e : Z) | WakesAll (e : Z).

Definition code (a : ans) : option Z :=
  match a with Sleeps => None | Returns e | WakesAll e => Some e end.

Definition is_wake (a : ans) : bool := match a with WakesAll _ => true | _ => false end.

(** The waiting list after the operation of [t], and the threads it makes ready. *)
Definition list_after (t : ptr) (a : ans) (l : list (ptr * bool)) : list (ptr * bool) :=
  match a with Sleeps => l ++ [(t, false)] | Returns _ => l | WakesAll _ => [] end.
Definition woken_by (a : ans) (l : list (ptr * bool)) : list ptr :=
  match a with WakesAll _ => l.*1 | _ => [] end.

(** The calling thread with descriptor [t]: a user-level thread or an external one. *)
Definition self_of (Y : list ptr) (t : ptr) : self :=
  Self (Zpos t) (if decide (t ∈ Y) then Ult t else ExtThread) t.

(** [crit] is the code up to the moment at which the caller sleeps or returns; [spec] the
    abstract operation, which is told whether nobody waits; [finv] relates the fields and
    the number of waiters. *)
Class Waitable (F Op : Type) := {
  crit : self → Op → C (obj F) (option Z);
  spec : Op → bool → F → option (F * ans);
  finv : F → nat → Prop;
  crit_ok X Y l t o f w f' a :
    finv f (length l) → winv Y l w → wl_lock w = false → t ∉ l.*1 → t ∉ X →
    spec o (bool_decide (l = [])) f = Some (f', a) →
    ∃ w', crit (self_of Y t) o (Obj f w) = Done (code a, Obj f' w') ∧ wl_lock w' = false ∧
      finv f' (length (list_after t a l)) ∧ winv Y (list_after t a l) w' ∧
      wstep X Y (woken_by a l) w w'
}.

(** ** Any number of threads around one object

    [asleep t] is [Some k] if [t] sleeps, since the k-th time that all were woken; [log]
    lists the calls with their outcomes. *)

Record sys (F Op : Type) := Sys {
  ob : obj F;
  asleep : ptr → option nat;
  epoch : nat;
  log : list (ptr * Op * ans)
}.
Arguments Sys {F Op} ob asleep epoch log.
Arguments ob {F Op} s.
Arguments asleep {F Op} s.
Arguments epoch {F Op} s.
Arguments log {F Op} s.

(** How often a log wakes all. *)
Definition wakes {Op} (log : list (ptr * Op * ans)) : nat :=
  length (filter (λ c : ptr * Op * ans, is_wake c.2 = true) log).

Definition next_epoch (a : ans) (k : nat) : nat := match a with WakesAll _ => S k | _ => k end.

Section machine.
Context {F Op : Type} `{!Waitable F Op} (ths Y : list ptr).

Inductive sstep (s : sys F Op) : sys F Op → Prop :=
  | s_call t o f' a r o' :
      t ∈ ths → asleep s t = None →
      spec o (ABTI_waitlist_is_empty (waiters (ob s))) (fld (ob s)) = Some (f', a) →
      crit (self_of Y t) o (ob s) = Done (r, o') →
      sstep s (Sys o' (match r with Some _ => asleep s | None => <[t := Some (epoch s)]> (asleep s) end)
                 (next_epoch a (epoch s)) (log s ++ [(t, o, a)]))
  | s_leave t k :
      asleep s t = Some k → tstate (wl_heap (waiters (ob s))) t = Some ABT_THREAD_STATE_READY →
      sstep s (Sys (ob s) (<[t := None]> (asleep s)) (epoch s) (log s)).

Definition fresh (f : F) (w : wst) : sys F Op := Sys (Obj f w) (λ _, None) 0 [].
Definition ssteps : sys F Op → sys F Op → Prop := rtc sstep.

(** The fields after the operations of a log. *)
Inductive replay (f : F) : list (ptr * Op * ans) → F → Prop :=
  | replay_nil : replay f [] f
  | replay_snoc log t o a empty f1 f2 :
      replay f log f1 → spec o empty f1 = Some (f2, a) → replay f (log ++ [(t, o, a)]) f2.

Record sinv (f0 : F) (s : sys F Op) (l : list (ptr * bool)) : Prop := {
  si_list : winv Y l (waiters (ob s));
  si_lock : wl_lock (waiters (ob s)) = false;
  si_fields : finv (fld (ob s)) (length l);
  si_here : ∀ t, t ∈ l.*1 ↔ asleep s t = Some (epoch s);
  si_ths : ∀ t k, asleep s t = Some k → t ∈ ths ∧ (k ≤ epoch s)%nat;
  si_ready : ∀ t k, asleep s t = Some k → (k < epoch s)%nat →
    tstate (wl_heap (waiters (ob s))) t = Some ABT_THREAD_STATE_READY;
  si_epoch : epoch s = wakes (log s);
  si_replay : replay f0 (log s) (fld (ob s))
}.

Lemma wakes_snoc (lg : list (ptr * Op * ans)) t o a : wakes (lg ++ [(t, o, a)]) = next_epoch a (wakes lg).
Proof. unfold wakes. rewrite list.filter_app, length_app. destruct a; simpl; lia. Qed.

Lemma is_empty_list l w : winv Y l w → ABTI_waitlist_is_empty w = bool_decide (l = []).
Proof.
  intros Hw. unfold ABTI_waitlist_is_empty. rewrite (wrep_head _ _ _ (wi_rep _ _ _ Hw)). by destruct l as [|[??] ?].
Qed.

(** A call of a thread that is awake does what the abstract operation does. *)
Lemma sys_call_ok f0 s l t o f' a :
  sinv f0 s l → t ∈ ths → asleep s t = None →
  spec o (ABTI_waitlist_is_empty (waiters (ob s))) (fld (ob s)) = Some (f', a) →
  ∃ w', crit (self_of Y t) o (ob s) = Done (code a, Obj f' w') ∧ wl_lock w' = false ∧
    finv f' (length (list_after t a l)) ∧ winv Y (list_after t a l) w' ∧
    wstep (filter (λ u, u ≠ t) ths) Y (woken_by a l) (waiters (ob s)) w'.
Proof.
  intros Hi Ht Ha Hs. rewrite (is_empty_list l) in Hs by apply Hi. destruct s as [[f w] sl ep lg]. simpl in *.
  eapply crit_ok; [apply Hi|apply Hi|apply Hi| | |done].
  - intros Hin. apply (si_here _ _ _ Hi) in Hin. simpl in *. congruence.
  - intros [? _]%list_elem_of_filter. done.
Qed.

Lemma sinv_step f0 s s' l : sinv f0 s l → sstep s s' → ∃ l', sinv f0 s' l'.
Proof.
  intros Hi Hs. destruct Hs as [t o f' a r o' Ht Ha Hsp Hc|t k Ha Hr].
  - destruct (sys_call_ok f0 s l t o f' a Hi Ht Ha Hsp) as (w' & E & Hlk & Hf & Hw & Hst).
    rewrite E in Hc. injection Hc as <- <-. exists (list_after t a l).
    assert (Hold : ∀ u k, asleep s u = Some k → u ∈ filter (λ u, u ≠ t) ths).
    { intros u k Hu. apply list_elem_of_filter. split; [congruence|]. by eapply (si_ths _ _ _ Hi). }
    assert (Hrep : replay f0 (log s ++ [(t, o, a)]) f') by (eapply replay_snoc; [apply Hi|done]).
    assert (Hkeep : ∀ u k, asleep s u = Some k → (k < epoch s)%nat →
      tstate (wl_heap w') u = Some ABT_THREAD_STATE_READY).
    { intros u k Hu Hk. rewrite (ws_state _ _ _ _ _ Hst); [by eapply (si_ready _ _ _ Hi)| |by eapply Hold].
      assert (u ∉ l.*1) by (intros Hin%(si_here _ _ _ Hi); assert (k = epoch s) by congruence; lia).
      destruct a; simpl; [set_solver|set_solver|done]. }
    assert (Hep : next_epoch a (epoch s) = wakes (log s ++ [(t, o, a)])) by (rewrite wakes_snoc; f_equal; apply Hi).
    destruct a as [|e|e]; simpl in *; split; simpl; try done.
    + intros u. rewrite fmap_app, elem_of_app. simpl. rewrite list_elem_of_singleton, (si_here _ _ _ Hi).
      destruct (decide (u = t)) as [->|Hne]; [rewrite fn_lookup_insert; naive_solver|].
      rewrite fn_lookup_insert_ne by done. naive_solver.
    + intros u k. destruct (decide (u = t)) as [->|Hne].
      * rewrite fn_lookup_insert. intros [= <-]. done.
      * rewrite fn_lookup_insert_ne by done. apply Hi.
    + intros u k. destruct (decide (u = t)) as [->|Hne].
      * rewrite fn_lookup_insert. intros [= <-]. lia.
      * rewrite fn_lookup_insert_ne by done. apply Hkeep.
    + apply Hi.
    + apply Hi.
    + intros u. split; [by intros ?%elem_of_nil|]. intros Hu%(si_ths _ _ _ Hi). lia.
    + intros u k Hu%(si_ths _ _ _ Hi). destruct Hu. split; [done|lia].
    + intros u k Hu Hk. destruct (decide (k = epoch s)) as [->|Hne].
      * apply (ws_ready _ _ _ _ _ Hst); [by apply (si_here _ _ _ Hi)|by eapply Hold].
      * apply (Hkeep u k); [done|lia].
  - exists l. destruct Hi as [I1 I2 I3 I4 I5 I6 I7 I8]. split; simpl; try done.
    + intros u. rewrite I4. destruct (decide (u = t)) as [->|Hne]; [|by rewrite fn_lookup_insert_ne by done].
      rewrite fn_lookup_insert. split; [|done]. intros Hu.
      pose proof (wi_blocked _ _ _ I1 t ltac:(by apply I4)). congruence.
    + intros u j. destruct (decide (u = t)) as [->|Hne]; [by rewrite fn_lookup_insert|rewrite fn_lookup_insert_ne by done; apply I5].
    + intros u j. destruct (decide (u = t)) as [->|Hne]; [by rewrite fn_lookup_insert|rewrite fn_lookup_insert_ne by done; apply I6].
Qed.

Lemma sinv_fresh f w : finv f 0 → winv Y [] w → wl_lock w = false → sinv f (fresh f w) [].
Proof.
  intros Hf Hw Hl. split; simpl; try done; [|constructor]. intros t. by rewrite elem_of_nil.
Qed.

Lemma sinv_reach f w s : finv f 0 → winv Y [] w → wl_lock w = false → ssteps (fresh f w) s → ∃ l, sinv f s l.
Proof.
  intros Hf Hw Hl Hs. assert (H0 : ∃ l, sinv f (fresh f w) l) by (exists []; by apply sinv_fresh).
  revert H0. induction Hs as [s|s s1 s2 Hs _ IH]; [done|]. intros [l H0]. apply IH. by eapply sinv_step.
Qed.

(** What the threads see: whoever fell asleep before the last time all were woken is ready,
    the others are blocked, and a call whose abstract operation is defined completes. *)
Definition sleepers_exact (s : sys F Op) : Prop :=
  (∀ t k, asleep s t = Some k → (k ≤ epoch s)%nat ∧
     tstate (wl_heap (waiters (ob s))) t =
       Some (if decide (k < epoch s)%nat then ABT_THREAD_STATE_READY else ABT_THREAD_STATE_BLOCKED)) ∧
  (∀ t o f' a, t ∈ ths → asleep s t = None →
     spec o (ABTI_waitlist_is_empty (waiters (ob s))) (fld (ob s)) = Some (f', a) →
     ∃ w', crit (self_of Y t) o (ob s) = Done (code a, Obj f' w')).

Lemma sinv_exact f0 s l : sinv f0 s l → sleepers_exact s.
Proof.
  intros Hi. split.
  - intros t k Ha. destruct (si_ths _ _ _ Hi _ _ Ha) as [_ Hk]. split; [done|].
    case_decide; [by eapply (si_ready _ _ _ Hi)|]. apply (wi_blocked _ _ _ (si_list _ _ _ Hi)).
    apply (si_here _ _ _ Hi). by assert (k = epoch s) as <- by lia.
  - intros t o f' a Ht Ha Hs. destruct (sys_call_ok f0 s l t o f' a Hi Ht Ha Hs) as (w' & E & _). by exists w'.
Qed.

(** The waiters are the sleepers of the current epoch. *)
Lemma sinv_count f0 s l :
  NoDup ths → sinv f0 s l → length l = length (filter (λ t, asleep s t = Some (epoch s)) ths).
Proof.
  intros Hnd Hi. rewrite <- (length_fmap fst l). apply Permutation_length, NoDup_Permutation.
  - apply (wrep_nodup _ _ _ (wi_rep _ _ _ (si_list _ _ _ Hi))).
  - by apply NoDup_filter.
  - intros t. rewrite list_elem_of_filter, (si_here _ _ _ Hi). split; [|naive_solver].
    intros Ha. split; [done|]. by eapply (si_ths _ _ _ Hi).
Qed.
End machine.

(** ** From the critical section to the whole call *)

Section whole_call.
Context {F : Type}.
Implicit Types (o : obj F) (w v : wst).

Lemma on_w_run {A} (m : C wst A) o a v : m (waiters o) = Done (a, v) → on_w m o = Done (a, set_waiters v o).
Proof. intros E. unfold on_w, on_wst, zoom. by rewrite E. Qed.

Lemma obj_acquire_run o : wl_lock (waiters o) = false → acquire o = Done ((), set_waiters (set_wl_lock true (waiters o)) o).
Proof. intros E. apply on_w_run. by apply wl_acquire_run. Qed.

Lemma obj_release_run o : release o = Done ((), set_waiters (set_wl_lock false (waiters o)) o).
Proof. done. Qed.

Lemma on_w_ready t o st :
  tstate (wl_heap (waiters o)) t = Some st →
  on_wst waiters set_waiters (Waitlist.ready t) o = Done (bool_decide (st = ABT_THREAD_STATE_READY), o).
Proof. intros E. unfold on_wst, zoom. rewrite (ready_run t st _ E). by destruct o. Qed.

Lemma slot_of Y t : slot (self_of Y t) = t.
Proof. done. Qed.

(** If the caller is enlisted, and is ready when the others have run, the wait is over. *)
Lemma sleeps_returns Y t env fuel o o1 o2 :
  wl_lock (waiters o) = true → (0 < fuel)%nat →
  sleeps (self_of Y t) o = Done (None, o1) →
  tstate (wl_heap (waiters o1)) t = Some ABT_THREAD_STATE_BLOCKED →
  env 0%nat o1 = Done ((), o2) → tstate (wl_heap (waiters o2)) t = Some ABT_THREAD_STATE_READY →
  returns (sleep env (self_of Y t) fuel) o = Done (Some ABT_SUCCESS, o2).
Proof.
  intros Hlk Hf Hs Hb He Hr. unfold sleeps in Hs. apply C_bind_Done_inv in Hs as ([] & oa & Ea & Hs).
  rewrite (C_bind_Done _ _ _ _ _ (obj_release_run oa)) in Hs. injection Hs as Hs.
  assert (Eo : oa = set_waiters (waiters oa) o) by
    (unfold on_w, on_wst, zoom in Ea; destruct (enlist _ (waiters o)) as [[[] v]|]; [injection Ea as <-; done|done]).
  assert (El : enlist (self_of Y t) (waiters o) = Done ((), waiters oa)) by
    (unfold on_w, on_wst, zoom in Ea; destruct (enlist _ (waiters o)) as [[[] v]|]; [injection Ea as <-; done|done]).
  unfold returns. rewrite (C_bind_Done _ _ _ () o2); [done|].
  unfold sleep, ABTI_waitlist_wait_and_unlock.
  rewrite (C_bind_Done _ _ o true o).
  2:{ unfold on_wst, on_lock, zoom, ABTD_spinlock_is_locked, get. rewrite Hlk. by destruct o as [f [? ? ? ?]]; simpl in *; subst. }
  rewrite (C_bind_Done _ _ o () o) by done. rewrite slot_of.
  assert (Hrel : on_wst waiters set_waiters (on_lock ABTD_spinlock_release) oa = Done ((), o1)) by (by rewrite <- Hs).
  assert (Hrdy : on_wst waiters set_waiters (Waitlist.ready t) o2 = Done (true, o2)) by (by rewrite (on_w_ready t o2 _ Hr)).
  unfold enlist, self_ythread, self_of in *. simpl in *. destruct (decide (t ∈ Y)); simpl in *.
  - apply C_bind_Done_inv in El as ([] & va & E1 & E2).
    rewrite (C_bind_Done _ _ o () (set_waiters va o)) by (by apply on_w_run).
    unfold ythread_suspend_unlock. rewrite (C_bind_Done _ _ _ () oa) by (rewrite Eo; by apply (on_w_run _ (set_waiters va o))).
    by rewrite (C_bind_Done _ _ _ _ _ Hrel), (C_bind_Done _ _ _ _ _ He), (C_bind_Done _ _ _ _ _ Hrdy).
  - apply C_bind_Done_inv in El as ([] & va & E1 & E2).
    rewrite (C_bind_Done _ _ o () (set_waiters va o)) by (by apply on_w_run).
    rewrite (C_bind_Done _ _ _ () oa) by (rewrite Eo; by apply (on_w_run _ (set_waiters va o))).
    destruct fuel as [|fuel]; [lia|]. cbn [ext_wait].
    rewrite (C_bind_Done _ _ oa false oa).
    2:{ rewrite (on_w_ready t oa ABT_THREAD_STATE_BLOCKED); [done|]. rewrite <- Hs in Hb. exact Hb. }
    by rewrite (C_bind_Done _ _ _ _ _ Hrel), (C_bind_Done _ _ _ _ _ He), (C_bind_Done _ _ _ _ _ Hrdy).
Qed.

(** Locks do not matter for what a step does to the threads. *)
Lemma wstep_relock X Y k v v' w w' :
  wstep X Y k v v' → wl_heap v = wl_heap w → resumed v = resumed w → wl_heap v' = wl_heap w' →
  resumed v' = resumed w' → wl_lock w' = wl_lock w → wstep X Y k w w'.
Proof. intros [H1 H2 H3 H4] E1 E2 E3 E4 E5. split; [done|..]; by rewrite <- ?E1, <- ?E2, <- ?E3, <- ?E4. Qed.

(** Enlisting and broadcasting, as operations on the list. *)
Lemma sleeps_ok X Y l t o :
  winv Y l (waiters o) → t ∉ l.*1 → t ∉ X →
  ∃ w', sleeps (self_of Y t) o = Done (None, set_waiters w' o) ∧ wl_lock w' = false ∧
    winv Y (l ++ [(t, false)]) w' ∧ wstep X Y [] (set_wl_lock false (waiters o)) w'.
Proof.
  intros Hw Ht HtX.
  assert (abs_step X Y (if decide (t ∈ Y) then Suspend t else Sleep t) l = Some ([], l ++ [(t, false)])) as Habs.
  { destruct (decide (t ∈ Y)); simpl; by rewrite decide_True. }
  destruct (wop_ok X Y _ l _ _ _ Habs Hw) as (v & E & Hv & Hst).
  exists (set_wl_lock false v). split_and!; [|done|by apply winv_lock|].
  - unfold sleeps. rewrite (C_bind_Done _ _ _ () (set_waiters v o)); [by rewrite (C_bind_Done _ _ _ _ _ (obj_release_run _))|].
    apply on_w_run. unfold enlist, self_ythread, self_of. simpl. by destruct (decide (t ∈ Y)).
  - by eapply wstep_relock.
Qed.

Lemma wake_all_ok X Y l o :
  winv Y l (waiters o) →
  ∃ w', on_w ABTI_waitlist_broadcast o = Done ((), set_waiters w' o) ∧ winv Y [] w' ∧ wstep X Y l.*1 (waiters o) w'.
Proof.
  intros Hw. destruct (wop_ok X Y Broadcast l _ _ _ eq_refl Hw) as (v & E & Hv & Hst).
  exists v. split_and!; [by apply on_w_run|done|done].
Qed.

Lemma wstep_refl X Y w : wstep X Y [] w w.
Proof. split; [done|by rewrite app_nil_r|intros ? []%elem_of_nil|done]. Qed.
End whole_call.

(** ** Barriers *)

(** An arrival: the caller sleeps, the last one wakes all. *)
Definition barrier_spec (b : ABTI_barrier) : option (ABTI_barrier * ans) :=
  if counter b <? num_waiters b then
    if counter b + 1 <? num_waiters b then Some (set_counter (counter b + 1) b, Sleeps)
    else Some (set_counter 0 b, WakesAll ABT_SUCCESS)
  else None.

Definition barrier_inv (b : ABTI_barrier) (k : nat) : Prop :=
  counter b = Z.of_nat k ∧ counter b < num_waiters b < 2 ^ 32.

Lemma barrier_crit_ok X Y l t f w f' a :
  barrier_inv f (length l) → winv Y l w → wl_lock w = false → t ∉ l.*1 → t ∉ X →
  barrier_spec f = Some (f', a) →
  ∃ w', barrier_wait (sleeps (self_of Y t)) (Obj f w) = Done (code a, Obj f' w') ∧ wl_lock w' = false ∧
    barrier_inv f' (length (list_after t a l)) ∧ winv Y (list_after t a l) w' ∧
    wstep X Y (woken_by a l) w w'.
Proof.
  intros [Hc Hn] Hw Hlk Ht HtX. unfold barrier_spec, barrier_wait.
  destruct (Z.ltb_spec (counter f) (num_waiters f)) as [_|]; [|lia].
  rewrite (C_bind_Done _ _ _ _ _ (obj_acquire_run (Obj f w) Hlk)).
  rewrite (C_bind_Done _ _ _ (Obj f (set_wl_lock true w)) (Obj f (set_wl_lock true w))) by done. simpl fld.
  rewrite (C_bind_Done _ _ _ () (Obj f (set_wl_lock true w))).
  2:{ by destruct (Z.ltb_spec (counter f) (num_waiters f)); [|lia]. }
  set (f1 := set_counter (counter f + 1) f). set (o1 := Obj f1 (set_wl_lock true w)).
  rewrite (C_bind_Done _ _ _ () o1).
  2:{ unfold set_fld, modify, o1, f1. simpl. by rewrite u64_small by lia. }
  rewrite (C_bind_Done _ _ o1 o1 o1) by done. cbn [fld o1 f1 set_counter counter num_waiters].
  assert (Hw1 : winv Y l (waiters o1)) by (by apply winv_lock).
  destruct (Z.ltb_spec (counter f + 1) (num_waiters f)) as [Hlt|Hge]; intros [= <- <-]; simpl.
  - destruct (sleeps_ok X Y l t o1 Hw1 Ht HtX) as (w' & E & Hl' & Hw' & Hst). exists w'. split_and!; try done.
    + split; simpl; [rewrite length_app; simpl; lia|lia].
    + eapply wstep_relock; [exact Hst|done..|by rewrite Hlk].
  - destruct (wake_all_ok X Y l o1 Hw1) as (w' & E & Hw' & Hst). exists (set_wl_lock false w').
    split_and!; [|done|split; simpl; lia|by apply winv_lock|].
    + rewrite (C_bind_Done _ _ _ _ _ E). rewrite (C_bind_Done _ _ _ () (Obj (set_counter 0 f) w')) by done. done.
    + eapply wstep_relock; [exact Hst|done..|by rewrite Hlk].
Qed.

Global Instance barrier_waitable : Waitable ABTI_barrier unit := {|
  crit me _ := barrier_wait (sleeps me);
  spec _ _ := barrier_spec;
  finv := barrier_inv;
  crit_ok X Y l t o f w f' a := barrier_crit_ok X Y l t f w f' a
|}.

(** The call of the API runs the critical section and then waits. *)
Lemma barrier_wait_whole Y t env fuel o r o1 :
  barrier_wait (sleeps (self_of Y t)) o = Done (r, o1) →
  match r with
  | Some e => ABT_barrier_wait true env (self_of Y t) fuel o = Done (Some e, o1)
  | None => ∀ o2, (0 < fuel)%nat → tstate (wl_heap (waiters o1)) t = Some ABT_THREAD_STATE_BLOCKED →
      env 0%nat o1 = Done ((), o2) → tstate (wl_heap (waiters o2)) t = Some ABT_THREAD_STATE_READY →
      ABT_barrier_wait true env (self_of Y t) fuel o = Done (Some ABT_SUCCESS, o2)
  end.
Proof.
  intros E.
  assert (Hapi : ABT_barrier_wait true env (self_of Y t) fuel o = barrier_wait (returns (sleep env (self_of Y t) fuel)) o).
  { unfold ABT_barrier_wait, not_on_tasklet, self_of. simpl. by destruct (decide (t ∈ Y)). }
  rewrite Hapi. clear Hapi. unfold barrier_wait in *.
  apply C_bind_Done_inv in E as ([] & o1' & Ea & E).
  assert (wl_lock (waiters o1') = true) as Hlk.
  { unfold acquire, on_w, on_wst, on_lock, zoom, ABTD_spinlock_acquire in Ea.
    destruct (wl_lock (waiters o)); [done|]. by injection Ea as <-. }
  apply C_bind_Done_inv in E as (? & ? & [= <- <-] & E).
  apply C_bind_Done_inv in E as ([] & ob2 & Ec & E).
  assert (ob2 = o1') as -> by (unfold c_assert in Ec; destruct (_ <? _); [by injection Ec|done]).
  apply C_bind_Done_inv in E as ([] & ob3 & Es & E). apply C_bind_Done_inv in E as (? & ? & [= <- <-] & E).
  assert (wl_lock (waiters ob3) = true) as Hlk3 by (unfold set_fld, modify in Es; by injection Es as <-).
  assert (Hpre : ∀ (m : C (obj ABTI_barrier) (option Z)),
    (acquire;; o ← get; c_assert (counter (fld o) <? num_waiters (fld o));;
     set_fld (λ b, set_counter (u64 (counter b + 1)) b);; m) o = m ob3).
  { intros m. rewrite (C_bind_Done _ _ _ _ _ Ea), (C_bind_Done _ _ o1' o1' o1') by done.
    by rewrite (C_bind_Done _ _ _ _ _ Ec), (C_bind_Done _ _ _ _ _ Es). }
  rewrite Hpre, (C_bind_Done _ _ ob3 ob3 ob3) by done. destruct (counter (fld ob3) <? num_waiters (fld ob3)).
  - assert (r = None) as -> by (apply C_bind_Done_inv in E as ([] & ? & _ & E);
      rewrite (C_bind_Done _ _ _ _ _ (obj_release_run _)) in E; by injection E).
    intros o2 Hf Hb He Hr. by eapply sleeps_returns.
  - destruct r; [done|]. exfalso. do 2 apply C_bind_Done_inv in E as ([] & ? & _ & E).
    rewrite (C_bind_Done _ _ _ _ _ (obj_release_run _)) in E. done.
Qed.

Lemma barrier_replay n lg b :
  0 < n < 2 ^ 32 → replay (Op := unit) (Barrier n 0) lg b →
  num_waiters b = n ∧ 0 ≤ counter b < n ∧ Z.of_nat (length lg) = n * Z.of_nat (wakes lg) + counter b.
Proof.
  intros Hn. induction 1 as [|lg t o a e f1 f2 _ (E1 & E2 & E3) Hs].
  { change (wakes []) with 0%nat. simpl. lia. }
  rewrite wakes_snoc, length_app. simpl. simpl in Hs. unfold barrier_spec in Hs.
  destruct (Z.ltb_spec (counter f1) (num_waiters f1)); [|done].
  destruct (Z.ltb_spec (counter f1 + 1) (num_waiters f1)); injection Hs as <- <-; simpl; lia.
Qed.

(** C19: any number of threads, user-level and external ones, around a barrier for [n]: when
    the threads have called [ABT_barrier_wait] [k] times in all, [k / n] rounds are over and
    [k mod n] threads of the current one are blocked.  A thread that arrived in a round
    that is over is ready to run, one of the current round is blocked.  A thread that
    arrives is either the n-th of the round, then it returns and wakes the others, or it sleeps
    and returns once the n-th of its round has arrived; it never fails. *)
Theorem barrier_rounds ths Y n w s :
  NoDup ths → 0 < n < 2 ^ 32 → winv Y [] w → wl_lock w = false →
  ssteps ths Y (fresh (Barrier n 0) w) s →
  let b := fld (ob s) in
  num_waiters b = n ∧
  Z.of_nat (epoch s) = Z.of_nat (length (log s)) / n ∧
  counter b = Z.of_nat (length (log s)) mod n ∧
  counter b = Z.of_nat (length (filter (λ t, asleep s t = Some (epoch s)) ths)) ∧
  (∀ t k, asleep s t = Some k → (k ≤ epoch s)%nat ∧
     tstate (wl_heap (waiters (ob s))) t =
       Some (if decide (k < epoch s)%nat then ABT_THREAD_STATE_READY else ABT_THREAD_STATE_BLOCKED)) ∧
  (∀ t, t ∈ ths → asleep s t = None →
     ∃ o1, barrier_wait (sleeps (self_of Y t)) (ob s)
           = Done (if counter b + 1 =? n then Some ABT_SUCCESS else None, o1) ∧
       ∀ env fuel, (0 < fuel)%nat →
         if counter b + 1 =? n
         then ABT_barrier_wait true env (self_of Y t) fuel (ob s) = Done (Some ABT_SUCCESS, o1)
         else ∀ o2, env 0%nat o1 = Done ((), o2) →
           tstate (wl_heap (waiters o2)) t = Some ABT_THREAD_STATE_READY →
           ABT_barrier_wait true env (self_of Y t) fuel (ob s) = Done (Some ABT_SUCCESS, o2)).
Proof.
  intros Hnd Hn Hw Hlk Hs b.
  destruct (sinv_reach ths Y (Barrier n 0) w s) as [l Hi]; [split; simpl; lia|done..|].
  destruct (barrier_replay n (log s) b Hn (si_replay _ _ _ _ _ Hi)) as (E1 & E2 & E3).
  destruct (sinv_exact _ _ _ _ _ Hi) as [Hsl Hcall]. rewrite <- (si_epoch _ _ _ _ _ Hi) in E3.
  split_and!; [done| | | |done|].
  - by apply (Z.div_unique_pos _ _ _ (counter b)).
  - by apply (Z.mod_unique_pos _ _ (Z.of_nat (epoch s))).
  - rewrite <- (sinv_count ths Y _ s l Hnd Hi). apply (si_fields _ _ _ _ _ Hi).
  - intros t Ht Ha.
    assert (Hspec : barrier_spec b = Some (if counter b + 1 =? n then (set_counter 0 b, WakesAll ABT_SUCCESS)
                                           else (set_counter (counter b + 1) b, Sleeps))).
    { unfold barrier_spec. destruct (Z.ltb_spec (counter b) (num_waiters b)); [|lia].
      destruct (Z.ltb_spec (counter b + 1) (num_waiters b)), (Z.eqb_spec (counter b + 1) n); try done; lia. }
    destruct (counter b + 1 =? n); destruct (sys_call_ok _ _ _ s l t tt _ _ Hi Ht Ha Hspec) as (w' & E & _ & _ & Hw' & _);
      eexists; split; [exact E|..|exact E|]; intros env fuel Hf.
    + apply (barrier_wait_whole Y t env fuel _ _ _ E).
    + intros o2 He Hr. apply (barrier_wait_whole Y t env fuel _ _ _ E); try done.
      apply (wi_blocked _ _ _ Hw'). simpl. rewrite fmap_app. set_solver.
Qed.

(** A barrier for two that the user-level thread 1 has arrived at; the thread 11 is
    external. *)
Lemma barrier_rounds_witness :
  ∃ s, ssteps (Op := unit) [1; 11]%positive [1; 2]%positive (fresh (Barrier 2 0) wl_start) s ∧
    asleep s 1%positive = Some 0%nat ∧ counter (fld (ob s)) = 1 ∧
    counter (fld (ob s)) = Z.of_nat (length (filter (λ t, asleep s t = Some (epoch s)) [1; 11]%positive)).
Proof.
  set (o1 := match barrier_wait (sleeps (self_of [1; 2]%positive 1)) (Obj (Barrier 2 0) wl_start) with
             | Done (_, o) => o | Fault _ => Obj (Barrier 2 0) wl_start end).
  assert (Hs : ssteps (Op := unit) [1; 11]%positive [1; 2]%positive (fresh (Barrier 2 0) wl_start)
    (Sys o1 (<[1%positive := Some 0%nat]> (λ _, None)) 0 [(1%positive, tt, Sleeps)])).
  { apply rtc_once. apply (s_call _ _ (fresh (Barrier 2 0) wl_start) 1%positive tt (Barrier 2 1) Sleeps None o1);
      [left|reflexivity|reflexivity|vm_compute; reflexivity]. }
  eexists. split; [exact Hs|]. split; [reflexivity|]. split; [vm_compute; reflexivity|].
  eapply (barrier_rounds [1; 11]%positive [1; 2]%positive 2 wl_start); [| | | |exact Hs].
  - apply (bool_decide_unpack _). vm_compute. exact I.
  - lia.
  - apply (winv_init _ wl_start wl_start_ult).
  - reflexivity.
Defined.

(** ** Waiting until a condition holds, as eventuals and futures do *)

Section gate.
Context {F : Type} (closed : F → bool).

Definition gate_wait (slp : C (obj F) (option Z)) : C (obj F) (option Z) :=
  acquire;; o ← get; if closed (fld o) then slp else release;; mret (Some ABT_SUCCESS).

Lemma gate_run slp f w :
  wl_lock w = false →
  gate_wait slp (Obj f w) =
    if closed f then slp (Obj f (set_wl_lock true w)) else Done (Some ABT_SUCCESS, Obj f w).
Proof.
  intros Hlk. unfold gate_wait. rewrite (C_bind_Done _ _ _ _ _ (obj_acquire_run (Obj f w) Hlk)).
  rewrite (C_bind_Done _ _ _ (Obj f (set_wl_lock true w)) (Obj f (set_wl_lock true w))) by done.
  cbn [fld]. destruct (closed f); [done|]. rewrite (C_bind_Done _ _ _ _ _ (obj_release_run _)).
  do 2 f_equal. unfold set_waiters, set_wl_lock. simpl. f_equal. destruct w; simpl in *; by subst.
Qed.

Lemma gate_ok X Y l t f w :
  winv Y l w → wl_lock w = false → t ∉ l.*1 → t ∉ X →
  ∃ w', gate_wait (sleeps (self_of Y t)) (Obj f w)
        = Done (code (if closed f then Sleeps else Returns ABT_SUCCESS), Obj f w') ∧
    wl_lock w' = false ∧ winv Y (if closed f then l ++ [(t, false)] else l) w' ∧ wstep X Y [] w w'.
Proof.
  intros Hw Hlk Ht HtX. rewrite gate_run by done. destruct (closed f); [|by exists w; auto using wstep_refl].
  destruct (sleeps_ok X Y l t (Obj f (set_wl_lock true w)) (winv_lock _ _ _ _ Hw) Ht HtX) as (w' & E & Hl' & Hw' & Hst).
  exists w'. split_and!; try done. eapply wstep_relock; [exact Hst|done..|by rewrite Hlk].
Qed.

(** The whole wait. *)
Lemma gate_whole Y t env fuel f w r o1 :
  wl_lock w = false → (0 < fuel)%nat →
  gate_wait (sleeps (self_of Y t)) (Obj f w) = Done (r, o1) →
  if closed f
  then ∀ o2, tstate (wl_heap (waiters o1)) t = Some ABT_THREAD_STATE_BLOCKED →
      env 0%nat o1 = Done ((), o2) → tstate (wl_heap (waiters o2)) t = Some ABT_THREAD_STATE_READY →
      gate_wait (returns (sleep env (self_of Y t) fuel)) (Obj f w) = Done (Some ABT_SUCCESS, o2)
  else gate_wait (returns (sleep env (self_of Y t) fuel)) (Obj f w) = Done (Some ABT_SUCCESS, o1).
Proof.
  intros Hlk Hf E. rewrite !gate_run in * by done. destruct (closed f).
  - intros o2 Hb He Hr. eapply (sleeps_returns Y t env fuel _ o1); [done|done| |done..].
    assert (r = None) as ->; [|done]. apply C_bind_Done_inv in E as ([] & ? & _ & E).
    rewrite (C_bind_Done _ _ _ _ _ (obj_release_run _)) in E. by injection E.
  - by injection E as <- <-.
Qed.
End gate.

Lemma not_on_tasklet_run {F A} Y t (x : A) (k : C (obj F) A) : not_on_tasklet (self_of Y t) x k = k.
Proof. unfold not_on_tasklet, self_of. simpl. by destruct (decide (t ∈ Y)). Qed.

(** ** Eventuals *)

Inductive eventual_op := EWait | ETest | ESet (src : option (list Z)) (n : Z) | EReset.

Definition eventual_spec (o : eventual_op) (empty : bool) (e : ABTI_eventual) : option (ABTI_eventual * ans) :=
  match o with
  | EWait => Some (e, if negb (ready e) then Sleeps else Returns ABT_SUCCESS)
  | ETest => Some (e, Returns ABT_SUCCESS)
  | ESet src n =>
      if bool_decide (is_Some src) || (n <=? 0) then
        if n <? 0 then Some (e, Returns ABT_ERR_INV_ARG)
        else if nbytes e <? n then Some (e, Returns ABT_ERR_INV_EVENTUAL)
        else if ready e then Some (e, Returns ABT_ERR_EVENTUAL)
        else match value e with
             | None => Some (Eventual true None (nbytes e), WakesAll ABT_SUCCESS)
             | Some buf =>
                 match memcpy buf src n with
                 | Done buf' => Some (Eventual true (Some buf') (nbytes e), WakesAll ABT_SUCCESS)
                 | Fault _ => None
                 end
             end
      else None
  | EReset => if empty then Some (set_ready false e, Returns ABT_SUCCESS) else None
  end.

(** Once it is ready nobody waits; the buffer has [nbytes] bytes. *)
Definition eventual_inv (e : ABTI_eventual) (k : nat) : Prop :=
  (ready e = true → k = 0%nat) ∧
  match value e with Some buf => nbytes e = Z.of_nat (length buf) | None => nbytes e = 0 end.

Definition eventual_crit (me : self) (o : eventual_op) : C (obj ABTI_eventual) (option Z) :=
  match o with
  | EWait => eventual_wait (sleeps me)
  | ETest => r ← ABT_eventual_test true; mret (Some r.1)
  | ESet src n => e ← ABT_eventual_set true src n; mret (Some e)
  | EReset => e ← ABT_eventual_reset true; mret (Some e)
  end.

Lemma memcpy_length buf src n buf' : memcpy buf src n = Done buf' → 0 ≤ n → length buf' = length buf.
Proof.
  unfold memcpy. intros H Hn. destruct (Z.eqb_spec n 0); [by injection H as <-|]. destruct src as [bytes|]; [|done].
  destruct (Z.leb_spec n (Z.of_nat (length bytes))), (Z.leb_spec n (Z.of_nat (length buf))); try done.
  injection H as <-. rewrite length_app, length_take, length_drop. lia.
Qed.

(** Taking and giving back the lock around nothing. *)
Lemma relock_id w : wl_lock w = false → set_wl_lock false (set_wl_lock true w) = w.
Proof. by destruct w as [? ? ? ?]; simpl; intros ->. Qed.
Lemma lock_get_run {F A} (k : obj F → C (obj F) A) f w :
  wl_lock w = false → (acquire;; o ← get; k o) (Obj f w) = k (Obj f (set_wl_lock true w)) (Obj f (set_wl_lock true w)).
Proof. intros Hlk. by rewrite (C_bind_Done _ _ _ _ _ (obj_acquire_run (Obj f w) Hlk)). Qed.
Lemma release_ret {F A} (a : A) (f : F) w : (release;; mret a) (Obj f w) = Done (a, Obj f (set_wl_lock false w)).
Proof. done. Qed.

(** What the operations that do not sleep have to show. *)
Definition op_ok {F} (inv : F → nat → Prop) (X Y : list ptr) (l : list (ptr * bool)) (t : ptr)
    (m : C (obj F) (option Z)) (f : F) (w : wst) (f' : F) (a : ans) : Prop :=
  ∃ w', m (Obj f w) = Done (code a, Obj f' w') ∧ wl_lock w' = false ∧
    inv f' (length (list_after t a l)) ∧ winv Y (list_after t a l) w' ∧ wstep X Y (woken_by a l) w w'.

(** Nothing but the fields changes. *)
Lemma op_ok_plain {F} (inv : F → nat → Prop) X Y l t (m : C (obj F) (option Z)) f w f' e :
  winv Y l w → wl_lock w = false → m (Obj f w) = Done (Some e, Obj f' w) → inv f' (length l) →
  op_ok inv X Y l t m f w f' (Returns e).
Proof. intros. exists w. split_and!; try done. apply wstep_refl. Qed.

(** The lock is taken, all are woken, and the lock is given back. *)
Lemma op_ok_wake {F} (inv : F → nat → Prop) X Y l t (m : C (obj F) (option Z)) f w f' e :
  winv Y l w → wl_lock w = false →
  (∀ v, on_w ABTI_waitlist_broadcast (Obj f' (set_wl_lock true w)) = Done ((), Obj f' v) →
     m (Obj f w) = Done (Some e, Obj f' (set_wl_lock false v))) →
  inv f' 0%nat → op_ok inv X Y l t m f w f' (WakesAll e).
Proof.
  intros Hw Hlk Hm Hinv.
  destruct (wake_all_ok X Y l (Obj f' (set_wl_lock true w)) (winv_lock _ _ _ _ Hw)) as (v & E & Hv & Hst).
  exists (set_wl_lock false v). split_and!; [by apply Hm|done|done|by apply winv_lock|].
  eapply wstep_relock; [exact Hst|done..|by rewrite Hlk].
Qed.

Lemma eventual_set_eq src n f w :
  wl_lock w = false → bool_decide (is_Some src) || (n <=? 0) = true →
  ABT_eventual_set true src n (Obj f w) =
    if n <? 0 then Done (ABT_ERR_INV_ARG, Obj f w)
    else if nbytes f <? n then Done (ABT_ERR_INV_EVENTUAL, Obj f w)
    else if ready f then Done (ABT_ERR_EVENTUAL, Obj f w)
    else (copy_value src n;; set_fld (set_ready true);; on_w ABTI_waitlist_broadcast;; release;; mret ABT_SUCCESS)
           (Obj f (set_wl_lock true w)).
Proof.
  intros Hlk Hsrc. unfold ABT_eventual_set. rewrite Hsrc.
  rewrite (C_bind_Done _ _ _ () (Obj f w)) by done. cbn [negb].
  destruct (n <? 0); [done|]. rewrite (C_bind_Done _ _ _ (Obj f w) (Obj f w)) by done. cbn [fld].
  destruct (nbytes f <? n); [done|]. rewrite lock_get_run by done. cbn [fld].
  destruct (ready f); cbn [negb]; [|done]. rewrite release_ret. by rewrite relock_id.
Qed.

Lemma eventual_set_ok X Y l t src n f w f' a :
  eventual_inv f (length l) → winv Y l w → wl_lock w = false →
  eventual_spec (ESet src n) (bool_decide (l = [])) f = Some (f', a) →
  op_ok eventual_inv X Y l t (e ← ABT_eventual_set true src n; mret (Some e)) f w f' a.
Proof.
  intros Hinv Hw Hlk Hs. simpl in Hs.
  destruct (bool_decide (is_Some src) || (n <=? 0)) eqn:Hsrc; [|done].
  pose proof (eventual_set_eq src n f w Hlk Hsrc) as E.
  destruct (Z.ltb_spec n 0).
  { injection Hs as <- <-. apply op_ok_plain; try done. by rewrite (C_bind_Done _ _ _ _ _ E). }
  destruct (Z.ltb_spec (nbytes f) n).
  { injection Hs as <- <-. apply op_ok_plain; try done. by rewrite (C_bind_Done _ _ _ _ _ E). }
  destruct (ready f) eqn:Hr.
  { injection Hs as <- <-. apply op_ok_plain; try done. by rewrite (C_bind_Done _ _ _ _ _ E). }
  assert (a = WakesAll ABT_SUCCESS ∧ eventual_inv f' 0 ∧
    copy_value src n (Obj f (set_wl_lock true w)) = Done ((), Obj (set_ready false f') (set_wl_lock true w)) ∧
    ready f' = true) as (-> & Hinv' & Ec & Hr').
  { unfold copy_value. cbn [fld waiters]. rewrite Hr. destruct Hinv as [_ Hb]. destruct (value f) as [buf|] eqn:Ev.
    - destruct (memcpy buf src n) as [buf'|] eqn:Em; [|done]. injection Hs as <- <-. split_and!; try done.
      split; simpl; [done|]. by rewrite (memcpy_length _ _ _ _ Em).
    - injection Hs as <- <-. split_and!; try done. do 2 f_equal. destruct f; simpl in *; by subst. }
  apply op_ok_wake; try done. intros v Hv. erewrite C_bind_Done; [reflexivity|]. rewrite E.
  rewrite (C_bind_Done _ _ _ _ _ Ec).
  rewrite (C_bind_Done _ _ _ () (Obj f' (set_wl_lock true w))).
  2:{ unfold set_fld, modify. simpl. do 3 f_equal. destruct f'; simpl in *; by subst. }
  rewrite (C_bind_Done _ _ _ _ _ Hv). by rewrite release_ret.
Qed.

Lemma eventual_crit_ok X Y l t o f w f' a :
  eventual_inv f (length l) → winv Y l w → wl_lock w = false → t ∉ l.*1 → t ∉ X →
  eventual_spec o (bool_decide (l = [])) f = Some (f', a) →
  op_ok eventual_inv X Y l t (eventual_crit (self_of Y t) o) f w f' a.
Proof.
  intros Hinv Hw Hlk Ht HtX Hs. destruct o as [| |src n|].
  - injection Hs as <- <-.
    destruct (gate_ok (λ e, negb (ready e)) X Y l t f w Hw Hlk Ht HtX) as (w' & E & Hl' & Hw' & Hst).
    exists w'. destruct (ready f) eqn:Hr; simpl in *; split_and!; try done.
    split; [by rewrite Hr|apply Hinv].
  - injection Hs as <- <-. apply op_ok_plain; try done. simpl.
    rewrite (C_bind_Done _ _ _ (ABT_SUCCESS, Some (if ready f then (true, Some (value f)) else (false, None))) (Obj f w)); [done|].
    unfold ABT_eventual_test. cbn [negb]. rewrite lock_get_run by done. cbn [fld].
    rewrite release_ret. by rewrite relock_id.
  - by apply eventual_set_ok.
  - simpl in Hs. destruct (bool_decide (l = [])) eqn:Hl; [|done]. injection Hs as <- <-.
    apply bool_decide_eq_true in Hl as ->. apply op_ok_plain; try done; [|split; [done|apply Hinv]]. simpl.
    rewrite (C_bind_Done _ _ _ ABT_SUCCESS (Obj (set_ready false f) w)); [done|].
    unfold ABT_eventual_reset. cbn [negb]. rewrite lock_get_run by done. cbn [waiters].
    rewrite (is_empty_list Y []) by (by apply winv_lock). rewrite bool_decide_true by done.
    rewrite (C_bind_Done _ _ _ () (Obj f (set_wl_lock true w))) by done.
    rewrite (C_bind_Done _ _ _ () (Obj (set_ready false f) (set_wl_lock true w))) by done.
    rewrite release_ret. by rewrite relock_id.
Qed.

Global Instance eventual_waitable : Waitable ABTI_eventual eventual_op := {|
  crit := eventual_crit;
  spec := eventual_spec;
  finv := eventual_inv;
  crit_ok := eventual_crit_ok
|}.

(** [e] is [e0] with the first [n] bytes of its buffer taken from [src]. *)
Definition filled (e0 : ABTI_eventual) (src : option (list Z)) (n : Z) (e : ABTI_eventual) : Prop :=
  ready e = true ∧ nbytes e = nbytes e0 ∧ 0 ≤ n ≤ nbytes e0 ∧
  value e = (λ buf, take (Z.to_nat n) (default [] src) ++ drop (Z.to_nat n) buf) <$> value e0.

(** No call of a log succeeded to set the eventual. *)
Definition no_set (lg : list (ptr * eventual_op * ans)) : Prop :=
  ∀ t src n a, (t, ESet src n, a) ∈ lg →
    a = Returns ABT_ERR_INV_ARG ∨ a = Returns ABT_ERR_INV_EVENTUAL ∨ a = Returns ABT_ERR_EVENTUAL.

Definition never {Op} (o : Op) (lg : list (ptr * Op * ans)) : Prop := ∀ t a, (t, o, a) ∉ lg.

Lemma never_app {Op} (o : Op) lg lg' : never o (lg ++ lg') ↔ never o lg ∧ never o lg'.
Proof. unfold never. setoid_rewrite elem_of_app. naive_solver. Qed.

Lemma no_set_snoc lg t o a :
  no_set lg → (∀ src n, o = ESet src n →
    a = Returns ABT_ERR_INV_ARG ∨ a = Returns ABT_ERR_INV_EVENTUAL ∨ a = Returns ABT_ERR_EVENTUAL) →
  no_set (lg ++ [(t, o, a)]).
Proof.
  intros Hl Ho t' src n a' [Hin|Hin%list_elem_of_singleton]%elem_of_app; [by eapply Hl|].
  injection Hin as -> <- ->. by eapply Ho.
Qed.

Lemma memcpy_filled buf src n buf' :
  memcpy buf src n = Done buf' → buf' = take (Z.to_nat n) (default [] src) ++ drop (Z.to_nat n) buf.
Proof.
  unfold memcpy. intros H. destruct (Z.eqb_spec n 0) as [->|]; [by injection H as <-|]. destruct src as [bytes|]; [|done].
  destruct (_ && _); [|done]. by injection H as <-.
Qed.

(** A call of [ESet] in the abstract eventual. *)
Lemma eventual_spec_set src n b e e' a :
  eventual_spec (ESet src n) b e = Some (e', a) →
  (e' = e ∧ (a = Returns ABT_ERR_INV_ARG ∨ a = Returns ABT_ERR_INV_EVENTUAL ∨
             (ready e = true ∧ a = Returns ABT_ERR_EVENTUAL))) ∨
  (ready e = false ∧ filled e src n e' ∧ a = WakesAll ABT_SUCCESS).
Proof.
  intros Hs. simpl in Hs. destruct (_ || _); [|done].
  destruct (Z.ltb_spec n 0); [left; simplify_eq; auto|]. destruct (Z.ltb_spec (nbytes e) n); [left; simplify_eq; auto|].
  destruct (ready e) eqn:Hr; [left; simplify_eq; auto|]. right. unfold filled.
  destruct (value e) as [buf|]; [|by simplify_eq].
  destruct (memcpy buf src n) eqn:Em; [|done]. simplify_eq. simpl. by rewrite (memcpy_filled _ _ _ _ Em).
Qed.

Lemma eventual_replay e0 lg e :
  ready e0 = false → replay e0 lg e → never EReset lg →
  (e = e0 ∧ no_set lg) ∨
  (∃ lg1 t src n lg2, lg = lg1 ++ (t, ESet src n, WakesAll ABT_SUCCESS) :: lg2 ∧
     no_set lg1 ∧ no_set lg2 ∧ filled e0 src n e).
Proof.
  intros H0. induction 1 as [|lg t o a b e1 e2 _ IH Hs]; [left; by split; [|intros ? ? ? ? []%elem_of_nil]|].
  intros [Hn Hl]%never_app. destruct (IH Hn) as [(-> & Hset)|(lg1 & t1 & src1 & n1 & lg2 & -> & Hs1 & Hs2 & Hf)].
  - destruct o as [| |src n|].
    + injection Hs as <- <-. left. split; [done|by apply no_set_snoc].
    + injection Hs as <- <-. left. split; [done|by apply no_set_snoc].
    + apply eventual_spec_set in Hs as [(-> & Ha)|(_ & Hf & ->)].
      * left. split; [done|]. apply no_set_snoc; [done|]. naive_solver.
      * right. exists lg, t, src, n, []. split_and!; try done. intros ? ? ? ? []%elem_of_nil.
    + exfalso. apply (Hl t a). by left.
  - right. exists lg1, t1, src1, n1, (lg2 ++ [(t, o, a)]). rewrite <- app_assoc. split_and!; [done|done| |].
    + apply no_set_snoc; [done|]. intros src n ->.
      apply eventual_spec_set in Hs as [(_ & Ha)|(Hr & _)]; [naive_solver|]. destruct Hf as [Hf _]. congruence.
    + destruct o as [| |src n|]; [by injection Hs as <- _|by injection Hs as <- _| |exfalso; apply (Hl t a); by left].
      apply eventual_spec_set in Hs as [(-> & _)|(Hr & _)]; [done|]. destruct Hf as [Hf _]. congruence.
Qed.

(** What a thread that waits sees, whatever the others do. *)
Lemma gate_wait_ok {F} (closed : F → bool) Y l t o :
  winv Y l (waiters o) → wl_lock (waiters o) = false → t ∉ l.*1 →
  ∃ r o1, gate_wait closed (sleeps (self_of Y t)) o = Done (r, o1) ∧
    ∀ env fuel, (0 < fuel)%nat →
      if closed (fld o)
      then ∀ o2, env 0%nat o1 = Done ((), o2) → tstate (wl_heap (waiters o2)) t = Some ABT_THREAD_STATE_READY →
        gate_wait closed (returns (sleep env (self_of Y t) fuel)) o = Done (Some ABT_SUCCESS, o2)
      else o1 = o ∧ gate_wait closed (returns (sleep env (self_of Y t) fuel)) o = Done (Some ABT_SUCCESS, o).
Proof.
  intros Hw Hlk Ht. destruct o as [f w]. simpl in *.
  destruct (gate_ok closed [] Y l t f w Hw Hlk Ht ltac:(by apply not_elem_of_nil)) as (w' & E & _ & Hw' & _).
  eexists _, _. split; [exact E|]. intros env fuel Hf. pose proof (gate_whole closed Y t env fuel f w _ _ Hlk Hf E) as Hg.
  destruct (closed f) eqn:Hc.
  - intros o2 He Hr. apply Hg; [|done|done]. apply (wi_blocked _ _ _ Hw'). rewrite fmap_app. set_solver.
  - rewrite gate_run, Hc in E by done. injection E as <-. split; [done|exact Hg].
Qed.

(** A thread that is awake is not in the list; if nobody may wait, all sleepers are ready. *)
Section facts.
Context {F Op : Type} `{!Waitable F Op} (ths Y : list ptr).

Lemma sinv_awake f0 (s : sys F Op) l t : sinv ths Y f0 s l → asleep s t = None → t ∉ l.*1.
Proof. intros Hi Ha Hin%(si_here _ _ _ _ _ Hi). congruence. Qed.

Lemma sinv_nobody f0 (s : sys F Op) t k :
  sinv ths Y f0 s [] → asleep s t = Some k → tstate (wl_heap (waiters (ob s))) t = Some ABT_THREAD_STATE_READY.
Proof.
  intros Hi Ha. apply (si_ready _ _ _ _ _ Hi t k Ha). destruct (si_ths _ _ _ _ _ Hi t k Ha) as [_ Hk].
  destruct (decide (k = epoch s)) as [->|]; [|lia]. apply (si_here _ _ _ _ _ Hi) in Ha. by apply elem_of_nil in Ha.
Qed.
End facts.

(** any number of threads that wait for, set, test and reset an eventual.  Until it is
    reset, the first valid set wins: it writes its bytes, every later one answers
    ABT_ERR_EVENTUAL and changes nothing.  Once the eventual is ready every sleeping
    thread is ready to run.  A thread that waits returns at once if it is, otherwise as soon
    as somebody made it ready, with the address of the buffer. *)
Theorem eventual_first_set_wins ths Y e0 w s :
  ready e0 = false → eventual_inv e0 0 → winv Y [] w → wl_lock w = false →
  ssteps (Op := eventual_op) ths Y (fresh e0 w) s →
  let e := fld (ob s) in
  (never EReset (log s) →
     (e = e0 ∧ no_set (log s)) ∨
     (∃ lg1 t src n lg2, log s = lg1 ++ (t, ESet src n, WakesAll ABT_SUCCESS) :: lg2 ∧
        no_set lg1 ∧ no_set lg2 ∧ filled e0 src n e)) ∧
  (ready e = true → ∀ t k, asleep s t = Some k →
     tstate (wl_heap (waiters (ob s))) t = Some ABT_THREAD_STATE_READY) ∧
  (∀ t, t ∈ ths → asleep s t = None →
     ∃ r o1, eventual_wait (sleeps (self_of Y t)) (ob s) = Done (r, o1) ∧
       ∀ env fuel, (0 < fuel)%nat →
         if ready e
         then o1 = ob s ∧ ABT_eventual_wait true env (self_of Y t) fuel (ob s) = Done ((ABT_SUCCESS, Some (value e)), ob s)
         else ∀ o2, env 0%nat o1 = Done ((), o2) →
           tstate (wl_heap (waiters o2)) t = Some ABT_THREAD_STATE_READY →
           ABT_eventual_wait true env (self_of Y t) fuel (ob s) = Done ((ABT_SUCCESS, Some (value (fld o2))), o2)).
Proof.
  intros H0 Hinv Hw Hlk Hs e. destruct (sinv_reach ths Y e0 w s) as [l Hi]; [done..|].
  split_and!.
  - intros Hn. apply eventual_replay; [done|apply Hi|done].
  - intros Hr t k. destruct (si_fields _ _ _ _ _ Hi) as [Hz _]. apply nil_length_inv in Hz; [|done].
    subst l. by eapply sinv_nobody.
  - intros t Ht Ha.
    destruct (gate_wait_ok (λ e, negb (ready e)) Y l t (ob s)) as (r & o1 & E & Hg);
      [apply Hi|apply Hi|by eapply sinv_awake|].
    exists r, o1. split; [exact E|]. intros env fuel Hf. specialize (Hg env fuel Hf). cbn beta in Hg.
    assert (Hapi : ∀ o2, eventual_wait (returns (sleep env (self_of Y t) fuel)) (ob s) = Done (Some ABT_SUCCESS, o2) →
      ABT_eventual_wait true env (self_of Y t) fuel (ob s) = Done ((ABT_SUCCESS, Some (value (fld o2))), o2)).
    { intros o2 Eo. unfold ABT_eventual_wait. cbn [negb]. rewrite not_on_tasklet_run. by rewrite (C_bind_Done _ _ _ _ _ Eo). }
    fold e in Hg. destruct (ready e); cbn [negb] in Hg.
    + destruct Hg as [-> Hg]. split; [done|]. by apply Hapi.
    + intros o2 He Hr. by apply Hapi, Hg.
Qed.

(** A thread sets the first byte of an eventual with two bytes. *)
Lemma eventual_first_set_wins_witness :
  ∃ s, ssteps (Op := eventual_op) [1; 11]%positive [1; 2]%positive (fresh (Eventual false (Some [0; 0]) 2) wl_start) s ∧
    ready (fld (ob s)) = true ∧ value (fld (ob s)) = Some [7; 0] ∧
    ((fld (ob s) = Eventual false (Some [0; 0]) 2 ∧ no_set (log s)) ∨
     ∃ lg1 t src n lg2, log s = lg1 ++ (t, ESet src n, WakesAll ABT_SUCCESS) :: lg2 ∧
        no_set lg1 ∧ no_set lg2 ∧ filled (Eventual false (Some [0; 0]) 2) src n (fld (ob s))).
Proof.
  set (o1 := match ABT_eventual_set true (Some [7]) 1 (Obj (Eventual false (Some [0; 0]) 2) wl_start) with
             | Done (_, o) => o | Fault _ => Obj (Eventual false None 0) wl_start end).
  assert (Hs : ssteps (Op := eventual_op) [1; 11]%positive [1; 2]%positive (fresh (Eventual false (Some [0; 0]) 2) wl_start)
    (Sys o1 (λ _, None) 1 [(11%positive, ESet (Some [7]) 1, WakesAll ABT_SUCCESS)])).
  { apply rtc_once. apply (s_call _ _ (fresh (Eventual false (Some [0; 0]) 2) wl_start) 11%positive (ESet (Some [7]) 1)
      (Eventual true (Some [7; 0]) 2) (WakesAll ABT_SUCCESS) (Some ABT_SUCCESS) o1);
      [right; left|reflexivity|reflexivity|vm_compute; reflexivity]. }
  eexists. split; [exact Hs|]. split; [vm_compute; reflexivity|]. split; [vm_compute; reflexivity|].
  eapply (eventual_first_set_wins [1; 11]%positive [1; 2]%positive (Eventual false (Some [0; 0]) 2) wl_start); [| | | |exact Hs|].
  - reflexivity.
  - split; [discriminate|reflexivity].
  - apply (winv_init _ wl_start wl_start_ult).
  - reflexivity.
  - intros t a Hin%list_elem_of_singleton. discriminate.
Defined.

(** ** Futures *)

Inductive future_op := FWait | FTest | FSet (v : Z) | FReset.

(** The fields after a value has been stored. *)
Definition future_put (v : Z) (f : ABTI_future) : ABTI_future :=
  let arr := <[Z.to_nat (fcounter f) := v]> (array f) in
  let last := fcounter f + 1 =? num_compartments f in
  Future (fcounter f + 1) (num_compartments f) arr (p_callback f)
    (if last && p_callback f then called f ++ [arr] else called f).

Definition future_spec (o : future_op) (empty : bool) (f : ABTI_future) : option (ABTI_future * ans) :=
  match o with
  | FWait => Some (f, if fcounter f <? num_compartments f then Sleeps else Returns ABT_SUCCESS)
  | FTest => Some (f, Returns ABT_SUCCESS)
  | FSet v =>
      if num_compartments f <=? fcounter f then Some (f, Returns ABT_ERR_FUTURE)
      else Some (future_put v f, if fcounter f + 1 =? num_compartments f then WakesAll ABT_SUCCESS else Returns ABT_SUCCESS)
  | FReset => if empty then Some (set_fcounter 0 f, Returns ABT_SUCCESS) else None
  end.

Definition future_inv (f : ABTI_future) (k : nat) : Prop :=
  0 ≤ fcounter f ≤ num_compartments f ∧ num_compartments f < 2 ^ 32 ∧
  Z.of_nat (length (array f)) = num_compartments f ∧ (fcounter f = num_compartments f → k = 0%nat).

Definition future_crit (me : self) (o : future_op) : C (obj ABTI_future) (option Z) :=
  match o with
  | FWait => future_wait (sleeps me)
  | FTest => r ← gets (ABT_future_test true); mret (Some r.1)
  | FSet v => e ← ABT_future_set true v; mret (Some e)
  | FReset => e ← ABT_future_reset true; mret (Some e)
  end.

(** Storing a value, up to the broadcast. *)
Lemma future_set_eq v f w :
  future_inv f 0 → wl_lock w = false →
  ABT_future_set true v (Obj f w) =
    if num_compartments f <=? fcounter f then Done (ABT_ERR_FUTURE, Obj f w)
    else ((if fcounter f + 1 =? num_compartments f then on_w ABTI_waitlist_broadcast else mret ());; release;; mret ABT_SUCCESS)
           (Obj (future_put v f) (set_wl_lock true w)).
Proof.
  intros (Hc & Hn & Hlen & _) Hlk. unfold ABT_future_set. cbn [negb]. rewrite lock_get_run by done. cbn [fld].
  destruct (Z.leb_spec (num_compartments f) (fcounter f)) as [|Hlt]; [rewrite release_ret; by rewrite relock_id|].
  set (f1 := Future (fcounter f) (num_compartments f) (<[Z.to_nat (fcounter f) := v]> (array f)) (p_callback f) (called f)).
  rewrite (C_bind_Done _ _ _ () (Obj f1 (set_wl_lock true w))).
  2:{ unfold set_compartment. cbn [fld]. rewrite bool_decide_true; [done|]. lia. }
  rewrite u64_small by lia.
  set (f2 := if (fcounter f + 1 =? num_compartments f) && p_callback f then call_back f1 else f1).
  rewrite (C_bind_Done _ _ _ () (Obj f2 (set_wl_lock true w))) by (unfold f2; by destruct (_ && _)).
  rewrite (C_bind_Done _ _ _ () (Obj (future_put v f) (set_wl_lock true w))); [done|].
  unfold set_fld, modify. simpl. do 3 f_equal. unfold f2, f1, future_put. by destruct (_ && _).
Qed.

Lemma future_put_inv v f k :
  future_inv f k → fcounter f < num_compartments f →
  future_inv (future_put v f) (if fcounter f + 1 =? num_compartments f then 0%nat else k).
Proof.
  intros (Hc & Hn & Hlen & Hk) Hlt. unfold future_inv. simpl. rewrite length_insert.
  destruct (Z.eqb_spec (fcounter f + 1) (num_compartments f)); split_and!; try done; lia.
Qed.

Lemma future_crit_ok X Y l t o f w f' a :
  future_inv f (length l) → winv Y l w → wl_lock w = false → t ∉ l.*1 → t ∉ X →
  future_spec o (bool_decide (l = [])) f = Some (f', a) →
  op_ok future_inv X Y l t (future_crit (self_of Y t) o) f w f' a.
Proof.
  intros Hinv Hw Hlk Ht HtX Hs. destruct o as [| |v|].
  - injection Hs as <- <-.
    destruct (gate_ok (λ f, fcounter f <? num_compartments f) X Y l t f w Hw Hlk Ht HtX) as (w' & E & Hl' & Hw' & Hst).
    exists w'. destruct (Z.ltb_spec (fcounter f) (num_compartments f)); simpl in *; split_and!; try done.
    destruct Hinv as (? & ? & ? & _). split_and!; try done; lia.
  - injection Hs as <- <-. by apply op_ok_plain.
  - simpl in Hs. pose proof (future_set_eq v f w) as E.
    assert (Hinv0 : future_inv f 0) by (destruct Hinv as (? & ? & ? & ?); unfold future_inv; lia).
    specialize (E Hinv0 Hlk).
    destruct (Z.leb_spec (num_compartments f) (fcounter f)) as [|Hlt]; injection Hs as <- <-.
    { apply op_ok_plain; try done. simpl. by rewrite (C_bind_Done _ _ _ _ _ E). }
    pose proof (future_put_inv v f (length l) Hinv Hlt) as Hput.
    destruct (fcounter f + 1 =? num_compartments f).
    + apply op_ok_wake; try done. intros u Hu. simpl. erewrite C_bind_Done; [reflexivity|]. rewrite E.
      rewrite (C_bind_Done _ _ _ _ _ Hu). by rewrite release_ret.
    + apply op_ok_plain; try done. simpl. erewrite C_bind_Done; [reflexivity|]. rewrite E.
      rewrite (C_bind_Done _ _ _ () (Obj (future_put v f) (set_wl_lock true w))) by done.
      rewrite release_ret. by rewrite relock_id.
  - simpl in Hs. destruct (bool_decide (l = [])) eqn:Hl; [|done]. injection Hs as <- <-.
    apply bool_decide_eq_true in Hl as ->. destruct Hinv as (Hc & Hn & Hlen & _).
    apply op_ok_plain; try done; [|unfold future_inv; simpl; split_and!; try done; lia]. simpl.
    rewrite (C_bind_Done _ _ _ ABT_SUCCESS (Obj (set_fcounter 0 f) w)); [done|].
    unfold ABT_future_reset. cbn [negb]. rewrite lock_get_run by done. cbn [waiters].
    rewrite (is_empty_list Y []) by (by apply winv_lock). rewrite bool_decide_true by done.
    rewrite (C_bind_Done _ _ _ () (Obj f (set_wl_lock true w))) by done.
    rewrite (C_bind_Done _ _ _ () (Obj (set_fcounter 0 f) (set_wl_lock true w))) by done.
    rewrite release_ret. by rewrite relock_id.
Qed.

Global Instance future_waitable : Waitable ABTI_future future_op := {|
  crit := future_crit;
  spec := future_spec;
  finv := future_inv;
  crit_ok := future_crit_ok
|}.

(** The values that were stored, in the order of the calls. *)
Definition stored (lg : list (ptr * future_op * ans)) : list Z :=
  omap (λ c, match c with (_, FSet v, a) => if decide (code a = Some ABT_SUCCESS) then Some v else None | _ => None end) lg.

Lemma stored_snoc lg t o a :
  stored (lg ++ [(t, o, a)]) =
    stored lg ++ match o with FSet v => if decide (code a = Some ABT_SUCCESS) then [v] else [] | _ => [] end.
Proof. unfold stored. rewrite omap_app. f_equal. destruct o; simpl; try done. by case_decide. Qed.

(** The future after the values [vs] have been stored into a fresh one. *)
Definition future_after (n : Z) (junk : list Z) (cb : bool) (vs : list Z) : ABTI_future :=
  Future (Z.of_nat (length vs)) n (vs ++ drop (length vs) junk) cb
    (if (Z.of_nat (length vs) =? n) && (0 <? n) && cb then [vs] else []).

Lemma insert_next {A} (vs junk : list A) v :
  (length vs < length junk)%nat →
  <[length vs := v]> (vs ++ drop (length vs) junk) = (vs ++ [v]) ++ drop (length (vs ++ [v])) junk.
Proof.
  intros Hl. rewrite insert_app_r_alt, Nat.sub_diag by done. rewrite <- app_assoc. f_equal.
  rewrite length_app. simpl. rewrite <- drop_drop. destruct (drop (length vs) junk) as [|x d] eqn:E; [|done].
  assert (length (drop (length vs) junk) = 0%nat) as H0 by (by rewrite E). rewrite length_drop in H0. lia.
Qed.

Lemma future_replay n junk cb lg f :
  0 ≤ n → Z.of_nat (length junk) = n → replay (Future 0 n junk cb []) lg f → never FReset lg →
  f = future_after n junk cb (stored lg) ∧ Z.of_nat (length (stored lg)) ≤ n ∧
  (∀ t v a, (t, FSet v, a) ∈ lg → code a = Some ABT_SUCCESS ∨ a = Returns ABT_ERR_FUTURE).
Proof.
  intros Hn Hj. induction 1 as [|lg t o a b f1 f2 _ IH Hs].
  { intros _. change (stored []) with (@nil Z). split_and!; [|simpl; lia|intros ? ? ? []%elem_of_nil].
    unfold future_after. cbn. by destruct n. }
  intros [Hnr Hl]%never_app. destruct (IH Hnr) as (-> & Hle & Hans). clear IH. rewrite stored_snoc.
  assert (Hans' : (∀ v, o = FSet v → code a = Some ABT_SUCCESS ∨ a = Returns ABT_ERR_FUTURE) →
    ∀ t' v a', (t', FSet v, a') ∈ lg ++ [(t, o, a)] → code a' = Some ABT_SUCCESS ∨ a' = Returns ABT_ERR_FUTURE).
  { intros Ho t' v a' [Hin|Hin%list_elem_of_singleton]%elem_of_app; [by eapply Hans|]. injection Hin as -> <- ->. by eapply Ho. }
  destruct o as [| |v|]; simpl in Hs.
  - injection Hs as <- <-. rewrite app_nil_r. split_and!; try done. by apply Hans'.
  - injection Hs as <- <-. rewrite app_nil_r. split_and!; try done. by apply Hans'.
  - destruct (Z.leb_spec n (Z.of_nat (length (stored lg)))) as [|Hlt]; injection Hs as <- <-.
    { rewrite decide_False by done. rewrite app_nil_r. split_and!; try done. apply Hans'. auto. }
    set (vs := stored lg) in *.
    assert (Hcode : code (if Z.of_nat (length vs) + 1 =? n then WakesAll ABT_SUCCESS else Returns ABT_SUCCESS) = Some ABT_SUCCESS)
      by (by destruct (_ =? _)).
    rewrite decide_True by done. split_and!; [|rewrite length_app; simpl; lia|apply Hans'; auto].
    unfold future_put, future_after. simpl. rewrite Nat2Z.id, (insert_next vs junk v) by lia.
    rewrite (length_app vs [v]). simpl. replace (Z.of_nat (length vs + 1)) with (Z.of_nat (length vs) + 1) by lia. f_equal.
    destruct (Z.eqb_spec (Z.of_nat (length vs)) n); [lia|]. destruct (Z.eqb_spec (Z.of_nat (length vs) + 1) n) as [Eq|]; [|done].
    destruct (Z.ltb_spec 0 n); [|lia]. destruct cb; [|done]. simpl. f_equal.
    rewrite drop_ge by lia. by rewrite app_nil_r.
  - exfalso. apply (Hl t a). by left.
Qed.

(** any number of threads that wait for, set and test a future of [n] compartments,
    until it is reset: the values of the first [n] calls of [ABT_future_set]
    fill the compartments in the order of the calls, every later call answers
    ABT_ERR_FUTURE; the callback is called once, with all the values, by the last of them;
    testing answers whether all are there.  When they are, every sleeping thread is ready to
    run; a thread that waits returns at once then, otherwise when somebody made it ready. *)
Theorem future_filled_in_order ths Y n junk cb w s :
  0 ≤ n < 2 ^ 32 → Z.of_nat (length junk) = n → winv Y [] w → wl_lock w = false →
  ssteps (Op := future_op) ths Y (fresh (Future 0 n junk cb []) w) s →
  never FReset (log s) →
  let vs := stored (log s) in
  let full := Z.of_nat (length vs) =? n in
  Z.of_nat (length vs) ≤ n ∧
  array (fld (ob s)) = vs ++ drop (length vs) junk ∧
  called (fld (ob s)) = (if full && (0 <? n) && cb then [vs] else []) ∧
  ABT_future_test true (ob s) = (ABT_SUCCESS, Some full) ∧
  (∀ t v a, (t, FSet v, a) ∈ log s → code a = Some ABT_SUCCESS ∨ a = Returns ABT_ERR_FUTURE) ∧
  (full = true → ∀ t k, asleep s t = Some k →
     tstate (wl_heap (waiters (ob s))) t = Some ABT_THREAD_STATE_READY) ∧
  (∀ t, t ∈ ths → asleep s t = None →
     ∃ r o1, future_wait (sleeps (self_of Y t)) (ob s) = Done (r, o1) ∧
       ∀ env fuel, (0 < fuel)%nat →
         if full
         then ABT_future_wait true env (self_of Y t) fuel (ob s) = Done (Some ABT_SUCCESS, ob s)
         else ∀ o2, env 0%nat o1 = Done ((), o2) →
           tstate (wl_heap (waiters o2)) t = Some ABT_THREAD_STATE_READY →
           ABT_future_wait true env (self_of Y t) fuel (ob s) = Done (Some ABT_SUCCESS, o2)).
Proof.
  intros Hn Hj Hw Hlk Hs Hnr vs full.
  destruct (sinv_reach ths Y (Future 0 n junk cb []) w s) as [l Hi]; [unfold finv; simpl; unfold future_inv; simpl; lia|done..|].
  destruct (future_replay n junk cb (log s) (fld (ob s))) as (Ef & Hle & Hans); [lia|done|apply Hi|done|].
  fold vs in Ef, Hle. split_and!; try done.
  - by rewrite Ef.
  - by rewrite Ef.
  - unfold ABT_future_test. by rewrite Ef.
  - intros Hf t k. destruct (si_fields _ _ _ _ _ Hi) as (_ & _ & _ & Hz).
    rewrite Ef in Hz. apply Z.eqb_eq in Hf. specialize (Hz Hf). apply nil_length_inv in Hz. subst l. by eapply sinv_nobody.
  - intros t Ht Ha.
    destruct (gate_wait_ok (λ f, fcounter f <? num_compartments f) Y l t (ob s)) as (r & o1 & E & Hg);
      [apply Hi|apply Hi|by eapply sinv_awake|].
    exists r, o1. split; [exact E|]. intros env fuel Hf. specialize (Hg env fuel Hf). cbn beta in Hg.
    unfold ABT_future_wait. cbn [negb]. rewrite not_on_tasklet_run.
    assert ((fcounter (fld (ob s)) <? num_compartments (fld (ob s))) = negb full) as Hcl.
    { rewrite Ef. unfold full. simpl.
      destruct (Z.ltb_spec (Z.of_nat (length vs)) n), (Z.eqb_spec (Z.of_nat (length vs)) n); try done; lia. }
    rewrite Hcl in Hg. by destruct full; [apply Hg|].
Qed.

(** Two compartments, one of them set. *)
Lemma future_filled_in_order_witness :
  ∃ s, ssteps (Op := future_op) [1; 11]%positive [1; 2]%positive (fresh (Future 0 2 [0; 0] true []) wl_start) s ∧
    stored (log s) = [7] ∧ array (fld (ob s)) = [7; 0] ∧
    ABT_future_test true (ob s) = (ABT_SUCCESS, Some (Z.of_nat (length (stored (log s))) =? 2)).
Proof.
  set (f0 := Future 0 2 [0; 0] true []).
  set (o1 := match ABT_future_set true 7 (Obj f0 wl_start) with Done (_, o) => o | Fault _ => Obj f0 wl_start end).
  assert (Hs : ssteps (Op := future_op) [1; 11]%positive [1; 2]%positive (fresh f0 wl_start)
    (Sys o1 (λ _, None) 0 [(11%positive, FSet 7, Returns ABT_SUCCESS)])).
  { apply rtc_once. apply (s_call _ _ (fresh f0 wl_start) 11%positive (FSet 7)
      (future_put 7 f0) (Returns ABT_SUCCESS) (Some ABT_SUCCESS) o1);
      [right; left|reflexivity|reflexivity|vm_compute; reflexivity]. }
  eexists. split; [exact Hs|]. split; [vm_compute; reflexivity|]. split; [vm_compute; reflexivity|].
  eapply (future_filled_in_order [1; 11]%positive [1; 2]%positive 2 [0; 0] true wl_start); [| | | |exact Hs|].
  - lia.
  - reflexivity.
  - apply (winv_init _ wl_start wl_start_ult).
  - reflexivity.
  - intros t a Hin%list_elem_of_singleton. discriminate.
Defined.
