(* ===== verification/Sched.v ===== *)
(** * Schedulers

    argobots/src/sched/basic.c, prio.c, randws.c and basic_wait.c: the loop that an
    execution stream runs, with the parts of sched/sched.c and stream.c that the loops
    call (stop requests, events).  A scheduler uses its pools through the interface
    [PoolOps]; the theorems hold for all implementations of it that satisfy [PoolLaws],
    that is, for those that keep their units in a thread queue, as the built-in ones do.

    [schedule p] is [ABTI_ythread_schedule], everything that happens until the unit [p]
    comes back to the scheduler; [events k] is what the k-th check for events finds in the
    request word of the main scheduler's thread. *)

From stdpp Require Import base tactics option list numbers gmap fin_maps sorting.
From Stdlib Require Import ZArith Lia.
From S2P Require Import Prelude Abt Thread ThreadQueue Pool PoolFifo Hashtable Config.
Open Scope Z_scope.

Definition ABTI_SCHED_REQ_FINISH : Z := 1.
Definition ABTI_SCHED_REQ_EXIT : Z := 2.
Definition ABTI_SCHED_REQ_REPLACE : Z := 4.

Inductive ABTI_sched_used := ABTI_SCHED_NOT_USED | ABTI_SCHED_MAIN | ABTI_SCHED_IN_POOL.

(** ** Pools as schedulers see them

    A pool object with its functions; the two flags say whether the optional
    functions are there. *)

Record spool := Spool {
  core : ABTI_pool;
  ops : PoolOps;
  sp_automatic : bool;
  num_scheds : Z;
  num_blocked : Z;
  has_pop_wait : bool;
  has_pop_timedwait : bool
}.

Definition set_core (c : ABTI_pool) (s : spool) : spool :=
  Spool c (ops s) (sp_automatic s) (num_scheds s) (num_blocked s) (has_pop_wait s) (has_pop_timedwait s).

(** Pools (an [ABT_pool] is the number of one), descriptors, the request word of the
    scheduler, and the units it has run, latest last. *)
Record sworld := SWorld {
  spools : gmap nat spool;
  descs : gmap positive ABTI_thread;
  req : Z;
  ran : list ptr
}.

Definition set_req (r : Z) (w : sworld) : sworld := SWorld (spools w) (descs w) r (ran w).
Definition log_run (p : ptr) (w : sworld) : sworld := SWorld (spools w) (descs w) (req w) (ran w ++ [p]).

(** A function of the pool [h]. *)
Definition on_pool {A} (h : nat) (m : PoolOps → C pst A) : C sworld A := λ w,
  match spools w !! h with
  | None => Fault UB
  | Some s =>
      match m (ops s) (core s, descs w) with
      | Done (a, (c, d)) => Done (a, SWorld (<[h := set_core c s]> (spools w)) d (req w) (ran w))
      | Fault f => Fault f
      end
  end.

Definition ABTI_pool_pop (h : nat) (context : Z) : C sworld (option ptr) := on_pool h (λ o, p_pop context).
Definition ABTI_pool_is_empty (h : nat) : C sworld bool := on_pool h (λ o, p_is_empty).

Definition get_pool (h : nat) : C sworld spool := λ w,
  match spools w !! h with Some s => Done (s, w) | None => Fault UB end.

(** ** Stopping *)

Definition ABTI_sched_set_request (r : Z) : C sworld unit := modify (λ w, set_req (Z.lor (req w) r) w).
Definition ABTI_sched_finish : C sworld unit := ABTI_sched_set_request ABTI_SCHED_REQ_FINISH.
Definition ABTI_sched_exit : C sworld unit := ABTI_sched_set_request ABTI_SCHED_REQ_EXIT.

(** Blocked units count for a private pool and for the only scheduler of a shared one. *)
Definition counts_blocked (s : spool) : bool :=
  let acc := access (core s) in
  if acc =? ABT_POOL_ACCESS_PRIV then negb (num_blocked s =? 0)
  else if (acc =? ABT_POOL_ACCESS_SPSC) || (acc =? ABT_POOL_ACCESS_MPSC) ||
          (acc =? ABT_POOL_ACCESS_SPMC) || (acc =? ABT_POOL_ACCESS_MPMC)
       then (num_scheds s =? 1) && negb (num_blocked s =? 0)
       else false.

Fixpoint ABTI_sched_has_unit (hs : list nat) : C sworld bool :=
  match hs with
  | [] => mret false
  | h :: hs =>
      e ← ABTI_pool_is_empty h;
      if negb e then mret true else
      s ← get_pool h;
      if counts_blocked s then mret true else ABTI_sched_has_unit hs
  end.

Definition has_req (r bits : Z) : bool := negb (Z.land r bits =? 0).

Definition ABTI_sched_has_to_stop (used : ABTI_sched_used) (hs : list nat) : C sworld bool :=
  w ← get;
  if has_req (req w) ABTI_SCHED_REQ_EXIT then mret true else
  u ← ABTI_sched_has_unit hs;
  if negb u then
    w ← get;
    if has_req (req w) (Z.lor ABTI_SCHED_REQ_FINISH ABTI_SCHED_REQ_REPLACE) then
      u ← ABTI_sched_has_unit hs;
      mret (negb u)
    else mret (match used with ABTI_SCHED_IN_POOL => true | _ => false end)
  else mret false.

(** ** The data of a scheduler *)

Record sched_data := SchedData { event_freq : Z; data_pools : list nat }.

Definition pool_get_access_num (s : spool) : option Z :=
  let acc := access (core s) in
  if acc =? ABT_POOL_ACCESS_PRIV then Some 0
  else if (acc =? ABT_POOL_ACCESS_SPSC) || (acc =? ABT_POOL_ACCESS_MPSC) then Some 1
  else if (acc =? ABT_POOL_ACCESS_SPMC) || (acc =? ABT_POOL_ACCESS_MPMC) then Some 2
  else None.

Definition sched_cmp_pools (a1 a2 : Z) : Z := if a2 <? a1 then 1 else if a1 <? a2 then -1 else 0.

(** The access numbers of the pools, which the comparison reads. *)
Fixpoint access_nums (hs : list nat) : C sworld (list (Z * nat)) :=
  match hs with
  | [] => mret []
  | h :: hs =>
      s ← get_pool h;
      match pool_get_access_num s with
      | None => throw AssertFailed
      | Some a => rest ← access_nums hs; mret ((a, h) :: rest)
      end
  end.

Section init.
(** [qsort] of the C library on the pools with their access numbers. *)
Variable qsort : (Z → Z → Z) → list (Z * nat) → list (Z * nat).

Definition sched_sort_pools (hs : list nat) : C sworld (list nat) :=
  l ← access_nums hs; mret (qsort sched_cmp_pools l).*2.

(** [sorts] for basic.c and basic_wait.c; the two allocations may fail. *)
Definition sched_init (sorts : bool) (global_freq : Z) (config : option (@ABTU_hashtable element))
    (malloc_data malloc_pools : bool) (hs : list nat) : C sworld (Z + sched_data) :=
  if negb malloc_data then mret (inl ABT_ERR_MEM) else
  freq ← (match config with
          | None => mret global_freq
          | Some table =>
              match SchedConfig.ABTI_sched_config_read (SchedConfig.ABT_sched_basic_freq).1 (Some 0) table with
              | Fault f => throw f
              | Done (inr (Some v), _) => mret (u32 v)
              | Done (_, _) => mret global_freq
              end
          end);
  if negb malloc_pools then mret (inl ABT_ERR_MEM) else
  pools ← (if sorts && (1 <? Z.of_nat (length hs)) then sched_sort_pools hs else mret hs);
  mret (inr (SchedData freq pools)).
End init.

(** ** The loops *)

Section run.
Context (schedule : ptr → C sworld unit) (events : nat → C sworld Z).
Context (used : ABTI_sched_used) (hs : list nat) (d : sched_data).

(** [ABTI_ythread_schedule] of a popped unit. *)
Definition run_unit (p : ptr) : C sworld unit := modify (log_run p);; schedule p.

Definition ABTI_xstream_check_events (k : nat) : C sworld unit :=
  request ← events k;
  (if has_req request ABTI_THREAD_REQ_JOIN then ABTI_sched_finish else mret ());;
  (if has_req request ABTI_THREAD_REQ_CANCEL then ABTI_sched_exit else mret ()).

(** [while (1)]: [body n c] is the n-th iteration up to the check for events, with the
    counter [c] before it and the new counter as its result; [k] checks so far. *)
Fixpoint sched_loop (body : nat → Z → C sworld Z) (fuel n k : nat) (c : Z) : C sworld unit :=
  match fuel with
  | O => throw OutOfFuel
  | S fuel =>
      c ← body n c;
      if event_freq d <=? c then
        ABTI_xstream_check_events k;;
        stop ← ABTI_sched_has_to_stop used hs;
        if (stop : bool) then mret () else sched_loop body fuel (S n) (S k) 0
      else sched_loop body fuel (S n) k c
  end.

Definition sched_run (body : nat → Z → C sworld Z) (fuel : nat) (pools : list nat) : C sworld unit :=
  match pools with [] => mret () | _ => sched_loop body fuel 0 0 0 end.

(** basic.c: [pop_count] counts the attempts to pop. *)
Fixpoint basic_pass (pools : list nat) (pop_count : Z) : C sworld Z :=
  match pools with
  | [] => mret pop_count
  | h :: pools =>
      let pop_count := u32 (pop_count + 1) in
      thread ← ABTI_pool_pop h ABT_POOL_CONTEXT_OP_POOL_OTHER;
      match thread with
      | Some p => run_unit p;; mret pop_count
      | None => basic_pass pools pop_count
      end
  end.

Definition sched_run_basic (fuel : nat) : C sworld unit :=
  sched_run (λ _ c, basic_pass (data_pools d) c) fuel (data_pools d).

(** prio.c: the pools are in the order of their priority, [work_count] counts the passes. *)
Fixpoint prio_pass (pools : list nat) : C sworld bool :=
  match pools with
  | [] => mret false
  | h :: pools =>
      thread ← ABTI_pool_pop h ABT_POOL_CONTEXT_OP_POOL_OTHER;
      match thread with
      | Some p => run_unit p;; mret true
      | None => prio_pass pools
      end
  end.

Definition sched_run_prio (fuel : nat) : C sworld unit :=
  sched_run (λ _ c, prio_pass (data_pools d);; mret (u32 (c + 1))) fuel (data_pools d).

(** [pools[i]], undefined out of range. *)
Definition nth_pool (i : Z) : C sworld nat :=
  match (if i <? 0 then None else data_pools d !! Z.to_nat i) with Some h => mret h | None => throw UB end.

(** randws.c: the own pool first, then one of the others, chosen by [rand_r]. *)
Definition randws_pass (rand : nat → Z) (n : nat) : C sworld unit :=
  let num_pools := Z.of_nat (length hs) in
  h ← nth_pool 0;
  thread ← ABTI_pool_pop h ABT_POOL_CONTEXT_OWNER_PRIMARY;
  match thread with
  | Some p => run_unit p
  | None =>
      if 1 <? num_pools then
        let target := if num_pools =? 2 then 1 else Z.rem (rand n) (num_pools - 1) + 1 in
        h ← nth_pool target;
        thread ← ABTI_pool_pop h ABT_POOL_CONTEXT_OWNER_SECONDARY;
        match thread with Some p => run_unit p | None => mret () end
      else mret ()
  end.

Definition sched_run_randws (rand : nat → Z) (fuel : nat) : C sworld unit :=
  sched_run (λ n c, randws_pass rand n;; mret (u32 (c + 1))) fuel hs.

(** basic_wait.c: when a pass found nothing, wait for a unit of the first pool.  [clock i n] and
    [others i n] are the clock and what other threads do in the i-th wait, [tenth] is
    0.1 s, [wfuel] bounds the polls of one wait. *)
Context (clock : nat → nat → Z) (others : nat → nat → C dst unit) (tenth : Z) (wfuel : nat).

Definition ABTI_pool_pop_timedwait (h n : nat) (abstime_secs : Z) : C sworld (option ptr) :=
  unit ← on_pool h (λ o, p_pop_timedwait (λ i, clock n (S i)) (others n) wfuel abstime_secs);
  match unit with
  | None => mret None
  | Some u => p ← ABTI_unit_get_thread_from_builtin_unit u; mret (Some p)
  end.

Definition wait_pass (n : nat) : C sworld (option ptr) :=
  h ← nth_pool 0;
  s ← get_pool h;
  if has_pop_wait s
  then on_pool h (λ o, p_pop_wait (clock n) (others n) wfuel tenth ABT_POOL_CONTEXT_OP_POOL_OTHER)
  else if has_pop_timedwait s then ABTI_pool_pop_timedwait h n (clock n 0%nat + tenth)
  else ABTI_pool_pop h ABT_POOL_CONTEXT_OP_POOL_OTHER.

(** The [break] after a unit that was waited for leaves the [while] loop. *)
Fixpoint basic_wait_loop (fuel n k : nat) (work_count : Z) : C sworld unit :=
  match fuel with
  | O => throw OutOfFuel
  | S fuel =>
      found ← prio_pass (data_pools d);
      thread ← (if (found : bool) then mret None else wait_pass n);
      match thread with
      | Some p => run_unit p
      | None =>
          let work_count := if (found : bool) then u32 (work_count + 1) else work_count in
          if negb found || (event_freq d <=? work_count) then
            ABTI_xstream_check_events k;;
            stop ← ABTI_sched_has_to_stop used hs;
            if (stop : bool) then mret () else basic_wait_loop fuel (S n) (S k) 0
          else basic_wait_loop fuel (S n) k work_count
      end
  end.

Definition sched_run_basic_wait (fuel : nat) : C sworld unit :=
  match data_pools d with [] => mret () | _ => basic_wait_loop fuel 0 0 0 end.
End run.

(** ** Several pools over the same descriptors *)

Lemma chain_same h h' l : (∀ b, b ∈ l → h' !! b = h !! b) → chain h l → chain h' l.
Proof.
  induction l as [|a [|b l] IH]; [done..|]. intros Hs [Hl Hc]. split.
  - unfold lnk, nx, pv in *. by rewrite !Hs by set_solver.
  - apply IH; [|done]. intros x Hx. apply Hs. set_solver.
Qed.

Lemma tq_rep_same q h h' l : (∀ b, b ∈ l → h' !! b = h !! b) → tq_rep q h l → tq_rep q h' l.
Proof.
  intros Hs [R1 R2 R3 R4 R5 R6 R7 R8]. split; try done.
  - rewrite list.Forall_forall in *. intros a Ha. unfold in_queue. rewrite Hs by done. by apply R7.
  - eapply chain_same; [|exact R8]. intros b Hb. apply Hs. destruct l; simpl in *; set_solver.
Qed.

Lemma pool_rep_same c h h' l : (∀ b, b ∈ l → h' !! b = h !! b) → pool_rep (c, h) l → pool_rep (c, h') l.
Proof. intros Hs (d & Hd & Hm & Hr). exists d. split_and!; try done. by eapply tq_rep_same. Qed.

(** The pool [h] is in the world and holds [l]. *)
Definition pool_at (w : sworld) (h : nat) (l : list ptr) : Prop :=
  ∃ s, spools w !! h = Some s ∧ pool_rep (core s, descs w) l ∧ PoolLaws (ops s).

(** The pools [hs] hold [ls], and no unit is in two places. *)
Record wrep (hs : list nat) (w : sworld) (ls : list (list ptr)) : Prop := {
  wr_pools : Forall2 (pool_at w) hs ls;
  wr_hs : NoDup hs;
  wr_units : NoDup (concat ls)
}.

(** No blocked units that a scheduler waits for. *)
Definition idle (hs : list nat) (w : sworld) : Prop :=
  ∀ h s, h ∈ hs → spools w !! h = Some s → counts_blocked s = false.

Lemma concat_elem {A} (x : A) ls i l : ls !! i = Some l → x ∈ l → x ∈ concat ls.
Proof.
  intros Hi Hx. apply list_elem_of_In, in_concat. exists l. split; apply list_elem_of_In; [|done].
  by eapply list_elem_of_lookup_2.
Qed.

Lemma concat_perm_insert {A} (ls : list (list A)) i l p l' :
  ls !! i = Some l → l ≡ₚ p :: l' → concat ls ≡ₚ p :: concat (<[i := l']> ls).
Proof.
  revert i. induction ls as [|x ls IH]; intros [|i] Hi Hp; simplify_eq/=.
  - by rewrite Hp.
  - rewrite (IH i Hi Hp). by rewrite Permutation_middle.
Qed.

Lemma concat_disjoint {A} (ls : list (list A)) i j l k x :
  NoDup (concat ls) → ls !! i = Some l → ls !! j = Some k → i ≠ j → x ∈ l → x ∉ k.
Proof.
  revert i j. induction ls as [|y ls IH]; intros [|i] [|j] Hd Hi Hj Hne Hx Hk; simplify_eq/=; try done.
  - apply list.NoDup_app in Hd as (_ & Hd & _). apply (Hd x); [done|]. by eapply concat_elem.
  - apply list.NoDup_app in Hd as (_ & Hd & _). apply (Hd x); [done|]. by eapply concat_elem.
  - apply list.NoDup_app in Hd as (_ & _ & Hd). apply (IH i j Hd Hi Hj ltac:(congruence) Hx Hk).
Qed.

(** What an operation on a pool leaves alone in the world. *)
Definition flags (s : spool) : Z * Z * Z := (access (core s), num_scheds s, num_blocked s).

Definition same_frame (w w' : sworld) : Prop :=
  req w' = req w ∧ ran w' = ran w ∧ dom (descs w') = dom (descs w) ∧
  ∀ h, flags <$> spools w' !! h = flags <$> spools w !! h.

Lemma payload_dom (g g' : gmap ptr ABTI_thread) :
  (∀ b, payload <$> g' !! b = payload <$> g !! b) → dom g' = dom g.
Proof.
  intros Hp. apply set_eq. intros b. rewrite !elem_of_dom. specialize (Hp b).
  destruct (g' !! b), (g !! b); simpl in *; by split; intros []; eauto.
Qed.

(** An operation on the pool [h] that replaces its units [l] by [l']. *)
Lemma wrep_update hs w ls i h s l' c' d' k :
  wrep hs w ls → hs !! i = Some h → (i < length ls)%nat → spools w !! h = Some s → PoolLaws (ops s) →
  pool_rep (c', d') l' → pool_frame (core s, descs w) (c', d') k →
  (∀ j lj x, ls !! j = Some lj → j ≠ i → x ∈ lj → x ∉ k) → NoDup (concat (<[i := l']> ls)) →
  let w' := SWorld (<[h := set_core c' s]> (spools w)) d' (req w) (ran w) in
  wrep hs w' (<[i := l']> ls) ∧ same_frame w w'.
Proof.
  intros Hw Hh Hi Hs Hlaw Hr' [Hacc [Hfr Hpay]] Hdisj Hnd w'. simpl in *. split.
  - split; [|apply Hw|done]. apply Forall2_same_length_lookup. split.
    { rewrite length_insert. by eapply Forall2_length, Hw. }
    intros j hj lj Hj Hlj. destruct (decide (j = i)) as [->|Hne].
    + rewrite list_lookup_insert_eq in Hlj by done. simplify_eq.
      exists (set_core c' s). simpl. by rewrite lookup_insert_eq.
    + rewrite list_lookup_insert_ne in Hlj by done.
      destruct (Forall2_lookup_lr _ _ _ _ _ _ (wr_pools _ _ _ Hw) Hj Hlj) as (sj & Hsj & Hrj & Hlawj).
      exists sj. simpl. rewrite lookup_insert_ne.
      2:{ intros ->. apply Hne. eapply NoDup_lookup; [apply Hw|done|done]. }
      split_and!; try done. eapply pool_rep_same; [|exact Hrj]. intros b Hb. apply Hfr. by eapply Hdisj.
  - unfold same_frame. split_and!; try done; [by apply payload_dom|].
    intros h'. simpl. destruct (decide (h' = h)) as [->|Hne]; [|by rewrite lookup_insert_ne].
    rewrite lookup_insert_eq, Hs. simpl. unfold flags. simpl. by rewrite Hacc.
Qed.

Lemma pop_ok hs w ls i h l ctx :
  wrep hs w ls → hs !! i = Some h → ls !! i = Some l →
  ∃ r w', ABTI_pool_pop h ctx w = Done (r, w') ∧
    match r with
    | None => l = [] ∧ w' = w
    | Some p => ∃ l', l ≡ₚ p :: l' ∧ wrep hs w' (<[i := l']> ls) ∧ same_frame w w' ∧
        detached (descs w') p ∧ p ∉ concat (<[i := l']> ls)
    end.
Proof.
  intros Hw Hh Hl. destruct (Forall2_lookup_lr _ _ _ _ _ _ (wr_pools _ _ _ Hw) Hh Hl) as (s & Hs & Hr & Hlaw).
  destruct (@pop_law _ Hlaw _ _ ctx Hr) as (r & [c' d'] & E & Hpost).
  exists r, (SWorld (<[h := set_core c' s]> (spools w)) d' (req w) (ran w)). split.
  { unfold ABTI_pool_pop, on_pool. by rewrite Hs, E. }
  destruct r as [p|].
  2:{ destruct Hpost as [-> [= -> ->]]. split; [done|]. destruct w; simpl in *. f_equal. apply insert_id. rewrite Hs. by destruct s. }
  destruct Hpost as (l' & Hp & Hr' & Hfr & Hdet). exists l'. split; [done|].
  pose proof (concat_perm_insert ls i l p l' Hl Hp) as Hperm.
  assert (NoDup (p :: concat (<[i := l']> ls))) as [Hpn Hnd]%NoDup_cons by (rewrite <- Hperm; apply Hw).
  destruct (wrep_update hs w ls i h s l' c' d' l) as [Hw' Hsf]; try done; [by eapply lookup_lt_Some|].
  intros j lj x Hj Hne Hx. by eapply (concat_disjoint ls j i); [apply Hw|done..].
Qed.

Lemma push_ok hs w ls i h l p ctx :
  wrep hs w ls → hs !! i = Some h → ls !! i = Some l → p ∉ concat ls → p ∈ dom (descs w) →
  Z.of_nat (size (dom (descs w))) < 2 ^ 64 →
  ∃ w' l', on_pool h (λ o, p_push (builtin p) ctx) w = Done ((), w') ∧ l' ≡ₚ p :: l ∧
    wrep hs w' (<[i := l']> ls) ∧ same_frame w w'.
Proof.
  intros Hw Hh Hl Hn Hd Hsz. destruct (Forall2_lookup_lr _ _ _ _ _ _ (wr_pools _ _ _ Hw) Hh Hl) as (s & Hs & Hr & Hlaw).
  destruct (@push_law _ Hlaw _ _ p ctx Hr) as ([c' d'] & l' & E & Hr' & Hp & Hfr); [|done|done|].
  { intros Hx. apply Hn. by eapply concat_elem. }
  eexists _, l'. split; [unfold on_pool; by rewrite Hs, E|]. split; [done|].
  apply (wrep_update hs w ls i h s l' c' d' (p :: l)); try done; [by eapply lookup_lt_Some| |].
  - intros j lj x Hj Hne Hx [->|Hxl]%elem_of_cons; [apply Hn; by eapply concat_elem|].
    by eapply (concat_disjoint ls j i) in Hx; [|apply Hw|done..].
  - assert (Hperm : concat (<[i := l']> ls) ≡ₚ p :: concat ls).
    { rewrite (concat_perm_insert (<[i := l']> ls) i l' p l); [|apply list_lookup_insert_eq; by eapply lookup_lt_Some|done].
      by rewrite list_insert_insert_eq, (list_insert_id _ _ _ Hl). }
    rewrite Hperm. apply NoDup_cons. split; [done|apply Hw].
Qed.

Lemma pool_is_empty_ok hs w ls i h l :
  wrep hs w ls → hs !! i = Some h → ls !! i = Some l →
  ABTI_pool_is_empty h w = Done (bool_decide (l = []), w).
Proof.
  intros Hw Hh Hl. destruct (Forall2_lookup_lr _ _ _ _ _ _ (wr_pools _ _ _ Hw) Hh Hl) as (s & Hs & Hr & Hlaw).
  unfold ABTI_pool_is_empty, on_pool. rewrite Hs, (@empty_law _ Hlaw _ _ Hr).
  do 2 f_equal. destruct w; simpl in *. f_equal. apply insert_id. rewrite Hs. by destruct s.
Qed.

(** ** One pass over the pools

    Both kinds of passes take the first unit they find; [first_unit] also counts the
    attempts. *)

Fixpoint first_unit (pools : list nat) : C sworld (option ptr * Z) :=
  match pools with
  | [] => mret (None, 0)
  | h :: pools =>
      thread ← ABTI_pool_pop h ABT_POOL_CONTEXT_OP_POOL_OTHER;
      match thread with
      | Some p => mret (Some p, 1)
      | None => r ← first_unit pools; mret (r.1, r.2 + 1)
      end
  end.

Section passes.
Context (schedule : ptr → C sworld unit).

Lemma prio_pass_first pools w r n w' :
  first_unit pools w = Done ((r, n), w') →
  prio_pass schedule pools w =
    (match r with Some p => run_unit schedule p;; mret true | None => mret false end) w'.
Proof.
  revert w r n. induction pools as [|h pools IH]; intros w r n E; [by injection E as <- <- <-|].
  simpl in E. apply C_bind_Done_inv in E as (t & w1 & Et & E). simpl. rewrite (C_bind_Done _ _ _ _ _ Et).
  destruct t as [p|]; [by injection E as <- <- <-|].
  apply C_bind_Done_inv in E as ([r1 n1] & w2 & Er & E). injection E as <- <- <-. by apply (IH _ _ _ Er).
Qed.

Lemma basic_pass_first pools c w r n w' :
  first_unit pools w = Done ((r, n), w') → 0 ≤ c → c + Z.of_nat (length pools) < 2 ^ 32 →
  basic_pass schedule pools c w =
    (match r with Some p => run_unit schedule p;; mret (c + n) | None => mret (c + n) end) w'.
Proof.
  revert c w r n. induction pools as [|h pools IH]; intros c w r n E Hc Hl.
  { injection E as <- <- <-. simpl. by rewrite Z.add_0_r. }
  simpl in E, Hl. apply C_bind_Done_inv in E as (t & w1 & Et & E). simpl.
  rewrite u32_small by lia. rewrite (C_bind_Done _ _ _ _ _ Et).
  destruct t as [p|]; [by injection E as <- <- <-|].
  apply C_bind_Done_inv in E as ([r1 n1] & w2 & Er & E). injection E as <- <- <-.
  rewrite (IH _ _ _ _ Er) by lia. simpl. by replace (c + 1 + n1) with (c + (n1 + 1)) by lia.
Qed.
End passes.

(** The first pool that is not empty gives the unit. *)
Definition takes_first (hs : list nat) (ls : list (list ptr)) (w : sworld) (r : option ptr) (w' : sworld) : Prop :=
  match r with
  | None => concat ls = [] ∧ w' = w
  | Some p => ∃ i l l', ls !! i = Some l ∧ concat (take i ls) = [] ∧ l ≡ₚ p :: l' ∧
      wrep hs w' (<[i := l']> ls) ∧ same_frame w w' ∧ detached (descs w') p ∧ p ∉ concat (<[i := l']> ls)
  end.

Lemma first_unit_from hs w ls k :
  wrep hs w ls → concat (take k ls) = [] →
  ∃ r n w', first_unit (drop k hs) w = Done ((r, n), w') ∧ takes_first hs ls w r w' ∧
    ((k < length hs)%nat → 1 ≤ n) ∧ 0 ≤ n ≤ Z.of_nat (length (drop k hs)).
Proof.
  intros Hw. assert (Hlen : length hs = length ls) by (by eapply Forall2_length, Hw).
  remember (length (drop k hs)) as m eqn:Em. revert k Em. induction m as [|m IH]; intros k Em Hk.
  - symmetry in Em. apply nil_length_inv in Em as Ed. rewrite Ed. exists None, 0, w. split; [done|].
    rewrite length_drop in Em. rewrite take_ge in Hk by lia. split; [by split|lia].
  - destruct (lookup_lt_is_Some_2 hs k) as [h Hh]; [rewrite length_drop in Em; lia|].
    destruct (lookup_lt_is_Some_2 ls k) as [l Hl]; [rewrite length_drop in Em; lia|].
    rewrite (drop_S _ _ _ Hh). simpl.
    destruct (pop_ok hs w ls k h l ABT_POOL_CONTEXT_OP_POOL_OTHER Hw Hh Hl) as (r & w' & E & Hr).
    rewrite (C_bind_Done _ _ _ _ _ E). destruct r as [p|].
    + destruct Hr as (l' & Hp & Hw' & Hf & Hd & Hn). exists (Some p), 1, w'. split; [done|].
      split; [|lia]. by exists k, l, l'.
    + destruct Hr as [-> ->]. destruct (IH (S k)) as (r & n & w' & E' & Ht & _ & Hn).
      { rewrite (drop_S _ _ _ Hh) in Em. simpl in Em. lia. }
      { by rewrite (take_S_r _ _ _ Hl), concat_app, Hk. }
      exists r, (n + 1), w'. rewrite (C_bind_Done _ _ _ _ _ E'). split; [done|]. split; [done|lia].
Qed.

Lemma first_unit_ok hs w ls :
  wrep hs w ls →
  ∃ r n w', first_unit hs w = Done ((r, n), w') ∧ takes_first hs ls w r w' ∧
    (hs ≠ [] → 1 ≤ n) ∧ 0 ≤ n ≤ Z.of_nat (length hs).
Proof.
  intros Hw. destruct (first_unit_from hs w ls 0 Hw eq_refl) as (r & n & w' & E & Ht & Hn & Hb).
  exists r, n, w'. split; [done|]. split; [done|]. rewrite drop_0 in Hb. split; [|done]. intros Hne. apply Hn. destruct hs; [done|simpl; lia].
Qed.

(** ** Is there a unit left *)

Lemma has_unit_of hs w ls q :
  wrep hs w ls → q ⊆ hs →
  ∃ b, ABTI_sched_has_unit q w = Done (b, w) ∧
    (b = true ↔ ∃ i h l s, h ∈ q ∧ hs !! i = Some h ∧ ls !! i = Some l ∧ spools w !! h = Some s ∧
       (l ≠ [] ∨ counts_blocked s = true)).
Proof.
  intros Hw. induction q as [|h q IH]; intros Hsub.
  { exists false. split; [done|]. split; [done|]. intros (i & h & l & s & Hh & _). by apply elem_of_nil in Hh. }
  assert (h ∈ hs) as [i Hi]%list_elem_of_lookup by set_solver.
  destruct (lookup_lt_is_Some_2 ls i) as [l Hl].
  { rewrite <- (Forall2_length _ _ _ (wr_pools _ _ _ Hw)). by eapply lookup_lt_Some. }
  destruct (Forall2_lookup_lr _ _ _ _ _ _ (wr_pools _ _ _ Hw) Hi Hl) as (s & Hs & _).
  simpl. rewrite (C_bind_Done _ _ _ _ _ (pool_is_empty_ok _ _ _ _ _ _ Hw Hi Hl)). destruct l as [|p l]; simpl.
  - rewrite (C_bind_Done _ _ w s w) by (unfold get_pool; by rewrite Hs).
    destruct (counts_blocked s) eqn:Hb.
    { exists true. split; [done|]. split; [|done]. intros _. exists i, h, [], s. split_and!; auto. by left. }
    destruct IH as (b & E & Hiff); [set_solver|]. exists b. split; [done|]. rewrite Hiff. split.
    + intros (j & h' & l' & s' & Hq & Hrest). exists j, h', l', s'. split; [by right|done].
    + intros (j & h' & l' & s' & [->|Hq]%elem_of_cons & Hj & Hlj & Hsj & Hor); [|by exists j, h', l', s'].
      assert (j = i) as -> by (eapply NoDup_lookup; [apply Hw|done|done]). simplify_eq. destruct Hor; congruence.
  - exists true. split; [done|]. split; [|done]. intros _. exists i, h, (p :: l), s. split_and!; auto. by left.
Qed.

(** Nothing is ready and no blocked unit is waited for. *)
Definition quiet (hs : list nat) (w : sworld) (ls : list (list ptr)) : Prop := concat ls = [] ∧ idle hs w.

Lemma has_unit_ok hs w ls q :
  wrep hs w ls → q ≡ₚ hs → ∃ b, ABTI_sched_has_unit q w = Done (b, w) ∧ (b = false ↔ quiet hs w ls).
Proof.
  intros Hw Hq. destruct (has_unit_of hs w ls q Hw) as (b & E & Hb); [intros x; by rewrite Hq|].
  exists b. split; [done|]. rewrite <- not_true_iff_false, Hb. unfold quiet. split.
  - intros Hno. assert (Hall : ∀ i l, ls !! i = Some l → ∃ h s, hs !! i = Some h ∧ spools w !! h = Some s ∧ l = [] ∧ counts_blocked s = false).
    { intros i l Hl. destruct (lookup_lt_is_Some_2 hs i) as [h Hh].
      { rewrite (Forall2_length _ _ _ (wr_pools _ _ _ Hw)). by eapply lookup_lt_Some. }
      destruct (Forall2_lookup_lr _ _ _ _ _ _ (wr_pools _ _ _ Hw) Hh Hl) as (s & Hs & _).
      assert (Hin : h ∈ q) by (rewrite Hq; by eapply list_elem_of_lookup_2).
      exists h, s. split_and!; try done.
      - destruct l as [|p l]; [done|]. destruct Hno. exists i, h, (p :: l), s. split_and!; auto.
      - destruct (counts_blocked s) eqn:Hc; [|done]. destruct Hno. exists i, h, l, s. split_and!; auto. }
    split.
    + destruct (concat ls) as [|p r] eqn:Hc; [done|].
      assert (In p (concat ls)) as (l & Hl & Hp)%in_concat by (rewrite Hc; by left).
      apply list_elem_of_In, list_elem_of_lookup in Hl as [i Hl]. by destruct (Hall i l Hl) as (_ & _ & _ & _ & -> & _).
    + intros h s [i Hi]%list_elem_of_lookup Hs. destruct (lookup_lt_is_Some_2 ls i) as [l Hl].
      { rewrite <- (Forall2_length _ _ _ (wr_pools _ _ _ Hw)). by eapply lookup_lt_Some. }
      destruct (Hall i l Hl) as (h' & s' & Hh' & Hs' & _ & Hb'). by simplify_eq.
  - intros [Hc Hid] (i & h & l & s & Hin & Hi & Hl & Hs & [Hne|Hbl]).
    + destruct l as [|p l]; [done|]. assert (p ∈ concat ls) as Hp by (eapply concat_elem; [exact Hl|by left]).
      rewrite Hc in Hp. by apply elem_of_nil in Hp.
    + rewrite (Hid h s) in Hbl; [done|by eapply list_elem_of_lookup_2|done].
Qed.

(** ** What the loop does when the work ends *)

Section drain.
Context (hs : list nat).

(** Nothing is said of what the units do, except that the work ends: while [I] holds of the
    world and of the units in the pools, every unit that a pass takes comes back to the
    scheduler, and the measure [μ] of the work that is left (after [k] checks for events) is
    smaller then.  The unit may have yielded and be in a pool again, may have created or
    resumed other units, may be blocked, or may have ended.  A check for events finds no cancel
    request; what other execution streams did in the meantime may show there, such as units that they
    resumed or created, and when nothing was ready and there is still something to wait for,
    this was progress.  The units in the pools are taken by this scheduler only. *)
Record work_ends (μ : nat → sworld → nat) (I : sworld → list (list ptr) → Prop)
    (schedule : ptr → C sworld unit) (events : nat → C sworld Z) : Prop := {
  we_rep w ls : I w ls → wrep hs w ls;
  we_req r w ls : I w ls → I (set_req r w) ls;
  we_req_measure k r w : μ k (set_req r w) = μ k w;
  we_run k w ls p n w1 : I w ls → first_unit hs w = Done ((Some p, n), w1) →
    ∃ w' ls', schedule p (log_run p w1) = Done ((), w') ∧ I w' ls' ∧ req w' = req w ∧ ran w' = ran w ++ [p] ∧
      (∀ x, x ∈ concat ls → x ≠ p → x ∈ concat ls') ∧ (μ k w' < μ k w)%nat;
  we_events k w ls : I w ls →
    ∃ r w' ls', events k w = Done (r, w') ∧ has_req r ABTI_THREAD_REQ_CANCEL = false ∧
      I w' ls' ∧ req w' = req w ∧ ran w' = ran w ∧ (∀ x, x ∈ concat ls → x ∈ concat ls') ∧
      (μ (S k) w' ≤ μ k w)%nat ∧ (concat ls = [] → ¬ quiet hs w' ls' → (μ (S k) w' < μ k w)%nat)
}.

Context (μ : nat → sworld → nat) (I : sworld → list (list ptr) → Prop).
Context (schedule : ptr → C sworld unit) (events : nat → C sworld Z).
Context (Hends : work_ends μ I schedule events).

(** No unit gets lost. *)
Definition kept (w : sworld) (ls : list (list ptr)) (w' : sworld) (ls' : list (list ptr)) : Prop :=
  (∀ x, x ∈ concat ls → x ∈ concat ls' ∨ x ∈ ran w') ∧ (∀ x, x ∈ ran w → x ∈ ran w').

(** What one iteration does up to the check. *)
Definition iteration_ok (k : nat) (w : sworld) (ls : list (list ptr)) (w' : sworld) (ls' : list (list ptr)) : Prop :=
  I w' ls' ∧ req w' = req w ∧ kept w ls w' ls' ∧
  (if decide (concat ls = []) then w' = w ∧ ls' = ls else (μ k w' < μ k w)%nat).

Lemma run_first_ok {A} (m : C sworld A) k w ls r n w1 :
  I w ls → first_unit hs w = Done ((r, n), w1) → takes_first hs ls w r w1 →
  ∃ w' ls', (match r with Some p => run_unit schedule p;; m | None => m end) w1 = m w' ∧ iteration_ok k w ls w' ls'.
Proof using Hends.
  intros Hw E Ht. destruct r as [p|]; simpl in Ht.
  - destruct (we_run _ _ _ _ Hends k w ls p n w1 Hw E) as (w' & ls' & Es & Hw' & Hq & Hr & Hsub & Hm).
    exists w', ls'. split.
    { unfold run_unit. rewrite C_bind_assoc, (C_bind_Done _ _ w1 () (log_run p w1)) by done. by rewrite (C_bind_Done _ _ _ _ _ Es). }
    destruct Ht as (i & l & l' & Hl & _ & Hp & _).
    pose proof (concat_perm_insert ls i l p l' Hl Hp) as Hperm. unfold iteration_ok, kept. rewrite Hr. split_and!; try done.
    + intros x Hx. destruct (decide (x = p)) as [->|]; [right; set_solver|left; by apply Hsub].
    + intros x Hx. set_solver.
    + by rewrite decide_False by (intros E0; rewrite E0 in Hperm; by apply Permutation_nil_cons in Hperm).
  - destruct Ht as [He ->]. exists w, ls. split; [done|]. unfold iteration_ok, kept. rewrite decide_True by done. split_and!; auto.
Qed.

(** A body of the loop that runs a unit if there is one. *)
Definition body_ok (freq : Z) (body : nat → Z → C sworld Z) : Prop :=
  ∀ n k c w ls, I w ls → 0 ≤ c → (c = 0 ∨ c < freq) →
  ∃ c' w' ls', body n c w = Done (c', w') ∧ c + 1 ≤ c' ∧ iteration_ok k w ls w' ls'.

Lemma prio_body_ok freq :
  freq < 2 ^ 32 → body_ok freq (λ _ c, prio_pass schedule hs;; mret (u32 (c + 1))).
Proof using Hends.
  intros Hf n k c w ls Hw Hc Hcf. destruct (first_unit_ok hs w ls (we_rep _ _ _ _ Hends _ _ Hw)) as (r & m & w1 & E & Ht & _).
  destruct (run_first_ok (mret tt) k w ls r m w1 Hw E Ht) as (w' & ls' & E' & Hit).
  exists (c + 1), w', ls'. split_and!; [|lia|done].
  assert (∃ b, prio_pass schedule hs w = Done (b, w')) as [b Eb].
  { rewrite (prio_pass_first _ _ _ _ _ _ E). destruct r as [p|]; [|by injection E' as <-; exists false].
    apply C_bind_Done_inv in E' as ([] & w2 & E2 & [= <-]). exists true. by rewrite (C_bind_Done _ _ _ _ _ E2). }
  rewrite (C_bind_Done _ _ _ _ _ Eb). by rewrite u32_small by lia.
Qed.

Lemma basic_body_ok freq :
  hs ≠ [] → freq + Z.of_nat (length hs) ≤ 2 ^ 32 → Z.of_nat (length hs) < 2 ^ 32 →
  body_ok freq (λ _ c, basic_pass schedule hs c).
Proof using Hends.
  intros Hne Hf Hl n k c w ls Hw Hc Hcf.
  destruct (first_unit_ok hs w ls (we_rep _ _ _ _ Hends _ _ Hw)) as (r & m & w1 & E & Ht & Hm & Hm').
  destruct (run_first_ok (mret (c + m)) k w ls r m w1 Hw E Ht) as (w' & ls' & E' & Hit).
  exists (c + m), w', ls'. specialize (Hm Hne). split_and!; [|lia|done].
  rewrite (basic_pass_first schedule hs c w r m w1 E) by lia. exact E'.
Qed.
End drain.

Lemma has_req_lor r a b : has_req (Z.lor r a) b = has_req r b || has_req a b.
Proof.
  unfold has_req. rewrite Z.land_lor_distr_l.
  destruct (Z.eqb_spec (Z.land r b) 0) as [Hr|Hr], (Z.eqb_spec (Z.land a b) 0) as [Ha|Ha],
    (Z.eqb_spec (Z.lor (Z.land r b) (Z.land a b)) 0) as [E|E]; try done.
  - by rewrite Hr, Ha in E.
  - apply Z.lor_eq_0_iff in E as []. congruence.
  - apply Z.lor_eq_0_iff in E as []. congruence.
  - apply Z.lor_eq_0_iff in E as []. congruence.
Qed.

(** To stop when there is nothing left, but not before. *)
Definition finishing (w : sworld) : Prop :=
  has_req (req w) (Z.lor ABTI_SCHED_REQ_FINISH ABTI_SCHED_REQ_REPLACE) = true ∧ has_req (req w) ABTI_SCHED_REQ_EXIT = false.

Lemma has_to_stop_ok used hs q w ls :
  wrep hs w ls → finishing w → q ≡ₚ hs →
  ∃ b, ABTI_sched_has_to_stop used q w = Done (b, w) ∧ (b = true ↔ quiet hs w ls).
Proof.
  intros Hw [Hf He] Hq. unfold ABTI_sched_has_to_stop. rewrite (C_bind_Done _ _ w w w) by done. rewrite He.
  destruct (has_unit_ok hs w ls q Hw Hq) as (b & Hu & Hb). rewrite (C_bind_Done _ _ _ _ _ Hu).
  exists (negb b). rewrite negb_true_iff. split; [|done]. destruct b; [done|]. cbn [negb].
  rewrite (C_bind_Done _ _ w w w) by done. rewrite Hf. by rewrite (C_bind_Done _ _ _ _ _ Hu).
Qed.

Section loop.
Context (hs q : list nat) (μ : nat → sworld → nat) (I : sworld → list (list ptr) → Prop).
Context (schedule : ptr → C sworld unit) (events : nat → C sworld Z) (used : ABTI_sched_used) (d : sched_data).
Context (body : nat → Z → C sworld Z).
Context (Hends : work_ends hs μ I schedule events).

(** What a check for events does to a scheduler that is told to finish. *)
Lemma check_events_ok k w ls :
  I w ls → finishing w →
  ∃ w' ls', ABTI_xstream_check_events events k w = Done ((), w') ∧ I w' ls' ∧ finishing w' ∧ kept w ls w' ls' ∧
    (μ (S k) w' ≤ μ k w)%nat ∧ (concat ls = [] → ¬ quiet hs w' ls' → (μ (S k) w' < μ k w)%nat).
Proof using Hends.
  intros Hw [Hf He]. destruct (we_events _ _ _ _ _ Hends k w ls Hw) as (r & w1 & ls1 & E & Hc & Hw1 & Hq & Hr & Hsub & Hle & Hlt).
  set (r' := if has_req r ABTI_THREAD_REQ_JOIN then Z.lor (req w1) ABTI_SCHED_REQ_FINISH else req w1).
  exists (set_req r' w1), ls1. split_and!.
  - unfold ABTI_xstream_check_events. rewrite (C_bind_Done _ _ _ _ _ E), Hc. subst r'.
    destruct (has_req r ABTI_THREAD_REQ_JOIN); [done|]. by destruct w1.
  - by eapply we_req.
  - unfold finishing. subst r'. simpl. destruct (has_req r ABTI_THREAD_REQ_JOIN); rewrite ?has_req_lor, Hq, Hf, He; done.
  - split; [intros x Hx; left; by apply Hsub|]. intros x. simpl. by rewrite Hr.
  - by rewrite (we_req_measure _ _ _ _ _ Hends).
  - by rewrite (we_req_measure _ _ _ _ _ Hends).
Qed.

(** Everything has been run, and no unit of the pools is blocked. *)
Definition drained (ls : list (list ptr)) (w w' : sworld) : Prop :=
  (∃ ls', wrep hs w' ls' ∧ quiet hs w' ls') ∧
  (∀ x, x ∈ concat ls → x ∈ ran w') ∧ (∀ x, x ∈ ran w → x ∈ ran w').

Lemma drained_step ls w w1 ls1 w' : kept w ls w1 ls1 → drained ls1 w1 w' → drained ls w w'.
Proof.
  intros (Hx & Hr) (He & Hx' & Hr'). split_and!; [done| |by auto].
  intros x Hin. destruct (Hx x Hin); auto.
Qed.

(** How many more iterations are enough: at most [event_freq] of them between two events that
    make the measure smaller. *)
Definition enough (m : nat) (ls : list (list ptr)) (c : Z) : Z :=
  Z.of_nat m * Z.max 1 (event_freq d) +
  (if decide (concat ls = []) then Z.max 0 (event_freq d - c) else Z.max 0 (event_freq d)).

Lemma enough_le m ls c : 0 ≤ c → enough m ls c ≤ Z.of_nat m * Z.max 1 (event_freq d) + Z.max 0 (event_freq d).
Proof. intros. unfold enough. case_decide; lia. Qed.

Lemma enough_lt m m' ls ls' c c' :
  (m' < m)%nat → 0 ≤ c' → (c = 0 ∨ c < event_freq d) → enough m' ls' c' < enough m ls c.
Proof.
  intros Hm Hc' Hc. pose proof (enough_le m' ls' c' Hc') as Hle. unfold enough at 2.
  assert (Z.of_nat m' * Z.max 1 (event_freq d) + Z.max 1 (event_freq d) ≤ Z.of_nat m * Z.max 1 (event_freq d)) by nia.
  case_decide; lia.
Qed.

Lemma drain_loop fuel n k c w ls :
  body_ok μ I (event_freq d) body → q ≡ₚ hs →
  I w ls → finishing w → 0 ≤ c → (c = 0 ∨ c < event_freq d) →
  enough (μ k w) ls c < Z.of_nat fuel →
  ∃ w', sched_loop events used q d body fuel n k c w = Done ((), w') ∧ drained ls w w'.
Proof using Hends.
  intros Hbody Hq. revert n k c w ls. induction fuel as [|fuel IH]; intros n k c w ls Hw Hfin Hc Hcf Hfuel.
  { exfalso. unfold enough in Hfuel. case_decide; nia. }
  destruct (Hbody n k c w ls Hw Hc Hcf) as (c' & w1 & ls1 & E & Hc' & Hw1 & Hq1 & Hk1 & Hprog).
  simpl. rewrite (C_bind_Done _ _ _ _ _ E).
  assert (Hfin1 : finishing w1) by (unfold finishing; by rewrite Hq1).
  destruct (Z.leb_spec (event_freq d) c') as [Hcheck|Hno].
  - destruct (check_events_ok k w1 ls1 Hw1 Hfin1) as (w2 & ls2 & Ec & Hw2 & Hfin2 & Hk2 & Hle & Hlt).
    rewrite (C_bind_Done _ _ _ _ _ Ec).
    destruct (has_to_stop_ok used hs q w2 ls2 (we_rep _ _ _ _ _ Hends _ _ Hw2) Hfin2 Hq) as (b & Es & Hb).
    rewrite (C_bind_Done _ _ _ _ _ Es). destruct b.
    + exists w2. split; [done|]. eapply drained_step, drained_step; [exact Hk1|exact Hk2|].
      assert (Hqu : quiet hs w2 ls2) by (by apply Hb). split_and!; [exists ls2; split; [by eapply we_rep|done]| |done].
      destruct Hqu as [-> _]. intros x []%elem_of_nil.
    + assert (Hnq : ¬ quiet hs w2 ls2) by (intros Hqu; by apply Hb in Hqu).
      assert (Hm : (μ (S k) w2 < μ k w)%nat).
      { destruct (decide (concat ls = [])) as [He|He]; [|lia]. destruct Hprog as [-> ->]. by apply Hlt. }
      destruct (IH (S n) (S k) 0 w2 ls2) as (w' & E' & Hd); try done; try lia.
      { pose proof (enough_lt (μ k w) (μ (S k) w2) ls ls2 c 0 Hm ltac:(lia) Hcf). lia. }
      exists w'. split; [done|]. eapply drained_step, drained_step; [exact Hk1|exact Hk2|exact Hd].
  - destruct (IH (S n) k c' w1 ls1) as (w' & E' & Hd); try done; try lia.
    + destruct (decide (concat ls = [])) as [He|He].
      * destruct Hprog as [-> ->]. unfold enough in *. rewrite decide_True in * by done. lia.
      * pose proof (enough_lt (μ k w) (μ k w1) ls ls1 c c' Hprog ltac:(lia) Hcf). lia.
    + exists w'. split; [done|]. by eapply drained_step.
Qed.
End loop.

(** ** Theorems *)

(** C18: a scheduler that is told to finish runs everything and returns.  For all schedulers'
    pools (of the implementations that keep their units in a thread queue) and whatever the
    units do, as long as the work ends ([work_ends]: units may yield, create others,
    block and be resumed, and a measure becomes smaller with every run and with every check that
    finds nothing ready and something to wait for), the basic and the priority
    scheduler return with all pools empty and without a blocked unit that they have to wait for;
    every unit that was in a pool has been run.  At most the event frequency many iterations pass
    for each step of the measure, and once more at the end. *)
Theorem sched_drains schedule events used hs d μ I w ls fuel :
  hs ≡ₚ data_pools d → data_pools d ≠ [] → 0 ≤ event_freq d → Z.of_nat (length (data_pools d)) < 2 ^ 32 →
  event_freq d + Z.of_nat (length (data_pools d)) ≤ 2 ^ 32 →
  work_ends (data_pools d) μ I schedule events → I w ls → finishing w →
  Z.of_nat (μ 0%nat w) * Z.max 1 (event_freq d) + event_freq d < Z.of_nat fuel →
  (∃ w', sched_run_basic schedule events used hs d fuel w = Done ((), w') ∧ drained (data_pools d) ls w w') ∧
  (∃ w', sched_run_prio schedule events used hs d fuel w = Done ((), w') ∧ drained (data_pools d) ls w w').
Proof.
  intros Hp Hne Hf0 Hl Hf Hends Hw Hfin Hfuel. pose proof (enough_le d (μ 0%nat w) ls 0 ltac:(lia)).
  unfold sched_run_basic, sched_run_prio, sched_run. destruct (data_pools d) as [|h0 t0] eqn:Ed; [done|]. rewrite <- Ed in *.
  split; apply (drain_loop (data_pools d) hs μ I schedule events used d); try done; try lia.
  - by apply (basic_body_ok (data_pools d) μ I schedule events Hends).
  - apply (prio_body_ok (data_pools d) μ I schedule events Hends). destruct (data_pools d); [done|]. simpl in Hf. lia.
Qed.

(** Two pools, the second one with a unit. *)
Definition two_pools : sworld :=
  let (p, h) := match p_push (PoolOps := fifo_shared) (builtin 2) 0 idle_pool with Done (_, s) => s | Fault _ => idle_pool end in
  SWorld {[ 0%nat := Spool idle_pool.1 fifo_shared true 1 0 true true; 1%nat := Spool p fifo_shared true 1 0 true true ]}
    h ABTI_SCHED_REQ_FINISH [].

Lemma two_pools_wrep : wrep [0; 1]%nat two_pools [[]; [2%positive]].
Proof.
  destruct (@push_law _ fifo_shared_laws idle_pool [] 2 0 idle_pool_rep) as (s' & l' & E & Hr & Hp & Hf);
    [apply not_elem_of_nil|by vm_compute|by vm_compute|].
  apply Permutation_singleton_r in Hp as ->.
  assert (Es : p_push (PoolOps := fifo_shared) (builtin 2) 0 idle_pool = Done ((), s')) by exact E.
  unfold two_pools. rewrite Es. destruct s' as [p h]. split.
  - constructor; [|constructor; [|constructor]].
    + exists (Spool idle_pool.1 fifo_shared true 1 0 true true). split; [done|]. split; [|apply _].
      eapply (pool_rep_same _ idle_pool.2); [intros b []%elem_of_nil|exact idle_pool_rep].
    + exists (Spool p fifo_shared true 1 0 true true). split; [done|]. split; [exact Hr|apply _].
  - apply (bool_decide_unpack _). by vm_compute.
  - apply NoDup_singleton.
Qed.

(** A program for the two pools: the unit 2 yields to its pool, then blocks, is resumed in the
    first pool by another execution stream (at the second check for events or
    later), then creates the unit 1 and ends; the unit 1 ends. *)
Definition push_unit (h : nat) (p : ptr) : C sworld unit := on_pool h (λ o, p_push (builtin p) 0).

Definition set_num_blocked (n : Z) (s : spool) : spool :=
  Spool (core s) (ops s) (sp_automatic s) (num_scheds s) n (has_pop_wait s) (has_pop_timedwait s).

Definition set_blocked (h : nat) (n : Z) : C sworld unit :=
  modify (λ w, SWorld (alter (set_num_blocked n) h (spools w)) (descs w) (req w) (ran w)).

Definition is_blocked (w : sworld) : bool := default false (counts_blocked <$> spools w !! 1%nat).

Definition example_unit (p : ptr) : C sworld unit :=
  w ← get;
  match length (ran w) with
  | 1 => push_unit 1 p
  | 2 => set_blocked 1 1
  | 3 => push_unit 0 1
  | _ => mret ()
  end%nat.

Definition example_events (k : nat) : C sworld Z :=
  w ← get;
  if is_blocked w && (1 <=? k)%nat then set_blocked 1 0;; push_unit 0 2;; mret 0 else mret 0.

Definition example_work (k : nat) (w : sworld) : nat :=
  (2 - k + match length (ran w) with
           | 0 => 5 | 1 => 4 | 2 => if is_blocked w then 3 else 2 | 3 => 1 | _ => 0
           end)%nat.

(** Both pools are shared by all, with one scheduler; [b] units of the second one are blocked. *)
Definition example_flags (b : Z) (w : sworld) : Prop :=
  flags <$> spools w !! 0%nat = Some (ABT_POOL_ACCESS_MPMC, 1, 0) ∧
  flags <$> spools w !! 1%nat = Some (ABT_POOL_ACCESS_MPMC, 1, b).

Definition example_phase (n : nat) (b : Z) (ls : list (list ptr)) : Prop :=
  (n ≤ 1)%nat ∧ b = 0 ∧ ls = [[]; [2%positive]] ∨
  n = 2%nat ∧ b = 1 ∧ ls = [[]; []] ∨
  n = 2%nat ∧ b = 0 ∧ ls = [[2%positive]; []] ∨
  n = 3%nat ∧ b = 0 ∧ ls = [[1%positive]; []] ∨
  n = 4%nat ∧ b = 0 ∧ ls = [[]; []].

Definition example_inv (w : sworld) (ls : list (list ptr)) : Prop :=
  wrep [0; 1]%nat w ls ∧ dom (descs w) = dom (descs two_pools) ∧
  ∃ b, example_flags b w ∧ example_phase (length (ran w)) b ls.

Lemma counts_blocked_flags s b :
  flags s = (ABT_POOL_ACCESS_MPMC, 1, b) → counts_blocked s = negb (b =? 0).
Proof. destruct s as [c o a n m pw pt]. unfold flags, counts_blocked. simpl. by intros [= -> -> ->]. Qed.

Lemma example_blocked b w : example_flags b w → is_blocked w = negb (b =? 0).
Proof.
  intros [_ H]. unfold is_blocked. destruct (spools w !! 1%nat) as [s|]; [|done].
  apply (inj Some) in H. simpl. by apply counts_blocked_flags.
Qed.

Lemma example_flags_same b w w' : same_frame w w' → example_flags b w → example_flags b w'.
Proof. intros (_ & _ & _ & Hf) [H0 H1]. split; by rewrite Hf. Qed.

Lemma example_flags_set b n w w' : set_blocked 1 n w = Done ((), w') → example_flags b w → example_flags n w'.
Proof.
  intros [= <-] [H0 H1]. unfold example_flags. simpl. rewrite lookup_alter_ne, lookup_alter_eq by done. split; [done|].
  destruct (spools w !! 1%nat) as [s|]; [|done]. simpl in *. unfold flags in *. simpl. congruence.
Qed.

Lemma example_wrep_set n w w' ls : set_blocked 1 n w = Done ((), w') → wrep [0; 1]%nat w ls → wrep [0; 1]%nat w' ls.
Proof.
  intros [= <-] [Hp Hh Hu]. split; [|done..]. eapply Forall2_impl; [exact Hp|]. intros h l (s & Hs & Hr & Hl).
  unfold pool_at. simpl. destruct (decide (h = 1%nat)) as [->|Hne].
  - exists (set_num_blocked n s). by rewrite lookup_alter_eq, Hs.
  - exists s. by rewrite lookup_alter_ne.
Qed.

Lemma example_take ls w p w1 x :
  ls = [[]; [x]] ∨ ls = [[x]; []] → takes_first [0; 1]%nat ls w (Some p) w1 →
  p = x ∧ wrep [0; 1]%nat w1 [[]; []] ∧ same_frame w w1.
Proof.
  intros Hls (i & l & l' & Hl & _ & Hp & Hw & Hf & _).
  assert (Hl1 : l ≠ []) by (intros ->; by apply Permutation_nil_cons in Hp).
  destruct Hls as [-> | ->]; destruct i as [|[|i]]; simplify_eq/=;
    apply Permutation_singleton_l in Hp; by simplify_eq/=.
Qed.

(** What an operation of the example leaves alone. *)
Definition example_kept (w w' : sworld) : Prop :=
  req w' = req w ∧ ran w' = ran w ∧ dom (descs w') = dom (descs w).

Lemma example_push h i x b w l ls :
  wrep [0; 1]%nat w ls → example_flags b w → dom (descs w) = dom (descs two_pools) →
  [0; 1]%nat !! i = Some h → ls !! i = Some l → l = [] → x ∉ concat ls → x ∈ dom (descs two_pools) →
  ∃ w', push_unit h x w = Done ((), w') ∧ wrep [0; 1]%nat w' (<[i := [x]]> ls) ∧ example_flags b w' ∧ example_kept w w'.
Proof.
  intros Hw Hfl Hd Hi Hl -> Hn Hx.
  destruct (push_ok [0; 1]%nat w ls i h [] x 0 Hw Hi Hl Hn) as (w' & l' & E & Hp & Hw' & Hf).
  { by rewrite Hd. }
  { rewrite Hd. by vm_compute. }
  apply Permutation_singleton_r in Hp as ->. exists w'. split_and!; [done|done|by eapply example_flags_same|].
  destruct Hf as (? & ? & ? & _). by split_and!.
Qed.

Lemma two_pools_dom x : x = 1%positive ∨ x = 2%positive → x ∈ dom (descs two_pools).
Proof. intros [-> | ->]; apply elem_of_dom, (bool_decide_unpack _); by vm_compute. Qed.

Lemma example_nothing ls w p w1 : ls = [[]; []] → ¬ takes_first [0; 1]%nat ls w (Some p) w1.
Proof.
  intros -> (i & l & l' & Hl & _ & Hp & _).
  assert (l = []) as -> by (destruct i as [|[|i]]; by simplify_eq/=). by apply Permutation_nil_cons in Hp.
Qed.

Lemma example_run_ok k w ls p n w1 :
  example_inv w ls → first_unit [0; 1]%nat w = Done ((Some p, n), w1) →
  ∃ w' ls', example_unit p (log_run p w1) = Done ((), w') ∧ example_inv w' ls' ∧ req w' = req w ∧ ran w' = ran w ++ [p] ∧
    (∀ x, x ∈ concat ls → x ≠ p → x ∈ concat ls') ∧ (example_work k w' < example_work k w)%nat.
Proof.
  intros (Hw & Hd & b & Hfl & Hph) E. destruct (first_unit_ok _ _ _ Hw) as (r & m & w1' & E' & Ht & _).
  rewrite E in E'. injection E' as <- <- <-. pose proof (example_blocked _ _ Hfl) as Hbl.
  destruct (decide (ls = [[]; []])) as [Hnil|Hls]; [by destruct (example_nothing _ _ _ _ Hnil Ht)|].
  assert (∃ x, (ls = [[]; [x]] ∨ ls = [[x]; []]) ∧ concat ls = [x]) as (x & Hx & Hc)
    by (destruct Hph as [(_ & _ & ->)|[(_ & _ & ->)|[(_ & _ & ->)|[(_ & _ & ->)|(_ & _ & ->)]]]]; try done; eauto).
  destruct (example_take _ _ _ _ _ Hx Ht) as (-> & Hw1 & Hf).
  pose proof (example_flags_same _ _ _ Hf Hfl) as Hfl1. destruct Hf as (Hq1 & Hr1 & Hd1 & _).
  set (w2 := log_run x w1). assert (Hw2 : wrep [0; 1]%nat w2 [[]; []]) by (destruct Hw1; by split).
  assert (Hfl2 : example_flags b w2) by exact Hfl1. assert (Hd2 : dom (descs w2) = dom (descs two_pools)) by (simpl; congruence).
  assert (Hr2 : ran w2 = ran w ++ [x]) by (simpl; by rewrite Hr1). assert (Hq2 : req w2 = req w) by done.
  assert (Hn2 : length (ran w2) = S (length (ran w))) by (rewrite Hr2, length_app; simpl; lia).
  assert (Hsub : ∀ ls' y, y ∈ concat ls → y ≠ x → y ∈ concat ls') by (rewrite Hc; intros ls' y Hy; by apply list_elem_of_singleton in Hy).
  clearbody w2. unfold example_unit. rewrite (C_bind_Done _ _ w2 w2 w2), Hn2 by done.
  destruct Hph as [(Hn & -> & ->)|[(_ & _ & ->)|[(Hn & -> & ->)|[(Hn & -> & ->)|(_ & _ & ->)]]]]; try done.
  - simplify_eq/=. destruct (length (ran w)) as [|[|]] eqn:En; [| |lia].
    + destruct (example_push 1 1 2 0 w2 [] [[]; []] Hw2 Hfl2 Hd2) as (w' & E1 & Hw' & Hfl' & Hq' & Hr' & Hd'); [done..|set_solver|apply two_pools_dom; auto|].
      exists w', [[]; [2%positive]]. rewrite Hr', Hq', Hr2. split_and!; [exact E1| |done|done|apply Hsub|].
      * split_and!; [done|congruence|]. exists 0. rewrite Hr', Hn2. split; [done|]. left. split; [lia|done].
      * unfold example_work. rewrite Hr', Hn2, En. lia.
    + eexists _, [[]; []]. split; [done|]. split_and!; [|done..| |].
      * split_and!; [by eapply example_wrep_set|done|]. exists 1. simpl. rewrite Hn2. split; [by eapply example_flags_set|]. right; left. by split_and!.
      * apply Hsub.
      * unfold example_work. cbn [ran]. rewrite Hn2, En. case_match; lia.
  - simplify_eq/=. rewrite Hn.
    destruct (example_push 0 0 1 0 w2 [] [[]; []] Hw2 Hfl2 Hd2) as (w' & E1 & Hw' & Hfl' & Hq' & Hr' & Hd'); [done..|set_solver|apply two_pools_dom; auto|].
    exists w', [[1%positive]; []]. rewrite Hr', Hq', Hr2. split_and!; [exact E1| |done|done|apply Hsub|].
    * split_and!; [done|congruence|]. exists 0. rewrite Hr', Hn2, Hn. split; [done|]. do 3 right. left. by split_and!.
    * unfold example_work. rewrite Hr', Hn2, Hn, Hbl. simpl. lia.
  - simplify_eq/=. rewrite Hn. exists w2, [[]; []]. split; [done|]. split_and!; [|done..| |].
    * split_and!; [done|done|]. exists 0. rewrite Hn2, Hn. split; [done|]. do 4 right. by split_and!.
    * apply Hsub.
    * unfold example_work. rewrite Hn2, Hn. lia.
Qed.

Lemma example_idle w : example_flags 0 w → idle [0; 1]%nat w.
Proof.
  intros [H0 H1] h s Hh Hs. apply counts_blocked_flags with (b := 0).
  apply elem_of_cons in Hh as [->|Hh]; [|apply list_elem_of_singleton in Hh as ->]; rewrite Hs in *; by apply (inj Some).
Qed.

Lemma example_events_ok k w ls :
  example_inv w ls →
  ∃ r w' ls', example_events k w = Done (r, w') ∧ has_req r ABTI_THREAD_REQ_CANCEL = false ∧
    example_inv w' ls' ∧ req w' = req w ∧ ran w' = ran w ∧ (∀ x, x ∈ concat ls → x ∈ concat ls') ∧
    (example_work (S k) w' ≤ example_work k w)%nat ∧
    (concat ls = [] → ¬ quiet [0; 1]%nat w' ls' → (example_work (S k) w' < example_work k w)%nat).
Proof.
  intros Hinv. pose proof Hinv as (Hw & Hd & b & Hfl & Hph). pose proof (example_blocked _ _ Hfl) as Hbl.
  unfold example_events. rewrite (C_bind_Done _ _ w w w), Hbl by done.
  destruct (decide (b = 0)) as [->|Hb].
  { exists 0, w, ls. split_and!; try done.
    - unfold example_work. lia.
    - intros Hc []. split; [done|by apply example_idle]. }
  assert (b = 1 ∧ length (ran w) = 2%nat ∧ ls = [[]; []]) as (-> & Hn & ->)
    by (destruct Hph as [(_ & ? & _)|[(? & ? & ?)|[(_ & ? & _)|[(_ & ? & _)|(_ & ? & _)]]]]; done).
  cbn [Z.eqb negb andb]. destruct (Nat.leb_spec 1 k) as [Hk|Hk].
  - destruct (set_blocked 1 0 w) as [[[] w1]|] eqn:E1; [|done]. rewrite (C_bind_Done _ _ _ _ _ E1).
    pose proof (example_flags_set _ _ _ _ E1 Hfl) as Hfl1. pose proof (example_wrep_set _ _ _ _ E1 Hw) as Hw1.
    assert (example_kept w w1) as (Hq1 & Hr1 & Hd1) by (by injection E1 as <-).
    destruct (example_push 0 0 2 0 w1 [] [[]; []] Hw1 Hfl1) as (w2 & E2 & Hw2 & Hfl2 & Hq2 & Hr2 & Hd2);
      [congruence|done..|set_solver|apply two_pools_dom; auto|].
    exists 0, w2, [[2%positive]; []]. rewrite (C_bind_Done _ _ _ _ _ E2).
    assert (Hm : (example_work (S k) w2 < example_work k w)%nat).
    { unfold example_work. rewrite (example_blocked _ _ Hfl2), Hbl, Hr2, Hr1, Hn. simpl. lia. }
    split_and!; [done|done| |congruence|congruence|intros x []%elem_of_nil|lia|done].
    split_and!; [done|congruence|]. exists 0. rewrite Hr2, Hr1, Hn. split; [done|]. do 2 right. left. by split_and!.
  - exists 0, w, [[]; []]. assert (k = 0)%nat as -> by lia. split_and!; try done; unfold example_work; lia.
Qed.

Lemma example_work_ends : work_ends [0; 1]%nat example_work example_inv example_unit example_events.
Proof.
  split; [by intros ? ? []| |done|apply example_run_ok|apply example_events_ok].
  intros r w ls ([] & Hd & b & Hfl & Hph). split_and!; [by split|done|]. by exists b.
Qed.

Lemma two_pools_inv : example_inv two_pools [[]; [2%positive]].
Proof.
  split_and!; [apply two_pools_wrep|done|]. exists 0. split; [split; by vm_compute|]. left. split_and!; [by vm_compute; lia|done..].
Qed.

Lemma sched_drains_witness :
  (∃ w', sched_run_basic example_unit example_events ABTI_SCHED_MAIN [0; 1]%nat (SchedData 3 [0; 1]%nat) 25 two_pools = Done ((), w') ∧
     drained [0; 1]%nat [[]; [2%positive]] two_pools w') ∧
  (∃ w', sched_run_prio example_unit example_events ABTI_SCHED_MAIN [0; 1]%nat (SchedData 3 [0; 1]%nat) 25 two_pools = Done ((), w') ∧
     drained [0; 1]%nat [[]; [2%positive]] two_pools w').
Proof.
  apply (sched_drains example_unit example_events ABTI_SCHED_MAIN [0; 1]%nat (SchedData 3 [0; 1]%nat) example_work example_inv
    two_pools [[]; [2%positive]] 25);
    [reflexivity|discriminate|simpl; lia|simpl; lia|simpl; lia|apply example_work_ends|apply two_pools_inv| |].
  - split; reflexivity.
  - vm_compute. reflexivity.
Defined.

(** The four runs of the example, in order. *)
Lemma example_runs :
  match sched_run_prio example_unit example_events ABTI_SCHED_MAIN [0; 1]%nat (SchedData 3 [0; 1]%nat) 25 two_pools with
  | Done (_, w') => ran w' = [2; 2; 2; 1]%positive
  | Fault _ => False
  end.
Proof. vm_compute. reflexivity. Qed.

(** the priority scheduler runs a unit of the first pool that is not empty; a unit of a
    pool waits as long as there is one in a pool of higher priority. *)
Theorem prio_highest_first schedule hs w ls :
  wrep hs w ls →
  (concat ls = [] ∧ prio_pass schedule hs w = Done (false, w)) ∨
  (∃ i l l' p w1, ls !! i = Some l ∧ concat (take i ls) = [] ∧ l ≡ₚ p :: l' ∧ wrep hs w1 (<[i := l']> ls) ∧
     ran w1 = ran w ∧ prio_pass schedule hs w = (run_unit schedule p;; mret true) w1).
Proof.
  intros Hw. destruct (first_unit_ok hs w ls Hw) as (r & n & w1 & E & Ht & _).
  rewrite (prio_pass_first schedule _ _ _ _ _ E). destruct r as [p|].
  - destruct Ht as (i & l & l' & Hl & He & Hp & Hw1 & (_ & Hr & _) & _). right. by exists i, l, l', p, w1.
  - destruct Ht as [He ->]. by left.
Qed.

Lemma prio_highest_first_witness :
  ∃ i l l' p w1, [[]; [2%positive]] !! i = Some l ∧ concat (take i [[]; [2%positive]]) = [] ∧ l ≡ₚ p :: l' ∧
    wrep [0; 1]%nat w1 (<[i := l']> [[]; [2%positive]]) ∧ ran w1 = ran two_pools ∧
    prio_pass (λ _, mret ()) [0; 1]%nat two_pools = (run_unit (λ _, mret ()) p;; mret true) w1.
Proof.
  destruct (prio_highest_first (λ _, mret ()) [0; 1]%nat two_pools [[]; [2%positive]] two_pools_wrep) as [[He _]|H].
  - discriminate.
  - exact H.
Defined.

(** the work-stealing scheduler takes a unit of its own pool if there is one, as its owner;
    otherwise, if it has other pools, it tries exactly one of them, chosen by the
    random number and always within the array, as a thief.  It never faults. *)
Theorem randws_own_then_steal schedule hs d rand n w ls :
  data_pools d = hs → wrep hs w ls → (2 ≤ length hs)%nat → 0 ≤ rand n →
  ∃ h0 l0 t ht lt, hs !! 0%nat = Some h0 ∧ ls !! 0%nat = Some l0 ∧
    (1 ≤ t < length hs)%nat ∧ hs !! t = Some ht ∧ ls !! t = Some lt ∧
    (l0 ≠ [] → ∃ p w1, ABTI_pool_pop h0 ABT_POOL_CONTEXT_OWNER_PRIMARY w = Done (Some p, w1) ∧ p ∈ l0 ∧
       randws_pass schedule hs d rand n w = run_unit schedule p w1) ∧
    (l0 = [] → ∃ r w1, ABTI_pool_pop ht ABT_POOL_CONTEXT_OWNER_SECONDARY w = Done (r, w1) ∧
       match r with
       | None => lt = [] ∧ randws_pass schedule hs d rand n w = Done ((), w)
       | Some p => p ∈ lt ∧ randws_pass schedule hs d rand n w = run_unit schedule p w1
       end).
Proof.
  intros Hd Hw Hlen Hrand. pose proof (Forall2_length _ _ _ (wr_pools _ _ _ Hw)) as Hll.
  set (target := if Z.of_nat (length hs) =? 2 then 1 else Z.rem (rand n) (Z.of_nat (length hs) - 1) + 1).
  assert (Ht : 1 ≤ target < Z.of_nat (length hs)).
  { unfold target. destruct (Z.eqb_spec (Z.of_nat (length hs)) 2); [lia|].
    pose proof (Z.rem_bound_pos (rand n) (Z.of_nat (length hs) - 1) ltac:(lia) ltac:(lia)). lia. }
  destruct (lookup_lt_is_Some_2 hs 0) as [h0 Hh0]; [lia|]. destruct (lookup_lt_is_Some_2 ls 0) as [l0 Hl0]; [lia|].
  destruct (lookup_lt_is_Some_2 hs (Z.to_nat target)) as [ht Hht]; [lia|].
  destruct (lookup_lt_is_Some_2 ls (Z.to_nat target)) as [lt Hlt]; [lia|].
  destruct (pop_ok hs w ls 0 h0 l0 ABT_POOL_CONTEXT_OWNER_PRIMARY Hw Hh0 Hl0) as (r0 & w0 & E0 & Hr0).
  assert (Hnth : ∀ i h w, 0 ≤ i → hs !! Z.to_nat i = Some h → nth_pool d i w = Done (h, w)).
  { intros i h w' Hi Hh. unfold nth_pool. destruct (Z.ltb_spec i 0); [lia|]. by rewrite Hd, Hh. }
  exists h0, l0, (Z.to_nat target), ht, lt. split_and!; try done; try lia.
  - intros Hne. destruct r0 as [p|]; [|by destruct Hr0]. destruct Hr0 as (l' & Hp & _).
    exists p, w0. split_and!; [done|rewrite Hp; by left|]. unfold randws_pass.
    rewrite (C_bind_Done _ _ _ _ _ (Hnth 0 h0 w ltac:(lia) Hh0)). by rewrite (C_bind_Done _ _ _ _ _ E0).
  - intros ->. destruct r0 as [p|]; [destruct Hr0 as (? & Hp & _); by apply Permutation_nil_cons in Hp|].
    destruct Hr0 as [_ ->].
    destruct (pop_ok hs w ls (Z.to_nat target) ht lt ABT_POOL_CONTEXT_OWNER_SECONDARY Hw Hht Hlt) as (r & w1 & E & Hr).
    exists r, w1. split; [done|].
    assert (Erun : randws_pass schedule hs d rand n w = (match r with Some p => run_unit schedule p | None => mret () end) w1).
    { unfold randws_pass. rewrite (C_bind_Done _ _ _ _ _ (Hnth 0 h0 w ltac:(lia) Hh0)), (C_bind_Done _ _ _ _ _ E0).
      destruct (Z.ltb_spec 1 (Z.of_nat (length hs))); [|lia]. fold target.
      rewrite (C_bind_Done _ _ _ _ _ (Hnth target ht w ltac:(lia) Hht)). by rewrite (C_bind_Done _ _ _ _ _ E). }
    rewrite Erun. destruct r as [p|]; [|by destruct Hr as [-> ->]]. destruct Hr as (l' & Hp & _). split; [rewrite Hp; by left|done].
Qed.

(** The own pool is empty, the other one has the unit 2. *)
Lemma randws_own_then_steal_witness :
  ∃ h0 l0 t ht lt, [0; 1]%nat !! 0%nat = Some h0 ∧ [[]; [2%positive]] !! 0%nat = Some l0 ∧
    (1 ≤ t < 2)%nat ∧ [0; 1]%nat !! t = Some ht ∧ [[]; [2%positive]] !! t = Some lt.
Proof.
  destruct (randws_own_then_steal (λ _, mret ()) [0; 1]%nat (SchedData 50 [0; 1]%nat) (λ _, 7) 0 two_pools
    [[]; [2%positive]] eq_refl two_pools_wrep) as (h0 & l0 & t & ht & lt & H1 & H2 & H3 & H4 & H5 & _).
  - simpl. lia.
  - lia.
  - exists h0, l0, t, ht, lt. split_and!; [exact H1|exact H2|apply H3|apply H3|exact H4|exact H5].
Defined.

(** The world [w'] is what a check left that found that the scheduler has to stop. *)
Definition told_to_stop (used : ABTI_sched_used) (hs : list nat) (w' : sworld) : Prop :=
  ∃ w1, ABTI_sched_has_to_stop used hs w1 = Done (true, w').

Lemma sched_loop_stops events used hs d body fuel n k c w w' :
  sched_loop events used hs d body fuel n k c w = Done ((), w') → told_to_stop used hs w'.
Proof.
  revert n k c w. induction fuel as [|fuel IH]; intros n k c w E; [done|]. simpl in E.
  apply C_bind_Done_inv in E as (c' & w1 & _ & E). destruct (event_freq d <=? c'); [|by eapply IH].
  apply C_bind_Done_inv in E as ([] & w2 & _ & E). apply C_bind_Done_inv in E as (b & w3 & Es & E).
  destruct b; [|by eapply IH]. injection E as <-. by exists w2.
Qed.

(** the schedulers return only after a check has found that they have to stop, except the
    waiting scheduler, which also returns after a unit that it got by waiting. *)
Theorem sched_returns_only_when_told schedule events used hs d rand clock others tenth wfuel fuel w w' :
  data_pools d ≠ [] → hs ≠ [] →
  (sched_run_basic schedule events used hs d fuel w = Done ((), w') → told_to_stop used hs w') ∧
  (sched_run_prio schedule events used hs d fuel w = Done ((), w') → told_to_stop used hs w') ∧
  (sched_run_randws schedule events used hs d rand fuel w = Done ((), w') → told_to_stop used hs w') ∧
  (sched_run_basic_wait schedule events used hs d clock others tenth wfuel fuel w = Done ((), w') →
     told_to_stop used hs w' ∨ ∃ n p w0 w1, wait_pass d clock others tenth wfuel n w0 = Done (Some p, w1) ∧
       run_unit schedule p w1 = Done ((), w')).
Proof.
  intros Hd Hh. unfold sched_run_basic, sched_run_prio, sched_run_randws, sched_run_basic_wait, sched_run.
  split_and!; [destruct (data_pools d); [done|apply sched_loop_stops]|destruct (data_pools d); [done|apply sched_loop_stops]|
    destruct hs; [done|apply sched_loop_stops]|].
  destruct (data_pools d) as [|h0 t0] eqn:Ed; [done|]. clear Hd.
  generalize 0%nat at 1 as n. generalize 0%nat as k. generalize 0 as c. revert w.
  induction fuel as [|fuel IH]; intros w c k n E; [done|]. simpl in E. rewrite Ed in E. rewrite <- Ed in E.
  apply C_bind_Done_inv in E as (found & w1 & _ & E). apply C_bind_Done_inv in E as (th & w2 & Et & E).
  destruct th as [p|].
  { right. destruct found; [done|]. by exists n, p, w1, w2. }
  destruct (negb found || _); [|by eapply IH].
  apply C_bind_Done_inv in E as ([] & w3 & _ & E). apply C_bind_Done_inv in E as (b & w4 & Es & E).
  destruct b; [|by eapply IH]. left. injection E as <-. by exists w3.
Qed.

Lemma sched_returns_only_when_told_witness :
  ∃ w', sched_run_prio (λ _, mret ()) (λ _, mret 0) ABTI_SCHED_MAIN [0; 1]%nat (SchedData 3 [0; 1]%nat) 52 two_pools = Done ((), w') ∧
    ran w' = [2%positive] ∧ told_to_stop ABTI_SCHED_MAIN [0; 1]%nat w'.
Proof.
  destruct (sched_run_prio (λ _, mret ()) (λ _, mret 0) ABTI_SCHED_MAIN [0; 1]%nat (SchedData 3 [0; 1]%nat) 52 two_pools)
    as [[[] w']|f] eqn:E.
  - exists w'. split; [reflexivity|]. split.
    + assert (Hr : match sched_run_prio (λ _, mret ()) (λ _, mret 0) ABTI_SCHED_MAIN [0; 1]%nat (SchedData 3 [0; 1]%nat) 52 two_pools with
                   | Done (_, w') => ran w' | Fault _ => [] end = [2%positive]) by (vm_compute; reflexivity).
      rewrite E in Hr. exact Hr.
    + refine (proj1 (proj2 (sched_returns_only_when_told (λ _, mret ()) (λ _, mret 0) ABTI_SCHED_MAIN [0; 1]%nat (SchedData 3 [0; 1]%nat)
        (λ _, 0) (λ _ _, 0) (λ _ _, mret ()) 0 0 52 two_pools w' _ _)) E); discriminate.
  - exfalso. assert (Hr : match sched_run_prio (λ _, mret ()) (λ _, mret 0) ABTI_SCHED_MAIN [0; 1]%nat (SchedData 3 [0; 1]%nat) 52 two_pools with
                   | Done _ => true | Fault _ => false end = true) by (vm_compute; reflexivity).
    rewrite E in Hr. discriminate.
Defined.

(** One empty pool; while the scheduler waits another thread pushes the units 1 and 2. *)
Definition one_pool : sworld :=
  SWorld {[ 0%nat := Spool idle_pool.1 fifo_shared true 1 0 true true ]} idle_pool.2 0 [].

(** the waiting scheduler runs the unit it waited for and returns, although nobody told it
    to stop and there is another unit in its pool. *)
Theorem basic_wait_returns_early :
  ∃ w', sched_run_basic_wait (λ _, mret ()) (λ _, mret 0) ABTI_SCHED_IN_POOL [0%nat] (SchedData 50 [0%nat])
          (λ _, tick) (λ _ i, if decide (i = 1%nat) then push_tail_of 1;; push_tail_of 2 else mret ()) 100 10 10 one_pool
        = Done ((), w') ∧
    ran w' = [1%positive] ∧ req w' = 0 ∧ ∃ w2, ABTI_sched_has_unit [0%nat] w' = Done (true, w2).
Proof.
  match goal with |- ∃ w', ?run = _ ∧ _ =>
    assert (H : match run with
                | Done (_, w') => (ran w', req w', match ABTI_sched_has_unit [0%nat] w' with Done (b, _) => b | Fault _ => false end)
                | Fault _ => ([], 1, false)
                end = ([1%positive], 0, true)) by (vm_compute; reflexivity);
    destruct run as [[[] w']|]; [|done]
  end.
  exists w'. split; [done|]. destruct (ABTI_sched_has_unit [0%nat] w') as [[b w2]|]; [|done].
  injection H as Hr Hq Hb. subst b. split; [done|]. split; [done|]. by exists w2.
Qed.

(** ** The order of the pools *)

(** What the C library promises of [qsort] with the comparison of the pools. *)
Definition qsort_ok (qsort : (Z → Z → Z) → list (Z * nat) → list (Z * nat)) : Prop :=
  ∀ l, qsort sched_cmp_pools l ≡ₚ l ∧ StronglySorted (λ x y, sched_cmp_pools x.1 y.1 ≤ 0) (qsort sched_cmp_pools l).

Definition access_num_of (w : sworld) (h : nat) (a : Z) : Prop :=
  ∃ s, spools w !! h = Some s ∧ pool_get_access_num s = Some a.

Lemma access_nums_ok hs w :
  Forall (λ h, ∃ a, access_num_of w h a) hs →
  ∃ l, access_nums hs w = Done (l, w) ∧ l.*2 = hs ∧ Forall (λ x, access_num_of w x.2 x.1) l.
Proof.
  induction 1 as [|h hs (a & s & Hs & Ha) _ (l & E & El & Hl)]; [by exists []|].
  exists ((a, h) :: l). split_and!; [|csimpl; by rewrite El|constructor; [by exists s|done]].
  simpl. rewrite (C_bind_Done _ _ w s w) by (unfold get_pool; by rewrite Hs). rewrite Ha.
  by rewrite (C_bind_Done _ _ _ _ _ E).
Qed.

Lemma cmp_le a b : sched_cmp_pools a b ≤ 0 → a ≤ b.
Proof. unfold sched_cmp_pools. destruct (Z.ltb_spec b a); [lia|]. destruct (Z.ltb_spec a b); lia. Qed.

Lemma sorted_le l i j a1 h1 a2 h2 :
  StronglySorted (λ x y : Z * nat, sched_cmp_pools x.1 y.1 ≤ 0) l →
  (i < j)%nat → l !! i = Some (a1, h1) → l !! j = Some (a2, h2) → a1 ≤ a2.
Proof.
  intros Hs. revert i j. induction Hs as [|x l Hs IH Hx]; intros i j Hij Hi Hj; [done|].
  destruct j as [|j]; [lia|]. destruct i as [|i]; simpl in *.
  - simplify_eq. rewrite list.Forall_forall in Hx. specialize (Hx (a2, h2) ltac:(by eapply list_elem_of_lookup_2)).
    by apply cmp_le in Hx.
  - eapply (IH i j); [lia|done|done].
Qed.

(** initialising a basic scheduler puts its pools in the order of their sharing: private
    pools before those with one consumer before the others, so that a pass serves private
    units first; no pool is lost.  Without a configuration the event frequency is the
    global one. *)
Theorem sched_init_private_first qsort global_freq hs w :
  qsort_ok qsort → Forall (λ h, ∃ a, access_num_of w h a) hs →
  ∃ d, sched_init qsort true global_freq None true true hs w = Done (inr d, w) ∧
    event_freq d = global_freq ∧ data_pools d ≡ₚ hs ∧
    ∀ i j h1 h2 a1 a2, (i < j)%nat → data_pools d !! i = Some h1 → data_pools d !! j = Some h2 →
      access_num_of w h1 a1 → access_num_of w h2 a2 → a1 ≤ a2.
Proof.
  intros Hq Hall. unfold sched_init. cbn [negb]. rewrite (C_bind_Done _ _ w global_freq w) by done. cbn [negb andb].
  destruct (Z.ltb_spec 1 (Z.of_nat (length hs))) as [Hl|Hl].
  - destruct (access_nums_ok hs w Hall) as (l & E & El & Hnum). destruct (Hq l) as [Hp Hs].
    set (k := qsort sched_cmp_pools l) in *. exists (SchedData global_freq k.*2). split_and!; [|done|cbn [data_pools]; by rewrite Hp, El|].
    + rewrite (C_bind_Done _ _ w (k.*2) w); [done|]. unfold sched_sort_pools. by rewrite (C_bind_Done _ _ _ _ _ E).
    + simpl. intros i j h1 h2 a1 a2 Hij Hi Hj Ha1 Ha2.
      apply list_lookup_fmap_Some in Hi as ([b1 ?] & -> & Hi). apply list_lookup_fmap_Some in Hj as ([b2 ?] & -> & Hj).
      assert (Hb : ∀ b h, (b, h) ∈ k → access_num_of w h b).
      { intros b h Hin. rewrite Hp in Hin. rewrite list.Forall_forall in Hnum. apply (Hnum (b, h) Hin). }
      pose proof (Hb _ _ (list_elem_of_lookup_2 _ _ _ Hi)) as (s1 & Hs1 & Hn1).
      pose proof (Hb _ _ (list_elem_of_lookup_2 _ _ _ Hj)) as (s2 & Hs2 & Hn2).
      destruct Ha1 as (? & ? & ?), Ha2 as (? & ? & ?). simpl in *. simplify_eq. by eapply (sorted_le k i j).
  - exists (SchedData global_freq hs). split_and!; [by rewrite (C_bind_Done _ _ w hs w)|done|done|].
    simpl. intros i j h1 h2 a1 a2 Hij Hi Hj. apply lookup_lt_Some in Hi, Hj. lia.
Qed.

(** The merge sort of the library satisfies what is asked of [qsort]. *)
Definition not_after (cmp : Z → Z → Z) (x y : Z * nat) : Prop := cmp x.1 y.1 ≤ 0.
Global Instance not_after_dec cmp x y : Decision (not_after cmp x y) := Z_le_dec (cmp x.1 y.1) 0.
Definition merge_qsort (cmp : Z → Z → Z) (l : list (Z * nat)) : list (Z * nat) := merge_sort (not_after cmp) l.

Lemma cmp_le_iff a b : sched_cmp_pools a b ≤ 0 ↔ a ≤ b.
Proof. unfold sched_cmp_pools. destruct (Z.ltb_spec b a), (Z.ltb_spec a b); lia. Qed.

Lemma merge_qsort_ok : qsort_ok merge_qsort.
Proof.
  intros l. unfold merge_qsort. split; [apply merge_sort_Permutation|].
  assert (Transitive (not_after sched_cmp_pools)) by (intros x y z; unfold not_after; rewrite !cmp_le_iff; lia).
  assert (Total (not_after sched_cmp_pools)) by (intros x y; unfold not_after; rewrite !cmp_le_iff; lia).
  apply (StronglySorted_merge_sort (not_after sched_cmp_pools) l).
Qed.

(** A shared pool and a private one are swapped. *)
Lemma sched_init_private_first_witness :
  ∃ d, sched_init merge_qsort true 50 None true true [0; 1]%nat
         (SWorld {[ 0%nat := Spool (mk_pool ABT_POOL_ACCESS_MPMC None) fifo_shared true 1 0 true true;
                    1%nat := Spool (mk_pool ABT_POOL_ACCESS_PRIV None) fifo_private true 1 0 true true ]} ∅ 0 [])
       = Done (inr d, SWorld {[ 0%nat := Spool (mk_pool ABT_POOL_ACCESS_MPMC None) fifo_shared true 1 0 true true;
                    1%nat := Spool (mk_pool ABT_POOL_ACCESS_PRIV None) fifo_private true 1 0 true true ]} ∅ 0 []) ∧
    event_freq d = 50 ∧ data_pools d ≡ₚ [0; 1]%nat.
Proof.
  match goal with |- ∃ d, sched_init _ _ _ _ _ _ ?hs ?w = _ ∧ _ =>
    destruct (sched_init_private_first merge_qsort 50 hs w merge_qsort_ok) as (d & E & Hf & Hp & _) end.
  - constructor; [|constructor; [|constructor]]; eexists _, _; split; reflexivity.
  - exists d. split; [exact E|]. split; [exact Hf|exact Hp].
Defined.
