(* ===== verification/SchedPool.v ===== *)
(** * Creating and freeing pools and schedulers

    argobots/src/pool/pool.c, pool/pool_user_def.c (which kind of definition), sched/sched.c and
    the helpers in include/abti_pool.h and include/abti_sched.h: what is allocated, counted and
    given back, on every path.  [st] holds the pools and schedulers that exist, the other
    blocks of memory and the threads of schedulers; freeing what does not exist is
    undefined.  Everything that may fail (malloc, the [p_init] of a pool, the [init] of a
    scheduler, the creation of a thread) takes its outcome from [outcomes], so that the theorems
    cover every combination of failures.  A pool counts the schedulers that use it. *)

From stdpp Require Import base tactics decidable option list numbers gmap fin_maps sets.
From Stdlib Require Import ZArith Lia.
From S2P Require Import Prelude Abt Pool.
Open Scope Z_scope.

Abbreviation addr := nat (only parsing).

Definition ABTI_SCHED_NUM_PRIO : nat := 3.

Inductive ABT_pool_kind := ABT_POOL_FIFO | ABT_POOL_FIFO_WAIT | ABT_POOL_RANDWS | OtherKind.
Inductive ABT_sched_predef := ABT_SCHED_DEFAULT | ABT_SCHED_BASIC | ABT_SCHED_PRIO | ABT_SCHED_RANDWS | ABT_SCHED_BASIC_WAIT | OtherPredef.
Inductive ABTI_sched_used := ABTI_SCHED_NOT_USED | ABTI_SCHED_MAIN | ABTI_SCHED_IN_POOL.

#[export] Instance used_eq : EqDecision ABTI_sched_used.
Proof. solve_decision. Defined.

(** Which functions a definition has. *)
Record pool_def := PoolDef { has_init : bool; has_free : bool }.
Record ABT_sched_def := SchedDef { s_init : bool; s_free : bool }.

(** [ready]: [p_init] has run, so that [p_free] has something to free. *)
Record ABTI_pool := MkPool {
  access : Z; automatic : bool; is_builtin : bool; num_scheds : Z; num_blocked : Z; id : Z; def : pool_def; ready : bool
}.
Record ABTI_sched := MkSched {
  used : ABTI_sched_used; s_automatic : bool; s_def : ABT_sched_def;
  sched_pools : addr;             (* the array, *)
  pool_list : list (option addr); (* and what it holds *)
  p_ythread : option addr; s_ready : bool
}.

Record st := St {
  pools : gmap addr ABTI_pool;
  scheds : gmap addr ABTI_sched;
  blocks : gset addr;
  ythreads : gset addr;
  brk : addr;
  next_id : Z;
  outcomes : list Z
}.

Definition set_pools v s := St v (scheds s) (blocks s) (ythreads s) (brk s) (next_id s) (outcomes s).
Definition set_scheds v s := St (pools s) v (blocks s) (ythreads s) (brk s) (next_id s) (outcomes s).
Definition set_blocks v s := St (pools s) (scheds s) v (ythreads s) (brk s) (next_id s) (outcomes s).
Definition set_ythreads v s := St (pools s) (scheds s) (blocks s) v (brk s) (next_id s) (outcomes s).
Definition set_brk v s := St (pools s) (scheds s) (blocks s) (ythreads s) v (next_id s) (outcomes s).
Definition set_next_id v s := St (pools s) (scheds s) (blocks s) (ythreads s) (brk s) v (outcomes s).
Definition set_outcomes v s := St (pools s) (scheds s) (blocks s) (ythreads s) (brk s) (next_id s) v.

Abbreviation M := (C st).

(** ** Memory and failures *)

(** The result of the next call that may fail. *)
Definition next_outcome : M Z := λ s,
  match outcomes s with
  | [] => Done (ABT_SUCCESS, s)
  | r :: l => Done (r, set_outcomes l s)
  end.

Definition fresh : M addr := λ s, Done (brk s, set_brk (S (brk s)) s).

(** A block of memory, or an error. *)
Definition ABTU_malloc : M (Z + addr) :=
  r ← next_outcome;
  if r =? ABT_SUCCESS then a ← fresh; modify (λ s, set_blocks ({[a]} ∪ blocks s) s);; mret (inr a) else mret (inl r).

(** A scheduler goes with its block. *)
Definition ABTU_free (a : addr) : M unit := λ s,
  if decide (a ∈ blocks s) then Done ((), set_scheds (delete a (scheds s)) (set_blocks (blocks s ∖ {[a]}) s)) else Fault UB.

Definition pool_at (a : addr) : M ABTI_pool := λ s, match pools s !! a with Some p => Done (p, s) | None => Fault UB end.
Definition sched_at (a : addr) : M ABTI_sched := λ s, match scheds s !! a with Some p => Done (p, s) | None => Fault UB end.
Definition put_pool (a : addr) (p : ABTI_pool) : M unit := modify (λ s, set_pools (<[a := p]> (pools s)) s).
Definition put_sched (a : addr) (x : ABTI_sched) : M unit := modify (λ s, set_scheds (<[a := x]> (scheds s)) s).

Definition set_num_scheds v p := MkPool (access p) (automatic p) (is_builtin p) v (num_blocked p) (id p) (def p) (ready p).
Definition set_ready v p := MkPool (access p) (automatic p) (is_builtin p) (num_scheds p) (num_blocked p) (id p) (def p) v.
Definition set_used v x := MkSched v (s_automatic x) (s_def x) (sched_pools x) (pool_list x) (p_ythread x) (s_ready x).
Definition set_pool_list v x := MkSched (used x) (s_automatic x) (s_def x) (sched_pools x) v (p_ythread x) (s_ready x).
Definition set_p_ythread v x := MkSched (used x) (s_automatic x) (s_def x) (sched_pools x) (pool_list x) v (s_ready x).
Definition set_s_ready v x := MkSched (used x) (s_automatic x) (s_def x) (sched_pools x) (pool_list x) (p_ythread x) v.

(** ** Pools *)

Definition pool_get_new_id : M Z := i ← gets next_id; modify (set_next_id (u64 (i + 1)));; mret i.

(** The setting [automatic] of a configuration, if there is one. *)
Definition read_automatic (p_config : option (option Z)) (def_automatic : bool) : bool :=
  match p_config with Some (Some v) => negb (v =? 0) | _ => def_automatic end.

Definition pool_create (acc : Z) (d : pool_def) (p_config : option (option Z)) (def_automatic builtin : bool) : M (Z + addr) :=
  r ← next_outcome;
  if negb (r =? ABT_SUCCESS) then mret (inl r) else
  p_pool ← fresh;
  i ← pool_get_new_id;
  put_pool p_pool (MkPool acc (read_automatic p_config def_automatic) builtin 0 0 i d false);;
  if has_init d then
    abt_errno ← next_outcome;
    if negb (abt_errno =? ABT_SUCCESS) then modify (λ s, set_pools (delete p_pool (pools s)) s);; mret (inl abt_errno)
    else p ← pool_at p_pool; put_pool p_pool (set_ready true p);; mret (inr p_pool)
  else mret (inr p_pool).

(** The built-in pools have both functions; their definitions accept every valid access mode. *)
Definition builtin_def (kind : ABT_pool_kind) : Z + pool_def :=
  match kind with
  | OtherKind => inl ABT_ERR_INV_POOL_KIND
  | _ => inr (PoolDef true true)
  end.

Definition valid_access (acc : Z) : bool :=
  (acc =? ABT_POOL_ACCESS_PRIV) || (acc =? ABT_POOL_ACCESS_SPSC) || (acc =? ABT_POOL_ACCESS_MPSC) ||
  (acc =? ABT_POOL_ACCESS_SPMC) || (acc =? ABT_POOL_ACCESS_MPMC).

Definition ABTI_pool_create_basic (kind : ABT_pool_kind) (acc : Z) (auto : bool) : M (Z + addr) :=
  if negb (valid_access acc) then mret (inl ABT_ERR_INV_POOL_ACCESS) else
  match builtin_def kind with
  | inl err => mret (inl err)
  | inr d => pool_create acc d None auto true
  end.

Definition ABTI_pool_free (p_pool : addr) : M unit :=
  p ← pool_at p_pool;
  (if has_free (def p) then if has_init (def p) && negb (ready p) then throw UB else mret () else mret ());;
  modify (λ s, set_pools (delete p_pool (pools s)) s).

Definition ABTI_pool_retain (p_pool : addr) : M unit :=
  p ← pool_at p_pool; put_pool p_pool (set_num_scheds (i32 (num_scheds p + 1)) p).

Definition ABTI_pool_release (p_pool : addr) : M Z :=
  p ← pool_at p_pool;
  c_assert (0 <? num_scheds p);;
  put_pool p_pool (set_num_scheds (i32 (num_scheds p - 1)) p);;
  mret (i32 (num_scheds p - 1)).

(** ** Schedulers *)

(** The loop that creates the pools that are missing; [done] pairs what was given at an index with the
    pool that is used.  After a failure the pools that it created are freed. *)
Fixpoint free_created (done : list (option addr * addr)) : M unit :=
  match done with
  | [] => mret ()
  | (Some _, _) :: done => free_created done
  | (None, a) :: done => ABTI_pool_free a;; free_created done
  end.

Fixpoint create_pools (kind : ABT_pool_kind) (acc : Z) (done : list (option addr * addr)) (given : list (option addr)) :
    M (Z + list (option addr * addr)) :=
  match given with
  | [] => mret (inr done)
  | Some a :: given => create_pools kind acc (done ++ [(Some a, a)]) given
  | None :: given =>
      r ← ABTI_pool_create_basic kind acc true;
      match r with
      | inl abt_errno => free_created done;; mret (inl abt_errno)
      | inr a => create_pools kind acc (done ++ [(None, a)]) given
      end
  end.

Fixpoint retain_all (l : list addr) : M unit :=
  match l with [] => mret () | a :: l => ABTI_pool_retain a;; retain_all l end.

(** After a failed [init]: pools that were created here are freed, the others released. *)
Fixpoint undo_pools (done : list (option addr * addr)) : M unit :=
  match done with
  | [] => mret ()
  | (None, a) :: done => ABTI_pool_free a;; undo_pools done
  | (Some _, a) :: done => ABTI_pool_release a;; undo_pools done
  end.

(** The last part: the pools are there, the scheduler is filled in and initialised. *)
Definition sched_setup (d : ABT_sched_def) (p_config : option (option Z)) (def_automatic : bool) (p_sched arr : addr) (done : list (option addr * addr)) :
    M (Z + addr) :=
  retain_all done.*2;;
  put_sched p_sched (MkSched ABTI_SCHED_NOT_USED (read_automatic p_config def_automatic) d arr (Some <$> done.*2) None false);;
  if s_init d then
    abt_errno ← next_outcome;
    if negb (abt_errno =? ABT_SUCCESS) then undo_pools done;; ABTU_free arr;; ABTU_free p_sched;; mret (inl abt_errno)
    else x ← sched_at p_sched; put_sched p_sched (set_s_ready true x);; mret (inr p_sched)
  else mret (inr p_sched).

(** The array of pools. *)
Definition sched_fill (d : ABT_sched_def) (given : list (option addr)) (p_config : option (option Z)) (def_automatic : bool) (p_sched : addr) : M (Z + addr) :=
  m ← ABTU_malloc;
  match m with
  | inl abt_errno => ABTU_free p_sched;; mret (inl abt_errno)
  | inr arr =>
      c ← create_pools ABT_POOL_FIFO ABT_POOL_ACCESS_MPSC [] given;
      match c with
      | inl abt_errno => ABTU_free arr;; ABTU_free p_sched;; mret (inl abt_errno)
      | inr done => sched_setup d p_config def_automatic p_sched arr done
      end
  end.

Definition sched_create (d : ABT_sched_def) (given : list (option addr)) (p_config : option (option Z)) (def_automatic : bool) : M (Z + addr) :=
  m ← ABTU_malloc;
  match m with
  | inl abt_errno => mret (inl abt_errno)
  | inr p_sched => sched_fill d given p_config def_automatic p_sched
  end.

(** The definitions of the built-in schedulers. *)
Definition predef_def (predef : ABT_sched_predef) : Z + ABT_sched_def :=
  match predef with
  | OtherPredef => inl ABT_ERR_INV_SCHED_PREDEF
  | _ => inr (SchedDef true true)
  end.

Definition predef_pools (predef : ABT_sched_predef) : Z + (ABT_pool_kind * nat) :=
  match predef with
  | ABT_SCHED_DEFAULT | ABT_SCHED_BASIC | ABT_SCHED_RANDWS => inr (ABT_POOL_FIFO, 1%nat)
  | ABT_SCHED_BASIC_WAIT => inr (ABT_POOL_FIFO_WAIT, 1%nat)
  | ABT_SCHED_PRIO => inr (ABT_POOL_FIFO, ABTI_SCHED_NUM_PRIO)
  | OtherPredef => inl ABT_ERR_INV_SCHED_PREDEF
  end.

Definition create_predef (predef : ABT_sched_predef) (l : list addr) (p_config : option (option Z)) : M (Z + addr) :=
  match predef_def predef with
  | inl err => mret (inl err)
  | inr d => sched_create d (Some <$> l) p_config true
  end.

(** What both branches of [ABTI_sched_create_basic] do: the pools that are missing, the scheduler, and
    on failure the pools created here are freed. *)
Definition create_with (kind : ABT_pool_kind) (given : list (option addr)) (predef : ABT_sched_predef) (p_config : option (option Z)) : M (Z + addr) :=
  c ← create_pools kind ABT_POOL_ACCESS_MPMC [] given;
  match c with
  | inl abt_errno => mret (inl abt_errno)
  | inr done =>
      r ← create_predef predef done.*2 p_config;
      match r with
      | inl abt_errno => free_created done;; mret (inl abt_errno)
      | inr p_sched => mret (inr p_sched)
      end
  end.

(** [None] for no array.  The copy of the array is freed on every path; an array of length 0 needs no copy. *)
Definition ABTI_sched_create_basic (predef : ABT_sched_predef) (given : option (list (option addr))) (p_config : option (option Z)) : M (Z + addr) :=
  match given with
  | Some [] => create_with ABT_POOL_FIFO [] predef p_config
  | Some given =>
      m ← ABTU_malloc;
      match m with
      | inl abt_errno => mret (inl abt_errno)
      | inr pool_list => r ← create_with ABT_POOL_FIFO given predef p_config; ABTU_free pool_list;; mret r
      end
  | None =>
      match predef_pools predef with
      | inl abt_errno => mret (inl abt_errno)
      | inr (kind, n) => create_with kind (replicate n None) predef p_config
      end
  end.

Fixpoint release_pools (force_free : bool) (l : list (option addr)) : M unit :=
  match l with
  | [] => mret ()
  | None :: l => release_pools force_free l
  | Some p_pool :: l =>
      num_scheds ← ABTI_pool_release p_pool;
      p ← pool_at p_pool;
      (if (automatic p && (num_scheds =? 0)) || force_free then ABTI_pool_free p_pool else mret ());;
      release_pools force_free l
  end.

Definition ABTI_thread_free (a : addr) : M unit := λ s,
  if decide (a ∈ ythreads s) then Done ((), set_ythreads (ythreads s ∖ {[a]}) s) else Fault UB.

Definition ABTI_sched_free (p_sched : addr) (force_free : bool) : M unit :=
  x ← sched_at p_sched;
  c_assert (bool_decide (used x = ABTI_SCHED_NOT_USED));;
  (if s_free (s_def x) then
     if s_init (s_def x) && negb (s_ready x) then throw UB else put_sched p_sched (set_s_ready false x)
   else mret ());;
  release_pools force_free (pool_list x);;
  ABTU_free (sched_pools x);;
  (match p_ythread x with Some t => ABTI_thread_free t | None => mret () end);;
  ABTU_free p_sched.

Definition ABTI_sched_discard_and_free (p_sched : addr) (force_free : bool) : M unit :=
  x ← sched_at p_sched;
  put_sched p_sched (set_used ABTI_SCHED_NOT_USED x);;
  if s_automatic x || force_free then ABTI_sched_free p_sched force_free
  else match p_ythread x with
       | Some t => ABTI_thread_free t;; x ← sched_at p_sched; put_sched p_sched (set_p_ythread None x)
       | None => mret ()
       end.

(** ** The public functions *)

(** Where a result is stored: storing through NULL is undefined. *)
Definition out (p : option addr) : M unit := match p with Some _ => mret () | None => throw UB end.

(** The array that the caller gives must have the elements it says. *)
Definition array_of {A} (n : Z) (l : list A) : M (list A) :=
  if Z.of_nat (length l) <? n then throw UB else mret (take (Z.to_nat n) l).

(** [*newsched] is written before [newsched] is checked. *)
Definition ABT_sched_create (d : ABT_sched_def) (num_pools : Z) (given : list (option addr)) (config : option (option Z)) (newsched : option addr) :
    M (Z * option addr) :=
  out newsched;;
  if negb (bool_decide (is_Some newsched)) then mret (ABT_ERR_SCHED, None) else
  if negb (0 <=? num_pools) then mret (ABT_ERR_INV_ARG, None) else
  given ← array_of num_pools given;
  r ← sched_create d given config false;
  mret (match r with inl err => (err, None) | inr p_sched => (ABT_SUCCESS, Some p_sched) end).

Definition ABT_sched_create_basic (predef : ABT_sched_predef) (num_pools : Z) (given : option (list (option addr))) (config : option (option Z))
    (newsched : option addr) : M (Z * option addr) :=
  out newsched;;
  if negb (bool_decide (is_Some newsched)) then mret (ABT_ERR_SCHED, None) else
  if negb (0 <=? num_pools) then mret (ABT_ERR_INV_ARG, None) else
  given ← match given with Some l => l ← array_of num_pools l; mret (Some l) | None => mret None end;
  r ← ABTI_sched_create_basic predef given config;
  mret (match r with inl err => (err, None) | inr p_sched => (ABT_SUCCESS, Some p_sched) end).

Definition ABT_sched_free (sched : option addr) : M Z :=
  match sched with
  | None => mret ABT_ERR_INV_SCHED
  | Some p_sched =>
      x ← sched_at p_sched;
      if negb (bool_decide (used x = ABTI_SCHED_NOT_USED)) then mret ABT_ERR_SCHED else
      ABTI_sched_free p_sched false;; mret ABT_SUCCESS
  end.

Definition ABT_sched_get_num_pools (sched : option addr) : M (Z * Z) :=
  match sched with
  | None => mret (ABT_ERR_INV_SCHED, 0)
  | Some p_sched => x ← sched_at p_sched; mret (ABT_SUCCESS, i32 (Z.of_nat (length (pool_list x))))
  end.

(** The sum of two ints must be one. *)
Definition int_add (a b : Z) : M Z := if (- 2 ^ 31 <=? a + b) && (a + b <? 2 ^ 31) then mret (a + b) else throw UB.

Definition ABT_sched_get_pools (sched : option addr) (max_pools idx : Z) : M (Z * list (option addr)) :=
  match sched with
  | None => mret (ABT_ERR_INV_SCHED, [])
  | Some p_sched =>
      x ← sched_at p_sched;
      if negb (0 <=? max_pools) then mret (ABT_ERR_INV_ARG, []) else
      if negb (0 <=? idx) then mret (ABT_ERR_INV_ARG, []) else
      n ← int_add idx max_pools;
      if negb (u64 n <=? Z.of_nat (length (pool_list x))) then mret (ABT_ERR_SCHED, []) else
      mret (ABT_SUCCESS, take (Z.to_nat max_pools) (drop (Z.to_nat idx) (pool_list x)))
  end.

Definition ABT_pool_create_basic (kind : ABT_pool_kind) (acc : Z) (auto : bool) : M (Z * option addr) :=
  r ← ABTI_pool_create_basic kind acc auto;
  mret (match r with inl err => (err, None) | inr p => (ABT_SUCCESS, Some p) end).

(** A definition made by [ABT_pool_user_def_create], or the older structure with its access mode. *)
Definition ABT_pool_create (acc : option Z) (d : pool_def) (config : option (option Z)) : M (Z * option addr) :=
  r ← pool_create (match acc with None => ABT_POOL_ACCESS_MPMC | Some a => a end) d config false false;
  mret (match r with inl err => (err, None) | inr p => (ABT_SUCCESS, Some p) end).

Definition ABT_pool_free (pool : option addr) : M Z :=
  match pool with
  | None => mret ABT_ERR_INV_POOL
  | Some p_pool => ABTI_pool_free p_pool;; mret ABT_SUCCESS
  end.

(** [ABTI_ythread_create_sched]: a thread, or an error. *)
Definition ABTI_ythread_create_sched (p_sched : addr) : M Z :=
  r ← next_outcome;
  if negb (r =? ABT_SUCCESS) then mret r else
  t ← fresh;
  modify (λ s, set_ythreads ({[t]} ∪ ythreads s) s);;
  x ← sched_at p_sched; put_sched p_sched (set_p_ythread (Some t) x);; mret ABT_SUCCESS.

Definition ABT_pool_add_sched (pool sched : option addr) : M Z :=
  match pool with
  | None => mret ABT_ERR_INV_POOL
  | Some p_pool =>
      match sched with
      | None => mret ABT_ERR_INV_SCHED
      | Some p_sched =>
          x ← sched_at p_sched;
          if negb (bool_decide (used x = ABTI_SCHED_NOT_USED)) then mret ABT_ERR_INV_SCHED else
          put_sched p_sched (set_used ABTI_SCHED_IN_POOL x);;
          abt_errno ← ABTI_ythread_create_sched p_sched;
          if negb (abt_errno =? ABT_SUCCESS) then
            x ← sched_at p_sched; put_sched p_sched (set_used ABTI_SCHED_NOT_USED x);; mret abt_errno
          else mret ABT_SUCCESS
      end
  end.

(** ** References *)

Implicit Types (s : st) (T : gset addr) (a q : addr) (P : ABTI_pool) (x : ABTI_sched) (l : list addr).

(** How often a pool is in an array, and in the arrays of all schedulers. *)
Definition cnt (a : addr) (l : list (option addr)) : Z := Z.of_nat (length (filter (λ o, o = Some a) l)).
Definition refs (m : gmap addr ABTI_sched) (a : addr) : Z := map_fold (λ _ x n, n + cnt a (pool_list x)) 0 m.

Lemma cnt_cons a o k : cnt a (o :: k) = (if decide (o = Some a) then 1 else 0) + cnt a k.
Proof. unfold cnt. rewrite filter_cons. case_decide; [cbn [length]; lia|lia]. Qed.

Lemma cnt_nonneg a k : 0 ≤ cnt a k.
Proof. unfold cnt. lia. Qed.

Lemma cnt_pos a k : 0 < cnt a k ↔ Some a ∈ k.
Proof.
  induction k as [|o k IH]; [split; [done|by intros ?%not_elem_of_nil]|]. rewrite cnt_cons, elem_of_cons, <- IH.
  pose proof (cnt_nonneg a k). case_decide; split; intros H1; [auto|lia|right; lia|destruct H1; [congruence|lia]].
Qed.

Lemma refs_insert m b x a : m !! b = None → refs (<[b := x]> m) a = refs m a + cnt a (pool_list x).
Proof. intros Hb. unfold refs. rewrite map_fold_insert_L; [done| |done]. intros. lia. Qed.

Lemma refs_delete m b x a : m !! b = Some x → refs (delete b m) a = refs m a - cnt a (pool_list x).
Proof.
  intros Hb. rewrite <- (insert_delete_id m b x Hb) at 2. rewrite refs_insert by apply lookup_delete_eq. lia.
Qed.

Lemma refs_update m b x x' a : m !! b = Some x → pool_list x' = pool_list x → refs (<[b := x']> m) a = refs m a.
Proof.
  intros Hb E. rewrite <- insert_delete_eq, refs_insert by apply lookup_delete_eq. rewrite E, (refs_delete m b x a Hb). lia.
Qed.

Lemma refs_nonneg m a : 0 ≤ refs m a.
Proof.
  induction m as [|b x m Hb IH] using map_ind; [done|]. rewrite refs_insert by done. pose proof (cnt_nonneg a (pool_list x)). lia.
Qed.

Lemma refs_cnt m b x a : m !! b = Some x → cnt a (pool_list x) ≤ refs m a.
Proof. intros Hb. pose proof (refs_delete m b x a Hb). pose proof (refs_nonneg (delete b m) a). lia. Qed.

(** ** The invariant *)

Definition pool_ready P : Prop := has_init (def P) = true → ready P = true.
Definition sched_ready x : Prop := s_init (s_def x) = true → s_ready x = true.

(** Everything that is allocated, but for the blocks [T], is in use exactly once, and pools count
    their users. *)
Record wf_but (T : gset addr) s : Prop := {
  f_pool : ∀ a P, pools s !! a = Some P → (a < brk s)%nat ∧ num_scheds P = refs (scheds s) a ∧ pool_ready P;
  f_ref : ∀ a x q, scheds s !! a = Some x → Some q ∈ pool_list x → is_Some (pools s !! q);
  f_sched : ∀ a x, scheds s !! a = Some x → a ∈ blocks s ∧ sched_pools x ∈ blocks s ∧ scheds s !! sched_pools x = None ∧ sched_ready x;
  f_array : ∀ a b x y, scheds s !! a = Some x → scheds s !! b = Some y → sched_pools x = sched_pools y → a = b;
  f_thread : ∀ a x t, scheds s !! a = Some x → p_ythread x = Some t → t ∈ ythreads s;
  f_thread_inj : ∀ a b x y t, scheds s !! a = Some x → scheds s !! b = Some y → p_ythread x = Some t → p_ythread y = Some t → a = b;
  f_unused : ∀ a x, scheds s !! a = Some x → used x = ABTI_SCHED_NOT_USED → p_ythread x = None;
  f_block : ∀ a, a ∈ blocks s → (a < brk s)%nat ∧ (a ∈ T ∨ is_Some (scheds s !! a) ∨ ∃ b x, scheds s !! b = Some x ∧ sched_pools x = a);
  f_temp : ∀ a, a ∈ T → a ∈ blocks s ∧ scheds s !! a = None ∧ ∀ b x, scheds s !! b = Some x → sched_pools x ≠ a;
  f_ythread : ∀ t, t ∈ ythreads s → (t < brk s)%nat ∧ ∃ b x, scheds s !! b = Some x ∧ p_ythread x = Some t
}.
Abbreviation wf := (wf_but ∅).

(** Nothing is allocated or freed. *)
Record quiet s s' : Prop := {
  q_pools : pools s' = pools s;
  q_scheds : scheds s' = scheds s;
  q_blocks : blocks s' = blocks s;
  q_ythreads : ythreads s' = ythreads s;
  q_brk : (brk s ≤ brk s')%nat
}.

#[export] Instance quiet_preorder : PreOrder quiet.
Proof.
  split; [by split|]. intros s1 s2 s3 [] []. split; [congruence..|lia].
Qed.

Lemma wf_quiet T s s' : quiet s s' → wf_but T s → wf_but T s'.
Proof.
  intros [E1 E2 E3 E4 E5] []. split; rewrite ?E1, ?E2, ?E3, ?E4; try done.
  - intros a P Ha. destruct (f_pool0 a P Ha) as (? & ? & ?). split_and!; try done. lia.
  - intros a Ha. destruct (f_block0 a Ha). split; [lia|done].
  - intros t Ht. destruct (f_ythread0 t Ht). split; [lia|done].
Qed.

(** ** Allocating and failing *)

Lemma outcome_run s : ∃ r s', next_outcome s = Done (r, s') ∧ quiet s s' ∧ brk s' = brk s.
Proof. unfold next_outcome. destruct (outcomes s) as [|r k]; eexists _, _; (split; [done|]); by split. Qed.

(** The start of every creation: a failure, or an address that is not in use. *)
Definition try_alloc {A} (k : addr → M (Z + A)) : M (Z + A) :=
  r ← next_outcome; if negb (r =? ABT_SUCCESS) then mret (inl r) else a ← fresh; k a.

Lemma try_alloc_run {A} (k : addr → M (Z + A)) s :
  (∃ err s', err ≠ ABT_SUCCESS ∧ quiet s s' ∧ try_alloc k s = Done (inl err, s')) ∨
  (∃ s', quiet s s' ∧ brk s' = S (brk s) ∧ try_alloc k s = k (brk s) s').
Proof.
  unfold try_alloc. destruct (outcome_run s) as (r & s1 & Hr & Q & Eb). rewrite (C_bind_Done _ _ _ _ _ Hr).
  destruct (Z.eqb_spec r ABT_SUCCESS) as [->|Hne]; cbn [negb].
  - right. exists (set_brk (S (brk s1)) s1). destruct Q. split_and!; [split; cbn; try done; lia|cbn; by rewrite Eb|].
    unfold mbind, C_bind, fresh. by rewrite Eb.
  - left. exists r, s1. by split_and!.
Qed.

Lemma malloc_run s :
  (∃ err s', err ≠ ABT_SUCCESS ∧ quiet s s' ∧ ABTU_malloc s = Done (inl err, s')) ∨
  (∃ s', quiet s s' ∧ brk s' = S (brk s) ∧ ABTU_malloc s = Done (inr (brk s), set_blocks ({[brk s]} ∪ blocks s) s')).
Proof.
  destruct (try_alloc_run (λ a, modify (λ s, set_blocks ({[a]} ∪ blocks s) s);; mret (inr a)) s) as [(err & s' & ? & Q & E)|(s' & Q & Eb & E)].
  - left. exists err, s'. split_and!; try done. rewrite <- E. unfold ABTU_malloc, try_alloc, mbind, C_bind. destruct (next_outcome s) as [[r s1]|]; [|done].
    by destruct (r =? ABT_SUCCESS).
  - right. exists s'. split_and!; try done. destruct Q as [_ _ Q _ _]. rewrite <- Q. transitivity (try_alloc (λ a, modify (λ s, set_blocks ({[a]} ∪ blocks s) s);; mret (inr a)) s); [|done].
    unfold ABTU_malloc, try_alloc, mbind, C_bind. destruct (next_outcome s) as [[r s1]|]; [|done]. by destruct (r =? ABT_SUCCESS).
Qed.

Lemma quiet_new_pool s s' a P : quiet s s' → (∀ q P, pools s !! q = Some P → (q < brk s)%nat) → (brk s ≤ a)%nat →
  quiet s (set_pools (delete a (<[a := P]> (pools s'))) s').
Proof.
  intros [E1 E2 E3 E4 E5] Hb Ha. split; try done. cbn. rewrite E1, delete_insert_id; [done|].
  destruct (pools s !! a) as [P'|] eqn:E; [|done]. apply Hb in E. lia.
Qed.

(** *** One pool *)

Definition bounded s : Prop := ∀ q P, pools s !! q = Some P → (q < brk s)%nat.

(** A new pool that nobody uses. *)
Definition new_pool (auto : bool) P : Prop := num_scheds P = 0 ∧ automatic P = auto ∧ pool_ready P.

Definition with_pool a P s s' : Prop :=
  pools s' = <[a := P]> (pools s) ∧ scheds s' = scheds s ∧ blocks s' = blocks s ∧ ythreads s' = ythreads s ∧ a = brk s ∧ brk s' = S (brk s).

Lemma pool_create_run acc d cfg auto builtin s : bounded s →
  (∃ err s', err ≠ ABT_SUCCESS ∧ quiet s s' ∧ pool_create acc d cfg auto builtin s = Done (inl err, s')) ∨
  (∃ a P s', with_pool a P s s' ∧ new_pool (read_automatic cfg auto) P ∧ pool_create acc d cfg auto builtin s = Done (inr a, s')).
Proof.
  intros Hb. unfold pool_create. match goal with |- context [next_outcome ≫= ?f] => change (next_outcome ≫= f) with
    (try_alloc (λ a, i ← pool_get_new_id; put_pool a (MkPool acc (read_automatic cfg auto) builtin 0 0 i d false);;
      if has_init d then abt_errno ← next_outcome;
        if negb (abt_errno =? ABT_SUCCESS) then modify (λ s, set_pools (delete a (pools s)) s);; mret (inl abt_errno)
        else p ← pool_at a; put_pool a (set_ready true p);; mret (inr a)
      else mret (inr a))) end.
  match goal with |- context [try_alloc ?k] => destruct (try_alloc_run k s) as [(err & s1 & ? & Q & ->)|(s1 & Q & Eb & ->)] end; [by left; exists err, s1|].
  pose proof Q as [E1 E2 E3 E4 E5]. set (P0 := MkPool acc (read_automatic cfg auto) builtin 0 0 (next_id s1) d false).
  set (s2 := set_pools (<[brk s := P0]> (pools s1)) (set_next_id (u64 (next_id s1 + 1)) s1)).
  rewrite (C_bind_Done pool_get_new_id _ s1 (next_id s1) (set_next_id (u64 (next_id s1 + 1)) s1) eq_refl).
  rewrite (C_bind_Done (put_pool (brk s) P0) _ (set_next_id (u64 (next_id s1 + 1)) s1) () s2 eq_refl).
  destruct (has_init d) eqn:Ed.
  - destruct (outcome_run s2) as (r & s3 & Hr & Q3 & Eb3). rewrite (C_bind_Done _ _ _ _ _ Hr). pose proof Q3 as [F1 F2 F3 F4 F5].
    destruct (Z.eqb_spec r ABT_SUCCESS) as [->|Hne]; cbn [negb].
    + right. exists (brk s), (set_ready true P0). eexists. assert (pools s3 !! brk s = Some P0) as Hp by (rewrite F1; cbn; apply lookup_insert_eq).
      split; [|split; [by split_and!|unfold mbind, C_bind, pool_at; rewrite Hp; done]].
      split_and!; cbn; rewrite ?F1, ?F2, ?F3, ?F4, ?Eb3; cbn; try done. by rewrite insert_insert_eq, E1.
    + left. eexists r, _. split; [done|]. split; [|done]. transitivity (set_pools (delete (brk s) (<[brk s := P0]> (pools s1))) s1).
      * by apply quiet_new_pool.
      * split; cbn; try (rewrite ?F1, ?F2, ?F3, ?F4; done).
  - right. exists (brk s), P0, s2. split; [|split; [|done]].
    + split_and!; cbn; try done. by rewrite E1.
    + split_and!; try done. unfold pool_ready. cbn. by rewrite Ed.
Qed.

Lemma pool_create_basic_run kind acc auto s : bounded s →
  (∃ err s', err ≠ ABT_SUCCESS ∧ quiet s s' ∧ ABTI_pool_create_basic kind acc auto s = Done (inl err, s')) ∨
  (∃ a P s', with_pool a P s s' ∧ new_pool auto P ∧ ABTI_pool_create_basic kind acc auto s = Done (inr a, s')).
Proof.
  intros Hb. unfold ABTI_pool_create_basic. destruct (valid_access acc); cbn [negb]; [|left; by exists ABT_ERR_INV_POOL_ACCESS, s].
  destruct kind; cbn [builtin_def]; try (by apply pool_create_run). left. by exists ABT_ERR_INV_POOL_KIND, s.
Qed.

(** *** Many pools *)

Lemma pool_free_run s a P : pools s !! a = Some P → pool_ready P → ABTI_pool_free a s = Done ((), set_pools (delete a (pools s)) s).
Proof.
  intros Ha Hr. unfold ABTI_pool_free, mbind, C_bind, pool_at. rewrite Ha. unfold pool_ready in Hr.
  destruct (has_free (def P)), (has_init (def P)); try done. cbn. by rewrite Hr.
Qed.

(** The pools that were created, and those that were given. *)
Definition news (d : list (option addr * addr)) : list addr := omap (λ e, match e.1 with None => Some e.2 | Some _ => None end) d.
Definition olds (d : list (option addr * addr)) : list addr := omap (λ e, match e.1 with None => None | Some _ => Some e.2 end) d.

Lemma free_created_run d s : NoDup (news d) → (∀ a, a ∈ news d → ∃ P, pools s !! a = Some P ∧ pool_ready P) →
  ∃ m, free_created d s = Done ((), set_pools m s) ∧ ∀ a, m !! a = if decide (a ∈ news d) then None else pools s !! a.
Proof.
  revert s. induction d as [|[[g|] a] d IH]; intros s Hd Hp; cbn [free_created].
  - exists (pools s). split; [by destruct s|]. intros a. by rewrite decide_False by apply not_elem_of_nil.
  - destruct (IH s) as (m & Hm & Hl); [done..|]. by exists m.
  - change (news ((None, a) :: d)) with (a :: news d) in *. apply NoDup_cons in Hd as [Hn Hd]. destruct (Hp a) as (P & Ha & Hr); [by left|].
    rewrite (C_bind_Done _ _ _ _ _ (pool_free_run s a P Ha Hr)). destruct (IH (set_pools (delete a (pools s)) s)) as (m & Hm & Hl); [done|..].
    + intros b Hb. destruct (Hp b) as (P' & ? & ?); [by right|]. exists P'. cbn. rewrite lookup_delete_ne; [done|]. congruence.
    + exists m. split; [exact Hm|]. intros b. rewrite Hl. cbn. destruct (decide (b ∈ news d)), (decide (b ∈ a :: news d)) as [Hin|Hin]; try done.
      * destruct Hin. by right.
      * apply elem_of_cons in Hin as [->|]; [apply lookup_delete_eq|done].
      * apply lookup_delete_ne. intros ->. destruct Hin. by left.
Qed.

(** [s'] has the pools [l] in addition. *)
Record grown s l s' : Prop := {
  g_scheds : scheds s' = scheds s;
  g_blocks : blocks s' = blocks s;
  g_ythreads : ythreads s' = ythreads s;
  g_brk : (brk s ≤ brk s')%nat;
  g_old : ∀ a, a ∉ l → pools s' !! a = pools s !! a;
  g_new : ∀ a, a ∈ l → (brk s ≤ a < brk s')%nat ∧ ∃ P, pools s' !! a = Some P ∧ new_pool true P;
  g_nodup : NoDup l
}.

Lemma grown_nil s : grown s [] s.
Proof. split; try done; [by intros a ?%not_elem_of_nil|apply NoDup_nil_2]. Qed.

Lemma grown_quiet s l s1 s2 : grown s l s1 → quiet s1 s2 → grown s l s2.
Proof.
  intros [] [E1 E2 E3 E4 E5]. split; rewrite ?E1, ?E2, ?E3, ?E4; try done; [lia|]. intros a Ha. destruct (g_new0 a Ha). split; [lia|done].
Qed.

Lemma grown_add s l s1 a P s2 : grown s l s1 → with_pool a P s1 s2 → new_pool true P → grown s (l ++ [a]) s2.
Proof.
  intros [] (E1 & E2 & E3 & E4 & -> & E5) Hp. split; rewrite ?E2, ?E3, ?E4; try done; [lia|..].
  - intros b [Hb Hne]%not_elem_of_app. rewrite E1, lookup_insert_ne; [by apply g_old0|]. intros <-. destruct Hne. by left.
  - intros b [Hb|Hb]%elem_of_app.
    + destruct (g_new0 b Hb) as (? & P' & ? & ?). split; [lia|]. exists P'. rewrite E1, lookup_insert_ne; [done|]. lia.
    + apply list_elem_of_singleton in Hb as ->. split; [lia|]. exists P. by rewrite E1, lookup_insert_eq.
  - apply NoDup_app. split_and!; [done| |apply NoDup_singleton]. intros b Hb ->%list_elem_of_singleton. destruct (g_new0 _ Hb). lia.
Qed.

Lemma grown_bounded s l s' : bounded s → grown s l s' → bounded s'.
Proof.
  intros Hb [] q P Hq. destruct (decide (q ∈ l)) as [Hin|Hin]; [destruct (g_new0 q Hin); lia|]. rewrite g_old0 in Hq by done. apply Hb in Hq. lia.
Qed.

(** Taking the new pools away leaves what was there. *)
Lemma grown_undo s l s' m : bounded s → grown s l s' → (∀ a, m !! a = if decide (a ∈ l) then None else pools s' !! a) → quiet s (set_pools m s').
Proof.
  intros Hb [] Hm. split; try done. cbn. apply map_eq. intros a. rewrite Hm. case_decide as Hin; [|by apply g_old0].
  destruct (pools s !! a) as [P|] eqn:E; [|done]. apply Hb in E. destruct (g_new0 a Hin). lia.
Qed.

Lemma create_pools_run kind acc s given d s1 : bounded s → grown s (news d) s1 →
  (∃ err s', err ≠ ABT_SUCCESS ∧ quiet s s' ∧ create_pools kind acc d given s1 = Done (inl err, s')) ∨
  (∃ d' s', grown s (news d') s' ∧ d'.*1 = d.*1 ++ given ∧ olds d' = olds d ++ omap (λ o, o) given ∧ create_pools kind acc d given s1 = Done (inr d', s')).
Proof.
  intros Hb. revert d s1. induction given as [|[a|] given IH]; intros d s1 G; cbn [create_pools].
  - right. exists d, s1. split_and!; try done; by rewrite app_nil_r.
  - destruct (IH (d ++ [(Some a, a)]) s1) as [?|(d' & s' & G' & E1 & E2 & E)]; [|by left|right].
    { unfold news. rewrite omap_app. cbn. by rewrite app_nil_r. }
    exists d', s'. split_and!; try done; [rewrite E1, fmap_app, <- (assoc_L (++)); done|]. rewrite E2. unfold olds. rewrite omap_app, <- (assoc_L (++)). done.
  - pose proof (grown_bounded s _ s1 Hb G) as Hb1.
    destruct (pool_create_basic_run kind acc true s1 Hb1) as [(err & s2 & He & Q & E)|(a & P & s2 & W & Hp & E)]; rewrite (C_bind_Done _ _ _ _ _ E).
    + left. pose proof (grown_quiet _ _ _ _ G Q) as G2. destruct (free_created_run d s2) as (m & Hm & Hl).
      * apply G2.
      * intros a Ha. destruct (g_new _ _ _ G2 a Ha) as (_ & P & ? & _ & _ & ?). eauto.
      * rewrite (C_bind_Done _ _ _ _ _ Hm). exists err, (set_pools m s2). split_and!; try done. by eapply grown_undo.
    + destruct (IH (d ++ [(None, a)]) s2) as [?|(d' & s' & G' & E1 & E2 & E')]; [|by left|right].
      { unfold news. rewrite omap_app. by eapply grown_add. }
      exists d', s'. split_and!; try done; [rewrite E1, fmap_app, <- (assoc_L (++)); done|]. rewrite E2. unfold olds. rewrite omap_app. cbn. by rewrite app_nil_r.
Qed.

(** *** Counting *)

Definition add_num (n : Z) P : ABTI_pool := set_num_scheds (num_scheds P + n) P.

Lemma add_num_0 P : add_num 0 P = P.
Proof. unfold add_num, set_num_scheds. rewrite Z.add_0_r. by destruct P. Qed.

Lemma add_num_add n n' P : add_num n (add_num n' P) = add_num (n' + n) P.
Proof. unfold add_num, set_num_scheds. cbn. f_equal. lia. Qed.

Lemma set_pools_id s : set_pools (pools s) s = s.
Proof. by destruct s. Qed.

Lemma retain_run s a P : pools s !! a = Some P → 0 ≤ num_scheds P < 2 ^ 31 - 1 →
  ABTI_pool_retain a s = Done ((), set_pools (<[a := add_num 1 P]> (pools s)) s).
Proof. intros Ha Hn. unfold ABTI_pool_retain, mbind, C_bind, pool_at. rewrite Ha, i32_small by lia. done. Qed.

Lemma release_pool_run s a P : pools s !! a = Some P → 0 < num_scheds P < 2 ^ 31 →
  ABTI_pool_release a s = Done (num_scheds P - 1, set_pools (<[a := add_num (-1) P]> (pools s)) s).
Proof.
  intros Ha Hn. unfold ABTI_pool_release, mbind, C_bind, pool_at, c_assert. rewrite Ha, (proj2 (Z.ltb_lt _ _)) by lia. cbn [mret C_ret].
  rewrite i32_small by lia. done.
Qed.

Lemma retain_all_run l s : (∀ a, a ∈ l → is_Some (pools s !! a)) →
  (∀ a P, pools s !! a = Some P → 0 ≤ num_scheds P ∧ num_scheds P + cnt a (Some <$> l) < 2 ^ 31) →
  ∃ m, retain_all l s = Done ((), set_pools m s) ∧ ∀ a, m !! a = add_num (cnt a (Some <$> l)) <$> pools s !! a.
Proof.
  revert s. induction l as [|b l IH]; intros s Hex Hn; cbn [retain_all].
  - exists (pools s). split; [by rewrite set_pools_id|]. intros a. destruct (pools s !! a) as [P|]; [|done]. cbn. by rewrite add_num_0.
  - destruct (Hex b) as [P HP]; [by left|]. destruct (Hn b P HP) as [H0 H1]. rewrite ?fmap_cons, cnt_cons, decide_True in H1 by done.
    pose proof (cnt_nonneg b (Some <$> l)). rewrite (C_bind_Done _ _ _ _ _ (retain_run s b P HP ltac:(lia))).
    destruct (IH (set_pools (<[b := add_num 1 P]> (pools s)) s)) as (m & Hm & Hl); cbn.
    + intros a Ha. rewrite lookup_insert. case_decide; [eauto|]. apply Hex. by right.
    + intros a P'. rewrite lookup_insert. case_decide; [intros [= <-]; subst; cbn; lia|]. intros Ha. destruct (Hn a P' Ha) as [? Hlt].
      rewrite ?fmap_cons, cnt_cons, decide_False in Hlt by congruence. lia.
    + exists m. split; [exact Hm|]. intros a. rewrite Hl, ?fmap_cons, cnt_cons. cbn. rewrite lookup_insert. destruct (decide (b = a)) as [->|].
      * rewrite HP, decide_True by done. cbn. by rewrite add_num_add.
      * by rewrite decide_False by congruence.
Qed.

(** Undoing [retain_all] and creation. *)
Lemma undo_pools_run d s : NoDup (news d) → (∀ a, a ∈ news d → (a ∉ olds d) ∧ ∃ P, pools s !! a = Some P ∧ pool_ready P) →
  (∀ a, a ∈ olds d → ∃ P, pools s !! a = Some P ∧ cnt a (Some <$> olds d) ≤ num_scheds P < 2 ^ 31) →
  ∃ m, undo_pools d s = Done ((), set_pools m s) ∧
    ∀ a, m !! a = if decide (a ∈ news d) then None else add_num (- cnt a (Some <$> olds d)) <$> pools s !! a.
Proof.
  revert s. induction d as [|[[g|] a] d IH]; intros s Hd Hn Ho; cbn [undo_pools].
  - exists (pools s). split; [by rewrite set_pools_id|]. intros a. rewrite decide_False by apply not_elem_of_nil.
    destruct (pools s !! a) as [P|]; [|done]. cbn. by rewrite add_num_0.
  - change (olds ((Some g, a) :: d)) with (a :: olds d) in *. change (news ((Some g, a) :: d)) with (news d) in *.
    destruct (Ho a) as (P & HP & Hc); [by left|]. rewrite ?fmap_cons, cnt_cons, decide_True in Hc by done. pose proof (cnt_nonneg a (Some <$> olds d)).
    rewrite (C_bind_Done _ _ _ _ _ (release_pool_run s a P HP ltac:(lia))).
    destruct (IH (set_pools (<[a := add_num (-1) P]> (pools s)) s)) as (m & Hm & Hl); [done|..]; cbn.
    + intros b Hb. destruct (Hn b Hb) as (Hb' & P' & ? & ?). apply not_elem_of_cons in Hb' as [? ?]. split; [done|]. exists P'. by rewrite lookup_insert_ne.
    + intros b Hb. rewrite lookup_insert. case_decide; [subst; eexists; split; [done|]; cbn; lia|]. destruct (Ho b) as (P' & ? & Hc'); [by right|].
      exists P'. split; [done|]. rewrite ?fmap_cons, cnt_cons, decide_False in Hc' by congruence. lia.
    + exists m. split; [exact Hm|]. intros b. rewrite Hl, ?fmap_cons, cnt_cons. cbn. case_decide as Hin; [done|]. rewrite lookup_insert.
      destruct (decide (a = b)) as [->|]; [rewrite HP, decide_True by done; cbn; rewrite add_num_add; do 2 f_equal; lia|by rewrite decide_False by congruence].
  - change (olds ((None, a) :: d)) with (olds d) in *. change (news ((None, a) :: d)) with (a :: news d) in *. apply NoDup_cons in Hd as [Hnd Hd].
    destruct (Hn a) as (Hao & P & HP & Hr); [by left|]. rewrite (C_bind_Done _ _ _ _ _ (pool_free_run s a P HP Hr)).
    destruct (IH (set_pools (delete a (pools s)) s)) as (m & Hm & Hl); [done|..]; cbn.
    + intros b Hb. destruct (Hn b) as (? & P' & ? & ?); [by right|]. split; [done|]. exists P'. rewrite lookup_delete_ne by congruence. done.
    + intros b Hb. destruct (Ho b Hb) as (P' & ? & ?). exists P'. rewrite lookup_delete_ne by congruence. done.
    + exists m. split; [exact Hm|]. intros b. rewrite Hl. cbn. destruct (decide (b ∈ news d)), (decide (b ∈ a :: news d)) as [Hin|Hin]; try done.
      * destruct Hin. by right.
      * apply elem_of_cons in Hin as [->|]; [by rewrite lookup_delete_eq|done].
      * rewrite lookup_delete_ne; [done|]. intros ->. destruct Hin. by left.
Qed.

(** What is left of a pool that is released [n] times. *)
Definition released (n : Z) P : option ABTI_pool :=
  if decide (0 < n ∧ automatic P = true ∧ num_scheds P = n) then None else Some (add_num (- n) P).

Lemma release_pools_run k s : (∀ a, Some a ∈ k → ∃ P, pools s !! a = Some P ∧ cnt a k ≤ num_scheds P < 2 ^ 31 ∧ pool_ready P) →
  ∃ m, release_pools false k s = Done ((), set_pools m s) ∧ ∀ a, m !! a = pools s !! a ≫= released (cnt a k).
Proof.
  revert s. induction k as [|[b|] k IH]; intros s Ho; cbn [release_pools].
  - exists (pools s). split; [by rewrite set_pools_id|]. intros a. destruct (pools s !! a) as [P|]; [|done]. cbn. unfold released.
    rewrite decide_False by (by intros (? & _)). by rewrite add_num_0.
  - destruct (Ho b) as (P & HP & Hc & Hr); [by left|]. rewrite cnt_cons, decide_True in Hc by done. pose proof (cnt_nonneg b k) as H0.
    rewrite (C_bind_Done _ _ _ _ _ (release_pool_run s b P HP ltac:(lia))). set (s1 := set_pools _ s).
    assert (pools s1 !! b = Some (add_num (-1) P)) as Hb by (cbn; apply lookup_insert_eq).
    rewrite (C_bind_Done (pool_at b) _ s1 (add_num (-1) P) s1) by (unfold pool_at; by rewrite Hb). cbn [automatic add_num set_num_scheds]. rewrite orb_false_r.
    destruct (automatic P && (num_scheds P - 1 =? 0)) eqn:E.
    + apply andb_true_iff in E as [Ea En%Z.eqb_eq]. assert (cnt b k = 0) as Hz by lia.
      rewrite (C_bind_Done _ _ _ _ _ (pool_free_run s1 b (add_num (-1) P) Hb Hr)).
      destruct (IH (set_pools (delete b (pools s1)) s1)) as (m & Hm & Hl); cbn.
      * intros a Ha. assert (a ≠ b) by (intros ->; apply cnt_pos in Ha; lia). destruct (Ho a) as (P' & ? & Hc' & ?); [by right|].
        rewrite cnt_cons, decide_False in Hc' by congruence. exists P'. rewrite lookup_delete_ne, lookup_insert_ne by done. split_and!; try done; lia.
      * exists m. split; [exact Hm|]. intros a. rewrite Hl, cnt_cons. cbn. destruct (decide (a = b)) as [->|].
        -- rewrite lookup_delete_eq, HP, decide_True by done. cbn. unfold released. rewrite decide_True; [done|]. split_and!; [lia|done|lia].
        -- rewrite lookup_delete_ne, lookup_insert_ne by done. by rewrite decide_False by congruence.
    + rewrite (C_bind_Done (mret ()) _ s1 () s1 eq_refl). destruct (IH s1) as (m & Hm & Hl); cbn.
      * intros a Ha. rewrite lookup_insert. case_decide as Heq; [subst a; eexists; split; [done|]; split; [cbn; lia|done]|].
        destruct (Ho a) as (P' & ? & Hc' & ?); [by right|]. rewrite cnt_cons, decide_False in Hc' by congruence. exists P'. split_and!; try done; lia.
      * exists m. split; [exact Hm|]. intros a. rewrite Hl, cnt_cons. cbn. rewrite lookup_insert. destruct (decide (b = a)) as [<-|].
        -- rewrite HP, decide_True by done. cbn. unfold released. cbn. apply andb_false_iff in E.
           destruct (decide (0 < cnt b k ∧ automatic P = true ∧ num_scheds P + -1 = cnt b k)) as [(? & ? & ?)|Hno];
             [rewrite decide_True by (split_and!; [lia|done|lia]); done|]. rewrite decide_False; [rewrite add_num_add; do 3 f_equal; lia|].
           intros (? & Hau & ?). destruct E as [E|E%Z.eqb_neq]; [congruence|]. apply Hno. split_and!; [lia|done|lia].
        -- by rewrite decide_False by congruence.
  - destruct (IH s) as (m & Hm & Hl).
    + intros a Ha. destruct (Ho a) as (P' & ? & Hc' & ?); [by right|]. rewrite cnt_cons, decide_False in Hc' by done. exists P'. split_and!; try done; lia.
    + exists m. split; [done|]. intros a. by rewrite Hl, cnt_cons, decide_False by done.
Qed.

(** By force: every pool of the array goes, and one that is in it twice is used after it has gone. *)
Lemma release_forced_run k s : (∀ a, Some a ∈ k → ∃ P, pools s !! a = Some P ∧ cnt a k ≤ num_scheds P < 2 ^ 31 ∧ pool_ready P) →
  NoDup (omap (λ o, o) k) → ∃ m, release_pools true k s = Done ((), set_pools m s) ∧ ∀ a, m !! a = if decide (Some a ∈ k) then None else pools s !! a.
Proof.
  revert s. induction k as [|[b|] k IH]; intros s Ho; cbn [release_pools omap list_omap].
  - exists (pools s). split; [by rewrite set_pools_id|]. intros a. by rewrite decide_False by apply not_elem_of_nil.
  - intros [Hn Hd]%NoDup_cons. assert (Some b ∉ k) as Hnb by (intros Hin; apply Hn, list_elem_of_omap; by exists (Some b)).
    destruct (Ho b) as (P & HP & Hc & Hr); [by left|]. rewrite cnt_cons, decide_True in Hc by done. pose proof (cnt_nonneg b k) as H0.
    rewrite (C_bind_Done _ _ _ _ _ (release_pool_run s b P HP ltac:(lia))). set (s1 := set_pools _ s).
    assert (pools s1 !! b = Some (add_num (-1) P)) as Hb by (cbn; apply lookup_insert_eq).
    rewrite (C_bind_Done (pool_at b) _ s1 (add_num (-1) P) s1) by (unfold pool_at; by rewrite Hb). rewrite orb_true_r.
    rewrite (C_bind_Done _ _ _ _ _ (pool_free_run s1 b (add_num (-1) P) Hb Hr)).
    destruct (IH (set_pools (delete b (pools s1)) s1)) as (m & Hm & Hl); cbn; [|done|].
    + intros a Ha. assert (a ≠ b) by congruence. destruct (Ho a) as (P' & ? & Hc' & ?); [by right|]. rewrite cnt_cons, decide_False in Hc' by congruence.
      exists P'. rewrite lookup_delete_ne, lookup_insert_ne by done. split_and!; try done; lia.
    + exists m. split; [exact Hm|]. intros a. rewrite Hl. cbn. destruct (decide (a = b)) as [->|].
      * rewrite lookup_delete_eq, (decide_True (P := Some b ∈ Some b :: k)) by (by left). by case_decide.
      * rewrite lookup_delete_ne, lookup_insert_ne by done. destruct (decide (Some a ∈ k)); [rewrite decide_True by (by right); done|].
        rewrite decide_False; [done|]. intros [?|?]%elem_of_cons; [congruence|done].
  - intros Hd. destruct (IH s) as (m & Hm & Hl); [|done|].
    + intros a Ha. destruct (Ho a) as (P' & ? & Hc' & ?); [by right|]. rewrite cnt_cons, decide_False in Hc' by done. exists P'. split_and!; try done; lia.
    + exists m. split; [done|]. intros a. rewrite Hl. destruct (decide (Some a ∈ k)); [rewrite decide_True by (by right); done|].
      rewrite decide_False; [done|]. intros [?|?]%elem_of_cons; done.
Qed.

Lemma release_forced_twice k s : (∀ a, Some a ∈ k → pools s !! a = None ∨ ∃ P, pools s !! a = Some P ∧ cnt a k ≤ num_scheds P < 2 ^ 31 ∧ pool_ready P) →
  ¬ (NoDup (omap (λ o, o) k) ∧ ∀ a, Some a ∈ k → is_Some (pools s !! a)) → release_pools true k s = Fault UB.
Proof.
  revert s. induction k as [|[b|] k IH]; intros s Ho Hd; cbn [release_pools].
  - destruct Hd. split; [apply NoDup_nil_2|]. by intros a ?%not_elem_of_nil.
  - destruct (Ho b) as [HN|(P & HP & Hc & Hr)]; [by left|unfold ABTI_pool_release, pool_at, mbind, C_bind; by rewrite HN|].
    rewrite cnt_cons, decide_True in Hc by done. pose proof (cnt_nonneg b k) as H0.
    rewrite (C_bind_Done _ _ _ _ _ (release_pool_run s b P HP ltac:(lia))). set (s1 := set_pools _ s).
    assert (pools s1 !! b = Some (add_num (-1) P)) as Hb by (cbn; apply lookup_insert_eq).
    rewrite (C_bind_Done (pool_at b) _ s1 (add_num (-1) P) s1) by (unfold pool_at; by rewrite Hb). rewrite orb_true_r.
    rewrite (C_bind_Done _ _ _ _ _ (pool_free_run s1 b (add_num (-1) P) Hb Hr)). apply IH.
    + intros a Ha. cbn. destruct (decide (a = b)) as [->|Hne]; [left; apply lookup_delete_eq|]. rewrite lookup_delete_ne, lookup_insert_ne by done.
      destruct (Ho a) as [?|(P' & ? & Hc' & ?)]; [by right|by left|right]. rewrite cnt_cons, decide_False in Hc' by congruence. exists P'. split_and!; try done; lia.
    + intros [Hnd Hall]. apply Hd. assert (Some b ∉ k) as Hnb.
      { intros Hin. destruct (Hall b Hin) as [P' HP']. cbn in HP'. by rewrite lookup_delete_eq in HP'. }
      split; [cbn; apply NoDup_cons; split; [|done]; intros ([c|] & Hin & [= ->])%list_elem_of_omap; done|].
      intros a [[= ->]|Ha]%elem_of_cons; [eauto|]. destruct (Hall a Ha) as [P' HP']. cbn in HP'. assert (a ≠ b) by congruence. rewrite lookup_delete_ne, lookup_insert_ne in HP' by done. eauto.
  - apply IH.
    + intros a Ha. destruct (Ho a) as [?|(P' & ? & Hc' & ?)]; [by right|by left|right]. rewrite cnt_cons, decide_False in Hc' by done. exists P'. split_and!; try done; lia.
    + intros [Hnd Hall]. apply Hd. split; [done|]. intros a [?|?]%elem_of_cons; [done|auto].
Qed.

(** *** Schedulers *)

Lemma cnt_omap a k : cnt a (Some <$> omap (λ o, o) k) = cnt a k.
Proof.
  induction k as [|[b|] k IH]; [done|..]; cbn [omap list_omap].
  - change (list_omap _ _ _ k) with (omap (λ o : option nat, o) k). rewrite fmap_cons, !cnt_cons, IH. done.
  - change (list_omap _ _ _ k) with (omap (λ o : option nat, o) k). by rewrite IH, cnt_cons, decide_False.
Qed.

Lemma cnt_split a d : cnt a (Some <$> d.*2) = cnt a (Some <$> olds d) + cnt a (Some <$> news d).
Proof.
  induction d as [|[[g|] b] d IH]; [done|..]; cbn [fmap list_fmap].
  - change (olds ((Some g, b) :: d)) with (b :: olds d). change (news ((Some g, b) :: d)) with (news d).
    change (list_fmap _ _ Some (list_fmap _ _ snd d)) with (Some <$> d.*2). cbn [snd]. rewrite fmap_cons, !cnt_cons, IH. lia.
  - change (olds ((None, b) :: d)) with (olds d). change (news ((None, b) :: d)) with (b :: news d).
    change (list_fmap _ _ Some (list_fmap _ _ snd d)) with (Some <$> d.*2). cbn [snd]. rewrite fmap_cons, !cnt_cons, IH. lia.
Qed.

Lemma cnt_nodup a l : NoDup l → cnt a (Some <$> l) = if decide (a ∈ l) then 1 else 0.
Proof.
  induction l as [|b l IH]; [by rewrite decide_False by apply not_elem_of_nil|]. intros [Hb Hd]%NoDup_cons. rewrite fmap_cons, cnt_cons, IH by done.
  destruct (decide (Some b = Some a)) as [[= ->]|Hne].
  - by rewrite decide_False, decide_True by (done || by left).
  - destruct (decide (a ∈ l)), (decide (a ∈ b :: l)) as [Hin|Hin]; try done; [destruct Hin; by right|]. apply elem_of_cons in Hin as [->|]; done.
Qed.

Lemma cnt_absent a l : a ∉ l → cnt a (Some <$> l) = 0.
Proof.
  intros Ha. pose proof (cnt_nonneg a (Some <$> l)). destruct (decide (0 < cnt a (Some <$> l))) as [Hc|]; [|lia].
  apply cnt_pos, list_elem_of_fmap in Hc as (b & [= <-] & ?). done.
Qed.

Lemma elem_snd_split a d : a ∈ d.*2 ↔ a ∈ olds d ∨ a ∈ news d.
Proof.
  induction d as [|[[g|] b] d IH]; [by split; [intros ?%not_elem_of_nil|intros [?%not_elem_of_nil|?%not_elem_of_nil]]|..].
  - change (olds ((Some g, b) :: d)) with (b :: olds d). change (news ((Some g, b) :: d)) with (news d). rewrite fmap_cons. cbn [snd]. rewrite !elem_of_cons, IH. tauto.
  - change (olds ((None, b) :: d)) with (olds d). change (news ((None, b) :: d)) with (b :: news d). rewrite fmap_cons. cbn [snd]. rewrite !elem_of_cons, IH. tauto.
Qed.

Lemma refs_fresh T s a : wf_but T s → pools s !! a = None → refs (scheds s) a = 0.
Proof.
  intros W Ha. assert (∀ b x, scheds s !! b = Some x → cnt a (pool_list x) = 0) as H.
  { intros b x Hb. pose proof (cnt_nonneg a (pool_list x)). destruct (decide (0 < cnt a (pool_list x))) as [Hc%cnt_pos|]; [|lia].
    destruct (f_ref _ _ W b x a Hb Hc) as [P HP]. congruence. }
  clear W Ha. revert H. generalize (scheds s) as m. intros m. induction m as [|b x m Hb IH] using map_ind; intros H; [done|]. rewrite refs_insert by done.
  rewrite (H b x) by apply lookup_insert_eq. rewrite IH; [done|]. intros b' x' Hb'. apply (H b'). rewrite lookup_insert_ne; [done|]. congruence.
Qed.

Lemma free_block_run s a : a ∈ blocks s → ABTU_free a s = Done ((), set_scheds (delete a (scheds s)) (set_blocks (blocks s ∖ {[a]}) s)).
Proof. intros Ha. unfold ABTU_free. by rewrite decide_True. Qed.

(** A new scheduler [b] with description [x]; [d] pairs what was given with the pools it uses. *)
Record made s (given : list (option addr)) (d : list (option addr * addr)) (b : addr) x s' : Prop := {
  m_addr : (brk s ≤ b < brk s')%nat;
  m_array : (brk s ≤ sched_pools x < brk s')%nat ∧ sched_pools x ≠ b;
  m_scheds : scheds s' = <[b := x]> (scheds s);
  m_blocks : blocks s' = {[sched_pools x]} ∪ ({[b]} ∪ blocks s);
  m_ythreads : ythreads s' = ythreads s;
  m_list : pool_list x = Some <$> d.*2;
  m_given : d.*1 = given;
  m_olds : olds d = omap (λ o, o) given;
  m_used : used x = ABTI_SCHED_NOT_USED;
  m_thread : p_ythread x = None;
  m_ready : sched_ready x;
  m_nodup : NoDup (news d);
  m_new : ∀ a, a ∈ news d → (brk s ≤ a < brk s')%nat ∧ ∃ P, pools s' !! a = Some P ∧ num_scheds P = 1 ∧ automatic P = true ∧ pool_ready P;
  m_old : ∀ a, a ∉ news d → pools s' !! a = add_num (cnt a given) <$> pools s !! a
}.

(** What was given can be used. *)
Definition given_ok (given : list (option addr)) s : Prop :=
  (∀ a, Some a ∈ given → is_Some (pools s !! a)) ∧ ∀ a, refs (scheds s) a + cnt a given + 1 < 2 ^ 31.

Section create.
Context (T : gset addr) (s : st) (W : wf_but T s).

Lemma wf_bounded : bounded s.
Proof using W. intros q P Hq. by destruct (f_pool _ _ W q P Hq). Qed.

Lemma wf_blocks a : a ∈ blocks s → (a < brk s)%nat.
Proof using W. intros Ha. by apply (f_block _ _ W). Qed.

Lemma wf_scheds a x : scheds s !! a = Some x → (a < brk s)%nat ∧ (sched_pools x < brk s)%nat.
Proof using W. intros Ha. destruct (f_sched _ _ W a x Ha) as (H1 & H2 & _). split; by apply wf_blocks. Qed.

Lemma no_sched a : (brk s ≤ a)%nat → scheds s !! a = None.
Proof using W. intros Ha. destruct (scheds s !! a) as [x|] eqn:E; [|done]. apply wf_scheds in E. lia. Qed.

Lemma no_pool a : (brk s ≤ a)%nat → pools s !! a = None.
Proof using W. intros Ha. destruct (pools s !! a) as [x|] eqn:E; [|done]. apply wf_bounded in E. lia. Qed.

Lemma made_cnt given d b x s' a : made s given d b x s' → given_ok given s → cnt a (pool_list x) = if decide (a ∈ news d) then 1 else cnt a given.
Proof using W.
  intros [] [Hg _]. rewrite m_list0, cnt_split, m_olds0, cnt_omap, cnt_nodup by done. case_decide as Ha; [|lia].
  assert (cnt a given = 0) as ->; [|done]. pose proof (cnt_nonneg a given). destruct (decide (0 < cnt a given)) as [Hc%cnt_pos|]; [|lia].
  destruct (Hg a Hc) as [P HP%wf_bounded]. destruct (m_new0 a Ha). lia.
Qed.

Lemma made_wf given d b x s' : made s given d b x s' → given_ok given s → wf_but T s'.
Proof using W.
  intros Mk Hg. pose proof (λ a, made_cnt given d b x s' a Mk Hg) as Hcnt. pose proof Mk as []. destruct Hg as [Hg Hsmall].
  assert (scheds s !! b = None) as Hb by (apply no_sched; lia).
  assert (∀ a y, scheds s' !! a = Some y → (a = b ∧ y = x) ∨ (a ≠ b ∧ scheds s !! a = Some y)) as Hs.
  { intros a y. rewrite m_scheds0, lookup_insert. case_decide; [intros [= <-]; by left; subst|]. right. split; [congruence|done]. }
  assert (∀ a P, pools s !! a = Some P → (a ∉ news d) ∧ pools s' !! a = Some (add_num (cnt a given) P)) as Hold.
  { intros a P HP. assert (a ∉ news d) as Hn by (intros Hn; destruct (m_new0 a Hn); apply wf_bounded in HP; lia). split; [done|]. by rewrite m_old0, HP by done. }
  split.
  - intros a P HP. rewrite m_scheds0, refs_insert, Hcnt by done. case_decide as Ha.
    + destruct (m_new0 a Ha) as (? & P' & HP' & Hn & _ & Hr). assert (P' = P) as -> by congruence. split_and!; [lia| |done]. rewrite Hn, (refs_fresh T s); [done|done|apply no_pool; lia].
    + rewrite m_old0 in HP by done. destruct (pools s !! a) as [P0|] eqn:E; [|done]. injection HP as <-. destruct (f_pool _ _ W a P0 E) as (? & Hn & Hr).
      split_and!; [lia|cbn; lia|done].
  - intros a y q Ha Hq. destruct (Hs a y Ha) as [[-> ->]|[_ Ha']].
    + destruct (decide (q ∈ news d)) as [Hn|Hn]; [destruct (m_new0 q Hn) as (_ & P & -> & _); eauto|].
      rewrite <- cnt_pos, Hcnt, decide_False, cnt_pos in Hq by done. destruct (Hg q Hq) as [P HP]. apply Hold in HP as [_ ->]. eauto.
    + destruct (f_ref _ _ W a y q Ha' Hq) as [P HP]. apply Hold in HP as [_ ->]. eauto.
  - intros a y Ha. rewrite m_blocks0. destruct (Hs a y Ha) as [[-> ->]|[Hne Ha']].
    + split_and!; [set_solver|set_solver| |done]. rewrite m_scheds0, lookup_insert_ne by (by intros ->; destruct m_array0). apply no_sched. lia.
    + destruct (f_sched _ _ W a y Ha') as (? & ? & ? & ?). split_and!; [set_solver|set_solver| |done].
      rewrite m_scheds0, lookup_insert_ne; [done|]. apply wf_scheds in Ha'. lia.
  - intros a c y z Ha Hc E. destruct (Hs a y Ha) as [[-> ->]|[Hne Ha']], (Hs c z Hc) as [[-> ->]|[Hne' Hc']]; try done.
    + apply wf_scheds in Hc'. lia.
    + apply wf_scheds in Ha'. lia.
    + by eapply (f_array _ _ W).
  - intros a y t Ha Ht. destruct (Hs a y Ha) as [[-> ->]|[_ Ha']]; [congruence|]. rewrite m_ythreads0. by eapply (f_thread _ _ W).
  - intros a c y z t Ha Hc Ht Ht'. destruct (Hs a y Ha) as [[-> ->]|[Hne Ha']], (Hs c z Hc) as [[-> ->]|[Hne' Hc']]; try congruence.
    by eapply (f_thread_inj _ _ W).
  - intros a y Ha. destruct (Hs a y Ha) as [[-> ->]|[_ Ha']]; [done|by apply (f_unused _ _ W a)].
  - intros a. rewrite m_blocks0. intros [->%elem_of_singleton|[->%elem_of_singleton|Ha]%elem_of_union]%elem_of_union.
    + split; [lia|]. right. right. exists b, x. split; [rewrite m_scheds0; apply lookup_insert_eq|done].
    + split; [lia|]. right. left. rewrite m_scheds0, lookup_insert_eq. eauto.
    + destruct (f_block _ _ W a Ha) as [? [?|[[y Hy]|(c & y & Hc & Hy)]]]; (split; [lia|]); [by left|right; left|right; right].
      * rewrite m_scheds0, lookup_insert_ne; [eauto|]. congruence.
      * exists c, y. split; [|done]. rewrite m_scheds0, lookup_insert_ne; [done|]. congruence.
  - intros a Ha. destruct (f_temp _ _ W a Ha) as (H1 & H2 & H3). pose proof (wf_blocks a H1). split_and!.
    + rewrite m_blocks0. set_solver.
    + rewrite m_scheds0, lookup_insert_ne; [done|]. lia.
    + intros c y Hc. destruct (Hs c y Hc) as [[-> ->]|[_ Hc']]; [lia|by eapply H3].
  - intros t. rewrite m_ythreads0. intros Ht. destruct (f_ythread _ _ W t Ht) as (? & c & y & Hc & Hy). split; [lia|]. exists c, y. split; [|done].
    rewrite m_scheds0, lookup_insert_ne; [done|]. congruence.
Qed.

(** Giving the two blocks of a scheduler back. *)
Lemma free_both_run {A} b arr s' (r : A) :
  (brk s ≤ b)%nat → (brk s ≤ arr)%nat → b ≠ arr → pools s' = pools s → (scheds s' = scheds s ∨ ∃ x, scheds s' = <[b := x]> (scheds s)) →
  blocks s' = {[arr]} ∪ ({[b]} ∪ blocks s) → ythreads s' = ythreads s → (brk s ≤ brk s')%nat →
  ∃ s'', (ABTU_free arr;; ABTU_free b;; mret r) s' = Done (r, s'') ∧ quiet s s''.
Proof using W.
  intros Hb Ha Hne Ep Es Eb Et Ek. assert ((b ∉ blocks s) ∧ arr ∉ blocks s) as [Nb Na] by (split; intros H%wf_blocks; lia).
  rewrite (C_bind_Done _ _ _ _ _ (free_block_run s' arr ltac:(rewrite Eb; set_solver))).
  set (s1 := set_scheds (delete arr (scheds s')) (set_blocks (blocks s' ∖ {[arr]}) s')).
  rewrite (C_bind_Done _ _ _ _ _ (free_block_run s1 b ltac:(cbn; rewrite Eb; set_solver))). eexists. split; [done|]. split; cbn; try done.
  - pose proof (no_sched b Hb). pose proof (no_sched arr Ha). destruct Es as [->|(x & ->)].
    + by rewrite !delete_id by (rewrite ?lookup_delete_None; auto).
    + rewrite delete_delete, delete_insert_id by done. by rewrite delete_id.
  - rewrite Eb. set_solver.
Qed.

End create.

(** Two more blocks than [s], and more pools. *)
Lemma sched_setup_run T s given d0 cfg auto b arr d s1 : wf_but T s → given_ok given s →
  (brk s ≤ b)%nat → (brk s ≤ arr)%nat → b ≠ arr → (b < brk s1)%nat → (arr < brk s1)%nat →
  blocks s1 = {[arr]} ∪ ({[b]} ∪ blocks s) → d.*1 = given → olds d = omap (λ o, o) given →
  grown s (news d) (set_blocks (blocks s) s1) →
  (∃ err s', err ≠ ABT_SUCCESS ∧ quiet s s' ∧ sched_setup d0 cfg auto b arr d s1 = Done (inl err, s')) ∨
  (∃ x s', made s given d b x s' ∧ s_automatic x = read_automatic cfg auto ∧ sched_setup d0 cfg auto b arr d s1 = Done (inr b, s')).
Proof.
  intros W [Hg Hsmall] Hb Harr Hne Hb1 Harr1 Ebl E1 E2 []. cbn in *.
  assert (∀ a, a ∈ olds d → ∃ P, pools s !! a = Some P ∧ (a ∉ news d) ∧ pools s1 !! a = Some P) as Hold.
  { intros a Ha. rewrite E2 in Ha. apply list_elem_of_omap in Ha as (o & Ho & ->). destruct (Hg a Ho) as [P HP]. exists P. split; [done|].
    assert (a ∉ news d) as Hn. { intros Hn. destruct (g_new0 a Hn). apply (wf_bounded T s W) in HP. lia. }
    split; [done|]. by rewrite g_old0. }
  assert (∀ a, cnt a (Some <$> d.*2) = if decide (a ∈ news d) then 1 else cnt a given) as Hcnt.
  { intros a. rewrite cnt_split, E2, cnt_omap, cnt_nodup by done. case_decide as Ha; [|lia]. rewrite <- cnt_omap, <- E2, cnt_absent; [done|].
    intros Ho. by destruct (Hold a Ho) as (_ & _ & ? & _). }
  destruct (retain_all_run d.*2 s1) as (m & Hm & Hl).
  { intros a [Ha|Ha]%elem_snd_split; [destruct (Hold a Ha) as (P & _ & _ & ->); eauto|]. destruct (g_new0 a Ha) as (_ & P & -> & _). eauto. }
  { intros a P HP. rewrite Hcnt. case_decide as Ha.
    - destruct (g_new0 a Ha) as (_ & P' & HP' & Hn & _). assert (P' = P) as -> by congruence. lia.
    - rewrite g_old0 in HP by done. destruct (f_pool _ _ W a P HP) as (_ & -> & _). pose proof (refs_nonneg (scheds s) a). specialize (Hsmall a). lia. }
  set (x0 := MkSched ABTI_SCHED_NOT_USED (read_automatic cfg auto) d0 arr (Some <$> d.*2) None false).
  set (s2 := set_pools m s1). set (s3 := set_scheds (<[b := x0]> (scheds s2)) s2). unfold sched_setup.
  rewrite (C_bind_Done _ _ _ _ _ Hm), (C_bind_Done (put_sched b x0) _ s2 () s3 eq_refl).
  assert (∀ x s', x = x0 ∨ x = set_s_ready true x0 → sched_ready x → quiet s3 s' → made s given d b x (set_scheds (<[b := x]> (scheds s')) s')) as Hmade.
  { intros x s' Hx Hr [F1 F2 F3 F4 F5]. assert (sched_pools x = arr ∧ pool_list x = Some <$> d.*2 ∧ used x = ABTI_SCHED_NOT_USED ∧ p_ythread x = None) as (Ea & El & Eu & Et).
    { destruct Hx as [->| ->]; done. }
    cbn in F1, F2, F3, F4, F5. split; cbn; rewrite ?Ea, ?F1, ?F2, ?F3, ?F4; try done; [lia|split; [lia|done]|by rewrite insert_insert_eq, g_scheds0|..].
    - intros a Ha. destruct (g_new0 a Ha) as (? & P & HP & H0 & Hau & Hre). split; [lia|]. exists (add_num 1 P). rewrite Hl, HP, Hcnt, decide_True by done.
      split_and!; try done. cbn. lia.
    - intros a Ha. by rewrite Hl, Hcnt, decide_False, g_old0 by done. }
  destruct (s_init d0) eqn:Ei.
  - destruct (outcome_run s3) as (r & s4 & Hr & Q & Eb4). rewrite (C_bind_Done _ _ _ _ _ Hr). destruct (Z.eqb_spec r ABT_SUCCESS) as [->|Hne0]; cbn [negb].
    + right. assert (scheds s4 !! b = Some x0) as Hx by (destruct Q as [_ -> _ _ _]; cbn; apply lookup_insert_eq).
      exists (set_s_ready true x0). eexists. split; [apply (Hmade _ s4); [by right|done|done]|]. split; [done|].
      rewrite (C_bind_Done (sched_at b) _ s4 x0 s4) by (unfold sched_at; by rewrite Hx). done.
    + left. pose proof Q as [F1 F2 F3 F4 F5]. cbn in F1, F2, F3, F4, F5. destruct (undo_pools_run d s4) as (m' & Hm' & Hl').
      * done.
      * intros a Ha. destruct (g_new0 a Ha) as (? & P & HP & ? & ? & ?). split; [intros Ho; by destruct (Hold a Ho) as (_ & _ & ? & _)|].
        exists (add_num (cnt a (Some <$> d.*2)) P). by rewrite F1, Hl, HP.
      * intros a Ha. destruct (Hold a Ha) as (P & HP & Hn & HP1). exists (add_num (cnt a (Some <$> d.*2)) P). rewrite F1, Hl, HP1, Hcnt, decide_False by done.
        split; [done|]. cbn. rewrite E2, cnt_omap. destruct (f_pool _ _ W a P HP) as (_ & -> & _). pose proof (refs_nonneg (scheds s) a). specialize (Hsmall a). lia.
      * rewrite (C_bind_Done _ _ _ _ _ Hm'). destruct (free_both_run T s W b arr (set_pools m' s4) (inl r : Z + nat)) as (s' & Hs' & Q'); cbn; try done.
        -- apply map_eq. intros a. rewrite Hl', F1, Hl. case_decide as Ha; [symmetry; apply (no_pool T s W); destruct (g_new0 a Ha); lia|].
           rewrite Hcnt, decide_False, g_old0, E2, cnt_omap by done. destruct (pools s !! a) as [P|]; [|done]. cbn. rewrite add_num_add, Z.add_opp_diag_r. by rewrite add_num_0.
        -- right. exists x0. by rewrite F2, g_scheds0.
        -- by rewrite F3.
        -- by rewrite F4.
        -- lia.
        -- exists r, s'. split_and!; done.
  - right. exists x0, s3. split; [|split; done]. assert (s3 = set_scheds (<[b := x0]> (scheds s3)) s3) as E by (unfold s3; cbn; by rewrite insert_insert_eq).
    rewrite E. apply Hmade; [by left| |done]. intros H. cbn in H. congruence.
Qed.

Lemma sched_create_run T s given d0 cfg auto : wf_but T s → given_ok given s →
  (∃ err s', err ≠ ABT_SUCCESS ∧ quiet s s' ∧ sched_create d0 given cfg auto s = Done (inl err, s')) ∨
  (∃ d b x s', made s given d b x s' ∧ s_automatic x = read_automatic cfg auto ∧ sched_create d0 given cfg auto s = Done (inr b, s')).
Proof.
  intros W Hg. unfold sched_create. destruct (malloc_run s) as [(err & s1 & ? & Q & E)|(s1 & Q & Eb & E)]; rewrite (C_bind_Done _ _ _ _ _ E); [left; by exists err, s1|].
  pose proof Q as [E1 E2 E3 E4 E5]. set (s2 := set_blocks _ s1). unfold sched_fill. assert (brk s ∉ blocks s) as Nb by (intros H%(wf_blocks T s W); lia).
  destruct (malloc_run s2) as [(err & s3 & ? & Q3 & E')|(s3 & Q3 & Eb3 & E')]; rewrite (C_bind_Done _ _ _ _ _ E').
  - left. pose proof Q3 as [F1 F2 F3 F4 F5]. cbn in F1, F2, F3, F4, F5. rewrite (C_bind_Done _ _ _ _ _ (free_block_run s3 (brk s) ltac:(rewrite F3; set_solver))).
    eexists err, _. split; [done|]. split; [|done]. split; cbn; rewrite ?F1, ?F2, ?F3, ?F4; try done; [|set_solver|lia].
    rewrite E2, delete_id; [done|]. apply (no_sched T s W). lia.
  - pose proof Q3 as [F1 F2 F3 F4 F5]. cbn [s2 pools scheds blocks ythreads brk set_blocks] in F1, F2, F3, F4, F5, Eb3. set (arr := brk s2). set (s4 := set_blocks _ s3).
    assert (arr = S (brk s)) as Earr by (unfold arr; cbn; done).
    assert (bounded s4 ∧ quiet s (set_blocks (blocks s) s4)) as [B4 Q4].
    { split; [intros q P; cbn; rewrite F1, E1; intros HP; apply (wf_bounded T s W) in HP; lia|]. split; cbn; rewrite ?F1, ?F2, ?F4; try done; lia. }
    destruct (create_pools_run ABT_POOL_FIFO ABT_POOL_ACCESS_MPSC s4 given [] s4 B4 (grown_nil s4)) as [(err & s5 & ? & Q5 & E5')|(d & s5 & G & D1 & D2 & E5')]; rewrite (C_bind_Done _ _ _ _ _ E5').
    + left. pose proof Q5 as [G1 G2 G3 G4 G5]. cbn [s4 pools scheds blocks ythreads brk set_blocks] in G1, G2, G3, G4, G5.
      destruct (free_both_run T s W (brk s) arr s5 (inl err : Z + nat)) as (s' & Hs' & Q'); rewrite ?G1, ?G2, ?G3, ?G4; try done; try lia.
      * congruence.
      * left. congruence.
      * congruence.
      * exists err, s'. split_and!; done.
    + destruct (sched_setup_run T s given d0 cfg auto (brk s) arr d s5 W Hg) as [?|(x & s' & ? & ? & ?)]; try done; try lia.
      * destruct G. cbn in *. lia.
      * destruct G. cbn in *. lia.
      * destruct G. rewrite g_blocks0. done.
      * destruct Q4 as [H1 H2 H3 H4 H5]. cbn in H1, H2, H4, H5. destruct G. cbn in g_scheds0, g_ythreads0, g_brk0. split; cbn; try done; [congruence|congruence|lia|..].
        -- intros a Ha. rewrite g_old0 by done. cbn. congruence.
        -- intros a Ha. destruct (g_new0 a Ha). cbn in *. split; [lia|done].
      * by left.
      * right. by exists d, (brk s), x, s'.
Qed.

(** *** Predefined schedulers *)

Lemma grown_wf T s l s' : wf_but T s → grown s l s' → wf_but T s'.
Proof.
  intros W G. pose proof G as []. assert (∀ a P, pools s !! a = Some P → pools s' !! a = Some P) as Hold.
  { intros a P HP. rewrite g_old0; [done|]. intros Ha. destruct (g_new0 a Ha). apply (wf_bounded T s W) in HP. lia. }
  split; rewrite ?g_scheds0, ?g_blocks0, ?g_ythreads0; try apply W.
  - intros a P HP. destruct (decide (a ∈ l)) as [Ha|Ha].
    + destruct (g_new0 a Ha) as (? & P' & HP' & H0 & _ & Hr). assert (P' = P) as -> by congruence. split_and!; [lia| |done].
      rewrite H0, (refs_fresh T s); [done|done|apply (no_pool T s W); lia].
    + rewrite g_old0 in HP by done. destruct (f_pool _ _ W a P HP) as (? & ? & ?). split_and!; [lia|done..].
  - intros a x q Ha Hq. destruct (f_ref _ _ W a x q Ha Hq) as [P HP]. rewrite (Hold q P HP). eauto.
  - intros a Ha. destruct (f_block _ _ W a Ha). split; [lia|done].
  - intros t Ht. destruct (f_ythread _ _ W t Ht). split; [lia|done].
Qed.

Lemma all_given d l : d.*1 = Some <$> l → olds d = l → news d = [] ∧ d.*2 = l.
Proof.
  revert l. induction d as [|[[g|] a] d IH]; intros [|b l]; try done; cbn [fmap list_fmap fst snd].
  - change (olds ((Some g, a) :: d)) with (a :: olds d). intros [= -> E1] [= -> E2]. destruct (IH l E1 E2) as [? ?]. split; [done|]. f_equal. done.
Qed.

Lemma create_with_run T s kind given predef cfg : wf_but T s → given_ok given s →
  (∃ err s', err ≠ ABT_SUCCESS ∧ quiet s s' ∧ create_with kind given predef cfg s = Done (inl err, s')) ∨
  (∃ d b x s', made s given d b x s' ∧ s_automatic x = read_automatic cfg true ∧ create_with kind given predef cfg s = Done (inr b, s')).
Proof.
  intros W [Hg Hsmall]. pose proof (wf_bounded T s W) as Hb. unfold create_with.
  destruct (create_pools_run kind ABT_POOL_ACCESS_MPMC s given [] s Hb (grown_nil s)) as [(err & s1 & ? & Q & E)|(d & s1 & G & D1 & D2 & E)];
    rewrite (C_bind_Done _ _ _ _ _ E); [left; by exists err, s1|]. cbn in D1, D2.
  pose proof (grown_wf T s _ s1 W G) as W1. pose proof G as [].
  assert (∀ a, cnt a (Some <$> d.*2) = if decide (a ∈ news d) then 1 else cnt a given) as Hcnt.
  { intros a. rewrite cnt_split, D2, cnt_omap, cnt_nodup by done. case_decide as Ha; [|lia]. pose proof (cnt_nonneg a given).
    destruct (decide (0 < cnt a given)) as [Hc%cnt_pos|]; [|lia]. destruct (Hg a Hc) as [P HP%Hb]. destruct (g_new0 a Ha). lia. }
  assert (given_ok (Some <$> d.*2) s1) as Hg1.
  { split.
    - intros a (b & [= <-] & [Ho|Hn]%elem_snd_split)%list_elem_of_fmap.
      + rewrite D2 in Ho. apply list_elem_of_omap in Ho as (o & Ho & ->). destruct (Hg a Ho) as [P HP]. rewrite g_old0; [eauto|].
        intros Hn. apply Hb in HP. destruct (g_new0 a Hn). lia.
      + destruct (g_new0 a Hn) as (_ & P & -> & _). eauto.
    - intros a. rewrite g_scheds0, Hcnt. specialize (Hsmall a). case_decide as Ha; [|lia].
      rewrite (refs_fresh T s a W); [lia|]. apply (no_pool T s W). destruct (g_new0 a Ha). lia. }
  assert ((∃ err s', err ≠ ABT_SUCCESS ∧ quiet s1 s' ∧ create_predef predef d.*2 cfg s1 = Done (inl err, s')) ∨
    (∃ d' b x s', made s1 (Some <$> d.*2) d' b x s' ∧ s_automatic x = read_automatic cfg true ∧ create_predef predef d.*2 cfg s1 = Done (inr b, s'))) as H.
  { unfold create_predef. destruct predef; cbn [predef_def]; try (by eapply sched_create_run). left. by exists ABT_ERR_INV_SCHED_PREDEF, s1. }
  destruct H as [(err & s2 & ? & Q & E2)|(d' & b & x & s2 & Mk & Ha & E2)]; rewrite (C_bind_Done _ _ _ _ _ E2).
  - left. pose proof (grown_quiet _ _ _ _ G Q) as G2. destruct (free_created_run d s2) as (m & Hm & Hl).
    + done.
    + intros a Ha. destruct (g_new _ _ _ G2 a Ha) as (_ & P & ? & _ & _ & ?). eauto.
    + rewrite (C_bind_Done _ _ _ _ _ Hm). exists err, (set_pools m s2). split_and!; try done. by eapply grown_undo.
  - right. exists d, b, x, s2. split; [|done]. destruct (all_given d' d.*2 (m_given _ _ _ _ _ _ Mk)) as [N1 N2].
    { rewrite (m_olds _ _ _ _ _ _ Mk). clear. induction d as [|e d IH]; [done|]. cbn. f_equal. apply IH. }
    destruct Mk. split; try done; [lia|lia|congruence|congruence|congruence|congruence|..].
    + intros a Hin. destruct (g_new0 a Hin) as (? & P & HP & H0 & ? & ?). split; [lia|]. exists (add_num 1 P).
      rewrite m_old0, HP, Hcnt, decide_True by (rewrite ?N1; apply not_elem_of_nil || done). split_and!; try done. cbn. lia.
    + intros a Hin. rewrite m_old0 by (rewrite N1; apply not_elem_of_nil). by rewrite Hcnt, decide_False, g_old0.
Qed.

Definition given_of (predef : ABT_sched_predef) (given : option (list (option addr))) : list (option addr) :=
  match given with
  | Some given => given
  | None => match predef_pools predef with inl _ => [] | inr (_, n) => replicate n None end
  end.

Lemma wf_temp T s s1 : wf_but T s → quiet s s1 → brk s1 = S (brk s) → wf_but ({[brk s]} ∪ T) (set_blocks ({[brk s]} ∪ blocks s) s1).
Proof.
  intros W [E1 E2 E3 E4 E5] Eb. split; cbn; rewrite ?E1, ?E2, ?E4, ?Eb; try apply W.
  - intros a P HP. destruct (f_pool _ _ W a P HP) as (? & ? & ?). split_and!; [lia|done..].
  - intros a x Ha. destruct (f_sched _ _ W a x Ha) as (? & ? & ? & ?). split_and!; [set_solver|set_solver|done..].
  - intros a [->%elem_of_singleton|Ha]%elem_of_union; [split; [lia|left; set_solver]|]. destruct (f_block _ _ W a Ha) as [? [?|?]]; (split; [lia|]); [left; set_solver|by right].
  - intros a [->%elem_of_singleton|Ha]%elem_of_union.
    + split_and!; [set_solver|apply (no_sched T s W); lia|]. intros b x Hb. apply (wf_scheds T s W) in Hb. lia.
    + destruct (f_temp _ _ W a Ha) as (? & ? & ?). split_and!; [set_solver|done..].
  - intros t Ht. destruct (f_ythread _ _ W t Ht). split; [lia|done].
Qed.

Lemma sched_create_basic_run T s predef given cfg : wf_but T s → given_ok (given_of predef given) s →
  (∃ err s', err ≠ ABT_SUCCESS ∧ quiet s s' ∧ ABTI_sched_create_basic predef given cfg s = Done (inl err, s')) ∨
  (∃ d b x s', made s (given_of predef given) d b x s' ∧ s_automatic x = read_automatic cfg true ∧ ABTI_sched_create_basic predef given cfg s = Done (inr b, s')).
Proof.
  intros W Hg. destruct given as [[|g given]|]; cbn [given_of] in Hg |- *.
  - by apply (create_with_run T).
  - cbn [ABTI_sched_create_basic]. destruct (malloc_run s) as [(err & s1 & ? & Q & E)|(s1 & Q & Eb & E)]; rewrite (C_bind_Done _ _ _ _ _ E); [left; by exists err, s1|].
    pose proof (wf_temp T s s1 W Q Eb) as W2. pose proof Q as [E1 E2 E3 E4 E5]. set (s2 := set_blocks _ s1) in *.
    assert (given_ok (g :: given) s2) as Hg2 by (destruct Hg; split; cbn; by rewrite ?E1, ?E2).
    assert (brk s ∉ blocks s) as Nb by (intros H%(wf_blocks T s W); lia). assert (scheds s !! brk s = None) as Ns by (apply (no_sched T s W); lia).
    destruct (create_with_run _ s2 ABT_POOL_FIFO (g :: given) predef cfg W2 Hg2) as [(err & s3 & ? & Q3 & E3')|(d & b & x & s3 & Mk & Ha & E3')];
      rewrite (C_bind_Done _ _ _ _ _ E3').
    + pose proof Q3 as [F1 F2 F3 F4 F5]. cbn in F1, F2, F3, F4, F5. rewrite (C_bind_Done _ _ _ _ _ (free_block_run s3 (brk s) ltac:(rewrite F3; set_solver))).
      left. eexists err, _. split; [done|]. split; [|done]. split; cbn; rewrite ?F1, ?F2, ?F3, ?F4; try done; [|set_solver|lia]. by rewrite E2, delete_id.
    + pose proof Mk as []. cbn in m_addr0, m_array0, m_scheds0, m_blocks0, m_ythreads0, m_new0, m_old0.
      rewrite (C_bind_Done _ _ _ _ _ (free_block_run s3 (brk s) ltac:(rewrite m_blocks0; set_solver))).
      right. exists d, b, x. eexists. split; [|split; done]. split; cbn; try done; [lia|lia|..].
      * rewrite m_scheds0, delete_insert_ne by lia. by rewrite E2, delete_id.
      * rewrite m_blocks0. assert (sched_pools x ≠ brk s ∧ b ≠ brk s) as [? ?] by lia. set_solver.
      * congruence.
      * intros a Hin. destruct (m_new0 a Hin). split; [lia|done].
      * intros a Hin. rewrite m_old0 by done. by rewrite E1.
  - cbn [ABTI_sched_create_basic]. destruct predef; cbn [predef_pools] in Hg |- *; try (by apply (create_with_run T)). left. by exists ABT_ERR_INV_SCHED_PREDEF, s.
Qed.

(** *** Freeing *)

(** [s'] is [s] without the scheduler [b]. *)
Record unmade s (b : addr) x s' : Prop := {
  u_scheds : scheds s' = delete b (scheds s);
  u_blocks : blocks s' = blocks s ∖ {[sched_pools x]} ∖ {[b]};
  u_ythreads : ythreads s' = match p_ythread x with Some t => ythreads s ∖ {[t]} | None => ythreads s end;
  u_pools : ∀ a, pools s' !! a = pools s !! a ≫= released (cnt a (pool_list x));
  u_brk : brk s' = brk s
}.

(** [s'] is [s] without the scheduler [b], its pools being [m]. *)
Record without s (b : addr) x (m : gmap addr ABTI_pool) s' : Prop := {
  o_scheds : scheds s' = delete b (scheds s);
  o_blocks : blocks s' = blocks s ∖ {[sched_pools x]} ∖ {[b]};
  o_ythreads : ythreads s' = match p_ythread x with Some t => ythreads s ∖ {[t]} | None => ythreads s end;
  o_pools : pools s' = m;
  o_brk : brk s' = brk s
}.

(** Freeing a scheduler whose use may just have been reset comes down to releasing its pools. *)
Lemma sched_free_pools T s b x force : wf_but T s → scheds s !! b = Some x →
  ∃ s1, pools s1 = pools s ∧
    let s0 := set_scheds (<[b := set_used ABTI_SCHED_NOT_USED x]> (scheds s)) s in
    (∀ f, release_pools force (pool_list x) s1 = Fault f → ABTI_sched_free b force s0 = Fault f) ∧
    (∀ m, release_pools force (pool_list x) s1 = Done ((), set_pools m s1) → ∃ s', ABTI_sched_free b force s0 = Done ((), s') ∧ without s b x m s').
Proof.
  intros W Hb. destruct (f_sched _ _ W b x Hb) as (Hbb & Hab & Hna & Hr). unfold ABTI_sched_free. set (x0 := set_used ABTI_SCHED_NOT_USED x). set (s0 := set_scheds _ s).
  rewrite (C_bind_Done (sched_at b) _ s0 x0 s0) by (unfold sched_at; cbn; by rewrite lookup_insert_eq). rewrite (C_bind_Done _ _ s0 () s0) by done.
  assert (∃ m1, (if s_free (s_def x) then if s_init (s_def x) && negb (s_ready x) then throw UB else put_sched b (set_s_ready false x0) else mret ()) s0 =
    Done ((), set_scheds m1 s) ∧ ∃ y, m1 = <[b := y]> (scheds s)) as (m1 & E1 & y & Hm1).
  { unfold sched_ready in Hr. destruct (s_free (s_def x)); [|exists (scheds s0); split; [done|by exists x0]].
    exists (<[b := set_s_ready false x0]> (scheds s)). split; [|by eexists]. destruct (s_init (s_def x)); rewrite ?Hr by done; cbn; unfold put_sched, modify; cbn; by rewrite insert_insert_eq. }
  cbn [s_def s_ready x0 set_used pool_list sched_pools p_ythread].
  rewrite (C_bind_Done _ _ _ _ _ E1). set (s1 := set_scheds m1 s). exists s1. split; [done|]. cbn zeta. split; [intros f Hf; by rewrite (C_bind_Fault _ _ _ _ Hf)|]. intros m Hm.
  rewrite (C_bind_Done _ _ _ _ _ Hm). set (s2 := set_pools m s1).
  rewrite (C_bind_Done _ _ _ _ _ (free_block_run s2 (sched_pools x) Hab)). set (s3 := set_scheds _ _).
  assert (b ≠ sched_pools x) as Hne by congruence.
  assert (delete b (delete (sched_pools x) m1) = delete b (scheds s)) as Ed.
  { rewrite Hm1, delete_insert_ne, (delete_id (scheds s) (sched_pools x)) by done. apply delete_insert_eq. }
  destruct (p_ythread x) as [t|] eqn:Et.
  - pose proof (f_thread _ _ W b x t Hb Et) as Ht. set (s4 := set_ythreads (ythreads s3 ∖ {[t]}) s3).
    rewrite (C_bind_Done (ABTI_thread_free t) _ s3 () s4) by (unfold ABTI_thread_free; by rewrite decide_True).
    rewrite (free_block_run s4 b) by (cbn; set_solver). eexists. split; [done|]. split; cbn; try done. by rewrite Et.
  - rewrite (C_bind_Done (mret ()) _ s3 () s3 eq_refl). rewrite (free_block_run s3 b) by (cbn; set_solver). eexists. split; [done|]. split; cbn; try done. by rewrite Et.
Qed.

Lemma listed_pools T s b x a : wf_but T s → (∀ a, refs (scheds s) a < 2 ^ 31) → scheds s !! b = Some x → Some a ∈ pool_list x →
  ∃ P, pools s !! a = Some P ∧ cnt a (pool_list x) ≤ num_scheds P < 2 ^ 31 ∧ pool_ready P.
Proof.
  intros W Hsmall Hb Ha. destruct (f_ref _ _ W b x a Hb Ha) as [P HP]. exists P. destruct (f_pool _ _ W a P HP) as (_ & Hn & ?). pose proof (refs_cnt (scheds s) b x a Hb).
  specialize (Hsmall a). split_and!; [done|lia|lia|done].
Qed.

Lemma sched_free_run T s b x : wf_but T s → (∀ a, refs (scheds s) a < 2 ^ 31) → scheds s !! b = Some x →
  ∃ s', ABTI_sched_free b false (set_scheds (<[b := set_used ABTI_SCHED_NOT_USED x]> (scheds s)) s) = Done ((), s') ∧ unmade s b x s'.
Proof.
  intros W Hsmall Hb. destruct (sched_free_pools T s b x false W Hb) as (s1 & Ep & _ & Hrun).
  destruct (release_pools_run (pool_list x) s1) as (m & Hm & Hl); [intros a Ha; rewrite Ep; by eapply listed_pools|].
  destruct (Hrun m Hm) as (s' & E & []). exists s'. split; [done|]. split; try done. intros a. by rewrite o_pools0, Hl, Ep.
Qed.

(** By force, when no other scheduler has its pools. *)
Definition owned s x : Prop := ∀ a, Some a ∈ pool_list x → refs (scheds s) a = cnt a (pool_list x).

Lemma sched_free_forced T s b x : wf_but T s → (∀ a, refs (scheds s) a < 2 ^ 31) → scheds s !! b = Some x →
  let s0 := set_scheds (<[b := set_used ABTI_SCHED_NOT_USED x]> (scheds s)) s in
  if bool_decide (NoDup (omap (λ o, o) (pool_list x))) then
    ∃ m s', ABTI_sched_free b true s0 = Done ((), s') ∧ without s b x m s' ∧ ∀ a, m !! a = if decide (Some a ∈ pool_list x) then None else pools s !! a
  else ABTI_sched_free b true s0 = Fault UB.
Proof.
  intros W Hsmall Hb. destruct (sched_free_pools T s b x true W Hb) as (s1 & Ep & Hf & Hrun). cbn zeta. case_bool_decide as Hd.
  - destruct (release_forced_run (pool_list x) s1) as (m & Hm & Hl); [intros a Ha; rewrite Ep; by eapply listed_pools|done|].
    destruct (Hrun m Hm) as (s' & E & O). exists m, s'. split_and!; [done|done|]. intros a. by rewrite Hl, Ep.
  - apply Hf, release_forced_twice; [|tauto]. intros a Ha. right. rewrite Ep. by eapply listed_pools.
Qed.

Lemma without_wf T s b x m s' : wf_but T s → scheds s !! b = Some x → without s b x m s' →
  (∀ a P, m !! a = Some P → ∃ P0, pools s !! a = Some P0 ∧ P = add_num (- cnt a (pool_list x)) P0) →
  (∀ a, 0 < refs (delete b (scheds s)) a → is_Some (pools s !! a) → is_Some (m !! a)) → wf_but T s'.
Proof.
  intros W Hb [u_scheds0 u_blocks0 u_ythreads0 u_pools0 u_brk0] Hp Hk. destruct (f_sched _ _ W b x Hb) as (Hbb & Hab & Hna & Hr).
  assert (∀ a y, scheds s' !! a = Some y → a ≠ b ∧ scheds s !! a = Some y) as Hs.
  { intros a y. rewrite u_scheds0. intros [? ?]%lookup_delete_Some. split; [congruence|done]. }
  split.
  - intros a P HP. rewrite u_pools0 in HP. destruct (Hp a P HP) as (P0 & HP0 & ->). destruct (f_pool _ _ W a P0 HP0) as (? & Hn & ?). rewrite u_brk0, u_scheds0.
    split_and!; [done| |done]. rewrite (refs_delete _ b x a Hb). cbn. lia.
  - intros a y q Ha Hq. destruct (Hs a y Ha) as [Hne Ha']. rewrite u_pools0. apply Hk; [|by eapply (f_ref _ _ W)].
    assert (delete b (scheds s) !! a = Some y) as Hda by (rewrite lookup_delete_ne by congruence; done). pose proof (refs_cnt _ a y q Hda). apply cnt_pos in Hq. lia.
  - intros a y Ha. destruct (Hs a y Ha) as [Hne Ha']. destruct (f_sched _ _ W a y Ha') as (? & ? & Hn & ?).
    assert (sched_pools y ≠ sched_pools x) as Hy by (intros E; apply Hne; by eapply (f_array _ _ W)). rewrite u_blocks0, u_scheds0. split_and!; try done.
    + assert (a ≠ sched_pools x) by congruence. set_solver.
    + assert (sched_pools y ≠ b) by congruence. set_solver.
    + rewrite lookup_delete_None. by right.
  - intros a c y z Ha Hc. apply Hs in Ha as [_ Ha], Hc as [_ Hc]. by eapply (f_array _ _ W).
  - intros a y t Ha Ht. destruct (Hs a y Ha) as [Hne Ha']. pose proof (f_thread _ _ W a y t Ha' Ht). rewrite u_ythreads0. destruct (p_ythread x) as [t'|] eqn:Et; [|done].
    assert (t ≠ t') by (intros ->; apply Hne; by eapply (f_thread_inj _ _ W)). set_solver.
  - intros a c y z t Ha Hc. apply Hs in Ha as [_ Ha], Hc as [_ Hc]. by eapply (f_thread_inj _ _ W).
  - intros a y [_ Ha]%Hs. by apply (f_unused _ _ W a).
  - intros a. rewrite u_blocks0, u_brk0. intros Ha. assert (a ∈ blocks s ∧ a ≠ sched_pools x ∧ a ≠ b) as (Hin & H1 & H2) by set_solver.
    destruct (f_block _ _ W a Hin) as [? [?|[[y Hy]|(c & y & Hc & Hy)]]]; (split; [done|]); [by left|right; left|right; right].
    + rewrite u_scheds0, lookup_delete_ne by done. eauto.
    + exists c, y. split; [|done]. rewrite u_scheds0, lookup_delete_ne; [done|]. intros ->. congruence.
  - intros a Ha. destruct (f_temp _ _ W a Ha) as (H1 & H2 & H3). split_and!.
    + rewrite u_blocks0. assert (a ≠ b ∧ sched_pools x ≠ a) as [? ?] by (split; [congruence|by eapply H3]). set_solver.
    + rewrite u_scheds0, lookup_delete_None. by right.
    + intros c y Hc. apply Hs in Hc as [_ Hc]. by eapply H3.
  - intros t. rewrite u_ythreads0, u_brk0. intros Ht. assert (t ∈ ythreads s ∧ p_ythread x ≠ Some t) as [Hin Hne] by (destruct (p_ythread x); set_solver).
    destruct (f_ythread _ _ W t Hin) as (? & c & y & Hc & Hy). split; [done|]. exists c, y. split; [|done]. rewrite u_scheds0, lookup_delete_ne; [done|]. congruence.
Qed.

Lemma unmade_wf T s b x s' : wf_but T s → scheds s !! b = Some x → unmade s b x s' → wf_but T s'.
Proof.
  intros W Hb []. apply (without_wf T s b x (pools s') s' W Hb); [by split| |].
  - intros a P. rewrite u_pools0. destruct (pools s !! a) as [P0|]; [|done]. cbn. unfold released. case_decide; [done|]. intros [= <-]. eauto.
  - intros a Hr [P HP]. rewrite u_pools0, HP. cbn. unfold released. rewrite decide_False; [eauto|]. intros (_ & _ & Hn). destruct (f_pool _ _ W a P HP) as (_ & Hn' & _).
    pose proof (refs_delete (scheds s) b x a Hb). lia.
Qed.

Lemma forced_wf T s b x m s' : wf_but T s → scheds s !! b = Some x → owned s x → without s b x m s' →
  (∀ a, m !! a = if decide (Some a ∈ pool_list x) then None else pools s !! a) → wf_but T s'.
Proof.
  intros W Hb Hown O Hm. apply (without_wf T s b x m s' W Hb O).
  - intros a P. rewrite Hm. case_decide as Hin; [done|]. intros HP. exists P. split; [done|]. pose proof (cnt_nonneg a (pool_list x)). rewrite <- cnt_pos in Hin.
    replace (cnt a (pool_list x)) with 0 by lia. by rewrite add_num_0.
  - intros a Hr HP. rewrite Hm, decide_False; [done|]. intros Hin. pose proof (refs_delete (scheds s) b x a Hb). specialize (Hown a Hin). lia.
Qed.

(** *** The other operations *)

Lemma with_pool_wf T s a P auto s' : wf_but T s → with_pool a P s s' → new_pool auto P → wf_but T s'.
Proof.
  intros W (E1 & E2 & E3 & E4 & -> & E5) (H0 & _ & Hr). split; rewrite ?E2, ?E3, ?E4, ?E5; try apply W.
  - intros a P'. rewrite E1, lookup_insert. case_decide as Ha.
    + intros [= <-]. subst a. split_and!; [lia| |done]. rewrite H0, (refs_fresh T s); [done|done|by apply (no_pool T s W)].
    + intros HP. destruct (f_pool _ _ W a P' HP) as (? & ? & ?). split_and!; [lia|done..].
  - intros b x q Hb Hq. rewrite E1, lookup_insert. case_decide; [eauto|]. by eapply (f_ref _ _ W).
  - intros a Ha. destruct (f_block _ _ W a Ha). split; [lia|done].
  - intros t Ht. destruct (f_ythread _ _ W t Ht). split; [lia|done].
Qed.

Lemma pool_freed_wf T s a : wf_but T s → refs (scheds s) a = 0 → wf_but T (set_pools (delete a (pools s)) s).
Proof.
  intros W Ha. split; cbn; try apply W.
  - intros b P [_ HP]%lookup_delete_Some. by apply (f_pool _ _ W).
  - intros b x q Hb Hq. rewrite lookup_delete_ne; [by eapply (f_ref _ _ W)|]. intros <-. pose proof (refs_cnt (scheds s) b x a Hb). apply cnt_pos in Hq. lia.
Qed.

(** A scheduler gets, keeps or loses a thread, and its use changes. *)
Definition same_sched x x' : Prop := sched_pools x' = sched_pools x ∧ pool_list x' = pool_list x ∧ s_def x' = s_def x ∧ s_ready x' = s_ready x.

Lemma sched_changed_wf T s b x x' Y (k : addr) :
  wf_but T s → scheds s !! b = Some x → same_sched x x' → (brk s ≤ k)%nat → (used x' = ABTI_SCHED_NOT_USED → p_ythread x' = None) →
  (∀ t, t ∈ Y ↔ (t ∈ ythreads s ∧ p_ythread x ≠ Some t) ∨ p_ythread x' = Some t) →
  (∀ t, p_ythread x' = Some t → p_ythread x = Some t ∨ ((brk s ≤ t)%nat ∧ (t < k)%nat)) →
  wf_but T (set_brk k (set_ythreads Y (set_scheds (<[b := x']> (scheds s)) s))).
Proof.
  intros W Hb (Ea & El & Ed & Er) Hk Hu HY Ht'.
  assert (∀ a y, <[b := x']> (scheds s) !! a = Some y → ∃ y0, scheds s !! a = Some y0 ∧ same_sched y0 y ∧ ((a = b ∧ y = x' ∧ y0 = x) ∨ (a ≠ b ∧ y = y0))) as Hs.
  { intros a y. rewrite lookup_insert. case_decide; [intros [= <-]; subst a; exists x; split_and!; try done; by left|]. intros Hy. exists y. split_and!; try done. right. split; congruence. }
  assert (∀ a y t, scheds s !! a = Some y → p_ythread y = Some t → (t < brk s)%nat) as Hold.
  { intros a y t Ha Ht. apply (f_ythread _ _ W). by eapply (f_thread _ _ W). }
  assert (∀ a y, scheds s !! a = Some y → is_Some (<[b := x']> (scheds s) !! a)) as Hkeep by (intros a y Hy; rewrite lookup_insert; case_decide; eauto).
  split; cbn.
  - intros a P HP. destruct (f_pool _ _ W a P HP) as (? & ? & ?). split_and!; [lia| |done]. by rewrite (refs_update _ b x x').
  - intros a y q Ha Hq. destruct (Hs a y Ha) as (y0 & H0 & (_ & E & _) & _). rewrite E in Hq. by eapply (f_ref _ _ W).
  - intros a y Ha. destruct (Hs a y Ha) as (y0 & H0 & (E1 & E2 & E3 & E4) & _). destruct (f_sched _ _ W a y0 H0) as (? & ? & ? & Hr). rewrite E1. split_and!; try done.
    + rewrite lookup_insert_ne; [done|]. congruence.
    + unfold sched_ready in *. by rewrite E3, E4.
  - intros a c y z Ha Hc E. destruct (Hs a y Ha) as (y0 & H0 & (E1 & _) & _), (Hs c z Hc) as (z0 & H1 & (E2 & _) & _). eapply (f_array _ _ W); [done..|]. congruence.
  - intros a y t Ha Ht. destruct (Hs a y Ha) as (y0 & H0 & _ & [(-> & -> & ->)|(Hne & ->)]); apply HY; [by right|]. left. split; [by eapply (f_thread _ _ W)|].
    intros Hx. apply Hne. by eapply (f_thread_inj _ _ W).
  - intros a c y z t Ha Hc Hy Hz. destruct (Hs a y Ha) as (y0 & H0 & _ & [(-> & -> & ->)|(Hne & ->)]), (Hs c z Hc) as (z0 & H1 & _ & [(-> & -> & ->)|(Hne' & ->)]); try done.
    + destruct (Ht' t Hy) as [?|[? _]]; [by eapply (f_thread_inj _ _ W)|]. pose proof (Hold _ _ _ H1 Hz). lia.
    + destruct (Ht' t Hz) as [?|[? _]]; [by eapply (f_thread_inj _ _ W)|]. pose proof (Hold _ _ _ H0 Hy). lia.
    + by eapply (f_thread_inj _ _ W).
  - intros a y Ha. destruct (Hs a y Ha) as (y0 & H0 & _ & [(-> & -> & ->)|(Hne & ->)]); [done|by apply (f_unused _ _ W a)].
  - intros a Ha. destruct (f_block _ _ W a Ha) as [? [?|[[y Hy]|(c & y & Hc & Hy)]]]; (split; [lia|]); [by left|right; left; eauto|right; right].
    destruct (decide (c = b)) as [->|]; [exists b, x'; rewrite lookup_insert_eq; split; [done|congruence]|]. exists c, y. by rewrite lookup_insert_ne.
  - intros a Ha. destruct (f_temp _ _ W a Ha) as (H1 & H2 & H3). split_and!; [done|rewrite lookup_insert_ne; [done|congruence]|].
    intros c y Hc. destruct (Hs c y Hc) as (y0 & H0 & (E1 & _) & _). rewrite E1. by eapply H3.
  - intros t [[Ht Hx]|Ht]%HY.
    + destruct (f_ythread _ _ W t Ht) as (? & c & y & Hc & Hy). split; [lia|]. exists c, y. split; [|done]. rewrite lookup_insert_ne; [done|]. congruence.
    + split; [|exists b, x'; by rewrite lookup_insert_eq]. destruct (Ht' t Ht) as [Hx|[_ ?]]; [|done]. pose proof (Hold _ _ _ Hb Hx). lia.
Qed.

(** ** Sequences of operations *)

Inductive op :=
  | PoolBasic (kind : ABT_pool_kind) (acc : Z) (auto : bool)
  | PoolUser (acc : option Z) (d : pool_def) (cfg : option (option Z))
  | PoolFree (a : addr)
  | SchedCreate (d : ABT_sched_def) (given : list (option addr)) (cfg : option (option Z)) (newsched : option addr)
  | SchedBasic (predef : ABT_sched_predef) (given : option (list (option addr))) (cfg : option (option Z)) (newsched : option addr)
  | SchedFree (b : addr)
  | AddSched (a b : addr)
  | Discard (b : addr) (force_free : bool).

Definition do_op (o : op) : M Z :=
  match o with
  | PoolBasic kind acc auto => r ← ABT_pool_create_basic kind acc auto; mret r.1
  | PoolUser acc d cfg => r ← ABT_pool_create acc d cfg; mret r.1
  | PoolFree a => ABT_pool_free (Some a)
  | SchedCreate d given cfg newsched => r ← ABT_sched_create d (Z.of_nat (length given)) given cfg newsched; mret r.1
  | SchedBasic predef given cfg newsched =>
      r ← ABT_sched_create_basic predef (match given with Some l => Z.of_nat (length l) | None => 0 end) given cfg newsched; mret r.1
  | SchedFree b => ABT_sched_free (Some b)
  | AddSched a b => ABT_pool_add_sched (Some a) (Some b)
  | Discard b force_free => ABTI_sched_discard_and_free b force_free;; mret ABT_SUCCESS
  end.

(** Handles are valid, a pool is freed only when no scheduler uses it, by force only when no other
    scheduler uses it, and no pool gets more users than an [int] can count. *)
Definition allowed (o : op) s : Prop :=
  match o with
  | PoolBasic _ _ _ | PoolUser _ _ _ => True
  | PoolFree a => is_Some (pools s !! a) ∧ refs (scheds s) a = 0
  | SchedCreate _ given _ _ => given_ok given s
  | SchedBasic predef given _ _ => given_ok (given_of predef given) s
  | SchedFree b | AddSched _ b => is_Some (scheds s !! b)
  | Discard b force_free => ∃ x, scheds s !! b = Some x ∧ (force_free = true → owned s x)
  end.

(** Two calls are undefined: a NULL [newsched] is written before it is checked, and a scheduler freed
    by force uses a pool that it has twice after it has freed it. *)
Definition undefined (o : op) s : bool :=
  match o with
  | SchedCreate _ _ _ None | SchedBasic _ _ _ None => true
  | Discard b true => if scheds s !! b is Some x then negb (bool_decide (NoDup (omap (λ o, o) (pool_list x)))) else false
  | _ => false
  end.

Definition small s : Prop := ∀ a, refs (scheds s) a < 2 ^ 31.

(** An operation completes; with an error it has changed nothing. *)
Definition good s (o : outcome (Z * st)) : Prop :=
  ∃ r s', o = Done (r, s') ∧ wf s' ∧ small s' ∧ (r ≠ ABT_SUCCESS → quiet s s').

Section op.
Context (s : st) (W : wf s) (Hsmall : small s).

Lemma good_quiet s' (r : Z) : quiet s s' → good s (Done (r, s')).
Proof using W Hsmall.
  intros Q. exists r, s'. split_and!; [done|by eapply wf_quiet| |done]. intros a. destruct Q as [_ -> _ _ _]. apply Hsmall.
Qed.

Lemma good_pool (m : M (Z + addr)) auto :
  (∃ err s', err ≠ ABT_SUCCESS ∧ quiet s s' ∧ m s = Done (inl err, s')) ∨ (∃ a P s', with_pool a P s s' ∧ new_pool auto P ∧ m s = Done (inr a, s')) →
  good s (((r ← m; mret (match r with inl err => (err, None) | inr p => (ABT_SUCCESS, Some p) end)) ≫= λ r : Z * option addr, mret r.1) s).
Proof using W Hsmall.
  intros [(err & s' & ? & Q & E)|(a & P & s' & Hw & Hn & E)]; unfold mbind, C_bind; rewrite E; [by apply good_quiet|].
  exists ABT_SUCCESS, s'. split_and!; [done|by eapply with_pool_wf| |done]. intros b. destruct Hw as (_ & -> & _). apply Hsmall.
Qed.

Lemma made_small given d b x s' : made s given d b x s' → given_ok given s → small s'.
Proof using W.
  intros Mk Hg a. pose proof (made_cnt ∅ s W given d b x s' a Mk Hg) as Hc. destruct Mk, Hg as [_ Hg]. specialize (Hg a).
  rewrite m_scheds0, refs_insert, Hc by (apply (no_sched ∅ s W); lia). pose proof (cnt_nonneg a given). case_decide; lia.
Qed.

Lemma good_made (m : M (Z + addr)) given :
  given_ok given s →
  (∃ err s', err ≠ ABT_SUCCESS ∧ quiet s s' ∧ m s = Done (inl err, s')) ∨ (∃ d b x s', made s given d b x s' ∧ m s = Done (inr b, s')) →
  good s (((r ← m; mret (match r with inl err => (err, None) | inr p => (ABT_SUCCESS, Some p) end)) ≫= λ r : Z * option addr, mret r.1) s).
Proof using W Hsmall.
  intros Hg [(err & s' & ? & Q & E)|(d & b & x & s' & Mk & E)]; unfold mbind, C_bind; rewrite E; [by apply good_quiet|].
  exists ABT_SUCCESS, s'. split_and!; [done|by eapply made_wf|by eapply made_small|done].
Qed.

Lemma good_unmade b x s' : scheds s !! b = Some x → unmade s b x s' → good s (Done (ABT_SUCCESS, s')).
Proof using W Hsmall.
  intros Hb U. exists ABT_SUCCESS, s'. split_and!; [done|by eapply unmade_wf| |done]. intros a. destruct U. rewrite u_scheds0, (refs_delete _ b x a Hb).
  pose proof (cnt_nonneg a (pool_list x)). specialize (Hsmall a). unfold small in Hsmall. lia.
Qed.

Lemma good_changed b x x' Y (k : addr) s' :
  scheds s !! b = Some x → same_sched x x' → (brk s ≤ k)%nat → (used x' = ABTI_SCHED_NOT_USED → p_ythread x' = None) →
  (∀ t, t ∈ Y ↔ (t ∈ ythreads s ∧ p_ythread x ≠ Some t) ∨ p_ythread x' = Some t) →
  (∀ t, p_ythread x' = Some t → p_ythread x = Some t ∨ ((brk s ≤ t)%nat ∧ (t < k)%nat)) →
  quiet (set_brk k (set_ythreads Y (set_scheds (<[b := x']> (scheds s)) s))) s' → good s (Done (ABT_SUCCESS, s')).
Proof using W Hsmall.
  intros Hb Hx ???? Q. exists ABT_SUCCESS, s'. split_and!; [done| | |done].
  - eapply wf_quiet; [exact Q|]. by eapply sched_changed_wf.
  - intros a. destruct Q as [_ -> _ _ _]. cbn. rewrite (refs_update _ b x x' a Hb) by apply Hx. apply Hsmall.
Qed.

End op.

Lemma array_of_run {A} (l : list A) s : array_of (Z.of_nat (length l)) l s = Done (l, s).
Proof. unfold array_of. rewrite Z.ltb_irrefl, Nat2Z.id, firstn_all. done. Qed.

Lemma sched_create_good s d given cfg n : wf s → small s → given_ok given s → good s (do_op (SchedCreate d given cfg (Some n)) s).
Proof.
  intros W Hs Hg. cbn [do_op]. unfold ABT_sched_create. rewrite (C_bind_assoc (out (Some n))), (C_bind_Done (out (Some n)) _ s () s eq_refl).
  rewrite bool_decide_eq_true_2 by eauto. cbn [negb]. rewrite (proj2 (Z.leb_le 0 _)) by lia. cbn [negb].
  rewrite C_bind_assoc, (C_bind_Done _ _ _ _ _ (array_of_run given s)). apply (good_made s W Hs _ given Hg).
  destruct (sched_create_run ∅ s given d cfg false W Hg) as [?|(d' & b & x & s' & ? & _ & ?)]; [by left|right; eauto 10].
Qed.

Lemma sched_basic_good s predef given cfg n : wf s → small s → given_ok (given_of predef given) s → good s (do_op (SchedBasic predef given cfg (Some n)) s).
Proof.
  intros W Hs Hg. cbn [do_op]. unfold ABT_sched_create_basic. rewrite (C_bind_assoc (out (Some n))), (C_bind_Done (out (Some n)) _ s () s eq_refl).
  rewrite bool_decide_eq_true_2 by eauto. cbn [negb]. rewrite (proj2 (Z.leb_le 0 _)) by (destruct given; lia). cbn [negb]. rewrite C_bind_assoc.
  assert ((match given with Some l => l ← array_of (match given with Some l => Z.of_nat (length l) | None => 0 end) l; mret (Some l) | None => mret None end) s = Done (given, s)) as E.
  { destruct given as [l|]; [|done]. by rewrite (C_bind_Done _ _ _ _ _ (array_of_run l s)). }
  rewrite (C_bind_Done _ _ _ _ _ E). apply (good_made s W Hs _ _ Hg).
  destruct (sched_create_basic_run ∅ s predef given cfg W Hg) as [?|(d' & b & x & s' & ? & _ & ?)]; [by left|right; eauto 10].
Qed.

Lemma set_used_id x : used x = ABTI_SCHED_NOT_USED → set_used ABTI_SCHED_NOT_USED x = x.
Proof. destruct x. cbn. by intros ->. Qed.

Lemma sched_free_good s b : wf s → small s → is_Some (scheds s !! b) → good s (do_op (SchedFree b) s).
Proof.
  intros W Hs [x Hb]. cbn [do_op ABT_sched_free]. rewrite (C_bind_Done (sched_at b) _ s x s) by (unfold sched_at; by rewrite Hb).
  case_bool_decide as Hu; cbn [negb]; [|by apply good_quiet].
  destruct (sched_free_run ∅ s b x W Hs Hb) as (s' & E & U). rewrite set_used_id, insert_id in E by done. change (set_scheds (scheds s) s) with (St (pools s) (scheds s) (blocks s) (ythreads s) (brk s) (next_id s) (outcomes s)) in E.
  assert (St (pools s) (scheds s) (blocks s) (ythreads s) (brk s) (next_id s) (outcomes s) = s) as Es by (by destruct s). rewrite Es in E.
  rewrite (C_bind_Done _ _ _ _ _ E). by eapply good_unmade.
Qed.

Lemma discard_good s b : wf s → small s → is_Some (scheds s !! b) → good s (do_op (Discard b false) s).
Proof.
  intros W Hs [x Hb]. cbn [do_op]. unfold ABTI_sched_discard_and_free. rewrite C_bind_assoc, (C_bind_Done (sched_at b) _ s x s) by (unfold sched_at; by rewrite Hb).
  set (s1 := set_scheds (<[b := set_used ABTI_SCHED_NOT_USED x]> (scheds s)) s).
  rewrite C_bind_assoc, (C_bind_Done (put_sched b _) _ s () s1 eq_refl), orb_false_r. destruct (s_automatic x).
  - destruct (sched_free_run ∅ s b x W Hs Hb) as (s' & E & U). fold s1 in E. rewrite (C_bind_Done _ _ _ _ _ E). by eapply good_unmade.
  - destruct (p_ythread x) as [t|] eqn:Et.
    + pose proof (f_thread _ _ W b x t Hb Et) as Ht. set (s2 := set_ythreads (ythreads s1 ∖ {[t]}) s1).
      rewrite C_bind_assoc, (C_bind_Done (ABTI_thread_free t) _ s1 () s2) by (unfold ABTI_thread_free; by rewrite decide_True).
      rewrite C_bind_assoc, (C_bind_Done (sched_at b) _ s2 (set_used ABTI_SCHED_NOT_USED x) s2) by (unfold sched_at; cbn; by rewrite lookup_insert_eq).
      set (s3 := set_scheds (<[b := set_p_ythread None (set_used ABTI_SCHED_NOT_USED x)]> (scheds s2)) s2). rewrite (C_bind_Done (put_sched b _) _ s2 () s3 eq_refl).
      eapply (good_changed s W Hs b x (set_p_ythread None (set_used ABTI_SCHED_NOT_USED x)) (ythreads s ∖ {[t]}) (brk s)); try done.
      * intros t'. cbn. rewrite Et. set_solver.
      * split; cbn; try done. by rewrite insert_insert_eq.
    + rewrite (C_bind_Done (mret ()) _ s1 () s1 eq_refl). eapply (good_changed s W Hs b x (set_used ABTI_SCHED_NOT_USED x) (ythreads s) (brk s)); try done.
      * intros t'. cbn. rewrite Et. set_solver.
      * cbn. intros t'. by rewrite Et.
Qed.

Lemma discard_forced_good s b x : wf s → small s → scheds s !! b = Some x → owned s x →
  if bool_decide (NoDup (omap (λ o, o) (pool_list x))) then good s (do_op (Discard b true) s) else do_op (Discard b true) s = Fault UB.
Proof.
  intros W Hs Hb Hown. cbn [do_op]. unfold ABTI_sched_discard_and_free. rewrite C_bind_assoc, (C_bind_Done (sched_at b) _ s x s) by (unfold sched_at; by rewrite Hb).
  rewrite C_bind_assoc, (C_bind_Done (put_sched b _) _ s () _ eq_refl), orb_true_r.
  pose proof (sched_free_forced ∅ s b x W Hs Hb) as H. cbn zeta in H. case_bool_decide.
  - destruct H as (m & s' & E & O & Hm). rewrite (C_bind_Done _ _ _ _ _ E). exists ABT_SUCCESS, s'. split_and!; [done|by eapply forced_wf| |done].
    intros a. rewrite (o_scheds _ _ _ _ _ O), (refs_delete _ b x a Hb). pose proof (cnt_nonneg a (pool_list x)). specialize (Hs a). unfold small in Hs. lia.
  - by rewrite (C_bind_Fault _ _ _ _ H).
Qed.

Lemma add_sched_good s a b : wf s → small s → is_Some (scheds s !! b) → good s (do_op (AddSched a b) s).
Proof.
  intros W Hs [x Hb]. cbn [do_op ABT_pool_add_sched]. rewrite (C_bind_Done (sched_at b) _ s x s) by (unfold sched_at; by rewrite Hb).
  case_bool_decide as Hu; cbn [negb]; [|by apply good_quiet]. pose proof (f_unused _ _ W b x Hb Hu) as Ht.
  set (x1 := set_used ABTI_SCHED_IN_POOL x). set (s1 := set_scheds (<[b := x1]> (scheds s)) s). rewrite (C_bind_Done (put_sched b x1) _ s () s1 eq_refl).
  unfold ABTI_ythread_create_sched. destruct (outcome_run s1) as (r & s2 & Hr & Q & Eb). pose proof Q as [F1 F2 F3 F4 F5]. cbn in F1, F2, F3, F4, F5, Eb.
  rewrite C_bind_assoc, (C_bind_Done _ _ _ _ _ Hr). destruct (Z.eqb_spec r ABT_SUCCESS) as [->|Hne]; cbn [negb].
  - set (s3 := set_brk (S (brk s2)) s2). rewrite C_bind_assoc, (C_bind_Done fresh _ s2 (brk s2) s3 eq_refl).
    set (s4 := set_ythreads ({[brk s2]} ∪ ythreads s3) s3). rewrite C_bind_assoc, (C_bind_Done (modify (λ s, set_ythreads ({[brk s2]} ∪ ythreads s) s)) _ s3 () s4 eq_refl).
    rewrite C_bind_assoc, (C_bind_Done (sched_at b) _ s4 x1 s4) by (unfold sched_at; cbn; by rewrite F2, lookup_insert_eq).
    set (s5 := set_scheds (<[b := set_p_ythread (Some (brk s2)) x1]> (scheds s4)) s4). rewrite C_bind_assoc, (C_bind_Done (put_sched b _) _ s4 () s5 eq_refl).
    rewrite (C_bind_Done (mret ABT_SUCCESS) _ s5 ABT_SUCCESS s5 eq_refl). change (negb (ABT_SUCCESS =? ABT_SUCCESS)) with false. cbv iota.
    eapply (good_changed s W Hs b x (set_p_ythread (Some (brk s)) x1) ({[brk s]} ∪ ythreads s) (S (brk s))); try done.
    + lia.
    + intros t'. cbn. rewrite Ht. set_solver.
    + cbn. intros t' [= <-]. right. lia.
    + split; cbn; rewrite ?F1, ?F2, ?F3, ?F4, ?Eb; try done. by rewrite insert_insert_eq.
  - rewrite (C_bind_Done (mret r) _ s2 r s2 eq_refl). rewrite (proj2 (Z.eqb_neq _ _) Hne). cbn [negb].
    rewrite (C_bind_Done (sched_at b) _ s2 x1 s2) by (unfold sched_at; cbn; by rewrite F2, lookup_insert_eq).
    set (s3 := set_scheds (<[b := set_used ABTI_SCHED_NOT_USED x1]> (scheds s2)) s2). rewrite (C_bind_Done (put_sched b _) _ s2 () s3 eq_refl).
    apply good_quiet; [done|done|]. split; cbn; try done. rewrite F2, insert_insert_eq. change (set_used ABTI_SCHED_NOT_USED x1) with (set_used ABTI_SCHED_NOT_USED x).
    rewrite set_used_id by done. by apply insert_id.
Qed.

Lemma op_good o s : wf s → small s → allowed o s → undefined o s = false → good s (do_op o s).
Proof.
  intros W Hs Ha Hu. destruct o as [kind acc auto|acc d cfg|a|d given cfg [n|]|predef given cfg [n|]|b|a b|b []]; cbn [allowed undefined] in Ha, Hu; try done.
  - apply (good_pool s W Hs _ auto). apply pool_create_basic_run, (wf_bounded ∅ s W).
  - apply (good_pool s W Hs _ (read_automatic cfg false)). apply pool_create_run, (wf_bounded ∅ s W).
  - destruct Ha as [[P HP] Hn]. destruct (f_pool _ _ W a P HP) as (_ & _ & Hr). cbn [do_op ABT_pool_free].
    rewrite (C_bind_Done _ _ _ _ _ (pool_free_run s a P HP Hr)). eexists _, _. split_and!; [done|by apply pool_freed_wf|done|done].
  - by apply sched_create_good.
  - by apply sched_basic_good.
  - by apply sched_free_good.
  - by apply add_sched_good.
  - destruct Ha as (x & Hb & Hown). rewrite Hb in Hu. apply negb_false_iff in Hu. pose proof (discard_forced_good s b x W Hs Hb (Hown eq_refl)) as H. by rewrite Hu in H.
  - destruct Ha as (x & Hb & _). apply discard_good; eauto.
Qed.

Lemma op_undefined o s : wf s → small s → allowed o s → undefined o s = true → do_op o s = Fault UB.
Proof.
  intros W Hs Ha Hu. destruct o as [kind acc auto|acc d cfg|a|d given cfg [n|]|predef given cfg [n|]|b|a b|b []]; cbn [allowed undefined] in Ha, Hu; try done.
  destruct Ha as (x & Hb & Hown). rewrite Hb in Hu. apply negb_true_iff in Hu. pose proof (discard_forced_good s b x W Hs Hb (Hown eq_refl)) as H. by rewrite Hu in H.
Qed.

Definition start (results : list Z) : st := St ∅ ∅ ∅ ∅ 1 0 results.

Inductive reachable : st → Prop :=
  | reach_start results : reachable (start results)
  | reach_op s o r s' : reachable s → allowed o s → do_op o s = Done (r, s') → reachable s'.

Lemma reachable_wf s : reachable s → wf s ∧ small s.
Proof.
  induction 1 as [results|s o r s' _ [W Hs] Ha E].
  - split; [|intros a; by vm_compute]. split; cbn; try (intros; set_solver).
  - destruct (undefined o s) eqn:Hu; [by rewrite (op_undefined o s W Hs Ha Hu) in E|].
    destruct (op_good o s W Hs Ha Hu) as (r' & s1 & E' & ? & ? & _). rewrite E in E'. by injection E' as <- <-.
Qed.

(** C32: Whatever sequence of operations on pools and schedulers came before and whatever fails
    (memory, an initialisation, the creation of a thread), the next one completes without a
    fault, and if it reports an error it leaves no pool, scheduler, block or thread behind, frees none and
    leaves the counters of the pools as they were.  Exactly two calls are undefined instead: creating a
    scheduler with a NULL [newsched], and freeing by force a scheduler that has a pool twice.
    Handles are those of live pools and schedulers, a pool is freed only when no (other) scheduler uses it, and
    it is in fewer than 2^31 places of the arrays of schedulers. *)
Theorem sched_pool_all_or_nothing s o :
  reachable s → allowed o s →
  if undefined o s then do_op o s = Fault UB else ∃ r s', do_op o s = Done (r, s') ∧ (r ≠ ABT_SUCCESS → quiet s s').
Proof.
  intros Hr Ha. destruct (reachable_wf s Hr) as [W Hs]. destruct (undefined o s) eqn:Hu; [by apply op_undefined|].
  destruct (op_good o s W Hs Ha Hu) as (r & s' & E & _ & _ & Q). eauto.
Qed.

(** C36: At any time: a pool counts exactly how often it is in the arrays of schedulers, schedulers use
    only pools that exist, and memory and threads belong to schedulers, so that nothing is left when
    the last scheduler is gone. *)
Theorem pool_refcounts_exact s :
  reachable s →
  (∀ a P, pools s !! a = Some P → num_scheds P = refs (scheds s) a) ∧
  (∀ b x q, scheds s !! b = Some x → Some q ∈ pool_list x → is_Some (pools s !! q)) ∧
  (scheds s = ∅ → blocks s = ∅ ∧ ythreads s = ∅).
Proof.
  intros Hr. destruct (reachable_wf s Hr) as [W _]. split_and!.
  - intros a P HP. by destruct (f_pool _ _ W a P HP) as (_ & ? & _).
  - apply W.
  - intros E. split; apply set_eq; intros a; (split; [|by intros ?%not_elem_of_empty]); intros Ha.
    + destruct (f_block _ _ W a Ha) as [_ [?|[[x Hx]|(b & x & Hb & _)]]]; [done|by rewrite E in Hx|by rewrite E in Hb].
    + destruct (f_ythread _ _ W a Ha) as (_ & b & x & Hb & _). by rewrite E in Hb.
Qed.

Lemma made_released s given d b x s1 : wf s → made s given d b x s1 → given_ok given s →
  (∀ a P, Some a ∈ given → pools s !! a = Some P → automatic P = true → 0 < num_scheds P) →
  ∀ a, pools s1 !! a ≫= released (cnt a (pool_list x)) = pools s !! a.
Proof.
  intros W Mk Hg Hauto a. pose proof (made_cnt ∅ s W _ _ _ _ _ a Mk Hg) as Hcnt. destruct Mk. rewrite Hcnt. case_decide as Ha.
  - destruct (m_new0 a Ha) as (? & P & -> & Hn & Hau & _). cbn. unfold released. rewrite decide_True by (split_and!; [lia|done|done]). symmetry. apply (no_pool ∅ s W). lia.
  - rewrite m_old0 by done. destruct (pools s !! a) as [P|] eqn:HP; [|done]. cbn. unfold released. cbn. rewrite decide_False.
    + by rewrite add_num_add, Z.add_opp_diag_r, add_num_0.
    + intros (Hc%cnt_pos & Hau & Hn). specialize (Hauto a P Hc HP Hau). lia.
Qed.

Lemma made_freed s given d b x s1 : wf s → made s given d b x s1 → given_ok given s →
  (∀ a P, Some a ∈ given → pools s !! a = Some P → automatic P = true → 0 < num_scheds P) → ∃ s2, ABTI_sched_free b false s1 = Done ((), s2) ∧ quiet s s2.
Proof.
  intros W Mk Hg Hauto. pose proof (made_wf ∅ s W _ _ _ _ _ Mk Hg) as W1. pose proof (made_small s W _ _ _ _ _ Mk Hg) as Hs1.
  pose proof (made_released s given d b x s1 W Mk Hg Hauto) as Hrel. destruct Mk.
  assert (scheds s1 !! b = Some x) as Hb by (rewrite m_scheds0; apply lookup_insert_eq).
  destruct (sched_free_run ∅ s1 b x W1 Hs1 Hb) as (s' & E & U). rewrite set_used_id, insert_id in E by done.
  assert (set_scheds (scheds s1) s1 = s1) as Es by (by destruct s1). rewrite Es in E. exists s'. split; [done|].
  assert (scheds s !! b = None) as Nb by (apply (no_sched ∅ s W); lia). assert ((b ∉ blocks s) ∧ sched_pools x ∉ blocks s) as [? ?] by (split; intros H%(wf_blocks ∅ s W); lia).
  destruct U. split.
  - apply map_eq. intros a. by rewrite u_pools0.
  - rewrite u_scheds0, m_scheds0. by apply delete_insert_id.
  - rewrite u_blocks0, m_blocks0. set_solver.
  - by rewrite u_ythreads0, m_thread0.
  - lia.
Qed.

Lemma made_quiet s given d b x s1 s2 : made s given d b x s1 → quiet s1 s2 → made s given d b x s2.
Proof.
  intros [] [E1 E2 E3 E4 E5]. split; rewrite ?E1, ?E2, ?E3, ?E4; try done; [lia|split; [lia|tauto]|].
  intros a Ha. destruct (m_new0 a Ha). split; [lia|done].
Qed.

(** A scheduler that is created and freed again leaves everything as it was: the pools made for it are
    gone, and pools that it was given are kept with their counters, provided that a
    given pool that is to be freed automatically has another user. *)
Theorem sched_create_free s predef given cfg s1 b :
  reachable s → given_ok (given_of predef given) s →
  (∀ a P, Some a ∈ given_of predef given → pools s !! a = Some P → automatic P = true → 0 < num_scheds P) →
  ABTI_sched_create_basic predef given cfg s = Done (inr b, s1) →
  ∃ s2, ABT_sched_free (Some b) s1 = Done (ABT_SUCCESS, s2) ∧ quiet s s2.
Proof.
  intros Hr Hg Hauto E1. destruct (reachable_wf s Hr) as [W Hs].
  destruct (sched_create_basic_run ∅ s predef given cfg W Hg) as [(err & s' & _ & _ & E)|(d & b' & x & s' & Mk & _ & E)]; rewrite E1 in E; [done|]. injection E as <- <-.
  destruct (made_freed s _ d b x s1 W Mk Hg Hauto) as (s2 & E2 & Q). exists s2. split; [|done]. destruct Mk. cbn [ABT_sched_free].
  rewrite (C_bind_Done (sched_at b) _ s1 x s1) by (unfold sched_at; by rewrite m_scheds0, lookup_insert_eq). rewrite bool_decide_eq_true_2 by done.
  cbn [negb]. by rewrite (C_bind_Done _ _ _ _ _ E2).
Qed.

(** ** Runs *)

(** A pool, then a priority scheduler that is given the pool twice and one NULL; every call
    of the first succeeds, the last call of the second, the [init] of the scheduler, may not. *)
Definition first : op := PoolBasic ABT_POOL_FIFO ABT_POOL_ACCESS_MPMC true.
Definition second : op := SchedBasic ABT_SCHED_PRIO (Some [Some 1%nat; None; Some 1%nat]) None (Some 0%nat).
Definition after (o : op) s : st := match do_op o s with Done (_, s') => s' | Fault _ => s end.
Definition state1 (last : Z) : st := after first (start [0; 0; 0; 0; 0; 0; 0; last]).

Lemma state1_reachable last : reachable (state1 last).
Proof. apply (reach_op (start [0; 0; 0; 0; 0; 0; 0; last]) first 0); [apply reach_start|exact I|vm_compute; reflexivity]. Qed.

Lemma second_allowed last : allowed second (state1 last).
Proof.
  split.
  - intros a H. cbn in H. apply elem_of_cons in H as [[= ->]|H]; [vm_compute; eauto|]. apply elem_of_cons in H as [H|H]; [done|].
    apply list_elem_of_singleton in H as [= ->]. vm_compute. eauto.
  - intros a. unfold refs. change (scheds (state1 last)) with (∅ : gmap nat ABTI_sched). rewrite map_fold_empty. cbn [given_of second].
    rewrite !cnt_cons. change (cnt a []) with 0. repeat case_decide; lia.
Qed.

Lemma second_fails : do_op second (state1 3) = Done (3, after second (state1 3)).
Proof. vm_compute. reflexivity. Qed.

Lemma done_quiet (m : outcome (Z * st)) r s s' : m = Done (r, s') → r ≠ ABT_SUCCESS → (∃ r' s1, m = Done (r', s1) ∧ (r' ≠ ABT_SUCCESS → quiet s s1)) → quiet s s'.
Proof. intros -> Hr (r' & s1 & E & Q). injection E as <- <-. by apply Q. Qed.

Lemma sched_pool_all_or_nothing_witness :
  reachable (state1 3) ∧ do_op second (state1 3) = Done (3, after second (state1 3)) ∧ quiet (state1 3) (after second (state1 3)).
Proof.
  split; [apply state1_reachable|]. split; [exact second_fails|].
  apply (done_quiet (do_op second (state1 3)) 3 (state1 3) (after second (state1 3)) second_fails); [discriminate|].
  exact (sched_pool_all_or_nothing (state1 3) second (state1_reachable 3) (second_allowed 3)).
Defined.

Definition state2 : st := after second (state1 0).

Lemma state2_reachable : reachable state2.
Proof. apply (reach_op (state1 0) second 0); [apply (state1_reachable 0)|apply (second_allowed 0)|vm_compute; reflexivity]. Qed.

Lemma pool_refcounts_exact_witness :
  reachable state2 ∧ num_scheds <$> pools state2 !! 1%nat = Some 2 ∧ refs (scheds state2) 1 = 2.
Proof.
  split; [apply state2_reachable|]. assert (num_scheds <$> pools state2 !! 1%nat = Some 2) as E by (vm_compute; reflexivity). split; [exact E|].
  destruct (pools state2 !! 1%nat) as [P|] eqn:HP; [|discriminate E]. rewrite <- (proj1 (pool_refcounts_exact state2 state2_reachable) 1%nat P HP). by injection E.
Defined.

(** The scheduler for pool 2, which is not to be freed automatically. *)
Definition kept : op := PoolBasic ABT_POOL_FIFO ABT_POOL_ACCESS_MPMC false.
Definition state3 : st := after kept (start []).

Lemma sched_create_free_witness :
  ∃ b s1 s2, ABTI_sched_create_basic ABT_SCHED_BASIC (Some [Some 1%nat; None]) None state3 = Done (inr b, s1) ∧
    ABT_sched_free (Some b) s1 = Done (ABT_SUCCESS, s2) ∧ quiet state3 s2.
Proof.
  assert (reachable state3) as Hr by (apply (reach_op (start []) kept 0); [apply reach_start|exact I|vm_compute; reflexivity]).
  destruct (ABTI_sched_create_basic ABT_SCHED_BASIC (Some [Some 1%nat; None]) None state3) as [[[err|b] s1]|] eqn:E1; [vm_compute in E1; discriminate E1| |vm_compute in E1; discriminate E1].
  exists b, s1. enough (∃ s2, ABT_sched_free (Some b) s1 = Done (ABT_SUCCESS, s2) ∧ quiet state3 s2) as (s2 & E2 & Q) by (exists s2; split; [reflexivity|by split]).
  apply (sched_create_free state3 ABT_SCHED_BASIC (Some [Some 1%nat; None]) None s1 b Hr); [| |exact E1].
  - split.
    + intros a H. cbn in H. apply elem_of_cons in H as [[= ->]|H]; [vm_compute; eauto|]. by apply list_elem_of_singleton in H.
    + intros a. unfold refs. change (scheds state3) with (∅ : gmap nat ABTI_sched). rewrite map_fold_empty. cbn [given_of]. rewrite !cnt_cons.
      change (cnt a []) with 0. repeat case_decide; lia.
  - intros a P H HP Hau. cbn in H. apply elem_of_cons in H as [[= ->]|H]; [|by apply list_elem_of_singleton in H].
    vm_compute in HP. injection HP as <-. discriminate Hau.
Defined.

(** ** What the code does not handle *)

(** The check that [newsched] is not NULL comes after the first store through it. *)
Theorem sched_create_null_pointer d num_pools given config s :
  ABT_sched_create d num_pools given config None s = Fault UB.
Proof. reflexivity. Qed.

(** When a scheduler is freed by force (the main scheduler of the primary stream at the end) a pool that it has
    twice is used after it has been freed. *)
Theorem force_free_twice :
  (r ← ABTI_sched_create_basic ABT_SCHED_PRIO (Some [Some 1%nat; None; Some 1%nat]) None;
   match r with inr b => ABTI_sched_free b true | inl _ => mret () end) (state1 0) = Fault UB.
Proof. vm_compute. reflexivity. Qed.

(** The bounds check of [ABT_sched_get_pools] overflows. *)
Theorem get_pools_overflow :
  (r ← ABTI_sched_create_basic ABT_SCHED_BASIC None None;
   match r with inr b => ABT_sched_get_pools (Some b) 1 (2 ^ 31 - 1) | inl _ => mret (0, []) end) (start []) = Fault UB.
Proof. vm_compute. reflexivity. Qed.
