(* ===== verification/Xstream.v ===== *)
(** * Execution streams and their ranks

    argobots/src/stream.c: the list of execution streams sorted by rank (the private functions
    at the end of the file, and the public ones that use them).  [glob] are the fields of
    [ABTI_global] that hold the list, streams are records linked in both directions.  A
    critical section under [xstream_list_lock] is one step, so that creating and freeing
    streams from several threads is a sequence of the operations [op].  Loops take the
    number of streams as fuel; the theorems show that it is enough.

    What a stream is besides its rank (its root thread, root pool and main scheduler, the
    operating-system thread) is in [XstreamCreate]: here creation stops after the rank is
    taken, and freeing is the return of the rank and of the memory. *)

From stdpp Require Import base tactics decidable option list numbers gmap fin_maps sets sorting.
From Stdlib Require Import ZArith Lia.
From S2P Require Import Prelude Abt Pool SchedPool.
Open Scope Z_scope.

Inductive ABTI_xstream_type := ABTI_XSTREAM_TYPE_PRIMARY | ABTI_XSTREAM_TYPE_SECONDARY.
#[export] Instance xstream_type_eq : EqDecision ABTI_xstream_type.
Proof. solve_decision. Defined.

Record ABTI_xstream := MkXstream {
  p_prev : option addr; p_next : option addr; rank : Z; type : ABTI_xstream_type;
  cpuset : option Z   (* ctx: the default CPU set its operating-system thread was bound to *)
}.

Record glob := Glob {
  xstreams : gmap addr ABTI_xstream;
  p_xstream_head : option addr;
  num_xstreams : Z;
  max_xstreams : Z;
  xstream_list_lock : bool
}.

Definition set_xstreams v g := Glob v (p_xstream_head g) (num_xstreams g) (max_xstreams g) (xstream_list_lock g).
Definition set_head v g := Glob (xstreams g) v (num_xstreams g) (max_xstreams g) (xstream_list_lock g).
Definition set_num v g := Glob (xstreams g) (p_xstream_head g) v (max_xstreams g) (xstream_list_lock g).
Definition set_max v g := Glob (xstreams g) (p_xstream_head g) (num_xstreams g) v (xstream_list_lock g).
Definition set_lock v g := Glob (xstreams g) (p_xstream_head g) (num_xstreams g) (max_xstreams g) v.

Definition set_p_prev v x := MkXstream v (p_next x) (rank x) (type x) (cpuset x).
Definition set_p_next v x := MkXstream (p_prev x) v (rank x) (type x) (cpuset x).
Definition set_rank v x := MkXstream (p_prev x) (p_next x) v (type x) (cpuset x).
Definition set_cpuset v x := MkXstream (p_prev x) (p_next x) (rank x) (type x) v.

Definition load {A} (f : ABTI_xstream → A) (a : addr) : C glob A := λ g,
  match xstreams g !! a with Some x => Done (f x, g) | None => Fault UB end.
Definition store (f : ABTI_xstream → ABTI_xstream) (a : addr) : C glob unit := λ g,
  match xstreams g !! a with Some x => Done ((), set_xstreams (<[a := f x]> (xstreams g)) g) | None => Fault UB end.

Definition on_list_lock {A} (m : C bool A) : C glob A := zoom xstream_list_lock set_lock m.

(** Signed addition that must not overflow. *)
Definition int_plus (a b : Z) : C glob Z := if (- 2 ^ 31 <=? a + b) && (a + b <? 2 ^ 31) then mret (a + b) else throw UB.

(** The warning that is printed once changes nothing else. *)
Definition xstream_update_max_xstreams (newrank : Z) : C glob unit :=
  m ← gets max_xstreams;
  if m <=? newrank then n ← int_plus newrank 1; modify (set_max n) else mret ().

(** The loop of [xstream_add_xstream_list]: the previous stream and the one to insert before. *)
Fixpoint add_loop (fuel : nat) (r : Z) (p_prev_xstream p_xstream : option addr) : C glob (option addr * option addr) :=
  match p_xstream with
  | None => mret (p_prev_xstream, None)
  | Some a =>
      match fuel with
      | O => throw OutOfFuel
      | S fuel =>
          ra ← load rank a;
          c_assert (negb (ra =? r));;
          if r <? ra then mret (p_prev_xstream, Some a)
          else n ← load p_next a; add_loop fuel r (Some a) n
      end
  end.

Definition xstream_add_xstream_list (new : addr) : C glob unit :=
  r ← load rank new;
  h ← gets p_xstream_head;
  fuel ← gets (λ g, size (xstreams g));
  pp ← add_loop fuel r h h;
  match pp.2 with
  | None =>
      match pp.1 with
      | Some q => store (set_p_next (Some new)) q;; store (set_p_prev (Some q)) new;; store (set_p_next None) new
      | None =>
          h ← gets p_xstream_head;
          c_assert (bool_decide (h = None));;
          store (set_p_prev None) new;; store (set_p_next None) new;; modify (set_head (Some new))
      end
  | Some b =>
      q ← load p_prev b;
      (match q with
       | Some q => store (set_p_next (Some new)) q;; store (set_p_prev (Some q)) new
       | None =>
           h ← gets p_xstream_head;
           c_assert (bool_decide (h = Some b));;
           modify (set_head (Some new))
       end);;
      store (set_p_prev (Some new)) b;;
      store (set_p_next (Some b)) new
  end.

Definition xstream_remove_xstream_list (a : addr) : C glob unit :=
  q ← load p_prev a;
  n ← load p_next a;
  (match q with
   | None => h ← gets p_xstream_head; c_assert (bool_decide (h = Some a));; modify (set_head n)
   | Some q => store (set_p_next n) q
   end);;
  match n with Some n => store (set_p_prev q) n | None => mret () end.

(** The first rank that is not in use, from the list. *)
Fixpoint unused_loop (fuel : nat) (r : Z) (p_xstream : option addr) : C glob Z :=
  match p_xstream with
  | None => mret r
  | Some a =>
      match fuel with
      | O => throw OutOfFuel
      | S fuel =>
          ra ← load rank a;
          if ra =? r then r' ← int_plus r 1; n ← load p_next a; unused_loop fuel r' n else mret r
      end
  end.

(** Is a rank in use? *)
Fixpoint taken_loop (fuel : nat) (r : Z) (p_xstream : option addr) : C glob bool :=
  match p_xstream with
  | None => mret false
  | Some a =>
      match fuel with
      | O => throw OutOfFuel
      | S fuel =>
          ra ← load rank a;
          if ra =? r then mret true
          else if r <? ra then mret false
          else n ← load p_next a; taken_loop fuel r n
      end
  end.

Definition xstream_set_new_rank (new : addr) (r : Z) : C glob bool :=
  on_list_lock ABTD_spinlock_acquire;;
  h ← gets p_xstream_head;
  fuel ← gets (λ g, size (xstreams g));
  found ← (if r =? -1 then r' ← unused_loop fuel 0 h; mret (Some r')
           else t ← taken_loop fuel r h; mret (if (t : bool) then None else Some r));
  match found with
  | None => on_list_lock ABTD_spinlock_release;; mret false
  | Some r =>
      store (set_rank r) new;;
      xstream_add_xstream_list new;;
      xstream_update_max_xstreams r;;
      n ← gets num_xstreams;
      n' ← int_plus n 1;
      modify (set_num n');;
      on_list_lock ABTD_spinlock_release;;
      mret true
  end.

Definition xstream_change_rank (a : addr) (r : Z) : C glob bool :=
  ra ← load rank a;
  if ra =? r then mret true else
  on_list_lock ABTD_spinlock_acquire;;
  h ← gets p_xstream_head;
  fuel ← gets (λ g, size (xstreams g));
  t ← taken_loop fuel r h;
  if (t : bool) then on_list_lock ABTD_spinlock_release;; mret false else
  xstream_remove_xstream_list a;;
  store (set_rank r) a;;
  xstream_add_xstream_list a;;
  xstream_update_max_xstreams r;;
  on_list_lock ABTD_spinlock_release;;
  mret true.

Definition xstream_return_rank (a : addr) : C glob unit :=
  on_list_lock ABTD_spinlock_acquire;;
  xstream_remove_xstream_list a;;
  n ← gets num_xstreams;
  n' ← int_plus n (-1);
  modify (set_num n');;
  on_list_lock ABTD_spinlock_release.

(** ** The public functions *)

(** What [ABTD_affinity_init] leaves in [ABTI_global] and [g_affinity]: whether affinities are in
    use, and how many default CPU sets there are; if they are, there is one ([Affinity.affinity_init_wf]). *)
Class AffinityConf := {
  set_affinity : bool; num_cpusets : Z; some_cpuset : set_affinity = true → 0 < num_cpusets < 2 ^ 32
}.

Section runtime.
Context `{AF : AffinityConf}.

(** The thread of the stream is bound to the set number [rank % num_cpusets]; the callers ignore
    whether the operating system agrees. *)
Definition ABTD_affinity_cpuset_apply_default (a : addr) (r : Z) : C glob unit :=
  if num_cpusets =? 0 then throw UB else store (set_cpuset (Some (u32 r mod num_cpusets))) a.

Definition bind_default (a : addr) : C glob unit :=
  if set_affinity then r ← load rank a; ABTD_affinity_cpuset_apply_default a r else mret ().

Definition ABT_xstream_set_rank (xstream : option addr) (r : Z) : C glob Z :=
  match xstream with
  | None => mret ABT_ERR_INV_XSTREAM
  | Some p_xstream =>
      ty ← load type p_xstream;
      if negb (bool_decide (ty ≠ ABTI_XSTREAM_TYPE_PRIMARY)) then mret ABT_ERR_INV_XSTREAM else
      if negb (0 <=? r) then mret ABT_ERR_INV_XSTREAM_RANK else
      is_changed ← xstream_change_rank p_xstream r;
      if negb (is_changed : bool) then mret ABT_ERR_INV_XSTREAM_RANK else
      bind_default p_xstream;;
      mret ABT_SUCCESS
  end.

Definition ABT_xstream_get_rank (xstream : option addr) : C glob (Z * Z) :=
  match xstream with
  | None => mret (ABT_ERR_INV_XSTREAM, 0)
  | Some p_xstream => r ← load rank p_xstream; mret (ABT_SUCCESS, r)
  end.

Definition ABT_xstream_get_num : C glob (Z * Z) := n ← gets num_xstreams; mret (ABT_SUCCESS, n).

Definition ABT_xstream_is_primary (xstream : option addr) : C glob (Z * bool) :=
  match xstream with
  | None => mret (ABT_ERR_INV_XSTREAM, false)
  | Some p_xstream => ty ← load type p_xstream; mret (ABT_SUCCESS, bool_decide (ty = ABTI_XSTREAM_TYPE_PRIMARY))
  end.

(** ** Creation and freeing *)

Definition set_type v x := MkXstream (p_prev x) (p_next x) (rank x) v (cpuset x).

Definition free_xstream (a : addr) : C glob unit := λ g,
  match xstreams g !! a with Some _ => Done ((), set_xstreams (delete a (xstreams g)) g) | None => Fault UB end.

(** [xstream_create] up to [init_stage = 1], from the memory [a] that [malloc] has given,
    with whatever rank and type it holds. *)
Definition xstream_create_ranked (a : addr) (junk : Z * ABTI_xstream_type) (ty : ABTI_xstream_type) (r : Z) : C glob Z :=
  modify (λ g, set_xstreams (<[a := MkXstream None None junk.1 junk.2 None]> (xstreams g)) g);;
  ok ← xstream_set_new_rank a r;
  if negb (ok : bool) then free_xstream a;; mret ABT_ERR_INV_XSTREAM_RANK else
  store (set_type ty) a;;
  mret ABT_SUCCESS.

(** The check of [ABT_xstream_create_with_rank]; [ABT_xstream_create] passes [-1]. *)
Definition create_with_rank (a : addr) (junk : Z * ABTI_xstream_type) (r : Z) : C glob Z :=
  if negb (0 <=? r) then mret ABT_ERR_INV_XSTREAM_RANK else xstream_create_ranked a junk ABTI_XSTREAM_TYPE_SECONDARY r.

(** What both the failure of a later stage of [xstream_create] and [ABTI_xstream_free] do with
    the rank and the memory. *)
Definition xstream_free_ranked (a : addr) : C glob unit := xstream_return_rank a;; free_xstream a.

Inductive op :=
  | Create (a : addr) (junk : Z * ABTI_xstream_type)
  | CreateWithRank (a : addr) (junk : Z * ABTI_xstream_type) (r : Z)
  | Free (a : addr)
  | SetRank (a : addr) (r : Z)
  | GetRank (a : addr)
  | GetNum.

Definition code {A} (m : C glob A) (f : A → Z * Z) : C glob (Z * Z) := v ← m; mret (f v).

Definition exec (o : op) : C glob (Z * Z) :=
  match o with
  | Create a junk => code (xstream_create_ranked a junk ABTI_XSTREAM_TYPE_SECONDARY (-1)) (λ e, (e, 0))
  | CreateWithRank a junk r => code (create_with_rank a junk r) (λ e, (e, 0))
  | Free a => code (xstream_free_ranked a) (λ _, (ABT_SUCCESS, 0))
  | SetRank a r => code (ABT_xstream_set_rank (Some a) r) (λ e, (e, 0))
  | GetRank a => ABT_xstream_get_rank (Some a)
  | GetNum => ABT_xstream_get_num
  end.

(** [ABTI_xstream_create_primary] in a runtime whose list is empty. *)
Definition start (p : addr) (junk : Z * ABTI_xstream_type) (m : Z) : outcome (Z * glob) :=
  xstream_create_ranked p junk ABTI_XSTREAM_TYPE_PRIMARY (-1) (Glob ∅ None 0 m false).

(** ** Linked lists *)

Implicit Types (g : glob) (X : gmap addr ABTI_xstream) (a b : addr) (l : list addr) (x : ABTI_xstream) (r : Z).

Definition first l (q : option addr) : option addr := match l with [] => q | a :: _ => Some a end.
Definition lastp (p : option addr) l : option addr := match last l with Some a => Some a | None => p end.

(** The streams [l] are linked in this order; [p] comes before, [q] after them. *)
Fixpoint linked X (p : option addr) l (q : option addr) : Prop :=
  match l with
  | [] => True
  | a :: l => (∃ x, X !! a = Some x ∧ p_prev x = p ∧ p_next x = first l q) ∧ linked X (Some a) l q
  end.

Lemma first_app l1 l2 q : first (l1 ++ l2) q = first l1 (first l2 q).
Proof. by destruct l1. Qed.

Lemma lastp_cons p a l : lastp p (a :: l) = lastp (Some a) l.
Proof. unfold lastp. destruct l as [|b l]; [done|]. cbn [last]. destruct (last (b :: l)) eqn:E; [done|]. by apply last_None in E. Qed.

Lemma lastp_snoc p l a : lastp p (l ++ [a]) = Some a.
Proof. unfold lastp. by rewrite last_snoc. Qed.

Lemma linked_app X p l1 l2 q : linked X p (l1 ++ l2) q ↔ linked X p l1 (first l2 q) ∧ linked X (lastp p l1) l2 q.
Proof.
  revert p. induction l1 as [|a l1 IH]; intros p; [cbn; tauto|]. cbn [linked app]. rewrite IH, lastp_cons, first_app. tauto.
Qed.

Lemma linked_same X X' p l q :
  (∀ a x, a ∈ l → X !! a = Some x → ∃ x', X' !! a = Some x' ∧ p_prev x' = p_prev x ∧ p_next x' = p_next x) → linked X p l q → linked X' p l q.
Proof.
  revert p. induction l as [|a l IH]; intros p H; [done|]. intros [(x & Hx & E1 & E2) Hl]. destruct (H a x) as (x' & Hx' & E1' & E2'); [by left|done|].
  split; [exists x'; split_and!; congruence|]. apply IH; [|done]. intros b y Hb. apply H. by right.
Qed.

Lemma linked_alter X f b p l q : b ∉ l → linked X p l q → linked (alter f b X) p l q.
Proof. intros Hb. apply linked_same. intros a x Ha Hx. exists x. rewrite lookup_alter_ne; [done|]. by intros ->. Qed.

Lemma linked_alter_other X f b p l q : (∀ x, p_prev (f x) = p_prev x ∧ p_next (f x) = p_next x) → linked X p l q → linked (alter f b X) p l q.
Proof.
  intros Hf. apply linked_same. intros a x _ Hx. destruct (decide (a = b)) as [->|]; [|exists x; by rewrite lookup_alter_ne].
  exists (f x). rewrite lookup_alter_eq, Hx. split; [done|]. apply Hf.
Qed.

Lemma linked_set_next X p l a q q' : NoDup (l ++ [a]) → linked X p (l ++ [a]) q → linked (alter (set_p_next q') a X) p (l ++ [a]) q'.
Proof.
  intros (_ & Hn & _)%NoDup_app. rewrite !linked_app. cbn. intros [H1 [(x & Hx & E1 & E2) _]].
  assert (a ∉ l) as Ha by (intros H; by apply (Hn a H); left). split; [by apply linked_alter|]. split; [|done]. exists (set_p_next q' x). by rewrite lookup_alter_eq, Hx.
Qed.

Lemma linked_set_prev X p p' b l q : NoDup (b :: l) → linked X p (b :: l) q → linked (alter (set_p_prev p') b X) p' (b :: l) q.
Proof.
  intros [Hb _]%NoDup_cons [(x & Hx & E1 & E2) Hl]. split; [|by apply linked_alter]. exists (set_p_prev p' x). by rewrite lookup_alter_eq, Hx.
Qed.

Lemma linked_lookup X p l q a : linked X p l q → a ∈ l → is_Some (X !! a).
Proof. revert p. induction l as [|b l IH]; intros p; [by intros _ ?%not_elem_of_nil|]. intros [(x & Hx & _) Hl] [->|Ha]%elem_of_cons; eauto. Qed.

(** ** Running the primitives *)

Lemma load_x {A} (f : ABTI_xstream → A) g a x : xstreams g !! a = Some x → load f a g = Done (f x, g).
Proof. unfold load. by intros ->. Qed.

Lemma store_x f g a : is_Some (xstreams g !! a) → store f a g = Done ((), set_xstreams (alter f a (xstreams g)) g).
Proof.
  intros [x Hx]. unfold store. rewrite Hx. do 3 f_equal. apply map_eq. intros b. rewrite lookup_insert, lookup_alter. case_decide; [|done]. subst. by rewrite Hx.
Qed.

Definition rank_of X a : Z := match X !! a with Some x => rank x | None => 0 end.

(** Streams whose ranks are at most that many, all in front of others. *)
Lemma add_loop_run g r l1 l2 p prev fuel :
  linked (xstreams g) p (l1 ++ l2) None → Forall (λ a, rank_of (xstreams g) a < r) l1 → (∀ b, first l2 None = Some b → r < rank_of (xstreams g) b) →
  (length l1 < fuel ∨ length l1 ≤ fuel ∧ l2 = [])%nat →
  add_loop fuel r prev (first (l1 ++ l2) None) g = Done ((lastp prev l1, first l2 None), g).
Proof.
  revert p prev fuel. induction l1 as [|a l1 IH]; intros p prev fuel Hl H1 H2 Hf.
  - cbn [app]. destruct l2 as [|b l2]; [by destruct fuel|]. destruct fuel as [|fuel]; [cbn in Hf; destruct Hf as [?|[_ ?]]; [lia|done]|]. cbn [first add_loop].
    destruct Hl as [(x & Hx & _) _]. rewrite (C_bind_Done _ _ _ _ _ (load_x rank g b x Hx)). specialize (H2 b eq_refl). unfold rank_of in H2. rewrite Hx in H2.
    rewrite (proj2 (Z.eqb_neq _ _)) by lia. rewrite (C_bind_Done _ _ g () g) by done. by rewrite (proj2 (Z.ltb_lt _ _)).
  - destruct fuel as [|fuel]; [cbn in Hf; lia|]. cbn [app first add_loop]. destruct Hl as [(x & Hx & _ & En) Hl]. apply Forall_cons in H1 as [Ha H1].
    rewrite (C_bind_Done _ _ _ _ _ (load_x rank g a x Hx)). unfold rank_of in Ha. rewrite Hx in Ha. rewrite (proj2 (Z.eqb_neq _ _)) by lia.
    rewrite (C_bind_Done _ _ g () g) by done. rewrite (proj2 (Z.ltb_ge _ _)) by lia. rewrite (C_bind_Done _ _ _ _ _ (load_x p_next g a x Hx)), En.
    rewrite (IH (Some a)), lastp_cons; try done. cbn in Hf. destruct Hf; [left; lia|right; split; [lia|naive_solver]].
Qed.

Lemma taken_loop_run g r l p fuel :
  linked (xstreams g) p l None → StronglySorted Z.lt (rank_of (xstreams g) <$> l) → (length l ≤ fuel)%nat →
  taken_loop fuel r (first l None) g = Done (bool_decide (r ∈ rank_of (xstreams g) <$> l), g).
Proof.
  revert p fuel. induction l as [|a l IH]; intros p fuel Hl Hs Hf; [by destruct fuel|]. destruct fuel as [|fuel]; [cbn in Hf; lia|]. cbn [first taken_loop].
  destruct Hl as [(x & Hx & _ & En) Hl]. rewrite (C_bind_Done _ _ _ _ _ (load_x rank g a x Hx)). rewrite fmap_cons in Hs |- *. apply StronglySorted_inv in Hs as [Hs Ha].
  assert (rank_of (xstreams g) a = rank x) as Ea by (unfold rank_of; by rewrite Hx). rewrite Ea in Ha |- *. destruct (Z.eqb_spec (rank x) r) as [<-|Hne].
  - rewrite bool_decide_eq_true_2 by (by left). done.
  - destruct (Z.ltb_spec r (rank x)).
    + rewrite bool_decide_eq_false_2; [done|]. intros [?|Hin]%elem_of_cons; [congruence|]. rewrite list.Forall_forall in Ha. specialize (Ha r Hin). lia.
    + rewrite (C_bind_Done _ _ _ _ _ (load_x p_next g a x Hx)), En, (IH (Some a)) by (try done; cbn in Hf; lia). do 2 f_equal. apply bool_decide_ext. rewrite elem_of_cons. naive_solver.
Qed.

(** The least rank that is free, given that the ranks below [r0] are taken. *)
Lemma unused_loop_run g r0 l p fuel :
  linked (xstreams g) p l None → StronglySorted Z.lt (rank_of (xstreams g) <$> l) → Forall (λ r, r0 ≤ r) (rank_of (xstreams g) <$> l) → (length l ≤ fuel)%nat →
  0 ≤ r0 → Forall (λ r, r < 2 ^ 31 - 1) (rank_of (xstreams g) <$> l) →
  ∃ r, unused_loop fuel r0 (first l None) g = Done (r, g) ∧ r0 ≤ r ≤ r0 + Z.of_nat (length l) ∧ (r ∉ (rank_of (xstreams g) <$> l)) ∧ (∀ r', r0 ≤ r' < r → r' ∈ rank_of (xstreams g) <$> l).
Proof.
  revert r0 p fuel. induction l as [|a l IH]; intros r0 p fuel Hl Hs Hge Hf H0 Hlt.
  - exists r0. destruct fuel; (split_and!; [done|lia|cbn; lia|apply not_elem_of_nil|lia]).
  - destruct fuel as [|fuel]; [cbn in Hf; lia|]. cbn [first unused_loop]. destruct Hl as [(x & Hx & _ & En) Hl]. rewrite (C_bind_Done _ _ _ _ _ (load_x rank g a x Hx)).
    rewrite fmap_cons in Hs, Hge, Hlt |- *. apply StronglySorted_inv in Hs as [Hs Ha]. apply Forall_cons in Hge as [Hge0 Hge], Hlt as [Hlt0 Hlt].
    assert (rank_of (xstreams g) a = rank x) as Ea by (unfold rank_of; by rewrite Hx). rewrite Ea in *. rewrite list.Forall_forall in Ha. destruct (Z.eqb_spec (rank x) r0) as [E|Hne].
    + unfold int_plus. rewrite (proj2 (Z.leb_le _ _)), (proj2 (Z.ltb_lt _ _)) by lia. cbn [andb]. rewrite (C_bind_Done (mret (r0 + 1)) _ g (r0 + 1) g eq_refl).
      rewrite (C_bind_Done _ _ _ _ _ (load_x p_next g a x Hx)), En. destruct (IH (r0 + 1) (Some a) fuel) as (r & E1 & E2 & E3 & E4); try done; try (cbn in Hf; lia).
      { rewrite list.Forall_forall. intros y Hy. specialize (Ha y Hy). lia. }
      exists r. split_and!; [done|lia|cbn; lia| |].
      * intros [?|?]%elem_of_cons; [lia|done].
      * intros r' Hr'. apply elem_of_cons. destruct (decide (r' = rank x)); [by left|right; apply E4; lia].
    + exists r0. split_and!; [done|lia|lia| |lia]. intros [?|Hin]%elem_of_cons; [congruence|]. specialize (Ha r0 Hin). lia.
Qed.

(** ** Insertion and removal *)

(** What a stream keeps when only links change. *)
Definition keeps X X' : Prop := ∀ a, (λ x, (rank x, type x)) <$> X' !! a = (λ x, (rank x, type x)) <$> X !! a.

#[export] Instance keeps_preorder : PreOrder keeps.
Proof. split; [done|]. intros X1 X2 X3 H1 H2 a. by rewrite H2. Qed.

Lemma keeps_alter X f a : (∀ x, rank (f x) = rank x ∧ type (f x) = type x) → keeps X (alter f a X).
Proof.
  intros Hf b. rewrite lookup_alter. case_decide; [|done]. subst. destruct (X !! b) as [x|]; [|done]. cbn. destruct (Hf x) as [-> ->]. done.
Qed.

Lemma keeps_rank X X' a : keeps X X' → rank_of X' a = rank_of X a.
Proof. intros H. specialize (H a). unfold rank_of. destruct (X !! a), (X' !! a); cbn in H; congruence. Qed.

Lemma keeps_some X X' a : keeps X X' → is_Some (X' !! a) ↔ is_Some (X !! a).
Proof. intros H. specialize (H a). destruct (X !! a), (X' !! a); cbn in H; try done; split; eauto; by intros [? [=]]. Qed.

#[local] Hint Extern 1 (keeps _ (alter _ _ _)) => apply keeps_alter; done : core.

Lemma set_xstreams_twice X X' g : set_xstreams X' (set_xstreams X g) = set_xstreams X' g.
Proof. done. Qed.

Lemma size_list X p l q : linked X p l q → NoDup l → (length l ≤ size X)%nat.
Proof.
  intros Hl Hd. rewrite <- (size_dom (D := gset addr) X), <- (size_list_to_set (C := gset addr) l) by done. apply subseteq_size. intros a Ha%elem_of_list_to_set.
  apply elem_of_dom. by eapply linked_lookup.
Qed.

(** The links after an insertion, pointer by pointer. *)
Definition insert_links (l1 l2 : list addr) (new : addr) X : gmap addr ABTI_xstream :=
  let X := match last l1 with Some q => alter (set_p_next (Some new)) q X | None => X end in
  let X := match l2 with b :: _ => alter (set_p_prev (Some new)) b X | [] => X end in
  alter (λ x, set_p_next (first l2 None) (set_p_prev (lastp None l1) x)) new X.

Lemma insert_links_ok X l1 l2 new : linked X None (l1 ++ l2) None → NoDup (l1 ++ l2) → new ∉ l1 ++ l2 → is_Some (X !! new) →
  linked (insert_links l1 l2 new X) None (l1 ++ new :: l2) None ∧ keeps X (insert_links l1 l2 new X).
Proof.
  intros Hl Hd Hn [xn Hxn]. apply not_elem_of_app in Hn as [Hn1 Hn2]. apply NoDup_app in Hd as (Hd1 & Hd & Hd2). apply linked_app in Hl as [Hl1 Hl2].
  unfold insert_links. set (X1 := match last l1 with Some q => _ | None => X end). set (X2 := match l2 with b :: _ => _ | [] => X1 end).
  assert (keeps X X1) as K1 by (unfold X1; case_match; [by apply keeps_alter|done]).
  assert (keeps X1 X2) as K2 by (unfold X2; case_match; [done|by apply keeps_alter]).
  assert (linked X1 None l1 (Some new) ∧ linked X1 (lastp None l1) l2 None ∧ X1 !! new = Some xn) as (H1 & H2 & H3).
  { unfold X1. destruct (last l1) as [q|] eqn:El.
    - apply last_Some in El as (l0 & ->). split_and!.
      + by eapply linked_set_next.
      + apply linked_alter; [|done]. intros Hq. eapply (Hd q); [|done]. apply elem_of_app. right. by left.
      + rewrite lookup_alter_ne; [done|]. intros ->. apply Hn1, elem_of_app. right. by left.
    - apply last_None in El as ->. split_and!; done. }
  assert (linked X2 None l1 (Some new) ∧ linked X2 (Some new) l2 None ∧ X2 !! new = Some xn) as (H4 & H5 & H6).
  { unfold X2. destruct l2 as [|b l2]; [done|]. split_and!.
    - apply linked_alter; [|done]. intros Hb. eapply (Hd b); [done|]. by left.
    - by eapply linked_set_prev.
    - rewrite lookup_alter_ne; [done|]. intros ->. apply Hn2. by left. }
  split; [|etrans; [exact K1|etrans; [exact K2|by apply keeps_alter]]]. apply linked_app. cbn. split_and!.
  - by apply linked_alter.
  - eexists. split; [by rewrite lookup_alter_eq, H6|]. done.
  - by apply linked_alter.
Qed.

Lemma alter_alter X (f f' : ABTI_xstream → ABTI_xstream) a : alter f a (alter f' a X) = alter (λ x, f (f' x)) a X.
Proof. apply map_eq. intros b. destruct (decide (a = b)) as [->|]; [rewrite !lookup_alter_eq|by rewrite !lookup_alter_ne]. by destruct (X !! b). Qed.

Lemma alter_swap X (f f' : ABTI_xstream → ABTI_xstream) a b : a ≠ b → alter f a (alter f' b X) = alter f' b (alter f a X).
Proof.
  intros Hne. apply map_eq. intros c. rewrite !lookup_alter. repeat case_decide; congruence.
Qed.

Lemma add_run g l1 l2 new xn :
  linked (xstreams g) None (l1 ++ l2) None → p_xstream_head g = first (l1 ++ l2) None → NoDup (l1 ++ l2) → new ∉ l1 ++ l2 → xstreams g !! new = Some xn →
  Forall (λ a, rank_of (xstreams g) a < rank xn) l1 → (∀ b, first l2 None = Some b → rank xn < rank_of (xstreams g) b) → (l1 = [] → l2 ≠ [] → p_prev xn = None) →
  xstream_add_xstream_list new g = Done ((), set_head (first (l1 ++ new :: l2) None) (set_xstreams (insert_links l1 l2 new (xstreams g)) g)).
Proof.
  intros Hl Hh Hd Hn Hx H1 H2 Hp. pose proof (size_list _ _ _ _ Hl Hd) as Hsz. rewrite length_app in Hsz.
  unfold xstream_add_xstream_list. rewrite (C_bind_Done _ _ _ _ _ (load_x rank g new xn Hx)), (C_bind_Done (gets p_xstream_head) _ g _ g eq_refl).
  rewrite (C_bind_Done (gets (λ g, size (xstreams g))) _ g (size (xstreams g)) g eq_refl). rewrite Hh.
  rewrite (C_bind_Done _ _ _ _ _ (add_loop_run g (rank xn) l1 l2 None (first (l1 ++ l2) None) (size (xstreams g)) Hl H1 H2
    ltac:(destruct l2; [right; split; [cbn in Hsz; lia|done]|left; cbn in Hsz; lia]))).
  cbn [fst snd]. apply not_elem_of_app in Hn as [Hn1 Hn2].
  assert (∀ f a, is_Some (alter f a (xstreams g) !! new)) as Hnew.
  { intros f a. rewrite lookup_alter. case_decide; [subst; rewrite Hx; by eexists|eauto]. }
  unfold insert_links, lastp. destruct l2 as [|b l2]; cbn [first].
  - rewrite app_nil_r in *. destruct (last l1) as [q|] eqn:El.
    + assert (q ∈ l1) as Hq by (apply last_Some in El as (l0 & ->); apply elem_of_app; right; by left).
      rewrite (C_bind_Done _ _ _ _ _ (store_x (set_p_next (Some new)) g q ltac:(by eapply linked_lookup))).
      rewrite (C_bind_Done _ _ _ _ _ (store_x (set_p_prev (Some q)) (set_xstreams (alter (set_p_next (Some new)) q (xstreams g)) g) new ltac:(apply Hnew))).
      rewrite store_x by (cbn; rewrite lookup_alter_eq; destruct (Hnew (set_p_next (Some new)) q) as [? ->]; by eexists). cbn [xstreams set_xstreams]. rewrite alter_alter.
      do 2 f_equal. apply last_Some in El as (l0 & ->). destruct g. unfold set_head, set_xstreams. cbn. f_equal. cbn in Hh. rewrite Hh. by destruct l0.
    + apply last_None in El as ->. cbn [app first] in *. rewrite (C_bind_Done (gets p_xstream_head) _ g None g) by (unfold gets; by rewrite Hh). rewrite (C_bind_Done _ _ g () g) by done.
      rewrite (C_bind_Done _ _ _ _ _ (store_x (set_p_prev None) g new ltac:(eauto))).
      rewrite (C_bind_Done _ _ _ _ _ (store_x (set_p_next None) (set_xstreams (alter (set_p_prev None) new (xstreams g)) g) new ltac:(apply Hnew))).
      cbn [xstreams set_xstreams]. by rewrite alter_alter.
  - pose proof Hl as Hl'. apply linked_app in Hl' as [Hl1 [(xb & Hxb & Epb & _) _]]. rewrite (C_bind_Done _ _ _ _ _ (load_x p_prev g b xb Hxb)), Epb. unfold lastp.
    assert (new ≠ b) as Hnb by (intros ->; apply Hn2; by left). destruct (last l1) as [q|] eqn:El.
    + assert (q ∈ l1) as Hq by (apply last_Some in El as (l0 & ->); apply elem_of_app; right; by left).
      assert (new ≠ q) as Hnq by congruence. set (g1 := set_xstreams (alter (set_p_next (Some new)) q (xstreams g)) g).
      set (g2 := set_xstreams (alter (set_p_prev (Some q)) new (xstreams g1)) g1).
      rewrite (C_bind_Done _ _ g () g2); [|rewrite (C_bind_Done _ _ _ _ _ (store_x (set_p_next (Some new)) g q ltac:(by eapply linked_lookup))); apply store_x; apply Hnew].
      assert (is_Some (xstreams g2 !! b)) as Hb2.
      { cbn. rewrite lookup_alter_ne by done. rewrite lookup_alter. case_decide; [subst; rewrite Hxb; by eexists|rewrite Hxb; eauto]. }
      rewrite (C_bind_Done _ _ _ _ _ (store_x (set_p_prev (Some new)) g2 b Hb2)).
      rewrite store_x by (cbn; rewrite lookup_alter_ne, lookup_alter_eq by done; destruct (Hnew (set_p_next (Some new)) q) as [? ->]; by eexists).
      do 2 f_equal. destruct g. unfold set_head, set_xstreams. cbn. f_equal.
      * rewrite <- (alter_alter _ (set_p_next (Some b)) (set_p_prev (Some q))). f_equal. by apply alter_swap.
      * apply last_Some in El as (l0 & ->). cbn in Hh. rewrite Hh. by destruct l0.
    + apply last_None in El as ->. cbn [app first] in *. set (g1 := set_head (Some new) g).
      rewrite (C_bind_Done _ _ g () g1); [|rewrite (C_bind_Done (gets p_xstream_head) _ g (Some b) g) by (unfold gets; by rewrite Hh); rewrite bool_decide_eq_true_2 by done; done].
      rewrite (C_bind_Done _ _ _ _ _ (store_x (set_p_prev (Some new)) g1 b ltac:(cbn; eauto))).
      rewrite store_x by (cbn; rewrite lookup_alter_ne by done; eauto). do 2 f_equal. unfold set_head, set_xstreams. cbn. f_equal.
      set (X1 := alter (set_p_prev (Some new)) b (xstreams g)). assert (X1 !! new = Some xn) as E by (unfold X1; by rewrite lookup_alter_ne).
      apply map_eq. intros c. destruct (decide (new = c)) as [<-|]; [|by rewrite !lookup_alter_ne]. rewrite !lookup_alter_eq, E. cbn. f_equal.
      specialize (Hp eq_refl ltac:(done)). destruct xn. cbn in Hp. by subst.
Qed.

(** The links after a removal. *)
Definition remove_links (l1 l2 : list addr) X : gmap addr ABTI_xstream :=
  let X := match last l1 with Some q => alter (set_p_next (first l2 None)) q X | None => X end in
  match l2 with b :: _ => alter (set_p_prev (lastp None l1)) b X | [] => X end.

Lemma remove_links_ok X l1 l2 a : linked X None (l1 ++ a :: l2) None → NoDup (l1 ++ a :: l2) →
  linked (remove_links l1 l2 X) None (l1 ++ l2) None ∧ keeps X (remove_links l1 l2 X).
Proof.
  intros Hl Hd. apply NoDup_app in Hd as (Hd1 & Hd & Hd2). apply NoDup_cons in Hd2 as [Ha2 Hd2].
  assert (∀ c, c ∈ l1 → c ∉ l2) as Hdj by (intros c H1 H2; apply (Hd c H1); by right). apply linked_app in Hl as [Hl1 [_ Hl2]].
  unfold remove_links. set (X1 := match last l1 with Some q => _ | None => X end).
  assert (keeps X X1) as K1 by (unfold X1; case_match; [by apply keeps_alter|done]).
  assert (linked X1 None l1 (first l2 None) ∧ linked X1 (Some a) l2 None) as [H1 H2].
  { unfold X1. destruct (last l1) as [q|] eqn:El; [|by apply last_None in El as ->]. apply last_Some in El as (l0 & ->). split; [by eapply linked_set_next|].
    apply linked_alter; [|done]. apply Hdj, elem_of_app. right. by left. }
  destruct l2 as [|b l2].
  - split; [|done]. apply linked_app. done.
  - split; [|etrans; [exact K1|by apply keeps_alter]]. apply linked_app. split.
    + apply linked_alter; [|done]. intros Hb. apply (Hdj b Hb). by left.
    + by eapply linked_set_prev.
Qed.

Lemma remove_run g l1 l2 a :
  linked (xstreams g) None (l1 ++ a :: l2) None → p_xstream_head g = first (l1 ++ a :: l2) None → NoDup (l1 ++ a :: l2) →
  xstream_remove_xstream_list a g = Done ((), set_head (first (l1 ++ l2) None) (set_xstreams (remove_links l1 l2 (xstreams g)) g)).
Proof.
  intros Hl Hh Hd. pose proof (linked_app (xstreams g) None l1 (a :: l2) None) as [Hla _]. destruct (Hla Hl) as [_ [(x & Hx & Ep & En) _]].
  assert (∀ c, c ∈ l1 ++ l2 → is_Some (xstreams g !! c)) as Hex.
  { intros c Hc. eapply linked_lookup; [exact Hl|]. apply elem_of_app in Hc as [?|?]; apply elem_of_app; [by left|right; by right]. }
  unfold xstream_remove_xstream_list. rewrite (C_bind_Done _ _ _ _ _ (load_x p_prev g a x Hx)), (C_bind_Done _ _ _ _ _ (load_x p_next g a x Hx)), Ep, En.
  unfold remove_links, lastp. destruct (last l1) as [q|] eqn:El.
  - assert (q ∈ l1) as Hq by (apply last_Some in El as (l0 & ->); apply elem_of_app; right; by left).
    set (g1 := set_xstreams (alter (set_p_next (first l2 None)) q (xstreams g)) g).
    rewrite (C_bind_Done _ _ _ _ _ (store_x (set_p_next (first l2 None)) g q ltac:(apply Hex, elem_of_app; by left))). fold g1.
    assert (p_xstream_head g = first (l1 ++ l2) None) as Hh' by (rewrite Hh; destruct l1; done).
    destruct l2 as [|b l2]; cbn [first].
    + cbn. rewrite <- Hh'. by destruct g.
    + rewrite store_x by (cbn; rewrite lookup_alter; case_decide; [apply fmap_is_Some; subst|]; apply Hex, elem_of_app; right; by left).
      do 2 f_equal. rewrite <- Hh'. by destruct g.
  - apply last_None in El as ->. cbn [app first] in *. set (g1 := set_head (first l2 None) g).
    rewrite (C_bind_Done _ _ g () g1); [|rewrite (C_bind_Done (gets p_xstream_head) _ g (Some a) g) by (unfold gets; by rewrite Hh); rewrite bool_decide_eq_true_2 by done; done].
    destruct l2 as [|b l2]; cbn [first]; [by destruct g|]. rewrite store_x by (apply Hex; by left). done.
Qed.

(** ** Sorted lists *)

Record chain g l : Prop := {
  c_linked : linked (xstreams g) None l None;
  c_head : p_xstream_head g = first l None;
  c_sorted : StronglySorted Z.lt (rank_of (xstreams g) <$> l)
}.

Lemma sorted_nodup X l : StronglySorted Z.lt (rank_of X <$> l) → NoDup l.
Proof.
  induction l as [|a l IH]; [intros _; apply NoDup_nil_2|]. rewrite fmap_cons. intros [Hs Ha]%StronglySorted_inv. apply NoDup_cons. split; [|by apply IH].
  intros Hin. rewrite list.Forall_forall in Ha. specialize (Ha (rank_of X a)). pose proof (list_elem_of_fmap_2 (rank_of X) l a Hin). specialize (Ha ltac:(done)). lia.
Qed.

Lemma sorted_split X r l : StronglySorted Z.lt (rank_of X <$> l) → r ∉ rank_of X <$> l →
  ∃ l1 l2, l = l1 ++ l2 ∧ Forall (λ a, rank_of X a < r) l1 ∧ Forall (λ a, r < rank_of X a) l2.
Proof.
  induction l as [|a l IH]; [intros _ _; exists [], []; split_and!; done|]. rewrite fmap_cons. intros [Hs Ha]%StronglySorted_inv [Hne Hn]%not_elem_of_cons.
  destruct (decide (r < rank_of X a)) as [Hlt|Hge].
  - exists [], (a :: l). split_and!; [done|done|]. apply Forall_cons. split; [done|]. apply list.Forall_forall. intros b Hb. rewrite list.Forall_forall in Ha.
    specialize (Ha (rank_of X b) ltac:(by apply list_elem_of_fmap_2)). lia.
  - destruct (IH Hs Hn) as (l1 & l2 & -> & H1 & H2). exists (a :: l1), l2. split_and!; [done| |done]. apply Forall_cons. split; [lia|done].
Qed.

Lemma ranks_keep X X' l : keeps X X' → rank_of X' <$> l = rank_of X <$> l.
Proof. intros K. apply list_fmap_ext. intros i a _. by apply keeps_rank. Qed.

Lemma insert_run g l new xn : chain g l → new ∉ l → xstreams g !! new = Some xn → rank xn ∉ rank_of (xstreams g) <$> l →
  (p_prev xn = None ∨ ∃ a, a ∈ l ∧ rank_of (xstreams g) a < rank xn) →
  ∃ l' X' h', xstream_add_xstream_list new g = Done ((), set_head h' (set_xstreams X' g)) ∧ chain (set_head h' (set_xstreams X' g)) l' ∧
    l' ≡ₚ new :: l ∧ keeps (xstreams g) X'.
Proof.
  intros [Hl Hh Hs] Hn Hx Hr Hp. destruct (sorted_split _ _ _ Hs Hr) as (l1 & l2 & -> & H1 & H2). pose proof (sorted_nodup _ _ Hs) as Hd.
  destruct (insert_links_ok (xstreams g) l1 l2 new Hl Hd Hn ltac:(eauto)) as [Hl' K].
  exists (l1 ++ new :: l2), (insert_links l1 l2 new (xstreams g)), (first (l1 ++ new :: l2) None). split_and!.
  - apply (add_run g l1 l2 new xn); try done.
    + intros b Hb. destruct l2 as [|b' l2]; [done|]. injection Hb as ->. by apply Forall_cons in H2 as [? _].
    + intros -> _. destruct Hp as [?|(a & Ha & Hlt)]; [done|]. rewrite list.Forall_forall in H2. specialize (H2 a Ha). lia.
  - split; [done|done|]. cbn. rewrite (ranks_keep _ _ _ K), fmap_app, fmap_cons in *. apply StronglySorted_app in Hs as (Hs & Hs1 & Hs2).
    assert (rank_of (xstreams g) new = rank xn) as En by (unfold rank_of; by rewrite Hx). rewrite En, list.Forall_forall in *. apply StronglySorted_app. split_and!; [|done|].
    + intros y z Hy [->|Hz]%elem_of_cons; [|by apply Hs]. apply list_elem_of_fmap in Hy as (a & -> & Ha). by apply H1.
    + apply StronglySorted_cons. split; [|done]. apply list.Forall_forall. intros y (a & -> & Ha)%list_elem_of_fmap. by apply H2.
  - by rewrite Permutation_middle.
  - done.
Qed.

Lemma remove_chain g l a : chain g l → a ∈ l →
  ∃ l' X' h', xstream_remove_xstream_list a g = Done ((), set_head h' (set_xstreams X' g)) ∧ chain (set_head h' (set_xstreams X' g)) l' ∧
    l ≡ₚ a :: l' ∧ keeps (xstreams g) X'.
Proof.
  intros [Hl Hh Hs] (l1 & l2 & ->)%list_elem_of_split. pose proof (sorted_nodup _ _ Hs) as Hd. destruct (remove_links_ok (xstreams g) l1 l2 a Hl Hd) as [Hl' K].
  exists (l1 ++ l2), (remove_links l1 l2 (xstreams g)), (first (l1 ++ l2) None). split_and!; [by apply remove_run| |by rewrite Permutation_middle|done].
  split; [done|done|]. cbn. rewrite (ranks_keep _ _ _ K), fmap_app, fmap_cons in *. apply StronglySorted_app in Hs as (Hs & Hs1 & [_ Hs2]%StronglySorted_cons).
  apply StronglySorted_app. split_and!; [|done|done]. intros y z Hy Hz. apply Hs; [done|]. by right.
Qed.

(** ** The abstract state: which stream has which rank *)

Abbreviation ranks := (gmap addr (Z * ABTI_xstream_type)).

Definition abs g : ranks := (λ x, (rank x, type x)) <$> xstreams g.

Definition taken (R : ranks) r : Prop := ∃ a ty, R !! a = Some (r, ty).

#[export] Instance taken_dec R r : Decision (taken R r).
Proof.
  destruct (decide (map_Exists (λ _ v, v.1 = r) R)) as [H|H]; [left|right].
  - destruct (proj1 (map_Exists_lookup _ _) H) as (a & [k ty] & Ha & Hk). exists a, ty. cbn in Hk. by subst.
  - intros (a & ty & Ha). apply H, map_Exists_lookup. by exists a, (r, ty).
Defined.

(** The least rank that nobody has. *)
Definition least_unused (R : ranks) r : Prop := 0 ≤ r ∧ ¬ taken R r ∧ ∀ r', 0 ≤ r' < r → taken R r'.

(** What the operations promise: result and new ranks. *)
Definition spec (o : op) (R : ranks) (v : Z * Z) (R' : ranks) : Prop :=
  match o with
  | Create a _ => v = (ABT_SUCCESS, 0) ∧ ∃ k, least_unused R k ∧ R' = <[a := (k, ABTI_XSTREAM_TYPE_SECONDARY)]> R
  | CreateWithRank a _ r =>
      if bool_decide (r < 0 ∨ taken R r) then v = (ABT_ERR_INV_XSTREAM_RANK, 0) ∧ R' = R
      else v = (ABT_SUCCESS, 0) ∧ R' = <[a := (r, ABTI_XSTREAM_TYPE_SECONDARY)]> R
  | Free a => R' = delete a R
  | SetRank a r =>
      ∃ k ty, R !! a = Some (k, ty) ∧
        if bool_decide (ty = ABTI_XSTREAM_TYPE_PRIMARY) then v = (ABT_ERR_INV_XSTREAM, 0) ∧ R' = R
        else if bool_decide (r < 0 ∨ r ≠ k ∧ taken R r) then v = (ABT_ERR_INV_XSTREAM_RANK, 0) ∧ R' = R
        else v = (ABT_SUCCESS, 0) ∧ R' = <[a := (r, ty)]> R
  | GetRank a => R' = R ∧ ∃ k ty, R !! a = Some (k, ty) ∧ v = (ABT_SUCCESS, k)
  | GetNum => R' = R ∧ v = (ABT_SUCCESS, Z.of_nat (size R))
  end.

(** What callers must respect: fresh memory, live streams, and not more streams than an [int] can
    count; a rank is any [int]. *)
Definition allowed (o : op) (R : ranks) : Prop :=
  match o with
  | Create a _ => R !! a = None ∧ Z.of_nat (size R) < 2 ^ 31 - 2
  | CreateWithRank a _ r => R !! a = None ∧ Z.of_nat (size R) < 2 ^ 31 - 2 ∧ - 2 ^ 31 ≤ r < 2 ^ 31
  | Free a => ∃ k, R !! a = Some (k, ABTI_XSTREAM_TYPE_SECONDARY)
  | SetRank a r => is_Some (R !! a) ∧ - 2 ^ 31 ≤ r < 2 ^ 31
  | GetRank a => is_Some (R !! a)
  | GetNum => True
  end.

(** The rank [INT_MAX] cannot be given to a secondary stream: [newrank + 1] overflows in
    [xstream_update_max_xstreams]. *)
Definition overflows (o : op) (R : ranks) : bool :=
  match o with
  | CreateWithRank _ _ r => r =? 2 ^ 31 - 1
  | SetRank a r => if R !! a is Some (_, ABTI_XSTREAM_TYPE_SECONDARY) then r =? 2 ^ 31 - 1 else false
  | _ => false
  end.

(** The states of a runtime that respects this, and what an observer of the list finds there. *)
Inductive reach (p : addr) : glob → Prop :=
  | reach_start junk m v g : 0 ≤ m < 2 ^ 31 → start p junk m = Done (v, g) → reach p g
  | reach_op o g v g' : reach p g → allowed o (abs g) → exec o g = Done (v, g') → reach p g'.

(** The list: linked in both directions, in the order of the ranks, all streams and no other. *)
Definition sorted_list g : Prop := ∃ l, chain g l ∧ ∀ a, a ∈ l ↔ is_Some (xstreams g !! a).

Record ok g : Prop := {
  i_list : sorted_list g;
  i_range : ∀ a k ty, abs g !! a = Some (k, ty) → 0 ≤ k < 2 ^ 31 - 1 ∧ k < max_xstreams g;
  i_num : num_xstreams g = Z.of_nat (size (xstreams g));
  i_size : Z.of_nat (size (xstreams g)) < 2 ^ 31 - 1;
  i_max : max_xstreams g < 2 ^ 31;
  i_lock : xstream_list_lock g = false
}.

Record inv (p : addr) g : Prop := {
  i_ok : ok g;
  i_primary : abs g !! p = Some (0, ABTI_XSTREAM_TYPE_PRIMARY);
  i_secondary : ∀ a k, abs g !! a = Some (k, ABTI_XSTREAM_TYPE_PRIMARY) → a = p
}.

Lemma abs_keeps X X' g g' : xstreams g = X → xstreams g' = X' → keeps X X' → abs g' = abs g.
Proof. intros <- <- K. apply map_eq. intros a. unfold abs. rewrite !lookup_fmap. apply K. Qed.

Lemma abs_rank g a k ty : abs g !! a = Some (k, ty) → is_Some (xstreams g !! a) ∧ rank_of (xstreams g) a = k.
Proof. unfold abs, rank_of. rewrite lookup_fmap. intros (x & Hx & E)%fmap_Some. simplify_eq. rewrite Hx. eauto. Qed.

Lemma abs_some g a : is_Some (xstreams g !! a) → ∃ ty, abs g !! a = Some (rank_of (xstreams g) a, ty).
Proof. intros [x Hx]. exists (type x). unfold abs, rank_of. by rewrite lookup_fmap, Hx. Qed.

Lemma abs_size g : size (abs g) = size (xstreams g).
Proof. apply map_size_fmap. Qed.

Lemma list_taken g l r : (∀ a, a ∈ l ↔ is_Some (xstreams g !! a)) → r ∈ rank_of (xstreams g) <$> l ↔ taken (abs g) r.
Proof.
  intros Hl. rewrite list_elem_of_fmap. split.
  - intros (a & -> & Ha%Hl). destruct (abs_some g a Ha) as [ty ?]. by exists a, ty.
  - intros (a & ty & Ha). apply abs_rank in Ha as [Ha <-]. exists a. by rewrite Hl.
Qed.

Lemma list_size g l : chain g l → (∀ a, a ∈ l ↔ is_Some (xstreams g !! a)) → length l = size (xstreams g).
Proof.
  intros [_ _ Hs] Hl. pose proof (sorted_nodup _ _ Hs) as Hd. rewrite <- (size_dom (D := gset addr) (xstreams g)), <- (size_list_to_set (C := gset addr) l) by done.
  f_equal. apply set_eq. intros a. by rewrite elem_of_dom, elem_of_list_to_set, Hl.
Qed.

(** ** Taking, changing and returning a rank *)

Lemma chain_other g g' l : chain g l → p_xstream_head g' = p_xstream_head g → (∀ a, a ∈ l → xstreams g' !! a = xstreams g !! a) → chain g' l.
Proof.
  intros [Hl Hh Hs] Eh Ea. split; [|by rewrite Eh|].
  - revert Hl. apply linked_same. intros a x Ha Hx. exists x. by rewrite Ea.
  - replace (rank_of (xstreams g') <$> l) with (rank_of (xstreams g) <$> l); [done|]. apply list_fmap_ext. intros i a Ha%list_elem_of_lookup_2. unfold rank_of. by rewrite Ea.
Qed.

Lemma update_max_run g k : 0 ≤ k < 2 ^ 31 - 1 → max_xstreams g < 2 ^ 31 →
  ∃ m, xstream_update_max_xstreams k g = Done ((), set_max m g) ∧ max_xstreams g ≤ m < 2 ^ 31 ∧ k < m.
Proof.
  intros Hk Hm. unfold xstream_update_max_xstreams. rewrite (C_bind_Done (gets max_xstreams) _ g _ g eq_refl). destruct (Z.leb_spec (max_xstreams g) k) as [Hle|Hgt].
  - unfold int_plus. rewrite (proj2 (Z.leb_le _ _)), (proj2 (Z.ltb_lt _ _)) by lia. cbn [andb]. rewrite (C_bind_Done _ _ g (k + 1) g eq_refl). exists (k + 1). split; [done|lia].
  - exists (max_xstreams g). split; [by destruct g|lia].
Qed.

(** A rank is stored and the stream linked in; the continuation sees this state. *)
Lemma link_run g l a x k : chain g l → a ∉ l → xstreams g !! a = Some x → k ∉ rank_of (xstreams g) <$> l →
  (p_prev x = None ∨ ∃ b, b ∈ l ∧ rank_of (xstreams g) b < k) →
  ∃ g' l', (∀ B (K : C glob B), (store (set_rank k) a;; xstream_add_xstream_list a;; K) g = K g') ∧
    chain g' l' ∧ l' ≡ₚ a :: l ∧ keeps (alter (set_rank k) a (xstreams g)) (xstreams g') ∧
    num_xstreams g' = num_xstreams g ∧ xstream_list_lock g' = xstream_list_lock g ∧ max_xstreams g' = max_xstreams g.
Proof.
  intros Hc Ha Hx Hk Hp. set (g1 := set_xstreams (alter (set_rank k) a (xstreams g)) g).
  assert (∀ b, b ∈ l → xstreams g1 !! b = xstreams g !! b) as Hsame by (intros b Hb; cbn; rewrite lookup_alter_ne; [done|by intros ->]).
  assert (chain g1 l) as Hc1 by (by eapply chain_other).
  assert (rank_of (xstreams g1) <$> l = rank_of (xstreams g) <$> l) as Er.
  { apply list_fmap_ext. intros i b Hb%list_elem_of_lookup_2. unfold rank_of. by rewrite Hsame. }
  destruct (insert_run g1 l a (set_rank k x)) as (l' & X' & h' & E & Hc' & Hl' & K'); try done.
  { cbn. by rewrite lookup_alter_eq, Hx. } { by rewrite Er. }
  { destruct Hp as [?|(b & Hb & Hlt)]; [by left|right]. exists b. split; [done|]. unfold rank_of in *. by rewrite Hsame. }
  exists (set_head h' (set_xstreams X' g1)), l'. split_and!; try done.
  intros B K. rewrite (C_bind_Done _ _ _ _ _ (store_x (set_rank k) g a ltac:(eauto))). fold g1. by rewrite (C_bind_Done _ _ _ _ _ E).
Qed.

Lemma put_run g l a x k : chain g l → a ∉ l → xstreams g !! a = Some x → k ∉ rank_of (xstreams g) <$> l →
  (p_prev x = None ∨ ∃ b, b ∈ l ∧ rank_of (xstreams g) b < k) → 0 ≤ k < 2 ^ 31 - 1 → max_xstreams g < 2 ^ 31 →
  ∃ g' l', (∀ B (K : C glob B), (store (set_rank k) a;; xstream_add_xstream_list a;; xstream_update_max_xstreams k;; K) g = K g') ∧
    chain g' l' ∧ l' ≡ₚ a :: l ∧ keeps (alter (set_rank k) a (xstreams g)) (xstreams g') ∧
    num_xstreams g' = num_xstreams g ∧ xstream_list_lock g' = xstream_list_lock g ∧ max_xstreams g ≤ max_xstreams g' < 2 ^ 31 ∧ k < max_xstreams g'.
Proof.
  intros Hc Ha Hx Hk Hp Hr Hm. destruct (link_run g l a x k Hc Ha Hx Hk Hp) as (g1 & l' & E & Hc' & Hl' & K' & En & El & Em).
  destruct (update_max_run g1 k Hr ltac:(lia)) as (m & E' & Hm' & Hkm).
  exists (set_max m g1), l'. split_and!; try done; [|by eapply chain_other|cbn; lia|cbn; lia].
  intros B K. by rewrite E, (C_bind_Done _ _ _ _ _ E').
Qed.

(** With the largest [int] the update of [max_xstreams] overflows. *)
Lemma put_overflows g l a x B (K : C glob B) : chain g l → a ∉ l → xstreams g !! a = Some x → 2 ^ 31 - 1 ∉ rank_of (xstreams g) <$> l →
  (p_prev x = None ∨ ∃ b, b ∈ l ∧ rank_of (xstreams g) b < 2 ^ 31 - 1) → max_xstreams g < 2 ^ 31 →
  (store (set_rank (2 ^ 31 - 1)) a;; xstream_add_xstream_list a;; xstream_update_max_xstreams (2 ^ 31 - 1);; K) g = Fault UB.
Proof.
  intros Hc Ha Hx Hk Hp Hm. destruct (link_run g l a x (2 ^ 31 - 1) Hc Ha Hx Hk Hp) as (g1 & l' & -> & _ & _ & _ & _ & _ & Em).
  unfold xstream_update_max_xstreams, mbind, C_bind, gets. rewrite (proj2 (Z.leb_le _ _)) by lia. done.
Qed.

Lemma list_acquire g : xstream_list_lock g = false → on_list_lock ABTD_spinlock_acquire g = Done ((), set_lock true g).
Proof. destruct g. cbn. by intros ->. Qed.

Lemma list_release g : xstream_list_lock g = true → on_list_lock ABTD_spinlock_release g = Done ((), set_lock false g).
Proof. destruct g. cbn. by intros ->. Qed.

Lemma int_plus_run (i j : Z) g : - 2 ^ 31 ≤ i + j < 2 ^ 31 → int_plus i j g = Done (i + j, g).
Proof. intros H. unfold int_plus. rewrite (proj2 (Z.leb_le _ _)), (proj2 (Z.ltb_lt _ _)) by lia. done. Qed.

Lemma set_lock_id g : xstream_list_lock g = false → set_lock false (set_lock true g) = g.
Proof. destruct g. cbn. by intros ->. Qed.

Lemma chain_lock g l (b : bool) : chain (set_lock b g) l ↔ chain g l.
Proof. split; intros H; by eapply chain_other. Qed.

(** What taking the rank [k] does to the list. *)
Record took g l a (k : Z) g' l' : Prop := {
  t_chain : chain g' l';
  t_perm : l' ≡ₚ a :: l;
  t_keeps : keeps (alter (set_rank k) a (xstreams g)) (xstreams g');
  t_lock : xstream_list_lock g' = false;
  t_max : max_xstreams g ≤ max_xstreams g' < 2 ^ 31;
  t_rank : 0 ≤ k < 2 ^ 31 - 1 ∧ k < max_xstreams g';
  t_free : k ∉ rank_of (xstreams g) <$> l
}.

(** The choice of the rank. *)
Definition chosen (used : list Z) r (k : Z) : Prop :=
  if bool_decide (r = -1) then 0 ≤ k ∧ (k ∉ used) ∧ ∀ r', 0 ≤ r' < k → r' ∈ used else k = r ∧ k ∉ used.

Lemma set_new_rank_run g l a x r : chain g l → a ∉ l → xstreams g !! a = Some x → p_prev x = None → xstream_list_lock g = false →
  num_xstreams g = Z.of_nat (length l) → Z.of_nat (length l) < 2 ^ 31 - 2 → max_xstreams g < 2 ^ 31 → -1 ≤ r < 2 ^ 31 - 1 →
  Forall (λ k, 0 ≤ k < 2 ^ 31 - 1) (rank_of (xstreams g) <$> l) →
  (r ≠ -1 ∧ r ∈ rank_of (xstreams g) <$> l ∧ xstream_set_new_rank a r g = Done (false, g)) ∨
  (∃ k g' l', xstream_set_new_rank a r g = Done (true, g') ∧ chosen (rank_of (xstreams g) <$> l) r k ∧ took g l a k g' l' ∧ num_xstreams g' = num_xstreams g + 1).
Proof.
  intros Hc Ha Hx Hp Hlk Hnum Hlen Hm Hr Hall. pose proof Hc as [Hl Hh Hs]. pose proof (size_list _ _ _ _ Hl (sorted_nodup _ _ Hs)) as Hsz.
  unfold xstream_set_new_rank. rewrite (C_bind_Done _ _ _ _ _ (list_acquire g Hlk)). set (g0 := set_lock true g).
  rewrite (C_bind_Done (gets p_xstream_head) _ g0 (p_xstream_head g) g0 eq_refl), (C_bind_Done (gets (λ g, size (xstreams g))) _ g0 (size (xstreams g)) g0 eq_refl), Hh.
  assert (∀ k, 0 ≤ k < 2 ^ 31 - 1 → (k ∉ rank_of (xstreams g) <$> l) → ∃ g' l',
    (store (set_rank k) a;; xstream_add_xstream_list a;; xstream_update_max_xstreams k;; n ← gets num_xstreams; n' ← int_plus n 1; modify (set_num n');;
     on_list_lock ABTD_spinlock_release;; mret true) g0 = Done (true, g') ∧ took g l a k g' l' ∧ num_xstreams g' = num_xstreams g + 1) as Hput.
  { intros k Hk Hkn. destruct (put_run g0 l a x k) as (g' & l' & E & H1 & H2 & H3 & H4 & H5 & H6 & H7); try done; [by left|].
    exists (set_lock false (set_num (num_xstreams g' + 1) g')), l'. split_and!.
    - rewrite E, (C_bind_Done (gets num_xstreams) _ g' _ g' eq_refl), (C_bind_Done _ _ _ _ _ (int_plus_run (num_xstreams g') 1 g' ltac:(rewrite H4; cbn; lia))).
      rewrite (C_bind_Done _ _ g' () (set_num (num_xstreams g' + 1) g') eq_refl). by rewrite (C_bind_Done _ _ _ _ _ (list_release (set_num (num_xstreams g' + 1) g') H5)).
    - split; try done. by eapply chain_other.
    - cbn. by rewrite H4. }
  destruct (Z.eqb_spec r (-1)) as [->|Hne].
  - destruct (unused_loop_run g0 0 l None (size (xstreams g))) as (k & E & Hk & Hkn & Hkl); try done.
    { eapply list.Forall_impl; [exact Hall|]. cbn. lia. } { eapply list.Forall_impl; [exact Hall|]. cbn. lia. }
    rewrite (C_bind_Done _ _ g0 (Some k) g0) by (by rewrite (C_bind_Done _ _ _ _ _ E)). destruct (Hput k ltac:(lia) Hkn) as (g' & l' & E' & Ht & Hn').
    right. exists k, g', l'. split_and!; try done. unfold chosen. rewrite bool_decide_eq_true_2 by done. split_and!; [lia|done|done].
  - rewrite (C_bind_Done _ _ g0 (if bool_decide (r ∈ rank_of (xstreams g) <$> l) then None else Some r) g0) by (by rewrite (C_bind_Done _ _ _ _ _ (taken_loop_run g0 r l None _ Hl Hs Hsz))).
    case_bool_decide as Hin.
    + left. split_and!; [done|done|]. rewrite (C_bind_Done _ _ _ _ _ (list_release g0 eq_refl)). unfold g0. by rewrite set_lock_id.
    + right. destruct (Hput r ltac:(lia) Hin) as (g' & l' & E' & Ht & Hn'). exists r, g', l'. split_and!; try done. unfold chosen. by rewrite bool_decide_eq_false_2.
Qed.

Lemma keeps_alter_mono X X' f a : (∀ x y, rank x = rank y → type x = type y → rank (f x) = rank (f y) ∧ type (f x) = type (f y)) → keeps X X' → keeps (alter f a X) (alter f a X').
Proof.
  intros Hf K b. specialize (K b). rewrite !lookup_alter. case_decide; [|done]. subst a. destruct (X !! b) as [x|], (X' !! b) as [x'|]; cbn in *; try done. injection K as Er Et. destruct (Hf x' x Er Et) as [E1 E2]. by rewrite E1, E2.
Qed.

Lemma change_rank_run g l a b r : chain g l → a ∈ l → b ∈ l → a ≠ b → rank_of (xstreams g) b = 0 → rank_of (xstreams g) a ≠ r → xstream_list_lock g = false →
  max_xstreams g < 2 ^ 31 → 0 ≤ r < 2 ^ 31 - 1 →
  if bool_decide (r ∈ rank_of (xstreams g) <$> l) then xstream_change_rank a r g = Done (false, g)
  else ∃ l0 g' l', xstream_change_rank a r g = Done (true, g') ∧ l ≡ₚ a :: l0 ∧ took g l0 a r g' l' ∧ num_xstreams g' = num_xstreams g.
Proof.
  intros Hc Ha Hb Hab Hb0 Hne Hlk Hm Hr. pose proof Hc as [Hl Hh Hs]. pose proof (size_list _ _ _ _ Hl (sorted_nodup _ _ Hs)) as Hsz.
  destruct (linked_lookup _ _ _ _ a Hl Ha) as [x Hx]. unfold xstream_change_rank. rewrite (C_bind_Done _ _ _ _ _ (load_x rank g a x Hx)).
  assert (rank_of (xstreams g) a = rank x) as Ea by (unfold rank_of; by rewrite Hx). rewrite (proj2 (Z.eqb_neq _ _)) by congruence.
  rewrite (C_bind_Done _ _ _ _ _ (list_acquire g Hlk)). set (g0 := set_lock true g).
  rewrite (C_bind_Done (gets p_xstream_head) _ g0 (p_xstream_head g) g0 eq_refl), (C_bind_Done (gets (λ g, size (xstreams g))) _ g0 (size (xstreams g)) g0 eq_refl), Hh.
  rewrite (C_bind_Done _ _ _ _ _ (taken_loop_run g0 r l None _ Hl Hs Hsz)). cbn [xstreams g0 set_lock]. case_bool_decide as Hin.
  { rewrite (C_bind_Done _ _ _ _ _ (list_release g0 eq_refl)). unfold g0. by rewrite set_lock_id. }
  destruct (remove_chain g0 l a ltac:(by apply chain_lock) Ha) as (l0 & X' & h' & E & Hc0 & Hl0 & K). rewrite (C_bind_Done _ _ _ _ _ E).
  assert (is_Some (X' !! a)) as [x' Hx'] by (apply (keeps_some _ _ a K); eauto).
  assert (a ∉ l0) as Ha0 by (intros ?; apply (sorted_nodup _ _) in Hs; rewrite Hl0 in Hs; by apply NoDup_cons in Hs as [? _]).
  assert (r ∉ rank_of X' <$> l0) as Hr0. { rewrite (ranks_keep _ _ _ K). intros H. apply Hin. rewrite Hl0. by right. }
  assert (b ∈ l0) as Hb'. { rewrite Hl0 in Hb. by apply elem_of_cons in Hb as [?|?]. }
  destruct (put_run (set_head h' (set_xstreams X' g0)) l0 a x' r) as (g' & l' & E' & H1 & H2 & H3 & H4 & H5 & H6 & H7); try done.
  { right. exists b. split; [done|]. change (rank_of X' b < r). rewrite (keeps_rank _ _ _ K). change (rank_of (xstreams g) b < r). rewrite Hb0. destruct (decide (r = 0)) as [->|]; [|lia]. destruct Hin. apply list_elem_of_fmap. by exists b. }
  exists l0, (set_lock false g'), l'. rewrite E', (C_bind_Done _ _ _ _ _ (list_release g' H5)). split_and!; try done. split; try done.
  - by eapply chain_other.
  - etrans; [|exact H3]. apply keeps_alter_mono; [|done]. intros y z _ Ht. by split.
  - by rewrite (ranks_keep _ _ _ K) in Hr0.
Qed.

Lemma return_rank_run g l a : chain g l → a ∈ l → xstream_list_lock g = false → 1 ≤ num_xstreams g < 2 ^ 31 →
  ∃ g' l', xstream_return_rank a g = Done ((), g') ∧ chain g' l' ∧ l ≡ₚ a :: l' ∧ keeps (xstreams g) (xstreams g') ∧
    num_xstreams g' = num_xstreams g - 1 ∧ max_xstreams g' = max_xstreams g ∧ xstream_list_lock g' = false.
Proof.
  intros Hc Ha Hlk Hn. unfold xstream_return_rank. rewrite (C_bind_Done _ _ _ _ _ (list_acquire g Hlk)).
  destruct (remove_chain (set_lock true g) l a ltac:(by apply chain_lock) Ha) as (l' & X' & h' & E & Hc' & Hl' & K). rewrite (C_bind_Done _ _ _ _ _ E).
  set (g1 := set_head h' _). rewrite (C_bind_Done (gets num_xstreams) _ g1 (num_xstreams g) g1 eq_refl).
  rewrite (C_bind_Done _ _ _ _ _ (int_plus_run (num_xstreams g) (-1) g1 ltac:(lia))). rewrite (C_bind_Done _ _ g1 () (set_num (num_xstreams g + -1) g1) eq_refl).
  eexists (set_lock false (set_num (num_xstreams g + -1) g1)), l'. split; [by apply list_release|]. split_and!; try done. by eapply chain_other.
Qed.

(** ** The operations on the abstract state *)

Lemma took_abs g l a k g' l' : took g l a k g' l' → abs g' = alter (λ v, (k, v.2)) a (abs g).
Proof.
  intros Ht. apply map_eq. intros b. pose proof (t_keeps _ _ _ _ _ _ Ht b) as K. unfold abs. rewrite lookup_fmap, K, !lookup_alter.
  case_decide; [subst|]; rewrite lookup_fmap; [|done]. by destruct (xstreams g !! b).
Qed.

Lemma took_mem g l a k g' l' : took g l a k g' l' → (∀ b, b ∈ a :: l ↔ is_Some (xstreams g !! b)) → ∀ b, b ∈ l' ↔ is_Some (xstreams g' !! b).
Proof.
  intros Ht Hl b. rewrite (t_perm _ _ _ _ _ _ Ht), Hl, (keeps_some _ _ b (t_keeps _ _ _ _ _ _ Ht)), lookup_alter. case_decide; [subst; by rewrite fmap_is_Some|done].
Qed.

Lemma abs_type g a ty : abs (set_xstreams (alter (set_type ty) a (xstreams g)) g) = alter (λ v, (v.1, ty)) a (abs g).
Proof.
  apply map_eq. intros b. unfold abs. cbn. rewrite lookup_fmap, !lookup_alter. case_decide; [subst|]; rewrite lookup_fmap; [|done]. by destruct (xstreams g !! b).
Qed.

Lemma abs_insert g a x : abs (set_xstreams (<[a := x]> (xstreams g)) g) = <[a := (rank x, type x)]> (abs g).
Proof. unfold abs. cbn [xstreams set_xstreams]. by rewrite fmap_insert. Qed.

Lemma abs_delete g a : abs (set_xstreams (delete a (xstreams g)) g) = delete a (abs g).
Proof. unfold abs. cbn [xstreams set_xstreams]. by rewrite fmap_delete. Qed.

Lemma abs_none g a : abs g !! a = None ↔ xstreams g !! a = None.
Proof. unfold abs. rewrite lookup_fmap. by destruct (xstreams g !! a). Qed.

Lemma ok_ranks g l : ok g → (∀ a, a ∈ l ↔ is_Some (xstreams g !! a)) → Forall (λ k, 0 ≤ k < 2 ^ 31 - 1) (rank_of (xstreams g) <$> l).
Proof.
  intros Hok Hl. apply list.Forall_forall. intros k (a & ty & Ha)%(list_taken g l k Hl). by apply (i_range _ Hok) in Ha as [? _].
Qed.

Lemma chosen_spec g l r k : (∀ a, a ∈ l ↔ is_Some (xstreams g !! a)) → chosen (rank_of (xstreams g) <$> l) r k →
  if bool_decide (r = -1) then least_unused (abs g) k else k = r ∧ ¬ taken (abs g) k.
Proof.
  intros Hl. unfold chosen. pose proof (λ r, list_taken g l r Hl) as Ht. case_bool_decide.
  - intros (H1 & H2 & H3). split_and!; [done|by rewrite <- Ht|]. intros r' Hr'. apply Ht, H3. lia.
  - by rewrite Ht.
Qed.

Lemma chain_alter g l a f : (∀ x, p_prev (f x) = p_prev x ∧ p_next (f x) = p_next x ∧ rank (f x) = rank x) →
  chain g l → chain (set_xstreams (alter f a (xstreams g)) g) l.
Proof.
  intros Hf [Hl Hh Hs]. split; [|done|]; cbn.
  - apply linked_alter_other; [|done]. intros y. destruct (Hf y) as (? & ? & _). by split.
  - replace (rank_of (alter f a (xstreams g)) <$> l) with (rank_of (xstreams g) <$> l); [done|]. apply list_fmap_ext. intros i b _.
    unfold rank_of. rewrite lookup_alter. case_decide; [subst|done]. destruct (xstreams g !! b) as [y|]; [|done]. destruct (Hf y) as (_ & _ & E). by rewrite <- E.
Qed.

Lemma chain_set_type g l a ty : chain g l → chain (set_xstreams (alter (set_type ty) a (xstreams g)) g) l.
Proof. apply chain_alter. intros y. done. Qed.

Lemma create_ranked_ok g a junk ty r : ok g → abs g !! a = None → Z.of_nat (size (abs g)) < 2 ^ 31 - 2 → -1 ≤ r < 2 ^ 31 - 1 →
  (r ≠ -1 ∧ taken (abs g) r ∧ xstream_create_ranked a junk ty r g = Done (ABT_ERR_INV_XSTREAM_RANK, g)) ∨
  (∃ k g', xstream_create_ranked a junk ty r g = Done (ABT_SUCCESS, g') ∧ ok g' ∧ abs g' = <[a := (k, ty)]> (abs g) ∧
     if bool_decide (r = -1) then least_unused (abs g) k else k = r ∧ ¬ taken (abs g) k).
Proof.
  intros Hok Hfr Hsz Hr. pose proof Hok as [(l & Hc & Hl) Hrg Hnum _ Hm Hlk]. rewrite abs_size in Hsz. pose proof (proj1 (abs_none g a) Hfr) as Hfr'.
  assert (a ∉ l) as Ha by (rewrite Hl, Hfr'; by intros []).
  set (x := MkXstream None None junk.1 junk.2 None). set (g1 := set_xstreams (<[a := x]> (xstreams g)) g).
  assert (∀ b, b ∈ l → xstreams g1 !! b = xstreams g !! b) as Hsame by (intros b Hb; cbn; rewrite lookup_insert_ne; [done|by intros ->]).
  assert (rank_of (xstreams g1) <$> l = rank_of (xstreams g) <$> l) as Er by (apply list_fmap_ext; intros i b Hb%list_elem_of_lookup_2; unfold rank_of; by rewrite Hsame).
  pose proof (list_size g l Hc Hl) as Hlen. unfold xstream_create_ranked. rewrite (C_bind_Done (modify (λ g, set_xstreams (<[a := x]> (xstreams g)) g)) _ g () g1 eq_refl).
  destruct (set_new_rank_run g1 l a x r) as [(Hne & Hin & E)|(k & g' & l' & E & Hch & Ht & Hn)]; try done;
    [by eapply chain_other|cbn; by rewrite lookup_insert_eq|cbn; by rewrite Hnum, Hlen|by rewrite Hlen|rewrite Er; by apply ok_ranks|left|right].
  - rewrite Er in Hin. split_and!; [done|by apply (list_taken g l r Hl)|]. rewrite (C_bind_Done _ _ _ _ _ E). cbn [negb].
    rewrite (C_bind_Done _ _ g1 () g); [done|]. unfold free_xstream. cbn. rewrite lookup_insert_eq. rewrite delete_insert_id by done. by destruct g.
  - rewrite Er in Hch. pose proof (took_mem _ _ _ _ _ _ Ht) as Hmem.
    assert (∀ b, b ∈ a :: l ↔ is_Some (xstreams g1 !! b)) as Hl1.
    { intros b. cbn. rewrite elem_of_cons, Hl, lookup_insert. case_decide; [subst; split; [by eexists|by left]|naive_solver]. }
    specialize (Hmem Hl1). assert (is_Some (xstreams g' !! a)) as Ha' by (apply Hmem; rewrite (t_perm _ _ _ _ _ _ Ht); by left).
    exists k, (set_xstreams (alter (set_type ty) a (xstreams g')) g'). rewrite (C_bind_Done _ _ _ _ _ E). cbn [negb].
    rewrite (C_bind_Done _ _ _ _ _ (store_x (set_type ty) g' a Ha')).
    assert (abs (set_xstreams (alter (set_type ty) a (xstreams g')) g') = <[a := (k, ty)]> (abs g)) as Eabs.
    { rewrite abs_type, (took_abs _ _ _ _ _ _ Ht). unfold g1. rewrite abs_insert. apply map_eq. intros b. rewrite !lookup_alter, !lookup_insert. by repeat case_decide. }
    assert (size (alter (set_type ty) a (xstreams g')) = S (size (xstreams g))) as Esz.
    { rewrite <- (abs_size g), <- (map_size_insert_None a (k, ty) (abs g)), <- Eabs by done. symmetry. apply abs_size. }
    split_and!; [done| |done|by apply (chosen_spec g l)]. split; try (by apply Ht).
    + exists l'. split; [by apply chain_set_type, Ht|]. intros b. rewrite Hmem. cbn. rewrite lookup_alter. case_decide; [subst; by rewrite fmap_is_Some|done].
    + intros b i ty'. rewrite Eabs, lookup_insert. pose proof (t_rank _ _ _ _ _ _ Ht). pose proof (t_max _ _ _ _ _ _ Ht) as Hmx. cbn in Hmx |- *.
      case_decide; [intros ?; simplify_eq; tauto|]. intros [? ?]%Hrg. lia.
    + cbn. rewrite Hn, Esz. cbn. lia.
    + cbn. rewrite Esz. lia.
Qed.

Lemma delete_chain g l a : chain g l → a ∉ l → chain (set_xstreams (delete a (xstreams g)) g) l.
Proof. intros Hc Ha. eapply chain_other; [done|done|]. intros b Hb. cbn. rewrite lookup_delete_ne; [done|]. by intros ->. Qed.

Lemma return_ok g a : ok g → is_Some (abs g !! a) →
  ∃ g1 g', xstream_return_rank a g = Done ((), g1) ∧ abs g1 = abs g ∧ free_xstream a g1 = Done ((), g') ∧ ok g' ∧ abs g' = delete a (abs g).
Proof.
  intros [(l & Hc & Hl) Hrg Hnum Hsz Hm Hlk] [[k ty] Ha]. pose proof (abs_rank _ _ _ _ Ha) as [Hx _]. assert (a ∈ l) as Hin by (by apply Hl).
  assert (size (xstreams g) ≠ 0%nat) as Hnz by (intros E%map_size_empty_inv; rewrite E in Hx; by destruct Hx).
  destruct (return_rank_run g l a Hc Hin Hlk ltac:(lia)) as (g' & l' & E & Hc' & Hp & K & Hn' & Hm' & Hlk').
  pose proof (abs_keeps _ _ g g' eq_refl eq_refl K) as Eabs. destruct (proj2 (keeps_some _ _ a K) Hx) as [x' Hx'].
  assert (a ∉ l') as Hnin by (intros ?; apply c_sorted, sorted_nodup in Hc; rewrite Hp in Hc; by apply NoDup_cons in Hc as [? _]).
  exists g', (set_xstreams (delete a (xstreams g')) g'). assert (abs (set_xstreams (delete a (xstreams g')) g') = delete a (abs g)) as Ed by (by rewrite abs_delete, Eabs).
  assert (size (delete a (xstreams g')) = pred (size (xstreams g))) as Es.
  { rewrite map_size_delete_Some by eauto. f_equal. by rewrite <- abs_size, Eabs, abs_size. }
  split_and!; [done|done| |split|done]; try done.
  - unfold free_xstream. by rewrite Hx'.
  - exists l'. split; [by apply delete_chain|]. intros b. cbn. rewrite lookup_delete. specialize (Hl b). rewrite Hp, elem_of_cons in Hl.
    pose proof (keeps_some _ _ b K). case_decide; [subst; split; [done|by intros []]|naive_solver].
  - intros b i ty'. rewrite Ed, lookup_delete_Some. change (max_xstreams (set_xstreams _ g')) with (max_xstreams g'). rewrite Hm'. intros [_ ?]. by eapply Hrg.
  - cbn. rewrite Hn', Es. lia.
  - cbn. rewrite Es. lia.
  - cbn. by rewrite Hm'.
Qed.

Lemma free_ok g a : ok g → is_Some (abs g !! a) → ∃ g', xstream_free_ranked a g = Done ((), g') ∧ ok g' ∧ abs g' = delete a (abs g).
Proof.
  intros Hok Ha. destruct (return_ok g a Hok Ha) as (g1 & g' & E1 & _ & E2 & Hok' & Ea). exists g'. split_and!; [|done|done].
  unfold xstream_free_ranked. by rewrite (C_bind_Done _ _ _ _ _ E1).
Qed.

Lemma change_ok p g a k r : inv p g → abs g !! a = Some (k, ABTI_XSTREAM_TYPE_SECONDARY) → r ≠ k → 0 ≤ r < 2 ^ 31 - 1 →
  if bool_decide (taken (abs g) r) then xstream_change_rank a r g = Done (false, g)
  else ∃ g', xstream_change_rank a r g = Done (true, g') ∧ ok g' ∧ abs g' = <[a := (r, ABTI_XSTREAM_TYPE_SECONDARY)]> (abs g).
Proof.
  intros [[(l & Hc & Hl) Hrg Hnum Hsz Hm Hlk] Hpr Hse] Ha Hne Hr. pose proof (abs_rank _ _ _ _ Ha) as [Hx Ek]. pose proof (abs_rank _ _ _ _ Hpr) as [Hpx Ep].
  pose proof (change_rank_run g l a p r Hc (proj2 (Hl a) Hx) (proj2 (Hl p) Hpx) ltac:(congruence) Ep ltac:(congruence) Hlk Hm Hr) as H.
  rewrite (bool_decide_ext _ _ (list_taken g l r Hl)) in H. case_bool_decide; [done|]. destruct H as (l0 & g' & l' & E & Hp & Ht & Hn).
  assert (abs g' = <[a := (r, ABTI_XSTREAM_TYPE_SECONDARY)]> (abs g)) as Eabs.
  { rewrite (took_abs _ _ _ _ _ _ Ht). apply map_eq. intros b. rewrite lookup_alter, lookup_insert. case_decide; [subst; by rewrite Ha|done]. }
  assert (size (xstreams g') = size (xstreams g)) as Es by (rewrite <- !abs_size, Eabs; by rewrite map_size_insert_Some by eauto).
  exists g'. split_and!; [done| |done]. split; try (by apply Ht).
  - exists l'. split; [apply Ht|]. apply (took_mem _ _ _ _ _ _ Ht). intros b. by rewrite <- Hp.
  - intros b i ty. rewrite Eabs, lookup_insert. pose proof (t_rank _ _ _ _ _ _ Ht). pose proof (t_max _ _ _ _ _ _ Ht). case_decide; [intros ?; simplify_eq; tauto|]. intros [? ?]%Hrg. lia.
  - by rewrite Hn, Es.
  - by rewrite Es.
Qed.

(** The CPU set a stream is bound to; binding it changes nothing else. *)
Definition bound g a : option Z := xstreams g !! a ≫= cpuset.

Lemma bind_ok g a k ty : ok g → abs g !! a = Some (k, ty) →
  ∃ g', bind_default a g = Done ((), g') ∧ ok g' ∧ abs g' = abs g ∧ (set_affinity = true → bound g' a = Some (k mod num_cpusets)).
Proof.
  intros Hok Ha. pose proof (abs_rank _ _ _ _ Ha) as [[x Hx] Ek]. unfold rank_of in Ek. rewrite Hx in Ek. pose proof (i_range _ Hok _ _ _ Ha) as [Hk _].
  unfold bind_default. pose proof some_cpuset as Hn. destruct set_affinity; [specialize (Hn eq_refl)|by exists g].
  rewrite (C_bind_Done _ _ _ _ _ (load_x rank g a x Hx)), Ek. unfold ABTD_affinity_cpuset_apply_default.
  rewrite (proj2 (Z.eqb_neq _ _)), store_x, (u32_small k) by (eauto || lia). set (X := alter _ a (xstreams g)).
  assert (keeps (xstreams g) X) as K by (by apply keeps_alter). assert (abs (set_xstreams X g) = abs g) as E by (by eapply abs_keeps).
  assert (size X = size (xstreams g)) as Es by (rewrite <- (abs_size g), <- E; symmetry; apply (abs_size (set_xstreams X g))).
  eexists. split; [reflexivity|]. split_and!; [|done|].
  - destruct Hok as [(l & Hc & Hl) Hrg Hnum Hsz Hm Hlk]. split; cbn [num_xstreams max_xstreams xstream_list_lock xstreams set_xstreams]; rewrite ?Es; try done; [|rewrite E; apply Hrg].
    exists l. split; [by apply chain_alter|]. intros b. rewrite Hl. symmetry. by apply keeps_some.
  - intros _. unfold bound, X. cbn. by rewrite lookup_alter_eq, Hx.
Qed.

Lemma secondary : bool_decide (ABTI_XSTREAM_TYPE_SECONDARY = ABTI_XSTREAM_TYPE_PRIMARY) = false.
Proof. done. Qed.

Lemma set_rank_ok p g a k ty r : inv p g → abs g !! a = Some (k, ty) → - 2 ^ 31 ≤ r < 2 ^ 31 → (ty = ABTI_XSTREAM_TYPE_SECONDARY → r ≠ 2 ^ 31 - 1) →
  ∃ v g', ABT_xstream_set_rank (Some a) r g = Done (v, g') ∧ ok g' ∧ spec (SetRank a r) (abs g) (v, 0) (abs g') ∧
    (v = ABT_SUCCESS → set_affinity = true → bound g' a = Some (r mod num_cpusets)).
Proof.
  intros Hi Ha Hr Hrm. pose proof (abs_rank _ _ _ _ Ha) as [[x Hx] Ek]. pose proof (i_ok _ _ Hi) as Hok.
  assert (rank x = k ∧ type x = ty) as [Er Et] by (unfold abs in Ha; rewrite lookup_fmap, Hx in Ha; by simplify_eq/=).
  unfold ABT_xstream_set_rank. rewrite (C_bind_Done _ _ _ _ _ (load_x type g a x Hx)), Et. destruct ty.
  { eexists _, g. split_and!; [done|done| |done]. exists k, ABTI_XSTREAM_TYPE_PRIMARY. by split. }
  change (negb (bool_decide (ABTI_XSTREAM_TYPE_SECONDARY ≠ ABTI_XSTREAM_TYPE_PRIMARY))) with false. cbv iota. destruct (Z.leb_spec 0 r) as [H0|H0]; cbn [negb].
  2: { eexists _, g. split_and!; [done|done| |done]. exists k, ABTI_XSTREAM_TYPE_SECONDARY. split; [done|]. rewrite secondary. rewrite bool_decide_eq_true_2; [done|by left]. }
  specialize (Hrm eq_refl). destruct (decide (r ≠ k ∧ taken (abs g) r)) as [[Hne Ht]|Hfree].
  { pose proof (change_ok p g a k r Hi Ha Hne ltac:(lia)) as H. rewrite bool_decide_eq_true_2 in H by done.
    eexists _, g. split_and!; [by rewrite (C_bind_Done _ _ _ _ _ H)|done| |done]. exists k, ABTI_XSTREAM_TYPE_SECONDARY. split; [done|]. rewrite secondary. rewrite bool_decide_eq_true_2; [done|by right]. }
  assert (∃ g1, xstream_change_rank a r g = Done (true, g1) ∧ ok g1 ∧ abs g1 = <[a := (r, ABTI_XSTREAM_TYPE_SECONDARY)]> (abs g)) as (g1 & E1 & Hok1 & Ea1).
  { destruct (decide (r = k)) as [->|Hne].
    - exists g. unfold xstream_change_rank. rewrite (C_bind_Done _ _ _ _ _ (load_x rank g a x Hx)), Er, Z.eqb_refl. split_and!; [done|done|by rewrite insert_id].
    - pose proof (change_ok p g a k r Hi Ha Hne ltac:(lia)) as H. rewrite bool_decide_eq_false_2 in H by tauto. exact H. }
  destruct (bind_ok g1 a r ABTI_XSTREAM_TYPE_SECONDARY Hok1) as (g' & E2 & Hok2 & Ea2 & Hb); [by rewrite Ea1, lookup_insert_eq|].
  eexists _, g'. split_and!; [by rewrite (C_bind_Done _ _ _ _ _ E1); cbn [negb]; rewrite (C_bind_Done _ _ _ _ _ E2)|done| |done].
  exists k, ABTI_XSTREAM_TYPE_SECONDARY. split; [done|]. rewrite secondary, bool_decide_eq_false_2; [|intros [?|?]; [lia|done]]. by rewrite Ea2, Ea1.
Qed.

Lemma sorted_inj X l a b : StronglySorted Z.lt (rank_of X <$> l) → a ∈ l → b ∈ l → rank_of X a = rank_of X b → a = b.
Proof.
  induction l as [|c l IH]; [by intros _ ?%not_elem_of_nil|]. rewrite fmap_cons. intros [Hs Hc]%StronglySorted_inv Ha Hb E. rewrite list.Forall_forall in Hc.
  assert (∀ d, d ∈ l → rank_of X c < rank_of X d) as Hlt by (intros d Hd; by apply Hc, list_elem_of_fmap_2).
  apply elem_of_cons in Ha as [->|Ha], Hb as [->|Hb]; [done| | |by apply IH]; [specialize (Hlt b Hb)|specialize (Hlt a Ha)]; lia.
Qed.

Lemma ranks_distinct g a b k ty ty' : sorted_list g → abs g !! a = Some (k, ty) → abs g !! b = Some (k, ty') → a = b.
Proof.
  intros (l & [_ _ Hs] & Hl) [Ha Ea]%abs_rank [Hb Eb]%abs_rank. apply (sorted_inj _ _ _ _ Hs); [by apply Hl|by apply Hl|congruence].
Qed.

(** The primary stream stays where it is. *)
Lemma inv_insert p g g' a k : inv p g → ok g' → abs g !! a = None ∨ (∃ i, abs g !! a = Some (i, ABTI_XSTREAM_TYPE_SECONDARY)) →
  abs g' = <[a := (k, ABTI_XSTREAM_TYPE_SECONDARY)]> (abs g) → inv p g'.
Proof.
  intros [_ Hp Hs] Hok Ha E. split; [done| |]; rewrite E.
  - rewrite lookup_insert_ne; [done|]. intros ->. destruct Ha as [?|[? ?]]; congruence.
  - intros b i. rewrite lookup_insert. case_decide; [done|apply Hs].
Qed.

Lemma create_step p g a junk r : inv p g → abs g !! a = None → Z.of_nat (size (abs g)) < 2 ^ 31 - 2 → -1 ≤ r < 2 ^ 31 - 1 →
  ∃ v g', xstream_create_ranked a junk ABTI_XSTREAM_TYPE_SECONDARY r g = Done (v, g') ∧ inv p g' ∧
    if bool_decide (r = -1) then spec (Create a junk) (abs g) (v, 0) (abs g') else 0 ≤ r → spec (CreateWithRank a junk r) (abs g) (v, 0) (abs g').
Proof.
  intros Hi Hfr Hsz Hr. destruct (create_ranked_ok g a junk ABTI_XSTREAM_TYPE_SECONDARY r (i_ok _ _ Hi) Hfr Hsz Hr) as [(Hne & Ht & E)|(k & g' & E & Hok & Ea & Hk)].
  - exists ABT_ERR_INV_XSTREAM_RANK, g. split_and!; [done|done|]. rewrite bool_decide_eq_false_2 by done. intros _. cbn. rewrite bool_decide_eq_true_2; [done|by right].
  - exists ABT_SUCCESS, g'. split_and!; [done|eapply inv_insert; eauto|]. case_bool_decide; [split; eauto|]. destruct Hk as [-> Hn]. intros ?. cbn.
    rewrite bool_decide_eq_false_2; [done|]. intros [?|?]; [lia|done].
Qed.

(** After a change of its rank a stream runs on the CPUs of that rank. *)
Definition rebound (o : op) (v : Z * Z) g : Prop :=
  match o with
  | SetRank a r => v.1 = ABT_SUCCESS → set_affinity = true → bound g a = Some (r mod num_cpusets)
  | _ => True
  end.

Lemma step_ok p g o : inv p g → allowed o (abs g) → overflows o (abs g) = false →
  ∃ v g', exec o g = Done (v, g') ∧ inv p g' ∧ spec o (abs g) v (abs g') ∧ rebound o v g'.
Proof.
  intros Hi Ho Hov. pose proof (i_ok _ _ Hi) as Hok. destruct o as [a junk|a junk r|a|a r|a|]; cbn [allowed exec overflows rebound] in *.
  - destruct Ho as [Hfr Hsz]. destruct (create_step p g a junk (-1) Hi Hfr Hsz ltac:(lia)) as (v & g' & E & Hi' & Hs). exists (v, 0), g'. split_and!; [|done|done|done].
    unfold code. by rewrite (C_bind_Done _ _ _ _ _ E).
  - destruct Ho as (Hfr & Hsz & Hr). apply Z.eqb_neq in Hov. unfold create_with_rank, code. destruct (Z.leb_spec 0 r) as [H0|H0]; cbn [negb].
    + destruct (create_step p g a junk r Hi Hfr Hsz ltac:(lia)) as (v & g' & E & Hi' & Hs). rewrite bool_decide_eq_false_2 in Hs by lia.
      exists (v, 0), g'. rewrite (C_bind_Done _ _ _ _ _ E). split_and!; [done|done|by apply Hs|done].
    + exists (ABT_ERR_INV_XSTREAM_RANK, 0), g. split_and!; [done|done| |done]. cbn. rewrite bool_decide_eq_true_2; [done|by left].
  - destruct Ho as [k Ha]. destruct (free_ok g a Hok ltac:(eauto)) as (g' & E & Hok' & Ea). exists (ABT_SUCCESS, 0), g'. unfold code. rewrite (C_bind_Done _ _ _ _ _ E).
    split_and!; [done| |done|done]. destruct Hi as [_ Hp Hs]. split; [done| |]; rewrite Ea; [rewrite lookup_delete_ne; [done|congruence]|].
    intros b i. rewrite lookup_delete_Some. intros [_ ?]. by eapply Hs.
  - destruct Ho as [[[k ty] Ha] Hr]. rewrite Ha in Hov. destruct (set_rank_ok p g a k ty r Hi Ha Hr) as (v & g' & E & Hok' & Hs & Hb); [by intros ->; apply Z.eqb_neq|]. exists (v, 0), g'. unfold code. rewrite (C_bind_Done _ _ _ _ _ E).
    split_and!; [done| |done|done]. destruct Hs as (k' & ty' & Ha' & Hs). destruct ty'.
    { rewrite bool_decide_eq_true_2 in Hs by done. destruct Hs as [_ Es]. split; [done|rewrite Es; apply Hi..]. }
    rewrite secondary in Hs. case_bool_decide; destruct Hs as [_ Es]; [split; [done|rewrite Es; apply Hi..]|]. eapply inv_insert; eauto.
  - destruct Ho as [[k ty] Ha]. exists (ABT_SUCCESS, k), g. pose proof (abs_rank _ _ _ _ Ha) as [[x Hx] Ek]. unfold ABT_xstream_get_rank.
    rewrite (C_bind_Done _ _ _ _ _ (load_x rank g a x Hx)). unfold rank_of in Ek. rewrite Hx in Ek. subst k. split_and!; [done|done| |done]. split; eauto.
  - exists (ABT_SUCCESS, Z.of_nat (size (abs g))), g. split_and!; [|done|done|done]. unfold ABT_xstream_get_num. rewrite abs_size, <- (i_num _ Hok). done.
Qed.

Lemma ok_no_int_max g l : ok g → (∀ a, a ∈ l ↔ is_Some (xstreams g !! a)) → 2 ^ 31 - 1 ∉ rank_of (xstreams g) <$> l.
Proof. intros Hok Hl Hin. pose proof (ok_ranks g l Hok Hl) as Hr. rewrite list.Forall_forall in Hr. specialize (Hr _ Hin). lia. Qed.

Lemma create_overflows g a junk ty : ok g → abs g !! a = None → xstream_create_ranked a junk ty (2 ^ 31 - 1) g = Fault UB.
Proof.
  intros Hok Hfr. pose proof Hok as [(l & Hc & Hl) _ _ _ Hm Hlk]. pose proof (proj1 (abs_none g a) Hfr) as Hfr'.
  assert (a ∉ l) as Ha by (rewrite Hl, Hfr'; by intros []). pose proof (ok_no_int_max g l Hok Hl) as Hno.
  set (x := MkXstream None None junk.1 junk.2 None). set (g1 := set_xstreams (<[a := x]> (xstreams g)) g).
  assert (∀ b, b ∈ l → xstreams g1 !! b = xstreams g !! b) as Hsame by (intros b Hb; cbn; rewrite lookup_insert_ne; [done|by intros ->]).
  assert (rank_of (xstreams g1) <$> l = rank_of (xstreams g) <$> l) as Er by (apply list_fmap_ext; intros i b Hb%list_elem_of_lookup_2; unfold rank_of; by rewrite Hsame).
  assert (chain g1 l) as Hc1 by (by eapply chain_other). pose proof Hc1 as [Hl1 Hh1 Hs1]. pose proof (size_list _ _ _ _ Hl1 (sorted_nodup _ _ Hs1)) as Hsz.
  unfold xstream_create_ranked. rewrite (C_bind_Done (modify (λ g, set_xstreams (<[a := x]> (xstreams g)) g)) _ g () g1 eq_refl).
  unfold xstream_set_new_rank. unfold mbind at 1, C_bind at 1. rewrite (C_bind_Done _ _ _ _ _ (list_acquire g1 Hlk)). set (g0 := set_lock true g1).
  rewrite (C_bind_Done (gets p_xstream_head) _ g0 (p_xstream_head g1) g0 eq_refl), (C_bind_Done (gets (λ g, size (xstreams g))) _ g0 (size (xstreams g1)) g0 eq_refl), Hh1.
  change (2 ^ 31 - 1 =? -1) with false.
  rewrite (C_bind_Done _ _ g0 (Some (2 ^ 31 - 1)) g0).
  2: { rewrite (C_bind_Done _ _ _ _ _ (taken_loop_run g0 (2 ^ 31 - 1) l None _ Hl1 Hs1 Hsz)). rewrite bool_decide_eq_false_2; [done|]. change (2 ^ 31 - 1 ∉ rank_of (xstreams g1) <$> l). by rewrite Er. }
  rewrite (put_overflows g0 l a x); [done|by apply chain_lock|done|cbn; by rewrite lookup_insert_eq| |by left|done].
  change (2 ^ 31 - 1 ∉ rank_of (xstreams g1) <$> l). by rewrite Er.
Qed.

Lemma change_overflows p g a k : inv p g → abs g !! a = Some (k, ABTI_XSTREAM_TYPE_SECONDARY) → xstream_change_rank a (2 ^ 31 - 1) g = Fault UB.
Proof.
  intros [Hok Hpr _] Ha. pose proof Hok as [(l & Hc & Hl) Hrg _ _ Hm Hlk]. pose proof (ok_no_int_max g l Hok Hl) as Hno. destruct (Hrg _ _ _ Ha) as [Hk _].
  pose proof (abs_rank _ _ _ _ Ha) as [[x Hx] Ek]. pose proof (abs_rank _ _ _ _ Hpr) as [Hpx Ep]. assert (a ∈ l) as Hal by (apply Hl; eauto).
  pose proof Hc as [Hll Hh Hs]. pose proof (size_list _ _ _ _ Hll (sorted_nodup _ _ Hs)) as Hsz. assert (rank x = k) as Er by (unfold rank_of in Ek; by rewrite Hx in Ek).
  unfold xstream_change_rank. rewrite (C_bind_Done _ _ _ _ _ (load_x rank g a x Hx)), (proj2 (Z.eqb_neq _ _)) by lia.
  rewrite (C_bind_Done _ _ _ _ _ (list_acquire g Hlk)). set (g0 := set_lock true g).
  rewrite (C_bind_Done (gets p_xstream_head) _ g0 (p_xstream_head g) g0 eq_refl), (C_bind_Done (gets (λ g, size (xstreams g))) _ g0 (size (xstreams g)) g0 eq_refl), Hh.
  rewrite (C_bind_Done _ _ _ _ _ (taken_loop_run g0 (2 ^ 31 - 1) l None _ Hll Hs Hsz)). rewrite bool_decide_eq_false_2 by done.
  destruct (remove_chain g0 l a ltac:(by apply chain_lock) Hal) as (l0 & X' & h' & E & Hc0 & Hl0 & K). rewrite (C_bind_Done _ _ _ _ _ E).
  assert (is_Some (X' !! a)) as [x' Hx'] by (apply (keeps_some _ _ a K); eauto).
  assert (a ∉ l0) as Ha0 by (intros ?; apply (sorted_nodup _ _) in Hs; rewrite Hl0 in Hs; by apply NoDup_cons in Hs as [? _]).
  rewrite (put_overflows (set_head h' (set_xstreams X' g0)) l0 a x'); try done.
  - change (2 ^ 31 - 1 ∉ rank_of X' <$> l0). rewrite (ranks_keep _ _ _ K). intros H. apply Hno. rewrite Hl0. by right.
  - right. exists p. split.
    + assert (p ∈ l) as Hp by (by apply Hl). rewrite Hl0 in Hp. apply elem_of_cons in Hp as [->|?]; [|done]. congruence.
    + change (rank_of X' p < 2 ^ 31 - 1). rewrite (keeps_rank _ _ _ K). change (rank_of (xstreams g) p < 2 ^ 31 - 1). lia.
Qed.

Lemma step_faults p g o : inv p g → allowed o (abs g) → overflows o (abs g) = true → exec o g = Fault UB.
Proof.
  intros Hi Ho Hov. destruct o as [a junk|a junk r|a|a r|a|]; cbn [overflows allowed exec] in *; try done.
  - apply Z.eqb_eq in Hov as ->. destruct Ho as [Hfr _]. unfold code, create_with_rank. change (negb (0 <=? 2 ^ 31 - 1)) with false. cbv iota.
    unfold mbind, C_bind. by rewrite (create_overflows g a junk _ (i_ok _ _ Hi) Hfr).
  - destruct (abs g !! a) as [[k []]|] eqn:Ha; [done| |done]. apply Z.eqb_eq in Hov as ->. pose proof (abs_rank _ _ _ _ Ha) as [[x Hx] _].
    assert (type x = ABTI_XSTREAM_TYPE_SECONDARY) as Et by (unfold abs in Ha; rewrite lookup_fmap, Hx in Ha; by simplify_eq/=).
    unfold code, ABT_xstream_set_rank. unfold mbind at 1, C_bind at 1. rewrite (C_bind_Done _ _ _ _ _ (load_x type g a x Hx)), Et.
    change (negb (bool_decide (ABTI_XSTREAM_TYPE_SECONDARY ≠ ABTI_XSTREAM_TYPE_PRIMARY))) with false. change (negb (0 <=? 2 ^ 31 - 1)) with false. cbv iota.
    unfold mbind at 1, C_bind at 1. by rewrite (change_overflows p g a k Hi Ha).
Qed.

Lemma start_ok p junk m : 0 ≤ m < 2 ^ 31 → ∃ g, start p junk m = Done (ABT_SUCCESS, g) ∧ inv p g.
Proof.
  intros Hm. set (g0 := Glob ∅ None 0 m false). assert (ok g0) as Hok.
  { split; cbn; try done; try lia. exists []. split; [split; [done|done|constructor]|]. intros a. split; [by intros ?%not_elem_of_nil|intros [x Hx]; change (xstreams g0) with (∅ : gmap addr ABTI_xstream) in Hx; by rewrite lookup_empty in Hx]. }
  assert (∀ r, ¬ taken (abs g0) r) as Hn by (intros r (a & ty & Ha); unfold abs in Ha; cbn in Ha; by rewrite fmap_empty, lookup_empty in Ha).
  destruct (create_ranked_ok g0 p junk ABTI_XSTREAM_TYPE_PRIMARY (-1) Hok) as [(? & _)|(k & g & E & Hok' & Ea & H1 & H2 & H3)]; [done|done|lia|done|].
  assert (k = 0) as -> by (destruct (decide (k = 0)); [done|]; destruct (Hn 0), (H3 0) as (a & ty & ?); [lia|by exists a, ty]).
  exists g. split; [done|]. split; [done| |]; rewrite Ea; [by rewrite lookup_insert_eq|]. intros a k. rewrite lookup_insert. case_decide; [done|].
  unfold abs. cbn. by rewrite fmap_empty, lookup_empty.
Qed.

Lemma reach_inv p g : reach p g → inv p g.
Proof.
  induction 1 as [junk m v g Hm E|o g v g' _ IH Ho E].
  - destruct (start_ok p junk m Hm) as (g' & E' & Hi). rewrite E' in E. by injection E as _ <-.
  - destruct (overflows o (abs g)) eqn:Hov; [by rewrite (step_faults p g o IH Ho Hov) in E|].
    destruct (step_ok p g o IH Ho Hov) as (v' & g1 & E' & Hi & _). rewrite E' in E. by injection E as _ <-.
Qed.

(** ** What the rank list promises *)

(** C35: In every state of a runtime with fewer than 2^31 - 2 streams, every operation on ranks does to
    the assignment of ranks what it promises, whatever [int] is passed as the rank, without a failed assertion: a
    new stream gets the least unused rank, or the rank asked for if nobody has it; a rank is
    changed only to a free one and never for the primary stream, and with affinities in use
    the stream is then bound to the CPU set of its new rank; on an error nothing changes.
    Afterwards the list is linked in both directions and in the order of the ranks, it
    holds the live streams, ranks are distinct, non-negative and below [max_xstreams],
    [num_xstreams] counts the streams, and the primary stream has rank 0.  The one
    exception is giving a secondary stream the rank [INT_MAX], which is undefined in every such state. *)
Theorem xstream_ranks_refine p g o : reach p g → allowed o (abs g) →
  if overflows o (abs g) then exec o g = Fault UB else
  ∃ v g', exec o g = Done (v, g') ∧ spec o (abs g) v (abs g') ∧ rebound o v g' ∧ sorted_list g' ∧ xstream_list_lock g' = false ∧
    num_xstreams g' = Z.of_nat (size (abs g')) ∧ abs g' !! p = Some (0, ABTI_XSTREAM_TYPE_PRIMARY) ∧
    (∀ a k ty, abs g' !! a = Some (k, ty) → 0 ≤ k < max_xstreams g') ∧
    (∀ a b k ty ty', abs g' !! a = Some (k, ty) → abs g' !! b = Some (k, ty') → a = b).
Proof.
  intros Hi%reach_inv Ho. destruct (overflows o (abs g)) eqn:Hov; [by apply (step_faults p)|].
  destruct (step_ok p g o Hi Ho Hov) as (v & g' & E & [Hok Hp _] & Hs & Hb). exists v, g'. pose proof (i_list _ Hok) as Hl.
  split_and!; try done; [apply Hok|by rewrite abs_size; apply Hok| |intros a b k ty ty'; by apply ranks_distinct]. intros a k ty Ha. apply (i_range _ Hok) in Ha. lia.
Qed.
End runtime.

(** Affinities with four CPU sets. *)
#[local] Instance demo_affinity : AffinityConf := {| set_affinity := true; num_cpusets := 4; some_cpuset := λ _, conj eq_refl eq_refl |}.

(** The primary stream [1] and two more; the second changes its rank past the first. *)
Definition demo : outcome ((Z * Z) * glob) :=
  match start 1%nat (7, ABTI_XSTREAM_TYPE_PRIMARY) 1 with
  | Done (_, g) =>
      (exec (CreateWithRank 2%nat (5, ABTI_XSTREAM_TYPE_SECONDARY) 2);; exec (Create 3%nat (5, ABTI_XSTREAM_TYPE_SECONDARY))) g
  | Fault e => Fault e
  end.

Definition demo_g : glob := match demo with Done (_, g) => g | Fault _ => Glob ∅ None 0 0 false end.

Lemma demo_reach : reach 1%nat demo_g.
Proof.
  destruct (start 1%nat (7, ABTI_XSTREAM_TYPE_PRIMARY) 1) as [[v0 g0]|] eqn:E0; [|by vm_compute in E0].
  assert (reach 1%nat g0) as H0 by (eapply reach_start; [|exact E0]; done). vm_compute in E0. injection E0 as <- <-.
  eapply (reach_op _ (Create 3%nat (5, ABTI_XSTREAM_TYPE_SECONDARY))); [eapply (reach_op _ (CreateWithRank 2%nat (5, ABTI_XSTREAM_TYPE_SECONDARY) 2)); [exact H0| |]| |].
  - cbn [allowed]. split_and!; vm_compute; done.
  - vm_compute. reflexivity.
  - cbn [allowed]. split; vm_compute; done.
  - vm_compute. reflexivity.
Qed.

Lemma xstream_ranks_refine_witness : ∃ v g', exec (SetRank 3%nat 6) demo_g = Done (v, g') ∧ abs g' !! 3%nat = Some (6, ABTI_XSTREAM_TYPE_SECONDARY) ∧ bound g' 3%nat = Some 2.
Proof.
  destruct (xstream_ranks_refine 1%nat demo_g (SetRank 3%nat 6) demo_reach) as (v & g' & E & Hs & Hb & _).
  - cbn [allowed]. split_and!; [vm_compute; eexists; reflexivity|lia|lia].
  - exists v, g'. split; [exact E|]. destruct Hs as (k & ty & Ha & Hs). vm_compute in Ha. injection Ha as <- <-. vm_compute in E. injection E as <- <-.
    split; [vm_compute; reflexivity|]. exact (Hb eq_refl eq_refl).
Defined.

(** The largest [int] as a rank, from the public function. *)
Example rank_int_max_overflows :
  ∃ g, start 1%nat (7, ABTI_XSTREAM_TYPE_PRIMARY) 1 = Done (ABT_SUCCESS, g) ∧
    create_with_rank 2%nat (0, ABTI_XSTREAM_TYPE_SECONDARY) (2 ^ 31 - 1) g = Fault UB.
Proof. destruct (start 1%nat (7, ABTI_XSTREAM_TYPE_PRIMARY) 1) as [[v g]|] eqn:E; [|by vm_compute in E]. vm_compute in E. injection E as <- <-. eexists. split; [reflexivity|]. vm_compute. reflexivity. Qed.
