(* ===== verification/XstreamCreate.v ===== *)
(** * Creating and freeing an execution stream

    argobots/src/stream.c: [xstream_create] with its six stages and the label FAILED,
    [ABT_xstream_create], [ABT_xstream_create_with_rank] and [ABTI_xstream_free], composed from
    the creation of schedulers and pools ([SchedPool]) and the list of ranks ([Xstream]).
    A [world] is the state of both, the further fields of the streams, and the resources
    that belong to a stream: its root thread, its local memory pools and its context (the
    operating-system thread).  Every allocation may fail. *)

From stdpp Require Import base tactics decidable option list numbers gmap fin_maps sets.
From Stdlib Require Import ZArith Lia.
From S2P Require Import Prelude Abt Pool SchedPool Xstream.
Open Scope Z_scope.

(** The fields of [ABTI_xstream] that are not about the list. *)
Record body := Body { p_main_sched : option addr; p_root_ythread : option addr; p_root_pool : option addr }.

Record world := World {
  sp : st;
  gl : glob;
  bodies : gmap addr body;
  roots : gset addr;
  locals : gset addr;
  contexts : gset addr
}.

Definition set_sp v w := World v (gl w) (bodies w) (roots w) (locals w) (contexts w).
Definition set_gl v w := World (sp w) v (bodies w) (roots w) (locals w) (contexts w).
Definition set_bodies v w := World (sp w) (gl w) v (roots w) (locals w) (contexts w).
Definition set_roots v w := World (sp w) (gl w) (bodies w) v (locals w) (contexts w).
Definition set_locals v w := World (sp w) (gl w) (bodies w) (roots w) v (contexts w).
Definition set_contexts v w := World (sp w) (gl w) (bodies w) (roots w) (locals w) v.

Abbreviation W := (C world).

Definition on_sp {A} (m : C st A) : W A := zoom sp set_sp m.
Definition on_gl {A} (m : C glob A) : W A := zoom gl set_gl m.

Definition body_at (a : addr) : W body := λ w, match bodies w !! a with Some b => Done (b, w) | None => Fault UB end.
Definition put_body (a : addr) (b : body) : W unit := modify (λ w, set_bodies (<[a := b]> (bodies w)) w).
Definition deref (p : option addr) : W addr := match p with Some a => mret a | None => throw UB end.
Definition when (c : bool) (m : W unit) : W unit := if c then m else mret ().

(** A resource is given back once. *)
Definition take_out (view : world → gset addr) (update : gset addr → world → world) (a : addr) : W unit := λ w,
  if decide (a ∈ view w) then Done ((), update (view w ∖ {[a]}) w) else Fault UB.

Definition ABTI_ythread_free_root (t : addr) : W unit := take_out roots set_roots t.
Definition ABTI_mem_finalize_local (a : addr) : W unit := take_out locals set_locals a.
Definition ABTD_xstream_context_free (a : addr) : W unit := take_out contexts set_contexts a.

Definition free_memory (a : addr) : W unit := on_gl (free_xstream a);; modify (λ w, set_bodies (delete a (bodies w)) w).

(** [xstream_init_main_sched]. *)
Definition xstream_init_main_sched (a p_sched : addr) : W unit :=
  b ← body_at a;
  c_assert (bool_decide (p_main_sched b = None));;
  x ← on_sp (sched_at p_sched);
  on_sp (put_sched p_sched (set_used ABTI_SCHED_MAIN x));;
  put_body a (Body (Some p_sched) (p_root_ythread b) (p_root_pool b)).

(** The label FAILED. *)
Definition failed (init_stage : nat) (a p_sched : addr) : W unit :=
  when (5 <=? init_stage)%nat
    (b ← body_at a; p ← deref (p_main_sched b); x ← on_sp (sched_at p); t ← deref (p_ythread x);
     on_sp (ABTI_thread_free t);; on_sp (put_sched p (set_p_ythread None x)));;
  when (4 <=? init_stage)%nat (b ← body_at a; q ← deref (p_root_pool b); on_sp (ABTI_pool_free q));;
  when (3 <=? init_stage)%nat (b ← body_at a; t ← deref (p_root_ythread b); ABTI_ythread_free_root t);;
  when (2 <=? init_stage)%nat
    (x ← on_sp (sched_at p_sched); on_sp (put_sched p_sched (set_used ABTI_SCHED_NOT_USED x));; ABTI_mem_finalize_local a);;
  when (1 <=? init_stage)%nat (on_gl (xstream_return_rank a));;
  free_memory a.

(** A step that may fail, and what follows it. *)
Definition attempt {A} (m : W (Z + A)) (init_stage : nat) (a p_sched : addr) (k : A → W (Z + addr)) : W (Z + addr) :=
  r ← m;
  match r with
  | inl abt_errno => failed init_stage a p_sched;; mret (inl abt_errno)
  | inr v => k v
  end.

(** Outcomes of calls that allocate nothing that is tracked elsewhere. *)
Definition outcome_of : W (Z + unit) := r ← on_sp next_outcome; mret (if r =? ABT_SUCCESS then inr () else inl r).

Definition ABTI_mem_init_local (a : addr) : W (Z + unit) :=
  r ← outcome_of;
  match r with inl e => mret (inl e) | inr _ => modify (λ w, set_locals ({[a]} ∪ locals w) w);; mret (inr ()) end.

Definition ABTI_ythread_create_root : W (Z + addr) :=
  r ← outcome_of;
  match r with inl e => mret (inl e) | inr _ => t ← on_sp fresh; modify (λ w, set_roots ({[t]} ∪ roots w) w);; mret (inr t) end.

(** [ABTI_ythread_create_main_sched] gives the scheduler its thread as [ABTI_ythread_create_sched] does. *)
Definition ABTI_ythread_create_main_sched (p_sched : addr) : W (Z + unit) :=
  r ← on_sp (ABTI_ythread_create_sched p_sched); mret (if r =? ABT_SUCCESS then inr () else inl r).

Definition ABTD_xstream_context_create (a : addr) : W (Z + unit) :=
  r ← outcome_of;
  match r with inl e => mret (inl e) | inr _ => modify (λ w, set_contexts ({[a]} ∪ contexts w) w);; mret (inr ()) end.

Section runtime.
Context `{AF : AffinityConf}.

(** [xstream_create]: memory and rank first (with rank and memory given back if the rank is taken),
    then the stages.  [junk] is what the memory held. *)
Definition xstream_create (junk : Z * ABTI_xstream_type) (p_sched : addr) (ty : ABTI_xstream_type) (r : Z) (start : bool) : W (Z + addr) :=
  m ← outcome_of;
  match m with
  | inl abt_errno => mret (inl abt_errno)
  | inr _ =>
      a ← on_sp fresh;
      abt_errno ← on_gl (xstream_create_ranked a junk ty r);
      if negb (abt_errno =? ABT_SUCCESS) then mret (inl abt_errno) else
      put_body a (Body None None None);;
      attempt (ABTI_mem_init_local a) 1 a p_sched (λ _,
      xstream_init_main_sched a p_sched;;
      attempt ABTI_ythread_create_root 2 a p_sched (λ t,
      b ← body_at a; put_body a (Body (p_main_sched b) (Some t) (p_root_pool b));;
      attempt (on_sp (ABTI_pool_create_basic ABT_POOL_FIFO ABT_POOL_ACCESS_MPSC false)) 3 a p_sched (λ q,
      b ← body_at a; put_body a (Body (p_main_sched b) (p_root_ythread b) (Some q));;
      attempt (b ← body_at a; p ← deref (p_main_sched b); ABTI_ythread_create_main_sched p) 4 a p_sched (λ _,
      if start then
        c_assert (bool_decide (ty ≠ ABTI_XSTREAM_TYPE_PRIMARY));;
        attempt (ABTD_xstream_context_create a) 5 a p_sched (λ _, on_gl (bind_default a);; mret (inr a))
      else mret (inr a)))))
  end.

(** What [ABT_xstream_create] and [ABT_xstream_create_with_rank] share: the default scheduler for NULL,
    which is freed again after a failure. *)
Definition create_public (junk : Z * ABTI_xstream_type) (sched : option addr) (r : Z) : W (Z * option addr) :=
  p ← (match sched with
       | None => on_sp (ABTI_sched_create_basic ABT_SCHED_DEFAULT None None)
       | Some b => x ← on_sp (sched_at b); mret (if bool_decide (used x = ABTI_SCHED_NOT_USED) then inr b else inl ABT_ERR_INV_SCHED)
       end);
  match p with
  | inl abt_errno => mret (abt_errno, None)
  | inr p_sched =>
      c ← xstream_create junk p_sched ABTI_XSTREAM_TYPE_SECONDARY r true;
      match c with
      | inl abt_errno => (match sched with None => on_sp (ABTI_sched_free p_sched false) | Some _ => mret () end);; mret (abt_errno, None)
      | inr a => mret (ABT_SUCCESS, Some a)
      end
  end.

Definition ABT_xstream_create (junk : Z * ABTI_xstream_type) (sched : option addr) : W (Z * option addr) := create_public junk sched (-1).

Definition ABT_xstream_create_with_rank (junk : Z * ABTI_xstream_type) (sched : option addr) (r : Z) : W (Z * option addr) :=
  if negb (0 <=? r) then mret (ABT_ERR_INV_XSTREAM_RANK, None) else create_public junk sched r.

(** [ABTI_xstream_free], after the stream has been joined. *)
Definition ABTI_xstream_free (a : addr) (force_free : bool) : W unit :=
  ABTI_mem_finalize_local a;;
  on_gl (xstream_return_rank a);;
  b ← body_at a;
  (match p_main_sched b with Some p => on_sp (ABTI_sched_discard_and_free p force_free) | None => mret () end);;
  t ← deref (p_root_ythread b); ABTI_ythread_free_root t;;
  q ← deref (p_root_pool b); on_sp (ABTI_pool_free q);;
  ty ← on_gl (load type a);
  when (bool_decide (ty = ABTI_XSTREAM_TYPE_SECONDARY)) (ABTD_xstream_context_free a);;
  free_memory a.

(** ** Stages *)

Implicit Types (w : world) (a p q t : addr) (x : ABTI_sched) (n : nat).

Lemma on_sp_run {A} (m : C st A) w v s' : m (sp w) = Done (v, s') → on_sp m w = Done (v, set_sp s' w).
Proof. unfold on_sp, zoom. by intros ->. Qed.

Lemma on_gl_run {A} (m : C glob A) w v g' : m (gl w) = Done (v, g') → on_gl m w = Done (v, set_gl g' w).
Proof. unfold on_gl, zoom. by intros ->. Qed.

(** What a creation chooses. *)
Record ids := Ids { i_rank : Z; i_root : addr; i_pool : addr; i_desc : ABTI_pool; i_main : addr }.
Implicit Types (i : ids).

Definition sched_now n x i : ABTI_sched :=
  MkSched (if (2 <=? n)%nat then ABTI_SCHED_MAIN else ABTI_SCHED_NOT_USED) (s_automatic x) (s_def x) (sched_pools x) (pool_list x)
    (if (5 <=? n)%nat then Some (i_main i) else None) (s_ready x).

(** The fields that the stages up to [n] have written; FAILED leaves them. *)
Definition fields n p i (b : body) : Prop :=
  ((2 ≤ n)%nat → p_main_sched b = Some p) ∧ ((3 ≤ n)%nat → p_root_ythread b = Some (i_root i)) ∧ ((4 ≤ n)%nat → p_root_pool b = Some (i_pool i)).

Definition extra (c : bool) a (X : gset addr) : gset addr := if c then {[a]} ∪ X else X.

(** [w] is [w0] after stage [n] of the creation of the stream [a] with the scheduler [p], described by [x]. *)
Record stage n w0 p x (ty : ABTI_xstream_type) i a (b : body) w : Prop := {
  s_ok : ok (gl w);
  s_abs : abs (gl w) = <[a := (i_rank i, ty)]> (abs (gl w0));
  s_bodies : bodies w = <[a := b]> (bodies w0);
  s_fields : fields n p i b;
  s_roots : roots w = extra (3 <=? n)%nat (i_root i) (roots w0);
  s_locals : locals w = extra (2 <=? n)%nat a (locals w0);
  s_contexts : contexts w = extra (6 <=? n)%nat a (contexts w0);
  s_pools : pools (sp w) = if (4 <=? n)%nat then <[i_pool i := i_desc i]> (pools (sp w0)) else pools (sp w0);
  s_scheds : scheds (sp w) = <[p := sched_now n x i]> (scheds (sp w0));
  s_ythreads : ythreads (sp w) = extra (5 <=? n)%nat (i_main i) (ythreads (sp w0));
  s_blocks : blocks (sp w) = blocks (sp w0);
  s_brk : (brk (sp w0) ≤ brk (sp w))%nat;
  s_addr : (brk (sp w0) ≤ a < brk (sp w))%nat;
  s_root : (3 ≤ n)%nat → (brk (sp w0) ≤ i_root i < brk (sp w))%nat;
  s_pool : (4 ≤ n)%nat → (brk (sp w0) ≤ i_pool i < brk (sp w))%nat ∧ new_pool false (i_desc i);
  s_main : (5 ≤ n)%nat → (brk (sp w0) ≤ i_main i < brk (sp w))%nat ∧ (i_pool i < i_main i)%nat;
  s_bound : (6 ≤ n)%nat → set_affinity = true → bound (gl w) a = Some (i_rank i mod num_cpusets)
}.

(** What lives has an address below the next one. *)
Record ready_world w : Prop := {
  y_wf : wf (sp w);
  y_small : small (sp w);
  y_ok : ok (gl w);
  y_xstreams : ∀ a, is_Some (abs (gl w) !! a) → (a < brk (sp w))%nat;
  y_bodies : ∀ a, is_Some (bodies w !! a) → (a < brk (sp w))%nat;
  y_res : ∀ a, a ∈ roots w ∪ locals w ∪ contexts w → (a < brk (sp w))%nat
}.

(** Nothing is created or given back. *)
Record same w w' : Prop := {
  e_sp : quiet (sp w) (sp w');
  e_abs : abs (gl w') = abs (gl w);
  e_ok : ok (gl w');
  e_bodies : bodies w' = bodies w;
  e_roots : roots w' = roots w;
  e_locals : locals w' = locals w;
  e_contexts : contexts w' = contexts w
}.

Lemma extra_out a (X : gset addr) : a ∉ X → extra true a X ∖ {[a]} = X.
Proof. unfold extra. set_solver. Qed.

Lemma extra_in a (X : gset addr) : a ∈ extra true a X.
Proof. unfold extra. set_solver. Qed.

Lemma take_out_run view update w a : a ∈ view w → take_out view update a w = Done ((), update (view w ∖ {[a]}) w).
Proof. intros Ha. unfold take_out. by rewrite decide_True. Qed.

Section stages.
Context (w0 : world) (Y : ready_world w0) (p : addr) (x : ABTI_sched) (Hp : scheds (sp w0) !! p = Some x) (Hu : used x = ABTI_SCHED_NOT_USED) (ty : ABTI_xstream_type).

Lemma unused_now i n : (n ≤ 1)%nat → sched_now n x i = x.
Proof using Y Hp Hu.
  intros Hn. unfold sched_now. pose proof (f_unused _ _ (y_wf _ Y) p x Hp Hu) as Et. rewrite (proj2 (Nat.leb_gt _ _)), (proj2 (Nat.leb_gt _ _)) by lia.
  rewrite <- Hu, <- Et. by destruct x.
Qed.

Lemma not_there a : (brk (sp w0) ≤ a)%nat → a ∉ roots w0 ∪ locals w0 ∪ contexts w0.
Proof using Y. intros Ha Hin. apply (y_res _ Y) in Hin. lia. Qed.

(** A stage survives outcomes and allocations. *)
Lemma stage_quiet n i a b w s' : stage n w0 p x ty i a b w → quiet (sp w) s' → stage n w0 p x ty i a b (set_sp s' w).
Proof.
  intros [] [E1 E2 E3 E4 E5]. split; cbn; rewrite ?E1, ?E2, ?E3, ?E4; try done; try lia.
  intros H. destruct (s_pool0 H). split; [lia|done].
Qed.

Lemma fields_le n n' i b : (n' ≤ n)%nat → fields n p i b → fields n' p i b.
Proof. intros Hn (H1 & H2 & H3). split_and!; intros ?; [apply H1|apply H2|apply H3]; lia. Qed.

Lemma fields_all n n' i b : (4 ≤ n)%nat → fields n p i b → fields n' p i b.
Proof. intros Hn (H1 & H2 & H3). split_and!; intros ?; [apply H1|apply H2|apply H3]; lia. Qed.

Lemma body_run n i a b w : stage n w0 p x ty i a b w → body_at a w = Done (b, w).
Proof. intros []. unfold body_at. by rewrite s_bodies0, lookup_insert_eq. Qed.

Lemma sched_run n i a b w : stage n w0 p x ty i a b w → on_sp (sched_at p) w = Done (sched_now n x i, w).
Proof. intros []. unfold on_sp, zoom, sched_at. rewrite s_scheds0, lookup_insert_eq. by destruct w. Qed.

(** *** Giving back *)

Lemma down_main i a b w : stage 5 w0 p x ty i a b w →
  ∃ w', (b ← body_at a; p ← deref (p_main_sched b); x ← on_sp (sched_at p); t ← deref (p_ythread x);
         on_sp (ABTI_thread_free t);; on_sp (put_sched p (set_p_ythread None x))) w = Done ((), w') ∧ stage 4 w0 p x ty i a b w'.
Proof using Y Hp Hu.
  intros S. pose proof S as []. rewrite (C_bind_Done _ _ _ _ _ (body_run _ _ _ _ _ S)), (proj1 s_fields0) by lia. rewrite (C_bind_Done (deref (Some p)) _ w p w eq_refl).
  rewrite (C_bind_Done _ _ _ _ _ (sched_run _ _ _ _ _ S)). set (y := sched_now 5 x i). rewrite (C_bind_Done (deref (p_ythread y)) _ w (i_main i) w eq_refl).
  assert (i_main i ∈ ythreads (sp w)) as Hin by (rewrite s_ythreads0; apply extra_in). set (s1 := set_ythreads (ythreads (sp w) ∖ {[i_main i]}) (sp w)).
  rewrite (C_bind_Done _ _ _ _ _ (on_sp_run (ABTI_thread_free (i_main i)) w () s1 ltac:(unfold ABTI_thread_free; by rewrite decide_True))).
  eexists. split; [by apply on_sp_run|]. split; cbn; try done; try lia.
  - apply (fields_le 5); [lia|done].
  - by rewrite s_scheds0, insert_insert_eq.
  - rewrite s_ythreads0. apply extra_out. intros Hm%(f_ythread _ _ (y_wf _ Y)). specialize (s_main0 ltac:(lia)). lia.
  - intros _. apply s_pool0. lia.
Qed.

Lemma down_pool i a b w : stage 4 w0 p x ty i a b w →
  ∃ w', (b ← body_at a; q ← deref (p_root_pool b); on_sp (ABTI_pool_free q)) w = Done ((), w') ∧ stage 3 w0 p x ty i a b w'.
Proof using Y Hp Hu.
  intros S. pose proof S as []. rewrite (C_bind_Done _ _ _ _ _ (body_run _ _ _ _ _ S)), (proj2 (proj2 s_fields0)) by lia.
  rewrite (C_bind_Done (deref (Some (i_pool i))) _ w (i_pool i) w eq_refl). destruct (s_pool0 ltac:(lia)) as [Hq (_ & _ & Hr)]. cbn in s_pools0.
  assert (pools (sp w) !! i_pool i = Some (i_desc i)) as Eq by (by rewrite s_pools0, lookup_insert_eq).
  eexists. split; [apply on_sp_run; by apply (pool_free_run _ _ (i_desc i))|]. split; cbn; try done; try lia; [apply (fields_le 4); [lia|done]|].
  rewrite s_pools0, delete_insert_id; [done|]. apply (no_pool _ _ (y_wf _ Y)). lia.
Qed.

Lemma down_root i a b w : stage 3 w0 p x ty i a b w →
  ∃ w', (b ← body_at a; t ← deref (p_root_ythread b); ABTI_ythread_free_root t) w = Done ((), w') ∧ stage 2 w0 p x ty i a b w'.
Proof using Y Hp Hu.
  intros S. pose proof S as []. rewrite (C_bind_Done _ _ _ _ _ (body_run _ _ _ _ _ S)), (proj1 (proj2 s_fields0)) by lia.
  rewrite (C_bind_Done (deref (Some (i_root i))) _ w (i_root i) w eq_refl). cbn in s_roots0.
  eexists. split; [apply take_out_run; rewrite s_roots0; apply extra_in|]. split; cbn; try done; try lia; [apply (fields_le 3); [lia|done]|].
  rewrite s_roots0. apply extra_out. pose proof (not_there (i_root i) ltac:(apply s_root0; lia)). set_solver.
Qed.

Lemma down_sched i a b w : stage 2 w0 p x ty i a b w →
  ∃ w', (x ← on_sp (sched_at p); on_sp (put_sched p (set_used ABTI_SCHED_NOT_USED x));; ABTI_mem_finalize_local a) w = Done ((), w') ∧
    stage 1 w0 p x ty i a b w'.
Proof using Y Hp Hu.
  intros S. pose proof S as []. rewrite (C_bind_Done _ _ _ _ _ (sched_run _ _ _ _ _ S)). set (y := sched_now 2 x i). cbn in s_locals0.
  rewrite (C_bind_Done _ _ _ _ _ (on_sp_run (put_sched p (set_used ABTI_SCHED_NOT_USED y)) w () _ eq_refl)).
  eexists. split; [apply take_out_run; cbn; rewrite s_locals0; apply extra_in|]. split; cbn; try done; try lia; [apply (fields_le 2); [lia|done]| |].
  - rewrite s_locals0. apply extra_out. pose proof (not_there a ltac:(lia)). set_solver.
  - by rewrite s_scheds0, insert_insert_eq.
Qed.

Lemma down_rank i a b w : stage 1 w0 p x ty i a b w → ∃ w', (on_gl (xstream_return_rank a);; free_memory a) w = Done ((), w') ∧ same w0 w'.
Proof using Y Hp Hu.
  intros []. cbn in *. destruct (return_ok (gl w) a s_ok0) as (g1 & g' & E1 & _ & E2 & Hok & Ea); [rewrite s_abs0, lookup_insert_eq; eauto|].
  unfold free_memory. rewrite (C_bind_Done _ _ _ _ _ (on_gl_run _ _ _ _ E1)).
  rewrite (C_bind_Done _ _ _ _ _ (on_gl_run (free_xstream a) (set_gl g1 w) () g' E2)). eexists. split; [done|].
  assert (abs (gl w0) !! a = None ∧ bodies w0 !! a = None) as [N1 N2].
  { split; apply eq_None_not_Some; [intros H%(y_xstreams _ Y)|intros H%(y_bodies _ Y)]; lia. }
  split; cbn; try done.
  - split; try done. rewrite s_scheds0, unused_now by lia. by apply insert_id.
  - by rewrite Ea, s_abs0, delete_insert_id.
  - by rewrite s_bodies0, delete_insert_id.
Qed.

(** Undoing one stage leads to the label one stage lower. *)
Ltac undo_then down lower :=
  let w := fresh "w" in let S := fresh "S" in let w1 := fresh "w" in let E := fresh "E" in let w' := fresh "w'" in
  intros w S; destruct (down _ _ _ _ S) as (w1 & E & S1); destruct (lower w1 S1) as (w' & E' & Hs); exists w'; split; [|done]; rewrite <- E'; unfold failed;
  cbn [Nat.leb when]; rewrite ?(C_bind_Done (mret ()) _ w () w eq_refl), !(C_bind_Done (mret ()) _ w1 () w1 eq_refl); by rewrite (C_bind_Done _ _ _ _ _ E).

Lemma failed_run n i a b w : (1 ≤ n ≤ 5)%nat → stage n w0 p x ty i a b w → ∃ w', failed n a p w = Done ((), w') ∧ same w0 w'.
Proof using Y Hp Hu.
  intros Hn. revert w.
  assert (∀ w, stage 1 w0 p x ty i a b w → ∃ w', failed 1 a p w = Done ((), w') ∧ same w0 w') as H1.
  { intros w S. unfold failed. cbn [Nat.leb when]. rewrite !(C_bind_Done (mret ()) _ w () w eq_refl). by eapply down_rank. }
  assert (∀ w, stage 2 w0 p x ty i a b w → ∃ w', failed 2 a p w = Done ((), w') ∧ same w0 w') as H2 by undo_then down_sched H1.
  assert (∀ w, stage 3 w0 p x ty i a b w → ∃ w', failed 3 a p w = Done ((), w') ∧ same w0 w') as H3 by undo_then down_root H2.
  assert (∀ w, stage 4 w0 p x ty i a b w → ∃ w', failed 4 a p w = Done ((), w') ∧ same w0 w') as H4 by undo_then down_pool H3.
  destruct n as [|[|[|[|[|[|n]]]]]]; [lia|done..| |lia]. undo_then down_main H4.
Qed.

Lemma attempt_failed {A} (m : W (Z + A)) n (k : A → W (Z + addr)) i a b w w1 (e : Z) : (1 ≤ n ≤ 5)%nat → m w = Done (inl e, w1) → stage n w0 p x ty i a b w1 →
  ∃ w', attempt m n a p k w = Done (inl e, w') ∧ same w0 w'.
Proof using Y Hp Hu.
  intros Hn E S. destruct (failed_run n i a b w1 Hn S) as (w' & E' & Hs). exists w'. split; [|done]. unfold attempt.
  by rewrite (C_bind_Done _ _ _ _ _ E), (C_bind_Done _ _ _ _ _ E').
Qed.

Lemma attempt_done {A} (m : W (Z + A)) n (k : A → W (Z + addr)) a w w1 (v : A) : m w = Done (inr v, w1) → attempt m n a p k w = k v w1.
Proof. intros E. unfold attempt. by rewrite (C_bind_Done _ _ _ _ _ E). Qed.

(** *** Going on *)

Lemma outcome_of_run w : ∃ s', quiet (sp w) s' ∧ brk s' = brk (sp w) ∧
  (outcome_of w = Done (inr (), set_sp s' w) ∨ ∃ e, e ≠ ABT_SUCCESS ∧ outcome_of w = Done (inl e, set_sp s' w)).
Proof.
  destruct (outcome_run (sp w)) as (r & s' & E & Q & Eb). exists s'. split_and!; [done|done|]. unfold outcome_of. rewrite (C_bind_Done _ _ _ _ _ (on_sp_run _ _ _ _ E)).
  destruct (Z.eqb_spec r ABT_SUCCESS); [by left|right; by exists r].
Qed.

(** The result of the rest of a creation. *)
Definition result (last : nat) (k : Z) a (o : outcome ((Z + addr) * world)) : Prop :=
  (∃ e w', e ≠ ABT_SUCCESS ∧ o = Done (inl e, w') ∧ same w0 w') ∨ (∃ i b w', i_rank i = k ∧ o = Done (inr a, w') ∧ stage last w0 p x ty i a b w').

Lemma up_context i a b w : stage 5 w0 p x ty i a b w →
  result 6 (i_rank i) a (attempt (ABTD_xstream_context_create a) 5 a p (λ _, on_gl (bind_default a);; mret (inr a)) w).
Proof using Y Hp Hu.
  intros S. destruct (outcome_of_run w) as (s' & Q & Eb & [E|(e & He & E)]).
  - right. exists i, b. pose proof (stage_quiet _ _ _ _ _ _ S Q) as []. cbn in *.
    destruct (bind_ok (gl w) a (i_rank i) ty s_ok0) as (g' & Eb' & Hok' & Ea' & Hb'); [by rewrite s_abs0, lookup_insert_eq|].
    set (w1 := set_contexts ({[a]} ∪ contexts w) (set_sp s' w)). exists (set_gl g' w1). split; [done|]. split.
    + rewrite (attempt_done _ _ _ _ _ w1 ()); [|unfold ABTD_xstream_context_create; by rewrite (C_bind_Done _ _ _ _ _ E)].
      by rewrite (C_bind_Done _ _ _ _ _ (on_gl_run (bind_default a) w1 () g' Eb')).
    + split; cbn; try done; try lia; [by rewrite Ea'|by apply (fields_all 5); [lia|]|by rewrite s_contexts0|]. intros _. apply s_pool0. lia.
  - left. destruct (attempt_failed (ABTD_xstream_context_create a) 5 (λ _, on_gl (bind_default a);; mret (inr a)) i a b w (set_sp s' w) e ltac:(lia)) as (w' & E' & Hs).
    + unfold ABTD_xstream_context_create. by rewrite (C_bind_Done _ _ _ _ _ E).
    + by apply stage_quiet.
    + by exists e, w'.
Qed.

(** The second half of [xstream_create], after the root thread. *)
Definition rest (start : bool) a : W (Z + addr) :=
  attempt (b ← body_at a; p ← deref (p_main_sched b); ABTI_ythread_create_main_sched p) 4 a p (λ _,
  if start then
    c_assert (bool_decide (ty ≠ ABTI_XSTREAM_TYPE_PRIMARY));;
    attempt (ABTD_xstream_context_create a) 5 a p (λ _, on_gl (bind_default a);; mret (inr a))
  else mret (inr a)).

Lemma main_run i a b w : stage 4 w0 p x ty i a b w →
  (∃ e w', e ≠ ABT_SUCCESS ∧ (b ← body_at a; p ← deref (p_main_sched b); ABTI_ythread_create_main_sched p) w = Done (inl e, w') ∧ stage 4 w0 p x ty i a b w') ∨
  (∃ t w', (b ← body_at a; p ← deref (p_main_sched b); ABTI_ythread_create_main_sched p) w = Done (inr (), w') ∧
     stage 5 w0 p x ty (Ids (i_rank i) (i_root i) (i_pool i) (i_desc i) t) a b w').
Proof using Y Hp Hu.
  intros St. pose proof St as []. rewrite (C_bind_Done _ _ _ _ _ (body_run _ _ _ _ _ St)), (proj1 s_fields0) by lia. rewrite (C_bind_Done (deref (Some p)) _ w p w eq_refl).
  unfold ABTI_ythread_create_main_sched. destruct (outcome_run (sp w)) as (r & s1 & E & Q & Eb). pose proof (stage_quiet _ _ _ _ _ _ St Q) as S1. pose proof Q as [E1 E2 E3 E4 E5].
  destruct (Z.eqb_spec r ABT_SUCCESS) as [->|Hne].
  - right. set (s2 := set_ythreads ({[brk s1]} ∪ ythreads s1) (set_brk (S (brk s1)) s1)). set (y := sched_now 4 x i).
    set (s3 := set_scheds (<[p := set_p_ythread (Some (brk s1)) y]> (scheds s2)) s2).
    assert (ABTI_ythread_create_sched p (sp w) = Done (ABT_SUCCESS, s3)) as Er.
    { unfold ABTI_ythread_create_sched. rewrite (C_bind_Done _ _ _ _ _ E). cbn [Z.eqb negb ABT_SUCCESS]. rewrite (C_bind_Done fresh _ s1 (brk s1) (set_brk (S (brk s1)) s1) eq_refl).
      rewrite (C_bind_Done _ _ _ () s2 eq_refl). rewrite (C_bind_Done (sched_at p) _ s2 y s2); [done|]. unfold sched_at. cbn. by rewrite E2, s_scheds0, lookup_insert_eq. }
    exists (brk s1), (set_sp s3 w). split; [by rewrite (C_bind_Done _ _ _ _ _ (on_sp_run _ _ _ _ Er))|]. destruct S1. cbn in *. split; cbn; try done; try lia.
    + by apply (fields_all 4); [lia|].
    + by rewrite s_scheds1, insert_insert_eq.
    + by rewrite s_ythreads1.
    + intros _. destruct (s_pool0 ltac:(lia)). split; [lia|done].
  - left. exists r, (set_sp s1 w). split; [done|]. split; [|done]. rewrite (C_bind_Done (on_sp (ABTI_ythread_create_sched p)) _ w r (set_sp s1 w)).
    + by rewrite (proj2 (Z.eqb_neq _ _)).
    + apply on_sp_run. unfold ABTI_ythread_create_sched. rewrite (C_bind_Done _ _ _ _ _ E). by rewrite (proj2 (Z.eqb_neq _ _)).
Qed.

Lemma rest_run (start : bool) i a b w : (start = true → ty = ABTI_XSTREAM_TYPE_SECONDARY) → stage 4 w0 p x ty i a b w →
  result (if start then 6 else 5) (i_rank i) a (rest start a w).
Proof using Y Hp Hu.
  intros Hty S. unfold rest. destruct (main_run i a b w S) as [(e & w1 & He & E & S1)|(t & w1 & E & S1)].
  - left. match goal with |- context [attempt ?m 4 a p ?k w] => destruct (attempt_failed m 4 k i a b w w1 e ltac:(lia) E S1) as (w' & E' & Hs) end. by exists e, w'.
  - rewrite (attempt_done _ _ _ _ _ _ _ E). destruct start.
    + rewrite Hty by done. rewrite (C_bind_Done _ _ w1 () w1) by done. by apply up_context in S1.
    + right. eexists _, b, w1. split_and!; [|done|exact S1]. done.
Qed.

(** The root pool. *)
Definition with_pool_rest (start : bool) a : W (Z + addr) :=
  attempt (on_sp (ABTI_pool_create_basic ABT_POOL_FIFO ABT_POOL_ACCESS_MPSC false)) 3 a p (λ q,
  b ← body_at a; put_body a (Body (p_main_sched b) (p_root_ythread b) (Some q));; rest start a).

Lemma pool_bounded n i a b w : stage n w0 p x ty i a b w → (n ≤ 3)%nat → bounded (sp w).
Proof using Y.
  intros [] Hn q P. rewrite s_pools0, (proj2 (Nat.leb_gt _ _)) by lia. intros H%(wf_bounded _ _ (y_wf _ Y)). lia.
Qed.

Lemma with_pool_run (start : bool) i a b w : (start = true → ty = ABTI_XSTREAM_TYPE_SECONDARY) → stage 3 w0 p x ty i a b w →
  result (if start then 6 else 5) (i_rank i) a (with_pool_rest start a w).
Proof using Y Hp Hu.
  intros Hty St. pose proof St as []. unfold with_pool_rest.
  destruct (pool_create_basic_run ABT_POOL_FIFO ABT_POOL_ACCESS_MPSC false (sp w) (pool_bounded _ _ _ _ _ St ltac:(lia))) as [(e & s1 & He & Q & E)|(q & P & s1 & Hq & Hn & E)].
  - left. match goal with |- context [attempt ?m 3 a p ?k w] =>
      destruct (attempt_failed m 3 k i a b w (set_sp s1 w) e ltac:(lia) (on_sp_run _ _ _ _ E) (stage_quiet _ _ _ _ _ _ St Q)) as (w' & E' & Hs) end. by exists e, w'.
  - rewrite (attempt_done _ _ _ _ _ _ _ (on_sp_run _ _ _ _ E)). destruct Hq as (F1 & F2 & F3 & F4 & F5 & F6). set (w1 := set_sp s1 w).
    rewrite (C_bind_Done (body_at a) _ w1 b w1) by (unfold body_at; cbn; by rewrite s_bodies0, lookup_insert_eq).
    rewrite (C_bind_Done (put_body a (Body (p_main_sched b) (p_root_ythread b) (Some q))) _ w1 () _ eq_refl).
    refine (rest_run start (Ids (i_rank i) (i_root i) q P 0%nat) a (Body (p_main_sched b) (p_root_ythread b) (Some q)) _ Hty _).
    destruct s_fields0 as (G1 & G2 & _). split; cbn in *; rewrite ?F1, ?F2, ?F3, ?F4; try done; try lia.
    + by rewrite s_bodies0, insert_insert_eq.
    + split_and!; cbn; [intros _; apply G1; lia|intros _; apply G2; lia|done].
    + by rewrite s_pools0.
    + intros _. split; [lia|done].
Qed.

(** The root thread. *)
Lemma root_run (start : bool) i a b w : (start = true → ty = ABTI_XSTREAM_TYPE_SECONDARY) → stage 2 w0 p x ty i a b w →
  result (if start then 6 else 5) (i_rank i) a
    (attempt ABTI_ythread_create_root 2 a p (λ t, b ← body_at a; put_body a (Body (p_main_sched b) (Some t) (p_root_pool b));; with_pool_rest start a) w).
Proof using Y Hp Hu.
  intros Hty St. pose proof St as []. destruct (outcome_of_run w) as (s1 & Q & Eb & [E|(e & He & E)]).
  - pose proof Q as [F1 F2 F3 F4 F5]. set (w1 := set_roots ({[brk s1]} ∪ roots w) (set_sp (set_brk (S (brk s1)) s1) w)).
    rewrite (attempt_done ABTI_ythread_create_root 2 _ a w w1 (brk s1)) by (unfold ABTI_ythread_create_root; by rewrite (C_bind_Done _ _ _ _ _ E)).
    rewrite (C_bind_Done (body_at a) _ w1 b w1) by (unfold body_at; cbn; by rewrite s_bodies0, lookup_insert_eq).
    rewrite (C_bind_Done (put_body a (Body (p_main_sched b) (Some (brk s1)) (p_root_pool b))) _ w1 () _ eq_refl).
    refine (with_pool_run start (Ids (i_rank i) (brk s1) (i_pool i) (i_desc i) 0%nat) a (Body (p_main_sched b) (Some (brk s1)) (p_root_pool b)) _ Hty _).
    destruct s_fields0 as (G1 & _). split; cbn in *; rewrite ?F1, ?F2, ?F3, ?F4; try done; try lia.
    + by rewrite s_bodies0, insert_insert_eq.
    + split_and!; cbn; [intros _; apply G1; lia|done|lia].
    + by rewrite s_roots0.
  - left. match goal with |- context [attempt ?m 2 a p ?k w] => destruct (attempt_failed m 2 k i a b w (set_sp s1 w) e ltac:(lia)) as (w' & E' & Hs) end.
    + unfold ABTI_ythread_create_root. by rewrite (C_bind_Done _ _ _ _ _ E).
    + by apply stage_quiet.
    + by exists e, w'.
Qed.

(** Local memory and the main scheduler. *)
Lemma local_run (start : bool) i a w : (start = true → ty = ABTI_XSTREAM_TYPE_SECONDARY) → stage 1 w0 p x ty i a (Body None None None) w →
  result (if start then 6 else 5) (i_rank i) a
    (attempt (ABTI_mem_init_local a) 1 a p (λ _, xstream_init_main_sched a p;;
     attempt ABTI_ythread_create_root 2 a p (λ t, b ← body_at a; put_body a (Body (p_main_sched b) (Some t) (p_root_pool b));; with_pool_rest start a)) w).
Proof using Y Hp Hu.
  intros Hty St. pose proof St as []. destruct (outcome_of_run w) as (s1 & Q & Eb & [E|(e & He & E)]).
  - pose proof Q as [F1 F2 F3 F4 F5]. set (w1 := set_locals ({[a]} ∪ locals w) (set_sp s1 w)).
    rewrite (attempt_done (ABTI_mem_init_local a) 1 _ a w w1 ()) by (unfold ABTI_mem_init_local; by rewrite (C_bind_Done _ _ _ _ _ E)).
    set (y := sched_now 1 x i). set (s2 := set_scheds (<[p := set_used ABTI_SCHED_MAIN y]> (scheds s1)) s1).
    set (w2 := set_bodies (<[a := Body (Some p) None None]> (bodies w)) (set_sp s2 w1)).
    rewrite (C_bind_Done (xstream_init_main_sched a p) _ w1 () w2).
    + refine (root_run start i a (Body (Some p) None None) w2 Hty _). split; cbn in *; rewrite ?F1, ?F2, ?F3, ?F4; try done; try lia.
      * by rewrite s_bodies0, insert_insert_eq.
      * split_and!; cbn; [done|lia|lia].
      * by rewrite s_locals0.
      * by rewrite s_scheds0, insert_insert_eq.
    + unfold xstream_init_main_sched. rewrite (C_bind_Done (body_at a) _ w1 (Body None None None) w1) by (unfold body_at; cbn; by rewrite s_bodies0, lookup_insert_eq).
      rewrite (C_bind_Done _ _ w1 () w1) by done.
      rewrite (C_bind_Done (on_sp (sched_at p)) _ w1 y w1) by (unfold on_sp, zoom, sched_at; cbn; by rewrite F2, s_scheds0, lookup_insert_eq). done.
  - left. match goal with |- context [attempt ?m 1 a p ?k w] => destruct (attempt_failed m 1 k i a (Body None None None) w (set_sp s1 w) e ltac:(lia)) as (w' & E' & Hs) end.
    + unfold ABTI_mem_init_local. by rewrite (C_bind_Done _ _ _ _ _ E).
    + by apply stage_quiet.
    + by exists e, w'.
Qed.

(** The whole creation. *)
Lemma create_run junk r (start : bool) : (start = true → ty = ABTI_XSTREAM_TYPE_SECONDARY) → Z.of_nat (size (abs (gl w0))) < 2 ^ 31 - 2 → -1 ≤ r < 2 ^ 31 →
  (∃ e w', e ≠ ABT_SUCCESS ∧ xstream_create junk p ty r start w0 = Done (inl e, w') ∧ same w0 w') ∨
  (r = 2 ^ 31 - 1 ∧ xstream_create junk p ty r start w0 = Fault UB) ∨
  (r ≠ 2 ^ 31 - 1 ∧ ∃ i a b w', xstream_create junk p ty r start w0 = Done (inr a, w') ∧ stage (if start then 6 else 5) w0 p x ty i a b w' ∧
     if bool_decide (r = -1) then least_unused (abs (gl w0)) (i_rank i) else i_rank i = r ∧ ¬ taken (abs (gl w0)) r).
Proof using Y Hp Hu.
  intros Hty Hsz Hr. unfold xstream_create. destruct (outcome_of_run w0) as (s1 & Q & Eb & [E|(e & He & E)]); rewrite (C_bind_Done _ _ _ _ _ E).
  2: { left. exists e, (set_sp s1 w0). split_and!; [done|done|]. split; try done. apply Y. }
  pose proof Q as [F1 F2 F3 F4 F5]. set (a := brk s1). set (w1 := set_sp (set_brk (S a) s1) w0).
  rewrite (C_bind_Done (on_sp SchedPool.fresh) _ (set_sp s1 w0) a w1 eq_refl).
  assert (abs (gl w0) !! a = None) as Hfr by (apply eq_None_not_Some; intros H%(y_xstreams _ Y); unfold a in H; lia).
  destruct (decide (r = 2 ^ 31 - 1)) as [->|Hmax].
  { right. left. split; [done|]. unfold mbind at 1, C_bind at 1, on_gl at 1, zoom at 1. change (gl w1) with (gl w0). by rewrite (create_overflows (gl w0) a junk ty (y_ok _ Y) Hfr). }
  destruct (create_ranked_ok (gl w0) a junk ty r (y_ok _ Y) Hfr Hsz ltac:(lia)) as [(Hne & Ht & E1)|(k & g1 & E1 & Hok & Ea & Hk)].
  - left. exists ABT_ERR_INV_XSTREAM_RANK. rewrite (C_bind_Done _ _ _ _ _ (on_gl_run _ w1 _ _ E1)). eexists. split; [done|]. split; [done|].
    split; cbn; try done; [|apply Y]. split; cbn; try done. unfold a. lia.
  - rewrite (C_bind_Done _ _ _ _ _ (on_gl_run _ w1 _ _ E1)). cbn [Z.eqb negb ABT_SUCCESS].
    rewrite (C_bind_Done (put_body a (Body None None None)) _ (set_gl g1 w1) () _ eq_refl).
    destruct (local_run start (Ids k 0 0 (MkPool 0 false false 0 0 0 (PoolDef false false) false) 0)%nat a (set_bodies (<[a := Body None None None]> (bodies w0)) (set_gl g1 w1)) Hty)
      as [(e & w' & He & E2 & Hs)|(i & b & w' & Ei & E2 & St)].
    + split; cbn; try done; try lia.
      * split_and!; lia.
      * rewrite F2, unused_now by lia. by rewrite insert_id.
    + left. by exists e, w'.
    + right. right. split; [done|]. exists i, a, b, w'. split_and!; [exact E2|done|]. cbn in Ei. subst k. case_bool_decide; [done|]. destruct Hk as [-> Hk]. done.
Qed.
End stages.

(** ** Worlds stay ready *)

Lemma same_ready w w' : ready_world w → same w w' → ready_world w'.
Proof.
  intros [] []. pose proof e_sp0 as [_ Es _ _ Eb]. split; try done.
  - by eapply wf_quiet.
  - intros a. rewrite Es. apply y_small0.
  - intros a. rewrite e_abs0. intros H%y_xstreams0. lia.
  - intros a. rewrite e_bodies0. intros H%y_bodies0. lia.
  - intros a. rewrite e_roots0, e_locals0, e_contexts0. intros H%y_res0. lia.
Qed.

Lemma stage_wf w0 p x ty i a b w : ready_world w0 → scheds (sp w0) !! p = Some x → used x = ABTI_SCHED_NOT_USED → stage 6 w0 p x ty i a b w → wf (sp w).
Proof.
  intros Y Hp Hu []. cbn in *. destruct (s_pool0 ltac:(lia)) as [Hq Hn]. destruct (s_main0 ltac:(lia)) as [Hm Hqm]. pose proof (f_unused _ _ (y_wf _ Y) p x Hp Hu) as Et.
  set (s0 := set_brk (i_pool i) (sp w0)). assert (wf s0) as W0 by (apply (wf_quiet ∅ (sp w0)); [split; try done; cbn; lia|apply Y]).
  set (s1 := set_pools (<[i_pool i := i_desc i]> (pools s0)) (set_brk (S (i_pool i)) s0)).
  assert (wf s1) as W1 by (apply (with_pool_wf ∅ s0 (i_pool i) (i_desc i) false s1 W0); [by split_and!|done]).
  set (x' := sched_now 6 x i). set (Yt := {[i_main i]} ∪ ythreads (sp w0)).
  assert (wf (set_brk (brk (sp w)) (set_ythreads Yt (set_scheds (<[p := x']> (scheds s1)) s1)))) as W2.
  { apply (sched_changed_wf ∅ s1 p x x' Yt (brk (sp w)) W1 Hp); [done|cbn; lia|done| |].
    - intros t. cbn. rewrite Et. unfold Yt. rewrite elem_of_union, elem_of_singleton. split; [intros [->|?]; [by right|by left]|intros [[? _]|[= ->]]; [by right|by left]].
    - intros t [= <-]. right. cbn. lia. }
  revert W2. apply wf_quiet. split; done.
Qed.

Lemma stage_ready w0 p x ty i a b w : ready_world w0 → scheds (sp w0) !! p = Some x → used x = ABTI_SCHED_NOT_USED → stage 6 w0 p x ty i a b w → ready_world w.
Proof.
  intros Y Hp Hu St. pose proof (stage_wf _ _ _ _ _ _ _ _ Y Hp Hu St) as Wf. destruct St. pose proof Y as []. cbn in *. split; try done.
  - intros c. rewrite s_scheds0, (refs_update _ p x); [apply y_small0|done|done].
  - intros c. rewrite s_abs0, lookup_insert. case_decide; [subst; lia|]. intros Hc%y_xstreams0. lia.
  - intros c. rewrite s_bodies0, lookup_insert. case_decide; [subst; lia|]. intros Hc%y_bodies0. lia.
  - intros c. rewrite s_roots0, s_locals0, s_contexts0. specialize (s_root0 ltac:(lia)). unfold extra. rewrite !elem_of_union, !elem_of_singleton.
    assert (c ∈ roots w0 ∨ c ∈ locals w0 ∨ c ∈ contexts w0 → (c < brk (sp w))%nat) as H by (intros H; specialize (y_res0 c); rewrite !elem_of_union in y_res0; apply (Nat.lt_le_trans _ (brk (sp w0))); [tauto|done]).
    intros [[[->|?]|[->|?]]|[->|?]]; try lia; tauto.
Qed.

(** A stream that has everything it needs. *)
Definition complete_stream w a : Prop :=
  ∃ p x t q, bodies w !! a = Some (Body (Some p) (Some t) (Some q)) ∧ scheds (sp w) !! p = Some x ∧ used x = ABTI_SCHED_MAIN ∧ is_Some (p_ythread x) ∧
    t ∈ roots w ∧ is_Some (pools (sp w) !! q) ∧ a ∈ locals w ∧ a ∈ contexts w.

Lemma stage_complete w0 p x ty i a b w : stage 6 w0 p x ty i a b w → complete_stream w a.
Proof.
  intros []. destruct s_fields0 as (G1 & G2 & G3). specialize (G1 ltac:(lia)). specialize (G2 ltac:(lia)). specialize (G3 ltac:(lia)). cbn in s_pools0.
  exists p, (sched_now 6 x i), (i_root i), (i_pool i). rewrite s_bodies0, s_scheds0, s_roots0, s_pools0, s_locals0, s_contexts0, !lookup_insert_eq.
  split_and!; try done; try apply extra_in; [|by eexists..]. destruct b. cbn in *. by subst.
Qed.

(** ** The public functions *)

Lemma create_public_run w junk sched r : ready_world w → (∀ b, sched = Some b → is_Some (scheds (sp w) !! b)) →
  Z.of_nat (size (abs (gl w))) < 2 ^ 31 - 2 → -1 ≤ r < 2 ^ 31 → (∀ a, refs (scheds (sp w)) a + 1 < 2 ^ 31) →
  (∃ e w', e ≠ ABT_SUCCESS ∧ create_public junk sched r w = Done ((e, None), w') ∧ same w w') ∨
  (r = 2 ^ 31 - 1 ∧ create_public junk sched r w = Fault UB) ∨
  (r ≠ 2 ^ 31 - 1 ∧ ∃ w1 p x i a b w', create_public junk sched r w = Done ((ABT_SUCCESS, Some a), w') ∧ ready_world w1 ∧ scheds (sp w1) !! p = Some x ∧ used x = ABTI_SCHED_NOT_USED ∧
     stage 6 w1 p x ABTI_XSTREAM_TYPE_SECONDARY i a b w' ∧ abs (gl w1) = abs (gl w) ∧
     (sched = None → (∃ s1, w1 = set_sp s1 w) ∧ (∃ d, made (sp w) [None] d p x (sp w1)) ∧ s_automatic x = true) ∧
     if bool_decide (r = -1) then least_unused (abs (gl w)) (i_rank i) else i_rank i = r ∧ ¬ taken (abs (gl w)) r).
Proof.
  intros Y Hs Hsz Hr Hroom. assert (set_sp (sp w) w = w) as Ew by (by destruct w). unfold create_public. destruct sched as [p|].
  - destruct (Hs p eq_refl) as [x Hx]. match goal with |- context [(?m ≫= ?k) w] => rewrite (C_bind_Done m k w (if bool_decide (used x = ABTI_SCHED_NOT_USED) then inr p else inl ABT_ERR_INV_SCHED) w) end.
    2: { rewrite (C_bind_Done (on_sp (sched_at p)) _ w x w); [done|]. unfold on_sp, zoom, sched_at. by rewrite Hx, Ew. }
    case_bool_decide as Hu; [|left; exists ABT_ERR_INV_SCHED, w; split_and!; [done|done|]; split; try done; apply Y].
    destruct (create_run w Y p x Hx Hu ABTI_XSTREAM_TYPE_SECONDARY junk r true ltac:(done) Hsz Hr) as [(e & w' & He & E & Hsame)|[[Hmax E]|(Hmax & i & a & b & w' & E & St & Hk)]];
      [rewrite (C_bind_Done _ _ _ _ _ E)|right; left; split; [done|]; unfold mbind, C_bind; by rewrite E|rewrite (C_bind_Done _ _ _ _ _ E)].
    + left. by exists e, w'.
    + right. right. split; [done|]. exists w, p, x, i, a, b, w'. by split_and!.
  - assert (given_ok (given_of ABT_SCHED_DEFAULT None) (sp w)) as Hg.
    { split; [intros a H; by apply list_elem_of_singleton in H|]. intros a. specialize (Hroom a). change (cnt a (given_of ABT_SCHED_DEFAULT None)) with 0. lia. }
    destruct (sched_create_basic_run ∅ (sp w) ABT_SCHED_DEFAULT None None (y_wf _ Y) Hg) as [(e & s1 & He & Q & E)|(d & p & x & s1 & Mk & Hau & E)];
      rewrite (C_bind_Done _ _ _ _ _ (on_sp_run _ _ _ _ E)).
    { left. exists e, (set_sp s1 w). split_and!; [done|done|]. split; try done. apply Y. }
    set (w1 := set_sp s1 w). change (given_of ABT_SCHED_DEFAULT None) with [@None addr] in Mk, Hg.
    assert (ready_world w1) as Y1.
    { destruct Y. split; cbn; try done; [by eapply made_wf|by eapply made_small| | |]; intros a H; destruct Mk; [apply y_xstreams0 in H|apply y_bodies0 in H|apply y_res0 in H]; lia. }
    assert (scheds (sp w1) !! p = Some x) as Hx by (cbn; rewrite (m_scheds _ _ _ _ _ _ Mk); apply lookup_insert_eq).
    destruct (create_run w1 Y1 p x Hx (m_used _ _ _ _ _ _ Mk) ABTI_XSTREAM_TYPE_SECONDARY junk r true ltac:(done) Hsz Hr) as [(e & w' & He & E' & Hsame)|[[Hmax E']|(Hmax & i & a & b & w' & E' & St & Hk)]];
      [rewrite (C_bind_Done _ _ _ _ _ E')|right; left; split; [done|]; unfold mbind, C_bind; by rewrite E'|rewrite (C_bind_Done _ _ _ _ _ E')].
    + left. destruct (made_freed (sp w) [None] d p x (sp w') (y_wf _ Y) (made_quiet _ _ _ _ _ _ _ Mk (e_sp _ _ Hsame)) Hg) as (s2 & E2 & Q2).
      { intros a P H. by apply list_elem_of_singleton in H. }
      exists e, (set_sp s2 w'). split_and!; [done|by rewrite (C_bind_Done _ _ _ _ _ (on_sp_run _ _ _ _ E2))|]. destruct Hsame. by split.
    + right. right. split; [done|]. exists w1, p, x, i, a, b, w'. split_and!; try done; [by apply Mk|]. intros _. split_and!; [by exists s1|by exists d|done].
Qed.

(** The scheduler that was made for a stream and its root pool are gone. *)
Lemma gone_quiet w d p x i a b w' s1 s3 : ready_world w → made (sp w) [None] d p x s1 → ready_world (set_sp s1 w) → given_ok [None] (sp w) →
  stage 6 (set_sp s1 w) p x ABTI_XSTREAM_TYPE_SECONDARY i a b w' → unmade (sp w') p (sched_now 6 x i) s3 →
  quiet (sp w) (set_pools (delete (i_pool i) (pools s3)) s3).
Proof.
  intros Y Mk Y1 Hg [] [Us Ub Uy Up Ubrk]. cbn in *. specialize (s_main0 ltac:(lia)). destruct (s_pool0 ltac:(lia)) as [Hq _]. pose proof (y_wf _ Y) as W0. split; cbn.
  - apply map_eq. intros c. destruct (decide (c = i_pool i)) as [->|Hne].
    + rewrite lookup_delete_eq. symmetry. apply (no_pool _ _ W0). destruct Mk. lia.
    + rewrite lookup_delete_ne, Up, s_pools0, lookup_insert_ne by done. apply (made_released _ _ _ _ _ _ W0 Mk Hg). intros c' P H. by apply list_elem_of_singleton in H.
  - rewrite Us, s_scheds0, delete_insert_eq, (m_scheds _ _ _ _ _ _ Mk). apply delete_insert_id, (no_sched _ _ W0). destruct Mk. lia.
  - rewrite Ub, s_blocks0, (m_blocks _ _ _ _ _ _ Mk). assert ((p ∉ blocks (sp w)) ∧ sched_pools x ∉ blocks (sp w)) as [? ?]; [|set_solver].
    destruct Mk. split; intros H%(wf_blocks _ _ W0); lia.
  - rewrite Uy, s_ythreads0, <- (m_ythreads _ _ _ _ _ _ Mk). apply extra_out. intros H%(f_ythread _ _ (y_wf _ Y1)). cbn in H. lia.
  - destruct Mk. lia.
Qed.

(** Freeing a stream whose scheduler was made for it. *)
Lemma free_run w d p x i a b w' s1 : ready_world w → made (sp w) [None] d p x s1 → s_automatic x = true → ready_world (set_sp s1 w) →
  given_ok [None] (sp w) → stage 6 (set_sp s1 w) p x ABTI_XSTREAM_TYPE_SECONDARY i a b w' →
  ∃ w2, ABTI_xstream_free a false w' = Done ((), w2) ∧ same w w2.
Proof.
  intros Y Mk Hau Y1 Hg St. pose proof (m_used _ _ _ _ _ _ Mk) as Hu. assert (scheds (sp (set_sp s1 w)) !! p = Some x) as Hp by (cbn; rewrite (m_scheds _ _ _ _ _ _ Mk); apply lookup_insert_eq).
  pose proof (stage_wf _ _ _ _ _ _ _ _ Y1 Hp Hu St) as Wf. pose proof (y_small _ (stage_ready _ _ _ _ _ _ _ _ Y1 Hp Hu St)) as Hsm. pose proof St as [].
  destruct s_fields0 as (G1 & G2 & G3). specialize (G1 ltac:(lia)). specialize (G2 ltac:(lia)). specialize (G3 ltac:(lia)). destruct (s_pool0 ltac:(lia)) as [Hq (_ & _ & Hqr)].
  specialize (s_root0 ltac:(lia)). specialize (s_main0 ltac:(lia)). cbn in *.
  destruct (return_ok (gl w') a s_ok0) as (g1 & g2 & E1 & Eab & E2 & Hok & Ea); [rewrite s_abs0, lookup_insert_eq; eauto|].
  unfold ABTI_xstream_free. rewrite (C_bind_Done _ _ _ _ _ (take_out_run locals set_locals w' a ltac:(rewrite s_locals0; apply extra_in))). set (w1 := set_locals _ w').
  rewrite (C_bind_Done _ _ _ _ _ (on_gl_run _ w1 _ _ E1)). set (w2 := set_gl g1 w1).
  rewrite (C_bind_Done (body_at a) _ w2 b w2) by (unfold body_at; cbn; by rewrite s_bodies0, lookup_insert_eq). rewrite G1, G2, G3.
  set (y := sched_now 6 x i). assert (scheds (sp w') !! p = Some y) as Hy by (by rewrite s_scheds0, lookup_insert_eq).
  destruct (sched_free_run ∅ (sp w') p y Wf Hsm Hy) as (s3 & E3 & U).
  assert (ABTI_sched_discard_and_free p false (sp w2) = Done ((), s3)) as E4.
  { unfold ABTI_sched_discard_and_free. rewrite (C_bind_Done (sched_at p) _ (sp w2) y (sp w2)) by (unfold sched_at; cbn; by rewrite Hy).
    rewrite (C_bind_Done (put_sched p (set_used ABTI_SCHED_NOT_USED y)) _ (sp w2) () _ eq_refl). cbn [s_automatic y sched_now]. rewrite Hau. done. }
  rewrite (C_bind_Done _ _ _ _ _ (on_sp_run _ w2 _ _ E4)). set (w3 := set_sp s3 w2). rewrite (C_bind_Done (deref (Some (i_root i))) _ w3 (i_root i) w3 eq_refl).
  rewrite (C_bind_Done _ _ _ _ _ (take_out_run roots set_roots w3 (i_root i) ltac:(cbn; rewrite s_roots0; apply extra_in))). set (w4 := set_roots _ w3).
  rewrite (C_bind_Done (deref (Some (i_pool i))) _ w4 (i_pool i) w4 eq_refl). pose proof (u_pools _ _ _ _ U) as Up. cbn in Up.
  assert (cnt (i_pool i) (pool_list x) = 0) as Hc.
  { pose proof (cnt_nonneg (i_pool i) (pool_list x)). destruct (decide (0 < cnt (i_pool i) (pool_list x))) as [Hin%cnt_pos|]; [|lia].
    destruct (f_ref _ _ (y_wf _ Y1) p x _ Hp Hin) as [P HP%(wf_bounded _ _ (y_wf _ Y1))]. cbn in HP. lia. }
  assert (pools (sp w4) !! i_pool i = Some (i_desc i)) as Hpq.
  { cbn. rewrite Up, s_pools0, lookup_insert_eq, Hc. cbn. unfold released. by rewrite decide_False, add_num_0 by lia. }
  rewrite (C_bind_Done _ _ _ _ _ (on_sp_run _ w4 _ _ (pool_free_run _ _ _ Hpq Hqr))). set (w5 := set_sp _ w4).
  assert (is_Some (abs g1 !! a)) as [[k ty] Hk] by (rewrite Eab, s_abs0, lookup_insert_eq; eauto).
  assert (ty = ABTI_XSTREAM_TYPE_SECONDARY) as -> by (rewrite Eab, s_abs0, lookup_insert_eq in Hk; by injection Hk as _ <-).
  unfold abs in Hk. rewrite lookup_fmap in Hk. apply fmap_Some in Hk as (z & Hz & Ez). injection Ez as _ Ez.
  rewrite (C_bind_Done (on_gl (load type a)) _ w5 ABTI_XSTREAM_TYPE_SECONDARY w5) by (unfold on_gl, zoom, load; cbn; by rewrite Hz, Ez).
  cbn [when]. rewrite bool_decide_eq_true_2 by done. cbn [when].
  rewrite (C_bind_Done _ _ _ _ _ (take_out_run contexts set_contexts w5 a ltac:(cbn; rewrite s_contexts0; apply extra_in))). set (w6 := set_contexts _ w5).
  unfold free_memory. rewrite (C_bind_Done _ _ _ _ _ (on_gl_run (free_xstream a) w6 () g2 E2)). eexists. split; [done|].
  pose proof (not_there _ Y1 a ltac:(cbn; lia)) as Na. pose proof (not_there _ Y1 (i_root i) ltac:(cbn; lia)) as Nr. cbn in Na, Nr.
  split; cbn.
  - by eapply gone_quiet.
  - rewrite Ea, s_abs0. apply delete_insert_id, eq_None_not_Some. intros H%(y_xstreams _ Y1). cbn in H. lia.
  - done.
  - rewrite s_bodies0. apply delete_insert_id, eq_None_not_Some. intros H%(y_bodies _ Y1). cbn in H. lia.
  - rewrite s_roots0. apply extra_out. set_solver.
  - rewrite s_locals0. apply extra_out. set_solver.
  - rewrite s_contexts0. apply extra_out. set_solver.
Qed.

(** ** What creating and freeing a stream promises *)

(** C33: Creating a stream with any [int] as its rank, with a scheduler or the default one, in a runtime with
    fewer than 2^31 - 2 streams: whichever of its allocations fails, it returns an error (the
    rank is negative or taken, the scheduler is in use, an allocation failed) and everything
    is as before: ranks, schedulers, pools, threads, memory; or it returns a stream that has
    the rank, its main scheduler with a thread, its root thread, root pool, local memory and
    context, bound to the CPU set of its rank when affinities are in use.  The one exception is the rank
    [INT_MAX]: when no allocation before the rank is taken fails, the creation is undefined. *)
Theorem xstream_create_all_or_nothing w junk sched r :
  ready_world w → (∀ b, sched = Some b → is_Some (scheds (sp w) !! b)) → Z.of_nat (size (abs (gl w))) < 2 ^ 31 - 2 → - 2 ^ 31 ≤ r < 2 ^ 31 →
  (∀ a, refs (scheds (sp w)) a + 1 < 2 ^ 31) →
  (∃ e o w', ABT_xstream_create_with_rank junk sched r w = Done ((e, o), w') ∧ ready_world w' ∧
    match o with
    | None => e ≠ ABT_SUCCESS ∧ same w w'
    | Some a => e = ABT_SUCCESS ∧ 0 ≤ r < 2 ^ 31 - 1 ∧ ¬ taken (abs (gl w)) r ∧ abs (gl w') = <[a := (r, ABTI_XSTREAM_TYPE_SECONDARY)]> (abs (gl w)) ∧
        complete_stream w' a ∧ (set_affinity = true → bound (gl w') a = Some (r mod num_cpusets))
    end) ∨
  (r = 2 ^ 31 - 1 ∧ ABT_xstream_create_with_rank junk sched r w = Fault UB).
Proof.
  intros Y Hs Hsz Hr Hroom. unfold ABT_xstream_create_with_rank. destruct (Z.leb_spec 0 r) as [H0|H0]; cbn [negb].
  2: { left. exists ABT_ERR_INV_XSTREAM_RANK, None, w. split_and!; [done|done|done|]. split; try done. apply Y. }
  destruct (create_public_run w junk sched r Y Hs Hsz ltac:(lia) Hroom) as [(e & w' & He & E & Hsame)|[[Hm E]|(Hm & w1 & p & x & i & a & b & w' & E & Y1 & Hx & Hu & St & Eabs & _ & Hk)]].
  - left. exists e, None, w'. split_and!; [done|by eapply same_ready|done|done].
  - by right.
  - left. exists ABT_SUCCESS, (Some a), w'. rewrite bool_decide_eq_false_2 in Hk by lia. destruct Hk as [Hi Ht]. split_and!; try done; try lia.
    + by eapply stage_ready.
    + by rewrite (s_abs _ _ _ _ _ _ _ _ _ St), Hi, Eabs.
    + by eapply stage_complete.
    + rewrite <- Hi. by apply (s_bound _ _ _ _ _ _ _ _ _ St).
Qed.

(** C34: A stream that [ABT_xstream_create] has created with the default scheduler can be freed, and this gives
    everything back: its rank, its scheduler with pool and thread, its root thread and pool, its
    memory and context. *)
Theorem xstream_create_free w junk a w1 :
  ready_world w → Z.of_nat (size (abs (gl w))) < 2 ^ 31 - 2 → (∀ a, refs (scheds (sp w)) a + 1 < 2 ^ 31) →
  ABT_xstream_create junk None w = Done ((ABT_SUCCESS, Some a), w1) →
  ∃ w2, ABTI_xstream_free a false w1 = Done ((), w2) ∧ same w w2.
Proof.
  intros Y Hsz Hroom E. unfold ABT_xstream_create in E.
  destruct (create_public_run w junk None (-1) Y ltac:(done) Hsz ltac:(lia) Hroom) as [(e & w' & He & E' & _)|[[? _]|(_ & w0 & p & x & i & a' & b & w' & E' & Y1 & Hx & Hu & St & _ & Hd & _)]];
    [by rewrite E in E'|done|rewrite E in E']. injection E' as <- <-. destruct (Hd eq_refl) as ([s1 ->] & (d & Mk) & Hau). eapply free_run; try done. split; [intros c H; by apply list_elem_of_singleton in H|].
  intros c. specialize (Hroom c). change (cnt c [None]) with 0. lia.
Qed.
End runtime.

(** ** Runs *)

#[local] Instance four_cpusets : AffinityConf := {| set_affinity := true; num_cpusets := 4; some_cpuset := λ _, conj eq_refl eq_refl |}.

(** Only the primary stream; [outs] are the outcomes of the calls that may fail. *)
Definition g_demo : glob := match Xstream.start 0 (7, ABTI_XSTREAM_TYPE_SECONDARY) 1 with Done (_, g) => g | Fault _ => Glob ∅ None 0 0 false end.
Definition w_demo (outs : list Z) : world := World (SchedPool.start outs) g_demo ∅ ∅ ∅ ∅.

Lemma demo_primary : abs g_demo = {[0%nat := (0, ABTI_XSTREAM_TYPE_PRIMARY)]}.
Proof. vm_compute. reflexivity. Qed.

Lemma demo_ready outs : ready_world (w_demo outs).
Proof.
  destruct (reachable_wf _ (SchedPool.reach_start outs)) as [Hw Hs]. split; cbn; try done.
  - destruct (start_ok 0 (7, ABTI_XSTREAM_TYPE_SECONDARY) 1 ltac:(lia)) as (g & E & Hi). unfold g_demo. rewrite E. apply Hi.
  - intros a. rewrite demo_primary, lookup_singleton_is_Some. lia.
  - intros a [b Hb]. by rewrite lookup_empty in Hb.
Qed.

Lemma demo_size outs : Z.of_nat (size (abs (gl (w_demo outs)))) < 2 ^ 31 - 2.
Proof. cbn [gl w_demo]. rewrite demo_primary, map_size_singleton. lia. Qed.

Lemma demo_refs outs a : refs (scheds (sp (w_demo outs))) a + 1 < 2 ^ 31.
Proof. change (scheds (sp (w_demo outs))) with (∅ : gmap addr ABTI_sched). unfold refs. rewrite map_fold_empty. lia. Qed.

(** The last step fails: the operating system gives no thread. *)
Definition no_thread : list Z := replicate 11 0 ++ [7].

Lemma no_thread_fails : ∃ w', ABT_xstream_create_with_rank (9, ABTI_XSTREAM_TYPE_PRIMARY) None 3 (w_demo no_thread) = Done ((7, None), w').
Proof. vm_compute. eexists. reflexivity. Qed.

Lemma outcome_same (m : outcome ((Z * option addr) * world)) w w1 (e : Z) (P : world → addr → Z → Prop) (Q : Prop) : m = Done ((e, None), w1) →
  (∃ e' o w', m = Done ((e', o), w') ∧ ready_world w' ∧ match o with None => e' ≠ ABT_SUCCESS ∧ same w w' | Some a => P w' a e' end) ∨ (Q ∧ m = Fault UB) → same w w1.
Proof. intros -> [(e' & o & w' & E & _ & H)|[_ [=]]]. injection E as <- <- <-. apply H. Qed.

Lemma xstream_create_all_or_nothing_witness :
  ready_world (w_demo no_thread) ∧ ∃ w', ABT_xstream_create_with_rank (9, ABTI_XSTREAM_TYPE_PRIMARY) None 3 (w_demo no_thread) = Done ((7, None), w') ∧ same (w_demo no_thread) w'.
Proof.
  split; [apply demo_ready|]. destruct no_thread_fails as [w' E]. exists w'. split; [exact E|].
  refine (outcome_same _ _ _ _ _ _ E (xstream_create_all_or_nothing (w_demo no_thread) (9, ABTI_XSTREAM_TYPE_PRIMARY) None 3 (demo_ready no_thread) _ (demo_size no_thread) _ (demo_refs no_thread))); [discriminate|lia].
Defined.

Lemma demo_created : ∃ a w1, ABT_xstream_create (9, ABTI_XSTREAM_TYPE_PRIMARY) None (w_demo []) = Done ((ABT_SUCCESS, Some a), w1).
Proof. vm_compute. eexists _, _. reflexivity. Qed.

Lemma xstream_create_free_witness :
  ∃ a w1 w2, ABT_xstream_create (9, ABTI_XSTREAM_TYPE_PRIMARY) None (w_demo []) = Done ((ABT_SUCCESS, Some a), w1) ∧
    ABTI_xstream_free a false w1 = Done ((), w2) ∧ same (w_demo []) w2.
Proof.
  destruct demo_created as (a & w1 & E). exists a, w1.
  destruct (xstream_create_free (w_demo []) (9, ABTI_XSTREAM_TYPE_PRIMARY) a w1 (demo_ready []) (demo_size []) (demo_refs []) E) as (w2 & E2 & Hs).
  exists w2. split; [exact E|]. split; [exact E2|exact Hs].
Defined.
