(* ===== verification/Mylib.v ===== *)
(** * The pthread shim

    mylib/mylib.c replaces the pthread functions by Argobots ones.  A
    [pthread_mutex_t] or [pthread_cond_t] holds, in its first word, a pointer to
    a heap-allocated wrapper with the Argobots handle; the low half of that word
    doubles as a state ([0] for a statically initialised object that nobody has
    used yet, [0xffffffff] while a thread initialises it).

    First the functions as they run in one thread, on the Argobots objects of
    [Mutex] and [CondVar]; then the protocols in which threads race: the lazy
    initialisation and [pthread_once], as interleaved steps; then the placement
    of threads and the key table.  [malloc] results, the clock attribute read by
    glibc, and the Argobots functions for threads and keys are parameters. *)

From stdpp Require Import base tactics option list numbers gmap fin_maps functions.
From S2P Require Import Prelude.
From S2P Require Import Abt.
From S2P Require Import Thread.
From S2P Require Import Waitlist.
From S2P Require Import Mutex.
From S2P Require Import CondVar.
From S2P Require Import Rwlock.

Definition ETIMEDOUT : Z := 110.
Definition EAGAIN : Z := 11.
Definition EBUSY : Z := 16.

(** ** Wrappers *)

Record abt_mutex_wrap_t := MWrap { mmagic : Z; abt_mutex : option ptr }.
Record abt_cond_wrap_t := CWrap { cmagic : Z; abt_cond : option ptr }.

(** [words] are the first words of the pthread objects, by address. *)
Record pst := Pst {
  pw : world;
  words : gmap positive Z;
  mwraps : gmap positive abt_mutex_wrap_t;
  cwraps : gmap positive abt_cond_wrap_t;
  rwraps : gmap positive (option ptr);  (** the cells with the handles of read-write locks *)
}.

Definition set_pw (v : world) (s : pst) : pst := Pst v (words s) (mwraps s) (cwraps s) (rwraps s).
Definition set_words (v : gmap positive Z) (s : pst) : pst := Pst (pw s) v (mwraps s) (cwraps s) (rwraps s).
Definition set_mwraps (v : gmap positive abt_mutex_wrap_t) (s : pst) : pst := Pst (pw s) (words s) v (cwraps s) (rwraps s).
Definition set_cwraps (v : gmap positive abt_cond_wrap_t) (s : pst) : pst := Pst (pw s) (words s) (mwraps s) v (rwraps s).
Definition set_rwraps (v : gmap positive (option ptr)) (s : pst) : pst := Pst (pw s) (words s) (mwraps s) (cwraps s) v.

Definition abt {A} (m : C world A) : C pst A := zoom pw set_pw m.

Definition wload (o : ptr) : C pst Z := λ s,
  match words s !! o with Some v => Done (v, s) | None => Fault UB end.
Definition wstore (o : ptr) (v : Z) : C pst unit := λ s,
  match words s !! o with Some _ => Done ((), set_words (<[o := v]> (words s)) s) | None => Fault UB end.

(** The wrapper a word points to. *)
Definition deref {A} (t : gmap positive A) (v : Z) : option (ptr * A) :=
  match v with
  | Zpos a => match t !! a with Some x => Some (a, x) | None => None end
  | _ => None
  end.

Definition SENTINEL : Z := 4294967295.  (* 0xffffffff *)

(** Writing the low half of a 64-bit word. *)
Definition set_low (v low : Z) : Z := v - u32 v + low.

(** What [malloc] returns to the allocations of one call. *)
Record mallocs := Mallocs {
  m_wrap : option ptr;
  m_mutex : option (ptr * ABTI_mutex);
  m_attr : option ptr;
  m_cond : option (ptr * ABTI_cond);
}.

(** [attr] is the mutex type, if there is an attribute: is it recursive? *)
Definition pthread_mutex_init (mal : mallocs) (o : ptr) (attr : option bool) : C pst Z :=
  match m_wrap mal with
  | None => throw UB
  | Some a =>
      modify (λ s, set_mwraps (<[a := MWrap 3735931646 None]> (mwraps s)) s);;
      r ← (match attr with
           | Some true =>
               newattr ← abt (ABT_mutex_attr_create (m_attr mal));
               match newattr.2 with
               | None => throw UB
               | Some q =>
                   abt (ABT_mutex_attr_set_recursive (Some q) true);;
                   ret ← abt (ABT_mutex_create_with_attr (m_mutex mal) (Some q));
                   abt (ABT_mutex_attr_free (Some q));;
                   mret ret
               end
           | _ => abt (ABT_mutex_create (m_mutex mal))
           end);
      modify (λ s, set_mwraps (<[a := MWrap 3735931646 r.2]> (mwraps s)) s);;
      wstore o (Zpos a);;
      mret r.1
  end.

Section shim.
Context (getclock : Z → Z) (yield : nat → C pst unit).

(** [pthread_condattr_getclock] dereferences its argument: it is undefined for a
    NULL attribute, which [get_abt_cond] passes. *)
Definition pthread_cond_init (mal : mallocs) (o : ptr) (attr : option Z) : C pst Z :=
  match m_wrap mal with
  | None => throw UB
  | Some a =>
      modify (λ s, set_cwraps (<[a := CWrap 3735928559 None]> (cwraps s)) s);;
      clock_id ← (match attr with Some x => mret (getclock x) | None => throw UB end);
      r ← abt (ABT_cond_create2 (m_cond mal) clock_id);
      modify (λ s, set_cwraps (<[a := CWrap 3735928559 r.2]> (cwraps s)) s);;
      wstore o (Zpos a);;
      mret r.1
  end.

(** Waiting for another thread's initialisation. *)
Fixpoint wait_init (fuel i : nat) (o : ptr) : C pst unit :=
  match fuel with
  | O => throw OutOfFuel
  | S fuel =>
      v ← wload o;
      if Z.eqb (u32 v) SENTINEL then yield i;; wait_init fuel (S i) o else mret ()
  end.

(** The compare-and-swap on the low half. *)
Definition cas_magic (o : ptr) : C pst bool :=
  v ← wload o;
  if Z.eqb (u32 v) 0 then wstore o (set_low v SENTINEL);; mret true else mret false.

(** The address of the wrapper whose handle is returned. *)
Definition get_abt_mutex (mal : mallocs) (fuel : nat) (o : ptr) : C pst ptr :=
  v ← wload o;
  (if Z.eqb (u32 v) 0 then
     won ← cas_magic o;
     if (won : bool) then pthread_mutex_init mal o None;; mret () else mret ()
   else mret ());;
  wait_init fuel 0 o;;
  v ← wload o;
  t ← gets mwraps;
  match deref t v with
  | Some (a, _) => mret a
  | None => throw UB
  end.

Definition get_abt_cond (mal : mallocs) (fuel : nat) (o : ptr) : C pst ptr :=
  won ← cas_magic o;
  (if (won : bool) then pthread_cond_init mal o None;; mret () else wait_init fuel 0 o);;
  v ← wload o;
  t ← gets cwraps;
  match deref t v with
  | Some (a, _) => mret a
  | None => throw UB
  end.

Definition mutex_handle (a : ptr) : C pst (option ptr) := λ s,
  match mwraps s !! a with Some x => Done (abt_mutex x, s) | None => Fault UB end.
Definition cond_handle (a : ptr) : C pst (option ptr) := λ s,
  match cwraps s !! a with Some x => Done (abt_cond x, s) | None => Fault UB end.

(** The wrapper is freed; the word still points to it. *)
Definition pthread_mutex_destroy (mal : mallocs) (fuel : nat) (o : ptr) : C pst Z :=
  a ← get_abt_mutex mal fuel o;
  h ← mutex_handle a;
  r ← abt (ABT_mutex_free h);
  modify (λ s, set_mwraps (delete a (mwraps s)) s);;
  mret r.1.

Context (env : nat → nat → C world unit) (clock : Z → nat → Z) (me : self).

Definition pthread_mutex_lock (mal : mallocs) (fuel : nat) (o : ptr) : C pst Z :=
  a ← get_abt_mutex mal fuel o;
  h ← mutex_handle a;
  abt (ABT_mutex_lock (env 0) me fuel h).

Definition pthread_mutex_trylock (mal : mallocs) (fuel : nat) (o : ptr) : C pst Z :=
  a ← get_abt_mutex mal fuel o;
  h ← mutex_handle a;
  abt (ABT_mutex_trylock me h).

Definition pthread_mutex_unlock (mal : mallocs) (fuel : nat) (o : ptr) : C pst Z :=
  a ← get_abt_mutex mal fuel o;
  h ← mutex_handle a;
  abt (ABT_mutex_unlock me h).

Definition pthread_cond_signal (mal : mallocs) (fuel : nat) (o : ptr) : C pst Z :=
  a ← get_abt_cond mal fuel o;
  h ← cond_handle a;
  abt (ABT_cond_signal h).

Definition pthread_cond_destroy (mal : mallocs) (fuel : nat) (o : ptr) : C pst Z :=
  a ← get_abt_cond mal fuel o;
  h ← cond_handle a;
  r ← abt (ABT_cond_free h);
  modify (λ s, set_cwraps (delete a (cwraps s)) s);;
  mret r.1.

Definition pthread_cond_wait (mal mal' : mallocs) (fuel : nat) (o om : ptr) : C pst Z :=
  a ← get_abt_cond mal fuel o;
  am ← get_abt_mutex mal' fuel om;
  h ← cond_handle a;
  hm ← mutex_handle am;
  abt (ABT_cond_wait env me fuel h hm).

Definition pthread_cond_broadcast (mal : mallocs) (fuel : nat) (o : ptr) : C pst Z :=
  a ← get_abt_cond mal fuel o;
  h ← cond_handle a;
  abt (ABT_cond_broadcast h).

(** Every error but a timeout is reported as success. *)
Definition pthread_cond_timedwait (mal mal' : mallocs) (fuel : nat) (o om : ptr) (abstime : timespec) : C pst Z :=
  a ← get_abt_cond mal fuel o;
  am ← get_abt_mutex mal' fuel om;
  h ← cond_handle a;
  hm ← mutex_handle am;
  ret ← abt (ABT_cond_timedwait env clock me fuel h hm abstime);
  mret (if Z.eqb ret ABT_ERR_COND_TIMEDOUT then ETIMEDOUT else 0).

Definition pthread_cond_clockwait (mal mal' : mallocs) (fuel : nat) (o om : ptr) (clk : Z) (abstime : timespec) : C pst Z :=
  a ← get_abt_cond mal fuel o;
  am ← get_abt_mutex mal' fuel om;
  h ← cond_handle a;
  hm ← mutex_handle am;
  ret ← abt (ABT_cond_clockwait env clock me fuel h hm clk abstime);
  mret (if Z.eqb ret ABT_ERR_COND_TIMEDOUT then ETIMEDOUT else 0).
End shim.

(** *** Read-write locks

    The word points to a cell with the handle; there is no lazy initialisation. *)

Section rwshim.
Context (env : nat → nat → nat → C world unit) (me : self).

Definition pthread_rwlock_init (cell : option ptr) (malloc : option (ptr * (ptr * ABTI_mutex) * (ptr * ABTI_cond)))
    (o : ptr) : C pst Z :=
  match cell with
  | None => throw UB
  | Some a =>
      r ← abt (ABT_rwlock_create malloc);
      modify (λ s, set_rwraps (<[a := r.2]> (rwraps s)) s);;
      wstore o (Zpos a);;
      mret 0
  end.

(** The cell, and the handle in it. *)
Definition get_abt_rwlock (o : ptr) : C pst (ptr * option ptr) :=
  v ← wload o;
  t ← gets rwraps;
  match deref t v with
  | Some x => mret x
  | None => throw UB
  end.

Definition pthread_rwlock_rdlock (fuel : nat) (o : ptr) : C pst Z :=
  x ← get_abt_rwlock o;
  abt (ABT_rwlock_rdlock env me fuel x.2).

Definition pthread_rwlock_wrlock (fuel : nat) (o : ptr) : C pst Z :=
  x ← get_abt_rwlock o;
  abt (ABT_rwlock_wrlock env me fuel x.2).

Definition pthread_rwlock_unlock (fuel : nat) (o : ptr) : C pst Z :=
  x ← get_abt_rwlock o;
  abt (ABT_rwlock_unlock env me fuel x.2).

Definition pthread_rwlock_destory (o : ptr) : C pst Z :=
  x ← get_abt_rwlock o;
  r ← abt (ABT_rwlock_free x.2);
  modify (λ s, set_rwraps (delete x.1 (rwraps s)) s);;
  mret r.1.

(** A statically initialised lock cannot be used. *)
Lemma static_rwlock_undefined fuel o s :
  words s !! o = Some 0 → pthread_rwlock_rdlock fuel o s = Fault UB ∧ pthread_rwlock_wrlock fuel o s = Fault UB.
Proof.
  intros E. assert (get_abt_rwlock o s = Fault UB) as Eg
    by (unfold get_abt_rwlock, mbind, C_bind, wload; by rewrite E).
  split; unfold pthread_rwlock_rdlock, pthread_rwlock_wrlock; by rewrite (C_bind_Fault _ _ _ _ Eg).
Qed.
End rwshim.

(** ** Racing for the lazy initialisation *)

Module Lazy.
(** Positions inside [get_abt_mutex]; [Init] is [pthread_mutex_init] up to the
    store of the pointer, [Got v] the return with the wrapper [v]. *)
Inductive pos := Outside | Read | Cas | Init | Wait | Got (v : Z).

(** The word; the positions; who has published which wrapper so far; and whether
    the process has crashed. *)
Record lazy := Lazy { word : Z; at_ : ptr → pos; inits : list (ptr * Z); crashed : bool }.

(** What [malloc] may return besides NULL: an address that is suitably aligned for
    any object type. *)
Definition malloc_may_return (v : Z) : Prop := 0 < v < 2 ^ 64 ∧ v mod 8 = 0.

Global Instance malloc_may_return_dec v : Decision (malloc_may_return v).
Proof. unfold malloc_may_return. apply _. Defined.

Definition goes (s : lazy) (t : ptr) (c : pos) : lazy := Lazy (word s) (<[t := c]> (at_ s)) (inits s) (crashed s).

Inductive lstep (s : lazy) : lazy → Prop :=
  | l_call t : crashed s = false → at_ s t = Outside → lstep s (goes s t Read)
  | l_read t : crashed s = false → at_ s t = Read →
      lstep s (goes s t (if Z.eqb (u32 (word s)) 0 then Cas else Wait))
  | l_cas_won t : crashed s = false → at_ s t = Cas → u32 (word s) = 0 →
      lstep s (Lazy (set_low (word s) SENTINEL) (<[t := Init]> (at_ s)) (inits s) false)
  | l_cas_lost t : crashed s = false → at_ s t = Cas → u32 (word s) ≠ 0 → lstep s (goes s t Wait)
  | l_init t v : crashed s = false → at_ s t = Init → malloc_may_return v →
      lstep s (Lazy v (<[t := Wait]> (at_ s)) (inits s ++ [(t, v)]) false)
  | l_init_null t : crashed s = false → at_ s t = Init →
      (* malloc returned NULL, through which the magic number is stored *)
      lstep s (Lazy (word s) (at_ s) (inits s) true)
  | l_wait t : crashed s = false → at_ s t = Wait → u32 (word s) ≠ SENTINEL → lstep s (goes s t (Got (word s)))
  | l_return t v : crashed s = false → at_ s t = Got v → lstep s (goes s t Outside).

(** From a statically initialised object. *)
Inductive lreach : lazy → Prop :=
  | lr_start : lreach (Lazy 0 (λ _, Outside) [] false)
  | lr_step s s' : lreach s → lstep s s' → lreach s'.
End Lazy.

(** ** pthread_once *)

Module Once.
Inductive pos := Outside | Cas | Run | Store | Wait | Ret.

(** [runs] are the threads that have run the routine to its end. *)
Record once := MkOnce { control : Z; at_ : ptr → pos; runs : list ptr }.

Definition ini_val : Z := 0.
Definition run_val : Z := 1.
Definition end_val : Z := 2.

Inductive ostep (s : once) : once → Prop :=
  | o_call t : at_ s t = Outside → ostep s (MkOnce (control s) (<[t := Cas]> (at_ s)) (runs s))
  | o_won t : at_ s t = Cas → control s = ini_val →
      ostep s (MkOnce run_val (<[t := Run]> (at_ s)) (runs s))
  | o_lost t : at_ s t = Cas → control s ≠ ini_val →
      ostep s (MkOnce (control s) (<[t := Wait]> (at_ s)) (runs s))
  | o_run t : at_ s t = Run →
      ostep s (MkOnce (control s) (<[t := Store]> (at_ s)) (runs s ++ [t]))
  | o_store t : at_ s t = Store →
      ostep s (MkOnce end_val (<[t := Ret]> (at_ s)) (runs s))
  | o_wait t : at_ s t = Wait → control s = end_val →
      ostep s (MkOnce (control s) (<[t := Ret]> (at_ s)) (runs s))
  | o_return t : at_ s t = Ret →
      ostep s (MkOnce (control s) (<[t := Outside]> (at_ s)) (runs s)).

Inductive oreach : once → Prop :=
  | or_start : oreach (MkOnce ini_val (λ _, Outside) [])
  | or_step s s' : oreach s → ostep s s' → oreach s'.
End Once.

(** ** Placing threads on cores *)

Module Create.
Section create.
Context (N_CORE : Z).

(** [global_my_tid] is an [unsigned int]; [placed] are the pools of the threads
    created so far, in order. *)
Record cst := Cst { global_my_tid : Z; placed : list Z }.

(** The index is an [int] remainder; [ABT_thread_create] puts the thread into
    that pool. *)
Definition pthread_create : C cst Z := λ s,
  let my_tid := i32 (global_my_tid s) in
  let i := Z.rem my_tid N_CORE in
  if decide (0 ≤ i < N_CORE) then Done (0, Cst (u32 (global_my_tid s + 1)) (placed s ++ [i]))
  else Fault UB.
End create.
End Create.

(** ** The key table *)

Module Keys.
Section keys.
Context {H : Type}.

Definition N_KEY : nat := 1024.

(** [abt_keys]; a NULL entry is [None]. *)
Abbreviation table := (list (option H)) (only parsing).

Definition empty_table : table := replicate N_KEY None.

(** The scan for a free slot. *)
Fixpoint first_free (i : nat) (t : table) : nat :=
  match t with
  | [] => i
  | None :: _ => i
  | Some _ :: t => first_free (S i) t
  end.

(** [create] is what [ABT_key_create] returns: a code and the key. *)
Definition pthread_key_create (create : Z * H) : C table (Z * option nat) := λ t,
  let i_key := first_free 0 t in
  if decide (i_key < N_KEY)%nat then Done ((create.1, Some i_key), <[i_key := Some create.2]> t)
  else Done ((EAGAIN, None), t).

(** The Argobots key behind an index. *)
Definition key_of (key : nat) : C table H := λ t,
  match t !! key with
  | Some (Some k) => Done (k, t)
  | _ => Fault UB
  end.

Definition pthread_key_delete (free : H → Z) (key : nat) : C table Z := λ t,
  match t !! key with
  | Some (Some k) => Done (free k, <[key := None]> t)
  | _ => Fault UB
  end.
End keys.
End Keys.

(** ** Theorems: lazy initialisation *)

Definition ptr_ok (v : Z) : Prop := u32 v ≠ 0 ∧ u32 v ≠ SENTINEL.

Section lazy_theorems.
Import Lazy.
Implicit Types (s : lazy) (t u : ptr) (v : Z).

(** A wrapper was allocated at a multiple of 4 GiB: its address looks like an
    unused object. *)
Definition low_half_zero s : Prop := ∃ u v, (u, v) ∈ inits s ∧ u32 v = 0.

Lemma aligned_not_sentinel v : malloc_may_return v → u32 v ≠ SENTINEL.
Proof.
  intros [_ Ha] E. unfold u32, SENTINEL in E. pose proof (Z.div_mod v (2 ^ 32) ltac:(lia)) as Hd.
  change (2 ^ 32) with (8 * 536870912) in *. rewrite E in Hd.
  assert (v = 8 * (536870912 * (v / (8 * 536870912))) + 4294967295) as Hv by lia.
  rewrite Hv, Z.add_comm, Z.mul_comm, Z_mod_plus_full in Ha. by vm_compute in Ha.
Qed.

(** Unused, being initialised by one thread, or initialised. *)
Record linv s : Prop := {
  li_phase : (word s = 0 ∧ inits s = [] ∧ ∀ t, at_ s t ≠ Init ∧ at_ s t ≠ Wait) ∨
    (word s = SENTINEL ∧ inits s = [] ∧ ∃ t, at_ s t = Init ∧ ∀ u, at_ s u = Init → u = t) ∨
    (∃ t, ptr_ok (word s) ∧ inits s = [(t, word s)] ∧ ∀ u, at_ s u ≠ Init);
  li_got : ∀ t v, at_ s t = Got v → ∃ u, inits s = [(u, v)];
}.

Lemma linv_move s t c :
  linv s → at_ s t ≠ Init → c ≠ Init → (c = Wait → word s ≠ 0) → (∀ v, c = Got v → ∃ u, inits s = [(u, v)]) →
  linv (goes s t c).
Proof.
  intros [Hp Hg] Ht Hc Hcw Hv. split; simpl.
  - assert (∀ u, <[t := c]> (at_ s) u = Init ↔ at_ s u = Init) as Hu.
    { intros u. destruct (decide (u = t)) as [->|Hne]; [rewrite fn_lookup_insert; split; congruence|by rewrite fn_lookup_insert_ne]. }
    destruct Hp as [(E1 & E2 & E3)|[(E1 & E2 & u & E3 & E4)|(u & E1 & E2 & E3)]].
    + left. split_and!; [done..|]. intros u. rewrite Hu. split; [apply E3|].
      destruct (decide (u = t)) as [->|Hne]; [rewrite fn_lookup_insert; intros ->; by apply Hcw|rewrite fn_lookup_insert_ne by done; apply E3].
    + right; left. split_and!; [done..|]. exists u. rewrite Hu. split; [done|]. intros u' Hu'. apply E4. by apply Hu.
    + right; right. exists u. split_and!; [done..|]. intros u'. rewrite Hu. apply E3.
  - intros u v. destruct (decide (u = t)) as [->|Hne]; [rewrite fn_lookup_insert; apply Hv|].
    rewrite fn_lookup_insert_ne by done. apply Hg.
Qed.

Lemma u32_sentinel : u32 SENTINEL = SENTINEL.
Proof. reflexivity. Qed.

(** The winner of the compare-and-swap, and its publication. *)
Lemma linv_cas s t : linv s → u32 (word s) = 0 → linv (Lazy (set_low (word s) SENTINEL) (<[t := Init]> (at_ s)) (inits s) false).
Proof.
  intros [Hp Hg] H0. destruct Hp as [(E1 & E2 & E3)|[(E1 & _)|(u & [E1 _] & _)]]; [|by rewrite E1 in H0|done].
  split; simpl.
  - right; left. split; [by rewrite E1|]. split; [done|]. exists t. rewrite fn_lookup_insert. split; [done|].
    intros u. destruct (decide (u = t)) as [->|Hne]; [done|]. rewrite fn_lookup_insert_ne by done. intros Hu. by destruct (E3 u).
  - intros u v. destruct (decide (u = t)) as [->|Hne]; [by rewrite fn_lookup_insert|]. rewrite fn_lookup_insert_ne by done. apply Hg.
Qed.

Lemma linv_publish s t v : linv s → at_ s t = Init → ptr_ok v → linv (Lazy v (<[t := Wait]> (at_ s)) (inits s ++ [(t, v)]) false).
Proof.
  intros [Hp Hg] Ht Hv. destruct Hp as [(_ & _ & E3)|[(E1 & E2 & u & E3 & E4)|(u & _ & _ & E3)]]; [by destruct (E3 t)| |by destruct (E3 t)].
  pose proof (E4 t Ht) as ->. split; simpl.
  - right; right. exists u. rewrite E2. split_and!; [done..|]. intros u'. destruct (decide (u' = u)) as [->|Hne].
    + by rewrite fn_lookup_insert.
    + rewrite fn_lookup_insert_ne by done. intros Hu'. by apply Hne, E4.
  - intros u' v'. destruct (decide (u' = u)) as [->|Hne]; [by rewrite fn_lookup_insert|].
    rewrite fn_lookup_insert_ne by done. intros Hu'. destruct (Hg _ _ Hu') as (x & Hx). by rewrite E2 in Hx.
Qed.

Lemma linv_step s s' : linv s → lstep s s' → low_half_zero s' ∨ linv s'.
Proof.
  intros Hi Hs. destruct Hs as [t _ Ht|t _ Ht|t _ Ht H0|t _ Ht H0|t v _ Ht Hv|t _ Ht|t _ Ht H0|t v _ Ht].
  - right. apply linv_move; [done|congruence|done|done|done].
  - right. apply linv_move; [done|congruence|by destruct (Z.eqb _ _)| |intros v; by destruct (Z.eqb _ _)].
    intros E Ew. by rewrite Ew in E.
  - right. by apply linv_cas.
  - right. apply linv_move; [done|congruence|done| |done]. intros _ Ew. by rewrite Ew in H0.
  - destruct (decide (u32 v = 0)) as [Hz|Hz].
    + left. exists t, v. split; [|done]. simpl. apply elem_of_app. right. by apply list_elem_of_singleton.
    + right. apply linv_publish; [done|done|]. split; [done|by apply aligned_not_sentinel].
  - right. destruct Hi as [Hp Hg]. by split.
  - right. apply linv_move; [done|congruence|done|done|]. intros v [= <-].
    destruct (li_phase _ Hi) as [(_ & _ & E3)|[(E1 & _)|(u & E1 & E2 & _)]]; [by destruct (E3 t)|by rewrite E1 in H0|by exists u].
  - right. apply linv_move; [done|congruence|done|done|done].
Qed.

Lemma low_half_zero_step s s' : low_half_zero s → lstep s s' → low_half_zero s'.
Proof.
  intros (u & v & Hin & Hz) Hs. exists u, v. split; [|done].
  destruct Hs; simpl; try done. apply elem_of_app. by left.
Qed.

Lemma linv_reach s : lreach s → low_half_zero s ∨ linv s.
Proof.
  induction 1 as [|s s' _ [IH|IH] Hs].
  - right. split; [|done]. left. done.
  - left. by eapply low_half_zero_step.
  - by apply linv_step with s.
Qed.

(** C22: However the first uses of a statically initialised mutex race, it is
    initialised at most once, every call that returns returns the wrapper of
    that one initialisation, and whoever waits for the sentinel to go away waits
    for a thread that is initialising the mutex.  The exception is in the
    statement: the wrapper may lie at a multiple of 4 GiB (which [malloc] is free
    to return), where its address looks like an unused object.  When [malloc]
    returns NULL the initialising thread crashes the process, with nothing
    published. *)
Theorem lazy_init_unique s :
  lreach s →
  (∃ u v, (u, v) ∈ inits s ∧ u32 v = 0) ∨
  ((length (inits s) ≤ 1)%nat ∧
   (∀ t v, at_ s t = Got v → ∃ u, inits s = [(u, v)]) ∧
   (∀ t, at_ s t = Wait → u32 (word s) = SENTINEL → ∃ u, at_ s u = Init) ∧
   (∀ t u, at_ s t = Init → at_ s u = Init → t = u ∧ inits s = [])).
Proof.
  intros Hr. destruct (linv_reach s Hr) as [?|[Hp Hg]]; [by left|right]. split_and!.
  - destruct Hp as [(_ & -> & _)|[(_ & -> & _)|(u & _ & -> & _)]]; simpl; lia.
  - apply Hg.
  - intros t _ Hs. destruct Hp as [(E & _)|[(_ & _ & u & Hu & _)|(u & [_ E] & _)]]; [by rewrite E in Hs|by exists u|done].
  - intros t u Ht Hu. destruct Hp as [(_ & _ & E)|[(_ & E & x & _ & Hx)|(x & _ & _ & E)]]; [by destruct (E t)| |by destruct (E t)].
    split; [|done]. by rewrite (Hx t Ht), (Hx u Hu).
Qed.
End lazy_theorems.

(** The next step of a thread, as a function, when [malloc] returns [wrap t] to
    it; a thread that must wait stays. *)
Definition lazy_go (wrap : ptr → Z) (s : Lazy.lazy) (t : ptr) : Lazy.lazy :=
  if Lazy.crashed s then s else
  match Lazy.at_ s t with
  | Lazy.Outside => Lazy.goes s t Lazy.Read
  | Lazy.Read => Lazy.goes s t (if Z.eqb (u32 (Lazy.word s)) 0 then Lazy.Cas else Lazy.Wait)
  | Lazy.Cas =>
      if decide (u32 (Lazy.word s) = 0)
      then Lazy.Lazy (set_low (Lazy.word s) SENTINEL) (<[t := Lazy.Init]> (Lazy.at_ s)) (Lazy.inits s) false
      else Lazy.goes s t Lazy.Wait
  | Lazy.Init =>
      if decide (Lazy.malloc_may_return (wrap t))
      then Lazy.Lazy (wrap t) (<[t := Lazy.Wait]> (Lazy.at_ s)) (Lazy.inits s ++ [(t, wrap t)]) false
      else Lazy.Lazy (Lazy.word s) (Lazy.at_ s) (Lazy.inits s) true
  | Lazy.Wait => if decide (u32 (Lazy.word s) = SENTINEL) then s else Lazy.goes s t (Lazy.Got (Lazy.word s))
  | Lazy.Got _ => Lazy.goes s t Lazy.Outside
  end.

Definition lazy_run (wrap : ptr → Z) (ts : list ptr) : Lazy.lazy :=
  foldl (lazy_go wrap) (Lazy.Lazy 0 (λ _, Lazy.Outside) [] false) ts.

Lemma lazy_run_reach wrap ts : Lazy.lreach (lazy_run wrap ts).
Proof.
  unfold lazy_run. assert (Lazy.lreach (Lazy.Lazy 0 (λ _, Lazy.Outside) [] false)) as Hr by constructor. revert Hr.
  generalize (Lazy.Lazy 0 (λ _, Lazy.Outside) [] false). induction ts as [|t ts IH]; intros s Hr; simpl; [done|]. apply IH.
  unfold lazy_go. destruct (Lazy.crashed s) eqn:Ec; [done|].
  destruct (Lazy.at_ s t) eqn:Et; repeat case_decide; try done; (eapply Lazy.lr_step; [exact Hr|]; by econstructor).
Qed.

(** Two threads race; the first one wins and both get its wrapper. *)
Definition two_wraps (t : ptr) : Z := if decide (t = 1%positive) then 4096 else 8192.
Definition lazy_race : Lazy.lazy := lazy_run two_wraps [1; 2; 1; 2; 1; 2; 2; 1; 2; 1]%positive.

Lemma lazy_race_end : Lazy.at_ lazy_race 1 = Lazy.Got 4096 ∧ Lazy.inits lazy_race = [(1%positive, 4096)].
Proof. vm_compute. split; reflexivity. Qed.

Lemma lazy_init_unique_witness :
  Lazy.at_ lazy_race 1 = Lazy.Got 4096 ∧
  (∀ t v, Lazy.at_ lazy_race t = Lazy.Got v → ∃ u, Lazy.inits lazy_race = [(u, v)]) ∧
  (∀ t, Lazy.at_ lazy_race t = Lazy.Wait → u32 (Lazy.word lazy_race) = SENTINEL → ∃ u, Lazy.at_ lazy_race u = Lazy.Init).
Proof.
  destruct lazy_race_end as [H1 Hi]. split; [exact H1|].
  destruct (lazy_init_unique lazy_race (lazy_run_reach _ _)) as [(u & v & Hin & Hz)|(_ & H2 & H3 & _)].
  - exfalso. rewrite Hi in Hin. apply list_elem_of_singleton in Hin. injection Hin as -> ->. discriminate Hz.
  - exact (conj H2 H3).
Defined.

(** The exception is real: with a wrapper at 4 GiB a second thread initialises the
    mutex again and the two threads use different ones. *)
Lemma lazy_init_twice :
  let s := lazy_run (λ t, if decide (t = 1%positive) then 4294967296 else 8192) [1; 1; 1; 1; 1; 2; 2; 2; 2; 2]%positive in
  Lazy.at_ s 1 = Lazy.Got 4294967296 ∧ Lazy.at_ s 2 = Lazy.Got 8192.
Proof. vm_compute. split; reflexivity. Qed.

(** The first use of a statically initialised condition variable is undefined:
    its initialisation asks a NULL attribute for the clock. *)
Lemma static_cond_undefined getclock yield mal fuel o s :
  words s !! o = Some 0 → get_abt_cond getclock yield mal fuel o s = Fault UB.
Proof.
  intros E. unfold get_abt_cond, cas_magic, pthread_cond_init, mbind, C_bind, wload, wstore. rewrite E. simpl. rewrite E.
  by destruct (m_wrap mal).
Qed.

(** ** Theorems: pthread_once *)

Section once_theorems.
Import Once.

Record oinv (s : once) : Prop := {
  oi_phase :
    (control s = ini_val ∧ runs s = [] ∧ ∀ t, at_ s t = Outside ∨ at_ s t = Cas) ∨
    (control s = run_val ∧ ∃ t, ((at_ s t = Run ∧ runs s = []) ∨ (at_ s t = Store ∧ runs s = [t])) ∧
       ∀ u, u ≠ t → at_ s u = Outside ∨ at_ s u = Cas ∨ at_ s u = Wait) ∨
    (control s = end_val ∧ (∃ t, runs s = [t]) ∧ ∀ u, at_ s u ≠ Run ∧ at_ s u ≠ Store);
}.

Ltac upd u t := destruct (decide (u = t)) as [->|?];
  [rewrite ?fn_lookup_insert in *|rewrite ?fn_lookup_insert_ne in * by done].

Lemma oinv_step s s' : oinv s → ostep s s' → oinv s'.
Proof.
  intros [Hp] Hs. constructor.
  destruct Hp as [(E1 & E2 & E3)|[(E1 & x & Ex & E3)|(E1 & E2 & E3)]];
    destruct Hs as [t Ht|t Ht H0|t Ht H0|t Ht|t Ht|t Ht H0|t Ht]; simpl;
    try (exfalso; unfold ini_val, run_val, end_val in *; lia); try (by destruct (E3 t) as [E|E]; rewrite E in Ht).
  - left. split_and!; [done..|]. intros u. upd u t; auto.
  - right; left. split; [done|]. exists t. rewrite fn_lookup_insert. split; [by left|]. intros u Hu.
    rewrite fn_lookup_insert_ne by done. destruct (E3 u); auto.
  - assert (t ≠ x) as Hne by (intros ->; destruct Ex as [[E _]|[E _]]; congruence).
    right; left. split; [done|]. exists x. rewrite fn_lookup_insert_ne by done. split; [done|]. intros u Hu. upd u t; auto.
  - assert (t ≠ x) as Hne by (intros ->; destruct Ex as [[E _]|[E _]]; congruence).
    right; left. split; [done|]. exists x. rewrite fn_lookup_insert_ne by done. split; [done|]. intros u Hu. upd u t; auto.
  - assert (t = x) as ->. { destruct (decide (t = x)) as [?|Hne]; [done|]. destruct (E3 t Hne) as [E|[E|E]]; congruence. }
    right; left. split; [done|]. exists x. rewrite fn_lookup_insert. destruct Ex as [[E ->]|[E _]]; [|congruence].
    split; [by right|]. intros u Hu. rewrite fn_lookup_insert_ne by done. by apply E3.
  - assert (t = x) as ->. { destruct (decide (t = x)) as [?|Hne]; [done|]. destruct (E3 t Hne) as [E|[E|E]]; congruence. }
    right; right. destruct Ex as [[E _]|[_ E]]; [congruence|]. split; [done|]. split; [by exists x|]. intros u.
    destruct (decide (u = x)) as [->|Hne]; [by rewrite fn_lookup_insert|]. rewrite fn_lookup_insert_ne by done.
    destruct (E3 u Hne) as [->|[->| ->]]; done.
  - assert (t ≠ x) as Hne by (intros ->; destruct Ex as [[E _]|[E _]]; congruence).
    destruct (E3 t Hne) as [E|[E|E]]; congruence.
  - right; right. split_and!; [done..|]. intros u. upd u t; done.
  - right; right. split_and!; [done..|]. intros u. upd u t; done.
  - by destruct (E3 t).
  - by destruct (E3 t).
  - right; right. split_and!; [done..|]. intros u. upd u t; done.
  - right; right. split_and!; [done..|]. intros u. upd u t; done.
Qed.

Lemma oinv_reach s : oreach s → oinv s.
Proof.
  induction 1 as [|s s' _ IH Hs]; [|by eapply oinv_step]. constructor. left. split_and!; [done..|]. intros t. by left.
Qed.

(** However calls of [pthread_once] race, the routine runs at most once, and
    every thread that returns from the call returns after the routine has run to its end. *)
Theorem once_exactly_once s :
  oreach s → (length (runs s) ≤ 1)%nat ∧ (∀ t, at_ s t = Ret → ∃ u, runs s = [u] ∧ control s = end_val).
Proof.
  intros Hr. destruct (oinv_reach s Hr) as [Hp]. split.
  - destruct Hp as [(_ & -> & _)|[(_ & x & [[_ ->]|[_ ->]] & _)|(_ & [x ->] & _)]]; simpl; lia.
  - intros t Ht. destruct Hp as [(_ & _ & E)|[(_ & x & Ex & E)|(E & [x ->] & _)]].
    + destruct (E t) as [E'|E']; congruence.
    + destruct (decide (t = x)) as [->|Hne]; [destruct Ex as [[E' _]|[E' _]]; congruence|].
      destruct (E t Hne) as [E'|[E'|E']]; congruence.
    + by exists x.
Qed.
End once_theorems.

(** Two threads: the first runs the routine, the second waits for it. *)
Definition once_go (s : Once.once) (t : ptr) : Once.once :=
  let move c p r := Once.MkOnce c (<[t := p]> (Once.at_ s)) r in
  match Once.at_ s t with
  | Once.Outside => move (Once.control s) Once.Cas (Once.runs s)
  | Once.Cas =>
      if decide (Once.control s = Once.ini_val) then move Once.run_val Once.Run (Once.runs s)
      else move (Once.control s) Once.Wait (Once.runs s)
  | Once.Run => move (Once.control s) Once.Store (Once.runs s ++ [t])
  | Once.Store => move Once.end_val Once.Ret (Once.runs s)
  | Once.Wait => if decide (Once.control s = Once.end_val) then move (Once.control s) Once.Ret (Once.runs s) else s
  | Once.Ret => move (Once.control s) Once.Outside (Once.runs s)
  end.

Definition once_run (ts : list ptr) : Once.once := foldl once_go (Once.MkOnce Once.ini_val (λ _, Once.Outside) []) ts.

Lemma once_run_reach ts : Once.oreach (once_run ts).
Proof.
  unfold once_run. assert (Once.oreach (Once.MkOnce Once.ini_val (λ _, Once.Outside) [])) as Hr by constructor. revert Hr.
  generalize (Once.MkOnce Once.ini_val (λ _, Once.Outside) []). induction ts as [|t ts IH]; intros s Hr; simpl; [done|]. apply IH.
  unfold once_go. destruct (Once.at_ s t) eqn:Et; repeat case_decide; try done;
    (eapply Once.or_step; [exact Hr|]; by econstructor).
Qed.

Lemma once_exactly_once_witness :
  Once.at_ (once_run [1; 2; 1; 2; 2; 1; 1; 2]%positive) 2 = Once.Ret ∧
  (length (Once.runs (once_run [1; 2; 1; 2; 2; 1; 1; 2]%positive)) ≤ 1)%nat ∧
  (∀ t, Once.at_ (once_run [1; 2; 1; 2; 2; 1; 1; 2]%positive) t = Once.Ret →
     ∃ u, Once.runs (once_run [1; 2; 1; 2; 2; 1; 1; 2]%positive) = [u] ∧
       Once.control (once_run [1; 2; 1; 2; 2; 1; 1; 2]%positive) = Once.end_val).
Proof.
  split; [vm_compute; reflexivity|].
  apply (once_exactly_once (once_run [1; 2; 1; 2; 2; 1; 1; 2]%positive)), once_run_reach.
Defined.

(** ** Theorems: placing threads *)

Section create_theorems.
Import Create.
Context (N_CORE : Z).
Hypothesis Hcore : 0 < N_CORE < 2 ^ 31.

Definition places (k n : nat) : list Z := (λ i : nat, Z.of_nat i mod N_CORE) <$> seq k n.

Lemma create_many n k l :
  Z.of_nat (k + n) ≤ 2 ^ 31 →
  times n (pthread_create N_CORE) (Cst (Z.of_nat k) l) = Done ((), Cst (Z.of_nat (k + n)) (l ++ places k n)).
Proof.
  revert k l. induction n as [|n IH]; intros k l Hn; [by rewrite Nat.add_0_r, app_nil_r|].
  cbn [times]. rewrite (C_bind_Done _ _ _ 0 (Cst (Z.of_nat (S k)) (l ++ [Z.of_nat k mod N_CORE]))).
  - rewrite IH by lia. unfold places. simpl. rewrite <- app_assoc. simpl. do 3 f_equal. lia.
  - unfold pthread_create. simpl. rewrite i32_small by lia. rewrite Z.rem_mod_nonneg by lia.
    rewrite decide_True by (apply Z.mod_pos_bound; lia). rewrite u32_small by lia. do 3 f_equal. lia.
Qed.

Lemma share_step n j :
  0 ≤ j < N_CORE →
  (Z.of_nat (S n) + (N_CORE - 1 - j)) / N_CORE =
  (Z.of_nat n + (N_CORE - 1 - j)) / N_CORE + (if decide (Z.of_nat n mod N_CORE = j) then 1 else 0).
Proof.
  intros Hj. pose proof (Z.div_mod (Z.of_nat n) N_CORE ltac:(lia)) as E.
  pose proof (Z.mod_pos_bound (Z.of_nat n) N_CORE ltac:(lia)) as Hr.
  set (q := Z.of_nat n / N_CORE) in *. set (r := Z.of_nat n mod N_CORE) in *.
  assert ((Z.of_nat n + (N_CORE - 1 - j)) / N_CORE = q + if decide (j < r) then 1 else 0) as ->.
  { case_decide; symmetry; [apply (Z.div_unique _ _ _ (r - 1 - j))|apply (Z.div_unique _ _ _ (r + N_CORE - 1 - j))]; lia. }
  assert ((Z.of_nat (S n) + (N_CORE - 1 - j)) / N_CORE = q + if decide (j ≤ r) then 1 else 0) as ->.
  { case_decide; symmetry; [apply (Z.div_unique _ _ _ (r - j))|apply (Z.div_unique _ _ _ (r + N_CORE - j))]; lia. }
  repeat case_decide; lia.
Qed.

Lemma places_count n j :
  0 ≤ j < N_CORE →
  Z.of_nat (length (filter (λ i, i = j) (places 0 n))) = (Z.of_nat n + (N_CORE - 1 - j)) / N_CORE.
Proof.
  intros Hj. induction n as [|n IH].
  - simpl. symmetry. apply Z.div_small. lia.
  - rewrite share_step by done. rewrite <- IH. unfold places. rewrite seq_S, fmap_app, list.filter_app, length_app. simpl.
    rewrite filter_cons. case_decide; simpl; rewrite ?filter_nil; simpl; lia.
Qed.

(** Threads are spread over the cores: after any number [n] of creations, up to
    2^31, none of which can index outside the pools, every pool has
    received the [n]-th share of them, so two pools differ by at most one
    thread. *)
Theorem create_balanced n :
  Z.of_nat n ≤ 2 ^ 31 →
  ∃ s, times n (pthread_create N_CORE) (Cst 0 []) = Done ((), s) ∧
    (∀ j, 0 ≤ j < N_CORE → Z.of_nat (length (filter (λ i, i = j) (placed s))) = (Z.of_nat n + (N_CORE - 1 - j)) / N_CORE) ∧
    (∀ j k, 0 ≤ j < N_CORE → 0 ≤ k < N_CORE →
       (length (filter (λ i, i = j) (placed s)) ≤ S (length (filter (λ i, i = k) (placed s))))%nat).
Proof.
  intros Hn. exists (Cst (Z.of_nat (0 + n)) ([] ++ places 0 n)). split; [by apply (create_many n 0 [])|].
  cbn [placed app]. split; [intros; by apply places_count|]. intros j k Hj Hk.
  pose proof (places_count n j Hj) as E1. pose proof (places_count n k Hk) as E2.
  assert ((Z.of_nat n + (N_CORE - 1 - j)) / N_CORE ≤ (Z.of_nat n + (N_CORE - 1 - k)) / N_CORE + 1).
  { rewrite <- (Z.div_add _ 1 N_CORE) by lia. apply Z.div_le_mono; lia. }
  lia.
Qed.
End create_theorems.

(** Ten threads on four cores. *)
Lemma create_balanced_witness :
  ∃ s, times 10 (Create.pthread_create 4) (Create.Cst 0 []) = Done ((), s) ∧
    (∀ j, 0 ≤ j < 4 → Z.of_nat (length (filter (λ i, i = j) (Create.placed s))) = (Z.of_nat 10 + (4 - 1 - j)) / 4) ∧
    (∀ j k, 0 ≤ j < 4 → 0 ≤ k < 4 →
       (length (filter (λ i, i = j) (Create.placed s)) ≤ S (length (filter (λ i, i = k) (Create.placed s))))%nat).
Proof. apply (create_balanced 4 ltac:(lia) 10). lia. Defined.

(** After 2^31 creations the [int] is negative and the index is outside the pools. *)
Lemma create_overflow : Create.pthread_create 3 (Create.Cst (2 ^ 31) []) = Fault UB.
Proof. reflexivity. Qed.

(** ** The key table *)

Section key_theorems.
Import Keys.
Context {H : Type}.
Implicit Types (t : list (option H)).

Lemma first_free_spec i t :
  (i ≤ first_free i t ≤ i + length t)%nat ∧
  (∀ j, (j < first_free i t - i)%nat → ∃ k, t !! j = Some (Some k)) ∧
  ((first_free i t < i + length t)%nat → t !! (first_free i t - i)%nat = Some None).
Proof.
  revert i. induction t as [|[k|] t IH]; intros i; simpl.
  - split_and!; [lia|lia|intros; lia|intros; lia].
  - destruct (IH (S i)) as (A & B & D). split_and!; [lia|lia| |].
    + intros [|j] Hj; [by exists k|]. apply B. lia.
    + intros Hlt. replace (first_free (S i) t - i)%nat with (S (first_free (S i) t - S i)) by lia. apply D. lia.
  - split_and!; [lia|lia|intros; lia|]. intros _. by rewrite Nat.sub_diag.
Qed.

(** Creating a key takes the lowest free index; it fails with [EAGAIN] exactly
    when all are taken. *)
Lemma key_create_spec create t :
  length t = N_KEY →
  (∃ i, pthread_key_create create t = Done ((create.1, Some i), <[i := Some create.2]> t) ∧ t !! i = Some None ∧
     ∀ j, (j < i)%nat → ∃ k, t !! j = Some (Some k)) ∨
  (pthread_key_create create t = Done ((EAGAIN, None), t) ∧ ∀ j, (j < N_KEY)%nat → ∃ k, t !! j = Some (Some k)).
Proof.
  intros Hl. destruct (first_free_spec 0 t) as (A & B & D). unfold pthread_key_create. rewrite Nat.sub_0_r, Nat.add_0_l, Hl in *.
  case_decide as Hd.
  - left. exists (first_free 0 t). split; [done|]. split; [by apply D|]. intros j Hj. by apply B.
  - right. split; [done|]. intros j Hj. apply B. lia.
Qed.
End key_theorems.

(** ** Theorems: a statically initialised mutex *)

Section static_mutex.
Context (yield : nat → C pst unit) (env : nat → nat → C world unit) (mal : mallocs) (fuel : nat) (o : ptr).
Hypothesis Hfuel : (0 < fuel)%nat.

Lemma abt_run {A} (m : C world A) s b w : m (pw s) = Done (b, w) → abt m s = Done (b, set_pw w s).
Proof. intros E. unfold abt, zoom. by rewrite E. Qed.

Lemma wload_run v s : words s !! o = Some v → wload o s = Done (v, s).
Proof. intros E. unfold wload. by rewrite E. Qed.

Lemma wstore_run v v' s : words s !! o = Some v → wstore o v' s = Done ((), set_words (<[o := v']> (words s)) s).
Proof. intros E. unfold wstore. by rewrite E. Qed.

Lemma mutex_create_run p junk w :
  ABT_mutex_create (Some (p, junk)) w = Done ((ABT_SUCCESS, Some p), setm p (Mutex 0 false 0 0 false no_waitlist) w).
Proof.
  unfold ABT_mutex_create. rewrite (C_bind_Done _ _ _ () (setm p junk w)) by done.
  by rewrite (C_bind_Done _ _ _ _ _ (init_run p junk w)).
Qed.

Lemma assert_owned_run me p m w :
  mutexes w !! p = Some (held me m 1) → assert_owned me p w = Done ((), w).
Proof.
  intros Em. assert (mlock (held me m 1) = true ∧ attrs (held me m 1) = attrs m) as [El Ea] by (simpl; by destruct (recursive (attrs m))).
  unfold assert_owned, ABTI_mutex_is_locked. rewrite (C_bind_Done _ _ _ (mlock (held me m 1)) w).
  2:{ rewrite (on_mlock_run p _ _ _ (mlock (held me m 1)) (mlock (held me m 1)) Em eq_refl).
      rewrite (setm_id p); [done|]. rewrite Em. f_equal. by destruct (held me m 1). }
  rewrite El. rewrite (C_bind_Done _ _ _ () w) by done. rewrite !(C_bind_Done _ _ _ _ _ (mload_run p _ _ _ Em)), Ea.
  simpl. destruct (recursive (attrs m)); [|done]. simpl. by rewrite Z.eqb_refl.
Qed.

(** An initialised mutex: the word points to the wrapper. *)
Lemma get_abt_mutex_again a x s :
  words s !! o = Some (Zpos a) → ptr_ok (Zpos a) → mwraps s !! a = Some x →
  get_abt_mutex yield mal fuel o s = Done (a, s).
Proof.
  intros Ew [H0 H1] Ex. destruct fuel as [|fl]; [lia|]. unfold get_abt_mutex.
  rewrite (C_bind_Done _ _ _ _ _ (wload_run _ _ Ew)).
  destruct (Z.eqb_spec (u32 (Zpos a)) 0); [done|]. rewrite (C_bind_Done _ _ s () s) by done.
  rewrite (C_bind_Done _ _ s () s).
  2:{ cbn [wait_init]. rewrite (C_bind_Done _ _ _ _ _ (wload_run _ _ Ew)). by destruct (Z.eqb_spec (u32 (Zpos a)) SENTINEL). }
  rewrite (C_bind_Done _ _ _ _ _ (wload_run _ _ Ew)), (C_bind_Done _ _ s (mwraps s) s) by done.
  unfold deref. by rewrite Ex.
Qed.

(** The state after the first use. *)
Definition initialised (a p : ptr) (m : ABTI_mutex) (s : pst) : pst :=
  Pst (setm p m (pw s)) (<[o := Zpos a]> (words s)) (<[a := MWrap 3735931646 (Some p)]> (mwraps s)) (cwraps s) (rwraps s).

Lemma get_abt_mutex_first a p junk s :
  words s !! o = Some 0 → m_wrap mal = Some a → ptr_ok (Zpos a) → m_mutex mal = Some (p, junk) →
  get_abt_mutex yield mal fuel o s = Done (a, initialised a p (Mutex 0 false 0 0 false no_waitlist) s).
Proof.
  intros Ew Ea [H0 H1] Em. destruct fuel as [|fl] eqn:Ef; [lia|]. unfold get_abt_mutex.
  set (s1 := set_words (<[o := SENTINEL]> (words s)) s). set (s4 := initialised a p (Mutex 0 false 0 0 false no_waitlist) s).
  assert (words s1 !! o = Some SENTINEL) as Ew1 by (subst s1; simpl; by rewrite lookup_insert_eq).
  assert (words s4 !! o = Some (Zpos a)) as Ew4 by (subst s4; simpl; by rewrite lookup_insert_eq).
  rewrite (C_bind_Done _ _ _ _ _ (wload_run _ _ Ew)). change (Z.eqb (u32 0) 0) with true. cbv iota.
  rewrite (C_bind_Done _ _ s () s4).
  2:{ rewrite (C_bind_Done _ _ s true s1).
      2:{ unfold cas_magic. rewrite (C_bind_Done _ _ _ _ _ (wload_run _ _ Ew)). change (Z.eqb (u32 0) 0) with true. cbv iota.
          by rewrite (C_bind_Done _ _ _ _ _ (wstore_run _ _ _ Ew)). }
      rewrite (C_bind_Done _ _ s1 ABT_SUCCESS s4); [done|].
      unfold pthread_mutex_init. rewrite Ea, Em.
      set (s2 := set_mwraps (<[a := MWrap 3735931646 None]> (mwraps s1)) s1). rewrite (C_bind_Done _ _ s1 () s2) by done.
      rewrite (C_bind_Done _ _ _ _ _ (abt_run _ _ _ _ (mutex_create_run p junk (pw s2)))).
      set (s3 := set_pw _ s2). rewrite (C_bind_Done _ _ s3 () (set_mwraps (<[a := MWrap 3735931646 (Some p)]> (mwraps s3)) s3)) by done.
      rewrite (C_bind_Done _ _ _ () s4); [done|].
      rewrite (wstore_run SENTINEL); [|done]. do 2 f_equal. subst s4 s3 s2 s1. unfold initialised, set_words, set_mwraps, set_pw. simpl.
      by rewrite !insert_insert_eq. }
  rewrite (C_bind_Done _ _ s4 () s4).
  2:{ cbn [wait_init]. rewrite (C_bind_Done _ _ _ _ _ (wload_run _ _ Ew4)). by destruct (Z.eqb_spec (u32 (Zpos a)) SENTINEL). }
  rewrite (C_bind_Done _ _ _ _ _ (wload_run _ _ Ew4)), (C_bind_Done _ _ s4 (mwraps s4) s4) by done.
  unfold deref. subst s4. simpl. by rewrite lookup_insert_eq.
Qed.

Lemma initialised_set a p m m' s : set_pw (setm p m' (setm p m (pw s))) (initialised a p m s) = initialised a p m' s.
Proof. unfold initialised, set_pw. simpl. by rewrite setm_setm. Qed.

Lemma mutex_handle_run a p m s : mutex_handle a (initialised a p m s) = Done (Some p, initialised a p m s).
Proof. unfold mutex_handle. simpl. by rewrite lookup_insert_eq. Qed.

Lemma get_initialised a p m s : ptr_ok (Zpos a) →
  get_abt_mutex yield mal fuel o (initialised a p m s) = Done (a, initialised a p m s).
Proof. intros H. eapply get_abt_mutex_again; [simpl; by rewrite lookup_insert_eq|done|simpl; by rewrite lookup_insert_eq]. Qed.

(** A mutex that was only statically initialised ([PTHREAD_MUTEX_INITIALIZER], a
    zero word) works from its first use on: locking creates the Argobots mutex
    behind it and takes it; while it is held another thread's trylock fails,
    but with the code of Argobots (40) rather than with [EBUSY], and changes
    nothing; unlocking and destroying give back everything that was
    allocated. *)
Theorem static_mutex_cycle a p junk me other s :
  words s !! o = Some 0 → m_wrap mal = Some a → m_mutex mal = Some (p, junk) → ptr_ok (Zpos a) →
  mwraps s !! a = None → mutexes (pw s) !! p = None → self_id me ≠ 0 → self_id other ≠ self_id me →
  ∃ s1 s2 s3,
    pthread_mutex_lock yield env me mal fuel o s = Done (0, s1) ∧
    pthread_mutex_trylock yield other mal fuel o s1 = Done (40, s1) ∧
    pthread_mutex_unlock yield me mal fuel o s1 = Done (0, s2) ∧
    pthread_mutex_destroy yield mal fuel o s2 = Done (0, s3) ∧
    mutexes (pw s3) = mutexes (pw s) ∧ mwraps s3 = mwraps s.
Proof.
  intros Ew Ea Em Hok Hna Hnp Hid Hne. set (m0 := Mutex 0 false 0 0 false no_waitlist).
  assert (free_mutex m0) as Hfree by done.
  exists (initialised a p (held me m0 1) s), (initialised a p m0 s),
    (Pst (set_mutexes (delete p (mutexes (setm p m0 (pw s)))) (setm p m0 (pw s))) (<[o := Zpos a]> (words s))
       (delete a (<[a := MWrap 3735931646 (Some p)]> (mwraps s))) (cwraps s) (rwraps s)).
  split_and!.
  - unfold pthread_mutex_lock. rewrite (C_bind_Done _ _ _ _ _ (get_abt_mutex_first a p junk s Ew Ea Hok Em)).
    rewrite (C_bind_Done _ _ _ _ _ (mutex_handle_run a p m0 s)).
    rewrite (abt_run _ _ ABT_SUCCESS (setm p (held me m0 1) (setm p m0 (pw s)))); [by rewrite initialised_set|].
    change (pw (initialised a p _ s)) with (setm p m0 (pw s)). unfold ABT_mutex_lock, check_null.
    by rewrite (C_bind_Done _ _ _ _ _ (lock_held p (env 0%nat) me fuel m0 (setm p m0 (pw s)) 0 Hfree Hid Hfuel (setm_lookup p m0 (pw s)) eq_refl)).
  - unfold pthread_mutex_trylock. rewrite (C_bind_Done _ _ _ _ _ (get_initialised a p _ s Hok)), (C_bind_Done _ _ _ _ _ (mutex_handle_run a p _ s)).
    rewrite (abt_run _ _ ABT_ERR_MUTEX_LOCKED (pw (initialised a p (held me m0 1) s))); [done|].
    unfold ABT_mutex_trylock, check_null.
    by rewrite (C_bind_Done _ _ _ _ _ (trylock_other p me m0 (pw (initialised a p (held me m0 1) s)) 0 other Hfree (setm_lookup p _ _) Hne)).
  - unfold pthread_mutex_unlock. rewrite (C_bind_Done _ _ _ _ _ (get_initialised a p _ s Hok)), (C_bind_Done _ _ _ _ _ (mutex_handle_run a p _ s)).
    rewrite (abt_run _ _ ABT_SUCCESS (setm p m0 (setm p (held me m0 1) (pw s)))); [by rewrite initialised_set|].
    change (pw (initialised a p _ s)) with (setm p (held me m0 1) (pw s)).
    unfold ABT_mutex_unlock, check_null. rewrite (C_bind_Done _ _ _ _ _ (assert_owned_run me p m0 _ (setm_lookup p _ (pw s)))).
    by rewrite (C_bind_Done _ _ _ _ _ (unlock_held p me m0 _ 0 Hfree (setm_lookup p _ (pw s)) eq_refl)).
  - unfold pthread_mutex_destroy. rewrite (C_bind_Done _ _ _ _ _ (get_initialised a p _ s Hok)), (C_bind_Done _ _ _ _ _ (mutex_handle_run a p _ s)).
    rewrite (C_bind_Done _ _ _ (ABT_SUCCESS, None) (set_pw (set_mutexes (delete p (mutexes (setm p m0 (pw s)))) (setm p m0 (pw s))) (initialised a p m0 s))); [done|].
    apply abt_run. unfold ABT_mutex_free. by rewrite (C_bind_Done _ _ _ _ _ (mload_run p _ _ _ (setm_lookup p m0 (pw s)))).
  - simpl. by rewrite delete_insert_id.
  - simpl. by rewrite delete_insert_id.
Qed.
End static_mutex.

Definition static_mallocs : mallocs := Mallocs (Some 4096%positive) (Some (7%positive, Mutex 5 true 5 5 true no_waitlist)) None None.
Definition static_start : pst := Pst (World ∅ ∅ ∅ ∅ ∅ []) {[ 3%positive := 0 ]} ∅ ∅ ∅.

Lemma static_mutex_cycle_witness :
  ∃ s1 s2 s3,
    pthread_mutex_lock (λ _, mret ()) (λ _ _, mret ()) (Self 11 ExtThread 9) static_mallocs 1 3 static_start = Done (0, s1) ∧
    pthread_mutex_trylock (λ _, mret ()) (Self 12 ExtThread 10) static_mallocs 1 3 s1 = Done (40, s1) ∧
    pthread_mutex_unlock (λ _, mret ()) (Self 11 ExtThread 9) static_mallocs 1 3 s1 = Done (0, s2) ∧
    pthread_mutex_destroy (λ _, mret ()) static_mallocs 1 3 s2 = Done (0, s3) ∧
    mutexes (pw s3) = mutexes (pw static_start) ∧ mwraps s3 = mwraps static_start.
Proof.
  apply (static_mutex_cycle (λ _, mret ()) (λ _ _, mret ()) static_mallocs 1 3 ltac:(lia) 4096 7 (Mutex 5 true 5 5 true no_waitlist));
    [reflexivity|reflexivity|reflexivity|split; vm_compute; discriminate|reflexivity|reflexivity|discriminate|discriminate].
Defined.
